(* ===== verification/_CoqProject ===== *)
-Q . S2P
Prelude.v
MapSum.v
Actions.v
OrderedMap.v
Identity.v
Values.v
AttributeWire.v
AttributeCodec.v
Replica.v
Delta.v
Edits.v
DiffCorrect.v
Images.v
DeltaCorrect.v
Schema.v
SchemaCorrect.v
Messages.v
MessagesCorrect.v
TimerState.v
TimerCorrect.v
Fields.v
DeliveryState.v
DeliveryCorrect.v
Records.v
RecordsCorrect.v
Storage.v
StorageCorrect.v
Programs.v
Catalog.v
CatalogCorrect.v
TimerIndex.v
TimerIndexCorrect.v
Async.v
AsyncCorrect.v
Directory.v
DirectoryCorrect.v
Transport.v
Router.v
RouterCorrect.v
Cluster.v
ClusterCorrect.v
Transfer.v
TransferCorrect.v
Delivery.v
DeliveryWorker.v
TimerService.v
TimerServiceCorrect.v
TimerScan.v
Publisher.v
Projection.v
ReplicationCorrect.v
ProjectionCorrect.v
Node.v
NodeCorrect.v
NodeSystem.v
HostJobs.v
HostRecords.v
HostCorrect.v
HostAttributes.v
HostImages.v
Host.v
HostMailbox.v
HostActions.v
HostRuns.v
HostSystem.v
Client.v
ClientMirror.v
ClientCorrect.v
ClientSystem.v
Gateway.v
GatewayInv.v
GatewayRuns.v
GatewaySystem.v
Delegation.v
DelegationCorrect.v
Scripts.v
ScriptsCorrect.v
ScriptsSystem.v
Postgres.v
PostgresCorrect.v
