(* ===== verification/Prelude.v ===== *)
(** * fsnet: a verification development

    fsnet is a C++ framework for distributed game servers: nodes connected by an
    authenticated RPC transport hold entities whose attributes are persisted under
    compare-and-swap storage, replicated to clients as deltas, and addressed by durable
    deliveries and timers.  This development models the program's own logic as executable
    functions and proves the properties that make its components correct.

    ** How the code is modelled

    Exceptions are values of [result] ([Prelude]); bytes are [list byte], machine integers
    are [N] or [Z] with the wrap-around and the checks of the code written out.  A service
    object is a record of state; each handler is a function from the state, its arguments
    and what the environment answers (clock, transport, host) to the new state and the list
    of effects it starts (messages, callbacks, storage jobs).  Callbacks that re-enter the
    service are the next events.  Storage clients that run on worker threads are programs
    of an inductive type ([Programs]), interleaved with arbitrary other clients; a [wp]
    with a rely and a guarantee states what they do to the shared store.  The systems are
    step relations over states with the history needed to state the property.

    ** Parts, files and sources

    - Prelude, MapSum, OrderedMap, Actions: exceptions, bytes, big-endian integers, tables, sums
      over tables, [std::map], and the actions (state kept across exceptions) of the client and
      of the gateway.
    - Identity: [include/fsnet/entity_id.hpp], [connection.hpp].
    - Values, AttributeWire, AttributeCodec: the attribute values and the FSA1/FSA2/FSA3 codec
      of [src/attribute_wire.cpp], with its round trip.
    - Replica, Delta, Edits, DiffCorrect, Images, DeltaCorrect:
      [AttributeReplica], [attribute_delta], [attribute_write_delta]; deltas are always
      produced, converge, and are never larger than whole replacements.
    - Schema, SchemaCorrect: [src/entity_schema.cpp], [EntityAttributes]: validity
      is invariant, publication is all or nothing, [changes] converges, a client's write
      delta stages what the plain write would.
    - Messages, MessagesCorrect: [entity_message.hpp], [src/replication_wire.cpp].
    - TimerState, TimerCorrect, TimerIndex, TimerIndexCorrect, TimerService, TimerServiceCorrect,
      TimerScan: [src/entity_timer_state.cpp], [entity_timer_index.cpp], [entity_timers.cpp]:
      rescheduling, the shared discovery index without lost updates, the scheduler of watches,
      and the scan that fires a timer.
    - Fields, DeliveryState, DeliveryCorrect, Delivery, DeliveryWorker:
      [src/entity_delivery_state.cpp], [entity_delivery.cpp]: tickets, the sweep over sources,
      one delivery at a time per source, retirement without loss.
    - Records, RecordsCorrect: [entity_snapshot.hpp], [entity_record.hpp].
    - Storage, StorageCorrect, Programs: [storage.hpp], [src/database.cpp], [file_storage.cpp],
      [storage_factory.cpp]: the class [Storage] is the contract (linearizable compare and
      swap, unique versions); the three backends are instances that implement it.
    - Postgres, PostgresCorrect: [src/postgres_database.cpp]: destinations and their policy, the
      connection, statements under an absolute deadline, the operations of [Storage].  The log
      of the calls of libpq obeys a protocol; under the meaning of the four SQL statements the
      operations are linearizable.
    - Catalog, CatalogCorrect: [src/entity_catalog.cpp], identity allocation and creation.
    - Async, AsyncCorrect: [src/async_database.cpp], the worker and its queue as a step relation.
    - Directory, DirectoryCorrect: [directory.hpp], [entity_directory.hpp], endpoint selection.
    - Transport: what the services ask of a node; Router, RouterCorrect:
      [src/entity_router.cpp]; Cluster, ClusterCorrect: [src/cluster.cpp]; Transfer,
      TransferCorrect: [src/entity_transfer.cpp].
    - Publisher, Projection, ReplicationCorrect, ProjectionCorrect: the server and the client
      half of [src/attribute_replication.cpp], and their composition.
    - Node, NodeCorrect, NodeSystem: [src/node.cpp], sessions, authentication,
      queues, calls, requests.
    - HostJobs, HostRecords, HostCorrect: the storage jobs of [src/entity_host.cpp]
      (acquisition with its lease, commit, release, registration of delivery sources) as
      programs over the storage; each write is justified whatever the other clients do, and
      along any history fences name one owner and deliveries and requests commit once.
    - HostAttributes, HostImages: the attribute image an operation opens and closes, out of
      the persisted state and the transient cache.
    - Host: the owner thread of [EntityScriptHost], a record of mailboxes, running jobs,
      admissions, releases and counters, one action per handler.  HostMailbox (the weights,
      the invariant and the [safe] triple of an action), HostActions and
      HostRuns prove it per operation; HostSystem composes them over all events and shows that
      a poll leaves nothing late.
    - Client, ClientMirror, ClientCorrect, ClientSystem: [src/client.cpp] and
      [client_script_host.hpp]: the application's connection, events, replies and handles over
      the projections of Projection; an action may throw and keeps its state, and callbacks
      may re-enter the client by disconnecting and reconnecting.
    - Gateway: [ClientGateway] of [src/client_gateway.cpp], with what it uses of its two nodes.
      Sessions, links, lookups, requests and subscriptions are tables; the C++ closures that
      wait for a route, a link or a reply are the values [task] and [continuation].  GatewayInv
      states the invariant and proves that the actions below a revocation keep it
      and that nested revocations end; GatewayRuns proves the handlers;
      GatewaySystem composes them over all operations.
    - Delegation, DelegationCorrect: [GatewayDelegation] of the same file, the owner's side:
      which transports act for which client, and what may be shown or given to them.
    - Scripts: [LuaEngine] of [src/lua_engine.cpp]: the queue of calls, the coroutines and what
      they wait for, the completions of the host, watch leases, startup, loading with its
      rollback, and the accounting of memory and work.  The Lua machine, the host and the clock
      answer through a [View] per numbered moment; a reply is a tree of what it does, so it may
      call the engine again or throw.  ScriptsCorrect proves each action, ScriptsSystem composes
      them over all events.

    ** What the theorems show

    Refinement: deltas, replication end to end, proposals, storage backends (PostgreSQL too), and the events an
    application is told, which rebuild its client's state.  Safety:
    every request of the router, the mesh, the transfer service, the entity host, the client,
    the gateway, the script engine and the node is answered exactly once (the statements name the
    exceptions: a message in storage when its host stops, an operation that throws instead, a watch answered
    with a subscription the client has); the calls of an entity
    run one at a time in their order, and no subscription of a script leaks; the gateway serves a client only over
    links delegated to that client's subject and connection, and an owner shows entities only
    to a delegated peer whose server is still trusted; an entity is written only under its fence, and an
    entity that leaves its host leaves with an empty mailbox; identities are unique; creation is idempotent; deliveries
    and timers are not lost by concurrent maintenance; nothing is published without
    permission, and no application traffic precedes the proof of the shared token.
    Invariants: queues, budgets and tables are exact and bounded.  Liveness and
    termination: sweeps and polls reach what is due and answer what is late, the executor drains, a ready
    probe makes a service available, the handshake of two nodes completes.  Round trips and
    equivalences: the wire formats, and the partial readers with the full ones.

    ** Bounds and fuel

    Loops over containers are structural.  Where the code bounds its own retries (128
    attempts of [refill], 8 of [retire] and of [arm]) the bound is the code's.  The
    decoders recurse on the nesting depth, which the code limits to 8; the fuel is
    that limit.  The polling loops take the count the code takes before it starts.  In the
    gateway a revocation answers requests and closes links, which may revoke again: each level
    removes a session or a call, so the fuel is the number of both and one more, and
    [GatewaySystem.gateway_answers_once] shows it is never used up.  The histories of the
    gateway number links and subscriptions below [2^64 - 1], the bound its own request
    admission checks.  In the script engine the queue expires with its length as fuel, a poll
    runs at most the turns it is given, and stopping takes as many rounds as there are tasks;
    the histories number tasks below [2^64].  The loops of the PostgreSQL backend take a fuel;
    the clock is part of its state, and [PostgresCorrect.postgres_ends] shows that a fuel worth
    more than five seconds of calls is never used up, and that no operation outlasts its deadline
    but for a millisecond and eleven calls.

    ** Parameters

    SHA-256, HMAC, random bytes, the clock, sockets, TLS, the SQL engine and the file
    system's calls are arguments.  Hypotheses on them are named in the statements: none on
    SHA-256 but the absence of the collision in question, fresh versions of storage, the
    meaning of the four SQL statements and that libpq answers the statement it was sent, bounds on
    how long one call of libpq takes, and, in the client, that no reply names a
    subscription the client already has.

    ** Not modelled

    Of [src/entity_host.cpp] the setters that
    install listeners and the delegation of foreign routes to the parent host are left out;
    callbacks of the host's application are outputs and one operation reads the clock once.
    The application's callbacks of the gateway do not call it back.
    Of [src/lua_engine.cpp] the conversions between Lua tables and attribute values, the
    attribute objects and the C functions given to scripts work on the stack of the Lua
    machine.  The ICE wrapper and the C API bind external libraries.
    Callbacks that destroy the service that calls them, memory exhaustion and the destructors'
    order are outside the model; so are the file locks of the storage backends (a
    locked replacement is one step). *)

From Stdlib Require Export NArith ZArith Lia.
From Stdlib Require Export Strings.Byte.
From Stdlib Require Strings.String.
Export Strings.String.StringSyntax.
From stdpp Require Export base tactics list decidable numbers sets.

#[global] Open Scope N_scope.

(** ** Exceptions

    The code reports every failure by a C++ exception.  [exn] keeps the classes
    the code distinguishes: a handler that catches [std::length_error] only must
    let the others through.  [replica_budget] is the program's own
    [AttributeReplicaBudget], a [std::length_error]; [creation_conflict] its
    [EntityCreationConflict], a [std::runtime_error]. *)

Inductive exn :=
  | invalid_argument | runtime_error | length_error | overflow_error
  | out_of_range | logic_error | bad_variant_access | replica_budget
  | system_error | creation_conflict.

#[global] Instance exn_eq_dec : EqDecision exn.
Proof. solve_decision. Defined.

(** [catch (const std::length_error&)] *)
Definition is_length_error (e : exn) : bool :=
  match e with length_error | replica_budget => true | _ => false end.

Inductive result (A : Type) :=
  | Ok (a : A)
  | Throw (e : exn).
Arguments Ok {A} a.
Arguments Throw {A} e.

#[global] Instance result_eq_dec `{EqDecision A} : EqDecision (result A).
Proof. solve_decision. Defined.

Definition bind {A B} (m : result A) (f : A -> result B) : result B :=
  match m with Ok a => f a | Throw e => Throw e end.

Declare Scope fsnet_scope.
Delimit Scope fsnet_scope with fsnet.
#[global] Open Scope fsnet_scope.

Notation "'let*' x := m 'in' k" := (bind m (fun x => k))
  (at level 10, x name, m at level 100, k at level 200,
   format "'[v' let*  x  :=  m  in  '/' k ']'") : fsnet_scope.
Notation "'let*' ' p := m 'in' k" := (bind m (fun y => let 'p := y in k))
  (at level 10, p strict pattern, m at level 100, k at level 200,
   format "'[v' let*  ' p  :=  m  in  '/' k ']'") : fsnet_scope.
Notation "'throw_if' b 'as' e ;; k" := (if b then Throw e else k)
  (at level 10, b at level 99, e at level 0, k at level 200,
   format "'[v' throw_if  b  as  e  ;; '/' k ']'") : fsnet_scope.

Definition is_ok {A} (m : result A) : bool :=
  match m with Ok _ => true | Throw _ => false end.

(** A loop whose body may throw: [for (x : l) s = f(s, x)]. *)
Section FoldResult.
Context {S A : Type} (f : S -> A -> result S).
Fixpoint fold_result (l : list A) (s : S) : result S :=
    match l with
    | [] => Ok s
    | x :: l' => bind (f s x) (fold_result l')
    end.
End FoldResult.

(** A counted loop [for (i = 0; i < n; ++i) s = f(s)]. *)
Section IterResult.
Context {S : Type} (f : S -> result S).
Fixpoint iter_result (n : nat) (s : S) : result S :=
    match n with
    | O => Ok s
    | Datatypes.S n' => bind (f s) (iter_result n')
    end.
End IterResult.

(** [injection] would reduce the two values. *)
Lemma Ok_inj {A} (a b : A) : Ok a = Ok b -> a = b.
Proof. congruence. Qed.

Lemma bind_ok {A B} (m : result A) (f : A -> result B) b :
  bind m f = Ok b <-> exists a, m = Ok a /\ f a = Ok b.
Proof. destruct m; simpl; [split; [by exists a|by intros (? & [= ->] & ?)]|].
  by split; [|intros (? & ? & ?)]. Qed.

Lemma fold_result_app {S A} (f : S -> A -> result S) l1 l2 s :
  fold_result f (l1 ++ l2) s = bind (fold_result f l1 s) (fold_result f l2).
Proof. revert s. induction l1 as [|x l1 IH]; intros s; simpl; [done|].
  destruct (f s x); simpl; auto. Qed.

Lemma fold_result_ext {S A} (f g : S -> A -> result S) l s :
  (forall x s', x ∈ l -> f s' x = g s' x) -> fold_result f l s = fold_result g l s.
Proof.
  revert s. induction l as [|x l IH]; intros s H; simpl; [done|].
  rewrite (H x s) by set_solver. destruct (g s x); simpl; [|done].
  apply IH. set_solver.
Qed.

(** A loop whose body returns under an invariant returns, and keeps it. *)
Lemma fold_result_total {S A} (f : S -> A -> result S) (P : S -> Prop) l s :
  P s -> (forall x s1, x ∈ l -> P s1 -> exists s2, f s1 x = Ok s2 /\ P s2) ->
  exists s', fold_result f l s = Ok s' /\ P s'.
Proof.
  revert s. induction l as [|x l IH]; intros s Hs Hf; simpl; [by exists s|].
  destruct (Hf x s) as (s1 & -> & H1); [set_solver|done|]. simpl. apply IH; [done|].
  intros. apply Hf; [set_solver|done].
Qed.

(** [fold_result_inv]: an invariant of the loop body is an invariant of the loop. *)
Lemma fold_result_inv {S A} (f : S -> A -> result S) (P : S -> Prop) l s s' :
  P s -> (forall x s1 s2, x ∈ l -> P s1 -> f s1 x = Ok s2 -> P s2) ->
  fold_result f l s = Ok s' -> P s'.
Proof.
  revert s. induction l as [|x l IH]; intros s Hs Hf; simpl; [naive_solver|].
  intros (s1 & H1 & H2)%bind_ok. eapply IH; [| |exact H2].
  - eapply Hf; [|exact Hs|exact H1]. set_solver.
  - intros. eapply Hf; [|eassumption..]. set_solver.
Qed.

Lemma iter_result_inv {S} (f : S -> result S) (P : S -> Prop) n s s' :
  P s -> (forall s1 s2, P s1 -> f s1 = Ok s2 -> P s2) -> iter_result f n s = Ok s' -> P s'.
Proof.
  intros Hs Hf. revert s Hs. induction n as [|n IH]; intros s Hs; simpl; [by intros [= <-]|].
  intros (s1 & H1 & H2)%bind_ok. by eapply IH; [eapply Hf|].
Qed.

(** A loop that appends what it writes for each element. *)
Lemma fold_result_append {A B} (f : list B -> A -> result (list B)) (w : A -> list B) (P : A -> Prop) l :
  (forall x out out', f out x = Ok out' -> P x /\ out' = out ++ w x) ->
  forall out out', fold_result f l out = Ok out' -> Forall P l /\ out' = out ++ concat (map w l).
Proof.
  intros Hf. induction l as [|x l IH]; intros out out'; simpl.
  - intros [= <-]. by rewrite app_nil_r.
  - intros (o & [Hx ->]%Hf & H)%bind_ok. apply IH in H as [Hl ->]. by rewrite <- app_assoc; auto.
Qed.

(** [inv_ok] inverts hypotheses [m = Ok x] through binds, guards and pairs. *)
Ltac inv_ok_step :=
  match goal with
  | H : Ok _ = Ok _ |- _ => injection H as H; subst
  | H : Throw _ = Ok _ |- _ => discriminate H
  | H : Ok _ = Throw _ |- _ => discriminate H
  | H : bind ?m _ = Ok _ |- _ =>
      let a := fresh "a" in let E := fresh "E" in
      apply bind_ok in H; destruct H as (a & E & H); cbv beta in H
  | H : (let '(_, _) := ?p in _) = Ok _ |- _ =>
      first [ is_var p; destruct p | let E := fresh "E" in destruct p eqn:E ];
      cbv beta iota in H
  | H : (if ?b then _ else _) = Ok _ |- _ =>
      let E := fresh "E" in destruct b eqn:E
  | H : (_, _) = (_, _) |- _ => injection H as H; subst
  end.
Ltac inv_ok := repeat (progress (inv_ok_step; try subst)).

(** [bool_prop] turns boolean guards over the integers into propositions. *)
Ltac bool_prop :=
  rewrite ?orb_false_iff, ?orb_true_iff, ?andb_true_iff, ?andb_false_iff,
    ?negb_true_iff, ?negb_false_iff,
    ?N.ltb_lt, ?N.ltb_ge, ?N.leb_le, ?N.leb_gt, ?N.eqb_eq, ?N.eqb_neq,
    ?Z.ltb_lt, ?Z.ltb_ge, ?Z.leb_le, ?Z.leb_gt, ?Z.eqb_eq, ?Z.eqb_neq,
    ?Nat.ltb_lt, ?Nat.ltb_ge, ?Nat.leb_le, ?Nat.leb_gt, ?Nat.eqb_eq, ?Nat.eqb_neq in *.

(** [lia] with quotients and remainders by constants. *)
Ltac lia_div := zify; Z.to_euclidean_division_equations; lia.

(** Case enumeration over the integers below a bound, for [vm_compute]. *)
Lemma in_seq_N d k : d < N.of_nat k -> In d (map N.of_nat (seq 0 k)).
Proof.
  intros H. apply in_map_iff. exists (N.to_nat d). split; [lia|]. apply in_seq. lia.
Qed.

(** ** Bytes

    [std::string] and [std::string_view] are byte lists; a [char] written or read
    as an integer is its unsigned value. *)

Abbreviation byte := Byte.byte.
Abbreviation bytes := (list Byte.byte).

#[global] Instance byte_eq_dec : EqDecision byte := Byte.byte_eq_dec.

Definition byte_val (b : byte) : N := Byte.to_N b.

(** [static_cast<char>(n)]: the low eight bits. *)
Definition byte_of (n : N) : byte :=
  match Byte.of_N (n mod 256) with Some b => b | None => x00 end.

(** A literal of the source, e.g. [lit "FSA1"]. *)
Definition lit (s : String.string) : bytes := String.list_byte_of_string s.
#[global] Arguments lit s%_string_scope.

Definition size (s : bytes) : N := N.of_nat (length s).

Lemma byte_val_lt b : byte_val b < 256.
Proof. unfold byte_val. pose proof (Byte.to_N_bounded b). lia. Qed.

Lemma byte_val_of n : byte_val (byte_of n) = n mod 256.
Proof.
  unfold byte_val, byte_of. destruct (Byte.of_N (n mod 256)) eqn:E.
  - by apply Byte.to_of_N.
  - apply Byte.of_N_None_iff in E. pose proof (N.mod_upper_bound n 256). lia.
Qed.

Lemma byte_of_val b : byte_of (byte_val b) = b.
Proof.
  unfold byte_of, byte_val. rewrite N.mod_small by apply byte_val_lt.
  by rewrite Byte.of_to_N.
Qed.

#[global] Instance byte_val_inj : Inj (=) (=) byte_val.
Proof. intros a b H. by rewrite <- (byte_of_val a), H, byte_of_val. Qed.

Fixpoint bytes_eqb (a b : bytes) : bool :=
  match a, b with
  | [], [] => true
  | x :: a', y :: b' => Byte.eqb x y && bytes_eqb a' b'
  | _, _ => false
  end.

Lemma bytes_eqb_eq a b : bytes_eqb a b = true <-> a = b.
Proof.
  revert b. induction a as [|x a IH]; intros [|y b]; simpl; try done.
  rewrite andb_true_iff, IH. split.
  - intros [H ->]. by apply Byte.byte_dec_bl in H as ->.
  - intros [= -> ->]. split; [|done]. by apply Byte.byte_dec_lb.
Qed.

Lemma bytes_eqb_refl a : bytes_eqb a a = true.
Proof. by apply bytes_eqb_eq. Qed.

Lemma bytes_eqb_neq a b : bytes_eqb a b = false <-> a <> b.
Proof. rewrite <- bytes_eqb_eq. by destruct (bytes_eqb a b). Qed.

Lemma bytes_eqb_spec a b : reflect (a = b) (bytes_eqb a b).
Proof. apply iff_reflect. by rewrite bytes_eqb_eq. Qed.

Definition is_empty {A} (s : list A) : bool := match s with [] => true | _ => false end.

Lemma is_empty_true {A} (s : list A) : is_empty s = true <-> s = [].
Proof. by destruct s. Qed.
Lemma is_empty_false {A} (s : list A) : is_empty s = false <-> s <> [].
Proof. by destruct s. Qed.

(** [s.starts_with(p)]. *)
Fixpoint starts_with (p s : bytes) : bool :=
  match p, s with
  | [], _ => true
  | x :: p', y :: s' => Byte.eqb x y && starts_with p' s'
  | _, _ => false
  end.

Lemma starts_with_app p s : starts_with p (p ++ s) = true.
Proof. induction p; simpl; [done|]. rewrite IHp, andb_true_r. by apply Byte.byte_dec_lb. Qed.

Lemma starts_with_true p s : starts_with p s = true <-> exists r, s = p ++ r.
Proof.
  split; [|intros [r ->]; apply starts_with_app].
  revert s. induction p as [|x p IH]; intros [|y s]; simpl; try done; try by eexists.
  intros [->%Byte.byte_dec_bl (r & ->)%IH]%andb_true_iff. by exists r.
Qed.

(** [s.find_first_of(set) != npos]. *)
Definition has_any (set s : bytes) : bool :=
  existsb (fun c => existsb (Byte.eqb c) set) s.
(** [".\0"], the separators no name may contain, and ["\0"]. *)
Definition dot_nul : bytes := [x2e; x00].
Definition nul : bytes := [x00].

(** [s.front()] of a non-empty string as a comparison. *)
Definition front_is (c : byte) (s : bytes) : bool :=
  match s with b :: _ => Byte.eqb b c | [] => false end.

Lemma size_app a b : size (a ++ b) = size a + size b.
Proof. unfold size. rewrite length_app. lia. Qed.
Lemma size_cons x a : size (x :: a) = 1 + size a.
Proof. unfold size. simpl length. lia. Qed.
Lemma size_nil : size [] = 0.
Proof. done. Qed.
Lemma size_0 s : size s = 0 <-> s = [].
Proof. destruct s; [done|]. rewrite size_cons. split; [lia|done]. Qed.

Create HintDb fsnet.
Create Rewrite HintDb wire.
#[export] Hint Rewrite size_app size_cons size_nil : wire.

(** ** Big-endian integers

    Every wire format of the program writes integers big-endian with one of
    several copies of the same two loops ([put]/[get], [integer], [number]):
    [put_be n v] appends the [n] low bytes of [v], [get_be] folds them back into a
    64-bit accumulator. *)

Definition wrap64 (n : N) : N := n mod 2 ^ 64.
Definition u64_max : N := 2 ^ 64 - 1.
Definition u32_max : N := 2 ^ 32 - 1.
Definition i64_max : N := 2 ^ 63 - 1.

Fixpoint put_be (count : nat) (n : N) : bytes :=
  match count with
  | O => []
  | Datatypes.S c => byte_of (N.shiftr n (8 * N.of_nat c)) :: put_be c n
  end.

(** One round of the reading loops: [n = (n << 8) | byte], on [std::uint64_t]. *)
Definition shift_in (n : N) (b : byte) : N := wrap64 (N.lor (N.shiftl n 8) (byte_val b)).

(** [get(in, count)]: throws [e] on short input, else the value and the rest. *)
Definition get_be (e : exn) (count : nat) (input : bytes) : result (N * bytes) :=
  throw_if size input <? N.of_nat count as e ;;
  Ok (fold_left shift_in (take count input) 0, drop count input).

Lemma length_put_be c n : length (put_be c n) = c.
Proof. induction c; simpl; auto. Qed.
Lemma size_put_be c n : size (put_be c n) = N.of_nat c.
Proof. unfold size. by rewrite length_put_be. Qed.
#[export] Hint Rewrite size_put_be : wire.

Lemma lor_shift8 n b : b < 256 -> N.lor (N.shiftl n 8) b = n * 256 + b.
Proof.
  intros Hb. rewrite N.shiftl_mul_pow2. change (2 ^ 8) with 256.
  rewrite N.lor_comm, (N.add_comm (n * 256)).
  symmetry. rewrite N.add_nocarry_lxor, N.lxor_lor; [done|..].
  all: apply N.bits_inj; intros i; rewrite N.land_spec, N.bits_0;
    destruct (N.lt_ge_cases i 8) as [Hi|Hi];
    [change 256 with (2 ^ 8); rewrite N.mul_pow2_bits_low by done; apply andb_false_r|].
  all: rewrite <- (N.mod_small b (2 ^ 8)) by done; by rewrite N.mod_pow2_bits_high.
Qed.

(** The bytes written depend only on the low bytes of the value. *)
Lemma put_be_mod k c n : (k <= c)%nat -> put_be k n = put_be k (n mod 256 ^ N.of_nat c).
Proof.
  induction k as [|k IHk]; intros Hk; [done|]. cbn [put_be]. rewrite IHk by lia. f_equal.
  apply (inj byte_val). rewrite !byte_val_of. apply N.bits_inj. intros i.
  change 256 with (2 ^ 8). destruct (N.lt_ge_cases i 8) as [Hi|Hi];
    [|by rewrite !N.mod_pow2_bits_high].
  rewrite !N.mod_pow2_bits_low, !N.shiftr_spec' by done.
  rewrite <- N.pow_mul_r. rewrite N.mod_pow2_bits_low by lia. done.
Qed.

(** Every string of [c] bytes is some integer written with [c] bytes. *)
Lemma put_be_surj s : exists n, n < 256 ^ size s /\ s = put_be (length s) n.
Proof.
  induction s as [|b s (n & Hn & E)]; [by exists 0|]. unfold size in *.
  exists (byte_val b * 256 ^ N.of_nat (length s) + n). pose proof (byte_val_lt b) as Hb.
  cbn [length put_be]. rewrite Nat2N.inj_succ, N.pow_succ_r'. set (p := 256 ^ N.of_nat (length s)) in *.
  assert (Hp : p <> 0) by (apply N.pow_nonzero; lia). split; [nia|]. f_equal.
  - apply (inj byte_val). rewrite byte_val_of, N.shiftr_div_pow2, (N.pow_mul_r 2 8). change (2 ^ 8) with 256. fold p.
    rewrite N.div_add_l by done. rewrite (N.div_small n p), N.add_0_r by done. by rewrite N.mod_small.
  - rewrite (put_be_mod (length s) (length s)) by lia. fold p. rewrite N.add_comm, N.Div0.mod_add.
    rewrite N.mod_small by done. exact E.
Qed.

Lemma get_put_fold c n acc :
  n < 256 ^ N.of_nat c -> acc * 256 ^ N.of_nat c + n < 2 ^ 64 ->
  fold_left shift_in (put_be c n) acc = acc * 256 ^ N.of_nat c + n.
Proof.
  revert n acc. induction c as [|c IH]; intros n acc Hn Hacc.
  - simpl in *. lia.
  - cbn [put_be fold_left]. unfold shift_in at 2.
    rewrite byte_val_of, N.shiftr_div_pow2, (N.pow_mul_r 2 8).
    change (2 ^ 8) with 256.
    rewrite Nat2N.inj_succ, N.pow_succ_r' in *.
    assert (Hpos : 256 ^ N.of_nat c <> 0) by (apply N.pow_nonzero; lia).
    set (p := 256 ^ N.of_nat c) in *.
    assert (Hd : n / p < 256) by (apply N.Div0.div_lt_upper_bound; lia).
    rewrite (N.mod_small (n / p)) by done. rewrite lor_shift8 by done.
    pose proof (N.div_mod n p Hpos) as Hdm. pose proof (N.mod_upper_bound n p Hpos) as Hm.
    assert (E : put_be c n = put_be c (n mod p)) by (by apply put_be_mod).
    clearbody p. set (q := n / p) in *. set (r := n mod p) in *. clearbody q r.
    assert (Hx : (acc * 256 + q) * p + r = acc * (256 * p) + n) by lia.
    assert (Hle : acc * 256 + q <= (acc * 256 + q) * p).
    { rewrite <- (N.mul_1_r (acc * 256 + q)) at 1. apply N.mul_le_mono_l. lia. }
    rewrite E. unfold wrap64. rewrite N.mod_small by lia.
    rewrite IH by lia. lia.
Qed.

Lemma get_put_be e c n rest :
  (c <= 8)%nat -> n < 256 ^ N.of_nat c ->
  get_be e c (put_be c n ++ rest) = Ok (n, rest).
Proof.
  intros Hc Hn. unfold get_be. rewrite size_app, size_put_be.
  rewrite (proj2 (N.ltb_ge _ _)) by lia.
  rewrite take_app_le, drop_app_le by (rewrite length_put_be; lia).
  rewrite take_ge, drop_ge by (rewrite length_put_be; lia). simpl.
  rewrite get_put_fold; [done|done|].
  assert (256 ^ N.of_nat c <= 256 ^ 8) by (apply N.pow_le_mono_r; lia).
  change (256 ^ 8) with (2 ^ 64) in *. lia.
Qed.

Lemma get_be_bound e c input n rest :
  get_be e c input = Ok (n, rest) -> n < 2 ^ 64.
Proof.
  unfold get_be. intros H. inv_ok. destruct (take c input) as [|b l] using rev_ind; [done|].
  rewrite fold_left_app. cbn [fold_left]. by apply N.mod_upper_bound.
Qed.

(** What was read is what would be written. *)
Lemma get_be_inv e c input n rest : (c <= 8)%nat ->
  get_be e c input = Ok (n, rest) -> input = put_be c n ++ rest /\ n < 256 ^ N.of_nat c.
Proof.
  intros Hc. unfold get_be. destruct (N.ltb_spec (size input) (N.of_nat c)) as [|Hl]; [done|]. intros [= <- <-].
  assert (El : length (take c input) = c) by (rewrite length_take; unfold size in Hl; lia).
  destruct (put_be_surj (take c input)) as (n & Hn & E). unfold size in Hn. rewrite El in Hn, E.
  assert (Ev : fold_left shift_in (take c input) 0 = n).
  { rewrite E, get_put_fold; [lia|done|]. assert (256 ^ N.of_nat c <= 256 ^ 8) by (apply N.pow_le_mono_r; lia).
    change (256 ^ 8) with (2 ^ 64) in *. lia. }
  rewrite Ev. split; [|done]. rewrite <- E. by rewrite take_drop.
Qed.
