(* ===== verification/MapSum.v ===== *)
(** * Sums over tables

    The services account bytes and replies over tables of shared objects; these are the sums,
    and the permutations of names, that their invariants use. *)

From stdpp Require Import gmap.
From S2P Require Import Prelude.

Section Sum.
Context {K : Type} `{Countable K} {A : Type} (f : A -> N).

Definition msum (m : gmap K A) : N := map_fold (fun _ a n => f a + n) 0 m.

Lemma msum_empty : msum ∅ = 0.
Proof. apply map_fold_empty. Qed.

Lemma msum_insert m k a : m !! k = None -> msum (<[k := a]> m) = f a + msum m.
Proof. intros Hk. unfold msum. rewrite map_fold_insert_L; [done|intros; lia|done]. Qed.

Lemma msum_delete m k a : m !! k = Some a -> msum m = f a + msum (delete k m).
Proof. intros Hk. rewrite <- (insert_delete_id m k a Hk) at 1. by rewrite msum_insert by apply lookup_delete_eq. Qed.

Lemma msum_replace m k a b : m !! k = Some a -> msum (<[k := b]> m) + f a = f b + msum m.
Proof.
  intros Hk. rewrite <- insert_delete_eq, msum_insert by apply lookup_delete_eq. rewrite (msum_delete m k a Hk). lia.
Qed.

Lemma msum_lookup m k a : m !! k = Some a -> f a <= msum m.
Proof. intros Hk. rewrite (msum_delete m k a Hk). lia. Qed.
End Sum.
Arguments msum_insert {_ _ _ _ f} m k a _.
Arguments msum_delete {_ _ _ _ f} m k a _.
Arguments msum_replace {_ _ _ _ f} m k a b _.
Arguments msum_lookup {_ _ _ _ f} m k a _.

(** The names [g] reads off the entries of a table. *)
Section Names.
Context {K : Type} `{Countable K} {A B : Type} (g : A -> B).

Definition mnames (m : gmap K A) : list B := map (fun e => g e.2) (map_to_list m).

Lemma mnames_empty : mnames ∅ = [].
Proof. unfold mnames. by rewrite map_to_list_empty. Qed.

Lemma mnames_insert m k a : m !! k = None -> mnames (<[k := a]> m) ≡ₚ g a :: mnames m.
Proof. intros Hk. unfold mnames. by rewrite map_to_list_insert by done. Qed.

Lemma mnames_delete m k a : m !! k = Some a -> mnames m ≡ₚ g a :: mnames (delete k m).
Proof. intros Hk. rewrite <- (insert_delete_id m k a Hk) at 1. by rewrite mnames_insert by apply lookup_delete_eq. Qed.
End Names.
Arguments mnames_insert {_ _ _ _ _ _} m k a _.
Arguments mnames_delete {_ _ _ _ _ _} m k a _.
