(* ===== verification/Actions.v ===== *)
(** * Stateful code that may throw

    An action runs on a state and returns a value or an exception; the state survives the
    exception, as it does when C++ unwinds.  [runs P m Q X] is its partial-correctness triple
    with a postcondition for each way out; every action terminates, so it is total too. *)

From S2P Require Import Prelude.

Definition act (S A : Type) : Type := S -> result A * S.
#[export] Instance act_ret {S} : MRet (act S) := fun A a s => (Ok a, s).
#[export] Instance act_bind {S} : MBind (act S) := fun A B k m s => match m s with (Ok a, s') => k a s' | (Throw e, s') => (Throw e, s') end.

Definition state {S} : act S S := fun s => (Ok s, s).
Definition modify {S} (f : S -> S) : act S unit := fun s => (Ok tt, f s).
Definition raise {S A} (e : exn) : act S A := fun s => (Throw e, s).
(** [try { m } catch (...) { h }] *)
Definition attempt {S A} (m : act S A) (h : exn -> act S A) : act S A := fun s => match m s with (Ok a, s') => (Ok a, s') | (Throw e, s') => h e s' end.
Definition done {S} : act S unit := mret tt.
Definition when {S} (b : bool) (m : act S unit) : act S unit := if b then m else done.
Fixpoint for_each {S A} (f : A -> act S unit) (l : list A) : act S unit := match l with [] => done | a :: l => f a;; for_each f l end.
(** A call of code without effects. *)
Definition lift {S A} (r : result A) : act S A := fun s => (r, s).

(** ** Running an action *)

Section Runs.
Context {S : Type}.
Implicit Types (P : S -> Prop) (X : S -> Prop).

Definition runs {A} P (m : act S A) (Q : A -> S -> Prop) X : Prop :=
  forall s, P s -> match m s with (Ok a, s') => Q a s' | (Throw _, s') => X s' end.

Lemma runs_bind {A B} P (m : act S A) (k : A -> act S B) R Q X : runs P m R X -> (forall a, runs (R a) (k a) Q X) -> runs P (m ≫= k) Q X.
Proof. intros Hm Hk s Hs. specialize (Hm s Hs). unfold mbind, act_bind. destruct (m s) as [[a|e] s']; [by apply Hk|done]. Qed.

Lemma runs_assoc {A B C} P (a : act S A) (b : A -> act S B) (k : B -> act S C) Q X : runs P ((a ≫= b) ≫= k) Q X -> runs P (a ≫= fun x => b x ≫= k) Q X.
Proof. intros H s Hs. specialize (H s Hs). unfold mbind, act_bind in *. by destruct (a s) as [[x|] s']. Qed.

Lemma runs_ret {A} P (a : A) Q X : (forall s, P s -> Q a s) -> runs P (mret a) Q X.
Proof. intros H s Hs. by apply H. Qed.

Lemma runs_done P Q X : (forall s, P s -> Q tt s) -> runs P done Q X.
Proof. apply runs_ret. Qed.

Lemma runs_modify P f Q X : (forall s, P s -> Q tt (f s)) -> runs P (modify f) Q X.
Proof. intros H s Hs. by apply H. Qed.

Lemma runs_raise {A} P e (Q : A -> S -> Prop) X : (forall s, P s -> X s) -> runs P (raise e) Q X.
Proof. intros H s Hs. by apply H. Qed.

Lemma runs_lift {A} P (r : result A) Q X : (forall a s, r = Ok a -> P s -> Q a s) -> (forall s, P s -> X s) -> runs P (lift r) Q X.
Proof. intros H1 H2 s Hs. unfold lift. destruct r; [by apply H1|by apply H2]. Qed.

Lemma runs_state {B} P (k : S -> act S B) Q X : (forall s0, P s0 -> runs (fun s => s = s0 /\ P s) (k s0) Q X) -> runs P (state ≫= k) Q X.
Proof. intros H s Hs. by apply (H s Hs s). Qed.

Lemma runs_attempt {A} P (m : act S A) h Q X Y : runs P m Q Y -> (forall e, runs Y (h e) Q X) -> runs P (attempt m h) Q X.
Proof. intros Hm Hh s Hs. specialize (Hm s Hs). unfold attempt. destruct (m s) as [[a|e] s']; [done|by apply Hh]. Qed.

Lemma runs_weaken {A} P P' (m : act S A) (Q Q' : A -> S -> Prop) X X' : runs P m Q X -> (forall s, P' s -> P s) -> (forall a s, Q a s -> Q' a s) -> (forall s, X s -> X' s) -> runs P' m Q' X'.
Proof. intros H H1 H2 H3 s Hs. specialize (H s (H1 s Hs)). destruct (m s) as [[a|e] s']; auto. Qed.

Lemma runs_each {A} P (f : A -> act S unit) l X : (forall a, a ∈ l -> runs P (f a) (fun _ => P) X) -> runs P (for_each f l) (fun _ => P) X.
Proof.
  induction l as [|a l IH]; intros H; cbn; [by apply runs_done|]. eapply runs_bind; [apply H; by left|]. intros []. apply IH. intros b Hb. apply H. by right.
Qed.

Lemma runs_when P b (m : act S unit) Q X : (b = true -> runs P m Q X) -> (b = false -> forall s, P s -> Q tt s) -> runs P (when b m) Q X.
Proof. intros H1 H2. destruct b; [by apply H1|]. by apply runs_done, H2. Qed.
End Runs.
