(* ===== verification/OrderedMap.v ===== *)
(** * std::map<std::string, V>

    The program keeps named values in [std::map], whose iteration order is the
    order of the keys and reaches the wire in every encoder.  A map is the list of
    its entries in iteration order; [sorted_keys] is the container's invariant.
    Keys compare as [std::string] does: lexicographically on unsigned bytes. *)

From S2P Require Import Prelude.

Fixpoint bytes_cmp (a b : bytes) : comparison :=
  match a, b with
  | [], [] => Eq
  | [], _ :: _ => Lt
  | _ :: _, [] => Gt
  | x :: a', y :: b' =>
      match byte_val x ?= byte_val y with Eq => bytes_cmp a' b' | c => c end
  end.

Definition bytes_lt (a b : bytes) : Prop := bytes_cmp a b = Lt.

Lemma bytes_cmp_eq a b : bytes_cmp a b = Eq <-> a = b.
Proof.
  revert b. induction a as [|x a IH]; intros [|y b]; simpl; try done.
  destruct (byte_val x ?= byte_val y) eqn:E.
  - apply N.compare_eq in E. apply (inj byte_val) in E as ->. rewrite IH. naive_solver.
  - split; [done|]. intros [= -> ->]. by rewrite N.compare_refl in E.
  - split; [done|]. intros [= -> ->]. by rewrite N.compare_refl in E.
Qed.

Lemma bytes_cmp_refl a : bytes_cmp a a = Eq.
Proof. by apply bytes_cmp_eq. Qed.

Lemma bytes_cmp_antisym a b : bytes_cmp b a = CompOpp (bytes_cmp a b).
Proof.
  revert b. induction a as [|x a IH]; intros [|y b]; simpl; try done.
  rewrite (N.compare_antisym (byte_val x)). destruct (byte_val x ?= byte_val y); simpl; auto.
Qed.

Lemma bytes_cmp_gt a b : bytes_cmp a b = Gt <-> bytes_lt b a.
Proof. unfold bytes_lt. rewrite (bytes_cmp_antisym a b). by destruct (bytes_cmp a b). Qed.

#[global] Instance bytes_lt_trans : Transitive bytes_lt.
Proof.
  unfold bytes_lt. intros a. induction a as [|x a IH]; intros [|y b] [|z c]; simpl; try done.
  destruct (N.compare_spec (byte_val x) (byte_val y)) as [E1|E1|E1]; try done;
  destruct (N.compare_spec (byte_val y) (byte_val z)) as [E2|E2|E2]; try done;
  destruct (N.compare_spec (byte_val x) (byte_val z)) as [E3|E3|E3]; try done; try lia.
  apply IH.
Qed.

Lemma bytes_lt_irrefl a : ~ bytes_lt a a.
Proof. intros H. unfold bytes_lt in H. by rewrite bytes_cmp_refl in H. Qed.

Section Map.
Context {V : Type}.
Implicit Types (m : list (bytes * V)) (k : bytes) (v : V).

Definition keys m : list bytes := m.*1.

(** [m.find(k)] *)
Fixpoint map_find k m : option V :=
  match m with
  | [] => None
  | (k', v) :: m' => if bytes_eqb k k' then Some v else map_find k m'
  end.

(** [m.contains(k)] *)
Definition map_contains k m : bool := bool_decide (is_Some (map_find k m)).

(** [m.at(k)] *)
Definition map_at k m : result V :=
  match map_find k m with Some v => Ok v | None => Throw out_of_range end.

(** [m.insert_or_assign(k, v)] *)
Fixpoint map_insert k v m : list (bytes * V) :=
  match m with
  | [] => [(k, v)]
  | (k', v') :: m' =>
      match bytes_cmp k k' with
      | Lt => (k, v) :: m
      | Eq => (k, v) :: m'
      | Gt => (k', v') :: map_insert k v m'
      end
  end.

(** [m.emplace(k, v)]: an existing entry is kept; the flag says whether a new one
    was made. *)
Definition map_emplace k v m : list (bytes * V) * bool :=
  if map_contains k m then (m, false) else (map_insert k v m, true).

(** [m.erase(k)] *)
Definition map_erase k m : list (bytes * V) :=
  List.filter (fun e => negb (bytes_eqb k e.1)) m.

(** The container invariant: keys strictly increasing. *)
Fixpoint sorted_keys m : bool :=
  match m with
  | [] => true
  | (k, _) :: m' =>
      match m' with
      | [] => true
      | (k', _) :: _ => match bytes_cmp k k' with Lt => true | _ => false end
      end && sorted_keys m'
  end.

Definition map_wf m : Prop := sorted_keys m = true.

Lemma map_wf_cons k v m :
  map_wf ((k, v) :: m) <-> Forall (fun e => bytes_lt k e.1) m /\ map_wf m.
Proof.
  unfold map_wf. revert k v. induction m as [|[k' v'] m IH]; intros k v.
  - simpl. split; [|done]. intros _. split; [constructor|done].
  - change (sorted_keys ((k, v) :: (k', v') :: m)) with
      (match bytes_cmp k k' with Lt => true | _ => false end && sorted_keys ((k', v') :: m)).
    rewrite andb_true_iff, Forall_cons. simpl fst. unfold bytes_lt at 1. split.
    + intros [H1 H2]. destruct (bytes_cmp k k') eqn:E; try done. split_and!; auto.
      apply IH in H2 as [H2 _]. eapply Forall_impl; [exact H2|]. intros e He. simpl in He.
      by transitivity k'.
    + intros [[-> _] ?]. done.
Qed.

Lemma map_wf_nil : map_wf [].
Proof. done. Qed.

Lemma map_find_none_lt k m : Forall (fun e => bytes_lt k e.1) m -> map_find k m = None.
Proof.
  induction 1 as [|[k' v'] m H _ IH]; simpl in *; [done|].
  destruct (bytes_eqb_spec k k') as [->|]; [by apply bytes_lt_irrefl in H|done].
Qed.

Lemma map_find_elem k v m : map_find k m = Some v -> (k, v) ∈ m.
Proof.
  induction m as [|[k' v'] m IH]; simpl; [done|]. rewrite elem_of_cons.
  destruct (bytes_eqb_spec k k') as [->|]; [intros [= ->]; by left|right; auto].
Qed.

Lemma elem_map_find k v m : map_wf m -> (k, v) ∈ m -> map_find k m = Some v.
Proof.
  induction m as [|[k' v'] m IH]; [intros _ H; by apply not_elem_of_nil in H|].
  intros [Hlt Hm]%map_wf_cons [[= -> ->]|H]%elem_of_cons; simpl.
  - by rewrite bytes_eqb_refl.
  - rewrite Forall_forall in Hlt. specialize (Hlt _ H). simpl in Hlt.
    destruct (bytes_eqb_spec k k') as [->|]; [by apply bytes_lt_irrefl in Hlt|auto].
Qed.

Lemma map_find_keys k m : is_Some (map_find k m) <-> k ∈ keys m.
Proof.
  unfold keys. induction m as [|[k' v'] m IH]; simpl.
  - split; [by intros [? ?]|intros H; by apply not_elem_of_nil in H].
  - rewrite elem_of_cons. destruct (bytes_eqb_spec k k') as [->|]; [naive_solver|].
    rewrite IH. naive_solver.
Qed.

Lemma map_contains_spec k m : map_contains k m = true <-> is_Some (map_find k m).
Proof. unfold map_contains. by rewrite bool_decide_eq_true. Qed.
Lemma map_contains_false k m : map_contains k m = false <-> map_find k m = None.
Proof. unfold map_contains. by rewrite bool_decide_eq_false, eq_None_not_Some. Qed.

Lemma map_find_insert k v m : map_find k (map_insert k v m) = Some v.
Proof.
  induction m as [|[k' v'] m IH]; simpl; [by rewrite bytes_eqb_refl|].
  destruct (bytes_cmp k k') eqn:E; simpl; try by rewrite bytes_eqb_refl.
  destruct (bytes_eqb_spec k k') as [->|]; [by rewrite bytes_cmp_refl in E|done].
Qed.

Lemma map_find_insert_ne k k' v m :
  k <> k' -> map_find k' (map_insert k v m) = map_find k' m.
Proof.
  intros Hne. induction m as [|[k1 v1] m IH]; simpl.
  - by rewrite (proj2 (bytes_eqb_neq k' k)).
  - destruct (bytes_cmp k k1) eqn:E; simpl.
    + apply bytes_cmp_eq in E as ->. by rewrite !(proj2 (bytes_eqb_neq k' k1)).
    + by rewrite (proj2 (bytes_eqb_neq k' k)).
    + by rewrite IH.
Qed.

Lemma map_find_erase k m : map_find k (map_erase k m) = None.
Proof.
  induction m as [|[k1 v1] m IH]; simpl; [done|].
  destruct (bytes_eqb_spec k k1) as [->|]; simpl; [done|].
  by rewrite (proj2 (bytes_eqb_neq k k1)).
Qed.

Lemma map_find_erase_ne k k' m : k <> k' -> map_find k' (map_erase k m) = map_find k' m.
Proof.
  intros Hne. induction m as [|[k1 v1] m IH]; simpl; [done|].
  destruct (bytes_eqb_spec k k1) as [->|]; simpl; rewrite ?IH; [|done].
  by rewrite (proj2 (bytes_eqb_neq k' k1)).
Qed.

Lemma Forall_lt_insert k0 k v m :
  bytes_lt k0 k -> Forall (fun e => bytes_lt k0 e.1) m ->
  Forall (fun e => bytes_lt k0 e.1) (map_insert k v m).
Proof.
  intros H. induction 1 as [|[k1 v1] m H1 Hm IH]; simpl; [by constructor|].
  destruct (bytes_cmp k k1); by repeat constructor.
Qed.

Lemma Forall_map_insert (P : bytes * V -> Prop) k v m : P (k, v) -> Forall P m -> Forall P (map_insert k v m).
Proof.
  intros Hk. induction 1 as [|[k' v'] m Hx Hm IH]; cbn [map_insert]; [by constructor|].
  destruct (bytes_cmp k k'); repeat constructor; done.
Qed.

Lemma map_wf_insert k v m : map_wf m -> map_wf (map_insert k v m).
Proof.
  induction m as [|[k1 v1] m IH]; [done|]. intros [Hlt Hm]%map_wf_cons. simpl.
  destruct (bytes_cmp k k1) eqn:E; apply map_wf_cons.
  - apply bytes_cmp_eq in E as ->. done.
  - split; [|by apply map_wf_cons]. constructor; [done|].
    eapply Forall_impl; [exact Hlt|]. intros e He. simpl in *. by transitivity k1.
  - apply bytes_cmp_gt in E. split; [by apply Forall_lt_insert|auto].
Qed.

Lemma map_wf_erase k m : map_wf m -> map_wf (map_erase k m).
Proof.
  induction m as [|[k1 v1] m IH]; [done|]. intros [Hlt Hm]%map_wf_cons. simpl.
  destruct (negb _); [|auto]. apply map_wf_cons. split; [|auto].
  apply Forall_forall. intros e He. rewrite Forall_forall in Hlt. apply Hlt.
  apply list_elem_of_In in He. apply filter_In in He as [He _]. by apply list_elem_of_In.
Qed.

Lemma map_wf_NoDup m : map_wf m -> NoDup (keys m).
Proof.
  induction m as [|[k1 v1] m IH]; [constructor|]. intros [Hlt Hm]%map_wf_cons.
  unfold keys. simpl. constructor; [|auto]. intros H. apply map_find_keys in H as [v H].
  by rewrite (map_find_none_lt _ _ Hlt) in H.
Qed.

(** Extensionality: two well-formed maps with the same lookups are equal. *)
Lemma map_ext m1 m2 :
  map_wf m1 -> map_wf m2 -> (forall k, map_find k m1 = map_find k m2) -> m1 = m2.
Proof.
  revert m2. induction m1 as [|[k1 v1] m1 IH]; intros [|[k2 v2] m2].
  - done.
  - intros _ _ H. specialize (H k2). simpl in H. by rewrite bytes_eqb_refl in H.
  - intros _ _ H. specialize (H k1). simpl in H. by rewrite bytes_eqb_refl in H.
  - intros [L1 W1]%map_wf_cons [L2 W2]%map_wf_cons H.
    assert (k1 = k2) as ->.
    { destruct (bytes_cmp k1 k2) eqn:E; [by apply bytes_cmp_eq in E|..].
      - specialize (H k1). simpl in H. rewrite bytes_eqb_refl in H.
        destruct (bytes_eqb_spec k1 k2) as [->|]; [done|].
        rewrite map_find_none_lt in H; [done|].
        eapply Forall_impl; [exact L2|]. intros e He. simpl in *. by transitivity k2.
      - apply bytes_cmp_gt in E. specialize (H k2). simpl in H. rewrite bytes_eqb_refl in H.
        destruct (bytes_eqb_spec k2 k1) as [->|]; [done|].
        rewrite map_find_none_lt in H; [done|].
        eapply Forall_impl; [exact L1|]. intros e He. simpl in *. by transitivity k1. }
    pose proof (H k2) as Hv. simpl in Hv. rewrite bytes_eqb_refl in Hv.
    injection Hv as Hv. rewrite Hv. f_equal. apply IH; [done..|]. intros k. specialize (H k). simpl in H.
    destruct (bytes_eqb_spec k k2) as [Hk|Hk]; [|done].
    rewrite Hk. by rewrite !map_find_none_lt.
Qed.

(** An insertion past the last key appends: decoding a sorted sequence rebuilds it. *)
Lemma map_insert_last k v m :
  Forall (fun e => bytes_lt e.1 k) m -> map_insert k v m = m ++ [(k, v)].
Proof.
  induction 1 as [|[k1 v1] m H1 Hm IH]; simpl; [done|]. simpl in H1.
  apply bytes_cmp_gt in H1. by rewrite H1, IH.
Qed.

Lemma map_wf_app m1 m2 :
  map_wf (m1 ++ m2) <->
  map_wf m1 /\ map_wf m2 /\ Forall (fun e => Forall (fun e' => bytes_lt e.1 e'.1) m2) m1.
Proof.
  induction m1 as [|[k v] m1 IH]; simpl.
  - split; [|by intros (_ & ? & _)]. intros H. repeat split; auto.
  - change (((k, v) :: m1) ++ m2) with ((k, v) :: (m1 ++ m2)).
    rewrite !map_wf_cons, IH, Forall_app, Forall_cons. simpl. naive_solver.
Qed.

Lemma map_emplace_last k v m1 m2 :
  map_wf (m1 ++ (k, v) :: m2) -> map_emplace k v m1 = (m1 ++ [(k, v)], true).
Proof.
  intros (H1 & _ & H)%map_wf_app. assert (Hlt : Forall (fun e => bytes_lt e.1 k) m1).
  { eapply Forall_impl; [exact H|]. intros e He. by apply Forall_cons in He as [He _]. }
  unfold map_emplace. rewrite (proj2 (map_contains_false k m1)), map_insert_last; [done..|].
  rewrite eq_None_not_Some, map_find_keys. unfold keys.
  intros ([k' v'] & -> & He)%list_elem_of_fmap. rewrite Forall_forall in Hlt.
  specialize (Hlt _ He). by apply bytes_lt_irrefl in Hlt.
Qed.

(** A loop that reads the entries of a map back, refusing a duplicate key. *)
Lemma read_map_entries (get : list (bytes * V) * bytes -> result (list (bytes * V) * bytes))
    (w : bytes * V -> bytes) (err : exn) (P : bytes * V -> Prop) :
  (forall k v m rest, P (k, v) -> get (m, w (k, v) ++ rest) =
     let '(m', fresh) := map_emplace k v m in throw_if negb fresh as err ;; Ok (m', rest)) ->
  forall todo dn rest, map_wf (dn ++ todo) -> Forall P todo ->
  iter_result get (length todo) (dn, concat (map w todo) ++ rest) = Ok (dn ++ todo, rest).
Proof.
  intros Hg. induction todo as [|[k v] todo IH]; intros dn rest Hw HP; cbn [length iter_result map concat]; [by rewrite app_nil_r|].
  apply Forall_cons in HP as [HP1 HP2]. rewrite <- app_assoc, Hg by done.
  rewrite (map_emplace_last k v dn todo) by done. cbn [negb bind]. by rewrite IH; rewrite <- ?app_assoc.
Qed.

Lemma map_wf_emplace k v m m' b : map_wf m -> map_emplace k v m = (m', b) -> map_wf m'.
Proof.
  intros Hm. unfold map_emplace. destruct (map_contains k m); intros [= <- <-]; [done|].
  by apply map_wf_insert.
Qed.

Lemma length_incl_keys m1 {W} (m2 : list (bytes * W)) :
  map_wf m1 -> (forall k, k ∈ keys m1 -> k ∈ m2.*1) -> (length m1 <= length m2)%nat.
Proof.
  intros H1 H. rewrite <- (length_fmap fst m1), <- (length_fmap fst m2).
  apply submseteq_length, NoDup_submseteq; [by apply map_wf_NoDup|done].
Qed.

(** Filtering. *)
Lemma map_wf_filter (f : bytes * V -> bool) m : map_wf m -> map_wf (List.filter f m).
Proof.
  induction m as [|[k v] m IH]; [done|]. intros [Lt W]%map_wf_cons. cbn [List.filter].
  destruct (f (k, v)); [|auto]. apply map_wf_cons. split; [|auto]. rewrite Forall_forall in *. intros e He.
  apply Lt. apply list_elem_of_In in He. apply filter_In in He as [He _]. by apply list_elem_of_In.
Qed.

Lemma map_find_filter (f : bytes * V -> bool) m k v : map_wf m ->
  map_find k (List.filter f m) = Some v <-> map_find k m = Some v /\ f (k, v) = true.
Proof.
  intros Hw. split.
  - intros H%map_find_elem. apply list_elem_of_In, filter_In in H as [H1 H2]. split; [|done].
    apply elem_map_find; [done|]. by apply list_elem_of_In.
  - intros [H1%map_find_elem H2]. apply elem_map_find; [by apply map_wf_filter|]. apply list_elem_of_In, filter_In.
    split; [by apply list_elem_of_In|done].
Qed.

(** Assigning to a key that is there keeps the keys. *)
Lemma keys_insert k v m : map_wf m -> k ∈ keys m -> keys (map_insert k v m) = keys m.
Proof.
  induction m as [|[k1 v1] m IH]; unfold keys; [by intros _ ?%not_elem_of_nil|]. rewrite !fmap_cons. simpl.
  intros [Lt W]%map_wf_cons Hk. destruct (bytes_cmp k k1) eqn:E.
  - apply bytes_cmp_eq in E as ->. by rewrite fmap_cons.
  - exfalso. apply elem_of_cons in Hk as [->|Hk]; [by apply bytes_lt_irrefl in E|].
    apply list_elem_of_fmap in Hk as (e & -> & He). rewrite Forall_forall in Lt. specialize (Lt e He).
    apply (bytes_lt_irrefl e.1). by transitivity k1.
  - rewrite fmap_cons. f_equal. apply IH; [done|]. apply elem_of_cons in Hk as [->|Hk]; [|done].
    by rewrite bytes_cmp_refl in E.
Qed.

End Map.
#[export] Hint Resolve map_wf_nil map_wf_insert map_wf_erase : fsnet.
