(* ===== verification/Identity.v ===== *)
(** * Entity and connection identities

    [include/fsnet/entity_id.hpp] and [include/fsnet/connection.hpp]: the 64-bit
    logical entity identity with its canonical hexadecimal text, the logical client
    connection with its textual key, and the node names of
    [include/fsnet/entity_record.hpp]. *)

From S2P Require Import Prelude OrderedMap.

(** ** EntityId *)

(** An identity is a non-zero [std::uint64_t]. *)
Record EntityId := MkEntityId { value : N }.

#[global] Instance EntityId_eq_dec : EqDecision EntityId.
Proof. solve_decision. Defined.

Definition EntityId_wf (id : EntityId) : Prop := 0 < value id < 2 ^ 64.

(** [EntityId(std::uint64_t)] *)
Definition entity_id (v : N) : result EntityId :=
  throw_if v =? 0 as invalid_argument ;; Ok (MkEntityId v).

(** ['0'..'9'] and ['a'..'f']; anything else is not canonical. *)
Definition hex_digit (c : byte) : option N :=
  let n := byte_val c in
  if (48 <=? n) && (n <=? 57) then Some (n - 48)
  else if (97 <=? n) && (n <=? 102) then Some (n - 97 + 10)
  else None.

Definition is_hex (c : byte) : bool :=
  let n := byte_val c in ((48 <=? n) && (n <=? 57)) || ((97 <=? n) && (n <=? 102)).

Definition hex_step (v : N) (c : byte) : result N :=
  match hex_digit c with
  | Some digit => Ok (wrap64 (N.lor (N.shiftl v 4) digit))
  | None => Throw invalid_argument
  end.

(** [EntityId(std::string_view)] *)
Definition entity_id_of_text (text : bytes) : result EntityId :=
  throw_if negb (size text =? 16) as invalid_argument ;;
  let* v := fold_result hex_step text 0 in
  throw_if v =? 0 as invalid_argument ;;
  Ok (MkEntityId v).

(** [EntityId::bytes] *)
Definition id_bytes (id : EntityId) : bytes := put_be 8 (value id).

(** [EntityId::from_bytes] *)
Definition id_from_bytes (s : bytes) : result EntityId :=
  throw_if negb (size s =? 8) as invalid_argument ;;
  entity_id (fold_left shift_in s 0).

Definition hex_chars : bytes := lit "0123456789abcdef".
Definition hex_char (d : N) : byte := nth (N.to_nat d) hex_chars x00.

(** The loop of [EntityId::str], which fills the text from its last character. *)
Fixpoint hex_text (count : nat) (v : N) : bytes :=
  match count with
  | O => []
  | S c => hex_text c (N.shiftr v 4) ++ [hex_char (N.land v 15)]
  end.

(** [EntityId::str] *)
Definition str (id : EntityId) : bytes := hex_text 16 (value id).

Definition valid_entity_id (text : bytes) : bool :=
  if negb (size text =? 16) || bytes_eqb text (lit "0000000000000000") then false
  else forallb is_hex text.

(** ** Node names (entity_record.hpp) *)

Definition valid_entity_node (node : bytes) : bool :=
  negb (is_empty node) && (size node <=? 127) && negb (has_any [x2f; x00] node).

(** [owner] runs on [node]: equal, or ["node/..."]. *)
Definition entity_node_matches (owner node : bytes) : bool :=
  bytes_eqb owner node ||
  ((size node <? size owner) && starts_with node owner &&
   match owner !! length node with Some c => Byte.eqb c x2f | None => false end).

(** ** ConnectionRef *)

Record ConnectionRef := MkConnection { cid : bytes; generation : N }.

#[global] Instance ConnectionRef_eq_dec : EqDecision ConnectionRef.
Proof. solve_decision. Defined.

(** [std::from_chars] on a decimal [std::uint64_t]: the digits read, [None] for an
    error ([invalid_argument] without a digit, [result_out_of_range] past 2^64). *)
Definition is_digit (c : byte) : bool := (48 <=? byte_val c) && (byte_val c <=? 57).

Fixpoint span_digits (s : bytes) : bytes * bytes :=
  match s with
  | c :: s' => if is_digit c then let '(d, r) := span_digits s' in (c :: d, r) else ([], s)
  | [] => ([], [])
  end.

Definition decimal_value (ds : bytes) : N :=
  fold_left (fun n c => n * 10 + (byte_val c - 48)) ds 0.

Definition from_chars (s : bytes) : option N * bytes :=
  let '(ds, rest) := span_digits s in
  if is_empty ds then (None, s)
  else if decimal_value ds <? 2 ^ 64 then (Some (decimal_value ds), rest) else (None, rest).

(** [std::to_string] on an unsigned integer; [fuel] bounds the digits and 20 are
    enough for 64 bits ([decimal_text_spec]). *)
Fixpoint decimal_text (fuel : nat) (n : N) : bytes :=
  match fuel with
  | O => []
  | S f => if n <? 10 then [byte_of (48 + n)]
           else decimal_text f (n / 10) ++ [byte_of (48 + n mod 10)]
  end.
Definition to_string (n : N) : bytes := decimal_text 20 n.

Definition connection_prefix : bytes := lit "connection/".

Definition valid_connection_key (key : bytes) : bool :=
  if negb (starts_with connection_prefix key) || (size key <? 45) || (64 <? size key) then false
  else
    let key := drop 11 key in
    if negb (forallb is_hex (take 32 key)) then false
    else if negb (match key !! 32%nat with Some c => Byte.eqb c x2f | None => false end) then false
    else
      let key := drop 33 key in
      if is_empty key || front_is x30 key then false
      else
        match from_chars key with
        | (Some generation, []) => negb (generation =? 0)
        | _ => false
        end.

(** [ConnectionRef::valid], also its conversion to [bool]. *)
Definition connection_valid (r : ConnectionRef) : bool :=
  if negb (size (cid r) =? 32) || (generation r =? 0) then false
  else forallb is_hex (cid r).

(** [ConnectionRef::key] *)
Definition connection_key (r : ConnectionRef) : result bytes :=
  throw_if negb (connection_valid r) as invalid_argument ;;
  Ok (connection_prefix ++ cid r ++ [x2f] ++ to_string (generation r)).

(** [ConnectionRef::matches_key] *)
Definition matches_key (r : ConnectionRef) (key : bytes) : bool :=
  if negb (connection_valid r) || negb (valid_connection_key key) then false
  else
    let key := drop 11 key in
    if negb (bytes_eqb (take 32 key) (cid r)) then false
    else
      match from_chars (drop 33 key) with
      | (Some v, []) => v =? generation r
      | _ => false
      end.

(** [ConnectionRef::from_key] *)
Definition from_key (key : bytes) : result ConnectionRef :=
  throw_if negb (valid_connection_key key) as invalid_argument ;;
  let key := drop 11 key in
  throw_if (size key <? 34) ||
           negb (match key !! 32%nat with Some c => Byte.eqb c x2f | None => false end)
    as invalid_argument ;;
  let id := take 32 key in
  let key := drop 33 key in
  match from_chars key with
  | (Some g, []) =>
      throw_if negb (connection_valid (MkConnection id g)) ||
               ((1 <? size key) && front_is x30 key) as invalid_argument ;;
      Ok (MkConnection id g)
  | _ => Throw invalid_argument
  end.

(** [ConnectionRef::create], [src/connection.cpp]: [entropy] is what [RAND_bytes]
    filled in, [None] when it failed. *)
Definition connection_create (entropy : option bytes) : result ConnectionRef :=
  match entropy with
  | None => Throw runtime_error
  | Some raw =>
      Ok (MkConnection
        (concat (map (fun b => [hex_char (N.shiftr (byte_val b) 4);
                                hex_char (N.land (byte_val b) 15)]) raw)) 1)
  end.

(** ** Lemmas: hexadecimal text *)

Lemma hex_digit_is_hex c d : hex_digit c = Some d -> is_hex c = true /\ d < 16.
Proof.
  unfold hex_digit, is_hex. destruct ((48 <=? byte_val c) && _) eqn:E1; simpl.
  - intros [= <-]. split; [done|]. bool_prop. lia.
  - destruct ((97 <=? byte_val c) && _) eqn:E2; intros [= <-]. split; [done|]. bool_prop. lia.
Qed.

Lemma is_hex_digit c : is_hex c = true -> exists d, hex_digit c = Some d.
Proof.
  unfold is_hex, hex_digit. intros H.
  destruct ((48 <=? byte_val c) && _); [by eexists|]. simpl in H. rewrite H. by eexists.
Qed.

Lemma hex_char_digit_b :
  forallb (fun n => bool_decide (hex_digit (hex_char n) = Some n)) (map N.of_nat (seq 0 16)) = true.
Proof. vm_compute. reflexivity. Qed.

Lemma hex_digit_char d : d < 16 -> hex_digit (hex_char d) = Some d.
Proof.
  intros Hd. pose proof hex_char_digit_b as H. rewrite forallb_forall in H.
  specialize (H d). apply bool_decide_eq_true in H; [done|].
  by apply in_seq_N.
Qed.

Lemma hex_char_of_digit_b :
  forallb (fun n => match hex_digit (byte_of n) with
    | Some d => bool_decide (hex_char d = byte_of n) | None => true end) (map N.of_nat (seq 0 256)) = true.
Proof. vm_compute. reflexivity. Qed.

Lemma hex_char_of_digit c d : hex_digit c = Some d -> hex_char d = c.
Proof.
  intros Hc. pose proof hex_char_of_digit_b as H. rewrite forallb_forall in H.
  specialize (H (byte_val c)). rewrite byte_of_val, Hc in H.
  apply bool_decide_eq_true in H; [done|].
  apply in_seq_N, byte_val_lt.
Qed.

Lemma shift4_split v : N.lor (N.shiftl (N.shiftr v 4) 4) (N.land v 15) = v.
Proof.
  apply N.bits_inj. intros i. rewrite N.lor_spec, N.land_spec. change 15 with (N.ones 4).
  destruct (N.lt_ge_cases i 4) as [H|H].
  - rewrite N.shiftl_spec_low, N.ones_spec_low by done. by rewrite andb_true_r.
  - rewrite N.shiftl_spec_high', N.shiftr_spec', N.ones_spec_high by done.
    rewrite andb_false_r, orb_false_r. f_equal. lia.
Qed.

Lemma lor_shift4 n d : d < 16 -> N.lor (N.shiftl n 4) d = n * 16 + d.
Proof.
  intros Hd. assert (E : n * 16 + d = N.lor (N.shiftl n 4) d); [|done].
  rewrite <- (shift4_split (n * 16 + d)). f_equal.
  - f_equal. rewrite N.shiftr_div_pow2. change (2 ^ 4) with 16.
    rewrite N.div_add_l by lia. rewrite N.div_small by done. lia.
  - change 15 with (N.ones 4). rewrite N.land_ones. change (2 ^ 4) with 16.
    rewrite N.add_comm, N.Div0.mod_add. by apply N.mod_small.
Qed.

Lemma hex_text_length c v : length (hex_text c v) = c.
Proof. revert v. induction c; intros; simpl; [done|]. rewrite length_app, IHc. simpl. lia. Qed.

Lemma parse_hex_text c v :
  (c <= 16)%nat -> v < 16 ^ N.of_nat c -> fold_result hex_step (hex_text c v) 0 = Ok v.
Proof.
  revert v. induction c as [|c IH]; intros v Hc Hv.
  - simpl in *. f_equal. lia.
  - cbn [hex_text]. rewrite fold_result_app, IH; [|lia|].
    + cbn [bind fold_result]. unfold hex_step. change 15 with (N.ones 4).
      rewrite hex_digit_char by (rewrite N.land_ones; apply N.mod_upper_bound; done).
      cbn [bind]. change (N.ones 4) with 15. rewrite shift4_split. f_equal.
      apply N.mod_small. eapply N.lt_le_trans; [exact Hv|].
      change (2 ^ 64) with (16 ^ 16). apply N.pow_le_mono_r; lia.
    + rewrite N.shiftr_div_pow2. change (2 ^ 4) with 16.
      rewrite Nat2N.inj_succ, N.pow_succ_r' in Hv.
      apply N.Div0.div_lt_upper_bound. lia.
Qed.

Lemma hex_text_parse text v :
  (length text <= 16)%nat -> fold_result hex_step text 0 = Ok v ->
  hex_text (length text) v = text /\ v < 16 ^ size text.
Proof.
  revert v. induction text as [|c text IH] using rev_ind; intros v Hl H.
  - simpl in *. inv_ok. done.
  - rewrite fold_result_app in H. apply bind_ok in H as (x & Hx & H).
    rewrite length_app in *. simpl length in *.
    apply IH in Hx as [Ht Hlt]; [|lia]. cbn [fold_result] in H.
    apply bind_ok in H as (y & H & [= ->]). unfold hex_step in H.
    destruct (hex_digit c) as [d|] eqn:Hd; [|done]. injection H as H.
    pose proof (hex_digit_is_hex _ _ Hd) as [_ Hd16].
    rewrite lor_shift4 in H by done.
    assert (Hsz : size (text ++ [c]) = N.succ (size text)) by (autorewrite with wire; lia).
    rewrite Hsz, N.pow_succ_r'.
    assert (Hb : x * 16 + d < 16 * 16 ^ size text) by lia.
    unfold wrap64 in H. rewrite N.mod_small in H.
    2:{ eapply N.lt_le_trans; [exact Hb|]. rewrite <- N.pow_succ_r', <- Hsz.
        change (2 ^ 64) with (16 ^ 16). apply N.pow_le_mono_r; [lia|].
        unfold size. rewrite length_app. simpl. lia. }
    subst v. split; [|done]. rewrite Nat.add_1_r. cbn [hex_text].
    rewrite <- (lor_shift4 x d) by done.
    assert (N.shiftr (N.lor (N.shiftl x 4) d) 4 = x) as ->.
    { rewrite lor_shift4, N.shiftr_div_pow2 by done. change (2 ^ 4) with 16.
      rewrite N.div_add_l by lia. rewrite N.div_small by done. lia. }
    assert (N.land (N.lor (N.shiftl x 4) d) 15 = d) as ->.
    { rewrite lor_shift4 by done. change 15 with (N.ones 4). rewrite N.land_ones.
      change (2 ^ 4) with 16. rewrite N.add_comm, N.Div0.mod_add. by apply N.mod_small. }
    by rewrite Ht, (hex_char_of_digit _ _ Hd).
Qed.

Lemma hex_step_ok v c : is_ok (hex_step v c) = is_hex c.
Proof.
  unfold hex_step. destruct (hex_digit c) eqn:E; simpl.
  - by apply hex_digit_is_hex in E as [-> _].
  - destruct (is_hex c) eqn:E2; [|done]. apply is_hex_digit in E2 as [d ?]. congruence.
Qed.

Lemma parse_hex_ok text v : is_ok (fold_result hex_step text v) = forallb is_hex text.
Proof.
  revert v. induction text as [|c text IH]; intros v; simpl; [done|].
  pose proof (hex_step_ok v c) as H. destruct (hex_step v c); simpl in *; rewrite <- H; auto.
Qed.

(** ** Lemmas: decimal text *)

Lemma digit_of d : d < 10 -> is_digit (byte_of (48 + d)) = true /\ byte_val (byte_of (48 + d)) = 48 + d.
Proof.
  intros H. unfold is_digit. rewrite byte_val_of, N.mod_small by lia. split; [|done].
  bool_prop. lia.
Qed.

Lemma decimal_value_snoc ds c :
  decimal_value (ds ++ [c]) = decimal_value ds * 10 + (byte_val c - 48).
Proof. unfold decimal_value. by rewrite fold_left_app. Qed.

Lemma decimal_text_spec f n :
  n < 10 ^ N.of_nat (S f) ->
  let ds := decimal_text (S f) n in
  forallb is_digit ds = true /\ decimal_value ds = n /\ (length ds <= S f)%nat /\
  ds <> [] /\ (n <> 0 -> front_is x30 ds = false).
Proof.
  revert n. induction f as [|f IH]; intros n Hn; cbn zeta.
  - change (10 ^ N.of_nat 1) with 10 in Hn. cbn [decimal_text].
    rewrite (proj2 (N.ltb_lt n 10)) by done. destruct (digit_of n Hn) as [H1 H2].
    unfold decimal_value. simpl. rewrite H1, H2. split_and!; try done; try (simpl; lia).
    intros H0. destruct (Byte.eqb _ _) eqn:E; [|done]. apply Byte.byte_dec_bl in E.
    rewrite E in H2. change (byte_val x30) with 48 in H2. lia.
  - remember (S f) as g. cbn [decimal_text]. destruct (N.ltb_spec n 10) as [Hlt|Hge].
    + destruct (digit_of n Hlt) as [H1 H2]. unfold decimal_value. simpl.
      rewrite H1, H2. split_and!; try done; try (simpl; lia).
      intros H0. destruct (Byte.eqb _ _) eqn:E; [|done]. apply Byte.byte_dec_bl in E.
      rewrite E in H2. change (byte_val x30) with 48 in H2. lia.
    + destruct (digit_of (n mod 10)) as [H1 H2]; [by apply N.mod_upper_bound|].
      destruct (IH (n / 10)) as (A & B & C & D & F).
      { rewrite Nat2N.inj_succ, N.pow_succ_r' in Hn. apply N.Div0.div_lt_upper_bound. lia. }
      rewrite forallb_app, A, length_app, decimal_value_snoc, B, H2. cbn [forallb length andb].
      rewrite H1.
      split_and!; [done|clear; lia_div|lia|by destruct (decimal_text g (n / 10))|].
      intros _. assert (n / 10 <> 0) as H0 by (intros X; apply N.div_small_iff in X; lia).
      specialize (F H0). by destruct (decimal_text g _).
Qed.

Lemma decimal_value_pos ds :
  forallb is_digit ds = true -> ds <> [] -> front_is x30 ds = false -> 0 < decimal_value ds.
Proof.
  induction ds as [|c ds IH] using rev_ind; [done|]. intros Hd _ Hf.
  rewrite decimal_value_snoc. rewrite forallb_app in Hd. apply andb_true_iff in Hd as [H1 H2].
  destruct ds as [|c0 ds].
  - simpl in *. unfold is_digit in H2. bool_prop. destruct H2 as [[A B] _].
    destruct (N.eq_dec (byte_val c) 48) as [E|]; [|lia].
    change 48 with (byte_val x30) in E. apply (inj byte_val) in E as ->. done.
  - specialize (IH H1 ltac:(done) Hf). lia.
Qed.

Lemma decimal_text_of_value f ds :
  forallb is_digit ds = true -> ds <> [] -> front_is x30 ds = false ->
  (length ds <= f)%nat -> decimal_text f (decimal_value ds) = ds.
Proof.
  revert f. induction ds as [|c ds IH] using rev_ind; [done|]. intros f Hd _ Hf Hl.
  rewrite length_app in Hl. simpl in Hl. destruct f as [|f]; [lia|].
  rewrite forallb_app in Hd. apply andb_true_iff in Hd as [H1 H2]. simpl in H2.
  rewrite andb_true_r in H2. unfold is_digit in H2.
  assert (Hc : 48 <= byte_val c <= 57) by (bool_prop; lia). rewrite decimal_value_snoc.
  assert (Hb : byte_of (48 + (byte_val c - 48)) = c).
  { replace (48 + (byte_val c - 48)) with (byte_val c) by lia. apply byte_of_val. }
  cbn [decimal_text]. destruct ds as [|c0 ds].
  - change (decimal_value []) with 0. rewrite (proj2 (N.ltb_lt _ _)) by lia.
    by rewrite N.mul_0_l, N.add_0_l, Hb.
  - pose proof (decimal_value_pos (c0 :: ds) H1 ltac:(done) Hf) as Hp.
    rewrite (proj2 (N.ltb_ge _ _)) by lia.
    rewrite N.div_add_l, N.div_small, N.add_0_r by lia.
    rewrite (N.add_comm (_ * 10)), N.Div0.mod_add, N.mod_small, Hb by lia.
    rewrite IH; [done|done|done|done|lia].
Qed.

Lemma span_digits_all ds : forallb is_digit ds = true -> span_digits ds = (ds, []).
Proof.
  induction ds as [|c ds IH]; simpl; [done|]. intros [-> H]%andb_true_iff. by rewrite IH.
Qed.

Lemma span_digits_spec s ds rest :
  span_digits s = (ds, rest) -> s = ds ++ rest /\ forallb is_digit ds = true.
Proof.
  revert ds rest. induction s as [|c s IH]; simpl; intros ds rest.
  - by intros [= <- <-].
  - destruct (is_digit c) eqn:E; [|by intros [= <- <-]].
    destruct (span_digits s) as [d r]. intros [= <- <-].
    destruct (IH d r eq_refl) as [-> H]. simpl. by rewrite E, H.
Qed.

Lemma from_chars_all s g :
  from_chars s = (Some g, []) <->
  forallb is_digit s = true /\ s <> [] /\ decimal_value s = g /\ g < 2 ^ 64.
Proof.
  unfold from_chars. split.
  - destruct (span_digits s) as [ds rest] eqn:E. apply span_digits_spec in E as [-> Hd].
    destruct ds as [|c ds]; [done|]. destruct (N.ltb_spec (decimal_value (c :: ds)) (2 ^ 64)); [|done].
    intros [= <- ->]. rewrite app_nil_r. done.
  - intros (Hd & Hne & <- & Hg). rewrite span_digits_all by done.
    destruct s; [done|]. by rewrite (proj2 (N.ltb_lt _ _)).
Qed.

(** ** Lemmas: connection keys *)

Definition connection_wf (r : ConnectionRef) : Prop := generation r < 2 ^ 64.

Lemma digits_20 ds : forallb is_digit ds = true -> front_is x30 ds = false ->
  decimal_value ds < 2 ^ 64 -> (length ds <= 20)%nat.
Proof.
  intros Hd Hf Hv. destruct ds as [|c ds]; [simpl; lia|].
  assert (H : 10 ^ N.of_nat (length ds) <= decimal_value (c :: ds)).
  { clear Hv. induction ds as [|x ds IH] using rev_ind.
    - pose proof (decimal_value_pos [c] Hd ltac:(done) Hf). simpl in *. lia.
    - rewrite app_comm_cons, decimal_value_snoc. rewrite app_comm_cons, forallb_app in Hd.
      apply andb_true_iff in Hd as [Hd _]. specialize (IH Hd Hf).
      rewrite length_app, Nat.add_1_r, Nat2N.inj_succ, N.pow_succ_r'. lia. }
  destruct (le_lt_dec (length (c :: ds)) 20) as [|Hgt]; [done|]. exfalso.
  assert (10 ^ 20 <= 10 ^ N.of_nat (length ds)) by (apply N.pow_le_mono_r; simpl in *; lia).
  assert (2 ^ 64 < 10 ^ 20) by (vm_compute; done). lia.
Qed.

(** The shape of a key: prefix, 32 hexadecimal digits, slash, canonical decimal. *)
Lemma valid_connection_key_shape k :
  valid_connection_key k = true <->
  exists id ds, k = connection_prefix ++ id ++ [x2f] ++ ds /\ length id = 32%nat /\
    forallb is_hex id = true /\ forallb is_digit ds = true /\ ds <> [] /\
    front_is x30 ds = false /\ decimal_value ds < 2 ^ 64.
Proof.
  unfold valid_connection_key. split.
  - destruct (negb (starts_with _ _) || _ || _) eqn:E; [done|]. bool_prop.
    destruct E as [[(r & ->)%starts_with_true Hlo] Hhi].
    change (drop 11 (connection_prefix ++ r)) with r. cbv zeta.
    destruct (negb (forallb is_hex (take 32 r))) eqn:Hx; [done|]. bool_prop.
    destruct (negb _) eqn:Hs; [done|]. bool_prop.
    destruct (r !! 32%nat) as [c|] eqn:Hc; [|done]. apply Byte.byte_dec_bl in Hs as ->.
    destruct (is_empty (drop 33 r) || _) eqn:He; [done|]. bool_prop. destruct He as [He Hf].
    destruct (from_chars (drop 33 r)) as [[g|] [|]] eqn:Hg; try done.
    apply from_chars_all in Hg as (A & B & C & D). intros _.
    exists (take 32 r), (drop 33 r). split_and!; try done; [|apply length_take_le|congruence].
    + f_equal. rewrite <- (take_drop 32 r) at 1. f_equal. by rewrite (drop_S r x2f 32).
    + apply lookup_lt_Some in Hc. lia.
  - intros (id & ds & -> & Hl & Hx & Hd & Hne & Hf & Hv).
    pose proof (digits_20 ds Hd Hf Hv) as H20.
    rewrite starts_with_app. cbn [negb].
    assert (Hsz : size (connection_prefix ++ id ++ [x2f] ++ ds) = 44 + N.of_nat (length ds)).
    { unfold size. rewrite !length_app, Hl. simpl length. lia. }
    assert (length ds <> 0%nat) by (by destruct ds).
    rewrite Hsz, (proj2 (N.ltb_ge _ _)), (proj2 (N.ltb_ge _ _)) by lia. cbn [orb].
    change (drop 11 (connection_prefix ++ id ++ [x2f] ++ ds)) with (id ++ [x2f] ++ ds). cbv zeta.
    rewrite take_app_le, take_ge, Hx by lia. cbn [negb].
    rewrite lookup_app_r by lia. rewrite Hl. cbn [Nat.sub lookup list_lookup app].
    change (Byte.eqb x2f x2f) with true. cbn [negb].
    rewrite drop_app, (drop_ge id) by lia. rewrite Hl. change (33 - 32)%nat with 1%nat. cbn [skipn app].
    rewrite ?drop_0, Hf, (proj2 (is_empty_false ds) Hne). cbn [orb].
    rewrite (proj2 (from_chars_all ds (decimal_value ds))) by done.
    pose proof (decimal_value_pos ds Hd Hne Hf). bool_prop. lia.
Qed.

Lemma valid_key_parts k id ds :
  k = connection_prefix ++ id ++ [x2f] ++ ds -> length id = 32%nat ->
  drop 11 k = id ++ [x2f] ++ ds /\ take 32 (drop 11 k) = id /\
  (drop 11 k) !! 32%nat = Some x2f /\ drop 33 (drop 11 k) = ds /\
  size (drop 11 k) = 33 + N.of_nat (length ds).
Proof.
  intros -> Hl. change (drop 11 (connection_prefix ++ id ++ [x2f] ++ ds)) with (id ++ [x2f] ++ ds).
  split_and!; [done|..].
  - by rewrite take_app_le, take_ge by lia.
  - rewrite lookup_app_r by lia. by rewrite Hl.
  - rewrite drop_app, (drop_ge id) by lia. rewrite Hl. apply drop_0.
  - unfold size. rewrite !length_app, Hl. simpl length. lia.
Qed.

Lemma connection_valid_spec r :
  connection_valid r = true <->
  length (cid r) = 32%nat /\ generation r <> 0 /\ forallb is_hex (cid r) = true.
Proof.
  unfold connection_valid, size. destruct (negb _ || _) eqn:E; bool_prop.
  - split; [done|]. destruct E as [E|E]; lia.
  - split; [|naive_solver]. intros H. destruct E. split_and!; [lia|lia|done].
Qed.

Lemma connection_key_shape r k :
  connection_wf r -> connection_key r = Ok k ->
  exists ds, k = connection_prefix ++ cid r ++ [x2f] ++ ds /\ length (cid r) = 32%nat /\
    forallb is_hex (cid r) = true /\ forallb is_digit ds = true /\ ds <> [] /\
    front_is x30 ds = false /\ decimal_value ds = generation r /\
    generation r <> 0.
Proof.
  unfold connection_key, connection_wf. intros Hw H. inv_ok. apply negb_false_iff in E.
  apply connection_valid_spec in E as (A & B & C).
  destruct (decimal_text_spec 19 (generation r)) as (D & F & G & I & J).
  { assert (2 ^ 64 < 10 ^ N.of_nat 20) by (vm_compute; done). lia. }
  exists (to_string (generation r)). split_and!; auto.
Qed.

Lemma from_key_complete r k :
  connection_wf r -> connection_key r = Ok k -> from_key k = Ok r.
Proof.
  intros Hw Hk. pose proof Hk as (ds & -> & A & B & C & D & F & G & I)%connection_key_shape; [|done].
  unfold connection_wf in Hw.
  assert (V : valid_connection_key (connection_prefix ++ cid r ++ [x2f] ++ ds) = true).
  { apply valid_connection_key_shape. exists (cid r), ds. split_and!; auto. by rewrite G. }
  unfold from_key. rewrite V. cbn [negb]. cbv zeta.
  destruct (valid_key_parts _ (cid r) ds eq_refl A) as (P1 & P2 & P3 & P4 & P5).
  rewrite P3, P5, P2, P4. rewrite (proj2 (N.ltb_ge _ _)) by (destruct ds; [done|simpl; lia]).
  change (Byte.eqb x2f x2f) with true. cbn [negb orb].
  rewrite (proj2 (from_chars_all ds (generation r))) by (split_and!; auto).
  unfold connection_key in Hk. destruct r as [id g]. simpl in *.
  destruct (negb (connection_valid _)); [done|]. rewrite F, andb_false_r. done.
Qed.

Lemma from_key_sound r k : from_key k = Ok r -> connection_wf r /\ connection_key r = Ok k.
Proof.
  unfold from_key. intros H. inv_ok. apply negb_false_iff in E.
  pose proof E as (id & ds & Hk & A & B & C & D & F & G)%valid_connection_key_shape.
  destruct (valid_key_parts _ id ds Hk A) as (P1 & P2 & P3 & P4 & P5).
  rewrite P4 in *. rewrite (proj2 (from_chars_all ds (decimal_value ds))) in E1 by done.
  rewrite P2 in H. injection E1 as <- <-. inv_ok. split; [done|]. bool_prop. destruct E1 as [E1 _].
  unfold connection_key. rewrite E1. cbn [negb cid generation].
  do 4 f_equal. unfold to_string. apply decimal_text_of_value; try done. by apply digits_20.
Qed.

(** A connection key determines its connection: parsing the key of a
    valid connection with a 64-bit generation gives that connection back, and every key
    that parses is the key of what it parses to, so keys are canonical. *)
Theorem connection_key_roundtrip r k :
  connection_wf r /\ connection_key r = Ok k <-> from_key k = Ok r.
Proof. split; [intros []; by apply from_key_complete|apply from_key_sound]. Qed.

(** The owner test accepts a stored owner key for exactly one
    connection: [matches_key] holds iff the key is the key of that connection, and the
    stored key of an entity is valid iff it is the key of some connection. *)
Theorem matches_key_exact :
  (forall r k, connection_wf r -> matches_key r k = true <-> connection_key r = Ok k) /\
  (forall k, valid_connection_key k = true <-> exists r, connection_wf r /\ connection_key r = Ok k).
Proof.
  assert (V : forall r k, connection_wf r -> connection_key r = Ok k -> valid_connection_key k = true).
  { intros r k Hw (ds & -> & A & B & C & D & F & G & I)%connection_key_shape; [|done].
    apply valid_connection_key_shape. exists (cid r), ds. split_and!; auto. by rewrite G. }
  split.
  - intros r k Hw. split.
    + unfold matches_key. destruct (negb _ || _) eqn:E; [done|]. bool_prop. destruct E as [E1 E2].
      pose proof E2 as (id & ds & Hk & A & B & C & D & F & G)%valid_connection_key_shape.
      destruct (valid_key_parts _ id ds Hk A) as (_ & P2 & _ & P4 & _). cbv zeta. rewrite P2, P4.
      destruct (negb _) eqn:E3; [done|]. apply negb_false_iff, bytes_eqb_eq in E3 as ->.
      rewrite (proj2 (from_chars_all ds (decimal_value ds))) by done. intros Hg%N.eqb_eq.
      unfold connection_key. rewrite E1. cbn [negb]. f_equal. rewrite Hk. do 3 f_equal.
      rewrite <- Hg. apply decimal_text_of_value; try done. by apply digits_20.
    + intros Hk. pose proof Hk as (ds & -> & A & B & C & D & F & G & I)%connection_key_shape; [|done].
      unfold matches_key. rewrite (V r _ Hw Hk).
      unfold connection_key in Hk. destruct (connection_valid r); [|done]. cbn [negb orb].
      destruct (valid_key_parts _ (cid r) ds eq_refl A) as (_ & P2 & _ & P4 & _). cbv zeta.
      rewrite P2, P4, bytes_eqb_refl. cbn [negb].
      rewrite (proj2 (from_chars_all ds (generation r))) by (split_and!; auto). apply N.eqb_refl.
  - intros k. split; [|intros (r & Hw & Hk); eauto].
    intros (id & ds & -> & A & B & C & D & F & G)%valid_connection_key_shape.
    exists (MkConnection id (decimal_value ds)). split; [done|].
    pose proof (decimal_value_pos ds C D F). unfold connection_key.
    rewrite (proj2 (connection_valid_spec _)) by (split_and!; simpl; try done; lia). cbn [negb cid generation].
    do 4 f_equal. unfold to_string. apply decimal_text_of_value; try done. by apply digits_20.
Qed.

(** The textual identity is canonical: [str] writes the one 16-digit
    text that parses to the identity, a text parses exactly when [valid_entity_id]
    accepts it, and the eight-byte form round-trips. *)
Theorem entity_id_roundtrip :
  (forall id, EntityId_wf id -> entity_id_of_text (str id) = Ok id) /\
  (forall text id, entity_id_of_text text = Ok id -> EntityId_wf id /\ str id = text) /\
  (forall text, valid_entity_id text = is_ok (entity_id_of_text text)) /\
  (forall id, EntityId_wf id -> id_from_bytes (id_bytes id) = Ok id).
Proof.
  assert (P : forall text, size text = 16 -> forall v, fold_result hex_step text 0 = Ok v ->
    hex_text 16 v = text /\ v < 2 ^ 64).
  { intros text Hs v H. assert (L : length text = 16%nat) by (unfold size in Hs; lia).
    apply hex_text_parse in H as [H1 H2]; [|lia]. rewrite L in H1. by rewrite Hs in H2. }
  split_and!.
  - intros [v] [H0 H1]. simpl in *. unfold entity_id_of_text, str, size. simpl value.
    rewrite hex_text_length. change (negb (N.of_nat 16 =? 16)) with false. cbv iota.
    rewrite parse_hex_text by done. cbn [bind].
    by rewrite (proj2 (N.eqb_neq v 0)) by lia.
  - unfold entity_id_of_text. intros text id H. inv_ok. bool_prop.
    destruct (P _ E _ E0) as [A B]. unfold EntityId_wf. simpl. split; [lia|done].
  - intros text. unfold valid_entity_id, entity_id_of_text.
    destruct (N.eqb_spec (size text) 16) as [Hs|]; [|done]. cbn [negb orb].
    rewrite <- (parse_hex_ok text 0).
    destruct (bytes_eqb_spec text (lit "0000000000000000")) as [->|Hz]; [done|].
    destruct (fold_result hex_step text 0) as [v|] eqn:E; [|done]. cbn [bind is_ok].
    destruct (N.eqb_spec v 0) as [->|]; [|done].
    destruct (P _ Hs _ E) as [A _]. exfalso. apply Hz. by rewrite <- A.
  - intros [v] [H0 H1]. unfold id_from_bytes, id_bytes. cbn [value] in *. rewrite size_put_be.
    change (negb (N.of_nat 8 =? 8)) with false. cbv iota. rewrite get_put_fold by done.
    rewrite N.mul_0_l, N.add_0_l. unfold entity_id. by rewrite (proj2 (N.eqb_neq v 0)) by lia.
Qed.
