(* ===== verification/Values.v ===== *)
(** * Attribute values

    The recursive attribute values of [include/fsnet/entity_schema.hpp]
    ([AttributeValue] and its container types), their C++ [operator==] and the
    native allocation charge of [src/entity_schema.cpp]. *)

From S2P Require Import Prelude OrderedMap.

(** ** Doubles

    A [double] is its 64-bit pattern ([std::bit_cast]); the program only tests
    [std::isfinite] and compares with [==]. *)

Definition double_exponent (bits : N) : N := N.land (N.shiftr bits 52) 2047.
Definition is_finite (bits : N) : bool := negb (double_exponent bits =? 2047).
Definition is_nan (bits : N) : bool :=
  (double_exponent bits =? 2047) && negb (N.land bits (N.ones 52) =? 0).
Definition is_zero (bits : N) : bool := N.land bits (N.ones 63) =? 0.

(** IEEE [==]: both zeros are equal, a NaN equals nothing. *)
Definition double_eqb (a b : N) : bool :=
  negb (is_nan a) && negb (is_nan b) && ((a =? b) || (is_zero a && is_zero b)).

(** ** AttributeValue *)

Inductive AttributeValue :=
  | AInt (n : Z)
  | ANum (bits : N)
  | ABool (b : bool)
  | AStr (s : bytes)
  | AStruct (fields : list (bytes * AttributeValue))
  | AArray (items : list AttributeValue)
  | AMap (entries : list (bytes * AttributeValue)).

Abbreviation AttributeStruct := (list (bytes * AttributeValue)).

(** [value.index()] of the underlying [std::variant]. *)
Definition index (v : AttributeValue) : N :=
  match v with
  | AInt _ => 0 | ANum _ => 1 | ABool _ => 2 | AStr _ => 3
  | AStruct _ => 4 | AArray _ => 5 | AMap _ => 6
  end.

(** Induction over the nested containers. *)
Section ValueInd.
Context (P : AttributeValue -> Prop).
Context (HInt : forall n, P (AInt n)) (HNum : forall b, P (ANum b)) (HBool : forall b, P (ABool b))
  (HStr : forall s, P (AStr s))
  (HStruct : forall fs, Forall (fun e => P e.2) fs -> P (AStruct fs))
  (HArray : forall l, Forall P l -> P (AArray l))
  (HMap : forall es, Forall (fun e => P e.2) es -> P (AMap es)).
Fixpoint value_ind' (v : AttributeValue) : P v :=
  let fix entries (es : AttributeStruct) : Forall (fun e => P e.2) es :=
    match es with
    | [] => Forall_nil_2 _
    | e :: es' => Forall_cons_2 _ e es' (value_ind' e.2) (entries es')
    end in
  match v with
  | AInt n => HInt n | ANum b => HNum b | ABool b => HBool b | AStr s => HStr s
  | AStruct fs => HStruct fs (entries fs)
  | AMap es => HMap es (entries es)
  | AArray l => HArray l
      ((fix items (l : list AttributeValue) : Forall P l :=
         match l with
         | [] => Forall_nil_2 _
         | x :: l' => Forall_cons_2 _ x l' (value_ind' x) (items l')
         end) l)
  end.
End ValueInd.

(** ** operator==

    [std::variant], [std::vector] and [std::map] compare alternative by
    alternative, element by element and entry by entry. *)

Section ListEqb.
Context {A B : Type} (f : A -> B -> bool).
Fixpoint list_eqb (l : list A) (k : list B) : bool :=
  match l, k with
  | [], [] => true
  | x :: l', y :: k' => f x y && list_eqb l' k'
  | _, _ => false
  end.
End ListEqb.

Fixpoint value_eqb (a b : AttributeValue) : bool :=
  match a, b with
  | AInt x, AInt y => Z.eqb x y
  | ANum x, ANum y => double_eqb x y
  | ABool x, ABool y => Bool.eqb x y
  | AStr x, AStr y => bytes_eqb x y
  | AStruct x, AStruct y => list_eqb (fun p q => bytes_eqb p.1 q.1 && value_eqb p.2 q.2) x y
  | AArray x, AArray y => list_eqb value_eqb x y
  | AMap x, AMap y => list_eqb (fun p q => bytes_eqb p.1 q.1 && value_eqb p.2 q.2) x y
  | _, _ => false
  end.

Definition struct_eqb (x y : AttributeStruct) : bool :=
  list_eqb (fun p q => bytes_eqb p.1 q.1 && value_eqb p.2 q.2) x y.

(** ** Native allocation charge: attribute_entry_bytes, attribute_image_bytes

    The three mutually recursive charges of the source: a child of an array, a
    whole image, one named root. *)

(** The body of [attribute_entry_bytes], given the charge of a nested value. *)
Definition entry_charge (charge : AttributeValue -> N) (name : bytes) (v : AttributeValue) : N :=
  let base := 256 + size name in
  match v with
  | AStr s => base + size s
  | AStruct _ | AMap _ => base + charge v
  | AArray items => fold_left (fun n child => n + charge child) items base
  | _ => base
  end.

Fixpoint child_charge (v : AttributeValue) : N :=
  match v with
  | AStr s => 256 + size s
  | AStruct m | AMap m => fold_left (fun n e => n + entry_charge child_charge e.1 e.2) m 256
  | AArray a => fold_left (fun n x => n + child_charge x) a 256
  | _ => 256
  end.

Definition attribute_entry_bytes (name : bytes) (v : AttributeValue) : N :=
  entry_charge child_charge name v.

Definition attribute_image_bytes (values : AttributeStruct) : N :=
  fold_left (fun n e => n + attribute_entry_bytes e.1 e.2) values 256.

Example charge_example :
  attribute_image_bytes [(lit "a", AArray [AInt 1; AStr (lit "xy"); AArray [ABool true]])]
  = 256 + (256 + 1 + (256 + (256 + 2) + (256 + 256))).
Proof. reflexivity. Qed.

(** ** Well-formed and finite values *)

(** What every C++ object of the type satisfies: integers and bit patterns at their
    width, map keys strictly increasing. *)
Fixpoint value_wf (v : AttributeValue) : bool :=
  match v with
  | AInt n => (- 2 ^ 63 <=? n)%Z && (n <? 2 ^ 63)%Z
  | ANum bits => bits <? 2 ^ 64
  | ABool _ | AStr _ => true
  | AStruct m | AMap m => sorted_keys m && forallb (fun e => value_wf e.2) m
  | AArray a => forallb value_wf a
  end.

Definition struct_wf (m : AttributeStruct) : bool :=
  sorted_keys m && forallb (fun e => value_wf e.2) m.

(** No NaN or infinity anywhere. *)
Fixpoint finite_value (v : AttributeValue) : bool :=
  match v with
  | ANum bits => is_finite bits
  | AStruct m | AMap m => forallb (fun e => finite_value e.2) m
  | AArray a => forallb finite_value a
  | _ => true
  end.

(** ** [==] as an equivalence *)

#[global] Instance value_equiv : Equiv AttributeValue := fun a b => value_eqb a b = true.
#[global] Instance struct_equiv : Equiv (list (bytes * AttributeValue)) :=
  fun a b => struct_eqb a b = true.

Lemma list_eqb_Forall2 {A B} (f : A -> B -> bool) l k :
  list_eqb f l k = true <-> Forall2 (fun x y => f x y = true) l k.
Proof.
  revert k. induction l as [|x l IH]; intros [|y k]; simpl.
  - split; [constructor|done].
  - split; [done|]. by intros H; inversion H.
  - split; [done|]. by intros H; inversion H.
  - rewrite andb_true_iff, IH, Forall2_cons. done.
Qed.

Lemma struct_equiv_Forall2 (x y : AttributeStruct) :
  x ≡ y <-> Forall2 (fun p q => p.1 = q.1 /\ p.2 ≡ q.2) x y.
Proof.
  unfold equiv, struct_equiv, struct_eqb. rewrite list_eqb_Forall2.
  split; intros H; (eapply Forall2_impl; [exact H|]); intros [k v] [k' v'];
    cbn [fst snd]; unfold equiv, value_equiv; rewrite ?andb_true_iff, ?bytes_eqb_eq; done.
Qed.

Lemma value_equiv_inv a b :
  a ≡ b ->
  match a with
  | AInt n => b = AInt n
  | ANum x => exists y, b = ANum y /\ double_eqb x y = true
  | ABool x => b = ABool x
  | AStr s => b = AStr s
  | AStruct m => exists m', b = AStruct m' /\ m ≡ m'
  | AArray l => exists l', b = AArray l' /\ Forall2 (≡) l l'
  | AMap m => exists m', b = AMap m' /\ m ≡ m'
  end.
Proof.
  unfold equiv at 1, value_equiv. destruct a, b; cbn [value_eqb]; intros H; try done; try by eexists.
  - by apply Z.eqb_eq in H as ->.
  - by apply Bool.eqb_prop in H as ->.
  - by apply bytes_eqb_eq in H as ->.
  - eexists. split; [done|]. by apply list_eqb_Forall2.
Qed.

Lemma equiv_struct m m' : AStruct m ≡ AStruct m' <-> m ≡ m'. Proof. done. Qed.
Lemma equiv_map m m' : AMap m ≡ AMap m' <-> m ≡ m'. Proof. done. Qed.
Lemma equiv_array l l' : AArray l ≡ AArray l' <-> Forall2 (≡) l l'.
Proof. unfold equiv at 1, value_equiv. cbn [value_eqb]. by rewrite list_eqb_Forall2. Qed.

Lemma double_eqb_sym a b : double_eqb a b = double_eqb b a.
Proof.
  unfold double_eqb. rewrite (N.eqb_sym a), (andb_comm (is_zero a)). f_equal. apply andb_comm.
Qed.

Lemma double_eqb_trans a b c :
  double_eqb a b = true -> double_eqb b c = true -> double_eqb a c = true.
Proof.
  unfold double_eqb. rewrite !andb_true_iff, !orb_true_iff, !andb_true_iff, !N.eqb_eq.
  intros [[Ha Hb] H1] [[_ Hc] H2]. split; [done|].
  destruct H1 as [->|[]], H2 as [->|[]]; auto.
Qed.

Lemma double_eqb_refl a : is_finite a = true -> double_eqb a a = true.
Proof.
  unfold double_eqb, is_finite, is_nan. intros H%negb_true_iff. rewrite H. simpl.
  by rewrite N.eqb_refl.
Qed.

#[global] Instance value_equiv_sym : Symmetric (≡@{AttributeValue}).
Proof.
  intros a. induction a as [n|x|x|s|m IH|l IH|m IH] using value_ind'; intros b Hab;
    pose proof (value_equiv_inv _ _ Hab) as H; cbv iota in H.
  all: try (subst b; done).
  - destruct H as (y & -> & H). unfold equiv, value_equiv. cbn. by rewrite double_eqb_sym.
  - destruct H as (m' & -> & H). apply equiv_struct. apply struct_equiv_Forall2 in H.
    apply struct_equiv_Forall2. clear Hab. induction H as [|x y m m' [E1 E2] H IHH]; [constructor|].
    inversion IH as [|? ? IH1 IH2]; subst. constructor; auto.
  - destruct H as (l' & -> & H). apply equiv_array. clear Hab.
    induction H; [constructor|]. inversion IH; subst. constructor; auto.
  - destruct H as (m' & -> & H). apply equiv_map. apply struct_equiv_Forall2 in H.
    apply struct_equiv_Forall2. clear Hab. induction H as [|x y m m' [E1 E2] H IHH]; [constructor|].
    inversion IH as [|? ? IH1 IH2]; subst. constructor; auto.
Qed.

Lemma entries_trans (m : AttributeStruct) :
  Forall (fun e => forall b c, e.2 ≡ b -> b ≡ c -> e.2 ≡ c) m ->
  forall m2 m3, m ≡ m2 -> m2 ≡ m3 -> m ≡ m3.
Proof.
  intros IH m2 m3. rewrite !struct_equiv_Forall2. intros H. revert m3.
  induction H as [|x y m m2 [E1 E2] H IHH]; intros m3 H3; inversion H3; subst; [constructor|].
  inversion IH as [|? ? IH1 IH2]; subst. constructor; [|auto]. destruct H2 as [F1 F2].
  split; [congruence|eauto].
Qed.

#[global] Instance value_equiv_trans : Transitive (≡@{AttributeValue}).
Proof.
  intros a. induction a as [n|x|x|s|m IH|l IH|m IH] using value_ind'; intros b c Hab Hbc;
    pose proof (value_equiv_inv _ _ Hab) as H; cbv iota in H.
  all: try (subst b; done).
  - destruct H as (y & -> & H). apply value_equiv_inv in Hbc as (z & -> & H2).
    unfold equiv, value_equiv. cbn. by eapply double_eqb_trans.
  - destruct H as (m' & -> & H). apply value_equiv_inv in Hbc as (m2 & -> & H2).
    apply equiv_struct. by eapply entries_trans.
  - destruct H as (l' & -> & H). apply value_equiv_inv in Hbc as (l2 & -> & H2).
    apply equiv_array. clear Hab. revert l2 H2.
    induction H; intros l2 H2; inversion H2; subst; [constructor|]. inversion IH; subst.
    constructor; eauto.
  - destruct H as (m' & -> & H). apply value_equiv_inv in Hbc as (m2 & -> & H2).
    apply equiv_map. by eapply entries_trans.
Qed.

Lemma value_equiv_refl v : finite_value v = true -> v ≡ v.
Proof.
  induction v as [n|x|x|s|m IH|l IH|m IH] using value_ind'; unfold equiv, value_equiv;
    cbn [value_eqb finite_value].
  - intros _. apply Z.eqb_refl.
  - apply double_eqb_refl.
  - by destruct x.
  - intros _. apply bytes_eqb_refl.
  - intros H. apply struct_equiv_Forall2. rewrite forallb_forall in H.
    apply Forall_Forall2_diag, Forall_forall. intros e He. split; [done|].
    rewrite Forall_forall in IH. apply IH; [done|]. by apply H, list_elem_of_In.
  - intros H. apply list_eqb_Forall2. rewrite forallb_forall in H.
    apply Forall_Forall2_diag, Forall_forall. intros e He.
    rewrite Forall_forall in IH. apply IH; [done|]. by apply H, list_elem_of_In.
  - intros H. apply struct_equiv_Forall2. rewrite forallb_forall in H.
    apply Forall_Forall2_diag, Forall_forall. intros e He. split; [done|].
    rewrite Forall_forall in IH. apply IH; [done|]. by apply H, list_elem_of_In.
Qed.

#[global] Instance struct_equiv_sym : Symmetric (≡@{list (bytes * AttributeValue)}).
Proof. intros a b. rewrite <- !equiv_struct. by symmetry. Qed.
#[global] Instance struct_equiv_trans : Transitive (≡@{list (bytes * AttributeValue)}).
Proof. intros a b c. rewrite <- !equiv_struct. by etransitivity. Qed.

Lemma struct_equiv_length (m m' : AttributeStruct) : m ≡ m' -> length m = length m'.
Proof. rewrite struct_equiv_Forall2. apply Forall2_length. Qed.

Lemma struct_equiv_keys (m m' : AttributeStruct) : m ≡ m' -> keys m = keys m'.
Proof.
  rewrite struct_equiv_Forall2. unfold keys. induction 1 as [|x y m m' [E _] H IH]; [done|].
  rewrite !fmap_cons. by rewrite E, IH.
Qed.

Lemma struct_equiv_find (m m' : AttributeStruct) k :
  m ≡ m' -> option_Forall2 (≡) (map_find k m) (map_find k m').
Proof.
  rewrite struct_equiv_Forall2. induction 1 as [|[k1 v1] [k2 v2] m m' [E1 E2] H IH]; simpl in *;
    [constructor|]. subst k2. destruct (bytes_eqb k k1); [by constructor|done].
Qed.

(** Well-formed maps with equivalent lookups are equivalent. *)
Lemma struct_equiv_ext (m m' : AttributeStruct) :
  map_wf m -> map_wf m' ->
  (forall k, option_Forall2 (≡) (map_find k m) (map_find k m')) -> m ≡ m'.
Proof.
  rewrite struct_equiv_Forall2. revert m'. induction m as [|[k1 v1] m IH]; intros [|[k2 v2] m'].
  - constructor.
  - intros _ _ H. specialize (H k2). simpl in H. rewrite bytes_eqb_refl in H. inversion H.
  - intros _ _ H. specialize (H k1). simpl in H. rewrite bytes_eqb_refl in H. inversion H.
  - intros [L1 W1]%map_wf_cons [L2 W2]%map_wf_cons H.
    assert (k1 = k2) as ->.
    { pose proof (H k1) as H1. pose proof (H k2) as H2. simpl in H1, H2.
      rewrite bytes_eqb_refl in H1, H2. destruct (bytes_cmp k1 k2) eqn:E; [by apply bytes_cmp_eq in E|..].
      - destruct (bytes_eqb_spec k1 k2) as [->|]; [done|]. rewrite map_find_none_lt in H1; [inversion H1|].
        eapply Forall_impl; [exact L2|]. intros e He. simpl in *. by transitivity k2.
      - apply bytes_cmp_gt in E. destruct (bytes_eqb_spec k2 k1) as [->|]; [done|].
        rewrite map_find_none_lt in H2; [inversion H2|].
        eapply Forall_impl; [exact L1|]. intros e He. simpl in *. by transitivity k1. }
    pose proof (H k2) as Hv. simpl in Hv. rewrite bytes_eqb_refl in Hv. inversion Hv; subst.
    constructor; [done|]. apply IH; [done..|]. intros k. specialize (H k). simpl in H.
    destruct (bytes_eqb_spec k k2) as [Hk|Hk]; [|done].
    rewrite Hk. rewrite !map_find_none_lt by done. constructor.
Qed.
