(* ===== verification/AttributeWire.v ===== *)
(** * The attribute wire format

    [src/attribute_wire.cpp]: the FSA1/FSA2/FSA3 encoder, parameterised by its
    output as the source's template is, the size computation that shares it, and the
    decoder.  The C++ [std::size_t& remaining] and the consumed [std::string_view&]
    are threaded explicitly. *)

From S2P Require Import Prelude OrderedMap Values.

(** ** Data (entity_schema.hpp) *)

(** One component of a patch path: an exact string key or a sequence index. *)
Inductive PathPart := PKey (key : bytes) | PIndex (index : N).

Record AttributePatch := MkPatch {
  property : bytes;
  pmap : bool;
  pkey : bytes;
  pvalue : option AttributeValue;
  pindex : N;
  premove : N;
  pinsert : list AttributeValue;
  ppath : list PathPart;
  preplace : bool
}.

Record AttributeUpdate := MkUpdate {
  base : N;
  revision : N;
  snapshot : bool;
  values : AttributeStruct;
  patches : list AttributePatch
}.

(** ** Outputs

    [put], [encode_value], ... are templates over the output: a [std::string] or the
    byte counter [SizeOnly]. *)

Class Output (O : Type) := {
  out_char : O -> byte -> O;     (* operator+=(char) *)
  out_str : O -> bytes -> O;     (* operator+=(const std::string&) *)
  out_size : O -> N              (* size() *)
}.

Class OutputLaws (O : Type) `{Output O} := {
  out_char_str o c : out_char o c = out_str o [c];
  out_str_nil o : out_str o [] = o;
  out_str_str o a b : out_str (out_str o a) b = out_str o (a ++ b);
  out_size_str o a : out_size (out_str o a) = out_size o + size a
}.

#[global] Instance string_output : Output bytes := {
  out_char o c := o ++ [c]; out_str o s := o ++ s; out_size o := size o }.

Record SizeOnly := MkSizeOnly { counted : N }.

#[global] Instance size_output : Output SizeOnly := {
  out_char o _ := MkSizeOnly (counted o + 1);
  out_str o s := MkSizeOnly (counted o + size s);
  out_size o := counted o }.

#[global] Instance string_output_laws : OutputLaws bytes.
Proof.
  split; simpl; try done; intros; [by rewrite app_nil_r|by rewrite app_assoc|apply size_app].
Qed.

#[global] Instance size_output_laws : OutputLaws SizeOnly.
Proof.
  split; intros; simpl; autorewrite with wire; try done;
    try (destruct o; simpl); f_equal; lia.
Qed.

(** ** Encoding *)

(** The 1 MiB bound on every record. *)
Definition limit : N := 1024 * 1024.

(** The value-node budget of one record. *)
Definition node_budget : N := 4096.

Section Encode.
Context {O : Type} `{Output O}.

Definition put (out : O) (n : N) (count : nat) : O := fold_left out_char (put_be count n) out.

Definition bad_name (name : bytes) : bool :=
  is_empty name || (127 <? size name) || front_is x24 name || has_any dot_nul name.
Definition check_name (name : bytes) : result unit :=
  throw_if bad_name name as invalid_argument ;; Ok tt.

Definition bad_key (key : bytes) : bool :=
  is_empty key || (127 <? size key) || has_any nul key.
Definition check_key (key : bytes) : result unit :=
  throw_if bad_key key as invalid_argument ;; Ok tt.

(** [std::bit_cast<std::uint64_t>(std::int64_t)] *)
Definition bits_of_int (n : Z) : N := Z.to_N (n mod 2 ^ 64).
Definition int_of_bits (b : N) : Z := if b <? 2 ^ 63 then Z.of_N b else (Z.of_N b - 2 ^ 64)%Z.

Definition bool_bit (b : bool) : N := if b then 1 else 0.

Fixpoint encode_value (out : O) (value : AttributeValue) (depth remaining : N) : result (O * N) :=
  throw_if (8 <? depth) || (remaining =? 0) as length_error ;;
  let remaining := remaining - 1 in
  let out := put out (index value) 1 in
  let* '(out, remaining) :=
    match value with
    | AInt n => Ok (put out (bits_of_int n) 8, remaining)
    | ANum n => throw_if negb (is_finite n) as invalid_argument ;; Ok (put out n 8, remaining)
    | ABool b => Ok (put out (bool_bit b) 1, remaining)
    | AStr text =>
        throw_if 65536 <? size text as length_error ;;
        Ok (out_str (put out (size text) 4) text, remaining)
    | AStruct fields =>
        let count := N.of_nat (length fields) in
        throw_if is_empty fields || (64 <? count) as length_error ;;
        fold_result (fun '(out, remaining) e =>
          let* _ := check_name e.1 in
          encode_value (out_str (put out (size e.1) 1) e.1) e.2 (depth + 1) remaining)
          fields (put out count 1, remaining)
    | AMap entries =>
        let count := N.of_nat (length entries) in
        throw_if 256 <? count as length_error ;;
        fold_result (fun '(out, remaining) e =>
          throw_if bad_key e.1 as invalid_argument ;;
          encode_value (out_str (put out (size e.1) 1) e.1) e.2 (depth + 1) remaining)
          entries (put out count 2, remaining)
    | AArray items =>
        let count := N.of_nat (length items) in
        throw_if 256 <? count as length_error ;;
        fold_result (fun '(out, remaining) child => encode_value out child (depth + 1) remaining)
          items (put out count 2, remaining)
    end in
  throw_if limit <? out_size out as length_error ;;
  Ok (out, remaining).

Definition encode_image (out : O) (values : AttributeStruct) (base revision : N) (snapshot : bool)
    (remaining : N) : result (O * N) :=
  let count := N.of_nat (length values) in
  throw_if (256 <? count) || (revision <? base) || (snapshot && negb (base =? 0)) as invalid_argument ;;
  let out := out_str out (lit "FSA1") in
  let out := put (put (put out (bool_bit snapshot) 1) base 8) revision 8 in
  let out := put out count 2 in
  fold_result (fun '(out, remaining) e =>
    let* _ := check_name e.1 in
    let* '(out, remaining) := encode_value (out_str (put out (size e.1) 1) e.1) e.2 0 remaining in
    throw_if limit <? out_size out as length_error ;;
    Ok (out, remaining)) values (out, remaining).

Definition is_some {A} (o : option A) : bool := match o with Some _ => true | None => false end.

Definition field_paths (update : AttributeUpdate) : bool :=
  existsb (fun patch => preplace patch || negb (is_empty (ppath patch))) (patches update).

Definition encode_part (out : O) (part : PathPart) : result O :=
  match part with
  | PKey key =>
      let* _ := check_key key in Ok (out_str (put (put out 1 1) (size key) 1) key)
  | PIndex index =>
      throw_if 256 <=? index as invalid_argument ;; Ok (put (put out 0 1) index 2)
  end.

Definition encode_patch (out : O) (patch : AttributePatch) (paths : bool) (remaining : N)
    : result (O * N) :=
  let depth := N.of_nat (length (ppath patch)) in
  let* _ := check_name (property patch) in
  let out := out_str (put out (size (property patch)) 1) (property patch) in
  throw_if 8 <? depth as length_error ;;
  let* out := if paths then fold_result encode_part (ppath patch) (put out depth 1) else Ok out in
  let out := put out (if preplace patch then 2 else if pmap patch then 1 else 0) 1 in
  let* '(out, remaining) :=
    if preplace patch then
      match pvalue patch with
      | Some v =>
          throw_if pmap patch || negb (is_empty (pkey patch)) || negb (is_empty (pinsert patch)) ||
                   negb (pindex patch =? 0) || negb (premove patch =? 0) as invalid_argument ;;
          encode_value out v depth remaining
      | None => Throw invalid_argument
      end
    else if pmap patch then
      let* _ := check_key (pkey patch) in
      throw_if negb (is_empty (pinsert patch)) || negb (pindex patch =? 0) ||
               negb (premove patch =? 0) as invalid_argument ;;
      let out := out_str (put out (size (pkey patch)) 1) (pkey patch) in
      let out := put out (bool_bit (is_some (pvalue patch))) 1 in
      match pvalue patch with
      | Some v => encode_value out v (depth + 1) remaining
      | None => Ok (out, remaining)
      end
    else
      let count := N.of_nat (length (pinsert patch)) in
      throw_if (256 <? pindex patch) || (256 <? premove patch) || (256 <? count) ||
               negb (is_empty (pkey patch)) || is_some (pvalue patch) as invalid_argument ;;
      fold_result (fun '(out, remaining) child => encode_value out child (depth + 1) remaining)
        (pinsert patch) (put (put (put out (pindex patch) 2) (premove patch) 2) count 2, remaining)
    in
  throw_if limit <? out_size out as length_error ;;
  Ok (out, remaining).

Definition encode_update (out : O) (update : AttributeUpdate) : result O :=
  let* '(out, remaining) :=
    encode_image out (values update) (base update) (revision update) (snapshot update) node_budget in
  if is_empty (patches update) then Ok out
  else
    let count := N.of_nat (length (patches update)) in
    throw_if snapshot update || (256 <? count) as invalid_argument ;;
    let paths := field_paths update in
    let* '(out, _) := fold_result (fun '(out, remaining) patch =>
        throw_if map_contains (property patch) (values update) as invalid_argument ;;
        encode_patch out patch paths remaining) (patches update) (put out count 2, remaining) in
    Ok out.

End Encode.

(** [out[3] = c] *)
Definition set_version (out : bytes) (c : byte) : bytes := take 3 out ++ c :: drop 4 out.

Definition encode_attributes (update : AttributeUpdate) : result bytes :=
  let* out := encode_update ([] : bytes) update in
  if is_empty (patches update) then Ok out
  else Ok (set_version out (if field_paths update then x33 else x32)).

(** The two overloads of [attribute_wire_size]. *)
Definition attribute_wire_size (update : AttributeUpdate) : result N :=
  let* out := encode_update (MkSizeOnly 0) update in Ok (counted out).
Definition image_wire_size (values : AttributeStruct) : result N :=
  let* '(out, _) := encode_image (MkSizeOnly 0) values 0 0 true node_budget in Ok (counted out).

(** ** Decoding *)

Definition get (input : bytes) (count : nat) : result (N * bytes) :=
  get_be invalid_argument count input.

(** [std::string(in.substr(0, n)); in.remove_prefix(n)] behind [n > in.size()]. *)
Definition get_text (n : N) (input : bytes) : result (bytes * bytes) :=
  throw_if size input <? n as invalid_argument ;;
  Ok (take (N.to_nat n) input, drop (N.to_nat n) input).

(** A decoded value, the unread input and the remaining node budget. *)
Definition Decoded (A : Type) : Type := result (A * bytes * N).

Section DecodeContainers.
(** The recursive call on the elements of a container. *)
Context (child : bytes -> N -> Decoded AttributeValue).

(** One struct field, map entry, array element of the loops of [decode_value]. *)
Definition decode_field (st : AttributeStruct * bytes * N) : Decoded AttributeStruct :=
  let '(out, input, remaining) := st in
  let* '(n, input) := get input 1 in
  let* '(name, input) := get_text n input in
  let* _ := check_name name in
  let* '(v, input, remaining) := child input remaining in
  let '(out, fresh) := map_emplace name v out in
  throw_if negb fresh as invalid_argument ;;
  Ok (out, input, remaining).

Definition decode_entry (st : AttributeStruct * bytes * N) : Decoded AttributeStruct :=
  let '(out, input, remaining) := st in
  let* '(n, input) := get input 1 in
  throw_if (n =? 0) || (127 <? n) as invalid_argument ;;
  let* '(key, input) := get_text n input in
  throw_if has_any nul key as invalid_argument ;;
  let* '(v, input, remaining) := child input remaining in
  let '(out, fresh) := map_emplace key v out in
  throw_if negb fresh as invalid_argument ;;
  Ok (out, input, remaining).

Definition decode_item (st : list AttributeValue * bytes * N) : Decoded (list AttributeValue) :=
  let '(out, input, remaining) := st in
  let* '(v, input, remaining) := child input remaining in
  Ok (out ++ [v], input, remaining).
(** The body of [decode_value] at [depth]. *)
Definition decode_step (depth : N) (input : bytes) (remaining : N) : Decoded AttributeValue :=
  throw_if (8 <? depth) || (remaining =? 0) as length_error ;;
  let remaining := remaining - 1 in
  let* '(tag, input) := get input 1 in
  match tag with
  | 0 => let* '(b, input) := get input 8 in Ok (AInt (int_of_bits b), input, remaining)
  | 1 => let* '(b, input) := get input 8 in
         throw_if negb (is_finite b) as invalid_argument ;;
         Ok (ANum b, input, remaining)
  | 2 => let* '(b, input) := get input 1 in
         throw_if 1 <? b as invalid_argument ;;
         Ok (ABool (negb (b =? 0)), input, remaining)
  | 3 => let* '(n, input) := get input 4 in
         throw_if 65536 <? n as invalid_argument ;;
         let* '(text, input) := get_text n input in
         Ok (AStr text, input, remaining)
  | 4 => let* '(count, input) := get input 1 in
         throw_if (count =? 0) || (64 <? count) as invalid_argument ;;
         let* '(out, input, remaining) :=
           iter_result decode_field (N.to_nat count) ([], input, remaining) in
         Ok (AStruct out, input, remaining)
  | 5 => let* '(count, input) := get input 2 in
         throw_if 256 <? count as invalid_argument ;;
         let* '(out, input, remaining) :=
           iter_result decode_item (N.to_nat count) ([], input, remaining) in
         Ok (AArray out, input, remaining)
  | 6 => let* '(count, input) := get input 2 in
         throw_if 256 <? count as invalid_argument ;;
         let* '(out, input, remaining) :=
           iter_result decode_entry (N.to_nat count) ([], input, remaining) in
         Ok (AMap out, input, remaining)
  | _ => Throw invalid_argument
  end.
End DecodeContainers.

(** [decode_value] below depth [depth]; [levels] counts the depths left, and
    [decode_value] starts it at [9 - depth], so it runs out exactly where the source
    throws on [depth > 8] ([decode_value_unfold]). *)
Fixpoint decode_levels (levels : nat) (depth : N) (input : bytes) (remaining : N)
    : Decoded AttributeValue :=
  match levels with
  | O => Throw length_error
  | S levels => decode_step (decode_levels levels (depth + 1)) depth input remaining
  end.

Definition decode_value (input : bytes) (depth remaining : N) : Decoded AttributeValue :=
  decode_levels (9 - N.to_nat depth) depth input remaining.

Lemma decode_value_unfold input depth remaining :
  decode_value input depth remaining =
  decode_step (fun input r => decode_value input (depth + 1) r) depth input remaining.
Proof.
  unfold decode_value. destruct (N.le_gt_cases depth 8) as [H|H].
  - replace (9 - N.to_nat depth)%nat with (S (9 - N.to_nat (depth + 1))) by lia. done.
  - replace (9 - N.to_nat depth)%nat with O by lia. unfold decode_step.
    by rewrite (proj2 (N.ltb_lt 8 depth)).
Qed.

(** The named roots of [decode_attributes]. *)
Definition decode_root (st : AttributeStruct * bytes * N) : Decoded AttributeStruct :=
  decode_field (fun input remaining => decode_value input 0 remaining) st.

Definition decode_part (st : list PathPart * bytes) : result (list PathPart * bytes) :=
  let '(path, input) := st in
  let* '(tag, input) := get input 1 in
  if tag =? 0 then
    let* '(index, input) := get input 2 in
    throw_if 256 <=? index as invalid_argument ;;
    Ok (path ++ [PIndex index], input)
  else if tag =? 1 then
    let* '(n, input) := get input 1 in
    throw_if (n =? 0) || (127 <? n) as invalid_argument ;;
    let* '(key, input) := get_text n input in
    let* _ := check_key key in
    Ok (path ++ [PKey key], input)
  else Throw invalid_argument.

Definition decode_patch (paths : bool) (values : AttributeStruct)
    (st : list AttributePatch * bytes * N) : Decoded (list AttributePatch) :=
  let '(out, input, remaining) := st in
  let* '(n, input) := get input 1 in
  let* '(name, input) := get_text n input in
  let* _ := check_name name in
  throw_if map_contains name values as invalid_argument ;;
  let* '(path, input) :=
    if paths then
      let* '(depth, input) := get input 1 in
      throw_if 8 <? depth as length_error ;;
      iter_result decode_part (N.to_nat depth) ([], input)
    else Ok ([], input) in
  let depth := N.of_nat (length path) in
  let* '(kind, input) := get input 1 in
  throw_if (if paths then 2 else 1) <? kind as invalid_argument ;;
  let* '(patch, input, remaining) :=
    if kind =? 2 then
      let* '(v, input, remaining) := decode_value input depth remaining in
      Ok (MkPatch name false [] (Some v) 0 0 [] path true, input, remaining)
    else if kind =? 1 then
      let* '(n, input) := get input 1 in
      throw_if (n =? 0) || (127 <? n) as invalid_argument ;;
      let* '(key, input) := get_text n input in
      throw_if has_any nul key as invalid_argument ;;
      let* '(present, input) := get input 1 in
      throw_if 1 <? present as invalid_argument ;;
      if present =? 0 then Ok (MkPatch name true key None 0 0 [] path false, input, remaining)
      else
        let* '(v, input, remaining) := decode_value input (depth + 1) remaining in
        Ok (MkPatch name true key (Some v) 0 0 [] path false, input, remaining)
    else
      let* '(index, input) := get input 2 in
      let* '(remove, input) := get input 2 in
      let* '(n, input) := get input 2 in
      throw_if (256 <? index) || (256 <? remove) || (256 <? n) as invalid_argument ;;
      let* '(items, input, remaining) :=
        iter_result (decode_item (fun input r => decode_value input (depth + 1) r))
          (N.to_nat n) ([], input, remaining) in
      Ok (MkPatch name false [] None index remove items path false, input, remaining)
    in
  Ok (out ++ [patch], input, remaining).

Definition decode_attributes (input : bytes) : result AttributeUpdate :=
  let paths := starts_with (lit "FSA3") input in
  let patched := paths || starts_with (lit "FSA2") input in
  throw_if (limit <? size input) || (negb patched && negb (starts_with (lit "FSA1") input))
    as invalid_argument ;;
  let input := drop 4 input in
  let* '(flag, input) := get input 1 in
  throw_if 1 <? flag as invalid_argument ;;
  let snapshot := negb (flag =? 0) in
  let* '(base, input) := get input 8 in
  let* '(revision, input) := get input 8 in
  let* '(count, input) := get input 2 in
  throw_if (256 <? count) || (revision <? base) || (snapshot && negb (base =? 0))
    as invalid_argument ;;
  let* '(values, input, remaining) :=
    iter_result decode_root (N.to_nat count) ([], input, node_budget) in
  let* '(patches, input) :=
    if patched then
      throw_if snapshot as invalid_argument ;;
      let* '(n, input) := get input 2 in
      throw_if (n =? 0) || (256 <? n) as invalid_argument ;;
      let* '(patches, input, _) :=
        iter_result (decode_patch paths values) (N.to_nat n) ([], input, remaining) in
      Ok (patches, input)
    else Ok ([], input) in
  throw_if negb (is_empty input) as invalid_argument ;;
  Ok (MkUpdate base revision snapshot values patches).
