(* ===== verification/AttributeCodec.v ===== *)
(** * Correctness of the attribute wire format

    An abstract description of the bytes of a value ([wire]), of the node count and
    of which values the encoder accepts at a depth ([encodable]); the encoder refines
    it for every output ([encode_value_encodable]), so the size computation agrees with the
    encoding; the decoder inverts it. *)

From S2P Require Import Prelude OrderedMap Values AttributeWire.

(** ** Abstract description *)

Definition wire_entries (wire : AttributeValue -> bytes) (m : AttributeStruct) : bytes :=
  concat (map (fun e => put_be 1 (size e.1) ++ e.1 ++ wire e.2) m).

Fixpoint wire (v : AttributeValue) : bytes :=
  put_be 1 (index v) ++
  match v with
  | AInt n => put_be 8 (bits_of_int n)
  | ANum b => put_be 8 b
  | ABool b => put_be 1 (bool_bit b)
  | AStr s => put_be 4 (size s) ++ s
  | AStruct m => put_be 1 (N.of_nat (length m)) ++ wire_entries wire m
  | AMap m => put_be 2 (N.of_nat (length m)) ++ wire_entries wire m
  | AArray l => put_be 2 (N.of_nat (length l)) ++ concat (map wire l)
  end.

Definition sum {A} (f : A -> N) (l : list A) : N := fold_right (fun x n => f x + n) 0 l.

Fixpoint nodes (v : AttributeValue) : N :=
  match v with
  | AStruct m | AMap m => 1 + sum (fun e => nodes e.2) m
  | AArray l => 1 + sum nodes l
  | _ => 1
  end.

Fixpoint encodable (depth : N) (v : AttributeValue) : bool :=
  (depth <=? 8) &&
  match v with
  | AInt _ | ABool _ => true
  | ANum b => is_finite b
  | AStr s => size s <=? 65536
  | AStruct m => negb (is_empty m) && (N.of_nat (length m) <=? 64) &&
      forallb (fun e => negb (bad_name e.1) && encodable (depth + 1) e.2) m
  | AMap m => (N.of_nat (length m) <=? 256) &&
      forallb (fun e => negb (bad_key e.1) && encodable (depth + 1) e.2) m
  | AArray l => (N.of_nat (length l) <=? 256) && forallb (encodable (depth + 1)) l
  end.

Definition wire_size (v : AttributeValue) : N := size (wire v).
Definition entry_size (e : bytes * AttributeValue) : N := 1 + size e.1 + wire_size e.2.

Lemma sum_app {A} (f : A -> N) l k : sum f (l ++ k) = sum f l + sum f k.
Proof. unfold sum. induction l; simpl; [done|]. rewrite IHl. lia. Qed.

Lemma sum_elem {A} (f : A -> N) l x : x ∈ l -> f x <= sum f l.
Proof.
  induction l as [|y l IH]; [by intros ?%not_elem_of_nil|].
  intros [->|Hx]%elem_of_cons; unfold sum in *; simpl; [lia|]. specialize (IH Hx). lia.
Qed.

Lemma size_concat_map {A} (f : A -> bytes) l : size (concat (map f l)) = sum (fun x => size (f x)) l.
Proof. unfold sum. induction l; simpl; [done|]. by rewrite size_app, IHl. Qed.

Lemma size_wire_entries m : size (wire_entries wire m) = sum entry_size m.
Proof.
  unfold wire_entries. rewrite size_concat_map. unfold sum. induction m as [|e m IH]; [done|].
  cbn [fold_right]. rewrite IH. unfold entry_size, wire_size.
  rewrite !size_app, size_put_be. lia.
Qed.

(** Every value occupies at least one node and one byte. *)
Lemma nodes_pos v : 1 <= nodes v.
Proof. destruct v; simpl; lia. Qed.

(** ** Refinement of the encoder *)

Section Refine.
Context {O : Type} `{OutputLaws O}.
Implicit Types (out : O).

Lemma put_spec out n c : put out n c = out_str out (put_be c n).
Proof.
  unfold put. generalize (put_be c n). intros l. revert out. induction l as [|b l IH]; intros out; simpl.
  - by rewrite out_str_nil.
  - by rewrite IH, out_char_str, out_str_str.
Qed.

(** A loop of the encoder over elements it accepts. *)
Lemma fold_encode {A} (body : O * N -> A -> result (O * N)) (text : A -> bytes) (cost : A -> N) l :
  Forall (fun x => forall out r, body (out, r) x =
    if (cost x <=? r) && (out_size out + size (text x) <=? limit)
    then Ok (out_str out (text x), r - cost x) else Throw length_error) l ->
  forall out r, fold_result body l (out, r) =
    if (sum cost l <=? r) && (is_empty l || (out_size out + size (concat (map text l)) <=? limit))
    then Ok (out_str out (concat (map text l)), r - sum cost l) else Throw length_error.
Proof.
  induction 1 as [|x l Hx Hl IH]; intros out r.
  - change (sum cost []) with 0. rewrite (proj2 (N.leb_le 0 r)) by lia.
    cbn. by rewrite out_str_nil, N.sub_0_r.
  - cbn [fold_result map concat is_empty orb]. rewrite Hx.
    change (sum cost (x :: l)) with (cost x + sum cost l). rewrite size_app.
    destruct ((cost x <=? r) && _) eqn:E; cbn [bind].
    + rewrite IH, out_size_str, out_str_str. bool_prop. destruct E as [E1 E2].
      rewrite <- N.sub_add_distr, <- N.add_assoc.
      destruct l as [|y l].
      * cbn [is_empty orb map concat]. change (sum cost []) with 0. rewrite app_nil_r, size_nil.
        rewrite !N.add_0_r, (proj2 (N.leb_le _ _) E1), (proj2 (N.leb_le _ _) E2).
        rewrite (proj2 (N.leb_le 0 _)) by lia. done.
      * cbn [is_empty orb]. set (a := sum cost (y :: l)). set (b := size (concat _)).
        destruct (N.leb_spec a (r - cost x)), (N.leb_spec (cost x + a) r); try lia; done.
    + bool_prop. set (a := sum cost l). set (b := size (concat _)).
      destruct (N.leb_spec (cost x + a) r) as [H1|H1]; [|done].
      destruct (N.leb_spec (out_size out + (size (text x) + b)) limit) as [H2|H2]; [|done].
      exfalso. destruct E; lia.
Qed.

(** The common end of [encode_value]: the node charge and the byte bound. *)
Lemma finish_value out (m : result (O * N)) e r n (side : bool) :
  m = (if (n <=? r - 1) && (side || (out_size out + size e <=? limit))
       then Ok (out_str out e, r - 1 - n) else Throw length_error) ->
  (if r =? 0 then Throw length_error
   else let* '(out, remaining) := m in
        throw_if limit <? out_size out as length_error ;; Ok (out, remaining)) =
  (if (1 + n <=? r) && (out_size out + size e <=? limit)
   then Ok (out_str out e, r - (1 + n)) else Throw length_error).
Proof.
  intros ->. destruct (N.eqb_spec r 0) as [->|Hr].
  { by rewrite (proj2 (N.leb_gt (1 + n) 0)) by lia. }
  destruct (N.leb_spec n (r - 1)), (N.leb_spec (1 + n) r); try lia; cbn [andb]; [|done].
  destruct (N.leb_spec (out_size out + size e) limit).
  - rewrite orb_true_r. cbn [bind]. rewrite out_size_str, (proj2 (N.ltb_ge _ _)) by done.
    do 2 f_equal. lia.
  - rewrite orb_false_r. destruct side; [|done]. cbn [bind].
    by rewrite out_size_str, (proj2 (N.ltb_lt _ _)).
Qed.

(** The encoder on a value it accepts: the wire bytes are appended and the nodes are
    charged, or the node or byte budget is exceeded and it throws [length_error]. *)
Lemma encode_value_encodable v : forall depth out r,
  encodable depth v = true ->
  encode_value out v depth r =
    if (nodes v <=? r) && (out_size out + size (wire v) <=? limit)
    then Ok (out_str out (wire v), r - nodes v) else Throw length_error.
Proof.
  induction v as [n|x|x|s|m IH|l IH|m IH] using value_ind'; intros depth out r Henc;
    cbn [encodable] in Henc; apply andb_true_iff in Henc as [Hd Henc];
    apply N.leb_le in Hd; cbn [encode_value]; rewrite (proj2 (N.ltb_ge 8 depth)) by done;
    cbn [orb]; cbv zeta; cbn [wire nodes].
  - apply (finish_value out _ _ r 0 true). cbn [orb andb].
    by rewrite !put_spec, out_str_str, (proj2 (N.leb_le 0 _)), N.sub_0_r by lia.
  - rewrite Henc. apply (finish_value out _ _ r 0 true). cbn [orb andb negb].
    by rewrite !put_spec, out_str_str, (proj2 (N.leb_le 0 _)), N.sub_0_r by lia.
  - apply (finish_value out _ _ r 0 true). cbn [orb andb].
    by rewrite !put_spec, out_str_str, (proj2 (N.leb_le 0 _)), N.sub_0_r by lia.
  - apply N.leb_le in Henc. rewrite (proj2 (N.ltb_ge 65536 _)) by done.
    apply (finish_value out _ _ r 0 true). cbn [orb andb].
    by rewrite !put_spec, !out_str_str, <- ?app_assoc, (proj2 (N.leb_le 0 _)), N.sub_0_r by lia.
  - bool_prop. destruct Henc as [[He Hl] Hf]. rewrite He, (proj2 (N.ltb_ge 64 _)) by done. cbn [orb].
    apply (finish_value out _ _ r (sum (fun e => nodes e.2) m) false).
    rewrite (fold_encode _ (fun e => put_be 1 (size e.1) ++ e.1 ++ wire e.2) (fun e => nodes e.2)).
    + rewrite He. cbn [orb]. rewrite !put_spec, !out_size_str, !out_str_str, !size_app, !N.add_assoc.
      unfold wire_entries. by rewrite <- ?app_assoc.
    + apply Forall_forall. intros e Hin out' r'. rewrite forallb_forall in Hf.
      specialize (Hf e (proj1 (list_elem_of_In _ _) Hin)). bool_prop. destruct Hf as [Hn Hf].
      unfold check_name. rewrite Hn. cbn [bind]. rewrite Forall_forall in IH. rewrite IH by done.
      rewrite put_spec, !out_str_str, !out_size_str, !size_app, !N.add_assoc. by rewrite <- ?app_assoc.
  - bool_prop. destruct Henc as [Hl Hf]. rewrite (proj2 (N.ltb_ge 256 _)) by done.
    apply (finish_value out _ _ r (sum nodes l) (is_empty l)).
    rewrite (fold_encode _ wire nodes).
    + rewrite !put_spec, !out_size_str, !out_str_str, !size_app, !N.add_assoc. by rewrite <- ?app_assoc.
    + apply Forall_forall. intros e Hin out' r'. rewrite forallb_forall in Hf.
      rewrite Forall_forall in IH. apply IH; [done|]. by apply Hf, list_elem_of_In.
  - bool_prop. destruct Henc as [Hl Hf]. rewrite (proj2 (N.ltb_ge 256 _)) by done.
    apply (finish_value out _ _ r (sum (fun e => nodes e.2) m) (is_empty m)).
    rewrite (fold_encode _ (fun e => put_be 1 (size e.1) ++ e.1 ++ wire e.2) (fun e => nodes e.2)).
    + rewrite !put_spec, !out_size_str, !out_str_str, !size_app, !N.add_assoc.
      unfold wire_entries. by rewrite <- ?app_assoc.
    + apply Forall_forall. intros e Hin out' r'. rewrite forallb_forall in Hf.
      specialize (Hf e (proj1 (list_elem_of_In _ _) Hin)). bool_prop. destruct Hf as [Hn Hf].
      rewrite Hn. rewrite Forall_forall in IH. rewrite IH by done.
      rewrite put_spec, !out_str_str, !out_size_str, !size_app, !N.add_assoc. by rewrite <- ?app_assoc.
Qed.

(** Only accepted values are encoded. *)
Lemma fold_encode_ok {A} (body : O * N -> A -> result (O * N)) (P : A -> Prop) l :
  Forall (fun x => forall out r y, body (out, r) x = Ok y -> P x) l ->
  forall out r y, fold_result body l (out, r) = Ok y -> Forall P l.
Proof.
  induction 1 as [|x l Hx Hl IH]; intros out r y Hf; [constructor|].
  cbn [fold_result] in Hf. apply bind_ok in Hf as ([out' r'] & H1 & H2).
  constructor; [by eapply Hx|by eapply IH].
Qed.

Lemma encode_value_ok v : forall depth out r y,
  encode_value out v depth r = Ok y -> encodable depth v = true.
Proof.
  induction v as [n|x|x|s|m IH|l IH|m IH] using value_ind'; intros depth out r y Hok;
    cbn [encode_value] in Hok; inv_ok; cbn [encodable]; bool_prop;
    repeat split; try lia; try done.
  - by destruct E2.
  - apply (fold_encode_ok _ (fun e => negb (bad_name e.1) && encodable (depth + 1) e.2 = true)) in E0.
    + apply forallb_forall. intros e He. rewrite Forall_forall in E0. by apply E0, list_elem_of_In.
    + eapply Forall_impl; [exact IH|]. intros e Hv out' r' z Hz. cbv beta in Hv.
      unfold check_name in Hz. inv_ok. bool_prop. split; [done|by eapply Hv].
  - apply (fold_encode_ok _ (fun e => encodable (depth + 1) e = true)) in E0.
    + apply forallb_forall. intros e He. rewrite Forall_forall in E0. by apply E0, list_elem_of_In.
    + eapply Forall_impl; [exact IH|]. intros e Hv out' r' z Hz. by eapply Hv.
  - apply (fold_encode_ok _ (fun e => negb (bad_key e.1) && encodable (depth + 1) e.2 = true)) in E0.
    + apply forallb_forall. intros e He. rewrite Forall_forall in E0. by apply E0, list_elem_of_In.
    + eapply Forall_impl; [exact IH|]. intros e Hv out' r' z Hz. cbv beta in Hv.
      inv_ok. bool_prop. split; [done|by eapply Hv].
Qed.

(** ** Images, patches, updates *)

Definition wire_header (values : AttributeStruct) (base revision : N) (snapshot : bool) : bytes :=
  lit "FSA1" ++ put_be 1 (bool_bit snapshot) ++ put_be 8 base ++ put_be 8 revision ++
  put_be 2 (N.of_nat (length values)).
Definition wire_image (values : AttributeStruct) (base revision : N) (snapshot : bool) : bytes :=
  wire_header values base revision snapshot ++ wire_entries wire values.

Definition image_nodes (values : AttributeStruct) : N := sum (fun e => nodes e.2) values.

Definition root_ok (e : bytes * AttributeValue) : bool := negb (bad_name e.1) && encodable 0 e.2.
Definition image_ok (values : AttributeStruct) (base revision : N) (snapshot : bool) : bool :=
  (N.of_nat (length values) <=? 256) && (base <=? revision) && negb (snapshot && negb (base =? 0)) &&
  forallb root_ok values.

Lemma encode_image_spec out vs b rv sn r :
  image_ok vs b rv sn = true ->
  encode_image out vs b rv sn r =
    if (image_nodes vs <=? r) && (is_empty vs || (out_size out + size (wire_image vs b rv sn) <=? limit))
    then Ok (out_str out (wire_image vs b rv sn), r - image_nodes vs) else Throw length_error.
Proof.
  unfold image_ok. intros Hok. bool_prop. destruct Hok as [[[H1 H2] H3] H4].
  unfold encode_image. cbv zeta. rewrite (proj2 (N.ltb_ge 256 _)), (proj2 (N.ltb_ge rv b)) by done.
  rewrite (proj2 (andb_false_iff _ _)) by (bool_prop; exact H3). cbn [orb].
  rewrite (fold_encode _ (fun e => put_be 1 (size e.1) ++ e.1 ++ wire e.2) (fun e => nodes e.2)).
  - rewrite !put_spec, !out_str_str, out_size_str. unfold wire_image, wire_header, wire_entries, image_nodes.
    by rewrite <- ?app_assoc, !size_app, ?N.add_assoc.
  - apply Forall_forall. intros e Hin out' r'. rewrite forallb_forall in H4.
    specialize (H4 e (proj1 (list_elem_of_In _ _) Hin)). unfold root_ok in H4. bool_prop.
    destruct H4 as [H4 H5]. unfold check_name. rewrite H4. cbn [bind].
    rewrite encode_value_encodable by done.
    rewrite put_spec, !out_str_str, !out_size_str, !size_app, !N.add_assoc, <- ?app_assoc.
    destruct (nodes e.2 <=? r'); cbn [andb]; [|done].
    destruct (N.leb_spec (out_size out' + size (put_be 1 (size e.1)) + size e.1 + size (wire e.2)) limit);
      cbn [bind]; [|done].
    rewrite out_size_str, !size_app, !N.add_assoc. by rewrite (proj2 (N.ltb_ge _ _)).
Qed.

Lemma encode_image_ok out vs b rv sn r y :
  encode_image out vs b rv sn r = Ok y -> image_ok vs b rv sn = true.
Proof.
  unfold encode_image, image_ok. intros Hok. inv_ok.
  apply (fold_encode_ok _ (fun e => root_ok e = true)) in Hok.
  - bool_prop. destruct E as [[E1 E2] E3]. split_and!; try done.
    { apply andb_false_iff. by bool_prop. }
    apply forallb_forall. intros e He. rewrite Forall_forall in Hok. by apply Hok, list_elem_of_In.
  - apply Forall_forall. intros e _ out' r' z Hz. unfold check_name in Hz. inv_ok.
    unfold root_ok. apply encode_value_ok in E1. rewrite E1. by bool_prop.
Qed.

Definition wire_part (p : PathPart) : bytes :=
  match p with
  | PKey k => put_be 1 1 ++ put_be 1 (size k) ++ k
  | PIndex i => put_be 1 0 ++ put_be 2 i
  end.
Definition part_ok (p : PathPart) : bool :=
  match p with PKey k => negb (bad_key k) | PIndex i => i <? 256 end.

Definition path_depth (p : AttributePatch) : N := N.of_nat (length (ppath p)).

Definition wire_prefix (paths : bool) (p : AttributePatch) : bytes :=
  put_be 1 (size (property p)) ++ property p ++
  (if paths then put_be 1 (path_depth p) ++ concat (map wire_part (ppath p)) else []).

Definition wire_edit (p : AttributePatch) : bytes :=
  if preplace p then put_be 1 2 ++ match pvalue p with Some v => wire v | None => [] end
  else if pmap p then
    put_be 1 1 ++ put_be 1 (size (pkey p)) ++ pkey p ++ put_be 1 (bool_bit (is_some (pvalue p))) ++
    match pvalue p with Some v => wire v | None => [] end
  else put_be 1 0 ++ put_be 2 (pindex p) ++ put_be 2 (premove p) ++
    put_be 2 (N.of_nat (length (pinsert p))) ++ concat (map wire (pinsert p)).

Definition wire_patch (paths : bool) (p : AttributePatch) : bytes := wire_prefix paths p ++ wire_edit p.

Definition patch_nodes (p : AttributePatch) : N :=
  (match pvalue p with Some v => nodes v | None => 0 end) + sum nodes (pinsert p).

Definition edit_ok (p : AttributePatch) : bool :=
  let no_splice := is_empty (pinsert p) && (pindex p =? 0) && (premove p =? 0) in
  if preplace p then
    negb (pmap p) && is_empty (pkey p) && no_splice &&
    match pvalue p with Some v => encodable (path_depth p) v | None => false end
  else if pmap p then
    negb (bad_key (pkey p)) && no_splice &&
    match pvalue p with Some v => encodable (path_depth p + 1) v | None => true end
  else
    (pindex p <=? 256) && (premove p <=? 256) && (N.of_nat (length (pinsert p)) <=? 256) &&
    is_empty (pkey p) && negb (is_some (pvalue p)) &&
    forallb (encodable (path_depth p + 1)) (pinsert p).

Definition patch_ok (paths : bool) (p : AttributePatch) : bool :=
  negb (bad_name (property p)) && (path_depth p <=? 8) &&
  (if paths then forallb part_ok (ppath p) else true) && edit_ok p.

Lemma encode_parts_spec path : forallb part_ok path = true -> forall out,
  fold_result encode_part path out = Ok (out_str out (concat (map wire_part path))).
Proof.
  induction path as [|p path IH]; intros Hp out; cbn [fold_result map concat forallb] in *.
  - by rewrite out_str_nil.
  - apply andb_true_iff in Hp as [Hp Hps].
    assert (E : encode_part out p = Ok (out_str out (wire_part p))).
    { destruct p as [k|i]; simpl in *; unfold check_key; bool_prop.
      - rewrite Hp. cbn [bind]. by rewrite !put_spec, !out_str_str, <- ?app_assoc.
      - rewrite (proj2 (N.leb_gt _ _)) by done. by rewrite !put_spec, !out_str_str. }
    rewrite E. cbn [bind]. rewrite IH by done. by rewrite out_str_str.
Qed.

(** The common end of [encode_patch]. *)
Lemma finish_patch out (m : result (O * N)) e r n (side : bool) :
  m = (if (n <=? r) && (side || (out_size out + size e <=? limit))
       then Ok (out_str out e, r - n) else Throw length_error) ->
  (let* '(out, remaining) := m in throw_if limit <? out_size out as length_error ;; Ok (out, remaining)) =
  (if (n <=? r) && (out_size out + size e <=? limit)
   then Ok (out_str out e, r - n) else Throw length_error).
Proof.
  intros ->. destruct (n <=? r); cbn [andb]; [|done].
  destruct (N.leb_spec (out_size out + size e) limit).
  - rewrite orb_true_r. cbn [bind]. by rewrite out_size_str, (proj2 (N.ltb_ge _ _)).
  - rewrite orb_false_r. destruct side; [|done]. cbn [bind].
    by rewrite out_size_str, (proj2 (N.ltb_lt _ _)).
Qed.

Lemma encode_patch_spec out p paths r :
  patch_ok paths p = true ->
  encode_patch out p paths r =
    if (patch_nodes p <=? r) && (out_size out + size (wire_patch paths p) <=? limit)
    then Ok (out_str out (wire_patch paths p), r - patch_nodes p) else Throw length_error.
Proof.
  unfold patch_ok. intros Hok. bool_prop. destruct Hok as [[[Hn Hd] Hp] He].
  unfold encode_patch. cbv zeta. unfold check_name. rewrite Hn. cbn [bind].
  fold (path_depth p). rewrite (proj2 (N.ltb_ge 8 _)) by done.
  assert (Pre : (if paths then fold_result encode_part (ppath p)
      (put (out_str (put out (size (property p)) 1) (property p)) (path_depth p) 1)
      else Ok (out_str (put out (size (property p)) 1) (property p))) = Ok (out_str out (wire_prefix paths p))).
  { unfold wire_prefix. destruct paths.
    - rewrite encode_parts_spec by done. by rewrite !put_spec, !out_str_str, <- ?app_assoc.
    - by rewrite !put_spec, !out_str_str, app_nil_r. }
  rewrite Pre. cbn [bind]. unfold edit_ok in He. cbv zeta in He. unfold wire_patch, wire_edit, patch_nodes.
  destruct (preplace p); [|destruct (pmap p)]; bool_prop.
  - destruct He as [[[Hm Hk] [[Hi Hx] Hr]] Hv]. apply is_empty_true in Hk, Hi.
    destruct (pvalue p) as [v|]; [|done]. rewrite Hm, Hk, Hi, Hx, Hr. cbn [is_empty negb orb N.eqb].
    change (sum nodes []) with 0. rewrite N.add_0_r.
    apply (finish_patch out _ _ r (nodes v) false). rewrite encode_value_encodable by done.
    by rewrite !put_spec, !out_str_str, !out_size_str, !size_app, !N.add_assoc, <- ?app_assoc.
  - destruct He as [[Hk [[Hi Hx] Hr]] Hv]. apply is_empty_true in Hi.
    unfold check_key. rewrite Hk, Hi, Hx, Hr. cbn [is_empty negb orb N.eqb bind].
    change (sum nodes []) with 0. rewrite N.add_0_r.
    destruct (pvalue p) as [v|]; cbn [is_some].
    + apply (finish_patch out _ _ r (nodes v) false). rewrite encode_value_encodable by done.
      by rewrite !put_spec, !out_str_str, !out_size_str, !size_app, !N.add_assoc, <- ?app_assoc.
    + apply (finish_patch out _ _ r 0 true). rewrite (proj2 (N.leb_le 0 r)) by lia. cbn [andb orb].
      by rewrite !put_spec, !out_str_str, N.sub_0_r, <- ?app_assoc, ?app_nil_r.
  - destruct He as [[[[[H1 H2] H3] H4] H5] H6]. rewrite H4, H5.
    rewrite !(proj2 (N.ltb_ge 256 _)) by done. cbn [negb orb].
    destruct (pvalue p); [done|]. rewrite N.add_0_l.
    apply (finish_patch out _ _ r (sum nodes (pinsert p)) (is_empty (pinsert p))).
    rewrite (fold_encode _ wire nodes).
    + by rewrite !put_spec, !out_size_str, !out_str_str, !size_app, !N.add_assoc, <- ?app_assoc.
    + apply Forall_forall. intros x Hin out' r'. rewrite forallb_forall in H6.
      apply encode_value_encodable. by apply H6, list_elem_of_In.
Qed.

Lemma encode_parts_ok path : forall out out',
  fold_result encode_part path out = Ok out' -> forallb part_ok path = true.
Proof.
  induction path as [|p path IH]; intros out out' Hok; [done|].
  cbn [fold_result] in Hok. apply bind_ok in Hok as (o & Hp & Hok). cbn [forallb].
  apply IH in Hok as ->. rewrite andb_true_r. destruct p as [k|i]; simpl in *.
  - unfold check_key in Hp. by destruct (bad_key k).
  - inv_ok. bool_prop. done.
Qed.

Lemma forallb_Forall {A} (f : A -> bool) l : forallb f l = true <-> Forall (fun x => f x = true) l.
Proof.
  rewrite forallb_forall, Forall_forall. split; intros Hx x Hin; apply Hx; by apply list_elem_of_In.
Qed.

Lemma encode_items_ok depth l out r y :
  fold_result (fun '(out, remaining) child => encode_value out child depth remaining) l (out, r) = Ok y ->
  forallb (encodable depth) l = true.
Proof.
  intros Hf. apply forallb_Forall. eapply fold_encode_ok; [|exact Hf].
  apply Forall_forall. intros x _ out' r' z. apply encode_value_ok.
Qed.

Lemma encode_patch_ok out p paths r y :
  encode_patch out p paths r = Ok y -> patch_ok paths p = true.
Proof.
  unfold encode_patch, check_name, patch_ok, edit_ok. cbv zeta. fold (path_depth p).
  destruct (bad_name (property p)); [done|]. cbn [bind negb andb].
  destruct (8 <? path_depth p) eqn:Hd; [done|]. intros (o & Hp & Hok)%bind_ok.
  apply bind_ok in Hok as ([o2 r2] & He & _). rewrite (proj2 (N.leb_le _ 8)) by (bool_prop; lia).
  assert ((if paths then forallb part_ok (ppath p) else true) = true) as ->.
  { destruct paths; [|done]. by eapply encode_parts_ok. }
  clear Hp. cbn [andb]. destruct (preplace p); [|destruct (pmap p)].
  - destruct (pvalue p) as [v|]; [|done]. inv_ok. apply encode_value_ok in He as ->.
    bool_prop. destruct E as [[[[-> ?] ?] ?] ?]. split_and!; done.
  - unfold check_key in He. destruct (bad_key (pkey p)); [done|]. cbn [bind] in He. inv_ok.
    destruct (pvalue p) as [v|]; [apply encode_value_ok in He as ->|];
      bool_prop; destruct E as [[? ?] ?]; split_and!; done.
  - inv_ok. apply encode_items_ok in He as ->. bool_prop. destruct E as [[[[? ?] ?] ?] ->].
    split_and!; done.
Qed.

Definition update_ok (u : AttributeUpdate) : bool :=
  image_ok (values u) (base u) (revision u) (snapshot u) &&
  (is_empty (patches u) ||
   (negb (snapshot u) && (N.of_nat (length (patches u)) <=? 256) &&
    forallb (fun p => negb (map_contains (property p) (values u)) && patch_ok (field_paths u) p) (patches u))).

Definition wire_update (u : AttributeUpdate) : bytes :=
  wire_image (values u) (base u) (revision u) (snapshot u) ++
  if is_empty (patches u) then []
  else put_be 2 (N.of_nat (length (patches u))) ++ concat (map (wire_patch (field_paths u)) (patches u)).

Definition update_nodes (u : AttributeUpdate) : N :=
  image_nodes (values u) + sum patch_nodes (patches u).

Lemma size_wire_header vs b rv sn : size (wire_header vs b rv sn) = 23.
Proof. unfold wire_header. rewrite !size_app, !size_put_be. reflexivity. Qed.

Lemma size_wire_image vs b rv sn : size (wire_image vs b rv sn) = 23 + sum entry_size vs.
Proof. unfold wire_image. by rewrite size_app, size_wire_header, size_wire_entries. Qed.

Lemma encode_update_spec out u :
  out_size out = 0 -> update_ok u = true ->
  encode_update out u =
    if (update_nodes u <=? node_budget) && (size (wire_update u) <=? limit)
    then Ok (out_str out (wire_update u)) else Throw length_error.
Proof.
  intros H0out Hok. unfold update_ok in Hok. apply andb_true_iff in Hok as [Hi Hp].
  unfold encode_update. rewrite encode_image_spec by done. rewrite H0out, N.add_0_l.
  unfold update_nodes, wire_update. rewrite size_app.
  set (img := wire_image _ _ _ _) in *.
  assert (Himg : is_empty (values u) = true -> size img <= limit).
  { intros Hv%is_empty_true. unfold img. rewrite Hv, size_wire_image. done. }
  assert (Hside : is_empty (values u) || (size img <=? limit) = (size img <=? limit)).
  { destruct (is_empty (values u)); [|done]. symmetry. apply N.leb_le. auto. }
  rewrite Hside. destruct (patches u) as [|p ps] eqn:Eps.
  { cbn [is_empty]. change (sum patch_nodes []) with 0. rewrite size_nil, !N.add_0_r, app_nil_r.
    by destruct (image_nodes (values u) <=? node_budget), (size img <=? limit). }
  cbn [is_empty orb] in *. rewrite <- Eps in *. apply andb_true_iff in Hp as [Hp Hf].
  apply andb_true_iff in Hp as [Hs Hl]. apply negb_true_iff in Hs. apply N.leb_le in Hl.
  assert (Hne : is_empty (patches u) = false) by (by rewrite Eps).
  destruct ((image_nodes (values u) <=? node_budget) && (size img <=? limit)) eqn:Ei; cbn [bind].
  - rewrite Hs, (proj2 (N.ltb_ge 256 _)) by done. cbn [orb].
    rewrite (fold_encode _ (wire_patch (field_paths u)) patch_nodes).
    + rewrite Hne. cbn [orb]. rewrite put_spec, !out_size_str, !out_str_str, H0out.
      rewrite N.add_0_l, size_app, !N.add_assoc. bool_prop. destruct Ei as [E1 E2].
      set (a := sum patch_nodes _). set (b := size (concat _)). set (c := size (put_be _ _)).
      destruct (N.leb_spec a (node_budget - image_nodes (values u))),
        (N.leb_spec (image_nodes (values u) + a) node_budget); try lia; cbn [andb]; [|done].
      destruct (N.leb_spec (size img + c + b) limit); cbn [bind]; done.
    + apply Forall_forall. intros x Hin out' r'. rewrite forallb_forall in Hf.
      specialize (Hf x (proj1 (list_elem_of_In _ _) Hin)). apply andb_true_iff in Hf as [F1 F2].
      apply negb_true_iff in F1. rewrite F1. by apply encode_patch_spec.
  - symmetry. bool_prop. set (a := sum patch_nodes _). set (b := size (_ ++ _)).
    destruct (N.leb_spec (image_nodes (values u) + a) node_budget); [|done].
    destruct (N.leb_spec (size img + b) limit); [|done]. exfalso. destruct Ei; lia.
Qed.

Lemma encode_update_ok out u y : encode_update out u = Ok y -> update_ok u = true.
Proof.
  unfold encode_update, update_ok. intros Hok. apply bind_ok in Hok as ([o r] & Hi & Hok).
  apply encode_image_ok in Hi as ->. cbn [andb]. destruct (is_empty (patches u)); [done|].
  inv_ok. apply orb_false_iff in E as [-> E]. apply N.ltb_ge in E. cbn [negb andb orb].
  rewrite (proj2 (N.leb_le _ 256)) by done. cbn [andb].
  apply forallb_Forall. eapply fold_encode_ok; [|exact E0].
  apply Forall_forall. intros p _ out' r' z Hz. cbv beta iota in Hz.
  destruct (map_contains (property p) (values u)); [done|]. by apply encode_patch_ok in Hz as ->.
Qed.

End Refine.

(** ** The size computation

    [attribute_wire_size] runs the encoder template on the byte counter. *)

Create HintDb same.

Section Simulation.
Context {O1 O2 : Type} `{OutputLaws O1} `{OutputLaws O2}.

(** Two runs of the template: the same exception, or outputs of the same size. *)
Definition same_run (m1 : result (O1 * N)) (m2 : result (O2 * N)) : Prop :=
  match m1, m2 with
  | Ok (a, r), Ok (b, s) => out_size a = out_size b /\ r = s
  | Throw e, Throw f => e = f
  | _, _ => False
  end.

Lemma same_bind m1 m2 (k1 : O1 * N -> result (O1 * N)) (k2 : O2 * N -> result (O2 * N)) :
  same_run m1 m2 ->
  (forall a b r, out_size a = out_size b -> same_run (k1 (a, r)) (k2 (b, r))) ->
  same_run (bind m1 k1) (bind m2 k2).
Proof.
  intros Hm Hk. destruct m1 as [[a r]|e], m2 as [[b s]|f]; simpl in *; try done.
  destruct Hm as [Hs ->]. auto.
Qed.

Lemma same_fold {A} (f1 : O1 * N -> A -> result (O1 * N)) (f2 : O2 * N -> A -> result (O2 * N)) l :
  Forall (fun x => forall a b r, out_size a = out_size b -> same_run (f1 (a, r) x) (f2 (b, r) x)) l ->
  forall a b r, out_size a = out_size b -> same_run (fold_result f1 l (a, r)) (fold_result f2 l (b, r)).
Proof. induction 1; intros a b r Hs; [done|]. cbn [fold_result]. apply same_bind; auto. Qed.

Lemma same_put a b n c : out_size (O:=O1) a = out_size (O:=O2) b -> out_size (put a n c) = out_size (put b n c).
Proof. intros E. by rewrite !put_spec, !out_size_str, E. Qed.
Lemma same_str a b s : out_size (O:=O1) a = out_size (O:=O2) b -> out_size (out_str a s) = out_size (out_str b s).
Proof. intros E. by rewrite !out_size_str, E. Qed.

Lemma same_limit a b r : out_size (O:=O1) a = out_size (O:=O2) b ->
  same_run (throw_if limit <? out_size a as length_error ;; Ok (a, r))
           (throw_if limit <? out_size b as length_error ;; Ok (b, r)).
Proof. intros E. rewrite E. by destruct (limit <? out_size b). Qed.

#[local] Hint Resolve same_put same_str same_limit : same.

Lemma same_value v : forall depth r a b, out_size a = out_size b ->
  same_run (encode_value a v depth r) (encode_value b v depth r).
Proof.
  induction v as [n|x|x|s|m IH|l IH|m IH] using value_ind'; intros depth r a b Hs;
    cbn [encode_value]; (destruct ((8 <? depth) || (r =? 0)); [done|]); cbv zeta;
    (apply same_bind; [|intros; by apply same_limit]).
  - split; auto 9 with same.
  - destruct (negb (is_finite x)); [done|]. split; auto 9 with same.
  - split; auto 9 with same.
  - destruct (65536 <? size s); [done|]. split; auto 9 with same.
  - destruct (_ || _); [done|]. apply same_fold; [|auto 9 with same].
    eapply Forall_impl; [exact IH|]. intros e He a' b' r' Hs'.
    destruct (check_name e.1); simpl; [|done]. apply He. auto 9 with same.
  - destruct (256 <? _); [done|]. apply same_fold; [|auto 9 with same].
    eapply Forall_impl; [exact IH|]. intros e He a' b' r' Hs'. by apply He.
  - destruct (256 <? _); [done|]. apply same_fold; [|auto 9 with same].
    eapply Forall_impl; [exact IH|]. intros e He a' b' r' Hs'.
    destruct (bad_key e.1); simpl; [done|]. apply He. auto 9 with same.
Qed.

Lemma same_image vs bs rv sn r a b : out_size a = out_size b ->
  same_run (encode_image a vs bs rv sn r) (encode_image b vs bs rv sn r).
Proof.
  intros Hs. unfold encode_image. destruct (_ || _ || _); [done|]. cbv zeta.
  apply same_fold; [|auto 9 with same]. apply Forall_forall. intros e _ a' b' r' Hs'.
  destruct (check_name e.1); simpl; [|done].
  apply same_bind; [apply same_value; auto 9 with same|intros; by apply same_limit].
Qed.

Definition same_out (m1 : result O1) (m2 : result O2) : Prop :=
  match m1, m2 with
  | Ok a, Ok b => out_size a = out_size b
  | Throw e, Throw f => e = f
  | _, _ => False
  end.

Lemma same_parts path : forall a b, out_size a = out_size b ->
  same_out (fold_result encode_part path a) (fold_result encode_part path b).
Proof.
  induction path as [|p path IH]; intros a b Hs; [done|]. cbn [fold_result].
  destruct p as [k|i]; simpl.
  - destruct (check_key k); simpl; [|done]. apply IH. auto 9 with same.
  - destruct (256 <=? i); simpl; [done|]. apply IH. auto 9 with same.
Qed.

Lemma same_patch p paths r a b : out_size a = out_size b ->
  same_run (encode_patch a p paths r) (encode_patch b p paths r).
Proof.
  intros Hs. unfold encode_patch. cbv zeta. destruct (check_name (property p)); simpl; [|done].
  destruct (8 <? _); [done|].
  match goal with |- same_run (bind ?x _) (bind ?y _) => assert (P : same_out x y) end.
  { destruct paths; [apply same_parts|simpl]; auto 9 with same. }
  match goal with |- same_run (bind ?x _) (bind ?y _) => destruct x as [x'|], y as [y'|] end;
    try done. simpl in P |- *.
  apply same_bind; [|intros; by apply same_limit].
  destruct (preplace p); [|destruct (pmap p)].
  - destruct (pvalue p); [|done]. destruct (_ || _); [done|]. apply same_value. auto 9 with same.
  - destruct (check_key (pkey p)); simpl; [|done]. destruct (_ || _); [done|].
    destruct (pvalue p); [apply same_value|simpl; split]; auto 9 with same.
  - destruct (_ || _); [done|]. apply same_fold; [|auto 9 with same].
    apply Forall_forall. intros x _ a' b' r' Hs'. by apply same_value.
Qed.

Lemma same_update u a b : out_size a = out_size b ->
  same_out (encode_update a u) (encode_update b u).
Proof.
  intros Hs. unfold encode_update. cbv zeta.
  pose proof (same_image (values u) (base u) (revision u) (snapshot u) node_budget a b Hs) as Hi.
  destruct (encode_image a _ _ _ _ _) as [[o1 r1]|], (encode_image b _ _ _ _ _) as [[o2 r2]|];
    simpl in *; try done. destruct Hi as [Ho ->]. destruct (is_empty (patches u)); [done|].
  destruct (_ || _); [done|].
  match goal with |- same_out (bind ?x _) (bind ?y _) => assert (P : same_run x y) end.
  { apply same_fold; [|auto 9 with same]. apply Forall_forall. intros p _ a' b' r' Hs'.
    destruct (map_contains _ _); [done|]. by apply same_patch. }
  match goal with |- same_out (bind ?x _) (bind ?y _) => destruct x as [[x1 x2]|], y as [[y1 y2]|] end;
    simpl in *; try done. by destruct P.
Qed.
End Simulation.

Lemma set_version_prefix c rest :
  set_version (lit "FSA1" ++ rest) c = lit "FSA" ++ c :: rest.
Proof. unfold set_version. simpl. by rewrite drop_0. Qed.

(** The allocation-free size computation agrees with the encoder on
    every update: the same length when the record can be encoded, the same exception
    when it cannot. *)
Theorem attribute_wire_size_exact u :
  attribute_wire_size u = let* record := encode_attributes u in Ok (size record).
Proof.
  unfold attribute_wire_size, encode_attributes.
  pose proof (same_update (O1:=SizeOnly) (O2:=bytes) u (MkSizeOnly 0) [] eq_refl) as Hs.
  destruct (encode_update (MkSizeOnly 0) u) as [o1|e1] eqn:E1,
    (encode_update ([] : bytes) u) as [o2|e2] eqn:E2; simpl in Hs; try done; simpl; [|by rewrite Hs].
  destruct (is_empty (patches u)); simpl; rewrite Hs; [done|].
  pose proof (encode_update_ok _ _ _ E2) as Hok.
  rewrite (encode_update_spec (O:=bytes)) in E2 by done. destruct (_ && _); [|done].
  injection E2 as <-. unfold wire_update, wire_image, wire_header. simpl out_str.
  rewrite <- ?app_assoc, ?app_nil_l, set_version_prefix.
  reflexivity.
Qed.

(** ** Decoding what was encoded *)

Lemma get_put n c rest : (c <= 8)%nat -> n < 256 ^ N.of_nat c ->
  get (put_be c n ++ rest) c = Ok (n, rest).
Proof. apply get_put_be. Qed.

Lemma get_text_app s rest : get_text (size s) (s ++ rest) = Ok (s, rest).
Proof.
  unfold get_text. rewrite size_app, (proj2 (N.ltb_ge _ _)) by lia. unfold size. rewrite Nat2N.id.
  by rewrite take_app_length, drop_app_length.
Qed.

Lemma int_bits n : (- 2 ^ 63 <= n < 2 ^ 63)%Z -> int_of_bits (bits_of_int n) = n.
Proof.
  intros Hn. unfold int_of_bits, bits_of_int.
  pose proof (Z.mod_pos_bound n (2 ^ 64) ltac:(lia)) as Hm.
  assert (Hc : (n mod 2 ^ 64 = n \/ n mod 2 ^ 64 = n + 2 ^ 64)%Z).
  { destruct (Z.le_gt_cases 0 n); [left; apply Z.mod_small; lia|right].
    rewrite <- (Z.mod_add n 1) by lia. apply Z.mod_small. lia. }
  destruct (N.ltb_spec (Z.to_N (n mod 2 ^ 64)) (2 ^ 63)); lia.
Qed.

Lemma bits_of_int_lt n : bits_of_int n < 2 ^ 64.
Proof. unfold bits_of_int. pose proof (Z.mod_pos_bound n (2 ^ 64) ltac:(lia)). lia. Qed.

Lemma good_name_size k : bad_name k = false -> size k < 256.
Proof. unfold bad_name. intros Hk. bool_prop. lia. Qed.
Lemma good_key_parts k : bad_key k = false -> size k <> 0 /\ size k <= 127 /\ has_any nul k = false.
Proof.
  unfold bad_key. intros Hk. bool_prop. destruct Hk as [[H1 H2] H3]. split_and!; try done.
  rewrite size_0. by apply is_empty_false.
Qed.

Section DecodeLoops.
Context (child : bytes -> N -> Decoded AttributeValue).
Definition inverts (v : AttributeValue) : Prop :=
  forall rest r, nodes v <= r -> child (wire v ++ rest) r = Ok (v, rest, r - nodes v).

Lemma decode_fields_spec m2 : forall m1 rest r,
  map_wf (m1 ++ m2) -> Forall (fun e => bad_name e.1 = false /\ inverts e.2) m2 ->
  sum (fun e => nodes e.2) m2 <= r ->
  iter_result (decode_field child) (length m2) (m1, wire_entries wire m2 ++ rest, r) =
  Ok (m1 ++ m2, rest, r - sum (fun e => nodes e.2) m2).
Proof.
  induction m2 as [|[k v] m2 IH]; intros m1 rest r Hwf Hf Hr.
  - cbn. by rewrite app_nil_r, N.sub_0_r.
  - apply Forall_cons in Hf as [[Hk Hv] Hf]. cbn [fst snd] in *.
    change (sum _ ((k, v) :: m2)) with (nodes v + sum (fun e : bytes * AttributeValue => nodes e.2) m2) in *.
    cbn [length iter_result]. unfold decode_field at 1.
    change (wire_entries wire ((k, v) :: m2)) with
      ((put_be 1 (size k) ++ k ++ wire v) ++ wire_entries wire m2).
    rewrite <- !app_assoc, get_put by (try apply good_name_size; done || lia). cbn [bind].
    rewrite get_text_app. cbn [bind]. unfold check_name. rewrite Hk. cbn [bind].
    rewrite Hv by lia. cbn [bind]. rewrite (map_emplace_last _ _ _ m2) by done. cbn [negb bind].
    rewrite IH; [|by rewrite <- app_assoc|done|lia].
    rewrite <- app_assoc, N.sub_add_distr. done.
Qed.

Lemma decode_entries_spec m2 : forall m1 rest r,
  map_wf (m1 ++ m2) -> Forall (fun e => bad_key e.1 = false /\ inverts e.2) m2 ->
  sum (fun e => nodes e.2) m2 <= r ->
  iter_result (decode_entry child) (length m2) (m1, wire_entries wire m2 ++ rest, r) =
  Ok (m1 ++ m2, rest, r - sum (fun e => nodes e.2) m2).
Proof.
  induction m2 as [|[k v] m2 IH]; intros m1 rest r Hwf Hf Hr.
  - cbn. by rewrite app_nil_r, N.sub_0_r.
  - apply Forall_cons in Hf as [[Hk Hv] Hf]. cbn [fst snd] in *.
    change (sum _ ((k, v) :: m2)) with (nodes v + sum (fun e : bytes * AttributeValue => nodes e.2) m2) in *.
    cbn [length iter_result]. unfold decode_entry at 1.
    change (wire_entries wire ((k, v) :: m2)) with
      ((put_be 1 (size k) ++ k ++ wire v) ++ wire_entries wire m2).
    apply good_key_parts in Hk as (K1 & K2 & K3).
    rewrite <- !app_assoc, get_put by (done || lia). cbn [bind].
    rewrite (proj2 (N.eqb_neq _ 0)), (proj2 (N.ltb_ge 127 _)) by done. cbn [orb].
    rewrite get_text_app. cbn [bind]. rewrite K3.
    rewrite Hv by lia. cbn [bind]. rewrite (map_emplace_last _ _ _ m2) by done. cbn [negb bind].
    rewrite IH; [|by rewrite <- app_assoc|done|lia].
    rewrite <- app_assoc, N.sub_add_distr. done.
Qed.

Lemma decode_items_spec l2 : forall l1 rest r,
  Forall inverts l2 -> sum nodes l2 <= r ->
  iter_result (decode_item child) (length l2) (l1, concat (map wire l2) ++ rest, r) =
  Ok (l1 ++ l2, rest, r - sum nodes l2).
Proof.
  induction l2 as [|v l2 IH]; intros l1 rest r Hf Hr.
  - cbn. by rewrite app_nil_r, N.sub_0_r.
  - apply Forall_cons in Hf as [Hv Hf].
    change (sum nodes (v :: l2)) with (nodes v + sum nodes l2) in *.
    cbn [length iter_result map concat]. unfold decode_item at 1. rewrite <- app_assoc.
    rewrite Hv by lia. cbn [bind]. rewrite IH by (done || lia).
    rewrite <- app_assoc, N.sub_add_distr. done.
Qed.
End DecodeLoops.

Lemma decode_levels_wire v : forall levels depth,
  9 <= N.of_nat levels + depth -> value_wf v = true -> encodable depth v = true ->
  inverts (decode_levels levels depth) v.
Proof.
  induction v as [n|x|x|s|m IH|l IH|m IH] using value_ind'; intros levels depth Hlv Hwf Henc rest r Hr;
    cbn [encodable] in Henc; apply andb_true_iff in Henc as [Hd Henc]; apply N.leb_le in Hd;
    (destruct levels as [|levels]; [lia|]); cbn [decode_levels]; unfold decode_step; cbv zeta;
    pose proof (nodes_pos (AInt 0)); cbn [nodes] in Hr |- *;
    rewrite (proj2 (N.ltb_ge 8 depth)), (proj2 (N.eqb_neq r 0)) by lia; cbn [orb wire index];
    rewrite <- app_assoc, get_put by (done || lia); cbn [bind].
  - rewrite get_put by (done || apply bits_of_int_lt || lia). cbn [bind]. cbn [value_wf] in Hwf.
    bool_prop. by rewrite int_bits by lia.
  - cbn [value_wf] in Hwf. bool_prop. rewrite get_put by (done || lia). cbn [bind]. by rewrite Henc.
  - rewrite get_put by first [lia | by destruct x]. cbn [bind]. by destruct x.
  - bool_prop. rewrite <- app_assoc, get_put by (lia || (eapply N.le_lt_trans; [exact Henc|done])).
    cbn [bind]. rewrite (proj2 (N.ltb_ge 65536 _)) by done. rewrite get_text_app. cbn [bind]. done.
  - bool_prop. destruct Henc as [[He Hl] Hf]. cbn [value_wf] in Hwf. apply andb_true_iff in Hwf as [Hs Hwf].
    rewrite <- app_assoc, get_put by (lia || (eapply N.le_lt_trans; [exact Hl|done])). cbn [bind].
    rewrite (proj2 (N.eqb_neq _ 0)), (proj2 (N.ltb_ge 64 _)) by (done || (destruct m; [done|simpl; lia])).
    cbn [orb]. rewrite Nat2N.id, decode_fields_spec; [cbn [bind]; do 2 f_equal; lia|done| |lia].
    apply forallb_Forall in Hf, Hwf. rewrite Forall_forall in *. intros e Hin.
    specialize (Hf e Hin). bool_prop. destruct Hf as [? Hf]. split; [done|].
    apply IH; [done|lia|by apply Hwf|done].
  - bool_prop. destruct Henc as [Hl Hf]. cbn [value_wf] in Hwf.
    rewrite <- app_assoc, get_put by (lia || (eapply N.le_lt_trans; [exact Hl|done])). cbn [bind].
    rewrite (proj2 (N.ltb_ge 256 _)) by done.
    rewrite Nat2N.id, decode_items_spec; [cbn [bind]; do 2 f_equal; lia| |lia].
    apply forallb_Forall in Hf, Hwf. rewrite Forall_forall in *. intros e Hin.
    apply IH; [done|lia|by apply Hwf|by apply Hf].
  - bool_prop. destruct Henc as [Hl Hf]. cbn [value_wf] in Hwf. apply andb_true_iff in Hwf as [Hs Hwf].
    rewrite <- app_assoc, get_put by (lia || (eapply N.le_lt_trans; [exact Hl|done])). cbn [bind].
    rewrite (proj2 (N.ltb_ge 256 _)) by done.
    rewrite Nat2N.id, decode_entries_spec; [cbn [bind]; do 2 f_equal; lia|done| |lia].
    apply forallb_Forall in Hf, Hwf. rewrite Forall_forall in *. intros e Hin.
    specialize (Hf e Hin). bool_prop. destruct Hf as [? Hf]. split; [done|].
    apply IH; [done|lia|by apply Hwf|done].
Qed.

Lemma decode_value_wire v depth : value_wf v = true -> encodable depth v = true ->
  inverts (fun input r => decode_value input depth r) v.
Proof. intros Hw He rest r Hr. unfold decode_value. apply decode_levels_wire; [lia|done..]. Qed.

Lemma decode_parts_spec path : forall p1 rest, forallb part_ok path = true ->
  iter_result decode_part (length path) (p1, concat (map wire_part path) ++ rest) =
  Ok (p1 ++ path, rest).
Proof.
  induction path as [|p path IH]; intros p1 rest Hp; cbn [forallb] in Hp.
  - cbn. by rewrite app_nil_r.
  - apply andb_true_iff in Hp as [Hp Hps]. cbn [length iter_result map concat]. rewrite <- app_assoc.
    assert (E : forall q r, decode_part (q, wire_part p ++ r) = Ok (q ++ [p], r)).
    { intros q r. unfold decode_part. destruct p as [k|i]; cbn [wire_part part_ok] in *; rewrite <- !app_assoc.
      - apply negb_true_iff in Hp. pose proof (good_key_parts k Hp) as (K1 & K2 & K3).
        rewrite get_put by (done || lia). cbn [bind N.eqb Pos.eqb].
        rewrite get_put by (done || lia). cbn [bind].
        rewrite (proj2 (N.eqb_neq _ 0)), (proj2 (N.ltb_ge 127 _)) by done. cbn [orb].
        rewrite get_text_app. cbn [bind]. unfold check_key. rewrite Hp. done.
      - bool_prop. rewrite get_put by (done || lia). cbn [bind N.eqb Pos.eqb].
        rewrite get_put by (lia || (eapply N.lt_trans; [exact Hp|done])). cbn [bind].
        by rewrite (proj2 (N.leb_gt 256 _)) by done. }
    rewrite E. cbn [bind]. rewrite IH by done. by rewrite <- app_assoc.
Qed.

Definition patch_wf (p : AttributePatch) : bool :=
  match pvalue p with Some v => value_wf v | None => true end && forallb value_wf (pinsert p).

Lemma decode_patch_spec paths vs p out rest r :
  patch_ok paths p = true -> patch_wf p = true -> map_contains (property p) vs = false ->
  (paths = false -> ppath p = [] /\ preplace p = false) -> patch_nodes p <= r ->
  decode_patch paths vs (out, wire_patch paths p ++ rest, r) = Ok (out ++ [p], rest, r - patch_nodes p).
Proof.
  destruct p as [nm mp ky vl ix rm ins pth rp]. unfold patch_ok, patch_wf, patch_nodes, path_depth.
  cbn [property ppath preplace pvalue pinsert]. intros Hok Hwf Hc Hpaths Hr. bool_prop.
  destruct Hok as [[[Hn Hd] Hp] He]. unfold wire_patch, wire_prefix, decode_patch.
  cbn [property ppath]. rewrite <- !app_assoc, get_put by (lia || (by apply good_name_size)).
  cbn [bind]. rewrite get_text_app. cbn [bind]. unfold check_name. rewrite Hn, Hc. cbn [bind].
  set (tail := wire_edit _ ++ rest).
  match goal with |- bind ?m _ = _ => assert (Pre : m = Ok (pth, tail)) end.
  { unfold path_depth. cbn [ppath]. destruct paths.
    - rewrite <- app_assoc, get_put by (lia || (eapply N.le_lt_trans; [exact Hd|done])). cbn [bind].
      rewrite (proj2 (N.ltb_ge 8 _)) by done. rewrite Nat2N.id. by apply decode_parts_spec.
    - destruct Hpaths as [-> _]; done. }
  rewrite Pre. cbn [bind]. unfold tail, wire_edit, edit_ok, path_depth in *. clear Pre.
  cbn [preplace pmap pvalue pkey pindex premove pinsert ppath] in *.
  destruct rp; [|destruct mp]; rewrite <- ?app_assoc.
  - rewrite get_put by (done || lia). cbn [bind]. destruct paths; [|by destruct Hpaths].
    cbn [N.ltb N.compare Pos.compare Pos.compare_cont N.eqb Pos.eqb].
    bool_prop. destruct He as [[[Hm Hk] [[Hi Hx] Hrm]] Hv]. apply is_empty_true in Hk, Hi. subst.
    destruct vl as [v|]; [|done]. destruct Hwf as [Hwf _]. rewrite (decode_value_wire v) by (done || (cbn in *; lia)).
    cbn [bind]. by rewrite N.add_0_r.
  - rewrite get_put by (done || lia). cbn [bind]. rewrite (proj2 (N.ltb_ge _ 1)) by (destruct paths; lia).
    cbn [N.eqb Pos.eqb]. bool_prop. destruct He as [[Hk [[Hi Hx] Hrm]] Hv]. apply is_empty_true in Hi. subst.
    pose proof (good_key_parts _ Hk) as (K1 & K2 & K3). rewrite get_put by (done || lia). cbn [bind].
    rewrite (proj2 (N.eqb_neq _ 0)), (proj2 (N.ltb_ge 127 _)) by done. cbn [orb].
    rewrite get_text_app. cbn [bind]. rewrite K3. change (sum nodes []) with 0 in *. rewrite !N.add_0_r in *.
    destruct vl as [v|]; cbn [is_some bool_bit]; rewrite get_put by (done || lia); cbn [bind N.ltb N.compare Pos.compare Pos.compare_cont N.eqb].
    + destruct Hwf as [Hwf _]. rewrite (decode_value_wire v) by (done || lia). done.
    + by rewrite N.sub_0_r.
  - rewrite get_put by (done || lia). cbn [bind]. rewrite (proj2 (N.ltb_ge _ 0)) by lia.
    cbn [N.eqb]. bool_prop. destruct He as [[[[[H1 H2] H3] H4] H5] H6]. apply is_empty_true in H4.
    destruct vl; [done|]. subst ky. destruct Hwf as [_ Hwf]. rewrite N.add_0_l in *.
    rewrite !get_put by (lia || (eapply N.le_lt_trans; [eassumption|done])). cbn [bind].
    rewrite !get_put by (lia || (eapply N.le_lt_trans; [eassumption|done])). cbn [bind].
    rewrite !get_put by (lia || (eapply N.le_lt_trans; [eassumption|done])). cbn [bind].
    rewrite !(proj2 (N.ltb_ge 256 _)) by done. cbn [orb]. rewrite Nat2N.id, decode_items_spec; [done| |lia].
    apply forallb_Forall in Hwf, H6. rewrite Forall_forall in *. intros v Hin.
    apply decode_value_wire; [by apply Hwf|by apply H6].
Qed.

Lemma decode_patches_spec paths vs ps : forall out rest r,
  Forall (fun p => patch_ok paths p = true /\ patch_wf p = true /\ map_contains (property p) vs = false /\
    (paths = false -> ppath p = [] /\ preplace p = false)) ps ->
  sum patch_nodes ps <= r ->
  iter_result (decode_patch paths vs) (length ps) (out, concat (map (wire_patch paths) ps) ++ rest, r) =
  Ok (out ++ ps, rest, r - sum patch_nodes ps).
Proof.
  induction ps as [|p ps IH]; intros out rest r Hf Hr.
  - cbn. by rewrite app_nil_r, N.sub_0_r.
  - apply Forall_cons in Hf as [(A & B & C & D) Hf].
    change (sum patch_nodes (p :: ps)) with (patch_nodes p + sum patch_nodes ps) in *.
    cbn [length iter_result map concat]. rewrite <- app_assoc, decode_patch_spec by (done || lia).
    cbn [bind]. rewrite IH by (done || lia). by rewrite <- app_assoc, N.sub_add_distr.
Qed.

(** The machine-width and container invariants of an update. *)
Definition update_wf (u : AttributeUpdate) : Prop :=
  base u < 2 ^ 64 /\ revision u < 2 ^ 64 /\ struct_wf (values u) = true /\
  forallb patch_wf (patches u) = true.

Definition version (u : AttributeUpdate) : byte :=
  if is_empty (patches u) then x31 else if field_paths u then x33 else x32.

Definition wire_body (u : AttributeUpdate) : bytes :=
  put_be 1 (bool_bit (snapshot u)) ++ put_be 8 (base u) ++ put_be 8 (revision u) ++
  put_be 2 (N.of_nat (length (values u))) ++ wire_entries wire (values u) ++
  if is_empty (patches u) then []
  else put_be 2 (N.of_nat (length (patches u))) ++ concat (map (wire_patch (field_paths u)) (patches u)).

(** The encoder, when it returns. *)
Lemma encode_attributes_spec u record :
  encode_attributes u = Ok record ->
  update_ok u = true /\ update_nodes u <= node_budget /\ size record <= limit /\
  record = lit "FSA" ++ version u :: wire_body u.
Proof.
  unfold encode_attributes. intros (o & Ho & Hr)%bind_ok. pose proof (encode_update_ok _ _ _ Ho) as Hok.
  rewrite (encode_update_spec (O:=bytes)) in Ho by done. destruct (_ && _) eqn:E; [|done].
  apply andb_true_iff in E as [E1 E2]. apply N.leb_le in E1, E2. injection Ho as Ho. simpl in Ho.
  assert (Hw : o = lit "FSA1" ++ wire_body u).
  { rewrite <- Ho. unfold wire_update, wire_image, wire_header, wire_body. by rewrite <- ?app_assoc. }
  assert (Hrec : record = lit "FSA" ++ version u :: wire_body u).
  { unfold version. destruct (is_empty (patches u)); injection Hr as <-; rewrite Hw; [done|].
    apply set_version_prefix. }
  split_and!; auto. rewrite Hrec. rewrite Ho, Hw in E2. exact E2.
Qed.

Lemma field_paths_false u p :
  field_paths u = false -> p ∈ patches u -> ppath p = [] /\ preplace p = false.
Proof.
  unfold field_paths. intros Hf Hin. apply list_elem_of_In in Hin.
  destruct (preplace p || negb (is_empty (ppath p))) eqn:E.
  - rewrite <- not_true_iff_false in Hf. exfalso. apply Hf, existsb_exists. eauto.
  - bool_prop. destruct E as [E1 E2]. by apply is_empty_true in E2.
Qed.

(** The header and the roots of a record, up to its patches. *)
Lemma decode_head (c : byte) sn b rv vs tl :
  c = x31 \/ c = x32 \/ c = x33 -> b < 2 ^ 64 -> rv < 2 ^ 64 -> struct_wf vs = true ->
  image_ok vs b rv sn = true -> image_nodes vs <= node_budget ->
  let record := lit "FSA" ++ c :: put_be 1 (bool_bit sn) ++ put_be 8 b ++ put_be 8 rv ++
    put_be 2 (N.of_nat (length vs)) ++ wire_entries wire vs ++ tl in
  let paths := Byte.eqb c x33 in
  size record <= limit ->
  decode_attributes record =
    let* '(patches, input) :=
      if paths || Byte.eqb c x32 then
        throw_if sn as invalid_argument ;;
        let* '(n, input) := get tl 2 in
        throw_if (n =? 0) || (256 <? n) as invalid_argument ;;
        let* '(patches, input, _) :=
          iter_result (decode_patch paths vs) (N.to_nat n) ([], input, node_budget - image_nodes vs) in
        Ok (patches, input)
      else Ok ([], tl) in
    throw_if negb (is_empty input) as invalid_argument ;;
    Ok (MkUpdate b rv sn vs patches).
Proof.
  intros Hc Hb Hrv Hs Hi Hn. cbv zeta. intros Hsz. unfold decode_attributes. cbv zeta.
  rewrite (proj2 (N.ltb_ge limit _)) by done. unfold image_ok in Hi.
  apply andb_true_iff in Hi as [Hi Hf]. apply andb_true_iff in Hi as [Hi H3].
  apply andb_true_iff in Hi as [H1 H2]. apply N.leb_le in H1, H2. apply negb_true_iff in H3.
  assert (Pre : iter_result decode_root (length vs) ([], wire_entries wire vs ++ tl, node_budget) =
    Ok (vs, tl, node_budget - image_nodes vs)).
  { apply andb_true_iff in Hs as [Hs Hw]. apply (decode_fields_spec _ vs []); [exact Hs| |exact Hn].
    apply forallb_Forall in Hw, Hf. rewrite Forall_forall in *.
    intros e Hin. specialize (Hf e Hin). unfold root_ok in Hf. bool_prop. destruct Hf.
    split; [done|]. apply decode_value_wire; [by apply Hw|done]. }
  set (body := put_be 1 _ ++ _) in *.
  replace (starts_with (lit "FSA3") (lit "FSA" ++ c :: body)) with (Byte.eqb c x33)
    by (by destruct Hc as [->|[->| ->]]).
  replace (starts_with (lit "FSA2") (lit "FSA" ++ c :: body)) with (Byte.eqb c x32)
    by (by destruct Hc as [->|[->| ->]]).
  replace (starts_with (lit "FSA1") (lit "FSA" ++ c :: body)) with (Byte.eqb c x31)
    by (by destruct Hc as [->|[->| ->]]).
  replace (negb (Byte.eqb c x33 || Byte.eqb c x32) && negb (Byte.eqb c x31)) with false
    by (by destruct Hc as [->|[->| ->]]).
  cbn [orb]. change (drop 4 (lit "FSA" ++ c :: body)) with body. unfold body.
  rewrite get_put by first [lia | by destruct sn]. cbn [bind].
  rewrite (proj2 (N.ltb_ge 1 _)) by (destruct sn; cbn; lia).
  rewrite get_put by (done || lia). cbn [bind]. rewrite get_put by (done || lia). cbn [bind].
  rewrite get_put by (lia || (eapply N.le_lt_trans; [exact H1|done])). cbn [bind].
  assert (negb (bool_bit sn =? 0) = sn) as -> by (by destruct sn).
  rewrite (proj2 (N.ltb_ge 256 _)), (proj2 (N.ltb_ge rv b)), H3 by done. cbn [orb].
  rewrite Nat2N.id, Pre. cbn [bind]. done.
Qed.

Lemma decode_encoded u : update_wf u -> update_ok u = true -> update_nodes u <= node_budget ->
  size (lit "FSA" ++ version u :: wire_body u) <= limit ->
  decode_attributes (lit "FSA" ++ version u :: wire_body u) = Ok u.
Proof.
  intros (Hb & Hrv & Hs & Hpw) Hok Hn Hsz. unfold update_ok in Hok. unfold update_nodes in Hn.
  apply andb_true_iff in Hok as [Hi Hp]. unfold wire_body in *.
  assert (Hc : version u = x31 \/ version u = x32 \/ version u = x33).
  { unfold version. destruct (is_empty _), (field_paths u); auto. }
  rewrite (decode_head (version u) (snapshot u) (base u) (revision u) (values u)) by (done || lia).
  unfold version in *. destruct u as [b rv sn vs ps]. cbn [base revision snapshot values patches] in *.
  set (paths := field_paths _) in *. destruct (is_empty ps) eqn:Hne.
  { apply is_empty_true in Hne as ->. done. }
  cbn [orb] in Hp. apply andb_true_iff in Hp as [Hp Hpf]. apply andb_true_iff in Hp as [Hsn Hl].
  apply negb_true_iff in Hsn. apply N.leb_le in Hl. subst sn.
  replace (Byte.eqb _ x33) with paths by (by destruct paths).
  replace (paths || _) with true by (by destruct paths).
  rewrite get_put by (lia || (eapply N.le_lt_trans; [exact Hl|done])). cbn [bind].
  rewrite (proj2 (N.eqb_neq _ 0)), (proj2 (N.ltb_ge 256 _)) by (done || (destruct ps; [done|simpl; lia])).
  cbn [orb]. rewrite Nat2N.id. rewrite <- (app_nil_r (concat _)), decode_patches_spec; [done| |lia].
  apply forallb_Forall in Hpf, Hpw. rewrite Forall_forall in *. intros p Hin.
  specialize (Hpf p Hin). bool_prop. destruct Hpf. split_and!; [done|by apply Hpw|done|].
  intros Hpa. eapply (field_paths_false (MkUpdate b rv false vs ps)); done.
Qed.

(** C3 (round trip).  Every attribute record the encoder produces decodes to the update
    it was made from, in each of the three formats: snapshot or replacements (FSA1),
    container edits (FSA2), typed field paths (FSA3). *)
Theorem attributes_roundtrip u record :
  update_wf u -> encode_attributes u = Ok record -> decode_attributes record = Ok u.
Proof.
  intros Hw (Hok & Hn & Hsz & ->)%encode_attributes_spec. by apply decode_encoded.
Qed.

Lemma attributes_roundtrip_witness :
  let u := MkUpdate 3 5 false [(lit "name", AStr (lit "Ada"))]
    [MkPatch (lit "bag") true (lit "axe") None 0 0 [] [PKey (lit "left"); PIndex 2] false] in
  exists record, encode_attributes u = Ok record /\ decode_attributes record = Ok u.
Proof.
  intros u. eexists. split; [|apply (attributes_roundtrip u)].
  - vm_compute. reflexivity.
  - split_and!; vm_compute; done.
  - vm_compute. reflexivity.
Defined.
