(* ===== verification/Replica.v ===== *)
(** * The client replica

    [AttributeReplica] of [include/fsnet/attribute_wire.hpp] and
    [src/attribute_wire.cpp]: a confirmed image that applies snapshots, replacements
    and patches, or throws and stays as it was. *)

From S2P Require Import Prelude OrderedMap Values AttributeWire.

(** ** Applying one patch *)

(** [items.at(i) = f(items.at(i))] *)
Fixpoint update_at {A} (i : nat) (f : A -> result A) (l : list A) : result (list A) :=
  match l, i with
  | [], _ => Throw out_of_range
  | x :: l', O => let* y := f x in Ok (y :: l')
  | x :: l', S i' => let* r := update_at i' f l' in Ok (x :: r)
  end.

(** [m.at(k) = f(m.at(k))] *)
Fixpoint update_key (k : bytes) (f : AttributeValue -> result AttributeValue)
    (m : AttributeStruct) : result AttributeStruct :=
  match m with
  | [] => Throw out_of_range
  | (k', v) :: m' =>
      if bytes_eqb k k' then let* v' := f v in Ok ((k', v') :: m')
      else let* r := update_key k f m' in Ok ((k', v) :: r)
  end.

(** The descent of [apply] along [patch.path], which then edits [*target]. *)
Fixpoint edit_at (path : list PathPart) (edit : AttributeValue -> result AttributeValue)
    (target : AttributeValue) : result AttributeValue :=
  match path with
  | [] => edit target
  | PKey key :: path' =>
      match target with
      | AStruct fields => let* f := update_key key (edit_at path' edit) fields in Ok (AStruct f)
      | AMap entries => let* f := update_key key (edit_at path' edit) entries in Ok (AMap f)
      | _ => Throw bad_variant_access
      end
  | PIndex i :: path' =>
      match target with
      | AArray items => let* l := update_at (N.to_nat i) (edit_at path' edit) items in Ok (AArray l)
      | _ => Throw bad_variant_access
      end
  end.

(** The edit of one patch on its target. *)
Definition edit_target (patch : AttributePatch) (target : AttributeValue) : result AttributeValue :=
  if preplace patch then
    match pvalue patch with Some v => Ok v | None => Throw logic_error end
  else if pmap patch then
    match target with
    | AMap entries =>
        let* entries :=
          match pvalue patch with
          | Some v => Ok (map_insert (pkey patch) v entries)
          | None => throw_if negb (map_contains (pkey patch) entries) as invalid_argument ;;
                    Ok (map_erase (pkey patch) entries)
          end in
        throw_if 256 <? N.of_nat (length entries) as length_error ;;
        Ok (AMap entries)
    | _ => Throw bad_variant_access
    end
  else
    match target with
    | AArray items =>
        let n := N.of_nat (length items) in
        throw_if (n <? pindex patch) || (n - pindex patch <? premove patch) ||
                 (256 <? n - premove patch + N.of_nat (length (pinsert patch))) as invalid_argument ;;
        let at_ := N.to_nat (pindex patch) in
        Ok (AArray (take at_ items ++ pinsert patch ++
                    drop (at_ + N.to_nat (premove patch)) items))
    | _ => Throw bad_variant_access
    end.

(** One round of the patch loop of [apply]; [current] is the replica's image and
    [acc] the materialized values. *)
Definition apply_patch (current acc : AttributeStruct) (patch : AttributePatch)
    : result AttributeStruct :=
  let* root :=
    match map_find (property patch) acc with
    | Some v => Ok v
    | None => map_at (property patch) current
    end in
  let* root := edit_at (ppath patch) (edit_target patch) root in
  Ok (map_insert (property patch) root acc).

(** ** The merged image *)

(** The fields of [validate_overlay]'s loop: the merge of two maps in key order,
    [changed] first on equal keys. *)
Fixpoint overlay (old changed : AttributeStruct) : AttributeStruct :=
  let fix go (changed : AttributeStruct) : AttributeStruct :=
    match old, changed with
    | [], _ => changed
    | _, [] => old
    | o :: old', c :: changed' =>
        match bytes_cmp o.1 c.1 with
        | Lt => o :: overlay old' changed
        | Eq => c :: overlay old' changed'
        | Gt => c :: go changed'
        end
    end in
  go changed.

(** One round of that loop: the size so far, the node budget, the number of fields and
    the native charge. *)
Definition overlay_field (st : SizeOnly * N * N * N) (field : bytes * AttributeValue)
    : result (SizeOnly * N * N * N) :=
  let '(out, remaining, count, native) := st in
  let count := count + 1 in
  throw_if 256 <? count as invalid_argument ;;
  let* _ := check_name field.1 in
  let* '(out, remaining) :=
    encode_value (out_str (put out (size field.1) 1) field.1) field.2 0 remaining in
  Ok (out, remaining, count, native + attribute_entry_bytes field.1 field.2).

Definition validate_overlay (current delta : AttributeStruct) : result N :=
  let* '(out, _, _, native) :=
    fold_result overlay_field (overlay current delta) (MkSizeOnly 23, node_budget, 0, 256) in
  Ok (out_size out + native).

(** ** AttributeReplica *)

Record AttributeReplica := MkReplica {
  image : option AttributeUpdate;      (* std::shared_ptr<AttributeUpdate> *)
  replica_revision : N;
  initialized : bool;
  image_bytes : N
}.

Definition empty_replica : AttributeReplica := MkReplica None 0 false 0.

Definition replica_values (r : AttributeReplica) : AttributeStruct :=
  match image r with Some u => values u | None => [] end.

(** [reset()] *)
Definition replica_reset (r : AttributeReplica) : AttributeReplica := empty_replica.

(** [snapshot()]: the retained version, [nullptr] before initialization. *)
Definition replica_snapshot (r : AttributeReplica) : option AttributeUpdate :=
  if initialized r then image r else None.

(** The tests before anything is applied: [None] makes [apply] return [false]. *)
Definition apply_checks (r : AttributeReplica) (update : AttributeUpdate) : result (option unit) :=
  let* _ := attribute_wire_size update in
  if negb (snapshot update) && (negb (initialized r) || negb (base update =? replica_revision r))
  then Ok None
  else if initialized r && (revision update <? replica_revision r) then Ok None
  else Ok (Some tt).

(** The end of [apply], for an update without patches. *)
Definition apply_values (r : AttributeReplica) (update : AttributeUpdate) (max_image_bytes : N)
    : result (bool * AttributeReplica) :=
  let next_revision := revision update in
  let* count :=
    if snapshot update then
      let* n := attribute_wire_size update in Ok (n + attribute_image_bytes (values update))
    else validate_overlay (replica_values r) (values update) in
  throw_if max_image_bytes <? count as replica_budget ;;
  let next :=
    if snapshot update then MkUpdate 0 next_revision true (values update) []
    else
      match image r with
      | Some old => MkUpdate (base old) next_revision (snapshot old)
          (fold_left (fun vs field => map_insert field.1 field.2 vs) (values update) (values old))
          (patches old)
      | None => MkUpdate 0 next_revision false (values update) []
      end in
  Ok (true, MkReplica (Some next) next_revision true count).

(** [AttributeReplica::apply(update, max_image_bytes)]: the returned flag and the
    replica after the call.  The recursive call on the materialized update has no
    patches, so it is the second round of the same tests and [apply_values]. *)
Definition apply (r : AttributeReplica) (update : AttributeUpdate) (max_image_bytes : N)
    : result (bool * AttributeReplica) :=
  let* go := apply_checks r update in
  match go with
  | None => Ok (false, r)
  | Some _ =>
      if is_empty (patches update) then apply_values r update max_image_bytes
      else
        let* vs := fold_result (apply_patch (replica_values r)) (patches update) (values update) in
        let materialized := MkUpdate (base update) (revision update) false vs [] in
        let* go := apply_checks r materialized in
        match go with
        | None => Ok (false, r)
        | Some _ => apply_values r materialized max_image_bytes
        end
  end.

(** [apply(update)]: no image budget ([std::numeric_limits<std::size_t>::max()]). *)
Definition apply_unbounded (r : AttributeReplica) (update : AttributeUpdate)
    : result (bool * AttributeReplica) := apply r update u64_max.

(** [apply(bytes)] *)
Definition apply_record (r : AttributeReplica) (record : bytes) : result (bool * AttributeReplica) :=
  let* update := decode_attributes record in apply_unbounded r update.
