(* ===== verification/Delta.v ===== *)
(** * Delta generation

    The adaptive difference of two attribute images of [src/attribute_wire.cpp]:
    [container_delta], [diff_fields], [attribute_delta] and the client's
    [attribute_write_delta]. *)

From S2P Require Import Prelude OrderedMap Values AttributeWire.

Definition erase_patch (property : bytes) (path : list PathPart) (key : bytes) : AttributePatch :=
  MkPatch property true key None 0 0 [] path false.
Definition insert_patch (property : bytes) (path : list PathPart) (key : bytes) (v : AttributeValue)
    : AttributePatch := MkPatch property true key (Some v) 0 0 [] path false.
Definition splice_patch (property : bytes) (path : list PathPart) (index remove : nat)
    (insert : list AttributeValue) : AttributePatch :=
  MkPatch property false [] None (N.of_nat index) (N.of_nat remove) insert path false.
Definition replace_patch (property : bytes) (path : list PathPart) (v : AttributeValue)
    : AttributePatch := MkPatch property false [] (Some v) 0 0 [] path true.

(** ** Sequences *)

(** The number of leading elements that compare equal. *)
Fixpoint common_prefix (l k : list AttributeValue) : nat :=
  match l, k with
  | x :: l', y :: k' => if value_eqb x y then S (common_prefix l' k') else O
  | _, _ => O
  end.

(** The source's [prefix] and [suffix] loops; the suffix stops at the prefix. *)
Definition prefix_of (l k : list AttributeValue) : nat := common_prefix l k.
Definition suffix_of (l k : list AttributeValue) : nat :=
  let p := prefix_of l k in common_prefix (rev (drop p l)) (rev (drop p k)).

(** The splice that turns [before] into [after]. *)
Definition sequence_splice (property : bytes) (path : list PathPart)
    (before after : list AttributeValue) : AttributePatch :=
  let prefix := prefix_of before after in
  let suffix := suffix_of before after in
  splice_patch property path prefix (length before - prefix - suffix)
    (take (length after - suffix - prefix) (drop prefix after)).

(** ** container_delta *)

Definition changed (previous : AttributeStruct) (e : bytes * AttributeValue) : bool :=
  match map_find e.1 previous with Some old => negb (value_eqb old e.2) | None => true end.

(** The keys of [old] that [value] no longer has. *)
Definition erased_keys (old value : AttributeStruct) : list bytes :=
  map fst (List.filter (fun e => negb (map_contains e.1 value)) old).

(** The edits of one changed root in [container_delta]: [None] sends the whole value. *)
Definition container_edits (name : bytes) (old value : AttributeValue) : option (list AttributePatch) :=
  match old, value with
  | AArray before, AArray after => Some [sequence_splice name [] before after]
  | AMap before, AMap after =>
      Some (map (erase_patch name []) (erased_keys before after) ++
            map (fun e => insert_patch name [] e.1 e.2) (List.filter (changed before) after))
  | _, _ => None
  end.

Definition sparse_step (previous : AttributeStruct) (sparse : AttributeUpdate)
    (e : bytes * AttributeValue) : AttributeUpdate :=
  match (old ← map_find e.1 previous; container_edits e.1 old e.2) with
  | Some edits => MkUpdate (base sparse) (revision sparse) (snapshot sparse) (values sparse)
                    (patches sparse ++ edits)
  | None => MkUpdate (base sparse) (revision sparse) (snapshot sparse)
              (fst (map_emplace e.1 e.2 (values sparse))) (patches sparse)
  end.

(** [try { if (wire_size(a) < wire_size(b)) return a; } catch (const std::length_error&) {} return b;] *)
Definition smaller (cost : result bool) (a b : AttributeUpdate) : result AttributeUpdate :=
  match cost with
  | Ok true => Ok a
  | Ok false => Ok b
  | Throw e => if is_length_error e then Ok b else Throw e
  end.

Definition container_delta (previous next : AttributeUpdate) : result AttributeUpdate :=
  throw_if negb (snapshot previous) || negb (snapshot next) ||
           negb (is_empty (patches previous)) || negb (is_empty (patches next)) as invalid_argument ;;
  if existsb (fun e => negb (map_contains e.1 (values next))) (values previous) then Ok next
  else if revision next <? revision previous then Ok next
  else
    let full := MkUpdate (revision previous) (revision next) false
                  (List.filter (changed (values previous)) (values next)) [] in
    let sparse := fold_left (sparse_step (values previous)) (values full)
                    (MkUpdate (base full) (revision full) false [] []) in
    if is_empty (patches sparse) || (256 <? N.of_nat (length (patches sparse))) then Ok full
    else
      let* full_size := attribute_wire_size full in
      smaller (let* n := attribute_wire_size sparse in Ok (n <? full_size)) sparse full.

(** ** diff_fields *)

Definition patch_cost (patch : AttributePatch) : result N :=
  let* '(out, _) := encode_patch (MkSizeOnly 0) patch true node_budget in Ok (out_size out).

Definition patches_cost (edits : list AttributePatch) : result N :=
  fold_result (fun cost edit => let* n := patch_cost edit in Ok (cost + n)) edits 0.

Definition too_many (edits : list AttributePatch) : bool := 256 <? N.of_nat (length edits).

(** [edits.empty() || edits.size() > 256 || patch_cost(p) <= cost] *)
Definition prefer (p : AttributePatch) (edits : list AttributePatch) (cost : N) : result bool :=
  if is_empty edits || too_many edits then Ok true
  else let* n := patch_cost p in Ok (n <=? cost).

Section DiffLoops.
(** The recursive call of [diff_fields] ([append] in the source) below [path]. *)
Context (diff : list PathPart -> AttributeValue -> AttributeValue -> result (list AttributePatch)).
Context (property : bytes) (path : list PathPart).

Definition struct_edits (old value : AttributeStruct) : result (list AttributePatch) :=
  if (length old =? length value)%nat && forallb (fun e => map_contains e.1 value) old
  then fold_result (fun edits e =>
         if too_many edits then Ok edits
         else
           let* o := map_at e.1 old in
           let* children := diff (path ++ [PKey e.1]) o e.2 in
           Ok (edits ++ children)) value []
  else Ok [].

Definition map_edits (old value : AttributeStruct) : result (list AttributePatch) :=
  fold_result (fun edits e =>
    if too_many edits then Ok edits
    else
      match map_find e.1 old with
      | Some o =>
          let* children := diff (path ++ [PKey e.1]) o e.2 in Ok (edits ++ children)
      | None => Ok (edits ++ [insert_patch property path e.1 e.2])
      end) value
    (map (erase_patch property path) (erased_keys old value)).

Definition array_step (old value : list AttributeValue) (st : nat * list AttributePatch)
    (v : AttributeValue) : result (nat * list AttributePatch) :=
  let '(i, edits) := st in
  if (prefix_of old value <=? i)%nat && (i <? length value - suffix_of old value)%nat &&
     negb (too_many edits)
  then
    match old !! i with
    | Some o =>
        let* children := diff (path ++ [PIndex (N.of_nat i)]) o v in
        Ok (S i, edits ++ children)
    | None => Throw out_of_range
    end
  else Ok (S i, edits).

Definition array_edits (old value : list AttributeValue) : result (list AttributePatch) :=
  let splice := sequence_splice property path old value in
  let* '(_, edits) :=
    if (length old =? length value)%nat
    then fold_result (array_step old value) value (O, [])
    else Ok (O, []) in
  let* cost := patches_cost edits in
  let* better := prefer splice edits cost in
  Ok (if better then [splice] else edits).
End DiffLoops.

Fixpoint diff_fields (property : bytes) (path : list PathPart) (before after : AttributeValue)
    : result (list AttributePatch) :=
  if value_eqb before after then Ok []
  else
    let replacement := replace_patch property path after in
    let* edits :=
      if (length path <? 8)%nat then
        match before, after with
        | AStruct old, AStruct value => struct_edits (diff_fields property) path old value
        | AMap old, AMap value => map_edits (diff_fields property) property path old value
        | AArray old, AArray value => array_edits (diff_fields property) property path old value
        | _, _ => Ok []
        end
      else Ok [] in
    let* cost := patches_cost edits in
    let* better := prefer replacement edits cost in
    Ok (if better then [replacement] else edits).

(** ** attribute_delta *)

(** One root of [attribute_delta]'s loop; [None] is its early [return best]. *)
Definition fields_step (previous : AttributeStruct) (fields : option AttributeUpdate)
    (e : bytes * AttributeValue) : result (option AttributeUpdate) :=
  match fields with
  | None => Ok None
  | Some fields =>
      let emplaced := MkUpdate (base fields) (revision fields) (snapshot fields)
                        (fst (map_emplace e.1 e.2 (values fields))) (patches fields) in
      match map_find e.1 previous with
      | None => Ok (Some emplaced)
      | Some old =>
          if value_eqb old e.2 then Ok (Some fields)
          else
            let* edits := diff_fields e.1 [] old e.2 in
            let next :=
              match edits with
              | [p] => if preplace p && is_empty (ppath p) then emplaced
                       else MkUpdate (base fields) (revision fields) (snapshot fields) (values fields)
                              (patches fields ++ edits)
              | _ => MkUpdate (base fields) (revision fields) (snapshot fields) (values fields)
                       (patches fields ++ edits)
              end in
            Ok (if too_many (patches next) then None else Some next)
      end
  end.

Definition attribute_delta (previous next : AttributeUpdate) : result AttributeUpdate :=
  let* best := container_delta previous next in
  if snapshot best then Ok best
  else
    let* fields := fold_result (fields_step (values previous)) (values next)
                     (Some (MkUpdate (revision previous) (revision next) false [] [])) in
    match fields with
    | None => Ok best
    | Some fields =>
        if is_empty (patches fields) then Ok best
        else smaller (let* a := attribute_wire_size fields in
                      let* b := attribute_wire_size best in Ok (a <? b)) fields best
    end.

(** ** attribute_write_delta *)

Definition attribute_write_delta (confirmed : AttributeStruct) (confirmed_revision : N)
    (vs : AttributeStruct) (expected_revision : N) : result AttributeUpdate :=
  let full := MkUpdate expected_revision expected_revision false vs [] in
  if negb (expected_revision =? confirmed_revision) then Ok full
  else
    let before := MkUpdate 0 expected_revision true
      (fold_left (fun acc e => match map_find e.1 confirmed with
        | Some old => fst (map_emplace e.1 old acc) | None => acc end) vs []) [] in
    let after := MkUpdate 0 expected_revision true vs [] in
    let* update := attribute_delta before after in
    let update := MkUpdate (base update) (revision update) (snapshot update)
      (fold_left (fun acc e => match map_find e.1 confirmed with
        | Some old => if value_eqb old e.2 then fst (map_emplace e.1 e.2 acc) else acc
        | None => acc end) vs (values update)) (patches update) in
    let* full_size := attribute_wire_size full in
    smaller (let* n := attribute_wire_size update in Ok (n <? full_size)) update full.
