(* ===== verification/Edits.v ===== *)
(** * Edits transform values

    The value-level half of delta correctness: sequences of edits below one root
    ([run_edits]), how edits below a container element compose, and the three loops of
    [diff_fields] turning the old value into the new one up to the program's [==]. *)

From S2P Require Import Prelude OrderedMap Values AttributeWire AttributeCodec Replica Delta.

(** ** Invariants of [==] *)

(** Sorted containers all the way down. *)
Fixpoint sorted_value (v : AttributeValue) : bool :=
  match v with
  | AStruct m | AMap m => sorted_keys m && forallb (fun e => sorted_value e.2) m
  | AArray l => forallb sorted_value l
  | _ => true
  end.

Lemma value_wf_sorted v : value_wf v = true -> sorted_value v = true.
Proof.
  induction v as [n|x|x|s|m IH|l IH|m IH] using value_ind'; try done; cbn [value_wf sorted_value].
  all: rewrite ?andb_true_iff, !forallb_Forall; rewrite Forall_forall in *.
  - intros [-> H]. split; [done|]. rewrite Forall_forall in *. intros e He. apply IH; auto.
  - intros H. rewrite Forall_forall in *. intros e He. apply IH; auto.
  - intros [-> H]. split; [done|]. rewrite Forall_forall in *. intros e He. apply IH; auto.
Qed.

Lemma sorted_keys_ext {V W} (m : list (bytes * V)) (m' : list (bytes * W)) :
  m.*1 = m'.*1 -> sorted_keys m = sorted_keys m'.
Proof.
  revert m'. induction m as [|[k v] m IH]; intros [|[k' v'] m'] E; try done.
  rewrite !fmap_cons in E. simpl in E. injection E as -> E. cbn [sorted_keys].
  rewrite (IH m') by done. f_equal. destruct m as [|[a b] m], m' as [|[a' b'] m']; try done.
  rewrite !fmap_cons in E. simpl in E. by injection E as -> _.
Qed.

(** [==] preserves everything the encoder looks at. *)
Definition respects {A} (f : AttributeValue -> A) : Prop := forall a b, a ≡ b -> f a = f b.

Lemma forallb_entries (f : bytes * AttributeValue -> bool) (m m' : AttributeStruct) :
  Forall (fun e => forall b, e.2 ≡ b -> f e = f (e.1, b)) m -> m ≡ m' -> forallb f m = forallb f m'.
Proof.
  rewrite struct_equiv_Forall2. intros IH H. induction H as [|[k v] [k' v'] m m' [E1 E2] H IHH]; [done|].
  inversion IH as [|? ? I1 I2]; subst. simpl in *. subst k'. by rewrite (I1 v' E2), IHH.
Qed.

Lemma sum_entries (f : bytes * AttributeValue -> N) (m m' : AttributeStruct) :
  Forall (fun e => forall b, e.2 ≡ b -> f e = f (e.1, b)) m -> m ≡ m' -> sum f m = sum f m'.
Proof.
  rewrite struct_equiv_Forall2. intros IH H. induction H as [|[k v] [k' v'] m m' [E1 E2] H IHH]; [done|].
  inversion IH as [|? ? I1 I2]; subst. simpl in *. subst k'. unfold sum in *. simpl.
  by rewrite (I1 v' E2), IHH.
Qed.

Lemma forallb_items (f : AttributeValue -> bool) l l' :
  Forall (fun x => forall y, x ≡ y -> f x = f y) l -> Forall2 (≡) l l' -> forallb f l = forallb f l'.
Proof.
  intros IH H. induction H as [|x y l l' E H IHH]; [done|]. inversion IH as [|? ? I1 I2]; subst.
  simpl. by rewrite (I1 y E), IHH.
Qed.

Lemma sum_items (f : AttributeValue -> N) l l' :
  Forall (fun x => forall y, x ≡ y -> f x = f y) l -> Forall2 (≡) l l' -> sum f l = sum f l'.
Proof.
  intros IH H. induction H as [|x y l l' E H IHH]; [done|]. inversion IH as [|? ? I1 I2]; subst.
  unfold sum in *. simpl. by rewrite (I1 y E), IHH.
Qed.

(** Destruct an equivalence at a known constructor. *)
Ltac equiv_cases H :=
  pose proof (value_equiv_inv _ _ H) as Hinv; cbv iota in Hinv;
  try (subst; try done);
  try (let y := fresh "y" in let E := fresh "E" in destruct Hinv as (y & -> & E)).

Lemma sorted_respects : respects sorted_value.
Proof.
  intros a. induction a as [n|x|x|s|m IH|l IH|m IH] using value_ind'; intros b Hab; equiv_cases Hab;
    cbn [sorted_value]; try done.
  - rewrite (sorted_keys_ext m y) by (by apply struct_equiv_keys). f_equal.
    apply forallb_entries; [|done]. eapply Forall_impl; [exact IH|]. auto.
  - by apply forallb_items.
  - rewrite (sorted_keys_ext m y) by (by apply struct_equiv_keys). f_equal.
    apply forallb_entries; [|done]. eapply Forall_impl; [exact IH|]. auto.
Qed.

Lemma is_zero_finite x : is_zero x = true -> is_finite x = true.
Proof.
  unfold is_zero, is_finite, double_exponent. intros H%N.eqb_eq. apply negb_true_iff, N.eqb_neq.
  intros E. assert (B : N.testbit (N.land (N.shiftr x 52) 2047) 0 = true) by (by rewrite E).
  rewrite N.land_spec, N.shiftr_spec', andb_true_r in B. apply N.bits_inj_iff in H.
  specialize (H 52). rewrite N.land_spec, N.ones_spec_low, andb_true_r, N.bits_0 in H by lia.
  change (0 + 52) with 52 in B. congruence.
Qed.

Lemma double_eqb_finite x y : double_eqb x y = true -> is_finite x = is_finite y.
Proof.
  unfold double_eqb. intros [_ H]%andb_true_iff. apply orb_true_iff in H as [H|H].
  - by apply N.eqb_eq in H as ->.
  - apply andb_true_iff in H as [H1 H2]. by rewrite !is_zero_finite.
Qed.

Lemma encodable_respects depth : respects (encodable depth).
Proof.
  intros a. revert depth.
  induction a as [n|x|x|s|m IH|l IH|m IH] using value_ind'; intros depth b Hab; equiv_cases Hab;
    cbn [encodable]; f_equal.
  - by apply double_eqb_finite.
  - rewrite (struct_equiv_length _ _ E). f_equal; [|].
    + f_equal. destruct m, y; try done; by apply struct_equiv_length in E.
    + apply forallb_entries; [|done]. eapply Forall_impl; [exact IH|].
      intros e He b' Hb. cbn [fst snd]. by rewrite (He (depth + 1) b' Hb).
  - rewrite (Forall2_length _ _ _ E). f_equal. apply forallb_items; [|done].
    eapply Forall_impl; [exact IH|]. auto.
  - rewrite (struct_equiv_length _ _ E). f_equal.
    apply forallb_entries; [|done]. eapply Forall_impl; [exact IH|].
    intros e He b' Hb. cbn [fst snd]. by rewrite (He (depth + 1) b' Hb).
Qed.

Lemma nodes_respects : respects nodes.
Proof.
  intros a. induction a as [n|x|x|s|m IH|l IH|m IH] using value_ind'; intros b Hab; equiv_cases Hab;
    cbn [nodes]; f_equal.
  - apply sum_entries; [|done]. eapply Forall_impl; [exact IH|]. auto.
  - by apply sum_items.
  - apply sum_entries; [|done]. eapply Forall_impl; [exact IH|]. auto.
Qed.

Lemma wire_size_array l : wire_size (AArray l) = 3 + sum wire_size l.
Proof.
  unfold wire_size. cbn [wire]. rewrite !size_app, !size_put_be, size_concat_map. cbn. lia.
Qed.
Lemma wire_size_struct m : wire_size (AStruct m) = 2 + sum entry_size m.
Proof. unfold wire_size. cbn [wire]. rewrite !size_app, !size_put_be, size_wire_entries. cbn. lia. Qed.
Lemma wire_size_map m : wire_size (AMap m) = 3 + sum entry_size m.
Proof. unfold wire_size. cbn [wire]. rewrite !size_app, !size_put_be, size_wire_entries. cbn. lia. Qed.

Lemma wire_size_respects : respects wire_size.
Proof.
  intros a. induction a as [n|x|x|s|m IH|l IH|m IH] using value_ind'; intros b Hab; equiv_cases Hab;
    rewrite ?wire_size_array, ?wire_size_struct, ?wire_size_map.
  - unfold wire_size. cbn [wire]. by rewrite !size_app, !size_put_be.
  - f_equal. apply sum_entries; [|done]. eapply Forall_impl; [exact IH|].
    intros e He b' Hb. unfold entry_size. cbn [fst snd]. by rewrite (He b' Hb).
  - f_equal. by apply sum_items.
  - f_equal. apply sum_entries; [|done]. eapply Forall_impl; [exact IH|].
    intros e He b' Hb. unfold entry_size. cbn [fst snd]. by rewrite (He b' Hb).
Qed.

Lemma encodable_finite depth v : encodable depth v = true -> finite_value v = true.
Proof.
  revert depth. induction v as [n|x|x|s|m IH|l IH|m IH] using value_ind'; intros depth; try done;
    cbn [encodable finite_value]; intros H; bool_prop; try (by destruct H).
  - destruct H as [_ [_ H]]. apply forallb_Forall in H. apply forallb_Forall.
    rewrite Forall_forall in *. intros e He. specialize (H e He). bool_prop. destruct H. by eapply IH.
  - destruct H as [_ [_ H]]. apply forallb_Forall in H. apply forallb_Forall.
    rewrite Forall_forall in *. intros e He. eapply IH; auto.
  - destruct H as [_ [_ H]]. apply forallb_Forall in H. apply forallb_Forall.
    rewrite Forall_forall in *. intros e He. specialize (H e He). bool_prop. destruct H. by eapply IH.
Qed.

(** ** Updates of one element *)

Lemma update_key_bind k f g m :
  bind (update_key k f m) (update_key k g) = update_key k (fun v => bind (f v) g) m.
Proof.
  induction m as [|[k' v] m IH]; simpl; [done|]. destruct (bytes_eqb k k') eqn:E.
  - destruct (f v); simpl; [|done]. by rewrite E.
  - rewrite <- IH. destruct (update_key k f m); simpl; [|done]. by rewrite E.
Qed.

Lemma update_key_id k m : is_Some (map_find k m) -> update_key k Ok m = Ok m.
Proof.
  intros H. induction m as [|[k' v] m IH]; simpl in *; [by destruct H|].
  destruct (bytes_eqb k k'); simpl; [done|]. by rewrite IH.
Qed.

Lemma update_key_keys k f m m' : update_key k f m = Ok m' -> keys m' = keys m.
Proof.
  unfold keys. revert m'. induction m as [|[k' v] m IH]; intros m' H; simpl in H; [done|].
  destruct (bytes_eqb k k'); inv_ok; rewrite !fmap_cons; [done|]. simpl. f_equal. by apply IH.
Qed.

Lemma update_key_some k f m v v' :
  map_find k m = Some v -> f v = Ok v' ->
  exists m', update_key k f m = Ok m' /\
    forall k2, map_find k2 m' = if bytes_eqb k2 k then Some v' else map_find k2 m.
Proof.
  intros Hv Hf. induction m as [|[k' w] m IH]; simpl in *; [done|].
  destruct (bytes_eqb_spec k k') as [->|Hne].
  - injection Hv as ->. rewrite Hf. simpl. eexists. split; [done|]. intros k2. simpl.
    by destruct (bytes_eqb k2 k').
  - destruct (IH Hv) as (m' & -> & H). simpl. eexists. split; [done|]. intros k2. simpl. rewrite H.
    destruct (bytes_eqb_spec k2 k') as [->|]; [|done].
    destruct (bytes_eqb_spec k' k) as [->|]; [done|done].
Qed.

Lemma update_at_bind {A} i (f g : A -> result A) l :
  bind (update_at i f l) (update_at i g) = update_at i (fun v => bind (f v) g) l.
Proof.
  revert i. induction l as [|x l IH]; intros [|i]; simpl; try done.
  - by destruct (f x).
  - rewrite <- IH. by destruct (update_at i f l).
Qed.

Lemma update_at_id {A} i (l : list A) : (i < length l)%nat -> update_at i Ok l = Ok l.
Proof. revert i. induction l as [|x l IH]; intros [|i] H; simpl in *; try lia; [done|]. rewrite IH; [done|lia]. Qed.

Lemma update_at_some {A} i (f : A -> result A) l v v' :
  l !! i = Some v -> f v = Ok v' -> update_at i f l = Ok (<[i:=v']> l).
Proof.
  intros Hv Hf. revert i Hv. induction l as [|x l IH]; intros [|i] Hv; simpl in *; try done.
  - injection Hv as ->. by rewrite Hf.
  - by rewrite IH.
Qed.

Lemma update_at_length {A} i (f : A -> result A) l l' : update_at i f l = Ok l' -> length l' = length l.
Proof.
  revert i l'. induction l as [|x l IH]; intros [|i] l' H; simpl in H; inv_ok; simpl; try done.
  f_equal. by eapply IH.
Qed.

(** ** Sequences of edits below one element *)

Definition run_edits (n : nat) (es : list AttributePatch) (v : AttributeValue) : result AttributeValue :=
  fold_result (fun v p => edit_at (drop n (ppath p)) (edit_target p) v) es v.

Lemma run_edits_app n es es' v : run_edits n (es ++ es') v = bind (run_edits n es v) (run_edits n es').
Proof. apply fold_result_app. Qed.

Definition under (path : list PathPart) (p : AttributePatch) : Prop := take (length path) (ppath p) = path.

Lemma under_drop path part p : under (path ++ [part]) p ->
  under path p /\ drop (length path) (ppath p) = part :: drop (S (length path)) (ppath p).
Proof.
  unfold under. rewrite length_app. simpl length. intros H.
  assert (Hp : ppath p = path ++ part :: drop (S (length path)) (ppath p)).
  { rewrite <- (take_drop (length path + 1) (ppath p)) at 1. rewrite H, <- app_assoc. simpl. repeat f_equal. lia. }
  set (tl := drop (S _) (ppath p)) in *. clearbody tl.
  split; rewrite Hp; [by rewrite take_app_length|by rewrite drop_app_length].
Qed.

Section Element.
Context {T : Type} (C : T -> AttributeValue) (part : PathPart) (dom : T -> Prop)
  (U : (AttributeValue -> result AttributeValue) -> T -> result T).
Context (edit_C : forall p f t, edit_at (part :: p) f (C t) = let* t' := U (edit_at p f) t in Ok (C t')).
Context (U_bind : forall f g t, bind (U f t) (U g) = U (fun v => bind (f v) g) t).
Context (U_id : forall t, dom t -> U Ok t = Ok t).
Context (U_dom : forall f t t', U f t = Ok t' -> dom t -> dom t').

(** Edits that all go through one element are edits of that element. *)
Lemma run_element path es t :
  Forall (under (path ++ [part])) es -> dom t ->
  run_edits (length path) es (C t) = let* t' := U (run_edits (S (length path)) es) t in Ok (C t').
Proof.
  intros Hes. revert t. induction Hes as [|p es Hp Hes IH]; intros t Ht.
  - unfold run_edits. cbn [fold_result]. by rewrite U_id.
  - unfold run_edits. cbn [fold_result]. destruct (under_drop _ _ _ Hp) as [_ Hd].
    rewrite Hd, edit_C. rewrite <- (U_bind _ (run_edits (S (length path)) es)).
    destruct (U _ t) as [t1|] eqn:E; simpl; [|done]. apply U_dom in E; [|done].
    exact (IH t1 E).
Qed.
End Element.

Lemma run_struct path k es m : Forall (under (path ++ [PKey k])) es -> is_Some (map_find k m) ->
  run_edits (length path) es (AStruct m) =
  let* m' := update_key k (run_edits (S (length path)) es) m in Ok (AStruct m').
Proof.
  intros. eapply (run_element AStruct (PKey k) (fun m => is_Some (map_find k m)) (update_key k)); try done.
  - intros. apply update_key_bind.
  - intros. by apply update_key_id.
  - intros f t t' E. rewrite !map_find_keys. by rewrite (update_key_keys _ _ _ _ E).
Qed.

Lemma run_map path k es m : Forall (under (path ++ [PKey k])) es -> is_Some (map_find k m) ->
  run_edits (length path) es (AMap m) =
  let* m' := update_key k (run_edits (S (length path)) es) m in Ok (AMap m').
Proof.
  intros. eapply (run_element AMap (PKey k) (fun m => is_Some (map_find k m)) (update_key k)); try done.
  - intros. apply update_key_bind.
  - intros. by apply update_key_id.
  - intros f t t' E. rewrite !map_find_keys. by rewrite (update_key_keys _ _ _ _ E).
Qed.

Lemma run_array path i es l : Forall (under (path ++ [PIndex (N.of_nat i)])) es -> (i < length l)%nat ->
  run_edits (length path) es (AArray l) =
  let* l' := update_at i (run_edits (S (length path)) es) l in Ok (AArray l').
Proof.
  intros. eapply (run_element AArray (PIndex (N.of_nat i)) (fun l => (i < length l)%nat) (update_at i)); try done.
  - intros. simpl. by rewrite Nat2N.id.
  - intros. apply update_at_bind.
  - intros. by apply update_at_id.
  - intros f t t' E. by rewrite (update_at_length _ _ _ _ E).
Qed.

(** ** Keyed containers *)

(** [es] turns every value [==] to [b] into one [==] to [a]. *)
Definition transforms (n : nat) (es : list AttributePatch) (b a : AttributeValue) : Prop :=
  forall b', b' ≡ b -> exists a', run_edits n es b' = Ok a' /\ a' ≡ a.

(** A container on its way from [old] to [value], with the keys [ks] done and the keys
    of [old] outside [value] gone. *)
Definition merged (old value : AttributeStruct) (ks : list bytes) (m : AttributeStruct) : Prop :=
  map_wf m /\ forall k, option_Forall2 (≡) (map_find k m)
    (if decide (k ∈ ks) then map_find k value
     else if decide (k ∈ keys value) then map_find k old else None).

Lemma option_Forall2_some {A B} (R : A -> B -> Prop) x y b :
  option_Forall2 R x y -> y = Some b -> exists a, x = Some a /\ R a b.
Proof. intros [a b' H|] E; [|done]. injection E as ->. eauto. Qed.
Lemma option_Forall2_none {A B} (R : A -> B -> Prop) x y : option_Forall2 R x y -> y = None -> x = None.
Proof. by intros []. Qed.

Lemma merged_length old value ks m : merged old value ks m -> (length m <= length value)%nat.
Proof.
  intros [Hw H]. apply length_incl_keys; [done|]. intros k Hk. apply map_find_keys in Hk as [v Hv].
  specialize (H k). rewrite Hv in H. fold (keys value).
  destruct (decide (k ∈ ks)); [|destruct (decide (k ∈ keys value)); [done|by inversion H]].
  apply map_find_keys. destruct (map_find k value); [by eexists|inversion H].
Qed.

Lemma merged_done old value m : map_wf value -> merged old value (keys value) m -> m ≡ value.
Proof.
  intros Hv [Hw H]. apply struct_equiv_ext; [done..|]. intros k. specialize (H k).
  destruct (decide (k ∈ keys value)) as [|Hk]; [done|].
  apply option_Forall2_none in H as ->; [|done].
  destruct (map_find k value) as [v|] eqn:E; [|constructor]. exfalso. apply Hk, map_find_keys. by eexists.
Qed.

Lemma merged_step old value ks k v m m' :
  merged old value ks m -> map_find k value = Some v -> map_wf m' ->
  (exists v', map_find k m' = Some v' /\ v' ≡ v) ->
  (forall k2, k2 <> k -> map_find k2 m' = map_find k2 m) -> merged old value (ks ++ [k]) m'.
Proof.
  intros [Hw H] Hv Hw' (v' & Hk & Hv') Hne. split; [done|]. intros k2.
  destruct (decide (k2 = k)) as [->|Hk2].
  - rewrite decide_True by set_solver. rewrite Hk, Hv. by constructor.
  - rewrite Hne by done. specialize (H k2).
    destruct (decide (k2 ∈ ks)), (decide (k2 ∈ ks ++ [k])); try done; exfalso; set_solver.
Qed.

(** An element that is in both containers, through the edits of its children. *)
Lemma merged_existing (C : AttributeStruct -> AttributeValue) (path : list PathPart) old value ks k o v es m :
  (forall m1, is_Some (map_find k m1) -> run_edits (length path) es (C m1) =
     let* m' := update_key k (run_edits (S (length path)) es) m1 in Ok (C m')) ->
  merged old value ks m -> k ∉ ks -> map_find k old = Some o -> map_find k value = Some v ->
  transforms (S (length path)) es o v ->
  exists m', run_edits (length path) es (C m) = Ok (C m') /\ merged old value (ks ++ [k]) m'.
Proof.
  intros HC Hm Hk Ho Hv Ht. pose proof Hm as [Hw H]. pose proof (H k) as Hf.
  rewrite decide_False, decide_True in Hf by (done || (apply map_find_keys; by eexists)).
  destruct (option_Forall2_some _ _ _ _ Hf Ho) as (b' & Hb' & Eb).
  destruct (Ht b' Eb) as (a' & Ha & Ea).
  destruct (update_key_some k _ m b' a' Hb' Ha) as (m' & Hu & Hfind).
  exists m'. rewrite HC by (by eexists). rewrite Hu. split; [done|].
  eapply (merged_step _ _ _ k); [done|done|..].
  - unfold map_wf. rewrite (sorted_keys_ext m' m); [done|]. by apply (update_key_keys _ _ _ _ Hu).
  - exists a'. rewrite Hfind, bytes_eqb_refl. done.
  - intros k2 Hne. rewrite Hfind. by rewrite (proj2 (bytes_eqb_neq k2 k)).
Qed.

Lemma drop_all {A} (l : list A) : drop (length l) l = [].
Proof. by apply drop_ge. Qed.

(** A new map entry. *)
Lemma merged_insert prop path old value ks k v m :
  merged old value ks m -> map_find k value = Some v -> finite_value v = true ->
  (length value <= 256)%nat ->
  exists m', run_edits (length path) [insert_patch prop path k v] (AMap m) = Ok (AMap m') /\
    merged old value (ks ++ [k]) m'.
Proof.
  intros Hm Hv Hfin Hlen. exists (map_insert k v m).
  assert (Hm' : merged old value (ks ++ [k]) (map_insert k v m)).
  { eapply (merged_step _ _ _ k); [done|done|..].
    - destruct Hm as [Hw _]. by apply map_wf_insert.
    - exists v. rewrite map_find_insert. split; [done|]. by apply value_equiv_refl.
    - intros k2 Hne. by apply map_find_insert_ne. }
  split; [|done]. unfold run_edits. cbn [fold_result ppath insert_patch]. rewrite drop_all.
  cbn [edit_at]. unfold edit_target, insert_patch. cbn [preplace pmap pvalue pkey bind].
  pose proof (merged_length _ _ _ _ Hm') as Hl. rewrite (proj2 (N.ltb_ge 256 _)) by lia. done.
Qed.

(** The entries that disappear. *)
Lemma run_erases prop path ks : forall m, map_wf m -> NoDup ks -> (forall k, k ∈ ks -> k ∈ keys m) ->
  (length m <= 256)%nat ->
  exists m', run_edits (length path) (map (erase_patch prop path) ks) (AMap m) = Ok (AMap m') /\
    map_wf m' /\ forall k, map_find k m' = if decide (k ∈ ks) then None else map_find k m.
Proof.
  induction ks as [|k ks IH]; intros m Hw Hnd Hin Hl.
  - exists m. split_and!; [done|done|]. intros k. by rewrite decide_False by set_solver.
  - apply NoDup_cons in Hnd as [Hk Hnd]. unfold run_edits. cbn [map fold_result].
    cbn [ppath erase_patch]. rewrite drop_all. cbn [edit_at].
    unfold edit_target at 1. cbn [erase_patch preplace pmap pvalue pkey].
    rewrite (proj2 (map_contains_spec k m)) by (apply map_find_keys; set_solver). cbn [negb bind].
    assert (Hlen : (length (map_erase k m) <= length m)%nat).
    { unfold map_erase. clear. induction m as [|e m IHm]; simpl; [lia|]. destruct (negb _); simpl; lia. }
    rewrite (proj2 (N.ltb_ge 256 _)) by lia. cbn [bind].
    destruct (IH (map_erase k m)) as (m' & Hr & Hw' & Hf); [by apply map_wf_erase|done| |lia|].
    { intros k2 Hk2. apply map_find_keys. rewrite map_find_erase_ne by (intros ->; done).
      apply map_find_keys. set_solver. }
    exists m'. split_and!; [exact Hr|done|]. intros k2. rewrite Hf.
    destruct (decide (k2 = k)) as [->|Hne].
    + rewrite decide_False by done. rewrite (decide_True (P := k ∈ k :: ks)) by set_solver. apply map_find_erase.
    + rewrite map_find_erase_ne by done.
      destruct (decide (k2 ∈ ks)), (decide (k2 ∈ k :: ks)); try done; exfalso; set_solver.
Qed.

(** ** Sequences *)

Lemma common_prefix_le l k : (common_prefix l k <= length l)%nat /\ (common_prefix l k <= length k)%nat.
Proof.
  revert k. induction l as [|x l IH]; intros [|y k]; simpl; try lia.
  destruct (value_eqb x y); [|lia]. specialize (IH k). lia.
Qed.

Lemma common_prefix_take l k :
  Forall2 (≡) (take (common_prefix l k) l) (take (common_prefix l k) k).
Proof.
  revert k. induction l as [|x l IH]; intros [|y k]; simpl; try constructor.
  destruct (value_eqb x y) eqn:E; simpl; constructor; [done|apply IH].
Qed.

Lemma suffix_le l k :
  (prefix_of l k + suffix_of l k <= length l)%nat /\ (prefix_of l k + suffix_of l k <= length k)%nat.
Proof.
  unfold suffix_of. set (p := prefix_of l k).
  destruct (common_prefix_le l k) as [H1 H2].
  destruct (common_prefix_le (rev (drop p l)) (rev (drop p k))) as [H3 H4].
  rewrite !length_rev, !length_drop in *. unfold prefix_of in p. fold p in H1, H2. lia.
Qed.

Lemma rev_take_rev {A} (n : nat) (l : list A) : rev (take n (rev l)) = drop (length l - n) l.
Proof. rewrite firstn_rev, rev_involutive. done. Qed.

Lemma Forall2_rev' {A B} (R : A -> B -> Prop) l k : Forall2 R l k -> Forall2 R (rev l) (rev k).
Proof.
  induction 1; simpl; [constructor|]. apply Forall2_app; [done|]. by repeat constructor.
Qed.

Lemma suffix_drop l k :
  Forall2 (≡) (drop (length l - suffix_of l k) l) (drop (length k - suffix_of l k) k).
Proof.
  pose proof (suffix_le l k) as [H1 H2]. set (p := prefix_of l k) in *. set (s := suffix_of l k) in *.
  pose proof (common_prefix_take (rev (drop p l)) (rev (drop p k))) as H.
  change (common_prefix _ _) with s in H. apply Forall2_rev' in H.
  rewrite !rev_take_rev, !length_drop, !drop_drop in H.
  by replace (p + (length l - p - s))%nat with (length l - s)%nat in H by lia;
    replace (p + (length k - p - s))%nat with (length k - s)%nat in H by lia.
Qed.

Lemma split_middle {A} (p s : nat) (l : list A) : (p + s <= length l)%nat ->
  take p l ++ take (length l - s - p) (drop p l) ++ drop (length l - s) l = l.
Proof.
  intros H. assert (drop (length l - s) l = drop (length l - s - p) (drop p l)) as ->.
  { rewrite drop_drop. f_equal. lia. }
  by rewrite !take_drop.
Qed.

(** The splice of the differing middle. *)
Lemma splice_transforms prop path before after :
  (length after <= 256)%nat -> Forall (fun v => finite_value v = true) after ->
  transforms (length path) [sequence_splice prop path before after] (AArray before) (AArray after).
Proof.
  intros Hl Hfin b' Hb. apply symmetry, value_equiv_inv in Hb as (b & -> & Hb).
  pose proof (suffix_le before after) as [H1 H2]. pose proof (common_prefix_take before after) as Hp.
  pose proof (suffix_drop before after) as Hs. pose proof (Forall2_length _ _ _ Hb) as Hlen.
  unfold run_edits, sequence_splice. cbn [fold_result ppath splice_patch]. rewrite drop_all.
  set (p := prefix_of before after) in *. set (s := suffix_of before after) in *.
  fold (prefix_of before after) in Hp. fold p in Hp.
  cbn [edit_at]. unfold edit_target. cbn [splice_patch preplace pmap pindex premove pinsert].
  rewrite length_take, length_drop. rewrite <- Hlen.
  rewrite (proj2 (N.ltb_ge _ _)), (proj2 (N.ltb_ge _ _)), (proj2 (N.ltb_ge _ _)) by lia. cbn [orb].
  rewrite !Nat2N.id. eexists. split; [done|]. apply equiv_array.
  pose proof (split_middle p s after ltac:(lia)) as Hafter.
  match goal with |- Forall2 _ ?x _ => enough (Forall2 (≡) x (take p after ++
    take (length after - s - p) (drop p after) ++ drop (length after - s) after)) by congruence end.
  replace (p + (length before - p - s))%nat with (length before - s)%nat by lia.
  apply symmetry in Hb. apply Forall2_app; [|apply Forall2_app].
  - transitivity (take p before); [by apply Forall2_take|done].
  - apply Forall_Forall2_diag. eapply Forall_impl; [apply Forall_take, Forall_drop, Hfin|].
    intros v. apply value_equiv_refl.
  - transitivity (drop (length before - s) before); [by apply Forall2_drop|done].
Qed.

(** ** The loops of diff_fields *)

(** An array on its way from [old] to [value], with the indices below [i] done. *)
Definition merged_array (old value : list AttributeValue) (i : nat) (l : list AttributeValue) : Prop :=
  length l = length old /\ forall j, option_Forall2 (≡) (l !! j) (if (j <? i)%nat then value !! j else old !! j).

Lemma merged_array_start old value l : Forall2 (≡) l old -> merged_array old value 0 l.
Proof.
  intros H. split; [by eapply Forall2_length|]. intros j. simpl.
  rewrite Forall2_lookup in H. specialize (H j). destruct H; by constructor.
Qed.

Lemma merged_array_done old value l : length old = length value ->
  merged_array old value (length value) l -> Forall2 (≡) l value.
Proof.
  intros Hl [Hlen H]. apply Forall2_lookup. intros j. specialize (H j).
  destruct (Nat.ltb_spec j (length value)) as [|Hge]; [done|].
  rewrite (lookup_ge_None_2 l j), (lookup_ge_None_2 value j) by lia. constructor.
Qed.

(** A round that leaves an element alone: it is equal already. *)
Lemma merged_array_skip old value i l :
  option_Forall2 (≡) (old !! i) (value !! i) -> merged_array old value i l -> merged_array old value (S i) l.
Proof.
  intros Hi [Hlen H]. split; [done|]. intros j. specialize (H j).
  destruct (decide (j = i)) as [->|Hj].
  - rewrite Nat.ltb_irrefl in H. rewrite (proj2 (Nat.ltb_lt i (S i))) by lia.
    destruct Hi as [x y Hxy|]; inversion H; subst; constructor. by transitivity x.
  - by replace (j <? S i)%nat with (j <? i)%nat by (destruct (Nat.ltb_spec j i), (Nat.ltb_spec j (S i)); lia || done).
Qed.

Lemma merged_array_edit path old value i o v es l :
  Forall (under (path ++ [PIndex (N.of_nat i)])) es -> merged_array old value i l ->
  old !! i = Some o -> value !! i = Some v -> transforms (S (length path)) es o v ->
  exists l', run_edits (length path) es (AArray l) = Ok (AArray l') /\ merged_array old value (S i) l'.
Proof.
  intros Hu [Hlen H] Ho Hv Ht. pose proof (H i) as Hi. rewrite Nat.ltb_irrefl in Hi.
  destruct (option_Forall2_some _ _ _ _ Hi Ho) as (b' & Hb & Eb). destruct (Ht b' Eb) as (a' & Ha & Ea).
  pose proof (lookup_lt_Some _ _ _ Hb) as Hlt.
  rewrite (run_array path i) by done. rewrite (update_at_some i _ l b' a') by done. simpl.
  eexists. split; [done|]. split; [by rewrite length_insert|]. intros j.
  destruct (decide (j = i)) as [->|Hj].
  - rewrite list_lookup_insert_eq by done. rewrite (proj2 (Nat.ltb_lt i (S i))), Hv by lia. by constructor.
  - rewrite list_lookup_insert_ne by done. specialize (H j).
    by replace (j <? S i)%nat with (j <? i)%nat by (destruct (Nat.ltb_spec j i), (Nat.ltb_spec j (S i)); lia || done).
Qed.

(** Outside the differing middle the elements compare equal. *)
Lemma outside_equal old value i : length old = length value ->
  (i < prefix_of old value \/ length value - suffix_of old value <= i)%nat ->
  option_Forall2 (≡) (old !! i) (value !! i).
Proof.
  intros Hl [Hi|Hi].
  - pose proof (common_prefix_take old value) as H. rewrite Forall2_lookup in H. specialize (H i).
    fold (prefix_of old value) in H. by rewrite !lookup_take_lt in H by done.
  - pose proof (suffix_drop old value) as H. rewrite Forall2_lookup in H.
    specialize (H (i - (length value - suffix_of old value))%nat). rewrite !lookup_drop, Hl in H.
    by replace (length value - suffix_of old value + (i - (length value - suffix_of old value)))%nat with i in H by lia.
Qed.
