(* ===== verification/DiffCorrect.v ===== *)
(** * diff_fields is correct

    The edits [diff_fields] returns turn the old value into the new one, whatever the
    mixture of replacements, insertions, erasures and splices its cost comparisons
    chose ([diff_fields_correct]). *)

From S2P Require Import Prelude OrderedMap Values AttributeWire AttributeCodec Replica Delta Edits.

(** ** Correctness *)

(** What the recursive call promises for one pair of values. *)
Definition diff_spec (diff : list PathPart -> AttributeValue -> AttributeValue -> result (list AttributePatch))
    (prop : bytes) (path : list PathPart) (o v : AttributeValue) : Prop :=
  forall es, diff path o v = Ok es ->
  Forall (under path) es /\ Forall (fun p => property p = prop) es /\ transforms (length path) es o v.

Lemma under_snoc path part es : Forall (under (path ++ [part])) es -> Forall (under path) es.
Proof. intros H. eapply Forall_impl; [exact H|]. intros p Hp. by apply under_drop in Hp as [? _]. Qed.

Lemma under_self path (p : AttributePatch) : ppath p = path -> under path p.
Proof. unfold under. intros ->. by apply take_ge. Qed.

Lemma too_many_app a b : too_many (a ++ b) = false -> too_many a = false.
Proof. unfold too_many. rewrite length_app. rewrite !N.ltb_ge. lia. Qed.

Section Keyed.
Context (C : AttributeStruct -> AttributeValue)
  (diff : list PathPart -> AttributeValue -> AttributeValue -> result (list AttributePatch))
  (prop : bytes) (path : list PathPart) (old value : AttributeStruct).
Context (HC : forall k es m, Forall (under (path ++ [PKey k])) es -> is_Some (map_find k m) ->
  run_edits (length path) es (C m) =
  let* m' := update_key k (run_edits (S (length path)) es) m in Ok (C m')).
Context (Hdiff : forall k o v, map_find k old = Some o -> map_find k value = Some v ->
  diff_spec diff prop (path ++ [PKey k]) o v).
Context (Hnew : forall k v ks m, map_find k old = None -> map_find k value = Some v ->
  merged old value ks m ->
  exists m', run_edits (length path) [insert_patch prop path k v] (C m) = Ok (C m') /\
    merged old value (ks ++ [k]) m').
Context (Hwf : map_wf value).

Definition keyed_step (edits : list AttributePatch) (e : bytes * AttributeValue) : result (list AttributePatch) :=
  if too_many edits then Ok edits
  else
    match map_find e.1 old with
    | Some o => let* children := diff (path ++ [PKey e.1]) o e.2 in Ok (edits ++ children)
    | None => Ok (edits ++ [insert_patch prop path e.1 e.2])
    end.

Lemma keyed_too_many todo edits edits' :
  fold_result keyed_step todo edits = Ok edits' -> too_many edits' = false -> too_many edits = false.
Proof.
  revert edits. induction todo as [|e todo IH]; intros edits; cbn [fold_result]; [by intros [= ->]|].
  intros (e1 & H1 & H2)%bind_ok Hn. specialize (IH _ H2 Hn). unfold keyed_step in H1.
  destruct (too_many edits) eqn:E; [|done]. injection H1 as ->. congruence.
Qed.

(** One entry: its edits bring its key to the new value. *)
Lemma keyed_one k v ks edits edits' :
  map_find k value = Some v -> k ∉ ks -> too_many edits = false ->
  keyed_step edits (k, v) = Ok edits' ->
  exists new, edits' = edits ++ new /\ Forall (under path) new /\
    Forall (fun p => property p = prop) new /\
    forall m, merged old value ks m ->
      exists m', run_edits (length path) new (C m) = Ok (C m') /\ merged old value (ks ++ [k]) m'.
Proof.
  intros Hv Hk Hn. unfold keyed_step. rewrite Hn. cbn [fst snd].
  destruct (map_find k old) as [o|] eqn:Ho.
  - intros (children & Hc & [= <-])%bind_ok. exists children.
    destruct (Hdiff k o v Ho Hv _ Hc) as (U & P & T). split_and!; [done|by eapply under_snoc|done|].
    intros m Hm. rewrite length_app, Nat.add_1_r in T.
    eapply merged_existing; try done. intros m1. by apply HC.
  - intros [= <-]. exists [insert_patch prop path k v].
    split_and!; [done| |by repeat constructor|intros m Hm; by apply Hnew].
    repeat constructor. by apply under_self.
Qed.

Lemma keyed_loop todo : forall dn edits edits',
  value = dn ++ todo -> fold_result keyed_step todo edits = Ok edits' -> too_many edits' = false ->
  exists new, edits' = edits ++ new /\ Forall (under path) new /\
    Forall (fun p => property p = prop) new /\
    forall m, merged old value (keys dn) m ->
      exists m', run_edits (length path) new (C m) = Ok (C m') /\ merged old value (keys value) m'.
Proof.
  induction todo as [|[k v] todo IH]; intros dn edits edits' Hval Hf Hn.
  - injection Hf as <-. exists []. rewrite app_nil_r in *. subst dn.
    split_and!; [done|constructor..|]. intros m Hm. by exists m.
  - cbn [fold_result] in Hf. pose proof Hf as Hf'. apply bind_ok in Hf as (e1 & H1 & H2).
    assert (Hk : map_find k value = Some v).
    { apply elem_map_find; [done|]. rewrite Hval. set_solver. }
    assert (Hks : k ∉ keys dn).
    { apply map_wf_NoDup in Hwf. rewrite Hval in Hwf. unfold keys in *. rewrite fmap_app, fmap_cons in Hwf.
      apply NoDup_app in Hwf as (_ & H & _). simpl in *. set_solver. }
    destruct (keyed_one k v (keys dn) edits e1 Hk Hks) as (new & -> & U & P & M); [|done|].
    { by eapply (keyed_too_many ((k, v) :: todo)). }
    destruct (IH (dn ++ [(k, v)]) _ _ ltac:(by rewrite <- app_assoc) H2 Hn) as (new2 & -> & U2 & P2 & M2).
    exists (new ++ new2). rewrite app_assoc. split_and!; [done|by apply Forall_app|by apply Forall_app|].
    intros m Hm. destruct (M m Hm) as (m1 & R1 & Hm1).
    destruct (M2 m1) as (m2 & R2 & Hm2). { unfold keys in *. by rewrite fmap_app. }
    exists m2. rewrite run_edits_app, R1. done.
Qed.
End Keyed.

(** Struct fields: the same names on both sides. *)
Lemma same_names (old value : AttributeStruct) :
  map_wf old -> map_wf value -> length old = length value ->
  forallb (fun e => map_contains e.1 value) old = true ->
  forall k, k ∈ keys value <-> k ∈ keys old.
Proof.
  intros Ho Hv Hl Hc. apply forallb_Forall in Hc. rewrite Forall_forall in Hc.
  assert (Hin : forall k, k ∈ keys old -> k ∈ keys value).
  { unfold keys. intros k ([k' v] & -> & Hk)%list_elem_of_fmap. apply map_find_keys, map_contains_spec.
    exact (Hc _ Hk). }
  assert (Hp : keys old ≡ₚ keys value).
  { apply submseteq_length_Permutation; [|unfold keys; rewrite !length_fmap; lia].
    apply NoDup_submseteq; [by apply map_wf_NoDup|done]. }
  intros k. by rewrite Hp.
Qed.

Lemma merged_start (old value m : AttributeStruct) :
  m ≡ old -> map_wf old -> (forall k, k ∈ keys old -> k ∈ keys value) -> merged old value [] m.
Proof.
  intros Hm Ho Hk. split.
  - unfold map_wf. rewrite (sorted_keys_ext m old); [done|]. by apply struct_equiv_keys.
  - intros k. rewrite decide_False by set_solver. destruct (decide (k ∈ keys value)) as [|Hn].
    + by apply struct_equiv_find.
    + destruct (map_find k m) as [v|] eqn:E; [|constructor]. exfalso. apply Hn, Hk.
      rewrite <- (struct_equiv_keys _ _ Hm). apply map_find_keys. by eexists.
Qed.

Lemma erased_keys_spec (old value : AttributeStruct) k : map_wf old ->
  k ∈ erased_keys old value <-> k ∈ keys old /\ k ∉ keys value.
Proof.
  intros Ho. unfold erased_keys. change (map fst ?l) with (fst <$> l). rewrite list_elem_of_fmap. split.
  - intros ([k' v] & -> & Hin). apply list_elem_of_In, filter_In in Hin as [Hin Hc].
    apply negb_true_iff, map_contains_false in Hc. simpl in *. split.
    + apply map_find_keys. exists v. apply elem_map_find; [done|]. by apply list_elem_of_In.
    + intros Hx%map_find_keys. rewrite Hc in Hx. by destruct Hx.
  - intros [Hin Hn]. apply map_find_keys in Hin as [v Hv]. exists (k, v). split; [done|].
    apply list_elem_of_In, filter_In. split; [by apply list_elem_of_In, map_find_elem|].
    apply negb_true_iff, map_contains_false. simpl. rewrite eq_None_not_Some. by rewrite map_find_keys.
Qed.

Lemma erased_keys_NoDup old value : map_wf old -> NoDup (erased_keys old value).
Proof.
  intros H%map_wf_NoDup. unfold erased_keys. unfold keys in H. clear -H.
  induction old as [|[k v] old IH]; simpl; [constructor|]. rewrite fmap_cons in H. simpl in H.
  apply NoDup_cons in H as [H1 H2]. destruct (negb _); simpl; [|auto]. constructor; [|auto].
  intros Hin. apply H1. change (map fst ?l) with (fst <$> l) in Hin.
  apply list_elem_of_fmap in Hin as ([k' v'] & -> & Hin). apply list_elem_of_In, filter_In in Hin as [Hin _].
  apply list_elem_of_fmap. exists (k', v'). split; [done|]. by apply list_elem_of_In.
Qed.

Lemma erases_correct prop path old value m :
  map_wf old -> m ≡ old -> (length old <= 256)%nat ->
  exists m', run_edits (length path) (map (erase_patch prop path) (erased_keys old value)) (AMap m) = Ok (AMap m') /\
    merged old value [] m'.
Proof.
  intros Ho Hm Hl. assert (Hw : map_wf m).
  { unfold map_wf. rewrite (sorted_keys_ext m old); [done|]. by apply struct_equiv_keys. }
  destruct (run_erases prop path (erased_keys old value) m Hw) as (m' & Hr & Hw' & Hf).
  - by apply erased_keys_NoDup.
  - intros k Hk. rewrite (struct_equiv_keys _ _ Hm). by apply (erased_keys_spec old value k).
  - by rewrite (struct_equiv_length _ _ Hm).
  - exists m'. split; [done|]. split; [done|]. intros k. rewrite decide_False by set_solver. rewrite Hf.
    pose proof (struct_equiv_find m old k Hm) as Hk.
    destruct (decide (k ∈ erased_keys old value)) as [Hin|Hin]; rewrite (erased_keys_spec _ _ k Ho) in Hin.
    + rewrite decide_False by tauto. constructor.
    + destruct (decide (k ∈ keys value)); [done|].
      destruct (map_find k m) as [v|] eqn:E; [|constructor]. exfalso. apply Hin. split; [|done].
      rewrite <- (struct_equiv_keys _ _ Hm). apply map_find_keys. by eexists.
Qed.

Section Loops.
Context (diff : list PathPart -> AttributeValue -> AttributeValue -> result (list AttributePatch))
  (prop : bytes) (path : list PathPart).

Definition good_edits (edits : list AttributePatch) (before after : AttributeValue) : Prop :=
  Forall (under path) edits /\ Forall (fun p => property p = prop) edits /\
  transforms (length path) edits before after.

Lemma struct_edits_correct old value edits :
  map_wf old -> map_wf value ->
  (forall k o v, map_find k old = Some o -> map_find k value = Some v -> diff_spec diff prop (path ++ [PKey k]) o v) ->
  struct_edits diff path old value = Ok edits -> edits <> [] -> too_many edits = false ->
  good_edits edits (AStruct old) (AStruct value).
Proof.
  intros Ho Hv Hd. unfold struct_edits. destruct (_ && _) eqn:E; [|by intros [= <-]].
  apply andb_true_iff in E as [El Ec]. apply Nat.eqb_eq in El.
  pose proof (same_names _ _ Ho Hv El Ec) as Hk. intros Hf _ Hn.
  rewrite (fold_result_ext _ (keyed_step diff prop path old)) in Hf.
  2:{ intros [k v] es Hin. unfold keyed_step, map_at. destruct (too_many es); [done|]. cbn [fst snd].
      destruct (map_find k old) as [o|] eqn:Eo; [done|]. exfalso. assert (Hx : k ∈ keys old).
      { apply Hk. apply map_find_keys. exists v. by apply elem_map_find. }
      apply map_find_keys in Hx as [? ?]. congruence. }
  destruct (keyed_loop AStruct diff prop path old value) with (todo := value) (dn := @nil (bytes * AttributeValue))
    (edits := @nil AttributePatch) (edits' := edits) as (new & -> & U & P & M); try done.
  - intros. by apply run_struct.
  - intros k v ks m Hnone Hsome. exfalso. assert (Hx : k ∈ keys old) by (apply Hk, map_find_keys; by eexists).
    apply map_find_keys in Hx as [? ?]. congruence.
  - rewrite app_nil_l. split_and!; [done|done|]. intros b' Hb.
    apply symmetry, value_equiv_inv in Hb as (m & -> & Hm).
    destruct (M m) as (m' & -> & Hm'). { apply merged_start; [by symmetry|done|]. intros k. apply Hk. }
    eexists. split; [done|]. apply equiv_struct. by eapply merged_done.
Qed.

Lemma map_edits_correct old value edits :
  map_wf old -> map_wf value -> (length old <= 256)%nat -> (length value <= 256)%nat ->
  Forall (fun e => finite_value e.2 = true) value ->
  (forall k o v, map_find k old = Some o -> map_find k value = Some v -> diff_spec diff prop (path ++ [PKey k]) o v) ->
  map_edits diff prop path old value = Ok edits -> too_many edits = false ->
  good_edits edits (AMap old) (AMap value).
Proof.
  intros Ho Hv Hlo Hlv Hfin Hd Hf Hn.
  destruct (keyed_loop AMap diff prop path old value) with (todo := value) (dn := @nil (bytes * AttributeValue))
    (edits := map (erase_patch prop path) (erased_keys old value)) (edits' := edits)
    as (new & -> & U & P & M); try done.
  - intros. by apply run_map.
  - intros k v ks m _ Hk Hm. apply merged_insert; try done.
    rewrite Forall_forall in Hfin. exact (Hfin _ (map_find_elem _ _ _ Hk)).
  - split_and!.
    + apply Forall_app. split; [|done]. apply Forall_forall. intros p Hp. change (map ?f ?l) with (f <$> l) in Hp.
      apply list_elem_of_fmap in Hp as (k & -> & _). by apply under_self.
    + apply Forall_app. split; [|done]. apply Forall_forall. intros p Hp. change (map ?f ?l) with (f <$> l) in Hp.
      by apply list_elem_of_fmap in Hp as (k & -> & _).
    + intros b' Hb. apply symmetry, value_equiv_inv in Hb as (m & -> & Hm). apply symmetry in Hm.
      destruct (erases_correct prop path old value m Ho Hm Hlo) as (m1 & R1 & Hm1).
      destruct (M m1 Hm1) as (m2 & R2 & Hm2). rewrite run_edits_app, R1. simpl. rewrite R2.
      eexists. split; [done|]. apply equiv_map. by eapply merged_done.
Qed.
End Loops.

Section ArrayLoop.
Context (diff : list PathPart -> AttributeValue -> AttributeValue -> result (list AttributePatch))
  (prop : bytes) (path : list PathPart) (old value : list AttributeValue).
Context (Hlen : length old = length value).
Context (Hdiff : forall i o v, old !! i = Some o -> value !! i = Some v ->
  diff_spec diff prop (path ++ [PIndex (N.of_nat i)]) o v).

Lemma array_too_many todo : forall st i' edits',
  fold_result (array_step diff path old value) todo st = Ok (i', edits') ->
  too_many edits' = false -> too_many st.2 = false.
Proof.
  induction todo as [|v todo IH]; intros [i edits] i' edits'; cbn [fold_result]; [by intros [= -> ->]|].
  intros ([i1 e1] & H1 & H2)%bind_ok Hn. specialize (IH _ _ _ H2 Hn). simpl in IH. cbn [snd].
  unfold array_step in H1. destruct (_ && _ && _).
  - destruct (old !! i); [|done]. inv_ok. by eapply too_many_app.
  - injection H1 as _ <-. done.
Qed.

Lemma array_one i v edits i1 edits1 :
  value !! i = Some v -> too_many edits = false ->
  array_step diff path old value (i, edits) v = Ok (i1, edits1) ->
  i1 = S i /\ exists new, edits1 = edits ++ new /\ Forall (under path) new /\
    Forall (fun p => property p = prop) new /\
    forall l, merged_array old value i l ->
      exists l', run_edits (length path) new (AArray l) = Ok (AArray l') /\ merged_array old value (S i) l'.
Proof.
  intros Hv Hn. unfold array_step. rewrite Hn. cbn [negb]. rewrite andb_true_r.
  destruct (_ && _) eqn:E.
  - destruct (old !! i) as [o|] eqn:Ho; [|done]. intros (children & Hc & [= <- <-])%bind_ok.
    split; [done|]. exists children. destruct (Hdiff i o v Ho Hv _ Hc) as (U & P & T).
    split_and!; [done|by eapply under_snoc|done|]. intros l Hl.
    rewrite length_app, Nat.add_1_r in T. by eapply merged_array_edit.
  - intros [= <- <-]. split; [done|]. exists []. rewrite app_nil_r.
    split_and!; [done|constructor..|]. intros l Hl. exists l. split; [done|].
    apply merged_array_skip; [|done]. apply outside_equal; [done|].
    apply andb_false_iff in E as [E|E]; [apply Nat.leb_gt in E|apply Nat.ltb_ge in E]; lia.
Qed.

Lemma array_loop todo : forall i edits i' edits',
  drop i value = todo ->
  fold_result (array_step diff path old value) todo (i, edits) = Ok (i', edits') ->
  too_many edits' = false ->
  exists new, edits' = edits ++ new /\ Forall (under path) new /\
    Forall (fun p => property p = prop) new /\
    forall l, merged_array old value i l ->
      exists l', run_edits (length path) new (AArray l) = Ok (AArray l') /\
        merged_array old value (i + length todo) l'.
Proof.
  induction todo as [|v todo IH]; intros i edits i' edits' Hd Hf Hn.
  - injection Hf as <- <-. exists []. rewrite app_nil_r, Nat.add_0_r.
    split_and!; [done|constructor..|]. intros l Hl. by exists l.
  - assert (Hv : value !! i = Some v) by (rewrite <- (Nat.add_0_r i), <- lookup_drop, Hd; done).
    pose proof Hf as Hf'. cbn [fold_result] in Hf. apply bind_ok in Hf as ([i1 e1] & H1 & H2).
    destruct (array_one i v edits i1 e1 Hv) as (-> & new & -> & U & P & M); [|done|].
    { exact (array_too_many (v :: todo) (i, edits) _ _ Hf' Hn). }
    edestruct (IH (S i)) as (new2 & -> & U2 & P2 & M2); [|exact H2|done|].
    { replace (S i) with (i + 1)%nat by lia. rewrite <- drop_drop, Hd. done. }
    exists (new ++ new2). rewrite app_assoc. split_and!; [done|by apply Forall_app|by apply Forall_app|].
    intros l Hl. destruct (M l Hl) as (l1 & R1 & Hl1). destruct (M2 l1 Hl1) as (l2 & R2 & Hl2).
    exists l2. rewrite run_edits_app, R1. split; [done|].
    cbn [length]. by rewrite Nat.add_succ_r.
Qed.
End ArrayLoop.

Lemma array_edits_correct diff prop path old value edits :
  (length value <= 256)%nat -> Forall (fun v => finite_value v = true) value ->
  (forall i o v, old !! i = Some o -> value !! i = Some v ->
    diff_spec diff prop (path ++ [PIndex (N.of_nat i)]) o v) ->
  array_edits diff prop path old value = Ok edits ->
  good_edits prop path edits (AArray old) (AArray value).
Proof.
  intros Hl Hfin Hd. unfold array_edits. cbv zeta. intros ([i es] & He & H)%bind_ok.
  apply bind_ok in H as (cost & _ & H). apply bind_ok in H as (better & Hb & [= <-]).
  destruct better.
  { split_and!; [|by repeat constructor|by apply splice_transforms].
    repeat constructor. by apply under_self. }
  unfold prefer in Hb. destruct (is_empty es || too_many es) eqn:E; [done|]. bool_prop. destruct E as [E1 E2].
  destruct (Nat.eqb_spec (length old) (length value)) as [El|]; [|by injection He as <- <-].
  destruct (array_loop diff prop path old value El Hd value 0 [] i es) as (new & -> & U & P & M);
    [by rewrite drop_0|done|done|].
  rewrite app_nil_l. split_and!; [done|done|]. intros b' Hbb.
  apply symmetry, value_equiv_inv in Hbb as (l & -> & Hll). apply symmetry in Hll.
  destruct (M l) as (l' & -> & Hl'); [by apply merged_array_start|].
  eexists. split; [done|]. apply equiv_array. eapply merged_array_done; [done|]. exact Hl'.
Qed.

(** What is known of the children of a container. *)
Lemma struct_children depth m :
  sorted_value (AStruct m) = true -> encodable depth (AStruct m) = true ->
  map_wf m /\ (length m <= 64)%nat /\ m <> [] /\
  Forall (fun e => bad_name e.1 = false /\ sorted_value e.2 = true /\ encodable (depth + 1) e.2 = true) m.
Proof.
  cbn [sorted_value encodable]. intros [Hw Hs]%andb_true_iff He. bool_prop.
  destruct He as [_ [[Hn Hl] He]]. split_and!; [done|lia|by apply is_empty_false|].
  apply forallb_Forall in Hs, He. rewrite Forall_forall in *. intros e Hin.
  specialize (Hs e Hin). specialize (He e Hin). bool_prop. tauto.
Qed.

Lemma map_children depth m :
  sorted_value (AMap m) = true -> encodable depth (AMap m) = true ->
  map_wf m /\ (length m <= 256)%nat /\
  Forall (fun e => bad_key e.1 = false /\ sorted_value e.2 = true /\ encodable (depth + 1) e.2 = true) m.
Proof.
  cbn [sorted_value encodable]. intros [Hw Hs]%andb_true_iff He. bool_prop.
  destruct He as [_ [Hl He]]. split_and!; [done|lia|].
  apply forallb_Forall in Hs, He. rewrite Forall_forall in *. intros e Hin.
  specialize (Hs e Hin). specialize (He e Hin). bool_prop. tauto.
Qed.

Lemma array_children depth l :
  sorted_value (AArray l) = true -> encodable depth (AArray l) = true ->
  (length l <= 256)%nat /\
  Forall (fun v => sorted_value v = true /\ encodable (depth + 1) v = true) l.
Proof.
  cbn [sorted_value encodable]. intros Hs He. bool_prop. destruct He as [_ [Hl He]]. split; [lia|].
  apply forallb_Forall in Hs, He. rewrite Forall_forall in *. intros v Hin. split; [by apply Hs|by apply He].
Qed.

Lemma find_Forall (P : bytes * AttributeValue -> Prop) m k v :
  Forall P m -> map_find k m = Some v -> P (k, v).
Proof. intros H Hf. rewrite Forall_forall in H. exact (H _ (map_find_elem _ _ _ Hf)). Qed.

Lemma lookup_Forall {A} (P : A -> Prop) l i x : Forall P l -> l !! i = Some x -> P x.
Proof. rewrite Forall_lookup. eauto. Qed.

Lemma depth_snoc (path : list PathPart) x :
  N.of_nat (length (path ++ [x])) = N.of_nat (length path) + 1.
Proof. rewrite length_app. simpl. lia. Qed.

Lemma diff_fields_correct after : forall prop path before edits,
  sorted_value before = true -> sorted_value after = true ->
  encodable (N.of_nat (length path)) before = true -> encodable (N.of_nat (length path)) after = true ->
  diff_fields prop path before after = Ok edits ->
  good_edits prop path edits before after.
Proof.
  induction after as [n|x|x|s|value IH|value IH|value IH] using value_ind';
    intros prop path before edits Hsb Hsa Heb Hea Hdiff;
    cbn [diff_fields] in Hdiff;
    (destruct (value_eqb before _) eqn:Heq;
      [injection Hdiff as <-; split_and!; [constructor..|]; intros b' Hb; exists b'; split; [done|];
        etransitivity; [exact Hb|exact Heq]|]);
    apply bind_ok in Hdiff as (es & Hes & Hdiff); apply bind_ok in Hdiff as (cost & _ & Hdiff);
    apply bind_ok in Hdiff as (better & Hbet & [= <-]);
    (destruct better;
      [split_and!; [repeat constructor; by apply under_self|by repeat constructor|];
       intros b' _; eexists; split;
         [unfold run_edits; cbn [fold_result ppath replace_patch]; rewrite drop_all; done|];
       apply value_equiv_refl; by eapply encodable_finite|]);
    unfold prefer in Hbet; (destruct (is_empty es || too_many es) eqn:E; [done|]); bool_prop; destruct E as [E1 E2];
    apply is_empty_false in E1;
    (destruct (length path <? 8)%nat; [|by injection Hes as <-]);
    destruct before as [|? | | |old|old|old]; try (by injection Hes as <-).
  - pose proof (struct_children _ _ Hsb Heb) as (Wo & Lo & _ & Fo).
    pose proof (struct_children _ _ Hsa Hea) as (Wv & Lv & _ & Fv).
    eapply struct_edits_correct; try done. intros k o v Hk1 Hk2 es' Hes'.
    pose proof (find_Forall _ _ _ _ Fo Hk1) as (_ & So & Eo). pose proof (find_Forall _ _ _ _ Fv Hk2) as (_ & Sv & Ev).
    apply (find_Forall _ _ _ _ IH Hk2); rewrite ?depth_snoc; done.
  - pose proof (array_children _ _ Hsb Heb) as (Lo & Fo). pose proof (array_children _ _ Hsa Hea) as (Lv & Fv).
    eapply array_edits_correct; try done.
    { eapply Forall_impl; [exact Fv|]. intros v [_ Hv]. by eapply encodable_finite. }
    intros i o v Hi1 Hi2 es' Hes'.
    pose proof (lookup_Forall _ _ _ _ Fo Hi1) as (So & Eo). pose proof (lookup_Forall _ _ _ _ Fv Hi2) as (Sv & Ev).
    apply (lookup_Forall _ _ _ _ IH Hi2); rewrite ?depth_snoc; done.
  - pose proof (map_children _ _ Hsb Heb) as (Wo & Lo & Fo). pose proof (map_children _ _ Hsa Hea) as (Wv & Lv & Fv).
    eapply map_edits_correct; try done.
    { eapply Forall_impl; [exact Fv|]. intros v (_ & _ & Hv). by eapply encodable_finite. }
    intros k o v Hk1 Hk2 es' Hes'.
    pose proof (find_Forall _ _ _ _ Fo Hk1) as (_ & So & Eo). pose proof (find_Forall _ _ _ _ Fv Hk2) as (_ & Sv & Ev).
    apply (find_Forall _ _ _ _ IH Hk2); rewrite ?depth_snoc; done.
Qed.

(** * diff_fields always returns

    On values of an encodable image [diff_fields] returns, and every edit it returns
    can be encoded on its own ([diff_fields_total]): the sizes it compares exist, the
    paths stay within eight parts, and no edit is larger than a record. *)

Section Total.
Context (prop : bytes) (Hprop : bad_name prop = false).

(** The encoded size of a patch up to its edit. *)
Definition path_size (path : list PathPart) : N := 2 + size prop + sum (fun p => size (wire_part p)) path.

Definition location (path : list PathPart) : Prop :=
  forallb part_ok path = true /\ (length path <= 8)%nat.

(** A value at [path] of an image that fits a record; a splice costs three bytes more
    than the array it edits, hence the slack. *)
Definition bounded (path : list PathPart) (v : AttributeValue) : Prop :=
  sorted_value v = true /\ encodable (N.of_nat (length path)) v = true /\
  nodes v <= node_budget /\ path_size path + wire_size v + 4 <= limit.

Definition fits (p : AttributePatch) : Prop :=
  patch_ok true p = true /\ patch_nodes p <= node_budget /\ size (wire_patch true p) <= limit.

Lemma size_prefix p : property p = prop -> size (wire_prefix true p) = path_size (ppath p).
Proof.
  intros Hp. unfold wire_prefix, path_size. rewrite !size_app, !size_put_be, size_concat_map, Hp. lia.
Qed.

Lemma location_ok path p : location path -> property p = prop -> ppath p = path ->
  edit_ok p = true -> patch_ok true p = true.
Proof.
  intros [Hp Hl] Ep Epp He. unfold patch_ok, path_depth. rewrite Ep, Epp, Hprop, Hp, He. cbn [negb andb].
  rewrite !andb_true_r. apply N.leb_le. lia.
Qed.

Lemma part_size p : part_ok p = true -> size (wire_part p) <= 129.
Proof.
  destruct p as [k|i]; cbn [wire_part part_ok]; rewrite ?size_app, ?size_put_be; intros Hk; [|lia].
  apply negb_true_iff, good_key_parts in Hk. lia.
Qed.

Lemma path_size_bound path : location path -> path_size path <= 1200.
Proof.
  intros [Hp Hl]. unfold path_size. assert (size prop <= 127) by (unfold bad_name in Hprop; bool_prop; lia).
  assert (sum (fun p => size (wire_part p)) path <= 129 * N.of_nat (length path)); [|lia].
  clear Hl. induction path as [|p path IH]; [done|]. cbn [forallb] in Hp. apply andb_true_iff in Hp as [Hp Hps].
  specialize (IH Hps). apply part_size in Hp. unfold sum in *. cbn [fold_right length]. lia.
Qed.

Lemma path_size_snoc path part : path_size (path ++ [part]) = path_size path + size (wire_part part).
Proof. unfold path_size. rewrite sum_app. unfold sum at 2. simpl. lia. Qed.

Lemma location_snoc path part : location path -> (length path < 8)%nat -> part_ok part = true ->
  location (path ++ [part]).
Proof.
  intros [Hp _] Hl Hk. split; [|rewrite length_app; simpl; lia].
  rewrite forallb_app, Hp. simpl. by rewrite Hk.
Qed.

(** ** One edit *)

Lemma fits_replace path v : location path -> bounded path v -> fits (replace_patch prop path v).
Proof.
  intros Hl (_ & He & Hn & Hb). split_and!.
  - eapply location_ok; [exact Hl|done..|]. unfold edit_ok. cbn. exact He.
  - unfold patch_nodes. cbn. lia.
  - unfold wire_patch. rewrite size_app, size_prefix by done. unfold wire_edit. cbn [replace_patch preplace pvalue ppath].
    rewrite size_app, size_put_be. unfold wire_size in Hb. lia.
Qed.

Lemma fits_erase path k : location path -> bad_key k = false -> fits (erase_patch prop path k).
Proof.
  intros Hl Hk. pose proof (path_size_bound path Hl). split_and!.
  - eapply location_ok; [exact Hl|done..|]. unfold edit_ok. cbn [erase_patch preplace pmap pkey pvalue]. by rewrite Hk.
  - unfold patch_nodes. cbn. lia.
  - unfold wire_patch. rewrite size_app, size_prefix by done. unfold wire_edit.
    cbn [erase_patch preplace pmap pkey pvalue ppath is_some bool_bit].
    rewrite !size_app, !size_put_be, size_nil. apply good_key_parts in Hk. unfold limit. lia.
Qed.

Lemma entry_of k v (m : AttributeStruct) : map_find k m = Some v ->
  1 + size k + wire_size v <= sum entry_size m /\ nodes v <= sum (fun e => nodes e.2) m.
Proof.
  intros Hf%map_find_elem. split.
  - exact (sum_elem entry_size m (k, v) Hf).
  - exact (sum_elem (fun e => nodes e.2) m (k, v) Hf).
Qed.

Lemma fits_insert path k v m : location path -> bounded path (AMap m) -> map_find k m = Some v ->
  fits (insert_patch prop path k v).
Proof.
  intros Hl (Hs & He & Hn & Hb) Hf. pose proof (map_children _ _ Hs He) as (_ & _ & Hc).
  destruct (find_Forall _ _ _ _ Hc Hf) as (Hk & _ & Hv). cbn [fst snd] in *.
  destruct (entry_of _ _ _ Hf) as [H1 H2]. rewrite wire_size_map in Hb. cbn [nodes] in Hn. split_and!.
  - eapply location_ok; [exact Hl|done..|]. unfold edit_ok, path_depth. cbn [insert_patch preplace pmap pkey pvalue ppath].
    rewrite Hk, Hv. done.
  - unfold patch_nodes. cbn. lia.
  - unfold wire_patch. rewrite size_app, size_prefix by done. unfold wire_edit.
    cbn [insert_patch preplace pmap pkey pvalue ppath is_some bool_bit].
    rewrite !size_app, !size_put_be. unfold wire_size in *. lia.
Qed.

Lemma sum_take_drop {A} (f : A -> N) n k l : sum f (take n (drop k l)) <= sum f l.
Proof.
  rewrite <- (take_drop k l) at 2. rewrite sum_app. set (l' := drop k l).
  rewrite <- (take_drop n l') at 2. rewrite sum_app. lia.
Qed.

Lemma fits_splice path old value : location path -> bounded path (AArray value) -> (length old <= 256)%nat ->
  fits (sequence_splice prop path old value).
Proof.
  intros Hl (Hs & He & Hn & Hb) Ho. pose proof (array_children _ _ Hs He) as (Hlen & Hc).
  rewrite wire_size_array in Hb. cbn [nodes] in Hn. unfold sequence_splice. cbv zeta.
  pose proof (proj1 (common_prefix_le old value)) as Hp. fold (prefix_of old value) in Hp.
  set (ins := take _ _). assert (Hins : (length ins <= length value)%nat).
  { unfold ins. rewrite length_take, length_drop. lia. }
  split_and!.
  - eapply location_ok; [exact Hl|done..|]. unfold edit_ok, path_depth.
    cbn [splice_patch preplace pmap pkey pvalue ppath pindex premove pinsert is_some is_empty negb].
    rewrite !(proj2 (N.leb_le _ _)) by lia. cbn [andb]. apply forallb_Forall.
    apply Forall_take, Forall_drop. eapply Forall_impl; [exact Hc|]. by intros v [_ Hv].
  - unfold patch_nodes. cbn [splice_patch pvalue pinsert].
    pose proof (sum_take_drop nodes (length value - suffix_of old value - prefix_of old value)
      (prefix_of old value) value). fold ins in H. lia.
  - unfold wire_patch. rewrite size_app, size_prefix by done. unfold wire_edit.
    cbn [splice_patch preplace pmap pkey pvalue ppath pindex premove pinsert].
    rewrite !size_app, !size_put_be, size_concat_map.
    pose proof (sum_take_drop wire_size (length value - suffix_of old value - prefix_of old value)
      (prefix_of old value) value). fold ins in H. unfold wire_size in *. lia.
Qed.

(** ** Children *)

Lemma name_is_key k : bad_name k = false -> bad_key k = false.
Proof.
  unfold bad_name, bad_key. intros H. apply orb_false_iff in H as [H Hh]. apply orb_false_iff in H as [H _].
  rewrite H. cbn [orb]. destruct (has_any nul k) eqn:E; [|done]. rewrite <- Hh. symmetry.
  unfold has_any in *. apply existsb_exists in E as (c & Hc & E). apply existsb_exists. exists c. split; [done|].
  apply existsb_exists in E as (d & Hd & E). apply existsb_exists. exists d. split; [|done].
  unfold nul, dot_nul in *. simpl in *. tauto.
Qed.

Lemma bounded_field path m k v : bounded path (AStruct m) -> location path -> (length path < 8)%nat ->
  map_find k m = Some v -> location (path ++ [PKey k]) /\ bounded (path ++ [PKey k]) v.
Proof.
  intros (Hs & He & Hn & Hb) Hl H8 Hf. pose proof (struct_children _ _ Hs He) as (_ & _ & _ & Hc).
  destruct (find_Forall _ _ _ _ Hc Hf) as (Hk & Hsv & Hv). cbn [fst snd] in *. apply name_is_key in Hk.
  destruct (entry_of _ _ _ Hf) as [H1 H2]. rewrite wire_size_struct in Hb. cbn [nodes] in Hn. split.
  - apply location_snoc; [done..|]. simpl. by rewrite Hk.
  - split_and!; [done|by rewrite depth_snoc|lia|]. rewrite path_size_snoc. cbn [wire_part].
    rewrite !size_app, !size_put_be. lia.
Qed.

Lemma bounded_entry path m k v : bounded path (AMap m) -> location path -> (length path < 8)%nat ->
  map_find k m = Some v -> location (path ++ [PKey k]) /\ bounded (path ++ [PKey k]) v.
Proof.
  intros (Hs & He & Hn & Hb) Hl H8 Hf. pose proof (map_children _ _ Hs He) as (_ & _ & Hc).
  destruct (find_Forall _ _ _ _ Hc Hf) as (Hk & Hsv & Hv). cbn [fst snd] in *.
  destruct (entry_of _ _ _ Hf) as [H1 H2]. rewrite wire_size_map in Hb. cbn [nodes] in Hn. split.
  - apply location_snoc; [done..|]. simpl. by rewrite Hk.
  - split_and!; [done|by rewrite depth_snoc|lia|]. rewrite path_size_snoc. cbn [wire_part].
    rewrite !size_app, !size_put_be. lia.
Qed.

Lemma bounded_item path l i v : bounded path (AArray l) -> location path -> (length path < 8)%nat ->
  l !! i = Some v -> location (path ++ [PIndex (N.of_nat i)]) /\ bounded (path ++ [PIndex (N.of_nat i)]) v.
Proof.
  intros (Hs & He & Hn & Hb) Hl H8 Hf. pose proof (array_children _ _ Hs He) as (Hlen & Hc).
  destruct (lookup_Forall _ _ _ _ Hc Hf) as (Hsv & Hv). pose proof (lookup_lt_Some _ _ _ Hf) as Hi.
  apply list_elem_of_lookup_2 in Hf. pose proof (sum_elem wire_size _ _ Hf). pose proof (sum_elem nodes _ _ Hf).
  rewrite wire_size_array in Hb. cbn [nodes] in Hn. split.
  - apply location_snoc; [done..|]. simpl. apply N.ltb_lt. lia.
  - split_and!; [done|by rewrite depth_snoc|lia|]. rewrite path_size_snoc. cbn [wire_part].
    rewrite !size_app, !size_put_be. lia.
Qed.

(** ** Costs *)

Lemma patch_cost_fits p : fits p -> patch_cost p = Ok (size (wire_patch true p)).
Proof.
  intros (Hok & Hn & Hs). unfold patch_cost. rewrite encode_patch_spec by done. cbn [out_size size_output counted].
  rewrite N.add_0_l, !(proj2 (N.leb_le _ _)) by done. done.
Qed.

Lemma patches_cost_fits es : Forall fits es -> exists n, patches_cost es = Ok n.
Proof.
  intros Hes. unfold patches_cost.
  destruct (fold_result_total (fun cost edit => let* n := patch_cost edit in Ok (cost + n)) (fun _ => True) es 0)
    as (n & -> & _); [done| |by exists n].
  intros p cost Hin _. rewrite Forall_forall in Hes. rewrite patch_cost_fits by auto. eexists. by split.
Qed.

Lemma prefer_fits p es cost : fits p -> exists b, prefer p es cost = Ok b.
Proof.
  intros Hp. unfold prefer. destruct (_ || _); [by eexists|]. rewrite patch_cost_fits by done. by eexists.
Qed.

(** The common end of [diff_fields] and its array case: the cheaper of one patch and
    the child edits. *)
Lemma choose_fits p es : fits p -> Forall fits es ->
  exists es', (let* cost := patches_cost es in let* better := prefer p es cost in
               Ok (if better then [p] else es)) = Ok es' /\ Forall fits es'.
Proof.
  intros Hp Hes. destruct (patches_cost_fits es Hes) as (cost & ->). cbn [bind].
  destruct (prefer_fits p es cost Hp) as (b & ->). cbn [bind]. eexists. split; [done|].
  destruct b; [by apply Forall_singleton|done].
Qed.

(** ** The loops *)

Definition returns (m : result (list AttributePatch)) : Prop := exists es, m = Ok es /\ Forall fits es.

Lemma append_returns {T} m (edits : list AttributePatch) (k : list AttributePatch -> T) :
  returns m -> Forall fits edits ->
  exists children, (let* c := m in Ok (k (edits ++ c))) = Ok (k (edits ++ children)) /\ Forall fits (edits ++ children).
Proof. intros (es & -> & Hes) He. exists es. split; [done|]. by apply Forall_app. Qed.

Context (diff : list PathPart -> AttributeValue -> AttributeValue -> result (list AttributePatch)).
Context (path : list PathPart) (Hloc : location path) (Hlt : (length path < 8)%nat).

Lemma struct_edits_total old value :
  map_wf old -> map_wf value ->
  (forall k o v, map_find k old = Some o -> map_find k value = Some v -> returns (diff (path ++ [PKey k]) o v)) ->
  returns (struct_edits diff path old value).
Proof.
  intros Ho Hv Hd. unfold struct_edits. destruct (_ && _) eqn:E; [|by exists []].
  apply andb_true_iff in E as [El Ec]. apply Nat.eqb_eq in El.
  pose proof (same_names _ _ Ho Hv El Ec) as Hk. apply fold_result_total; [constructor|].
  intros [k v] es Hin Hes. destruct (too_many es); [by exists es|]. cbn [fst snd].
  apply elem_map_find in Hin; [|done]. assert (Hx : k ∈ keys old) by (apply Hk, map_find_keys; by eexists).
  apply map_find_keys in Hx as [o Hx]. unfold map_at. rewrite Hx. cbn [bind].
  destruct (append_returns (diff (path ++ [PKey k]) o v) es (fun x => x)) as (c & -> & Hc); eauto.
Qed.

Lemma map_edits_total old value :
  map_wf old -> Forall (fun e => bad_key e.1 = false) old -> bounded path (AMap value) -> map_wf value ->
  (forall k o v, map_find k old = Some o -> map_find k value = Some v -> returns (diff (path ++ [PKey k]) o v)) ->
  returns (map_edits diff prop path old value).
Proof.
  intros Ho Hko Hb Hv Hd. unfold map_edits. apply fold_result_total.
  - apply Forall_forall. intros p Hp. change (map ?f ?l) with (f <$> l) in Hp.
    apply list_elem_of_fmap in Hp as (k & -> & Hk). apply fits_erase; [done|].
    apply erased_keys_spec in Hk as [Hk _]; [|done]. apply map_find_keys in Hk as [v Hk].
    exact (find_Forall _ _ _ _ Hko Hk).
  - intros [k v] es Hin Hes. destruct (too_many es); [by exists es|]. cbn [fst snd].
    apply elem_map_find in Hin; [|done]. destruct (map_find k old) as [o|] eqn:Eo.
    + destruct (append_returns (diff (path ++ [PKey k]) o v) es (fun x => x)) as (c & -> & Hc); eauto.
    + eexists. split; [done|]. apply Forall_app. split; [done|]. apply Forall_singleton. by eapply fits_insert.
Qed.

Lemma array_edits_total old value :
  (length old <= 256)%nat -> bounded path (AArray value) ->
  (forall i o v, old !! i = Some o -> value !! i = Some v -> returns (diff (path ++ [PIndex (N.of_nat i)]) o v)) ->
  returns (array_edits diff prop path old value).
Proof.
  intros Ho Hb Hd. unfold array_edits. cbv zeta.
  assert (Hl : exists i es, (if (length old =? length value)%nat
      then fold_result (array_step diff path old value) value (O, []) else Ok (O, [])) = Ok (i, es) /\ Forall fits es).
  { destruct (Nat.eqb_spec (length old) (length value)) as [El|]; [|by exists O, []].
    cut (forall todo i es, drop i value = todo -> Forall fits es ->
      exists i' es', fold_result (array_step diff path old value) todo (i, es) = Ok (i', es') /\ Forall fits es').
    { intros H. apply H; [by rewrite drop_0|constructor]. }
    induction todo as [|v todo IH]; intros i es Hdr Hes; [by exists i, es|].
    assert (Hv : value !! i = Some v) by (rewrite <- (Nat.add_0_r i), <- lookup_drop, Hdr; done).
    assert (Hnext : drop (S i) value = todo).
    { replace (S i) with (i + 1)%nat by lia. rewrite <- drop_drop, Hdr. done. }
    cbn [fold_result]. unfold array_step at 1. destruct (_ && _ && _); [|by apply IH].
    destruct (old !! i) as [o|] eqn:Eo.
    2:{ apply lookup_ge_None_1 in Eo. apply lookup_lt_Some in Hv. lia. }
    destruct (append_returns (diff (path ++ [PIndex (N.of_nat i)]) o v) es (fun x => (S i, x)))
      as (c & -> & Hc); [by eapply Hd|done|]. cbn [bind]. by apply IH. }
  destruct Hl as (i & es & -> & Hes). cbn [bind]. apply choose_fits; [|done]. by apply fits_splice.
Qed.
End Total.

Lemma diff_fields_total prop after : bad_name prop = false -> forall path before,
  location path -> bounded prop path after ->
  sorted_value before = true -> encodable (N.of_nat (length path)) before = true ->
  returns (diff_fields prop path before after).
Proof.
  intros Hprop. induction after as [n|x|x|s|value IH|value IH|value IH] using value_ind';
    intros path before Hl Hb Hsb Heb; cbn [diff_fields];
    (destruct (value_eqb before _); [by exists []|]);
    match goal with |- returns (bind ?m _) => assert (Hes : returns m); [|destruct Hes as (es & -> & Hes);
      cbn [bind]; apply choose_fits; [by eapply fits_replace|done]] end;
    (destruct (Nat.ltb_spec (length path) 8); [|by exists []]);
    destruct before as [| | | |old|old|old]; try (by exists []).
  - pose proof (struct_children _ _ Hsb Heb) as (Wo & _ & _ & Fo).
    pose proof Hb as (Hsa & Hea & _). pose proof (struct_children _ _ Hsa Hea) as (Wv & _ & _ & Fv).
    apply struct_edits_total; [done..|]. intros k o v Hk1 Hk2.
    destruct (find_Forall _ _ _ _ Fo Hk1) as (_ & So & Eo).
    destruct (bounded_field prop path value k v) as [L1 B1]; try done.
    apply (find_Forall _ _ _ _ IH Hk2); rewrite ?depth_snoc; done.
  - pose proof (array_children _ _ Hsb Heb) as (Lo & Fo).
    apply array_edits_total; [done..|]. intros i o v Hi1 Hi2.
    destruct (lookup_Forall _ _ _ _ Fo Hi1) as (So & Eo).
    destruct (bounded_item prop path value i v) as [L1 B1]; try done.
    apply (lookup_Forall _ _ _ _ IH Hi2); rewrite ?depth_snoc; done.
  - pose proof (map_children _ _ Hsb Heb) as (Wo & _ & Fo).
    pose proof Hb as (Hsa & Hea & _). pose proof (map_children _ _ Hsa Hea) as (Wv & _ & Fv).
    apply map_edits_total; try done.
    { eapply Forall_impl; [exact Fo|]. by intros e (? & _). }
    intros k o v Hk1 Hk2. destruct (find_Forall _ _ _ _ Fo Hk1) as (_ & So & Eo).
    destruct (bounded_entry prop path value k v) as [L1 B1]; try done.
    apply (find_Forall _ _ _ _ IH Hk2); rewrite ?depth_snoc; done.
Qed.
