(* ===== verification/Images.v ===== *)
(** * Attribute images

    What the replica needs of whole images: the merge loop of [validate_overlay]
    computes the map the insertions produce, a part of an encodable image is
    encodable, and native charges stay far below the width of [std::size_t]. *)

From S2P Require Import Prelude OrderedMap Values AttributeWire AttributeCodec Replica Edits.

(** ** The merge loop *)

Lemma overlay_nil_r old : overlay old [] = old.
Proof. by destruct old. Qed.
Lemma overlay_cons o old c changed :
  overlay (o :: old) (c :: changed) =
    match bytes_cmp o.1 c.1 with
    | Lt => o :: overlay old (c :: changed)
    | Eq => c :: overlay old changed
    | Gt => c :: overlay (o :: old) changed
    end.
Proof. done. Qed.

Lemma overlay_Forall (P : bytes * AttributeValue -> Prop) old : forall changed,
  Forall P old -> Forall P changed -> Forall P (overlay old changed).
Proof.
  induction old as [|o old IHo]; intros changed Ho Hc; [by destruct changed|].
  induction changed as [|c changed IHc]; [done|]. rewrite overlay_cons.
  inversion Ho; inversion Hc; subst. destruct (bytes_cmp o.1 c.1); constructor; auto.
Qed.

Lemma find_head_lt k k' v (m : AttributeStruct) : map_wf ((k', v) :: m) -> bytes_lt k k' ->
  map_find k ((k', v) :: m) = None.
Proof.
  intros [Hlt _]%map_wf_cons H. apply map_find_none_lt. constructor; [done|].
  eapply Forall_impl; [exact Hlt|]. intros e He. simpl in *. by transitivity k'.
Qed.

Definition over (k : bytes) (old changed : AttributeStruct) : option AttributeValue :=
  match map_find k changed with Some v => Some v | None => map_find k old end.

Lemma overlay_wf old : forall changed, map_wf old -> map_wf changed -> map_wf (overlay old changed).
Proof.
  induction old as [|[k v] old IHo]; intros changed Ho Hc; [by destruct changed|].
  induction changed as [|[k' v'] changed IHc]; [done|]. rewrite overlay_cons. cbn [fst].
  pose proof Ho as [Lo Wo]%map_wf_cons. pose proof Hc as [Lc Wc]%map_wf_cons.
  destruct (bytes_cmp k k') eqn:E; apply map_wf_cons; (split; [|by auto]); apply overlay_Forall; try done.
  - apply bytes_cmp_eq in E as ->. done.
  - constructor; [done|]. eapply Forall_impl; [exact Lc|]. intros e He. by transitivity k'.
  - apply bytes_cmp_gt in E. constructor; [done|]. eapply Forall_impl; [exact Lo|]. intros e He. by transitivity k.
Qed.

Lemma overlay_find old k0 : forall changed, map_wf old -> map_wf changed ->
  map_find k0 (overlay old changed) = over k0 old changed.
Proof.
  unfold over. induction old as [|[k v] old IHo]; intros changed Ho Hc.
  { destruct changed; [done|]. by destruct (map_find k0 _). }
  induction changed as [|[k' v'] changed IHc]; [done|]. rewrite overlay_cons. cbn [fst].
  pose proof Ho as [Lo Wo]%map_wf_cons. pose proof Hc as [Lc Wc]%map_wf_cons.
  destruct (bytes_cmp k k') eqn:E.
  - apply bytes_cmp_eq in E as ->. cbn [map_find]. destruct (bytes_eqb k0 k'); [done|]. by apply IHo.
  - change (map_find k0 ((k, v) :: ?m)) with (if bytes_eqb k0 k then Some v else map_find k0 m).
    rewrite IHo by done. destruct (bytes_eqb_spec k0 k) as [->|]; [|done]. by rewrite find_head_lt.
  - apply bytes_cmp_gt in E. cbn [map_find]. destruct (bytes_eqb k0 k'); [done|]. by apply IHc.
Qed.

(** ** The insertions of [apply] *)

Definition insert_all (changed old : AttributeStruct) : AttributeStruct :=
  fold_left (fun vs field => map_insert field.1 field.2 vs) changed old.

Lemma insert_all_wf changed : forall old, map_wf old -> map_wf (insert_all changed old).
Proof. induction changed as [|e c IH]; intros old Ho; [done|]. apply IH. by apply map_wf_insert. Qed.

Lemma insert_all_find k changed : forall old, map_wf changed ->
  map_find k (insert_all changed old) = over k old changed.
Proof.
  unfold over. induction changed as [|[k' v'] c IH]; intros old Hc; [done|]. apply map_wf_cons in Hc as [Lc Wc].
  unfold insert_all. cbn [fold_left fst snd]. fold (insert_all c (map_insert k' v' old)). rewrite IH by done.
  cbn [map_find]. destruct (bytes_eqb_spec k k') as [->|Hne].
  - by rewrite map_find_none_lt, map_find_insert.
  - destruct (map_find k c); [done|]. by apply map_find_insert_ne.
Qed.

Lemma insert_all_overlay old changed : map_wf old -> map_wf changed -> insert_all changed old = overlay old changed.
Proof.
  intros Ho Hc. apply map_ext; [by apply insert_all_wf|by apply overlay_wf|]. intros k.
  by rewrite insert_all_find, overlay_find.
Qed.

(** ** Parts of an image *)

Lemma sum_erase (f : bytes * AttributeValue -> N) k v m : map_wf m -> map_find k m = Some v ->
  sum f m = f (k, v) + sum f (map_erase k m).
Proof.
  induction m as [|[k' v'] m IH]; [done|]. intros [Lt Wm]%map_wf_cons Hf. cbn [map_find] in Hf.
  unfold map_erase. cbn [List.filter fst]. destruct (bytes_eqb_spec k k') as [<-|Hne]; cbn [negb].
  - injection Hf as ->. unfold sum. cbn [fold_right]. f_equal. f_equal. symmetry.
    assert (Hn : map_find k m = None) by (by apply map_find_none_lt).
    clear -Hn. induction m as [|[k' v'] m IH]; [done|]. cbn [map_find] in Hn. cbn [List.filter fst].
    destruct (bytes_eqb k k'); [done|]. cbn [negb]. f_equal. auto.
  - unfold sum in *. cbn [fold_right]. unfold map_erase in IH. rewrite (IH Wm Hf). lia.
Qed.

(** A map whose entries all occur, up to [f], in [big] sums to at most as much. *)
Lemma sum_sub (f : bytes * AttributeValue -> N) small : forall big, map_wf small -> map_wf big ->
  (forall k v, map_find k small = Some v -> exists v', map_find k big = Some v' /\ f (k, v) = f (k, v')) ->
  sum f small <= sum f big.
Proof.
  induction small as [|[k v] small IH]; intros big Hs Hb H; [cbn; lia|].
  pose proof Hs as [Lt Ws]%map_wf_cons. destruct (H k v) as (v' & Hf & Hv).
  { cbn [map_find]. by rewrite bytes_eqb_refl. }
  rewrite (sum_erase f k v' big Hb Hf). unfold sum at 1. cbn [fold_right]. fold (sum f small). rewrite Hv.
  apply N.add_le_mono_l. apply IH; [done|by apply map_wf_erase|]. intros k2 v2 Hk2.
  assert (k <> k2). { intros <-. by rewrite map_find_none_lt in Hk2. }
  rewrite map_find_erase_ne by done. apply H. cbn [map_find].
  by destruct (bytes_eqb_spec k2 k) as [->|].
Qed.

(** The part of an image that has its values up to [==]. *)
Definition part_of (small big : AttributeStruct) : Prop :=
  forall k v, map_find k small = Some v -> exists v', map_find k big = Some v' /\ v ≡ v'.

(** Everything an encodable full image satisfies. *)
Record image_valid (vs : AttributeStruct) : Prop := {
  iv_wf : map_wf vs;
  iv_sorted : Forall (fun e => sorted_value e.2 = true) vs;
  iv_length : N.of_nat (length vs) <= 256;
  iv_roots : Forall (fun e => root_ok e = true) vs;
  iv_nodes : image_nodes vs <= node_budget;
  iv_size : 23 + sum entry_size vs <= limit
}.

Lemma part_valid small big : image_valid big -> map_wf small -> part_of small big -> image_valid small.
Proof.
  intros [W S L R Nn Z] Ws P.
  assert (H : forall e, e ∈ small -> exists v', map_find e.1 big = Some v' /\ e.2 ≡ v').
  { intros [k v] He. apply P. by apply elem_map_find. }
  split; try done.
  - apply Forall_forall. intros e He. destruct (H e He) as (v' & Hf & Hv).
    rewrite (sorted_respects _ _ Hv). exact (proj1 (Forall_forall _ _) S _ (map_find_elem _ _ _ Hf)).
  - assert (length small <= length big)%nat; [|lia]. apply length_incl_keys; [done|].
    intros k [v Hk]%map_find_keys. destruct (P k v Hk) as (v' & Hf & _). apply map_find_keys. by eexists.
  - apply Forall_forall. intros e He. destruct (H e He) as (v' & Hf & Hv). unfold root_ok.
    rewrite (encodable_respects 0 _ _ Hv). exact (proj1 (Forall_forall _ _) R _ (map_find_elem _ _ _ Hf)).
  - etransitivity; [|exact Nn]. apply sum_sub; [done..|]. intros k v Hk.
    destruct (P k v Hk) as (v' & Hf & Hv). exists v'. split; [done|]. by apply nodes_respects.
  - etransitivity; [|exact Z]. apply N.add_le_mono_l. apply sum_sub; [done..|]. intros k v Hk.
    destruct (P k v Hk) as (v' & Hf & Hv). exists v'. split; [done|]. unfold entry_size. cbn [fst snd].
    by rewrite (wire_size_respects _ _ Hv).
Qed.

Lemma wire_size_ok u n : attribute_wire_size u = Ok n ->
  update_ok u = true /\ update_nodes u <= node_budget /\ n = size (wire_update u) /\ n <= limit.
Proof.
  unfold attribute_wire_size. intros (o & Ho & [= <-])%bind_ok. pose proof (encode_update_ok _ _ _ Ho) as Hok.
  rewrite (encode_update_spec (O:=SizeOnly)) in Ho by done. destruct (_ && _) eqn:E; [|done].
  bool_prop. destruct E as [E1 E2]. injection Ho as <-. cbn. rewrite N.add_0_l. done.
Qed.

Lemma wire_size_fits u : update_ok u = true ->
  attribute_wire_size u = if (update_nodes u <=? node_budget) && (size (wire_update u) <=? limit)
                          then Ok (size (wire_update u)) else Throw length_error.
Proof.
  intros Hok. unfold attribute_wire_size. rewrite (encode_update_spec (O:=SizeOnly)) by done.
  destruct (_ && _); [|done]. cbn. by rewrite N.add_0_l.
Qed.

Lemma image_valid_of_size u n : struct_wf (values u) = true -> patches u = [] ->
  attribute_wire_size u = Ok n -> image_valid (values u).
Proof.
  intros Hw Hp (Hok & Hn & -> & Hs)%wire_size_ok. unfold update_ok, image_ok in Hok. unfold struct_wf in Hw.
  rewrite Hp in Hok. apply andb_true_iff in Hok as [Hok _]. apply andb_true_iff in Hok as [Hok Hr].
  apply andb_true_iff in Hok as [Hok _]. apply andb_true_iff in Hok as [Hl _]. apply andb_true_iff in Hw as [Hw Hv].
  split; [done| |by apply N.leb_le|by apply forallb_Forall| |].
  - apply forallb_Forall in Hv. eapply Forall_impl; [exact Hv|]. intros e. apply value_wf_sorted.
  - unfold update_nodes in Hn. rewrite Hp in Hn. change (sum patch_nodes []) with 0 in Hn. lia.
  - unfold wire_update in Hs. rewrite Hp, app_nil_r, size_wire_image in Hs. exact Hs.
Qed.

Lemma image_valid_size vs b rv sn : image_valid vs -> b <= rv -> (sn = true -> b = 0) ->
  update_ok (MkUpdate b rv sn vs []) = true /\
  attribute_wire_size (MkUpdate b rv sn vs []) = Ok (23 + sum entry_size vs).
Proof.
  intros [W S L R Nn Z] Hb Hsn. assert (Hok : update_ok (MkUpdate b rv sn vs []) = true).
  { unfold update_ok, image_ok. cbn [values base revision snapshot patches is_empty orb].
    rewrite !(proj2 (N.leb_le _ _)), (proj2 (forallb_Forall _ _) R) by done. rewrite andb_true_r. cbn [andb].
    destruct sn; [|done]. by rewrite Hsn. }
  split; [done|]. rewrite wire_size_fits by done. unfold update_nodes, wire_update.
  cbn [values base revision snapshot patches is_empty]. change (sum patch_nodes []) with 0.
  rewrite app_nil_r, size_wire_image, N.add_0_r, !(proj2 (N.leb_le _ _)) by done. done.
Qed.

(** ** Native charges *)

Lemma fold_charge {A} (f : A -> N) l : forall b, fold_left (fun n x => n + f x) l b = b + sum f l.
Proof.
  induction l as [|x l IH]; intros b; [cbn; lia|]. cbn [fold_left]. rewrite IH. unfold sum. cbn [fold_right]. lia.
Qed.

Lemma sum_cons {A} (f : A -> N) x l : sum f (x :: l) = f x + sum f l.
Proof. done. Qed.
Lemma sum_le {A} (f g : A -> N) l : Forall (fun x => f x <= g x) l -> sum f l <= sum g l.
Proof. induction 1; unfold sum in *; cbn [fold_right]; lia. Qed.
Lemma sum_scale {A} (c : N) (f : A -> N) l : sum (fun x => c * f x) l = c * sum f l.
Proof. induction l; unfold sum in *; cbn [fold_right]; lia. Qed.

Lemma entry_charge_bound k v : child_charge v <= 512 * wire_size v ->
  (forall l, v = AArray l -> Forall (fun x => child_charge x <= 512 * wire_size x) l) ->
  entry_charge child_charge k v <= 512 * entry_size (k, v).
Proof.
  intros Hv Hl. unfold entry_size. cbn [fst snd]. unfold entry_charge. destruct v as [n|x|x|s|m|l|m]; try lia.
  - unfold wire_size in *. cbn [wire] in *. rewrite !size_app in *. lia.
  - rewrite fold_charge, wire_size_array. specialize (Hl l eq_refl).
    apply (sum_le child_charge (fun x => 512 * wire_size x)) in Hl. rewrite sum_scale in Hl. lia.
Qed.

Lemma child_charge_bound v : child_charge v <= 512 * wire_size v /\
  (forall l, v = AArray l -> Forall (fun x => child_charge x <= 512 * wire_size x) l).
Proof.
  assert (Hm : forall m : AttributeStruct, Forall (fun e => child_charge e.2 <= 512 * wire_size e.2 /\
      (forall l, e.2 = AArray l -> Forall (fun x => child_charge x <= 512 * wire_size x) l)) m ->
      sum (fun e => entry_charge child_charge e.1 e.2) m <= 512 * sum entry_size m).
  { intros m Hm. rewrite <- sum_scale. apply sum_le. eapply Forall_impl; [exact Hm|].
    intros [k w] [H1 H2]. by apply entry_charge_bound. }
  induction v as [n|x|x|s|m IH|l IH|m IH] using value_ind'; (split; [|try (by intros l0 [=])]);
    cbn [child_charge]; rewrite ?fold_charge.
  1-4: unfold wire_size; cbn [wire]; rewrite !size_app, ?size_put_be; lia.
  - rewrite wire_size_struct. specialize (Hm m IH). lia.
  - rewrite wire_size_array. assert (sum child_charge l <= 512 * sum wire_size l); [|lia].
    rewrite <- sum_scale. apply sum_le. eapply Forall_impl; [exact IH|]. by intros ? [? _].
  - intros l0 [= <-]. eapply Forall_impl; [exact IH|]. by intros ? [? _].
  - rewrite wire_size_map. specialize (Hm m IH). lia.
Qed.

Lemma image_charge_bound vs : sum (fun e => attribute_entry_bytes e.1 e.2) vs <= 512 * sum entry_size vs.
Proof.
  rewrite <- sum_scale. apply sum_le, Forall_forall. intros [k v] _. by apply entry_charge_bound; apply child_charge_bound.
Qed.

(** ** validate_overlay *)

Lemma overlay_fields_ok vs : forall out r count native,
  Forall (fun e => root_ok e = true) vs -> image_nodes vs <= r ->
  counted out + sum entry_size vs <= limit -> count + N.of_nat (length vs) <= 256 ->
  fold_result overlay_field vs (out, r, count, native) =
  Ok (MkSizeOnly (counted out + sum entry_size vs), r - image_nodes vs, count + N.of_nat (length vs),
      native + sum (fun e => attribute_entry_bytes e.1 e.2) vs).
Proof.
  induction vs as [|[k v] vs IH]; intros out r count native Hr Hn Hs Hc.
  { cbn. destruct out. cbn. by rewrite !N.add_0_r, N.sub_0_r. }
  apply Forall_cons in Hr as [Hr Hrs]. unfold root_ok in Hr. cbn [fst snd] in Hr. bool_prop. destruct Hr as [Hk Hv].
  unfold image_nodes in Hn. rewrite sum_cons in Hn, Hs. unfold entry_size at 1 in Hs. cbn [fst snd length] in *.
  cbn [fold_result]. unfold overlay_field at 1. cbn [fst snd].
  rewrite (proj2 (N.ltb_ge 256 _)) by lia. unfold check_name. rewrite Hk. cbn [bind].
  rewrite encode_value_encodable by done. rewrite put_spec, !out_str_str, !out_size_str.
  cbn [out_size size_output]. rewrite size_app, size_put_be. unfold wire_size in Hs.
  rewrite !(proj2 (N.leb_le _ _)) by lia. cbn [andb bind]. rewrite IH; [|done|unfold image_nodes; lia| |lia].
  - unfold image_nodes. rewrite !sum_cons. unfold entry_size at 2. unfold wire_size. cbn [fst snd length].
    cbn [out_str size_output counted]. rewrite !size_app, size_put_be.
    f_equal; repeat match goal with |- (_, _) = (_, _) => apply f_equal2 end; [f_equal|..]; lia.
  - cbn [out_str size_output counted]. rewrite !size_app, size_put_be. lia.
Qed.

Lemma validate_overlay_ok current changed : image_valid (overlay current changed) ->
  exists n, validate_overlay current changed = Ok n /\ n <= u64_max.
Proof.
  intros [W S L R Nn Z]. unfold validate_overlay. rewrite overlay_fields_ok; try done.
  cbn [bind out_size size_output counted]. eexists. split; [done|].
  pose proof (image_charge_bound (overlay current changed)).
  set (a := sum entry_size _) in *. set (b := sum _ _) in *. unfold limit, u64_max in *. lia.
Qed.

(** ** apply, for a materialized update *)

Lemma overlay_equiv current next vs :
  map_wf current -> map_wf vs -> map_wf next ->
  (forall k, option_Forall2 (≡) (over k current vs) (map_find k next)) -> overlay current vs ≡ next.
Proof.
  intros Hc Hv Hn H. apply struct_equiv_ext; [by apply overlay_wf|done|]. intros k. by rewrite overlay_find.
Qed.
