(* ===== verification/DeltaCorrect.v ===== *)
(** * attribute_delta is correct

    Both candidates of [attribute_delta] (container edits and field edits) and the
    plain replacement of the changed roots describe the next image relative to the
    previous one; the replica that holds the previous image accepts whichever one is
    chosen and ends with the next image. *)

From S2P Require Import Edits Prelude OrderedMap Values AttributeWire Replica Delta AttributeCodec DiffCorrect Images.

(** ** The patch loop of [apply] *)

Lemma insert_same k v (m : AttributeStruct) : map_wf m -> map_find k m = Some v -> map_insert k v m = m.
Proof.
  intros Hw Hf. apply map_ext; [by apply map_wf_insert|done|]. intros k2.
  destruct (bytes_eqb_spec k2 k) as [->|]; [by rewrite map_find_insert|by apply map_find_insert_ne].
Qed.
Lemma insert_insert k v w (m : AttributeStruct) : map_wf m ->
  map_insert k v (map_insert k w m) = map_insert k v m.
Proof.
  intros Hw. apply map_ext; [by do 2 apply map_wf_insert|by apply map_wf_insert|]. intros k2.
  destruct (bytes_eqb_spec k2 k) as [->|]; [by rewrite !map_find_insert|by rewrite !map_find_insert_ne].
Qed.

Lemma run_root current k es : forall vs r, Forall (fun p => property p = k) es -> map_wf vs ->
  map_find k vs = Some r ->
  fold_result (apply_patch current) es vs = let* r' := run_edits 0 es r in Ok (map_insert k r' vs).
Proof.
  induction es as [|p es IH]; intros vs r Hes Hw Hf.
  - cbn. by rewrite insert_same.
  - apply Forall_cons in Hes as [Hp Hes]. unfold run_edits. cbn [fold_result]. unfold apply_patch at 1.
    rewrite Hp, Hf, drop_0. cbn [bind]. destruct (edit_at _ _ r) as [r1|]; [|done]. cbn [bind].
    rewrite (IH _ r1) by (done || by apply map_wf_insert || by apply map_find_insert).
    fold (run_edits 0 es r1). destruct (run_edits 0 es r1); [|done]. cbn [bind]. by rewrite insert_insert.
Qed.

(** The first edit of a root starts from the replica's value. *)
Lemma run_new_root current k es vs r : es <> [] -> Forall (fun p => property p = k) es -> map_wf vs ->
  map_find k vs = None -> map_find k current = Some r ->
  fold_result (apply_patch current) es vs = let* r' := run_edits 0 es r in Ok (map_insert k r' vs).
Proof.
  destruct es as [|p es]; [done|]. intros _ Hes Hw Hn Hc. apply Forall_cons in Hes as [Hp Hes].
  unfold run_edits. cbn [fold_result]. unfold apply_patch at 1. unfold map_at. rewrite Hp, Hn, Hc, drop_0.
  cbn [bind]. destruct (edit_at _ _ r) as [r1|]; [|done]. cbn [bind].
  rewrite (run_root _ k _ _ r1) by (done || by apply map_wf_insert || by apply map_find_insert).
  fold (run_edits 0 es r1). destruct (run_edits 0 es r1); [|done]. cbn [bind]. by rewrite insert_insert.
Qed.

(** ** Edits of the map roots in [container_delta] *)

Lemma inserts_correct prop path old value todo : map_wf value -> (length value <= 256)%nat ->
  Forall (fun e => finite_value e.2 = true) value -> forall dn m,
  value = dn ++ todo -> merged old value (keys dn) m ->
  exists m', run_edits (length path)
      (map (fun e => insert_patch prop path e.1 e.2) (List.filter (changed old) todo)) (AMap m) = Ok (AMap m') /\
    merged old value (keys value) m'.
Proof.
  intros Hw Hl Hfin. induction todo as [|[k v] todo IH]; intros dn m Hv Hm.
  { exists m. rewrite app_nil_r in Hv. by subst dn. }
  assert (Hk : map_find k value = Some v) by (apply elem_map_find; [done|rewrite Hv; set_solver]).
  assert (Hks : k ∉ keys dn).
  { apply map_wf_NoDup in Hw. rewrite Hv in Hw. unfold keys in *. rewrite fmap_app, fmap_cons in Hw.
    apply NoDup_app in Hw as (_ & H & _). simpl in *. set_solver. }
  assert (Hnext : forall m1, merged old value (keys dn ++ [k]) m1 -> merged old value (keys (dn ++ [(k, v)])) m1).
  { intros m1. unfold keys. by rewrite fmap_app. }
  specialize (IH (dn ++ [(k, v)])). rewrite <- app_assoc in IH. cbn [List.filter].
  destruct (changed old (k, v)) eqn:Ec.
  - destruct (merged_insert prop path old value (keys dn) k v m) as (m1 & R1 & Hm1); try done.
    { exact (find_Forall _ _ _ _ Hfin Hk). }
    destruct (IH m1 Hv (Hnext _ Hm1)) as (m2 & R2 & Hm2). exists m2. split; [|done]. cbn [map].
    change (?x :: ?l) with ([x] ++ l). rewrite run_edits_app. cbn [fst snd]. by rewrite R1.
  - apply IH; [done|]. apply Hnext. unfold changed in Ec. cbn [fst snd] in Ec.
    destruct (map_find k old) as [o|] eqn:Eo; [|done]. apply negb_false_iff in Ec.
    destruct Hm as [Hmw Hmf]. eapply (merged_step _ _ _ k); [by split|done|done| |done].
    pose proof (Hmf k) as Hx. rewrite decide_False, decide_True in Hx by (done || (apply map_find_keys; by eexists)).
    destruct (option_Forall2_some _ _ _ _ Hx Eo) as (b & Hb & Eb). exists b. split; [done|].
    etransitivity; [exact Eb|exact Ec].
Qed.

Lemma finite_entries depth m : Forall (fun e => bad_key e.1 = false /\ sorted_value e.2 = true /\
  encodable (depth + 1) e.2 = true) m -> Forall (fun e => finite_value e.2 = true) m.
Proof. intros H. eapply Forall_impl; [exact H|]. intros e (_ & _ & He). by eapply encodable_finite. Qed.

(** A root of a valid image. *)
Lemma root_bounded vs k v : image_valid vs -> map_find k vs = Some v ->
  bad_name k = false /\ bounded k [] v.
Proof.
  intros [W S L R Nn Z] Hf. pose proof (find_Forall _ _ _ _ S Hf) as Hs. pose proof (find_Forall _ _ _ _ R Hf) as Hr.
  unfold root_ok in Hr. cbn [fst snd] in *. bool_prop. destruct Hr as [Hk He]. split; [done|].
  destruct (entry_of _ _ _ Hf) as [H1 H2]. unfold image_nodes in Nn. split_and!; [done|done|lia|].
  unfold path_size, sum at 1. cbn [fold_right]. lia.
Qed.

Lemma root_refl vs k v : image_valid vs -> map_find k vs = Some v -> v ≡ v.
Proof.
  intros Hi Hk. destruct (root_bounded _ _ _ Hi Hk) as [_ (_ & He & _)].
  eapply value_equiv_refl, encodable_finite. exact He.
Qed.

Lemma location_nil : location [].
Proof. split; [done|simpl; lia]. Qed.

Lemma container_edits_good k old v es : bad_name k = false -> bounded k [] v ->
  sorted_value old = true -> encodable 0 old = true -> container_edits k old v = Some es ->
  Forall fits es /\ good_edits k [] es old v.
Proof.
  intros Hk Hb So Eo. pose proof Hb as (Sv & Ev & _). pose proof location_nil as Hl.
  destruct old as [| | | |?|before|before], v as [| | | |?|after|after]; try done; cbn [container_edits]; intros [= <-].
  - pose proof (array_children 0 _ So Eo) as (Lo & _). pose proof (array_children 0 _ Sv Ev) as (Lv & Fv). split.
    + apply Forall_singleton. by apply fits_splice.
    + split_and!; [apply Forall_singleton; by apply under_self|by repeat constructor|].
      apply splice_transforms; [done|]. eapply Forall_impl; [exact Fv|]. intros x [_ Hx]. by eapply encodable_finite.
  - pose proof (map_children 0 _ So Eo) as (Wo & Lo & Fo). pose proof (map_children 0 _ Sv Ev) as (Wv & Lv & Fv).
    change (map ?f ?l) with (f <$> l). split; [|split_and!].
    + apply Forall_app. split; apply Forall_fmap, Forall_forall.
      * intros x [Hx _]%erased_keys_spec; [|done]. apply fits_erase; [done..|].
        apply map_find_keys in Hx as [w Hx]. exact (proj1 (find_Forall _ _ _ _ Fo Hx)).
      * intros [x w] Hx. apply list_elem_of_In, filter_In in Hx as [Hx _]. cbn [compose fst snd].
        eapply fits_insert; [done..|]. apply elem_map_find; [done|]. by apply list_elem_of_In.
    + apply Forall_app. split; apply Forall_fmap, Forall_true; intros; by apply under_self.
    + apply Forall_app. split; apply Forall_fmap, Forall_true; by intros.
    + intros b' Hb'. apply symmetry, value_equiv_inv in Hb' as (m & -> & Hm). apply symmetry in Hm.
      destruct (erases_correct k [] before after m Wo Hm Lo) as (m1 & R1 & Hm1).
      destruct (inserts_correct k [] before after after Wv Lv (finite_entries _ _ Fv) [] m1 eq_refl Hm1)
        as (m2 & R2 & Hm2).
      rewrite run_edits_app. change (?f <$> ?l) with (map f l). rewrite R1. cbn [bind]. rewrite R2.
      eexists. split; [done|]. apply equiv_map. by eapply merged_done.
Qed.

(** ** apply, once the patch loop has run *)

Lemma apply_materialized r u n img vs :
  attribute_wire_size u = Ok n -> snapshot u = false -> base u <= revision u ->
  initialized r = true -> replica_revision r = base u -> image r = Some img -> map_wf (values img) ->
  fold_result (apply_patch (values img)) (patches u) (values u) = Ok vs -> map_wf vs ->
  image_valid vs -> image_valid (overlay (values img) vs) ->
  exists r', apply_unbounded r u = Ok (true, r') /\ replica_values r' = overlay (values img) vs /\
    replica_revision r' = revision u /\ initialized r' = true.
Proof.
  intros Hn Hs Hle Hi Hrr Himg Wc Hf Hwv Hvs Hov.
  destruct (validate_overlay_ok _ _ Hov) as (count & Hcount & Hbound).
  destruct (image_valid_size vs (base u) (revision u) false Hvs Hle ltac:(done)) as [_ Hms].
  set (r' := MkReplica (Some (MkUpdate (base img) (revision u) (snapshot img) (overlay (values img) vs) (patches img)))
    (revision u) true count).
  assert (Hvals : apply_values r (MkUpdate (base u) (revision u) false vs []) u64_max = Ok (true, r')).
  { unfold apply_values, replica_values. cbn [snapshot values revision]. rewrite Himg, Hcount. cbn [bind].
    rewrite (proj2 (N.ltb_ge _ _)) by done. fold (insert_all vs (values img)). by rewrite insert_all_overlay. }
  exists r'. split; [|done].
  unfold apply_unbounded, apply, apply_checks. rewrite Hn, Hs, Hi, Hrr. cbn [bind negb andb orb].
  rewrite N.eqb_refl, (proj2 (N.ltb_ge (revision u) (base u))) by done. cbn [negb].
  destruct (is_empty (patches u)) eqn:Hem.
  - apply is_empty_true in Hem. rewrite Hem in Hf. injection Hf as Hf. rewrite <- Hvals, <- Hf.
    destruct u. cbn in *. by subst.
  - unfold replica_values. rewrite Himg, Hf. cbn [bind]. rewrite Hms. cbn [bind snapshot base revision negb andb orb].
    rewrite N.eqb_refl, (proj2 (N.ltb_ge (revision u) (base u))) by done. exact Hvals.
Qed.

(** ** Deltas under construction *)

(** [current] has every root of [previous], up to [==]. *)
Definition has_roots (current previous : AttributeStruct) : Prop :=
  forall k o, map_find k previous = Some o -> exists c, map_find k current = Some c /\ c ≡ o.

Lemma equiv_has_roots current previous : current ≡ previous -> has_roots current previous.
Proof. intros H k o Ho. eapply option_Forall2_some; [by apply struct_equiv_find|done]. Qed.

Section Delta.
Context (previous next : AttributeStruct) (Hprev : image_valid previous) (Hnext : image_valid next).
Context (b rv : N) (Hrev : b <= rv).

(** The patches, run on any image that has the roots of [previous] (up to [==]) over
    any replacements of other roots, bring the roots they name to [next]. *)
Definition patches_good (ps : list AttributePatch) : Prop :=
  forall current vs0, has_roots current previous -> map_wf vs0 ->
  Forall (fun p => map_find (property p) vs0 = None) ps ->
  exists vs, fold_result (apply_patch current) ps vs0 = Ok vs /\ map_wf vs /\
    forall k, (k ∈ property <$> ps -> option_Forall2 (≡) (map_find k vs) (map_find k next)) /\
              (k ∉ property <$> ps -> map_find k vs = map_find k vs0).

Lemma patches_good_nil : patches_good [].
Proof. intros current vs0 _ Hw _. exists vs0. split_and!; [done|done|]. intros k. split; [set_solver|done]. Qed.

Lemma patches_good_app ps k es old v :
  patches_good ps -> k ∉ property <$> ps -> es <> [] -> Forall (fun p => property p = k) es ->
  transforms 0 es old v -> map_find k previous = Some old -> map_find k next = Some v ->
  patches_good (ps ++ es).
Proof.
  intros Hps Hk Hne Hes Ht Ho Hv current vs0 Hc Hw Hf. apply Forall_app in Hf as [Hf1 Hf2].
  destruct (Hps current vs0 Hc Hw Hf1) as (vs & Hr & Hwv & Hfv).
  destruct (Hc k old Ho) as (c & Hcc & Ec). destruct (Ht c Ec) as (a & Ha & Ea). destruct (Hfv k) as [_ Hfk].
  assert (Hnone : map_find k vs0 = None).
  { destruct es as [|p es']; [done|]. apply Forall_cons in Hf2 as [Hp _], Hes as [<- _]. done. }
  exists (map_insert k a vs). rewrite fold_result_app, Hr. cbn [bind].
  rewrite (run_new_root current k es vs c), Ha; [|done|done|done|rewrite Hfk; done|done].
  split_and!; [done|by apply map_wf_insert|]. intros k2. rewrite fmap_app.
  assert (Hpe : k2 ∈ property <$> es -> k2 = k).
  { intros (p & -> & Hp)%list_elem_of_fmap. rewrite Forall_forall in Hes. by apply Hes. }
  assert (Hkin : k ∈ property <$> es).
  { destruct es as [|p es']; [done|]. apply Forall_cons in Hes as [<- _]. set_solver. }
  destruct (bytes_eqb_spec k2 k) as [->|Hk2].
  - rewrite map_find_insert, Hv. split; [intros _; by constructor|]. intros H. exfalso. set_solver.
  - rewrite map_find_insert_ne by done. destruct (Hfv k2) as [H1 H2]. split.
    + intros [H|H]%elem_of_app; [by apply H1|by apply Hpe in H].
    + intros H. apply H2. set_solver.
Qed.

(** The update after the roots [ks] have been considered. *)
Record delta_state (ks : list bytes) (u : AttributeUpdate) : Prop := {
  ds_base : base u = b; ds_revision : revision u = rv; ds_snapshot : snapshot u = false;
  ds_wf : map_wf (values u);
  ds_values : forall k v, map_find k (values u) = Some v -> map_find k next = Some v /\ k ∈ ks;
  ds_patches : Forall (fun p => patch_ok true p = true /\ map_find (property p) (values u) = None /\
                                property p ∈ ks) (patches u);
  ds_changed : forall k, k ∈ property <$> patches u -> exists o v, map_find k previous = Some o /\
    map_find k next = Some v /\ value_eqb o v = false;
  ds_good : patches_good (patches u);
  ds_cover : forall k, k ∈ ks -> is_Some (map_find k (values u)) \/ k ∈ property <$> patches u \/
    option_Forall2 (≡) (map_find k previous) (map_find k next)
}.

Lemma delta_start : delta_state [] (MkUpdate b rv false [] []).
Proof. split; cbn; try done; [set_solver|apply patches_good_nil|set_solver]. Qed.

Lemma delta_emplace ks u k v : delta_state ks u -> k ∉ ks -> map_find k next = Some v ->
  delta_state (ks ++ [k]) (MkUpdate (base u) (revision u) (snapshot u) (fst (map_emplace k v (values u))) (patches u)).
Proof.
  intros [Hb Hr Hs Hw Hv Hp Hx Hg Hc] Hk Hn.
  assert (E : fst (map_emplace k v (values u)) = map_insert k v (values u)).
  { unfold map_emplace. destruct (map_contains k (values u)) eqn:E; [|done]. exfalso.
    apply map_contains_spec in E as [w E]. by apply Hv in E as [_ ?]. }
  rewrite E. split; cbn [base revision snapshot values patches]; try done.
  - by apply map_wf_insert.
  - intros k2 v2. destruct (bytes_eqb_spec k2 k) as [->|]; [rewrite map_find_insert|rewrite map_find_insert_ne by done].
    + intros [= <-]. split; [done|]. set_solver.
    + intros [H1 H2]%Hv. split; [done|]. set_solver.
  - eapply Forall_impl; [exact Hp|]. intros p (H1 & H2 & H3). split_and!; [done| |set_solver].
    rewrite map_find_insert_ne; [done|]. intros ->. done.
  - intros k2 [H|H%list_elem_of_singleton]%elem_of_app.
    + destruct (bytes_eqb_spec k2 k) as [->|]; [done|]. rewrite map_find_insert_ne by done. by apply Hc.
    + subst k2. left. rewrite map_find_insert. by eexists.
Qed.

Lemma delta_patch ks u k old v es : delta_state ks u -> k ∉ ks ->
  map_find k previous = Some old -> map_find k next = Some v -> value_eqb old v = false ->
  Forall fits es -> good_edits k [] es old v ->
  delta_state (ks ++ [k]) (MkUpdate (base u) (revision u) (snapshot u) (values u) (patches u ++ es)).
Proof.
  intros [Hb Hr Hs Hw Hv Hp Hx Hg Hc] Hk Ho Hn Hne Hf (_ & Hes & Ht).
  assert (Hnil : es <> []).
  { intros ->. destruct (root_bounded _ _ _ Hprev Ho) as [_ (_ & He & _)].
    destruct (Ht old (value_equiv_refl _ (encodable_finite _ _ He))) as (a & [= <-] & Ea).
    change (value_eqb old v = true) in Ea. congruence. }
  assert (Hkv : map_find k (values u) = None).
  { destruct (map_find k (values u)) as [w|] eqn:E; [|done]. by apply Hv in E as [_ ?]. }
  split; cbn [base revision snapshot values patches]; try done.
  - intros k2 v2 [H1 H2]%Hv. split; [done|]. set_solver.
  - apply Forall_app. split.
    + eapply Forall_impl; [exact Hp|]. intros p (H1 & H2 & H3). split_and!; [done..|set_solver].
    + rewrite Forall_forall in *. intros p Hin. rewrite (Hes p Hin).
      split_and!; [by apply (Hf p Hin)|done|set_solver].
  - rewrite fmap_app. intros k2 [H|H]%elem_of_app; [by apply Hx|].
    apply list_elem_of_fmap in H as (p & -> & Hin). rewrite Forall_forall in Hes. rewrite (Hes p Hin). eauto.
  - eapply patches_good_app; try done. rewrite Forall_forall in Hp.
    intros (p & -> & Hin)%list_elem_of_fmap. by destruct (Hp p Hin) as (_ & _ & ?).
  - rewrite fmap_app. intros k2 [H|H%list_elem_of_singleton]%elem_of_app.
    + destruct (Hc k2 H) as [|[|]]; [by left|right; left; set_solver|by right; right].
    + subst k2. right. left. apply elem_of_app. right. destruct es as [|p es]; [done|].
      apply Forall_cons in Hes as [<- _]. set_solver.
Qed.

Lemma delta_mono ks ks' u : delta_state ks u -> (forall k, k ∈ ks -> k ∈ ks') ->
  (forall k, k ∈ ks' -> k ∉ ks -> option_Forall2 (≡) (map_find k previous) (map_find k next)) ->
  delta_state ks' u.
Proof.
  intros [Hb Hr Hs Hw Hv Hp Hx Hg Hc] Hin Heq. split; try done.
  - intros k2 v2 [H1 H2]%Hv. split; [done|]. by apply Hin.
  - eapply Forall_impl; [exact Hp|]. intros p (H1 & H2 & H3). split_and!; [done..|by apply Hin].
  - intros k Hk. destruct (decide (k ∈ ks)); [by apply Hc|]. right. right. by apply Heq.
Qed.

(** ** A complete delta *)

(** The roots that the delta leaves out are unchanged. *)
Definition delta_complete (u : AttributeUpdate) : Prop := delta_state (keys next) u.

Lemma patch_ok_false p : patch_ok true p = true -> patch_ok false p = true.
Proof. unfold patch_ok. rewrite !andb_true_iff. tauto. Qed.

Lemma complete_update_ok ks u : delta_state ks u -> too_many (patches u) = false -> update_ok u = true.
Proof.
  intros [Hb Hr Hs Hw Hv Hp Hx Hg Hc] Hm. unfold update_ok. rewrite Hb, Hr, Hs.
  assert (Hi : image_valid (values u)).
  { eapply part_valid; [exact Hnext|done|]. intros k v [Hk _]%Hv. exists v. split; [done|]. by eapply root_refl. }
  destruct (image_valid_size (values u) b rv false Hi Hrev ltac:(done)) as [Hok _].
  unfold update_ok in Hok. cbn [values base revision snapshot patches is_empty orb] in Hok.
  rewrite andb_true_r in Hok. rewrite Hok. destruct (is_empty (patches u)); [done|]. cbn [orb negb andb].
  unfold too_many in Hm. apply N.ltb_ge in Hm. rewrite (proj2 (N.leb_le _ _)) by done. cbn [andb].
  apply forallb_Forall. eapply Forall_impl; [exact Hp|]. intros p (H1 & H2 & _).
  rewrite (proj2 (map_contains_false _ _)) by done. cbn [negb andb].
  destruct (field_paths u); [done|by apply patch_ok_false].
Qed.

(** A root that neither the values nor the patches of a complete delta give is unchanged. *)
Lemma complete_unchanged u vs k : delta_complete u ->
  (k ∈ property <$> patches u -> option_Forall2 (≡) (map_find k vs) (map_find k next)) ->
  (k ∉ property <$> patches u -> map_find k vs = map_find k (values u)) ->
  k ∈ keys next -> map_find k vs = None -> option_Forall2 (≡) (map_find k previous) (map_find k next).
Proof.
  intros Hd H1 H2 Hin Ek. assert (Hnp : k ∉ property <$> patches u).
  { intros Hp. specialize (H1 Hp). apply map_find_keys in Hin as [w Hin]. rewrite Hin, Ek in H1. inversion H1. }
  destruct (ds_cover _ _ Hd k Hin) as [H|[H|H]]; [|done|done].
  rewrite <- (H2 Hnp), Ek in H. by destruct H.
Qed.

Lemma option_equiv_trans (x y z : option AttributeValue) :
  option_Forall2 (≡) x y -> option_Forall2 (≡) y z -> option_Forall2 (≡) x z.
Proof. intros Hxy Hyz. destruct Hxy; inversion Hyz; subst; constructor. by etransitivity. Qed.

(** What the patch loop produces, merged over the current image, is the next image. *)
Lemma complete_materializes u current :
  (forall k, k ∈ keys previous -> k ∈ keys next) -> delta_complete u ->
  map_wf current -> current ≡ previous ->
  exists vs, fold_result (apply_patch current) (patches u) (values u) = Ok vs /\ map_wf vs /\
    part_of vs next /\ overlay current vs ≡ next.
Proof.
  intros Hsub Hd Wc Hcur. pose proof Hd as [Hb Hr Hs Hw Hv Hp Hx Hg Hc].
  destruct (Hg current (values u) (equiv_has_roots _ _ Hcur) Hw) as (vs & Hf & Hwv & Hfv).
  { eapply Forall_impl; [exact Hp|]. by intros p (_ & ? & _). }
  assert (Hpart : part_of vs next).
  { intros k v Hk. destruct (Hfv k) as [H1 H2]. destruct (decide (k ∈ property <$> patches u)) as [Hin|Hin].
    - specialize (H1 Hin). rewrite Hk in H1. inversion H1; subst. eauto.
    - specialize (H2 Hin). rewrite Hk in H2. symmetry in H2. apply Hv in H2 as [H2 _].
      exists v. split; [done|]. by eapply root_refl. }
  exists vs. split_and!; try done. apply overlay_equiv; try done; [apply Hnext|].
  intros k. unfold over. destruct (map_find k vs) as [v|] eqn:Ek.
  { destruct (Hpart k v Ek) as (v' & -> & ?). by constructor. }
  pose proof (struct_equiv_find _ _ k Hcur) as Hck. destruct (Hfv k) as [H1 H2].
  destruct (decide (k ∈ keys next)) as [Hin|Hin].
  - eapply option_equiv_trans; [exact Hck|]. by eapply (complete_unchanged u vs).
  - assert (Hk : k ∉ keys current) by (rewrite (struct_equiv_keys _ _ Hcur); auto).
    rewrite <- map_find_keys in Hin, Hk. apply eq_None_not_Some in Hin, Hk. rewrite Hin, Hk. constructor.
Qed.

(** The replica at [previous] accepts a complete delta and moves to [next]. *)
Lemma apply_complete r u n img :
  (forall k, k ∈ keys previous -> k ∈ keys next) -> delta_complete u -> attribute_wire_size u = Ok n ->
  initialized r = true -> replica_revision r = b -> image r = Some img -> values img ≡ previous ->
  exists r', apply_unbounded r u = Ok (true, r') /\ replica_values r' ≡ next /\
    replica_revision r' = rv /\ initialized r' = true.
Proof.
  intros Hsub Hd Hn Hi Hrr Himg Hcur. pose proof Hd as [Hb Hr Hs _ _ _ _ _ _].
  assert (Wc : map_wf (values img)).
  { unfold map_wf. rewrite (sorted_keys_ext _ previous); [apply Hprev|]. by apply struct_equiv_keys. }
  destruct (complete_materializes u (values img) Hsub Hd Wc Hcur) as (vs & Hf & Hwv & Hpart & Hover).
  destruct (apply_materialized r u n img vs) as (r' & Ha & Hv & Hx); try done; try congruence; [..|].
  - by eapply part_valid.
  - eapply part_valid; [exact Hnext|apply overlay_wf; done|]. intros k v Hk.
    pose proof (struct_equiv_find _ _ k Hover) as H. rewrite Hk in H. inversion H; subst. eauto.
  - exists r'. rewrite Hv, <- Hr. done.
Qed.

(** ** The three candidates *)

Lemma changed_false k v : map_find k next = Some v -> changed previous (k, v) = false ->
  option_Forall2 (≡) (map_find k previous) (map_find k next).
Proof.
  intros Hn. unfold changed. cbn [fst snd]. rewrite Hn. destruct (map_find k previous) as [o|]; [|done].
  intros H%negb_false_iff. by constructor.
Qed.

Lemma changed_roots : map_wf (List.filter (changed previous) next) /\
  forall k v, map_find k (List.filter (changed previous) next) = Some v <->
    map_find k next = Some v /\ changed previous (k, v) = true.
Proof. pose proof (iv_wf _ Hnext). split; [by apply map_wf_filter|]. intros k v. by apply map_find_filter. Qed.

Lemma unchanged_rest (ks : list bytes) k : (forall v, map_find k next = Some v -> changed previous (k, v) = true -> k ∈ ks) ->
  k ∈ keys next -> k ∉ ks -> option_Forall2 (≡) (map_find k previous) (map_find k next).
Proof.
  intros H [v Hv]%map_find_keys Hk. apply (changed_false k v Hv).
  destruct (changed previous (k, v)) eqn:E; [|done]. exfalso. by apply Hk, (H v).
Qed.

Definition full_delta : AttributeUpdate := MkUpdate b rv false (List.filter (changed previous) next) [].

Lemma full_complete : delta_complete full_delta.
Proof.
  destruct changed_roots as [Hw Hf]. apply (delta_mono (keys (values full_delta))).
  - split; cbn; try done; [|by intros k ?%not_elem_of_nil|apply patches_good_nil|].
    + intros k v Hk. split; [by apply Hf|]. apply map_find_keys. by eexists.
    + intros k Hk. left. by apply map_find_keys.
  - intros k [v Hk]%map_find_keys. apply Hf in Hk as [Hk _]. apply map_find_keys. by eexists.
  - intros k. apply unchanged_rest. intros v Hv Hc. apply map_find_keys. exists v. by apply Hf.
Qed.

Lemma full_size : attribute_wire_size full_delta = Ok (23 + sum entry_size (values full_delta)).
Proof.
  destruct changed_roots as [Hw Hf]. apply (image_valid_size _ b rv false); try done.
  eapply part_valid; [exact Hnext|done|]. intros k v [Hk _]%Hf. exists v. split; [done|]. by eapply root_refl.
Qed.

Lemma sparse_state todo : map_wf todo ->
  (forall k v, map_find k todo = Some v -> map_find k next = Some v /\ changed previous (k, v) = true) ->
  forall ks u, delta_state ks u -> (forall k, k ∈ ks -> k ∉ keys todo) ->
  delta_state (ks ++ keys todo) (fold_left (sparse_step previous) todo u).
Proof.
  induction todo as [|[k v] todo IH]; intros Hw Hf ks u Hd Hks; [by rewrite app_nil_r|].
  pose proof Hw as [Lt Wt]%map_wf_cons. destruct (Hf k v) as [Hk Hch]. { cbn. by rewrite bytes_eqb_refl. }
  assert (Hnot : k ∉ ks) by (intros Hin; apply (Hks k Hin); unfold keys; rewrite fmap_cons; set_solver).
  change (ks ++ keys ((k, v) :: todo)) with (ks ++ [k] ++ keys todo). rewrite app_assoc. cbn [fold_left]. apply IH.
  - done.
  - intros k2 v2 Hk2. apply Hf. cbn [map_find]. destruct (bytes_eqb_spec k2 k) as [->|]; [|done].
    by rewrite map_find_none_lt in Hk2.
  - unfold sparse_step. cbn [fst snd]. unfold changed in Hch. cbn [fst snd] in Hch.
    destruct (map_find k previous) as [old|] eqn:Ho; cbn [mbind option_bind]; [|by apply delta_emplace].
    destruct (container_edits k old v) as [es|] eqn:Ee; [|by apply delta_emplace].
    apply negb_true_iff in Hch. destruct (root_bounded _ _ _ Hnext Hk) as [Hbk Hbv].
    destruct (root_bounded _ _ _ Hprev Ho) as [_ (So & Eo & _)].
    destruct (container_edits_good k old v es Hbk Hbv So Eo Ee) as [F G]. by eapply delta_patch.
  - intros k2 [H|H%list_elem_of_singleton]%elem_of_app.
    + intros Hin. apply (Hks k2 H). unfold keys in *. rewrite fmap_cons. set_solver.
    + subst k2. intros Hin%map_find_keys. rewrite map_find_none_lt in Hin by done. by destruct Hin.
Qed.

Definition sparse_delta : AttributeUpdate :=
  fold_left (sparse_step previous) (values full_delta) (MkUpdate b rv false [] []).

Lemma sparse_complete : delta_complete sparse_delta.
Proof.
  destruct changed_roots as [Hw Hf]. apply (delta_mono ([] ++ keys (values full_delta))).
  - apply sparse_state; [done| |apply delta_start|set_solver]. intros k v. apply Hf.
  - intros k [v Hk]%map_find_keys. apply Hf in Hk as [Hk _]. apply map_find_keys. by eexists.
  - intros k. apply unchanged_rest. intros v Hv Hc. apply map_find_keys. exists v. by apply Hf.
Qed.

(** One root of the field-path candidate. *)
Lemma fields_one ks u k v : delta_state ks u -> k ∉ ks -> map_find k next = Some v ->
  too_many (patches u) = false ->
  exists o, fields_step previous (Some u) (k, v) = Ok o /\
    forall u', o = Some u' -> delta_state (ks ++ [k]) u' /\ too_many (patches u') = false.
Proof.
  intros Hd Hk Hn Hm. unfold fields_step. cbn [fst snd]. destruct (map_find k previous) as [old|] eqn:Ho.
  2:{ eexists. split; [done|]. intros u' [= <-]. split; [by apply delta_emplace|done]. }
  destruct (value_eqb old v) eqn:Eq.
  { eexists. split; [done|]. intros u' [= <-]. split; [|done]. eapply delta_mono; [done|set_solver|].
    intros k2 Hk2 Hk3. assert (k2 = k) as -> by set_solver. rewrite Ho, Hn. by constructor. }
  destruct (root_bounded _ _ _ Hnext Hn) as [Hbk Hbv]. destruct (root_bounded _ _ _ Hprev Ho) as [_ (So & Eo & _)].
  destruct (diff_fields_total k v Hbk [] old location_nil Hbv So Eo) as (es & He & Hf). rewrite He. cbn [bind].
  pose proof Hbv as (Sv & Ev & _). pose proof (diff_fields_correct v k [] old es So Sv Eo Ev He) as Hg.
  eexists. split; [done|]. cbv zeta. set (w := match es with [] => _ | _ => _ end). intros u'.
  destruct (too_many (patches w)) eqn:Et; [done|]. intros [= <-]. split; [|done]. unfold w.
  assert (Hp := delta_patch ks u k old v es Hd Hk Ho Hn Eq Hf Hg).
  destruct es as [|p [|p2 es]]; [done| |done]. destruct (_ && _); [by apply delta_emplace|done].
Qed.

Lemma fields_state todo : forall dn u, next = dn ++ todo -> delta_state (keys dn) u -> too_many (patches u) = false ->
  exists o, fold_result (fields_step previous) todo (Some u) = Ok o /\
    forall u', o = Some u' -> delta_state (keys next) u' /\ too_many (patches u') = false.
Proof.
  induction todo as [|[k v] todo IH]; intros dn u Hdn Hd Hm.
  { eexists. split; [done|]. intros u' [= <-]. rewrite app_nil_r in Hdn. by subst dn. }
  pose proof (iv_wf _ Hnext) as Wn.
  assert (Hk : map_find k next = Some v) by (apply elem_map_find; [done|rewrite Hdn; set_solver]).
  assert (Hks : k ∉ keys dn).
  { apply map_wf_NoDup in Wn. rewrite Hdn in Wn. unfold keys in *. rewrite fmap_app, fmap_cons in Wn.
    apply NoDup_app in Wn as (_ & H & _). simpl in *. set_solver. }
  destruct (fields_one (keys dn) u k v Hd Hks Hk Hm) as ([u1|] & H1 & H2); cbn [fold_result]; rewrite H1; cbn [bind].
  - destruct (H2 u1 eq_refl) as [D1 M1]. apply (IH (dn ++ [(k, v)])); [by rewrite <- app_assoc| |done].
    unfold keys in *. by rewrite fmap_app.
  - exists None. split; [|done]. clear. induction todo; [done|]. cbn [fold_result fields_step bind]. done.
Qed.
End Delta.

(** ** attribute_delta *)

(** An encodable full image: what [EntityAttributes::snapshot] produces. *)
Definition full_image (u : AttributeUpdate) : Prop :=
  snapshot u = true /\ patches u = [] /\ struct_wf (values u) = true /\
  is_ok (attribute_wire_size u) = true.

Lemma full_image_valid u : full_image u -> image_valid (values u).
Proof.
  intros (Hs & Hp & Hw & Hn). destruct (attribute_wire_size u) as [n|] eqn:E; [|done].
  by eapply image_valid_of_size.
Qed.

(** The replacement of every changed root, without edits. *)
Definition replacements (previous next : AttributeUpdate) : AttributeUpdate :=
  full_delta (values previous) (values next) (revision previous) (revision next).

(** Some root of the previous image is gone: only a snapshot can say so. *)
Definition loses_root (previous next : AttributeUpdate) : bool :=
  existsb (fun e => negb (map_contains e.1 (values next))) (values previous).

Lemma loses_root_false previous next : map_wf (values previous) -> loses_root previous next = false ->
  forall k, k ∈ keys (values previous) -> k ∈ keys (values next).
Proof.
  intros Hw Hl k [v Hk]%map_find_keys. apply map_find_keys, map_contains_spec, not_false_iff_true.
  intros Hc. apply not_true_iff_false in Hl. apply Hl, existsb_exists. exists (k, v).
  split; [by apply list_elem_of_In, map_find_elem|]. cbn [fst]. by rewrite Hc.
Qed.

Lemma smaller_spec a b na nb : attribute_wire_size b = Ok nb -> update_ok a = true ->
  na = attribute_wire_size a ->
  exists u n, smaller (let* x := na in Ok (x <? nb)) a b = Ok u /\ (u = a \/ u = b) /\
    attribute_wire_size u = Ok n /\ n <= nb.
Proof.
  intros Hb Ha ->. rewrite (wire_size_fits a Ha). destruct (_ && _) eqn:E; cbn [bind smaller].
  - pose proof (wire_size_fits a Ha) as Hsz. rewrite E in Hsz. destruct (N.ltb_spec (size (wire_update a)) nb).
    + exists a, (size (wire_update a)). split_and!; [done|by left|done|lia].
    + exists b, nb. split_and!; [done|by right|done|lia].
  - exists b, nb. split_and!; [done|by right|done|lia].
Qed.

Section Choice.
Context (previous next : AttributeUpdate) (Hp : full_image previous) (Hn : full_image next).
Context (Hrev : revision previous <= revision next).

(** A complete delta between the two images that is no larger than the replacements. *)
Definition chosen (u : AttributeUpdate) : Prop :=
  delta_complete (values previous) (values next) (revision previous) (revision next) u /\
  exists n m, attribute_wire_size u = Ok n /\ attribute_wire_size (replacements previous next) = Ok m /\ n <= m.

Lemma container_delta_spec :
  if loses_root previous next then container_delta previous next = Ok next
  else exists u, container_delta previous next = Ok u /\ chosen u.
Proof.
  pose proof (full_image_valid _ Hp) as Vp. pose proof (full_image_valid _ Hn) as Vn.
  destruct Hp as (Sp & Pp & _), Hn as (Sn & Pn & _). unfold container_delta. rewrite Sp, Sn, Pp, Pn.
  cbn [negb orb is_empty]. fold (loses_root previous next). destruct (loses_root previous next); [done|].
  rewrite (proj2 (N.ltb_ge _ _)) by done. cbv zeta.
  assert (Hfs := full_size (values previous) _ Vn _ _ Hrev). assert (Hfc : delta_complete (values previous) (values next) (revision previous) (revision next)
    (replacements previous next)) by (by apply full_complete).
  assert (Hsc : delta_complete (values previous) (values next) (revision previous) (revision next)
    (sparse_delta (values previous) (values next) (revision previous) (revision next))) by (by apply sparse_complete).
  fold (replacements previous next) in Hfs. set (full := replacements previous next) in *. set (sparse := sparse_delta _ _ _ _) in *.
  change (exists u, (if is_empty (patches sparse) || too_many (patches sparse) then Ok full
    else let* full_size := attribute_wire_size full in
         smaller (let* n := attribute_wire_size sparse in Ok (n <? full_size)) sparse full) = Ok u /\ chosen u).
  destruct (is_empty (patches sparse) || _) eqn:E.
  - exists full. split; [done|]. split; [done|]. eexists _, _. split_and!; [exact Hfs|exact Hfs|lia].
  - apply orb_false_iff in E as [_ E]. rewrite Hfs. cbn [bind].
    destruct (smaller_spec sparse full (attribute_wire_size sparse) _ Hfs) as (u & n & -> & Hu & Hsz & Hle); [|done|].
    { apply (complete_update_ok (values previous) (values next)) with (b := revision previous) (rv := revision next)
        (ks := keys (values next)); done. }
    exists u. split; [done|]. split; [by destruct Hu as [->| ->]|]. exists n. eexists. split_and!; [exact Hsz|exact Hfs|done].
Qed.

Lemma attribute_delta_spec :
  if loses_root previous next then attribute_delta previous next = Ok next
  else exists u, attribute_delta previous next = Ok u /\ chosen u.
Proof.
  pose proof (full_image_valid _ Hp) as Vp. pose proof (full_image_valid _ Hn) as Vn.
  pose proof container_delta_spec as Hc. unfold attribute_delta. destruct (loses_root previous next).
  { rewrite Hc. cbn [bind]. destruct Hn as (-> & _). done. }
  destruct Hc as (best & -> & Hbest). pose proof Hbest as (Hd & n & m & Hsz & Hm & Hle). cbn [bind].
  rewrite (ds_snapshot _ _ _ _ _ _ Hd).
  destruct (fields_state _ _ Vp Vn (revision previous) (revision next) Hrev (values next) []
    (MkUpdate (revision previous) (revision next) false [] [])) as (o & Hfold & Ho); [done|by apply delta_start|done|].
  rewrite Hfold. cbn [bind]. destruct o as [fields|]; [|by exists best]. destruct (Ho fields eq_refl) as [Hf Ht].
  destruct (is_empty (patches fields)); [by exists best|]. rewrite Hsz. cbn [bind].
  destruct (smaller_spec fields best (attribute_wire_size fields) n Hsz) as (u & n' & Hu & Hor & Hsz' & Hle'); [|done|].
  { apply (complete_update_ok (values previous) (values next)) with (b := revision previous) (rv := revision next)
        (ks := keys (values next)); done. }
  exists u. split; [exact Hu|]. split; [by destruct Hor as [->| ->]|]. exists n', m. split_and!; [done..|lia].
Qed.
End Choice.

(** Snapshots: the replica takes the image as it is. *)
Lemma apply_image r vs b rv : b = 0 -> image_valid vs -> (initialized r = true -> replica_revision r <= rv) ->
  exists img count, apply_unbounded r (MkUpdate b rv true vs []) = Ok (true, MkReplica (Some img) rv true count) /\
    values img = vs.
Proof.
  intros -> Vn Hr. destruct (image_valid_size vs 0 rv true Vn ltac:(lia) ltac:(done)) as [_ E].
  unfold apply_unbounded, apply, apply_checks. rewrite E. cbn [bind negb andb is_empty snapshot patches revision].
  assert ((initialized r && (rv <? replica_revision r)) = false) as ->.
  { destruct (initialized r); [|done]. apply N.ltb_ge. auto. }
  unfold apply_values. cbn [snapshot values revision]. rewrite E. cbn [bind].
  pose proof (image_charge_bound vs). unfold attribute_image_bytes. rewrite fold_charge.
  pose proof (iv_size _ Vn). rewrite (proj2 (N.ltb_ge _ _)); [by eexists _, _|]. unfold limit, u64_max in *. lia.
Qed.

Lemma apply_snapshot r next : full_image next -> (initialized r = true -> replica_revision r <= revision next) ->
  exists r', apply_unbounded r next = Ok (true, r') /\ replica_values r' = values next /\
    replica_revision r' = revision next /\ initialized r' = true.
Proof.
  intros Hn Hr. pose proof (full_image_valid _ Hn) as Vn. destruct Hn as (Sn & Pn & Wn & Hs).
  destruct (attribute_wire_size next) as [n|] eqn:E; [|done]. apply wire_size_ok in E as (Hok & _).
  unfold update_ok, image_ok in Hok. destruct next as [b rv sn vs ps]. cbn in *. subst sn ps.
  apply andb_true_iff in Hok as [Hok _]. apply andb_true_iff in Hok as [Hok _]. apply andb_true_iff in Hok as [_ Hb].
  destruct (N.eqb_spec b 0) as [->|]; [|done].
  destruct (apply_image r vs 0 rv eq_refl Vn Hr) as (img & count & -> & Hi). eexists. split; [done|]. done.
Qed.

Lemma delta_converges previous next r img :
  full_image previous -> full_image next -> revision previous <= revision next ->
  initialized r = true -> replica_revision r = revision previous ->
  image r = Some img -> values img ≡ values previous ->
  exists u r', attribute_delta previous next = Ok u /\ apply_unbounded r u = Ok (true, r') /\
    replica_values r' ≡ values next /\ replica_revision r' = revision next /\ initialized r' = true.
Proof.
  intros Hp Hn Hrev Hi Hrr Himg Heq. pose proof (attribute_delta_spec _ _ Hp Hn Hrev) as Hd.
  pose proof (full_image_valid _ Hp) as Vp. pose proof (full_image_valid _ Hn) as Vn.
  destruct (loses_root previous next) eqn:El.
  - destruct (apply_snapshot r next Hn) as (r' & Ha & Hv & Hx); [intros _; lia|].
    exists next, r'. rewrite Hv. split_and!; try done; [|by destruct Hx..].
    apply struct_equiv_ext; [apply Vn..|]. intros k. destruct (map_find k (values next)) as [v|] eqn:E; constructor.
    by eapply root_refl.
  - destruct Hd as (u & Hu & Hc & n & m & Hs & _ & _).
    destruct (apply_complete _ _ Vp Vn _ _ Hrev r u n img) as (r' & Ha & Hv & Hx); try done.
    { apply loses_root_false; [apply Vp|done]. }
    exists u, r'. split_and!; try done; by destruct Hx.
Qed.

(** With a lost root or an older revision the delta is the next image itself. *)
Lemma attribute_delta_whole previous next : full_image previous -> full_image next ->
  loses_root previous next || (revision next <? revision previous) = true -> attribute_delta previous next = Ok next.
Proof.
  intros (Sp & Pp & _) (Sn & Pn & _) H. unfold attribute_delta, container_delta. rewrite Sp, Sn, Pp, Pn. cbn [negb orb is_empty].
  fold (loses_root previous next). destruct (loses_root previous next); cbn [orb bind] in *; [|rewrite H; cbn [bind]]; by rewrite Sn.
Qed.

(** C1 (refinement).  [attribute_delta] describes the step between any two encodable
    full images exactly: it always returns an update.  When the next image is not older, every
    initialized replica that holds the previous image (up to [==]) at its revision accepts that
    update and ends with the next image at the next revision, whichever of the snapshot, the
    replacements, the container edits or the field-path edits was chosen.  When the next image
    is older the update is that image whole, and the replica refuses it and stays as it was. *)
Theorem attribute_delta_converges previous next r img :
  full_image previous -> full_image next ->
  initialized r = true -> replica_revision r = revision previous ->
  image r = Some img -> values img ≡ values previous ->
  exists u, attribute_delta previous next = Ok u /\
    if revision previous <=? revision next then
      exists r', apply_unbounded r u = Ok (true, r') /\
        replica_values r' ≡ values next /\ replica_revision r' = revision next /\ initialized r' = true
    else u = next /\ apply_unbounded r u = Ok (false, r).
Proof.
  intros Hp Hn Hi Hrr Himg Heq. destruct (N.leb_spec (revision previous) (revision next)) as [Hle|Hlt].
  - destruct (delta_converges previous next r img) as (u & r' & Hu & H); try done. exists u. split; [done|]. by exists r'.
  - assert (Hold : (revision next <? revision previous) = true) by by apply N.ltb_lt.
    exists next. split; [apply attribute_delta_whole; [done..|by rewrite Hold, orb_true_r]|]. split; [done|].
    destruct Hn as (Sn & _ & _ & Hs). unfold apply_unbounded, apply, apply_checks. destruct (attribute_wire_size next); [|done]. cbn [bind].
    by rewrite Sn, Hi, Hrr, Hold.
Qed.

(** C40 (bounds).  The adaptive delta is never larger on the wire than replacing every
    changed root: the container and field-path encodings are used only when they are
    strictly smaller.  The exceptions are exactly those where replacements cannot tell the
    step, a lost root or an older revision: there the update is the next image whole. *)
Theorem attribute_delta_never_larger previous next :
  full_image previous -> full_image next ->
  exists u n, attribute_delta previous next = Ok u /\ attribute_wire_size u = Ok n /\
    if loses_root previous next || (revision next <? revision previous) then u = next
    else exists m, attribute_wire_size (replacements previous next) = Ok m /\ n <= m.
Proof.
  intros Hp Hn. destruct (loses_root previous next || _) eqn:E.
  - destruct (attribute_wire_size next) as [n|] eqn:En; [|by destruct Hn as (_ & _ & _ & Hs); rewrite En in Hs].
    exists next, n. split_and!; try done. by apply attribute_delta_whole.
  - apply orb_false_iff in E as [El Hrev]. apply N.ltb_ge in Hrev. pose proof (attribute_delta_spec _ _ Hp Hn Hrev) as Hd. rewrite El in Hd.
    destruct Hd as (u & Hu & _ & n & m & Hsn & Hsm & Hle). exists u, n. split_and!; try done. by exists m.
Qed.

(** ** Witnesses *)

Definition sample_before : AttributeUpdate := MkUpdate 0 4 true
  [(lit "bag", AMap [(lit "axe", AInt 1); (lit "rope", AInt 2)]);
   (lit "log", AArray [AInt 1; AInt 2; AInt 3]);
   (lit "stats", AStruct [(lit "hp", AInt 9); (lit "note", AStr (lit "a rather long constant description"))])] [].
Definition sample_after : AttributeUpdate := MkUpdate 0 7 true
  [(lit "bag", AMap [(lit "axe", AInt 1); (lit "lamp", AInt 5)]);
   (lit "log", AArray [AInt 1; AInt 4; AInt 2; AInt 3]);
   (lit "stats", AStruct [(lit "hp", AInt 8); (lit "note", AStr (lit "a rather long constant description"))])] [].
Definition sample_replica : AttributeReplica := MkReplica (Some sample_before) 4 true 0.

Lemma attribute_delta_converges_witness :
  exists u, attribute_delta sample_before sample_after = Ok u /\ exists r', apply_unbounded sample_replica u = Ok (true, r') /\
    replica_values r' ≡ values sample_after /\ replica_revision r' = 7 /\ initialized r' = true.
Proof.
  apply (attribute_delta_converges sample_before sample_after sample_replica sample_before);
    try (split_and!); vm_compute; done.
Defined.

Lemma attribute_delta_never_larger_witness :
  exists u n, attribute_delta sample_before sample_after = Ok u /\ attribute_wire_size u = Ok n /\
    exists m, attribute_wire_size (replacements sample_before sample_after) = Ok m /\ n <= m.
Proof.
  apply (attribute_delta_never_larger sample_before sample_after);
    try (split_and!); vm_compute; done.
Defined.

(** * Deltas survive the wire

    Every update [attribute_delta] produces from two full images of 64-bit values is of the
    shape the codec round-trips. *)

Definition wf_patches (l : list AttributePatch) : Prop := Forall (fun p => patch_wf p = true) l.

Lemma wf_patches_app a b : wf_patches a -> wf_patches b -> wf_patches (a ++ b).
Proof. intros. by apply Forall_app. Qed.

Lemma wf_erases name path l : wf_patches (map (erase_patch name path) l).
Proof. induction l; constructor; done. Qed.

Lemma wf_splice name path before after : forallb value_wf after = true -> patch_wf (sequence_splice name path before after) = true.
Proof.
  intros H. unfold patch_wf, sequence_splice. cbn. rewrite forallb_forall in H.
  assert (Hf : Forall (fun v => value_wf v = true) after) by (apply Forall_forall; intros v Hv; apply H; by apply list_elem_of_In).
  apply forallb_forall. intros v Hv%list_elem_of_In. revert v Hv. by apply Forall_forall, Forall_take, Forall_drop.
Qed.

(** A loop that appends well-formed edits. *)
Lemma wf_edits_fold {A} (f : list AttributePatch -> A -> result (list AttributePatch)) (l : list A) edits edits' :
  (forall es x es', x ∈ l -> wf_patches es -> f es x = Ok es' -> wf_patches es') -> wf_patches edits -> fold_result f l edits = Ok edits' -> wf_patches edits'.
Proof.
  revert edits. induction l as [|x l IH]; intros edits Hf He; cbn [fold_result]; [by intros [= <-]|]. intros (es & Hx & H)%bind_ok.
  eapply IH; [|eapply (Hf edits x); [by left|done|done]|done]. intros es1 y es2 Hy. apply Hf. by right.
Qed.

Lemma diff_fields_wf : forall after property path before edits,
  value_wf after = true -> diff_fields property path before after = Ok edits -> wf_patches edits.
Proof.
  intros after. induction after as [n|x|x|s|value IH|value IH|value IH] using value_ind'; intros property path before edits Hw H.
  all: cbn [diff_fields] in H; destruct (value_eqb before _); [injection H as <-; constructor|]; apply bind_ok in H as (es & He & H).
  all: apply bind_ok in H as (cost & _ & H); apply bind_ok in H as (better & _ & H).
  all: assert (Hes : wf_patches es); [|injection H as <-; destruct better; [|done]; constructor; [unfold patch_wf, replace_patch; cbn [pvalue pinsert forallb]; by rewrite Hw|constructor]].
  all: destruct (length path <? 8)%nat; [|injection He as <-; constructor]; destruct before as [n0|x0|x0|s0|old|old|old]; try (injection He as <-; constructor).
  - cbn in Hw. apply andb_true_iff in Hw as [_ Hw]. unfold struct_edits in He. destruct (_ && _); [|injection He as <-; constructor].
    eapply wf_edits_fold; [|constructor|exact He]. cbn beta. intros es1 e es2 Hin H1. destruct (too_many es1); [by intros [= <-]|].
    intros (o & _ & H2)%bind_ok. apply bind_ok in H2 as (ch & Hch & [= <-]). apply wf_patches_app; [done|].
    rewrite Forall_forall in IH. eapply (IH e Hin); [|exact Hch]. rewrite forallb_forall in Hw. apply Hw. by apply list_elem_of_In.
  - cbn in Hw. unfold array_edits in He. apply bind_ok in He as ([i es1] & He1 & He). apply bind_ok in He as (c & _ & He). apply bind_ok in He as (b & _ & [= <-]).
    assert (Hes1 : wf_patches es1); [|destruct b; [constructor; [by apply wf_splice|constructor]|done]].
    destruct (length old =? length value)%nat; [|injection He1 as _ <-; constructor].
    assert (Hgen : forall l i0 es0 i1 es2, (forall v, v ∈ l -> v ∈ value) -> wf_patches es0 -> fold_result (array_step (diff_fields property) path old value) l (i0, es0) = Ok (i1, es2) -> wf_patches es2).
    { clear -IH Hw. induction l as [|v l IHl]; intros i0 es0 i1 es2 Hsub H0; cbn [fold_result]; [by intros [= _ <-]|]. intros ([i' es'] & Hs & H)%bind_ok.
      eapply IHl; [intros u Hu; apply Hsub; by right| |exact H]. unfold array_step in Hs. destruct (_ && _); [|by injection Hs as _ <-].
      destruct (old !! i0) as [o|]; [|done]. apply bind_ok in Hs as (ch & Hch & Hs). assert (es0 ++ ch = es') as <- by congruence. apply wf_patches_app; [done|].
      rewrite Forall_forall in IH. assert (Hv : v ∈ value) by (apply Hsub; by left). eapply (IH v Hv); [|exact Hch]. rewrite forallb_forall in Hw. apply Hw. by apply list_elem_of_In. }
    eapply (Hgen value); [done|constructor|exact He1].
  - cbn in Hw. apply andb_true_iff in Hw as [_ Hw]. unfold map_edits in He. eapply wf_edits_fold; [|apply wf_erases|exact He]. cbn beta.
    intros es1 e es2 Hin H1. assert (Hwe : value_wf e.2 = true) by (rewrite forallb_forall in Hw; apply Hw; by apply list_elem_of_In).
    destruct (too_many es1); [by intros [= <-]|]. destruct (map_find e.1 old) as [o|].
    + intros (ch & Hch & [= <-])%bind_ok. apply wf_patches_app; [done|]. rewrite Forall_forall in IH. by eapply (IH e Hin).
    + intros [= <-]. apply wf_patches_app; [done|]. constructor; [|constructor]. unfold patch_wf. cbn. by rewrite Hwe.
Qed.

Lemma container_edits_wf name old v edits : value_wf v = true -> container_edits name old v = Some edits -> wf_patches edits.
Proof.
  destruct old, v; cbn [container_edits]; try done; intros Hw [= <-].
  - constructor; [|constructor]. by apply wf_splice.
  - cbn in Hw. apply andb_true_iff in Hw as [_ Hw]. apply wf_patches_app; [apply wf_erases|]. apply Forall_forall. intros p Hp.
    apply list_elem_of_In, in_map_iff in Hp as (e & <- & He). apply filter_In in He as [He _]. unfold patch_wf. cbn. rewrite forallb_forall in Hw. by rewrite (Hw e He).
Qed.

Lemma sparse_wf previous l : forallb (fun e => value_wf e.2) l = true -> forall u, wf_patches (patches u) -> wf_patches (patches (fold_left (sparse_step previous) l u)).
Proof.
  induction l as [|e l IH]; intros Hw u Hu; cbn [fold_left]; [done|]. cbn in Hw. apply andb_true_iff in Hw as [He Hw]. apply IH; [done|]. unfold sparse_step.
  destruct (map_find e.1 previous) as [old|]; cbn; [|done]. destruct (container_edits e.1 old e.2) as [edits|] eqn:E; cbn [patches]; [|done].
  apply wf_patches_app; [done|]. by eapply container_edits_wf.
Qed.

Lemma smaller_cases cost a b u : smaller cost a b = Ok u -> u = a \/ u = b.
Proof. unfold smaller. destruct cost as [[]|e]; [intros [= ->]; by left|intros [= ->]; by right|]. destruct (is_length_error e); [intros [= ->]; by right|done]. Qed.

Lemma container_delta_patches previous next u : patches next = [] -> forallb (fun e => value_wf e.2) (values next) = true ->
  container_delta previous next = Ok u -> wf_patches (patches u).
Proof.
  intros Hp Hw. unfold container_delta. destruct (_ || _); [done|]. destruct (existsb _ _); [intros [= <-]; rewrite Hp; constructor|].
  destruct (_ <? _); [intros [= <-]; rewrite Hp; constructor|]. cbv zeta. set (full := MkUpdate _ _ false _ _). set (sparse := fold_left _ _ _).
  assert (Hs : wf_patches (patches sparse)).
  { apply sparse_wf; [|constructor]. cbn. apply forallb_forall. intros e He. apply filter_In in He as [He _]. rewrite forallb_forall in Hw. by apply Hw. }
  destruct (_ || _); [intros [= <-]; constructor|]. intros (n & _ & H)%bind_ok. apply smaller_cases in H as [-> | ->]; [done|constructor].
Qed.

Lemma fields_wf previous l : forallb (fun e => value_wf e.2) l = true -> forall o o',
  (forall u, o = Some u -> wf_patches (patches u)) -> fold_result (fields_step previous) l o = Ok o' -> forall u, o' = Some u -> wf_patches (patches u).
Proof.
  induction l as [|e l IH]; intros Hw o o' Ho; cbn [fold_result]; [intros [= <-]; exact Ho|]. cbn in Hw. apply andb_true_iff in Hw as [He Hw].
  intros (o1 & Hs & H)%bind_ok. eapply IH; [done| |exact H]. clear H IH. destruct o as [u|]; cbn in Hs; [|injection Hs as <-; done]. specialize (Ho u eq_refl).
  destruct (map_find e.1 previous) as [old|]; [|injection Hs as <-; intros u' [= <-]; exact Ho]. destruct (value_eqb old e.2); [injection Hs as <-; intros u' [= <-]; exact Ho|].
  apply bind_ok in Hs as (edits & Hd & Hs). pose proof (diff_fields_wf _ _ _ _ _ He Hd) as Hed.
  match type of Hs with Ok (if too_many (patches ?n) then _ else _) = _ => assert (Hn : wf_patches (patches n)); [|destruct (too_many (patches n)); injection Hs as <-; [done|intros u' [= <-]; exact Hn]] end.
  destruct edits as [|p [|q edits]]; [by apply wf_patches_app|destruct (_ && _); [exact Ho|by apply wf_patches_app]|by apply wf_patches_app].
Qed.

Lemma struct_wf_values m : struct_wf m = true -> map_wf m /\ forallb (fun e => value_wf e.2) m = true.
Proof. unfold struct_wf. intros [H1 H2]%andb_true_iff. done. Qed.

(** The deltas of 64-bit images. *)
Lemma attribute_delta_wf previous next u : full_image previous -> full_image next -> revision previous <= revision next -> revision next < 2 ^ 64 ->
  attribute_delta previous next = Ok u -> update_wf u /\ revision u = revision next.
Proof.
  intros Hp Hn Hrev Hb H. pose proof (attribute_delta_spec _ _ Hp Hn Hrev) as Hs. destruct Hn as (Sn & Pn & Wn & Zn). destruct (struct_wf_values _ Wn) as [Mn Fn].
  destruct (loses_root previous next).
  - rewrite H in Hs. injection Hs as ->. split; [|done]. split_and!; [|done|done|by rewrite Pn].
    destruct (attribute_wire_size next) as [n|] eqn:E; [|done]. apply wire_size_ok in E as (Hok & _). unfold update_ok, image_ok in Hok. rewrite Sn in Hok.
    destruct (N.eqb_spec (base next) 0) as [->|]; [done|]. bool_prop. destruct_and?. done.
  - destruct Hs as (u' & Hu & Hc & _). rewrite H in Hu. injection Hu as <-. split; [|by apply Hc]. split_and!.
    + rewrite (ds_base _ _ _ _ _ _ Hc). lia.
    + by rewrite (ds_revision _ _ _ _ _ _ Hc).
    + unfold struct_wf. apply andb_true_iff. split; [exact (ds_wf _ _ _ _ _ _ Hc)|]. apply forallb_forall. intros [k v] Hin%list_elem_of_In.
      apply elem_map_find in Hin; [|exact (ds_wf _ _ _ _ _ _ Hc)]. apply (ds_values _ _ _ _ _ _ Hc) in Hin as [Hin _]. apply map_find_elem, list_elem_of_In in Hin.
      rewrite forallb_forall in Fn. exact (Fn _ Hin).
    + apply forallb_forall. intros p Hin%list_elem_of_In. assert (Hw : wf_patches (patches u)); [|unfold wf_patches in Hw; rewrite Forall_forall in Hw; by apply Hw].
      unfold attribute_delta in H. apply bind_ok in H as (best & Hbest & H). pose proof (container_delta_patches _ _ _ Pn Fn Hbest) as Hcb.
      destruct (snapshot best); [by injection H as <-|]. apply bind_ok in H as (o & Ho & H). destruct o as [fields|]; [|by injection H as <-].
      assert (Hf : wf_patches (patches fields)) by (eapply (fields_wf (values previous) (values next) Fn); [|exact Ho|done]; intros u0 [= <-]; constructor).
      destruct (is_empty _); [by injection H as <-|]. by apply smaller_cases in H as [-> | ->].
Qed.
