(* ===== verification/Schema.v ===== *)
(** * Entity schemas and authoritative attributes

    [include/fsnet/entity_schema.hpp] and [src/entity_schema.cpp]: caller identities,
    attribute definitions and their validation, the [EntityAttributes] carrier, and
    [stage_attribute_proposal] of [src/attribute_wire.cpp]. *)

From S2P Require Import Prelude OrderedMap Identity Values AttributeWire Replica.

(** ** Callers *)

Inductive Caller := client | server.

(** The two [std::function<bool()>] hooks are given by what a call of them does during
    the operation: return a flag or throw. *)
Record CallIdentity := MkIdentity {
  caller : Caller;
  subject : bytes;
  peer : N;
  connection : ConnectionRef;
  current : option (result bool);
  execution : option (result bool)
}.

Definition live (who : CallIdentity) : bool :=
  match current who with
  | Some (Throw _) | Some (Ok false) => false
  | _ => match execution who with
         | None => true
         | Some (Ok b) => b
         | Some (Throw _) => false
         end
  end.

Definition owns (who : CallIdentity) (owner : bytes) : bool :=
  live who && matches_key (connection who) owner.

Inductive Access := no_access | read | write | read_write.
Inductive Visibility := hidden | owner_only_view | observers.

Record RpcPolicy := MkPolicy { rpc_client : bool; rpc_server : bool; owner_only : bool }.

Definition is_server (who : CallIdentity) : bool :=
  match caller who with server => true | client => false end.

Definition allows (p : RpcPolicy) (who : CallIdentity) (owner : bytes) : bool :=
  (if is_server who then rpc_server p else rpc_client p) &&
  (if owner_only p then owns who owner else live who).

(** ** Definitions *)

Inductive AttributeType := integer | number | boolean | string | structure | array | tlist | tmap | tset.

Definition type_index (t : AttributeType) : N :=
  match t with
  | integer => 0 | number => 1 | boolean => 2 | string => 3 | structure => 4
  | array => 5 | tlist => 6 | tmap => 7 | tset => 8
  end.

#[global] Instance AttributeType_eq_dec : EqDecision AttributeType.
Proof. solve_decision. Defined.
#[global] Instance Visibility_eq_dec : EqDecision Visibility.
Proof. solve_decision. Defined.

Inductive AttributeDefinition := MkDefinition {
  dtype : AttributeType;
  initial : AttributeValue;
  server_access : Access;
  client_access : Access;
  visibility : Visibility;
  persist : bool;
  minimum : Z;
  maximum : Z;
  driver_authority : bool;
  fields : list (bytes * AttributeDefinition);
  element : option AttributeDefinition;
  dlength : N;
  max_items : N
}.

Record EntitySchema := MkSchema {
  attributes : list (bytes * AttributeDefinition);
  methods : list (bytes * RpcPolicy)
}.

Definition reads (a : Access) : bool := match a with read | read_write => true | _ => false end.
Definition writes (a : Access) : bool := match a with write | read_write => true | _ => false end.

(** ** Validation of values *)

(** A loop that stops at the first [return false]. *)
Section FoldOption.
Context {S A : Type} (f : S -> A -> option S).
Fixpoint fold_option (l : list A) (s : S) : option S :=
  match l with
  | [] => Some s
  | x :: l' => match f s x with Some s' => fold_option l' s' | None => None end
  end.
End FoldOption.

(** The pairwise test of a set. *)
Fixpoint distinct (items : list AttributeValue) : bool :=
  match items with
  | [] => true
  | x :: rest => forallb (fun y => negb (value_eqb y x)) rest && distinct rest
  end.

Definition expected_index (d : AttributeDefinition) : N :=
  match dtype d with tlist | tset => 5 | tmap => 6 | t => type_index t end.

Definition guard_some {A} (b : bool) (x : A) : option A := if b then Some x else None.

(** [valid(d, v, depth, remaining)]: the remaining node budget, or [None] for [false]. *)
Fixpoint valid (d : AttributeDefinition) (v : AttributeValue) (depth remaining : N) : option N :=
  if (8 <? depth) || (remaining =? 0) || negb (index v =? expected_index d) then None
  else
    let remaining := remaining - 1 in
    match v with
    | AInt n => guard_some ((minimum d <=? n)%Z && (n <=? maximum d)%Z) remaining
    | ANum n => guard_some (is_finite n) remaining
    | ABool _ => Some remaining
    | AStr text => guard_some (size text <=? 65536) remaining
    | AStruct fs =>
        if negb (length fs =? length (fields d))%nat then None
        else fold_option (fun r e =>
          match map_find e.1 (fields d) with
          | Some child => valid child e.2 (depth + 1) r
          | None => None
          end) fs remaining
    | AArray items =>
        match element d with
        | None => None
        | Some el =>
            let n := N.of_nat (length items) in
            if (if decide (dtype d = array) then negb (n =? dlength d) else max_items d <? n) then None
            else if bool_decide (dtype d = tset) && negb (distinct items) then None
            else fold_option (fun r child => valid el child (depth + 1) r) items remaining
        end
    | AMap entries =>
        match element d with
        | None => None
        | Some el =>
            if max_items d <? N.of_nat (length entries) then None
            else fold_option (fun r e =>
              if is_empty e.1 || (127 <? size e.1) || has_any nul e.1 then None
              else valid el e.2 (depth + 1) r) entries remaining
        end
    end.

(** [valid(d, v)]: depth 0 and a budget of its own. *)
Definition valid_root (d : AttributeDefinition) (v : AttributeValue) : bool :=
  match valid d v 0 4096 with Some _ => true | None => false end.

Definition name_valid (s : bytes) : bool :=
  negb (is_empty s) && (size s <=? 127) && negb (has_any dot_nul s) && negb (front_is x24 s).

(** ** Validation of schemas *)

Definition is_container (t : AttributeType) : bool :=
  match t with tlist | tmap | tset => true | _ => false end.

Fixpoint definition_valid (d : AttributeDefinition) (depth remaining : N) : result N :=
  throw_if (8 <? depth) || (remaining =? 0) as invalid_argument ;;
  let remaining := remaining - 1 in
  throw_if (maximum d <? minimum d)%Z as invalid_argument ;;
  throw_if negb (max_items d =? 0) && negb (is_container (dtype d)) as invalid_argument ;;
  match dtype d with
  | structure =>
      throw_if is_empty (fields d) || (64 <? N.of_nat (length (fields d))) ||
               is_some (element d) || negb (dlength d =? 0) as invalid_argument ;;
      fold_result (fun r e =>
        throw_if negb (name_valid e.1) as invalid_argument ;;
        definition_valid e.2 (depth + 1) r) (fields d) remaining
  | array =>
      match element d with
      | None => Throw invalid_argument
      | Some el =>
          throw_if negb (is_empty (fields d)) || (dlength d =? 0) || (256 <? dlength d) as invalid_argument ;;
          definition_valid el (depth + 1) remaining
      end
  | tlist | tmap | tset =>
      match element d with
      | None => Throw invalid_argument
      | Some el =>
          throw_if negb (is_empty (fields d)) || negb (dlength d =? 0) || (max_items d =? 0) ||
                   (256 <? max_items d) as invalid_argument ;;
          throw_if bool_decide (dtype d = tset) && (3 <? type_index (dtype el)) as invalid_argument ;;
          definition_valid el (depth + 1) remaining
      end
  | t =>
      throw_if negb (is_empty (fields d)) || is_some (element d) || negb (dlength d =? 0) ||
               (8 <? type_index t) as invalid_argument ;;
      Ok remaining
  end.

Definition validate_attribute (st : N * N) (e : bytes * AttributeDefinition) : result (N * N) :=
  let '(remaining, values_remaining) := st in
  let '(name, d) := e in
  let* remaining := definition_valid d 0 remaining in
  throw_if negb (name_valid name) || (maximum d <? minimum d)%Z as invalid_argument ;;
  match valid d (initial d) 0 values_remaining with
  | None => Throw invalid_argument
  | Some values_remaining =>
      throw_if negb (bool_decide (visibility d = hidden)) && negb (reads (client_access d)) as invalid_argument ;;
      Ok (remaining, values_remaining)
  end.

Definition validate (s : EntitySchema) : result unit :=
  throw_if (256 <? N.of_nat (length (attributes s))) || (256 <? N.of_nat (length (methods s))) as invalid_argument ;;
  let* _ := fold_result validate_attribute (attributes s) (4096, 4096) in
  fold_result (fun _ e =>
    throw_if negb (name_valid e.1) || (negb (rpc_client e.2) && negb (rpc_server e.2)) as invalid_argument ;;
    Ok tt) (methods s) tt.

(** ** EntityAttributes *)

Record AttributeView := MkView { observer : bool; view_connection : ConnectionRef }.

Record Mutation := MkMutation { expected : N; mvalues : AttributeStruct }.

Record EntityAttributes := MkAttributes {
  schema : EntitySchema;
  owner : bytes;
  all_values : AttributeStruct;
  attr_revision : N;
  modified : list (bytes * N)
}.

(** The constructor. *)
Definition entity_attributes (s : EntitySchema) (owner : bytes) : result EntityAttributes :=
  let* _ := validate s in
  Ok (MkAttributes s owner
        (fold_left (fun vs e => fst (map_emplace e.1 (initial e.2) vs)) (attributes s) []) 0
        (fold_left (fun ms e => fst (map_emplace e.1 0 ms)) (attributes s) [])).

Definition access_of (who : CallIdentity) (d : AttributeDefinition) : Access :=
  if is_server who then server_access d else client_access d.

(** [who.caller==Caller::server?!who.live():!who.owns(owner_)], negated. *)
Definition authorized (m : EntityAttributes) (who : CallIdentity) : bool :=
  if is_server who then live who else owns who (owner m).

(** [EntityAttributes::read] *)
Definition attribute_read (m : EntityAttributes) (name : bytes) (who : CallIdentity) : result AttributeValue :=
  let* d := map_at name (attributes (schema m)) in
  throw_if negb (reads (access_of who d)) || negb (authorized m who) ||
           (negb (is_server who) && bool_decide (visibility d = hidden)) as runtime_error ;;
  map_at name (all_values m).

Definition stage_check (m : EntityAttributes) (who : CallIdentity) (e : bytes * AttributeValue) : result unit :=
  let* d := map_at e.1 (attributes (schema m)) in
  throw_if negb (writes (access_of who d)) as runtime_error ;;
  throw_if negb (valid_root d e.2) as invalid_argument ;;
  Ok tt.

Definition stage (m : EntityAttributes) (vs : AttributeStruct) (who : CallIdentity) : result Mutation :=
  throw_if (length (attributes (schema m)) <? length vs)%nat as invalid_argument ;;
  throw_if negb (authorized m who) as runtime_error ;;
  let* _ := fold_result (fun _ e => stage_check m who e) vs tt in
  Ok (MkMutation (attr_revision m) vs).

(** [publish]'s swap loop: an exception leaves what was swapped before it. *)
Fixpoint commit_loop (next_revision : N) (prepared : AttributeStruct) (m : EntityAttributes) : result unit * EntityAttributes :=
  match prepared with
  | [] => (Ok tt, m)
  | (name, value) :: prepared =>
      match map_at name (all_values m) with
      | Throw e => (Throw e, m)
      | Ok _ =>
          let m := MkAttributes (schema m) (owner m) (map_insert name value (all_values m)) (attr_revision m) (modified m) in
          match map_at name (modified m) with
          | Throw e => (Throw e, m)
          | Ok _ => commit_loop next_revision prepared
              (MkAttributes (schema m) (owner m) (all_values m) (attr_revision m) (map_insert name next_revision (modified m)))
          end
      end
  end.

Definition prepare_one (vs : AttributeStruct) (prepared : AttributeStruct) (e : bytes * AttributeValue)
    : result AttributeStruct :=
  let* old := map_at e.1 vs in
  Ok (if value_eqb old e.2 then prepared else fst (map_emplace e.1 e.2 prepared)).

(** The checks and the copies [publish] makes before its first change. *)
Definition publish_prepare (m : EntityAttributes) (mutation : Mutation) : result AttributeStruct :=
  throw_if attr_revision m =? u64_max as overflow_error ;;
  let* _ := fold_result (fun _ e =>
    let* d := map_at e.1 (attributes (schema m)) in
    throw_if negb (valid_root d e.2) as invalid_argument ;; Ok tt) (mvalues mutation) tt in
  fold_result (prepare_one (all_values m)) (mvalues mutation) [].

(** [publish]: what it returns or throws, and the carrier after the call in either case. *)
Definition publish_effect (m : EntityAttributes) (mutation : Mutation) : result bool * EntityAttributes :=
  if negb (expected mutation =? attr_revision m) then (Ok false, m)
  else
    match publish_prepare m mutation with
    | Throw e => (Throw e, m)
    | Ok prepared =>
        if is_empty prepared then (Ok true, m)
        else
          match commit_loop (attr_revision m + 1) prepared m with
          | (Throw e, m') => (Throw e, m')
          | (Ok _, m') => (Ok true, MkAttributes (schema m') (owner m') (all_values m') (attr_revision m' + 1) (modified m'))
          end
    end.

(** [publish] for callers that abandon the carrier when it throws. *)
Definition publish (m : EntityAttributes) (mutation : Mutation) : result (bool * EntityAttributes) :=
  match publish_effect m mutation with
  | (Ok b, m') => Ok (b, m')
  | (Throw e, _) => Throw e
  end.

Definition owned (m : EntityAttributes) (view : AttributeView) : bool :=
  matches_key (view_connection view) (owner m).

Definition visible (d : AttributeDefinition) (owned observer : bool) : bool :=
  if negb (reads (client_access d)) then false
  else match visibility d with
       | owner_only_view => owned
       | observers => observer || owned
       | hidden => false
       end.

(** The filtering loop shared by [snapshot], [changes] and [persistent]. *)
Definition select (m : EntityAttributes) (keep : bytes * AttributeDefinition -> result bool)
    : result AttributeStruct :=
  fold_result (fun vs e =>
    let* k := keep e in
    if k then let* v := map_at e.1 (all_values m) in Ok (fst (map_emplace e.1 v vs))
    else Ok vs) (attributes (schema m)) [].

Definition attr_snapshot (m : EntityAttributes) (view : AttributeView) : result AttributeUpdate :=
  let is_owned := owned m view in
  let* vs := select m (fun e => Ok (visible e.2 is_owned (observer view))) in
  Ok (MkUpdate 0 (attr_revision m) true vs []).

Definition attr_changes (m : EntityAttributes) (since : N) (view : AttributeView) : result AttributeUpdate :=
  if attr_revision m <? since then attr_snapshot m view
  else
    let is_owned := owned m view in
    let* vs := select m (fun e =>
      if visible e.2 is_owned (observer view)
      then let* n := map_at e.1 (modified m) in Ok (since <? n)
      else Ok false) in
    Ok (MkUpdate since (attr_revision m) false vs []).

Definition persistent (m : EntityAttributes) : result AttributeStruct :=
  select m (fun e => Ok (persist e.2)).

(** [next.at(name) = value] *)
Definition assign_at (next : AttributeStruct) (name : bytes) (v : AttributeValue) : result AttributeStruct :=
  let* _ := map_at name next in Ok (map_insert name v next).

Definition restored (m : EntityAttributes) (next : AttributeStruct) (revision : N) : EntityAttributes :=
  MkAttributes (schema m) (owner m) next revision (map (fun e => (e.1, revision)) (modified m)).

Definition restore_full (m : EntityAttributes) (vs : AttributeStruct) (revision : N) : result EntityAttributes :=
  let* next := fold_result (fun next e =>
    let* d := map_at e.1 (attributes (schema m)) in
    throw_if negb (valid_root d e.2) as invalid_argument ;;
    assign_at next e.1 e.2) vs (all_values m) in
  Ok (restored m next revision).

Definition restore (m : EntityAttributes) (vs : AttributeStruct) (revision : N) : result EntityAttributes :=
  let* next := fold_result (fun next e =>
    let* d := map_at e.1 (attributes (schema m)) in
    throw_if negb (persist d) || negb (valid_root d e.2) as invalid_argument ;;
    assign_at next e.1 e.2) vs (all_values m) in
  Ok (restored m next revision).

(** ** stage_attribute_proposal *)

Definition stage_attribute_proposal (m : EntityAttributes) (proposal : AttributeUpdate) (who : CallIdentity)
    : result Mutation :=
  let* _ := attribute_wire_size proposal in
  throw_if AttributeWire.snapshot proposal || negb (base proposal =? attr_revision m) ||
           negb (revision proposal =? base proposal) as invalid_argument ;;
  if is_empty (patches proposal) then stage m (values proposal) who
  else
    let* roots := fold_result (fun roots patch =>
      let* v := map_at (property patch) (all_values m) in
      Ok (fst (map_emplace (property patch) v roots))) (patches proposal) (values proposal) in
    let* _ := stage m roots who in
    let* '(_, candidate) := apply_unbounded empty_replica (MkUpdate 0 (attr_revision m) true (all_values m) []) in
    let* '(applied, candidate) := apply_unbounded candidate proposal in
    throw_if negb applied as invalid_argument ;;
    let* roots := fold_result (fun acc e =>
      let* v := map_at e.1 (replica_values candidate) in Ok (acc ++ [(e.1, v)])) roots [] in
    stage m roots who.
