(* ===== verification/SchemaCorrect.v ===== *)
(** * The authoritative attributes are correct

    The type invariant of [EntityAttributes] and its preservation, what [publish],
    [snapshot] and [changes] compute, who may read and write, and the convergence of
    client replicas fed by [changes]. *)

From S2P Require Import Prelude OrderedMap Identity Values AttributeWire AttributeCodec Replica Delta Edits DiffCorrect Images DeltaCorrect Schema.

(** ** The node budget of [valid] *)

(** A test that consumes budget: a larger budget changes nothing else. *)
Definition monotone {A} (f : N -> A -> option N) (x : A) : Prop :=
  forall r r', f r x = Some r' -> r' <= r /\ forall s, r <= s -> f s x = Some (s - r + r').

Lemma fold_monotone {A} (f : N -> A -> option N) l : Forall (monotone f) l -> monotone (fun r l => fold_option f l r) l.
Proof.
  unfold monotone. induction 1 as [|x l Hx Hl IH]; intros r r'; cbn [fold_option].
  - intros [= <-]. split; [lia|]. intros s Hs. f_equal. lia.
  - destruct (f r x) as [r1|] eqn:E; [|done]. intros H. destruct (Hx _ _ E) as [L1 M1]. destruct (IH _ _ H) as [L2 M2].
    split; [lia|]. intros s Hs. rewrite (M1 s Hs), (M2 (s - r + r1)) by lia. f_equal. lia.
Qed.

Lemma monotone_after_one (f : N -> option N) r r' : r <> 0 ->
  (forall q q', f q = Some q' -> q' <= q /\ forall s, q <= s -> f s = Some (s - q + q')) ->
  f (r - 1) = Some r' -> r' <= r /\ forall s, r <= s -> f (s - 1) = Some (s - r + r').
Proof.
  intros Hr Hf H. destruct (Hf _ _ H) as [L M]. split; [lia|]. intros s Hs. rewrite (M (s - 1)) by lia. f_equal. lia.
Qed.

Lemma monotone_const (b : bool) q q' : guard_some b q = Some q' ->
  q' <= q /\ forall s, q <= s -> guard_some b s = Some (s - q + q').
Proof. unfold guard_some. destruct b; [|done]. intros [= <-]. split; [lia|]. intros s Hs. f_equal. lia. Qed.

Lemma valid_monotone v : forall d depth, monotone (fun r v => valid d v depth r) v.
Proof.
  unfold monotone. induction v as [n|x|x|s|m IH|l IH|m IH] using value_ind'; intros d depth r r'; cbn [valid];
    (destruct ((8 <? depth) || (r =? 0) || _) eqn:E; [done|]); apply orb_false_iff in E as [E Ei];
    apply orb_false_iff in E as [Ed Er]; apply N.eqb_neq in Er; intros H;
    (assert (Hg : forall s, r <= s -> (s =? 0) = false) by (intros; apply N.eqb_neq; lia));
    rewrite Ed, Ei; cbn [orb] in *; pattern (r - 1) in H;
    match type of H with (fun q => @?f q = _) (r - 1) =>
      destruct (monotone_after_one f r r' Er) as [L M];
        [clear H|exact H|split; [exact L|intros s' Hs'; rewrite (Hg s' Hs'); exact (M s' Hs')]] end;
    intros q q'; cbv beta.
  1,2,4: apply monotone_const.
  - exact (monotone_const true q q').
  - destruct (negb (length m =? _)%nat); [done|]. refine (fold_monotone _ m _ q q'). eapply Forall_impl; [exact IH|].
    intros [k c] Hc q1 q2. cbn [fst snd] in *. destruct (map_find k (fields d)) as [ch|]; [|done]. apply (Hc ch (depth + 1)).
  - destruct (element d) as [el|]; [|done]. destruct (if decide _ then _ else _); [done|]. destruct (_ && _); [done|].
    refine (fold_monotone _ l _ q q'). eapply Forall_impl; [exact IH|]. intros c Hc. exact (Hc el (depth + 1)).
  - destruct (element d) as [el|]; [|done]. destruct (max_items d <? _); [done|]. refine (fold_monotone _ m _ q q').
    eapply Forall_impl; [exact IH|]. intros [k c] Hc q1 q2. cbn [fst snd] in *. destruct (_ || _ || _); [done|].
    apply (Hc el (depth + 1)).
Qed.

Lemma valid_root_of d v r r' : valid d v 0 r = Some r' -> r <= 4096 -> valid_root d v = true /\ r' <= r.
Proof.
  intros H Hr. destruct (valid_monotone v d 0 r r' H) as [L M]. unfold valid_root. by rewrite (M 4096 Hr).
Qed.

(** [valid] respects [==]. *)
Lemma fold_option_ext {S A} (f g : S -> A -> option S) l : (forall x s, x ∈ l -> f s x = g s x) ->
  forall s, fold_option f l s = fold_option g l s.
Proof.
  induction l as [|x l IH]; intros H s; [done|]. cbn [fold_option]. rewrite (H x s) by set_solver.
  destruct (g s x); [|done]. apply IH. set_solver.
Qed.

Lemma fold_option_Forall2 {S A} (f g : S -> A -> option S) l l' : Forall2 (fun x y => forall s, f s x = g s y) l l' ->
  forall s, fold_option f l s = fold_option g l' s.
Proof. induction 1 as [|x y l l' H _ IH]; intros s; [done|]. cbn [fold_option]. rewrite H. by destruct (g s y). Qed.

Lemma value_eqb_proper a b c d : a ≡ b -> c ≡ d -> value_eqb a c = value_eqb b d.
Proof.
  intros Hab Hcd. destruct (value_eqb a c) eqn:E1, (value_eqb b d) eqn:E2; try done; exfalso.
  - assert (H : b ≡ d) by (etransitivity; [symmetry; exact Hab|]; etransitivity; [exact E1|exact Hcd]).
    change (value_eqb b d = true) in H. congruence.
  - assert (H : a ≡ c) by (etransitivity; [exact Hab|]; etransitivity; [exact E2|symmetry; exact Hcd]).
    change (value_eqb a c = true) in H. congruence.
Qed.

Lemma distinct_proper l l' : Forall2 (≡) l l' -> distinct l = distinct l'.
Proof.
  induction 1 as [|x y l l' Hx Hl IH]; [done|]. cbn [distinct]. rewrite IH. f_equal. clear IH.
  induction Hl as [|a b l l' Ha Hl IH]; [done|]. cbn [forallb]. by rewrite IH, (value_eqb_proper a b x y).
Qed.

Lemma equiv_index a b : a ≡ b -> index a = index b.
Proof. unfold equiv, value_equiv. by destruct a, b. Qed.

Lemma valid_proper a : forall b d depth r, a ≡ b -> valid d a depth r = valid d b depth r.
Proof.
  induction a as [n|x|x|s|m IH|l IH|m IH] using value_ind'; intros b d depth r H; pose proof (equiv_index _ _ H) as Hi;
    pose proof (value_equiv_inv _ _ H) as Hinv; cbn [index] in Hi; cbv iota in Hinv; try (by subst b).
  - destruct Hinv as (y & -> & E). cbn [valid index]. by rewrite (double_eqb_finite _ _ E).
  - destruct Hinv as (m' & -> & E). pose proof (struct_equiv_length _ _ E) as Hl. cbn [valid index]. rewrite Hl.
    destruct (_ || _ || _); [done|]. destruct (negb (length m' =? _)%nat); [done|]. apply struct_equiv_Forall2 in E.
    apply fold_option_Forall2. apply Forall2_same_length_lookup_2; [by eapply Forall2_length|].
    intros i [k v] [k' v'] H1 H2 q. destruct (Forall2_lookup_lr _ _ _ _ _ _ E H1 H2) as [Ek Ev]. cbn [fst snd] in *. subst k'.
    destruct (map_find k (fields d)); [|done]. exact (lookup_Forall _ _ _ _ IH H1 _ _ _ _ Ev).
  - destruct Hinv as (l' & -> & E). pose proof (Forall2_length _ _ _ E) as Hl. cbn [valid index].
    rewrite Hl, (distinct_proper _ _ E). destruct (_ || _ || _); [done|]. destruct (element d); [|done].
    destruct (if decide _ then _ else _); [done|]. destruct (_ && _); [done|].
    apply fold_option_Forall2. apply Forall2_same_length_lookup_2; [done|].
    intros i v v' H1 H2 q. exact (lookup_Forall _ _ _ _ IH H1 _ _ _ _ (Forall2_lookup_lr _ _ _ _ _ _ E H1 H2)).
  - destruct Hinv as (m' & -> & E). pose proof (struct_equiv_length _ _ E) as Hl. cbn [valid index]. rewrite Hl.
    destruct (_ || _ || _); [done|]. destruct (element d); [|done]. destruct (max_items d <? _); [done|]. apply struct_equiv_Forall2 in E.
    apply fold_option_Forall2. apply Forall2_same_length_lookup_2; [by eapply Forall2_length|].
    intros i [k v] [k' v'] H1 H2 q. destruct (Forall2_lookup_lr _ _ _ _ _ _ E H1 H2) as [Ek Ev]. cbn [fst snd] in *. subst k'.
    destruct (_ || _ || _); [done|]. exact (lookup_Forall _ _ _ _ IH H1 _ _ _ _ Ev).
Qed.

Lemma valid_root_proper d a b : a ≡ b -> valid_root d a = valid_root d b.
Proof. intros H. unfold valid_root. by rewrite (valid_proper a b). Qed.

(** ** The carrier's invariant *)

Record attrs_wf (m : EntityAttributes) : Prop := {
  aw_schema : map_wf (attributes (schema m));
  aw_values : map_wf (all_values m);
  aw_modified : map_wf (modified m);
  aw_keys : keys (all_values m) = keys (attributes (schema m));
  aw_mkeys : keys (modified m) = keys (attributes (schema m));
  aw_valid : forall k d v, map_find k (attributes (schema m)) = Some d -> map_find k (all_values m) = Some v ->
    valid_root d v = true;
  aw_bound : forall k n, map_find k (modified m) = Some n -> n <= attr_revision m;
  aw_width : attr_revision m <= u64_max
}.

Lemma wf_value m k d : attrs_wf m -> map_find k (attributes (schema m)) = Some d ->
  exists v n, map_find k (all_values m) = Some v /\ map_find k (modified m) = Some n.
Proof.
  intros W Hd. assert (Hk : k ∈ keys (attributes (schema m))) by (apply map_find_keys; by eexists).
  pose proof Hk as Hk2. rewrite <- (aw_keys _ W) in Hk. rewrite <- (aw_mkeys _ W) in Hk2.
  apply map_find_keys in Hk as [v Hv], Hk2 as [n Hn]. eauto.
Qed.

Lemma wf_definition m k : attrs_wf m -> k ∈ keys (all_values m) -> exists d, map_find k (attributes (schema m)) = Some d.
Proof. intros W. rewrite (aw_keys _ W). intros [d Hd]%map_find_keys. eauto. Qed.

(** *** Construction *)

Lemma emplace_all {A B} (f : A -> B) (l : list (bytes * A)) : forall acc : list (bytes * B),
  map_wf (acc ++ map (fun e => (e.1, f e.2)) l) ->
  fold_left (fun vs e => fst (map_emplace e.1 (f e.2) vs)) l acc = acc ++ map (fun e => (e.1, f e.2)) l.
Proof.
  induction l as [|[k a] l IH]; intros acc Hw; cbn [fold_left map fst snd] in *; [by rewrite app_nil_r|].
  rewrite (map_emplace_last k (f a) acc _ Hw). cbn [fst]. rewrite IH; by rewrite <- app_assoc.
Qed.

Lemma keys_map {A B} (f : A -> B) (l : list (bytes * A)) : keys (map (fun e => (e.1, f e.2)) l) = keys l.
Proof. unfold keys. induction l as [|[k a] l IH]; [done|]. cbn [map]. rewrite !fmap_cons. by rewrite IH. Qed.

Lemma map_wf_map {A B} (f : A -> B) (l : list (bytes * A)) : map_wf (map (fun e => (e.1, f e.2)) l) <-> map_wf l.
Proof. unfold map_wf. by rewrite (sorted_keys_ext _ l) by apply keys_map. Qed.

Lemma find_map {A B} (f : A -> B) k (l : list (bytes * A)) :
  map_find k (map (fun e => (e.1, f e.2)) l) = f <$> map_find k l.
Proof. induction l as [|[k' a] l IH]; [done|]. cbn [map map_find fst snd]. by destruct (bytes_eqb k k'). Qed.

Lemma validate_initial s : validate s = Ok tt -> Forall (fun e => valid_root e.2 (initial e.2) = true) (attributes s).
Proof.
  unfold validate. destruct (_ || _); [done|]. intros ([r vr] & Hf & _)%bind_ok.
  cut (forall l a b, fold_result validate_attribute l (a, b) = Ok (r, vr) -> b <= 4096 ->
    Forall (fun e => valid_root e.2 (initial e.2) = true) l); [intros H; eapply H; [exact Hf|lia]|].
  clear. induction l as [|[k d] l IH]; intros a b Hf Hb; [constructor|]. cbn [fold_result] in Hf.
  apply bind_ok in Hf as ([a1 b1] & H1 & H2). unfold validate_attribute in H1.
  apply bind_ok in H1 as (a' & _ & H1). destruct (_ || _); [done|].
  destruct (valid d (initial d) 0 b) as [b'|] eqn:E; [|done]. destruct (_ && _); [done|]. injection H1 as -> ->.
  destruct (valid_root_of _ _ _ _ E Hb) as [Hv Hle]. constructor; [done|]. eapply IH; [exact H2|lia].
Qed.

Lemma construct_wf s o m : map_wf (attributes s) -> entity_attributes s o = Ok m -> attrs_wf m.
Proof.
  intros Ws. unfold entity_attributes. intros ([] & Hv & [= <-])%bind_ok.
  apply validate_initial in Hv. rewrite Forall_forall in Hv.
  rewrite (emplace_all initial) by (by apply (map_wf_map initial)).
  rewrite (emplace_all (fun _ => 0)) by (by apply (map_wf_map (fun _ => 0))).
  split; cbn [schema all_values modified attr_revision app];
    rewrite ?(keys_map initial), ?(keys_map (fun _ => 0)), ?(map_wf_map initial), ?(map_wf_map (fun _ => 0)); try done.
  - intros k d v Hd. rewrite find_map, Hd. intros [= <-]. exact (Hv _ (map_find_elem _ _ _ Hd)).
  - intros k n. rewrite (find_map (fun _ => 0)). destruct (map_find k (attributes s)); [|done]. by intros [= <-].
Qed.

(** *** Assignments *)

(** The loops that assign existing keys one after the other. *)
Lemma insert_all_keys (changed old : AttributeStruct) : map_wf old -> (forall k, k ∈ keys changed -> k ∈ keys old) ->
  keys (insert_all changed old) = keys old.
Proof.
  revert old. induction changed as [|[k v] c IH]; intros old Ho Hk; [done|].
  assert (Hin : k ∈ keys old) by (apply Hk; unfold keys; rewrite fmap_cons; set_solver).
  unfold insert_all. cbn [fold_left fst snd]. fold (insert_all c (map_insert k v old)).
  pose proof (keys_insert k v old Ho Hin) as E. rewrite IH; [done|by apply map_wf_insert|].
  intros k2 Hk2. rewrite E. apply Hk. unfold keys in *. rewrite fmap_cons. set_solver.
Qed.

Definition mark_all (n : N) (changed : AttributeStruct) (ms : list (bytes * N)) : list (bytes * N) :=
  fold_left (fun ms e => map_insert e.1 n ms) changed ms.

Lemma mark_all_spec n changed : forall ms, map_wf ms -> (forall k, k ∈ keys changed -> k ∈ keys ms) ->
  map_wf (mark_all n changed ms) /\ keys (mark_all n changed ms) = keys ms /\
  forall k, map_find k (mark_all n changed ms) = if decide (k ∈ keys changed) then Some n else map_find k ms.
Proof.
  induction changed as [|[k v] c IH]; intros ms Hm Hk.
  { split_and!; [done|done|]. intros k. rewrite decide_False; [done|]. apply not_elem_of_nil. }
  assert (Hin : k ∈ keys ms) by (apply Hk; unfold keys; rewrite fmap_cons; set_solver).
  pose proof (keys_insert k n ms Hm Hin) as E. unfold mark_all. cbn [fold_left fst]. fold (mark_all n c (map_insert k n ms)).
  destruct (IH (map_insert k n ms)) as (W & K & F); [by apply map_wf_insert| |].
  { intros k2 Hk2. rewrite E. apply Hk. unfold keys in *. rewrite fmap_cons. set_solver. }
  rewrite E in K. split_and!; [done|done|]. intros k2. rewrite F. unfold keys. rewrite fmap_cons. cbn [fst].
  destruct (decide (k2 ∈ c.*1)) as [H1|H1]; [rewrite decide_True by set_solver; done|].
  destruct (bytes_eqb_spec k2 k) as [->|Hne]; [rewrite decide_True by set_solver; apply map_find_insert|].
  rewrite decide_False by set_solver. by apply map_find_insert_ne.
Qed.

Lemma commit_all n changed : forall m, map_wf (all_values m) -> map_wf (modified m) ->
  (forall k, k ∈ keys changed -> k ∈ keys (all_values m) /\ k ∈ keys (modified m)) ->
  commit_loop n changed m = (Ok tt, MkAttributes (schema m) (owner m) (insert_all changed (all_values m)) (attr_revision m) (mark_all n changed (modified m))).
Proof.
  induction changed as [|[k v] c IH]; intros m Wv Wm Hk; [by destruct m|].
  destruct (Hk k) as [Hv Hm]; [unfold keys; rewrite fmap_cons; set_solver|].
  pose proof (keys_insert k v _ Wv Hv) as E1. pose proof (keys_insert k n _ Wm Hm) as E2.
  cbn [commit_loop]. unfold map_at. apply map_find_keys in Hv as [v0 ->], Hm as [n0 Hm]. cbn [all_values modified schema owner attr_revision]. rewrite Hm.
  rewrite IH; [done|by apply map_wf_insert|by apply map_wf_insert|]. cbn [all_values modified]. intros k2 Hk2. rewrite E1, E2.
  apply Hk. unfold keys in *. rewrite fmap_cons. set_solver.
Qed.

Lemma prepare_all vs todo : forall prepared, map_wf (prepared ++ todo) -> (forall k, k ∈ keys todo -> k ∈ keys vs) ->
  fold_result (prepare_one vs) todo prepared = Ok (prepared ++ List.filter (changed vs) todo).
Proof.
  induction todo as [|[k v] todo IH]; intros prepared Hw Hk; [by rewrite app_nil_r|].
  assert (Hin : k ∈ keys vs) by (apply Hk; unfold keys; rewrite fmap_cons; set_solver).
  apply map_find_keys in Hin as [o Ho]. cbn [fold_result]. unfold prepare_one at 1. unfold map_at. cbn [fst snd].
  rewrite Ho. cbn [bind List.filter]. unfold changed at 1. cbn [fst snd]. rewrite Ho.
  assert (Hrest : forall k2, k2 ∈ keys todo -> k2 ∈ keys vs).
  { intros k2 H. apply Hk. unfold keys in *. rewrite fmap_cons. set_solver. }
  destruct (value_eqb o v); cbn [negb].
  - apply IH; [|done]. apply map_wf_app in Hw as (W1 & W2 & W3). apply map_wf_cons in W2 as [_ W2].
    apply map_wf_app. split_and!; [done|done|]. eapply Forall_impl; [exact W3|]. intros e He. by apply Forall_cons in He as [_ He].
  - rewrite (map_emplace_last k v prepared todo Hw). cbn [fst]. rewrite IH; [by rewrite <- app_assoc|by rewrite <- app_assoc|done].
Qed.

(** *** publish *)

Definition known_valid (m : EntityAttributes) (e : bytes * AttributeValue) : Prop :=
  exists d, map_find e.1 (attributes (schema m)) = Some d /\ valid_root d e.2 = true.

Lemma publish_checks m vs :
  fold_result (fun _ e => let* d := map_at e.1 (attributes (schema m)) in
    throw_if negb (valid_root d e.2) as invalid_argument ;; Ok tt) vs tt = Ok tt <-> Forall (known_valid m) vs.
Proof.
  induction vs as [|[k v] vs IH]; cbn [fold_result]; [split; [constructor|done]|].
  rewrite Forall_cons. unfold known_valid at 1, map_at at 1. cbn [fst snd].
  destruct (map_find k (attributes (schema m))) as [d|]; cbn [bind]; [|split; [done|by intros [(? & ? & _) _]]].
  destruct (valid_root d v) eqn:E; cbn [negb bind]; [rewrite IH; naive_solver|split; [done|]]. intros [(d' & [= <-] & H) _].
  congruence.
Qed.

(** The checks throw nothing else. *)
Lemma publish_checks_throw m vs e :
  fold_result (fun _ e => let* d := map_at e.1 (attributes (schema m)) in
    throw_if negb (valid_root d e.2) as invalid_argument ;; Ok tt) vs tt = Throw e -> e = invalid_argument \/ e = out_of_range.
Proof.
  induction vs as [|[k v] vs IH]; cbn [fold_result]; [done|]. unfold map_at at 1. cbn [fst snd].
  destruct (map_find k (attributes (schema m))) as [d|]; cbn [bind]; [|intros [= <-]; by right].
  destruct (valid_root d v); cbn [negb bind]; [exact IH|]. intros [= <-]. by left.
Qed.

(** The carrier after a successful [publish]. *)
Definition published_state (m : EntityAttributes) (vs : AttributeStruct) : EntityAttributes :=
  let prepared := List.filter (changed (all_values m)) vs in
  if is_empty prepared then m
  else MkAttributes (schema m) (owner m) (insert_all prepared (all_values m)) (attr_revision m + 1)
         (mark_all (attr_revision m + 1) prepared (modified m)).

Lemma known_keys m vs : attrs_wf m -> Forall (known_valid m) vs ->
  forall k, k ∈ keys vs -> k ∈ keys (all_values m) /\ k ∈ keys (modified m).
Proof.
  intros W H k Hk. rewrite (aw_keys _ W), (aw_mkeys _ W). rewrite Forall_forall in H. unfold keys in Hk.
  apply list_elem_of_fmap in Hk as (e & -> & He). destruct (H e He) as (d & Hd & _).
  assert (e.1 ∈ keys (attributes (schema m))) by (apply map_find_keys; by eexists). done.
Qed.

Lemma filter_keys (f : bytes * AttributeValue -> bool) vs k : k ∈ keys (List.filter f vs) -> k ∈ keys vs.
Proof.
  unfold keys. intros (e & -> & He)%list_elem_of_fmap. apply list_elem_of_In, filter_In in He as [He _].
  apply list_elem_of_fmap. exists e. split; [done|]. by apply list_elem_of_In.
Qed.

Lemma publish_effect_success m mu : attrs_wf m -> map_wf (mvalues mu) -> expected mu = attr_revision m ->
  attr_revision m < u64_max -> Forall (known_valid m) (mvalues mu) ->
  publish_effect m mu = (Ok true, published_state m (mvalues mu)).
Proof.
  intros W Wv He Hr Hk. unfold publish_effect, publish_prepare. rewrite He, N.eqb_refl, (proj2 (N.eqb_neq _ _)) by lia. cbn [negb].
  rewrite (proj2 (publish_checks m _) Hk). cbn [bind]. pose proof (known_keys _ _ W Hk) as Hkeys.
  rewrite (prepare_all (all_values m) (mvalues mu) []); [|done|intros k H; by apply Hkeys]. cbn [bind app].
  unfold published_state. cbv zeta. destruct (is_empty _); [done|].
  rewrite commit_all; [done|apply W..|]. intros k H. apply Hkeys. by eapply filter_keys.
Qed.

Lemma publish_success m mu : attrs_wf m -> map_wf (mvalues mu) -> expected mu = attr_revision m ->
  attr_revision m < u64_max -> Forall (known_valid m) (mvalues mu) ->
  publish m mu = Ok (true, published_state m (mvalues mu)).
Proof. intros. unfold publish. by rewrite publish_effect_success. Qed.

Lemma publish_effect_invalid m mu : expected mu = attr_revision m -> attr_revision m < u64_max -> ~ Forall (known_valid m) (mvalues mu) ->
  exists e, (e = invalid_argument \/ e = out_of_range) /\ publish_effect m mu = (Throw e, m).
Proof.
  intros He Hr Hk. unfold publish_effect, publish_prepare. rewrite He, N.eqb_refl, (proj2 (N.eqb_neq _ _)) by lia. cbn [negb].
  destruct (fold_result _ (mvalues mu) tt) as [[]|e] eqn:E; [by apply publish_checks in E|]. cbn [bind]. exists e. split; [by eapply publish_checks_throw|done].
Qed.

Lemma publish_inv m mu b m' : attrs_wf m -> map_wf (mvalues mu) -> publish m mu = Ok (b, m') ->
  (b = false /\ m' = m /\ expected mu <> attr_revision m) \/
  (b = true /\ expected mu = attr_revision m /\ attr_revision m < u64_max /\ Forall (known_valid m) (mvalues mu) /\
   m' = published_state m (mvalues mu)).
Proof.
  intros W Wv H. destruct (N.eqb_spec (expected mu) (attr_revision m)) as [He|He].
  - right. assert (Hk : attr_revision m < u64_max /\ Forall (known_valid m) (mvalues mu)).
    { revert H. unfold publish, publish_effect, publish_prepare. rewrite He, N.eqb_refl. cbn [negb]. destruct (N.eqb_spec (attr_revision m) u64_max); [done|].
      pose proof (aw_width _ W). destruct (fold_result _ (mvalues mu) tt) as [[]|] eqn:E; [|done]. intros _. split; [lia|by apply publish_checks]. }
    destruct Hk as [Hr Hk]. rewrite publish_success in H by done. by injection H as <- <-.
  - left. revert H. unfold publish, publish_effect. rewrite (proj2 (N.eqb_neq _ _)) by done. cbn [negb]. by intros [= <- <-].
Qed.

Lemma published_find m vs k : attrs_wf m -> map_wf vs -> Forall (known_valid m) vs ->
  map_find k (all_values (published_state m vs)) =
    match map_find k vs with
    | Some v => if changed (all_values m) (k, v) then Some v else map_find k (all_values m)
    | None => map_find k (all_values m)
    end.
Proof.
  intros W Wv Hk. unfold published_state. cbv zeta. set (p := List.filter _ _).
  assert (Wp : map_wf p) by (by apply map_wf_filter).
  assert (Hp : over k (all_values m) p = match map_find k vs with
    | Some v => if changed (all_values m) (k, v) then Some v else map_find k (all_values m)
    | None => map_find k (all_values m) end).
  { unfold over. destruct (map_find k p) as [v|] eqn:E.
    - apply map_find_filter in E as [-> E]; [|done]. by rewrite E.
    - destruct (map_find k vs) as [v|] eqn:Ev; [|done]. destruct (changed (all_values m) (k, v)) eqn:Ec; [|done].
      assert (map_find k p = Some v) by (by apply map_find_filter). congruence. }
  destruct (is_empty p) eqn:E; cbn [all_values]; [|by rewrite insert_all_find].
  apply is_empty_true in E. unfold over in Hp. by rewrite E in Hp.
Qed.

Lemma published_modified m vs k : attrs_wf m -> map_wf vs -> Forall (known_valid m) vs ->
  map_find k (modified (published_state m vs)) =
    match map_find k vs with
    | Some v => if changed (all_values m) (k, v) then Some (attr_revision m + 1) else map_find k (modified m)
    | None => map_find k (modified m)
    end.
Proof.
  intros W Wv Hk. unfold published_state. cbv zeta. set (p := List.filter _ _).
  assert (Hin : k ∈ keys p <-> exists v, map_find k vs = Some v /\ changed (all_values m) (k, v) = true).
  { rewrite <- map_find_keys. split.
    - intros [v Hv]. apply map_find_filter in Hv; [|done]. eauto.
    - intros (v & Hv). exists v. by apply map_find_filter. }
  assert (Hgoal : (if decide (k ∈ keys p) then Some (attr_revision m + 1) else map_find k (modified m)) =
    match map_find k vs with
    | Some v => if changed (all_values m) (k, v) then Some (attr_revision m + 1) else map_find k (modified m)
    | None => map_find k (modified m) end).
  { destruct (decide (k ∈ keys p)) as [H|H]; rewrite Hin in H.
    - destruct H as (v & -> & ->). done.
    - destruct (map_find k vs) as [v|]; [|done]. destruct (changed (all_values m) (k, v)) eqn:E; [|done]. exfalso. eauto. }
  destruct (is_empty p) eqn:E; cbn [modified].
  - apply is_empty_true in E. rewrite E in Hgoal. rewrite <- Hgoal. rewrite decide_False; [done|]. apply not_elem_of_nil.
  - destruct (mark_all_spec (attr_revision m + 1) p (modified m)) as (_ & _ & ->); [apply W| |done].
    intros k2 H. eapply known_keys; [done|exact Hk|]. by eapply filter_keys.
Qed.

Lemma published_wf m vs : attrs_wf m -> map_wf vs -> Forall (known_valid m) vs -> attr_revision m < u64_max ->
  attrs_wf (published_state m vs).
Proof.
  intros W Wv Hk Hr. pose proof (published_find m vs) as Hf. pose proof (published_modified m vs) as Hm.
  assert (Hkeys : forall k, k ∈ keys (List.filter (changed (all_values m)) vs) -> k ∈ keys (all_values m) /\ k ∈ keys (modified m)).
  { intros k H. eapply known_keys; [done|exact Hk|]. by eapply filter_keys. }
  unfold published_state in *. cbv zeta in *. destruct (is_empty _) eqn:E; [done|].
  destruct (mark_all_spec (attr_revision m + 1) (List.filter (changed (all_values m)) vs) (modified m))
    as (Wm & Km & _); [apply W|intros k H; by apply Hkeys|].
  split; cbn [schema all_values modified attr_revision] in *; try done; try apply W.
  - apply insert_all_wf, W.
  - rewrite insert_all_keys; [apply W|apply W|]. intros k H. by apply Hkeys.
  - rewrite Km. apply W.
  - intros k d v Hd. rewrite (Hf k W Wv Hk). destruct (map_find k vs) as [w|] eqn:Ew; [|by apply (aw_valid _ W)].
    destruct (changed _ _); [|by apply (aw_valid _ W)]. intros [= <-]. rewrite Forall_forall in Hk.
    destruct (Hk _ (map_find_elem _ _ _ Ew)) as (d' & Hd' & Hv). cbn [fst snd] in *. congruence.
  - intros k n. rewrite (Hm k W Wv Hk). destruct (map_find k vs); [destruct (changed _ _)|].
    + intros [= <-]. lia.
    + intros H%(aw_bound _ W). lia.
    + intros H%(aw_bound _ W). lia.
  - lia.
Qed.

(** *** restore *)

Lemma restored_wf m vs next rv (ok : AttributeDefinition -> bool) : attrs_wf m -> rv <= u64_max ->
  fold_result (fun next e => let* d := map_at e.1 (attributes (schema m)) in
    throw_if negb (ok d) || negb (valid_root d e.2) as invalid_argument ;; assign_at next e.1 e.2) vs (all_values m) = Ok next ->
  attrs_wf (restored m next rv).
Proof.
  intros W Hr Hf.
  set (P := fun next : AttributeStruct => map_wf next /\ keys next = keys (attributes (schema m)) /\
    forall k d v, map_find k (attributes (schema m)) = Some d -> map_find k next = Some v -> valid_root d v = true).
  assert (HP : P next).
  { eapply (fold_result_inv _ P); [|clear Hf|exact Hf]; [split_and!; apply W|].
    intros [k v] s1 s2 _ (W1 & K1 & V1) (d & Hd & H)%bind_ok. cbn [fst snd] in *. unfold map_at in Hd.
    destruct (map_find k (attributes (schema m))) as [d0|] eqn:E; [|done]. injection Hd as ->.
    destruct (_ || _) eqn:Ev; [done|]. apply orb_false_iff in Ev as [_ Ev%negb_false_iff].
    unfold assign_at in H. apply bind_ok in H as (w & Hw & [= <-]). assert (Hin : k ∈ keys s1).
    { rewrite K1. apply map_find_keys. by eexists. }
    split_and!; [by apply map_wf_insert|by rewrite keys_insert|]. intros k2 d2 v2 Hd2.
    destruct (bytes_eqb_spec k2 k) as [->|]; [rewrite map_find_insert|rewrite map_find_insert_ne by done]; [|by apply V1].
    intros [= <-]. congruence. }
  destruct HP as (W1 & K1 & V1). unfold restored. split; cbn [schema all_values modified attr_revision]; try done.
  - apply W.
  - apply (map_wf_map (fun _ => rv)), W.
  - rewrite (keys_map (fun _ => rv)). apply W.
  - intros k n. rewrite (find_map (fun _ => rv)). destruct (map_find k (modified m)); [|done]. by intros [= <-].
Qed.

Lemma restore_wf m vs rv m' : attrs_wf m -> rv <= u64_max -> restore m vs rv = Ok m' -> attrs_wf m'.
Proof. intros W Hr (next & Hf & [= <-])%bind_ok. by eapply (restored_wf m vs next rv persist). Qed.

Lemma restore_full_wf m vs rv m' : attrs_wf m -> rv <= u64_max -> restore_full m vs rv = Ok m' -> attrs_wf m'.
Proof. intros W Hr (next & Hf & [= <-])%bind_ok. by eapply (restored_wf m vs next rv (fun _ => true)). Qed.

(** *** The filtering loop *)

Definition selected (m : EntityAttributes) (keep : AttributeDefinition -> bytes -> bool)
    (l : list (bytes * AttributeDefinition)) : AttributeStruct :=
  flat_map (fun e => if keep e.2 e.1 then match map_find e.1 (all_values m) with
    | Some v => [(e.1, v)] | None => [] end else []) l.

Lemma selected_lt m keep l k : Forall (fun e => bytes_lt k e.1) l -> Forall (fun e => bytes_lt k e.1) (selected m keep l).
Proof.
  induction 1 as [|[k' d] l Hk Hl IH]; [constructor|]. unfold selected in *. cbn [flat_map fst snd].
  destruct (keep d k'); [|done]. destruct (map_find k' (all_values m)); [|done]. by constructor.
Qed.

Lemma selected_wf m keep l : map_wf l -> map_wf (selected m keep l).
Proof.
  induction l as [|[k d] l IH]; [done|]. intros [Lt Wl]%map_wf_cons. unfold selected in *. cbn [flat_map fst snd].
  destruct (keep d k); [|auto]. destruct (map_find k (all_values m)) as [v|]; [|auto].
  apply map_wf_cons. split; [|auto]. by apply selected_lt.
Qed.

Lemma selected_find m keep l k : map_wf l ->
  map_find k (selected m keep l) =
    match map_find k l with Some d => if keep d k then map_find k (all_values m) else None | None => None end.
Proof.
  induction l as [|[k' d] l IH]; [done|]. intros [Lt Wl]%map_wf_cons. specialize (IH Wl). unfold selected in *.
  cbn [flat_map map_find fst snd]. destruct (bytes_eqb_spec k k') as [->|Hne].
  - assert (Hn : map_find k' (selected m keep l) = None) by (apply map_find_none_lt; by apply selected_lt).
    unfold selected in Hn. destruct (keep d k'); [|done]. destruct (map_find k' (all_values m)) as [v|] eqn:E; [|by rewrite app_nil_l].
    cbn [app map_find]. by rewrite bytes_eqb_refl.
  - destruct (keep d k'); [|exact IH]. destruct (map_find k' (all_values m)) as [v|]; [|exact IH].
    cbn [app map_find]. by rewrite (proj2 (bytes_eqb_neq k k')).
Qed.

Lemma select_ok m keep keepb : attrs_wf m ->
  (forall e, e ∈ attributes (schema m) -> keep e = Ok (keepb e.2 e.1)) ->
  select m keep = Ok (selected m keepb (attributes (schema m))).
Proof.
  intros W Hkeep. unfold select. pose proof (aw_schema _ W) as Ws.
  cut (forall todo dn, attributes (schema m) = dn ++ todo ->
    fold_result (fun vs e => let* k := keep e in if k then let* v := map_at e.1 (all_values m) in
      Ok (fst (map_emplace e.1 v vs)) else Ok vs) todo (selected m keepb dn) = Ok (selected m keepb (attributes (schema m)))).
  { intros H. exact (H (attributes (schema m)) [] eq_refl). }
  induction todo as [|[k d] todo IH]; intros dn Hdn; [by rewrite app_nil_r in Hdn; subst dn|].
  assert (Hin : (k, d) ∈ attributes (schema m)) by (rewrite Hdn; set_solver).
  cbn [fold_result]. rewrite (Hkeep _ Hin). cbn [bind fst snd].
  specialize (IH (dn ++ [(k, d)])). rewrite <- app_assoc in IH. specialize (IH Hdn).
  assert (Hs : selected m keepb (dn ++ [(k, d)]) = selected m keepb dn ++ selected m keepb [(k, d)])
    by (unfold selected; by rewrite flat_map_app).
  destruct (wf_value m k d W) as (v & n & Hv & _); [by apply elem_map_find|].
  assert (H1 : selected m keepb [(k, d)] = if keepb d k then [(k, v)] else []).
  { unfold selected. cbn [flat_map fst snd]. rewrite Hv, app_nil_r. done. }
  rewrite Hs, H1 in IH. destruct (keepb d k).
  - unfold map_at. rewrite Hv. cbn [bind].
    rewrite (map_emplace_last k v (selected m keepb dn) []); [exact IH|].
    rewrite <- H1, <- Hs. apply selected_wf. rewrite Hdn in Ws. replace (dn ++ (k, d) :: todo) with ((dn ++ [(k, d)]) ++ todo) in Ws
      by (by rewrite <- app_assoc). by apply map_wf_app in Ws as (? & _).
  - cbn [bind]. by rewrite app_nil_r in IH.
Qed.

(** What a view shows. *)
Definition sees (m : EntityAttributes) (view : AttributeView) (d : AttributeDefinition) : bool :=
  visible d (owned m view) (observer view).

Lemma snapshot_ok m view : attrs_wf m ->
  attr_snapshot m view = Ok (MkUpdate 0 (attr_revision m) true
    (selected m (fun d _ => sees m view d) (attributes (schema m))) []).
Proof. intros W. unfold attr_snapshot. by rewrite (select_ok m _ (fun d _ => sees m view d) W). Qed.

Definition fresh (m : EntityAttributes) (since : N) (k : bytes) : bool :=
  match map_find k (modified m) with Some n => since <? n | None => false end.

Lemma changes_ok m since view : attrs_wf m -> since <= attr_revision m ->
  attr_changes m since view = Ok (MkUpdate since (attr_revision m) false
    (selected m (fun d k => sees m view d && fresh m since k) (attributes (schema m))) []).
Proof.
  intros W Hs. unfold attr_changes. rewrite (proj2 (N.ltb_ge _ _)) by done.
  rewrite (select_ok m _ (fun d k => sees m view d && fresh m since k) W); [done|].
  intros [k d] Hin. cbn [fst snd]. unfold sees. destruct (visible _ _ _); [|done]. unfold map_at, fresh.
  destruct (wf_value m k d W) as (v & n & _ & Hn); [apply elem_map_find; [apply W|done]|]. by rewrite Hn.
Qed.

(** ** Reachable carriers *)

Inductive reachable : EntityAttributes -> Prop :=
  | reach_new s o m : map_wf (attributes s) -> entity_attributes s o = Ok m -> reachable m
  | reach_publish m mu b m' : reachable m -> map_wf (mvalues mu) -> publish m mu = Ok (b, m') -> reachable m'
  | reach_restore m vs rv m' : reachable m -> rv <= u64_max -> restore m vs rv = Ok m' -> reachable m'
  | reach_restore_full m vs rv m' : reachable m -> rv <= u64_max -> restore_full m vs rv = Ok m' -> reachable m'.

(** C28 (invariant).  Every [EntityAttributes] reachable by construction, publication and
    restoration keeps its type invariant: values and modification revisions exist for
    exactly the schema's attributes, every value is valid for its definition, and no
    attribute was modified after the current revision. *)
Theorem attributes_invariant m : reachable m -> attrs_wf m.
Proof.
  induction 1 as [s o m Hw H|m mu b m' _ W Hmu H|m vs rv m' _ W Hr H|m vs rv m' _ W Hr H].
  - by eapply construct_wf.
  - apply publish_inv in H as [(-> & -> & _)|(-> & _ & Hr & Hk & ->)]; [done| |done|done]. by apply published_wf.
  - by eapply restore_wf.
  - by eapply restore_full_wf.
Qed.

(** C29 (error).  [publish] is all or nothing, whatever it is given.  A stale mutation returns
    [false], a carrier at the last revision and a mutation with an unknown name or an invalid
    value throw, and each leaves the carrier as it was; a current one whose values are valid
    returns [true], and then each attribute it names has the new value (or already had an equal
    one), every other attribute is untouched, exactly the changed attributes carry the new
    revision, and the revision advances only when something changed. *)
Theorem publish_all_or_nothing m mu :
  attrs_wf m -> map_wf (mvalues mu) ->
  (expected mu <> attr_revision m -> publish_effect m mu = (Ok false, m)) /\
  (expected mu = attr_revision m -> attr_revision m = u64_max -> publish_effect m mu = (Throw overflow_error, m)) /\
  (expected mu = attr_revision m -> attr_revision m < u64_max -> ~ Forall (known_valid m) (mvalues mu) ->
   exists e, (e = invalid_argument \/ e = out_of_range) /\ publish_effect m mu = (Throw e, m)) /\
  (expected mu = attr_revision m -> attr_revision m < u64_max -> Forall (known_valid m) (mvalues mu) ->
   exists m', publish_effect m mu = (Ok true, m') /\ attrs_wf m' /\ schema m' = schema m /\ owner m' = owner m /\
     attr_revision m' = attr_revision m + (if existsb (changed (all_values m)) (mvalues mu) then 1 else 0) /\
     forall k,
       map_find k (all_values m') = match map_find k (mvalues mu) with
         | Some v => if changed (all_values m) (k, v) then Some v else map_find k (all_values m)
         | None => map_find k (all_values m) end /\
       map_find k (modified m') = match map_find k (mvalues mu) with
         | Some v => if changed (all_values m) (k, v) then Some (attr_revision m + 1) else map_find k (modified m)
         | None => map_find k (modified m) end).
Proof.
  intros W Wv. split; [|split; [|split; [apply publish_effect_invalid|]]].
  - intros He. unfold publish_effect. by rewrite (proj2 (N.eqb_neq _ _)).
  - intros He Hm. unfold publish_effect, publish_prepare. by rewrite He, N.eqb_refl, Hm.
  - intros He Hr Hk. exists (published_state m (mvalues mu)).
    assert (Hx : existsb (changed (all_values m)) (mvalues mu) = negb (is_empty (List.filter (changed (all_values m)) (mvalues mu)))).
    { clear. induction (mvalues mu) as [|e l IH]; [done|]. cbn [existsb List.filter]. by destruct (changed _ e). }
    split_and!; [by apply publish_effect_success|by apply published_wf|..].
    1-3: unfold published_state; cbv zeta; rewrite ?Hx; destruct (is_empty _); cbn; try done; lia.
    intros k. split; [by apply published_find|by apply published_modified].
Qed.

(** ** Incremental changes *)

(** A carrier that evolved by publications only. *)
Inductive evolves (a : EntityAttributes) : EntityAttributes -> Prop :=
  | evolves_refl : evolves a a
  | evolves_step m mu b m' : evolves a m -> map_wf (mvalues mu) -> publish m mu = Ok (b, m') -> evolves a m'.

Lemma evolves_spec a b : attrs_wf a -> evolves a b ->
  attrs_wf b /\ schema b = schema a /\ owner b = owner a /\ attr_revision a <= attr_revision b /\
  forall k n, map_find k (modified b) = Some n -> n <= attr_revision a ->
    map_find k (all_values b) = map_find k (all_values a).
Proof.
  intros Wa. induction 1 as [|m mu b m' _ IH Wmu H]; [by split_and!|].
  destruct IH as (W & Hs & Ho & Hr & Hv). apply publish_inv in H as [(-> & -> & _)|(-> & _ & Hlt & Hk & ->)]; try done.
  split_and!; [by apply published_wf|..].
  1-3: unfold published_state; cbv zeta; destruct (is_empty _); cbn; try done; lia.
  intros k n. rewrite published_modified, published_find by done. destruct (map_find k (mvalues mu)) as [v|]; [|apply Hv].
  destruct (changed (all_values m) (k, v)); [|apply Hv]. intros [= <-]. lia.
Qed.

Lemma changes_complete a b view : attrs_wf a -> evolves a b ->
  let va := selected a (fun d _ => sees a view d) (attributes (schema a)) in
  let vb := selected b (fun d _ => sees b view d) (attributes (schema b)) in
  image_valid va -> image_valid vb ->
  (forall k, k ∈ keys va -> k ∈ keys vb) /\
  delta_complete va vb (attr_revision a) (attr_revision b) (MkUpdate (attr_revision a) (attr_revision b) false
    (selected b (fun d k => sees b view d && fresh b (attr_revision a) k) (attributes (schema b))) []).
Proof.
  intros Wa He va vb Va Vb. destruct (evolves_spec a b Wa He) as (Wb & Hs & Ho & Hr & Hv).
  assert (Hsee : forall d, sees b view d = sees a view d) by (intros d; unfold sees, owned; by rewrite Ho).
  assert (Fb : forall k, map_find k vb = match map_find k (attributes (schema b)) with
    | Some d => if sees b view d then map_find k (all_values b) else None | None => None end)
    by (intros k; apply selected_find, Wb).
  assert (Fa : forall k, map_find k va = match map_find k (attributes (schema b)) with
    | Some d => if sees b view d then map_find k (all_values a) else None | None => None end).
  { intros k. unfold va. rewrite selected_find by apply Wa. rewrite Hs. destruct (map_find k _); [|done]. by rewrite Hsee. }
  split.
  - intros k [v Hk]%map_find_keys. apply map_find_keys. rewrite Fb. rewrite Fa in Hk.
    destruct (map_find k (attributes (schema b))) as [d|] eqn:Ed; [|done]. destruct (sees b view d); [|done].
    destruct (wf_value b k d Wb Ed) as (w & _ & -> & _). by eexists.
  - split; cbn [base revision snapshot values patches]; try done.
    + apply selected_wf, Wb.
    + intros k v. rewrite selected_find by apply Wb. intros H.
      assert (Hk : map_find k vb = Some v).
      { rewrite Fb. destruct (map_find k (attributes (schema b))) as [d|]; [|done].
        by destruct (sees b view d), (fresh b (attr_revision a) k). }
      split; [done|]. apply map_find_keys. by eexists.
    + by intros k ?%not_elem_of_nil.
    + by apply patches_good_nil with (b := 0) (rv := 0).
    + intros k [v Hk]%map_find_keys. pose proof (root_refl _ _ _ Vb Hk) as Hrefl.
      rewrite selected_find by apply Wb. rewrite Fb in Hk. rewrite Fa, Fb.
      destruct (map_find k (attributes (schema b))) as [d|] eqn:Ed; [|done]. destruct (sees b view d); [|done]. cbn [andb].
      rewrite Hk. destruct (fresh b (attr_revision a) k) eqn:Ef; [left; by eexists|]. right. right.
      destruct (wf_value b k d Wb Ed) as (w & n & _ & Hn). unfold fresh in Ef. rewrite Hn in Ef. apply N.ltb_ge in Ef.
      rewrite <- (Hv k n Hn Ef), Hk. by constructor.
Qed.

(** Incremental synchronization converges.  A subscriber that holds what
    its view showed at one revision applies [changes(since)] of the carrier after any
    sequence of publications, and then holds exactly what a fresh snapshot of its view
    shows, at the current revision. *)
Theorem changes_converge a b view ua ub r img :
  attrs_wf a -> evolves a b ->
  attr_snapshot a view = Ok ua -> full_image ua -> attr_snapshot b view = Ok ub -> full_image ub ->
  initialized r = true -> replica_revision r = attr_revision a -> image r = Some img -> values img ≡ values ua ->
  exists u r', attr_changes b (attr_revision a) view = Ok u /\ apply_unbounded r u = Ok (true, r') /\
    replica_values r' ≡ values ub /\ replica_revision r' = attr_revision b /\ initialized r' = true.
Proof.
  intros Wa He Ha Fa Hb Fb Hi Hrr Himg Heq. destruct (evolves_spec a b Wa He) as (Wb & Hs & Ho & Hr & _).
  rewrite snapshot_ok in Ha, Hb by done. injection Ha as <-. injection Hb as <-.
  apply full_image_valid in Fa, Fb. cbn [values] in *.
  destruct (changes_complete a b view Wa He Fa Fb) as [Hsub Hd].
  rewrite changes_ok by done. set (u := MkUpdate _ _ _ _ _) in *.
  assert (Hsz : exists n, attribute_wire_size u = Ok n).
  { destruct (image_valid_size (values u) (attr_revision a) (attr_revision b) false) as [_ Hz]; [|done|done|by exists (23 + sum entry_size (values u))].
    eapply part_valid; [exact Fb|apply Hd|]. intros k v [Hk _]%(ds_values _ _ _ _ _ _ Hd).
    exists v. split; [done|]. by eapply root_refl. }
  destruct Hsz as [n Hn]. destruct (apply_complete _ _ Fa Fb _ _ Hr r u n img) as (r' & H); try done.
  exists u, r'. split; [done|]. exact H.
Qed.

(** ** Who may read and write *)

Definition writable (m : EntityAttributes) (who : CallIdentity) (e : bytes * AttributeValue) : Prop :=
  exists d, map_find e.1 (attributes (schema m)) = Some d /\ writes (access_of who d) = true /\ valid_root d e.2 = true.

Lemma stage_checks m who vs : fold_result (fun _ e => stage_check m who e) vs tt = Ok tt <-> Forall (writable m who) vs.
Proof.
  induction vs as [|[k v] vs IH]; cbn [fold_result]; [split; [constructor|done]|].
  rewrite Forall_cons. unfold writable at 1, stage_check at 1, map_at at 1. cbn [fst snd].
  destruct (map_find k (attributes (schema m))) as [d|]; cbn [bind]; [|split; [done|by intros [(? & ? & _) _]]].
  destruct (writes (access_of who d)) eqn:Ew; cbn [negb]; [|split; [done|]; intros [(d' & [= <-] & ? & _) _]; congruence].
  destruct (valid_root d v) eqn:E; cbn [negb bind]; [rewrite IH; naive_solver|].
  split; [done|]; intros [(d' & [= <-] & _ & ?) _]; congruence.
Qed.

Lemma stage_exact' m vs who mu :
  stage m vs who = Ok mu <->
  (length vs <= length (attributes (schema m)))%nat /\ authorized m who = true /\ Forall (writable m who) vs /\
  mu = MkMutation (attr_revision m) vs.
Proof.
  unfold stage. destruct (Nat.ltb_spec (length (attributes (schema m))) (length vs)); [split; [done|lia]|].
  destruct (authorized m who); cbn [negb]; [|split; [done|by intros (_ & ? & _)]].
  split.
  - intros ([] & Hc & [= <-])%bind_ok. apply stage_checks in Hc. done.
  - intros (_ & _ & Hc & ->). apply stage_checks in Hc. by rewrite Hc.
Qed.

(** [stage] accepts a set of values exactly when the caller is a live server
    or the live connection that owns the entity, every named attribute exists and is
    writable for that kind of caller, and every value is valid for its definition; the
    staged mutation is the values at the current revision. *)
Theorem stage_exact m vs who mu :
  stage m vs who = Ok mu <->
  (length vs <= length (attributes (schema m)))%nat /\ authorized m who = true /\ Forall (writable m who) vs /\
  mu = MkMutation (attr_revision m) vs.
Proof. apply stage_exact'. Qed.

(** Direct reads and replication agree: the owning client can read an
    attribute exactly when a snapshot of its own view carries it, with the same value. *)
Theorem read_agrees_with_view m who o k v :
  attrs_wf m -> caller who = client -> owns who (owner m) = true ->
  (attribute_read m k who = Ok v <->
   exists u, attr_snapshot m (MkView o (connection who)) = Ok u /\ map_find k (values u) = Some v).
Proof.
  intros W Hc Ho. assert (Hown : owned m (MkView o (connection who)) = true).
  { unfold owns in Ho. apply andb_true_iff in Ho as [_ Ho]. exact Ho. }
  rewrite snapshot_ok by done.
  transitivity (map_find k (selected m (fun d _ => sees m (MkView o (connection who)) d) (attributes (schema m))) = Some v).
  2:{ split; [intros H; by eexists|by intros (u & [= <-] & H)]. }
  rewrite selected_find by apply W. unfold attribute_read, map_at, sees, visible, access_of, authorized, is_server.
  rewrite Hc, Hown, Ho. cbn [observer]. destruct (map_find k (attributes (schema m))) as [d|] eqn:Ed; cbn [bind]; [|done].
  destruct (wf_value m k d W Ed) as (w & _ & -> & _). cbn [negb orb andb].
  destruct (reads (client_access d)); cbn [negb orb]; [|done]. rewrite orb_true_r.
  destruct (visibility d); cbn; split; intros H; by inversion H.
Qed.

(** ** Witnesses *)

Definition scalar (t : AttributeType) (v : AttributeValue) (c : Access) (vis : Visibility) : AttributeDefinition :=
  MkDefinition t v read_write c vis true (- 2 ^ 63) (2 ^ 63 - 1) false [] None 0 0.
Definition sample_schema : EntitySchema := MkSchema
  [(lit "bag", MkDefinition tmap (AMap [(lit "axe", AInt 1); (lit "rope", AInt 2)]) read_write read_write owner_only_view
      true (- 2 ^ 63) (2 ^ 63 - 1) false [] (Some (scalar integer (AInt 0) read hidden)) 0 16);
   (lit "hp", scalar integer (AInt 10) read observers);
   (lit "seed", scalar integer (AInt 7) no_access hidden)] [].
Definition sample_owner : ConnectionRef := MkConnection (lit "0123456789abcdef0123456789abcdef") 1.
Definition sample_key : bytes := lit "connection/0123456789abcdef0123456789abcdef/1".
Definition sample_who : CallIdentity := MkIdentity client (lit "ada") 3 sample_owner None None.
Definition sample_values (hp : Z) : AttributeStruct :=
  [(lit "bag", AMap [(lit "axe", AInt 1); (lit "rope", AInt 2)]); (lit "hp", AInt hp); (lit "seed", AInt 7)].
Definition sample_model : EntityAttributes := MkAttributes sample_schema sample_key (sample_values 10) 0
  [(lit "bag", 0); (lit "hp", 0); (lit "seed", 0)].
Definition sample_hit : Mutation := MkMutation 0 [(lit "hp", AInt 8)].
Definition sample_model2 : EntityAttributes := MkAttributes sample_schema sample_key (sample_values 8) 1
  [(lit "bag", 0); (lit "hp", 1); (lit "seed", 0)].

Lemma sample_construct : entity_attributes sample_schema sample_key = Ok sample_model.
Proof. vm_compute. reflexivity. Qed.
Lemma sample_wf : attrs_wf sample_model.
Proof. eapply construct_wf; [|exact sample_construct]. vm_compute. reflexivity. Qed.
Lemma sample_evolves : evolves sample_model sample_model2.
Proof. apply (evolves_step _ sample_model sample_hit true); [constructor|vm_compute; reflexivity..]. Qed.

Lemma attributes_invariant_witness : attrs_wf sample_model2.
Proof.
  apply attributes_invariant. apply (reach_publish sample_model sample_hit true).
  - apply (reach_new sample_schema sample_key); [vm_compute; reflexivity|exact sample_construct].
  - vm_compute. reflexivity.
  - vm_compute. reflexivity.
Defined.

Lemma publish_all_or_nothing_witness :
  exists m', publish_effect sample_model sample_hit = (Ok true, m') /\ attr_revision m' = 1.
Proof.
  destruct (publish_all_or_nothing sample_model sample_hit sample_wf) as (_ & _ & _ & H); [vm_compute; reflexivity|].
  destruct H as (m' & Hp & _ & _ & _ & Hr & _).
  - reflexivity.
  - vm_compute. reflexivity.
  - repeat constructor. exists (scalar integer (AInt 10) read observers). split; vm_compute; reflexivity.
  - exists m'. split; [exact Hp|]. rewrite Hr. vm_compute. reflexivity.
Defined.

Lemma changes_converge_witness :
  let view := MkView false sample_owner in
  let r := MkReplica (Some (MkUpdate 0 0 true [(lit "bag", AMap [(lit "axe", AInt 1); (lit "rope", AInt 2)]);
    (lit "hp", AInt 10)] [])) 0 true 0 in
  exists u r', attr_changes sample_model2 0 view = Ok u /\ apply_unbounded r u = Ok (true, r') /\
    replica_values r' ≡ [(lit "bag", AMap [(lit "axe", AInt 1); (lit "rope", AInt 2)]); (lit "hp", AInt 8)] /\
    replica_revision r' = 1 /\ initialized r' = true.
Proof.
  intros view r. set (seen hp := [(lit "bag", AMap [(lit "axe", AInt 1); (lit "rope", AInt 2)]); (lit "hp", AInt hp)]).
  apply (changes_converge sample_model sample_model2 view (MkUpdate 0 0 true (seen 10%Z) [])
    (MkUpdate 0 1 true (seen 8%Z) []) r (MkUpdate 0 0 true (seen 10%Z) [])).
  1: exact sample_wf.
  1: exact sample_evolves.
  1,3: vm_compute; reflexivity.
  1,2: split_and!; vm_compute; reflexivity.
  all: vm_compute; reflexivity.
Defined.

Lemma read_agrees_with_view_witness :
  exists u, attr_snapshot sample_model (MkView false sample_owner) = Ok u /\ map_find (lit "hp") (values u) = Some (AInt 10).
Proof.
  apply (read_agrees_with_view sample_model sample_who false (lit "hp") (AInt 10)).
  - exact sample_wf.
  - reflexivity.
  - vm_compute. reflexivity.
  - vm_compute. reflexivity.
Defined.

(** * Client write proposals

    A client proposes a write either as plain values or as the delta that
    [attribute_write_delta] computes against the image it has confirmed.  The server's
    [stage_attribute_proposal] stages the same mutation for both. *)

(** ** What attribute_write_delta returns *)

Definition confirmed_part (confirmed vs : AttributeStruct) : AttributeStruct :=
  fold_left (fun acc e => match map_find e.1 confirmed with
    | Some old => fst (map_emplace e.1 old acc) | None => acc end) vs [].

Definition kept_noops (confirmed vs acc : AttributeStruct) : AttributeStruct :=
  fold_left (fun acc e => match map_find e.1 confirmed with
    | Some old => if value_eqb old e.2 then fst (map_emplace e.1 e.2 acc) else acc
    | None => acc end) vs acc.

Lemma emplace_find k v (m : AttributeStruct) k2 : map_find k2 (fst (map_emplace k v m)) =
  if bytes_eqb k2 k then Some (default v (map_find k m)) else map_find k2 m.
Proof.
  unfold map_emplace. destruct (map_contains k m) eqn:E; cbn [fst].
  - apply map_contains_spec in E as [w E]. rewrite E. destruct (bytes_eqb_spec k2 k) as [->|]; done.
  - apply map_contains_false in E. rewrite E. destruct (bytes_eqb_spec k2 k) as [->|]; [apply map_find_insert|by apply map_find_insert_ne].
Qed.
Lemma emplace_wf k v (m : AttributeStruct) : map_wf m -> map_wf (fst (map_emplace k v m)).
Proof. intros Hm. destruct (map_emplace k v m) as [m' b] eqn:E. by eapply map_wf_emplace. Qed.

(** A loop of conditional emplaces over the entries of a map. *)
Section Emplaces.
Context (choose : bytes * AttributeValue -> option AttributeValue).

Definition emplaces (vs acc : AttributeStruct) : AttributeStruct :=
  fold_left (fun acc e => match choose e with Some w => fst (map_emplace e.1 w acc) | None => acc end) vs acc.

Lemma emplaces_spec vs : forall acc, map_wf vs -> map_wf acc ->
  map_wf (emplaces vs acc) /\
  forall k, map_find k (emplaces vs acc) =
    match map_find k acc with
    | Some w => Some w
    | None => match map_find k vs with Some v => choose (k, v) | None => None end
    end.
Proof.
  induction vs as [|[k v] vs IH]; intros acc Wv Wa.
  { split; [done|]. intros k. cbn. by destruct (map_find k acc). }
  apply map_wf_cons in Wv as [Lt Wv]. unfold emplaces. cbn [fold_left fst].
  assert (Hn : map_find k vs = None) by (by apply map_find_none_lt).
  destruct (choose (k, v)) as [w|] eqn:Ec.
  - destruct (IH (fst (map_emplace k w acc)) Wv) as [W1 F1]; [by apply emplace_wf|].
    split; [exact W1|]. intros k2. unfold emplaces in F1. rewrite F1, emplace_find. cbn [map_find].
    destruct (bytes_eqb_spec k2 k) as [->|]; [|done]. by destruct (map_find k acc); rewrite ?Ec.
  - destruct (IH acc Wv Wa) as [W1 F1]. split; [exact W1|]. intros k2. unfold emplaces in F1. rewrite F1. cbn [map_find].
    destruct (bytes_eqb_spec k2 k) as [->|]; [|done]. rewrite Hn, Ec. done.
Qed.
End Emplaces.

Lemma confirmed_part_spec confirmed vs : map_wf vs -> map_wf (confirmed_part confirmed vs) /\
  forall k, map_find k (confirmed_part confirmed vs) =
    match map_find k vs with Some _ => map_find k confirmed | None => None end.
Proof. intros Wv. exact (emplaces_spec (fun e => map_find e.1 confirmed) vs [] Wv map_wf_nil). Qed.

Definition noop_value (confirmed : AttributeStruct) (e : bytes * AttributeValue) : option AttributeValue :=
  match map_find e.1 confirmed with Some old => if value_eqb old e.2 then Some e.2 else None | None => None end.

Lemma kept_noops_eq confirmed vs acc : kept_noops confirmed vs acc = emplaces (noop_value confirmed) vs acc.
Proof.
  unfold kept_noops, emplaces, noop_value. revert acc. induction vs as [|[k v] vs IH]; intros acc; [done|].
  cbn [fold_left fst snd]. rewrite <- IH. f_equal. destruct (map_find k confirmed); [|done]. by destruct (value_eqb _ _).
Qed.

Section WriteDelta.
Context (confirmed vs : AttributeStruct) (rev : N).
Context (Hb : image_valid (confirmed_part confirmed vs)) (Hv : image_valid vs).

Definition before_image : AttributeUpdate := MkUpdate 0 rev true (confirmed_part confirmed vs) [].
Definition after_image : AttributeUpdate := MkUpdate 0 rev true vs [].
Definition plain_proposal : AttributeUpdate := MkUpdate rev rev false vs [].

(** Every submitted root is in the proposal, as a value or through patches. *)
Definition proposes (u : AttributeUpdate) : Prop :=
  delta_complete (confirmed_part confirmed vs) vs rev rev u /\
  (exists n, attribute_wire_size u = Ok n) /\
  forall k, k ∈ keys vs -> is_Some (map_find k (values u)) \/ k ∈ property <$> patches u.

Lemma noops_complete u : delta_complete (confirmed_part confirmed vs) vs rev rev u ->
  let u' := MkUpdate (base u) (revision u) (snapshot u) (kept_noops confirmed vs (values u)) (patches u) in
  delta_complete (confirmed_part confirmed vs) vs rev rev u' /\
  forall k, k ∈ keys vs -> is_Some (map_find k (values u')) \/ k ∈ property <$> patches u'.
Proof.
  intros [Eb Er Es Hw Hvs Hp Hx Hg Hc]. cbv zeta. rewrite kept_noops_eq.
  destruct (emplaces_spec (noop_value confirmed) vs (values u) (iv_wf _ Hv) Hw) as [W F].
  destruct (confirmed_part_spec confirmed vs (iv_wf _ Hv)) as [_ Fc].
  assert (Hcov : forall k, k ∈ keys vs -> is_Some (map_find k (emplaces (noop_value confirmed) vs (values u))) \/ k ∈ property <$> patches u).
  { intros k Hk. rewrite F. destruct (Hc k Hk) as [[w ->]|[H|H]]; [by left; eexists|by right|].
    destruct (map_find k (values u)); [by left; eexists|]. left. apply map_find_keys in Hk as [v Hk].
    rewrite Fc, Hk in H. rewrite Hk. unfold noop_value. cbn [fst snd]. inversion H as [o v' E E1|]; subst.
    change (value_eqb o v = true) in E. rewrite E. by eexists. }
  split; [|exact Hcov]. split; cbn [base revision snapshot values patches]; try done.
  - intros k v. rewrite F. destruct (map_find k (values u)) as [w|] eqn:E; [intros [= <-]; by apply Hvs|].
    destruct (map_find k vs) as [v0|] eqn:Ev; [|done]. unfold noop_value. cbn [fst snd].
    destruct (map_find k confirmed); [|done]. destruct (value_eqb _ _); [|done]. intros [= <-].
    split; [done|]. apply map_find_keys. by eexists.
  - rewrite Forall_forall in *. intros p Hin. destruct (Hp p Hin) as (H1 & H2 & H3). split_and!; [done| |done].
    rewrite F, H2. destruct (Hx (property p)) as (o & v & Ho & Hnv & Hne); [apply list_elem_of_fmap; eauto|].
    rewrite Hnv. rewrite Fc, Hnv in Ho. unfold noop_value. cbn [fst snd]. by rewrite Ho, Hne.
  - intros k Hk. destruct (Hcov k Hk); [by left|by right; left].
Qed.

Lemma plain_proposes : proposes plain_proposal.
Proof.
  split_and!.
  - split; cbn; try done; [apply Hv|..].
    + intros k v Hk. split; [done|]. apply map_find_keys. by eexists.
    + by intros k ?%not_elem_of_nil.
    + by apply patches_good_nil with (b := 0) (rv := 0).
    + intros k Hk. left. by apply map_find_keys.
  - destruct (image_valid_size vs rev rev false Hv) as [_ H]; [lia|done|]. eauto.
  - intros k Hk. left. by apply map_find_keys.
Qed.

Lemma attribute_write_delta_spec : full_image before_image -> full_image after_image ->
  exists u, attribute_write_delta confirmed rev vs rev = Ok u /\ proposes u.
Proof.
  intros Fb Fa. unfold attribute_write_delta. rewrite N.eqb_refl. cbn [negb].
  fold (confirmed_part confirmed vs). fold before_image. fold after_image. fold plain_proposal.
  assert (Hl : loses_root before_image after_image = false).
  { apply not_true_iff_false. intros ([k o] & Hin & Hk)%existsb_exists. cbn [fst before_image after_image values] in *.
    apply list_elem_of_In, elem_map_find in Hin; [|apply Hb]. apply negb_true_iff, map_contains_false in Hk.
    destruct (confirmed_part_spec confirmed vs (iv_wf _ Hv)) as [_ Fc]. rewrite Fc, Hk in Hin. done. }
  pose proof (attribute_delta_spec before_image after_image Fb Fa ltac:(cbn; lia)) as Hd. rewrite Hl in Hd.
  destruct Hd as (u0 & -> & Hc & n0 & _ & Hn0 & _). cbn [bind]. fold (kept_noops confirmed vs (values u0)).
  destruct (noops_complete u0 Hc) as [Hc' Hcov]. set (u := MkUpdate (base u0) _ _ _ _) in *.
  destruct plain_proposes as (Hp & [n Hn] & Hpc). rewrite Hn. cbn [bind].
  assert (Et : too_many (patches u) = false).
  { apply wire_size_ok in Hn0 as (Hok & _). unfold update_ok in Hok. apply andb_true_iff in Hok as [_ Hok].
    unfold too_many. apply N.ltb_ge. cbn [patches u]. apply orb_true_iff in Hok as [He|Hok].
    - apply is_empty_true in He. rewrite He. cbn. lia.
    - bool_prop. apply Hok. }
  destruct (smaller_spec u plain_proposal (attribute_wire_size u) n Hn) as (w & n' & -> & Hor & Hsz & _); [|done|].
  { apply (complete_update_ok (confirmed_part confirmed vs) vs) with (b := rev) (rv := rev) (ks := keys vs); try done. }
  exists w. split; [done|]. destruct Hor as [->| ->]; (split_and!; [done|by eexists|done]).
Qed.
End WriteDelta.

(** ** Staging a proposal *)

(** [roots.try_emplace(patch.property, model.all_values().at(patch.property))] over all patches. *)
Lemma try_emplaces (all : AttributeStruct) ps : forall roots, map_wf roots ->
  Forall (fun p => is_Some (map_find (property p) all)) ps ->
  exists roots', fold_result (fun roots patch => let* v := map_at (property patch) all in
      Ok (fst (map_emplace (property patch) v roots))) ps roots = Ok roots' /\ map_wf roots' /\
    forall k, map_find k roots' = match map_find k roots with
      | Some v => Some v
      | None => if decide (k ∈ property <$> ps) then map_find k all else None end.
Proof.
  induction ps as [|p ps IH]; intros roots Wr Hp.
  { exists roots. split_and!; [done|done|]. intros k. destruct (map_find k roots); [done|].
    rewrite decide_False; [done|]. apply not_elem_of_nil. }
  apply Forall_cons in Hp as [[v Hv] Hp]. cbn [fold_result]. unfold map_at at 1. rewrite Hv. cbn [bind].
  destruct (IH (fst (map_emplace (property p) v roots))) as (r' & -> & W' & F'); [by apply emplace_wf|done|].
  exists r'. split_and!; [done|done|]. intros k. rewrite F', emplace_find, fmap_cons.
  destruct (bytes_eqb_spec k (property p)) as [->|Hne].
  - rewrite decide_True by set_solver. rewrite Hv. by destruct (map_find _ roots).
  - destruct (map_find k roots); [done|]. destruct (decide (k ∈ property <$> ps)).
    + by rewrite decide_True by set_solver.
    + by rewrite decide_False by set_solver.
Qed.

(** [for (auto& [name, value] : roots) value = candidate.values().at(name)] *)
Lemma reload_all (src : AttributeStruct) (roots : AttributeStruct) : forall acc,
  Forall (fun e => is_Some (map_find e.1 src)) roots ->
  exists roots', fold_result (fun acc e => let* v := map_at e.1 src in Ok (acc ++ [(e.1, v)])) roots acc = Ok (acc ++ roots') /\
    keys roots' = keys roots /\ forall k, k ∈ keys roots -> map_find k roots' = map_find k src.
Proof.
  induction roots as [|[k v] roots IH]; intros acc Hr.
  { exists []. split_and!; [cbn; by rewrite app_nil_r|done|by intros k ?%not_elem_of_nil]. }
  apply Forall_cons in Hr as [[w Hw] Hr]. cbn [fst] in Hw. cbn [fold_result fst]. unfold map_at at 1. rewrite Hw. cbn [bind].
  destruct (IH (acc ++ [(k, w)]) Hr) as (r' & -> & K & F). exists ((k, w) :: r'). rewrite <- app_assoc.
  unfold keys in *. rewrite !fmap_cons, K. split_and!; [done|done|]. intros k2 Hk2. cbn [map_find].
  destruct (bytes_eqb_spec k2 k) as [->|Hne]; [done|]. apply F. set_solver.
Qed.

Section Stage.
Context (m : EntityAttributes) (who : CallIdentity) (confirmed vs : AttributeStruct) (mu : Mutation).
Context (W : attrs_wf m) (Hv : image_valid vs) (Hall : image_valid (all_values m)).
Context (Hover : image_valid (overlay (all_values m) vs)).
Context (Hconf : has_roots (all_values m) (confirmed_part confirmed vs)).
Context (Hstage : stage m vs who = Ok mu).

Let rev := attr_revision m.

(** Values for the submitted roots, each valid, stage as well. *)
Lemma stage_roots roots : map_wf roots -> (forall k, k ∈ keys roots -> k ∈ keys vs) ->
  (forall k d w, map_find k (attributes (schema m)) = Some d -> map_find k roots = Some w -> valid_root d w = true) ->
  stage m roots who = Ok (MkMutation rev roots).
Proof.
  intros Wr Hk Hval. pose proof Hstage as (Hl & Ha & Hw & _)%stage_exact'. apply stage_exact'.
  split_and!; [|done| |done].
  - etransitivity; [|exact Hl]. by apply length_incl_keys.
  - rewrite Forall_forall in *. intros [k w] Hin. apply elem_map_find in Hin; [|done].
    assert (Hkv : k ∈ keys vs) by (apply Hk, map_find_keys; by eexists). apply map_find_keys in Hkv as [v Hkv].
    destruct (Hw _ (map_find_elem _ _ _ Hkv)) as (d & Hd & Hwr & _). exists d. cbn [fst snd] in *. eauto.
Qed.

Lemma submitted_valid k d v : map_find k (attributes (schema m)) = Some d -> map_find k vs = Some v -> valid_root d v = true.
Proof.
  intros Hd Hk. pose proof Hstage as (_ & _ & Hw & _)%stage_exact'. rewrite Forall_forall in Hw.
  destruct (Hw _ (map_find_elem _ _ _ Hk)) as (d' & Hd' & _ & Hval). cbn [fst snd] in *. congruence.
Qed.

Lemma proposed_patches u : proposes confirmed vs rev u ->
  exists vs', fold_result (apply_patch (all_values m)) (patches u) (values u) = Ok vs' /\ map_wf vs' /\ vs' ≡ vs.
Proof.
  intros (Hd & _ & Hcov). pose proof Hd as [Eb Er Es Hw Hvs Hp Hx Hg Hc].
  destruct (Hg (all_values m) (values u) Hconf Hw) as (vs' & Hf & W' & F).
  { eapply Forall_impl; [exact Hp|]. by intros p (_ & ? & _). }
  exists vs'. split_and!; [done|done|]. apply struct_equiv_ext; [done|apply Hv|]. intros k.
  destruct (F k) as [F1 F2]. destruct (decide (k ∈ property <$> patches u)) as [Hin|Hin]; [by apply F1|].
  rewrite (F2 Hin). destruct (map_find k (values u)) as [w|] eqn:E.
  - apply Hvs in E as [E _]. rewrite E. constructor. by apply (root_refl vs k).
  - destruct (map_find k vs) as [v|] eqn:Ev; [|constructor]. exfalso.
    destruct (Hcov k) as [[x Hx']|]; [apply map_find_keys; by eexists|congruence|done].
Qed.

(** The roots a proposal names, with the model's values where it has patches. *)
Lemma proposal_roots u : proposes confirmed vs rev u ->
  exists roots, fold_result (fun roots patch => let* v := map_at (property patch) (all_values m) in
      Ok (fst (map_emplace (property patch) v roots))) (patches u) (values u) = Ok roots /\
    map_wf roots /\ (forall k, k ∈ keys roots <-> k ∈ keys vs) /\ stage m roots who = Ok (MkMutation rev roots).
Proof.
  intros (Hd & _ & Hcov). pose proof Hd as [Eb Er Es Hw Hvs Hp Hx Hg Hc].
  assert (Hpatched : forall k, k ∈ property <$> patches u -> is_Some (map_find k (all_values m))).
  { intros k Hin. destruct (Hx k Hin) as (o & v & Ho & _). destruct (Hconf _ _ Ho) as (c & -> & _). by eexists. }
  destruct (try_emplaces (all_values m) (patches u) (values u) Hw) as (roots & Hf & Wr & Fr).
  { apply Forall_forall. intros p Hin. apply Hpatched, list_elem_of_fmap. eauto. }
  assert (Kr : forall k, k ∈ keys roots <-> k ∈ keys vs).
  { intros k. rewrite <- !map_find_keys, Fr. split.
    - destruct (map_find k (values u)) as [w|] eqn:E; [apply Hvs in E as [-> _]; by eexists|].
      destruct (decide (k ∈ property <$> patches u)) as [Hin|]; [|by intros []].
      destruct (Hx k Hin) as (o & v & _ & -> & _). by eexists.
    - intros Hk. destruct (map_find k (values u)) eqn:E; [by eexists|].
      destruct (Hcov k) as [[w Hw']|Hin]; [by apply map_find_keys|congruence|]. rewrite decide_True by done. by apply Hpatched. }
  exists roots. split_and!; [done|done|done|]. apply stage_roots; [done|by intros k; apply Kr|].
  intros k d w Hdk. rewrite Fr. destruct (map_find k (values u)) as [x|] eqn:E.
  - apply Hvs in E as [E _]. intros [= <-]. by eapply submitted_valid.
  - destruct (decide _); [|done]. by apply (aw_valid _ W).
Qed.

(** The candidate replica after the proposal. *)
Lemma proposal_candidate u : proposes confirmed vs rev u ->
  exists c r', apply_unbounded empty_replica (MkUpdate 0 rev true (all_values m) []) = Ok (true, c) /\
    apply_unbounded c u = Ok (true, r') /\
    forall k, k ∈ keys vs -> option_Forall2 (≡) (map_find k (replica_values r')) (map_find k vs).
Proof.
  intros Hu. pose proof Hu as (Hd & [n Hn] & _). pose proof Hd as [Eb Er Es _ _ _ _ _ _].
  destruct (apply_image empty_replica (all_values m) 0 rev eq_refl Hall) as (img & c1 & Ha1 & Hc1); [done|].
  destruct (proposed_patches u Hu) as (vs' & Hf & W' & Heq).
  assert (Hov : overlay (all_values m) vs' ≡ overlay (all_values m) vs).
  { apply struct_equiv_ext; [apply overlay_wf; [apply W|done]|apply overlay_wf; [apply W|apply Hv]|]. intros k.
    rewrite !overlay_find by (done || apply W || apply Hv). unfold over. pose proof (struct_equiv_find _ _ k Heq) as Hk.
    inversion Hk; [by constructor|]. destruct (map_find k (all_values m)) eqn:E; constructor. by eapply (root_refl (all_values m)). }
  assert (Hpart : forall big small : AttributeStruct, small ≡ big -> part_of small big).
  { intros big small H k v Hk. pose proof (struct_equiv_find _ _ k H) as Hb. rewrite Hk in Hb. inversion Hb; subst. eauto. }
  destruct (apply_materialized (MkReplica (Some img) rev true c1) u n img vs') as (r' & Hap & Hr' & _ & _);
    rewrite ?Hc1; try done; [rewrite Eb, Er; lia|apply W|apply (part_valid vs' vs); auto| |].
  { apply (part_valid _ (overlay (all_values m) vs)); auto. apply overlay_wf; [apply W|done]. }
  exists (MkReplica (Some img) rev true c1), r'. split_and!; [done|done|]. intros k [v Hk]%map_find_keys.
  rewrite Hr', Hc1, overlay_find by (done || apply W). unfold over.
  pose proof (struct_equiv_find _ _ k Heq) as H. rewrite Hk in *. inversion H; subst. by constructor.
Qed.

Lemma stage_patched u : proposes confirmed vs rev u -> is_empty (patches u) = false ->
  exists mu', stage_attribute_proposal m u who = Ok mu' /\ expected mu' = rev /\ mvalues mu' ≡ vs.
Proof.
  intros Hu Hne. pose proof Hu as (Hd & [n Hn] & _). pose proof Hd as [Eb Er Es _ _ _ _ _ _].
  unfold stage_attribute_proposal. rewrite Hn, Es, Eb, Er, N.eqb_refl. fold rev. rewrite N.eqb_refl, Hne. cbn [bind orb negb].
  destruct (proposal_roots u Hu) as (roots & -> & Wr & Kr & Hst). cbn [bind]. rewrite Hst. cbn [bind].
  destruct (proposal_candidate u Hu) as (c & r' & -> & Hap & Hfo). cbn [bind]. rewrite Hap. cbn [bind negb].
  destruct (reload_all (replica_values r') roots []) as (roots' & -> & K' & F').
  { apply Forall_forall. intros [k w] Hin. cbn [fst]. apply elem_map_find in Hin; [|done].
    assert (Hk : k ∈ keys vs) by (apply Kr, map_find_keys; by eexists). pose proof (Hfo k Hk) as H.
    apply map_find_keys in Hk as [v Hk]. rewrite Hk in H. inversion H. by eexists. }
  cbn [bind app].
  assert (W'' : map_wf roots') by (unfold map_wf; rewrite (sorted_keys_ext roots' roots); [done|exact K']).
  assert (Heq' : roots' ≡ vs).
  { apply struct_equiv_ext; [done|apply Hv|]. intros k. destruct (decide (k ∈ keys vs)) as [Hk|Hk].
    - rewrite F' by (by apply Kr). by apply Hfo.
    - assert (Hk' : k ∉ keys roots') by (rewrite K', Kr; done). rewrite <- map_find_keys, <- eq_None_not_Some in Hk, Hk'.
      rewrite Hk, Hk'. constructor. }
  rewrite stage_roots; [by eexists|done|intros k; rewrite K'; by apply Kr|].
  intros k d w Hdk Hw'. pose proof (struct_equiv_find _ _ k Heq') as H. rewrite Hw' in H. inversion H; subst.
  rewrite (valid_root_proper d w y) by done. by eapply submitted_valid.
Qed.

Lemma stage_plain u : proposes confirmed vs rev u -> is_empty (patches u) = true ->
  stage_attribute_proposal m u who = Ok (MkMutation rev vs).
Proof.
  intros (Hd & [n Hn] & Hcov) He. pose proof Hd as [Eb Er Es Hw Hvs _ _ _ _].
  unfold stage_attribute_proposal. rewrite Hn, Es, Eb, Er, N.eqb_refl. fold rev. rewrite N.eqb_refl, He. cbn [bind orb negb].
  assert (values u = vs) as ->.
  { apply map_ext; [done|apply Hv|]. intros k. destruct (map_find k (values u)) as [w|] eqn:E; [by apply Hvs in E as [-> _]|].
    destruct (map_find k vs) as [v|] eqn:Ev; [|done]. exfalso. apply is_empty_true in He.
    destruct (Hcov k) as [[x Hx']|H]; [apply map_find_keys; by eexists|congruence|]. rewrite He in H. by apply not_elem_of_nil in H. }
  apply stage_roots; [apply Hv|done|]. intros k d w. apply submitted_valid.
Qed.
End Stage.

(** C30 (refinement).  A client's write through [attribute_write_delta] means what it says:
    when the server would accept the plain values, it accepts the delta the client computes
    against its confirmed image and stages the same values (up to [==]) at the same
    revision, patches, retained no-op roots and all. *)
Theorem proposal_stages_intent m who confirmed vs mu :
  attrs_wf m -> has_roots (all_values m) (confirmed_part confirmed vs) ->
  full_image (before_image confirmed vs (attr_revision m)) -> full_image (after_image vs (attr_revision m)) ->
  image_valid (all_values m) -> image_valid (overlay (all_values m) vs) ->
  stage m vs who = Ok mu ->
  exists u mu', attribute_write_delta confirmed (attr_revision m) vs (attr_revision m) = Ok u /\
    stage_attribute_proposal m u who = Ok mu' /\ expected mu' = expected mu /\ mvalues mu' ≡ mvalues mu.
Proof.
  intros W Hc Fb Fa Ha Ho Hs. pose proof (full_image_valid _ Fb) as Vb. pose proof (full_image_valid _ Fa) as Va.
  cbn [before_image after_image values] in Vb, Va. pose proof Hs as (_ & _ & _ & ->)%stage_exact'. cbn [expected mvalues].
  destruct (attribute_write_delta_spec confirmed vs (attr_revision m) Vb Va Fb Fa) as (u & -> & Hu). exists u.
  destruct (is_empty (patches u)) eqn:E.
  - eexists. split; [done|]. erewrite stage_plain by done. split_and!; [done|done|]. cbn [mvalues].
    apply struct_equiv_ext; [apply Va..|]. intros k. destruct (map_find k vs) eqn:Ek; constructor. by eapply (root_refl vs).
  - destruct (stage_patched m who confirmed vs _ W Va Ha Ho Hc Hs u Hu E) as (mu' & Hm). exists mu'. done.
Qed.

(** The owner drops its rope and picks up a lamp. *)
Definition sample_write : AttributeStruct := [(lit "bag", AMap [(lit "axe", AInt 1); (lit "lamp", AInt 4)])].

Lemma valid_image_by_size vs rev n : struct_wf vs = true -> attribute_wire_size (MkUpdate 0 rev true vs []) = Ok n -> image_valid vs.
Proof. intros Hw Hn. exact (image_valid_of_size (MkUpdate 0 rev true vs []) n Hw eq_refl Hn). Qed.

Lemma proposal_stages_intent_witness :
  exists u mu', attribute_write_delta (sample_values 10) 0 sample_write 0 = Ok u /\
    stage_attribute_proposal sample_model u sample_who = Ok mu' /\ expected mu' = 0 /\ mvalues mu' ≡ sample_write.
Proof.
  apply (proposal_stages_intent sample_model sample_who (sample_values 10) sample_write (MkMutation 0 sample_write)).
  - exact sample_wf.
  - intros k o Ho. destruct (confirmed_part_spec (sample_values 10) sample_write) as [_ F]; [vm_compute; reflexivity|].
    rewrite F in Ho. destruct (map_find k sample_write); [|done]. exists o. split; [exact Ho|].
    eapply root_refl; [|exact Ho]. eapply (valid_image_by_size _ 0); vm_compute; reflexivity.
  - split_and!; vm_compute; reflexivity.
  - split_and!; vm_compute; reflexivity.
  - eapply (valid_image_by_size _ 0); vm_compute; reflexivity.
  - eapply (valid_image_by_size _ 0); vm_compute; reflexivity.
  - vm_compute. reflexivity.
Defined.
