(* ===== verification/Messages.v ===== *)
(** * Message envelopes

    [include/fsnet/entity_message.hpp] (FSE3 global calls, FSE1/FSE2 entity messages,
    FSS1 state messages, entity routes) and [src/replication_wire.cpp] (entity keys,
    FSN1 replication packets and their remapping). *)

From S2P Require Import Prelude OrderedMap Identity Values AttributeWire.

(** ** Names and routes *)

Definition valid_entity_method (method : bytes) : bool :=
  negb (is_empty method) && (size method <=? 127) && negb (front_is x24 method) && negb (has_any dot_nul method).

(** A route part: non-empty, at most 127 bytes, no ["."] or NUL. *)
Definition bad_part (part : bytes) : bool := is_empty part || (127 <? size part) || has_any dot_nul part.

Definition entity_route (type method : bytes) : result bytes :=
  throw_if bad_part type || bad_part method as invalid_argument ;; Ok (type ++ [x2e] ++ method).

(** ** FSE3 *)

Definition entity_call_message (id : EntityId) (method payload request_id expected_type : bytes) : result bytes :=
  throw_if negb (valid_entity_method method) || (128 <? size request_id) ||
           (negb (is_empty expected_type) && ((127 <? size expected_type) || has_any dot_nul expected_type))
    as invalid_argument ;;
  let flags := N.lor (if is_empty request_id then 0 else 1) (if is_empty expected_type then 0 else 2) in
  Ok (lit "FSE3" ++ put_be 8 (value id) ++ [byte_of flags] ++ [byte_of (size method)] ++ method ++
      (if is_empty request_id then [] else [byte_of (size request_id)] ++ request_id) ++
      (if is_empty expected_type then [] else [byte_of (size expected_type)] ++ expected_type) ++ payload).

Record EntityCallView := MkCallView {
  call_id : EntityId; call_method : bytes; call_payload : bytes; call_request : bytes; call_type : bytes }.

(** The [text] lambda of the parser: a length byte and that many bytes. *)
Definition parse_text (maximum : N) (input : bytes) : option (bytes * bytes) :=
  match input with
  | [] => None
  | b :: input =>
      let n := byte_val b in
      if (n =? 0) || (maximum <? n) || (size input <? n) then None
      else Some (take (N.to_nat n) input, drop (N.to_nat n) input)
  end.

Definition parse_entity_call_view (input : bytes) : option EntityCallView :=
  if (size input <? 15) || negb (starts_with (lit "FSE3") input) then None
  else
    let input := drop 4 input in
    let v := fold_left shift_in (take 8 input) 0 in
    let input := drop 8 input in
    if v =? 0 then None
    else
      match input with
      | [] => None
      | f :: input =>
          let flags := byte_val f in
          if 3 <? flags then None
          else
            '(method, input) ← parse_text 127 input;
            if negb (valid_entity_method method) then None
            else
              '(request, input) ← (if N.testbit flags 0 then parse_text 128 input else Some ([], input));
              '(type, input) ← (if N.testbit flags 1 then
                                  '(part, input) ← parse_text 127 input;
                                  if has_any dot_nul part then None else Some (part, input)
                                else Some ([], input));
              Some (MkCallView (MkEntityId v) method input request type)
      end.

(** ** FSE1 and FSE2 *)

Definition entity_message (id payload request_id : bytes) : result bytes :=
  throw_if is_empty id || (256 <? size id) as invalid_argument ;;
  throw_if 128 <? size request_id as invalid_argument ;;
  Ok ((if is_empty request_id then lit "FSE1" else lit "FSE2") ++
      [byte_of (N.shiftr (size id) 8)] ++ [byte_of (N.land (size id) 255)] ++ id ++
      (if is_empty request_id then [] else
         [byte_of (N.shiftr (size request_id) 8)] ++ [byte_of (size request_id)] ++ request_id) ++ payload).

Record EntityMessage := MkMessage { msg_id : bytes; msg_payload : bytes; msg_request : bytes }.

(** [(a << 8) | b] of two bytes of the input. *)
Definition length16 (input : bytes) (i : nat) : N :=
  match input !! i, input !! S i with
  | Some a, Some b => N.lor (N.shiftl (byte_val a) 8) (byte_val b)
  | _, _ => 0
  end.

Definition parse_entity_message (input : bytes) : option EntityMessage :=
  if (size input <? 6) || (negb (bytes_eqb (take 4 input) (lit "FSE1")) && negb (bytes_eqb (take 4 input) (lit "FSE2")))
  then None
  else
    let len := length16 input 4 in
    if (len =? 0) || (256 <? len) || (size input <? 6 + len) then None
    else
      let id := take (N.to_nat len) (drop 6 input) in
      let payload := drop (6 + N.to_nat len) input in
      if bytes_eqb (take 4 input) (lit "FSE2") then
        if size payload <? 2 then None
        else
          let n := length16 payload 0 in
          if (n =? 0) || (128 <? n) || (size payload <? 2 + n) then None
          else Some (MkMessage id (drop (2 + N.to_nat n) payload) (take (N.to_nat n) (drop 2 payload)))
      else Some (MkMessage id payload []).

(** ** FSS1 *)

Definition state_message (state payload : bytes) : result bytes :=
  throw_if u32_max <? size state as length_error ;;
  Ok (lit "FSS1" ++ put_be 4 (size state) ++ state ++ payload).

(** The 32-bit accumulator of the parser. *)
Definition shift_in32 (n : N) (b : byte) : N := N.lor (N.shiftl n 8) (byte_val b) mod 2 ^ 32.

Definition parse_state_message (input : bytes) : option (bytes * bytes) :=
  if (size input <? 8) || negb (bytes_eqb (take 4 input) (lit "FSS1")) then None
  else
    let len := fold_left shift_in32 (take 4 (drop 4 input)) 0 in
    if size input - 8 <? len then None
    else Some (take (N.to_nat len) (drop 8 input), drop (8 + N.to_nat len) input).

(** ** Entity keys (replication_wire.cpp) *)

Definition validate_key (type id : bytes) : result unit :=
  throw_if bad_part type || is_empty id || (256 <? size id) as invalid_argument ;; Ok tt.

Definition encode_entity_key (type id : bytes) : result bytes :=
  let* _ := validate_key type id in
  Ok (put_be 1 (size type) ++ type ++ put_be 2 (size id) ++ id).

(** [key_view] and [decode_entity_key]. *)
Definition decode_entity_key (input : bytes) : result (bytes * bytes * bytes) :=
  let* '(n, input) := get_be invalid_argument 1 input in
  let* '(type, input) := get_text n input in
  let* '(n, input) := get_be invalid_argument 2 input in
  let* '(id, input) := get_text n input in
  let* _ := validate_key type id in
  Ok (type, id, input).

(** ** FSN1 replication packets *)

Inductive Status := ok | not_found | overloaded | timeout | disconnected | rejected | internal.
#[global] Instance Status_eq_dec : EqDecision Status.
Proof. solve_decision. Defined.

Definition status_index (s : Status) : N :=
  match s with ok => 0 | not_found => 1 | overloaded => 2 | timeout => 3 | disconnected => 4 | rejected => 5 | internal => 6 end.
(** [static_cast<Status>(n)] behind the range check. *)
Definition status_of (n : N) : option Status :=
  match n with 0 => Some ok | 1 => Some not_found | 2 => Some overloaded | 3 => Some timeout
  | 4 => Some disconnected | 5 => Some rejected | 6 => Some internal | _ => None end.

Record ReplicationPacket := MkPacket {
  subscription : N; packet_type : bytes; packet_id : bytes; packet_status : Status; lease_ms : N;
  packet_update : option AttributeUpdate }.

Definition encode_replication_packet (p : ReplicationPacket) : result bytes :=
  let* key := encode_entity_key (packet_type p) (packet_id p) in
  let head := lit "FSN1" ++ put_be 1 (status_index (packet_status p)) ++ put_be 8 (subscription p) ++
              put_be 4 (lease_ms p) ++ key in
  match packet_status p with
  | ok =>
      match packet_update p with
      | None => Throw invalid_argument
      | Some update => let* record := encode_attributes update in Ok (head ++ record)
      end
  | _ => Ok head
  end.

(** [prefix(in)]: the header fields and the rest of the input. *)
Definition packet_prefix (input : bytes) : result (N * bytes * bytes * Status * N * bytes) :=
  throw_if (1024 * 1024 <? size input) || negb (starts_with (lit "FSN1") input) as invalid_argument ;;
  let input := drop 4 input in
  let* '(s, input) := get_be invalid_argument 1 input in
  match status_of s with
  | None => Throw invalid_argument
  | Some status =>
      let* '(sub, input) := get_be invalid_argument 8 input in
      throw_if sub =? 0 as invalid_argument ;;
      let* '(lease, input) := get_be invalid_argument 4 input in
      let* '(type, id, input) := decode_entity_key input in
      Ok (sub, type, id, status, lease mod 2 ^ 32, input)
  end.

Definition decode_replication_packet (input : bytes) : result ReplicationPacket :=
  let* '(sub, type, id, status, lease, input) := packet_prefix input in
  match status with
  | ok => let* update := decode_attributes input in Ok (MkPacket sub type id status lease (Some update))
  | _ => throw_if negb (is_empty input) as invalid_argument ;; Ok (MkPacket sub type id status lease None)
  end.

Record ReplicationPacketView := MkPacketView {
  view_subscription : N; view_type : bytes; view_id : bytes; view_status : Status; view_lease : N;
  view_update : option (N * N * bool) }.

Definition decode_replication_packet_view (input : bytes) : result ReplicationPacketView :=
  let* '(sub, type, id, status, lease, input) := packet_prefix input in
  match status with
  | ok => let* update := decode_attributes input in
          Ok (MkPacketView sub type id status lease (Some (base update, revision update, snapshot update)))
  | _ => throw_if negb (is_empty input) as invalid_argument ;; Ok (MkPacketView sub type id status lease None)
  end.

(** The eight bytes at [prefix_bytes + 5] are overwritten in place. *)
Definition remap_replication_subscription (packet : bytes) (id : N) (prefix_bytes : nat) : result bytes :=
  throw_if (id =? 0) || (length packet <? prefix_bytes)%nat || (length packet - prefix_bytes <? 17)%nat ||
           negb (bytes_eqb (take 4 (drop prefix_bytes packet)) (lit "FSN1")) as invalid_argument ;;
  Ok (take (prefix_bytes + 5) packet ++ put_be 8 id ++ drop (prefix_bytes + 13) packet).
