(* ===== verification/MessagesCorrect.v ===== *)
(** * The message envelopes are canonical

    Each parser accepts exactly the encoder's outputs and returns exactly the parts they
    were made from; replication packets round trip, the borrowing decoder agrees with
    the owning one, and remapping changes the subscription and nothing else. *)

From S2P Require Import Prelude OrderedMap Identity Values AttributeWire AttributeCodec Messages.

(** ** Length-prefixed text *)

Lemma byte_val_small n : n < 256 -> byte_val (byte_of n) = n.
Proof. intros H. by rewrite byte_val_of, N.mod_small. Qed.

Lemma take_app_size (s rest : bytes) : take (N.to_nat (size s)) (s ++ rest) = s /\ drop (N.to_nat (size s)) (s ++ rest) = rest.
Proof. unfold size. rewrite Nat2N.id. by rewrite take_app_length, drop_app_length. Qed.

Lemma parse_text_exact maximum input s rest : maximum < 256 ->
  parse_text maximum input = Some (s, rest) <->
  s <> [] /\ size s <= maximum /\ input = [byte_of (size s)] ++ s ++ rest.
Proof.
  intros Hm. unfold parse_text. split.
  - destruct input as [|b input]; [done|]. pose proof (byte_val_lt b) as Hb.
    destruct (_ || _ || _) eqn:E; [done|]. bool_prop. destruct E as [[E1 E2] E3]. intros [= <- <-].
    assert (Es : size (take (N.to_nat (byte_val b)) input) = byte_val b).
    { unfold size in *. rewrite length_take. lia. }
    rewrite Es. split_and!; [|done|cbn [app]; by rewrite byte_of_val, take_drop].
    intros H. rewrite H, size_nil in Es. lia.
  - intros (Hne & Hs & ->). cbn [app]. rewrite byte_val_small by lia. rewrite size_app.
    assert (size s <> 0) by (by rewrite size_0).
    rewrite (proj2 (N.eqb_neq (size s) 0)), (proj2 (N.ltb_ge maximum (size s))), (proj2 (N.ltb_ge (size s + size rest) (size s))) by lia.
    cbn [orb]. destruct (take_app_size s rest) as [-> ->]. done.
Qed.

(** ** FSE3 *)

Definition flag_bits (request type : bytes) : N :=
  N.lor (if is_empty request then 0 else 1) (if is_empty type then 0 else 2).

Lemma flag_bits_spec request type : flag_bits request type <= 3 /\
  N.testbit (flag_bits request type) 0 = negb (is_empty request) /\
  N.testbit (flag_bits request type) 1 = negb (is_empty type).
Proof. unfold flag_bits. by destruct request, type. Qed.

Lemma flags_of f r t : f <= 3 -> N.testbit f 0 = negb (is_empty r) -> N.testbit f 1 = negb (is_empty t) -> f = flag_bits r t.
Proof.
  intros Hf. assert (f = 0 \/ f = 1 \/ f = 2 \/ f = 3) as [->|[->|[->| ->]]] by lia; unfold flag_bits;
    destruct r, t; cbn; done.
Qed.

(** The optional parts. *)
Lemma optional_text (b : bool) maximum input s rest : maximum < 256 ->
  (if b then parse_text maximum input else Some ([], input)) = Some (s, rest) <->
  b = negb (is_empty s) /\ size s <= maximum /\ input = (if is_empty s then [] else [byte_of (size s)] ++ s) ++ rest.
Proof.
  intros Hm. destruct b.
  - rewrite parse_text_exact by done. destruct s as [|x s]; cbn [is_empty negb]; [split; [by intros (? & _)|by intros (? & _)]|].
    rewrite <- app_assoc. split; [intros (_ & H1 & H2); split_and!; done|intros (_ & H1 & H2); split_and!; done].
  - split; [intros [= <- <-]; split_and!; [done|rewrite size_nil; lia|done]|]. intros (Hs & _ & ->). by destruct s.
Qed.

Definition call_guard (method request type : bytes) : Prop :=
  valid_entity_method method = true /\ size request <= 128 /\
  (is_empty type = false -> size type <= 127 /\ has_any dot_nul type = false).

Lemma entity_call_message_spec id m p r t w :
  entity_call_message id m p r t = Ok w <->
  call_guard m r t /\ w = lit "FSE3" ++ put_be 8 (value id) ++ [byte_of (flag_bits r t)] ++ [byte_of (size m)] ++ m ++
    (if is_empty r then [] else [byte_of (size r)] ++ r) ++ (if is_empty t then [] else [byte_of (size t)] ++ t) ++ p.
Proof.
  unfold entity_call_message, call_guard. fold (flag_bits r t). destruct (_ || _ || _) eqn:E; bool_prop; split.
  - done.
  - intros ((Hm & Hr & Ht) & _). exfalso. destruct E as [[E|E]|[E1 E2]]; [congruence|lia|].
    destruct (Ht E1) as [H1 H2]. rewrite H2, orb_false_r in E2. bool_prop. lia.
  - intros [= <-]. split; [|done]. destruct E as [[E1 E2] E3]. split_and!; [done|done|]. intros Ht. rewrite Ht in E3.
    destruct E3 as [|E3]; [done|]. bool_prop. by destruct E3.
  - by intros (_ & ->).
Qed.

Lemma starts_with_drop tag input : starts_with tag input = true -> input = tag ++ drop (length tag) input.
Proof. intros [r ->]%starts_with_true. by rewrite drop_app_length. Qed.

(** The first eight bytes as an integer. *)
Lemma read_id input : (8 <= length input)%nat ->
  exists n, n < 2 ^ 64 /\ fold_left shift_in (take 8 input) 0 = n /\ input = put_be 8 n ++ drop 8 input.
Proof.
  intros Hl. destruct (get_be invalid_argument 8 input) as [[n rest]|] eqn:E.
  - pose proof (get_be_inv _ _ _ _ _ (le_n 8) E) as [H1 H2]. exists n. split; [exact H2|].
    unfold get_be in E. destruct (_ <? _); [done|]. injection E as E1 E2. rewrite <- E2 in H1. by split.
  - unfold get_be in E. destruct (N.ltb_spec (size input) (N.of_nat 8)); [|done]. unfold size in *. lia.
Qed.

Lemma valid_method_size m : valid_entity_method m = true -> m <> [] /\ size m <= 127.
Proof. unfold valid_entity_method. intros H. bool_prop. destruct H as [[[H1 H2] _] _]. by apply is_empty_false in H1. Qed.

Lemma parse_call_complete id m p r t w : EntityId_wf id -> entity_call_message id m p r t = Ok w ->
  parse_entity_call_view w = Some (MkCallView id m p r t).
Proof.
  intros [Hid1 Hid2] ((Hm & Hr & Ht) & ->)%entity_call_message_spec. destruct (valid_method_size m Hm) as [Hne Hms].
  unfold parse_entity_call_view. set (rest := [byte_of (flag_bits r t)] ++ _).
  assert (Hsz : 15 <= size (lit "FSE3" ++ put_be 8 (value id) ++ rest)).
  { unfold rest. rewrite !size_app, size_put_be. assert (size m <> 0) by (by rewrite size_0). change (size (lit "FSE3")) with 4.
    rewrite !size_cons, !size_nil. lia. }
  rewrite (proj2 (N.ltb_ge _ _)), starts_with_app by done. cbn [orb negb].
  change (drop 4 (lit "FSE3" ++ ?x)) with x. rewrite take_app_le, take_ge, drop_app_le, drop_ge by (rewrite length_put_be; lia).
  rewrite get_put_fold by (change (256 ^ N.of_nat 8) with (2 ^ 64); lia). rewrite N.mul_0_l, N.add_0_l.
  rewrite (proj2 (N.eqb_neq _ _)) by lia. unfold rest. cbn [app].
  destruct (flag_bits_spec r t) as (F1 & F2 & F3). rewrite byte_val_small by lia. rewrite (proj2 (N.ltb_ge 3 _)) by done.
  rewrite F2, F3. erewrite (proj2 (parse_text_exact 127 _ m _ ltac:(lia))) by (split_and!; [done|done|reflexivity]).
  cbn [mbind option_bind]. rewrite Hm. cbn [negb].
  erewrite (proj2 (optional_text (negb (is_empty r)) 128 _ r _ ltac:(lia))) by (split_and!; [done|done|reflexivity]).
  cbn [mbind option_bind]. destruct id as [v]. cbn [value]. destruct t as [|c t]; cbn [is_empty negb app]; [done|].
  destruct (Ht eq_refl) as [Ht1 Ht2].
  erewrite (proj2 (parse_text_exact 127 _ (c :: t) p ltac:(lia))) by (split_and!; [done|done|reflexivity]).
  cbn [mbind option_bind]. by rewrite Ht2.
Qed.

Lemma parse_call_sound w v : parse_entity_call_view w = Some v -> EntityId_wf (call_id v) /\
  entity_call_message (call_id v) (call_method v) (call_payload v) (call_request v) (call_type v) = Ok w.
Proof.
  unfold parse_entity_call_view. destruct (_ || _) eqn:E0; [done|]. bool_prop. destruct E0 as [Hsz Htag].
  apply starts_with_drop in Htag. change (length (lit "FSE3")) with 4%nat in Htag. set (i1 := drop 4 w) in *.
  assert (Hl : (8 <= length i1)%nat) by (unfold i1, size in *; rewrite length_drop; lia).
  destruct (read_id i1 Hl) as (n & Hn & -> & Hi1). set (i2 := drop 8 i1) in *.
  destruct (N.eqb_spec n 0) as [|Hn0]; [done|]. destruct i2 as [|f i3]; [done|].
  destruct (N.ltb_spec 3 (byte_val f)) as [|Hf]; [done|].
  destruct (parse_text 127 i3) as [[m i4]|] eqn:Em; [|done]. apply (parse_text_exact 127) in Em as (Hm1 & Hm2 & ->); [|lia].
  cbn [mbind option_bind]. destruct (valid_entity_method m) eqn:Hm; [|done]. cbn [negb].
  destruct (if N.testbit (byte_val f) 0 then _ else _) as [[r i5]|] eqn:Er; [|done].
  apply (optional_text _ 128) in Er as (Fr & Hr & ->); [|lia]. cbn [mbind option_bind].
  assert (Hcall : forall t i6, N.testbit (byte_val f) 1 = negb (is_empty t) ->
    (is_empty t = false -> size t <= 127 /\ has_any dot_nul t = false) ->
    i5 = (if is_empty t then [] else [byte_of (size t)] ++ t) ++ i6 ->
    EntityId_wf (MkEntityId n) /\ entity_call_message (MkEntityId n) m i6 r t = Ok w).
  { intros t i6 Ft Ht ->. split; [split; cbn; lia|]. apply entity_call_message_spec. split; [done|].
    rewrite Htag, Hi1. cbn [value]. rewrite <- (flags_of (byte_val f) r t), byte_of_val by done.
    cbn [app]. by rewrite <- ?app_assoc. }
  destruct (N.testbit (byte_val f) 1) eqn:Ft.
  - destruct (parse_text 127 i5) as [[t i6]|] eqn:Et; [|done]. cbn [mbind option_bind].
    apply (parse_text_exact 127) in Et as (Ht1 & Ht2 & ->); [|lia]. apply is_empty_false in Ht1.
    destruct (has_any dot_nul t) eqn:Ht3; [done|]. intros [= <-]. cbn [call_id call_method call_payload call_request call_type].
    apply Hcall; rewrite ?Ht1; [done|done|]. by rewrite <- app_assoc.
  - cbn [mbind option_bind]. intros [= <-]. cbn [call_id call_method call_payload call_request call_type]. by apply Hcall.
Qed.

(** The FSE3 parser accepts exactly the messages the encoder produces
    for a non-zero identity, and returns the parts they were made from: no two calls
    share an encoding and no call has a second one. *)
Theorem entity_call_exact w v :
  parse_entity_call_view w = Some v <->
  EntityId_wf (call_id v) /\
  entity_call_message (call_id v) (call_method v) (call_payload v) (call_request v) (call_type v) = Ok w.
Proof.
  split; [apply parse_call_sound|]. intros [Hid Hw]. rewrite (parse_call_complete _ _ _ _ _ _ Hid Hw). by destruct v.
Qed.

(** ** FSE1 and FSE2 *)

Lemma length16_put n rest i pre : n < 2 ^ 16 -> length pre = i ->
  length16 (pre ++ [byte_of (N.shiftr n 8)] ++ [byte_of n] ++ rest) i = n.
Proof.
  intros Hn Hi. unfold length16. rewrite (lookup_app_r pre _ i), (lookup_app_r pre _ (S i)) by lia. rewrite Hi, Nat.sub_diag.
  replace (S i - i)%nat with 1%nat by lia. cbn [app lookup list_lookup]. rewrite !byte_val_of.
  rewrite N.shiftr_div_pow2, lor_shift8 by (apply N.mod_upper_bound; lia). change (2 ^ 8) with 256.
  rewrite (N.mod_small (n / 256)) by (apply N.Div0.div_lt_upper_bound; lia). pose proof (N.div_mod n 256 ltac:(lia)). lia.
Qed.

Lemma length16_bytes input i a b : input !! i = Some a -> input !! S i = Some b ->
  let n := length16 input i in n < 2 ^ 16 /\ a = byte_of (N.shiftr n 8) /\ b = byte_of n.
Proof.
  intros Ha Hb. cbv zeta. unfold length16. rewrite Ha, Hb. pose proof (byte_val_lt a). pose proof (byte_val_lt b).
  rewrite lor_shift8 by done. rewrite N.shiftr_div_pow2. change (2 ^ 8) with 256. rewrite N.div_add_l by lia.
  rewrite (N.div_small (byte_val b)) by done. rewrite N.add_0_r, byte_of_val. split_and!; [lia|done|].
  apply (inj byte_val). rewrite byte_val_of, N.add_comm, N.Div0.mod_add. by rewrite N.mod_small.
Qed.

Lemma land_255 n : byte_of (N.land n 255) = byte_of n.
Proof. change 255 with (N.ones 8). rewrite N.land_ones. unfold byte_of. change (2 ^ 8) with 256. by rewrite N.Div0.mod_mod. Qed.

(** A sixteen-bit length and that many bytes. *)
Lemma text16_split input i len : len = length16 input i -> len <> 0 -> N.of_nat i + 2 + len <= size input ->
  let s := take (N.to_nat len) (drop (i + 2) input) in
  size s = len /\
  input = take i input ++ [byte_of (N.shiftr (size s) 8)] ++ [byte_of (size s)] ++ s ++ drop (i + 2 + N.to_nat len) input.
Proof.
  intros -> Hn Hl. unfold size in Hl. cbv zeta. set (len := length16 input i) in *.
  assert (Hs : size (take (N.to_nat len) (drop (i + 2) input)) = len).
  { unfold size. rewrite length_take, length_drop. lia. }
  split; [done|]. rewrite Hs.
  destruct (input !! i) as [a|] eqn:Ea; [|apply lookup_ge_None_1 in Ea; lia].
  destruct (input !! S i) as [b|] eqn:Eb; [|apply lookup_ge_None_1 in Eb; lia].
  destruct (length16_bytes input i a b Ea Eb) as (_ & -> & ->). fold len in Ea, Eb |- *.
  rewrite <- (take_drop i input) at 1. f_equal. apply (drop_S _ _ _) in Ea. apply (drop_S _ _ _) in Eb.
  rewrite Ea. cbn [app]. f_equal. rewrite Eb. f_equal. replace (i + 2)%nat with (S (S i)) by lia.
  replace (S (S i) + N.to_nat len)%nat with (S (S i) + N.to_nat len)%nat by lia. rewrite <- drop_drop. by rewrite take_drop.
Qed.

Lemma entity_message_spec id p r w : entity_message id p r = Ok w <->
  id <> [] /\ size id <= 256 /\ size r <= 128 /\
  w = (if is_empty r then lit "FSE1" else lit "FSE2") ++ [byte_of (N.shiftr (size id) 8)] ++ [byte_of (size id)] ++ id ++
    (if is_empty r then [] else [byte_of (N.shiftr (size r) 8)] ++ [byte_of (size r)] ++ r) ++ p.
Proof.
  unfold entity_message. rewrite land_255. destruct (is_empty id) eqn:Ei; cbn [orb].
  { apply is_empty_true in Ei. split; [done|by intros (? & _)]. }
  apply is_empty_false in Ei. destruct (N.ltb_spec 256 (size id)); [split; [done|lia]|].
  destruct (N.ltb_spec 128 (size r)); [split; [done|lia]|]. split; [by intros [= <-]|by intros (_ & _ & _ & ->)].
Qed.

Lemma parse_message_complete id p r w : entity_message id p r = Ok w -> parse_entity_message w = Some (MkMessage id p r).
Proof.
  intros (Hne & Hi & Hr & ->)%entity_message_spec. assert (Hi0 : size id <> 0) by (by rewrite size_0).
  set (tag := if is_empty r then lit "FSE1" else lit "FSE2"). assert (Ht : length tag = 4%nat) by (unfold tag; by destruct r).
  set (tok := if is_empty r then [] else _). set (w := tag ++ _).
  assert (Hlen : length16 w 4 = size id) by (apply length16_put; [lia|done]).
  assert (Htake : take 4 w = tag) by (unfold w; rewrite take_app_le, take_ge by lia; done).
  assert (Hw : w = (tag ++ [byte_of (N.shiftr (size id) 8)] ++ [byte_of (size id)]) ++ id ++ tok ++ p) by (unfold w; by rewrite <- !app_assoc).
  assert (H6 : length (tag ++ [byte_of (N.shiftr (size id) 8)] ++ [byte_of (size id)]) = 6%nat) by (rewrite !length_app, Ht; done).
  assert (Hd6 : drop 6 w = id ++ tok ++ p) by (rewrite Hw, drop_app_le, drop_ge by lia; done).
  assert (Hsz : size w = 6 + size id + size tok + size p).
  { rewrite Hw. rewrite size_app. unfold size at 1. rewrite H6, !size_app. lia. }
  unfold parse_entity_message. rewrite Hlen, Htake, Hsz, Hd6.
  replace (drop (6 + N.to_nat (size id)) w) with (tok ++ p).
  2:{ rewrite <- drop_drop, Hd6. by destruct (take_app_size id (tok ++ p)) as [_ ->]. }
  destruct (take_app_size id (tok ++ p)) as [-> _].
  assert ((negb (bytes_eqb tag (lit "FSE1")) && negb (bytes_eqb tag (lit "FSE2"))) = false) as -> by (unfold tag; by destruct r).
  rewrite (proj2 (N.ltb_ge (6 + size id + size tok + size p) 6)), (proj2 (N.eqb_neq (size id) 0)),
    (proj2 (N.ltb_ge 256 (size id))), (proj2 (N.ltb_ge (6 + size id + size tok + size p) (6 + size id))) by lia. cbn [orb].
  unfold tag, tok. destruct r as [|c r]; cbn [is_empty]; [done|].
  change (bytes_eqb (lit "FSE2") (lit "FSE2")) with true. cbv iota. set (s := c :: r) in *.
  rewrite <- !app_assoc. set (q := [_] ++ [_] ++ s ++ p).
  assert (Hq16 : length16 q 0 = size s) by (apply (length16_put (size s) (s ++ p) 0 []); [lia|done]).
  rewrite Hq16. assert (Hs0 : size s <> 0) by (by rewrite size_0).
  assert (Hq : size q = 2 + size s + size p) by (unfold q; rewrite !size_app, !size_cons, !size_nil; lia).
  rewrite Hq, (proj2 (N.ltb_ge (2 + size s + size p) 2)), (proj2 (N.eqb_neq (size s) 0)),
    (proj2 (N.ltb_ge 128 (size s))), (proj2 (N.ltb_ge (2 + size s + size p) (2 + size s))) by lia. cbn [orb].
  rewrite <- drop_drop. change (drop 2 q) with (s ++ p). by destruct (take_app_size s p) as [-> ->].
Qed.

Lemma parse_message_sound w v : parse_entity_message w = Some v ->
  entity_message (msg_id v) (msg_payload v) (msg_request v) = Ok w.
Proof.
  unfold parse_entity_message. destruct (_ || _) eqn:E0; [done|]. apply orb_false_iff in E0 as [Hsz Htag].
  apply N.ltb_ge in Hsz. destruct (_ || _ || _) eqn:E1; [done|]. bool_prop. destruct E1 as [[Hn0 Hn] Hl].
  destruct (text16_split w 4 (length16 w 4) eq_refl Hn0 ltac:(lia)) as [Hs Hw]. cbv zeta in Hw.
  change (4 + 2)%nat with 6%nat in *. set (id := take (N.to_nat (length16 w 4)) (drop 6 w)) in *. set (pay := drop (6 + N.to_nat (length16 w 4)) w) in *.
  assert (Hid : id <> []) by (intros H; rewrite H, size_nil in Hs; congruence).
  assert (Htag' : take 4 w = lit "FSE1" \/ take 4 w = lit "FSE2").
  { rewrite !bytes_eqb_eq in Htag. done. }
  destruct (bytes_eqb_spec (take 4 w) (lit "FSE2")) as [E2|E2].
  - destruct (N.ltb_spec (size pay) 2) as [|Hp]; [done|]. destruct (_ || _ || _) eqn:E3; [done|]. bool_prop.
    destruct E3 as [[Hm0 Hm] Hpl]. intros [= <-]. cbn [msg_id msg_payload msg_request].
    destruct (text16_split pay 0 (length16 pay 0) eq_refl Hm0 ltac:(lia)) as [Hs2 Hw2]. cbv zeta in Hw2.
    change (0 + 2)%nat with 2%nat in *. set (tok := take _ (drop 2 pay)) in *.
    apply entity_message_spec. split_and!; [done|lia|lia|].
    assert (is_empty tok = false) as ->.
    { apply is_empty_false. intros H. rewrite H, size_nil in Hs2. congruence. }
    rewrite Hw at 1. rewrite E2, <- !app_assoc. do 4 f_equal. exact Hw2.
  - destruct Htag' as [Htag'|]; [|done]. intros [= <-]. cbn [msg_id msg_payload msg_request].
    apply entity_message_spec. split_and!; [done|lia|rewrite size_nil; lia|]. rewrite Hw at 1. by rewrite Htag'.
Qed.

(** The FSE1/FSE2 parser accepts exactly the encoder's messages. *)
Theorem entity_message_exact w v :
  parse_entity_message w = Some v <-> entity_message (msg_id v) (msg_payload v) (msg_request v) = Ok w.
Proof.
  split; [apply parse_message_sound|]. intros H. rewrite (parse_message_complete _ _ _ _ H). by destruct v.
Qed.

(** ** FSS1 *)

Lemma mod_64_32 n : (n mod 2 ^ 64) mod 2 ^ 32 = n mod 2 ^ 32.
Proof.
  change (2 ^ 64) with (2 ^ 32 * 2 ^ 32). rewrite N.Div0.mod_mul_r.
  rewrite N.mul_comm, N.Div0.mod_add. by rewrite N.Div0.mod_mod.
Qed.

Lemma fold_shift32 s : forall n, fold_left shift_in32 s (n mod 2 ^ 32) = fold_left shift_in s n mod 2 ^ 32.
Proof.
  induction s as [|b s IH]; intros n; [done|]. cbn [fold_left]. rewrite <- IH. f_equal.
  unfold shift_in32, shift_in, wrap64. rewrite !lor_shift8 by apply byte_val_lt. rewrite mod_64_32.
  rewrite <- N.Div0.add_mod_idemp_l, N.Div0.mul_mod_idemp_l, N.Div0.add_mod_idemp_l. done.
Qed.

(** The FSS1 parser accepts exactly the encoder's messages. *)
Theorem state_message_exact w state payload :
  parse_state_message w = Some (state, payload) <-> state_message state payload = Ok w.
Proof.
  unfold parse_state_message, state_message. split.
  - destruct (_ || _) eqn:E; [done|]. apply orb_false_iff in E as [Hsz Htag]. apply N.ltb_ge in Hsz.
    apply negb_false_iff, bytes_eqb_eq in Htag. set (i := drop 4 w) in *.
    assert (Hi : (4 <= length i)%nat) by (unfold i, size in *; rewrite length_drop; lia).
    destruct (get_be invalid_argument 4 i) as [[n rest]|] eqn:Eg.
    2:{ unfold get_be in Eg. destruct (N.ltb_spec (size i) (N.of_nat 4)); [|done]. unfold size in *. lia. }
    pose proof (get_be_inv _ 4 _ _ _ ltac:(lia) Eg) as [Hi' Hn]. change (256 ^ N.of_nat 4) with (2 ^ 32) in Hn.
    unfold get_be in Eg. destruct (_ <? _); [done|]. injection Eg as Ev Er.
    assert (El : fold_left shift_in32 (take 4 i) 0 = n).
    { pose proof (fold_shift32 (take 4 i) 0) as Hf. rewrite Ev, !N.mod_small in Hf by (done || lia). exact Hf. }
    rewrite El. destruct (N.ltb_spec (size w - 8) n) as [|Hl]; [done|].
    assert (Hd : drop 8 w = rest) by (rewrite <- Er; unfold i; by rewrite drop_drop).
    rewrite <- (drop_drop w (N.to_nat n) 8), Hd. intros [= <- <-]. assert (Hrest : size (take (N.to_nat n) rest) = n).
    { rewrite <- Hd. unfold size in *. rewrite length_take, length_drop. lia. }
    rewrite Hrest, (proj2 (N.ltb_ge _ _)) by (unfold u32_max; lia). f_equal. rewrite take_drop, <- Hi', <- Htag. unfold i. apply take_drop.
  - destruct (N.ltb_spec u32_max (size state)) as [|Hs]; [done|]. intros H.
    assert (w = lit "FSS1" ++ put_be 4 (size state) ++ state ++ payload) as -> by congruence. clear H. unfold u32_max in Hs.
    assert (Hw : size (lit "FSS1" ++ put_be 4 (size state) ++ state ++ payload) = 8 + size state + size payload).
    { rewrite !size_app, size_put_be. change (size (lit "FSS1")) with 4. lia. }
    rewrite Hw, (proj2 (N.ltb_ge _ 8)) by lia. change (take 4 (lit "FSS1" ++ ?x)) with (lit "FSS1").
    change (drop 4 (lit "FSS1" ++ ?x)) with x. rewrite bytes_eqb_refl. cbn [negb orb].
    rewrite take_app_le, take_ge by (rewrite length_put_be; lia).
    assert (El : fold_left shift_in32 (put_be 4 (size state)) 0 = size state).
    { pose proof (fold_shift32 (put_be 4 (size state)) 0) as Hf. change (0 mod 2 ^ 32) with 0 in Hf. rewrite Hf.
      rewrite get_put_fold by (change (256 ^ N.of_nat 4) with (2 ^ 32); lia). rewrite N.mul_0_l, N.add_0_l. apply N.mod_small. lia. }
    rewrite El, (proj2 (N.ltb_ge _ _)) by lia. rewrite <- drop_drop.
    replace (drop 8 _) with (state ++ payload).
    + by destruct (take_app_size state payload) as [-> ->].
    + change (drop 8 (lit "FSS1" ++ ?x)) with (drop 4 x). by rewrite drop_app_le, drop_ge by (rewrite length_put_be; lia).
Qed.

(** ** Entity keys and replication packets *)

Definition key_ok (type id : bytes) : bool := negb (bad_part type) && negb (is_empty id) && (size id <=? 256).
Definition wire_key (type id : bytes) : bytes := put_be 1 (size type) ++ type ++ put_be 2 (size id) ++ id.

Lemma validate_key_ok type id : validate_key type id = if key_ok type id then Ok tt else Throw invalid_argument.
Proof.
  unfold validate_key, key_ok. destruct (bad_part type), (is_empty id); cbn [orb negb andb]; try done.
  rewrite N.leb_antisym. by destruct (256 <? size id).
Qed.

Lemma encode_key_ok type id key : encode_entity_key type id = Ok key <-> key_ok type id = true /\ key = wire_key type id.
Proof.
  unfold encode_entity_key. rewrite validate_key_ok. destruct (key_ok type id); cbn [bind]; [|split; [done|by intros [? _]]].
  split; [by intros [= <-]|by intros [_ ->]].
Qed.

Lemma key_ok_sizes type id : key_ok type id = true -> size type < 256 /\ size id < 2 ^ 16.
Proof. unfold key_ok, bad_part. intros H. bool_prop. bool_prop. lia. Qed.

Lemma decode_key_app type id rest : key_ok type id = true ->
  decode_entity_key (wire_key type id ++ rest) = Ok (type, id, rest).
Proof.
  intros Hk. pose proof (key_ok_sizes _ _ Hk) as [H1 H2]. unfold decode_entity_key, wire_key. rewrite <- !app_assoc.
  rewrite get_put_be by (done || lia). cbn [bind]. rewrite get_text_app. cbn [bind].
  rewrite get_put_be by (done || lia). cbn [bind]. rewrite get_text_app. cbn [bind]. by rewrite validate_key_ok, Hk.
Qed.

Lemma get_text_inv n input s rest : get_text n input = Ok (s, rest) -> input = s ++ rest /\ size s = n.
Proof.
  unfold get_text. destruct (N.ltb_spec (size input) n); [done|]. intros [= <- <-]. rewrite take_drop. split; [done|].
  unfold size in *. rewrite length_take. lia.
Qed.

Lemma decode_key_inv input type id rest : decode_entity_key input = Ok (type, id, rest) ->
  key_ok type id = true /\ input = wire_key type id ++ rest.
Proof.
  unfold decode_entity_key. intros H. inv_ok. apply get_be_inv in E as [-> _]; [|lia]. apply get_text_inv in E0 as [-> <-].
  apply get_be_inv in E1 as [-> _]; [|lia]. apply get_text_inv in E2 as [-> <-]. rewrite validate_key_ok in E3.
  destruct (key_ok _ _) eqn:Hk; [|done]. split; [done|]. unfold wire_key. by rewrite <- !app_assoc.
Qed.

Lemma status_of_index s : status_of (status_index s) = Some s.
Proof. by destruct s. Qed.

(** A packet as the C++ types allow it: a 64-bit non-zero subscription, a 32-bit lease,
    and an update exactly when the status is [ok]. *)
Definition packet_wf (p : ReplicationPacket) : Prop :=
  0 < subscription p < 2 ^ 64 /\ lease_ms p < 2 ^ 32 /\
  match packet_status p, packet_update p with
  | ok, Some u => update_wf u
  | ok, None => False
  | _, None => True
  | _, Some _ => False
  end.

Definition packet_head (p : ReplicationPacket) : bytes :=
  lit "FSN1" ++ put_be 1 (status_index (packet_status p)) ++ put_be 8 (subscription p) ++ put_be 4 (lease_ms p) ++
  wire_key (packet_type p) (packet_id p).

Lemma packet_prefix_app p rest : 0 < subscription p < 2 ^ 64 -> lease_ms p < 2 ^ 32 ->
  key_ok (packet_type p) (packet_id p) = true -> size (packet_head p ++ rest) <= 1024 * 1024 ->
  packet_prefix (packet_head p ++ rest) =
    Ok (subscription p, packet_type p, packet_id p, packet_status p, lease_ms p, rest).
Proof.
  intros Hs Hl Hk Hsz. unfold packet_prefix. rewrite (proj2 (N.ltb_ge _ _)) by done.
  unfold packet_head. rewrite <- !app_assoc, starts_with_app. cbn [orb negb]. change (drop 4 (lit "FSN1" ++ ?x)) with x.
  rewrite get_put_be by (lia || by destruct (packet_status p)). cbn [bind]. rewrite status_of_index.
  rewrite get_put_be by (lia || (change (256 ^ N.of_nat 8) with (2 ^ 64); lia)). cbn [bind].
  rewrite (proj2 (N.eqb_neq _ _)) by lia. rewrite get_put_be by (lia || (change (256 ^ N.of_nat 4) with (2 ^ 32); lia)). cbn [bind].
  rewrite decode_key_app by done. cbn [bind]. by rewrite N.mod_small.
Qed.

(** The bytes after the header. *)
Definition packet_body (p : ReplicationPacket) (body : bytes) : Prop :=
  match packet_status p with
  | ok => exists u, packet_update p = Some u /\ encode_attributes u = Ok body
  | _ => body = []
  end.

Lemma encode_packet_spec p w : encode_replication_packet p = Ok w <->
  key_ok (packet_type p) (packet_id p) = true /\ exists body, w = packet_head p ++ body /\ packet_body p body.
Proof.
  unfold encode_replication_packet. split.
  - intros (key & Hk & H)%bind_ok. apply encode_key_ok in Hk as [Hk ->]. split; [done|].
    fold (packet_head p) in H. unfold packet_body. destruct (packet_status p) eqn:Es.
    2-7: exists []; injection H as <-; by rewrite app_nil_r.
    destruct (packet_update p) as [u|]; [|done]. apply bind_ok in H as (r & Hr & [= <-]). eauto.
  - intros (Hk & body & -> & Hb). rewrite (proj2 (encode_key_ok _ _ _) (conj Hk eq_refl)). cbn [bind].
    fold (packet_head p). unfold packet_body in Hb. destruct (packet_status p); [|by rewrite Hb, app_nil_r..].
    destruct Hb as (u & -> & ->). done.
Qed.

Lemma decode_encoded_record u record : update_wf u -> encode_attributes u = Ok record -> decode_attributes record = Ok u.
Proof. intros Hw (Hok & Hn & Hsz & ->)%encode_attributes_spec. by apply decode_encoded. Qed.

(** A replication packet of at most one MiB decodes to itself. *)
Theorem replication_packet_roundtrip p w :
  packet_wf p -> encode_replication_packet p = Ok w -> size w <= 1024 * 1024 -> decode_replication_packet w = Ok p.
Proof.
  intros (Hs & Hl & Hu) (Hk & body & -> & Hb)%encode_packet_spec Hsz.
  unfold decode_replication_packet. rewrite packet_prefix_app by done. cbn [bind]. destruct p as [sub ty id st le up].
  unfold packet_body in Hb. cbn [subscription packet_type packet_id packet_status lease_ms packet_update] in *.
  destruct st; [|destruct up; [done|subst body; done]..].
  destruct Hb as (u & -> & Hr). by rewrite (decode_encoded_record _ _ Hu Hr).
Qed.

(** The borrowing decoder accepts exactly what the owning decoder
    accepts, fails with the same exception, and reports the same header. *)
Theorem packet_view_agrees w :
  decode_replication_packet_view w =
    let* p := decode_replication_packet w in
    Ok (MkPacketView (subscription p) (packet_type p) (packet_id p) (packet_status p) (lease_ms p)
          (match packet_update p with Some u => Some (base u, revision u, snapshot u) | None => None end)).
Proof.
  unfold decode_replication_packet_view, decode_replication_packet.
  destruct (packet_prefix w) as [[[[[[sub ty] id] st] le] rest]|]; cbn [bind]; [|done].
  destruct st; [by destruct (decode_attributes rest)|..]; by destruct (negb (is_empty rest)).
Qed.

(** Remapping a packet behind any prefix rewrites its subscription and
    nothing else: the result is the prefix followed by the encoding of the packet with the
    new subscription. *)
Theorem remap_changes_subscription p w pre id :
  encode_replication_packet p = Ok w -> id <> 0 ->
  exists w', encode_replication_packet (MkPacket id (packet_type p) (packet_id p) (packet_status p) (lease_ms p) (packet_update p)) = Ok w' /\
    remap_replication_subscription (pre ++ w) id (length pre) = Ok (pre ++ w').
Proof.
  intros (Hk & body & -> & Hb)%encode_packet_spec Hid.
  set (p' := MkPacket id _ _ _ _ _). exists (packet_head p' ++ body). split.
  - apply encode_packet_spec. split; [done|]. by exists body.
  - unfold remap_replication_subscription. rewrite (proj2 (N.eqb_neq _ _)) by done.
    assert (Hlen : (17 <= length (packet_head p ++ body))%nat).
    { unfold packet_head. rewrite !length_app, !length_put_be. cbn. lia. }
    rewrite length_app, (proj2 (Nat.ltb_ge _ _)) by lia. rewrite (proj2 (Nat.ltb_ge _ 17)) by lia.
    rewrite drop_app_length. unfold packet_head at 1. rewrite <- !app_assoc. change (take 4 (lit "FSN1" ++ ?x)) with (lit "FSN1").
    rewrite bytes_eqb_refl. cbn [negb orb]. f_equal.
    rewrite take_app_ge, drop_app_ge by lia. replace (length pre + 5 - length pre)%nat with 5%nat by lia.
    replace (length pre + 13 - length pre)%nat with 13%nat by lia. rewrite <- app_assoc. f_equal.
Qed.

(** ** Witnesses *)

Definition sample_packet : ReplicationPacket := MkPacket 7 (lit "Actor") (lit "alice") ok 30000
  (Some (MkUpdate 0 3 true [(lit "hp", AInt (-4))] [])).

Lemma replication_packet_roundtrip_witness :
  exists w, encode_replication_packet sample_packet = Ok w /\ decode_replication_packet w = Ok sample_packet.
Proof.
  eexists. split; [vm_compute; reflexivity|]. apply replication_packet_roundtrip.
  - split_and!; vm_compute; done.
  - vm_compute. reflexivity.
  - vm_compute. done.
Defined.

Lemma remap_changes_subscription_witness :
  exists w w', encode_replication_packet sample_packet = Ok w /\
    remap_replication_subscription (lit "xy" ++ w) 9 2 = Ok (lit "xy" ++ w').
Proof.
  eexists.
  destruct (remap_changes_subscription sample_packet _ (lit "xy") 9 ltac:(vm_compute; reflexivity) ltac:(done)) as (w' & _ & H).
  exists w'. split; [vm_compute; reflexivity|exact H].
Defined.
