(* ===== verification/TimerState.v ===== *)
(** * Entity timers

    [include/fsnet/entity_timer_state.hpp] and [src/entity_timer_state.cpp]: the
    scheduling step [advance_entity_timer], and the FST1 timer state and FTE1 timer
    event codecs. *)

From S2P Require Import Prelude OrderedMap Identity Values AttributeWire Messages.

Inductive TimerMissed := coalesce | catch_up.
#[global] Instance TimerMissed_eq_dec : EqDecision TimerMissed.
Proof. solve_decision. Defined.

Record EntityTimer := MkTimer {
  tkey : bytes; tmethod : bytes; tpayload : bytes; tgeneration : bytes;
  due_ms : Z; interval_ms : Z;          (* std::int64_t *)
  remaining : N;                        (* std::uint64_t *)
  missed : TimerMissed; fixed_delay : bool }.

Record EntityTimerState := MkTimers {
  tsequence : N; ttoken : bytes; tentries : list (bytes * EntityTimer) }.

Record EntityTimerEvent := MkEvent { etimer : EntityTimer; fired_ms : Z }.

Definition timer_payload_limit : N := 65536.
Definition INT64_MAX : Z := 2 ^ 63 - 1.

(** ** Fields *)

(** [integer(out, v)] and [integer(in)] *)
Definition timer_integer (v : N) : bytes := put_be 8 v.
Definition read_timer_integer (input : bytes) : result (N * bytes) := get_be runtime_error 8 input.

Definition timer_blob (v : bytes) : result bytes :=
  throw_if timer_payload_limit <? size v as invalid_argument ;; Ok (timer_integer (size v) ++ v).

Definition read_timer_blob (input : bytes) (maximum : N) : result (bytes * bytes) :=
  let* '(n, input) := read_timer_integer input in
  throw_if (maximum <? n) || (size input <? n) as runtime_error ;;
  Ok (take (N.to_nat n) input, drop (N.to_nat n) input).

(** [valid(timer)] throws unless this holds. *)
Definition timer_valid (t : EntityTimer) : bool :=
  negb (is_empty (tkey t) || (128 <? size (tkey t)) || is_empty (tgeneration t) || (64 <? size (tgeneration t)) ||
        negb (valid_entity_method (tmethod t)) || (timer_payload_limit <? size (tpayload t)) ||
        (due_ms t <? 0)%Z || (interval_ms t <? 0)%Z || (i64_max <? remaining t) ||
        ((interval_ms t =? 0)%Z && negb (remaining t =? 1)) ||
        (fixed_delay t && bool_decide (missed t = catch_up))).

Definition check_timer (t : EntityTimer) : result unit :=
  throw_if negb (timer_valid t) as invalid_argument ;; Ok tt.

(** [static_cast<std::uint64_t>(std::int64_t)] *)
Definition to_u64 (z : Z) : N := Z.to_N (z mod 2 ^ 64).

Definition timer_flags (t : EntityTimer) : N :=
  N.lor (match missed t with coalesce => 0 | catch_up => 1 end) (if fixed_delay t then 2 else 0).

Definition put_timer (t : EntityTimer) : result bytes :=
  let* _ := check_timer t in
  let* k := timer_blob (tkey t) in
  let* m := timer_blob (tmethod t) in
  let* p := timer_blob (tpayload t) in
  let* g := timer_blob (tgeneration t) in
  Ok (k ++ m ++ p ++ g ++ timer_integer (to_u64 (due_ms t)) ++ timer_integer (to_u64 (interval_ms t)) ++
      timer_integer (remaining t) ++ [byte_of (timer_flags t)]).

Definition get_timer (input : bytes) : result (EntityTimer * bytes) :=
  let* '(key, input) := read_timer_blob input 128 in
  let* '(method, input) := read_timer_blob input 127 in
  let* '(payload, input) := read_timer_blob input timer_payload_limit in
  let* '(generation, input) := read_timer_blob input 64 in
  let* '(due, input) := read_timer_integer input in
  let* '(interval, input) := read_timer_integer input in
  throw_if (i64_max <? due) || (i64_max <? interval) as runtime_error ;;
  let* '(rem, input) := read_timer_integer input in
  match input with
  | [] => Throw runtime_error
  | f :: input =>
      let flags := byte_val f in
      throw_if 3 <? flags as runtime_error ;;
      let t := MkTimer key method payload generation (Z.of_N due) (Z.of_N interval) rem
                 (if N.testbit flags 0 then catch_up else coalesce) (N.testbit flags 1) in
      let* _ := check_timer t in
      Ok (t, input)
  end.

(** ** Scheduling *)

Definition with_remaining (t : EntityTimer) (n : N) : EntityTimer :=
  MkTimer (tkey t) (tmethod t) (tpayload t) (tgeneration t) (due_ms t) (interval_ms t) n (missed t) (fixed_delay t).
Definition with_due (t : EntityTimer) (due : Z) : EntityTimer :=
  MkTimer (tkey t) (tmethod t) (tpayload t) (tgeneration t) due (interval_ms t) (remaining t) (missed t) (fixed_delay t).

(** [advance_entity_timer(timer, now)]: the returned flag and the timer after the call. *)
Definition advance_entity_timer (t : EntityTimer) (now : Z) : result (bool * EntityTimer) :=
  let* _ := check_timer t in
  throw_if (now <? due_ms t)%Z as invalid_argument ;;
  if (interval_ms t =? 0)%Z then Ok (false, t)
  else if negb (remaining t =? 0) && (remaining t - 1 =? 0) then Ok (false, with_remaining t 0)
  else
    let t := with_remaining t (if remaining t =? 0 then 0 else remaining t - 1) in
    let base := if fixed_delay t then now else due_ms t in
    let steps := if fixed_delay t || bool_decide (missed t = catch_up) then 1%Z
                 else ((now - due_ms t) / interval_ms t + 1)%Z in
    let available := ((INT64_MAX - base) / interval_ms t)%Z in
    if (available <? steps)%Z then Ok (false, t)
    else Ok (true, with_due t (base + steps * interval_ms t)%Z).

Definition next_entity_timer (s : EntityTimerState) : Z :=
  fold_left (fun due e => if (due_ms e.2 <? due)%Z then due_ms e.2 else due) (tentries s) INT64_MAX.

(** ** State codec *)

Definition timer_size (t : EntityTimer) : N :=
  57 + size (tkey t) + size (tmethod t) + size (tpayload t) + size (tgeneration t).

Definition entity_timers_wire_size (s : EntityTimerState) : result N :=
  throw_if (1024 <? N.of_nat (length (tentries s))) || (64 <? size (ttoken s)) ||
           negb (Bool.eqb (tsequence s =? 0) (is_empty (ttoken s))) ||
           (negb (is_empty (tentries s)) && (tsequence s =? 0)) as invalid_argument ;;
  let* total := fold_result (fun n e =>
    throw_if negb (bytes_eqb e.1 (tkey e.2)) as invalid_argument ;;
    let* _ := check_timer e.2 in
    Ok (n + timer_size e.2)) (tentries s) (28 + size (ttoken s)) in
  throw_if 2 * 1024 * 1024 <? total as length_error ;;
  Ok total.

Definition encode_entity_timers (s : EntityTimerState) : result bytes :=
  let* _ := entity_timers_wire_size s in
  let* token := timer_blob (ttoken s) in
  let head := lit "FST1" ++ timer_integer (tsequence s) ++ token ++ timer_integer (N.of_nat (length (tentries s))) in
  let* out := fold_result (fun out e =>
    throw_if negb (bytes_eqb e.1 (tkey e.2)) as invalid_argument ;;
    let* t := put_timer e.2 in Ok (out ++ t)) (tentries s) head in
  throw_if 2 * 1024 * 1024 <? size out as length_error ;;
  Ok out.

Definition read_timer_entry (st : list (bytes * EntityTimer) * bytes) : result (list (bytes * EntityTimer) * bytes) :=
  let '(entries, input) := st in
  let* '(t, input) := get_timer input in
  let '(entries, fresh) := map_emplace (tkey t) t entries in
  throw_if negb fresh as runtime_error ;;
  Ok (entries, input).

Definition decode_entity_timers (input : bytes) : result EntityTimerState :=
  throw_if negb (starts_with (lit "FST1") input) || (2 * 1024 * 1024 <? size input) as runtime_error ;;
  let input := drop 4 input in
  let* '(sequence, input) := read_timer_integer input in
  let* '(token, input) := read_timer_blob input 64 in
  let* '(count, input) := read_timer_integer input in
  throw_if (1024 <? count) || negb (Bool.eqb (sequence =? 0) (is_empty token)) ||
           (negb (count =? 0) && (sequence =? 0)) as runtime_error ;;
  let* '(entries, input) := iter_result read_timer_entry (N.to_nat count) ([], input) in
  throw_if negb (is_empty input) as runtime_error ;;
  Ok (MkTimers sequence token entries).

(** ** Event codec *)

Definition encode_timer_event (e : EntityTimerEvent) : result bytes :=
  throw_if (fired_ms e <? due_ms (etimer e))%Z as invalid_argument ;;
  let* t := put_timer (etimer e) in
  Ok (lit "FTE1" ++ t ++ timer_integer (to_u64 (fired_ms e))).

Definition decode_timer_event (input : bytes) : result EntityTimerEvent :=
  throw_if (timer_payload_limit + 1024 <? size input) || negb (starts_with (lit "FTE1") input) as runtime_error ;;
  let input := drop 4 input in
  let* '(t, input) := get_timer input in
  let* '(time, input) := read_timer_integer input in
  throw_if negb (is_empty input) || (i64_max <? time) || (time <? to_u64 (due_ms t)) as runtime_error ;;
  Ok (MkEvent t (Z.of_N time)).
