(* ===== verification/TimerCorrect.v ===== *)
(** * Timers are correct

    The schedule [advance_entity_timer] computes, the minimum [next_entity_timer]
    returns, and the round trips and sizes of the timer codecs. *)

From S2P Require Import Prelude OrderedMap Identity Values AttributeWire AttributeCodec Messages MessagesCorrect TimerState.

(** ** Scheduling *)

(** What a valid timer satisfies. *)
Lemma timer_valid_spec t : timer_valid t = true ->
  (tkey t <> [] /\ size (tkey t) <= 128) /\ (tgeneration t <> [] /\ size (tgeneration t) <= 64) /\
  (valid_entity_method (tmethod t) = true /\ size (tpayload t) <= timer_payload_limit) /\
  (0 <= due_ms t)%Z /\ (0 <= interval_ms t)%Z /\ remaining t <= i64_max /\
  (interval_ms t = 0%Z -> remaining t = 1) /\ (fixed_delay t = true -> missed t = coalesce).
Proof.
  unfold timer_valid. intros H. apply negb_true_iff in H. bool_prop. rewrite !is_empty_false in H.
  destruct H as [[[[[[[[[[H1 H2] H3] H4] H5] H6] H7] H8] H9] H10] H11]. split_and!; try done.
  - intros Hi. by destruct H10 as [H10|H10].
  - intros Hf. destruct H11 as [H11|H11]; [congruence|]. apply bool_decide_eq_false in H11. by destruct (missed t).
Qed.

(** The occurrences of a periodic timer: [due], [due + interval], ... *)
Definition on_grid (t : EntityTimer) (when : Z) : Prop := exists k, (0 <= k)%Z /\ when = (due_ms t + k * interval_ms t)%Z.

(** Advancing an expired timer never repeats or loses an occurrence.
    A rescheduled timer is due within [std::int64_t], strictly after its last due time;
    with [fixed_delay] exactly one interval after now; with [catch_up] at the next
    occurrence, missed or not; with [coalesce] at the first occurrence after now.  A finite
    count goes down by one and is never exhausted by a rescheduled timer; identity, method
    and payload are untouched. *)
Theorem advance_schedules t now t' :
  (now <= INT64_MAX)%Z -> advance_entity_timer t now = Ok (true, t') ->
  (due_ms t < due_ms t' <= INT64_MAX)%Z /\
  (fixed_delay t = true -> due_ms t' = (now + interval_ms t)%Z) /\
  (fixed_delay t = false -> missed t = catch_up -> due_ms t' = (due_ms t + interval_ms t)%Z) /\
  (fixed_delay t = false -> missed t = coalesce ->
     on_grid t (due_ms t') /\ (now < due_ms t' <= now + interval_ms t)%Z) /\
  (remaining t = 0 /\ remaining t' = 0 \/ remaining t' + 1 = remaining t /\ 0 < remaining t') /\
  t' = with_due (with_remaining t (remaining t')) (due_ms t').
Proof.
  intros Hnow. unfold advance_entity_timer, check_timer. destruct (timer_valid t) eqn:Hv; [|done]. cbn [negb bind].
  apply timer_valid_spec in Hv as (_ & _ & _ & Hd & Hi & _ & _ & Hf).
  destruct (Z.ltb_spec now (due_ms t)) as [|Hn]; [done|]. destruct (Z.eqb_spec (interval_ms t) 0) as [|Hi0]; [done|].
  destruct (_ && _) eqn:E; [done|]. cbv zeta. cbn [with_remaining fixed_delay missed due_ms interval_ms].
  set (base := if fixed_delay t then now else due_ms t). set (steps := if _ || _ then 1%Z else _).
  destruct (Z.ltb_spec ((INT64_MAX - base) / interval_ms t) steps) as [|Ha]; [done|]. intros [= <-].
  cbn [with_due with_remaining due_ms interval_ms remaining tkey tmethod tpayload tgeneration missed fixed_delay].
  assert (Hmul : (interval_ms t * ((INT64_MAX - base) / interval_ms t) <= INT64_MAX - base)%Z) by (apply Z.mul_div_le; lia).
  assert (Hsteps : (1 <= steps)%Z).
  { unfold steps. destruct (_ || _); [lia|]. pose proof (Z.div_pos (now - due_ms t) (interval_ms t)). lia. }
  assert (Hbase : (due_ms t <= base)%Z) by (unfold base; destruct (fixed_delay t); lia).
  split_and!; [nia|nia|..].
  - intros Hfd. unfold base, steps. rewrite Hfd. cbn [orb]. lia.
  - intros Hfd Hm. unfold base, steps. rewrite Hfd, Hm. cbn [orb]. rewrite bool_decide_true by done. lia.
  - intros Hfd Hm. unfold base, steps. rewrite Hfd, Hm. cbn [orb]. rewrite bool_decide_false by done.
    pose proof (Z.div_mod (now - due_ms t) (interval_ms t) Hi0) as Hdm.
    pose proof (Z.mod_pos_bound (now - due_ms t) (interval_ms t) ltac:(lia)) as Hmb. split; [|nia].
    eexists. split; [|reflexivity]. pose proof (Z.div_pos (now - due_ms t) (interval_ms t)). lia.
  - destruct (N.eqb_spec (remaining t) 0) as [|Hr]; [by left|]. right. cbn [negb andb] in E. bool_prop. lia.
  - done.
Qed.

Lemma advance_schedules_witness :
  exists t', advance_entity_timer (MkTimer (lit "tick") (lit "on_tick") [] (lit "g1") 1000 300 0 coalesce false) 2150 = Ok (true, t') /\
    (1000 < due_ms t' <= INT64_MAX)%Z /\ due_ms t' = 2200%Z.
Proof.
  eexists. split; [vm_compute; reflexivity|].
  destruct (advance_schedules (MkTimer (lit "tick") (lit "on_tick") [] (lit "g1") 1000 300 0 coalesce false) 2150 _
    ltac:(vm_compute; done) ltac:(vm_compute; reflexivity)) as (H & _).
  split; [exact H|reflexivity].
Defined.

(** A valid expired timer stops exactly when no occurrence is left: it has
    no period, its count is used up, or its next due time would not fit [std::int64_t];
    otherwise it is rescheduled. *)
Theorem advance_stops t now :
  timer_valid t = true -> (due_ms t <= now)%Z ->
  exists more t', advance_entity_timer t now = Ok (more, t') /\
    (more = false <->
     interval_ms t = 0%Z \/ remaining t = 1 \/
     ((if fixed_delay t then now else due_ms t) + interval_ms t *
       (if fixed_delay t || bool_decide (missed t = catch_up) then 1 else (now - due_ms t) / interval_ms t + 1) > INT64_MAX)%Z).
Proof.
  intros Hv Hn. unfold advance_entity_timer, check_timer. rewrite Hv. cbn [negb bind].
  apply timer_valid_spec in Hv as (_ & _ & _ & Hd & Hi & _ & Hone & Hf).
  destruct (Z.ltb_spec now (due_ms t)); [lia|]. destruct (Z.eqb_spec (interval_ms t) 0) as [|Hi0].
  { eexists _, _. split; [done|]. split; [by left|done]. }
  destruct (_ && _) eqn:E.
  { eexists _, _. split; [done|]. split; [|done]. intros _. right. left. bool_prop. lia. }
  assert (Hr : remaining t <> 1) by (intros H1; rewrite H1 in E; done).
  cbv zeta. cbn [with_remaining fixed_delay missed due_ms interval_ms].
  set (base := if fixed_delay t then now else due_ms t). set (steps := if _ || _ then 1%Z else _).
  pose proof (Z.mul_succ_div_gt (INT64_MAX - base) (interval_ms t) ltac:(lia)).
  pose proof (Z.mul_div_le (INT64_MAX - base) (interval_ms t) ltac:(lia)).
  destruct (Z.ltb_spec ((INT64_MAX - base) / interval_ms t) steps) as [Ha|Ha]; eexists _, _; (split; [done|]).
  - split; [|done]. intros _. right. right. nia.
  - split; [done|]. intros [?|[?|?]]; [done|done|]. exfalso. nia.
Qed.

Lemma advance_stops_witness :
  exists more t', advance_entity_timer (MkTimer (lit "tick") (lit "on_tick") [] (lit "g1") 1000 300 1 coalesce false) 1200 = Ok (more, t') /\ more = false.
Proof.
  destruct (advance_stops (MkTimer (lit "tick") (lit "on_tick") [] (lit "g1") 1000 300 1 coalesce false) 1200
    ltac:(vm_compute; reflexivity) ltac:(vm_compute; done)) as (more & t' & H & Hiff).
  exists more, t'. split; [exact H|]. apply Hiff. right. left. reflexivity.
Defined.

(** [next_entity_timer] is the earliest due time, [INT64_MAX] when there is none. *)
Lemma next_fold (l : list (bytes * EntityTimer)) : forall d,
  let m := fold_left (fun due e => if (due_ms e.2 <? due)%Z then due_ms e.2 else due) l d in
  (m <= d)%Z /\ Forall (fun e => (m <= due_ms e.2)%Z) l /\ (m = d \/ exists e, e ∈ l /\ m = due_ms e.2).
Proof.
  induction l as [|e l IH]; intros d; cbv zeta; cbn [fold_left]; [split_and!; [lia|constructor|by left]|].
  destruct (IH (if (due_ms e.2 <? d)%Z then due_ms e.2 else d)) as (H1 & H2 & H3).
  set (m := fold_left _ l _) in *. destruct (Z.ltb_spec (due_ms e.2) d) as [Hl|Hl].
  - split_and!; [lia|constructor; [lia|done]|]. right. destruct H3 as [->|(x & Hx & ->)]; [exists e|exists x]; set_solver.
  - split_and!; [lia|constructor; [lia|done]|]. destruct H3 as [->|(x & Hx & ->)]; [by left|right; exists x; set_solver].
Qed.

(** ** Codecs *)

Lemma timer_blob_ok s b : timer_blob s = Ok b -> b = timer_integer (size s) ++ s /\ size s <= timer_payload_limit.
Proof. unfold timer_blob. destruct (N.ltb_spec timer_payload_limit (size s)); [done|]. by intros [= <-]. Qed.
Lemma timer_blob_small s : size s <= timer_payload_limit -> timer_blob s = Ok (timer_integer (size s) ++ s).
Proof. intros H. unfold timer_blob. by rewrite (proj2 (N.ltb_ge _ _)). Qed.

Lemma read_timer_integer_app n rest : n < 2 ^ 64 -> read_timer_integer (timer_integer n ++ rest) = Ok (n, rest).
Proof. intros H. apply get_put_be; [lia|]. by change (256 ^ N.of_nat 8) with (2 ^ 64). Qed.

Lemma read_timer_blob_app s maximum rest : size s <= maximum -> maximum < 2 ^ 64 ->
  read_timer_blob (timer_integer (size s) ++ s ++ rest) maximum = Ok (s, rest).
Proof.
  intros H1 H2. unfold read_timer_blob. rewrite read_timer_integer_app by lia. cbn [bind]. rewrite size_app.
  rewrite (proj2 (N.ltb_ge maximum (size s))), (proj2 (N.ltb_ge (size s + size rest) (size s))) by lia. cbn [orb].
  by destruct (take_app_size s rest) as [-> ->].
Qed.

Definition wire_timer (t : EntityTimer) : bytes :=
  timer_integer (size (tkey t)) ++ tkey t ++ timer_integer (size (tmethod t)) ++ tmethod t ++
  timer_integer (size (tpayload t)) ++ tpayload t ++ timer_integer (size (tgeneration t)) ++ tgeneration t ++
  timer_integer (to_u64 (due_ms t)) ++ timer_integer (to_u64 (interval_ms t)) ++ timer_integer (remaining t) ++
  [byte_of (timer_flags t)].

Lemma size_wire_timer t : size (wire_timer t) = timer_size t.
Proof.
  unfold wire_timer, timer_size, timer_integer. rewrite !size_app, !size_put_be, !size_cons, size_nil. lia.
Qed.

Lemma put_timer_spec t : put_timer t = if timer_valid t then Ok (wire_timer t) else Throw invalid_argument.
Proof.
  unfold put_timer, check_timer. destruct (timer_valid t) eqn:Hv; cbn [negb bind]; [|done].
  apply timer_valid_spec in Hv as ((_ & H1) & (_ & H2) & (H3 & H4) & _). apply valid_method_size in H3 as [_ H3].
  rewrite !timer_blob_small by (unfold timer_payload_limit in *; lia). cbn [bind]. unfold wire_timer. by rewrite <- !app_assoc.
Qed.

(** The widths of the C++ fields. *)
Definition timer_wf (t : EntityTimer) : Prop := (due_ms t <= INT64_MAX)%Z /\ (interval_ms t <= INT64_MAX)%Z.

Lemma to_u64_nonneg z : (0 <= z <= INT64_MAX)%Z -> to_u64 z = Z.to_N z /\ to_u64 z <= i64_max.
Proof. unfold to_u64, INT64_MAX, i64_max. intros H. rewrite Z.mod_small by lia. split; [done|lia]. Qed.

Lemma timer_flags_spec t : (fixed_delay t = true -> missed t = coalesce) -> timer_flags t <= 3 /\
  (if N.testbit (timer_flags t) 0 then catch_up else coalesce) = missed t /\ N.testbit (timer_flags t) 1 = fixed_delay t.
Proof. unfold timer_flags. destruct (missed t), (fixed_delay t); intros H; try (by specialize (H eq_refl)); done. Qed.

Lemma get_timer_app t rest : timer_valid t = true -> timer_wf t -> get_timer (wire_timer t ++ rest) = Ok (t, rest).
Proof.
  intros Hv [W1 W2]. pose proof (timer_valid_spec t Hv) as ((_ & H1) & (_ & H2) & (H3 & H4) & Hd & Hi & Hr & _ & Hf).
  apply valid_method_size in H3 as [_ H3]. destruct (to_u64_nonneg (due_ms t)) as [Ed Bd]; [lia|].
  destruct (to_u64_nonneg (interval_ms t)) as [Ei Bi]; [lia|]. destruct (timer_flags_spec t Hf) as (F1 & F2 & F3).
  unfold get_timer, wire_timer. rewrite <- !app_assoc.
  rewrite read_timer_blob_app by lia. cbn [bind]. rewrite read_timer_blob_app by lia. cbn [bind].
  rewrite read_timer_blob_app by (unfold timer_payload_limit in *; lia). cbn [bind]. rewrite read_timer_blob_app by lia. cbn [bind].
  unfold i64_max in *. rewrite read_timer_integer_app by lia. cbn [bind]. rewrite read_timer_integer_app by lia. cbn [bind].
  rewrite (proj2 (N.ltb_ge _ (to_u64 (due_ms t)))), (proj2 (N.ltb_ge _ (to_u64 (interval_ms t)))) by done. cbn [orb].
  rewrite read_timer_integer_app by lia. cbn [bind app]. rewrite byte_val_small by lia.
  rewrite (proj2 (N.ltb_ge 3 _)) by done. cbv zeta. rewrite F2, F3, Ed, Ei, !Z2N.id by done.
  unfold check_timer. replace (MkTimer _ _ _ _ _ _ _ _ _) with t by (by destruct t). by rewrite Hv.
Qed.

Definition entry_ok (e : bytes * EntityTimer) : bool := bytes_eqb e.1 (tkey e.2) && timer_valid e.2.
Definition timers_ok (s : EntityTimerState) : bool :=
  (N.of_nat (length (tentries s)) <=? 1024) && (size (ttoken s) <=? 64) &&
  Bool.eqb (tsequence s =? 0) (is_empty (ttoken s)) && (is_empty (tentries s) || negb (tsequence s =? 0)) &&
  forallb entry_ok (tentries s).

Definition entries_size (l : list (bytes * EntityTimer)) : N := sum (fun e => timer_size e.2) l.

Lemma size_fold l : forall n, fold_result (fun n e =>
    throw_if negb (bytes_eqb e.1 (tkey e.2)) as invalid_argument ;;
    let* _ := check_timer e.2 in Ok (n + timer_size e.2)) l n =
  if forallb entry_ok l then Ok (n + entries_size l) else Throw invalid_argument.
Proof.
  induction l as [|e l IH]; intros n; cbn [fold_result forallb]; [by rewrite N.add_0_r|].
  unfold entry_ok at 1, check_timer at 1. destruct (bytes_eqb e.1 (tkey e.2)), (timer_valid e.2); cbn [negb bind andb]; try done.
  rewrite IH. destruct (forallb entry_ok l); [|done]. unfold entries_size, sum. cbn [fold_right]. f_equal. lia.
Qed.

Lemma wire_size_timers s : entity_timers_wire_size s =
  if timers_ok s then
    (if 28 + size (ttoken s) + entries_size (tentries s) <=? 2 * 1024 * 1024
     then Ok (28 + size (ttoken s) + entries_size (tentries s)) else Throw length_error)
  else Throw invalid_argument.
Proof.
  unfold entity_timers_wire_size, timers_ok. rewrite size_fold. rewrite !(N.leb_antisym 1024), !(N.leb_antisym 64).
  destruct (1024 <? _); cbn [orb negb andb]; [done|]. destruct (64 <? _); cbn [orb negb andb]; [done|].
  destruct (Bool.eqb _ _); cbn [orb negb andb]; [|done]. destruct (is_empty (tentries s)) eqn:Ee; cbn [orb negb andb].
  - destruct (forallb entry_ok (tentries s)); cbn [bind]; [|done]. rewrite N.leb_antisym. by destruct (_ <? _).
  - destruct (tsequence s =? 0); cbn [negb andb]; [done|]. destruct (forallb entry_ok (tentries s)); cbn [bind]; [|done].
    rewrite N.leb_antisym. by destruct (_ <? _).
Qed.

Definition wire_timers (s : EntityTimerState) : bytes :=
  lit "FST1" ++ timer_integer (tsequence s) ++ timer_integer (size (ttoken s)) ++ ttoken s ++
  timer_integer (N.of_nat (length (tentries s))) ++ concat (map (fun e => wire_timer e.2) (tentries s)).

Lemma size_wire_timers s : size (wire_timers s) = 28 + size (ttoken s) + entries_size (tentries s).
Proof.
  unfold wire_timers, timer_integer. rewrite !size_app, !size_put_be, size_concat_map. change (size (lit "FST1")) with 4.
  unfold entries_size. assert (sum (fun e => size (wire_timer e.2)) (tentries s) = sum (fun e => timer_size e.2) (tentries s)) as ->; [|lia].
  induction (tentries s) as [|e l IH]; [done|]. unfold sum in *. cbn [fold_right]. by rewrite IH, size_wire_timer.
Qed.

Lemma encode_timers_spec s : encode_entity_timers s = let* n := entity_timers_wire_size s in Ok (wire_timers s).
Proof.
  unfold encode_entity_timers. rewrite wire_size_timers. destruct (timers_ok s) eqn:Hok; [|done].
  destruct (N.leb_spec (28 + size (ttoken s) + entries_size (tentries s)) (2 * 1024 * 1024)) as [Hs|]; cbn [bind]; [|done].
  unfold timers_ok in Hok. bool_prop. destruct Hok as [[[[_ Ht] _] _] He].
  rewrite timer_blob_small by (unfold timer_payload_limit; lia). cbn [bind].
  set (head := lit "FST1" ++ _).
  assert (Hf : forall l out, forallb entry_ok l = true -> fold_result (fun out e =>
      throw_if negb (bytes_eqb e.1 (tkey e.2)) as invalid_argument ;; let* t := put_timer e.2 in Ok (out ++ t)) l out =
    Ok (out ++ concat (map (fun e => wire_timer e.2) l))).
  { induction l as [|e l IH]; intros out; cbn [fold_result forallb map concat]; [by rewrite app_nil_r|].
    unfold entry_ok at 1. intros [[H1 H2]%andb_true_iff H3]%andb_true_iff. rewrite H1. cbn [negb].
    rewrite put_timer_spec, H2. cbn [bind]. rewrite IH by done. by rewrite <- app_assoc. }
  rewrite Hf by done. cbn [bind]. assert (Hw : head ++ concat (map (fun e => wire_timer e.2) (tentries s)) = wire_timers s).
  { unfold head, wire_timers. by rewrite <- !app_assoc. }
  rewrite Hw, size_wire_timers, (proj2 (N.ltb_ge _ _)) by done. done.
Qed.

(** The allocation-free size of a timer state is the length of its
    encoding, and it fails with the same exception when the state cannot be encoded. *)
Theorem timers_wire_size_exact s :
  entity_timers_wire_size s = let* w := encode_entity_timers s in Ok (size w).
Proof.
  rewrite encode_timers_spec, wire_size_timers. destruct (timers_ok s); [|done].
  destruct (_ <=? _); [|done]. cbn [bind]. by rewrite size_wire_timers.
Qed.

(** The state as its C++ types allow it. *)
Definition timers_wf (s : EntityTimerState) : Prop :=
  tsequence s < 2 ^ 64 /\ map_wf (tentries s) /\ Forall (fun e => timer_wf e.2) (tentries s).

Lemma read_entries todo : forall dn rest, map_wf (dn ++ todo) -> forallb entry_ok todo = true ->
  Forall (fun e => timer_wf e.2) todo ->
  iter_result read_timer_entry (length todo) (dn, concat (map (fun e => wire_timer e.2) todo) ++ rest) = Ok (dn ++ todo, rest).
Proof.
  induction todo as [|[k t] todo IH]; intros dn rest Hw Ho Hf; cbn [length iter_result map concat]; [by rewrite app_nil_r|].
  cbn [forallb] in Ho. apply andb_true_iff in Ho as [Ho Hos]. unfold entry_ok in Ho. cbn [fst snd] in *.
  apply andb_true_iff in Ho as [->%bytes_eqb_eq Hv]. apply Forall_cons in Hf as [Ht Hf]. cbn [snd] in Ht.
  unfold read_timer_entry at 1. rewrite <- app_assoc, get_timer_app by done. cbn [bind].
  rewrite (map_emplace_last (tkey t) t dn todo) by done. cbn [negb bind]. rewrite IH; [by rewrite <- app_assoc|by rewrite <- app_assoc|done|done].
Qed.

Lemma decode_wire_timers s : timers_wf s -> timers_ok s = true -> size (wire_timers s) <= 2 * 1024 * 1024 ->
  decode_entity_timers (wire_timers s) = Ok s.
Proof.
  intros (W1 & W2 & W3) Hok Hs. unfold decode_entity_timers. rewrite (proj2 (N.ltb_ge _ (size (wire_timers s)))) by done.
  unfold timers_ok in Hok. bool_prop. destruct Hok as [[[[Hl Ht] Hb] Hc] He]. bool_prop.
  unfold wire_timers. rewrite starts_with_app. cbn [negb orb]. change (drop 4 (lit "FST1" ++ ?x)) with x.
  rewrite read_timer_integer_app by done. cbn [bind]. rewrite read_timer_blob_app by lia. cbn [bind].
  rewrite read_timer_integer_app by lia. cbn [bind]. rewrite (proj2 (N.ltb_ge 1024 _)), Hb by done. cbn [negb orb].
  assert ((negb (N.of_nat (length (tentries s)) =? 0) && (tsequence s =? 0)) = false) as ->.
  { destruct Hc as [Hc|Hc]; [apply is_empty_true in Hc; by rewrite Hc|]. by rewrite (proj2 (N.eqb_neq (tsequence s) 0) Hc), andb_false_r. }
  rewrite Nat2N.id. rewrite <- (app_nil_r (concat _)), (read_entries (tentries s) [] []) by done. cbn [bind is_empty negb app].
  by destruct s.
Qed.

(** An encoded timer state decodes to itself, and an encoded timer event
    decodes to itself. *)
Theorem timers_roundtrip :
  (forall s w, timers_wf s -> encode_entity_timers s = Ok w -> decode_entity_timers w = Ok s) /\
  (forall e w, timer_wf (etimer e) -> (fired_ms e <= INT64_MAX)%Z -> encode_timer_event e = Ok w -> decode_timer_event w = Ok e).
Proof.
  split.
  - intros s w Hwf. rewrite encode_timers_spec, wire_size_timers. destruct (timers_ok s) eqn:Hok; [|done].
    destruct (N.leb_spec (28 + size (ttoken s) + entries_size (tentries s)) (2 * 1024 * 1024)); [|done]. cbn [bind].
    intros [= <-]. apply decode_wire_timers; [done|done|by rewrite size_wire_timers].
  - intros [t f] w Ht Hf. cbn [etimer fired_ms] in *. unfold encode_timer_event. cbn [etimer fired_ms].
    destruct (Z.ltb_spec f (due_ms t)) as [|Hd]; [done|]. rewrite put_timer_spec. destruct (timer_valid t) eqn:Hv; [|done]. cbn [bind].
    intros Hw. assert (w = lit "FTE1" ++ wire_timer t ++ timer_integer (to_u64 f)) as -> by congruence. clear Hw.
    pose proof (timer_valid_spec t Hv) as ((_ & H1) & (_ & H2) & (H3 & H4) & Hd0 & _).
    apply valid_method_size in H3 as [_ H3]. destruct (to_u64_nonneg f) as [Ef Bf]; [lia|].
    destruct (to_u64_nonneg (due_ms t)) as [Ed Bd]; [destruct Ht; lia|]. unfold decode_timer_event.
    assert (Hsz : size (lit "FTE1" ++ wire_timer t ++ timer_integer (to_u64 f)) <= timer_payload_limit + 1024).
    { rewrite !size_app, size_wire_timer. unfold timer_size, timer_integer. rewrite size_put_be. change (size (lit "FTE1")) with 4.
      unfold timer_payload_limit in *. lia. }
    rewrite (proj2 (N.ltb_ge _ _)), starts_with_app by done. cbn [negb orb]. change (drop 4 (lit "FTE1" ++ ?x)) with x.
    rewrite get_timer_app by done. cbn [bind]. rewrite <- (app_nil_r (timer_integer (to_u64 f))), read_timer_integer_app by (unfold i64_max in *; lia).
    cbn [bind is_empty negb orb]. rewrite (proj2 (N.ltb_ge i64_max _)), (proj2 (N.ltb_ge (to_u64 f) _)) by (done || lia). cbn [orb].
    f_equal. f_equal. rewrite Ef. apply Z2N.id. lia.
Qed.

Lemma timers_roundtrip_witness :
  let s := MkTimers 3 (lit "tok") [(lit "tick", MkTimer (lit "tick") (lit "on_tick") (lit "x") (lit "g1") 1000 300 0 coalesce true)] in
  exists w, encode_entity_timers s = Ok w /\ decode_entity_timers w = Ok s.
Proof.
  intros s. eexists. split; [vm_compute; reflexivity|].
  apply (proj1 timers_roundtrip); [split_and!; [vm_compute; done..|repeat constructor; vm_compute; done]|vm_compute; reflexivity].
Defined.
