(* ===== verification/Fields.v ===== *)
(** * Fields of durable records

    [snapshot_detail] of [include/fsnet/entity_snapshot.hpp] and
    [entity_record_detail::integer] of [include/fsnet/entity_record.hpp]: 32-bit
    numbers, 64-bit integers and length-prefixed blobs. *)

From S2P Require Import Prelude OrderedMap Identity Values AttributeWire Messages MessagesCorrect.

(** [number(out, v)]: the argument is already cut to 32 bits. *)
Definition number (v : N) : bytes := put_be 4 v.
Definition read_number (input : bytes) : result (N * bytes) := get_be runtime_error 4 input.

Definition blob (v : bytes) : result bytes :=
  throw_if u32_max <? size v as length_error ;; Ok (number (size v) ++ v).

(** [blob_view(in)] and [blob(in)] *)
Definition read_blob (input : bytes) : result (bytes * bytes) :=
  let* '(n, input) := read_number input in
  throw_if size input <? n as runtime_error ;;
  Ok (take (N.to_nat n) input, drop (N.to_nat n) input).

Definition integer (v : N) : bytes := put_be 8 v.
Definition read_integer (input : bytes) : result (N * bytes) := get_be runtime_error 8 input.

(** ** What is read back *)

Definition wire_blob (v : bytes) : bytes := number (size v) ++ v.
Definition blob_ok (v : bytes) : bool := size v <=? u32_max.

Lemma blob_spec v : blob v = if blob_ok v then Ok (wire_blob v) else Throw length_error.
Proof. unfold blob, blob_ok. rewrite N.leb_antisym. by destruct (u32_max <? size v). Qed.

Lemma blob_small v : size v <= u32_max -> blob v = Ok (wire_blob v).
Proof. intros H. rewrite blob_spec. unfold blob_ok. by rewrite (proj2 (N.leb_le _ _)). Qed.

Lemma blob_Ok v b : blob v = Ok b -> size v <= u32_max /\ b = wire_blob v.
Proof. rewrite blob_spec. unfold blob_ok. destruct (N.leb_spec (size v) u32_max); [|done]. by intros [= <-]. Qed.

Lemma size_wire_blob v : size (wire_blob v) = 4 + size v.
Proof. unfold wire_blob, number. rewrite size_app, size_put_be. lia. Qed.

Lemma read_number_app n rest : n < 2 ^ 32 -> read_number (number n ++ rest) = Ok (n, rest).
Proof. intros H. apply get_put_be; [lia|]. by change (256 ^ N.of_nat 4) with (2 ^ 32). Qed.

Lemma read_integer_app n rest : n < 2 ^ 64 -> read_integer (integer n ++ rest) = Ok (n, rest).
Proof. intros H. apply get_put_be; [lia|]. by change (256 ^ N.of_nat 8) with (2 ^ 64). Qed.

Lemma read_blob_app v rest : size v <= u32_max -> read_blob (wire_blob v ++ rest) = Ok (v, rest).
Proof.
  intros H. unfold read_blob, wire_blob. rewrite <- app_assoc. unfold u32_max in H.
  rewrite read_number_app by lia. cbn [bind]. rewrite size_app.
  rewrite (proj2 (N.ltb_ge (size v + size rest) (size v))) by lia. by destruct (take_app_size v rest) as [-> ->].
Qed.
