(* ===== verification/DeliveryState.v ===== *)
(** * Durable delivery state

    [include/fsnet/entity_delivery_state.hpp] and [src/entity_delivery_state.cpp]: the
    exactly-once bookkeeping of one entity (send counters, inbox cursors, outbox), the
    FSD1 delivery, FDA1 acknowledgement, FDS1 state and FDR1 registry codecs.  SHA-256
    (OpenSSL) is a parameter. *)

From S2P Require Import Prelude OrderedMap Identity Values AttributeWire Messages Fields.

Record Result := MkResult { rstatus : Status; rdata : bytes }.

Record DeliveryMessage := MkDelivery {
  ticket : bytes; mtype : bytes; mid : bytes; mmethod : bytes; mpayload : bytes;
  target_epoch : N; msequence : N; mdone : bool; mresult : Result }.

Record DeliveryCursor := MkCursor { csequence : N; cdigest : bytes; cresult : Result }.

Record EntityDeliveryState := MkState {
  depoch : N;
  sent : list (bytes * N);
  inbox : list (bytes * DeliveryCursor);
  outbox : list DeliveryMessage }.

Record DeliveryEnvelope := MkEnvelope {
  source_type : bytes; source_id : bytes; source_epoch : N; emessage : DeliveryMessage }.

Definition delivery_payload_limit : N := 65536.
Definition max_state : N := 8 * 1024 * 1024.

(** ** Results and messages *)

(** [result(out, value)]; an enum value is always in range. *)
Definition put_result (r : Result) : result bytes :=
  throw_if delivery_payload_limit <? size (rdata r) as invalid_argument ;;
  let* d := blob (rdata r) in
  Ok ([byte_of (status_index (rstatus r))] ++ d).

Definition get_result (input : bytes) : result (Result * bytes) :=
  match input with
  | [] => Throw invalid_argument
  | b :: input =>
      match status_of (byte_val b) with
      | None => Throw invalid_argument
      | Some status =>
          let* '(data, input) := read_blob input in
          throw_if delivery_payload_limit <? size data as invalid_argument ;;
          Ok (MkResult status data, input)
      end
  end.

Definition put_message (m : DeliveryMessage) : result bytes :=
  let* _ := entity_route (mtype m) (mmethod m) in
  let* key := encode_entity_key (mtype m) (mid m) in
  throw_if front_is x24 (mmethod m) || (target_epoch m =? 0) || (msequence m =? 0) || negb (size (ticket m) =? 64) ||
           (delivery_payload_limit <? size (mpayload m)) as invalid_argument ;;
  let* t := blob (ticket m) in
  let* me := blob (mmethod m) in
  let* p := blob (mpayload m) in
  let* r := put_result (mresult m) in
  Ok (t ++ key ++ me ++ p ++ integer (target_epoch m) ++ integer (msequence m) ++ [byte_of (bool_bit (mdone m))] ++ r).

Definition get_message (input : bytes) : result (DeliveryMessage * bytes) :=
  let* '(ticket, input) := read_blob input in
  let* '(type, id, input) := decode_entity_key input in
  let* '(method, input) := read_blob input in
  let* '(payload, input) := read_blob input in
  let* '(epoch, input) := read_integer input in
  let* '(sequence, input) := read_integer input in
  match input with
  | [] => Throw invalid_argument
  | b :: input =>
      throw_if 1 <? byte_val b as invalid_argument ;;
      let* '(r, input) := get_result input in
      let m := MkDelivery ticket type id method payload epoch sequence (negb (byte_val b =? 0)) r in
      let* _ := put_message m in
      Ok (m, input)
  end.

(** [end(in)] *)
Definition at_end (input : bytes) : result unit :=
  throw_if negb (is_empty input) as invalid_argument ;; Ok tt.

Definition channel_key (input : bytes) : result unit :=
  let* '(_, _, input) := decode_entity_key input in
  let* '(n, input) := read_integer input in
  throw_if n =? 0 as invalid_argument ;;
  at_end input.

Definition delivery_channel (type id : bytes) (epoch : N) : result bytes :=
  throw_if epoch =? 0 as invalid_argument ;;
  let* key := encode_entity_key type id in Ok (key ++ integer epoch).

(** ** Envelopes *)

Definition encode_delivery (e : DeliveryEnvelope) : result bytes :=
  throw_if (source_epoch e =? 0) || mdone (emessage e) as invalid_argument ;;
  let* key := encode_entity_key (source_type e) (source_id e) in
  let* m := put_message (emessage e) in
  Ok (lit "FSD1" ++ key ++ integer (source_epoch e) ++ m).

Section Tickets.
(** [SHA256(data, size, digest)]: 32 bytes. *)
Context (SHA256 : bytes -> bytes).

(** [hash(input)]: the digest in lowercase hexadecimal. *)
Definition hash (input : bytes) : bytes :=
  concat (map (fun b => [hex_char (N.shiftr (byte_val b) 4); hex_char (N.land (byte_val b) 15)]) (SHA256 input)).

Definition delivery_ticket (e : DeliveryEnvelope) : result bytes :=
  let* source := delivery_channel (source_type e) (source_id e) (source_epoch e) in
  let* target := delivery_channel (mtype (emessage e)) (mid (emessage e)) (target_epoch (emessage e)) in
  Ok (hash (source ++ target ++ integer (msequence (emessage e)))).

Definition delivery_digest (e : DeliveryEnvelope) : result bytes :=
  let* w := encode_delivery e in Ok (hash w).

Definition decode_delivery (input : bytes) : result DeliveryEnvelope :=
  throw_if negb (starts_with (lit "FSD1") input) || (delivery_payload_limit * 3 <? size input) as invalid_argument ;;
  let input := drop 4 input in
  let* '(type, id, input) := decode_entity_key input in
  let* '(epoch, input) := read_integer input in
  let* '(m, input) := get_message input in
  let* _ := at_end input in
  let e := MkEnvelope type id epoch m in
  throw_if (epoch =? 0) || mdone m as invalid_argument ;;
  let* t := delivery_ticket e in
  throw_if negb (bytes_eqb t (ticket m)) as invalid_argument ;;
  Ok e.
End Tickets.

(** ** Acknowledgements *)

Definition encode_delivery_ack (ticket : bytes) (r : Result) : result bytes :=
  throw_if negb (size ticket =? 64) as invalid_argument ;;
  let* t := blob ticket in
  let* v := put_result r in
  Ok (lit "FDA1" ++ t ++ v).

Definition decode_delivery_ack (input : bytes) : result (bytes * Result) :=
  throw_if negb (starts_with (lit "FDA1") input) || (delivery_payload_limit + 128 <? size input) as invalid_argument ;;
  let input := drop 4 input in
  let* '(ticket, input) := read_blob input in
  let* '(r, input) := get_result input in
  let* _ := at_end input in
  throw_if negb (size ticket =? 64) as invalid_argument ;;
  Ok (ticket, r).

(** ** The state record *)

Definition put_counter (out : bytes) (e : bytes * N) : result bytes :=
  let* _ := channel_key e.1 in
  throw_if e.2 =? 0 as invalid_argument ;;
  let* k := blob e.1 in Ok (out ++ k ++ integer e.2).

Definition put_cursor (out : bytes) (e : bytes * DeliveryCursor) : result bytes :=
  let* _ := channel_key e.1 in
  throw_if (csequence e.2 =? 0) || negb (size (cdigest e.2) =? 64) as invalid_argument ;;
  let* k := blob e.1 in
  let* d := blob (cdigest e.2) in
  let* r := put_result (cresult e.2) in
  Ok (out ++ k ++ integer (csequence e.2) ++ d ++ r).

(** The [tickets] set is the list of the tickets inserted so far. *)
Definition put_outgoing (st : bytes * list bytes) (m : DeliveryMessage) : result (bytes * list bytes) :=
  let '(out, tickets) := st in
  throw_if existsb (bytes_eqb (ticket m)) tickets as invalid_argument ;;
  let* w := put_message m in Ok (out ++ w, ticket m :: tickets).

Definition encode_delivery_state (s : EntityDeliveryState) : result bytes :=
  throw_if (depoch s =? 0) || (4096 <? N.of_nat (length (sent s))) || (4096 <? N.of_nat (length (inbox s))) ||
           (1024 <? N.of_nat (length (outbox s))) as invalid_argument ;;
  let out := lit "FDS1" ++ integer (depoch s) ++ number (N.of_nat (length (sent s))) in
  let* out := fold_result put_counter (sent s) out in
  let* out := fold_result put_cursor (inbox s) (out ++ number (N.of_nat (length (inbox s)))) in
  let* '(out, _) := fold_result put_outgoing (outbox s) (out ++ number (N.of_nat (length (outbox s))), []) in
  throw_if max_state <? size out as length_error ;;
  Ok out.

Definition get_counter (st : list (bytes * N) * bytes) : result (list (bytes * N) * bytes) :=
  let '(m, input) := st in
  let* '(key, input) := read_blob input in
  let* _ := channel_key key in
  let* '(n, input) := read_integer input in
  throw_if (512 <? size key) || (n =? 0) as invalid_argument ;;
  let '(m, fresh) := map_emplace key n m in
  throw_if negb fresh as invalid_argument ;;
  Ok (m, input).

Definition get_cursor (st : list (bytes * DeliveryCursor) * bytes) : result (list (bytes * DeliveryCursor) * bytes) :=
  let '(m, input) := st in
  let* '(key, input) := read_blob input in
  let* _ := channel_key key in
  let* '(n, input) := read_integer input in
  let* '(digest, input) := read_blob input in
  let* '(r, input) := get_result input in
  throw_if (512 <? size key) || (n =? 0) || negb (size digest =? 64) as invalid_argument ;;
  let '(m, fresh) := map_emplace key (MkCursor n digest r) m in
  throw_if negb fresh as invalid_argument ;;
  Ok (m, input).

Definition get_outgoing (st : list DeliveryMessage * list bytes * bytes) : result (list DeliveryMessage * list bytes * bytes) :=
  let '(out, tickets, input) := st in
  let* '(m, input) := get_message input in
  throw_if existsb (bytes_eqb (ticket m)) tickets as invalid_argument ;;
  Ok (out ++ [m], ticket m :: tickets, input).

Definition decode_delivery_state (input : bytes) : result EntityDeliveryState :=
  throw_if negb (starts_with (lit "FDS1") input) || (max_state <? size input) as invalid_argument ;;
  let input := drop 4 input in
  let* '(epoch, input) := read_integer input in
  let* '(n, input) := read_number input in
  throw_if 4096 <? n as invalid_argument ;;
  let* '(sent, input) := iter_result get_counter (N.to_nat n) ([], input) in
  let* '(n, input) := read_number input in
  throw_if 4096 <? n as invalid_argument ;;
  let* '(inbox, input) := iter_result get_cursor (N.to_nat n) ([], input) in
  let* '(n, input) := read_number input in
  throw_if 1024 <? n as invalid_argument ;;
  let* '(outbox, _, input) := iter_result get_outgoing (N.to_nat n) ([], [], input) in
  let* _ := at_end input in
  throw_if epoch =? 0 as invalid_argument ;;
  Ok (MkState epoch sent inbox outbox).

Definition delivery_charge (s : EntityDeliveryState) : result N :=
  if depoch s =? 0 then Ok 0
  else
    let* w := encode_delivery_state s in
    Ok (fold_left (fun n m => if mdone m then n else n + delivery_payload_limit) (outbox s) (size w)).

(** ** The source registry *)

Definition encode_delivery_sources (sources : list (bytes * bytes)) : result bytes :=
  throw_if 65536 <? N.of_nat (length sources) as length_error ;;
  fold_result (fun out e => let* k := encode_entity_key e.1 e.2 in Ok (out ++ k)) sources
    (lit "FDR1" ++ number (N.of_nat (length sources))).

Definition pair_eqb (a b : bytes * bytes) : bool := bytes_eqb a.1 b.1 && bytes_eqb a.2 b.2.

Definition get_source (st : list (bytes * bytes) * bytes) : result (list (bytes * bytes) * bytes) :=
  let '(out, input) := st in
  let* '(type, id, input) := decode_entity_key input in
  throw_if existsb (pair_eqb (type, id)) out as invalid_argument ;;
  Ok (out ++ [(type, id)], input).

Definition decode_delivery_sources (input : bytes) : result (list (bytes * bytes)) :=
  throw_if negb (starts_with (lit "FDR1") input) || (32 * 1024 * 1024 <? size input) as invalid_argument ;;
  let input := drop 4 input in
  let* '(n, input) := read_number input in
  throw_if 65536 <? n as invalid_argument ;;
  let* '(out, input) := iter_result get_source (N.to_nat n) ([], input) in
  let* _ := at_end input in
  Ok out.
