(* ===== verification/DeliveryCorrect.v ===== *)
(** * Delivery records are correct

    Round trips of the delivery envelope, acknowledgement, state and registry codecs,
    and what a delivery ticket identifies. *)

From S2P Require Import Prelude OrderedMap Identity Values AttributeWire AttributeCodec Messages MessagesCorrect Fields DeliveryState.

(** ** Results and messages *)

Definition result_ok (r : Result) : bool := size (rdata r) <=? delivery_payload_limit.
Definition wire_result (r : Result) : bytes := [byte_of (status_index (rstatus r))] ++ wire_blob (rdata r).

Lemma put_result_spec r : put_result r = if result_ok r then Ok (wire_result r) else Throw invalid_argument.
Proof.
  unfold put_result, result_ok. rewrite N.leb_antisym. destruct (N.ltb_spec delivery_payload_limit (size (rdata r))); [done|]. cbn [negb].
  rewrite blob_small by (unfold delivery_payload_limit, u32_max in *; lia). done.
Qed.

Lemma get_result_app r rest : result_ok r = true -> get_result (wire_result r ++ rest) = Ok (r, rest).
Proof.
  unfold result_ok. intros H%N.leb_le. unfold get_result, wire_result. cbn [app].
  rewrite byte_val_small by (by destruct (rstatus r)). rewrite status_of_index.
  rewrite read_blob_app by (unfold delivery_payload_limit, u32_max in *; lia). cbn [bind].
  rewrite (proj2 (N.ltb_ge _ _)) by done. by destruct r.
Qed.

Definition message_ok (m : DeliveryMessage) : bool :=
  negb (bad_part (mtype m)) && negb (bad_part (mmethod m)) && key_ok (mtype m) (mid m) && negb (front_is x24 (mmethod m)) &&
  negb (target_epoch m =? 0) && negb (msequence m =? 0) && (size (ticket m) =? 64) &&
  (size (mpayload m) <=? delivery_payload_limit) && result_ok (mresult m).

Definition wire_message (m : DeliveryMessage) : bytes :=
  wire_blob (ticket m) ++ wire_key (mtype m) (mid m) ++ wire_blob (mmethod m) ++ wire_blob (mpayload m) ++
  integer (target_epoch m) ++ integer (msequence m) ++ [byte_of (bool_bit (mdone m))] ++ wire_result (mresult m).

Lemma message_ok_sizes m : message_ok m = true ->
  size (ticket m) = 64 /\ size (mmethod m) <= 127 /\ size (mpayload m) <= delivery_payload_limit /\
  key_ok (mtype m) (mid m) = true /\ result_ok (mresult m) = true.
Proof. unfold message_ok, bad_part. intros H. bool_prop. bool_prop. tauto. Qed.

Lemma put_message_Ok m w : put_message m = Ok w <-> message_ok m = true /\ w = wire_message m.
Proof.
  unfold put_message, entity_route, message_ok. split.
  - destruct (bad_part (mtype m)), (bad_part (mmethod m)); cbn [orb bind negb andb]; try done.
    destruct (encode_entity_key (mtype m) (mid m)) as [key|] eqn:Ek; cbn [bind]; [|done]. apply encode_key_ok in Ek as [-> ->].
    destruct (_ || _ || _ || _ || _) eqn:E; [done|]. bool_prop. destruct E as [[[[E1 E2] E3] E4] E5].
    rewrite put_result_spec. rewrite !blob_spec. intros H. destruct (blob_ok (ticket m)); [|done]. cbn [bind] in H.
    destruct (blob_ok (mmethod m)); [|done]. cbn [bind] in H. destruct (blob_ok (mpayload m)); [|done]. cbn [bind] in H.
    destruct (result_ok (mresult m)); [|done]. cbn [bind] in H.
    split; [tauto|]. unfold wire_message. by injection H.
  - intros [H ->]. pose proof (message_ok_sizes m H) as (S1 & S2 & S3 & S4 & S5). bool_prop.
    destruct H as [[[[[[[[H1 H2] H3] H4] H5] H6] H7] H8] H9]. rewrite H1, H2. cbn [orb bind].
    rewrite (proj2 (encode_key_ok _ _ _) (conj S4 eq_refl)). cbn [bind].
    rewrite H4, (proj2 (N.eqb_neq _ _) H5), (proj2 (N.eqb_neq _ _) H6), S1, (proj2 (N.ltb_ge _ _) S3). cbn [orb N.eqb negb].
    unfold delivery_payload_limit, u32_max in *. rewrite !blob_small by (unfold u32_max; lia). cbn [bind].
    rewrite put_result_spec, S5. done.
Qed.

(** Epochs and sequences are 64-bit. *)
Definition message_wf (m : DeliveryMessage) : Prop := target_epoch m < 2 ^ 64 /\ msequence m < 2 ^ 64.

Lemma get_message_app m rest : message_ok m = true -> message_wf m ->
  get_message (wire_message m ++ rest) = Ok (m, rest).
Proof.
  intros Hok [W1 W2]. pose proof (message_ok_sizes m Hok) as (S1 & S2 & S3 & S4 & S5).
  unfold delivery_payload_limit, u32_max in *. unfold get_message, wire_message. rewrite <- !app_assoc.
  rewrite read_blob_app by (unfold u32_max; lia). cbn [bind]. rewrite decode_key_app by done. cbn [bind].
  rewrite read_blob_app by (unfold u32_max; lia). cbn [bind]. rewrite read_blob_app by (unfold u32_max; lia). cbn [bind].
  rewrite read_integer_app by done. cbn [bind]. rewrite read_integer_app by done. cbn [bind app].
  rewrite byte_val_small by (by destruct (mdone m)). rewrite (proj2 (N.ltb_ge 1 _)) by (destruct (mdone m); cbn; lia).
  change (byte_of (status_index (rstatus (mresult m))) :: wire_blob (rdata (mresult m)) ++ rest) with (wire_result (mresult m) ++ rest).
  rewrite get_result_app by done. cbn [bind].
  assert (negb (bool_bit (mdone m) =? 0) = mdone m) as -> by (by destruct (mdone m)).
  replace (MkDelivery _ _ _ _ _ _ _ _ _) with m by (by destruct m).
  rewrite (proj2 (put_message_Ok m _) (conj Hok eq_refl)). done.
Qed.

(** ** Envelopes and acknowledgements *)

Lemma encode_delivery_Ok e w : encode_delivery e = Ok w <->
  source_epoch e <> 0 /\ mdone (emessage e) = false /\ key_ok (source_type e) (source_id e) = true /\ message_ok (emessage e) = true /\
  w = lit "FSD1" ++ wire_key (source_type e) (source_id e) ++ integer (source_epoch e) ++ wire_message (emessage e).
Proof.
  unfold encode_delivery. split.
  - destruct (_ || _) eqn:E; [done|]. bool_prop. destruct E as [E1 E2].
    destruct (encode_entity_key _ _) as [key|] eqn:Ek; cbn [bind]; [|done]. apply encode_key_ok in Ek as [Hk ->].
    destruct (put_message _) as [m|] eqn:Em; cbn [bind]; [|done]. apply put_message_Ok in Em as [Hm ->]. intros H.
    split_and!; try done. congruence.
  - intros (E1 & E2 & Hk & Hm & ->). rewrite (proj2 (N.eqb_neq _ _) E1), E2. cbn [orb].
    rewrite (proj2 (encode_key_ok _ _ _) (conj Hk eq_refl)). cbn [bind]. by rewrite (proj2 (put_message_Ok _ _) (conj Hm eq_refl)).
Qed.

Lemma size_wire_key type id : key_ok type id = true -> size (wire_key type id) <= 386.
Proof.
  unfold key_ok, bad_part, wire_key. intros H. bool_prop. bool_prop. rewrite !size_app, !size_put_be. lia.
Qed.

Lemma size_wire_message m : message_ok m = true -> size (wire_message m) <= 132000.
Proof.
  intros H. pose proof (message_ok_sizes m H) as (S1 & S2 & S3 & S4 & S5). unfold result_ok in S5. apply N.leb_le in S5.
  pose proof (size_wire_key _ _ S4). unfold wire_message, wire_result, integer. rewrite !size_app, !size_wire_blob, !size_put_be, !size_cons, !size_nil.
  unfold delivery_payload_limit in *. lia.
Qed.

Section Tickets.
Context (SHA256 : bytes -> bytes).

(** A delivery whose ticket is the one of its channel decodes to itself
    at the receiver; a delivery with any other ticket is refused. *)
Theorem delivery_roundtrip e w :
  source_epoch e < 2 ^ 64 -> message_wf (emessage e) -> encode_delivery e = Ok w ->
  (delivery_ticket SHA256 e = Ok (ticket (emessage e)) -> decode_delivery SHA256 w = Ok e) /\
  (delivery_ticket SHA256 e <> Ok (ticket (emessage e)) -> decode_delivery SHA256 w = Throw invalid_argument).
Proof.
  intros We Wm (E1 & E2 & Hk & Hm & ->)%encode_delivery_Ok. unfold decode_delivery.
  assert (Hsz : size (lit "FSD1" ++ wire_key (source_type e) (source_id e) ++ integer (source_epoch e) ++ wire_message (emessage e)) <= delivery_payload_limit * 3).
  { rewrite !size_app. pose proof (size_wire_key _ _ Hk). pose proof (size_wire_message _ Hm). unfold integer. rewrite size_put_be.
    change (size (lit "FSD1")) with 4. unfold delivery_payload_limit. lia. }
  rewrite starts_with_app, (proj2 (N.ltb_ge _ _) Hsz). cbn [negb orb]. change (drop 4 (lit "FSD1" ++ ?x)) with x.
  rewrite decode_key_app by done. cbn [bind]. rewrite read_integer_app by done. cbn [bind].
  rewrite <- (app_nil_r (wire_message (emessage e))), get_message_app by done. cbn [bind at_end is_empty negb].
  rewrite (proj2 (N.eqb_neq _ _) E1), E2. cbn [orb]. replace (MkEnvelope _ _ _ _) with e by (by destruct e). split.
  - intros ->. cbn [bind]. by rewrite bytes_eqb_refl.
  - intros Hne. destruct (delivery_ticket SHA256 e) as [t|x] eqn:Et; cbn [bind].
    + rewrite (proj2 (bytes_eqb_neq t (ticket (emessage e)))); [done|]. congruence.
    + exfalso. unfold delivery_ticket, delivery_channel in Et. rewrite (proj2 (N.eqb_neq _ _) E1) in Et.
      rewrite (proj2 (encode_key_ok _ _ _) (conj Hk eq_refl)) in Et. cbn [bind] in Et.
      pose proof (message_ok_sizes _ Hm) as (_ & _ & _ & S4 & _).
      assert (target_epoch (emessage e) <> 0) by (unfold message_ok in Hm; bool_prop; tauto).
      rewrite (proj2 (N.eqb_neq _ _)) in Et by done. rewrite (proj2 (encode_key_ok _ _ _) (conj S4 eq_refl)) in Et. done.
Qed.

(** Two hexadecimal digits determine the byte. *)
Lemma hex_pair_inj a b : hex_char (N.shiftr (byte_val a) 4) = hex_char (N.shiftr (byte_val b) 4) ->
  hex_char (N.land (byte_val a) 15) = hex_char (N.land (byte_val b) 15) -> a = b.
Proof.
  intros H1 H2. assert (Hlt : forall c : byte, N.shiftr (byte_val c) 4 < 16 /\ N.land (byte_val c) 15 < 16).
  { intros c. pose proof (byte_val_lt c). rewrite N.shiftr_div_pow2. change 15 with (N.ones 4). rewrite N.land_ones.
    change (2 ^ 4) with 16. split; [apply N.Div0.div_lt_upper_bound; lia|apply N.mod_upper_bound; lia]. }
  destruct (Hlt a) as [A1 A2], (Hlt b) as [B1 B2]. apply (inj byte_val). rewrite <- (shift4_split (byte_val a)), <- (shift4_split (byte_val b)).
  pose proof (hex_digit_char _ A1) as D1. pose proof (hex_digit_char _ B1) as D2. rewrite H1, D2 in D1. injection D1 as D1.
  pose proof (hex_digit_char _ A2) as D3. pose proof (hex_digit_char _ B2) as D4. rewrite H2, D4 in D3. injection D3 as D3.
  by rewrite D1, D3.
Qed.

Lemma hash_inj a b : hash SHA256 a = hash SHA256 b -> SHA256 a = SHA256 b.
Proof.
  unfold hash. generalize (SHA256 a) (SHA256 b). intros x. induction x as [|c x IH]; intros [|d y]; cbn [map concat app]; try done.
  intros [= H1 H2 H3]. f_equal; [by apply hex_pair_inj|by apply IH].
Qed.

(** What a ticket is the digest of. *)
Definition ticket_text (e : DeliveryEnvelope) : bytes :=
  (wire_key (source_type e) (source_id e) ++ integer (source_epoch e)) ++
  (wire_key (mtype (emessage e)) (mid (emessage e)) ++ integer (target_epoch (emessage e))) ++ integer (msequence (emessage e)).

Lemma delivery_channel_Ok type id epoch c : delivery_channel type id epoch = Ok c ->
  key_ok type id = true /\ c = wire_key type id ++ integer epoch.
Proof.
  unfold delivery_channel. destruct (epoch =? 0); [done|]. intros (k & Hk & H)%bind_ok.
  apply encode_key_ok in Hk as [Hk ->]. split; [done|congruence].
Qed.

Lemma delivery_ticket_Ok e t : delivery_ticket SHA256 e = Ok t ->
  key_ok (source_type e) (source_id e) = true /\ key_ok (mtype (emessage e)) (mid (emessage e)) = true /\
  t = hash SHA256 (ticket_text e).
Proof.
  intros (s & [K1 ->]%delivery_channel_Ok & H)%bind_ok. apply bind_ok in H as (c & [K2 ->]%delivery_channel_Ok & H).
  split; [done|]. split; [done|]. unfold ticket_text. congruence.
Qed.

Definition parse_ticket (input : bytes) : result (bytes * bytes * N * bytes * bytes * N * N) :=
  let* '(a, b, i) := decode_entity_key input in
  let* '(c, i) := read_integer i in
  let* '(d, f, i) := decode_entity_key i in
  let* '(g, i) := read_integer i in
  let* '(h, i) := read_integer i in Ok (a, b, c, d, f, g, h).

Lemma parse_ticket_text e : key_ok (source_type e) (source_id e) = true -> source_epoch e < 2 ^ 64 ->
  key_ok (mtype (emessage e)) (mid (emessage e)) = true -> message_wf (emessage e) ->
  parse_ticket (ticket_text e) = Ok (source_type e, source_id e, source_epoch e, mtype (emessage e),
    mid (emessage e), target_epoch (emessage e), msequence (emessage e)).
Proof.
  intros A1 A2 A3 [A4 A5]. unfold parse_ticket, ticket_text.
  rewrite <- !app_assoc, decode_key_app by done. cbn [bind]. rewrite read_integer_app by done. cbn [bind].
  rewrite decode_key_app by done. cbn [bind]. rewrite read_integer_app by done. cbn [bind].
  rewrite <- (app_nil_r (integer (msequence (emessage e)))), read_integer_app by done. done.
Qed.

(** A ticket identifies one delivery: two deliveries with the same ticket
    have the same source and target entities and epochs and the same sequence number,
    unless SHA-256 collides. *)
Theorem ticket_identifies_delivery e1 e2 t :
  source_epoch e1 < 2 ^ 64 -> source_epoch e2 < 2 ^ 64 -> message_wf (emessage e1) -> message_wf (emessage e2) ->
  delivery_ticket SHA256 e1 = Ok t -> delivery_ticket SHA256 e2 = Ok t ->
  (source_type e1 = source_type e2 /\ source_id e1 = source_id e2 /\ source_epoch e1 = source_epoch e2 /\
   mtype (emessage e1) = mtype (emessage e2) /\ mid (emessage e1) = mid (emessage e2) /\
   target_epoch (emessage e1) = target_epoch (emessage e2) /\ msequence (emessage e1) = msequence (emessage e2)) \/
  exists x y, x <> y /\ SHA256 x = SHA256 y.
Proof.
  intros W1 W2 V1 V2 (K1 & K2 & ->)%delivery_ticket_Ok (K3 & K4 & H)%delivery_ticket_Ok.
  destruct (decide (ticket_text e1 = ticket_text e2)) as [E|E].
  - left. pose proof (parse_ticket_text e1 K1 W1 K2 V1) as P1. rewrite E, parse_ticket_text in P1 by done.
    by injection P1 as -> -> -> -> -> -> ->.
  - right. exists (ticket_text e1), (ticket_text e2). split; [done|]. by apply hash_inj.
Qed.
End Tickets.

Lemma encode_ack_spec t r w : encode_delivery_ack t r = Ok w -> size t = 64 /\ result_ok r = true /\ w = lit "FDA1" ++ wire_blob t ++ wire_result r.
Proof.
  unfold encode_delivery_ack. destruct (N.eqb_spec (size t) 64) as [Ht|]; [|done]. cbn [negb].
  rewrite blob_small by (unfold u32_max; lia). cbn [bind]. rewrite put_result_spec. destruct (result_ok r) eqn:Hr; [|done]. cbn [bind].
  intros H. split_and!; [done..|congruence].
Qed.

Lemma ack_size t r w : encode_delivery_ack t r = Ok w -> size w <= delivery_payload_limit + 128.
Proof.
  intros (Ht & Hr & ->)%encode_ack_spec. unfold result_ok in Hr. apply N.leb_le in Hr.
  unfold wire_result. rewrite !size_app, !size_wire_blob, !size_cons, size_nil. change (size (lit "FDA1")) with 4. lia.
Qed.

(** An acknowledgement is decoded as it was encoded. *)
Lemma ack_decodes t r w : encode_delivery_ack t r = Ok w -> decode_delivery_ack w = Ok (t, r).
Proof.
  intros H. pose proof (ack_size _ _ _ H) as Hsz. apply encode_ack_spec in H as (Ht & Hr & ->).
  unfold decode_delivery_ack. rewrite starts_with_app, (proj2 (N.ltb_ge _ _) Hsz). cbn [negb orb]. change (drop 4 (lit "FDA1" ++ ?x)) with x.
  rewrite read_blob_app by (unfold u32_max; lia). cbn [bind]. rewrite <- (app_nil_r (wire_result r)), get_result_app by done.
  cbn [bind at_end is_empty negb]. by rewrite Ht.
Qed.

(** ** The state record *)

Lemma channel_key_Ok k : channel_key k = Ok tt -> size k <= 394.
Proof.
  unfold channel_key. intros H. apply bind_ok in H as ([[type id] i] & Hd & H). cbv beta iota in H.
  apply bind_ok in H as ([n i'] & Hn & H). cbv beta iota in H. destruct (n =? 0); [done|].
  unfold at_end in H. destruct i' as [|b i']; [|done]. apply get_be_inv in Hn as [-> _]; [|lia].
  apply decode_key_inv in Hd as [Hk ->]. pose proof (size_wire_key _ _ Hk) as Hs. rewrite size_app, app_nil_r, size_put_be. lia.
Qed.

Definition counter_ok (e : bytes * N) : Prop := channel_key e.1 = Ok tt /\ e.2 <> 0.
Definition wire_counter (e : bytes * N) : bytes := wire_blob e.1 ++ integer e.2.
Definition cursor_ok (e : bytes * DeliveryCursor) : Prop :=
  channel_key e.1 = Ok tt /\ csequence e.2 <> 0 /\ size (cdigest e.2) = 64 /\ result_ok (cresult e.2) = true.
Definition wire_cursor (e : bytes * DeliveryCursor) : bytes :=
  wire_blob e.1 ++ integer (csequence e.2) ++ wire_blob (cdigest e.2) ++ wire_result (cresult e.2).

Lemma put_counter_Ok e out out' : put_counter out e = Ok out' -> counter_ok e /\ out' = out ++ wire_counter e.
Proof.
  unfold put_counter. intros ([] & Hc & H)%bind_ok. destruct (N.eqb_spec e.2 0); [done|].
  apply bind_ok in H as (b & [_ ->]%blob_Ok & H). split; [done|]. unfold wire_counter. congruence.
Qed.

Lemma put_cursor_Ok e out out' : put_cursor out e = Ok out' -> cursor_ok e /\ out' = out ++ wire_cursor e.
Proof.
  unfold put_cursor. intros ([] & Hc & H)%bind_ok. destruct (_ || _) eqn:E; [done|]. bool_prop. destruct E as [E1 E2].
  apply bind_ok in H as (b & [_ ->]%blob_Ok & H). apply bind_ok in H as (d & [_ ->]%blob_Ok & H).
  rewrite put_result_spec in H. destruct (result_ok (cresult e.2)) eqn:Hr; [|done]. cbn [bind] in H.
  split; [done|]. unfold wire_cursor. congruence.
Qed.

Lemma get_counter_app k n m rest : counter_ok (k, n) /\ n < 2 ^ 64 -> get_counter (m, wire_counter (k, n) ++ rest) =
  let '(m', fresh) := map_emplace k n m in throw_if negb fresh as invalid_argument ;; Ok (m', rest).
Proof.
  intros [[Hc Hn] Hw]. cbn [fst snd] in *. pose proof (channel_key_Ok k Hc) as Hs. unfold get_counter, wire_counter. cbn [fst snd].
  rewrite <- app_assoc, read_blob_app by (unfold u32_max; lia). cbn [bind]. rewrite Hc. cbn [bind].
  rewrite read_integer_app by done. cbn [bind]. rewrite (proj2 (N.ltb_ge 512 _)), (proj2 (N.eqb_neq _ _) Hn) by lia. done.
Qed.

Lemma get_cursor_app k c m rest : cursor_ok (k, c) /\ csequence c < 2 ^ 64 -> get_cursor (m, wire_cursor (k, c) ++ rest) =
  let '(m', fresh) := map_emplace k c m in throw_if negb fresh as invalid_argument ;; Ok (m', rest).
Proof.
  intros [(Hc & Hn & Hd & Hr) Hw]. cbn [fst snd] in *. pose proof (channel_key_Ok k Hc) as Hs. unfold get_cursor, wire_cursor. cbn [fst snd].
  rewrite <- !app_assoc, read_blob_app by (unfold u32_max; lia). cbn [bind]. rewrite Hc. cbn [bind].
  rewrite read_integer_app by done. cbn [bind]. rewrite read_blob_app by (unfold u32_max; lia). cbn [bind].
  rewrite get_result_app by done. cbn [bind]. rewrite (proj2 (N.ltb_ge 512 _)), (proj2 (N.eqb_neq _ _) Hn), Hd by lia.
  by destruct c.
Qed.

Lemma existsb_ticket t l : existsb (bytes_eqb t) l = false <-> t ∉ l.
Proof.
  induction l as [|x l IH]; cbn [existsb]; [split; [set_solver|done]|]. rewrite orb_false_iff, IH, bytes_eqb_neq. set_solver.
Qed.

Lemma put_outgoing_fold l : forall out seen out' seen', fold_result put_outgoing l (out, seen) = Ok (out', seen') ->
  Forall (fun m => message_ok m = true) l /\ NoDup (ticket <$> l) /\ (forall m, m ∈ l -> ticket m ∉ seen) /\
  out' = out ++ concat (map wire_message l).
Proof.
  induction l as [|m l IH]; intros out seen out' seen'; cbn [fold_result].
  - intros [= <- <-]. cbn. rewrite app_nil_r. split_and!; try constructor. set_solver.
  - unfold put_outgoing at 1. destruct (existsb _ _) eqn:E; [done|]. apply existsb_ticket in E.
    rewrite bind_ok. intros (st & H1 & H2). apply bind_ok in H1 as (w & [Hm ->]%put_message_Ok & [= <-]).
    apply IH in H2 as (H3 & H4 & H5 & ->). split_and!; [by constructor| | |].
    + cbn [fmap list_fmap]. constructor; [|done]. intros (m' & E1 & E2)%list_elem_of_fmap. specialize (H5 m' E2). set_solver.
    + intros m' [->|Hin]%elem_of_cons; [done|]. specialize (H5 m' Hin). set_solver.
    + cbn [map concat]. by rewrite <- app_assoc.
Qed.

Lemma get_outgoing_fold todo : forall dn seen rest, Forall (fun m => message_ok m = true) todo -> Forall message_wf todo ->
  NoDup (ticket <$> todo) -> (forall m, m ∈ todo -> ticket m ∉ seen) ->
  exists seen', iter_result get_outgoing (length todo) (dn, seen, concat (map wire_message todo) ++ rest) = Ok (dn ++ todo, seen', rest).
Proof.
  induction todo as [|m todo IH]; intros dn seen rest Ho Hw Hd Hs; cbn [length iter_result map concat].
  - exists seen. by rewrite app_nil_r.
  - apply Forall_cons in Ho as [Ho Ho'], Hw as [Hw Hw']. cbn [fmap list_fmap] in Hd. apply NoDup_cons in Hd as [Hd Hd'].
    unfold get_outgoing at 1. rewrite <- app_assoc, get_message_app by done. cbn [bind].
    rewrite (proj2 (existsb_ticket _ _)) by (apply Hs; set_solver). cbn [bind].
    destruct (IH (dn ++ [m]) (ticket m :: seen) rest Ho' Hw' Hd') as (seen' & E).
    + intros m' Hin. apply not_elem_of_cons. split; [|apply Hs; set_solver]. intros E. apply Hd. rewrite <- E. by apply list_elem_of_fmap_2.
    + exists seen'. rewrite E. by rewrite <- app_assoc.
Qed.

(** The state as its C++ types allow it: ordered maps and 64-bit counters. *)
Definition delivery_wf (s : EntityDeliveryState) : Prop :=
  depoch s < 2 ^ 64 /\ map_wf (sent s) /\ map_wf (inbox s) /\ Forall (fun e => e.2 < 2 ^ 64) (sent s) /\
  Forall (fun e => csequence e.2 < 2 ^ 64) (inbox s) /\ Forall message_wf (outbox s).

Definition wire_delivery_state (s : EntityDeliveryState) : bytes :=
  lit "FDS1" ++ integer (depoch s) ++ number (N.of_nat (length (sent s))) ++ concat (map wire_counter (sent s)) ++
  number (N.of_nat (length (inbox s))) ++ concat (map wire_cursor (inbox s)) ++
  number (N.of_nat (length (outbox s))) ++ concat (map wire_message (outbox s)).

Record state_ok (s : EntityDeliveryState) : Prop := {
  ok_epoch : depoch s <> 0;
  ok_sent : N.of_nat (length (sent s)) <= 4096 /\ Forall counter_ok (sent s);
  ok_inbox : N.of_nat (length (inbox s)) <= 4096 /\ Forall cursor_ok (inbox s);
  ok_outbox : N.of_nat (length (outbox s)) <= 1024 /\ Forall (fun m => message_ok m = true) (outbox s) /\ NoDup (ticket <$> outbox s);
  ok_size : size (wire_delivery_state s) <= max_state }.

Lemma encode_state_Ok s w : encode_delivery_state s = Ok w -> state_ok s /\ w = wire_delivery_state s.
Proof.
  unfold encode_delivery_state. destruct (_ || _) eqn:E; [done|]. bool_prop. destruct E as [[[E1 E2] E3] E4].
  intros (o1 & [F1 ->]%(fold_result_append _ _ _ _ put_counter_Ok) & H)%bind_ok.
  apply bind_ok in H as (o2 & [F2 ->]%(fold_result_append _ _ _ _ put_cursor_Ok) & H).
  apply bind_ok in H as ([o3 seen] & (F3 & F4 & _ & ->)%put_outgoing_fold & H).
  match type of H with (throw_if _ <? size ?o as _ ;; _) = _ => assert (Ew : o = wire_delivery_state s) end.
  { unfold wire_delivery_state. by rewrite <- !app_assoc. }
  rewrite Ew in H. destruct (N.ltb_spec max_state (size (wire_delivery_state s))); [done|].
  split; [by constructor|congruence].
Qed.

Lemma decode_wire_state s : delivery_wf s -> state_ok s -> decode_delivery_state (wire_delivery_state s) = Ok s.
Proof.
  intros (W1 & W2 & W3 & W4 & W5 & W6) [E1 [E2 F2] [E3 F3] (E4 & F4 & F5) Hs].
  unfold decode_delivery_state. rewrite (proj2 (N.ltb_ge _ _) Hs). unfold wire_delivery_state.
  rewrite starts_with_app. cbn [negb orb]. change (drop 4 (lit "FDS1" ++ ?x)) with x.
  rewrite read_integer_app by done. cbn [bind]. rewrite read_number_app by lia. cbn [bind]. rewrite (proj2 (N.ltb_ge 4096 _)), Nat2N.id by done.
  rewrite (read_map_entries get_counter wire_counter invalid_argument (fun e => counter_ok e /\ e.2 < 2 ^ 64) get_counter_app (sent s) []); [|done|by apply Forall_and]. cbn [bind app].
  rewrite read_number_app by lia. cbn [bind]. rewrite (proj2 (N.ltb_ge 4096 _)), Nat2N.id by done.
  rewrite (read_map_entries get_cursor wire_cursor invalid_argument (fun e => cursor_ok e /\ csequence e.2 < 2 ^ 64) get_cursor_app (inbox s) []); [|done|by apply Forall_and]. cbn [bind app].
  rewrite read_number_app by lia. cbn [bind]. rewrite (proj2 (N.ltb_ge 1024 _)), Nat2N.id by done.
  destruct (get_outgoing_fold (outbox s) [] [] [] F4 W6 F5) as (seen & Eg); [set_solver|]. rewrite app_nil_r in Eg. rewrite Eg.
  cbn [bind app at_end is_empty negb]. rewrite (proj2 (N.eqb_neq _ _) E1). by destruct s.
Qed.

(** An encoded delivery state decodes to itself. *)
Theorem delivery_state_roundtrip s w :
  delivery_wf s -> encode_delivery_state s = Ok w -> decode_delivery_state w = Ok s.
Proof. intros Hw [Ho ->]%encode_state_Ok. by apply decode_wire_state. Qed.

(** ** The source registry *)

Lemma existsb_pair p l : existsb (pair_eqb p) l = false <-> p ∉ l.
Proof.
  induction l as [|x l IH]; cbn [existsb]; [split; [set_solver|done]|]. rewrite orb_false_iff, IH, not_elem_of_cons.
  assert (pair_eqb p x = false <-> p <> x) as ->; [|done]. unfold pair_eqb. destruct p as [a b], x as [c d]. cbn [fst snd].
  rewrite andb_false_iff, !bytes_eqb_neq. destruct (decide (a = c)); naive_solver.
Qed.

Definition wire_source (e : bytes * bytes) : bytes := wire_key e.1 e.2.

Lemma get_source_fold todo : forall dn rest, Forall (fun e => key_ok e.1 e.2 = true) todo -> NoDup (dn ++ todo) ->
  iter_result get_source (length todo) (dn, concat (map wire_source todo) ++ rest) = Ok (dn ++ todo, rest).
Proof.
  induction todo as [|[a b] todo IH]; intros dn rest Hk Hd; cbn [length iter_result map concat]; [by rewrite app_nil_r|].
  apply Forall_cons in Hk as [Hk Hk']. unfold get_source at 1. rewrite <- app_assoc. unfold wire_source at 1. cbn [fst snd] in *.
  rewrite decode_key_app by done. cbn [bind]. rewrite (proj2 (existsb_pair _ _)).
  - cbn [bind]. rewrite IH; [by rewrite <- app_assoc|done|by rewrite <- app_assoc].
  - apply NoDup_app in Hd as (_ & Hd & _). intros Hin. apply (Hd _ Hin). set_solver.
Qed.

Lemma size_sources l : Forall (fun e => key_ok e.1 e.2 = true) l -> size (concat (map wire_source l)) <= 386 * N.of_nat (length l).
Proof.
  induction 1 as [|[a b] l Hk Hf IH]; cbn [map concat length]; [done|]. rewrite size_app. unfold wire_source at 1.
  pose proof (size_wire_key _ _ Hk). cbn [fst snd] in *. lia.
Qed.

(** The registry of delivery sources (a set of entities, at most 65536)
    always decodes to itself: its encoding never exceeds what the decoder accepts. *)
Theorem delivery_sources_roundtrip l w :
  NoDup l -> encode_delivery_sources l = Ok w -> decode_delivery_sources w = Ok l.
Proof.
  intros Hd. unfold encode_delivery_sources. destruct (N.ltb_spec 65536 (N.of_nat (length l))) as [|Hl]; [done|].
  intros [Hk ->]%(fold_result_append _ wire_source (fun e => key_ok e.1 e.2 = true)); last first.
  { intros e out out' (k & [Hk ->]%encode_key_ok & He)%bind_ok. split; [done|]. unfold wire_source. congruence. }
  unfold decode_delivery_sources. rewrite <- app_assoc, starts_with_app. cbn [negb orb].
  rewrite (proj2 (N.ltb_ge _ _)); last first.
  { rewrite !size_app. pose proof (size_sources l Hk). change (size (lit "FDR1")) with 4. unfold number. rewrite size_put_be. lia. }
  change (drop 4 (lit "FDR1" ++ ?x)) with x. rewrite read_number_app by lia. cbn [bind].
  rewrite (proj2 (N.ltb_ge _ _) Hl), Nat2N.id. rewrite <- (app_nil_r (concat _)), get_source_fold by done. done.
Qed.

(** ** Witnesses *)

(** A digest function of the right size, for concrete inputs. *)
Definition sample_digest (x : bytes) : bytes := take 32 (drop 4 x ++ repeat x07 32).
Definition sample_message (t : bytes) : DeliveryMessage :=
  MkDelivery t (lit "Player") (lit "p1") (lit "credit") (lit "5") 9 1 false (MkResult ok []).
Definition sample_envelope : DeliveryEnvelope :=
  let e := MkEnvelope (lit "Shop") (lit "s1") 4 (sample_message []) in
  match delivery_ticket sample_digest e with
  | Ok t => MkEnvelope (lit "Shop") (lit "s1") 4 (sample_message t)
  | Throw _ => e
  end.

Lemma delivery_roundtrip_witness : exists w, encode_delivery sample_envelope = Ok w /\ decode_delivery sample_digest w = Ok sample_envelope.
Proof.
  eexists. split; [vm_compute; reflexivity|].
  apply (delivery_roundtrip sample_digest sample_envelope); [vm_compute; done|split; vm_compute; done|vm_compute; reflexivity|vm_compute; reflexivity].
Defined.

(** The same delivery with another payload has the same ticket. *)
Definition sample_other : DeliveryEnvelope :=
  MkEnvelope (lit "Shop") (lit "s1") 4 (MkDelivery [] (lit "Player") (lit "p1") (lit "debit") (lit "6") 9 1 false (MkResult ok [])).

Lemma ticket_identifies_delivery_witness :
  exists t, delivery_ticket sample_digest sample_envelope = Ok t /\ delivery_ticket sample_digest sample_other = Ok t /\
    ((source_type sample_envelope = source_type sample_other /\ source_id sample_envelope = source_id sample_other /\
      source_epoch sample_envelope = source_epoch sample_other /\
      mtype (emessage sample_envelope) = mtype (emessage sample_other) /\ mid (emessage sample_envelope) = mid (emessage sample_other) /\
      target_epoch (emessage sample_envelope) = target_epoch (emessage sample_other) /\
      msequence (emessage sample_envelope) = msequence (emessage sample_other)) \/
     exists x y, x <> y /\ sample_digest x = sample_digest y).
Proof.
  eexists. split; [vm_compute; reflexivity|]. split; [vm_compute; reflexivity|].
  eapply (ticket_identifies_delivery sample_digest sample_envelope sample_other);
    [vm_compute; done|vm_compute; done|split; vm_compute; done|split; vm_compute; done|vm_compute; reflexivity|vm_compute; reflexivity].
Defined.

Definition sample_state : EntityDeliveryState :=
  let c := match delivery_channel (lit "Shop") (lit "s1") 4 with Ok c => c | Throw _ => [] end in
  MkState 4 [(c, 7)] [(c, MkCursor 3 (repeat x62 64) (MkResult rejected (lit "no")))] [sample_message (repeat x61 64)].

Lemma delivery_state_roundtrip_witness :
  exists w, encode_delivery_state sample_state = Ok w /\ decode_delivery_state w = Ok sample_state.
Proof.
  eexists. split; [vm_compute; reflexivity|].
  apply delivery_state_roundtrip; [split_and!; [vm_compute; done..|repeat constructor|repeat constructor|repeat constructor]|vm_compute; reflexivity].
Defined.

Lemma delivery_sources_roundtrip_witness :
  exists w, encode_delivery_sources [(lit "Shop", lit "s1"); (lit "Player", lit "p1")] = Ok w /\
            decode_delivery_sources w = Ok [(lit "Shop", lit "s1"); (lit "Player", lit "p1")].
Proof.
  eexists. split; [vm_compute; reflexivity|].
  apply delivery_sources_roundtrip; [apply (bool_decide_unpack _); vm_compute; done|vm_compute; reflexivity].
Defined.
