(* ===== verification/Records.v ===== *)
(** * Entity snapshots and records

    [include/fsnet/entity_snapshot.hpp] and [include/fsnet/entity_record.hpp]: the FSP1,
    FSP2 and FSP3 snapshot formats and the FER5 record that carries ownership, fence,
    placement, metadata and snapshot in one storage value.  A view of a record holds
    the same bytes as the record itself, so [EntityMetadataView] is [EntityMetadata]
    and [EntityRecordView] keeps the snapshot encoded. *)

From S2P Require Import Prelude OrderedMap Identity Values AttributeWire Messages Fields TimerState DeliveryState.

(** ** Snapshots *)

Record EntityReceipt := MkReceipt { eid : bytes; route : bytes; request : bytes; response : bytes }.

Definition receipt_bytes (r : EntityReceipt) : N := 16 + size (eid r) + size (route r) + size (request r) + size (response r).

Record EntitySnapshot := MkSnapshot {
  state : bytes; receipts : list EntityReceipt; delivery : EntityDeliveryState; timers : EntityTimerState }.

Definition no_delivery : EntityDeliveryState := MkState 0 [] [] [].
Definition no_timers : EntityTimerState := MkTimers 0 [] [].

Definition skip_receipt (input : bytes) : result bytes :=
  let* '(_, input) := read_blob input in
  let* '(_, input) := read_blob input in
  let* '(_, input) := read_blob input in
  let* '(_, input) := read_blob input in Ok input.

(** The flags byte of FSP3: whether a delivery blob follows. *)
Definition read_flags (input : bytes) : result (bool * bytes) :=
  match input with
  | [] => Throw runtime_error
  | b :: input => throw_if 1 <? byte_val b as runtime_error ;; Ok (negb (byte_val b =? 0), input)
  end.

Definition validate_snapshot_framing (input : bytes) : result unit :=
  let with_timers := starts_with (lit "FSP3") input in
  let with_delivery := starts_with (lit "FSP2") input in
  throw_if negb with_timers && negb with_delivery && negb (starts_with (lit "FSP1") input) as runtime_error ;;
  let* '(_, input) := read_blob (drop 4 input) in
  let* '(count, input) := read_number input in
  throw_if 1024 <? count as runtime_error ;;
  let* input := iter_result skip_receipt (N.to_nat count) input in
  let* '(with_delivery, input) := if with_timers then read_flags input else Ok (with_delivery, input) in
  let* input := if with_delivery then let* '(_, input) := read_blob input in Ok input else Ok input in
  let* input := if with_timers then let* '(_, input) := read_blob input in Ok input else Ok input in
  throw_if negb (is_empty input) as runtime_error ;; Ok tt.

Definition put_receipt (out : bytes) (r : EntityReceipt) : result bytes :=
  let* a := blob (eid r) in
  let* b := blob (route r) in
  let* c := blob (request r) in
  let* d := blob (response r) in Ok (out ++ a ++ b ++ c ++ d).

Definition has_timers (s : EntityTimerState) : bool :=
  negb (is_empty (ttoken s)) || negb (tsequence s =? 0) || negb (is_empty (tentries s)).

Definition encode_snapshot (s : EntitySnapshot) : result bytes :=
  let d := delivery s in
  throw_if (depoch d =? 0) && (negb (is_empty (sent d)) || negb (is_empty (inbox d)) || negb (is_empty (outbox d))) as invalid_argument ;;
  let with_timers := has_timers (timers s) in
  let with_delivery := negb (depoch d =? 0) in
  let* st := blob (state s) in
  let out := lit (if with_timers then "FSP3" else if with_delivery then "FSP2" else "FSP1") ++ st in
  throw_if 1024 <? N.of_nat (length (receipts s)) as length_error ;;
  let* out := fold_result put_receipt (receipts s) (out ++ number (N.of_nat (length (receipts s)))) in
  let out := if with_timers then out ++ [byte_of (bool_bit with_delivery)] else out in
  let* out := if with_delivery then let* e := encode_delivery_state d in let* b := blob e in Ok (out ++ b) else Ok out in
  if with_timers then let* e := encode_entity_timers (timers s) in let* b := blob e in Ok (out ++ b) else Ok out.

Definition get_receipt (st : list EntityReceipt * bytes) : result (list EntityReceipt * bytes) :=
  let '(out, input) := st in
  let* '(a, input) := read_blob input in
  let* '(b, input) := read_blob input in
  let* '(c, input) := read_blob input in
  let* '(d, input) := read_blob input in Ok (out ++ [MkReceipt a b c d], input).

Definition decode_snapshot (input : bytes) : result EntitySnapshot :=
  let with_timers := starts_with (lit "FSP3") input in
  let with_delivery := starts_with (lit "FSP2") input in
  throw_if negb with_timers && negb with_delivery && negb (starts_with (lit "FSP1") input) as runtime_error ;;
  let* '(st, input) := read_blob (drop 4 input) in
  let* '(count, input) := read_number input in
  throw_if 1024 <? count as runtime_error ;;
  let* '(rs, input) := iter_result get_receipt (N.to_nat count) ([], input) in
  let* '(with_delivery, input) := if with_timers then read_flags input else Ok (with_delivery, input) in
  let* '(d, input) := if with_delivery then let* '(b, input) := read_blob input in let* d := decode_delivery_state b in Ok (d, input)
                      else Ok (no_delivery, input) in
  let* '(t, input) := if with_timers then let* '(b, input) := read_blob input in let* t := decode_entity_timers b in Ok (t, input)
                      else Ok (no_timers, input) in
  throw_if negb (is_empty input) as runtime_error ;;
  Ok (MkSnapshot st rs d t).

Definition decode_snapshot_timers (input : bytes) : result EntityTimerState :=
  if negb (starts_with (lit "FSP3") input) then
    let* _ := validate_snapshot_framing input in Ok no_timers
  else
    let* '(_, input) := read_blob (drop 4 input) in
    let* '(count, input) := read_number input in
    throw_if 1024 <? count as runtime_error ;;
    let* input := iter_result skip_receipt (N.to_nat count) input in
    let* '(with_delivery, input) := read_flags input in
    let* input := if with_delivery then let* '(_, input) := read_blob input in Ok input else Ok input in
    let* '(b, input) := read_blob input in
    let* t := decode_entity_timers b in
    throw_if negb (is_empty input) as runtime_error ;; Ok t.

(** ** Records *)

Record EntityMetadata := MkMetadata {
  metadata_type : bytes; owner_connection : bytes; creation_digest : bytes;
  rebuildable : bool; destroyed : bool; initial_state : bytes; owner_revision : N }.

Record EntityRecord := MkRecord {
  owner : bytes; expires_ms : Z; fence : N; snapshot : EntitySnapshot;
  initialized : bool; placement : bytes; transfer_id : N; metadata : option EntityMetadata }.

Record EntityRecordView := MkRecordView {
  view_owner : bytes; view_expires_ms : Z; view_fence : N; view_snapshot : bytes;
  view_initialized : bool; view_placement : bytes; view_transfer_id : N; view_metadata : option EntityMetadata }.

Definition entity_record_key (id : EntityId) : bytes := lit "fsnet/entity/v2/" ++ str id.

Definition valid_entity_metadata (m : EntityMetadata) : bool :=
  negb (is_empty (metadata_type m)) && (size (metadata_type m) <=? 127) && negb (has_any dot_nul (metadata_type m)) &&
  (is_empty (owner_connection m) || valid_connection_key (owner_connection m)) && negb (owner_revision m =? 0) &&
  (size (creation_digest m) =? 32) && (size (initial_state m) <=? 8 * 1024 * 1024) &&
  (rebuildable m || is_empty (initial_state m)).

Definition bad_placement (placement : bytes) (transfer_id : N) : bool :=
  (negb (is_empty placement) && negb (valid_entity_node placement)) || (is_empty placement && negb (transfer_id =? 0)).

Definition encode_entity_record (r : EntityRecord) : result bytes :=
  throw_if (256 <? size (owner r)) || (expires_ms r <? 0)%Z || (i64_max <=? fence r) as invalid_argument ;;
  throw_if bad_placement (placement r) (transfer_id r) as invalid_argument ;;
  match metadata r with
  | None => Throw invalid_argument
  | Some m =>
      throw_if negb (valid_entity_metadata m) as invalid_argument ;;
      let* o := blob (owner r) in
      let* p := blob (placement r) in
      let* ty := blob (metadata_type m) in
      let* oc := blob (owner_connection m) in
      let* init := blob (initial_state m) in
      let* sn := encode_snapshot (snapshot r) in
      Ok (lit "FER5" ++ o ++ integer (to_u64 (expires_ms r)) ++ integer (fence r) ++
          [byte_of (bool_bit (initialized r))] ++ p ++ integer (transfer_id r) ++ ty ++ oc ++
          [byte_of (N.lor (bool_bit (rebuildable m)) (if destroyed m then 2 else 0))] ++ init ++ creation_digest m ++
          integer (owner_revision m) ++ sn)
  end.

(** [entity_record_detail::header] *)
Definition header (input : bytes) : result EntityRecordView :=
  throw_if negb (starts_with (lit "FER5") input) as runtime_error ;;
  let* '(owner, input) := read_blob (drop 4 input) in
  let* '(expires, input) := read_integer input in
  let* '(fence, input) := read_integer input in
  throw_if (256 <? size owner) || (i64_max <? expires) || (i64_max <=? fence) as runtime_error ;;
  let* '(initialized, input) := read_flags input in
  let* '(placement, input) := read_blob input in
  let* '(transfer_id, input) := read_integer input in
  throw_if bad_placement placement transfer_id as runtime_error ;;
  let* '(type, input) := read_blob input in
  let* '(connection, input) := read_blob input in
  match input with
  | [] => Throw runtime_error
  | b :: input =>
      throw_if 3 <? byte_val b as runtime_error ;;
      let* '(initial, input) := read_blob input in
      throw_if size input <? 32 as runtime_error ;;
      let* '(revision, rest) := read_integer (drop 32 input) in
      let m := MkMetadata type connection (take 32 input) (N.testbit (byte_val b) 0) (N.testbit (byte_val b) 1) initial revision in
      throw_if negb (valid_entity_metadata m) as runtime_error ;;
      Ok (MkRecordView owner (Z.of_N expires) fence rest initialized placement transfer_id (Some m))
  end.

Definition decode_entity_record_view (input : bytes) : result EntityRecordView :=
  let* record := header input in
  let* _ := validate_snapshot_framing (view_snapshot record) in Ok record.

Definition decode_entity_record (input : bytes) : result EntityRecord :=
  let* view := header input in
  let* sn := decode_snapshot (view_snapshot view) in
  Ok (MkRecord (view_owner view) (view_expires_ms view) (view_fence view) sn (view_initialized view)
        (view_placement view) (view_transfer_id view) (view_metadata view)).
