(* ===== verification/RecordsCorrect.v ===== *)
(** * Snapshots and records are correct

    Round trips of the snapshot and record codecs, and agreement of the partial readers
    (framing check, timers only, record view) with the full decoder. *)

From S2P Require Import Prelude OrderedMap Identity Values AttributeWire Messages MessagesCorrect TimerState TimerCorrect.
From S2P Require Import Fields DeliveryState DeliveryCorrect Records.

(** ** Snapshots *)

Definition receipt_ok (r : EntityReceipt) : Prop :=
  size (eid r) <= u32_max /\ size (route r) <= u32_max /\ size (request r) <= u32_max /\ size (response r) <= u32_max.
Definition wire_receipt (r : EntityReceipt) : bytes :=
  wire_blob (eid r) ++ wire_blob (route r) ++ wire_blob (request r) ++ wire_blob (response r).

Lemma put_receipt_Ok r out out' : put_receipt out r = Ok out' -> receipt_ok r /\ out' = out ++ wire_receipt r.
Proof.
  intros (a & [Ha ->]%blob_Ok & H)%bind_ok. apply bind_ok in H as (b & [Hb ->]%blob_Ok & H).
  apply bind_ok in H as (c & [Hc ->]%blob_Ok & H). apply bind_ok in H as (d & [Hd ->]%blob_Ok & H).
  split; [done|]. unfold wire_receipt. congruence.
Qed.

Lemma get_receipts todo : forall dn rest, Forall receipt_ok todo ->
  iter_result get_receipt (length todo) (dn, concat (map wire_receipt todo) ++ rest) = Ok (dn ++ todo, rest).
Proof.
  induction todo as [|r todo IH]; intros dn rest Hf; cbn [length iter_result map concat]; [by rewrite app_nil_r|].
  apply Forall_cons in Hf as [(H1 & H2 & H3 & H4) Hf]. unfold get_receipt at 1, wire_receipt at 1. rewrite <- !app_assoc.
  rewrite !read_blob_app by done. cbn [bind]. rewrite read_blob_app by done. cbn [bind]. rewrite read_blob_app by done. cbn [bind].
  rewrite read_blob_app by done. cbn [bind]. rewrite IH by done. rewrite <- app_assoc. by destruct r.
Qed.

(** The snapshot as its C++ types allow it. *)
Definition snapshot_wf (s : EntitySnapshot) : Prop := delivery_wf (delivery s) /\ timers_wf (timers s).

Definition wire_optional (present : bool) (b : bytes) : bytes := if present then wire_blob b else [].

Definition wire_snapshot (s : EntitySnapshot) : bytes :=
  let with_timers := has_timers (timers s) in
  let with_delivery := negb (depoch (delivery s) =? 0) in
  lit (if with_timers then "FSP3" else if with_delivery then "FSP2" else "FSP1") ++ wire_blob (state s) ++
  number (N.of_nat (length (receipts s))) ++ concat (map wire_receipt (receipts s)) ++
  (if with_timers then [byte_of (bool_bit with_delivery)] else []) ++
  wire_optional with_delivery (wire_delivery_state (delivery s)) ++ wire_optional with_timers (wire_timers (timers s)).

Record snapshot_ok (s : EntitySnapshot) : Prop := {
  ok_state : size (state s) <= u32_max;
  ok_receipts : N.of_nat (length (receipts s)) <= 1024 /\ Forall receipt_ok (receipts s);
  ok_delivery : if depoch (delivery s) =? 0 then delivery s = no_delivery else state_ok (delivery s);
  ok_timers : if has_timers (timers s) then timers_ok (timers s) = true /\ size (wire_timers (timers s)) <= 2 * 1024 * 1024
              else timers s = no_timers }.

Lemma no_delivery_eq d : depoch d = 0 -> (negb (is_empty (sent d)) || negb (is_empty (inbox d)) || negb (is_empty (outbox d))) = false ->
  d = no_delivery.
Proof. destruct d as [e s i o]. cbn. intros ->. by destruct s, i, o. Qed.

Lemma no_timers_eq t : has_timers t = false -> t = no_timers.
Proof.
  destruct t as [n k l]. unfold has_timers. cbn [ttoken tsequence tentries]. intros H. bool_prop. destruct H as [[H1 H2] H3].
  apply is_empty_true in H1, H3. by subst.
Qed.

Lemma encode_timers_Ok t w : encode_entity_timers t = Ok w ->
  timers_ok t = true /\ size (wire_timers t) <= 2 * 1024 * 1024 /\ w = wire_timers t.
Proof.
  rewrite encode_timers_spec, wire_size_timers, size_wire_timers. destruct (timers_ok t); [|done].
  destruct (N.leb_spec (28 + size (ttoken t) + entries_size (tentries t)) (2 * 1024 * 1024)); [|done].
  cbn [bind]. intros E. split; [done|]. split; [done|congruence].
Qed.

Lemma encode_snapshot_Ok s w : encode_snapshot s = Ok w -> snapshot_ok s /\ w = wire_snapshot s.
Proof.
  unfold encode_snapshot. destruct (_ && _) eqn:Ee; [done|]. intros (st & [Hst ->]%blob_Ok & H)%bind_ok.
  destruct (N.ltb_spec 1024 (N.of_nat (length (receipts s)))) as [|Hl]; [done|].
  apply bind_ok in H as (o & [Hr ->]%(fold_result_append _ _ _ _ put_receipt_Ok) & H).
  apply bind_ok in H as (o2 & Hd & H). unfold wire_snapshot.
  assert (ok_d : (if depoch (delivery s) =? 0 then delivery s = no_delivery else state_ok (delivery s)) /\
    o2 = (lit (if has_timers (timers s) then "FSP3" else if negb (depoch (delivery s) =? 0) then "FSP2" else "FSP1") ++ wire_blob (state s)) ++
         number (N.of_nat (length (receipts s))) ++ concat (map wire_receipt (receipts s)) ++
         (if has_timers (timers s) then [byte_of (bool_bit (negb (depoch (delivery s) =? 0)))] else []) ++
         wire_optional (negb (depoch (delivery s) =? 0)) (wire_delivery_state (delivery s))).
  { destruct (N.eqb_spec (depoch (delivery s)) 0) as [E0|E0]; cbn [negb andb] in Hd, Ee.
    - split; [by apply no_delivery_eq|]. cbn [negb wire_optional]. apply Ok_inj in Hd as <-. destruct (has_timers _); by rewrite <- ?app_assoc, ?app_nil_r.
    - apply bind_ok in Hd as (e & [Hs ->]%encode_state_Ok & Hd). apply bind_ok in Hd as (b & [_ ->]%blob_Ok & <-%Ok_inj).
      split; [done|]. cbn [negb wire_optional]. destruct (has_timers _); by rewrite <- ?app_assoc, ?app_nil_r. }
  destruct ok_d as [ok_d ->]. destruct (has_timers (timers s)) eqn:Ht.
  - apply bind_ok in H as (e & (Ho & Hs & ->)%encode_timers_Ok & H). apply bind_ok in H as (b & [_ ->]%blob_Ok & <-%Ok_inj).
    split; [constructor; rewrite ?Ht; done|]. cbn [wire_optional]. by rewrite <- !app_assoc.
  - apply Ok_inj in H as <-. split; [constructor; rewrite ?Ht; auto using no_timers_eq|]. cbn [wire_optional]. by rewrite <- !app_assoc, !app_nil_r.
Qed.

Lemma read_flags_app b rest : read_flags (byte_of (bool_bit b) :: rest) = Ok (b, rest).
Proof. unfold read_flags. rewrite byte_val_small by (by destruct b). by destruct b. Qed.

Lemma decode_wire_snapshot s : snapshot_wf s -> snapshot_ok s -> decode_snapshot (wire_snapshot s) = Ok s.
Proof.
  intros [W1 W2] [H1 [H2 H3] H4 H5]. unfold wire_snapshot.
  set (wt := has_timers (timers s)) in *. set (wd := negb (depoch (delivery s) =? 0)).
  set (magic := lit (if wt then "FSP3" else if wd then "FSP2" else "FSP1")).
  set (body := wire_blob (state s) ++ _). unfold decode_snapshot.
  assert (starts_with (lit "FSP3") (magic ++ body) = wt) as -> by (unfold magic; by destruct wt, wd).
  assert (starts_with (lit "FSP2") (magic ++ body) = negb wt && wd) as -> by (unfold magic; by destruct wt, wd).
  assert (starts_with (lit "FSP1") (magic ++ body) = negb wt && negb wd) as -> by (unfold magic; by destruct wt, wd).
  assert (drop 4 (magic ++ body) = body) as -> by (unfold magic; by destruct wt, wd).
  assert ((negb wt && negb (negb wt && wd) && negb (negb wt && negb wd)) = false) as -> by (by destruct wt, wd).
  unfold body. rewrite read_blob_app by done. cbn [bind]. rewrite read_number_app by lia. cbn [bind].
  rewrite (proj2 (N.ltb_ge 1024 _)), Nat2N.id, get_receipts by done. cbn [bind app].
  assert (Hflags : forall rest, (if wt then read_flags ((if wt then [byte_of (bool_bit wd)] else []) ++ rest)
    else Ok (negb wt && wd, (if wt then [byte_of (bool_bit wd)] else []) ++ rest)) = Ok (wd, rest)).
  { intros rest. destruct wt; [apply read_flags_app|done]. }
  rewrite Hflags. cbn [bind]. clear Hflags body magic.
  assert (Hd : forall rest, (if wd then let* '(b, input) := read_blob (wire_optional wd (wire_delivery_state (delivery s)) ++ rest) in
      let* d := decode_delivery_state b in Ok (d, input)
    else Ok (no_delivery, wire_optional wd (wire_delivery_state (delivery s)) ++ rest)) = Ok (delivery s, rest)).
  { intros rest. unfold wd. destruct (N.eqb_spec (depoch (delivery s)) 0) as [E|E]; cbn [negb wire_optional app]; [by rewrite <- H4|].
    pose proof (ok_size _ H4) as Hs. unfold max_state in Hs. rewrite read_blob_app by (unfold u32_max; lia). cbn [bind].
    by rewrite decode_wire_state. }
  rewrite Hd. cbn [bind]. clear Hd. destruct wt; cbn [wire_optional].
  - destruct H5 as [H5 H6]. rewrite <- (app_nil_r (wire_blob _)), read_blob_app by (unfold u32_max; lia). cbn [bind].
    rewrite decode_wire_timers by done. cbn [bind is_empty negb]. by destruct s.
  - cbn [bind is_empty negb]. rewrite <- H5. by destruct s.
Qed.

(** An encoded snapshot decodes to itself, in each of the three format
    versions the encoder chooses from. *)
Theorem snapshot_roundtrip s w :
  snapshot_wf s -> encode_snapshot s = Ok w -> decode_snapshot w = Ok s.
Proof. intros Hw [Ho ->]%encode_snapshot_Ok. by apply decode_wire_snapshot. Qed.

Lemma skip_receipts n : forall dn input rs rest, iter_result get_receipt n (dn, input) = Ok (rs, rest) ->
  iter_result skip_receipt n input = Ok rest.
Proof.
  induction n as [|n IH]; intros dn input rs rest; cbn [iter_result]; [by intros [= _ ->]|].
  intros ([dn' input'] & Hg & H)%bind_ok. rewrite <- (IH _ _ _ _ H). unfold get_receipt in Hg. unfold skip_receipt.
  apply bind_ok in Hg as ([a i1] & -> & Hg). cbn [bind]. apply bind_ok in Hg as ([b i2] & -> & Hg). cbn [bind].
  apply bind_ok in Hg as ([c i3] & -> & Hg). cbn [bind]. apply bind_ok in Hg as ([d i4] & -> & [= _ ->]). done.
Qed.

Definition skip_if (present : bool) (input : bytes) : result bytes :=
  if present then let* '(_, input) := read_blob input in Ok input else Ok input.

(** What the partial readers see of an input the full decoder accepts. *)
Lemma decode_snapshot_parts w s : decode_snapshot w = Ok s ->
  exists st n i1 i2 i3 wd i4 i5,
    (negb (starts_with (lit "FSP3") w) && negb (starts_with (lit "FSP2") w) && negb (starts_with (lit "FSP1") w)) = false /\
    read_blob (drop 4 w) = Ok (st, i1) /\ read_number i1 = Ok (n, i2) /\ (1024 <? n) = false /\
    iter_result skip_receipt (N.to_nat n) i2 = Ok i3 /\
    (if starts_with (lit "FSP3") w then read_flags i3 else Ok (starts_with (lit "FSP2") w, i3)) = Ok (wd, i4) /\
    skip_if wd i4 = Ok i5 /\
    (if starts_with (lit "FSP3") w then exists b, read_blob i5 = Ok (b, []) /\ decode_entity_timers b = Ok (timers s)
     else i5 = [] /\ timers s = no_timers).
Proof.
  unfold decode_snapshot. destruct (_ && _ && _); [done|].
  intros ([st i1] & H1 & H)%bind_ok. apply bind_ok in H as ([n i2] & H2 & H). destruct (1024 <? n) eqn:Hn; [done|].
  apply bind_ok in H as ([rs i3] & Hr%skip_receipts & H). apply bind_ok in H as ([wd i4] & H4 & H). apply bind_ok in H as ([d i5] & Hd & H).
  exists st, n, i1, i2, i3, wd, i4, i5. do 6 (split; [done|]). split.
  - destruct wd; [|by injection Hd as _ ->]. apply bind_ok in Hd as ([b i] & Hb & Hd). cbn [skip_if]. rewrite Hb. cbn [bind].
    by apply bind_ok in Hd as (? & _ & [= _ ->]).
  - apply bind_ok in H as ([t i6] & Ht & H). destruct i6; [|done]. injection H as <-. destruct (starts_with (lit "FSP3") w).
    + apply bind_ok in Ht as ([b i] & Hb & Ht). apply bind_ok in Ht as (? & Ht & [= -> ->]). by exists b.
    + by injection Ht as <- <-.
Qed.

Lemma framing_accepts w s : decode_snapshot w = Ok s -> validate_snapshot_framing w = Ok tt.
Proof.
  intros (st & n & i1 & i2 & i3 & wd & i4 & i5 & Hm & H1 & H2 & Hn & H3 & H4 & H5 & H6)%decode_snapshot_parts.
  unfold validate_snapshot_framing. rewrite Hm, H1. cbn [bind]. rewrite H2. cbn [bind]. rewrite Hn, H3. cbn [bind]. rewrite H4. cbn [bind].
  fold (skip_if wd i4). rewrite H5. cbn [bind]. destruct (starts_with (lit "FSP3") w); [|by destruct H6 as [-> _]].
  destruct H6 as (b & -> & _). done.
Qed.


(** ** Records *)

(** The record as its C++ types allow it. *)
Definition record_numbers (r : EntityRecord) : Prop :=
  (expires_ms r <= INT64_MAX)%Z /\ transfer_id r < 2 ^ 64 /\ forall m, metadata r = Some m -> owner_revision m < 2 ^ 64.
Definition record_wf (r : EntityRecord) : Prop := snapshot_wf (snapshot r) /\ record_numbers r.

(** The record view of a record whose snapshot is encoded as [w]. *)
Definition view_of (r : EntityRecord) (w : bytes) : EntityRecordView :=
  MkRecordView (owner r) (expires_ms r) (fence r) w (initialized r) (placement r) (transfer_id r) (metadata r).

Definition flags_of (m : EntityMetadata) : N := N.lor (bool_bit (rebuildable m)) (if destroyed m then 2 else 0).

Definition wire_record (r : EntityRecord) (m : EntityMetadata) (sn : bytes) : bytes :=
  lit "FER5" ++ wire_blob (owner r) ++ integer (to_u64 (expires_ms r)) ++ integer (fence r) ++
  [byte_of (bool_bit (initialized r))] ++ wire_blob (placement r) ++ integer (transfer_id r) ++
  wire_blob (metadata_type m) ++ wire_blob (owner_connection m) ++ [byte_of (flags_of m)] ++
  wire_blob (initial_state m) ++ creation_digest m ++ integer (owner_revision m) ++ sn.

Record record_ok (r : EntityRecord) (m : EntityMetadata) : Prop := {
  ok_owner : size (owner r) <= 256;
  ok_expires : (0 <= expires_ms r)%Z;
  ok_fence : fence r < i64_max;
  ok_placement : bad_placement (placement r) (transfer_id r) = false;
  ok_metadata : metadata r = Some m /\ valid_entity_metadata m = true;
  ok_blobs : size (placement r) <= u32_max /\ size (owner_connection m) <= u32_max }.

Lemma encode_record_Ok r w : encode_entity_record r = Ok w ->
  exists m sn, record_ok r m /\ encode_snapshot (snapshot r) = Ok sn /\ w = wire_record r m sn.
Proof.
  unfold encode_entity_record. destruct (_ || _ || _) eqn:E; [done|]. bool_prop. destruct E as [[E1 E2] E3].
  destruct (bad_placement _ _) eqn:E4; [done|]. destruct (metadata r) as [m|] eqn:Em; [|done].
  destruct (valid_entity_metadata m) eqn:Hv; [|done]. cbn [negb].
  intros (o & [Ho ->]%blob_Ok & H)%bind_ok. apply bind_ok in H as (p & [Hp ->]%blob_Ok & H).
  apply bind_ok in H as (ty & [Ht ->]%blob_Ok & H). apply bind_ok in H as (oc & [Hc ->]%blob_Ok & H).
  apply bind_ok in H as (i & [Hi ->]%blob_Ok & H). apply bind_ok in H as (sn & Hs & H).
  exists m, sn. split; [by constructor|]. split; [done|]. unfold wire_record, flags_of. congruence.
Qed.

Lemma flags_bits m : flags_of m <= 3 /\ N.testbit (flags_of m) 0 = rebuildable m /\ N.testbit (flags_of m) 1 = destroyed m.
Proof. unfold flags_of. by destruct (rebuildable m), (destroyed m). Qed.

Lemma metadata_sizes m : valid_entity_metadata m = true ->
  size (metadata_type m) <= 127 /\ size (creation_digest m) = 32 /\ size (initial_state m) <= 8 * 1024 * 1024.
Proof. unfold valid_entity_metadata. intros H. bool_prop. tauto. Qed.

Lemma header_wire r m sn : record_numbers r -> record_ok r m -> header (wire_record r m sn) = Ok (view_of r sn).
Proof.
  intros (W1 & W2 & W3) [H1 H2 H3 H4 [H5 Hv] [H6 H7]]. specialize (W3 m H5).
  destruct (metadata_sizes m Hv) as (S1 & S2 & S3). destruct (to_u64_nonneg (expires_ms r)) as [Ee Be]; [lia|].
  destruct (flags_bits m) as (F1 & F2 & F3).
  unfold header, wire_record, i64_max in *. rewrite starts_with_app. cbn [negb]. change (drop 4 (lit "FER5" ++ ?x)) with x.
  rewrite read_blob_app by (unfold u32_max; lia). cbn [bind]. rewrite read_integer_app by lia. cbn [bind].
  rewrite read_integer_app by lia. cbn [bind].
  rewrite (proj2 (N.ltb_ge 256 _)), (proj2 (N.ltb_ge _ (to_u64 (expires_ms r)))), (proj2 (N.leb_gt _ (fence r))) by lia. cbn [orb].
  cbn [app]. rewrite read_flags_app. cbn [bind]. rewrite read_blob_app by done. cbn [bind]. rewrite read_integer_app by done. cbn [bind].
  rewrite H4. rewrite read_blob_app by (unfold u32_max; lia). cbn [bind]. rewrite read_blob_app by done. cbn [bind].
  rewrite byte_val_small by lia. rewrite (proj2 (N.ltb_ge 3 _)) by done.
  rewrite read_blob_app by (unfold u32_max; lia). cbn [bind].
  rewrite (proj2 (N.ltb_ge _ 32)) by (rewrite !size_app, S2; lia).
  destruct (take_app_size (creation_digest m) (integer (owner_revision m) ++ sn)) as [Et Ed]. rewrite S2 in Et, Ed.
  change (N.to_nat 32) with 32%nat in *. rewrite Et, Ed, read_integer_app by done. cbn [bind]. rewrite F2, F3.
  replace (MkMetadata _ _ _ _ _ _ _) with m by (by destruct m). rewrite Hv. cbn [negb].
  unfold view_of. rewrite H5, Ee, Z2N.id by done. done.
Qed.

(** What is read from a record fits its C++ types. *)
Lemma header_numbers w v : header w = Ok v ->
  (view_expires_ms v <= INT64_MAX)%Z /\ view_transfer_id v < 2 ^ 64 /\ view_fence v < i64_max /\ forall m, view_metadata v = Some m -> owner_revision m < 2 ^ 64.
Proof.
  unfold header. destruct (negb _); [done|].
  intros ([o i1] & _ & H)%bind_ok. apply bind_ok in H as ([x i2] & _ & H). apply bind_ok in H as ([f i3] & _ & H).
  destruct (_ || _) eqn:E; [done|]. bool_prop. apply bind_ok in H as ([b i4] & _ & H). apply bind_ok in H as ([p i5] & _ & H). apply bind_ok in H as ([t i6] & Bt%get_be_bound & H).
  destruct (bad_placement _ _); [done|]. apply bind_ok in H as ([ty i7] & _ & H). apply bind_ok in H as ([c i8] & _ & H). destruct i8 as [|y i8]; [done|].
  destruct (_ <? _); [done|]. apply bind_ok in H as ([init i9] & _ & H). destruct (_ <? _); [done|]. apply bind_ok in H as ([rv i10] & Br%get_be_bound & H).
  destruct (negb _); [done|]. injection H as <-. cbn. unfold i64_max, INT64_MAX in *. split_and!; [lia|done|lia|]. by intros m [= <-].
Qed.

Lemma record_decodes r w : record_wf r -> encode_entity_record r = Ok w ->
  decode_entity_record w = Ok r /\ exists sn, encode_snapshot (snapshot r) = Ok sn /\ decode_entity_record_view w = Ok (view_of r sn).
Proof.
  intros Hw (m & sn & Ho & Hs & ->)%encode_record_Ok. pose proof (header_wire r m sn (proj2 Hw) Ho) as Hh.
  assert (Hd : decode_snapshot sn = Ok (snapshot r)).
  { apply encode_snapshot_Ok in Hs as [Hok ->]. apply decode_wire_snapshot; [apply Hw|done]. }
  split; [unfold decode_entity_record; rewrite Hh; cbn [bind view_snapshot view_of]; rewrite Hd; by destruct r|].
  exists sn. split; [done|]. unfold decode_entity_record_view. rewrite Hh. cbn [bind view_snapshot view_of].
  by rewrite (framing_accepts sn (snapshot r) Hd).
Qed.

(** An encoded entity record decodes to itself, and its routing view
    has the same ownership, fence, placement and metadata, with the snapshot left
    encoded. *)
Theorem record_roundtrip r w :
  record_wf r -> encode_entity_record r = Ok w ->
  decode_entity_record w = Ok r /\
  exists sn, encode_snapshot (snapshot r) = Ok sn /\ decode_entity_record_view w = Ok (view_of r sn).
Proof. apply record_decodes. Qed.

(** ** Witnesses *)

Definition sample_timers : EntityTimerState :=
  MkTimers 3 (lit "tok") [(lit "tick", MkTimer (lit "tick") (lit "on_tick") (lit "x") (lit "g1") 1000 300 0 coalesce true)].
Definition sample_snapshot : EntitySnapshot :=
  MkSnapshot (lit "hp=3") [MkReceipt (lit "r1") (lit "Player.hit") (lit "q") (lit "a")] sample_state sample_timers.
Definition sample_record : EntityRecord :=
  MkRecord (lit "n1/7") 5000 3 sample_snapshot true (lit "n1") 12
    (Some (MkMetadata (lit "Player") [] (repeat x05 32) true false (lit "hp=9") 1)).

Lemma sample_snapshot_wf : snapshot_wf sample_snapshot.
Proof. split; split_and!; [vm_compute; done..|repeat constructor| |repeat constructor|vm_compute; done|vm_compute; done|repeat constructor]; repeat constructor; vm_compute; done. Qed.

Lemma snapshot_roundtrip_witness : exists w, encode_snapshot sample_snapshot = Ok w /\ decode_snapshot w = Ok sample_snapshot.
Proof. eexists. split; [vm_compute; reflexivity|]. apply snapshot_roundtrip; [exact sample_snapshot_wf|vm_compute; reflexivity]. Defined.


Lemma record_roundtrip_witness : exists w, encode_entity_record sample_record = Ok w /\ decode_entity_record w = Ok sample_record.
Proof.
  eexists. split; [vm_compute; reflexivity|].
  apply record_roundtrip; [|vm_compute; reflexivity]. split; [exact sample_snapshot_wf|]. split; [vm_compute; done|].
  split; [vm_compute; done|]. intros m [= <-]. vm_compute. done.
Defined.
