(* ===== verification/Storage.v ===== *)
(** * Storage backends

    [include/fsnet/storage.hpp], [src/database.cpp], [src/file_storage.cpp] and
    [src/storage_factory.cpp]: the versioned compare-and-swap interface every durable
    component uses, and its memory, SQLite and file implementations.

    An operation returns its result and the state it leaves, also when it throws: a
    write that fails after its atomic rename has still replaced the record. *)

From stdpp Require Import gmap.
From S2P Require Import Prelude OrderedMap Identity Values AttributeWire Messages Fields TimerState.

#[global] Instance byte_countable : Countable byte := inj_countable' byte_val byte_of byte_of_val.

(** [struct Record] and [struct Mutation] *)
Record Stored := MkStored { svalue : bytes; sversion : N }.
Record Mutation := MkMutation { mkey : bytes; mexpected : N; mvalue : option bytes; check_only : bool }.

(** ** The interface *)

Class Storage (S : Type) := {
  get : bytes -> S -> result (option Stored);
  compare_exchange : bytes -> N -> bytes -> S -> result bool * S;
  erase : bytes -> N -> S -> result bool * S }.

(** ** Memory *)

Definition max_version : N := 2 ^ 63 - 1.

Definition bad_mutation (m : Mutation) : bool :=
  (max_version <=? mexpected m) || (4096 <? size (mkey m)) || is_empty (mkey m) ||
  match mvalue m with Some v => 16 * 1024 * 1024 <? size v | None => false end.

Definition validate_mutation (seen : list bytes) (m : Mutation) : result (list bytes) :=
  throw_if bad_mutation m as invalid_argument ;;
  throw_if existsb (bytes_eqb (mkey m)) seen as invalid_argument ;;
  Ok (mkey m :: seen).

Definition validate (ms : list Mutation) : result unit :=
  throw_if 1024 <? N.of_nat (length ms) as length_error ;;
  let* _ := fold_result validate_mutation ms [] in Ok tt.

Record Memory := MkMemory { records : gmap bytes Stored; revision : N }.

Definition version_in (records : gmap bytes Stored) (key : bytes) : N :=
  match records !! key with Some r => sversion r | None => 0 end.

(** The mutation's precondition does not hold. *)
Definition mismatch (version : N) (m : Mutation) : bool :=
  negb (version =? mexpected m) ||
  (negb (check_only m) && match mvalue m with None => true | Some _ => false end && (version =? 0)).

Definition memory_apply (st : gmap bytes Stored * N) (m : Mutation) : gmap bytes Stored * N :=
  let '(next, revision) := st in
  if check_only m then (next, revision)
  else match mvalue m with
       | Some v => (<[mkey m := MkStored v (wrap64 (revision + 1))]> next, wrap64 (revision + 1))
       | None => (delete (mkey m) next, revision)
       end.

(** Unsigned 64-bit subtraction. *)
Definition sub64 (a b : N) : N := wrap64 (a + 2 ^ 64 - b mod 2 ^ 64).

Definition memory_get (key : bytes) (s : Memory) : result (option Stored) := Ok (records s !! key).

Definition memory_transact (ms : list Mutation) (s : Memory) : result bool * Memory :=
  match validate ms with
  | Throw e => (Throw e, s)
  | Ok _ =>
      if existsb (fun m => mismatch (version_in (records s) (mkey m)) m) ms then (Ok false, s)
      else if sub64 max_version (revision s) <=? N.of_nat (length ms) then (Throw overflow_error, s)
      else
        let '(next, revision) := fold_left memory_apply ms (records s, revision s) in
        (Ok true, MkMemory next revision)
  end.

Definition memory_compare_exchange (key : bytes) (expected : N) (value : bytes) (s : Memory) : result bool * Memory :=
  memory_transact [MkMutation key expected (Some value) false] s.
Definition memory_erase (key : bytes) (expected : N) (s : Memory) : result bool * Memory :=
  memory_transact [MkMutation key expected None false] s.

#[global] Instance memory_storage : Storage Memory :=
  {| get := memory_get; compare_exchange := memory_compare_exchange; erase := memory_erase |}.

Definition memory_database : Memory := MkMemory ∅ 0.

(** ** SQLite

    The two tables of the schema; SQL integers are signed 64-bit, the code casts them
    to unsigned and back.  A statement that violates [CHECK(version>0)] throws; the
    transaction rolls back when it is destroyed uncommitted. *)

Definition to_i64 (n : N) : Z := if n <=? i64_max then Z.of_N n else (Z.of_N n - 2 ^ 64)%Z.

Record Row := MkRow { row_value : bytes; row_version : Z }.
Record Sqlite := MkSqlite { fsnet_records : gmap bytes Row; fsnet_revision : Z }.

(** [Sqlite(file)]: the database found in the file, or none. *)
Definition sqlite_open (found : option (gmap bytes Row * option Z)) : Sqlite :=
  let rows := match found with Some (rows, _) => rows | None => ∅ end in
  let current := match found with Some (_, Some v) => v | _ => 0%Z end in
  MkSqlite rows (Z.max current (map_fold (fun _ row m => Z.max (row_version row) m) 0%Z rows)).

Definition sqlite_read (key : bytes) (rows : gmap bytes Row) : option Stored :=
  match rows !! key with Some row => Some (MkStored (row_value row) (to_u64 (row_version row))) | None => None end.

Definition sqlite_get (key : bytes) (s : Sqlite) : result (option Stored) := Ok (sqlite_read key (fsnet_records s)).

Definition sqlite_apply (st : gmap bytes Row * N) (m : Mutation) : result (gmap bytes Row * N) :=
  let '(rows, revision) := st in
  if check_only m then Ok (rows, revision)
  else match mvalue m with
       | Some v =>
           let revision := wrap64 (revision + 1) in
           throw_if (to_i64 revision <=? 0)%Z as runtime_error ;;
           Ok (<[mkey m := MkRow v (to_i64 revision)]> rows, revision)
       | None => Ok (delete (mkey m) rows, revision)
       end.

Definition sqlite_transact (ms : list Mutation) (s : Sqlite) : result bool * Sqlite :=
  match validate ms with
  | Throw e => (Throw e, s)
  | Ok _ =>
      let version key := match sqlite_read key (fsnet_records s) with Some r => sversion r | None => 0 end in
      if existsb (fun m => mismatch (version (mkey m)) m) ms then (Ok false, s)
      else
        let revision := to_u64 (fsnet_revision s) in
        if sub64 max_version revision <=? N.of_nat (length ms) then (Throw overflow_error, s)
        else match fold_result sqlite_apply ms (fsnet_records s, revision) with
             | Throw e => (Throw e, s)
             | Ok (rows, revision) => (Ok true, MkSqlite rows (to_i64 revision))
             end
  end.

Definition sqlite_compare_exchange (key : bytes) (expected : N) (value : bytes) (s : Sqlite) : result bool * Sqlite :=
  sqlite_transact [MkMutation key expected (Some value) false] s.
Definition sqlite_erase (key : bytes) (expected : N) (s : Sqlite) : result bool * Sqlite :=
  sqlite_transact [MkMutation key expected None false] s.

#[global] Instance sqlite_storage : Storage Sqlite :=
  {| get := sqlite_get; compare_exchange := sqlite_compare_exchange; erase := sqlite_erase |}.

(** ** Files

    One file per key, named by the key's digest; a write goes to a temporary file
    that is renamed over the record.  [files] is the content of every record file;
    lock and temporary files are invisible to readers.  [EVP] is OpenSSL's SHA-256. *)

Definition maximum_value : N := 16 * 1024 * 1024.

Record FileEntry := MkEntry { eversion : N; present : bool; evalue : bytes }.

Notation Files := (gmap bytes bytes).

Section FileStorage.
Context (EVP : bytes -> bytes).

Definition digest (data : bytes) : result bytes :=
  throw_if negb (size (EVP data) =? 32) as runtime_error ;; Ok (EVP data).

Definition hex (input : bytes) : bytes :=
  concat (map (fun b => [hex_char (N.shiftr (byte_val b) 4); hex_char (N.land (byte_val b) 15)]) input).

(** The record file of a key: its shard directory is the first two digits. *)
Definition record_name (key : bytes) : result bytes :=
  throw_if is_empty key || (4096 <? size key) as invalid_argument ;;
  let* d := digest key in Ok (hex d).

Definition parse_entry (key content : bytes) : result FileEntry :=
  throw_if (size content <? 53) || (maximum_value + 8192 <? size content) as runtime_error ;;
  let input := take (length content - 32) content in
  let* d := digest input in
  throw_if negb (bytes_eqb d (drop (length content - 32) content)) || negb (starts_with (lit "FSF1") input) as runtime_error ;;
  let* '(version, input) := read_integer (drop 4 input) in
  throw_if (version =? 0) || (max_version <=? version) as runtime_error ;;
  match input with
  | [] => Throw runtime_error
  | b :: input =>
      throw_if 1 <? byte_val b as runtime_error ;;
      let* '(found, input) := read_blob input in
      throw_if negb (bytes_eqb found key) as runtime_error ;;
      let* '(value, input) := read_blob input in
      throw_if negb (is_empty input) || (maximum_value <? size value) || (negb (byte_val b =? 1) && negb (is_empty value)) as runtime_error ;;
      Ok (MkEntry version (byte_val b =? 1) value)
  end.

(** [read(directory, name, key)] *)
Definition files_read (name key : bytes) (s : Files) : result FileEntry :=
  match s !! name with
  | None => Ok (MkEntry 0 false [])
  | Some content => parse_entry key content
  end.

Definition entry_bytes (version : N) (key : bytes) (value : option bytes) : result bytes :=
  let* k := blob key in
  let* v := blob (match value with Some v => v | None => [] end) in
  let bytes := lit "FSF1" ++ integer version ++ [byte_of (bool_bit (match value with Some _ => true | None => false end))] ++ k ++ v in
  let* d := digest bytes in Ok (bytes ++ d).

(** What the operating system does with the temporary file: everything succeeds, or a
    call fails before or after the rename. *)
Inductive io_outcome := io_ok | io_before_rename | io_after_rename.

Definition replace (io : io_outcome) (key : bytes) (expected : N) (value : option bytes) (s : Files) : result bool * Files :=
  if (max_version <=? expected) || match value with Some v => maximum_value <? size v | None => false end
  then (Throw invalid_argument, s)
  else
    match (let* name := record_name key in let* current := files_read name key s in Ok (name, current)) with
    | Throw e => (Throw e, s)
    | Ok (name, current) =>
        if negb ((if present current then eversion current else 0) =? expected) ||
           match value with None => negb (present current) | Some _ => false end then (Ok false, s)
        else if max_version - 1 <=? eversion current then (Throw overflow_error, s)
        else match entry_bytes (eversion current + 1) key value with
             | Throw e => (Throw e, s)
             | Ok bytes =>
                 match io with
                 | io_ok => (Ok true, <[name := bytes]> s)
                 | io_before_rename => (Throw system_error, s)
                 | io_after_rename => (Throw system_error, <[name := bytes]> s)
                 end
             end
    end.

Definition files_get (key : bytes) (s : Files) : result (option Stored) :=
  let* name := record_name key in
  let* record := files_read name key s in
  Ok (if present record then Some (MkStored (evalue record) (eversion record)) else None).

Definition files_storage (io : io_outcome) : Storage Files :=
  {| get := files_get;
     compare_exchange key expected value s := replace io key expected (Some value) s;
     erase key expected s := replace io key expected None s |}.
End FileStorage.

(** ** [open_storage] *)

Inductive backend := memory_backend | file_backend (directory : bytes) | sqlite_backend (file : bytes) | postgres_backend (uri : bytes).

Definition open_storage (uri : bytes) : result backend :=
  if is_empty uri || bytes_eqb uri (lit "memory:") then Ok memory_backend
  else if starts_with (lit "file:") uri then Ok (file_backend (drop 5 uri))
  else if starts_with (lit "sqlite:") uri then Ok (sqlite_backend (drop 7 uri))
  else if starts_with (lit "postgresql://") uri || starts_with (lit "postgres://") uri then Ok (postgres_backend uri)
  else Throw invalid_argument.
