(* ===== verification/StorageCorrect.v ===== *)
(** * Every backend implements the storage contract

    [storage.hpp] asks for linearizable single-record compare-and-swap whose revisions
    never repeat, not even after a delete.  The contract is a relation on an abstract
    store; each backend's operations are shown to stay within it. *)

From stdpp Require Import gmap.
From S2P Require Import Prelude OrderedMap Identity Values AttributeWire Messages MessagesCorrect Fields TimerState Storage.

(** ** The contract *)

(** What the current record of a key is, and the highest version the key ever had. *)
Record store := MkStore { cell : bytes -> option Stored; high : bytes -> N }.

Definition version (st : store) (k : bytes) : N := match cell st k with Some r => sversion r | None => 0 end.

Definition store_wf (st : store) : Prop := forall k r, cell st k = Some r -> 0 < sversion r <= high st k.

(** [st'] is [st] with the record of [k] replaced, under a version never used for [k]. *)
Record wrote (st : store) (k : bytes) (value : option bytes) (st' : store) : Prop := {
  wrote_cell : match value with
               | Some v => exists n, high st k < n <= high st' k /\ cell st' k = Some (MkStored v n)
               | None => cell st' k = None
               end;
  wrote_frame : forall k', k' <> k -> cell st' k' = cell st k';
  wrote_high : forall k', high st k' <= high st' k' }.

(** The outcomes of a compare-and-swap ([Some v]) or an erase ([None]): a thrown write
    may or may not have been committed. *)
Definition allowed (st : store) (k : bytes) (expected : N) (value : option bytes) (r : result bool) (st' : store) : Prop :=
  match r with
  | Ok true => version st k = expected /\ (value = None -> expected <> 0) /\ wrote st k value st'
  | Ok false => (version st k <> expected \/ (value = None /\ expected = 0)) /\ st' = st
  | Throw _ => st' = st \/ (version st k = expected /\ wrote st k value st')
  end.

Class StorageLaws {S} (ops : Storage S) (view : S -> store) (inv : S -> Prop) : Prop := {
  view_wf : forall s, inv s -> store_wf (view s);
  get_law : forall s k o, inv s -> @get S ops k s = Ok o -> o = cell (view s) k;
  cas_law : forall s k e v r s', inv s -> @compare_exchange S ops k e v s = (r, s') ->
    inv s' /\ allowed (view s) k e (Some v) r (view s');
  erase_law : forall s k e r s', inv s -> @erase S ops k e s = (r, s') ->
    inv s' /\ allowed (view s) k e None r (view s') }.

(** ** Memory *)

Lemma validate_one m : validate [m] = if bad_mutation m then Throw invalid_argument else Ok tt.
Proof. unfold validate. cbn [length fold_result]. unfold validate_mutation. cbn [existsb]. by destruct (bad_mutation m). Qed.

Lemma sub64_le a b : b <= a -> a < 2 ^ 64 -> sub64 a b = a - b.
Proof.
  intros H1 H2. unfold sub64, wrap64. rewrite (N.mod_small b) by lia.
  replace (a + 2 ^ 64 - b) with ((a - b) + 1 * 2 ^ 64) by lia. rewrite N.Div0.mod_add. apply N.mod_small. lia.
Qed.

Definition memory_inv (s : Memory) : Prop :=
  revision s <= max_version /\ forall k r, records s !! k = Some r -> 0 < sversion r <= revision s.
Definition memory_view (s : Memory) : store := MkStore (fun k => records s !! k) (fun _ => revision s).

Lemma mismatch_false v m : check_only m = false -> mismatch v m = false <-> v = mexpected m /\ (mvalue m = None -> mexpected m <> 0).
Proof.
  intros Hc. unfold mismatch. rewrite Hc. destruct (mvalue m); cbn [negb andb].
  - rewrite orb_false_r, negb_false_iff, N.eqb_eq. naive_solver.
  - rewrite orb_false_iff, negb_false_iff, N.eqb_eq, N.eqb_neq. naive_solver.
Qed.

Lemma memory_transact_one s k e value r s' : memory_inv s -> memory_transact [MkMutation k e value false] s = (r, s') ->
  memory_inv s' /\ allowed (memory_view s) k e value r (memory_view s').
Proof.
  intros [Hr Hv]. unfold memory_transact. rewrite validate_one. destruct (bad_mutation _); [intros [= <- <-]; split; [done|by left]|].
  cbn [existsb mkey]. rewrite orb_false_r. destruct (mismatch (version_in (records s) k) (MkMutation k e value false)) eqn:Em.
  - intros [= <- <-]. split; [done|]. split; [|done]. change (version_in (records s) k) with (version (memory_view s) k) in Em.
    apply not_false_iff_true in Em. rewrite mismatch_false in Em by done. cbn [mexpected mvalue] in Em.
    destruct (decide (version (memory_view s) k = e)); [right|by left]. destruct value; [naive_solver|].
    split; [done|]. destruct (decide (e = 0)); naive_solver.
  - apply mismatch_false in Em as [Em1 Em2]; [|done]. cbn [mexpected mvalue length] in *.
    rewrite sub64_le by (unfold max_version in *; lia).
    destruct (N.leb_spec (max_version - revision s) (N.of_nat 1)) as [|Hx]; [intros [= <- <-]; split; [done|by left]|].
    assert (Hw : wrap64 (revision s + 1) = revision s + 1) by (unfold wrap64; apply N.mod_small; unfold max_version in *; lia).
    cbn [fold_left memory_apply check_only mvalue mkey]. rewrite Hw. destruct value as [v|]; intros [= <- <-].
    + split.
      * split; [cbn; lia|]. cbn. intros k' r. destruct (decide (k' = k)) as [->|Hne].
        -- rewrite lookup_insert_eq. intros [= <-]. cbn. lia.
        -- rewrite lookup_insert_ne by done. intros H%Hv. lia.
      * split; [done|]. split; [done|]. split; cbn; [|intros k' Hne; by rewrite lookup_insert_ne|lia].
        exists (revision s + 1). rewrite lookup_insert_eq. split; [lia|done].
    + split.
      * split; [done|]. cbn. intros k' r H. apply lookup_delete_Some in H as [_ H]. by apply Hv in H.
      * split; [done|]. split; [auto|]. split; cbn; [by rewrite lookup_delete_eq|intros k' Hne; by rewrite lookup_delete_ne|lia].
Qed.

#[global] Instance memory_laws : StorageLaws memory_storage memory_view memory_inv.
Proof.
  split.
  - intros s [_ H] k r. apply H.
  - intros s k o _ [= <-]. done.
  - intros s k e v r s' Hi H. by eapply memory_transact_one.
  - intros s k e r s' Hi H. by eapply memory_transact_one.
Qed.

(** ** SQLite *)

Lemma to_u64_small z : (0 <= z <= 2 ^ 63 - 1)%Z -> to_u64 z = Z.to_N z.
Proof. intros H. unfold to_u64. rewrite Z.mod_small; [done|lia]. Qed.

Lemma to_i64_small n : n <= max_version -> to_i64 n = Z.of_N n.
Proof. intros H. unfold to_i64, i64_max, max_version in *. by rewrite (proj2 (N.leb_le _ _)). Qed.

Definition sqlite_inv (s : Sqlite) : Prop :=
  (0 <= fsnet_revision s <= Z.of_N max_version)%Z /\
  forall k r, fsnet_records s !! k = Some r -> (0 < row_version r <= fsnet_revision s)%Z.

(** Both backends are the same machine: a SQLite database behaves as the memory
    database with its rows. *)
Definition sqlite_memory (s : Sqlite) : Memory :=
  MkMemory ((fun row => MkStored (row_value row) (to_u64 (row_version row))) <$> fsnet_records s) (to_u64 (fsnet_revision s)).

Lemma sqlite_memory_read s k : records (sqlite_memory s) !! k = sqlite_read k (fsnet_records s).
Proof. cbn. unfold sqlite_read. rewrite lookup_fmap. by destruct (fsnet_records s !! k). Qed.

Lemma sqlite_memory_inv s : sqlite_inv s -> memory_inv (sqlite_memory s).
Proof.
  intros [H1 H2]. unfold max_version in H1. split; [cbn; rewrite to_u64_small; [unfold max_version; lia|lia]|].
  intros k r. rewrite sqlite_memory_read. unfold sqlite_read. destruct (fsnet_records s !! k) as [row|] eqn:E; [|done].
  intros [= <-]. apply H2 in E. cbn. rewrite !to_u64_small by lia. lia.
Qed.

Definition sqlite_view (s : Sqlite) : store := memory_view (sqlite_memory s).

(** Applying a transaction's writes keeps the rows and the memory records equal. *)
Lemma sqlite_apply_all ms : forall rows n, n + N.of_nat (length ms) <= max_version ->
  (forall k r, rows !! k = Some r -> (0 < row_version r <= Z.of_N n)%Z) ->
  exists rows' n', fold_result sqlite_apply ms (rows, n) = Ok (rows', n') /\ n <= n' <= max_version /\
    (forall k r, rows' !! k = Some r -> (0 < row_version r <= Z.of_N n')%Z) /\
    fold_left memory_apply ms ((fun row => MkStored (row_value row) (to_u64 (row_version row))) <$> rows, n) =
      ((fun row => MkStored (row_value row) (to_u64 (row_version row))) <$> rows', n').
Proof.
  induction ms as [|m ms IH]; intros rows n Hn Hr; cbn [fold_result fold_left length] in *; [exists rows, n; split_and!; (done || lia)|].
  destruct (check_only m) eqn:Hc; [|destruct (mvalue m) as [v|] eqn:Hv].
  - unfold sqlite_apply at 1, memory_apply at 2. rewrite Hc. cbn [bind]. apply IH; [lia|done].
  - unfold sqlite_apply at 1, memory_apply at 2. rewrite Hc, Hv.
    assert (wrap64 (n + 1) = n + 1) as -> by (unfold wrap64; apply N.mod_small; unfold max_version in *; lia).
    rewrite to_i64_small by lia. rewrite (proj2 (Z.leb_gt _ _)) by lia. cbn [bind].
    destruct (IH (<[mkey m := MkRow v (Z.of_N (n + 1))]> rows) (n + 1)) as (rows' & n' & H1 & H2 & H3 & H4); [lia| |].
    + intros k r. destruct (decide (k = mkey m)) as [->|Hne]; [rewrite lookup_insert_eq; intros [= <-]; cbn; lia|].
      rewrite lookup_insert_ne by done. intros H%Hr. lia.
    + exists rows', n'. rewrite H1. split; [done|]. split; [lia|]. split; [done|]. rewrite <- H4, fmap_insert. cbn.
      rewrite to_u64_small by (unfold max_version in *; lia). by rewrite N2Z.id.
  - unfold sqlite_apply at 1, memory_apply at 2. rewrite Hc, Hv. cbn [bind].
    destruct (IH (delete (mkey m) rows) n) as (rows' & n' & H1 & H2 & H3 & H4); [lia| |].
    + intros k r [_ H]%lookup_delete_Some. by apply Hr in H.
    + exists rows', n'. rewrite H1. split; [done|]. split; [lia|]. split; [done|]. by rewrite <- H4, fmap_delete.
Qed.

Lemma sqlite_simulates s ms : sqlite_inv s ->
  let '(r, s') := sqlite_transact ms s in
  sqlite_inv s' /\ memory_transact ms (sqlite_memory s) = (r, sqlite_memory s').
Proof.
  intros Hi. pose proof Hi as [H1 H2]. unfold sqlite_transact, memory_transact. destruct (validate ms); [|done].
  assert (Hver : forall k, version_in (records (sqlite_memory s)) k = match sqlite_read k (fsnet_records s) with Some r => sversion r | None => 0 end).
  { intros k. unfold version_in. by rewrite sqlite_memory_read. }
  assert (existsb (fun m => mismatch (version_in (records (sqlite_memory s)) (mkey m)) m) ms =
    existsb (fun m => mismatch match sqlite_read (mkey m) (fsnet_records s) with Some r => sversion r | None => 0 end m) ms) as ->.
  { clear. induction ms as [|m ms IH]; [done|]. cbn [existsb]. rewrite IH. unfold version_in. by rewrite sqlite_memory_read. }
  destruct (existsb _ ms); [done|]. cbn [revision sqlite_memory records]. unfold max_version in H1.
  rewrite to_u64_small by lia. rewrite sub64_le by (unfold max_version; lia).
  destruct (N.leb_spec (max_version - Z.to_N (fsnet_revision s)) (N.of_nat (length ms))) as [|Hx]; [done|].
  destruct (sqlite_apply_all ms (fsnet_records s) (Z.to_N (fsnet_revision s))) as (rows' & n' & E1 & E2 & E3 & E4); [lia| |].
  { intros k r H%H2. rewrite Z2N.id by lia. done. }
  rewrite E1, E4. rewrite to_i64_small by lia. split.
  - split; cbn; [lia|done].
  - unfold sqlite_memory. cbn. rewrite to_u64_small by (unfold max_version in *; lia). by rewrite N2Z.id.
Qed.

Lemma sqlite_transact_one s k e value r s' : sqlite_inv s -> sqlite_transact [MkMutation k e value false] s = (r, s') ->
  sqlite_inv s' /\ allowed (sqlite_view s) k e value r (sqlite_view s').
Proof.
  intros Hi E. pose proof (sqlite_simulates s [MkMutation k e value false] Hi) as H. rewrite E in H. destruct H as [Hi' H].
  split; [done|]. apply memory_transact_one in H as [_ H]; [done|]. by apply sqlite_memory_inv.
Qed.

#[global] Instance sqlite_laws : StorageLaws sqlite_storage sqlite_view sqlite_inv.
Proof.
  split.
  - intros s Hi. by apply memory_laws, sqlite_memory_inv.
  - intros s k o Hi [= <-]. cbn [sqlite_view memory_view cell]. by rewrite sqlite_memory_read.
  - intros s k e v r s' Hi H. by eapply sqlite_transact_one.
  - intros s k e r s' Hi H. by eapply sqlite_transact_one.
Qed.

(** ** Files *)

Section FilesCorrect.
Context (EVP : bytes -> bytes).

Definition entry_value (value : option bytes) : bytes := match value with Some v => v | None => [] end.
Definition is_present (value : option bytes) : bool := match value with Some _ => true | None => false end.
Definition value_fits (value : option bytes) : Prop := size (entry_value value) <= maximum_value.

Lemma parse_entry_bytes n key key' value content :
  size key <= 4096 -> value_fits value -> 0 < n < max_version -> entry_bytes EVP n key value = Ok content ->
  parse_entry EVP key' content = if bytes_eqb key key' then Ok (MkEntry n (is_present value) (entry_value value)) else Throw runtime_error.
Proof.
  intros Hk Hv [Hn1 Hn2]. unfold value_fits, maximum_value, max_version in *. unfold entry_bytes.
  rewrite blob_small by (unfold u32_max; lia). cbn [bind]. fold (entry_value value). rewrite blob_small by (unfold u32_max; lia). cbn [bind].
  set (body := lit "FSF1" ++ _). fold (is_present value) in body. unfold digest at 1. destruct (N.eqb_spec (size (EVP body)) 32) as [Hd|]; [|done].
  cbn [negb bind]. intros <-%Ok_inj. unfold parse_entry, maximum_value.
  assert (Hs : size (body ++ EVP body) = 53 + size key + size (entry_value value)).
  { rewrite size_app, Hd. unfold body. rewrite !size_app, !size_wire_blob. unfold integer. rewrite size_put_be. change (size (lit "FSF1")) with 4.
    rewrite size_cons, size_nil. lia. }
  rewrite Hs. rewrite (proj2 (N.ltb_ge (53 + _ + _) 53)), (proj2 (N.ltb_ge (_ + 8192) _)) by lia. cbn [orb].
  assert (Hl : (length (body ++ EVP body) - 32 = length body)%nat) by (rewrite length_app; unfold size in Hd; lia).
  rewrite Hl, take_app_length, drop_app_length. unfold digest. rewrite Hd. change (32 =? 32) with true. cbn [negb bind].
  rewrite bytes_eqb_refl. unfold body at 1. rewrite starts_with_app. cbn [negb orb]. unfold body. change (drop 4 (lit "FSF1" ++ ?x)) with x.
  rewrite read_integer_app by lia. cbn [bind]. rewrite (proj2 (N.eqb_neq n 0)), (proj2 (N.leb_gt _ n)) by (unfold max_version; lia). cbn [orb app].
  rewrite byte_val_small by (by destruct value). rewrite (proj2 (N.ltb_ge 1 _)) by (destruct value; cbn; lia).
  rewrite read_blob_app by (unfold u32_max; lia). cbn [bind]. destruct (bytes_eqb key key'); [|done]. cbn [negb].
  rewrite <- (app_nil_r (wire_blob (entry_value value))), read_blob_app by (unfold u32_max; lia). cbn [bind is_empty negb orb].
  rewrite (proj2 (N.ltb_ge _ (size (entry_value value)))) by lia. by destruct value.
Qed.

(** Every record file was written by [replace] for a key with that name. *)
Definition files_inv (s : Files) : Prop := forall name content, s !! name = Some content ->
  exists key n value, record_name EVP key = Ok name /\ size key <= 4096 /\ value_fits value /\ 0 < n < max_version /\
    entry_bytes EVP n key value = Ok content.

Definition files_entry (s : Files) (key : bytes) : FileEntry :=
  match (let* name := record_name EVP key in files_read EVP name key s) with Ok e => e | Throw _ => MkEntry 0 false [] end.
Definition files_view (s : Files) : store :=
  MkStore (fun k => let e := files_entry s k in if present e then Some (MkStored (evalue e) (eversion e)) else None)
          (fun k => eversion (files_entry s k)).

Lemma record_name_size key name : record_name EVP key = Ok name -> size key <= 4096.
Proof. unfold record_name. destruct (_ || _) eqn:E; [done|]. bool_prop. tauto. Qed.

(** An entry read back is the absent one, or one written for this key. *)
Lemma files_read_inv s key name e : files_inv s -> record_name EVP key = Ok name -> files_read EVP name key s = Ok e ->
  e = MkEntry 0 false [] /\ s !! name = None \/
  0 < eversion e < max_version /\ (present e = false -> evalue e = []).
Proof.
  intros Hi Hn. unfold files_read. destruct (s !! name) as [content|] eqn:E; [|intros [= <-]; by left].
  destruct (Hi _ _ E) as (key' & n & value & H1 & H2 & H3 & H4 & H5). rewrite (parse_entry_bytes n key' key value) by done.
  destruct (bytes_eqb key' key); [|done]. intros [= <-]. right. cbn. split; [done|]. by destruct value.
Qed.

Lemma files_wf s : files_inv s -> store_wf (files_view s).
Proof.
  intros Hi k r. cbn. unfold files_entry. destruct (record_name EVP k) as [name|] eqn:Hn; cbn [bind]; [|done].
  destruct (files_read EVP name k s) as [e|] eqn:He; [|done].
  destruct (files_read_inv _ _ _ _ Hi Hn He) as [[-> _]|[H _]]; [done|]. destruct (present e); [|done]. intros [= <-]. cbn. lia.
Qed.

(** After [replace] wrote the file of [key], the store has the new record and nothing else changed. *)
Lemma files_wrote s key name current value content :
  files_inv s -> record_name EVP key = Ok name -> files_read EVP name key s = Ok current -> value_fits value ->
  eversion current + 1 < max_version -> entry_bytes EVP (eversion current + 1) key value = Ok content ->
  files_inv (<[name := content]> s) /\ wrote (files_view s) key value (files_view (<[name := content]> s)).
Proof.
  intros Hi Hn Hr Hv Hm Hb. pose proof (record_name_size _ _ Hn) as Hk.
  assert (Hnew : forall k', record_name EVP k' = Ok name -> files_entry (<[name := content]> s) k' =
    if bytes_eqb key k' then MkEntry (eversion current + 1) (is_present value) (entry_value value) else MkEntry 0 false []).
  { intros k' Hn'. unfold files_entry. rewrite Hn'. cbn [bind]. unfold files_read. rewrite lookup_insert_eq.
    rewrite (parse_entry_bytes (eversion current + 1) key k' value) by (done || lia). by destruct (bytes_eqb key k'). }
  assert (Hother : forall k', k' <> key -> files_entry (<[name := content]> s) k' = files_entry s k').
  { intros k' Hne. destruct (decide (record_name EVP k' = Ok name)) as [Hn'|Hn'].
    - rewrite Hnew by done. rewrite (proj2 (bytes_eqb_neq key k')) by congruence. unfold files_entry. rewrite Hn'. cbn [bind].
      unfold files_read in *. destruct (s !! name) as [old|] eqn:E; [|done].
      destruct (Hi _ _ E) as (k2 & n & v2 & H1 & H2 & H3 & H4 & H5).
      rewrite (parse_entry_bytes n k2 key v2) in Hr by done. destruct (bytes_eqb_spec k2 key) as [->|]; [|done].
      rewrite (parse_entry_bytes n key k' v2) by done. by rewrite (proj2 (bytes_eqb_neq key k')) by congruence.
    - unfold files_entry. destruct (record_name EVP k') as [n'|] eqn:E; cbn [bind]; [|done]. unfold files_read.
      by rewrite lookup_insert_ne by congruence. }
  assert (Hcur : files_entry s key = current) by (unfold files_entry; rewrite Hn; cbn [bind]; by rewrite Hr).
  split.
  - intros n' c'. destruct (decide (n' = name)) as [->|Hne]; [rewrite lookup_insert_eq; intros [= <-]|rewrite lookup_insert_ne by done; apply Hi].
    exists key, (eversion current + 1), value. split_and!; (done || lia).
  - split; cbn.
    + rewrite (Hnew key Hn), bytes_eqb_refl, Hcur. destruct value as [v|]; cbn; [|done]. exists (eversion current + 1). split; [lia|done].
    + intros k' Hne. by rewrite Hother.
    + intros k'. destruct (decide (k' = key)) as [->|Hne]; [rewrite (Hnew key Hn), bytes_eqb_refl, Hcur; cbn; lia|by rewrite Hother].
Qed.

Lemma replace_allowed io s key e value r s' : files_inv s -> replace EVP io key e value s = (r, s') ->
  files_inv s' /\ allowed (files_view s) key e value r (files_view s').
Proof.
  intros Hi. unfold replace. destruct (_ || _) eqn:Eg; [intros [= <- <-]; split; [done|by left]|].
  assert (Hv : value_fits value).
  { unfold value_fits. apply orb_false_iff in Eg as [_ Eg]. destruct value; cbn [entry_value]; [by apply N.ltb_ge|]. unfold maximum_value. rewrite size_nil. lia. }
  clear Eg. destruct (record_name EVP key) as [name|] eqn:Hn; cbn [bind]; [|intros [= <- <-]; split; [done|by left]].
  destruct (files_read EVP name key s) as [current|] eqn:Hr; cbn [bind]; [|intros [= <- <-]; split; [done|by left]].
  assert (Hver : version (files_view s) key = if present current then eversion current else 0).
  { unfold version. cbn. unfold files_entry. rewrite Hn. cbn [bind]. rewrite Hr. by destruct (present current). }
  assert (Hp : present current = true -> eversion current <> 0).
  { intros Hp. destruct (files_read_inv _ _ _ _ Hi Hn Hr) as [[-> _]|[? _]]; [done|lia]. }
  destruct (_ || _) eqn:Em.
  { intros [= <- <-]. split; [done|]. split; [|done]. rewrite Hver. apply orb_true_iff in Em as [Em|Em].
    - left. apply negb_true_iff, N.eqb_neq in Em. done.
    - destruct value; [done|]. apply negb_true_iff in Em. rewrite Em. destruct (decide (0 = e)) as [<-|]; [by right|by left]. }
  apply orb_false_iff in Em as [Em1 Em2]. apply negb_false_iff, N.eqb_eq in Em1.
  destruct (N.leb_spec (max_version - 1) (eversion current)) as [|Hm]; [intros [= <- <-]; split; [done|by left]|].
  destruct (entry_bytes EVP _ key value) as [content|] eqn:Hb; [|intros [= <- <-]; split; [done|by left]].
  destruct (files_wrote s key name current value content) as [Hi' Hw]; [done..|unfold max_version in *; lia|done|].
  destruct io; intros [= <- <-].
  - split; [done|]. split; [congruence|]. split; [|done]. intros ->. apply negb_false_iff in Em2. rewrite Em2 in Em1. rewrite <- Em1. auto.
  - split; [done|]. by left.
  - split; [done|]. right. split; [congruence|done].
Qed.

#[global] Instance files_laws io : StorageLaws (files_storage EVP io) files_view files_inv.
Proof.
  split.
  - apply files_wf.
  - intros s k o _ H. cbn in H. unfold files_get in H. apply bind_ok in H as (name & Hn & H). apply bind_ok in H as (e & He & [= <-]).
    cbn. unfold files_entry. rewrite Hn. cbn [bind]. by rewrite He.
  - intros s k e v r s' Hi H. by apply (replace_allowed io).
  - intros s k e r s' Hi H. by apply (replace_allowed io).
Qed.
End FilesCorrect.

(** ** What clients rely on *)

(** A client that read [r] knows: while the version is still [r]'s, so is the value.
    No other client can invalidate it. *)
Definition observed (st : store) (k : bytes) (r : Stored) : Prop :=
  sversion r <= high st k /\ (version st k = sversion r -> cell st k = Some r).

Lemma observed_now st k r : store_wf st -> cell st k = Some r -> observed st k r.
Proof. intros Hw Hc. split; [by apply Hw in Hc as [_ Hc]|done]. Qed.

Lemma version_frame st k value st' k' : wrote st k value st' -> k' <> k -> version st' k' = version st k'.
Proof. intros Hw Hne. unfold version. by rewrite (wrote_frame _ _ _ _ Hw). Qed.

Lemma observed_wrote st k value st' k' r : 0 < sversion r -> observed st k' r -> wrote st k value st' -> observed st' k' r.
Proof.
  intros Hp [H1 H2] Hw. pose proof (wrote_high _ _ _ _ Hw k') as Hh. split; [lia|].
  destruct (decide (k' = k)) as [->|Hne].
  - destruct Hw as [Hc _ _]. unfold version. destruct value as [v|]; [|rewrite Hc; lia]. destruct Hc as (n & Hn & ->). cbn. lia.
  - rewrite (version_frame _ _ _ _ _ Hw Hne), (wrote_frame _ _ _ _ Hw k' Hne). done.
Qed.

Lemma observed_allowed st k e value res st' k' r : 0 < sversion r -> observed st k' r -> allowed st k e value res st' -> observed st' k' r.
Proof.
  intros Hp Ho. destruct res as [[]|]; cbn.
  - intros (_ & _ & Hw). by eapply observed_wrote.
  - by intros [_ ->].
  - intros [->|[_ Hw]]; [done|]. by eapply observed_wrote.
Qed.

(** Any call of any client. *)
Inductive api_step {S} (ops : Storage S) : S -> S -> Prop :=
  | step_cas k e v r s s' : compare_exchange k e v s = (r, s') -> api_step ops s s'
  | step_erase k e r s s' : erase k e s = (r, s') -> api_step ops s s'.

Section Clients.
Context {S : Type} (ops : Storage S) (view : S -> store) (inv : S -> Prop) {laws : StorageLaws ops view inv}.

Lemma api_steps_observed s s' k r : 0 < sversion r -> rtc (api_step ops) s s' -> inv s -> observed (view s) k r -> inv s' /\ observed (view s') k r.
Proof.
  intros Hp. induction 1 as [|s s1 s' Hs _ IH]; [done|]. intros Hi Ho. apply IH; destruct Hs as [k' e v res s s1 E|k' e res s s1 E].
  - by apply (cas_law (view := view)) in E as [? _].
  - by apply (erase_law (view := view)) in E as [? _].
  - apply (cas_law (view := view)) in E as [_ E]; [|done]. by eapply observed_allowed.
  - apply (erase_law (view := view)) in E as [_ E]; [|done]. by eapply observed_allowed.
Qed.

(** No ABA: when a compare-and-swap succeeds with the version of a record a
    client read earlier, that record was still the current one, whatever all clients
    did in between, deletes and re-creations included. *)
Theorem cas_no_aba s s1 s2 k r v :
  inv s -> get k s = Ok (Some r) -> rtc (api_step ops) s s1 ->
  compare_exchange k (sversion r) v s1 = (Ok true, s2) -> cell (view s1) k = Some r.
Proof.
  intros Hi Hg Hs Hc. pose proof (get_law (view := view) s k (Some r) Hi Hg) as Hr. symmetry in Hr.
  pose proof (view_wf (view := view) s Hi) as Hw. pose proof (Hw k r Hr) as Hp.
  destruct (api_steps_observed s s1 k r) as [Hi1 [_ Ho]]; [lia|done|done|by apply observed_now|].
  apply (cas_law (view := view)) in Hc as [_ (Hv & _)]; [|done]. by apply Ho.
Qed.
End Clients.

(** ** Transactions *)

(** The precondition of one mutation. *)
Definition holds (s : Memory) (m : Mutation) : Prop :=
  version_in (records s) (mkey m) = mexpected m /\ (check_only m = false -> mvalue m = None -> mexpected m <> 0).

Lemma mismatch_holds s m : mismatch (version_in (records s) (mkey m)) m = false <-> holds s m.
Proof.
  unfold mismatch, holds. destruct (check_only m), (mvalue m); cbn [negb andb];
    rewrite ?orb_false_r, ?orb_false_iff, ?negb_false_iff, ?N.eqb_eq, ?N.eqb_neq; intuition congruence.
Qed.

(** What a mutation leaves under its key. *)
Definition effect (floor : N) (records : gmap bytes Stored) (m : Mutation) : Prop :=
  match mvalue m with
  | Some v => exists n, floor < n /\ records !! mkey m = Some (MkStored v n)
  | None => records !! mkey m = None
  end.

Lemma memory_apply_all ms : forall next n, NoDup (mkey <$> ms) -> n + N.of_nat (length ms) <= max_version ->
  (forall k r, next !! k = Some r -> 0 < sversion r <= n) ->
  exists next' n', fold_left memory_apply ms (next, n) = (next', n') /\ n <= n' <= max_version /\
    (forall k r, next' !! k = Some r -> 0 < sversion r <= n') /\
    (forall m, m ∈ ms -> check_only m = false -> effect n next' m) /\
    (forall k, (forall m, m ∈ ms -> check_only m = false -> mkey m <> k) -> next' !! k = next !! k).
Proof.
  induction ms as [|m ms IH]; intros next n Hd Hn Hr; cbn [fold_left length fmap list_fmap] in *.
  { exists next, n. split_and!; [done|lia|lia|done|set_solver|done]. }
  apply NoDup_cons in Hd as [Hm Hd].
  assert (Hstep : exists next1 n1, memory_apply (next, n) m = (next1, n1) /\ n <= n1 <= n + 1 /\ (forall k r, next1 !! k = Some r -> 0 < sversion r <= n1) /\
    (check_only m = false -> effect n next1 m) /\ (forall k, (check_only m = false -> mkey m <> k) -> next1 !! k = next !! k)).
  { unfold memory_apply, effect. destruct (check_only m); [exists next, n; split_and!; (done || lia)|]. destruct (mvalue m) as [v|].
    - assert (wrap64 (n + 1) = n + 1) as -> by (unfold wrap64; apply N.mod_small; unfold max_version in *; lia).
      eexists _, _. split; [done|]. split; [lia|]. split_and!.
      + intros k r. destruct (decide (k = mkey m)) as [->|Hne]; [rewrite lookup_insert_eq; intros [= <-]; cbn; lia|].
        rewrite lookup_insert_ne by done. intros H%Hr. lia.
      + intros _. exists (n + 1). rewrite lookup_insert_eq. split; [lia|done].
      + intros k Hk. rewrite lookup_insert_ne; [done|]. by apply Hk.
    - eexists _, _. split; [done|]. split; [lia|]. split_and!.
      + intros k r [_ H]%lookup_delete_Some. by apply Hr in H.
      + intros _. by rewrite lookup_delete_eq.
      + intros k Hk. rewrite lookup_delete_ne; [done|]. by apply Hk. }
  destruct Hstep as (next1 & n1 & -> & H1 & H2 & H3 & H4).
  destruct (IH next1 n1 Hd ltac:(lia) H2) as (next' & n' & -> & A1 & A2 & A3 & A4). exists next', n'. split; [done|]. split; [lia|]. split; [done|]. split.
  - intros m' [->|Hin]%elem_of_cons Hc.
    + specialize (H3 Hc). unfold effect in *. rewrite A4; [done|]. intros m2 Hin _ E. apply Hm. rewrite <- E. by apply list_elem_of_fmap_2.
    + specialize (A3 m' Hin Hc). unfold effect in *. destruct (mvalue m'); [|done]. destruct A3 as (x & Hx & E). exists x. split; [lia|done].
  - intros k Hk. rewrite A4 by (intros; apply Hk; [set_solver|done]). apply H4. intros Hc. apply Hk; [set_solver|done].
Qed.

Lemma validate_keys ms : validate ms = Ok tt -> NoDup (mkey <$> ms).
Proof.
  unfold validate. destruct (_ <? _); [done|]. intros (seen & H & _)%bind_ok.
  assert (G : forall ms l seen, fold_result validate_mutation ms l = Ok seen -> NoDup (mkey <$> ms) /\ forall m, m ∈ ms -> mkey m ∉ l).
  { clear. induction ms as [|m ms IH]; intros l seen; cbn [fold_result]; [split; [constructor|set_solver]|].
    unfold validate_mutation at 1. destruct (bad_mutation m); [done|]. destruct (existsb _ l) eqn:E; [done|]. cbn [bind].
    assert (Hn : mkey m ∉ l).
    { intros Hin. apply not_true_iff_false in E. apply E. apply existsb_exists. exists (mkey m). rewrite bytes_eqb_refl. split; [by apply list_elem_of_In|done]. }
    intros [H1 H2]%IH. cbn [fmap list_fmap]. split; [constructor; [|done]|].
    - intros (m' & E1 & E2)%list_elem_of_fmap. specialize (H2 m' E2). set_solver.
    - intros m' [->|Hin]%elem_of_cons; [done|]. specialize (H2 m' Hin). set_solver. }
  by apply G in H as [? _].
Qed.

(** A memory transaction is all or nothing: when every mutation's
    precondition holds, every write and erase takes effect, each written record under
    a fresh version, and no other key changes; otherwise it returns [false] and the
    database is untouched. *)
Theorem transact_atomic ms s :
  memory_inv s -> validate ms = Ok tt -> revision s + N.of_nat (length ms) < max_version ->
  (Forall (holds s) ms -> exists s', memory_transact ms s = (Ok true, s') /\ memory_inv s' /\
     (forall m, m ∈ ms -> check_only m = false -> effect (revision s) (records s') m) /\
     (forall k, (forall m, m ∈ ms -> check_only m = false -> mkey m <> k) -> records s' !! k = records s !! k)) /\
  (~ Forall (holds s) ms -> memory_transact ms s = (Ok false, s)).
Proof.
  intros [Hr Hi] Hv Hn. unfold memory_transact. rewrite Hv. rewrite sub64_le by (unfold max_version in *; lia).
  rewrite (proj2 (N.leb_gt _ (N.of_nat (length ms)))) by lia. split.
  - intros Hh. destruct (existsb _ ms) eqn:E.
    { apply existsb_exists in E as (m & Hin%list_elem_of_In & Em). rewrite Forall_forall in Hh. apply Hh, mismatch_holds in Hin. congruence. }
    destruct (memory_apply_all ms (records s) (revision s)) as (next & n & -> & H1 & H2 & H3 & H4); [by apply validate_keys|lia|done|].
    eexists. split; [done|]. split; [split; cbn; [lia|done]|]. split; [done|done].
  - intros Hh. assert (existsb (fun m => mismatch (version_in (records s) (mkey m)) m) ms = true) as ->; [|done].
    apply not_false_iff_true. intros E. apply Hh. apply Forall_forall. intros m Hin. apply mismatch_holds.
    apply not_true_iff_false. intros Em. apply not_true_iff_false in E. apply E. apply existsb_exists. exists m. split; [by apply list_elem_of_In|done].
Qed.

(** ** Opening *)

Lemma max_row_version rows (b : Z) : (forall k r, rows !! k = Some r -> (0 < row_version r <= b)%Z) -> (0 <= b)%Z ->
  (0 <= map_fold (fun (_ : bytes) row m => Z.max (row_version row) m) 0%Z rows <= b)%Z /\
  forall k r, rows !! k = Some r -> (row_version r <= map_fold (fun (_ : bytes) row m => Z.max (row_version row) m) 0%Z rows)%Z.
Proof.
  intros H Hb. revert H. apply (map_fold_weak_ind (fun m rows => (forall k r, rows !! k = Some r -> (0 < row_version r <= b)%Z) ->
    (0 <= m <= b)%Z /\ forall k r, rows !! k = Some r -> (row_version r <= m)%Z)).
  - intros _. split; [lia|]. intros k r. by rewrite lookup_empty.
  - intros k row m rest Hk IH H. destruct IH as [I1 I2].
    { intros k' r' Hr. apply (H k'). rewrite lookup_insert_ne; [done|]. congruence. }
    assert (row_version row <= b)%Z by (apply (H k); by rewrite lookup_insert_eq). split; [lia|].
    intros k' r'. destruct (decide (k' = k)) as [->|Hne]; [rewrite lookup_insert_eq; intros [= <-]; lia|].
    rewrite lookup_insert_ne by done. intros Hr%I2. lia.
Qed.

(** C31 (refinement).  The memory, SQLite and file backends implement the storage contract,
    from the empty database on; the file backend also when the operating system fails
    before or after the atomic rename, and whatever the digest function. *)
Theorem backends_implement_contract EVP :
  (StorageLaws memory_storage memory_view memory_inv /\ memory_inv memory_database) /\
  (StorageLaws sqlite_storage sqlite_view sqlite_inv /\ sqlite_inv (sqlite_open None)) /\
  (forall io, StorageLaws (files_storage EVP io) (files_view EVP) (files_inv EVP)) /\ files_inv EVP ∅.
Proof.
  split; [split; [exact _|]|split; [split; [exact _|]|split; [intros io; exact _|]]].
  - split; [by vm_compute|]. intros k r. cbn. by rewrite lookup_empty.
  - split; [by vm_compute|]. intros k r. cbn. by rewrite lookup_empty.
  - intros name content. by rewrite lookup_empty.
Qed.

(** Reopening a SQLite database recovers it exactly; even with a lost
    revision row the revision is at least every stored version, so no version is reused. *)
Theorem sqlite_restart s :
  sqlite_inv s ->
  sqlite_open (Some (fsnet_records s, Some (fsnet_revision s))) = s /\
  sqlite_inv (sqlite_open (Some (fsnet_records s, None))).
Proof.
  intros [H1 H2]. destruct (max_row_version (fsnet_records s) (fsnet_revision s) H2) as [H3 H4]; [lia|]. unfold sqlite_open. split.
  - rewrite Z.max_l by lia. by destruct s.
  - split; cbn [fsnet_revision fsnet_records]; [lia|]. intros k r Hr. specialize (H4 k r Hr). specialize (H2 k r Hr). lia.
Qed.

(** ** Witnesses *)

Definition sample_memory : Memory := (memory_compare_exchange (lit "a") 0 (lit "one") memory_database).2.
Definition sample_erased : Memory := (memory_erase (lit "b") 2 (memory_compare_exchange (lit "b") 0 (lit "two") sample_memory).2).2.

Lemma sample_memory_inv : memory_inv sample_memory.
Proof.
  destruct (memory_transact [MkMutation (lit "a") 0 (Some (lit "one")) false] memory_database) as [r s'] eqn:E.
  assert (s' = sample_memory) as <- by (unfold sample_memory, memory_compare_exchange; by rewrite E).
  apply memory_transact_one in E as [? _]; [done|]. split; [by vm_compute|]. intros k x. cbn. by rewrite lookup_empty.
Qed.

Lemma cas_no_aba_witness : cell (memory_view sample_erased) (lit "a") = Some (MkStored (lit "one") 1).
Proof.
  eapply (cas_no_aba memory_storage memory_view memory_inv sample_memory sample_erased _ (lit "a") (MkStored (lit "one") 1) (lit "three")).
  - exact sample_memory_inv.
  - vm_compute. reflexivity.
  - eapply rtc_l; [eapply (step_cas _ (lit "b") 0 (lit "two")); apply surjective_pairing|].
    eapply rtc_l; [eapply (step_erase _ (lit "b") 2); apply surjective_pairing|]. apply rtc_refl.
  - vm_compute. reflexivity.
Defined.

Definition sample_transaction : list Mutation :=
  [MkMutation (lit "a") 1 None false; MkMutation (lit "b") 0 (Some (lit "two")) false; MkMutation (lit "c") 0 None true].

Lemma transact_atomic_witness : exists s', memory_transact sample_transaction sample_memory = (Ok true, s') /\ records s' !! lit "a" = None.
Proof.
  destruct (transact_atomic sample_transaction sample_memory sample_memory_inv) as [H _]; [vm_compute; reflexivity|vm_compute; reflexivity|].
  destruct H as (s' & E & _ & He & _).
  - repeat constructor; vm_compute; done.
  - exists s'. split; [exact E|]. exact (He (MkMutation (lit "a") 1 None false) ltac:(constructor) eq_refl).
Defined.

Lemma sqlite_restart_witness :
  let s := (sqlite_compare_exchange (lit "a") 0 (lit "one") (sqlite_open None)).2 in
  sqlite_open (Some (fsnet_records s, Some (fsnet_revision s))) = s.
Proof.
  intros s. apply sqlite_restart. destruct (sqlite_transact [MkMutation (lit "a") 0 (Some (lit "one")) false] (sqlite_open None)) as [r s'] eqn:E.
  assert (s' = s) as <- by (unfold s, sqlite_compare_exchange; by rewrite E).
  apply sqlite_transact_one in E as [? _]; [done|]. split; [by vm_compute|]. intros k x. cbn. by rewrite lookup_empty.
Defined.
