(* ===== verification/Programs.v ===== *)
(** * Storage programs

    Code that runs against a [Storage&] as a program of storage calls: what it does
    between two calls is pure, and other clients may act between any two calls.  An
    exception of the storage ends the program: no caller modelled here catches one. *)

From stdpp Require Import gmap.
From S2P Require Import Prelude Storage StorageCorrect.

Inductive prog (A : Type) :=
  | Return (r : result A)
  | Get (key : bytes) (k : option Stored -> prog A)
  | Cas (key : bytes) (expected : N) (value : bytes) (k : bool -> prog A)
  | Erase (key : bytes) (expected : N) (k : bool -> prog A).
Arguments Return {A} r.
Arguments Get {A} key k.
Arguments Cas {A} key expected value k.
Arguments Erase {A} key expected k.

Fixpoint pbind {A B} (p : prog A) (f : A -> prog B) : prog B :=
  match p with
  | Return (Ok a) => f a
  | Return (Throw e) => Return (Throw e)
  | Get key k => Get key (fun o => pbind (k o) f)
  | Cas key e v k => Cas key e v (fun b => pbind (k b) f)
  | Erase key e k => Erase key e (fun b => pbind (k b) f)
  end.

Notation "'do' x <- m ; k" := (pbind m (fun x => k)) (at level 10, x name, m at level 100, k at level 200) : fsnet_scope.
Notation "'do' ' p <- m ; k" := (pbind m (fun y => let 'p := y in k)) (at level 10, p strict pattern, m at level 100, k at level 200) : fsnet_scope.

Definition db_get (key : bytes) : prog (option Stored) := Get key (fun o => Return (Ok o)).
Definition db_compare_exchange (key : bytes) (expected : N) (value : bytes) : prog bool := Cas key expected value (fun b => Return (Ok b)).
Definition throw {A} (e : exn) : prog A := Return (Throw e).

(** A run with no other client, on any backend. *)
Section Run.
Context {S : Type} {ops : Storage S}.
Fixpoint run {A} (p : prog A) (s : S) : result A * S :=
  match p with
  | Return r => (r, s)
  | Get key k => match get key s with Ok o => run (k o) s | Throw e => (Throw e, s) end
  | Cas key e v k => match compare_exchange key e v s with (Ok b, s') => run (k b) s' | (Throw x, s') => (Throw x, s') end
  | Erase key e k => match erase key e s with (Ok b, s') => run (k b) s' | (Throw x, s') => (Throw x, s') end
  end.
End Run.

(** One call, on a store that keeps the contract. *)
Inductive pstep {A} : prog A * store -> prog A * store -> Prop :=
  | pstep_get key k st : pstep (Get key k, st) (k (cell st key), st)
  | pstep_get_throw key k st e : pstep (Get key k, st) (Return (Throw e), st)
  | pstep_cas key e v k st r st' : allowed st key e (Some v) r st' ->
      pstep (Cas key e v k, st) (match r with Ok b => k b | Throw x => Return (Throw x) end, st')
  | pstep_erase key e k st r st' : allowed st key e None r st' ->
      pstep (Erase key e k, st) (match r with Ok b => k b | Throw x => Return (Throw x) end, st').

Lemma wrote_wf st k value st' : store_wf st -> wrote st k value st' -> store_wf st'.
Proof.
  intros Hw [Hc Hf Hh] k' r Hr. destruct (decide (k' = k)) as [->|Hne].
  - destruct value as [v|]; [|congruence]. destruct Hc as (n & Hn & E). assert (r = MkStored v n) as -> by congruence. cbn. lia.
  - rewrite Hf in Hr by done. apply Hw in Hr. specialize (Hh k'). lia.
Qed.

Lemma allowed_wf st k e value r st' : store_wf st -> allowed st k e value r st' -> store_wf st'.
Proof.
  intros Hw. destruct r as [[]|]; cbn.
  - intros (_ & _ & H). by eapply wrote_wf.
  - by intros [_ ->].
  - intros [->|[_ H]]; [done|]. by eapply wrote_wf.
Qed.

Lemma pstep_wf {A} (p : prog A) st p' st' : store_wf st -> pstep (p, st) (p', st') -> store_wf st'.
Proof. intros Hw H. inversion H; subst; eauto using allowed_wf. Qed.

(** A version is zero exactly when there is no record. *)
Lemma version_zero st k : store_wf st -> version st k = 0 <-> cell st k = None.
Proof.
  intros Hw. unfold version. destruct (cell st k) as [r|] eqn:E; [|done]. apply Hw in E. split; [lia|done].
Qed.

(** ** Rely-guarantee reasoning

    [wp R G p Q st]: from [st], when every other client keeps [R], every call of [p] that
    may change the store keeps [G], and if [p] returns a value, [Q] holds of it and
    the store. *)
Fixpoint wp {A} (R G : store -> store -> Prop) (p : prog A) (Q : A -> store -> Prop) (st : store) : Prop :=
  match p with
  | Return (Ok a) => forall st', R st st' -> Q a st'
  | Return (Throw _) => True
  | Get key k => forall st', R st st' -> wp R G (k (cell st' key)) Q st'
  | Cas key e v k => forall st', R st st' -> forall r st'', allowed st' key e (Some v) r st'' ->
      (st'' = st' \/ G st' st'') /\ match r with Ok b => wp R G (k b) Q st'' | Throw _ => True end
  | Erase key e k => forall st', R st st' -> forall r st'', allowed st' key e None r st'' ->
      (st'' = st' \/ G st' st'') /\ match r with Ok b => wp R G (k b) Q st'' | Throw _ => True end
  end.

Section Rely.
Context (R G : store -> store -> Prop) {R_refl : Reflexive R} {R_trans : Transitive R}.

Lemma wp_stable {A} (p : prog A) Q st st' : R st st' -> wp R G p Q st -> wp R G p Q st'.
Proof.
  intros Hr. destruct p as [[a|]|key k|key e v k|key e k]; cbn; [|done| | |]; intros H st2 H2; apply H; by transitivity st'.
Qed.

Lemma wp_bind {A B} (p : prog A) (f : A -> prog B) Q st :
  wp R G p (fun a st => wp R G (f a) Q st) st -> wp R G (pbind p f) Q st.
Proof.
  revert st. induction p as [[a|]|key k IH|key e v k IH|key e k IH]; intros st; cbn.
  - intros H. by apply H.
  - done.
  - intros H st' Hr. by apply IH, H.
  - intros H st' Hr r st'' Ha. destruct (H st' Hr r st'' Ha) as [H1 H2]. split; [done|]. destruct r; [by apply IH|done].
  - intros H st' Hr r st'' Ha. destruct (H st' Hr r st'' Ha) as [H1 H2]. split; [done|]. destruct r; [by apply IH|done].
Qed.

Lemma wp_mono {A} (p : prog A) (Q Q' : A -> store -> Prop) st :
  (forall a st', Q a st' -> Q' a st') -> wp R G p Q st -> wp R G p Q' st.
Proof.
  intros HQ. revert st. induction p as [[a|]|key k IH|key e v k IH|key e k IH]; intros st; cbn.
  - intros H st' Hr. by apply HQ, H.
  - done.
  - intros H st' Hr. by apply IH, H.
  - intros H st' Hr r st'' Ha. destruct (H st' Hr r st'' Ha) as [H1 H2]. split; [done|]. destruct r; [by apply IH|done].
  - intros H st' Hr r st'' Ha. destruct (H st' Hr r st'' Ha) as [H1 H2]. split; [done|]. destruct r; [by apply IH|done].
Qed.

Lemma wp_weaken {A} (G' : store -> store -> Prop) (p : prog A) Q st : (forall a b, G a b -> G' a b) -> wp R G p Q st -> wp R G' p Q st.
Proof.
  intros HG. revert st. induction p as [[a|]|key k IH|key e v k IH|key e k IH]; intros st; cbn; [done|done| | |].
  - intros H st' Hr. by apply IH, H.
  - intros H st' Hr r st'' Ha. destruct (H st' Hr r st'' Ha) as [[H1|H1] H2]; (split; [auto|]); destruct r; auto.
  - intros H st' Hr r st'' Ha. destruct (H st' Hr r st'' Ha) as [[H1|H1] H2]; (split; [auto|]); destruct r; auto.
Qed.

(** A step of a program with a [wp] keeps [G] and the [wp]. *)
Lemma wp_step {A} (p : prog A) Q st p' st' : wp R G p Q st -> pstep (p, st) (p', st') -> (st' = st \/ G st st') /\ wp R G p' Q st'.
Proof.
  intros H Hs. inversion Hs; subst; cbn in H.
  - split; [by left|]. by apply H.
  - split; [by left|done].
  - destruct (H st ltac:(done) r st' ltac:(eassumption)) as [Ha Hb]. split; [done|]. by destruct r.
  - destruct (H st ltac:(done) r st' ltac:(eassumption)) as [Ha Hb]. split; [done|]. by destruct r.
Qed.
End Rely.

(** What any number of calls of other clients may do. *)
Definition any_client (st st' : store) : Prop :=
  (store_wf st -> store_wf st') /\ forall k r, 0 < sversion r -> observed st k r -> observed st' k r.

#[global] Instance any_client_refl : Reflexive any_client.
Proof. by split. Qed.
#[global] Instance any_client_trans : Transitive any_client.
Proof. intros a b c [H1 H2] [H3 H4]. split; auto. Qed.

Lemma any_client_allowed st k e value r st' : allowed st k e value r st' -> any_client st st'.
Proof. intros H. split; [intros; by eapply allowed_wf|]. intros k' x Hp Ho. by eapply observed_allowed. Qed.

(** The calls of a program are those of one more client. *)
Lemma wp_history {A} R G (p : prog A) Q st0 st : Reflexive R -> Transitive R -> (forall a b, R a b -> any_client a b) -> any_client st0 st ->
  wp R G p Q st -> wp R G p (fun a st' => Q a st' /\ any_client st0 st') st.
Proof.
  intros Hrefl Htrans HR. revert st. induction p as [[a|]|key k IH|key e v k IH|key e k IH]; intros st H0; cbn; [|done| | |].
  - intros H st' Hr. split; [by apply H|]. transitivity st; auto.
  - intros H st' Hr. apply IH; [|by apply H]. transitivity st; auto.
  - intros H st' Hr r st'' Ha. destruct (H st' Hr r st'' Ha) as [H1 H2]. split; [done|]. destruct r; [|done]. apply IH; [|done].
    transitivity st'; [transitivity st; auto|by eapply any_client_allowed].
  - intros H st' Hr r st'' Ha. destruct (H st' Hr r st'' Ha) as [H1 H2]. split; [done|]. destruct r; [|done]. apply IH; [|done].
    transitivity st'; [transitivity st; auto|by eapply any_client_allowed].
Qed.

(** A successful compare-and-swap with the version read replaces exactly the record read. *)
Lemma cas_replaces st previous k e v r st' st0 :
  store_wf st0 -> cell st0 k = previous -> any_client st0 st -> e = match previous with Some x => sversion x | None => 0 end ->
  allowed st k e (Some v) r st' -> st' = st \/ (cell st k = previous /\ wrote st k (Some v) st').
Proof.
  intros Hw Hc [Hr1 Hr2] -> Ha.
  assert (Hcur : version st k = match previous with Some x => sversion x | None => 0 end -> cell st k = previous).
  { intros Hv. destruct previous as [x|]; [|by apply version_zero; auto]. pose proof (Hw _ _ Hc). apply (Hr2 k x); [lia|by apply observed_now|done]. }
  destruct r as [[]|]; cbn in Ha.
  - right. destruct Ha as (Hv & _ & Hwr). auto.
  - left. apply Ha.
  - destruct Ha as [->|[Hv Hwr]]; [by left|right; auto].
Qed.

Lemma cas_observed st k s v r st' : observed st k s -> allowed st k (sversion s) (Some v) r st' -> st' = st \/ (cell st k = Some s /\ wrote st k (Some v) st').
Proof.
  intros [_ Ho]. destruct r as [[]|]; cbn.
  - intros (Hv & _ & Hw). right. auto.
  - intros [_ ->]. by left.
  - intros [->|[Hv Hw]]; [by left|right; auto].
Qed.

(** ** Stores and runs for concrete inputs *)

Definition empty_store : store := MkStore (fun _ => None) (fun _ => 0).
Definition put_store (st : store) (k v : bytes) (n : N) : store :=
  MkStore (fun k' => if bytes_eqb k' k then Some (MkStored v n) else cell st k') (fun k' => N.max n (high st k')).

Lemma put_wrote st k v n : high st k < n -> wrote st k (Some v) (put_store st k v n).
Proof.
  intros Hn. split; cbn.
  - exists n. rewrite bytes_eqb_refl. split; [lia|done].
  - intros k' Hne. by rewrite (proj2 (bytes_eqb_neq k' k)).
  - intros k'. lia.
Qed.

Lemma empty_wf : store_wf empty_store.
Proof. intros k r. done. Qed.

(** A run without interference on the abstract store. *)
Fixpoint play {A} (p : prog A) (st : store) : prog A * store :=
  match p with
  | Return r => (Return r, st)
  | Get key k => play (k (cell st key)) st
  | Cas key e v k =>
      if version st key =? e then play (k true) (put_store st key v (high st key + 1)) else play (k false) st
  | Erase key e k => (p, st)
  end.

Lemma play_steps {A} (p : prog A) st : rtc pstep (p, st) (play p st).
Proof.
  revert st. induction p as [r|key k IH|key e v k IH|key e k IH]; intros st; cbn [play]; [done| | |done].
  - eapply rtc_l; [apply pstep_get|]. apply IH.
  - destruct (N.eqb_spec (version st key) e) as [E|E].
    + eapply rtc_l; [apply (pstep_cas _ _ _ _ _ (Ok true))|apply IH]. split; [done|]. split; [done|]. apply put_wrote. lia.
    + eapply rtc_l; [apply (pstep_cas _ _ _ _ _ (Ok false))|apply IH]. split; [by left|done].
Qed.

Lemma put_wf st k v n : store_wf st -> high st k < n -> store_wf (put_store st k v n).
Proof. intros Hw Hn. eapply wrote_wf; [done|]. by apply put_wrote. Qed.
