(* ===== verification/Catalog.v ===== *)
(** * The entity catalogue

    [include/fsnet/entity_catalog.hpp] and [src/entity_catalog.cpp]: cluster-wide
    allocation of entity identities in blocks, and idempotent creation keyed by a
    permanent claim.  SHA-256 (OpenSSL) is a parameter. *)

From stdpp Require Import gmap.
From S2P Require Import Prelude OrderedMap Identity Values AttributeWire Messages Fields TimerState DeliveryState Records Storage StorageCorrect Programs.

Definition sequence_key : bytes := lit "fsnet/identity/high-water/v1".

(** ** Identities *)

Record EntityIdAllocator := MkAllocator { block_size : N; next_ : N; remaining_ : N }.

Definition entity_id_allocator (block_size : N) : result EntityIdAllocator :=
  throw_if (block_size =? 0) || (1048576 <? block_size) as invalid_argument ;;
  Ok (MkAllocator block_size 0 0).

Definition read_high (previous : option Stored) : result N :=
  match previous with
  | None => Ok 0
  | Some r =>
      throw_if negb (size (svalue r) =? 12) || negb (starts_with (lit "FEI1") (svalue r)) as runtime_error ;;
      let* '(high, _) := read_integer (drop 4 (svalue r)) in Ok high
  end.

Definition expected_of (previous : option Stored) : N := match previous with Some r => sversion r | None => 0 end.

(** The bounded loop that claims a block: the new [next_] and [remaining_]. *)
Fixpoint refill (attempts : nat) (block_size : N) : prog (N * N) :=
  match attempts with
  | O => throw runtime_error
  | S attempts =>
      Get sequence_key (fun previous =>
        match read_high previous with
        | Throw e => throw e
        | Ok high =>
            if high =? u64_max then throw overflow_error
            else
              let count := N.min block_size (u64_max - high) in
              Cas sequence_key (expected_of previous) (lit "FEI1" ++ integer (high + count)) (fun ok =>
                if ok then Return (Ok (wrap64 (high + 1), count)) else refill attempts block_size)
        end)
  end.

Definition take_id (a : EntityIdAllocator) (block : N * N) : result (EntityId * EntityIdAllocator) :=
  let '(next, remaining) := block in
  let* id := entity_id next in
  let remaining := remaining - 1 in
  Ok (id, MkAllocator (block_size a) (if remaining =? 0 then next else wrap64 (next + 1)) remaining).

Definition allocate (a : EntityIdAllocator) : prog (EntityId * EntityIdAllocator) :=
  do block <- (if remaining_ a =? 0 then refill 128 (block_size a) else Return (Ok (next_ a, remaining_ a)));
  Return (take_id a block).

(** ** Creation *)

Inductive EntityPersistence := durable | rebuildable_state.
Definition persistence_code (p : EntityPersistence) : N := match p with durable => 0 | rebuildable_state => 1 end.

Record EntityCreation := MkCreation {
  creation_type : bytes; creation_owner : bytes; creation_state : bytes; target_node : bytes; persistence : EntityPersistence }.

Section Catalog.
Context (SHA256 : bytes -> bytes).

Definition operation_key (scope key : bytes) : result bytes :=
  throw_if is_empty scope || (256 <? size scope) || is_empty key || (128 <? size key) as invalid_argument ;;
  let* a := blob scope in
  let* b := blob key in Ok (lit "fsnet/creation/v1/" ++ SHA256 (a ++ b)).

Definition creation_digest_of (c : EntityCreation) : result bytes :=
  throw_if is_empty (creation_type c) || (127 <? size (creation_type c)) || has_any dot_nul (creation_type c) ||
           (negb (is_empty (creation_owner c)) && negb (valid_connection_key (creation_owner c))) ||
           (8 * 1024 * 1024 <? size (creation_state c)) ||
           (negb (is_empty (target_node c)) && negb (valid_entity_node (target_node c))) as invalid_argument ;;
  let* a := blob (creation_type c) in
  let* b := blob (creation_owner c) in
  let* t := blob (target_node c) in
  let* d := blob (creation_state c) in
  Ok (SHA256 (lit "FEC1" ++ a ++ b ++ t ++ [byte_of (persistence_code (persistence c))] ++ d)).

(** The identity a claim record fixes, and the fingerprint that follows it. *)
Definition read_claim (claim : option bytes) : result (EntityId * bytes) :=
  match claim with
  | None => Throw runtime_error
  | Some value =>
      throw_if negb (size value =? 44) || negb (starts_with (lit "FEC1") value) as runtime_error ;;
      let* '(n, input) := read_integer (drop 4 value) in
      let* id := entity_id n in Ok (id, input)
  end.

Definition initial_record (c : EntityCreation) (fingerprint : bytes) : EntityRecord :=
  let rebuild := match persistence c with rebuildable_state => true | durable => false end in
  MkRecord [] 0 0 (MkSnapshot (creation_state c) [] no_delivery no_timers) false (target_node c) 0
    (Some (MkMetadata (creation_type c) (creation_owner c) fingerprint rebuild false (if rebuild then creation_state c else []) 1)).

(** The checks on an entity record that was already there. *)
Definition check_existing (c : EntityCreation) (fingerprint : bytes) (stored : option Stored) : result unit :=
  match stored with
  | None => Throw runtime_error
  | Some r =>
      let* record := decode_entity_record_view (svalue r) in
      match view_metadata record with
      | None => Throw runtime_error
      | Some m =>
          throw_if negb (bytes_eqb (metadata_type m) (creation_type c)) || negb (bytes_eqb (creation_digest m) fingerprint) as runtime_error ;;
          Ok tt
      end
  end.

(** The first half of [create]: the claim in force after it, and the allocator. *)
Definition claim_identity (operation fingerprint : bytes) (a : EntityIdAllocator) : prog (option bytes * EntityIdAllocator) :=
  do claim <- db_get operation;
  match claim with
  | Some r => Return (Ok (Some (svalue r), a))
  | None =>
      do '(candidate, a) <- allocate a;
      let bytes := lit "FEC1" ++ integer (value candidate) ++ fingerprint in
      do won <- db_compare_exchange operation 0 bytes;
      if won then Return (Ok (Some bytes, a))
      else do claim <- db_get operation; Return (Ok (option_map svalue claim, a))
  end.

Definition create (scope key : bytes) (c : EntityCreation) (a : EntityIdAllocator) : prog (EntityId * EntityIdAllocator) :=
  do operation <- Return (operation_key scope key);
  do fingerprint <- Return (creation_digest_of c);
  do '(claim, a) <- claim_identity operation fingerprint a;
  do '(id, input) <- Return (read_claim claim);
  if negb (bytes_eqb input fingerprint) then throw creation_conflict
  else
    let entity_key := entity_record_key id in
    do stored <- db_get entity_key;
    match stored with
    | Some r => do _ <- Return (check_existing c fingerprint (Some r)); Return (Ok (id, a))
    | None =>
        do w <- Return (encode_entity_record (initial_record c fingerprint));
        do won <- db_compare_exchange entity_key 0 w;
        if won then Return (Ok (id, a))
        else do stored <- db_get entity_key; do _ <- Return (check_existing c fingerprint stored); Return (Ok (id, a))
    end.
End Catalog.

Record EntityDescription := MkDescription { description_id : EntityId; description_record : EntityRecord; description_version : N }.

Definition find (id : EntityId) : prog (option EntityDescription) :=
  do stored <- db_get (entity_record_key id);
  match stored with
  | None => Return (Ok None)
  | Some r =>
      do record <- Return (decode_entity_record (svalue r));
      match metadata record with
      | None => throw runtime_error
      | Some _ => Return (Ok (Some (MkDescription id record (sversion r))))
      end
  end.
