(* ===== verification/CatalogCorrect.v ===== *)
(** * Identities are unique and creation is idempotent *)

From stdpp Require Import gmap.
From S2P Require Import Prelude OrderedMap Identity Values AttributeWire Messages MessagesCorrect Fields TimerState DeliveryState Records Storage StorageCorrect Programs Catalog.

(** ** Concurrent allocators

    Any number of allocators share one storage.  A client is idle or has an [allocate]
    in flight; clients take turns one storage call at a time, and other users of the
    storage may change every key but the high-water mark. *)

Record client := MkClient { allocator : EntityIdAllocator; running : option (prog (EntityId * EntityIdAllocator)) }.
Record system := MkSystem { sstore : store; clients : list client; issued : list N }.

Inductive system_step : system -> system -> Prop :=
  | step_start st cs out i a : cs !! i = Some (MkClient a None) ->
      system_step (MkSystem st cs out) (MkSystem st (<[i := MkClient a (Some (allocate a))]> cs) out)
  | step_call st cs out i a p st' p' : cs !! i = Some (MkClient a (Some p)) -> pstep (p, st) (p', st') ->
      system_step (MkSystem st cs out) (MkSystem st' (<[i := MkClient a (Some p')]> cs) out)
  | step_return st cs out i a id a' : cs !! i = Some (MkClient a (Some (Return (Ok (id, a'))))) ->
      system_step (MkSystem st cs out) (MkSystem st (<[i := MkClient a' None]> cs) (value id :: out))
  | step_throw st cs out i a e : cs !! i = Some (MkClient a (Some (Return (Throw e)))) ->
      system_step (MkSystem st cs out) (MkSystem st (<[i := MkClient a None]> cs) out)
  | step_other st cs out st' : store_wf st' -> cell st' sequence_key = cell st sequence_key ->
      (forall k, high st k <= high st' k) ->
      system_step (MkSystem st cs out) (MkSystem st' cs out).

(** The high-water mark of a store. *)
Definition mark (st : store) : N := match read_high (cell st sequence_key) with Ok n => n | Throw _ => 0 end.

Definition mark_ok (st : store) : Prop :=
  store_wf st /\ exists n, read_high (cell st sequence_key) = Ok n /\ n <= u64_max.

(** What an allocator may still hand out. *)
Definition block_ids (b : N * N) : list N := map (fun i => b.1 + N.of_nat i) (seq 0 (N.to_nat b.2)).

(** The rest of an [allocate] after its refill. *)
Definition resume (a : EntityIdAllocator) (p : prog (N * N)) : prog (EntityId * EntityIdAllocator) :=
  pbind p (fun block => Return (take_id a block)).

(** The allocation loop just before its compare-and-swap. *)
Definition swap (n : nat) (b : N) (previous : option Stored) (high : N) : prog (N * N) :=
  Cas sequence_key (expected_of previous) (lit "FEI1" ++ integer (high + N.min b (u64_max - high))) (fun ok =>
    if ok then Return (Ok (wrap64 (high + 1), N.min b (u64_max - high))) else refill n b).

(** While the version is the one read, the mark is the one read. *)
Definition previous_ok (st : store) (previous : option Stored) (high : N) : Prop :=
  read_high previous = Ok high /\ match previous with Some r => 0 < sversion r /\ observed st sequence_key r | None => True end.

(** Where a client is, and the identities it holds. *)
Inductive phase (st : store) : client -> N * N -> Prop :=
  | phase_idle a : 0 < block_size a -> phase st (MkClient a None) (next_ a, remaining_ a)
  | phase_refill a n : 0 < block_size a -> remaining_ a = 0 -> phase st (MkClient a (Some (resume a (refill n (block_size a))))) (0, 0)
  | phase_swap a n previous h : 0 < block_size a -> remaining_ a = 0 -> h < u64_max -> previous_ok st previous h ->
      phase st (MkClient a (Some (resume a (swap n (block_size a) previous h)))) (0, 0)
  | phase_done a next remaining : 0 < block_size a -> 0 < remaining ->
      phase st (MkClient a (Some (Return (take_id a (next, remaining))))) (next, remaining)
  | phase_failed a e : 0 < block_size a -> phase st (MkClient a (Some (Return (Throw e)))) (next_ a, remaining_ a).

Definition system_inv (s : system) : Prop :=
  mark_ok (sstore s) /\ exists bs, Forall2 (phase (sstore s)) (clients s) bs /\
    NoDup (issued s ++ concat (map block_ids bs)) /\
    Forall (fun n => 0 < n <= mark (sstore s)) (issued s ++ concat (map block_ids bs)).

(** *** The mark *)

Lemma read_high_written n m : n <= u64_max -> read_high (Some (MkStored (lit "FEI1" ++ integer n) m)) = Ok n.
Proof.
  intros H. unfold read_high. cbn [svalue]. rewrite starts_with_app.
  assert (size (lit "FEI1" ++ integer n) = 12) as -> by (rewrite size_app; unfold integer; by rewrite size_put_be).
  cbn [negb orb N.eqb]. change (12 =? 12) with true. cbn [negb orb]. change (drop 4 (lit "FEI1" ++ ?x)) with x.
  rewrite <- (app_nil_r (integer n)), read_integer_app; [done|]. unfold u64_max in H. lia.
Qed.

Lemma read_high_bound previous n : read_high previous = Ok n -> n <= u64_max.
Proof.
  unfold read_high. destruct previous as [r|]; [|intros [= <-]; unfold u64_max; lia]. destruct (_ || _); [done|].
  intros ([x rest] & H%get_be_bound & [= <-])%bind_ok. change (256 ^ N.of_nat 8) with (2 ^ 64) in H. unfold u64_max. lia.
Qed.

Lemma mark_eq st n : read_high (cell st sequence_key) = Ok n -> mark st = n.
Proof. unfold mark. by intros ->. Qed.

(** The mark does not change while nobody writes it. *)
Lemma phase_stable st st' c b : phase st c b ->
  (forall r, 0 < sversion r -> observed st sequence_key r -> observed st' sequence_key r) -> phase st' c b.
Proof.
  intros H Ho. destruct H as [| |a n previous h H1 H2 H3 [H4 H5]| |]; constructor; try done. split; [done|].
  destruct previous; [|done]. split; [apply H5|]. apply Ho; apply H5.
Qed.

(** A compare-and-swap with the version read, when it is still current, swaps the mark read. *)
Lemma previous_current st previous h : mark_ok st -> previous_ok st previous h -> version st sequence_key = expected_of previous ->
  read_high (cell st sequence_key) = Ok h.
Proof.
  intros [Hw _] [H1 H2] Hv. destruct previous as [r|]; cbn in *.
  - destruct H2 as [_ [_ H2]]. by rewrite H2.
  - apply version_zero in Hv; [|done]. by rewrite Hv.
Qed.

(** *** Blocks *)

Lemma block_ids_empty n : block_ids (n, 0) = [].
Proof. done. Qed.

Lemma elem_block_ids x b : x ∈ block_ids b <-> b.1 <= x < b.1 + b.2.
Proof.
  unfold block_ids. rewrite list_elem_of_In, in_map_iff. split.
  - intros (i & <- & Hi%in_seq). lia.
  - intros H. exists (N.to_nat (x - b.1)). split; [lia|]. apply in_seq. lia.
Qed.

Lemma NoDup_block_ids b : NoDup (block_ids b).
Proof.
  unfold block_ids. change (map ?f ?l) with (f <$> l). apply NoDup_fmap_2; [|apply NoDup_ListNoDup, seq_NoDup]. intros i j. lia.
Qed.

Lemma block_ids_cons n r : 0 < r -> block_ids (n, r) = n :: block_ids (n + 1, r - 1).
Proof.
  intros H. unfold block_ids. cbn [fst snd]. replace (N.to_nat r) with (S (N.to_nat (r - 1))) by lia. cbn [seq map].
  f_equal; [lia|]. rewrite <- seq_shift, map_map. apply List.map_ext. intros i. lia.
Qed.

(** Replacing one client's block leaves the others'. *)
Lemma insert_block bs i b b' : bs !! i = Some b -> exists rest,
  concat (map block_ids bs) ≡ₚ block_ids b ++ rest /\ concat (map block_ids (<[i := b']> bs)) ≡ₚ block_ids b' ++ rest.
Proof.
  intros H. exists (concat (map block_ids (take i bs)) ++ concat (map block_ids (drop (S i) bs))).
  assert (Hlt : (i < length bs)%nat) by (by apply lookup_lt_Some in H). split.
  - rewrite <- (take_drop_middle bs i b H) at 1. rewrite map_app, concat_app. cbn [map concat]. apply Permutation_app_swap_app.
  - rewrite insert_take_drop by done. rewrite map_app, concat_app. cbn [map concat]. apply Permutation_app_swap_app.
Qed.

(** The identities after one client's block changed from [b] to [b'] and [new] were issued. *)
Lemma inv_update st st' cs out i c' bs b b' (new : list N) :
  mark_ok st' -> mark st <= mark st' ->
  Forall2 (phase st) cs bs -> NoDup (out ++ concat (map block_ids bs)) -> Forall (fun n => 0 < n <= mark st) (out ++ concat (map block_ids bs)) ->
  bs !! i = Some b -> phase st' c' b' ->
  (forall r, 0 < sversion r -> observed st sequence_key r -> observed st' sequence_key r) ->
  new ++ block_ids b' = block_ids b \/
    (new = [] /\ block_ids b = [] /\ forall x, x ∈ block_ids b' -> mark st < x <= mark st') ->
  system_inv (MkSystem st' (<[i := c']> cs) (new ++ out)).
Proof.
  intros Hm Hle Hp Hd Hf Hb Hc Ho Hnew. split; [done|]. exists (<[i := b']> bs). destruct (insert_block bs i b b' Hb) as (rest & P1 & P2).
  assert (Hphase : Forall2 (phase st') (<[i := c']> cs) (<[i := b']> bs)).
  { apply Forall2_insert; [|done]. eapply Forall2_impl; [exact Hp|]. intros c x H. by eapply phase_stable. }
  split; [done|]. cbn [issued sstore].
  assert (Hall : (new ++ out) ++ concat (map block_ids (<[i := b']> bs)) ≡ₚ (new ++ block_ids b') ++ (out ++ rest)) by (rewrite P2, <- !app_assoc; apply Permutation_app_head, Permutation_app_swap_app).
  assert (Hold : out ++ concat (map block_ids bs) ≡ₚ block_ids b ++ (out ++ rest)) by (rewrite P1; apply Permutation_app_swap_app).
  rewrite Hall. rewrite Hold in Hd, Hf. destruct Hnew as [->|(-> & E & Hx)].
  - split; [done|]. eapply Forall_impl; [exact Hf|]. cbn. lia.
  - rewrite E in Hd, Hf. cbn [app] in *. split.
    + apply NoDup_app. split; [apply NoDup_block_ids|]. split; [|done]. intros x Hin Hin2. apply Hx in Hin.
      rewrite Forall_forall in Hf. apply Hf in Hin2. lia.
    + apply Forall_app. split; [|eapply Forall_impl; [exact Hf|]; cbn; lia]. apply Forall_forall. intros x Hin%Hx. lia.
Qed.

Lemma Forall2_client st cs bs i c : Forall2 (phase st) cs bs -> cs !! i = Some c -> exists b, bs !! i = Some b /\ phase st c b.
Proof. intros H Hc. destruct (Forall2_lookup_l _ _ _ _ _ H Hc) as (b & Hb & Hp). eauto. Qed.

(** *** Steps of the allocation loop *)

Lemma refill_get n b st : mark_ok st -> exists h, read_high (cell st sequence_key) = Ok h /\
  refill (S n) b = Get sequence_key (fun previous => match read_high previous with
    | Throw e => throw e
    | Ok high => if high =? u64_max then throw overflow_error else swap n b previous high end).
Proof. intros [_ (h & Hh & _)]. by exists h. Qed.

Lemma mark_unchanged st st' : mark_ok st -> store_wf st' -> cell st' sequence_key = cell st sequence_key -> mark_ok st' /\ mark st' = mark st.
Proof. intros [H1 H2] Hw E. unfold mark_ok, mark. by rewrite E. Qed.

(** The write of the loop moves the mark from [h] to [h + count]. *)
Lemma swap_mark st st' b previous h : mark_ok st -> h < u64_max -> previous_ok st previous h ->
  version st sequence_key = expected_of previous -> wrote st sequence_key (Some (lit "FEI1" ++ integer (h + N.min b (u64_max - h)))) st' ->
  mark_ok st' /\ mark st = h /\ mark st' = h + N.min b (u64_max - h).
Proof.
  intros Hm Hh Hp Hv Hw. pose proof (previous_current st previous h Hm Hp Hv) as Hr. pose proof (wrote_wf _ _ _ _ (proj1 Hm) Hw) as Hw'.
  destruct (wrote_cell _ _ _ _ Hw) as (n & _ & E).
  assert (Hnew : read_high (cell st' sequence_key) = Ok (h + N.min b (u64_max - h))) by (rewrite E; apply read_high_written; lia).
  split; [split; [done|]; eexists; split; [exact Hnew|]; lia|]. split; [by apply mark_eq|by apply mark_eq].
Qed.

Lemma phase_running st a p b : phase st (MkClient a (Some p)) b -> 0 < block_size a /\
  ((exists n, p = resume a (refill n (block_size a)) /\ remaining_ a = 0 /\ b = (0, 0)) \/
   (exists n previous h, p = resume a (swap n (block_size a) previous h) /\ remaining_ a = 0 /\ b = (0, 0) /\ h < u64_max /\ previous_ok st previous h) \/
   (exists next r, p = Return (take_id a (next, r)) /\ 0 < r /\ b = (next, r)) \/
   (exists e, p = Return (Throw e) /\ b = (next_ a, remaining_ a))).
Proof. inversion 1; subst; (split; [done|]); [left|right; left|right; right; left|right; right; right]; eauto 10. Qed.

Lemma step_call_inv st cs out i a p st' p' : system_inv (MkSystem st cs out) -> cs !! i = Some (MkClient a (Some p)) ->
  pstep (p, st) (p', st') -> system_inv (MkSystem st' (<[i := MkClient a (Some p')]> cs) out).
Proof.
  intros (Hm & bs & Hp & Hd & Hf) Hc Hs. cbn [sstore clients issued] in *.
  destruct (Forall2_client _ _ _ _ _ Hp Hc) as (b & Hb & Hph). change out with ([] ++ out).
  assert (Hsame : forall b', st' = st -> block_ids b' = block_ids b -> phase st' (MkClient a (Some p')) b' ->
    system_inv (MkSystem st' (<[i := MkClient a (Some p')]> cs) ([] ++ out))).
  { intros b' -> E Hph'. eapply inv_update; try done. left. by rewrite E. }
  apply phase_running in Hph as [B1 [(n & -> & B2 & ->)|[(n & previous & h & -> & B2 & -> & B3 & B4)|[(next & r & -> & B2 & ->)|(e & -> & ->)]]]].
  - destruct n as [|n]; [inversion Hs|]. destruct (refill_get n (block_size a) st Hm) as (h & Hh & Er). rewrite Er in Hs.
    inversion Hs; subst.
    + rewrite Hh in Hsame |- *. destruct (N.eqb_spec h u64_max) as [Heq|Hne].
      * eapply (Hsame (next_ a, remaining_ a)); [done|by rewrite B2|by apply (phase_failed _ a)].
      * eapply (Hsame (0, 0)); [done|done|]. apply (phase_swap _ a n); [done|done|pose proof (read_high_bound _ _ Hh); lia|]. split; [done|].
        destruct (cell st' sequence_key) as [r|] eqn:Ec; [|done]. split; [by apply (proj1 Hm) in Ec as [? _]|]. by apply observed_now; [apply Hm|].
    + eapply (Hsame (next_ a, remaining_ a)); [done|by rewrite B2|by apply (phase_failed _ a)].
  - unfold swap in Hs. cbn [resume pbind] in Hs. inversion Hs; subst.
    match goal with Ha : allowed _ _ _ _ ?r _ |- _ => rename Ha into Hal; destruct r as [[]|x] end; cbn [allowed] in Hal.
    + destruct Hal as (Hv & _ & Hw). destruct (swap_mark st st' (block_size a) previous h Hm B3 B4 Hv Hw) as (M1 & M2 & M3).
      unfold resume. cbn [pbind].
      eapply (inv_update st st' cs out i _ bs (0, 0) (wrap64 (h + 1), N.min (block_size a) (u64_max - h)) []); try done; [lia|by apply phase_done; lia| |].
      * intros. by eapply observed_wrote.
      * right. split; [done|]. split; [done|]. intros x Hx%elem_block_ids. cbn [fst snd] in Hx. unfold wrap64 in Hx.
        unfold u64_max in *. rewrite N.mod_small in Hx by lia. lia.
    + destruct Hal as [_ ->]. eapply (Hsame (0, 0)); [done|done|]. by apply phase_refill.
    + destruct Hal as [->|[Hv Hw]].
      * eapply (Hsame (next_ a, remaining_ a)); [done|by rewrite B2|by apply phase_failed].
      * destruct (swap_mark st st' (block_size a) previous h Hm B3 B4 Hv Hw) as (M1 & M2 & M3).
        eapply (inv_update st st' cs out i _ bs (0, 0) (next_ a, remaining_ a) []); try done; [lia|by apply phase_failed| |].
        -- intros. by eapply observed_wrote.
        -- left. by rewrite B2.
  - inversion Hs.
  - inversion Hs.
Qed.

Lemma step_return_inv st cs out i a id a' : system_inv (MkSystem st cs out) -> cs !! i = Some (MkClient a (Some (Return (Ok (id, a'))))) ->
  system_inv (MkSystem st (<[i := MkClient a' None]> cs) (value id :: out)).
Proof.
  intros (Hm & bs & Hp & Hd & Hf) Hc. cbn [sstore clients issued] in *.
  destruct (Forall2_client _ _ _ _ _ Hp Hc) as (b & Hb & Hph).
  apply phase_running in Hph as [B1 [(n & E & _)|[(n & previous & h & E & _)|[(next & r & E & B2 & ->)|(e & E & _)]]]]; try done; [by destruct n|].
  assert (Ht : Ok (id, a') = take_id a (next, r)) by congruence. clear E.
  unfold take_id in Ht. symmetry in Ht. apply bind_ok in Ht as (id' & Hid & Ht). apply Ok_inj in Ht. unfold entity_id in Hid.
  destruct (N.eqb_spec next 0); [done|]. injection Hid as <-. injection Ht as <- <-. change (value (MkEntityId next) :: out) with ([next] ++ out).
  assert (Hnext : 0 < r -> 0 < next + r - 1 <= mark st).
  { intros _. rewrite Forall_app in Hf. destruct Hf as [_ Hf]. rewrite Forall_forall in Hf. apply (Hf (next + r - 1)).
    apply list_elem_of_In, in_concat. exists (block_ids (next, r)). split; [apply in_map, list_elem_of_In; by eapply list_elem_of_lookup_2|].
    apply list_elem_of_In, elem_block_ids. cbn. lia. }
  destruct Hm as [Hw (m & Hr & Hmax)]. rewrite (mark_eq _ _ Hr) in Hnext.
  eapply (inv_update st st cs out i _ bs (next, r) _ [next]); try done; [by split; [|exists m]|by apply (phase_idle _ (MkAllocator _ _ _))|].
  left. rewrite (block_ids_cons next r) by done. cbn [app next_ remaining_]. f_equal. destruct (N.eqb_spec (r - 1) 0) as [->|]; [done|].
  unfold wrap64. rewrite N.mod_small; [done|]. unfold u64_max in Hmax. lia.
Qed.

Lemma step_throw_inv st cs out i a e : system_inv (MkSystem st cs out) -> cs !! i = Some (MkClient a (Some (Return (Throw e)))) ->
  system_inv (MkSystem st (<[i := MkClient a None]> cs) out).
Proof.
  intros (Hm & bs & Hp & Hd & Hf) Hc. cbn [sstore clients issued] in *.
  destruct (Forall2_client _ _ _ _ _ Hp Hc) as (b & Hb & Hph). change out with ([] ++ out).
  apply phase_running in Hph as [B1 Hph].
  eapply (inv_update st st cs out i _ bs b (next_ a, remaining_ a) []); try done; [by apply phase_idle|left]. cbn [app].
  destruct Hph as [(n & _ & B2 & ->)|[(n & previous & h & E & _)|[(next & r & E & B2 & ->)|(x & _ & ->)]]]; [by rewrite B2|done| |done].
  unfold take_id in E. destruct (N.eqb_spec next 0) as [->|]; [|by unfold entity_id in E; rewrite (proj2 (N.eqb_neq next 0)) in E].
  exfalso. rewrite Forall_app in Hf. destruct Hf as [_ Hf]. rewrite Forall_forall in Hf. enough (0 < 0 <= mark st) by lia. apply Hf.
  apply list_elem_of_In, in_concat. exists (block_ids (0, r)). split; [apply in_map, list_elem_of_In; by eapply list_elem_of_lookup_2|].
  apply list_elem_of_In, elem_block_ids. cbn. lia.
Qed.

Lemma system_step_inv s s' : system_inv s -> system_step s s' -> system_inv s'.
Proof.
  intros Hi Hs. destruct Hs as [st cs out i a Hc|st cs out i a p st' p' Hc Hp|st cs out i a id a' Hc|st cs out i a e Hc|st cs out st' Hw E Hh].
  - destruct Hi as (Hm & bs & Hp & Hd & Hf). cbn [sstore clients issued] in *. destruct (Forall2_client _ _ _ _ _ Hp Hc) as (b & Hb & Hph).
    assert (0 < block_size a /\ b = (next_ a, remaining_ a)) as [B1 ->] by (inversion Hph; by subst). change out with ([] ++ out).
    unfold allocate. destruct (N.eqb_spec (remaining_ a) 0) as [E|E].
    + eapply (inv_update st st cs out i _ bs _ (0, 0) []); try done; [by apply phase_refill|]. left. by rewrite E.
    + eapply (inv_update st st cs out i _ bs _ (next_ a, remaining_ a) []); try done; [apply phase_done; [done|lia]|]. by left.
  - by eapply step_call_inv.
  - by eapply step_return_inv.
  - by eapply step_throw_inv.
  - destruct Hi as (Hm & bs & Hp & Hd & Hf). cbn [sstore clients issued] in *. destruct (mark_unchanged st st' Hm Hw E) as [M1 M2].
    split; [done|]. exists bs. cbn [sstore clients issued]. rewrite M2. split; [|done]. eapply Forall2_impl; [exact Hp|].
    intros c b Hc. eapply phase_stable; [exact Hc|]. intros r Hr [O1 O2]. split; [specialize (Hh sequence_key); lia|]. unfold version. rewrite E. exact O2.
Qed.

(** A cluster that starts: idle allocators with empty blocks, nothing issued. *)
Definition system_start (s : system) : Prop :=
  mark_ok (sstore s) /\ issued s = [] /\
  Forall (fun c => running c = None /\ remaining_ (allocator c) = 0 /\ 0 < block_size (allocator c)) (clients s).

Lemma start_inv s : system_start s -> system_inv s.
Proof.
  intros (Hm & Hi & Hc). split; [done|]. exists (map (fun c => (next_ (allocator c), remaining_ (allocator c))) (clients s)).
  rewrite Hi. cbn [app]. assert (concat (map block_ids (map (fun c => (next_ (allocator c), remaining_ (allocator c))) (clients s))) = []) as ->.
  { induction Hc as [|c cs (_ & H & _) _ IH]; [done|]. cbn [map concat]. by rewrite H, IH. }
  split; [|split; [constructor|constructor]]. induction Hc as [|[a p] cs (H1 & _ & H3) _ IH]; constructor; [|done]. cbn in *. subst. by apply phase_idle.
Qed.

(** C26 (safety).  Entity identities are unique across the cluster: whatever the number of
    allocators, the interleaving of their storage calls, the failures of those calls
    (a thrown compare-and-swap may have committed) and other storage traffic, no two
    allocations return the same identity, and every identity is a non-zero 64-bit
    number. *)
Theorem allocated_ids_unique s s' :
  system_start s -> rtc system_step s s' -> NoDup (issued s') /\ Forall (fun n => 0 < n < 2 ^ 64) (issued s').
Proof.
  intros H0 Hs. assert (Hi : system_inv s').
  { apply start_inv in H0. induction Hs as [|s1 s2 s3 Hstep _ IH]; [done|]. apply IH. by eapply system_step_inv. }
  destruct Hi as ([_ (m & Hm & Hmax)] & bs & _ & Hd & Hf). apply NoDup_app in Hd as [Hd _]. split; [done|].
  apply Forall_app in Hf as [Hf _]. eapply Forall_impl; [exact Hf|]. cbn. rewrite (mark_eq _ _ Hm). unfold u64_max in Hmax. lia.
Qed.

(** ** Creation *)

Definition is_claim (k : bytes) : bool := starts_with (lit "fsnet/creation/v1/") k.

(** What every user of the storage keeps: claims are permanent. *)
Definition claims_kept (st st' : store) : Prop :=
  (store_wf st -> store_wf st') /\ forall k r, store_wf st -> is_claim k = true -> cell st k = Some r -> cell st' k = Some r.

#[global] Instance claims_kept_refl : Reflexive claims_kept.
Proof. intros st. by split. Qed.
#[global] Instance claims_kept_trans : Transitive claims_kept.
Proof. intros a b c [H1 H2] [H3 H4]. split; [auto|]. intros k r Hw Hk Hc. apply H4; auto. Qed.

Lemma wrote_kept st k value st' : is_claim k = false \/ version st k = 0 -> wrote st k value st' -> claims_kept st st'.
Proof.
  intros Hk Hw. split; [intros; by eapply wrote_wf|]. intros k' r Hwf Hk' Hc. rewrite (wrote_frame _ _ _ _ Hw); [done|].
  intros ->. destruct Hk as [Hk|Hk]; [congruence|]. apply version_zero in Hk; [congruence|done].
Qed.

Lemma allowed_kept st k e value r st' : is_claim k = false \/ e = 0 -> allowed st k e value r st' -> claims_kept st st'.
Proof.
  intros Hk. assert (Hk' : version st k = e -> is_claim k = false \/ version st k = 0) by (intros ->; tauto).
  destruct r as [[]|]; cbn.
  - intros (H & _ & Hw). eapply wrote_kept; eauto.
  - by intros [_ ->].
  - intros [->|[H Hw]]; [done|]. eapply wrote_kept; eauto.
Qed.

(** [p] touches claims only to create absent ones, and returns what [Q] says. *)
Lemma wp_refill n b Q st : (forall x st', claims_kept st st' -> Q x st') -> wp claims_kept claims_kept (refill n b) Q st.
Proof.
  revert st. induction n as [|n IH]; intros st HQ; cbn [refill wp]; [done|]. intros st1 H1. destruct (read_high _) as [h|]; [|done].
  destruct (h =? u64_max); [done|]. cbn [wp]. intros st2 H2 r st3 Ha. assert (claims_kept st2 st3) by exact (allowed_kept _ sequence_key _ _ _ _ (or_introl eq_refl) Ha). split; [by right|].
  destruct r as [[]|]; [|apply IH|done]; cbn [wp]; intros; apply HQ; (transitivity st1; [done|]; transitivity st2; [done|]; by transitivity st3).
Qed.

Lemma wp_allocate a Q st : (forall x st', claims_kept st st' -> Q x st') -> wp claims_kept claims_kept (allocate a) Q st.
Proof.
  intros HQ. unfold allocate. apply wp_bind; [exact _..|].
  assert (Ht : forall block st', claims_kept st st' -> wp claims_kept claims_kept (Return (take_id a block)) Q st').
  { intros block st' H. cbn. destruct (take_id a block); [|done]. intros st2 H2. apply HQ. by transitivity st'. }
  destruct (_ =? _); [by apply wp_refill|]. cbn [wp]. intros. by apply Ht.
Qed.

Section Creation.
Context (SHA256 : bytes -> bytes).

(** The claim of an operation fixes the identity. *)
Definition claimed (operation : bytes) (x : EntityId) (st : store) : Prop :=
  store_wf st /\ exists r input, cell st operation = Some r /\ read_claim (Some (svalue r)) = Ok (x, input).

Lemma claimed_kept operation x st st' : is_claim operation = true -> claims_kept st st' -> claimed operation x st -> claimed operation x st'.
Proof. intros Hc [H1 H2] [Hw (r & input & H3 & H4)]. split; [auto|]. exists r, input. auto. Qed.

Lemma wp_claim operation fingerprint a st : is_claim operation = true -> store_wf st ->
  wp claims_kept claims_kept (claim_identity operation fingerprint a) (fun x st' => store_wf st' /\
    forall v, x.1 = Some v -> exists r, cell st' operation = Some r /\ svalue r = v) st.
Proof.
  intros Hop Hw. unfold claim_identity. cbn [db_get pbind wp]. intros st1 H1.
  assert (Hpost : forall st' st2 v, claims_kept st' st2 -> store_wf st' -> (exists r, cell st' operation = Some r /\ svalue r = v) ->
    store_wf st2 /\ exists r, cell st2 operation = Some r /\ svalue r = v).
  { intros st' st2 v [K1 K2] Hw' (r & Hr & Hv). split; [auto|]. exists r. auto. }
  assert (Hw1 : store_wf st1) by (by apply H1).
  destruct (cell st1 operation) as [r|] eqn:Hc; cbn [pbind wp].
  - intros st2 H2. split; [by apply H2|]. cbn. intros v [= <-]. eapply Hpost; eauto.
  - apply wp_bind; [exact _..|]. apply wp_allocate. intros [candidate a'] st2 H2. cbn [db_compare_exchange pbind wp].
    intros st3 H3 r st4 Ha. split; [right; exact (allowed_kept _ _ _ _ _ _ (or_intror eq_refl) Ha)|]. destruct r as [[]|x]; [| |done]; cbn [pbind wp].
    + intros st5 H5. destruct Ha as (_ & _ & Hwr). assert (Hw4 : store_wf st4) by (eapply wrote_wf; [|done]; apply H3, H2, Hw1).
      split; [by apply H5|]. cbn. intros v [= <-]. destruct (wrote_cell _ _ _ _ Hwr) as (n & _ & Hn). eapply Hpost; eauto.
    + destruct Ha as [_ ->]. cbn [db_get pbind wp]. intros st5 H5. intros st6 H6. assert (Hw5 : store_wf st5) by (apply H5, H3, H2, Hw1).
      split; [by apply H6|]. cbn. destruct (cell st5 operation) as [r|] eqn:Hc5; [|done]. cbn. intros v [= <-]. eapply Hpost; eauto.
Qed.

Lemma operation_is_claim scope key operation : operation_key SHA256 scope key = Ok operation -> is_claim operation = true.
Proof.
  unfold operation_key. destruct (_ || _ || _ || _); [done|]. intros (a & _ & H)%bind_ok. apply bind_ok in H as (b & _ & <-%Ok_inj). apply starts_with_app.
Qed.

Lemma entity_key_not_claim id : is_claim (entity_record_key id) = false.
Proof. done. Qed.

(** A [create] that returns fixed its identity in the claim of its operation. *)
Lemma wp_create scope key c a st operation : operation_key SHA256 scope key = Ok operation -> store_wf st ->
  wp claims_kept claims_kept (create SHA256 scope key c a) (fun x st' => claimed operation x.1 st') st.
Proof.
  intros Hop Hw. pose proof (operation_is_claim _ _ _ Hop) as Hc. unfold create. rewrite Hop. cbn [pbind].
  destruct (creation_digest_of SHA256 c) as [fingerprint|]; cbn [pbind]; [|done].
  apply wp_bind; [exact _..|]. eapply wp_mono; [|by apply wp_claim]. intros [claim a'] st1 [Hw1 Hcl]. cbn [fst] in Hcl.
  destruct (read_claim claim) as [[id input]|] eqn:Hr; cbn [pbind]; [|done]. destruct (negb _); [done|].
  destruct claim as [v|]; [|done]. destruct (Hcl v eq_refl) as (r & Hcell & <-).
  assert (Hfin : forall st2, claims_kept st1 st2 -> claimed operation id st2).
  { intros st2 H2. eapply claimed_kept; [done|exact H2|]. split; [done|]. by exists r, input. }
  clear Hcl Hcell. cbn [db_get pbind wp]. intros st2 H2. destruct (cell st2 _) as [r2|]; cbn [pbind].
  - destruct (check_existing _ _ _); cbn [pbind wp]; [|done]. intros st3 H3. cbn. apply Hfin. by transitivity st2.
  - destruct (encode_entity_record _) as [w|]; cbn [pbind]; [|done]. cbn [db_compare_exchange pbind wp]. intros st3 H3 x st4 Ha.
    assert (H4 : claims_kept st3 st4) by exact (allowed_kept _ _ _ _ _ _ (or_introl (entity_key_not_claim id)) Ha). split; [by right|].
    destruct x as [[]|]; [| |done]; cbn [pbind wp].
    + intros st5 H5. cbn. apply Hfin. transitivity st2; [done|]. transitivity st3; [done|]. by transitivity st4.
    + cbn [db_get pbind wp]. intros st5 H5. destruct (check_existing _ _ _); cbn [pbind wp]; [|done]. intros st6 H6. cbn. apply Hfin.
      transitivity st2; [done|]. transitivity st3; [done|]. transitivity st4; [done|]. by transitivity st5.
Qed.

(** Clients that create entities concurrently, each with its own catalogue. *)
Record creator := MkCreator { cscope : bytes; ckey : bytes; creating : prog (EntityId * EntityIdAllocator) }.

Inductive create_step : store * list creator -> store * list creator -> Prop :=
  | create_begin st cs scope key c a :
      create_step (st, cs) (st, cs ++ [MkCreator scope key (create SHA256 scope key c a)])
  | create_call st cs i scope key p p' st' : cs !! i = Some (MkCreator scope key p) -> pstep (p, st) (p', st') ->
      create_step (st, cs) (st', <[i := MkCreator scope key p']> cs)
  | create_other st cs st' : claims_kept st st' -> create_step (st, cs) (st', cs).

Definition creators_inv (s : store * list creator) : Prop :=
  store_wf s.1 /\ Forall (fun c => forall operation, operation_key SHA256 (cscope c) (ckey c) = Ok operation ->
    wp claims_kept claims_kept (creating c) (fun x st => claimed operation x.1 st) s.1) s.2 /\
  Forall (fun c => is_ok (operation_key SHA256 (cscope c) (ckey c)) = false -> exists e, creating c = Return (Throw e)) s.2.

Lemma create_step_inv s s' : creators_inv s -> create_step s s' -> creators_inv s'.
Proof.
  intros (Hw & Hc & Ht) Hs. destruct Hs as [st cs scope key c a|st cs i scope key p p' st' Hi Hp|st cs st' Hk]; cbn [fst snd] in *.
  - split; [done|]. split; apply Forall_app; (split; [done|]); (constructor; [|constructor]); cbn.
    + intros operation Hop. by apply wp_create.
    + unfold create. destruct (operation_key SHA256 scope key); [done|]. cbn. eauto.
  - assert (Hin : MkCreator scope key p ∈ cs) by (by eapply list_elem_of_lookup_2).
    rewrite Forall_forall in Hc, Ht. pose proof (Hc _ Hin) as Hwp. pose proof (Ht _ Hin) as Hth. cbn in Hwp, Hth.
    destruct (operation_key SHA256 scope key) as [operation|] eqn:Hop; [|destruct (Hth eq_refl) as [x ->]; inversion Hp].
    destruct (wp_step claims_kept claims_kept p _ st p' st' (Hwp operation eq_refl) Hp) as [Hr' Hwp'].
    assert (Hr : claims_kept st st') by (by destruct Hr' as [->|?]). clear Hr'.
    split; [by apply Hr|]. split; apply Forall_insert; cbn.
    + apply Forall_forall. intros x Hx o Ho. eapply wp_stable; [exact _|exact Hr|by apply Hc].
    + rewrite Hop. by intros o [= <-].
    + by apply Forall_forall.
    + by rewrite Hop.
  - split; [by apply Hk|]. split; [|done]. eapply Forall_impl; [exact Hc|]. cbn. intros x Hx o Ho. eapply wp_stable; [exact _|exact Hk|by apply Hx].
Qed.

(** Creation is idempotent: two calls of [create] with the same scope and key
    that return, from any client and in any interleaving, return the same identity. *)
Theorem creation_idempotent st0 st cs i j scope key id1 a1 id2 a2 :
  store_wf st0 -> rtc create_step (st0, []) (st, cs) ->
  cs !! i = Some (MkCreator scope key (Return (Ok (id1, a1)))) ->
  cs !! j = Some (MkCreator scope key (Return (Ok (id2, a2)))) -> id1 = id2.
Proof.
  intros Hw Hs H1 H2. assert (Hi : creators_inv (st, cs)).
  { assert (H0 : creators_inv (st0, [])) by (split; [done|by split]). revert H0. generalize (st0, @nil creator) (st, cs) Hs. clear.
    intros s s' Hs. induction Hs as [|s1 s2 s3 Hstep _ IH]; [done|]. intros H. apply IH. by eapply create_step_inv. }
  destruct Hi as (_ & Hc & Ht). cbn [fst snd] in *. rewrite Forall_forall in Hc, Ht.
  apply list_elem_of_lookup_2 in H1, H2. pose proof (Hc _ H1) as W1. pose proof (Hc _ H2) as W2. pose proof (Ht _ H1) as T1. cbn in W1, W2, T1.
  destruct (operation_key SHA256 scope key) as [operation|]; [|by destruct (T1 eq_refl) as [? ?]].
  destruct (W1 operation eq_refl st ltac:(done)) as [_ (r & x & E1 & E2)]. destruct (W2 operation eq_refl st ltac:(done)) as [_ (r' & x' & E3 & E4)].
  cbn [fst] in *. congruence.
Qed.
End Creation.

(** ** Witnesses *)

Definition sample_allocator : EntityIdAllocator := MkAllocator 2 0 0.
Definition sample_store : store := put_store empty_store sequence_key (lit "FEI1" ++ integer 2) 1.

Lemma sample_cas : allowed empty_store sequence_key 0 (Some (lit "FEI1" ++ integer 2)) (Ok true) sample_store.
Proof. split; [done|]. split; [done|]. by apply put_wrote. Qed.

(** One of two allocators claims a block and hands out its first identity. *)
Lemma allocated_ids_unique_witness :
  exists s', rtc system_step (MkSystem empty_store [MkClient sample_allocator None; MkClient sample_allocator None] []) s' /\
    issued s' = [1] /\ NoDup (issued s').
Proof.
  eexists. match goal with |- ?P /\ _ => assert (H : P) end.
  - eapply rtc_l; [by apply (step_start _ _ _ 0%nat sample_allocator)|].
    eapply rtc_l; [eapply (step_call _ _ _ 0%nat sample_allocator); [reflexivity|apply pstep_get]|].
    eapply rtc_l; [eapply (step_call _ _ _ 0%nat sample_allocator); [reflexivity|apply (pstep_cas sequence_key 0 (lit "FEI1" ++ integer 2) _ _ (Ok true) _ sample_cas)]|].
    eapply rtc_l; [apply (step_return _ _ _ 0%nat sample_allocator (MkEntityId 1) (MkAllocator 2 2 1)); vm_compute; reflexivity|].
    apply rtc_refl.
  - split; [exact H|]. split; [vm_compute; reflexivity|]. apply (allocated_ids_unique (MkSystem empty_store [MkClient sample_allocator None; MkClient sample_allocator None] []) _); [|exact H].
    split; [split; [exact empty_wf|by exists 0]|]. split; [done|]. repeat constructor.
Defined.

Lemma play_creator SHA256 st cs i scope key p : cs !! i = Some (MkCreator scope key p) ->
  rtc (create_step SHA256) (st, cs) ((play p st).2, <[i := MkCreator scope key (play p st).1]> cs).
Proof.
  intros Hi. pose proof (play_steps p st) as Hs. destruct (play p st) as [p' st']. cbn [fst snd].
  revert cs Hi. remember (p, st) as x eqn:Ex. remember (p', st') as y eqn:Ey. revert p st Ex p' st' Ey.
  induction Hs as [x|x [p1 st1] y Hstep _ IH]; intros p st -> p' st' Ey cs Hi.
  - injection Ey as -> ->. by rewrite list_insert_id.
  - assert (Hlt : (i < length cs)%nat) by (by apply lookup_lt_Some in Hi).
    eapply rtc_l; [by eapply create_call|]. specialize (IH p1 st1 eq_refl p' st' Ey (<[i := MkCreator scope key p1]> cs)).
    rewrite list_insert_insert_eq in IH. apply IH. by rewrite list_lookup_insert_eq.
Qed.

Definition sample_sha (x : bytes) : bytes := take 32 (rev x ++ repeat x07 32).
Definition sample_creation : EntityCreation := MkCreation (lit "Player") [] (lit "hp=9") (lit "n1") rebuildable_state.
Definition sample_create : prog (EntityId * EntityIdAllocator) := create sample_sha (lit "boot") (lit "k1") sample_creation sample_allocator.

(** A retried creation returns the first identity. *)
Lemma creation_idempotent_witness :
  let s1 := play sample_create empty_store in let s2 := play sample_create s1.2 in
  exists id a1 a2, s1.1 = Return (Ok (id, a1)) /\ s2.1 = Return (Ok (id, a2)) /\ id = id.
Proof.
  intros s1 s2. exists (MkEntityId 1), (MkAllocator 2 2 1), sample_allocator.
  assert (E1 : s1.1 = Return (Ok (MkEntityId 1, MkAllocator 2 2 1))) by (vm_compute; reflexivity).
  assert (E2 : s2.1 = Return (Ok (MkEntityId 1, sample_allocator))) by (vm_compute; reflexivity).
  split; [exact E1|]. split; [exact E2|].
  apply (creation_idempotent sample_sha empty_store s2.2
    [MkCreator (lit "boot") (lit "k1") s1.1; MkCreator (lit "boot") (lit "k1") s2.1] 0 1 (lit "boot") (lit "k1") _ (MkAllocator 2 2 1) _ sample_allocator).
  - exact empty_wf.
  - eapply rtc_l; [apply (create_begin _ _ _ (lit "boot") (lit "k1") sample_creation sample_allocator)|].
    eapply rtc_l; [apply (create_begin _ _ _ (lit "boot") (lit "k1") sample_creation sample_allocator)|].
    eapply (transitivity (R := rtc _)); [by apply (play_creator sample_sha empty_store _ 0)|]. exact (play_creator sample_sha s1.2
      [MkCreator (lit "boot") (lit "k1") s1.1; MkCreator (lit "boot") (lit "k1") sample_create] 1 _ _ _ eq_refl).
  - by rewrite E1.
  - by rewrite E2.
Defined.
