(* ===== verification/TimerIndex.v ===== *)
(** * The timer discovery index

    [src/entity_timer_index.hpp] and [src/entity_timer_index.cpp]: 64 sharded storage
    records that name the entities with timers, written ahead of the entity itself. *)

From stdpp Require Import gmap.
From S2P Require Import Prelude OrderedMap Identity Values AttributeWire Messages Fields TimerState DeliveryState Records Storage StorageCorrect Programs.

Definition shards : N := 64.
Definition per_shard : N := 4096.

Record Entry := MkIndexEntry {
  itype : bytes; iid : bytes; itoken : bytes; base_version : N; ifence : N; idue_ms : Z; pending : bool; iplacement : bytes }.

Record Bucket := MkBucket { bversion : N; entries : list (bytes * Entry) }.

Definition storage_key (index : N) : result bytes :=
  throw_if shards <=? index as invalid_argument ;; Ok (lit "fsnet/timers/index/v1/" ++ to_string index).

(** [valid(entry)] *)
Definition entry_valid (e : Entry) : bool :=
  negb (is_empty (itype e) || (127 <? size (itype e)) || has_any dot_nul (itype e) || negb (valid_entity_id (iid e)) ||
        is_empty (itoken e) || (64 <? size (itoken e)) || (base_version e =? 0) || (ifence e =? 0) || (idue_ms e <? 0)%Z ||
        (negb (is_empty (iplacement e)) && negb (valid_entity_node (iplacement e)))).

Definition check_entry (e : Entry) : result unit :=
  throw_if negb (entry_valid e) as invalid_argument ;; Ok tt.

Definition identity (type id : bytes) : bytes := type ++ [x00] ++ id.

(** FNV-1a, modulo 2^64. *)
Definition fnv_step (hash : N) (b : byte) : N := wrap64 (N.lxor hash (byte_val b) * 1099511628211).
Definition shard (id : bytes) : N := fold_left fnv_step id 14695981039346656037 mod shards.

Definition get_index_entry (st : list (bytes * Entry) * bytes) : result (list (bytes * Entry) * bytes) :=
  let '(m, input) := st in
  let* '(type, input) := read_blob input in
  let* '(id, input) := read_blob input in
  let* '(token, input) := read_blob input in
  let* '(base, input) := read_integer input in
  let* '(fence, input) := read_integer input in
  let* '(due, input) := read_integer input in
  let* '(placement, input) := read_blob input in
  throw_if i64_max <? due as runtime_error ;;
  match input with
  | [] => Throw runtime_error
  | b :: input =>
      throw_if 1 <? byte_val b as runtime_error ;;
      let e := MkIndexEntry type id token base fence (Z.of_N due) (negb (byte_val b =? 0)) placement in
      let* _ := check_entry e in
      let '(m, fresh) := map_emplace (identity type id) e m in
      throw_if negb fresh as runtime_error ;;
      Ok (m, input)
  end.

Definition decode_bucket (value : bytes) : result (list (bytes * Entry)) :=
  throw_if 1024 * 1024 <? size value as runtime_error ;;
  throw_if negb (starts_with (lit "FTI2") value) as runtime_error ;;
  let* '(count, input) := read_number (drop 4 value) in
  throw_if per_shard <? count as runtime_error ;;
  let* '(m, input) := iter_result get_index_entry (N.to_nat count) ([], input) in
  throw_if negb (is_empty input) as runtime_error ;;
  Ok m.

(** [read(db, index)] *)
Definition read (index : N) : prog Bucket :=
  do key <- Return (storage_key index);
  do record <- db_get key;
  match record with
  | None => Return (Ok (MkBucket 0 []))
  | Some r => do m <- Return (decode_bucket (svalue r)); Return (Ok (MkBucket (sversion r) m))
  end.

Definition put_index_entry (index : N) (out : bytes) (e : bytes * Entry) : result bytes :=
  let '(key, e) := e in
  let* _ := check_entry e in
  throw_if negb (bytes_eqb key (identity (itype e) (iid e))) || negb (shard (iid e) =? index) as invalid_argument ;;
  let* a := blob (itype e) in
  let* b := blob (iid e) in
  let* c := blob (itoken e) in
  let* p := blob (iplacement e) in
  Ok (out ++ a ++ b ++ c ++ integer (base_version e) ++ integer (ifence e) ++ integer (to_u64 (idue_ms e)) ++ p ++
      [byte_of (bool_bit (pending e))]).

Definition encode_bucket (index : N) (m : list (bytes * Entry)) : result bytes :=
  throw_if per_shard <? N.of_nat (length m) as length_error ;;
  let* out := fold_result (put_index_entry index) m (lit "FTI2" ++ number (N.of_nat (length m))) in
  throw_if 1024 * 1024 <? size out as length_error ;;
  Ok out.

(** [write(db, index, bucket)] *)
Definition write (index : N) (b : Bucket) : prog bool :=
  do out <- Return (encode_bucket index (entries b));
  do key <- Return (storage_key index);
  db_compare_exchange key (bversion b) out.

(** One attempt of [arm]: whether the entry was written. *)
Definition arm_once (e : Entry) : prog bool :=
  do id <- Return (entity_id_of_text (iid e));
  do record <- db_get (entity_record_key id);
  match record with
  | None => throw runtime_error
  | Some r =>
      if negb (sversion r =? base_version e) then throw runtime_error
      else
        do current <- Return (decode_entity_record_view (svalue r));
        if negb (view_fence current =? ifence e) then throw runtime_error
        else
          do bucket <- read (shard (iid e));
          match map_find (identity (itype e) (iid e)) (entries bucket) with
          | Some found =>
              if ifence e <? ifence found then throw runtime_error
              else write (shard (iid e)) (MkBucket (bversion bucket) (map_insert (identity (itype e) (iid e)) e (entries bucket)))
          | None => write (shard (iid e)) (MkBucket (bversion bucket) (map_insert (identity (itype e) (iid e)) e (entries bucket)))
          end
  end.

Fixpoint arm_loop (attempts : nat) (e : Entry) : prog unit :=
  match attempts with
  | O => throw runtime_error
  | S attempts => do written <- arm_once e; if written then Return (Ok tt) else arm_loop attempts e
  end.

Definition arm (e : Entry) : prog unit :=
  do _ <- Return (check_entry e); arm_loop 8 e.
