(* ===== verification/TimerIndexCorrect.v ===== *)
(** * The discovery index is correct *)

From stdpp Require Import gmap.
From S2P Require Import Prelude OrderedMap Identity Values AttributeWire Messages MessagesCorrect TimerState TimerCorrect Fields DeliveryState Records Storage StorageCorrect Programs TimerIndex.

(** The fields as their C++ types allow them. *)
Definition entry_wf (e : Entry) : Prop :=
  base_version e < 2 ^ 64 /\ ifence e < 2 ^ 64 /\ (idue_ms e <= INT64_MAX)%Z.

Definition index_entry_ok (index : N) (e : bytes * Entry) : Prop :=
  entry_valid e.2 = true /\ e.1 = identity (itype e.2) (iid e.2) /\ shard (iid e.2) = index.

Definition wire_index_entry (x : bytes * Entry) : bytes :=
  let e := x.2 in
  wire_blob (itype e) ++ wire_blob (iid e) ++ wire_blob (itoken e) ++ integer (base_version e) ++ integer (ifence e) ++
  integer (to_u64 (idue_ms e)) ++ wire_blob (iplacement e) ++ [byte_of (bool_bit (pending e))].

Lemma put_index_entry_Ok index x out out' : put_index_entry index out x = Ok out' -> index_entry_ok index x /\ out' = out ++ wire_index_entry x.
Proof.
  destruct x as [key e]. unfold put_index_entry, check_entry. destruct (entry_valid e) eqn:Hv; [|done]. cbn [negb bind].
  destruct (_ || _) eqn:Ek; [done|]. apply orb_false_iff in Ek as [E1 E2]. apply negb_false_iff in E1, E2. apply bytes_eqb_eq in E1. apply N.eqb_eq in E2.
  intros (a & [_ ->]%blob_Ok & H)%bind_ok. apply bind_ok in H as (b & [_ ->]%blob_Ok & H). apply bind_ok in H as (c & [_ ->]%blob_Ok & H).
  apply bind_ok in H as (p & [_ ->]%blob_Ok & H). split; [done|]. unfold wire_index_entry. cbn [snd]. congruence.
Qed.

Lemma entry_valid_sizes e : entry_valid e = true ->
  size (itype e) <= 127 /\ size (iid e) = 16 /\ size (itoken e) <= 64 /\ size (iplacement e) <= 127 /\ (0 <= idue_ms e)%Z.
Proof.
  unfold entry_valid. intros H. apply negb_true_iff in H. bool_prop.
  destruct H as [[[[[[[[[_ H1] _] H2] _] H3] _] _] H4] H5]. bool_prop. unfold valid_entity_id in H2.
  assert (size (iid e) = 16) by (by destruct (N.eqb_spec (size (iid e)) 16)). assert (size (iplacement e) <= 127).
  { destruct H5 as [H5|H5]; [apply is_empty_true in H5; rewrite H5, size_nil; lia|]. unfold valid_entity_node in H5. bool_prop. tauto. }
  tauto.
Qed.

Lemma get_index_entry_app index k e m rest : index_entry_ok index (k, e) /\ entry_wf e -> get_index_entry (m, wire_index_entry (k, e) ++ rest) =
  let '(m', fresh) := map_emplace k e m in throw_if negb fresh as runtime_error ;; Ok (m', rest).
Proof.
  intros [(Hv & Hk & _) (W1 & W2 & W3)]. cbn [fst snd] in *. destruct (entry_valid_sizes e Hv) as (S1 & S2 & S3 & S4 & S5).
  destruct (to_u64_nonneg (idue_ms e)) as [Ed Bd]; [lia|].
  unfold get_index_entry, wire_index_entry. cbn [snd]. rewrite <- !app_assoc.
  rewrite read_blob_app by (unfold u32_max; lia). cbn [bind]. rewrite read_blob_app by (unfold u32_max; lia). cbn [bind].
  rewrite read_blob_app by (unfold u32_max; lia). cbn [bind]. rewrite read_integer_app by done. cbn [bind]. rewrite read_integer_app by done. cbn [bind].
  rewrite read_integer_app by (unfold i64_max in Bd; lia). cbn [bind]. rewrite read_blob_app by (unfold u32_max; lia). cbn [bind app].
  rewrite (proj2 (N.ltb_ge _ _) Bd). rewrite byte_val_small by (by destruct (pending e)). rewrite (proj2 (N.ltb_ge 1 _)) by (destruct (pending e); cbn; lia).
  assert (negb (bool_bit (pending e) =? 0) = pending e) as -> by (by destruct (pending e)). rewrite Ed, Z2N.id by done.
  replace (MkIndexEntry _ _ _ _ _ _ _ _) with e by (by destruct e). unfold check_entry. rewrite Hv. cbn [negb bind]. by rewrite Hk.
Qed.

Definition wire_bucket (m : list (bytes * Entry)) : bytes := lit "FTI2" ++ number (N.of_nat (length m)) ++ concat (map wire_index_entry m).

Lemma encode_bucket_Ok index m w : encode_bucket index m = Ok w ->
  Forall (index_entry_ok index) m /\ N.of_nat (length m) <= per_shard /\ size w <= 1024 * 1024 /\ w = wire_bucket m.
Proof.
  unfold encode_bucket. destruct (N.ltb_spec per_shard (N.of_nat (length m))); [done|].
  intros (out & [Hf ->]%(fold_result_append _ _ _ _ (put_index_entry_Ok index)) & Hx)%bind_ok. rewrite <- app_assoc in Hx. fold (wire_bucket m) in Hx.
  destruct (N.ltb_spec (1024 * 1024) (size (wire_bucket m))); [done|]. apply Ok_inj in Hx as <-. done.
Qed.

Lemma decode_wire_bucket index m : map_wf m -> Forall (fun e => entry_wf e.2) m -> Forall (index_entry_ok index) m ->
  N.of_nat (length m) <= per_shard -> size (wire_bucket m) <= 1024 * 1024 -> decode_bucket (wire_bucket m) = Ok m.
Proof.
  intros Hm Hw Hf Hl Hs. unfold decode_bucket. rewrite (proj2 (N.ltb_ge _ _) Hs). unfold wire_bucket. rewrite starts_with_app. cbn [negb].
  change (drop 4 (lit "FTI2" ++ ?x)) with x. unfold per_shard in *. rewrite read_number_app by lia. cbn [bind].
  rewrite (proj2 (N.ltb_ge _ _) Hl), Nat2N.id. rewrite <- (app_nil_r (concat _)).
  rewrite (read_map_entries get_index_entry wire_index_entry runtime_error (fun x => index_entry_ok index x /\ entry_wf x.2) (get_index_entry_app index) m []); [done|done|].
  by apply Forall_and.
Qed.

(** A bucket of the index that can be written reads back as itself. *)
Theorem bucket_roundtrip index m w :
  map_wf m -> Forall (fun e => entry_wf e.2) m -> encode_bucket index m = Ok w -> decode_bucket w = Ok m.
Proof. intros Hm Hw (Hf & Hl & Hs & ->)%encode_bucket_Ok. by eapply decode_wire_bucket. Qed.

(** ** What a reader knows *)

Lemma get_index_entry_wf st st' : map_wf st.1 /\ Forall (fun e => entry_wf e.2) st.1 -> get_index_entry st = Ok st' ->
  map_wf st'.1 /\ Forall (fun e => entry_wf e.2) st'.1.
Proof.
  destruct st as [m input]. cbn [fst]. intros [H1 H2] H. unfold get_index_entry in H.
  apply bind_ok in H as ([ty i1] & _ & H). apply bind_ok in H as ([id i2] & _ & H). apply bind_ok in H as ([tok i3] & _ & H).
  apply bind_ok in H as ([base i4] & B1%get_be_bound & H). apply bind_ok in H as ([fence i5] & B2%get_be_bound & H).
  apply bind_ok in H as ([due i6] & _ & H). apply bind_ok in H as ([pl i7] & _ & H). destruct (N.ltb_spec i64_max due) as [|B3]; [done|].
  destruct i7 as [|b i8]; [done|]. destruct (1 <? byte_val b); [done|]. apply bind_ok in H as (_ & _ & H).
  destruct (map_emplace _ _ m) as [m' fresh] eqn:Em. destruct fresh; [|done]. cbn [negb] in H. injection H as <-. cbn [fst].
  split; [by eapply map_wf_emplace|]. unfold map_emplace in Em. destruct (map_contains _ m); [done|]. injection Em as <-.
  apply Forall_map_insert; [|done]. change (256 ^ N.of_nat 8) with (2 ^ 64) in *. unfold entry_wf, i64_max, INT64_MAX in *. cbn. lia.
Qed.

Lemma decode_bucket_wf v m : decode_bucket v = Ok m -> map_wf m /\ Forall (fun e => entry_wf e.2) m.
Proof.
  unfold decode_bucket. destruct (_ <? _); [done|]. destruct (negb _); [done|]. intros ([n i] & _ & H)%bind_ok. destruct (_ <? _); [done|].
  apply bind_ok in H as ([m' i'] & Hi & H). destruct (negb _); [done|]. injection H as <-.
  apply (iter_result_inv _ (fun st => map_wf st.1 /\ Forall (fun e => entry_wf e.2) st.1)) in Hi; [done|by split; [|constructor]|]. intros. by eapply get_index_entry_wf.
Qed.

(** ** Arming *)

(** The bucket a store holds under a key. *)
Definition bucket_at (st : store) (key : bytes) : result (list (bytes * Entry)) :=
  match cell st key with None => Ok [] | Some r => decode_bucket (svalue r) end.

(** The only change [arm] makes: the entry is put in the bucket as it is at that very
    moment, over an entry of no newer fence; nothing else changes. *)
Definition arm_effect (e : Entry) (st st' : store) : Prop :=
  exists key m, storage_key (shard (iid e)) = Ok key /\ bucket_at st key = Ok m /\
    (forall f, map_find (identity (itype e) (iid e)) m = Some f -> ifence f <= ifence e) /\
    bucket_at st' key = Ok (map_insert (identity (itype e) (iid e)) e m) /\
    forall k, k <> key -> cell st' k = cell st k.

Lemma bucket_write e st st' previous key m w : store_wf st -> entry_wf e -> storage_key (shard (iid e)) = Ok key ->
  cell st key = previous -> match previous with None => m = [] | Some r => decode_bucket (svalue r) = Ok m end ->
  (forall f, map_find (identity (itype e) (iid e)) m = Some f -> ifence f <= ifence e) ->
  encode_bucket (shard (iid e)) (map_insert (identity (itype e) (iid e)) e m) = Ok w -> wrote st key (Some w) st' -> arm_effect e st st'.
Proof.
  intros Hw He Hk Hc Hm Hf Henc Hwr. exists key, m. split; [done|].
  assert (Hwf : map_wf m /\ Forall (fun x => entry_wf x.2) m).
  { destruct previous; [by eapply decode_bucket_wf|]. subst. by split; [|constructor]. }
  split; [unfold bucket_at; rewrite Hc; destruct previous; [done|by subst]|]. split; [done|]. split; [|apply Hwr].
  unfold bucket_at. destruct (wrote_cell _ _ _ _ Hwr) as (n & _ & ->). cbn [svalue].
  apply encode_bucket_Ok in Henc as (H1 & H2 & H3 & ->). eapply decode_wire_bucket; eauto.
  - apply map_wf_insert, Hwf.
  - apply Forall_map_insert; [done|apply Hwf].
Qed.

Section Arm.
Context (R : store -> store -> Prop) {R_refl : Reflexive R} {R_trans : Transitive R}.
Context (R_any : forall st st', R st st' -> any_client st st').
Context (e : Entry) (He : entry_wf e) (Q : unit -> store -> Prop).
Context (HQ : forall st st' st'', arm_effect e st st' -> R st' st'' -> Q tt st'').

Lemma wp_arm_once st (Q' : bool -> store -> Prop) : store_wf st ->
  (forall st1 st2, arm_effect e st1 st2 -> Q' true st2) -> (forall st1, store_wf st1 -> Q' false st1) ->
  (forall b st1 st2, R st1 st2 -> Q' b st1 -> Q' b st2) ->
  wp R (arm_effect e) (arm_once e) Q' st.
Proof.
  intros Hw Ht Hf Hs. unfold arm_once. destruct (entity_id_of_text (iid e)) as [id|]; cbn [pbind]; [|done].
  cbn [db_get pbind wp]. intros st1 H1. destruct (cell st1 _) as [r|]; cbn [pbind]; [|done]. destruct (negb _); [done|].
  destruct (decode_entity_record_view _) as [cur|]; cbn [pbind]; [|done]. destruct (negb _); [done|].
  unfold read. destruct (storage_key (shard (iid e))) as [key|] eqn:Hk; cbn [pbind]; [|done]. cbn [db_get pbind wp]. intros st2 H2.
  assert (Hw2 : store_wf st2) by (by apply (R_any _ _ H2), (R_any _ _ H1)).
  assert (Hwrite : forall v m, v = match cell st2 key with Some x => sversion x | None => 0 end ->
    match cell st2 key with None => m = [] | Some r => decode_bucket (svalue r) = Ok m end ->
    (forall f, map_find (identity (itype e) (iid e)) m = Some f -> ifence f <= ifence e) ->
    wp R (arm_effect e) (write (shard (iid e)) (MkBucket v (map_insert (identity (itype e) (iid e)) e m))) Q' st2).
  { intros v m Hv Hm Hfence. unfold write. cbn [entries bversion]. destruct (encode_bucket _ _) as [w|] eqn:Henc; cbn [pbind]; [|done].
    rewrite Hk. cbn [db_compare_exchange pbind wp]. intros st3 H3 x st4 Ha.
    destruct (cas_replaces st3 _ key v w x st4 st2 Hw2 eq_refl (R_any _ _ H3) Hv Ha) as [->|[Hc Hwr]].
    - split; [by left|]. destruct x as [b|]; [|done]. cbn [wp]. intros st5 H5. destruct b; [|apply Hf; by apply (R_any _ _ H5), (R_any _ _ H3)].
      exfalso. destruct Ha as (_ & _ & Hwr). destruct (wrote_cell _ _ _ _ Hwr) as (n & Hn & Hcell).
      pose proof ((proj1 (R_any _ _ H3)) Hw2 _ _ Hcell) as Hwf3. cbn in Hwf3. lia.
    - assert (Heff : arm_effect e st3 st4).
      { eapply bucket_write; eauto. by apply (R_any _ _ H3). }
      split; [by right|]. destruct x as [b|]; [|done]. cbn [wp]. intros st5 H5. apply (Hs b st4); [done|]. destruct b; [by eapply Ht|].
      apply Hf. eapply wrote_wf; [|done]. by apply (R_any _ _ H3). }
  destruct (cell st2 key) as [r2|]; cbn [pbind].
  - destruct (decode_bucket (svalue r2)) as [m|] eqn:Hd; cbn [pbind entries bversion]; [|done].
    destruct (map_find _ m) as [found|] eqn:Hfind; [|apply Hwrite; try done; by rewrite Hfind].
    destruct (N.ltb_spec (ifence e) (ifence found)); [done|]. apply Hwrite; try done. rewrite Hfind. by intros f [= <-].
  - cbn [entries bversion map_find]. by apply Hwrite.
Qed.

Lemma wp_arm_loop n st : store_wf st -> wp R (arm_effect e) (arm_loop n e) Q st.
Proof.
  revert st. induction n as [|n IH]; intros st Hw; cbn [arm_loop]; [done|]. apply wp_bind; [exact _..|].
  apply wp_arm_once; [done| | |].
  - intros st1 st2 Heff st3 H3. by eapply HQ.
  - intros st1 Hw1. by apply IH.
  - intros b st1 st2 H12. by apply wp_stable.
Qed.

Lemma wp_arm st : store_wf st -> wp R (arm_effect e) (arm e) Q st.
Proof. intros Hw. unfold arm. destruct (check_entry e); cbn [pbind]; [by apply wp_arm_loop|done]. Qed.
End Arm.

(** Arming never loses an update: whatever other clients do, every change
    [arm] makes to the storage adds its entry to the bucket current at that moment,
    never over an entry of a newer fence, and touches nothing else; and run alone,
    when it returns, the entry is in the index. *)
Theorem arm_no_lost_update e st :
  store_wf st -> entry_wf e ->
  wp any_client (arm_effect e) (arm e) (fun _ _ => True) st /\
  wp eq (arm_effect e) (arm e) (fun _ st' => exists key m, storage_key (shard (iid e)) = Ok key /\
    bucket_at st' key = Ok m /\ map_find (identity (itype e) (iid e)) m = Some e) st.
Proof.
  intros Hw He. split; apply wp_arm; try done; try exact _.
  - by intros st1 st2 ->.
  - intros st1 st2 st3 (key & m & H1 & _ & _ & H2 & _) <-. exists key, (map_insert (identity (itype e) (iid e)) e m).
    split; [done|]. split; [done|]. apply map_find_insert.
Qed.

(** ** Witnesses *)

Definition sample_entry : Entry := MkIndexEntry (lit "Player") (lit "00000000000000a1") (lit "tok") 1 3 1000 true (lit "n1").

Definition sample_index : store :=
  match encode_entity_record (MkRecord (lit "n1/7") 5000 3 (MkSnapshot (lit "hp") [] no_delivery no_timers) true (lit "n1") 12
          (Some (MkMetadata (lit "Player") [] (repeat x05 32) true false (lit "hp=9") 1))) with
  | Ok w => put_store empty_store (entity_record_key (MkEntityId 161)) w 1
  | Throw _ => empty_store
  end.

Lemma bucket_roundtrip_witness : exists w,
  encode_bucket (shard (iid sample_entry)) [(identity (lit "Player") (lit "00000000000000a1"), sample_entry)] = Ok w /\
  decode_bucket w = Ok [(identity (lit "Player") (lit "00000000000000a1"), sample_entry)].
Proof.
  eexists. split; [vm_compute; reflexivity|].
  apply (bucket_roundtrip (shard (iid sample_entry))); [vm_compute; done|repeat constructor; vm_compute; done|vm_compute; reflexivity].
Defined.

Lemma arm_no_lost_update_witness :
  (play (arm sample_entry) sample_index).1 = Return (Ok tt) /\
  wp any_client (arm_effect sample_entry) (arm sample_entry) (fun _ _ => True) sample_index.
Proof.
  split; [vm_compute; reflexivity|]. apply arm_no_lost_update; [|split_and!; vm_compute; done].
  unfold sample_index. destruct (encode_entity_record _); [|exact empty_wf]. by apply put_wf; [exact empty_wf|].
Defined.
