(* ===== verification/Async.v ===== *)
(** * The storage executor

    [include/fsnet/async_database.hpp] and [src/async_database.cpp]: one worker thread runs
    storage operations in order; completions run on the thread that polls.  Each
    function is one section of the code that holds the mutex or runs between two such
    sections; the step relation interleaves the owner and the worker. *)

From stdpp Require Import gmap.
From S2P Require Import Prelude Storage.

Inductive StopMode := drain | cancel_queued.

Section AsyncDatabase.
Context {S : Type}.

(** An operation runs against the storage and may throw. *)
Definition Operation : Type := S -> result unit * S.

(** [completion] is a name for the callback: the executor only ever calls it. *)
Record Job := MkJob { jbytes : N; operation : Operation; completion : N; error : option exn }.

Record Impl := MkImpl {
  database : S;
  max_jobs : N; max_bytes : N;
  queued : list Job; completed : list Job;
  active : option Job;          (* the worker's local list *)
  abandoned : list Job;         (* [stop]'s local list *)
  count : N; bytes_held : N;
  stopped : bool; polling : bool;
  worker : bool }.              (* joinable: the thread has not returned *)

Definition async_database (db : S) (jobs bytes : N) : result Impl :=
  throw_if (jobs =? 0) || (bytes =? 0) as invalid_argument ;;
  Ok (MkImpl db jobs bytes [] [] None [] 0 0 false false true).

(** [submit(bytes, operation, completion)] *)
Definition submit (bytes : N) (op : Operation) (done : N) (s : Impl) : bool * Impl :=
  if stopped s || (max_jobs s <=? count s) || (sub64 (max_bytes s) (bytes_held s) <? bytes) then (false, s)
  else (true, MkImpl (database s) (max_jobs s) (max_bytes s) (queued s ++ [MkJob bytes op done None]) (completed s) (active s) (abandoned s)
                (wrap64 (count s + 1)) (wrap64 (bytes_held s + bytes)) (stopped s) (polling s) (worker s)).

(** The worker's wait: it takes the first queued job, returns when stopped with an
    empty queue, and otherwise keeps waiting. *)
Definition worker_take (s : Impl) : Impl :=
  match queued s with
  | job :: rest => MkImpl (database s) (max_jobs s) (max_bytes s) rest (completed s) (Some job) (abandoned s)
                     (count s) (bytes_held s) (stopped s) (polling s) (worker s)
  | [] => if stopped s then MkImpl (database s) (max_jobs s) (max_bytes s) [] (completed s) (active s) (abandoned s)
                              (count s) (bytes_held s) (stopped s) (polling s) false
          else s
  end.

(** The worker runs its job and splices it to the completions. *)
Definition worker_run (job : Job) (s : Impl) : Impl :=
  let '(r, db) := operation job (database s) in
  let done := MkJob (jbytes job) (operation job) (completion job) (match r with Ok _ => error job | Throw e => Some e end) in
  MkImpl db (max_jobs s) (max_bytes s) (queued s) (completed s ++ [done]) None (abandoned s)
    (count s) (bytes_held s) (stopped s) (polling s) (worker s).

Definition poll_begin (s : Impl) : result Impl :=
  throw_if polling s as logic_error ;;
  Ok (MkImpl (database s) (max_jobs s) (max_bytes s) (queued s) (completed s) (active s) (abandoned s) (count s) (bytes_held s) (stopped s) true (worker s)).

(** One turn of [poll]'s loop: the job whose completion is called next. *)
Definition poll_pop (s : Impl) : option (Job * Impl) :=
  match completed s with
  | [] => None
  | job :: rest => Some (job, MkImpl (database s) (max_jobs s) (max_bytes s) (queued s) rest (active s) (abandoned s)
                           (sub64 (count s) 1) (sub64 (bytes_held s) (jbytes job)) (stopped s) (polling s) (worker s))
  end.

Definition poll_end (s : Impl) : Impl :=
  MkImpl (database s) (max_jobs s) (max_bytes s) (queued s) (completed s) (active s) (abandoned s) (count s) (bytes_held s) (stopped s) false (worker s).

(** [stop(mode)] up to the join, with the jobs it abandons marked cancelled. *)
Definition stop_begin (mode : StopMode) (s : Impl) : Impl :=
  let abandon := match mode with cancel_queued => true | drain => false end in
  MkImpl (database s) (max_jobs s) (max_bytes s) (if abandon then [] else queued s) (completed s) (active s)
    (if abandon then map (fun job => MkJob (jbytes job) (operation job) (completion job) (Some runtime_error)) (queued s) else [])
    (count s) (bytes_held s) true (polling s) (worker s).

(** [stop] after the join. *)
Definition stop_end (s : Impl) : Impl :=
  MkImpl (database s) (max_jobs s) (max_bytes s) (queued s) (completed s ++ abandoned s) (active s) []
    (count s) (bytes_held s) (stopped s) (polling s) (worker s).

Definition pending_jobs (s : Impl) : N := count s.

(** ** Interleavings

    [stopping] is true while the owner waits in [stop]; the completions called so far
    are recorded with their errors, and so are the admissions and the operations run. *)
Record run_state := MkRun {
  impl : Impl; stopping : bool; admitted : list N; executed : list N; delivered : list (N * option exn) }.

Inductive async_step : run_state -> run_state -> Prop :=
  | step_submit s a x d bytes op done s' : bytes < 2 ^ 64 -> submit bytes op done s = (true, s') ->
      async_step (MkRun s false a x d) (MkRun s' false (a ++ [done]) x d)
  | step_refused s a x d bytes op done s' : submit bytes op done s = (false, s') ->
      async_step (MkRun s false a x d) (MkRun s' false a x d)
  | step_take s stopping a x d : worker s = true -> active s = None ->
      async_step (MkRun s stopping a x d) (MkRun (worker_take s) stopping a x d)
  | step_run s stopping a x d job : active s = Some job ->
      async_step (MkRun s stopping a x d) (MkRun (worker_run job s) stopping a (x ++ [completion job]) d)
  | step_poll s a x d s' : poll_begin s = Ok s' -> async_step (MkRun s false a x d) (MkRun s' false a x d)
  | step_pop s a x d job s' : polling s = true -> poll_pop s = Some (job, s') ->
      async_step (MkRun s false a x d) (MkRun s' false a x (d ++ [(completion job, error job)]))
  | step_polled s a x d : polling s = true -> async_step (MkRun s false a x d) (MkRun (poll_end s) false a x d)
  | step_stop s a x d mode : async_step (MkRun s false a x d) (MkRun (stop_begin mode s) true a x d)
  | step_joined s a x d : worker s = false -> async_step (MkRun s true a x d) (MkRun (stop_end s) false a x d).
End AsyncDatabase.
Arguments Job : clear implicits.
Arguments Impl : clear implicits.
Arguments Operation : clear implicits.
Arguments run_state : clear implicits.
