(* ===== verification/AsyncCorrect.v ===== *)
(** * The storage executor is correct

    Admission stays within the limits, operations run once each in admission order, and
    every admitted job's completion is called once, in admission order. *)

From stdpp Require Import gmap.
From S2P Require Import Prelude OrderedMap Values AttributeWire AttributeCodec Storage StorageCorrect Async.

Section AsyncCorrect.
Context {S : Type}.

(** Every job the executor holds, in admission order. *)
Definition held (s : Impl S) : list (Job S) := completed s ++ option_list (active s) ++ queued s ++ abandoned s.

(** The jobs whose operation has not run. *)
Definition waiting (s : Impl S) : list (Job S) := option_list (active s) ++ queued s ++ abandoned s.

Definition held_bytes (s : Impl S) : N := sum jbytes (held s).

(** The completions already called and those about to be. *)
Definition outcomes (r : run_state S) : list (N * option exn) :=
  delivered r ++ map (fun j => (completion j, error j)) (completed (impl r)).

Record run_inv (r : run_state S) : Prop := {
  inv_limits : max_jobs (impl r) < 2 ^ 64 /\ max_bytes (impl r) < 2 ^ 64;
  inv_count : count (impl r) = N.of_nat (length (held (impl r))) /\ count (impl r) <= max_jobs (impl r);
  inv_bytes : bytes_held (impl r) = held_bytes (impl r) /\ bytes_held (impl r) <= max_bytes (impl r);
  inv_order : admitted r = map fst (delivered r) ++ map completion (held (impl r));
  inv_abandoned : abandoned (impl r) <> [] -> stopping r = true /\ queued (impl r) = [];
  inv_marked : Forall (fun j => error j = Some runtime_error) (abandoned (impl r));
  inv_stopping : stopping r = true -> stopped (impl r) = true;
  inv_worker : worker (impl r) = false -> active (impl r) = None /\ queued (impl r) = [] /\ stopped (impl r) = true;
  inv_executed : exists cancelled, admitted r = executed r ++ map completion (waiting (impl r)) ++ map fst cancelled /\
    drop (length (executed r)) (outcomes r) = cancelled /\ Forall (fun x => x.2 = Some runtime_error) cancelled /\
    (cancelled <> [] -> waiting (impl r) = [] /\ worker (impl r) = false) }.

Lemma outcomes_names r : map fst (outcomes r) = map fst (delivered r) ++ map completion (completed (impl r)).
Proof. unfold outcomes. rewrite map_app, map_map. done. Qed.

(** What has been run or cancelled is what has an outcome. *)
Lemma outcomes_length r : run_inv r -> forall cancelled : list (N * option exn), admitted r = executed r ++ map completion (waiting (impl r)) ++ map fst cancelled ->
  length (outcomes r) = (length (executed r) + length cancelled)%nat.
Proof.
  intros Hi cancelled H. rewrite <- (length_map fst (outcomes r)), outcomes_names.
  pose proof (inv_order r Hi) as Ho. rewrite H in Ho. apply (f_equal length) in Ho.
  unfold held in Ho. rewrite !map_app, !length_app in Ho. unfold waiting in Ho. rewrite ?map_app, ?length_app, ?length_map in *. lia.
Qed.

Lemma start_run db jobs bytes s : jobs < 2 ^ 64 -> bytes < 2 ^ 64 -> async_database db jobs bytes = Ok s -> run_inv (MkRun s false [] [] []).
Proof.
  intros Hj Hb. unfold async_database. destruct (_ || _); [done|]. intros [= <-]. constructor; cbn; try done; try lia.
  exists []. split_and!; done.
Qed.

Lemma not_stopped_fresh r : run_inv r -> stopped (impl r) = false -> abandoned (impl r) = [] /\ worker (impl r) = true.
Proof.
  intros Hi Hs. split.
  - destruct (abandoned (impl r)) eqn:E; [done|]. destruct (inv_abandoned r Hi) as [H _]; [by rewrite E|]. apply (inv_stopping r Hi) in H. congruence.
  - destruct (worker (impl r)) eqn:E; [done|]. destruct (inv_worker r Hi E) as (_ & _ & H). congruence.
Qed.

Lemma async_submit_inv s a x d bytes op done s' : run_inv (MkRun s false a x d) -> bytes < 2 ^ 64 -> submit bytes op done s = (true, s') ->
  run_inv (MkRun s' false (a ++ [done]) x d).
Proof.
  intros Hi Hb. unfold submit. destruct (_ || _ || _) eqn:E; [congruence|]. intros [= <-].
  apply orb_false_iff in E as [E E3]. apply orb_false_iff in E as [E1 E2]. destruct (not_stopped_fresh _ Hi E1) as [Hab Hwk]. cbn in Hab, Hwk.
  pose proof Hi as [[L1 L2] [C1 C2] [B1 B2] Ho _ _ _ _ (c & X1 & X2 & X3 & X4)]. cbn [impl stopping admitted executed delivered] in *.
  apply N.leb_gt in E2. rewrite sub64_le in E3 by (done || lia). apply N.ltb_ge in E3.
  assert (Hheld : forall job, completed s ++ option_list (active s) ++ (queued s ++ [job]) ++ [] = held s ++ [job]).
  { intros job. unfold held. rewrite Hab. by rewrite <- !app_assoc. }
  assert (Hc : c = []) by (destruct c; [done|]; destruct X4 as [_ X4]; [done|congruence]). rewrite Hc in X1, X2. clear Hc X3 X4.
  constructor; unfold held_bytes, held, waiting; cbn -[sum]; rewrite ?Hab, ?Hheld; try done.
  - rewrite length_app. unfold wrap64. rewrite N.mod_small by lia. cbn [length]. lia.
  - rewrite sum_app. unfold wrap64. rewrite N.mod_small by lia. unfold held_bytes in B1. rewrite <- B1. unfold sum. cbn [fold_right jbytes]. lia.
  - rewrite map_app, Ho, <- app_assoc. done.
  - congruence.
  - exists []. split; [|by split; [exact X2|]]. rewrite X1. unfold waiting. rewrite Hab, !app_nil_r, !map_app, <- !app_assoc. done.
Qed.

Lemma take_inv s stopping a x d : run_inv (MkRun s stopping a x d) -> worker s = true -> active s = None ->
  run_inv (MkRun (worker_take s) stopping a x d).
Proof.
  intros Hi Hw Ha. unfold worker_take. destruct (queued s) as [|job rest] eqn:Eq.
  - destruct (stopped s) eqn:Es; [|done]. destruct Hi as [L C B O A M St W (c & X1 & X2 & X3 & X4)].
    unfold held_bytes, held, waiting, outcomes in *. cbn -[sum] in *. rewrite Eq, Ha in *.
    constructor; unfold held_bytes, held, waiting, outcomes; cbn -[sum]; rewrite ?Ha; try done. exists c. split_and!; try done.
    intros Hc. split; [by apply X4|done].
  - destruct Hi as [L C B O A M St W (c & X1 & X2 & X3 & X4)]. unfold held_bytes, held, waiting, outcomes in *. cbn -[sum] in *. rewrite Eq, Ha in *.
    constructor; unfold held_bytes, held, waiting, outcomes; cbn -[sum]; try done.
    + intros H. by destruct (A H).
    + intros H. congruence.
    + by exists c.
Qed.

Lemma run_job_inv s stopping a x d job : run_inv (MkRun s stopping a x d) -> active s = Some job ->
  run_inv (MkRun (worker_run job s) stopping a (x ++ [completion job]) d).
Proof.
  intros Hi Ha. unfold worker_run. destruct (operation job (database s)) as [r db].
  set (done := MkJob _ _ _ _). pose proof Hi as [L C B O A M St W (c & X1 & X2 & X3 & X4)].
  assert (Hc : c = []).
  { destruct c; [done|]. destruct X4 as [X4 _]; [done|]. unfold waiting in X4. cbn in X4. by rewrite Ha in X4. }
  pose proof (outcomes_length _ Hi c X1) as Hlen. rewrite Hc in Hlen, X1. unfold held_bytes, held, waiting, outcomes in *. cbn -[sum] in *. rewrite Ha in *.
  change (option_list (Some job)) with [job] in *. constructor; unfold held_bytes, held, waiting, outcomes; cbn -[sum]; try done.
  - rewrite ?length_app in *. cbn [length option_list] in *. rewrite ?length_app in *. cbn [length] in *. split; [|apply C]. lia.
  - split; [|apply B]. rewrite (proj1 B), <- !app_assoc, !sum_app. unfold done, sum. cbn [app option_list fold_right jbytes]. lia.
  - rewrite O, <- !app_assoc, !map_app. done.
  - intros H. destruct (W H) as (H1 & _). done.
  - exists []. cbn [map]. rewrite app_nil_r in *. split; [rewrite X1, <- app_assoc; done|]. split; [|done].
    apply drop_ge. rewrite ?length_app, ?length_map, ?length_app in *. cbn [length] in *. lia.
Qed.

Lemma pop_inv s a x d job s' : run_inv (MkRun s false a x d) -> poll_pop s = Some (job, s') ->
  run_inv (MkRun s' false a x (d ++ [(completion job, error job)])).
Proof.
  intros Hi. unfold poll_pop. destruct (completed s) as [|j rest] eqn:Ec; [done|]. intros [= -> <-].
  destruct Hi as [L C B O A M St W (c & X1 & X2 & X3 & X4)]. unfold held_bytes, held, waiting, outcomes in *. cbn -[sum] in *. rewrite Ec in *.
  cbn [app map length] in *. unfold sum in B. cbn [fold_right] in B. fold (sum (@jbytes S)) in B.
  constructor; unfold held_bytes, held, waiting, outcomes; cbn -[sum]; try done.
  - rewrite sub64_le by lia. lia.
  - rewrite sub64_le by lia. unfold sum in *. lia.
  - rewrite map_app, <- app_assoc. done.
  - exists c. rewrite <- app_assoc. done.
Qed.

Lemma stop_begin_inv s a x d mode : run_inv (MkRun s false a x d) -> run_inv (MkRun (stop_begin mode s) true a x d).
Proof.
  intros [L C B O A M St W (c & X1 & X2 & X3 & X4)]. assert (Hab : abandoned s = []).
  { destruct (abandoned s) eqn:E; [done|]. destruct A as [A _]; [cbn; by rewrite E|done]. }
  unfold held_bytes, held, waiting, outcomes in *. cbn -[sum] in *. rewrite Hab, ?app_nil_r in *.
  set (mark := fun job : Job S => MkJob (jbytes job) (operation job) (completion job) (Some runtime_error)).
  assert (Hn : map completion (map mark (queued s)) = map completion (queued s)) by (by rewrite map_map).
  assert (Hb : forall l, sum jbytes (map mark l) = sum jbytes l) by (clear; intros l; induction l as [|j l IH]; [done|]; unfold sum in *; cbn; by rewrite IH).
  destruct mode; constructor; unfold held_bytes, held, waiting, outcomes; cbn -[sum]; fold mark; rewrite ?app_nil_r, ?app_nil_l; try done.
  - intros H. destruct (W H) as (? & ? & ?). done.
  - by exists c.
  - by rewrite !length_app, length_map, <- !length_app.
  - by rewrite !sum_app, Hb, <- !sum_app.
  - by rewrite !map_app, Hn, <- !map_app.
  - by apply Forall_map, Forall_true.
  - intros H. destruct (W H) as (? & ? & ?). done.
  - exists c. rewrite !map_app, Hn, <- map_app. split_and!; try done. intros Hc. destruct (X4 Hc) as [X5 X6]. split; [|done].
    apply app_nil in X5 as [-> ->]. done.
Qed.

Lemma stop_end_inv s a x d : run_inv (MkRun s true a x d) -> worker s = false -> run_inv (MkRun (stop_end s) false a x d).
Proof.
  intros Hi Hw. pose proof Hi as [L C B O A M St W (c & X1 & X2 & X3 & X4)]. destruct (W Hw) as (H1 & H2 & H3).
  pose proof (outcomes_length _ Hi c X1) as Hlen. unfold held_bytes, held, waiting, outcomes in *. cbn -[sum] in *. rewrite H1, H2 in *. cbn [option_list app] in *.
  constructor; unfold held_bytes, held, waiting, outcomes; cbn -[sum]; rewrite ?H1, ?H2; cbn [option_list app]; rewrite ?app_nil_r; try done.
  exists (c ++ map (fun j => (completion j, error j)) (abandoned s)). destruct (abandoned s) as [|j l] eqn:Eab.
  - cbn [map]. rewrite !app_nil_r in *. split_and!; done.
  - assert (c = []) as -> by (destruct c; [done|]; by destruct X4). cbn [app map]. rewrite !app_nil_r in *. cbn [app map] in *.
    split; [rewrite X1, map_map; done|]. rewrite map_app, app_assoc, drop_app_length'; [|rewrite Hlen; cbn; lia].
    split; [done|]. split; [|done].
    apply (proj2 (Forall_map (fun j : Job S => (completion j, error j)) (fun x => x.2 = Some runtime_error) (j :: l))). exact M.
Qed.

Lemma async_step_inv r r' : run_inv r -> async_step r r' -> run_inv r'.
Proof.
  intros Hi Hs. destruct Hs as [s a x d bytes op done s' Hb Hs|s a x d bytes op done s' Hs|s st a x d Hw Ha|s st a x d job Ha|s a x d s' Hp|s a x d job s' Hp Hq|s a x d Hp|s a x d mode|s a x d Hw].
  - by eapply async_submit_inv.
  - unfold submit in Hs. destruct (_ || _ || _); [|done]. by injection Hs as <-.
  - by apply take_inv.
  - by apply run_job_inv.
  - unfold poll_begin in Hp. destruct (polling s); [done|]. injection Hp as <-. destruct Hi. by constructor.
  - by eapply pop_inv.
  - destruct Hi. by constructor.
  - by apply stop_begin_inv.
  - by apply stop_end_inv.
Qed.

(** Whatever the interleaving of the owner and the worker: the executor
    holds at most its limits of jobs and bytes; the completions called are those of
    the first admitted jobs, in admission order, each once, and the rest are still
    held; the operations run are the first admitted ones, in order, each once; and a
    job completed without having run has failed as cancelled. *)
Theorem executor_fifo db jobs bytes s r :
  jobs < 2 ^ 64 -> bytes < 2 ^ 64 -> async_database db jobs bytes = Ok s -> rtc async_step (MkRun s false [] [] []) r ->
  N.of_nat (length (held (impl r))) = pending_jobs (impl r) /\ pending_jobs (impl r) <= max_jobs (impl r) /\
  held_bytes (impl r) <= max_bytes (impl r) /\
  admitted r = map fst (delivered r) ++ map completion (held (impl r)) /\
  executed r `prefix_of` admitted r /\
  Forall (fun x => x.2 = Some runtime_error) (drop (length (executed r)) (delivered r)).
Proof.
  intros Hj Hb Hs Hr. pose proof (start_run db jobs bytes s Hj Hb Hs) as Hi.
  assert (Hinv : run_inv r) by (clear - Hi Hr; induction Hr as [|r1 r2 r3 Hstep _ IH]; [done|]; apply IH; by eapply async_step_inv).
  destruct Hinv as [_ [C1 C2] [B1 B2] Ho _ _ _ _ (c & X1 & X2 & X3 & _)]. unfold pending_jobs. split_and!; try done; [by rewrite <- B1| |].
  - rewrite X1. by exists (map completion (waiting (impl r)) ++ map fst c).
  - rewrite <- X2 in X3. unfold outcomes in X3. rewrite skipn_app in X3. apply Forall_app in X3 as [X3 _]. exact X3.
Qed.

(** The worker alone empties the queue. *)
Lemma worker_drains n : forall (s : Impl S) a x d, length (queued s) = n -> active s = None -> worker s = true -> stopped s = true ->
  exists s', rtc async_step (MkRun s true a x d) (MkRun s' true a (x ++ map completion (queued s)) d) /\
    worker s' = false /\ abandoned s' = abandoned s /\ stopped s' = true.
Proof.
  induction n as [|n IH]; intros s a x d Hn Ha Hw Hs.
  - destruct (queued s) eqn:Eq; [|done]. cbn [map]. rewrite app_nil_r. exists (worker_take s).
    split; [apply rtc_once; by apply step_take|]. unfold worker_take. by rewrite Eq, Hs.
  - destruct (queued s) as [|job rest] eqn:Eq; [done|]. injection Hn as Hn.
    set (s1 := worker_take s). assert (H1 : active s1 = Some job) by (unfold s1, worker_take; by rewrite Eq).
    set (s2 := worker_run job s1). destruct (IH s2 a (x ++ [completion job]) d) as (s' & R1 & R2 & R3 & R4).
    + unfold s2, worker_run, s1, worker_take. rewrite Eq. by destruct (operation job _).
    + unfold s2, worker_run. by destruct (operation job _).
    + unfold s2, worker_run, s1, worker_take. rewrite Eq. by destruct (operation job _).
    + unfold s2, worker_run, s1, worker_take. rewrite Eq. by destruct (operation job _).
    + exists s'. assert (Eq2 : queued s2 = rest /\ abandoned s2 = abandoned s).
      { unfold s2, worker_run, s1, worker_take. rewrite Eq. by destruct (operation job _). }
      destruct Eq2 as [E1 E2]. rewrite E1, <- app_assoc in R1. split; [|split; [done|split; [congruence|done]]].
      eapply rtc_l; [by apply step_take|]. fold s1. eapply rtc_l; [by apply step_run|]. exact R1.
Qed.

(** C37 (termination).  [stop] returns: once stopping, the worker can always finish by
    itself, and then every admitted job has a completion, called or to be polled. *)
Theorem stop_terminates r :
  run_inv r -> stopping r = true ->
  exists r', rtc async_step r r' /\ stopping r' = false /\ worker (impl r') = false /\ held (impl r') = completed (impl r') /\
    executed r `prefix_of` executed r' /\ map fst (outcomes r') = admitted r.
Proof.
  intros Hi Hst. destruct r as [s st a x d]. cbn in Hst. subst st. pose proof (inv_stopping _ Hi eq_refl) as Hs. cbn in Hs.
  assert (Hdr : exists (s' : Impl S) y, rtc async_step (MkRun s true a x d) (MkRun s' true a (x ++ y) d) /\ worker s' = false /\ abandoned s' = abandoned s /\ stopped s' = true).
  { destruct (worker s) eqn:Hw; [|exists s, []; rewrite app_nil_r; split; [done|]; split; [done|done]].
    destruct (active s) as [job|] eqn:Ha.
    - set (s1 := worker_run job s). destruct (worker_drains (length (queued s1)) s1 a (x ++ [completion job]) d eq_refl) as (s' & R1 & R2 & R3 & R4).
      + unfold s1, worker_run. by destruct (operation job _).
      + unfold s1, worker_run. by destruct (operation job _).
      + unfold s1, worker_run. by destruct (operation job _).
      + exists s', ([completion job] ++ map completion (queued s1)). rewrite app_assoc. split; [eapply rtc_l; [by apply step_run|exact R1]|].
        split; [done|]. split; [|done]. rewrite R3. unfold s1, worker_run. by destruct (operation job _).
    - destruct (worker_drains (length (queued s)) s a x d eq_refl Ha Hw Hs) as (s' & R1 & R2 & R3 & R4). eauto 10. }
  destruct Hdr as (s' & y & R1 & R2 & R3 & R4). exists (MkRun (stop_end s') false a (x ++ y) d).
  assert (Hi' : run_inv (MkRun s' true a (x ++ y) d)) by (clear - Hi R1; induction R1 as [|r1 r2 r3 Hstep _ IH]; [done|]; apply IH; by eapply async_step_inv).
  pose proof (stop_end_inv _ _ _ _ Hi' R2) as Hi2. destruct (inv_worker _ Hi' R2) as (H1 & H2 & _). cbn [impl] in *.
  assert (Hheld : held (stop_end s') = completed (stop_end s')) by (unfold held; cbn; rewrite H1, H2; cbn; by rewrite !app_nil_r).
  split; [eapply rtc_r; [exact R1|by apply step_joined]|]. split; [done|]. split; [done|]. split; [done|].
  split; [by apply prefix_app_r|]. rewrite outcomes_names. pose proof (inv_order _ Hi2) as Ho. cbn [impl delivered admitted] in *. by rewrite Ho, Hheld.
Qed.
End AsyncCorrect.

(** ** Witnesses *)

Definition sample_operation : Operation N := fun n => (Ok tt, n + 1).
Definition sample_impl : Impl N := MkImpl 0 2 100 [] [] None [] 0 0 false false true.

Lemma executor_fifo_witness :
  exists r, rtc async_step (MkRun sample_impl false [] [] []) r /\ database (impl r) = 1 /\
    executed r `prefix_of` admitted r /\ admitted r = [7; 8].
Proof.
  eexists. match goal with |- ?P /\ _ => assert (H : P) end.
  - eapply rtc_l; [by apply (step_submit _ _ _ _ 10 sample_operation 7)|]. eapply rtc_l; [by apply (step_submit _ _ _ _ 20 sample_operation 8)|].
    eapply rtc_l; [by apply step_take|]. eapply rtc_l; [by apply step_run|]. apply rtc_refl.
  - split; [exact H|]. split; [reflexivity|]. split; [|reflexivity].
    apply (executor_fifo 0 2 100 sample_impl); [done|done|reflexivity|exact H].
Defined.

Lemma stop_terminates_witness :
  exists r, rtc async_step (MkRun (stop_begin drain sample_impl) true [] [] []) r /\ stopping r = false.
Proof.
  destruct (stop_terminates (MkRun (stop_begin drain sample_impl) true [] [] [])) as (r & H1 & H2 & _); [|reflexivity|by exists r].
  apply stop_begin_inv. by eapply (start_run 0 2 100).
Defined.
