(* ===== verification/Directory.v ===== *)
(** * Directories

    [include/fsnet/directory.hpp] (live services by rendezvous hashing),
    [include/fsnet/entity_directory.hpp] (where the storage says an entity is) and the
    endpoint selection of [src/entity_router.cpp].  Clock readings are arguments, in
    the clock's own unit. *)

From stdpp Require Import gmap.
From S2P Require Import Prelude OrderedMap Identity Values AttributeWire Messages Fields TimerState DeliveryState Records Storage StorageCorrect Programs TimerIndex.

(** ** ServiceDirectory *)

Record ServiceEntry := MkService { peer : N; expires : Z }.

Definition fnv_basis : N := 14695981039346656037.

(** The eight bytes of [peer], least significant first, after the bytes of [key]. *)
Definition service_score (key : bytes) (peer : N) : N :=
  fold_left (fun hash i => wrap64 (N.lxor hash (N.land (N.shiftr peer (N.of_nat i * 8)) 255) * 1099511628211)) (seq 0 8)
    (fold_left fnv_step key fnv_basis).

Fixpoint renew_entry (p : N) (until : Z) (l : list ServiceEntry) : list ServiceEntry :=
  match l with
  | [] => [MkService p until]
  | e :: l => if peer e =? p then MkService p until :: l else e :: renew_entry p until l
  end.

Definition renew (service : bytes) (p : N) (ttl now : Z) (d : gmap bytes (list ServiceEntry)) : result (gmap bytes (list ServiceEntry)) :=
  throw_if is_empty service || (p =? 0) || (ttl <=? 0)%Z as invalid_argument ;;
  Ok (<[service := renew_entry p (now + ttl) (default [] (d !! service))]> d).

Definition remove (p : N) (d : gmap bytes (list ServiceEntry)) : gmap bytes (list ServiceEntry) :=
  (fun l => List.filter (fun e => negb (peer e =? p)) l) <$> d.

(** One turn of [locate]'s loop over [selected] and [best]. *)
Definition better (key : bytes) (now : Z) (st : option N * N) (e : ServiceEntry) : option N * N :=
  if (now <? expires e)%Z then
    let value := service_score key (peer e) in
    match st.1 with
    | None => (Some (peer e), value)
    | Some selected =>
        if (st.2 <? value) || ((value =? st.2) && (peer e <? selected)) then (Some (peer e), value) else st
    end
  else st.

Definition locate (service key : bytes) (now : Z) (d : gmap bytes (list ServiceEntry)) : option N :=
  match d !! service with
  | None => None
  | Some l => (fold_left (better key now) l (None, 0)).1
  end.

(** ** Entity locations *)

Record EntityLocation := MkLocation {
  location_owner : bytes; location_fence : N; location_expires_ms : Z; location_placement : bytes;
  location_transfer_id : N; location_type : bytes }.

Definition location_of (type : bytes) (value : EntityRecordView) : option EntityLocation :=
  match view_metadata value with
  | None => None
  | Some m =>
      if destroyed m || (negb (is_empty type) && negb (bytes_eqb (metadata_type m) type)) then None
      else Some (MkLocation (view_owner value) (view_fence value) (view_expires_ms value) (view_placement value)
                   (view_transfer_id value) (metadata_type m))
  end.

Definition entity_location (type id : bytes) : prog (option EntityLocation) :=
  if negb (valid_entity_id id) then Return (Ok None)
  else
    do key <- Return (entity_id_of_text id);
    do record <- db_get (entity_record_key key);
    match record with
    | None => Return (Ok None)
    | Some r => do value <- Return (decode_entity_record_view (svalue r)); Return (Ok (location_of type value))
    end.

(** ** Endpoints *)

Record EntityEndpoint := MkEndpoint { node : bytes; address : bytes; port : N; types : list bytes; tls_peer_name : bytes }.

Definition check_endpoint (seen : list bytes) (e : EntityEndpoint) : result (list bytes) :=
  throw_if negb (valid_entity_node (node e)) || is_empty (address e) || (port e =? 0) || is_empty (types e) ||
           existsb (bytes_eqb (node e)) seen as invalid_argument ;;
  Ok (node e :: seen).

Definition validate_entity_endpoints (endpoints : list EntityEndpoint) : result unit :=
  throw_if is_empty endpoints || (1024 <? N.of_nat (length endpoints)) as invalid_argument ;;
  let* _ := fold_result check_endpoint endpoints [] in Ok tt.

Definition score (input : bytes) : N := fold_left fnv_step input fnv_basis.

(** The loop of [select_entity_endpoint] from index [i] on. *)
Fixpoint select_from (endpoints : list EntityEndpoint) (i : nat) (type id : bytes) (location : option EntityLocation) (time : Z)
    (eligible : nat -> bool) (selected : option nat) (best : N) : option nat :=
  match endpoints with
  | [] => selected
  | e :: rest =>
      let continue selected best := select_from rest (S i) type id location time eligible selected best in
      if negb (existsb (bytes_eqb type) (types e)) || negb (eligible i) then continue selected best
      else
        let by_rank := let rank := score (type ++ [x00] ++ id ++ [x00] ++ node e) in
          match selected with
          | None => continue (Some i) rank
          | Some _ => if best <? rank then continue (Some i) rank else continue selected best
          end in
        match location with
        | Some l =>
            if (time <? location_expires_ms l)%Z then
              if entity_node_matches (location_owner l) (node e) then Some i else continue selected best
            else if negb (is_empty (location_placement l)) then
              if bytes_eqb (location_placement l) (node e) then Some i else continue selected best
            else by_rank
        | None => by_rank
        end
  end.

Definition select_entity_endpoint (endpoints : list EntityEndpoint) (type id : bytes) (location : option EntityLocation) (time : Z)
    (eligible : nat -> bool) : option nat :=
  select_from endpoints 0 type id location time eligible None 0.
