(* ===== verification/DirectoryCorrect.v ===== *)
(** * Directories are correct *)

From stdpp Require Import gmap.
From S2P Require Import Prelude OrderedMap Identity Values AttributeWire Messages Fields TimerState DeliveryState Records Storage StorageCorrect Programs TimerIndex Directory.

(** ** Rendezvous hashing *)

(** [a] is preferred to [b]: higher score, then lower number. *)
Definition beats (key : bytes) (a b : N) : bool :=
  (service_score key b <? service_score key a) || ((service_score key a =? service_score key b) && (a <? b)).

Lemma beats_total key a b : a <> b -> beats key a b = negb (beats key b a).
Proof.
  intros Hne. unfold beats. destruct (N.ltb_spec (service_score key b) (service_score key a)), (N.ltb_spec (service_score key a) (service_score key b)),
    (N.eqb_spec (service_score key a) (service_score key b)), (N.eqb_spec (service_score key b) (service_score key a)),
    (N.ltb_spec a b), (N.ltb_spec b a); cbn; done || lia.
Qed.

Lemma beats_trans key a b c : beats key a b = true -> beats key b c = true -> beats key a c = true.
Proof. unfold beats. intros H1 H2. bool_prop. lia. Qed.

Lemma beats_irrefl key a : beats key a a = false.
Proof. unfold beats. by rewrite !N.ltb_irrefl, andb_false_r. Qed.

(** The peers of a service with an unexpired lease. *)
Definition live (now : Z) (l : list ServiceEntry) (p : N) : Prop := exists e, e ∈ l /\ peer e = p /\ (now < expires e)%Z.

Lemma live_cons now e l p : live now (e :: l) p <-> (peer e = p /\ (now < expires e)%Z) \/ live now l p.
Proof. unfold live. split; [intros (x & [->|H]%elem_of_cons & ?); eauto 10|]. intros [H|(x & H & ?)]; [exists e|exists x]; set_solver. Qed.

Lemma better_fold key now l : forall p, exists r, fold_left (better key now) l (Some p, service_score key p) = (Some r, service_score key r) /\
  (r = p \/ live now l r) /\ (r = p \/ beats key r p = true) /\ forall q, live now l q -> q = r \/ beats key r q = true.
Proof.
  induction l as [|e l IH]; intros p; cbn [fold_left].
  { exists p. split_and!; auto. intros q (x & H & _). set_solver. }
  unfold better at 2. destruct (Z.ltb_spec now (expires e)) as [Hl|Hl]; cbn [fst snd].
  - assert (Eb : ((service_score key p <? service_score key (peer e)) || ((service_score key (peer e) =? service_score key p) && (peer e <? p))) = beats key (peer e) p) by done.
    rewrite Eb. clear Eb. destruct (beats key (peer e) p) eqn:Eb.
    + destruct (IH (peer e)) as (r & -> & H1 & H2 & H3). exists r. split; [done|]. setoid_rewrite live_cons. split_and!.
      * destruct H1 as [->|H1]; auto.
      * right. destruct H2 as [->|H2]; [done|]. by eapply beats_trans.
      * intros q [[<- _]|Hq]; [destruct H2 as [->|?]; auto|auto].
    + destruct (IH p) as (r & -> & H1 & H2 & H3). exists r. split; [done|]. setoid_rewrite live_cons. split_and!; [naive_solver|done|].
      intros q [[<- _]|Hq]; [|auto]. destruct (decide (peer e = r)) as [->|Hne]; [by left|right].
      destruct (decide (p = peer e)) as [Hp|Hp]; [destruct H2 as [->|H2]; [by rewrite Hp in Hne|by rewrite Hp in H2]|].
      assert (beats key p (peer e) = true) by (rewrite beats_total by done; by rewrite Eb). destruct H2 as [->|H2]; [done|]. by eapply beats_trans.
  - destruct (IH p) as (r & -> & H1 & H2 & H3). exists r. split; [done|]. setoid_rewrite live_cons. split_and!; [naive_solver|done|].
    intros q [[<- ?]|Hq]; [lia|auto].
Qed.

Lemma locate_list key now l : match (fold_left (better key now) l (None, 0)).1 with
  | Some r => live now l r /\ forall q, live now l q -> q = r \/ beats key r q = true
  | None => forall q, ~ live now l q
  end.
Proof.
  induction l as [|e l IH]; cbn [fold_left fst]; [intros q (x & H & _); set_solver|].
  unfold better at 2. destruct (Z.ltb_spec now (expires e)) as [Hl|Hl]; cbn [fst snd].
  - destruct (better_fold key now l (peer e)) as (r & -> & H1 & H2 & H3). cbn [fst]. setoid_rewrite live_cons. split; [destruct H1 as [->|]; auto|].
    intros q [[<- _]|Hq]; [destruct H2 as [->|]; auto|auto].
  - destruct (fold_left (better key now) l (None, 0)).1 as [r|]; setoid_rewrite live_cons.
    + destruct IH as [I1 I2]. split; [auto|]. intros q [[_ ?]|Hq]; [lia|auto].
    + intros q [[_ ?]|Hq]; [lia|]. by apply (IH q).
Qed.

Definition entries_of (service : bytes) (d : gmap bytes (list ServiceEntry)) : list ServiceEntry := default [] (d !! service).

Lemma locate_spec service key now d p : locate service key now d = Some p <->
  live now (entries_of service d) p /\ forall q, live now (entries_of service d) q -> q = p \/ beats key p q = true.
Proof.
  unfold locate, entries_of. destruct (d !! service) as [l|]; cbn [default from_option]; [|split; [done|intros [(x & H & _) _]; set_solver]].
  pose proof (locate_list key now l) as H. destruct (fold_left (better key now) l (None, 0)).1 as [r|]; cbn.
  - split; [by intros [= <-]|]. intros [H1 H2]. destruct H as [H3 H4]. destruct (H4 p H1) as [->|Hb]; [done|]. destruct (H2 r H3) as [->|Hb2]; [done|].
    pose proof (beats_trans _ _ _ _ Hb Hb2) as Hx. by rewrite beats_irrefl in Hx.
  - split; [done|]. intros [H1 _]. by apply H in H1.
Qed.

Lemma live_remove q service now d p : live now (entries_of service (remove q d)) p <-> p <> q /\ live now (entries_of service d) p.
Proof.
  unfold remove, entries_of. rewrite lookup_fmap. destruct (d !! service) as [l|]; cbn; [|unfold live; set_solver].
  unfold live. setoid_rewrite list_elem_of_In. setoid_rewrite filter_In. split.
  - intros (e & [H1 H2] & <- & H3). split; [by apply negb_true_iff, N.eqb_neq in H2|eauto].
  - intros [Hne (e & H1 & <- & H3)]. exists e. split; [|done]. split; [done|]. by apply negb_true_iff, N.eqb_neq.
Qed.

Lemma live_renew_entry now q until l p : p <> q -> live now (renew_entry q until l) p <-> live now l p.
Proof.
  intros Hne. induction l as [|e l IH]; cbn [renew_entry].
  - rewrite live_cons. cbn. split; [intros [[? _]|H]; [by subst|done]|by right].
  - destruct (N.eqb_spec (peer e) q) as [<-|Hq]; rewrite !live_cons; cbn; [|by rewrite IH]. split; (intros [[? _]|H]; [by subst|by right]).
Qed.

Lemma live_renewed now q until l : (now < until)%Z -> live now (renew_entry q until l) q.
Proof.
  intros H. induction l as [|e l IH]; cbn [renew_entry]; [apply live_cons; by left|]. destruct (N.eqb_spec (peer e) q); apply live_cons; [by left|by right].
Qed.

(** [locate] is rendezvous hashing: it returns the live peer that beats
    every other live one, whatever the order of registrations; removing another peer
    does not move the key, and a (re)registered peer moves a key only to itself. *)
Theorem locate_rendezvous service key now d :
  (forall p, locate service key now d = Some p <->
     live now (entries_of service d) p /\ forall q, live now (entries_of service d) q -> q = p \/ beats key p q = true) /\
  (forall p q, locate service key now d = Some p -> q <> p -> locate service key now (remove q d) = Some p) /\
  (forall p q ttl at_time d', renew service q ttl at_time d = Ok d' -> (now < at_time + ttl)%Z ->
     locate service key now d' = Some p -> p = q \/ locate service key now d = Some p).
Proof.
  split; [intros p; apply locate_spec|]. split.
  - intros p q [H1 H2]%locate_spec Hne. apply locate_spec. setoid_rewrite live_remove. split; [split; [congruence|done]|]. intros x [_ Hx]. by apply H2.
  - intros p q ttl at_time d' Hr Ht [H1 H2]%locate_spec. unfold renew in Hr. destruct (_ || _ || _); [done|]. injection Hr as <-.
    unfold entries_of in *. rewrite lookup_insert_eq in *. change (default [] (Some ?x)) with x in *. destruct (decide (p = q)) as [|Hne]; [by left|right].
    apply locate_spec. unfold entries_of. rewrite live_renew_entry in H1 by done. split; [done|]. intros x Hx.
    destruct (decide (x = q)) as [->|Hx2]; [apply H2; by apply live_renewed|]. apply H2. by apply live_renew_entry.
Qed.

(** ** Endpoints *)

Lemma check_endpoints_nodes l : forall seen out, fold_result check_endpoint l seen = Ok out ->
  Forall (fun e => valid_entity_node (node e) = true) l /\ NoDup (node <$> l) /\ forall e, e ∈ l -> node e ∉ seen.
Proof.
  induction l as [|e l IH]; intros seen out; cbn [fold_result]; [intros _; split_and!; [constructor|constructor|by intros e ?%elem_of_nil]|].
  unfold check_endpoint at 1. destruct (_ || _) eqn:E; [done|]. cbn [bind]. intros (H1 & H2 & H3)%IH.
  apply orb_false_iff in E as [E Es]. bool_prop.
  assert (Hs : node e ∉ seen).
  { intros Hin. apply not_true_iff_false in Es. apply Es. apply existsb_exists. exists (node e). rewrite bytes_eqb_refl. split; [by apply list_elem_of_In|done]. }
  split; [by constructor; [tauto|]|]. cbn [fmap list_fmap]. split.
  - constructor; [|done]. intros (x & E1 & E2)%list_elem_of_fmap. apply (H3 x E2). rewrite E1. by left.
  - intros x [->|Hx]%elem_of_cons; [done|]. intros Hin. apply (H3 x Hx). by right.
Qed.

Lemma validated_nodes l : validate_entity_endpoints l = Ok tt ->
  Forall (fun e => valid_entity_node (node e) = true) l /\ NoDup (node <$> l).
Proof. unfold validate_entity_endpoints. destruct (_ || _); [done|]. intros (out & H & _)%bind_ok. apply check_endpoints_nodes in H. tauto. Qed.

Lemma no_slash node : valid_entity_node node = true -> x2f ∉ node.
Proof.
  unfold valid_entity_node. intros [_ H]%andb_true_iff Hin. apply negb_true_iff, not_true_iff_false in H. apply H. unfold has_any.
  apply existsb_exists. exists x2f. split; [by apply list_elem_of_In|done].
Qed.

(** The node of an owner is what comes before its slash. *)
Lemma matches_prefix owner node : valid_entity_node node = true -> entity_node_matches owner node = true ->
  owner = node \/ exists rest, owner = node ++ x2f :: rest.
Proof.
  intros _. unfold entity_node_matches. intros [->%bytes_eqb_eq|H]%orb_true_iff; [by left|right].
  apply andb_true_iff in H as [[_ H]%andb_true_iff H2]. apply starts_with_true in H as [r ->]. destruct r as [|c r].
  - rewrite app_nil_r, lookup_ge_None_2 in H2; done.
  - rewrite lookup_app_r, Nat.sub_diag in H2 by done. cbn in H2. exists r. apply Byte.byte_dec_bl in H2 as ->. done.
Qed.

Lemma matches_unique owner a b : valid_entity_node a = true -> valid_entity_node b = true ->
  entity_node_matches owner a = true -> entity_node_matches owner b = true -> a = b.
Proof.
  intros Va Vb Ha Hb. pose proof (no_slash a Va) as Na. pose proof (no_slash b Vb) as Nb.
  apply matches_prefix in Ha; [|done]. apply matches_prefix in Hb; [|done].
  destruct Ha as [->|[ra ->]], Hb as [E|[rb E]]; try done.
  - exfalso. apply Na. rewrite E. set_solver.
  - exfalso. apply Nb. rewrite <- E. set_solver.
  - clear Va Vb. revert b Nb E. induction a as [|x a IH]; intros [|y b] Nb E; try done.
    + injection E as <- _. set_solver.
    + injection E as -> _. set_solver.
    + injection E as -> E. f_equal. apply IH; [set_solver|set_solver|done].
Qed.

(** Endpoint [i] may serve the type now. *)
Definition serves (endpoints : list EntityEndpoint) (type : bytes) (eligible : nat -> bool) (i : nat) (e : EntityEndpoint) : Prop :=
  endpoints !! i = Some e /\ existsb (bytes_eqb type) (types e) = true /\ eligible i = true.

(** What the stored location demands of the endpoint, if anything. *)
Definition demands (location : option EntityLocation) (time : Z) : option (bytes -> bool) :=
  match location with
  | None => None
  | Some l =>
      if (time <? location_expires_ms l)%Z then Some (entity_node_matches (location_owner l))
      else if negb (is_empty (location_placement l)) then Some (bytes_eqb (location_placement l)) else None
  end.

Lemma select_demanded accepts location time type id eligible : demands location time = Some accepts ->
  forall endpoints i, select_from endpoints i type id location time eligible None 0 =
    fst <$> List.find (fun x => existsb (bytes_eqb type) (types x.2) && eligible x.1 && accepts (node x.2)) (zip (seq i (length endpoints)) endpoints).
Proof.
  intros Hd. induction endpoints as [|e rest IH]; intros i; [done|]. cbn [select_from length seq zip zip_with List.find fst snd].
  destruct (existsb (bytes_eqb type) (types e)); cbn [negb orb andb]; [|apply IH]. destruct (eligible i); cbn [negb orb andb]; [|apply IH].
  unfold demands in Hd. destruct location as [l|]; [|done]. destruct (time <? location_expires_ms l)%Z.
  - injection Hd as <-. destruct (entity_node_matches _ _); [done|apply IH].
  - destruct (negb (is_empty (location_placement l))); [|done]. injection Hd as <-. destruct (bytes_eqb _ _); [done|apply IH].
Qed.

(** Only indices of endpoints are selected. *)
Lemma select_from_lt location time type id eligible endpoints : forall i selected best j,
  select_from endpoints i type id location time eligible selected best = Some j -> selected = Some j \/ (i <= j < i + length endpoints)%nat.
Proof.
  induction endpoints as [|e rest IH]; intros i selected best j; cbn [select_from length]; [by left|].
  assert (Hthis : Some i = Some j -> selected = Some j \/ (i <= j < i + S (length rest))%nat) by (intros [= <-]; right; lia).
  assert (Hsel : select_from rest (S i) type id location time eligible selected best = Some j -> selected = Some j \/ (i <= j < i + S (length rest))%nat).
  { intros [H|H]%IH; [by left|right; lia]. }
  assert (Hnew : forall b, select_from rest (S i) type id location time eligible (Some i) b = Some j -> selected = Some j \/ (i <= j < i + S (length rest))%nat).
  { intros b [H|H]%IH; [by apply Hthis|right; lia]. }
  destruct (_ || _); [done|]. assert (Hrank : forall r, match selected with
      | None => select_from rest (S i) type id location time eligible (Some i) r
      | Some _ => if best <? r then select_from rest (S i) type id location time eligible (Some i) r else select_from rest (S i) type id location time eligible selected best
      end = Some j -> selected = Some j \/ (i <= j < i + S (length rest))%nat).
  { intros r. destruct selected; [destruct (best <? r)|]; eauto. }
  destruct location as [l|]; [|apply Hrank]. destruct (time <? _)%Z; [destruct (entity_node_matches _ _); eauto|].
  destruct (negb _); [destruct (bytes_eqb _ _); eauto|apply Hrank].
Qed.

Definition rank (type id : bytes) (e : EntityEndpoint) : N := score (type ++ [x00] ++ id ++ [x00] ++ node e).

Definition candidate (type : bytes) (eligible : nat -> bool) (x : nat * EntityEndpoint) : bool :=
  existsb (bytes_eqb type) (types x.2) && eligible x.1.

Definition pick (type id : bytes) (st : option nat * N) (x : nat * EntityEndpoint) : option nat * N :=
  match st.1 with
  | None => (Some x.1, rank type id x.2)
  | Some _ => if st.2 <? rank type id x.2 then (Some x.1, rank type id x.2) else st
  end.

Lemma select_ranked location time type id eligible : demands location time = None ->
  forall endpoints i st, select_from endpoints i type id location time eligible st.1 st.2 =
    (fold_left (pick type id) (List.filter (candidate type eligible) (zip (seq i (length endpoints)) endpoints)) st).1.
Proof.
  intros Hd. induction endpoints as [|e rest IH]; intros i st; [done|]. cbn [select_from length seq zip zip_with List.filter].
  unfold candidate at 1. cbn [fst snd]. destruct (existsb (bytes_eqb type) (types e)); cbn [negb orb andb]; [|apply IH].
  destruct (eligible i); cbn [negb orb andb]; [|apply IH]. cbn [fold_left]. rewrite <- IH.
  fold (rank type id e). unfold demands in Hd. unfold pick. cbn [fst snd]. destruct location as [l|].
  - destruct (time <? location_expires_ms l)%Z; [done|]. destruct (negb (is_empty (location_placement l))); [done|].
    destruct st as [[j|] b]; cbn [fst snd]; [by destruct (b <? rank type id e)|done].
  - destruct st as [[j|] b]; cbn [fst snd]; [by destruct (b <? rank type id e)|done].
Qed.

Lemma pick_max type id l : forall j b, exists r b', fold_left (pick type id) l (Some j, b) = (Some r, b') /\ b <= b' /\
  ((r = j /\ b' = b) \/ exists x, x ∈ l /\ x.1 = r /\ rank type id x.2 = b') /\ forall x, x ∈ l -> rank type id x.2 <= b'.
Proof.
  induction l as [|x l IH]; intros j b; cbn [fold_left]; [exists j, b; split_and!; [done|done|by left|by intros x ?%elem_of_nil]|].
  unfold pick at 2. cbn [fst snd]. destruct (N.ltb_spec b (rank type id x.2)) as [Hlt|Hge].
  - destruct (IH x.1 (rank type id x.2)) as (r & b' & -> & H1 & H2 & H3). exists r, b'. split; [done|]. split; [lia|]. split.
    + right. destruct H2 as [[-> ->]|(y & Hy & ?)]; [exists x; split; [by left|done]|exists y; split; [by right|done]].
    + intros y [->|Hy]%elem_of_cons; [done|auto].
  - destruct (IH j b) as (r & b' & -> & H1 & H2 & H3). exists r, b'. split; [done|]. split; [done|]. split.
    + destruct H2 as [H2|(y & Hy & ?)]; [by left|right; exists y; split; [by right|done]].
    + intros y [->|Hy]%elem_of_cons; [lia|auto].
Qed.

Lemma zip_seq_lookup (endpoints : list EntityEndpoint) i j e : (j, e) ∈ zip (seq i (length endpoints)) endpoints <-> (i <= j)%nat /\ endpoints !! (j - i)%nat = Some e.
Proof.
  revert i. induction endpoints as [|x l IH]; intros i; cbn [length seq zip zip_with].
  - split; [by intros ?%elem_of_nil|]. intros [_ H]. by rewrite lookup_nil in H.
  - rewrite elem_of_cons, IH. split.
    + intros [[= -> ->]|[H1 H2]]; [rewrite Nat.sub_diag; done|]. split; [lia|]. by replace (j - i)%nat with (S (j - S i)) by lia.
    + intros [H1 H2]. destruct (decide (j = i)) as [->|Hne]; [rewrite Nat.sub_diag in H2; injection H2 as ->; by left|right].
      split; [lia|]. by replace (j - i)%nat with (S (j - S i)) in H2 by lia.
Qed.

Lemma candidate_serves endpoints type eligible i e :
  (i, e) ∈ List.filter (candidate type eligible) (zip (seq 0 (length endpoints)) endpoints) <-> serves endpoints type eligible i e.
Proof.
  rewrite list_elem_of_In, filter_In, <- list_elem_of_In, zip_seq_lookup, Nat.sub_0_r. unfold candidate, serves. cbn [fst snd].
  rewrite andb_true_iff. split; [intros [[_ ?] [? ?]]|intros (? & ? & ?)]; split_and!; (done || lia).
Qed.

(** At most one endpoint meets the demand of a location. *)
Lemma demand_unique endpoints location time accepts i j a b : validate_entity_endpoints endpoints = Ok tt -> demands location time = Some accepts ->
  endpoints !! i = Some a -> endpoints !! j = Some b -> accepts (node a) = true -> accepts (node b) = true -> i = j.
Proof.
  intros [Hv Hd]%validated_nodes Hdem Hi Hj Ha Hb.
  assert (E : node a = node b).
  { unfold demands in Hdem. destruct location as [l|]; [|done]. destruct (time <? location_expires_ms l)%Z.
    - injection Hdem as <-. rewrite Forall_forall in Hv. apply (matches_unique (location_owner l)); [apply Hv; by eapply list_elem_of_lookup_2..|done|done].
    - destruct (negb _); [|done]. injection Hdem as <-. apply bytes_eqb_eq in Ha, Hb. congruence. }
  apply (NoDup_lookup (node <$> endpoints) i j (node a)); [done|by rewrite list_lookup_fmap, Hi|rewrite list_lookup_fmap, Hj; cbn; by rewrite E].
Qed.

(** Routing: when the stored location names a current owner, or else a
    placement, exactly the endpoint of that node is selected if it serves the type and
    is eligible, and none otherwise; with neither, an eligible endpoint of the highest
    rank is selected, and one is selected whenever there is one. *)
Theorem select_endpoint_exact endpoints type id location time eligible :
  validate_entity_endpoints endpoints = Ok tt ->
  match demands location time with
  | Some accepts => forall i, select_entity_endpoint endpoints type id location time eligible = Some i <->
      exists e, serves endpoints type eligible i e /\ accepts (node e) = true
  | None => match select_entity_endpoint endpoints type id location time eligible with
            | Some i => exists e, serves endpoints type eligible i e /\
                forall j f, serves endpoints type eligible j f -> rank type id f <= rank type id e
            | None => forall j f, ~ serves endpoints type eligible j f
            end
  end.
Proof.
  intros Hv. unfold select_entity_endpoint. destruct (demands location time) as [accepts|] eqn:Hd.
  - intros i. rewrite (select_demanded accepts) by done. split.
    + intros H. destruct (List.find _ _) as [[j e]|] eqn:Ef; [|done]. injection H as <-. apply find_some in Ef as [Hin H]. cbn [fst snd] in *.
      apply andb_true_iff in H as [H H3]. exists e. split; [|done]. apply candidate_serves. apply list_elem_of_In, filter_In. done.
    + intros (e & Hs & Hok). destruct (List.find _ _) as [[j f]|] eqn:Ef; cbn.
      * apply find_some in Ef as [Hin H]. cbn [fst snd] in *. apply andb_true_iff in H as [H H3]. f_equal.
        apply list_elem_of_In, zip_seq_lookup in Hin as [_ Hj]. rewrite Nat.sub_0_r in Hj. symmetry. apply (demand_unique endpoints location time accepts i j e f); try done. apply Hs.
      * apply candidate_serves, list_elem_of_In, filter_In in Hs as [Hin Hc]. pose proof (find_none _ _ Ef _ Hin) as H. cbn [fst snd] in H.
        unfold candidate in Hc. cbn [fst snd] in Hc. by rewrite Hc, Hok in H.
  - change (select_from endpoints 0 type id location time eligible None 0) with (select_from endpoints 0 type id location time eligible (@None nat, 0).1 (@None nat, 0).2).
    rewrite select_ranked by done. pose proof (candidate_serves endpoints type eligible) as Hc.
    destruct (List.filter _ _) as [|[i e] l] eqn:El; cbn [fold_left fst].
    + intros j f Hs%Hc. by apply elem_of_nil in Hs.
    + unfold pick at 2. cbn [fst snd]. destruct (pick_max type id l i (rank type id e)) as (r & b' & -> & H1 & H2 & H3). cbn [fst].
      assert (Hx : exists x, (r, x) ∈ (i, e) :: l /\ rank type id x = b').
      { destruct H2 as [[-> ->]|([j x] & Hx & <- & <-)]; [exists e; split; [by left|done]|exists x; split; [by right|done]]. }
      destruct Hx as (x & Hx & <-). exists x. split; [by apply Hc|]. intros j f [[= -> ->]|Hin]%Hc%elem_of_cons; [done|]. by apply (H3 (j, f)).
Qed.

(** ** Witnesses *)

Definition sample_services : gmap bytes (list ServiceEntry) := {[ lit "chat" := [MkService 1 50; MkService 2 90; MkService 3 10] ]}.

Lemma locate_rendezvous_witness : exists p,
  locate (lit "chat") (lit "room") 20 sample_services = Some p /\ locate (lit "chat") (lit "room") 20 (remove 3 sample_services) = Some p.
Proof.
  eexists. split; [vm_compute; reflexivity|].
  apply (proj1 (proj2 (locate_rendezvous (lit "chat") (lit "room") 20 sample_services))); [vm_compute; reflexivity|done].
Defined.

Definition sample_endpoints : list EntityEndpoint :=
  [MkEndpoint (lit "n1") (lit "10.0.0.1") 7000 [lit "Player"] []; MkEndpoint (lit "n10") (lit "10.0.0.2") 7000 [lit "Player"; lit "Shop"] []].

Lemma select_endpoint_exact_witness :
  select_entity_endpoint sample_endpoints (lit "Player") (lit "00000000000000a1")
    (Some (MkLocation (lit "n10/boot") 3 500 [] 0 (lit "Player"))) 100 (fun _ => true) = Some 1%nat.
Proof.
  pose proof (select_endpoint_exact sample_endpoints (lit "Player") (lit "00000000000000a1")
    (Some (MkLocation (lit "n10/boot") 3 500 [] 0 (lit "Player"))) 100 (fun _ => true)) as H.
  apply (H ltac:(vm_compute; reflexivity)). eexists. split; [split; [reflexivity|]; split; vm_compute; reflexivity|vm_compute; reflexivity].
Defined.
