(* ===== verification/Transport.v ===== *)
(** * What the services ask of the node transport

    The clock units of [std::chrono], the shared admission bound of [include/fsnet/node.hpp]
    and the part of the transport's state that the services of an owner node consult
    before they send: [EntityRouter], [EntityTransfer] and [EntityDelivery]
    all reuse a cached peer or connect again. *)

From stdpp Require Import gmap.
From S2P Require Import Prelude OrderedMap Identity Values AttributeWire Messages Fields TimerState DeliveryState Records Storage StorageCorrect Programs TimerIndex Directory.

(** Times are nanoseconds of the steady clock. *)
Definition ms (n : Z) : Z := n * 1000000.

(** [std::chrono::ceil<milliseconds>] and [duration_cast<milliseconds>] *)
Definition ceil_ms (t : Z) : Z := - ((- t) / 1000000).
Definition trunc_ms (t : Z) : Z := Z.quot t 1000000.

(** [Node::max_call_timeout], in milliseconds. *)
Definition max_call_timeout : Z := 30000.
Definition bad_timeout (timeout_ms : Z) : bool := (timeout_ms <=? 0)%Z || (max_call_timeout <? timeout_ms)%Z.

(** The transport as a handler finds it: which peers are connected or connecting, what
    [connect] returns, and whether [call] throws. *)
Record Transport := MkTransport { connected : N -> bool; connecting : N -> bool; connect : EntityEndpoint -> result N; call_throws : bool }.

(** [if(!peer || (!node.connected(peer) && !node.connecting(peer))) peer = node.connect(...)] *)
Definition usable_peer (t : Transport) (e : EntityEndpoint) (peer : N) : result N :=
  if (peer =? 0) || (negb (connected t peer) && negb (connecting t peer)) then connect t e else Ok peer.

(** Erasing every key, as the [stop] functions do. *)
Lemma foldr_delete_all {K A} `{Countable K} (m : gmap K A) ids : (forall n c, m !! n = Some c -> n ∈ ids) -> foldr delete m ids = ∅.
Proof.
  intros Hall. apply map_empty. intros n. destruct (decide (n ∈ ids)) as [Hin|Hin]; [|].
  - clear Hall. induction ids as [|k ids IH]; [by apply elem_of_nil in Hin|]. cbn [foldr]. destruct (decide (n = k)) as [->|Hne]; [apply lookup_delete_eq|].
    rewrite lookup_delete_ne by done. apply IH. apply elem_of_cons in Hin as [?|?]; done.
  - assert (m !! n = None) as Hn by (destruct (m !! n) eqn:E; [|done]; exfalso; eauto). clear Hall. induction ids as [|k ids IH]; [done|]. cbn [foldr].
    apply not_elem_of_cons in Hin as [H1 H2]. rewrite lookup_delete_ne by done. by apply IH.
Qed.

Lemma trunc_ms_bounds t : (0 < trunc_ms t)%Z -> (ms (trunc_ms t) <= t)%Z.
Proof.
  unfold trunc_ms, ms. intros H. assert (0 <= t)%Z.
  { destruct (Z.le_gt_cases 0 t) as [|Hn]; [done|]. pose proof (Z.quot_le_mono t 0 1000000 ltac:(lia) ltac:(lia)) as Hq. change (0 ÷ 1000000)%Z with 0%Z in Hq. lia. }
  rewrite Z.quot_div_nonneg in * by lia. pose proof (Z.mul_div_le t 1000000). lia.
Qed.
