(* ===== verification/Router.v ===== *)
(** * The entity router

    [EntityRouter] of [src/entity_router.cpp]: admission, retries, deadlines and replies
    of routed entity calls, as a state machine whose handlers are the code's
    functions and callbacks.

    Times are nanoseconds of the steady clock; [clock n] is the [n]-th reading a
    handler takes.  Replies are outputs: what a callback then does is the next event.
    A call is identified by its serial number; it is [done] exactly when it has left
    [calls], where the code sets the flag and erases it together. *)

From stdpp Require Import gmap.
From S2P Require Import Prelude OrderedMap Identity Values AttributeWire Messages Fields TimerState DeliveryState Records Storage StorageCorrect Programs TimerIndex Directory Transport.

Definition entity_call_route : bytes := lit "@".

Record Member := MkMember { endpoint : EntityEndpoint; mpeer : N; retry : Z }.

Record Call := MkCall {
  rtype : bytes; entity : bytes; call_route : bytes; call_message : bytes; request_id : bytes;
  call_reply : N; deadline : Z; next : Z; busy : bool; call_bytes : N }.

Record Router := MkRouter {
  requests_limit : N; bytes_limit : N;
  members : list Member; endpoints : list EntityEndpoint;
  calls : gmap N Call; rbytes : N; serial : N; rstopped : bool }.

(** What the router asks of the transport, the storage executor and its callers. *)
Inductive output :=
  | replied (reply : N) (r : Result)
  | looked_up (id : N)
  | sent_call (id : N) (index : nat) (peer : N) (route message : bytes) (timeout_ms : Z)
  | closed (peer : N)
  | storage_stopped.

Definition entity_router (requests bytes : N) (endpoints : list EntityEndpoint) : result Router :=
  let* _ := validate_entity_endpoints endpoints in
  throw_if (requests =? 0) || (bytes =? 0) as invalid_argument ;;
  Ok (MkRouter requests bytes (map (fun e => MkMember e 0 0) endpoints) endpoints ∅ 0 0 false).

Definition with_calls (s : Router) (calls : gmap N Call) (bytes : N) : Router :=
  MkRouter (requests_limit s) (bytes_limit s) (members s) (endpoints s) calls bytes (serial s) (rstopped s).
Definition with_members (s : Router) (members : list Member) : Router :=
  MkRouter (requests_limit s) (bytes_limit s) members (endpoints s) (calls s) (rbytes s) (serial s) (rstopped s).
Definition with_call (s : Router) (id : N) (c : Call) : Router := with_calls s (<[id := c]> (calls s)) (rbytes s).
Definition reschedule (c : Call) (next : Z) (busy : bool) : Call :=
  MkCall (rtype c) (entity c) (call_route c) (call_message c) (request_id c) (call_reply c) (deadline c) next busy (call_bytes c).

(** [finish(call, result)] *)
Definition finish (id : N) (r : Result) (s : Router) : Router * list output :=
  match calls s !! id with
  | None => (s, [])
  | Some c => (with_calls s (delete id (calls s)) (sub64 (rbytes s) (call_bytes c)), [replied (call_reply c) r])
  end.

Definition retryable (status : Status) : bool :=
  match status with rejected | disconnected | timeout | overloaded => true | _ => false end.

(** [failed(call, status)] *)
Definition failed (id : N) (status : Status) (now : Z) (s : Router) : Router * list output :=
  match calls s !! id with
  | None => (s, [])
  | Some c =>
      if rstopped s then (s, [])
      else if is_empty (request_id c) || negb (retryable status) then finish id (MkResult status []) s
      else (with_call s id (reschedule c (now + ms 25) false), [])
  end.

(** [attempt(call)]; [submitted] is whether the executor accepted the lookup. *)
Definition attempt (id : N) (submitted : bool) (now : Z) (s : Router) : Router * list output :=
  match calls s !! id with
  | None => (s, [])
  | Some c =>
      if submitted then (with_call s id (reschedule c (next c) true), [looked_up id])
      else failed id overloaded now (with_call s id (reschedule c (next c) false))
  end.

Definition set_member (i : nat) (f : Member -> Member) (s : Router) : Router :=
  match members s !! i with Some m => with_members s (<[i := f m]> (members s)) | None => s end.

(** The completion of the lookup: [location], or an error. *)
Definition located (id : N) (location : result (option EntityLocation)) (wall_ms : Z) (clock : nat -> Z) (t : Transport) (s : Router) : Router * list output :=
  match calls s !! id with
  | None => (s, [])
  | Some c =>
      if rstopped s then (s, [])
      else if (deadline c <=? clock 0%nat)%Z then finish id (MkResult timeout []) s
      else
        match location with
        | Throw _ => finish id (MkResult internal []) s
        | Ok None => finish id (MkResult not_found []) s
        | Ok (Some l) =>
            if negb (is_empty (rtype c)) && negb (bytes_eqb (rtype c) (location_type l)) then finish id (MkResult rejected []) s
            else
              let eligible i := match members s !! i with Some m => (retry m <=? clock (1 + i)%nat)%Z | None => false end in
              let n := length (endpoints s) in
              match select_entity_endpoint (endpoints s) (location_type l) (entity c) (Some l) wall_ms eligible with
              | None => failed id disconnected (clock (1 + n)%nat) s
              | Some i =>
                  match members s !! i with
                  | None => (s, [])
                  | Some m =>
                      if (clock (1 + n)%nat <? retry m)%Z then failed id disconnected (clock (2 + n)%nat) s
                      else
                        let fail s := failed id disconnected (clock (3 + n)%nat) (set_member i (fun m => MkMember (endpoint m) (mpeer m) (clock (2 + n)%nat + ms 250)) s) in
                        match usable_peer t (endpoint m) (mpeer m) with
                        | Throw _ => fail s
                        | Ok p =>
                            let s := set_member i (fun m => MkMember (endpoint m) p (retry m)) s in
                            if call_throws t then fail s
                            else (s, [sent_call id i p (call_route c) (call_message c) (Z.max (ceil_ms (deadline c - clock (2 + n)%nat)) 1)])
                        end
                  end
              end
        end
  end.

(** The reply of the transport to the call sent to [peer] as member [i]. *)
Definition answered (id : N) (i : nat) (peer : N) (r : Result) (clock : nat -> Z) (s : Router) : Router * list output :=
  match calls s !! id with
  | None => (s, [])
  | Some c =>
      if rstopped s then (s, [])
      else
        let '(s, out) :=
          match rstatus r, members s !! i with
          | disconnected, Some m =>
              if mpeer m =? peer
              then (set_member i (fun m => MkMember (endpoint m) 0 (clock 0%nat + ms 250)) s, if peer =? 0 then [] else [closed peer])
              else (s, [])
          | _, _ => (s, [])
          end in
        let '(s, more) := match rstatus r with ok => finish id r s | status => failed id status (clock 1%nat) s end in
        (s, out ++ more)
  end.

(** The admission shared by [bind_owner] and [call_encoded]. *)
Definition enqueue (type id route message request : bytes) (bytes : N) (reply : N) (until : Z) (s : Router) : Router * list output :=
  if (serial s =? u64_max) || (requests_limit s <=? N.of_nat (base.size (calls s))) || (sub64 (bytes_limit s) (rbytes s) <? bytes)
  then (s, [replied reply (MkResult overloaded [])])
  else
    (MkRouter (requests_limit s) (bytes_limit s) (members s) (endpoints s)
       (<[serial s + 1 := MkCall type id route message request reply until 0 false bytes]> (calls s))
       (wrap64 (rbytes s + bytes)) (serial s + 1) (rstopped s), []).

Definition bind_owner (type id : bytes) (owner : option ConnectionRef) (timeout_ms : Z) (reply : N) (now : Z) (s : Router) : Router * list output :=
  if rstopped s then (s, [replied reply (MkResult disconnected [])])
  else if negb (valid_entity_id id) || (127 <? size type) || bad_timeout timeout_ms then (s, [replied reply (MkResult rejected [])])
  else
    match (let* a := blob type in let* b := blob id in
           let* key := match owner with Some o => connection_key o | None => Ok [] end in
           let* c := blob key in Ok (a ++ b ++ c)) with
    | Throw _ => (s, [replied reply (MkResult rejected [])])
    | Ok message => enqueue type id (lit "system.entity.owner") message [] (size message + size type + size id) reply (now + ms timeout_ms) s
    end.

Definition call_encoded (message : bytes) (timeout_ms : Z) (reply : N) (now : Z) (s : Router) : Router * list output :=
  if rstopped s then (s, [replied reply (MkResult disconnected [])])
  else
    match parse_entity_call_view message with
    | None => (s, [replied reply (MkResult rejected [])])
    | Some v =>
        if bad_timeout timeout_ms then (s, [replied reply (MkResult rejected [])])
        else enqueue (call_type v) (str (call_id v)) entity_call_route message (call_request v)
               (size message + size (call_type v) + size (call_request v) + 16) reply (now + ms timeout_ms) s
    end.

(** [call(EntityId, ...)] and [call(type, id, ...)] *)
Definition call (id : EntityId) (method payload : bytes) (timeout_ms : Z) (reply : N) (request expected : bytes) (now : Z) (s : Router) : Router * list output :=
  match entity_call_message id method payload request expected with
  | Throw _ => (s, [replied reply (MkResult rejected [])])
  | Ok message => call_encoded message timeout_ms reply now s
  end.

Definition call_typed (type id method payload : bytes) (timeout_ms : Z) (reply : N) (request : bytes) (now : Z) (s : Router) : Router * list output :=
  if negb (valid_entity_id id) then (s, [replied reply (MkResult rejected [])])
  else match entity_id_of_text id with
       | Throw _ => (s, [replied reply (MkResult rejected [])])
       | Ok key => call key method payload timeout_ms reply request type now s
       end.

(** One call of [poll]'s loop; [submitted] is the executor's answer to its lookup. *)
Definition poll_call (submitted : bool) (clock : nat -> Z) (id : N) (s : Router) : Router * list output * bool :=
  match calls s !! id with
  | None => (s, [], false)
  | Some c =>
      if (deadline c <=? clock 0%nat)%Z then (finish id (MkResult timeout []) s, true)
      else if negb (busy c) && (next c <=? clock 1%nat)%Z then (attempt id submitted (clock 2%nat) s, true)
      else (s, [], false)
  end.

(** The loop over the calls pending when [poll] started, in the map's order. *)
Fixpoint poll_calls (budget work : N) (env : N -> bool * (nat -> Z)) (ids : list N) (s : Router) : Router * list output :=
  match ids with
  | [] => (s, [])
  | id :: rest =>
      if rstopped s || (budget <=? work) then (s, [])
      else
        let '(s, out, worked) := poll_call (env id).1 (env id).2 id s in
        let '(s, more) := poll_calls budget (if worked then work + 1 else work) env rest s in
        (s, out ++ more)
  end.

Definition pending (s : Router) : nat := base.size (calls s).

(** [stop()] *)
Definition finish_all (ids : list N) (s : Router) : Router * list output :=
  fold_left (fun st id => let '(s, out) := finish id (MkResult disconnected []) st.1 in (s, st.2 ++ out)) ids (s, []).

Definition stop (s : Router) : Router * list output :=
  if rstopped s then (s, [])
  else
    let s := MkRouter (requests_limit s) (bytes_limit s) (members s) (endpoints s) (calls s) (rbytes s) (serial s) true in
    let '(s, out) := finish_all (elements (dom (calls s))) s in
    let close := flat_map (fun m => if mpeer m =? 0 then [] else [closed (mpeer m)]) (members s) in
    (with_members s (map (fun m => MkMember (endpoint m) 0 (retry m)) (members s)), out ++ close ++ [storage_stopped]).
