(* ===== verification/RouterCorrect.v ===== *)
(** * The entity router is correct

    Every submitted call is answered exactly once, calls without a request identity are
    sent at most once, and admission stays within the limits, under every order of
    storage completions, transport replies, polls and stops. *)

From stdpp Require Import gmap.
From S2P Require Import Prelude MapSum OrderedMap Identity Values AttributeWire Messages Fields TimerState DeliveryState Records Storage StorageCorrect Programs TimerIndex Directory DirectoryCorrect Transport Router.

(** ** What the outputs say *)

Definition replies (out : list output) : list N := omap (fun o => match o with replied n _ => Some n | _ => None end) out.
Definition lookups_of (out : list output) : list N := omap (fun o => match o with looked_up id => Some id | _ => None end) out.
Definition rpcs_of (out : list output) : list (N * nat * N) := omap (fun o => match o with sent_call id i p _ _ _ => Some (id, i, p) | _ => None end) out.

Lemma replies_app a b : replies (a ++ b) = replies a ++ replies b.
Proof. apply omap_app. Qed.
Lemma lookups_app a b : lookups_of (a ++ b) = lookups_of a ++ lookups_of b.
Proof. apply omap_app. Qed.
Lemma rpcs_app a b : rpcs_of (a ++ b) = rpcs_of a ++ rpcs_of b.
Proof. apply omap_app. Qed.

(** What no handler of a call changes. *)
Definition frame (s s' : Router) : Prop :=
  requests_limit s' = requests_limit s /\ bytes_limit s' = bytes_limit s /\ endpoints s' = endpoints s /\
  length (members s') = length (members s) /\ serial s' = serial s /\ rstopped s' = rstopped s.

#[global] Instance frame_refl : Reflexive frame.
Proof. by intros s. Qed.
#[global] Instance frame_trans : Transitive frame.
Proof. intros a b c (? & ? & ? & ? & ? & ?) (? & ? & ? & ? & ? & ?). unfold frame. split_and!; congruence. Qed.

(** The effect a handler may have on a call. *)
Inductive effect_on (s : Router) (id : N) : Router -> list output -> Prop :=
  | effect_none s' out : calls s !! id = None \/ rstopped s = true -> calls s' = calls s -> rbytes s' = rbytes s -> frame s s' ->
      replies out = [] -> lookups_of out = [] -> rpcs_of out = [] -> effect_on s id s' out
  | effect_finish c s' out : calls s !! id = Some c -> calls s' = delete id (calls s) -> rbytes s' = sub64 (rbytes s) (call_bytes c) -> frame s s' ->
      replies out = [call_reply c] -> lookups_of out = [] -> rpcs_of out = [] -> effect_on s id s' out
  | effect_retry c t s' out : calls s !! id = Some c -> request_id c <> [] -> calls s' = <[id := reschedule c t false]> (calls s) -> rbytes s' = rbytes s ->
      frame s s' -> replies out = [] -> lookups_of out = [] -> rpcs_of out = [] -> effect_on s id s' out
  | effect_look c s' out : calls s !! id = Some c -> calls s' = <[id := reschedule c (next c) true]> (calls s) -> rbytes s' = rbytes s ->
      frame s s' -> replies out = [] -> lookups_of out = [id] -> rpcs_of out = [] -> effect_on s id s' out
  | effect_send c i p s' out : calls s !! id = Some c -> calls s' = calls s -> rbytes s' = rbytes s -> frame s s' ->
      replies out = [] -> lookups_of out = [] -> rpcs_of out = [(id, i, p)] -> effect_on s id s' out.

Lemma set_member_frame i f s : frame s (set_member i f s) /\ calls (set_member i f s) = calls s /\ rbytes (set_member i f s) = rbytes s.
Proof.
  unfold set_member. destruct (members s !! i); [|done]. split; [|done]. unfold frame. cbn. rewrite length_insert. done.
Qed.

(** The router with other members only. *)
Definition same_calls (s s' : Router) : Prop := frame s s' /\ calls s' = calls s /\ rbytes s' = rbytes s.

Lemma effect_from s s0 id s' out : same_calls s0 s -> effect_on s id s' out -> effect_on s0 id s' out.
Proof.
  intros (F & C & B) H. destruct H as [s' out H|c s' out H|c t s' out H|c s' out H|c i p s' out H]; rewrite ?C, ?B in *.
  - apply effect_none; try congruence; [|by transitivity s]. destruct H as [H|H]; [by left|right]. destruct F as (_ & _ & _ & _ & _ & F). congruence.
  - eapply effect_finish; try done; by transitivity s.
  - eapply effect_retry; try done; by transitivity s.
  - eapply effect_look; try done; by transitivity s.
  - eapply effect_send; try done; by transitivity s.
Qed.

Lemma finish_effect id c r s : calls s !! id = Some c -> effect_on s id (finish id r s).1 (finish id r s).2.
Proof. intros H. unfold finish. rewrite H. by eapply effect_finish. Qed.

Lemma failed_effect id c status now s : calls s !! id = Some c -> effect_on s id (failed id status now s).1 (failed id status now s).2.
Proof.
  intros H. unfold failed. rewrite H. destruct (rstopped s) eqn:Es; [apply effect_none; auto; done|].
  destruct (is_empty (request_id c)) eqn:Er; cbn [orb]; [by eapply finish_effect|]. destruct (negb _); [by eapply finish_effect|].
  eapply effect_retry; try done. by apply is_empty_false.
Qed.

Lemma located_effect id location wall clock t s s' out : length (members s) = length (endpoints s) ->
  located id location wall clock t s = (s', out) -> effect_on s id s' out.
Proof.
  intros Hlen. unfold located. destruct (calls s !! id) as [c|] eqn:Hc; [|intros [= <- <-]; by apply effect_none; auto].
  assert (Hfin : forall r st out', finish id r s = (st, out') -> effect_on s id st out').
  { intros r st out' E. pose proof (finish_effect id c r s Hc) as H. by rewrite E in H. }
  assert (Hfail : forall st now st' out', same_calls s st -> failed id disconnected now st = (st', out') -> effect_on s id st' out').
  { intros st now st' out' Hs E. pose proof (failed_effect id c disconnected now st) as H. rewrite E in H. eapply effect_from; [exact Hs|]. apply H. destruct Hs as (_ & -> & _). done. }
  destruct (rstopped s) eqn:Es; [intros [= <- <-]; apply effect_none; auto; done|].
  destruct (deadline c <=? clock 0%nat)%Z; [apply Hfin|]. destruct location as [[l|]|]; [|apply Hfin|apply Hfin].
  destruct (_ && _); [apply Hfin|]. cbv zeta. set (eligible := fun i : nat => _).
  destruct (select_entity_endpoint _ _ _ _ _ eligible) as [i|] eqn:Ei; [|by apply Hfail].
  destruct (members s !! i) as [m|] eqn:Hm.
  - destruct (_ <? retry m)%Z; [by apply Hfail|].
    match goal with |- context [match ?x with Ok p => _ | Throw _ => _ end] => destruct x as [p|] end.
    + destruct (set_member_frame i (fun m => MkMember (endpoint m) p (retry m)) s) as (F & C & B). destruct (call_throws t).
      * apply Hfail. destruct (set_member_frame i (fun m => MkMember (endpoint m) (mpeer m) (clock (2 + length (endpoints s))%nat + ms 250)) (set_member i (fun m => MkMember (endpoint m) p (retry m)) s)) as (F2 & C2 & B2).
        split; [by transitivity (set_member i (fun m => MkMember (endpoint m) p (retry m)) s)|split; congruence].
      * intros [= <- <-]. by eapply effect_send.
    + apply Hfail. apply set_member_frame.
  - exfalso. assert (Hlt : (i < length (endpoints s))%nat).
    { apply select_from_lt in Ei as [Ei|Ei]; [done|lia]. }
    apply lookup_ge_None in Hm. lia.
Qed.

Lemma answered_effect id i p r clock s s' out : answered id i p r clock s = (s', out) ->
  effect_on s id s' out /\ lookups_of out = [] /\ rpcs_of out = [].
Proof.
  unfold answered. destruct (calls s !! id) as [c|] eqn:Hc; [|intros [= <- <-]; split; [by apply effect_none; auto|done]].
  destruct (rstopped s) eqn:Es; [intros [= <- <-]; split; [apply effect_none; auto; done|done]|].
  match goal with |- context [let '(_, _) := ?x in _] => destruct x as [s1 out1] eqn:E1 end.
  assert (H1 : same_calls s s1 /\ replies out1 = [] /\ lookups_of out1 = [] /\ rpcs_of out1 = []).
  { assert (Hs : same_calls s s) by done. destruct (rstatus r); try (injection E1 as <- <-; done). destruct (members s !! i); [|by injection E1 as <- <-].
    destruct (_ =? p); [|by injection E1 as <- <-]. injection E1 as <- <-. split; [apply set_member_frame|]. by destruct (p =? 0). }
  destruct H1 as (Hs & R1 & R2 & R3). assert (Hc1 : calls s1 !! id = Some c) by (destruct Hs as (_ & -> & _); done).
  assert (H2 : forall f : Router * list output, effect_on s1 id f.1 f.2 -> lookups_of f.2 = [] -> rpcs_of f.2 = [] ->
    (let '(s, more) := f in (s, out1 ++ more)) = (s', out) -> effect_on s id s' out /\ lookups_of out = [] /\ rpcs_of out = []).
  { intros [s2 more] He L1 L2 [= <- <-]. cbn [fst snd] in *. rewrite lookups_app, rpcs_app, R2, R3, L1, L2. split; [|done].
    apply (effect_from s1); [done|]. destruct He as [s2 out H|? s2 out H|? ? s2 out H|? s2 out H|? ? ? s2 out H].
    - apply effect_none; rewrite ?replies_app, ?lookups_app, ?rpcs_app, ?R1, ?R2, ?R3; auto.
    - eapply effect_finish; rewrite ?replies_app, ?lookups_app, ?rpcs_app, ?R1, ?R2, ?R3; eauto.
    - eapply effect_retry; rewrite ?replies_app, ?lookups_app, ?rpcs_app, ?R1, ?R2, ?R3; eauto.
    - congruence.
    - congruence. }
  assert (Hq : forall status now, lookups_of (failed id status now s1).2 = [] /\ rpcs_of (failed id status now s1).2 = []).
  { intros status now. unfold failed, finish. rewrite Hc1. destruct (rstopped s1); [done|]. by destruct (_ || _). }
  destruct (rstatus r); apply H2; try apply Hq; try (by eapply failed_effect); try (by eapply finish_effect); unfold finish; by rewrite Hc1.
Qed.

Lemma poll_call_effect b clock id s s' out worked : poll_call b clock id s = (s', out, worked) ->
  (s' = s /\ out = []) \/ effect_on s id s' out /\
    (calls s' !! id = None \/ exists c, calls s !! id = Some c /\ busy c = false).
Proof.
  unfold poll_call. destruct (calls s !! id) as [c|] eqn:Hc; [|intros [= <- <- <-]; by left].
  destruct (_ <=? _)%Z.
  - destruct (finish id _ s) as [s1 o1] eqn:E. intros [= <- <- <-]. right. pose proof (finish_effect id c (MkResult timeout []) s Hc) as H. rewrite E in H.
    split; [done|]. left. unfold finish in E. rewrite Hc in E. injection E as <- _. cbn. apply lookup_delete_eq.
  - destruct (negb (busy c)) eqn:Hb; cbn [andb]; [|intros [= <- <- <-]; by left]. destruct (_ <=? _)%Z; [|intros [= <- <- <-]; by left].
    destruct (attempt id b _ s) as [s1 o1] eqn:E. intros [= <- <- <-]. right. split; [|right; exists c; split; [done|by apply negb_true_iff]].
    unfold attempt in E. rewrite Hc in E. destruct b; [injection E as <- <-; by eapply effect_look|].
    assert (Hid : with_call s id (reschedule c (next c) false) = s).
    { apply negb_true_iff in Hb. unfold with_call, with_calls. destruct s. cbn in *. f_equal. apply insert_id. rewrite Hc. f_equal. unfold reschedule. destruct c. cbn in *. by subst. }
    rewrite Hid in E. pose proof (failed_effect id c overloaded (clock 2%nat) s Hc) as H. by rewrite E in H.
Qed.

(** ** The router with its environment

    The lookups and transport calls in flight, and what has been submitted, answered,
    admitted and sent so far. *)

Record rsys := MkSys {
  router : Router; looking : list N; calling : list (N * nat * N);
  submitted : list N; answered_names : list N; admitted : gmap N Call; sent_ids : list N }.

(** The requests a caller makes. *)
Inductive request :=
  | req_owner (type id : bytes) (owner : option ConnectionRef) (timeout_ms : Z)
  | req_encoded (message : bytes) (timeout_ms : Z)
  | req_call (id : EntityId) (method payload : bytes) (timeout_ms : Z) (request expected : bytes)
  | req_typed (type id method payload : bytes) (timeout_ms : Z) (request : bytes).

Definition handle (q : request) (reply : N) (now : Z) (s : Router) : Router * list output :=
  match q with
  | req_owner type id owner t_ms => bind_owner type id owner t_ms reply now s
  | req_encoded message t_ms => call_encoded message t_ms reply now s
  | req_call id method payload t_ms request expected => call id method payload t_ms reply request expected now s
  | req_typed type id method payload t_ms request => call_typed type id method payload t_ms reply request now s
  end.

Definition after (x : rsys) (look : list N) (rpc : list (N * nat * N)) (s : Router) (out : list output) : rsys :=
  MkSys s (look ++ lookups_of out) (rpc ++ rpcs_of out) (submitted x) (answered_names x ++ replies out) (admitted x)
    (sent_ids x ++ map (fun t => t.1.1) (rpcs_of out)).

Inductive router_step : rsys -> rsys -> Prop :=
  | rs_submit x q reply now s' out : handle q reply now (router x) = (s', out) ->
      router_step x (MkSys s' (looking x) (calling x) (submitted x ++ [reply]) (answered_names x ++ replies out)
                       (match calls s' !! serial s' with Some c => if serial s' =? serial (router x) then admitted x else <[serial s' := c]> (admitted x) | None => admitted x end)
                       (sent_ids x))
  | rs_located x l1 l2 id location wall clock t s' out : looking x = l1 ++ id :: l2 -> located id location wall clock t (router x) = (s', out) ->
      router_step x (after x (l1 ++ l2) (calling x) s' out)
  | rs_answered x l1 l2 id i p r clock s' out : calling x = l1 ++ (id, i, p) :: l2 -> answered id i p r clock (router x) = (s', out) ->
      router_step x (after x (looking x) (l1 ++ l2) s' out)
  | rs_poll x budget work env ids s' out : poll_calls budget work env ids (router x) = (s', out) ->
      router_step x (after x (looking x) (calling x) s' out)
  | rs_stop x s' out : stop (router x) = (s', out) -> router_step x (after x (looking x) (calling x) s' out).

(** ** The invariant *)

Definition occurrences (n : N) (l : list N) : nat := count_occ N.eq_dec l n.
Definition rpc_ids (l : list (N * nat * N)) : list N := map (fun t => t.1.1) l.

Abbreviation total_bytes := (msum call_bytes).
Abbreviation reply_names := (mnames call_reply).

(** A live call: one lookup or transport call in flight when busy, none otherwise; one
    without a request identity has been sent only if its transport call is in flight. *)
Definition live_ok (looking : list N) (calling : list (N * nat * N)) (sent : list N) (id : N) (c : Call) : Prop :=
  (occurrences id looking + occurrences id (rpc_ids calling))%nat = (if busy c then 1 else 0)%nat /\
  (request_id c = [] -> occurrences id sent = occurrences id (rpc_ids calling)).

Record router_inv (x : rsys) : Prop := {
  inv_members : length (members (router x)) = length (endpoints (router x));
  inv_stopped : rstopped (router x) = true -> calls (router x) = ∅;
  inv_live : forall id c, calls (router x) !! id = Some c -> live_ok (looking x) (calling x) (sent_ids x) id c /\ id <= serial (router x) /\
    exists c0, admitted x !! id = Some c0 /\ request_id c0 = request_id c;
  inv_sent : forall id c, admitted x !! id = Some c -> request_id c = [] -> (occurrences id (sent_ids x) <= 1)%nat;
  inv_fresh : forall id, serial (router x) < id -> occurrences id (looking x) = 0%nat /\ occurrences id (rpc_ids (calling x)) = 0%nat /\
    occurrences id (sent_ids x) = 0%nat /\ calls (router x) !! id = None;
  inv_names : submitted x ≡ₚ answered_names x ++ reply_names (calls (router x));
  inv_total : rbytes (router x) = total_bytes (calls (router x)) /\ rbytes (router x) <= bytes_limit (router x) /\ bytes_limit (router x) < 2 ^ 64;
  inv_requests : N.of_nat (base.size (calls (router x))) <= requests_limit (router x) }.

Lemma occurrences_app n a b : occurrences n (a ++ b) = (occurrences n a + occurrences n b)%nat.
Proof. apply count_occ_app. Qed.

Lemma occurrences_ne n m l : n <> m -> occurrences n (m :: l) = occurrences n l.
Proof. intros H. unfold occurrences. apply count_occ_cons_neq. congruence. Qed.

Lemma rpc_ids_app a b : rpc_ids (a ++ b) = rpc_ids a ++ rpc_ids b.
Proof. apply map_app. Qed.

(** Rescheduling changes neither bytes nor names. *)
Lemma reschedule_same (m : gmap N Call) id c t b : m !! id = Some c ->
  total_bytes (<[id := reschedule c t b]> m) = total_bytes m /\ reply_names (<[id := reschedule c t b]> m) ≡ₚ reply_names m /\
  base.size (<[id := reschedule c t b]> m) = base.size m.
Proof.
  intros H. rewrite <- (insert_delete_id m id c H), insert_insert_eq. rewrite !msum_insert, !mnames_insert, !map_size_insert_None by apply lookup_delete_eq. done.
Qed.

(** Taking tokens of [id] away, at most. *)
Definition shrinks (id : N) (l l' : list N) : Prop :=
  (forall n, n <> id -> occurrences n l' = occurrences n l) /\ (occurrences id l' <= occurrences id l)%nat.

Lemma shrinks_refl id l : shrinks id l l.
Proof. by split. Qed.

Lemma shrinks_remove id l1 l2 : shrinks id (l1 ++ id :: l2) (l1 ++ l2).
Proof.
  split; [intros n Hn|]; rewrite !occurrences_app; [by rewrite occurrences_ne|]. unfold occurrences. cbn. destruct (N.eq_dec id id); lia.
Qed.

(** The invariant when no token is added: [id]'s call was finished, rescheduled or untouched. *)
Lemma quiet_inv x look rpc id s' out :
  router_inv x -> frame (router x) s' -> replies out ++ reply_names (calls s') ≡ₚ reply_names (calls (router x)) ->
  lookups_of out = [] -> rpcs_of out = [] -> shrinks id (looking x) look -> shrinks id (rpc_ids (calling x)) (rpc_ids rpc) ->
  rbytes s' = total_bytes (calls s') -> total_bytes (calls s') <= total_bytes (calls (router x)) ->
  (base.size (calls s') <= base.size (calls (router x)))%nat ->
  (forall n, n <> id -> calls s' !! n = calls (router x) !! n) ->
  (forall c, calls s' !! id = Some c -> exists c0, calls (router x) !! id = Some c0 /\ request_id c0 = request_id c /\ request_id c <> [] /\
     busy c = false /\ occurrences id look = 0%nat /\ occurrences id (rpc_ids rpc) = 0%nat) ->
  router_inv (after x look rpc s' out).
Proof.
  intros Hi (F1 & F2 & F3 & F4 & F5 & F6) Hn Hl Hr [Hs1 Hs2] [Hs3 Hs4] Hb Ht Hz Ho Hid. destruct Hi as [Im Ist Iv Ise If Ina [It1 [It2 It3]] Irq].
  unfold after. rewrite Hl, Hr. cbn [map]. rewrite !app_nil_r. constructor; cbn [router looking calling submitted answered_names admitted sent_ids].
  - congruence.
  - intros H. rewrite F6 in H. specialize (Ist H). apply map_empty. intros n. destruct (decide (n = id)) as [->|Hne].
    + destruct (calls s' !! id) as [c|] eqn:E; [|done]. destruct (Hid c eq_refl) as (c0 & H0 & _). rewrite Ist, lookup_empty in H0. done.
    + by rewrite Ho, Ist.
  - intros n c Hc. rewrite F5. destruct (decide (n = id)) as [->|Hne].
    + destruct (Hid c Hc) as (c0 & H0 & Hq & Hk & Hbz & O1 & O2). destruct (Iv id c0 H0) as (_ & Hle & c1 & A1 & A2).
      split; [|split; [done|exists c1; split; [done|congruence]]]. unfold live_ok. rewrite Hbz, O1, O2. split; [done|]. done.
    + rewrite Ho in Hc by done. destruct (Iv n c Hc) as ([L1 L2] & Hle & A). split; [|done]. unfold live_ok. by rewrite Hs1, Hs3.
  - done.
  - intros n Hlt. rewrite F5 in Hlt. destruct (If n Hlt) as (G1 & G2 & G3 & G4). destruct (decide (n = id)) as [->|Hne].
    + split; [lia|]. split; [lia|]. split; [done|]. destruct (calls s' !! id) as [c|] eqn:E; [|done]. destruct (Hid c eq_refl) as (c0 & H0 & _). congruence.
    + rewrite Hs1, Hs3, Ho by done. done.
  - rewrite <- app_assoc, Hn. exact Ina.
  - rewrite F2. split; [done|]. lia.
  - rewrite F1. lia.
Qed.

(** The invariant when [id]'s call is left busy, with its one token. *)
Lemma busy_inv x look rpc sent id c c' s' :
  router_inv x -> frame (router x) s' -> calls (router x) !! id = Some c -> calls s' = <[id := c']> (calls (router x)) ->
  busy c' = true -> request_id c' = request_id c -> rbytes s' = rbytes (router x) ->
  total_bytes (calls s') = total_bytes (calls (router x)) -> reply_names (calls s') ≡ₚ reply_names (calls (router x)) -> base.size (calls s') = base.size (calls (router x)) ->
  (forall n, n <> id -> occurrences n look = occurrences n (looking x) /\ occurrences n (rpc_ids rpc) = occurrences n (rpc_ids (calling x)) /\ occurrences n sent = occurrences n (sent_ids x)) ->
  (occurrences id look + occurrences id (rpc_ids rpc) = 1)%nat -> (request_id c = [] -> occurrences id sent = occurrences id (rpc_ids rpc)) ->
  router_inv (MkSys s' look rpc (submitted x) (answered_names x) (admitted x) sent).
Proof.
  intros Hi (F1 & F2 & F3 & F4 & F5 & F6) H C Hb Hq B T1 T2 T3 Ho Hone Hsent. destruct Hi as [Im Ist Iv Ise If Ina [It1 [It2 It3]] Irq].
  destruct (Iv id c H) as (_ & Hle & c1 & A1 & A2). constructor; cbn [router looking calling submitted answered_names admitted sent_ids].
  - congruence.
  - intros Hst. rewrite F6 in Hst. rewrite (Ist Hst), lookup_empty in H. done.
  - intros n c0 Hc. rewrite F5. rewrite C in Hc. destruct (decide (n = id)) as [->|Hne].
    + rewrite lookup_insert_eq in Hc. injection Hc as <-. split; [|split; [done|exists c1; split; [done|congruence]]].
      unfold live_ok. rewrite Hb, Hq. done.
    + rewrite lookup_insert_ne in Hc by done. destruct (Iv n c0 Hc) as (Hlv & Hrest). split; [|done]. unfold live_ok. destruct (Ho n Hne) as (-> & -> & ->). exact Hlv.
  - intros n c0 Hn Hk. destruct (decide (n = id)) as [->|Hne]; [rewrite Hsent by congruence; lia|]. destruct (Ho n Hne) as (_ & _ & ->). by eapply Ise.
  - intros n Hlt. rewrite F5 in Hlt. destruct (If n Hlt) as (G1 & G2 & G3 & G4). assert (Hne : n <> id) by (intros ->; congruence).
    destruct (Ho n Hne) as (-> & -> & ->). rewrite C, lookup_insert_ne by done. done.
  - by rewrite T2.
  - rewrite B, T1, F2. done.
  - rewrite T3, F1. done.
Qed.

Lemma occurrences_self n l : occurrences n (l ++ [n]) = S (occurrences n l).
Proof. rewrite occurrences_app. unfold occurrences at 2. cbn. destruct (N.eq_dec n n); [lia|done]. Qed.

Lemma occurrences_other n m l : n <> m -> occurrences n (l ++ [m]) = occurrences n l.
Proof. intros H. rewrite occurrences_app, occurrences_ne by done. unfold occurrences at 2. cbn. lia. Qed.

Lemma effect_inv x look rpc id s' out :
  router_inv x -> effect_on (router x) id s' out -> shrinks id (looking x) look -> shrinks id (rpc_ids (calling x)) (rpc_ids rpc) ->
  (forall c, calls (router x) !! id = Some c -> calls s' !! id <> None -> occurrences id look = 0%nat /\ occurrences id (rpc_ids rpc) = 0%nat) ->
  (forall c, calls (router x) !! id = Some c -> request_id c = [] -> lookups_of out <> [] \/ rpcs_of out <> [] -> occurrences id (sent_ids x) = 0%nat) ->
  (forall c, calls (router x) !! id = Some c -> rpcs_of out <> [] -> busy c = true) ->
  router_inv (after x look rpc s' out).
Proof.
  intros Hi He Hs Hs' Hz Hsent Hbusy. pose proof Hi as [Im Ist Iv Ise If Ina [It1 [It2 It3]] Irq].
  destruct He as [s' out H C B F R L P|c s' out H C B F R L P|c t s' out H K C B F R L P|c s' out H C B F R L P|c i p s' out H C B F R L P].
  - apply (quiet_inv x look rpc id); rewrite ?C, ?R; try done; [congruence|]. intros c Hc. exfalso.
    destruct H as [H|H]; [congruence|]. rewrite (Ist H), lookup_empty in Hc. done.
  - pose proof (msum_delete (f := call_bytes) _ _ _ H) as Ht. apply (quiet_inv x look rpc id); rewrite ?C, ?R; try done.
    + symmetry. cbn. by apply mnames_delete.
    + rewrite B, It1, Ht. rewrite sub64_le by lia. lia.
    + lia.
    + rewrite map_size_delete, H. lia.
    + intros n Hne. by rewrite lookup_delete_ne.
    + intros c0 Hc. by rewrite lookup_delete_eq in Hc.
  - destruct (reschedule_same (calls (router x)) id c t false H) as (T1 & T2 & T3).
    apply (quiet_inv x look rpc id); rewrite ?C, ?R, ?T1, ?T3; try done; [congruence|by intros n Hne; rewrite lookup_insert_ne|].
    intros c1 Hc. rewrite lookup_insert_eq in Hc. injection Hc as <-. exists c. destruct (Hz c H) as [Z1 Z2]; [rewrite C, lookup_insert_eq; done|]. done.
  - destruct (reschedule_same (calls (router x)) id c (next c) true H) as (T1 & T2 & T3). destruct (Hz c H) as [Z1 Z2]; [rewrite C, lookup_insert_eq; done|].
    unfold after. rewrite L, P, R. cbn [map]. rewrite !app_nil_r.
    apply (busy_inv x _ rpc (sent_ids x) id c (reschedule c (next c) true) s'); rewrite ?C; try done.
    + intros n Hne. rewrite occurrences_other by done. split; [by apply Hs|]. split; [by apply Hs'|done].
    + rewrite occurrences_self. lia.
    + intros Hk. rewrite Z2. apply (Hsent c H Hk). left. by rewrite L.
  - destruct (Hz c H) as [Z1 Z2]; [congruence|]. unfold after. rewrite L, P, R. cbn [map fst]. rewrite !app_nil_r.
    apply (busy_inv x look _ _ id c c s'); rewrite ?C, ?insert_id; try done.
    + apply (Hbusy c H). by rewrite P.
    + intros n Hne. rewrite rpc_ids_app. cbn [rpc_ids map fst]. rewrite !occurrences_other by done. split; [by apply Hs|]. split; [by apply Hs'|done].
    + rewrite rpc_ids_app. cbn [rpc_ids map fst]. rewrite occurrences_self. lia.
    + intros Hk. rewrite rpc_ids_app. cbn [rpc_ids map fst]. rewrite !occurrences_self, (Hsent c H Hk), Z2; [done|right; by rewrite P].
Qed.

(** ** Steps *)

Lemma occurrences_mid n l1 l2 : occurrences n (l1 ++ n :: l2) = S (occurrences n (l1 ++ l2)).
Proof. rewrite !occurrences_app. unfold occurrences at 2. cbn. destruct (N.eq_dec n n); [|done]. unfold occurrences. lia. Qed.

Lemma located_inv x l1 l2 id location wall clock t s' out : router_inv x -> looking x = l1 ++ id :: l2 ->
  located id location wall clock t (router x) = (s', out) -> router_inv (after x (l1 ++ l2) (calling x) s' out).
Proof.
  intros Hi Hl H. pose proof (located_effect _ _ _ _ _ _ _ _ (inv_members x Hi) H) as He.
  assert (Hc : forall c, calls (router x) !! id = Some c -> busy c = true /\ occurrences id (l1 ++ l2) = 0%nat /\ occurrences id (rpc_ids (calling x)) = 0%nat /\
    (request_id c = [] -> occurrences id (sent_ids x) = 0%nat)).
  { intros c Hc. destruct (inv_live x Hi id c Hc) as ([L1 L2] & _). rewrite Hl, occurrences_mid in L1.
    destruct (busy c); [|lia]. assert (occurrences id (rpc_ids (calling x)) = 0%nat) as E by lia. rewrite E in L2. split_and!; [done|lia|done|done]. }
  apply (effect_inv x _ _ id); try done.
  - rewrite Hl. apply shrinks_remove.
  - intros c Hcc _. destruct (Hc c Hcc) as (_ & ? & ? & _). done.
  - intros c Hcc Hk _. by apply Hc in Hcc as (_ & _ & _ & ?); auto.
  - intros c Hcc _. by apply Hc in Hcc as [? _].
Qed.

Lemma answered_inv x l1 l2 id i p r clock s' out : router_inv x -> calling x = l1 ++ (id, i, p) :: l2 ->
  answered id i p r clock (router x) = (s', out) -> router_inv (after x (looking x) (l1 ++ l2) s' out).
Proof.
  intros Hi Hl H. destruct (answered_effect _ _ _ _ _ _ _ _ H) as (He & Q1 & Q2).
  assert (Hids : rpc_ids (calling x) = rpc_ids l1 ++ id :: rpc_ids l2) by (rewrite Hl, rpc_ids_app; done).
  apply (effect_inv x _ _ id); try done.
  - rewrite Hids, rpc_ids_app. apply shrinks_remove.
  - intros c Hc _. destruct (inv_live x Hi id c Hc) as ([L1 L2] & _). rewrite Hids, occurrences_mid, <- rpc_ids_app in L1. destruct (busy c); lia.
  - intros c Hc Hk [?|?]; congruence.
Qed.

Lemma after_after x s1 o1 s2 o2 : after (after x (looking x) (calling x) s1 o1) (looking (after x (looking x) (calling x) s1 o1)) (calling (after x (looking x) (calling x) s1 o1)) s2 o2 =
  after x (looking x) (calling x) s2 (o1 ++ o2).
Proof. unfold after. cbn. by rewrite replies_app, lookups_app, rpcs_app, map_app, !app_assoc. Qed.

Lemma poll_call_inv x b clock id s' out worked : router_inv x -> poll_call b clock id (router x) = (s', out, worked) ->
  router_inv (after x (looking x) (calling x) s' out).
Proof.
  intros Hi H. destruct (poll_call_effect _ _ _ _ _ _ _ H) as [[-> ->]|[He Hd]].
  { unfold after. cbn. rewrite !app_nil_r. by destruct x. }
  assert (Hz : forall c, calls (router x) !! id = Some c -> busy c = false -> occurrences id (looking x) = 0%nat /\ occurrences id (rpc_ids (calling x)) = 0%nat /\
    (request_id c = [] -> occurrences id (sent_ids x) = 0%nat)).
  { intros c Hc Hb. destruct (inv_live x Hi id c Hc) as ([L1 L2] & _). rewrite Hb in L1. assert (occurrences id (rpc_ids (calling x)) = 0%nat) as E by lia.
    rewrite E in L2. split; [lia|done]. }
  assert (Hq : rpcs_of out = []).
  { unfold poll_call in H. destruct (calls (router x) !! id) as [c|] eqn:Hc; [|by injection H as _ <- _]. unfold attempt, failed, finish in H. rewrite Hc in H.
    destruct (_ <=? _)%Z; [by injection H as _ <- _|]. destruct (_ && _); [|by injection H as _ <- _]. destruct b; [by injection H as _ <- _|].
    cbn [calls with_call with_calls] in H. rewrite lookup_insert_eq in H. destruct (rstopped _); [by injection H as _ <- _|].
    destruct (_ || _); by injection H as _ <- _. }
  apply (effect_inv x _ _ id); try done; try apply shrinks_refl.
  - intros c Hc Hlive. destruct Hd as [Hd|(c' & Hc' & Hb)]; [done|]. destruct (Hz c' Hc' Hb) as (? & ? & _). done.
  - intros c Hc Hk [Hl|?]; [|congruence]. destruct Hd as [Hd|(c' & Hc' & Hb)].
    + exfalso. destruct He as [? ? ? ? ? ? ? HL|? ? ? ? ? ? ? ? HL|? ? ? ? ? ? ? ? ? ? HL|? ? ? H0 H1 ? ? ? ? ?|? ? ? ? ? ? ? ? ? ? HL]; try congruence.
      rewrite H1, lookup_insert_eq in Hd. done.
    + assert (c' = c) as -> by congruence. destruct (Hz c Hc Hb) as (_ & _ & ?). auto.
Qed.

Lemma poll_inv budget env ids : forall work x s' out, router_inv x -> poll_calls budget work env ids (router x) = (s', out) ->
  router_inv (after x (looking x) (calling x) s' out).
Proof.
  assert (Hid : forall x, router_inv x -> router_inv (after x (looking x) (calling x) (router x) [])).
  { intros x Hi. unfold after. cbn. rewrite !app_nil_r. by destruct x. }
  induction ids as [|id ids IH]; intros work x s' out Hi; cbn [poll_calls]; [intros [= <- <-]; auto|].
  destruct (_ || _); [intros [= <- <-]; auto|]. destruct (poll_call _ _ id (router x)) as [[s1 o1] worked] eqn:E1.
  destruct (poll_calls _ _ env ids s1) as [s2 o2] eqn:E2. intros [= <- <-]. pose proof (poll_call_inv x _ _ id s1 o1 worked Hi E1) as H1.
  rewrite <- (after_after x s1 o1 s2 o2). by eapply IH.
Qed.

Lemma admit_cases type id route message req bytes reply until s s' out : enqueue type id route message req bytes reply until s = (s', out) ->
  (s' = s /\ replies out = [reply]) \/
  (out = [] /\ serial s <> u64_max /\ N.of_nat (base.size (calls s)) < requests_limit s /\ bytes <= sub64 (bytes_limit s) (rbytes s) /\
   exists c, call_reply c = reply /\ busy c = false /\ call_bytes c = bytes /\
     s' = MkRouter (requests_limit s) (bytes_limit s) (members s) (endpoints s) (<[serial s + 1 := c]> (calls s)) (wrap64 (rbytes s + bytes)) (serial s + 1) (rstopped s)).
Proof.
  unfold enqueue. destruct (_ || _) eqn:E; [intros [= <- <-]; by left|]. intros [= <- <-]. right. bool_prop. destruct E as [[E1 E2] E3].
  split_and!; try done. eexists. split; [|split; [|split; [|reflexivity]]]; done.
Qed.

Lemma handle_cases q reply now s s' out : handle q reply now s = (s', out) ->
  (s' = s /\ replies out = [reply]) \/
  (rstopped s = false /\ exists type id route message req bytes until, enqueue type id route message req bytes reply until s = (s', out)).
Proof.
  assert (Henc : forall message t_ms, call_encoded message t_ms reply now s = (s', out) -> (s' = s /\ replies out = [reply]) \/
    (rstopped s = false /\ exists type id route message req bytes until, enqueue type id route message req bytes reply until s = (s', out))).
  { intros message t_ms. unfold call_encoded. destruct (rstopped s) eqn:Es; [intros [= <- <-]; by left|].
    destruct (parse_entity_call_view message); [|intros [= <- <-]; by left]. destruct (bad_timeout _); [intros [= <- <-]; by left|]. eauto 12. }
  assert (Hcall : forall id method payload t_ms request expected, call id method payload t_ms reply request expected now s = (s', out) -> (s' = s /\ replies out = [reply]) \/
    (rstopped s = false /\ exists type id route message req bytes until, enqueue type id route message req bytes reply until s = (s', out))).
  { intros id method payload t_ms request expected. unfold call. destruct (entity_call_message _ _ _ _ _); [apply Henc|intros [= <- <-]; by left]. }
  destruct q; cbn [handle]; [|apply Henc|apply Hcall|].
  - unfold bind_owner. destruct (rstopped s) eqn:Es; [intros [= <- <-]; by left|]. destruct (_ || _ || _); [intros [= <- <-]; by left|].
    match goal with |- context [match ?x with Ok p => _ | Throw _ => _ end] => destruct x end; [eauto 12|intros [= <- <-]; by left].
  - unfold call_typed. destruct (negb _); [intros [= <- <-]; by left|]. destruct (entity_id_of_text _); [apply Hcall|intros [= <- <-]; by left].
Qed.

Lemma submit_inv x q reply now s' out : router_inv x -> handle q reply now (router x) = (s', out) ->
  router_inv (MkSys s' (looking x) (calling x) (submitted x ++ [reply]) (answered_names x ++ replies out)
    (match calls s' !! serial s' with Some c => if serial s' =? serial (router x) then admitted x else <[serial s' := c]> (admitted x) | None => admitted x end) (sent_ids x)).
Proof.
  intros Hi H. pose proof Hi as [Im Ist Iv Ise If Ina [It1 [It2 It3]] Irq].
  assert (Hrej : s' = router x -> replies out = [reply] -> router_inv (MkSys s' (looking x) (calling x) (submitted x ++ [reply]) (answered_names x ++ replies out)
    (match calls s' !! serial s' with Some c => if serial s' =? serial (router x) then admitted x else <[serial s' := c]> (admitted x) | None => admitted x end) (sent_ids x))).
  { intros -> ->. rewrite N.eqb_refl. assert (Ha : match calls (router x) !! serial (router x) with Some _ => admitted x | None => admitted x end = admitted x) by (by destruct (calls (router x) !! _)).
    rewrite Ha. constructor; cbn; try done. rewrite Ina, <- !app_assoc. apply Permutation_app_head, Permutation_app_comm. }
  destruct (handle_cases _ _ _ _ _ _ H) as [[E1 E2]|(Hst & type & id & route & message & req & bytes & until & Ha)]; [by apply Hrej|].
  destruct (admit_cases _ _ _ _ _ _ _ _ _ _ _ Ha) as [[E1 E2]|(-> & A1 & A2 & A3 & c & C1 & C2 & C3 & ->)]; [by apply Hrej|]. clear Hrej H Ha.
  destruct (If (serial (router x) + 1) ltac:(lia)) as (G1 & G2 & G3 & G4). rewrite sub64_le in A3 by lia.
  cbn [calls serial]. rewrite lookup_insert_eq, (proj2 (N.eqb_neq (serial (router x) + 1) (serial (router x)))) by lia.
  cbn [replies omap list_omap]. rewrite app_nil_r. constructor; cbn [router looking calling submitted answered_names admitted sent_ids members endpoints rstopped calls serial rbytes bytes_limit requests_limit].
  - done.
  - congruence.
  - intros n c0 Hc. destruct (decide (n = serial (router x) + 1)) as [->|Hne].
    + rewrite lookup_insert_eq in Hc. injection Hc as <-. rewrite lookup_insert_eq. split; [|split; [lia|eauto]]. unfold live_ok. rewrite G1, G2, G3, C2. done.
    + rewrite lookup_insert_ne in Hc by done. rewrite lookup_insert_ne by done. destruct (Iv n c0 Hc) as (L & Hle & A). split; [done|]. split; [lia|done].
  - intros n c0. destruct (decide (n = serial (router x) + 1)) as [->|Hne]; [lia|]. rewrite lookup_insert_ne by done. apply Ise.
  - intros n Hlt. rewrite lookup_insert_ne by lia. apply If. lia.
  - rewrite mnames_insert, C1, Ina by done. rewrite <- app_assoc. apply Permutation_app_head. symmetry. apply Permutation_cons_append.
  - rewrite msum_insert by done. unfold wrap64. rewrite N.mod_small by lia. lia.
  - rewrite map_size_insert_None by done. lia.
Qed.

(** *** Stopping *)

Definition halt (s : Router) : Router :=
  MkRouter (requests_limit s) (bytes_limit s) (members s) (endpoints s) (calls s) (rbytes s) (serial s) true.

Lemma finish_halt id r s : finish id r (halt s) = (halt (finish id r s).1, (finish id r s).2).
Proof. unfold finish. cbn. by destruct (calls s !! id). Qed.

Lemma finish_all_halt ids s : finish_all ids (halt s) = (halt (finish_all ids s).1, (finish_all ids s).2).
Proof.
  unfold finish_all. change (halt s, @nil output) with (halt (s, @nil output).1, (s, @nil output).2). generalize (s, @nil output).
  induction ids as [|id ids IH]; intros st; cbn [fold_left]; [done|]. rewrite <- IH. f_equal. cbn [fst snd]. rewrite finish_halt. by destruct (finish id _ st.1).
Qed.

Lemma finish_inv x id r : router_inv x -> router_inv (after x (looking x) (calling x) (finish id r (router x)).1 (finish id r (router x)).2).
Proof.
  intros Hi. destruct (calls (router x) !! id) as [c|] eqn:Hc.
  - assert (Hd : calls (finish id r (router x)).1 !! id = None) by (unfold finish; rewrite Hc; apply lookup_delete_eq).
    assert (Hq : lookups_of (finish id r (router x)).2 = [] /\ rpcs_of (finish id r (router x)).2 = []) by (unfold finish; by rewrite Hc). destruct Hq as [Q1 Q2].
    apply (effect_inv x _ _ id); [done|by eapply finish_effect|apply shrinks_refl|apply shrinks_refl|done| |congruence]. intros ? ? ? [?|?]; congruence.
  - unfold finish. rewrite Hc. cbn [fst snd]. unfold after. cbn. rewrite !app_nil_r. by destruct x.
Qed.

Lemma finish_all_inv ids : forall x, router_inv x ->
  router_inv (after x (looking x) (calling x) (finish_all ids (router x)).1 (finish_all ids (router x)).2) /\
  calls (finish_all ids (router x)).1 = foldr delete (calls (router x)) ids.
Proof.
  assert (Hshift : forall ids s out, fold_left (fun st id => let '(s, out) := finish id (MkResult disconnected []) st.1 in (s, st.2 ++ out)) ids (s, out) =
    ((finish_all ids s).1, out ++ (finish_all ids s).2)).
  { unfold finish_all. induction ids0 as [|id ids0 IH]; intros s out; cbn [fold_left fst snd]; [by rewrite app_nil_r|].
    destruct (finish id _ s) as [s1 o1]. rewrite IH, (IH s1 ([] ++ o1)). cbn [fst snd app]. by rewrite app_assoc. }
  assert (Hfin : forall id r s, calls (finish id r s).1 = delete id (calls s)).
  { intros id r s. unfold finish. destruct (calls s !! id) eqn:E; [done|]. cbn. by rewrite delete_id. }
  induction ids as [|id ids IH]; intros x Hi.
  - split; [|done]. unfold after. cbn. rewrite !app_nil_r. by destruct x.
  - unfold finish_all. cbn [fold_left fst snd]. destruct (finish id (MkResult disconnected []) (router x)) as [s1 o1] eqn:E. rewrite Hshift. cbn [fst snd app].
    pose proof (finish_inv x id (MkResult disconnected []) Hi) as H1. rewrite E in H1. cbn [fst snd] in H1.
    destruct (IH _ H1) as [I1 I2]. cbn [router after] in I1, I2. rewrite <- (after_after x s1 o1). split; [exact I1|]. rewrite I2.
    pose proof (Hfin id (MkResult disconnected []) (router x)) as Hs1. rewrite E in Hs1. cbn [fst] in Hs1. rewrite Hs1. cbn [foldr].
    clear. induction ids as [|n ids IH]; cbn [foldr]; [done|]. by rewrite IH, delete_delete.
Qed.

Lemma flat_map_closed l : let out := flat_map (fun m => if mpeer m =? 0 then [] else [closed (mpeer m)]) l ++ [storage_stopped] in
  replies out = [] /\ lookups_of out = [] /\ rpcs_of out = [].
Proof. induction l as [|m l IH]; [done|]. cbn [flat_map]. by destruct (mpeer m =? 0). Qed.

Lemma stop_inv x s' out : router_inv x -> stop (router x) = (s', out) ->
  router_inv (after x (looking x) (calling x) s' out) /\ (rstopped (router x) = false -> calls s' = ∅).
Proof.
  intros Hi. unfold stop. destruct (rstopped (router x)) eqn:Es.
  { intros [= <- <-]. split; [|done]. unfold after. cbn. rewrite !app_nil_r. by destruct x. }
  fold (halt (router x)). cbn [calls halt]. rewrite finish_all_halt.
  destruct (finish_all_inv (elements (dom (calls (router x)))) x Hi) as [H1 H2]. rewrite (foldr_delete_all (calls (router x))) in H2.
  2:{ intros n c Hn. apply elem_of_elements, elem_of_dom. eauto. }
  destruct (finish_all _ (router x)) as [s1 o1]. cbn [fst snd] in *. intros [= <- <-]. destruct (flat_map_closed (members s1)) as (Q1 & Q2 & Q3).
  split; [|done]. unfold after in *. rewrite replies_app, lookups_app, rpcs_app, Q1, Q2, Q3. cbn [map]. rewrite !app_nil_r.
  destruct H1 as [Im Ist Iv Ise If Ina It Irq]. cbn [router looking calling submitted answered_names admitted sent_ids] in *.
  constructor; cbn; try done. by rewrite length_map.
Qed.

Lemma router_step_inv x y : router_inv x -> router_step x y -> router_inv y.
Proof.
  intros Hi Hs. destruct Hs.
  - by apply submit_inv with q now.
  - by eapply located_inv.
  - by eapply answered_inv.
  - by eapply poll_inv.
  - by eapply stop_inv.
Qed.

(** A router that starts, with nothing in flight. *)
Definition router_start (requests bytes : N) (endpoints : list EntityEndpoint) (x : rsys) : Prop :=
  entity_router requests bytes endpoints = Ok (router x) /\ bytes < 2 ^ 64 /\ looking x = [] /\ calling x = [] /\
  submitted x = [] /\ answered_names x = [] /\ admitted x = ∅ /\ sent_ids x = [].

Lemma router_start_inv requests bytes endpoints x : router_start requests bytes endpoints x -> router_inv x.
Proof.
  intros (H & Hb & H1 & H2 & H3 & H4 & H5 & H6). unfold entity_router in H. apply bind_ok in H as (_ & _ & H). destruct (_ || _); [done|]. injection H as H.
  constructor; rewrite <- ?H; cbn; rewrite ?H1, ?H2, ?H3, ?H4, ?H5, ?H6; cbn; try done.
  - by rewrite length_map.
  - split; [done|]. split; [lia|done].
  - apply N.le_0_l.
Qed.

(** C23 (safety).  The router answers every submitted call exactly once: after any sequence
    of events the submitted callbacks are those already answered together with those
    of the pending calls, and after [stop] none is pending; a call without a request
    identity is sent to a node at most once; and the pending calls stay within the
    limits on their number and bytes. *)
Theorem router_answers_once requests bytes endpoints x y :
  router_start requests bytes endpoints x -> rtc router_step x y ->
  submitted y ≡ₚ answered_names y ++ reply_names (calls (router y)) /\
  (rstopped (router y) = true -> submitted y ≡ₚ answered_names y) /\
  (forall id c, admitted y !! id = Some c -> request_id c = [] -> (occurrences id (sent_ids y) <= 1)%nat) /\
  N.of_nat (pending (router y)) <= requests_limit (router y) /\ total_bytes (calls (router y)) <= bytes_limit (router y).
Proof.
  intros H0%router_start_inv Hs. assert (Hi : router_inv y) by (induction Hs as [|x y z Hstep _ IH]; [done|]; apply IH; by eapply router_step_inv).
  destruct Hi as [_ Ist _ Ise _ Ina [It1 [It2 _]] Irq]. split; [done|]. split; [|split; [done|split; [done|by rewrite <- It1]]].
  intros Hst. rewrite Ina, (Ist Hst). unfold reply_names. rewrite map_to_list_empty. by rewrite app_nil_r.
Qed.

(** ** Witness *)

Definition sample_message : bytes :=
  match entity_call_message (MkEntityId 161) (lit "hit") (lit "x") [] (lit "Player") with Ok m => m | Throw _ => [] end.
Definition sample_location : EntityLocation := MkLocation (lit "n10/boot") 3 500 [] 0 (lit "Player").
Definition sample_transport : Transport := MkTransport (fun _ => true) (fun _ => false) (fun _ => Ok 5) false.
Definition sample_router : rsys :=
  MkSys (MkRouter 4 1000 (map (fun e => MkMember e 0 0) sample_endpoints) sample_endpoints ∅ 0 0 false) [] [] [] [] ∅ [].

(** One unkeyed call: admitted, looked up, sent, answered. *)
Lemma router_answers_once_witness :
  exists y, rtc router_step sample_router y /\ answered_names y = [7] /\ sent_ids y = [1] /\ submitted y ≡ₚ answered_names y ++ reply_names (calls (router y)).
Proof.
  eexists. match goal with |- ?P /\ _ => assert (H : P) end.
  - eapply rtc_l; [eapply (rs_submit _ (req_encoded sample_message 1000) 7 0); vm_compute; reflexivity|].
    eapply rtc_l; [eapply (rs_poll _ 64 0 (fun _ => (true, fun _ => 1%Z)) [1]); vm_compute; reflexivity|].
    eapply rtc_l; [eapply (rs_located _ [] [] 1 (Ok (Some sample_location)) 100 (fun _ => 2%Z) sample_transport); [reflexivity|vm_compute; reflexivity]|].
    eapply rtc_l; [eapply (rs_answered _ [] [] 1 1 5 (MkResult ok (lit "y")) (fun _ => 3%Z)); [reflexivity|vm_compute; reflexivity]|]. apply rtc_refl.
  - split; [exact H|]. split; [vm_compute; reflexivity|]. split; [vm_compute; reflexivity|].
    refine (proj1 (router_answers_once 4 1000 sample_endpoints sample_router _ _ H)). split_and!; vm_compute; reflexivity.
Defined.
