(* ===== verification/Cluster.v ===== *)
(** * The static-membership client mesh

    [ClusterClient] of [src/cluster.cpp]: health probes with exponential backoff feed
    the service directory, and calls go to the peer the directory locates, with one
    retry when the caller said the call is idempotent.

    A transport call is an output and its reply the next event: the code's closures
    become the records [Probe] and [Attempt].  [clock n] is the [n]-th reading of the
    steady clock a handler takes. *)

From stdpp Require Import gmap.
From S2P Require Import Prelude OrderedMap Identity Values AttributeWire Messages Fields TimerState DeliveryState Records Storage StorageCorrect Programs TimerIndex Directory Transport.

Record Endpoint := MkEndpoint { caddress : bytes; cport : N; services : list bytes }.

Record Peer := MkPeer { pendpoint : Endpoint; connection : N; probing : bool; failures : N; pnext : Z }.

Record Cluster := MkCluster { peers : list Peer; directory : gmap bytes (list ServiceEntry); closing : bool }.

(** The closure of a health probe, and of a call. *)
Record Probe := MkProbe { probe_index : nat; probe_connection : N }.
Record Attempt := MkAttempt {
  aservice : bytes; aentity : bytes; aroute : bytes; adata : bytes; adeadline : Z; areply : N; aretry : bool;
  aindex : nat; aconnection : N }.

Inductive cluster_output :=
  | answered (reply : N) (r : Result)
  | called (a : Attempt) (timeout_ms : Z)
  | probed (p : Probe)
  | dropped (connection : N).

Definition cluster_endpoint (l : list Peer) (e : Endpoint) : result (list Peer) :=
  throw_if (cport e =? 0) || is_empty (services e) as invalid_argument ;;
  Ok (l ++ [MkPeer e 0 false 0 0]).

Definition cluster_client (endpoints : list Endpoint) : result Cluster :=
  throw_if is_empty endpoints || (1024 <? N.of_nat (length endpoints)) as invalid_argument ;;
  let* peers := fold_result cluster_endpoint endpoints [] in
  Ok (MkCluster peers ∅ false).

Definition with_peer (s : Cluster) (i : nat) (p : Peer) : Cluster := MkCluster (<[i := p]> (peers s)) (directory s) (closing s).

(** [failed(index, connection)] *)
Definition failed (i : nat) (c : N) (now : Z) (s : Cluster) : Cluster * list cluster_output :=
  match peers s !! i with
  | None => (s, [])
  | Some p =>
      if negb (connection p =? c) then (s, [])
      else
        let n := N.min (failures p + 1) 6 in
        (MkCluster (<[i := MkPeer (pendpoint p) 0 false n (now + ms 100 * 2 ^ Z.of_N n)]> (peers s))
           (remove (N.of_nat i + 1) (directory s)) (closing s), [dropped c])
  end.

(** [attempt(...)]: the call is sent to the located peer, or answered at once. *)
Definition attempt (service entity route data : bytes) (deadline : Z) (reply : N) (retry : bool) (clock : nat -> Z) (s : Cluster)
  : Cluster * list cluster_output :=
  match locate service entity (clock 0%nat) (directory s) with
  | None => (s, [answered reply (MkResult disconnected [])])
  | Some slot =>
      if closing s then (s, [answered reply (MkResult disconnected [])])
      else
        let i := N.to_nat (slot - 1) in
        match peers s !! i with
        | None => (s, [])
        | Some p =>
            let remaining := trunc_ms (deadline - clock 1%nat) in
            if (remaining <=? 0)%Z then (s, [answered reply (MkResult timeout [])])
            else (s, [called (MkAttempt service entity route data deadline reply retry i (connection p)) remaining])
        end
  end.

Definition transport_failure (status : Status) : bool := match status with disconnected | timeout => true | _ => false end.

(** The reply to [attempt]'s call; [alive] is whether [weak.lock()] succeeds. *)
Definition call_replied (a : Attempt) (r : Result) (alive : bool) (clock : nat -> Z) (s : Cluster) : Cluster * list cluster_output :=
  if negb alive then (s, [answered (areply a) (MkResult disconnected [])])
  else
    let broken := transport_failure (rstatus r) in
    let '(s, out) := if broken then failed (aindex a) (aconnection a) (clock 0%nat) s else (s, []) in
    let again := aretry a && broken && negb (closing s) &&
                 match locate (aservice a) (aentity a) (clock 1%nat) (directory s) with Some _ => true | None => false end in
    let '(s, more) := if again then attempt (aservice a) (aentity a) (aroute a) (adata a) (adeadline a) (areply a) false (fun n => clock (2 + n)%nat) s
                      else (s, [answered (areply a) r]) in
    (s, out ++ more).

(** One peer of [tick]'s loop; [connect] is what [node.connect] does now. *)
Definition tick_peer (connect : Endpoint -> result N) (now : Z) (i : nat) (s : Cluster) : Cluster * list cluster_output :=
  match peers s !! i with
  | None => (s, [])
  | Some p =>
      if probing p || (now <? pnext p)%Z then (s, [])
      else
        match (if connection p =? 0 then connect (pendpoint p) else Ok (connection p)) with
        | Throw _ => (with_peer s i (MkPeer (pendpoint p) (connection p) (probing p) (failures p) (now + ms 1000)), [])
        | Ok c => (with_peer s i (MkPeer (pendpoint p) c true (failures p) (pnext p)), [probed (MkProbe i c)])
        end
  end.

Fixpoint tick_from (connect : Endpoint -> result N) (now : Z) (indices : list nat) (s : Cluster) : Cluster * list cluster_output :=
  match indices with
  | [] => (s, [])
  | i :: rest =>
      let '(s, out) := tick_peer connect now i s in
      let '(s, more) := tick_from connect now rest s in
      (s, out ++ more)
  end.

Definition tick (connect : Endpoint -> result N) (now : Z) (s : Cluster) : Cluster * list cluster_output :=
  tick_from connect now (seq 0 (length (peers s))) s.

(** [directory.renew(service, index + 1, 2s)] for each service: an exception leaves the
    services already renewed. *)
Fixpoint renew_all (names : list bytes) (p : N) (clock : nat -> Z) (d : gmap bytes (list ServiceEntry)) : gmap bytes (list ServiceEntry) :=
  match names with
  | [] => d
  | service :: rest =>
      match renew service p (ms 2000) (clock 0%nat) d with
      | Ok d' => renew_all rest p (fun n => clock (S n)) d'
      | Throw _ => d
      end
  end.

(** The reply to a health probe. *)
Definition probe_replied (b : Probe) (r : Result) (alive : bool) (clock : nat -> Z) (s : Cluster) : Cluster * list cluster_output :=
  if negb alive || closing s then (s, [])
  else
    match peers s !! probe_index b with
    | None => (s, [])
    | Some p =>
        if negb (connection p =? probe_connection b) then (s, [])
        else if negb (bool_decide (rstatus r = ok)) || negb (bytes_eqb (rdata r) (lit "ready"))
        then failed (probe_index b) (probe_connection b) (clock 0%nat) s
        else
          (MkCluster (<[probe_index b := MkPeer (pendpoint p) (connection p) false 0 (clock 0%nat + ms 1000)]> (peers s))
             (renew_all (services (pendpoint p)) (N.of_nat (probe_index b) + 1) (fun n => clock (S n)) (directory s)) (closing s), [])
    end.

Definition available (service entity : bytes) (now : Z) (s : Cluster) : bool :=
  match locate service entity now (directory s) with Some _ => true | None => false end.

(** [call(...)]; [clock 0] is read for the deadline. *)
Definition call (service entity route data : bytes) (timeout_ms : Z) (reply : N) (idempotent : bool) (clock : nat -> Z) (s : Cluster)
  : result (Cluster * list cluster_output) :=
  throw_if (timeout_ms <=? 0)%Z as invalid_argument ;;
  Ok (attempt service entity route data (clock 0%nat + ms timeout_ms) reply idempotent (fun n => clock (S n)) s).

(** The destructor. *)
Definition close_cluster (s : Cluster) : Cluster * list cluster_output :=
  (MkCluster (peers s) (directory s) true,
   flat_map (fun p => if connection p =? 0 then [] else [dropped (connection p)]) (peers s)).
