(* ===== verification/ClusterCorrect.v ===== *)
(** * The client mesh is correct

    Every call is answered exactly once and sent at most once, or twice when the caller
    said it is idempotent; calls go only to peers that answered their last health probe. *)

From stdpp Require Import gmap.
From S2P Require Import Prelude OrderedMap Identity Values AttributeWire Messages Fields TimerState DeliveryState Records Storage StorageCorrect Programs TimerIndex Directory DirectoryCorrect Transport Cluster.

(** ** The mesh with its environment

    Attempts and probes in flight, the calls submitted (with whether they are
    idempotent), answered and sent, and whether the object is alive. *)

Definition answers (out : list cluster_output) : list N := omap (fun o => match o with answered n _ => Some n | _ => None end) out.
Definition attempts (out : list cluster_output) : list Attempt := omap (fun o => match o with called a _ => Some a | _ => None end) out.
Definition probes (out : list cluster_output) : list Probe := omap (fun o => match o with probed p => Some p | _ => None end) out.

Lemma answers_app a b : answers (a ++ b) = answers a ++ answers b.
Proof. apply omap_app. Qed.
Lemma attempts_app a b : attempts (a ++ b) = attempts a ++ attempts b.
Proof. apply omap_app. Qed.

Record csys := MkClusterSys {
  cluster : Cluster; alive : bool; attempting : list Attempt; probes_out : list Probe;
  requested : list (N * bool); replied_names : list N; sent_names : list N }.

Definition advance (x : csys) (inflight : list Attempt) (pending : list Probe) (s : Cluster) (out : list cluster_output) : csys :=
  MkClusterSys s (alive x) (inflight ++ attempts out) (pending ++ probes out) (requested x) (replied_names x ++ answers out)
    (sent_names x ++ map areply (attempts out)).

Definition requests (x : csys) (reply : N) (idempotent : bool) : csys :=
  MkClusterSys (cluster x) (alive x) (attempting x) (probes_out x) ((reply, idempotent) :: requested x) (replied_names x) (sent_names x).

Inductive cluster_step : csys -> csys -> Prop :=
  | cs_call x service entity route data timeout_ms reply idempotent clock s' out :
      alive x = true -> reply ∉ map fst (requested x) ->
      call service entity route data timeout_ms reply idempotent clock (cluster x) = Ok (s', out) ->
      cluster_step x (advance (requests x reply idempotent) (attempting x) (probes_out x) s' out)
  | cs_reply x l1 l2 a r clock s' out : attempting x = l1 ++ a :: l2 -> call_replied a r (alive x) clock (cluster x) = (s', out) ->
      cluster_step x (advance x (l1 ++ l2) (probes_out x) s' out)
  | cs_tick x connect now i s' out : alive x = true -> (forall e c, connect e = Ok c -> c <> 0) ->
      tick_peer connect now i (cluster x) = (s', out) -> cluster_step x (advance x (attempting x) (probes_out x) s' out)
  | cs_probe x l1 l2 b r clock s' out : probes_out x = l1 ++ b :: l2 -> probe_replied b r (alive x) clock (cluster x) = (s', out) ->
      cluster_step x (advance x (attempting x) (l1 ++ l2) s' out)
  | cs_close x s' out : alive x = true -> close_cluster (cluster x) = (s', out) -> cluster_step x (advance x (attempting x) (probes_out x) s' out)
  | cs_gone x : closing (cluster x) = true ->
      cluster_step x (MkClusterSys (cluster x) false (attempting x) (probes_out x) (requested x) (replied_names x) (sent_names x)).

Definition cluster_start (endpoints : list Endpoint) (x : csys) : Prop :=
  exists s, cluster_client endpoints = Ok s /\ x = MkClusterSys s true [] [] [] [] [].

(** ** The directory lists only peers that are ready *)

Definition ready_peer (s : Cluster) (service : bytes) (slot : N) : Prop :=
  exists i p, slot = N.of_nat i + 1 /\ peers s !! i = Some p /\ connection p <> 0 /\ failures p = 0 /\ service ∈ services (pendpoint p).

Record mesh_ok (s : Cluster) : Prop := {
  mesh_ready : forall service e, e ∈ entries_of service (directory s) -> ready_peer s service (peer e);
  mesh_backoff : forall i p, peers s !! i = Some p -> failures p <= 6 }.

Lemma entries_remove q service d e : e ∈ entries_of service (remove q d) -> e ∈ entries_of service d /\ peer e <> q.
Proof.
  unfold remove, entries_of. rewrite lookup_fmap. destruct (d !! service) as [l|]; cbn; [|by intros ?%elem_of_nil].
  rewrite !list_elem_of_In, filter_In. intros [H1 H2]. split; [done|]. by apply negb_true_iff, N.eqb_neq in H2.
Qed.

Lemma renew_entry_elem q until l e : e ∈ renew_entry q until l -> peer e = q \/ e ∈ l.
Proof.
  induction l as [|x l IH]; cbn [renew_entry]; [intros ->%list_elem_of_singleton; by left|].
  destruct (_ =? q); intros [->|H]%elem_of_cons; [by left|right; by right|right; by left|]. destruct (IH H); [by left|right; by right].
Qed.

Lemma entries_renew service q ttl now d d' name e : renew service q ttl now d = Ok d' -> e ∈ entries_of name d' ->
  e ∈ entries_of name d \/ (name = service /\ peer e = q).
Proof.
  unfold renew. destruct (_ || _); [done|]. intros [= <-]. unfold entries_of. destruct (decide (name = service)) as [->|Hne].
  - rewrite lookup_insert_eq. cbn. intros [H|H]%renew_entry_elem; [by right|by left].
  - rewrite lookup_insert_ne by done. by left.
Qed.

Lemma entries_renew_all names q : forall clock d name e, e ∈ entries_of name (renew_all names q clock d) ->
  e ∈ entries_of name d \/ (name ∈ names /\ peer e = q).
Proof.
  induction names as [|service names IH]; intros clock d name e; cbn [renew_all]; [by left|].
  destruct (renew service q _ _ d) as [d'|] eqn:E; [|by left]. intros [H|[H1 H2]]%IH; [|right; split; [by right|done]].
  destruct (entries_renew _ _ _ _ _ _ _ _ E H) as [?|[-> ?]]; [by left|right; split; [by left|done]].
Qed.

Lemma failed_mesh i c now s : mesh_ok s -> mesh_ok (failed i c now s).1.
Proof.
  intros [H1 H2]. unfold failed. destruct (peers s !! i) as [p|] eqn:Hp; [|done]. destruct (negb _); [done|]. cbn [fst]. constructor; cbn.
  - intros service e [He Hne]%entries_remove. destruct (H1 _ _ He) as (j & q & Hj & Hq & Hrest). exists j, q. cbn. split; [done|].
    rewrite list_lookup_insert_ne; [done|]. intros ->. by rewrite Hj in Hne.
  - intros j q Hj. destruct (decide (i = j)) as [->|Hne].
    + rewrite list_lookup_insert_eq in Hj by (by eapply lookup_lt_Some). injection Hj as <-. cbn. lia.
    + rewrite list_lookup_insert_ne in Hj by done. by eapply H2.
Qed.

Lemma tick_mesh connect now i s : mesh_ok s -> mesh_ok (tick_peer connect now i s).1.
Proof.
  intros [H1 H2]. unfold tick_peer. destruct (peers s !! i) as [p|] eqn:Hp; [|done]. destruct (_ || _); [done|].
  assert (Hup : forall p', pendpoint p' = pendpoint p -> failures p' = failures p -> (connection p <> 0 -> connection p' <> 0) -> mesh_ok (with_peer s i p')).
  { intros p' E1 E2 E3. pose proof (lookup_lt_Some _ _ _ Hp) as Hlt. constructor; cbn.
    - intros service e He. destruct (H1 _ _ He) as (j & q & Hj & Hq & Hn & Hf & Hs). destruct (decide (i = j)) as [->|Hne].
      + rewrite Hp in Hq. injection Hq as <-. exists j, p'. cbn. rewrite list_lookup_insert_eq, E1, E2 by done. auto.
      + exists j, q. cbn. by rewrite list_lookup_insert_ne.
    - intros j q Hj. destruct (decide (i = j)) as [->|Hne].
      + rewrite list_lookup_insert_eq in Hj by done. injection Hj as <-. rewrite E2. by eapply H2.
      + rewrite list_lookup_insert_ne in Hj by done. by eapply H2. }
  destruct (N.eqb_spec (connection p) 0) as [E|E].
  - by destruct (connect _); apply Hup.
  - by apply Hup.
Qed.

Lemma probe_mesh b r alive clock s : mesh_ok s -> (forall p, peers s !! probe_index b = Some p -> connection p = probe_connection b -> probe_connection b <> 0) ->
  mesh_ok (probe_replied b r alive clock s).1.
Proof.
  intros Hm Hb. unfold probe_replied. destruct (_ || _); [done|]. destruct (peers s !! probe_index b) as [p|] eqn:Hp; [|done].
  destruct (N.eqb_spec (connection p) (probe_connection b)) as [E|]; [|done]. cbn [negb]. destruct (_ || _); [by apply failed_mesh|].
  pose proof (lookup_lt_Some _ _ _ Hp) as Hlt. destruct Hm as [H1 H2]. specialize (Hb p eq_refl E). constructor; cbn.
  - intros service e [He|[Hs Hq]]%entries_renew_all.
    + destruct (H1 _ _ He) as (j & q & Hj & Hq & Hn & Hf & Hs). destruct (decide (probe_index b = j)) as [<-|Hne].
      * rewrite Hp in Hq. injection Hq as <-. eexists _, _. cbn. rewrite list_lookup_insert_eq by done. split; [done|]. split; [done|]. done.
      * exists j, q. cbn. by rewrite list_lookup_insert_ne.
    + eexists _, _. cbn. rewrite list_lookup_insert_eq by done. split; [done|]. split; [done|]. cbn. by rewrite E.
  - intros j q Hj. destruct (decide (probe_index b = j)) as [<-|Hne].
    + rewrite list_lookup_insert_eq in Hj by done. injection Hj as <-. cbn. lia.
    + rewrite list_lookup_insert_ne in Hj by done. by eapply H2.
Qed.

Lemma start_mesh endpoints s : cluster_client endpoints = Ok s -> mesh_ok s.
Proof.
  unfold cluster_client. destruct (_ || _); [done|]. intros (l & Hl & [= <-])%bind_ok. constructor; cbn.
  - intros service e He. unfold entries_of in He. rewrite lookup_empty in He. by apply elem_of_nil in He.
  - assert (Hf : Forall (fun p => failures p <= 6) l); [|intros i p Hp; rewrite Forall_lookup in Hf; by eapply Hf].
    assert (H0 : Forall (fun p => failures p <= 6) ([] : list Peer)) by constructor. revert Hl H0. generalize ([] : list Peer).
    induction endpoints as [|e es IH]; intros l0; cbn [fold_result]; [by intros [= ->]|]. intros (l1 & H1 & H2)%bind_ok H0. apply (IH l1 H2).
    unfold cluster_endpoint in H1. destruct (_ || _); [done|]. injection H1 as <-. apply Forall_app. split; [done|]. by repeat constructor.
Qed.

Lemma locate_ready s service entity now slot : mesh_ok s -> locate service entity now (directory s) = Some slot -> ready_peer s service slot.
Proof. intros Hm [(e & He & <- & _) _]%locate_spec. by apply Hm. Qed.

(** ** The accounting of calls *)

Definition sends (n : N) (x : csys) : nat := count_occ N.eq_dec (sent_names x) n.

Record cluster_core (x : csys) : Prop := {
  ci_mesh : mesh_ok (cluster x);
  ci_probes : Forall (fun b => probe_connection b <> 0) (probes_out x);
  ci_alive : alive x = false -> closing (cluster x) = true;
  ci_fresh : NoDup (map fst (requested x));
  ci_first : forall a, a ∈ attempting x -> aretry a = true -> (areply a, true) ∈ requested x /\ sends (areply a) x = 1%nat;
  ci_sends : forall n (b : bool), (n, b) ∈ requested x -> (sends n x <= if b then 2 else 1)%nat;
  ci_unsent : forall n, n ∉ map fst (requested x) -> sends n x = 0%nat }.

Definition cluster_inv (x : csys) : Prop :=
  cluster_core x /\ map fst (requested x) ≡ₚ replied_names x ++ map areply (attempting x).

(** What a handler does for the one call it works on: answer it, or send it. *)
Definition settles (reply : N) (retry : bool) (out : list cluster_output) : Prop :=
  probes out = [] /\
  ((answers out = [reply] /\ attempts out = []) \/
   (answers out = [] /\ exists a, attempts out = [a] /\ areply a = reply /\ (aretry a = true -> retry = true))).

Lemma attempt_settles service entity route data until reply retry clock s : mesh_ok s ->
  (attempt service entity route data until reply retry clock s).1 = s /\
  settles reply retry (attempt service entity route data until reply retry clock s).2.
Proof.
  intros Hm. unfold attempt. destruct (locate _ _ _ _) as [slot|] eqn:El; [|split; [done|split; [done|by left]]].
  destruct (closing s); [split; [done|split; [done|by left]]|]. destruct (locate_ready _ _ _ _ _ Hm El) as (i & p & -> & Hp & _).
  replace (N.to_nat (N.of_nat i + 1 - 1)) with i by lia. rewrite Hp. destruct (_ <=? 0)%Z; [split; [done|split; [done|by left]]|].
  split; [done|]. split; [done|]. right. split; [done|]. eexists. split; [reflexivity|done].
Qed.

Lemma failed_quiet i c now s : answers (failed i c now s).2 = [] /\ attempts (failed i c now s).2 = [] /\ probes (failed i c now s).2 = [] /\
  closing (failed i c now s).1 = closing s.
Proof. unfold failed. destruct (peers s !! i); [|done]. by destruct (negb _). Qed.

Lemma replied_settles a r alive clock s : mesh_ok s ->
  mesh_ok (call_replied a r alive clock s).1 /\ closing (call_replied a r alive clock s).1 = closing s /\
  settles (areply a) false (call_replied a r alive clock s).2 /\ (attempts (call_replied a r alive clock s).2 <> [] -> aretry a = true).
Proof.
  intros Hm. unfold call_replied. destruct alive; cbn [negb]; [|split_and!; [done|done|split; [done|by left]|done]].
  set (f := if transport_failure _ then _ else _). assert (Hf : mesh_ok f.1 /\ closing f.1 = closing s /\ answers f.2 = [] /\ attempts f.2 = [] /\ probes f.2 = []).
  { unfold f. destruct (transport_failure _); [|done]. destruct (failed_quiet (aindex a) (aconnection a) (clock 0%nat) s) as (? & ? & ? & ?). split_and!; try done. by apply failed_mesh. }
  destruct f as [s1 out1]. cbn [fst snd] in Hf. destruct Hf as (M1 & C1 & A1 & T1 & P1). destruct (_ && _) eqn:Ea.
  - destruct (attempt_settles (aservice a) (aentity a) (aroute a) (adata a) (adeadline a) (areply a) false (fun n => clock (2 + n)%nat) s1 M1) as [E1 E2].
    destruct (attempt _ _ _ _ _ _ _ _ s1) as [s2 more]. cbn [fst snd] in *. subst s2. bool_prop. split_and!; [done|done| |tauto].
    unfold settles, probes. rewrite answers_app, attempts_app, A1, T1, omap_app. change (omap _ out1) with (probes out1). rewrite P1. exact E2.
  - cbn [fst snd]. unfold settles, probes. rewrite answers_app, attempts_app, A1, T1, omap_app. change (omap _ out1) with (probes out1). rewrite P1.
    split; [done|]. split; [done|]. split; [split; [done|by left]|done].
Qed.

(** A handler that answers or sends nothing keeps the invariant. *)
Lemma silent_inv x inflight pending s out :
  cluster_inv x -> mesh_ok s -> (closing (cluster x) = true -> closing s = true) -> inflight = attempting x ->
  answers out = [] -> attempts out = [] -> Forall (fun b => probe_connection b <> 0) (pending ++ probes out) ->
  cluster_inv (advance x inflight pending s out).
Proof.
  intros [[I1 I2 I3 I4 I6 I7 I8] I5] Hm Hc -> A T Hp. unfold advance. rewrite A, T. cbn [map]. rewrite !app_nil_r.
  split; [constructor; cbn; auto|done].
Qed.

(** A handler that settles a call: [x] without the call has [others] in flight. *)
Lemma settle_inv x others pending s out reply retry :
  cluster_core x -> mesh_ok s -> (closing (cluster x) = true -> closing s = true) -> settles reply retry out -> pending = probes_out x ->
  (reply :: replied_names x ++ map areply others) ≡ₚ map fst (requested x) ->
  (forall a, a ∈ others -> a ∈ attempting x) ->
  (attempts out <> [] -> exists b : bool, (reply, b) ∈ requested x /\ (S (sends reply x) <= if b then 2 else 1)%nat /\ (retry = true -> b = true /\ sends reply x = 0%nat)) ->
  cluster_inv (advance x others pending s out).
Proof.
  intros [I1 I2 I3 I4 I6 I7 I8] Hm Hc [Hp Hs] -> Hn Ho Hb. unfold advance. rewrite Hp, app_nil_r.
  destruct Hs as [[A T]|(A & a & T & Ha & Hr)]; rewrite A, T; cbn [map]; rewrite !app_nil_r.
  - split; [constructor; cbn; auto|]. cbn. rewrite <- Hn. by rewrite <- app_assoc, (Permutation_middle _ (map areply others)).
  - destruct (Hb ltac:(by rewrite T)) as (b & B1 & B2 & B3). rewrite Ha in *.
    assert (Hin : forall n, n <> reply -> count_occ N.eq_dec (sent_names x ++ [reply]) n = sends n x).
    { intros n Hne. unfold sends. rewrite count_occ_app. cbn. destruct (N.eq_dec reply n); [congruence|lia]. }
    assert (Hself : count_occ N.eq_dec (sent_names x ++ [reply]) reply = S (sends reply x)).
    { unfold sends. rewrite count_occ_app. cbn. destruct (N.eq_dec reply reply); [lia|done]. }
    assert (Hd : reply ∉ map areply others).
    { rewrite <- Hn in I4. apply NoDup_cons in I4 as [I4 _]. intros H. apply I4. apply elem_of_app. by right. }
    assert (Huniq : forall b', (reply, b') ∈ requested x -> b' = b).
    { intros b' H. apply list_elem_of_lookup in B1 as [i Hi], H as [j Hj]. pose proof (NoDup_lookup _ i j reply I4) as Hij.
      change (@map (N * bool) N fst) with (@fmap list _ (N * bool) N fst) in Hij. rewrite !list_lookup_fmap, Hi, Hj in Hij. rewrite (Hij eq_refl eq_refl), Hj in Hi. congruence. }
    split; [|cbn; rewrite <- Hn, map_app, app_assoc; cbn [map]; rewrite Ha; by rewrite (Permutation_app_comm _ [reply])].
    constructor; cbn; auto.
    + intros c [Hc'| ->%list_elem_of_singleton]%elem_of_app Hrc.
      * destruct (I6 c (Ho c Hc') Hrc) as [E1 E2]. split; [done|]. unfold sends. cbn. rewrite Hin; [done|].
        intros E. apply Hd. rewrite <- E. by apply list_elem_of_fmap_2.
      * rewrite Ha. destruct (B3 (Hr Hrc)) as [-> B4]. split; [done|]. unfold sends. cbn. by rewrite Hself, B4.
    + intros n b' Hn'. unfold sends. cbn. destruct (decide (n = reply)) as [->|Hne]; [|rewrite Hin by done; by apply I7].
      rewrite Hself. by rewrite (Huniq b' Hn').
    + intros n Hn'. unfold sends. cbn. rewrite Hin; [by apply I8|]. intros ->. apply Hn'. change reply with ((reply, b).1). by apply list_elem_of_fmap_2.
Qed.

Lemma requests_core x reply b : cluster_core x -> reply ∉ map fst (requested x) -> cluster_core (requests x reply b).
Proof.
  intros [I1 I2 I3 I4 I6 I7 I8] Hf. constructor; cbn; auto; [by constructor| | |].
  - intros a Ha Hr. destruct (I6 a Ha Hr). split; [by right|done].
  - intros n c [[= -> ->]|Hn]%elem_of_cons; [unfold sends; cbn; specialize (I8 reply Hf); unfold sends in I8; rewrite I8; lia|by apply I7].
  - intros n Hn. apply I8. intros H. apply Hn. by right.
Qed.

Lemma cluster_step_inv x y : cluster_inv x -> cluster_step x y -> cluster_inv y.
Proof.
  intros Hi H. pose proof Hi as [[I1 I2 I3 I4 I6 I7 I8] I5].
  destruct H as [x service entity route data t_ms reply idem clock s' out Ha Hf H|x l1 l2 a r clock s' out E H|x connect now i s' out Ha Hc H|x l1 l2 b r clock s' out E H|x s' out Ha H|x Hc].
  - unfold call in H. destruct (_ <=? 0)%Z; [done|].
    destruct (attempt_settles service entity route data (clock 0%nat + ms t_ms) reply idem (fun n => clock (S n)) (cluster x) I1) as [E1 E2].
    injection H as H. rewrite H in E1, E2. cbn [fst snd] in E1, E2. subst s'.
    apply (settle_inv _ _ _ _ _ reply idem); try done; [apply requests_core; [by destruct Hi|done]|cbn; by rewrite I5|].
    intros _. exists idem. cbn. unfold sends. cbn. specialize (I8 reply Hf). unfold sends in I8. rewrite I8. split; [by left|]. split; [destruct idem; lia|done].
  - destruct (replied_settles a r (alive x) clock (cluster x) I1) as (R1 & R2 & R3 & R4). rewrite H in R1, R2, R3, R4. cbn [fst snd] in *.
    apply (settle_inv _ _ _ _ _ (areply a) false); try done; [by rewrite R2| | |].
    + rewrite I5, E, !map_app. cbn [map]. by rewrite <- !Permutation_middle.
    + intros c. rewrite E. set_solver.
    + intros Ht. destruct (I6 a ltac:(rewrite E; set_solver) (R4 Ht)) as [E1 E2]. exists true. rewrite E2. done.
  - pose proof (tick_mesh connect now i (cluster x) I1) as Hm. rewrite H in Hm. unfold tick_peer in H.
    destruct (peers (cluster x) !! i) as [p|]; [|injection H as <- <-; apply silent_inv; auto; by rewrite app_nil_r].
    destruct (_ || _); [injection H as <- <-; apply silent_inv; auto; by rewrite app_nil_r|].
    destruct (if connection p =? 0 then _ else _) as [c|] eqn:Ec; injection H as <- <-; apply silent_inv; auto; [|by rewrite app_nil_r].
    apply Forall_app. split; [done|]. repeat constructor. cbn. destruct (N.eqb_spec (connection p) 0); [by eapply Hc|congruence].
  - rewrite E in I2. apply Forall_app in I2 as [I2 [I2' I2'']%Forall_cons].
    pose proof (probe_mesh b r (alive x) clock (cluster x) I1 ltac:(done)) as Hm. rewrite H in Hm. cbn [fst] in Hm.
    assert (Hq : answers out = [] /\ attempts out = [] /\ probes out = [] /\ closing s' = closing (cluster x)).
    { unfold probe_replied in H. destruct (_ || _); [by injection H as <- <-|]. destruct (peers (cluster x) !! probe_index b); [|by injection H as <- <-].
      destruct (negb _); [by injection H as <- <-|]. destruct (_ || _); [|by injection H as <- <-].
      pose proof (failed_quiet (probe_index b) (probe_connection b) (clock 0%nat) (cluster x)) as Hf. by rewrite H in Hf. }
    destruct Hq as (Q1 & Q2 & Q3 & Q4). apply silent_inv; auto; [by rewrite Q4|]. rewrite Q3, app_nil_r. by apply Forall_app.
  - injection H as <- <-. set (out := flat_map _ _). assert (Hq : answers out = [] /\ attempts out = [] /\ probes out = []).
    { unfold out. generalize (peers (cluster x)). intros l. induction l as [|p l IH]; [done|]. cbn [flat_map]. destruct (_ =? 0); [done|]. exact IH. }
    destruct Hq as (Q1 & Q2 & Q3). apply silent_inv; auto; [by destruct I1; constructor|by rewrite Q3, app_nil_r].
  - split; [by constructor|done].
Qed.

Lemma cluster_reach endpoints x y : cluster_start endpoints x -> rtc cluster_step x y -> cluster_inv y.
Proof.
  intros (s & Hs & ->) H. assert (H0 : cluster_inv (MkClusterSys s true [] [] [] [] [])).
  { split; [|done]. constructor; cbn; try done; [by eapply start_mesh|constructor|by intros a ?%elem_of_nil|by intros n b ?%elem_of_nil]. }
  induction H as [|a b c Hab _ IH]; [done|]. apply IH. by eapply cluster_step_inv.
Qed.

(** The mesh answers every call exactly once, whatever the order of calls,
    replies, probes and destruction: the calls made are those answered together with
    those in flight, none is answered twice, and a call reaches a peer at most once,
    or twice when the caller said it is idempotent. *)
Theorem cluster_answers_once endpoints x y :
  cluster_start endpoints x -> rtc cluster_step x y ->
  map fst (requested y) ≡ₚ replied_names y ++ map areply (attempting y) /\ NoDup (replied_names y) /\
  forall n (b : bool), (n, b) ∈ requested y -> (sends n y <= if b then 2 else 1)%nat.
Proof.
  intros Hs Hr. destruct (cluster_reach _ _ _ Hs Hr) as [[I1 I2 I3 I4 I6 I7 I8] I5]. split; [done|]. split; [|done].
  rewrite I5 in I4. by apply NoDup_app in I4 as [I4 _].
Qed.

(** A call is sent only to a connected peer that serves its service and
    answered its last health probe with [ready], and its timeout never runs past the
    caller's deadline. *)
Theorem cluster_calls_ready endpoints x y service entity route data until reply retry clock s' out a timeout_ms :
  cluster_start endpoints x -> rtc cluster_step x y ->
  attempt service entity route data until reply retry clock (cluster y) = (s', out) -> called a timeout_ms ∈ out ->
  exists p, peers (cluster y) !! aindex a = Some p /\ connection p = aconnection a /\ connection p <> 0 /\ failures p = 0 /\
    service ∈ services (pendpoint p) /\ (0 < timeout_ms)%Z /\ (clock 1%nat + ms timeout_ms <= until)%Z.
Proof.
  intros Hs Hr H Hin. destruct (cluster_reach _ _ _ Hs Hr) as [[I1 _ _ _ _ _ _] _]. unfold attempt in H.
  destruct (locate _ _ _ _) as [slot|] eqn:El; [|injection H as <- <-; set_solver].
  destruct (closing _); [injection H as <- <-; set_solver|].
  destruct (locate_ready _ _ _ _ _ I1 El) as (i & p & -> & Hp & Hc & Hf & Hsv). replace (N.to_nat (N.of_nat i + 1 - 1)) with i in H by lia.
  rewrite Hp in H. destruct (Z.leb_spec (trunc_ms (until - clock 1%nat)) 0) as [|Ht]; injection H as <- <-; [set_solver|].
  apply list_elem_of_singleton in Hin. injection Hin as -> ->. exists p. cbn. pose proof (trunc_ms_bounds _ Ht). split_and!; auto; lia.
Qed.

Lemma renew_all_live names q now name : forall clock d, q <> 0 -> Forall (fun s => s <> []) names -> (forall n, now < clock n + ms 2000)%Z ->
  (name ∈ names \/ live now (entries_of name d) q) -> live now (entries_of name (renew_all names q clock d)) q.
Proof.
  induction names as [|service names IH]; intros clock d Hq Hf Hc Hn; cbn [renew_all]; [destruct Hn as [Hn|]; [by apply elem_of_nil in Hn|done]|].
  apply Forall_cons in Hf as [Hs Hf]. unfold renew. rewrite (proj2 (is_empty_false service) Hs), (proj2 (N.eqb_neq q 0) Hq). cbn [orb].
  change (ms 2000 <=? 0)%Z with false. cbn iota. apply IH; [done|done|intros n; apply Hc|].
  assert (Hl : live now (entries_of service (<[service := renew_entry q (clock 0%nat + ms 2000) (default [] (d !! service))]> d)) q).
  { unfold entries_of. rewrite lookup_insert_eq. apply live_renewed, Hc. }
  destruct (decide (name = service)) as [->|Hne]; [by right|]. destruct Hn as [[->|Hn]%elem_of_cons|Hn]; [done|by left|right].
  unfold entries_of in *. by rewrite lookup_insert_ne.
Qed.

(** A peer that answers its health probe with [ready] makes each of its
    services available, for every entity, for the two seconds after the answer. *)
Theorem ready_probe_makes_available b s s' out p data clock service entity now :
  closing s = false -> peers s !! probe_index b = Some p -> connection p = probe_connection b ->
  Forall (fun name => name <> []) (services (pendpoint p)) -> service ∈ services (pendpoint p) -> data = lit "ready" ->
  (forall n, now < clock (S n) + ms 2000)%Z -> probe_replied b (MkResult ok data) true clock s = (s', out) ->
  available service entity now s' = true.
Proof.
  intros Hc Hp Hcon Hne Hs -> Ht H. unfold probe_replied in H. rewrite Hc, Hp, Hcon, N.eqb_refl in H. cbn [negb orb rstatus rdata] in H.
  rewrite bool_decide_true, bytes_eqb_refl in H by done. cbn [negb orb] in H. injection H as <- <-. unfold available. cbn.
  set (d := renew_all _ _ _ _). assert (Hl : live now (entries_of service d) (N.of_nat (probe_index b) + 1)).
  { apply renew_all_live; [lia|done|done|by left]. }
  pose proof (locate_list entity now (entries_of service d)) as H. unfold locate, entries_of in *. destruct (d !! service) as [l|]; cbn [default from_option] in *.
  - destruct (fold_left _ l _).1; [done|]. exfalso. by eapply H.
  - destruct Hl as (e & He & _). by apply elem_of_nil in He.
Qed.

(** ** Witnesses *)

Definition sample_mesh : Cluster := MkCluster [MkPeer (MkEndpoint (lit "10.0.0.1") 7000 [lit "chat"]) 0 false 0 0] ∅ false.
Definition sample_time (n : nat) : Z := ms 5000 + Z.of_nat n.
Definition sample_mesh_start : csys := MkClusterSys sample_mesh true [] [] [] [] [].
Definition sample_run (x : csys) : Prop :=
  attempting x = [] /\ replied_names x = [9] /\ requested x = [(9, true)] /\ sent_names x = [9].

Lemma cluster_answers_once_witness :
  exists y, rtc cluster_step sample_mesh_start y /\ sample_run y /\ (sends 9 y <= 2)%nat.
Proof.
  assert (Hr : exists y, rtc cluster_step sample_mesh_start y /\ sample_run y).
  { eexists. split.
    - eapply rtc_l; [eapply (cs_tick _ (fun _ => Ok 41) (ms 5000) 0); [done|by intros e c [= <-]|vm_compute; reflexivity]|].
      eapply rtc_l; [eapply (cs_probe _ [] [] _ (MkResult ok (lit "ready")) sample_time); [reflexivity|vm_compute; reflexivity]|].
      eapply rtc_l; [eapply (cs_call _ (lit "chat") (lit "room") (lit "join") [] 100 9 true sample_time); [done|by intros ?%elem_of_nil|vm_compute; reflexivity]|].
      eapply rtc_l; [eapply (cs_reply _ [] [] _ (MkResult disconnected []) sample_time); [reflexivity|vm_compute; reflexivity]|]. apply rtc_refl.
    - by vm_compute. }
  destruct Hr as (y & Hr & Hy). exists y. split; [done|]. split; [done|].
  apply (cluster_answers_once [MkEndpoint (lit "10.0.0.1") 7000 [lit "chat"]] sample_mesh_start y) with (n := 9) (b := true); [by eexists|done|].
  destruct Hy as (_ & _ & -> & _). by left.
Defined.

Lemma ready_probe_makes_available_witness :
  exists s' out, probe_replied (MkProbe 0 41) (MkResult ok (lit "ready")) true sample_time
    (MkCluster [MkPeer (MkEndpoint (lit "10.0.0.1") 7000 [lit "chat"]) 41 true 3 0] ∅ false) = (s', out) /\
    available (lit "chat") (lit "room") (ms 6999) s' = true.
Proof.
  eexists _, _. split; [reflexivity|].
  eapply (ready_probe_makes_available (MkProbe 0 41) (MkCluster [MkPeer (MkEndpoint (lit "10.0.0.1") 7000 [lit "chat"]) 41 true 3 0] ∅ false)) with (clock := sample_time);
    [reflexivity|reflexivity|reflexivity|by repeat constructor|by left|reflexivity|unfold sample_time, ms; lia|reflexivity].
Defined.

Lemma cluster_calls_ready_witness :
  exists y s' out a t, rtc cluster_step sample_mesh_start y /\
    attempt (lit "chat") (lit "room") (lit "join") [] (ms 5100) 9 false sample_time (cluster y) = (s', out) /\ called a t ∈ out /\
    exists p, peers (cluster y) !! aindex a = Some p /\ connection p <> 0.
Proof.
  assert (Hr : exists y, rtc cluster_step sample_mesh_start y /\ exists s' a t, attempt (lit "chat") (lit "room") (lit "join") [] (ms 5100) 9 false sample_time (cluster y) = (s', [called a t])).
  { eexists. split.
    - eapply rtc_l; [eapply (cs_tick _ (fun _ => Ok 41) (ms 5000) 0); [done|by intros e c [= <-]|vm_compute; reflexivity]|].
      eapply rtc_l; [eapply (cs_probe _ [] [] _ (MkResult ok (lit "ready")) sample_time); [reflexivity|vm_compute; reflexivity]|]. apply rtc_refl.
    - do 3 eexists. vm_compute. reflexivity. }
  destruct Hr as (y & Hr & s' & a & t & Ha). exists y, s', [called a t], a, t. split; [done|]. split; [done|]. split; [by left|].
  destruct (cluster_calls_ready [MkEndpoint (lit "10.0.0.1") 7000 [lit "chat"]] sample_mesh_start y (lit "chat") (lit "room") (lit "join") [] (ms 5100) 9 false sample_time s' _ a t
    ltac:(by eexists) Hr Ha ltac:(by left)) as (p & Hp & _ & Hc & _). by exists p.
Defined.
