(* ===== verification/Transfer.v ===== *)
(** * Moving an entity to another node

    [EntityTransfer] of [src/entity_transfer.cpp].  A transfer probes the destination,
    releases the entity (by the host's hand-off, or by finding the durable record of an
    earlier one) and has the destination accept the ticket of that release.

    The transport, the host and the storage executor answer by callbacks: each request
    is an output, each answer an event with its handler.  An [Operation] is never
    changed once made; [oid] is the identity of the shared object, by which a late
    callback tells a finished operation from a newer one with the same key: an operation is
    [done] exactly when it is no longer in [operations]. *)

From stdpp Require Import gmap.
From S2P Require Import Prelude OrderedMap Identity Values AttributeWire Messages Fields TimerState DeliveryState Records Storage StorageCorrect Programs TimerIndex Directory Transport.

Definition probe_route : bytes := lit "system.entity_transfer.probe".
Definition accept_route : bytes := lit "system.entity_transfer.accept".
Definition create_route : bytes := lit "system.entity_create.activate".

(** [identity(input)] *)
Definition transfer_identity (input : bytes) : result (bytes * bytes * bytes) :=
  throw_if 1024 <? size input as invalid_argument ;; decode_entity_key input.

Record Operation := MkOperation { oid : N; otype : bytes; oentity : bytes; otarget : bytes; okey : bytes; oendpoint : nat; oreply : N }.

#[global] Instance operation_eq_dec : EqDecision Operation.
Proof. solve_decision. Defined.

Record Transfer := MkTransfer {
  tendpoints : list EntityEndpoint; trequests : N; ttimeout : Z;
  operations : gmap bytes Operation; tpeers : list N; made : N; tstopped : bool }.

(** What a transport call is for. *)
Inductive phase := Probing | Confirming (ticket : N) | Activating.

Inductive transfer_output :=
  | transfer_replied (reply : N) (r : Result)
  | rpc_sent (o : Operation) (p : phase) (peer : N) (route data : bytes) (timeout_ms : Z)
  | asked_handoff (o : Operation)
  | asked_location (o : Operation)
  | peer_closed (peer : N)
  | raised (e : exn)
  | routes_unbound
  | executor_stopped.

Definition entity_transfer (endpoints : list EntityEndpoint) (requests : N) (timeout_ms : Z) : result Transfer :=
  let* _ := validate_entity_endpoints endpoints in
  throw_if (requests =? 0) || (1024 <? requests) || bad_timeout timeout_ms as invalid_argument ;;
  Ok (MkTransfer endpoints requests timeout_ms ∅ (replicate (length endpoints) 0) 0 false).

Definition with_operations (s : Transfer) (ops : gmap bytes Operation) : Transfer :=
  MkTransfer (tendpoints s) (trequests s) (ttimeout s) ops (tpeers s) (made s) (tstopped s).
Definition with_tpeers (s : Transfer) (peers : list N) : Transfer :=
  MkTransfer (tendpoints s) (trequests s) (ttimeout s) (operations s) peers (made s) (tstopped s).

Definition is_done (o : Operation) (s : Transfer) : bool :=
  match operations s !! okey o with Some o' => negb (oid o' =? oid o) | None => true end.

(** [finish(op, result)] *)
Definition finish (o : Operation) (r : Result) (s : Transfer) : Transfer * list transfer_output :=
  if is_done o s then (s, []) else (with_operations s (delete (okey o) (operations s)), [transfer_replied (oreply o) r]).

(** [send(op, route, data, reply)] *)
Definition send (o : Operation) (p : phase) (route data : bytes) (t : Transport) (s : Transfer) : Transfer * list transfer_output :=
  match tpeers s !! oendpoint o, tendpoints s !! oendpoint o with
  | Some old, Some e =>
      match usable_peer t e old with
      | Throw _ => finish o (MkResult disconnected []) s
      | Ok peer =>
          let s := with_tpeers s (<[oendpoint o := peer]> (tpeers s)) in
          if call_throws t then finish o (MkResult disconnected []) s
          else (s, [rpc_sent o p peer route data (ttimeout s)])
      end
  | _, _ => (s, [])
  end.

(** [confirm(op, ticket)]: the message, then the call. *)
Definition confirm_message (o : Operation) (ticket : N) : result bytes :=
  let* key := encode_entity_key (otype o) (oentity o) in Ok (key ++ integer ticket).

Definition confirm (o : Operation) (ticket : N) (data : bytes) (t : Transport) (s : Transfer) : Transfer * list transfer_output :=
  send o (Confirming ticket) accept_route data t s.

(** The reply to [confirm]'s call. *)
Definition confirmed (o : Operation) (r : Result) (s : Transfer) : Transfer * list transfer_output :=
  if tstopped s || is_done o s then (s, []) else finish o (MkResult (rstatus r) []) s.

(** The endpoint of [target] that serves [type]. *)
Fixpoint find_endpoint (type target : bytes) (i : nat) (l : list EntityEndpoint) : option nat :=
  match l with
  | [] => None
  | e :: l => if bytes_eqb (node e) target && existsb (bytes_eqb type) (types e) then Some i else find_endpoint type target (S i) l
  end.

(** [operations.emplace(op->key, op)] with a new operation. *)
Definition add_operation (type id target key : bytes) (endpoint : nat) (reply : N) (s : Transfer) : Operation * Transfer :=
  let o := MkOperation (made s + 1) type id target key endpoint reply in
  (o, MkTransfer (tendpoints s) (trequests s) (ttimeout s) (<[key := o]> (operations s)) (tpeers s) (made s + 1) (tstopped s)).

Definition full (key : bytes) (s : Transfer) : bool :=
  (trequests s <=? N.of_nat (base.size (operations s))) || match operations s !! key with Some _ => true | None => false end.

(** [create(type, id, target, reply)] *)
Definition create (type id target : bytes) (reply : N) (t : Transport) (s : Transfer) : Transfer * list transfer_output :=
  if tstopped s then (s, [transfer_replied reply (MkResult disconnected [])])
  else if negb (valid_entity_id id) || negb (valid_entity_node target) then (s, [transfer_replied reply (MkResult rejected [])])
  else
    match find_endpoint type target 0 (tendpoints s) with
    | None => (s, [transfer_replied reply (MkResult not_found [])])
    | Some i =>
        let key := lit "create:" ++ id in
        if full key s then (s, [transfer_replied reply (MkResult overloaded [])])
        else
          let '(o, s) := add_operation type id target key i reply s in
          match encode_entity_key type id with
          | Throw e => (s, [raised e])
          | Ok data => send o Activating create_route data t s
          end
    end.

(** The reply to [create]'s call. *)
Definition activated (o : Operation) (r : Result) (s : Transfer) : Transfer * list transfer_output := finish o r s.

(** [start(type, id, target, reply)]; [owner] is the host's owner identity. *)
Definition start (type id target : bytes) (reply : N) (owner : bytes) (t : Transport) (s : Transfer) : Transfer * list transfer_output :=
  if tstopped s then (s, [transfer_replied reply (MkResult disconnected [])])
  else
    match encode_entity_key type id with
    | Throw _ => (s, [transfer_replied reply (MkResult rejected [])])
    | Ok data =>
        if negb (valid_entity_node target) || entity_node_matches owner target then (s, [transfer_replied reply (MkResult rejected [])])
        else
          match find_endpoint type target 0 (tendpoints s) with
          | None => (s, [transfer_replied reply (MkResult not_found [])])
          | Some i =>
              let key := type ++ [x00] ++ id in
              if full key s then (s, [transfer_replied reply (MkResult overloaded [])])
              else
                let '(o, s) := add_operation type id target key i reply s in
                send o Probing probe_route data t s
          end
    end.

(** [release(op)]; [resident] is whether the host has an active handle, [accepted] whether
    the executor takes the lookup. *)
Definition release (o : Operation) (resident accepted : bool) (s : Transfer) : Transfer * list transfer_output :=
  if resident then (s, [asked_handoff o])
  else if accepted then (s, [asked_location o])
  else finish o (MkResult overloaded []) s.

(** The reply to the probe. *)
Definition probe_replied (o : Operation) (r : Result) (resident accepted : bool) (s : Transfer) : Transfer * list transfer_output :=
  if tstopped s || is_done o s then (s, [])
  else if negb (bool_decide (rstatus r = ok)) then finish o r s
  else if negb (bytes_eqb (rdata r) (otarget o)) then finish o (MkResult rejected []) s
  else release o resident accepted s.

(** The host's answer to the hand-off: its data is the ticket. *)
Definition handed_off (o : Operation) (r : Result) (t : Transport) (s : Transfer) : Transfer * list transfer_output :=
  if tstopped s || is_done o s then (s, [])
  else if negb (bool_decide (rstatus r = ok)) then finish o r s
  else
    match read_integer (rdata r) with
    | Throw _ => finish o (MkResult internal []) s
    | Ok (ticket, rest) =>
        if negb (is_empty rest) || (ticket =? 0) then finish o (MkResult internal []) s
        else match confirm_message o ticket with
             | Throw _ => finish o (MkResult internal []) s
             | Ok data => confirm o ticket data t s
             end
    end.

(** The durable location of the entity, or an error. *)
Definition released (o : Operation) (location : result (option EntityLocation)) (t : Transport) (s : Transfer) : Transfer * list transfer_output :=
  if tstopped s || is_done o s then (s, [])
  else
    match location with
    | Throw _ => finish o (MkResult internal []) s
    | Ok None => finish o (MkResult not_found []) s
    | Ok (Some l) =>
        if negb (bytes_eqb (location_placement l) (otarget o)) || (location_transfer_id l =? 0) then finish o (MkResult rejected []) s
        else match confirm_message o (location_transfer_id l) with
             | Throw e => (s, [raised e])
             | Ok data => confirm o (location_transfer_id l) data t s
             end
    end.

Definition pending (s : Transfer) : nat := base.size (operations s).

Definition finish_all (ops : list Operation) (s : Transfer) : Transfer * list transfer_output :=
  fold_left (fun st o => let '(s, out) := finish o (MkResult disconnected []) st.1 in (s, st.2 ++ out)) ops (s, []).

(** [stop()] *)
Definition stop (s : Transfer) : Transfer * list transfer_output :=
  if tstopped s then (s, [])
  else
    let s := MkTransfer (tendpoints s) (trequests s) (ttimeout s) (operations s) (tpeers s) (made s) true in
    let '(s, out) := finish_all (map snd (map_to_list (operations s))) s in
    (s, [routes_unbound] ++ out ++ flat_map (fun p => if p =? 0 then [] else [peer_closed p]) (tpeers s) ++ [executor_stopped]).

(** ** The routes of the destination

    The handlers bound by the constructor.  [trusted] is what [trust(who)] returns or
    throws; the host's own answers are its parameters. *)

Definition create_request (stopped : bool) (trusted : result bool) (data : bytes) : Result + bytes * bytes :=
  if stopped then inl (MkResult disconnected [])
  else
    match trusted with
    | Throw _ | Ok false => inl (MkResult rejected [])
    | Ok true =>
        match transfer_identity data with
        | Throw _ => inl (MkResult rejected [])
        | Ok (type, id, rest) =>
            if negb (is_empty rest) || negb (valid_entity_id id) then inl (MkResult rejected []) else inr (type, id)
        end
    end.

Definition before_slash (owner : bytes) : bytes :=
  (fix go (l : bytes) : bytes := match l with [] => [] | c :: l => if Byte.eqb c x2f then [] else c :: go l end) owner.

Definition probe_request (stopped : bool) (trusted : result bool) (accepts : bytes -> bytes -> result bool) (owner data : bytes) : Result :=
  if stopped then MkResult disconnected []
  else
    match trusted with
    | Throw _ | Ok false => MkResult rejected []
    | Ok true =>
        match transfer_identity data with
        | Throw _ => MkResult rejected []
        | Ok (type, id, rest) =>
            if negb (is_empty rest) then MkResult rejected []
            else match accepts type id with
                 | Throw _ => MkResult rejected []
                 | Ok false => MkResult overloaded []
                 | Ok true => MkResult ok (before_slash owner)
                 end
        end
    end.

Definition accept_request (stopped : bool) (trusted : result bool) (data : bytes) : Result + bytes * bytes * N :=
  if stopped then inl (MkResult disconnected [])
  else
    match trusted with
    | Throw _ | Ok false => inl (MkResult rejected [])
    | Ok true =>
        match (let* '(type, id, rest) := transfer_identity data in
               let* '(ticket, rest) := read_integer rest in Ok (type, id, ticket, rest)) with
        | Throw _ => inl (MkResult rejected [])
        | Ok (type, id, ticket, rest) =>
            if negb (is_empty rest) || (ticket =? 0) then inl (MkResult rejected []) else inr (type, id, ticket)
        end
    end.
