(* ===== verification/TransferCorrect.v ===== *)
(** * Entity transfers are correct

    Every transfer is answered exactly once and never stuck; the destination is asked to
    accept a ticket only after it answered the probe with its own name and the entity
    was durably released to it under that ticket. *)

From stdpp Require Import gmap.
From S2P Require Import Prelude MapSum OrderedMap Identity Values AttributeWire AttributeCodec Messages MessagesCorrect Fields TimerState DeliveryState DeliveryCorrect Records Storage StorageCorrect Programs TimerIndex Directory DirectoryCorrect Transport Transfer.

(** ** Outputs *)

(** What an operation waits for. *)
Inductive waiting := wait_rpc (p : phase) | wait_handoff | wait_location.

Definition transfer_replies (out : list transfer_output) : list N := omap (fun o => match o with transfer_replied n _ => Some n | _ => None end) out.
Definition waits (out : list transfer_output) : list (Operation * waiting) :=
  omap (fun o => match o with
                 | rpc_sent op p _ _ _ _ => Some (op, wait_rpc p) | asked_handoff op => Some (op, wait_handoff)
                 | asked_location op => Some (op, wait_location) | _ => None end) out.

Definition same_service (s s' : Transfer) : Prop :=
  tendpoints s' = tendpoints s /\ trequests s' = trequests s /\ length (tpeers s') = length (tpeers s) /\ made s' = made s /\ tstopped s' = tstopped s.

(** What a handler does to the operation it is about. *)
Inductive op_effect (s : Transfer) (o : Operation) : Transfer -> list transfer_output -> Prop :=
  | oe_none : is_done o s = true \/ tstopped s = true -> op_effect s o s []
  | oe_finish s' out : is_done o s = false -> same_service s s' -> operations s' = delete (okey o) (operations s) ->
      transfer_replies out = [oreply o] -> waits out = [] -> op_effect s o s' out
  | oe_wait w s' out : is_done o s = false -> same_service s s' -> operations s' = operations s ->
      transfer_replies out = [] -> waits out = [(o, w)] -> op_effect s o s' out.

(** The states in which an operation's endpoint has a peer slot. *)
Definition slots (s : Transfer) : Prop := length (tpeers s) = length (tendpoints s).

Lemma finish_op o r s : op_effect s o (finish o r s).1 (finish o r s).2.
Proof. unfold finish. destruct (is_done o s) eqn:E; [apply oe_none; by left|]. by apply oe_finish. Qed.

Lemma send_op o p route data t s : is_done o s = false -> slots s -> (oendpoint o < length (tendpoints s))%nat ->
  op_effect s o (send o p route data t s).1 (send o p route data t s).2 /\
  (forall w, waits (send o p route data t s).2 = [(o, w)] -> w = wait_rpc p).
Proof.
  intros Hd Hs Hi. unfold send. destruct (lookup_lt_is_Some_2 (tendpoints s) _ Hi) as [e He].
  destruct (lookup_lt_is_Some_2 (tpeers s) (oendpoint o)) as [old Ho]; [by rewrite Hs|]. rewrite He, Ho.
  assert (Hf : forall s1, same_service s s1 -> operations s1 = operations s ->
    op_effect s o (finish o (MkResult disconnected []) s1).1 (finish o (MkResult disconnected []) s1).2 /\
    forall w, waits (finish o (MkResult disconnected []) s1).2 = [(o, w)] -> w = wait_rpc p).
  { intros s1 H1 H2. assert (Hd1 : is_done o s1 = false) by (unfold is_done in *; by rewrite H2). unfold finish. rewrite Hd1.
    split; [|done]. apply oe_finish; try done. cbn. by rewrite H2. }
  destruct (usable_peer t e old) as [peer|]; [|by apply Hf].
  assert (Hw : same_service s (with_tpeers s (<[oendpoint o := peer]> (tpeers s)))).
  { unfold same_service. cbn. by rewrite length_insert. }
  destruct (call_throws t); [by apply Hf|]. split; [|by intros w [= <-]]. by eapply oe_wait.
Qed.

Lemma find_endpoint_spec type target l : forall i j, find_endpoint type target i l = Some j ->
  exists e, l !! (j - i)%nat = Some e /\ (i <= j)%nat /\ node e = target /\ type ∈ types e.
Proof.
  induction l as [|e l IH]; intros i j; cbn [find_endpoint]; [done|]. destruct (_ && _) eqn:E.
  - intros [= <-]. exists e. rewrite Nat.sub_diag. apply andb_true_iff in E as [E1%bytes_eqb_eq E2]. split_and!; auto.
    apply existsb_exists in E2 as (x & H1 & H2%bytes_eqb_eq). subst x. by apply list_elem_of_In.
  - intros (x & H1 & H2 & H3)%IH. exists x. replace (j - i)%nat with (S (j - S i)) by lia. split; [done|]. split; [lia|done].
Qed.

(** ** The service with its environment *)

(** [vouched]: operations whose destination answered the probe with its name; [tickets]:
    durable releases reported for an operation; [accepts]: the accept messages sent. *)
Record tsys := MkTransferSys {
  service : Transfer; inflight : list (Operation * waiting);
  started : list N; finished : list N; vouched : list N; tickets : list (N * N); accepts : list (Operation * N) }.

Definition confirms (l : list (Operation * waiting)) : list (Operation * N) :=
  omap (fun x => match x.2 with wait_rpc (Confirming t) => Some (x.1, t) | _ => None end) l.

Definition next_sys (x : tsys) (flight : list (Operation * waiting)) (v : list N) (k : list (N * N)) (s : Transfer) (out : list transfer_output) : tsys :=
  MkTransferSys s (flight ++ waits out) (started x) (finished x ++ transfer_replies out) (v ++ vouched x) (k ++ tickets x)
    (accepts x ++ confirms (waits out)).

Definition submits (x : tsys) (reply : N) : tsys :=
  MkTransferSys (service x) (inflight x) (reply :: started x) (finished x) (vouched x) (tickets x) (accepts x).

(** The destination answered the probe with its name; the host, or the storage, reports a
    durable release to the destination. *)
Definition vouches (o : Operation) (r : Result) : list N :=
  if bool_decide (rstatus r = ok) && bytes_eqb (rdata r) (otarget o) then [oid o] else [].
Definition handoff_ticket (o : Operation) (r : Result) : list (N * N) :=
  match rstatus r, read_integer (rdata r) with ok, Ok (n, []) => [(oid o, n)] | _, _ => [] end.
Definition stored_ticket (o : Operation) (location : result (option EntityLocation)) : list (N * N) :=
  match location with Ok (Some l) => if bytes_eqb (location_placement l) (otarget o) then [(oid o, location_transfer_id l)] else [] | _ => [] end.

Inductive transfer_step : tsys -> tsys -> Prop :=
  | ts_start x type id target reply owner t s' out : reply ∉ started x -> start type id target reply owner t (service x) = (s', out) ->
      transfer_step x (next_sys (submits x reply) (inflight x) [] [] s' out)
  | ts_create x type id target reply t s' out : reply ∉ started x -> create type id target reply t (service x) = (s', out) ->
      transfer_step x (next_sys (submits x reply) (inflight x) [] [] s' out)
  | ts_probe x l1 l2 o r resident accepted s' out : inflight x = l1 ++ (o, wait_rpc Probing) :: l2 ->
      probe_replied o r resident accepted (service x) = (s', out) -> transfer_step x (next_sys x (l1 ++ l2) (vouches o r) [] s' out)
  | ts_handoff x l1 l2 o r t s' out : inflight x = l1 ++ (o, wait_handoff) :: l2 -> handed_off o r t (service x) = (s', out) ->
      transfer_step x (next_sys x (l1 ++ l2) [] (handoff_ticket o r) s' out)
  | ts_location x l1 l2 o location t s' out : inflight x = l1 ++ (o, wait_location) :: l2 -> released o location t (service x) = (s', out) ->
      transfer_step x (next_sys x (l1 ++ l2) [] (stored_ticket o location) s' out)
  | ts_confirmed x l1 l2 o n r s' out : inflight x = l1 ++ (o, wait_rpc (Confirming n)) :: l2 -> confirmed o r (service x) = (s', out) ->
      transfer_step x (next_sys x (l1 ++ l2) [] [] s' out)
  | ts_activated x l1 l2 o r s' out : inflight x = l1 ++ (o, wait_rpc Activating) :: l2 -> activated o r (service x) = (s', out) ->
      transfer_step x (next_sys x (l1 ++ l2) [] [] s' out)
  | ts_stop x s' out : stop (service x) = (s', out) -> transfer_step x (next_sys x (inflight x) [] [] s' out).

(** ** The invariant *)

Abbreviation op_names := (mnames oreply).

(** The operations the service, or a callback in flight, refers to. *)
Definition knows (x : tsys) (o : Operation) : Prop := operations (service x) !! okey o = Some o \/ exists w, (o, w) ∈ inflight x.

(** An operation made for an endpoint of its destination. *)
Definition aimed (s : Transfer) (o : Operation) : Prop :=
  oid o <= made s /\ exists e, tendpoints s !! oendpoint o = Some e /\ node e = otarget o /\ otype o ∈ types e.

(** What has happened before an operation waits for [w]. *)
Definition earned (x : tsys) (o : Operation) (w : waiting) : Prop :=
  match w with
  | wait_rpc Probing => key_ok (otype o) (oentity o) = true
  | wait_handoff | wait_location => key_ok (otype o) (oentity o) = true /\ oid o ∈ vouched x
  | wait_rpc (Confirming n) => oid o ∈ vouched x /\ (oid o, n) ∈ tickets x /\ n <> 0
  | wait_rpc Activating => True
  end.

(** Every pending operation waits for something, [skip] apart, or its creation message could
    not be built. *)
Record transfer_core (skip : option Operation) (x : tsys) : Prop := {
  ti_slots : slots (service x);
  ti_keys : forall k o, operations (service x) !! k = Some o -> okey o = k;
  ti_aimed : forall o, knows x o -> aimed (service x) o;
  ti_same : forall o o', knows x o -> knows x o' -> oid o = oid o' -> o = o';
  ti_stopped : tstopped (service x) = true -> operations (service x) = ∅;
  ti_names : started x ≡ₚ finished x ++ op_names (operations (service x));
  ti_limit : N.of_nat (base.size (operations (service x))) <= trequests (service x);
  ti_waits : forall k o, operations (service x) !! k = Some o -> Some o <> skip -> (exists w, (o, w) ∈ inflight x) \/ key_ok (otype o) (oentity o) = false;
  ti_earned : forall o w, (o, w) ∈ inflight x -> earned x o w;
  ti_accepts : forall o n, (o, n) ∈ accepts x -> aimed (service x) o /\ oid o ∈ vouched x /\ (oid o, n) ∈ tickets x /\ n <> 0 }.

Definition transfer_inv : tsys -> Prop := transfer_core None.

Lemma live_op skip x o : transfer_core skip x -> knows x o -> is_done o (service x) = false -> operations (service x) !! okey o = Some o.
Proof.
  intros Hi Hk Hd. unfold is_done in Hd. destruct (operations (service x) !! okey o) as [o'|] eqn:E; [|done].
  apply negb_false_iff, N.eqb_eq in Hd. f_equal. apply (ti_same _ x Hi); [left; by rewrite (ti_keys _ x Hi _ _ E)|done|done].
Qed.

(** [x] without the token an event consumes. *)
Definition without (x : tsys) (flight : list (Operation * waiting)) : tsys :=
  MkTransferSys (service x) flight (started x) (finished x) (vouched x) (tickets x) (accepts x).

Lemma without_core x l1 l2 o w : transfer_inv x -> inflight x = l1 ++ (o, w) :: l2 -> transfer_core (Some o) (without x (l1 ++ l2)) /\ knows x o /\ earned x o w.
Proof.
  intros [I1 I2 I3 I4 I5 I6 I7 I8 I9 I10] E.
  assert (Hk : forall p, knows (without x (l1 ++ l2)) p -> knows x p).
  { intros p [H|[u H]]; [by left|right]. exists u. rewrite E. cbn in H. set_solver. }
  assert (Hin : (o, w) ∈ inflight x) by (rewrite E; set_solver). split; [|split; [right; by exists w|by apply I9]].
  constructor; cbn; auto.
  - intros k p H Hne. destruct (I8 k p H ltac:(done)) as [[u Hu]|]; [left|by right]. exists u. rewrite E in Hu. set_solver.
  - intros p u H. apply I9. rewrite E. set_solver.
Qed.

Lemma earned_mono x flight v k s out o w : earned x o w -> earned (next_sys x flight v k s out) o w.
Proof. destruct w as [[]| |]; cbn; try done; set_solver. Qed.

Lemma aimed_same s s' o : same_service s s' -> aimed s o -> aimed s' o.
Proof. intros (E1 & _ & _ & E2 & _) [H1 H2]. unfold aimed. by rewrite E1, E2. Qed.

(** An event that settles [o], or has it wait again. *)
Lemma settle_op x o v k s' out :
  transfer_core (Some o) x -> (is_done o (service x) = false -> operations (service x) !! okey o = Some o) ->
  op_effect (service x) o s' out ->
  (forall w, waits out = [(o, w)] -> earned (next_sys x (inflight x) v k s' out) o w) ->
  transfer_inv (next_sys x (inflight x) v k s' out).
Proof.
  intros Hi Ho He Hw. pose proof Hi as [I1 I2 I3 I4 I5 I6 I7 I8 I9 I10].
  destruct He as [Hd|s' out Hd Hs Hops Hr Hwt|w s' out Hd Hs Hops Hr Hwt].
  - unfold next_sys. cbn. rewrite !app_nil_r. constructor; cbn; auto.
    + intros kk p H _. apply (I8 kk p H). intros [= ->]. destruct Hd as [Hd|Hd]; [|by rewrite I5, lookup_empty in H].
      unfold is_done in Hd. rewrite (I2 _ _ H), H, N.eqb_refl in Hd. done.
    + intros p u H. apply (earned_mono x (inflight x) v k (service x) []). by apply I9.
    + intros p n H. destruct (I10 p n H) as (? & ? & ? & ?). split_and!; auto; set_solver.
  - specialize (Ho Hd). destruct Hs as (E1 & E2 & E3 & E4 & E5). unfold next_sys. rewrite Hr, Hwt. cbn [confirms omap list_omap]. rewrite !app_nil_r.
    assert (Hk : forall p, knows (MkTransferSys s' (inflight x) (started x) (finished x ++ [oreply o]) (v ++ vouched x) (k ++ tickets x) (accepts x)) p -> knows x p).
    { intros p [H|H]; [left|by right]. cbn in H. rewrite Hops in H. by apply lookup_delete_Some in H as [_ H]. }
    constructor; cbn.
    + unfold slots. by rewrite E1, E3.
    + intros kk p. rewrite Hops. intros [_ H]%lookup_delete_Some. by apply I2.
    + intros p H. apply (aimed_same (service x)); [done|]. by apply I3, Hk.
    + intros p q H1 H2. apply I4; by apply Hk.
    + rewrite E5. intros H. by rewrite Hops, I5, delete_empty.
    + rewrite I6, Hops, (mnames_delete _ _ _ Ho). by rewrite <- app_assoc.
    + rewrite Hops, E2, map_size_delete, Ho. lia.
    + intros kk p. rewrite Hops. intros [Hne H]%lookup_delete_Some _. apply (I8 kk p H). intros [= ->]. by apply Hne, I2.
    + intros p u H. apply (earned_mono x (inflight x) v k (service x) []). by apply I9.
    + intros p n H. destruct (I10 p n H) as (Ha & ? & ? & ?). split; [by apply (aimed_same (service x))|]. split_and!; auto; set_solver.
  - specialize (Ho Hd). specialize (Hw w Hwt). destruct Hs as (E1 & E2 & E3 & E4 & E5). assert (Hse : same_service (service x) s') by done.
    unfold next_sys in *. rewrite Hr, Hwt in *. rewrite app_nil_r in *.
    assert (Hko : knows x o) by by left.
    assert (Hk : forall p, knows (MkTransferSys s' (inflight x ++ [(o, w)]) (started x) (finished x) (v ++ vouched x) (k ++ tickets x) (accepts x ++ confirms [(o, w)])) p -> knows x p).
    { intros p [H|[u H]]; cbn in H; [left; congruence|]. apply elem_of_app in H as [H|H%list_elem_of_singleton]; [right; by exists u|]. by injection H as -> ->. }
    constructor; cbn [service inflight started finished vouched tickets accepts]; rewrite ?Hops.
    + unfold slots. by rewrite E1, E3.
    + exact I2.
    + intros p H. apply (aimed_same (service x)); [done|]. by apply I3, Hk.
    + intros p q H1 H2. apply I4; by apply Hk.
    + rewrite E5. intros H. by rewrite I5.
    + exact I6.
    + by rewrite E2.
    + intros kk p H _. destruct (decide (p = o)) as [->|Hne]; [left; exists w; set_solver|].
      destruct (I8 kk p H ltac:(congruence)) as [[u Hu]|]; [left; exists u; set_solver|by right].
    + intros p u [H|H%list_elem_of_singleton]%elem_of_app; [|injection H as -> ->; exact Hw].
      apply (earned_mono x (inflight x) v k (service x) []). by apply I9.
    + intros p n [H|H]%elem_of_app.
      * destruct (I10 p n H) as (Ha & ? & ? & ?). split; [by apply (aimed_same (service x))|]. split_and!; auto; set_solver.
      * destruct w as [[|m|]| |]; cbn in H; try (by apply elem_of_nil in H). apply list_elem_of_singleton in H. injection H as -> ->.
        split; [apply (aimed_same (service x)); [done|by apply I3]|exact Hw].
Qed.

(** ** Steps *)

Lemma stop_or_done o s : tstopped s || is_done o s = true -> is_done o s = true \/ tstopped s = true.
Proof. intros [H|H]%orb_true_iff; auto. Qed.

Lemma key_message o n data : confirm_message o n = Ok data <-> key_ok (otype o) (oentity o) = true /\ data = wire_key (otype o) (oentity o) ++ integer n.
Proof.
  unfold confirm_message. split.
  - intros (key & [Hk ->]%encode_key_ok & H)%bind_ok. split; [done|congruence].
  - intros [Hk ->]. by rewrite (proj2 (encode_key_ok _ _ _) (conj Hk eq_refl)).
Qed.

(** A handler that finishes, or confirms a ticket. *)
Lemma confirm_effect o n data t s : is_done o s = false -> slots s -> aimed s o ->
  op_effect s o (confirm o n data t s).1 (confirm o n data t s).2 /\ forall w, waits (confirm o n data t s).2 = [(o, w)] -> w = wait_rpc (Confirming n).
Proof. intros Hd Hs (_ & e & He & _). apply send_op; [done|done|by eapply lookup_lt_Some]. Qed.

Lemma finish_any (P : waiting -> Prop) o r s s' out : finish o r s = (s', out) -> op_effect s o s' out /\ forall w, waits out = [(o, w)] -> P w.
Proof. intros H. pose proof (finish_op o r s) as He. rewrite H in He. split; [done|]. unfold finish in H. destruct (is_done o s); by injection H as <- <-. Qed.

Lemma probe_effect o r resident accepted s s' out : probe_replied o r resident accepted s = (s', out) ->
  op_effect s o s' out /\ forall w, waits out = [(o, w)] -> vouches o r = [oid o] /\ (w = wait_handoff \/ w = wait_location).
Proof.
  unfold probe_replied. destruct (_ || _) eqn:E1; [intros [= <- <-]; split; [apply oe_none, stop_or_done, E1|done]|].
  apply orb_false_iff in E1 as [_ Hd]. unfold vouches. destruct (bool_decide _); cbn [negb andb]; [|apply finish_any]. destruct (bytes_eqb _ _); cbn [negb]; [|apply finish_any].
  unfold release. destruct resident; [intros [= <- <-]|destruct accepted; [intros [= <- <-]|apply finish_any]].
  - split; [by apply (oe_wait _ _ wait_handoff)|]. intros w [= <-]. auto.
  - split; [by apply (oe_wait _ _ wait_location)|]. intros w [= <-]. auto.
Qed.

Lemma handoff_effect o r t s s' out : slots s -> aimed s o -> handed_off o r t s = (s', out) ->
  op_effect s o s' out /\ forall w, waits out = [(o, w)] -> exists n, w = wait_rpc (Confirming n) /\ n <> 0 /\ handoff_ticket o r = [(oid o, n)].
Proof.
  intros Hs Ha. unfold handed_off. destruct (_ || _) eqn:E1; [intros [= <- <-]; split; [apply oe_none, stop_or_done, E1|done]|].
  apply orb_false_iff in E1 as [_ Hd]. unfold handoff_ticket.
  destruct (bool_decide_reflect (rstatus r = ok)) as [->|]; cbn [negb]; [|apply finish_any].
  destruct (read_integer (rdata r)) as [[n rest]|]; [|apply finish_any]. destruct (negb (is_empty rest) || (n =? 0)) eqn:E2; [apply finish_any|].
  destruct (confirm_message o n) as [data|]; [|apply finish_any]. intros H. destruct (confirm_effect o n data t s Hd Hs Ha) as [C1 C2]. rewrite H in C1, C2.
  split; [done|]. intros w Hw. exists n. apply orb_false_iff in E2 as [E2 E3%N.eqb_neq]. apply negb_false_iff in E2. destruct rest; [|done]. split; [by apply C2|done].
Qed.

Lemma released_effect o l t s s' out : slots s -> aimed s o -> key_ok (otype o) (oentity o) = true -> released o l t s = (s', out) ->
  op_effect s o s' out /\ forall w, waits out = [(o, w)] -> exists n, w = wait_rpc (Confirming n) /\ n <> 0 /\ stored_ticket o l = [(oid o, n)].
Proof.
  intros Hs Ha Hk. unfold released. destruct (_ || _) eqn:E1; [intros [= <- <-]; split; [apply oe_none, stop_or_done, E1|done]|].
  apply orb_false_iff in E1 as [_ Hd]. unfold stored_ticket. destruct l as [[l|]|]; [|apply finish_any|apply finish_any]. destruct (bytes_eqb _ _); cbn [negb orb]; [|apply finish_any].
  destruct (N.eqb_spec (location_transfer_id l) 0); [apply finish_any|]. rewrite (proj2 (key_message _ _ _) (conj Hk eq_refl)).
  intros H. destruct (confirm_effect o (location_transfer_id l) (wire_key (otype o) (oentity o) ++ integer (location_transfer_id l)) t s Hd Hs Ha) as [C1 C2].
  rewrite H in C1, C2. split; [done|]. intros w Hw. exists (location_transfer_id l). split; [by apply C2|done].
Qed.

(** The state in which [start] and [create] send: the operation is new. *)
Lemma added_core x type id target key i e reply : transfer_inv x -> tstopped (service x) = false -> full key (service x) = false -> reply ∉ started x ->
  tendpoints (service x) !! i = Some e -> node e = target -> type ∈ types e ->
  let '(o, s) := add_operation type id target key i reply (service x) in
  let y := MkTransferSys s (inflight x) (reply :: started x) (finished x) (vouched x) (tickets x) (accepts x) in
  transfer_core (Some o) y /\ operations s !! okey o = Some o /\ is_done o s = false /\ slots s /\ aimed s o.
Proof.
  intros Hi Hst Hf Hr He Hn Ht. unfold add_operation. set (o := MkOperation _ _ _ _ _ _ _). cbn zeta.
  pose proof Hi as [I1 I2 I3 I4 I5 I6 I7 I8 I9 I10]. unfold full in Hf. apply orb_false_iff in Hf as [Hf1%N.leb_gt Hf2].
  destruct (operations (service x) !! key) eqn:Ek; [done|]. clear Hf2.
  set (s := MkTransfer _ _ _ _ _ _ _). assert (Hup : forall p, aimed (service x) p -> aimed s p).
  { intros p [H1 H2]. split; [cbn; lia|done]. }
  assert (Hao : aimed s o) by (split; [cbn; lia|by exists e]).
  assert (Hkn : forall p, knows (MkTransferSys s (inflight x) (reply :: started x) (finished x) (vouched x) (tickets x) (accepts x)) p -> p = o \/ knows x p).
  { intros p [H|H]; [|right; by right]. cbn in H. destruct (decide (okey p = key)) as [E|E]; [rewrite E, lookup_insert_eq in H; left; congruence|].
    rewrite lookup_insert_ne in H by done. right. by left. }
  split_and!; [|cbn; by rewrite lookup_insert_eq|unfold is_done; cbn; rewrite lookup_insert_eq; cbn; by rewrite N.eqb_refl|done|done].
  constructor; cbn.
  - done.
  - intros k p [[<- <-]|[Hne H]]%lookup_insert_Some; [done|by apply I2].
  - intros p [->|H]%Hkn; auto.
  - intros p q [->|H1]%Hkn [->|H2]%Hkn; try done; [| |by apply I4]; intros E; exfalso; [apply I3 in H2 as [H2 _]|apply I3 in H1 as [H1 _]]; cbn in E; lia.
  - by rewrite Hst.
  - by rewrite mnames_insert, I6, <- Permutation_middle.
  - rewrite map_size_insert_None by done. lia.
  - intros k p [[<- <-]|[Hne H]]%lookup_insert_Some Hsk; [done|]. by apply (I8 k p H).
  - done.
  - intros p n H. destruct (I10 p n H) as (? & ? & ? & ?). auto.
Qed.

Lemma immediate_inv x reply r : transfer_inv x -> transfer_inv (next_sys (submits x reply) (inflight x) [] [] (service x) [transfer_replied reply r]).
Proof.
  intros [I1 I2 I3 I4 I5 I6 I7 I8 I9 I10]. unfold next_sys, submits. cbn. rewrite !app_nil_r. constructor; cbn; auto.
  rewrite I6, <- app_assoc. apply Permutation_middle.
Qed.

Lemma operation_start_inv x type id target reply owner t s' out : transfer_inv x -> reply ∉ started x -> start type id target reply owner t (service x) = (s', out) ->
  transfer_inv (next_sys (submits x reply) (inflight x) [] [] s' out).
Proof.
  intros Hi Hr. unfold start. destruct (tstopped (service x)) eqn:Hst; [intros [= <- <-]; by apply immediate_inv|].
  destruct (encode_entity_key type id) as [data|] eqn:Ek; [|intros [= <- <-]; by apply immediate_inv].
  destruct (_ || _); [intros [= <- <-]; by apply immediate_inv|].
  destruct (find_endpoint _ _ _ _) as [i|] eqn:Ef; [|intros [= <- <-]; by apply immediate_inv]. cbn zeta.
  destruct (full _ _) eqn:Efull; [intros [= <- <-]; by apply immediate_inv|]. apply find_endpoint_spec in Ef as (e & He & _ & Hn & Ht). rewrite Nat.sub_0_r in He.
  pose proof (added_core x type id target (type ++ [x00] ++ id) i e reply Hi Hst Efull Hr He Hn Ht) as Ha.
  destruct (add_operation _ _ _ _ _ _ _) as [o s] eqn:Eo. destruct Ha as (Hc & Hl & Hd & Hs & Hao). intros H.
  destruct (send_op o Probing probe_route data t s Hd Hs) as [S1 S2]; [destruct Hao as (_ & e' & He' & _); by eapply lookup_lt_Some|].
  rewrite H in S1, S2. apply (settle_op _ o [] [] s' out Hc); [done|done|].
  intros w Hw. rewrite (S2 w Hw). cbn. injection Eo as <- _. cbn. by apply encode_key_ok in Ek as [Ek _].
Qed.

Lemma create_inv x type id target reply t s' out : transfer_inv x -> reply ∉ started x -> create type id target reply t (service x) = (s', out) ->
  transfer_inv (next_sys (submits x reply) (inflight x) [] [] s' out).
Proof.
  intros Hi Hr. unfold create. destruct (tstopped (service x)) eqn:Hst; [intros [= <- <-]; by apply immediate_inv|].
  destruct (_ || _); [intros [= <- <-]; by apply immediate_inv|].
  destruct (find_endpoint _ _ _ _) as [i|] eqn:Ef; [|intros [= <- <-]; by apply immediate_inv]. cbn zeta.
  destruct (full _ _) eqn:Efull; [intros [= <- <-]; by apply immediate_inv|]. apply find_endpoint_spec in Ef as (e & He & _ & Hn & Ht). rewrite Nat.sub_0_r in He.
  pose proof (added_core x type id target (lit "create:" ++ id) i e reply Hi Hst Efull Hr He Hn Ht) as Ha.
  destruct (add_operation _ _ _ _ _ _ _) as [o s] eqn:Eo. destruct Ha as (Hc & Hl & Hd & Hs & Hao). destruct (encode_entity_key type id) as [data|] eqn:Ek; intros H.
  - destruct (send_op o Activating create_route data t s Hd Hs) as [S1 S2]; [destruct Hao as (_ & e' & He' & _); by eapply lookup_lt_Some|].
    rewrite H in S1, S2. apply (settle_op _ o [] [] s' out Hc); [done|done|]. intros w Hw. by rewrite (S2 w Hw).
  - injection H as <- <-. destruct Hc as [I1 I2 I3 I4 I5 I6 I7 I8 I9 I10]. unfold next_sys, submits. cbn in *. rewrite !app_nil_r. constructor; cbn; auto.
    intros k p Hp _. destruct (decide (p = o)) as [->|Hne]; [right|by apply (I8 k p Hp); congruence].
    injection Eo as <- _. cbn. destruct (key_ok type id) eqn:E; [|done]. exfalso. by rewrite (proj2 (encode_key_ok _ _ _) (conj E eq_refl)) in Ek.
Qed.

Lemma finish_all_spec ops : forall s acc, Forall (fun o => operations s !! okey o = Some o) ops -> NoDup (okey <$> ops) ->
  exists s' out, fold_left (fun st o => let '(s, out) := finish o (MkResult disconnected []) st.1 in (s, st.2 ++ out)) ops (s, acc) = (s', acc ++ out) /\
    same_service s s' /\ operations s' = foldr delete (operations s) (okey <$> ops) /\ transfer_replies out = map oreply ops /\ waits out = [].
Proof.
  induction ops as [|o ops IH]; intros s acc Hf Hd; cbn [fold_left]; [exists s, []; by rewrite app_nil_r|].
  apply Forall_cons in Hf as [Ho Hf]. cbn in Hd. apply NoDup_cons in Hd as [Hn Hd]. unfold finish at 2. cbn [fst snd]. unfold is_done at 1. rewrite Ho, N.eqb_refl. cbn [negb].
  destruct (IH (with_operations s (delete (okey o) (operations s))) (acc ++ [transfer_replied (oreply o) (MkResult disconnected [])])) as (s' & out & E & Hs & Hops & Hr & Hw); [|done|].
  { apply Forall_forall. intros p Hp. cbn. rewrite lookup_delete_ne; [rewrite Forall_forall in Hf; by apply Hf|]. intros Heq. apply Hn. rewrite Heq. by apply list_elem_of_fmap_2. }
  exists s', (transfer_replied (oreply o) (MkResult disconnected []) :: out). rewrite E, <- app_assoc. split; [done|]. split; [done|]. split.
  - rewrite Hops. cbn. clear. induction (okey <$> ops) as [|k l IH]; [done|]. cbn. by rewrite IH, delete_delete.
  - cbn. by rewrite <- Hr, <- Hw.
Qed.

Lemma stop_transfer_inv x s' out : transfer_inv x -> stop (service x) = (s', out) ->
  transfer_inv (next_sys x (inflight x) [] [] s' out) /\ tstopped s' = true.
Proof.
  intros Hi. unfold stop. destruct (tstopped (service x)) eqn:Est.
  { intros [= <- <-]. split; [|done]. unfold next_sys. cbn. rewrite !app_nil_r. by destruct x. }
  pose proof Hi as [I1 I2 I3 I4 I5 I6 I7 I8 I9 I10]. cbn zeta. set (s0 := MkTransfer _ _ _ _ _ _ true).
  set (ops := map snd (map_to_list (operations s0))). unfold finish_all.
  destruct (finish_all_spec ops s0 []) as (s1 & out1 & E & (E1 & E2 & E3 & E4 & E5) & Hops & Hr & Hw).
  { apply Forall_forall. intros o (k & -> & H)%list_elem_of_fmap. destruct k as [k p]. apply elem_of_map_to_list in H. cbn in *. by rewrite (I2 _ _ H). }
  { unfold ops. assert ((okey <$> map snd (map_to_list (operations s0))) = (map_to_list (operations s0)).*1) as ->; [|apply NoDup_fst_map_to_list].
    change (map snd ?l) with (snd <$> l). rewrite <- list_fmap_compose. apply list_fmap_ext. intros i [k p] H%list_elem_of_lookup_2%elem_of_map_to_list. by apply I2. }
  rewrite E. cbn [app]. intros H. injection H as <- <-. set (closes := flat_map _ _).
  assert (Hcl : transfer_replies closes = [] /\ waits closes = []).
  { unfold closes. generalize (tpeers s1). intros l. induction l as [|p l IH]; [done|]. cbn [flat_map]. destruct (_ =? 0); [done|]. exact IH. }
  assert (Hemp : operations s1 = ∅).
  { rewrite Hops. apply foldr_delete_all. intros k o Hk. apply list_elem_of_fmap. exists o. split; [symmetry; by apply (I2 k)|].
    apply list_elem_of_fmap. exists (k, o). split; [done|]. by apply elem_of_map_to_list. }
  split; [|by rewrite E5]. unfold next_sys. cbn [transfer_replies waits omap list_omap]. unfold transfer_replies, waits. cbn [omap list_omap].
  rewrite !omap_app. fold (transfer_replies out1) (waits out1) (transfer_replies closes) (waits closes). destruct Hcl as [-> ->]. rewrite Hr, Hw. cbn. rewrite !app_nil_r.
  constructor; cbn; rewrite ?Hemp; try done.
  - unfold slots. by rewrite E1, E3.
  - intros o [H|H]; [cbn in H; rewrite Hemp in H; done|]. unfold aimed. rewrite E1, E4. apply I3. by right.
  - intros o o' [H|H] [H'|H']; cbn in *; try (rewrite Hemp in *; done). apply I4; by right.
  - rewrite I6. unfold ops, op_names. by rewrite map_map, app_nil_r.
  - rewrite map_size_empty. lia.
  - intros o n H. unfold aimed. rewrite E1, E4. by apply I10.
Qed.

Lemma transfer_step_inv x y : transfer_inv x -> transfer_step x y -> transfer_inv y.
Proof.
  intros Hi H. destruct H as [x ty id ta reply owner t s' out Hr H|x ty id ta reply t s' out Hr H|x l1 l2 o r res acc s' out E H|x l1 l2 o r t s' out E H|x l1 l2 o l t s' out E H|x l1 l2 o n r s' out E H|x l1 l2 o r s' out E H|x s' out H].
  - by eapply operation_start_inv.
  - by eapply create_inv.
  - destruct (without_core x l1 l2 o _ Hi E) as (Hc & Hk & He). destruct (probe_effect _ _ _ _ _ _ _ H) as [P1 P2].
    apply (settle_op (without x (l1 ++ l2)) o (vouches o r) [] s' out Hc); [by apply (live_op None x o Hi)|done|].
    intros w Hw. destruct (P2 w Hw) as [Hv Hww]. cbn in He. destruct Hww as [-> | ->]; cbn; rewrite Hv; set_solver.
  - destruct (without_core x l1 l2 o _ Hi E) as (Hc & Hk & He). cbn in He.
    destruct (handoff_effect _ _ _ _ _ _ (ti_slots _ x Hi) (ti_aimed _ x Hi o Hk) H) as [P1 P2].
    apply (settle_op (without x (l1 ++ l2)) o [] (handoff_ticket o r) s' out Hc); [by apply (live_op None x o Hi)|done|].
    intros w Hw. destruct (P2 w Hw) as (n & -> & Hn & Ht). cbn. rewrite Ht. set_solver.
  - destruct (without_core x l1 l2 o _ Hi E) as (Hc & Hk & [He1 He2]).
    destruct (released_effect _ _ _ _ _ _ (ti_slots _ x Hi) (ti_aimed _ x Hi o Hk) He1 H) as [P1 P2].
    apply (settle_op (without x (l1 ++ l2)) o [] (stored_ticket o l) s' out Hc); [by apply (live_op None x o Hi)|done|].
    intros w Hw. destruct (P2 w Hw) as (n & -> & Hn & Ht). cbn. rewrite Ht. set_solver.
  - destruct (without_core x l1 l2 o _ Hi E) as (Hc & Hk & He). unfold confirmed in H.
    assert (P : op_effect (service x) o s' out /\ forall w, waits out = [(o, w)] -> False).
    { destruct (_ || _) eqn:Es; [injection H as <- <-; split; [apply oe_none, stop_or_done, Es|done]|]. by eapply finish_any. }
    destruct P as [P1 P2]. apply (settle_op (without x (l1 ++ l2)) o [] [] s' out Hc); [by apply (live_op None x o Hi)|done|]. intros w Hw. by destruct (P2 w Hw).
  - destruct (without_core x l1 l2 o _ Hi E) as (Hc & Hk & He). destruct (finish_any (fun _ => False) _ _ _ _ _ H) as [P1 P2].
    apply (settle_op (without x (l1 ++ l2)) o [] [] s' out Hc); [by apply (live_op None x o Hi)|done|]. intros w Hw. by destruct (P2 w Hw).
  - by eapply stop_transfer_inv.
Qed.

Definition transfer_start (endpoints : list EntityEndpoint) (requests : N) (timeout_ms : Z) (x : tsys) : Prop :=
  exists s, entity_transfer endpoints requests timeout_ms = Ok s /\ x = MkTransferSys s [] [] [] [] [] [].

Lemma transfer_reach endpoints requests timeout_ms x y : transfer_start endpoints requests timeout_ms x -> rtc transfer_step x y -> transfer_inv y.
Proof.
  intros (s & Hs & ->) H. assert (H0 : transfer_inv (MkTransferSys s [] [] [] [] [] [])).
  { unfold entity_transfer in Hs. apply bind_ok in Hs as (_ & _ & Hs). destruct (_ || _); [done|]. injection Hs as <-.
    assert (Hno : forall o, knows (MkTransferSys (MkTransfer endpoints requests timeout_ms ∅ (replicate (length endpoints) 0) 0 false) [] [] [] [] [] []) o -> False).
    { intros o [Ho|[w Ho]]; cbn in Ho; [by rewrite lookup_empty in Ho|by apply elem_of_nil in Ho]. }
    constructor; cbn; try done; try (by intros; exfalso; eauto).
    - unfold slots. cbn. by rewrite length_replicate.
    - rewrite map_size_empty. lia.
    - by intros o w ?%elem_of_nil.
    - by intros o n ?%elem_of_nil. }
  induction H as [|a b c Hab _ IH]; [done|]. apply IH. by eapply transfer_step_inv.
Qed.

(** A node is asked to accept an entity only when the hand-over is safe: every
    accept message ever sent goes to the endpoint of the requested destination, after
    that node answered the probe with its own name, and carries the non-zero ticket of
    a release of the entity that the host or the durable record reported. *)
Theorem transfer_accepts_released endpoints requests timeout_ms x y o ticket :
  transfer_start endpoints requests timeout_ms x -> rtc transfer_step x y -> (o, ticket) ∈ accepts y ->
  (exists e, tendpoints (service y) !! oendpoint o = Some e /\ node e = otarget o /\ otype o ∈ types e) /\
  oid o ∈ vouched y /\ (oid o, ticket) ∈ tickets y /\ ticket <> 0.
Proof.
  intros Hs Hr Ha. destruct (ti_accepts _ y (transfer_reach _ _ _ _ _ Hs Hr) o ticket Ha) as ([_ H] & ?). done.
Qed.

(** Every transfer and creation is answered exactly once: those started are
    those answered together with those pending; each pending one waits for the answer
    to a request that is in flight, unless its entity key cannot be encoded; the
    pending ones stay within the limit, and after [stop] there are none. *)
Theorem transfer_answers_once endpoints requests timeout_ms x y :
  transfer_start endpoints requests timeout_ms x -> rtc transfer_step x y ->
  started y ≡ₚ finished y ++ op_names (operations (service y)) /\
  (forall k o, operations (service y) !! k = Some o -> (exists w, (o, w) ∈ inflight y) \/ encode_entity_key (otype o) (oentity o) = Throw invalid_argument) /\
  N.of_nat (pending (service y)) <= trequests (service y) /\ (tstopped (service y) = true -> started y ≡ₚ finished y).
Proof.
  intros Hs Hr. destruct (transfer_reach _ _ _ _ _ Hs Hr) as [I1 I2 I3 I4 I5 I6 I7 I8 I9 I10]. split; [done|]. split.
  { intros k o H. destruct (I8 k o H ltac:(done)) as [|Hk]; [by left|right]. unfold encode_entity_key. by rewrite validate_key_ok, Hk. }
  split; [done|]. intros H. rewrite I6, (I5 H). unfold op_names. rewrite map_to_list_empty. by rewrite app_nil_r.
Qed.

(** The destination understands the source: the probe, creation and accept
    messages of an operation are read back as its entity, and the ticket, by a trusting
    destination that is not stopped. *)
Theorem transfer_messages_roundtrip type id ticket key :
  encode_entity_key type id = Ok key -> 0 < ticket < 2 ^ 64 ->
  (forall accepts owner, probe_request false (Ok true) accepts owner key =
     match accepts type id with Ok true => MkResult ok (before_slash owner) | Ok false => MkResult overloaded [] | Throw _ => MkResult rejected [] end) /\
  create_request false (Ok true) key = (if valid_entity_id id then inr (type, id) else inl (MkResult rejected [])) /\
  accept_request false (Ok true) (key ++ integer ticket) = inr (type, id, ticket).
Proof.
  intros [Hk ->]%encode_key_ok Ht.
  assert (Hid : forall rest, size rest <= 8 -> transfer_identity (wire_key type id ++ rest) = Ok (type, id, rest)).
  { intros rest Hl. unfold transfer_identity. pose proof (size_wire_key _ _ Hk). rewrite (proj2 (N.ltb_ge _ _)) by (rewrite size_app; lia). by apply decode_key_app. }
  pose proof (Hid [] ltac:(unfold size; cbn; lia)) as H0. rewrite app_nil_r in H0. unfold probe_request, create_request, accept_request. rewrite H0. cbn [is_empty negb orb]. split_and!.
  - intros acc owner. by destruct (acc type id) as [[]|].
  - by destruct (valid_entity_id id).
  - rewrite Hid by (unfold integer; rewrite size_put_be; lia). cbn [bind]. rewrite <- (app_nil_r (integer ticket)), read_integer_app by lia. cbn.
    by rewrite (proj2 (N.eqb_neq _ _)) by lia.
Qed.

(** ** Witnesses *)

Definition sample_destination : EntityEndpoint := Directory.MkEndpoint (lit "beta") (lit "10.0.0.2") 7000 [lit "Avatar"] [].
Definition sample_service : Transfer := MkTransfer [sample_destination] 4 1000 ∅ [0] 0 false.
Definition sample_link : Transport := MkTransport (fun _ => false) (fun _ => false) (fun _ => Ok 41) false.
Definition sample_operation : Operation :=
  MkOperation 1 (lit "Avatar") (lit "00000000000000aa") (lit "beta") (lit "Avatar" ++ [x00] ++ lit "00000000000000aa") 0 9.

(** A transfer that reaches the accept message with ticket 7. *)
Lemma sample_transfer : exists y, rtc transfer_step (MkTransferSys sample_service [] [] [] [] [] []) y /\ (sample_operation, 7) ∈ accepts y /\ started y = [9].
Proof.
  eexists. split; [|split].
  - eapply rtc_l; [eapply (ts_start _ (lit "Avatar") (lit "00000000000000aa") (lit "beta") 9 (lit "alpha/1") sample_link); [by intros ?%elem_of_nil|vm_compute; reflexivity]|].
    eapply rtc_l; [eapply (ts_probe _ [] [] sample_operation (MkResult ok (lit "beta")) true true); [reflexivity|vm_compute; reflexivity]|].
    eapply rtc_l; [eapply (ts_handoff _ [] [] sample_operation (MkResult ok (integer 7)) sample_link); [reflexivity|vm_compute; reflexivity]|]. apply rtc_refl.
  - vm_compute. by left.
  - reflexivity.
Qed.

Lemma sample_transfer_start : transfer_start [sample_destination] 4 1000 (MkTransferSys sample_service [] [] [] [] [] []).
Proof. exists sample_service. split; [vm_compute; reflexivity|reflexivity]. Qed.

Lemma transfer_accepts_released_witness :
  exists y, rtc transfer_step (MkTransferSys sample_service [] [] [] [] [] []) y /\ (sample_operation, 7) ∈ accepts y /\ oid sample_operation ∈ vouched y.
Proof.
  destruct sample_transfer as (y & Hr & Ha & _). exists y. split; [done|]. split; [done|].
  by apply (transfer_accepts_released [sample_destination] 4 1000 _ y sample_operation 7 sample_transfer_start Hr Ha).
Defined.

Lemma transfer_answers_once_witness :
  exists y, rtc transfer_step (MkTransferSys sample_service [] [] [] [] [] []) y /\ started y = [9] /\ [9] ≡ₚ finished y ++ op_names (operations (service y)).
Proof.
  destruct sample_transfer as (y & Hr & _ & Hs). exists y. split; [done|]. split; [done|]. rewrite <- Hs.
  by apply (transfer_answers_once [sample_destination] 4 1000 _ y sample_transfer_start Hr).
Defined.

Lemma transfer_messages_roundtrip_witness :
  exists key, encode_entity_key (lit "Avatar") (lit "00000000000000aa") = Ok key /\
    accept_request false (Ok true) (key ++ integer 7) = inr (lit "Avatar", lit "00000000000000aa", 7).
Proof.
  eexists. split; [vm_compute; reflexivity|].
  apply (transfer_messages_roundtrip (lit "Avatar") (lit "00000000000000aa") 7); [vm_compute; reflexivity|lia].
Defined.
