(* ===== verification/Delivery.v ===== *)
(** * The delivery worker

    [EntityDelivery] of [src/entity_delivery.cpp]: sweeps of the durable registry of
    sources, the storage jobs that find the first pending message of a source (or retire
    a destroyed one), and the two calls of an attempt: the delivery to the target's
    owner, then its acknowledgement to the source's owner.

    Storage jobs are programs over the storage interface.  The shared [Attempt] objects are
    identified by [attempt_id]; an attempt is [done] exactly when it has left [active].
    The time an owner never waits for ([time_point{}]) is 0. *)

From stdpp Require Import gmap.
From S2P Require Import Prelude OrderedMap Identity Values AttributeWire Messages Fields TimerState DeliveryState Records Storage StorageCorrect Programs TimerIndex Directory Transport.

Definition receive_route : bytes := lit "system.delivery.receive".
Definition ack_route : bytes := lit "system.delivery.ack".
Definition delivery_registry_key : bytes := lit "fsnet/delivery/sources".

(** ** Storage jobs *)

(** [std::find] and [erase] *)
Fixpoint erase_source (source : bytes * bytes) (l : list (bytes * bytes)) : option (list (bytes * bytes)) :=
  match l with
  | [] => None
  | x :: l => if pair_eqb x source then Some l else cons x <$> erase_source source l
  end.

(** The retirement loop: whether the source is known to be off the registry. *)
Fixpoint retire (attempts : nat) (source : bytes * bytes) : prog bool :=
  match attempts with
  | O => Return (Ok false)
  | S attempts =>
      do registry <- db_get delivery_registry_key;
      match registry with
      | None => Return (Ok false)
      | Some r =>
          do sources <- Return (decode_delivery_sources (svalue r));
          match erase_source source sources with
          | None => Return (Ok true)
          | Some rest =>
              do value <- Return (encode_delivery_sources rest);
              do written <- db_compare_exchange delivery_registry_key (sversion r) value;
              if written then Return (Ok true) else retire attempts source
          end
      end
  end.

Definition first_pending (l : list DeliveryMessage) : option DeliveryMessage := List.find (fun m => negb (mdone m)) l.

Definition retirable (type : bytes) (m : EntityMetadata) (outbox : list DeliveryMessage) : bool :=
  bytes_eqb (metadata_type m) type && negb (existsb (fun x => negb (mdone x)) outbox).

(** The job of [scan]: the envelope of the first pending message, and whether the source
    was retired. *)
Definition scan_job (source : bytes * bytes) : prog (option DeliveryEnvelope * bool) :=
  do id <- Return (entity_id_of_text source.2);
  do record <- db_get (entity_record_key id);
  match record with
  | None => Return (Ok (None, false))
  | Some r =>
      do entity <- Return (decode_entity_record (svalue r));
      let state := delivery (snapshot entity) in
      let pending := match first_pending (outbox state) with
                     | Some m => Some (MkEnvelope source.1 source.2 (depoch state) m)
                     | None => None
                     end in
      match metadata entity with
      | Some m =>
          if destroyed m then
            if retirable source.1 m (outbox state)
            then do gone <- retire 8 source; Return (Ok (None, gone))
            else Return (Ok (None, false))
          else Return (Ok (pending, false))
      | None => Return (Ok (pending, false))
      end
  end.

(** The job of [load]. *)
Definition load_job : prog (list (bytes * bytes)) :=
  do record <- db_get delivery_registry_key;
  match record with
  | None => Return (Ok [])
  | Some r => Return (decode_delivery_sources (svalue r))
  end.

(** ** The worker *)

Record Attempt := MkAttempt { attempt_id : N; attempt_key : bytes; envelope : option DeliveryEnvelope }.

Record Worker := MkWorker {
  wendpoints : list EntityEndpoint; wrequests : N; wretry : Z; wrefresh : Z; wtimeout : Z;
  wpeers : list N; sources : list (bytes * bytes); active : gmap bytes Attempt;
  cursor : N; remaining : N; wnext : Z; refresh : Z; wstopped : bool; loading : bool;
  attempts : N; acknowledged : N; wfailures : N; wmade : N }.

(** What a transport call of an attempt is for. *)
Inductive purpose := Deliver | Acknowledge.

Inductive delivery_output :=
  | job_scan (a : Attempt) (source : bytes * bytes)
  | job_load
  | job_locate (a : Attempt) (p : purpose) (type id route payload : bytes)
  | delivery_sent (a : Attempt) (p : purpose) (peer : N) (route payload : bytes) (timeout_ms : Z)
  | delivery_raised (e : exn)
  | worker_closed (peer : N)
  | worker_stopped.

Definition entity_delivery (endpoints : list EntityEndpoint) (requests : N) (retry refresh timeout_ms : Z) : result Worker :=
  let* _ := validate_entity_endpoints endpoints in
  throw_if (requests =? 0) || (1024 <? requests) || (retry <=? 0)%Z || (refresh <=? 0)%Z || bad_timeout timeout_ms as invalid_argument ;;
  Ok (MkWorker endpoints requests retry refresh timeout_ms (replicate (length endpoints) 0) [] ∅ 0 0 0 0 false false 0 0 0 0).

Definition with_active (w : Worker) (m : gmap bytes Attempt) : Worker :=
  MkWorker (wendpoints w) (wrequests w) (wretry w) (wrefresh w) (wtimeout w) (wpeers w) (sources w) m
    (cursor w) (remaining w) (wnext w) (refresh w) (wstopped w) (loading w) (attempts w) (acknowledged w) (wfailures w) (wmade w).
Definition with_counts (w : Worker) (tried acked failed : N) : Worker :=
  MkWorker (wendpoints w) (wrequests w) (wretry w) (wrefresh w) (wtimeout w) (wpeers w) (sources w) (active w)
    (cursor w) (remaining w) (wnext w) (refresh w) (wstopped w) (loading w) tried acked failed (wmade w).
Definition with_wpeers (w : Worker) (peers : list N) : Worker :=
  MkWorker (wendpoints w) (wrequests w) (wretry w) (wrefresh w) (wtimeout w) peers (sources w) (active w)
    (cursor w) (remaining w) (wnext w) (refresh w) (wstopped w) (loading w) (attempts w) (acknowledged w) (wfailures w) (wmade w).
Definition with_sweep (w : Worker) (cursor remaining : N) (next : Z) : Worker :=
  MkWorker (wendpoints w) (wrequests w) (wretry w) (wrefresh w) (wtimeout w) (wpeers w) (sources w) (active w)
    cursor remaining next (refresh w) (wstopped w) (loading w) (attempts w) (acknowledged w) (wfailures w) (wmade w).
Definition with_load (w : Worker) (sources : list (bytes * bytes)) (cursor remaining : N) (refresh : Z) (loading : bool) (failures : N) : Worker :=
  MkWorker (wendpoints w) (wrequests w) (wretry w) (wrefresh w) (wtimeout w) (wpeers w) sources (active w)
    cursor remaining (wnext w) refresh (wstopped w) loading (attempts w) (acknowledged w) failures (wmade w).
Definition with_refresh (w : Worker) (at_time : Z) : Worker :=
  with_load w (sources w) (cursor w) (remaining w) at_time (loading w) (wfailures w).

Definition attempt_done (a : Attempt) (w : Worker) : bool :=
  match active w !! attempt_key a with Some b => negb (attempt_id b =? attempt_id a) | None => true end.

(** [finish(op, success)]: an attempt with a message has its (non-empty) ticket. *)
Definition has_ticket (a : Attempt) : bool :=
  match envelope a with Some e => negb (is_empty (ticket (emessage e))) | None => false end.

Definition finish (a : Attempt) (success : bool) (w : Worker) : Worker :=
  if attempt_done a w then w
  else
    let w := with_active w (delete (attempt_key a) (active w)) in
    if success then with_counts w (attempts w) (if has_ticket a then wrap64 (acknowledged w + 1) else acknowledged w) (wfailures w)
    else with_counts w (attempts w) (acknowledged w) (wrap64 (wfailures w + 1)).

(** [send(...)]: the lookup, if the executor [accepted] it. *)
Definition send (a : Attempt) (p : purpose) (type id route payload : bytes) (accepted : bool) (w : Worker) : Worker * list delivery_output :=
  if accepted then (w, [job_locate a p type id route payload]) else (finish a false w, []).

(** The completion of [send]'s lookup. *)
Definition located (a : Attempt) (p : purpose) (type id route payload : bytes) (location : result (option EntityLocation)) (wall_ms : Z) (t : Transport)
    (w : Worker) : Worker * list delivery_output :=
  if wstopped w || attempt_done a w then (w, [])
  else
    match location with
    | Throw _ => (finish a false w, [])
    | Ok l =>
        match select_entity_endpoint (wendpoints w) type id l wall_ms (fun _ => true) with
        | None => (finish a false w, [])
        | Some i =>
            match wpeers w !! i, wendpoints w !! i with
            | Some old, Some e =>
                match usable_peer t e old with
                | Throw _ => (finish a false w, [])
                | Ok peer =>
                    let w := with_wpeers w (<[i := peer]> (wpeers w)) in
                    if call_throws t then (finish a false w, [])
                    else (w, [delivery_sent a p peer route payload (wtimeout w)])
                end
            | _, _ => (w, [])
            end
        end
    end.

(** [deliver(op)] *)
Definition deliver (a : Attempt) (e : DeliveryEnvelope) (accepted : bool) (w : Worker) : Worker * list delivery_output :=
  let w := with_counts w (wrap64 (attempts w + 1)) (acknowledged w) (wfailures w) in
  match encode_delivery e with
  | Throw x => (w, [delivery_raised x])
  | Ok payload => send a Deliver (mtype (emessage e)) (mid (emessage e)) receive_route payload accepted w
  end.

(** The acknowledgement payload for the source. *)
Definition ack_payload (e : DeliveryEnvelope) (data : bytes) : result bytes :=
  let* '(t, _) := decode_delivery_ack data in
  throw_if negb (bytes_eqb t (ticket (emessage e))) as invalid_argument ;;
  let* key := encode_entity_key (source_type e) (source_id e) in
  let* ack := blob data in
  Ok (key ++ integer (source_epoch e) ++ ack).

(** The reply to the delivery. *)
Definition delivered (a : Attempt) (r : Result) (accepted : bool) (w : Worker) : Worker * list delivery_output :=
  if wstopped w || attempt_done a w then (w, [])
  else if negb (bool_decide (rstatus r = ok)) then (finish a false w, [])
  else
    match envelope a with
    | None => (finish a false w, [])
    | Some e =>
        match ack_payload e (rdata r) with
        | Throw _ => (finish a false w, [])
        | Ok payload => send a Acknowledge (source_type e) (source_id e) ack_route payload accepted w
        end
    end.

(** The reply to the acknowledgement. *)
Definition acked (a : Attempt) (r : Result) (w : Worker) : Worker :=
  if wstopped w || attempt_done a w then w else finish a (bool_decide (rstatus r = ok)) w.

(** [scan(source)] *)
Definition scan (source : bytes * bytes) (accepted : bool) (w : Worker) : Worker * list delivery_output :=
  match encode_entity_key source.1 source.2 with
  | Throw e => (w, [delivery_raised e])
  | Ok key =>
      match active w !! key with
      | Some _ => (w, [])
      | None =>
          let a := MkAttempt (wmade w + 1) key None in
          let w := MkWorker (wendpoints w) (wrequests w) (wretry w) (wrefresh w) (wtimeout w) (wpeers w) (sources w) (<[key := a]> (active w))
                     (cursor w) (remaining w) (wnext w) (refresh w) (wstopped w) (loading w) (attempts w) (acknowledged w) (wfailures w) (wmade w + 1) in
          if accepted then (w, [job_scan a source]) else (finish a false w, [])
      end
  end.

(** The completion of the scan. *)
Definition scanned (a : Attempt) (found : result (option DeliveryEnvelope * bool)) (accepted : bool) (w : Worker) : Worker * list delivery_output :=
  if wstopped w || attempt_done a w then (w, [])
  else
    match found with
    | Throw _ => (finish a false w, [])
    | Ok (e, retired) =>
        let w := if retired then with_refresh w 0 else w in
        match e with
        | None => (finish a true w, [])
        | Some e =>
            let a := MkAttempt (attempt_id a) (attempt_key a) (Some e) in
            deliver a e accepted (with_active w (<[attempt_key a := a]> (active w)))
        end
    end.

(** [load()] and its completion. *)
Definition load (accepted : bool) (now : Z) (w : Worker) : Worker * list delivery_output :=
  if accepted then (with_load w (sources w) (cursor w) (remaining w) (refresh w) true (wfailures w), [job_load])
  else (with_load w (sources w) (cursor w) (remaining w) (now + ms (wrefresh w)) false (wrap64 (wfailures w + 1)), []).

Definition loaded (value : result (list (bytes * bytes))) (now : Z) (w : Worker) : Worker :=
  if wstopped w then w
  else
    match value with
    | Ok l => with_load w l (if is_empty l then 0 else cursor w mod N.of_nat (length l)) (N.min (remaining w) (N.of_nat (length l)))
                (now + ms (wrefresh w)) false (wfailures w)
    | Throw _ => with_load w (sources w) (cursor w) (remaining w) (now + ms (wrefresh w)) false (wrap64 (wfailures w + 1))
    end.

(** The loop of [poll]; [accepted n] is the executor's answer to the [n]-th scan. *)
Fixpoint scan_loop (count : nat) (accepted : nat -> bool) (w : Worker) : Worker * list delivery_output :=
  match count with
  | O => (w, [])
  | S count =>
      if wrequests w <=? N.of_nat (base.size (active w)) then (w, [])
      else
        match sources w !! N.to_nat (cursor w mod N.of_nat (length (sources w))) with
        | None => (w, [])
        | Some source =>
            let '(w, out) := scan source (accepted 0%nat) (with_sweep w (wrap64 (cursor w + 1)) (remaining w - 1) (wnext w)) in
            let '(w, more) := scan_loop count (fun n => accepted (S n)) w in
            (w, out ++ more)
        end
  end.

(** [poll(budget)] after the executor's completions took [work]. *)
Definition poll (budget work : N) (now : Z) (reload : bool) (accepted : nat -> bool) (w : Worker) : Worker * list delivery_output :=
  if wstopped w then (w, [])
  else
    let '(w, out) := if negb (loading w) && (refresh w <=? now)%Z then load reload now w else (w, []) in
    if is_empty (sources w) then (w, out)
    else if (remaining w =? 0) && (now <? wnext w)%Z then (w, out)
    else
      let w := if remaining w =? 0 then with_sweep w (cursor w) (N.of_nat (length (sources w))) (wnext w) else w in
      let count := N.min (remaining w) (budget - work) in
      let '(w, more) := scan_loop (N.to_nat count) accepted w in
      (if remaining w =? 0 then with_sweep w (cursor w) (remaining w) (now + ms (wretry w)) else w, out ++ more).

(** [stop()] *)
Definition stop (w : Worker) : Worker * list delivery_output :=
  if wstopped w then (w, [])
  else
    (MkWorker (wendpoints w) (wrequests w) (wretry w) (wrefresh w) (wtimeout w) (wpeers w) (sources w) ∅
       (cursor w) (remaining w) (wnext w) (refresh w) true (loading w) (attempts w) (acknowledged w) (wfailures w) (wmade w),
     flat_map (fun p => if p =? 0 then [] else [worker_closed p]) (wpeers w) ++ [worker_stopped]).

(** ** The routes of the owner *)

Section Routes.
Context (SHA256 : bytes -> bytes).

Definition receive_request (stopped trusted : bool) (data : bytes) : Result + DeliveryEnvelope :=
  if stopped then inl (MkResult disconnected [])
  else if negb trusted then inl (MkResult rejected [])
  else match decode_delivery SHA256 data with Ok e => inr e | Throw _ => inl (MkResult rejected []) end.

Definition ack_request (stopped trusted : bool) (data : bytes) : Result + bytes * bytes * N * bytes * Result :=
  if stopped then inl (MkResult disconnected [])
  else if negb trusted then inl (MkResult rejected [])
  else
    match (let* '(type, id, input) := decode_entity_key data in
           let* '(epoch, input) := read_integer input in
           let* '(ack, input) := read_blob input in
           throw_if negb (is_empty input) as invalid_argument ;;
           let* '(t, value) := decode_delivery_ack ack in
           Ok (type, id, epoch, t, value)) with
    | Ok x => inr x
    | Throw _ => inl (MkResult rejected [])
    end.
End Routes.
