(* ===== verification/DeliveryWorker.v ===== *)
(** * The delivery worker is correct

    A source leaves the registry only when its entity is destroyed with nothing pending, and no
    other source leaves with it; a sweep visits every source; an entity has at most one
    delivery under way. *)

From stdpp Require Import gmap.
From S2P Require Import Prelude OrderedMap Identity Values AttributeWire AttributeCodec Messages MessagesCorrect Fields TimerState DeliveryState DeliveryCorrect Records RecordsCorrect Storage StorageCorrect Programs TimerIndex Directory DirectoryCorrect Transport Delivery.

(** ** Retirement *)

(** The registry a store holds. *)
Definition registry (st : store) : result (list (bytes * bytes)) :=
  match cell st delivery_registry_key with None => Ok [] | Some r => decode_delivery_sources (svalue r) end.

(** The entity of [source] is a tombstone with no pending message. *)
Definition tombstone (source : bytes * bytes) (st : store) : Prop :=
  exists id r e m, entity_id_of_text source.2 = Ok id /\ cell st (entity_record_key id) = Some r /\ decode_entity_record (svalue r) = Ok e /\
    metadata e = Some m /\ destroyed m = true /\ retirable source.1 m (outbox (delivery (snapshot e))) = true.

(** Other clients may do anything, but a tombstone is permanent. *)
Definition keeps_tombstone (source : bytes * bytes) (st st' : store) : Prop :=
  any_client st st' /\ (tombstone source st -> tombstone source st').

#[global] Instance keeps_refl source : Reflexive (keeps_tombstone source).
Proof. by split. Qed.
#[global] Instance keeps_trans source : Transitive (keeps_tombstone source).
Proof. intros a b c [H1 H2] [H3 H4]. split; [by transitivity b|auto]. Qed.

(** The only change: [source], a tombstone, leaves the registry as it is at that moment. *)
Definition retires (source : bytes * bytes) (st st' : store) : Prop :=
  tombstone source st /\ exists l rest, registry st = Ok l /\ erase_source source l = Some rest /\ registry st' = Ok rest /\
    forall k, k <> delivery_registry_key -> cell st' k = cell st k.

Lemma pair_eqb_eq a b : pair_eqb a b = true <-> a = b.
Proof.
  unfold pair_eqb. destruct a as [x y], b as [z w]. cbn. rewrite andb_true_iff, !bytes_eqb_eq. split; [by intros [-> ->]|by intros [= -> ->]].
Qed.

Lemma erase_source_spec source l rest : erase_source source l = Some rest -> exists l1 l2, l = l1 ++ source :: l2 /\ rest = l1 ++ l2.
Proof.
  revert rest. induction l as [|x l IH]; intros rest; cbn [erase_source]; [done|]. destruct (pair_eqb x source) eqn:E.
  - apply pair_eqb_eq in E as ->. intros [= <-]. by exists [], l.
  - intros (r & H & ->)%fmap_Some. destruct (IH r H) as (l1 & l2 & -> & ->). by exists (x :: l1), l2.
Qed.

Lemma erase_source_none source l : erase_source source l = None -> source ∉ l.
Proof.
  induction l as [|x l IH]; cbn [erase_source]; [intros _; apply not_elem_of_nil|]. destruct (pair_eqb x source) eqn:E; [done|].
  intros H. apply not_elem_of_cons. split; [intros ->; by rewrite (proj2 (pair_eqb_eq x x)) in E|]. apply IH. by destruct (erase_source source l).
Qed.

Lemma decode_sources_nodup w l : decode_delivery_sources w = Ok l -> NoDup l.
Proof.
  unfold decode_delivery_sources. destruct (_ || _); [done|]. intros ([n i] & _ & H)%bind_ok. destruct (_ <? _); [done|].
  apply bind_ok in H as ([m' i'] & Hi & H). apply bind_ok in H as (_ & _ & [= <-]).
  apply (iter_result_inv _ (fun st => NoDup st.1)) in Hi; [done|constructor|]. intros [out input] st' Hd H.
  unfold get_source in H. apply bind_ok in H as ([[ty id] rest] & _ & H). destruct (existsb _ _) eqn:E; [done|]. injection H as <-. cbn in *.
  apply existsb_pair in E. apply NoDup_app. split; [done|]. split; [intros x Hx ->%list_elem_of_singleton; done|apply NoDup_singleton].
Qed.

Section Retire.
Context (source : bytes * bytes) (R : store -> store -> Prop) {R_refl : Reflexive R} {R_trans : Transitive R}.
Context (R_keeps : forall st st', R st st' -> keeps_tombstone source st st').
Context (Q : bool -> store -> Prop) (Q_false : forall st, Q false st).
Context (Q_absent : forall st l, registry st = Ok l -> source ∉ l -> forall st', R st st' -> Q true st').

Lemma wp_retire n : forall st, store_wf st -> tombstone source st -> wp R (retires source) (retire n source) Q st.
Proof.
  induction n as [|n IH]; intros st Hw Ht; cbn [retire]; [cbn; intros; apply Q_false|].
  cbn [db_get pbind wp]. intros st1 H1. destruct (R_keeps _ _ H1) as [[A1 A2] K1].
  destruct (cell st1 delivery_registry_key) as [r|] eqn:Hc; cbn [pbind]; [|cbn; intros; apply Q_false].
  destruct (decode_delivery_sources (svalue r)) as [l|] eqn:Hd; cbn [pbind]; [|done].
  destruct (erase_source source l) as [rest|] eqn:He; cbn [pbind wp].
  2:{ intros st2 H2. eapply Q_absent; [|by eapply erase_source_none|exact H2]. unfold registry. by rewrite Hc. }
  destruct (encode_delivery_sources rest) as [value|] eqn:Henc; cbn [pbind]; [|done].
  cbn [db_compare_exchange pbind wp]. intros st2 H2 x st3 Ha.
  destruct (cas_replaces st2 _ _ _ value x st3 st1 (A1 Hw) eq_refl (proj1 (R_keeps _ _ H2)) ltac:(by rewrite Hc) Ha) as [->|[Hc2 Hwr]].
  - split; [by left|]. destruct x as [[]|]; [|apply IH; [by apply (proj1 (R_keeps _ _ H2)), A1|by apply (R_keeps _ _ H2), K1]|done].
    exfalso. destruct Ha as (_ & _ & Hwr). destruct (wrote_cell _ _ _ _ Hwr) as (m & Hm & Hcell).
    pose proof (proj1 (proj1 (R_keeps _ _ H2)) (A1 Hw) _ _ Hcell) as Hx. cbn in Hx. lia.
  - assert (Hnd : NoDup l) by by eapply decode_sources_nodup.
    destruct (erase_source_spec _ _ _ He) as (l1 & l2 & -> & ->).
    assert (Hreg : registry st3 = Ok (l1 ++ l2)).
    { unfold registry. destruct (wrote_cell _ _ _ _ Hwr) as (m & _ & ->). cbn [svalue]. apply delivery_sources_roundtrip; [|done].
      by rewrite <- Permutation_middle in Hnd; apply NoDup_cons in Hnd as [_ Hnd]. }
    split; [right|].
    + split; [by apply (R_keeps _ _ H2), K1|]. exists (l1 ++ source :: l2), (l1 ++ l2). split; [unfold registry; by rewrite Hc2, Hc|].
      split; [done|]. split; [done|]. apply Hwr.
    + destruct x as [b|]; [|done]. destruct b; [cbn; intros st4 H4; eapply Q_absent; [exact Hreg| |exact H4]|].
      * rewrite <- Permutation_middle in Hnd. by apply NoDup_cons in Hnd as [Hnd _].
      * exfalso. destruct Ha as [_ ->]. destruct (wrote_cell _ _ _ _ Hwr) as (m & Hm & Hcell).
        pose proof (proj1 (proj1 (R_keeps _ _ H2)) (A1 Hw) _ _ Hcell) as Hx. cbn in Hx. lia.
Qed.
End Retire.

(** The envelope is that of the first pending message of the entity: deliveries of a source
    leave in order. *)
Definition next_delivery (source : bytes * bytes) (st : store) (e : DeliveryEnvelope) : Prop :=
  exists id r x l1 l2, entity_id_of_text source.2 = Ok id /\ cell st (entity_record_key id) = Some r /\ decode_entity_record (svalue r) = Ok x /\
    source_type e = source.1 /\ source_id e = source.2 /\ source_epoch e = depoch (delivery (snapshot x)) /\
    outbox (delivery (snapshot x)) = l1 ++ emessage e :: l2 /\ Forall (fun m => mdone m = true) l1 /\ mdone (emessage e) = false.

Definition scan_result (source : bytes * bytes) (found : option DeliveryEnvelope * bool) (st : store) : Prop :=
  (found.2 = true -> exists l, registry st = Ok l /\ source ∉ l) /\ (forall e, found.1 = Some e -> next_delivery source st e).

Lemma first_pending_spec l m : first_pending l = Some m -> exists l1 l2, l = l1 ++ m :: l2 /\ Forall (fun m => mdone m = true) l1 /\ mdone m = false.
Proof.
  unfold first_pending. induction l as [|x l IH]; cbn [List.find]; [done|]. destruct (mdone x) eqn:E; cbn [negb].
  - intros (l1 & l2 & -> & Hf & Hm)%IH. exists (x :: l1), l2. split; [done|]. split; [by constructor|done].
  - intros [= ->]. exists [], l. by split; [|split; [constructor|]].
Qed.

Section Scan.
Context (source : bytes * bytes) (R : store -> store -> Prop) {R_refl : Reflexive R} {R_trans : Transitive R}.
Context (R_keeps : forall st st', R st st' -> keeps_tombstone source st st').
Context (Q : option DeliveryEnvelope * bool -> store -> Prop) (Q_none : forall st, Q (None, false) st).
Context (Q_absent : forall st l, registry st = Ok l -> source ∉ l -> forall st', R st st' -> Q (None, true) st').
Context (Q_found : forall st e, next_delivery source st e -> forall st', R st st' -> Q (Some e, false) st').

Lemma wp_scan st : store_wf st -> wp R (retires source) (scan_job source) Q st.
Proof.
  intros Hw. unfold scan_job. destruct (entity_id_of_text source.2) as [id|] eqn:Hid; cbn [pbind]; [|done].
  cbn [db_get pbind wp]. intros st1 H1. destruct (R_keeps _ _ H1) as [[A1 A2] K1]. destruct (cell st1 (entity_record_key id)) as [r|] eqn:Hc; cbn [pbind].
  2:{ cbn. intros. apply Q_none. }
  destruct (decode_entity_record (svalue r)) as [x|] eqn:Hd; cbn [pbind]; [|done]. cbv zeta.
  assert (Hp : wp R (retires source) (Return (Ok (match first_pending (outbox (delivery (snapshot x))) with
     | Some m => Some (MkEnvelope source.1 source.2 (depoch (delivery (snapshot x))) m) | None => None end, false))) Q st1).
  { cbn. intros st2 H2. destruct (first_pending _) as [m|] eqn:Ef; [|apply Q_none]. apply first_pending_spec in Ef as (l1 & l2 & El & Hf & Hm).
    eapply Q_found; [|exact H2]. by exists id, r, x, l1, l2. }
  destruct (metadata x) as [m|] eqn:Hm; [|exact Hp]. destruct (destroyed m) eqn:Hdes; [|exact Hp].
  destruct (retirable source.1 m (outbox (delivery (snapshot x)))) eqn:Hr; [|cbn; intros; apply Q_none].
  apply wp_bind; [exact _..|]. apply wp_retire; [exact R_keeps| | |by apply A1|by exists id, r, x, m].
  - intros st2. cbn. intros. apply Q_none.
  - intros st2 l Hl Hn st3 H3. cbn. intros st4 H4. eapply Q_absent; [done|done|]. by transitivity st3.
Qed.
End Scan.

(** Scanning a source never loses deliveries.  Whatever other clients do, as
    long as tombstones are permanent, the only change a scan makes to the storage is to
    take its source, whose entity is destroyed and has nothing pending, off the
    registry as it is at that moment, leaving every other source registered.  Run
    alone, it reports the source retired only when it is off the registry, and
    otherwise the first pending message of the entity, under the entity's epoch. *)
Theorem scan_keeps_deliveries source st :
  store_wf st ->
  wp (keeps_tombstone source) (retires source) (scan_job source) (fun _ _ => True) st /\
  wp eq (retires source) (scan_job source) (scan_result source) st.
Proof.
  intros Hw. split; apply wp_scan; try done; try exact _.
  - by intros st1 st2 ->.
  - intros st1 l Hl Hn st2 <-. split; [|done]. intros _. by exists l.
  - intros st1 e He st2 <-. split; [done|]. by intros e' [= <-].
Qed.

(** ** Sweeps *)

Definition visits (w : Worker) (i : N) : option (bytes * bytes) := sources w !! N.to_nat ((cursor w + i) mod N.of_nat (length (sources w))).

Lemma scan_accepted source w key : encode_entity_key source.1 source.2 = Ok key ->
  let w' := (scan source true w).1 in
  sources w' = sources w /\ cursor w' = cursor w /\ remaining w' = remaining w /\ wrequests w' = wrequests w /\ wnext w' = wnext w /\
  is_Some (active w' !! key) /\ (forall k, is_Some (active w !! k) -> is_Some (active w' !! k)) /\
  (base.size (active w') <= S (base.size (active w)))%nat.
Proof.
  intros Hk. unfold scan. rewrite Hk. destruct (active w !! key) as [a|] eqn:E; cbn; [split_and!; auto|]. split_and!; auto.
  - by rewrite lookup_insert_eq.
  - intros k Hs. destruct (decide (k = key)) as [->|Hne]; [by rewrite lookup_insert_eq|by rewrite lookup_insert_ne].
  - by rewrite map_size_insert_None.
Qed.

Lemma scan_loop_visits n : forall w, sources w <> [] -> Forall (fun s => is_ok (encode_entity_key s.1 s.2) = true) (sources w) ->
  cursor w + N.of_nat n < 2 ^ 64 -> N.of_nat (base.size (active w)) + N.of_nat n <= wrequests w ->
  let w' := (scan_loop n (fun _ => true) w).1 in
  sources w' = sources w /\ cursor w' = cursor w + N.of_nat n /\ remaining w' = remaining w - N.of_nat n /\ wnext w' = wnext w /\
  (forall k, is_Some (active w !! k) -> is_Some (active w' !! k)) /\
  forall i s key, i < N.of_nat n -> visits w i = Some s -> encode_entity_key s.1 s.2 = Ok key -> is_Some (active w' !! key).
Proof.
  induction n as [|n IH]; intros w Hne Hok Hc Hr; cbn [scan_loop]; [cbn; split_and!; auto; lia|].
  rewrite (proj2 (N.leb_gt _ _)) by lia. destruct (sources w !! N.to_nat (cursor w mod N.of_nat (length (sources w)))) as [source|] eqn:Es.
  2:{ exfalso. apply lookup_ge_None in Es. assert (N.of_nat (length (sources w)) <> 0) by (destruct (sources w); cbn; [done|lia]).
      pose proof (N.mod_lt (cursor w) (N.of_nat (length (sources w)))). lia. }
  assert (Hk : exists key, encode_entity_key source.1 source.2 = Ok key).
  { rewrite Forall_forall in Hok. specialize (Hok source ltac:(by eapply list_elem_of_lookup_2)). destruct (encode_entity_key _ _); [by eexists|done]. }
  destruct Hk as [key Hk]. pose proof (scan_accepted source (with_sweep w (wrap64 (cursor w + 1)) (remaining w - 1) (wnext w)) key Hk) as Hs. cbv zeta in Hs.
  destruct (scan source true _) as [w1 o1]. cbn [fst snd] in Hs. cbn in Hs. destruct Hs as (S1 & S2 & S3 & S4 & S5 & S6 & S7 & S8).
  assert (Hw64 : wrap64 (cursor w + 1) = cursor w + 1) by (apply N.mod_small; lia). rewrite Hw64 in S2.
  specialize (IH w1). rewrite S1, S2, S4 in IH. destruct (scan_loop n _ w1) as [w2 o2]. cbn [fst] in *.
  destruct IH as (I1 & I2 & I3 & I4 & I5 & I6); [done|done|lia|lia|]. split_and!; try congruence; try lia; [by eauto|].
  intros i s k Hi Hv Hks. destruct (decide (i = 0)) as [->|Hi0].
  - apply I5. unfold visits in Hv. rewrite N.add_0_r, Es in Hv. injection Hv as <-. by rewrite Hk in Hks; injection Hks as <-.
  - apply (I6 (i - 1) s k); [lia| |done]. unfold visits in *. rewrite S1, S2. replace (cursor w + 1 + (i - 1)) with (cursor w + i) by lia. done.
Qed.

Lemma visits_all w s : s ∈ sources w -> exists i, i < N.of_nat (length (sources w)) /\ visits w i = Some s.
Proof.
  intros (j & Hj)%list_elem_of_lookup. pose proof (lookup_lt_Some _ _ _ Hj) as Hlt. set (n := N.of_nat (length (sources w))) in *.
  assert (Hn : n <> 0) by lia. exists ((N.of_nat j + n - cursor w mod n) mod n). split; [by apply N.mod_lt|].
  unfold visits. fold n. rewrite N.Div0.add_mod_idemp_r, <- N.Div0.add_mod_idemp_l. pose proof (N.mod_lt (cursor w) n Hn).
  replace (cursor w mod n + (N.of_nat j + n - cursor w mod n)) with (N.of_nat j + 1 * n) by lia. rewrite N.Div0.mod_add, N.mod_small by lia. by rewrite Nat2N.id.
Qed.

(** A sweep reaches every source: a poll that starts a sweep, with budget and
    request slots for all sources and an executor that accepts its jobs, leaves an
    attempt under way for each registered source and only then waits for the retry
    interval. *)
Theorem sweep_visits_all w budget work now reload w' out s key :
  wstopped w = false -> loading w = true -> remaining w = 0 -> (wnext w <= now)%Z ->
  Forall (fun s => is_ok (encode_entity_key s.1 s.2) = true) (sources w) ->
  cursor w + N.of_nat (length (sources w)) < 2 ^ 64 -> N.of_nat (length (sources w)) <= budget - work ->
  N.of_nat (base.size (active w)) + N.of_nat (length (sources w)) <= wrequests w ->
  poll budget work now reload (fun _ => true) w = (w', out) -> s ∈ sources w -> encode_entity_key s.1 s.2 = Ok key ->
  is_Some (active w' !! key) /\ remaining w' = 0 /\ wnext w' = (now + ms (wretry w))%Z.
Proof.
  intros Hst Hlo Hrem Hnext Hok Hcur Hbud Hreq H Hin Hkey. unfold poll in H. rewrite Hst, Hlo in H. cbn [negb andb] in H.
  assert (Hne : sources w <> []) by (intros E; rewrite E in Hin; by apply elem_of_nil in Hin).
  rewrite (proj2 (is_empty_false (sources w)) Hne), Hrem in H. cbn [N.eqb andb] in H. rewrite (proj2 (Z.ltb_ge _ _) Hnext) in H.
  set (w0 := with_sweep w (cursor w) (N.of_nat (length (sources w))) (wnext w)) in H. cbn zeta in H.
  change (remaining w0) with (N.of_nat (length (sources w))) in H. rewrite N.min_l, Nat2N.id in H by done.
  pose proof (scan_loop_visits (length (sources w)) w0 Hne Hok Hcur Hreq) as Hl. cbv zeta in Hl.
  assert (Hret : wretry (scan_loop (length (sources w)) (fun _ => true) w0).1 = wretry w0).
  { clear. generalize (length (sources w)) w0. intros n. induction n as [|n IH]; intros v; cbn [scan_loop]; [done|]. destruct (_ <=? _); [done|].
    destruct (sources v !! _) as [x|]; [|done]. unfold scan at 1. destruct (encode_entity_key x.1 x.2) as [k|]; [destruct (active _ !! k)|].
    1,3: specialize (IH (with_sweep v (wrap64 (cursor v + 1)) (remaining v - 1) (wnext v))); destruct (scan_loop n _ _); exact IH.
    match goal with |- context [scan_loop n _ ?u] => specialize (IH u); destruct (scan_loop n _ u); exact IH end. }
  destruct (scan_loop _ _ w0) as [w1 o1]. cbn [fst] in *. destruct Hl as (L1 & L2 & L3 & L4 & L5 & L6).
  assert (Hz : remaining w1 = 0) by (rewrite L3; cbn; lia). rewrite Hz in H. cbn [N.eqb] in H. injection H as <- <-.
  split_and!; [|done|cbn; by rewrite Hret]. destruct (visits_all w0 s Hin) as (i & Hi & Hv). cbn. by apply (L6 i s key).
Qed.

(** ** One delivery at a time for each source *)

(** A request in flight, with the closure of its completion. *)
Inductive token :=
  | token_scan (a : Attempt) (source : bytes * bytes)
  | token_locate (a : Attempt) (p : purpose) (type id route payload : bytes)
  | token_call (a : Attempt) (p : purpose).

Definition holder (k : token) : Attempt := match k with token_scan a _ | token_locate a _ _ _ _ _ | token_call a _ => a end.

Definition tokens_of (out : list delivery_output) : list token :=
  omap (fun o => match o with
                 | job_scan a source => Some (token_scan a source)
                 | job_locate a p type id route payload => Some (token_locate a p type id route payload)
                 | delivery_sent a p _ _ _ _ => Some (token_call a p)
                 | _ => None end) out.

Record wsys := MkWorkerSys { worker : Worker; tokens : list token }.

Inductive worker_step : wsys -> wsys -> Prop :=
  | ws_poll x budget work now reload accepted w' out : poll budget work now reload accepted (worker x) = (w', out) ->
      worker_step x (MkWorkerSys w' (tokens x ++ tokens_of out))
  | ws_loaded x value now : worker_step x (MkWorkerSys (loaded value now (worker x)) (tokens x))
  | ws_scanned x l1 l2 a source found accepted w' out : tokens x = l1 ++ token_scan a source :: l2 -> scanned a found accepted (worker x) = (w', out) ->
      worker_step x (MkWorkerSys w' ((l1 ++ l2) ++ tokens_of out))
  | ws_located x l1 l2 a p type id route payload location wall t w' out : tokens x = l1 ++ token_locate a p type id route payload :: l2 ->
      located a p type id route payload location wall t (worker x) = (w', out) -> worker_step x (MkWorkerSys w' ((l1 ++ l2) ++ tokens_of out))
  | ws_delivered x l1 l2 a r accepted w' out : tokens x = l1 ++ token_call a Deliver :: l2 -> delivered a r accepted (worker x) = (w', out) ->
      worker_step x (MkWorkerSys w' ((l1 ++ l2) ++ tokens_of out))
  | ws_acked x l1 l2 a r : tokens x = l1 ++ token_call a Acknowledge :: l2 -> worker_step x (MkWorkerSys (acked a r (worker x)) (l1 ++ l2))
  | ws_stop x w' out : stop (worker x) = (w', out) -> worker_step x (MkWorkerSys w' (tokens x)).

Definition held (n : N) (l : list token) : nat := length (List.filter (fun k => attempt_id (holder k) =? n) l).

Lemma held_app n a b : held n (a ++ b) = (held n a + held n b)%nat.
Proof. unfold held. by rewrite List.filter_app, length_app. Qed.

Lemma held_mid n k l1 l2 : held n (l1 ++ k :: l2) = (held n (l1 ++ l2) + if (attempt_id (holder k) =? n)%N then 1 else 0)%nat.
Proof. rewrite !held_app. unfold held at 2. cbn [List.filter]. destruct (_ =? n); cbn; unfold held; lia. Qed.

(** The attempt's message cannot be encoded: the poll that found it threw. *)
Definition unencodable (a : Attempt) : Prop := exists e x, envelope a = Some e /\ encode_delivery e = Throw x.

Record worker_inv (x : wsys) : Prop := {
  wi_slots : length (wpeers (worker x)) = length (wendpoints (worker x));
  wi_keys : forall k a, active (worker x) !! k = Some a -> attempt_key a = k /\ attempt_id a <= wmade (worker x);
  wi_ids : forall k k' a a', active (worker x) !! k = Some a -> active (worker x) !! k' = Some a' -> attempt_id a = attempt_id a' -> k = k';
  wi_tokens : forall k, k ∈ tokens x -> attempt_id (holder k) <= wmade (worker x);
  wi_same : forall k a, k ∈ tokens x -> active (worker x) !! attempt_key a = Some a -> attempt_id (holder k) = attempt_id a -> attempt_key (holder k) = attempt_key a;
  wi_once : forall n, (held n (tokens x) <= 1)%nat;
  wi_waits : forall k a, active (worker x) !! k = Some a -> held (attempt_id a) (tokens x) = 1%nat \/ unencodable a;
  wi_limit : N.of_nat (base.size (active (worker x))) <= wrequests (worker x);
  wi_stopped : wstopped (worker x) = true -> active (worker x) = ∅ }.

(** What a completion does for its attempt. *)
Definition same_worker (w w' : Worker) : Prop :=
  wendpoints w' = wendpoints w /\ wrequests w' = wrequests w /\ length (wpeers w') = length (wpeers w) /\ wmade w' = wmade w /\ wstopped w' = wstopped w.

Inductive attempt_effect (w : Worker) (a : Attempt) : Worker -> list token -> Prop :=
  | ae_none w' : attempt_done a w = true \/ wstopped w = true -> same_worker w w' -> active w' = active w -> attempt_effect w a w' []
  | ae_finish w' : attempt_done a w = false -> same_worker w w' -> active w' = delete (attempt_key a) (active w) -> attempt_effect w a w' []
  | ae_next b w' l : attempt_done a w = false -> same_worker w w' -> attempt_id b = attempt_id a -> attempt_key b = attempt_key a ->
      active w' = <[attempt_key a := b]> (active w) \/ active w' = active w ->
      (exists k, l = [k] /\ attempt_id (holder k) = attempt_id a /\ attempt_key (holder k) = attempt_key a) \/
      (l = [] /\ active w' = <[attempt_key a := b]> (active w) /\ unencodable b) -> attempt_effect w a w' l.

Lemma done_false a w : attempt_done a w = false -> exists b, active w !! attempt_key a = Some b /\ attempt_id b = attempt_id a.
Proof. unfold attempt_done. destruct (active w !! attempt_key a) as [b|]; [|done]. intros H%negb_false_iff%N.eqb_eq. by exists b. Qed.

(** [x] with the token [k] consumed and the tokens [l] added. *)
Lemma effect_worker x l1 l2 k w' l : worker_inv x -> tokens x = l1 ++ k :: l2 -> attempt_effect (worker x) (holder k) w' l ->
  worker_inv (MkWorkerSys w' ((l1 ++ l2) ++ l)).
Proof.
  intros [I0 I1 I2 I3 I4 I5 I6 I7 I8] Et He. set (a := holder k) in *.
  assert (Hin : forall t, t ∈ l1 ++ l2 -> t ∈ tokens x) by (intros t; rewrite Et; set_solver).
  assert (Hka : k ∈ tokens x) by (rewrite Et; set_solver).
  assert (Hh : forall n, held n (tokens x) = (held n (l1 ++ l2) + if (attempt_id a =? n)%N then 1 else 0)%nat) by (intros n; rewrite Et; apply held_mid).
  assert (Hz : held (attempt_id a) (l1 ++ l2) = 0%nat).
  { pose proof (Hh (attempt_id a)) as H1. rewrite N.eqb_refl in H1. specialize (I5 (attempt_id a)). lia. }
  assert (Hother : forall n, n <> attempt_id a -> held n (l1 ++ l2) = held n (tokens x)).
  { intros n Hn. rewrite Hh. destruct (N.eqb_spec (attempt_id a) n); [congruence|lia]. }
  destruct He as [w' Hd (E1 & E2 & E3 & E4 & E5) Ha|w' Hd (E1 & E2 & E3 & E4 & E5) Ha|b w' l Hd (E1 & E2 & E3 & E4 & E5) Hbi Hbk Ha Hl].
  - rewrite app_nil_r. constructor; cbn [worker tokens]; rewrite ?Ha, ?E1, ?E2, ?E3, ?E4, ?E5; try done.
    + intros t Ht. by apply I3, Hin.
    + intros t c Ht. apply I4; auto.
    + intros n. destruct (decide (n = attempt_id a)) as [->|Hn]; [lia|]. rewrite Hother by done. apply I5.
    + intros key c Hc. destruct (decide (attempt_id c = attempt_id a)) as [E|E]; [|rewrite Hother by done; by eapply I6].
      exfalso. destruct Hd as [Hd|Hd]; [|by rewrite (I8 Hd), lookup_empty in Hc]. destruct (I1 _ _ Hc) as [Hk _]. subst key.
      pose proof (I4 k c Hka Hc ltac:(done)) as Hkk. fold a in Hkk. unfold attempt_done in Hd. rewrite Hkk, Hc, E, N.eqb_refl in Hd. done.
  - destruct (done_false _ _ Hd) as (c0 & Hc0 & Hid). rewrite app_nil_r. constructor; cbn [worker tokens]; rewrite ?Ha, ?E1, ?E2, ?E3, ?E4, ?E5; try done.
    + intros key c [_ Hc]%lookup_delete_Some. by apply I1.
    + intros k1 k2 c c' [_ H1]%lookup_delete_Some [_ H2]%lookup_delete_Some. by eapply I2.
    + intros t Ht. by apply I3, Hin.
    + intros t c Ht [_ Hc]%lookup_delete_Some. apply I4; auto.
    + intros n. destruct (decide (n = attempt_id a)) as [->|Hn]; [lia|]. rewrite Hother by done. apply I5.
    + intros key c [Hne Hc]%lookup_delete_Some. destruct (decide (attempt_id c = attempt_id a)) as [E|E]; [|rewrite Hother by done; by eapply I6].
      exfalso. apply Hne. symmetry. apply (I2 key (attempt_key a) c c0 Hc Hc0). congruence.
    + rewrite map_size_delete, Hc0. lia.
    + intros H. by rewrite (I8 H), delete_empty.
  - destruct (done_false _ _ Hd) as (c0 & Hc0 & Hid).
    assert (Hact : forall key c, active w' !! key = Some c -> (key = attempt_key a /\ attempt_id c = attempt_id a /\ attempt_key c = attempt_key a) \/ (key <> attempt_key a /\ active (worker x) !! key = Some c)).
    { intros key c Hc. destruct (decide (key = attempt_key a)) as [->|Hne]; [left|right].
      - split; [done|]. destruct Ha as [Ha|Ha]; rewrite Ha in Hc; [rewrite lookup_insert_eq in Hc; injection Hc as <-; done|].
        rewrite Hc in Hc0. injection Hc0 as ->. split; [done|by apply I1].
      - split; [done|]. destruct Ha as [Ha|Ha]; rewrite Ha in Hc; [by rewrite lookup_insert_ne in Hc|done]. }
    assert (Hnot : forall key c, active w' !! key = Some c -> key <> attempt_key a -> attempt_id c <> attempt_id a).
    { intros key c Hc Hne E. destruct (Hact key c Hc) as [[? _]|[_ H]]; [done|]. apply Hne. apply (I2 key (attempt_key a) c c0 H Hc0). congruence. }
    assert (Hnew : forall t, t ∈ l -> attempt_id (holder t) = attempt_id a /\ attempt_key (holder t) = attempt_key a).
    { intros t Ht. destruct Hl as [(t' & -> & ?)|[-> _]]; [apply list_elem_of_singleton in Ht as ->; done|by apply elem_of_nil in Ht]. }
    assert (Hheld : forall n, held n ((l1 ++ l2) ++ l) = if (n =? attempt_id a)%N then length l else held n (tokens x)).
    { intros n. rewrite held_app. destruct (N.eqb_spec n (attempt_id a)) as [->|Hn].
      - rewrite Hz. destruct Hl as [(t & -> & Hti & _)|[-> _]]; [|done]. unfold held. cbn. by rewrite Hti, N.eqb_refl.
      - rewrite Hother by done. destruct Hl as [(t & -> & Hti & _)|[-> _]]; [|unfold held; cbn; lia]. unfold held at 2. cbn. rewrite Hti, (proj2 (N.eqb_neq _ _)) by congruence. cbn. lia. }
    constructor; cbn [worker tokens]; rewrite ?E1, ?E2, ?E3, ?E4, ?E5; try done.
    + intros key c Hc. destruct (Hact key c Hc) as [(-> & Hi & Hk)|[Hne H]]; [|by apply I1]. split; [done|]. rewrite Hi. by apply I3.
    + intros k1 k2 c c' H1 H2 E. destruct (Hact _ _ H1) as [(-> & Hi & _)|[N1 G1]], (Hact _ _ H2) as [(-> & Hi' & _)|[N2 G2]]; try done.
      * exfalso. apply (Hnot _ _ H2 N2). congruence.
      * exfalso. apply (Hnot _ _ H1 N1). congruence.
      * by eapply I2.
    + intros t [Ht|Ht]%elem_of_app; [by apply I3, Hin|]. destruct (Hnew t Ht) as [-> _]. by apply I3.
    + intros t c Ht Hc E. destruct (Hact _ _ Hc) as [(_ & Hi & Hk)|[Hne H]].
      * apply elem_of_app in Ht as [Ht|Ht]; [|destruct (Hnew t Ht) as [_ ->]; congruence].
        exfalso. assert (Hp : (0 < held (attempt_id a) (l1 ++ l2))%nat); [|lia].
        apply list_elem_of_In in Ht. unfold held. destruct (List.filter _ _) eqn:Ef; [|cbn; lia].
        assert (Hf : List.In t (List.filter (fun k => attempt_id (holder k) =? attempt_id a) (l1 ++ l2))) by (apply filter_In; split; [done|apply N.eqb_eq; congruence]). by rewrite Ef in Hf.
      * apply elem_of_app in Ht as [Ht|Ht]; [by apply I4; auto|]. destruct (Hnew t Ht) as [Hx _]. exfalso. apply (Hnot _ _ Hc Hne). congruence.
    + intros n. rewrite Hheld. destruct (n =? _); [|apply I5]. destruct Hl as [(t & -> & _)|[-> _]]; cbn; lia.
    + intros key c Hc. rewrite Hheld. destruct (Hact key c Hc) as [(-> & Hi & _)|[Hne H]].
      * rewrite Hi, N.eqb_refl. destruct Hl as [(t & -> & _)|(-> & Hins & Hun)]; [by left|right]. rewrite Hins, lookup_insert_eq in Hc. by injection Hc as <-.
      * rewrite (proj2 (N.eqb_neq _ _)) by (by apply (Hnot key)). by eapply I6.
    + destruct Ha as [-> | ->]; [|done]. rewrite map_size_insert, Hc0. done.
    + intros H. by rewrite (I8 H), lookup_empty in Hc0.
Qed.

(** ** The completions *)

Lemma finish_attempt a b w : attempt_effect w a (finish a b w) [].
Proof. unfold finish. destruct (attempt_done a w) eqn:E; [apply ae_none; auto; done|]. by apply ae_finish; destruct b. Qed.

Lemma finish_from a b w w1 : same_worker w w1 -> active w1 = active w -> attempt_effect w a (finish a b w1) [].
Proof.
  intros Hs Ha. assert (Hd : attempt_done a w1 = attempt_done a w) by (unfold attempt_done; by rewrite Ha). unfold finish. rewrite Hd.
  destruct (attempt_done a w) eqn:E; [apply ae_none; auto|]. apply ae_finish; [done| |by destruct b; cbn; rewrite Ha].
  destruct Hs as (? & ? & ? & ? & ?). by destruct b.
Qed.

Lemma idle_attempt a w : wstopped w || attempt_done a w = true -> attempt_effect w a w [].
Proof. intros [H|H]%orb_true_iff; apply ae_none; auto; done. Qed.

(** [send] by the attempt [b], which took the place of [a]. *)
Lemma send_attempt a b p type id route payload accepted w w1 : attempt_done a w = false -> same_worker w w1 ->
  attempt_id b = attempt_id a -> attempt_key b = attempt_key a -> active w1 = <[attempt_key a := b]> (active w) \/ active w1 = active w ->
  attempt_effect w a (send b p type id route payload accepted w1).1 (tokens_of (send b p type id route payload accepted w1).2).
Proof.
  intros Hd Hs Hi Hk Ha. unfold send. destruct accepted; cbn [fst snd tokens_of omap list_omap].
  - apply (ae_next _ _ b); try done. left. by eexists.
  - assert (Hd1 : attempt_done b w1 = false).
    { unfold attempt_done in *. rewrite Hk, Hi. destruct Ha as [-> | ->]; [rewrite lookup_insert_eq, Hi, N.eqb_refl; done|done]. }
    unfold finish. rewrite Hd1. apply ae_finish; [done|by destruct Hs as (? & ? & ? & ? & ?)|]. cbn. rewrite Hk. destruct Ha as [-> | ->]; [apply delete_insert_eq|done].
Qed.

Lemma scanned_attempt a found accepted w w' out : scanned a found accepted w = (w', out) -> attempt_effect w a w' (tokens_of out).
Proof.
  unfold scanned. destruct (_ || _) eqn:E; [intros [= <- <-]; by apply idle_attempt|]. apply orb_false_iff in E as [_ Hd].
  destruct found as [[e retired]|]; [|intros [= <- <-]; apply finish_attempt]. cbn zeta. set (w1 := if retired then _ else w).
  assert (Hs : same_worker w w1 /\ active w1 = active w) by (by unfold w1; destruct retired). destruct Hs as [Hs Ha].
  destruct e as [e|]; [|intros [= <- <-]; by apply finish_from]. set (b := MkAttempt _ _ _). unfold deliver.
  destruct (encode_delivery e) as [payload|x] eqn:Ee; intros H.
  - pose proof (send_attempt a b Deliver (mtype (emessage e)) (mid (emessage e)) receive_route payload accepted w
      (with_counts (with_active w1 (<[attempt_key b := b]> (active w1))) (wrap64 (attempts w1 + 1)) (acknowledged w1) (wfailures w1)) Hd) as Hsd.
    cbn in H, Hsd. rewrite H in Hsd. apply Hsd; try done. left. by rewrite Ha.
  - injection H as <- <-. apply (ae_next _ _ b); try done; [left; cbn; by rewrite Ha|].
    right. split; [done|]. split; [cbn; by rewrite Ha|]. by exists e, x.
Qed.

Lemma located_attempt a p type id route payload location wall t w w' out : length (wpeers w) = length (wendpoints w) ->
  located a p type id route payload location wall t w = (w', out) -> attempt_effect w a w' (tokens_of out).
Proof.
  intros Hlen. unfold located. destruct (_ || _) eqn:E; [intros [= <- <-]; by apply idle_attempt|]. apply orb_false_iff in E as [_ Hd].
  destruct location as [l|]; [|intros [= <- <-]; apply finish_attempt].
  destruct (select_entity_endpoint _ _ _ _ _ _) as [i|] eqn:Ei; [|intros [= <- <-]; apply finish_attempt].
  assert (Hlt : (i < length (wendpoints w))%nat) by (apply select_from_lt in Ei as [Ei|Ei]; [done|lia]).
  destruct (lookup_lt_is_Some_2 (wendpoints w) i Hlt) as [e He]. destruct (lookup_lt_is_Some_2 (wpeers w) i) as [old Ho]; [by rewrite Hlen|].
  rewrite Ho, He. destruct (usable_peer t e old) as [peer|]; [|intros [= <- <-]; apply finish_attempt]. cbn zeta.
  assert (Hs : same_worker w (with_wpeers w (<[i := peer]> (wpeers w)))) by (unfold same_worker; cbn; by rewrite length_insert).
  destruct (call_throws t); intros [= <- <-]; [by apply finish_from|]. apply (ae_next _ _ a); try done; [by right|]. left. by eexists.
Qed.

Lemma delivered_attempt a r accepted w w' out : delivered a r accepted w = (w', out) -> attempt_effect w a w' (tokens_of out).
Proof.
  unfold delivered. destruct (_ || _) eqn:E; [intros [= <- <-]; by apply idle_attempt|]. apply orb_false_iff in E as [_ Hd].
  destruct (negb _); [intros [= <- <-]; apply finish_attempt|]. destruct (envelope a) as [e|]; [|intros [= <- <-]; apply finish_attempt].
  destruct (ack_payload e (rdata r)) as [payload|]; [|intros [= <- <-]; apply finish_attempt]. intros H.
  pose proof (send_attempt a a Acknowledge (source_type e) (source_id e) ack_route payload accepted w w Hd) as Hsd. rewrite H in Hsd. apply Hsd; auto; done.
Qed.

Lemma acked_attempt a r w : attempt_effect w a (acked a r w) [].
Proof. unfold acked. destruct (_ || _) eqn:E; [by apply idle_attempt|apply finish_attempt]. Qed.

(** ** Polling *)

Lemma update_worker x w' : worker_inv x -> same_worker (worker x) w' -> active w' = active (worker x) -> worker_inv (MkWorkerSys w' (tokens x)).
Proof.
  intros [I0 I1 I2 I3 I4 I5 I6 I7 I8] (E1 & E2 & E3 & E4 & E5) Ha. constructor; cbn [worker tokens]; rewrite ?Ha, ?E1, ?E2, ?E3, ?E4, ?E5; done.
Qed.

Lemma scan_worker x source accepted w' out : worker_inv x -> wstopped (worker x) = false -> N.of_nat (base.size (active (worker x))) < wrequests (worker x) ->
  scan source accepted (worker x) = (w', out) ->
  worker_inv (MkWorkerSys w' (tokens x ++ tokens_of out)) /\ wstopped w' = false /\ wrequests w' = wrequests (worker x).
Proof.
  intros Hi Hst Hlim. unfold scan. destruct (encode_entity_key _ _) as [key|]; [|intros [= <- <-]; cbn; rewrite app_nil_r; by destruct x].
  destruct (active (worker x) !! key) as [c|] eqn:Ek; [intros [= <- <-]; cbn; rewrite app_nil_r; by destruct x|]. cbn zeta.
  pose proof Hi as [I0 I1 I2 I3 I4 I5 I6 I7 I8]. set (a := MkAttempt _ _ _). set (w1 := MkWorker _ _ _ _ _ _ _ _ _ _ _ _ _ _ _ _ _ _).
  assert (Hz : held (attempt_id a) (tokens x) = 0%nat).
  { unfold held. destruct (List.filter _ _) as [|t l] eqn:E; [done|]. exfalso.
    assert (Ht : List.In t (List.filter (fun k => attempt_id (holder k) =? attempt_id a) (tokens x))) by (rewrite E; by left).
    apply filter_In in Ht as [Ht Hn%N.eqb_eq]. apply list_elem_of_In in Ht. specialize (I3 t Ht). cbn in Hn. lia. }
  destruct accepted; intros H.
  - injection H as <- <-. split; [|done]. assert (Hact : active w1 = <[key := a]> (active (worker x))) by done.
    constructor; cbn [worker tokens tokens_of omap list_omap]; rewrite ?Hact.
    + done.
    + intros k c [[<- <-]|[Hne Hc]]%lookup_insert_Some; [split; [done|cbn; lia]|]. destruct (I1 k c Hc). split; [done|cbn; lia].
    + intros k k' c c' [[<- <-]|[N1 H1]]%lookup_insert_Some [[<- <-]|[N2 H2]]%lookup_insert_Some E; try done.
      * destruct (I1 _ _ H2). cbn in E. lia.
      * destruct (I1 _ _ H1). cbn in E. lia.
      * by eapply I2.
    + intros t [Ht| ->%list_elem_of_singleton]%elem_of_app; [specialize (I3 t Ht); cbn; lia|cbn; lia].
    + intros t c Ht Hc E. apply lookup_insert_Some in Hc as [[Hk <-]|[N1 H1]].
      * apply elem_of_app in Ht as [Ht| ->%list_elem_of_singleton]; [|done]. specialize (I3 t Ht). cbn in E. lia.
      * apply elem_of_app in Ht as [Ht| ->%list_elem_of_singleton]; [by apply I4|]. destruct (I1 _ _ H1) as [_ Hb]. cbn in E. lia.
    + intros n. rewrite held_app. unfold held at 2. cbn [List.filter holder]. destruct (N.eqb_spec (attempt_id a) n) as [<-|]; cbn [length]; [lia|]. specialize (I5 n). lia.
    + intros k c [[<- <-]|[N1 H1]]%lookup_insert_Some; [left; rewrite held_app, Hz; unfold held; cbn [List.filter holder]; by rewrite N.eqb_refl|].
      destruct (I6 k c H1) as [H2|]; [left|by right]. rewrite held_app, H2. unfold held. cbn [List.filter holder]. destruct (N.eqb_spec (attempt_id a) (attempt_id c)) as [E|]; [|done].
      destruct (I1 _ _ H1). cbn in E. lia.
    + rewrite map_size_insert_None by done. cbn. lia.
    + cbn. by rewrite Hst.
  - assert (Hf : finish a false w1 = with_counts (with_active w1 (delete key (active w1))) (attempts w1) (acknowledged w1) (wrap64 (wfailures w1 + 1))).
    { unfold finish, attempt_done. cbn. by rewrite lookup_insert_eq, N.eqb_refl. }
    rewrite Hf in H. injection H as <- <-. split; [|done]. cbn [tokens_of omap list_omap]. rewrite app_nil_r.
    constructor; cbn [worker tokens]; cbn; rewrite ?delete_insert_id by done; try done.
    + intros k c Hc. destruct (I1 k c Hc). split; [done|lia].
    + intros t Ht. specialize (I3 t Ht). lia.
Qed.

Lemma scan_loop_worker n : forall x accepted w' out, worker_inv x -> wstopped (worker x) = false -> scan_loop n accepted (worker x) = (w', out) ->
  worker_inv (MkWorkerSys w' (tokens x ++ tokens_of out)).
Proof.
  induction n as [|n IH]; intros x accepted w' out Hi Hst; cbn [scan_loop]; [intros [= <- <-]; cbn; rewrite app_nil_r; by destruct x|].
  destruct (N.leb_spec (wrequests (worker x)) (N.of_nat (base.size (active (worker x))))) as [|Hlt]; [intros [= <- <-]; cbn; rewrite app_nil_r; by destruct x|].
  destruct (sources (worker x) !! _) as [source|]; [|intros [= <- <-]; cbn; rewrite app_nil_r; by destruct x].
  set (w0 := with_sweep _ _ _ _). assert (Hi0 : worker_inv (MkWorkerSys w0 (tokens x))) by by apply update_worker.
  destruct (scan source _ w0) as [w1 o1] eqn:E1. destruct (scan_worker (MkWorkerSys w0 (tokens x)) _ _ _ _ Hi0 Hst Hlt E1) as (H1 & H2 & _). cbn [tokens] in H1.
  destruct (scan_loop n _ w1) as [w2 o2] eqn:E2. intros [= <- <-].
  specialize (IH _ _ _ _ H1 H2 E2). cbn [tokens] in IH. unfold tokens_of in *. by rewrite omap_app, app_assoc.
Qed.

Lemma worker_step_inv x y : worker_inv x -> worker_step x y -> worker_inv y.
Proof.
  intros Hi H. destruct H as [x budget work now reload accepted w' out H|x value now|x l1 l2 a source found accepted w' out E H|x l1 l2 a p type id route payload location wall t w' out E H|x l1 l2 a r accepted w' out E H|x l1 l2 a r E|x w' out H].
  - unfold poll in H. destruct (wstopped (worker x)) eqn:Hst; [injection H as <- <-; cbn; rewrite app_nil_r; by destruct x|].
    set (f := if negb _ && _ then _ else _) in H.
    assert (Hf : same_worker (worker x) f.1 /\ active f.1 = active (worker x) /\ tokens_of f.2 = []).
    { unfold f. destruct (_ && _); [|done]. unfold load. by destruct reload. }
    destruct f as [w1 o1]. cbn [fst snd] in Hf. destruct Hf as (Hs & Ha & Ht). pose proof (update_worker x w1 Hi Hs Ha) as Hi1.
    destruct (is_empty (sources w1)); [injection H as <- <-; by rewrite Ht, app_nil_r|]. destruct (_ && _); [injection H as <- <-; by rewrite Ht, app_nil_r|].
    set (w2 := if remaining w1 =? 0 then _ else w1) in H. cbn zeta in H.
    assert (Hi2 : worker_inv (MkWorkerSys w2 (tokens x))) by (unfold w2; destruct (_ =? 0); [by apply (update_worker (MkWorkerSys w1 (tokens x)))|done]).
    assert (Hst2 : wstopped w2 = false) by (destruct Hs as (_ & _ & _ & _ & Hs); unfold w2; destruct (_ =? 0); cbn; congruence).
    destruct (scan_loop _ _ w2) as [w3 o3] eqn:E3. pose proof (scan_loop_worker _ (MkWorkerSys w2 (tokens x)) _ _ _ Hi2 Hst2 E3) as Hi3.
    injection H as <- <-. unfold tokens_of in *. rewrite omap_app, Ht. cbn [app tokens] in *. destruct (remaining w3 =? 0); [|done].
    by apply (update_worker (MkWorkerSys w3 _)).
  - assert (Hs : same_worker (worker x) (loaded value now (worker x)) /\ active (loaded value now (worker x)) = active (worker x)).
    { unfold loaded. destruct (wstopped (worker x)) eqn:Es; [done|]. destruct value; unfold same_worker; cbn; rewrite Es; split_and!; reflexivity. }
    by apply update_worker; [|apply Hs..].
  - eapply (effect_worker x l1 l2 (token_scan a source)); eauto. by eapply scanned_attempt.
  - eapply (effect_worker x l1 l2 (token_locate a p type id route payload)); eauto. eapply located_attempt; [apply Hi|done].
  - eapply (effect_worker x l1 l2 (token_call a Deliver)); eauto. by eapply delivered_attempt.
  - rewrite <- (app_nil_r (l1 ++ l2)). eapply (effect_worker x l1 l2 (token_call a Acknowledge)); eauto. apply acked_attempt.
  - unfold stop in H. destruct (wstopped (worker x)) eqn:Hst; injection H as <- <-; [by destruct x|].
    destruct Hi as [I0 I1 I2 I3 I4 I5 I6 I7 I8]. constructor; cbn; try done. rewrite map_size_empty. lia.
Qed.

Definition worker_start (endpoints : list EntityEndpoint) (requests : N) (retry refresh timeout_ms : Z) (x : wsys) : Prop :=
  exists w, entity_delivery endpoints requests retry refresh timeout_ms = Ok w /\ x = MkWorkerSys w [].

(** A source has at most one delivery under way: in every reachable state,
    each active attempt waits for exactly one storage job or transport call (unless
    its message cannot be encoded, which made the poll throw), no two requests in
    flight belong to the same attempt, two attempts never share a source, the
    attempts stay within the limit, and a stopped worker has none. *)
Theorem delivery_one_at_a_time endpoints requests retry refresh timeout_ms x y :
  worker_start endpoints requests retry refresh timeout_ms x -> rtc worker_step x y ->
  (forall k a, active (worker y) !! k = Some a -> attempt_key a = k /\ (held (attempt_id a) (tokens y) = 1%nat \/ unencodable a)) /\
  (forall n, (held n (tokens y) <= 1)%nat) /\
  (forall k k' a a', active (worker y) !! k = Some a -> active (worker y) !! k' = Some a' -> attempt_id a = attempt_id a' -> k = k') /\
  N.of_nat (base.size (active (worker y))) <= wrequests (worker y) /\ (wstopped (worker y) = true -> active (worker y) = ∅).
Proof.
  intros (w & Hw & ->) Hr. assert (Hi : worker_inv y).
  { assert (H0 : worker_inv (MkWorkerSys w [])).
    { unfold entity_delivery in Hw. apply bind_ok in Hw as (_ & _ & Hw). destruct (_ || _); [done|]. injection Hw as <-.
      constructor; cbn [worker tokens wpeers wendpoints active wmade wrequests wstopped]; try done;
        first [by rewrite length_replicate|by intros ? ?%elem_of_nil|by intros ? ? ?%elem_of_nil|rewrite map_size_empty; lia|intros n; unfold held; cbn; lia]. }
    induction Hr as [|a b c Hab _ IH]; [done|]. apply IH. by eapply worker_step_inv. }
  destruct Hi as [I0 I1 I2 I3 I4 I5 I6 I7 I8]. split_and!; [|done|done|done|done]. intros k a Hk. split; [by apply I1|by eapply I6].
Qed.

(** The acknowledgement the worker forwards is what the source's owner reads:
    the source, its epoch, and the ticket and result of the target's reply; and a
    reply with another ticket is never forwarded. *)
Theorem forwarded_ack_roundtrip e t r data :
  key_ok (source_type e) (source_id e) = true -> source_epoch e < 2 ^ 64 -> encode_delivery_ack t r = Ok data ->
  (t = ticket (emessage e) -> exists payload, ack_payload e data = Ok payload /\
     ack_request false true payload = inr (source_type e, source_id e, source_epoch e, t, r)) /\
  (t <> ticket (emessage e) -> ack_payload e data = Throw invalid_argument).
Proof.
  intros Hk He Hd. assert (Hdec : decode_delivery_ack data = Ok (t, r)) by by apply ack_decodes.
  unfold ack_payload. rewrite Hdec. cbn [bind]. split; [intros <-|intros Hne; by rewrite (proj2 (bytes_eqb_neq t _))].
  rewrite bytes_eqb_refl. cbn [negb]. rewrite (proj2 (encode_key_ok _ _ _) (conj Hk eq_refl)). cbn [bind].
  assert (Hsz : size data <= u32_max) by (pose proof (ack_size _ _ _ Hd); unfold delivery_payload_limit, u32_max in *; lia).
  rewrite blob_small by done. cbn [bind]. eexists. split; [done|]. unfold ack_request. cbn [negb].
  rewrite decode_key_app by done. cbn [bind]. rewrite read_integer_app by done. cbn [bind].
  rewrite <- (app_nil_r (wire_blob data)), read_blob_app by done. cbn [bind is_empty negb]. by rewrite Hdec.
Qed.

(** ** Witnesses *)

Definition sample_source : bytes * bytes := (lit "Player", lit "00000000000000a1").
Definition sample_neighbour : bytes * bytes := (lit "Shop", lit "00000000000000a2").

(** A destroyed entity with nothing pending, registered with another source. *)
Definition sample_registry : store :=
  match encode_entity_record (MkRecord (lit "n1/7") 5000 3 (MkSnapshot (lit "hp") [] no_delivery no_timers) true (lit "n1") 12
          (Some (MkMetadata (lit "Player") [] (repeat x05 32) true true (lit "hp=9") 1))), encode_delivery_sources [sample_source; sample_neighbour] with
  | Ok w, Ok l => put_store (put_store empty_store delivery_registry_key l 1) (entity_record_key (MkEntityId 161)) w 2
  | _, _ => empty_store
  end.

Lemma scan_keeps_deliveries_witness :
  let p := play (scan_job sample_source) sample_registry in
  p.1 = Return (Ok (None, true)) /\ registry p.2 = Ok [sample_neighbour] /\
  wp eq (retires sample_source) (scan_job sample_source) (scan_result sample_source) sample_registry.
Proof.
  split; [vm_compute; reflexivity|]. split; [vm_compute; reflexivity|]. apply scan_keeps_deliveries.
  unfold sample_registry. destruct (encode_entity_record _); [|exact empty_wf]. destruct (encode_delivery_sources _); [|exact empty_wf].
  by apply put_wf; [apply put_wf; [exact empty_wf|]|].
Defined.

Definition sample_endpoint : EntityEndpoint := MkEndpoint (lit "n1") (lit "10.0.0.1") 7000 [lit "Player"; lit "Shop"] [].
Definition sample_worker : Worker :=
  MkWorker [sample_endpoint] 4 100 1000 500 [0] [sample_source; sample_neighbour] ∅ 1 0 0 0 false true 0 0 0 0.

Lemma sweep_visits_all_witness :
  exists key, encode_entity_key sample_neighbour.1 sample_neighbour.2 = Ok key /\
    is_Some (active (poll 8 0 7 true (fun _ => true) sample_worker).1 !! key).
Proof.
  eexists. split; [vm_compute; reflexivity|].
  refine (proj1 (sweep_visits_all sample_worker 8 0 7 true _ _ sample_neighbour _ eq_refl eq_refl eq_refl _ _ _ _ _ (surjective_pairing _) _ _)).
  - cbn. lia.
  - repeat constructor.
  - cbn. lia.
  - cbn. lia.
  - vm_compute. done.
  - set_solver.
  - vm_compute. reflexivity.
Defined.

(** Two sources scanned, one of which has a message; its location is looked up. *)
Definition sample_new : Worker := MkWorker [sample_endpoint] 4 100 1000 500 [0] [] ∅ 0 0 0 0 false false 0 0 0 0.
Definition sample_loaded : Worker := loaded (Ok [sample_source; sample_neighbour]) 0 (poll 8 0 0 true (fun _ => true) sample_new).1.
Definition sample_swept : Worker * list delivery_output := poll 8 0 1 true (fun _ => true) sample_loaded.

Lemma delivery_one_at_a_time_witness :
  exists y, worker_start [sample_endpoint] 4 100 1000 500 (MkWorkerSys sample_new []) /\
    rtc worker_step (MkWorkerSys sample_new []) y /\ length (tokens y) = 2%nat /\ forall n, (held n (tokens y) <= 1)%nat.
Proof.
  exists (MkWorkerSys sample_swept.1 (tokens_of sample_swept.2)).
  assert (Hs : worker_start [sample_endpoint] 4 100 1000 500 (MkWorkerSys sample_new [])) by (eexists; split; [vm_compute; reflexivity|reflexivity]).
  assert (Hr : rtc worker_step (MkWorkerSys sample_new []) (MkWorkerSys sample_swept.1 (tokens_of sample_swept.2))).
  { eapply rtc_l; [eapply (ws_poll (MkWorkerSys sample_new []) 8 0 0 true (fun _ => true)); apply surjective_pairing|].
    eapply rtc_l; [apply (ws_loaded _ (Ok [sample_source; sample_neighbour]) 0)|].
    eapply rtc_l; [eapply (ws_poll _ 8 0 1 true (fun _ => true)); apply surjective_pairing|]. apply rtc_refl. }
  split; [exact Hs|]. split; [exact Hr|]. split; [vm_compute; reflexivity|].
  apply (delivery_one_at_a_time [sample_endpoint] 4 100 1000 500 _ _ Hs Hr).
Defined.

Lemma forwarded_ack_roundtrip_witness :
  exists data payload, encode_delivery_ack (ticket (emessage sample_envelope)) (MkResult ok (lit "done")) = Ok data /\ ack_payload sample_envelope data = Ok payload /\
    ack_request false true payload = inr (lit "Shop", lit "s1", 4, ticket (emessage sample_envelope), MkResult ok (lit "done")).
Proof.
  assert (H : exists data, encode_delivery_ack (ticket (emessage sample_envelope)) (MkResult ok (lit "done")) = Ok data) by (eexists; vm_compute; reflexivity).
  destruct H as [data H]. exists data.
  destruct (proj1 (forwarded_ack_roundtrip sample_envelope (ticket (emessage sample_envelope)) (MkResult ok (lit "done")) data
    ltac:(vm_compute; reflexivity) ltac:(vm_compute; reflexivity) H) eq_refl) as (payload & H1 & H2).
  exists payload. split; [exact H|]. split; [exact H1|exact H2].
Defined.
