(* ===== verification/TimerService.v ===== *)
(** * The timer service

    [EntityTimers] of [src/entity_timers.cpp]: the watches over the discovery index, the
    schedule that orders them, and the storage jobs that load a shard of the index and
    scan one entity.

    The [Watch] objects are shared between [watches], [schedule] and the completions of jobs:
    they live in [heap], and the tables hold pointers.  The host is a parameter of
    each operation: [now_ms()] is a sequence of readings, [schema(type)] a test. *)

From stdpp Require Import gmap.
From S2P Require Import Prelude OrderedMap Identity Values AttributeWire Messages Fields TimerState DeliveryState Records Storage StorageCorrect Programs TimerIndex Directory Transport.

#[global] Instance Entry_eq_dec : EqDecision Entry.
Proof. solve_decision. Defined.

Record Watch := MkWatch { wentry : Entry; wnext : Z; wrevision : N; wbusy : bool; wremoved : bool }.

Inductive Action := act_none | act_wake | act_fire.
Record Scan := MkScan { saction : Action; snext : Z; stimer : option EntityTimer }.

Record TimerLimits := MkTimerLimits { lpending : N; ltracked : N; lrefresh : Z; lretry : Z }.
Record TimerStats := MkTimerStats { npending : N; nfired : N; nfailures : N; ncapacity : N }.

(** The shared objects, [watches], [schedule] (in its order) and [members]. *)
Record Tables := MkTables {
  heap : gmap N Watch; made : N; watches : gmap bytes N; schedule : list (Z * bytes * N); members : list (list (bytes * unit)) }.

(** The state of the sweeps over the shards. *)
Record Sweep := MkSweep { srefresh : Z; scursor : N; sremaining : N; sidle : Z; observed_revision : N; rounds : N; verify_hints : bool }.

Record Timers := MkService {
  tlimits : TimerLimits; towner : bytes; tnode : bytes; tables : Tables; counters : TimerStats; sweep : Sweep; tstopped : bool }.

(** [unsigned] and [std::size_t] arithmetic *)
Definition wrap32 (n : N) : N := n mod 2 ^ 32.
Definition inc64 (n : N) : N := wrap64 (n + 1).
Definition dec64 (n : N) : N := wrap64 (n + (2 ^ 64 - 1)).

Definition day_ms : Z := 24 * 3600 * 1000.

(** [owner.substr(0, owner.find('/'))] *)
Fixpoint until_slash (s : bytes) : bytes :=
  match s with [] => [] | b :: s => if bool_decide (b = x2f) then [] else b :: until_slash s end.

Definition entity_timers (owner : bytes) (revision : N) (l : TimerLimits) : result Timers :=
  throw_if (lpending l <? 2) || (1024 <? lpending l) || (ltracked l =? 0) || (shards * per_shard <? ltracked l) ||
           (lrefresh l <=? 0)%Z || (lretry l <=? 0)%Z || (day_ms <? lrefresh l)%Z || (day_ms <? lretry l)%Z as invalid_argument ;;
  Ok (MkService l owner (until_slash owner) (MkTables ∅ 0 ∅ [] (replicate (N.to_nat shards) [])) (MkTimerStats 0 0 0 0)
        (MkSweep 0 0 0 (lrefresh l) revision 0 true) false).

Definition with_tables (s : Timers) (t : Tables) : Timers := MkService (tlimits s) (towner s) (tnode s) t (counters s) (sweep s) (tstopped s).
Definition with_counters (s : Timers) (c : TimerStats) : Timers := MkService (tlimits s) (towner s) (tnode s) (tables s) c (sweep s) (tstopped s).
Definition with_sweep (s : Timers) (w : Sweep) : Timers := MkService (tlimits s) (towner s) (tnode s) (tables s) (counters s) w (tstopped s).
Definition set_pending (s : Timers) (n : N) : Timers :=
  with_counters s (MkTimerStats n (nfired (counters s)) (nfailures (counters s)) (ncapacity (counters s))).
Definition add_failure (s : Timers) : Timers :=
  with_counters s (MkTimerStats (npending (counters s)) (nfired (counters s)) (inc64 (nfailures (counters s))) (ncapacity (counters s))).

(** ** The schedule: a [std::map] keyed by time and identity *)

Definition slot := (Z * bytes)%type.
Definition slot_cmp (a b : slot) : comparison := match (a.1 ?= b.1)%Z with Eq => bytes_cmp a.2 b.2 | c => c end.

Fixpoint sched_emplace (k : slot) (p : N) (s : list (slot * N)) : list (slot * N) :=
  match s with
  | [] => [(k, p)]
  | (k', p') :: s' =>
      match slot_cmp k k' with
      | Lt => (k, p) :: s
      | Eq => s
      | Gt => (k', p') :: sched_emplace k p s'
      end
  end.

Definition sched_erase (k : slot) (s : list (slot * N)) : list (slot * N) :=
  List.filter (fun e => match slot_cmp k e.1 with Eq => false | _ => true end) s.

(** ** Watches *)

Definition watch_key (w : Watch) : bytes := identity (itype (wentry w)) (iid (wentry w)).
Definition set_next (w : Watch) (t : Z) : Watch := MkWatch (wentry w) t (wrevision w) (wbusy w) (wremoved w).
Definition set_busy (w : Watch) (b : bool) : Watch := MkWatch (wentry w) (wnext w) (wrevision w) b (wremoved w).
Definition set_removed (w : Watch) : Watch := MkWatch (wentry w) (wnext w) (wrevision w) (wbusy w) true.
Definition set_entry (w : Watch) (e : Entry) : Watch := MkWatch e (wnext w) (inc64 (wrevision w)) (wbusy w) (wremoved w).

Definition with_heap (t : Tables) (h : gmap N Watch) : Tables := MkTables h (made t) (watches t) (schedule t) (members t).
Definition with_schedule (t : Tables) (s : list (slot * N)) : Tables := MkTables (heap t) (made t) (watches t) s (members t).

(** [due(watch, when)] *)
Definition due (p : N) (at_ms : Z) (t : Tables) : Tables :=
  match heap t !! p with
  | None => t
  | Some w =>
      let key := watch_key w in
      let s := sched_erase (wnext w, key) (schedule t) in
      with_schedule (with_heap t (<[p := set_next w at_ms]> (heap t)))
        (if wbusy w || wremoved w then s else sched_emplace (at_ms, key) p s)
  end.

(** [later(duration)] *)
Definition later (now duration : Z) : Z := if (INT64_MAX - duration <? now)%Z then INT64_MAX else (now + duration)%Z.

(** [watch->removed = true; watches.erase(key); schedule.erase(slot)] *)
Definition remove_watch (p : N) (key : bytes) (s : slot) (t : Tables) : Tables :=
  MkTables (alter set_removed p (heap t)) (made t) (delete key (watches t)) (sched_erase s (schedule t)) (members t).

(** A new watch, scheduled. *)
Definition add_watch (key : bytes) (e : Entry) (now : Z) (t : Tables) : Tables :=
  let p := made t + 1 in
  due p (if pending e then now else idue_ms e)
    (MkTables (<[p := MkWatch e 0 0 false false]> (heap t)) p (<[key := p]> (watches t)) (schedule t) (members t)).

(** A watch whose index entry changed. *)
Definition renew_watch (p : N) (key : bytes) (w : Watch) (e : Entry) (now : Z) (t : Tables) : Tables :=
  due p (if pending e then now else idue_ms e)
    (with_schedule (with_heap t (<[p := set_entry w e]> (heap t))) (sched_erase (wnext w, key) (schedule t))).

(** One iteration of the first loop of [load]'s completion: the tables, the capacity
    failures and the keys seen. *)
Definition load_entry (tracked : N) (schema : bytes -> bool) (now : Z) (st : Tables * N * list (bytes * unit)) (x : bytes * Entry)
    : Tables * N * list (bytes * unit) :=
  let '(t, full, seen) := st in
  let '(key, e) := x in
  if negb (schema (itype e)) then st
  else
    match watches t !! key with
    | Some p =>
        match heap t !! p with
        | Some w => (if bool_decide (wentry w = e) then t else renew_watch p key w e now t, full, (map_emplace key tt seen).1)
        | None => st
        end
    | None =>
        if tracked <=? N.of_nat (base.size (watches t)) then
          match last (schedule t) with
          | None => (t, inc64 full, seen)
          | Some (s, v) =>
              if (s.1 <=? idue_ms e)%Z then (t, inc64 full, seen)
              else (add_watch key e now (remove_watch v s.2 s t), inc64 full, (map_emplace key tt seen).1)
          end
        else (add_watch key e now t, full, (map_emplace key tt seen).1)
    end.

Fixpoint load_entries (tracked : N) (schema : bytes -> bool) (now : nat -> Z) (l : list (bytes * Entry)) (st : Tables * N * list (bytes * unit))
    : Tables * N * list (bytes * unit) :=
  match l with
  | [] => st
  | x :: l => load_entries tracked schema (fun n => now (S n)) l (load_entry tracked schema (now 0%nat) st x)
  end.

(** The second loop: watches of this shard that the index no longer names. *)
Definition drop_missing (seen : list (bytes * unit)) (t : Tables) (key : bytes) : Tables :=
  if map_contains key seen then t
  else
    match watches t !! key with
    | None => t
    | Some p => match heap t !! p with Some w => remove_watch p key (wnext w, key) t | None => t end
    end.

(** The completion of [load(index)]. *)
Definition loaded (index : N) (bucket : result (list (bytes * Entry))) (schema : bytes -> bool) (now : nat -> Z) (steady : Z) (s : Timers) : Timers :=
  if tstopped s then s
  else
    let s := set_pending s (dec64 (npending (counters s))) in
    match bucket with
    | Throw _ => add_failure s
    | Ok l =>
        let '(t, full, seen) := load_entries (ltracked (tlimits s)) schema now l (tables s, ncapacity (counters s), []) in
        let s := with_counters s (MkTimerStats (npending (counters s)) (nfired (counters s)) (nfailures (counters s)) full) in
        let w := sweep s in
        let s := if is_empty seen then s
                 else with_sweep s (MkSweep (steady + ms (lrefresh (tlimits s))) (scursor w) (sremaining w) (lrefresh (tlimits s))
                                      (observed_revision w) (rounds w) (verify_hints w)) in
        let t := fold_left (drop_missing seen) (keys (default [] (members t !! N.to_nat index))) t in
        with_tables s (MkTables (heap t) (made t) (watches t) (schedule t) (<[N.to_nat index := seen]> (members t)))
    end.

(** ** Storage jobs *)

(** The entries of a shard that may be placed on this node. *)
Fixpoint filter_placed (node : bytes) (verify : bool) (l : list (bytes * Entry)) : prog (list (bytes * Entry)) :=
  match l with
  | [] => Return (Ok [])
  | (key, e) :: l =>
      do p <- (if pending e || is_empty (iplacement e) || verify then
                 do id <- Return (entity_id_of_text (iid e));
                 do record <- db_get (entity_record_key id);
                 match record with
                 | None => Return (Ok (iplacement e))
                 | Some r => do v <- Return (decode_entity_record_view (svalue r)); Return (Ok (view_placement v))
                 end
               else Return (Ok (iplacement e)));
      do rest <- filter_placed node verify l;
      Return (Ok (if negb (is_empty p) && negb (bytes_eqb p node) then rest else (key, e) :: rest))
  end.

Definition load_job (index : N) (node : bytes) (verify : bool) : prog (list (bytes * Entry)) :=
  do bucket <- read index; filter_placed node verify (entries bucket).

(** The first of the earliest expired timers. *)
Definition earliest (time : Z) (best : option EntityTimer) (x : bytes * EntityTimer) : option EntityTimer :=
  if (due_ms x.2 <=? time)%Z && match best with None => true | Some b => (due_ms x.2 <? due_ms b)%Z end then Some x.2 else best.

(** Dropping the entry from the index: the next time to look. *)
Definition drop_entry (index : N) (key : bytes) (bucket : Bucket) (time : Z) : prog Scan :=
  do written <- write index (MkBucket (bversion bucket) (map_erase key (entries bucket)));
  Return (Ok (MkScan act_none (if written then INT64_MAX else time) None)).

(** A live record of this node: reconcile the index and find what is due. *)
Definition scan_record (e observed : Entry) (bucket : Bucket) (version : N) (v : EntityRecordView) (time late : Z) : prog Scan :=
  do timers <- Return (decode_snapshot_timers (view_snapshot v));
  if pending observed && negb (bytes_eqb (ttoken timers) (itoken observed)) && (version =? base_version observed)
  then Return (Ok (MkScan act_wake late None))
  else if is_empty (tentries timers) then drop_entry (shard (iid e)) (identity (itype e) (iid e)) bucket time
  else
    let next := next_entity_timer timers in
    let confirmed := MkIndexEntry (itype e) (iid e) (ttoken timers) version (view_fence v) next false (view_placement v) in
    do _ <- (if bool_decide (observed = confirmed) then Return (Ok true)
             else write (shard (iid e)) (MkBucket (bversion bucket) (map_insert (identity (itype e) (iid e)) confirmed (entries bucket))));
    if (time <? next)%Z then Return (Ok (MkScan act_none next None))
    else match fold_left (earliest time) (tentries timers) None with
         | Some t => Return (Ok (MkScan act_fire next (Some t)))
         | None => Return (Ok (MkScan act_none next None))
         end.

(** The entity, given the bucket that names it; [next] is [later(limits.refresh)]. *)
Definition scan_bucket (e : Entry) (time next : Z) (owner node : bytes) (bucket : Bucket) : prog Scan :=
  let index := shard (iid e) in
  let key := identity (itype e) (iid e) in
  match map_find key (entries bucket) with
  | None => Return (Ok (MkScan act_none INT64_MAX None))
  | Some observed =>
      do id <- Return (entity_id_of_text (iid e));
      do stored <- db_get (entity_record_key id);
      match stored with
      | None => drop_entry index key bucket time
      | Some r =>
          do v <- Return (decode_entity_record_view (svalue r));
          match view_metadata v with
          | None => throw runtime_error
          | Some m =>
              if negb (bytes_eqb (metadata_type m) (itype e)) then throw runtime_error
              else if destroyed m then drop_entry index key bucket time
              else if (negb (is_empty (view_placement v)) && negb (bytes_eqb (view_placement v) node)) ||
                      ((time <? view_expires_ms v)%Z && negb (bytes_eqb (view_owner v) owner))
              then Return (Ok (MkScan act_none next None))
              else scan_record e observed bucket (sversion r) v time next
          end
      end
  end.

(** The job of [scan]. *)
Definition scan_job (e : Entry) (time next : Z) (owner node : bytes) : prog Scan :=
  do bucket <- read (shard (iid e)); scan_bucket e time next owner node bucket.

(** ** The service *)

(** What the service hands to the storage executor and to the host. *)
Inductive timer_output :=
  | job_load (index : N) (verify : bool)
  | job_scan (p revision : N) (e : Entry) (time next : Z)
  | host_read (p revision : N) (action : Action) (type id : bytes)
  | host_fire (p revision : N) (type id key generation : bytes) (due : Z).

(** [load(index)]: whether the executor [accepted] the job. *)
Definition load (index : N) (accepted : bool) (schema : bytes -> bool) (now : nat -> Z) (steady : Z) (s : Timers) : Timers * list timer_output :=
  let s := set_pending s (inc64 (npending (counters s))) in
  if accepted then (s, [job_load index (verify_hints (sweep s))]) else (loaded index (Throw runtime_error) schema now steady s, []).

(** [finish(watch, revision, next, failure)]; [now] is the one reading it takes. *)
Definition finish (p revision : N) (next : Z) (failure : bool) (now : Z) (s : Timers) : Timers :=
  if tstopped s then s
  else
    let s := set_pending s (dec64 (npending (counters s))) in
    match heap (tables s) !! p with
    | None => s
    | Some w =>
        let s := with_tables s (with_heap (tables s) (<[p := set_busy w false]> (heap (tables s)))) in
        if wremoved w then s
        else
          let s := if failure then add_failure s else s in
          with_tables s (due p (if negb (wrevision w =? revision) then now else if failure then later now (lretry (tlimits s)) else next) (tables s))
    end.

(** The host's reply to a wake-up or a firing. *)
Definition replied (p revision : N) (action : Action) (r : Result) (now : nat -> Z) (s : Timers) : Timers :=
  if tstopped s then s
  else
    let good := bool_decide (rstatus r = ok) in
    let c := counters s in
    let s := if good && bytes_eqb (rdata r) (lit "1") && match action with act_fire => true | _ => false end
             then with_counters s (MkTimerStats (npending c) (inc64 (nfired c)) (nfailures c) (ncapacity c)) else s in
    finish p revision (now 0%nat) (negb good) (now 1%nat) s.

(** The completion of [scan]. *)
Definition scanned (p revision : N) (found : result Scan) (next : Z) (now : Z) (s : Timers) : Timers * list timer_output :=
  if tstopped s then (s, [])
  else
    match found, heap (tables s) !! p with
    | Throw _, _ => (finish p revision next true now s, [])
    | Ok r, Some w =>
        if wremoved w then (finish p revision (snext r) false now s, [])
        else
          match saction r, stimer r with
          | act_wake, _ => (s, [host_read p revision act_wake (itype (wentry w)) (iid (wentry w))])
          | act_fire, Some t => (s, [host_fire p revision (itype (wentry w)) (iid (wentry w)) (tkey t) (tgeneration t) (due_ms t)])
          | _, _ => (finish p revision (snext r) false now s, [])
          end
    | Ok r, None => (s, [])
    end.

(** [scan(watch)] *)
Definition scan (p : N) (accepted : bool) (now : nat -> Z) (s : Timers) : Timers * list timer_output :=
  match heap (tables s) !! p with
  | None => (s, [])
  | Some w =>
      let s := set_pending (with_tables s (with_heap (tables s) (<[p := set_busy w true]> (heap (tables s))))) (inc64 (npending (counters s))) in
      let next := later (now 1%nat) (lrefresh (tlimits s)) in
      if accepted then (s, [job_scan p (wrevision w) (wentry w) (now 0%nat) next])
      else scanned p (wrevision w) (Throw runtime_error) next (now 2%nat) s
  end.

(** The loop of [poll] over what is due; [n] bounds the budget left and each iteration has
    its own readings and answer of the executor. *)
Fixpoint due_loop (n : nat) (maximum : N) (time : Z) (schema : bytes -> bool) (accepted : nat -> bool) (now : nat -> nat -> Z) (s : Timers)
    : Timers * nat * list timer_output :=
  match n, schedule (tables s) with
  | S n', (key, p) :: rest =>
      if (npending (counters s) <? maximum) && (key.1 <=? time)%Z then
        let s := with_tables s (with_schedule (tables s) rest) in
        let known := match heap (tables s) !! p with Some w => schema (itype (wentry w)) | None => true end in
        let '(s, out) := if known then scan p (accepted 0%nat) (now 0%nat) s
                         else (with_tables s (due p (later (now 0%nat 0%nat) (lrefresh (tlimits s))) (tables s)), []) in
        let '(s, spare, more) := due_loop n' maximum time schema (fun i => accepted (S i)) (fun i => now (S i)) s in
        (s, spare, out ++ more)
      else (s, n, [])
  | _, _ => (s, n, [])
  end.

(** The end of a round. *)
Definition end_round (steady : Z) (s : Timers) : Timers :=
  let w := sweep s in
  with_sweep s (MkSweep (steady + ms (sidle w)) (scursor w) (sremaining w)
    (if decide (watches (tables s) = ∅) then Z.min (sidle w * 2) (lrefresh (tlimits s) * 16) else lrefresh (tlimits s))
    (observed_revision w) (rounds w) (verify_hints w)).

(** The loop of [poll] over the shards. *)
Fixpoint load_loop (n : nat) (schema : bytes -> bool) (accepted : nat -> bool) (now : nat -> nat -> Z) (steady : nat -> Z) (s : Timers)
    : Timers * nat * list timer_output :=
  match n with
  | O => (s, n, [])
  | S n' =>
      if negb (sremaining (sweep s) =? 0) && (npending (counters s) <? lpending (tlimits s)) then
        let '(s, out) := load (scursor (sweep s) mod shards) (accepted 0%nat) schema (now 0%nat) (steady 0%nat) s in
        if negb (accepted 0%nat) then (s, n, out)
        else
          let w := sweep s in
          let s := with_sweep s (MkSweep (srefresh w) (wrap32 (scursor w + 1)) (sremaining w - 1) (sidle w) (observed_revision w) (rounds w) (verify_hints w)) in
          let s := if sremaining (sweep s) =? 0 then end_round (steady 0%nat) s else s in
          let '(s, spare, more) := load_loop n' schema (fun i => accepted (S i)) (fun i => now (S i)) (fun i => steady (S i)) s in
          (s, spare, out ++ more)
      else (s, n, [])
  end.

(** The readings and answers one [poll] meets. *)
Record Readings := MkReadings {
  rrevision : N; rtime : Z; rchanged : Z; rsteady : Z; rschema : bytes -> bool;
  rscan : nat -> bool; rscan_now : nat -> nat -> Z; rload : nat -> bool; rload_now : nat -> nat -> Z; rload_steady : nat -> Z }.

(** A changed revision asks for a sweep; an elapsed interval starts one. *)
Definition begin_round (r : Readings) (s : Timers) : Timers :=
  let w := sweep s in
  let w := if observed_revision w =? rrevision r then w
           else MkSweep (rchanged r) (scursor w) (sremaining w) (lrefresh (tlimits s)) (rrevision r) (rounds w) (verify_hints w) in
  let w := if (sremaining w =? 0) && (srefresh w <=? rsteady r)%Z
           then MkSweep (srefresh w) (scursor w) shards (sidle w) (observed_revision w) (inc64 (rounds w)) (rounds w mod 16 =? 0)
           else w in
  with_sweep s w.

(** [poll(budget)] after the executor's completions took [work]: the service, the work
    done and the requests made. *)
Definition poll (budget work : N) (r : Readings) (s : Timers) : Timers * N * list timer_output :=
  if tstopped s then (s, work, [])
  else
    let s := begin_round r s in
    let maximum := lpending (tlimits s) - (if sremaining (sweep s) =? 0 then 0 else 1) in
    let '(s, spare, out) := due_loop (N.to_nat (budget - work)) maximum (rtime r) (rschema r) (rscan r) (rscan_now r) s in
    let '(s, spare, more) := load_loop spare (rschema r) (rload r) (rload_now r) (rload_steady r) s in
    (s, N.max budget work - N.of_nat spare, out ++ more).

(** [stop()] *)
Definition stop (s : Timers) : Timers :=
  if tstopped s then s
  else
    let c := counters s in
    let t := tables s in
    MkService (tlimits s) (towner s) (tnode s) (MkTables (heap t) (made t) ∅ [] (members t)) (MkTimerStats 0 (nfired c) (nfailures c) (ncapacity c)) (sweep s) true.
