(* ===== verification/TimerServiceCorrect.v ===== *)
(** * The timer service is correct

    No watch is forgotten and none is worked on twice: a tracked entity is either in the
    schedule, once, at its next time, or has exactly one request outstanding.  A scan changes
    the index only for its own entity and reports the earliest expired timer of the record
    it read. *)

From Stdlib Require Import Sorted.
From stdpp Require Import gmap.
From S2P Require Import Prelude OrderedMap Identity Values AttributeWire Messages Fields TimerState DeliveryState Records Storage StorageCorrect Programs TimerIndex TimerIndexCorrect Directory Transport TimerService.

(** ** The schedule *)

Definition slot_lt (a b : slot) : Prop := slot_cmp a b = Lt.

Lemma slot_cmp_eq a b : slot_cmp a b = Eq <-> a = b.
Proof.
  unfold slot_cmp. destruct a as [x a], b as [y b]. cbn. destruct (Z.compare_spec x y) as [->|H|H].
  - rewrite bytes_cmp_eq. split; [by intros ->|by intros [= ->]].
  - split; [done|]. intros [= -> _]. lia.
  - split; [done|]. intros [= -> _]. lia.
Qed.

Lemma slot_cmp_gt a b : slot_cmp a b = Gt -> slot_lt b a.
Proof.
  unfold slot_lt, slot_cmp. rewrite (Z.compare_antisym a.1 b.1). destruct (a.1 ?= b.1)%Z; cbn; [|done|done]. by intros ?%bytes_cmp_gt.
Qed.

#[global] Instance slot_lt_trans : Transitive slot_lt.
Proof.
  unfold slot_lt, slot_cmp. intros [x a] [y b] [z c]. cbn.
  destruct (Z.compare_spec x y), (Z.compare_spec y z), (Z.compare_spec x z); subst; try done; try lia. apply bytes_lt_trans.
Qed.

Lemma slot_lt_time a b : slot_lt a b -> (a.1 <= b.1)%Z.
Proof. unfold slot_lt, slot_cmp. destruct (Z.compare_spec a.1 b.1); [lia|lia|done]. Qed.

Lemma slot_lt_irrefl a : ~ slot_lt a a.
Proof. unfold slot_lt. intros H. by rewrite (proj2 (slot_cmp_eq a a)) in H. Qed.

Definition sched_sorted (s : list (slot * N)) : Prop := StronglySorted (fun a b => slot_lt a.1 b.1) s.

Lemma elem_erase k s x : x ∈ sched_erase k s <-> x ∈ s /\ x.1 <> k.
Proof.
  unfold sched_erase. rewrite !list_elem_of_In, filter_In. destruct (slot_cmp k x.1) eqn:E.
  - apply slot_cmp_eq in E as ->. naive_solver.
  - assert (x.1 <> k) by (intros Hk; rewrite Hk, (proj2 (slot_cmp_eq k k)) in E; done). naive_solver.
  - assert (x.1 <> k) by (intros Hk; rewrite Hk, (proj2 (slot_cmp_eq k k)) in E; done). naive_solver.
Qed.

Lemma elem_emplace k p s x : (forall p', (k, p') ∉ s) -> x ∈ sched_emplace k p s <-> x = (k, p) \/ x ∈ s.
Proof.
  induction s as [|[k' p'] s IH]; intros Hn; cbn [sched_emplace]; [set_solver|]. destruct (slot_cmp k k') eqn:E.
  - apply slot_cmp_eq in E as <-. exfalso. apply (Hn p'). set_solver.
  - set_solver.
  - rewrite !elem_of_cons, IH; [tauto|]. intros q Hq. apply (Hn q). set_solver.
Qed.

Lemma emplace_sorted k p s : sched_sorted s -> sched_sorted (sched_emplace k p s).
Proof.
  induction s as [|[k' p'] s IH]; intros Hs; cbn [sched_emplace]; [by repeat constructor|]. apply StronglySorted_inv in Hs as [Hs Hf].
  destruct (slot_cmp k k') eqn:E.
  - by constructor.
  - constructor; [by constructor|]. constructor; [done|]. eapply Forall_impl; [exact Hf|]. cbn. intros x Hx. by transitivity k'.
  - apply slot_cmp_gt in E. constructor; [by apply IH|]. apply Forall_forall. intros x Hx.
    assert (Hx' : x = (k, p) \/ x ∈ s).
    { clear -Hx. induction s as [|[a b] s IH]; cbn [sched_emplace] in Hx; [set_solver|]. destruct (slot_cmp k a); set_solver. }
    destruct Hx' as [->|Hx']; [done|]. rewrite Forall_forall in Hf. by apply Hf.
Qed.

Lemma erase_sorted k s : sched_sorted s -> sched_sorted (sched_erase k s).
Proof.
  induction s as [|x s IH]; intros Hs; [done|]. apply StronglySorted_inv in Hs as [Hs Hf]. unfold sched_erase in *. cbn [List.filter].
  destruct (slot_cmp k x.1); [by apply IH| |]; (constructor; [by apply IH|]); rewrite Forall_forall in *; intros y Hy; apply Hf;
    apply list_elem_of_In in Hy; apply filter_In in Hy as [Hy _]; by apply list_elem_of_In.
Qed.

(** ** Watches and schedule *)

(** The tables agree, but for the watch [q] that is being worked on and is not scheduled. *)
Record tables_inv (q : option N) (t : Tables) : Prop := {
  ti_watch : forall key p, watches t !! key = Some p -> exists w, heap t !! p = Some w /\ watch_key w = key /\ wremoved w = false;
  ti_live : forall p w, heap t !! p = Some w -> wremoved w = false -> watches t !! watch_key w = Some p;
  ti_sched : forall s p, (s, p) ∈ schedule t <->
    Some p <> q /\ exists w, heap t !! p = Some w /\ wremoved w = false /\ wbusy w = false /\ s = (wnext w, watch_key w);
  ti_sorted : sched_sorted (schedule t);
  ti_made : forall p w, heap t !! p = Some w -> p <= made t }.

Lemma live_unique q t p p' w w' : tables_inv q t -> heap t !! p = Some w -> heap t !! p' = Some w' -> wremoved w = false -> wremoved w' = false ->
  watch_key w = watch_key w' -> p = p'.
Proof. intros Hi H H' R R' E. pose proof (ti_live _ _ Hi _ _ H R). pose proof (ti_live _ _ Hi _ _ H' R'). congruence. Qed.

(** Changing a live watch [w] to [w'] and its place in the schedule. *)
Lemma touch_inv q t p w w' : tables_inv q t -> q = None \/ q = Some p -> heap t !! p = Some w -> wremoved w = false ->
  watch_key w' = watch_key w -> wremoved w' = false ->
  forall s, s = sched_erase (wnext w, watch_key w) (schedule t) ->
  tables_inv (if wbusy w' then None else Some p) (with_schedule (with_heap t (<[p := w']> (heap t))) s) /\
  tables_inv None (with_schedule (with_heap t (<[p := w']> (heap t))) (if wbusy w' then s else sched_emplace (wnext w', watch_key w') p s)).
Proof.
  intros Hi Hq Hp Hr Hk Hr' s ->. set (s := sched_erase _ _).
  assert (Hs : forall k p', (k, p') ∈ s <-> p' <> p /\ (k, p') ∈ schedule t).
  { intros k p'. unfold s. rewrite elem_erase, !(ti_sched _ _ Hi). cbn [fst]. split.
    - intros [(N1 & w1 & H1 & H2 & H3 & ->) Hne]. split; [|split; [done|by exists w1]]. intros ->. rewrite Hp in H1. injection H1 as <-. done.
    - intros [Hne (N1 & w1 & H1 & H2 & H3 & ->)]. split; [split; [done|by exists w1]|]. intros [= _ E]. apply Hne. by eapply (live_unique _ _ _ _ w1 w). }
  assert (Hoth : forall k p', p' <> p -> (k, p') ∈ schedule t <->
    exists w1, <[p := w']> (heap t) !! p' = Some w1 /\ wremoved w1 = false /\ wbusy w1 = false /\ k = (wnext w1, watch_key w1)).
  { intros k p' Hne. rewrite (ti_sched _ _ Hi), lookup_insert_ne by done. split; [by intros [_ H]|]. intros H. split; [|done]. destruct Hq as [->| ->]; congruence. }
  assert (Hfree : forall p', (wnext w', watch_key w', p') ∉ s).
  { intros p' [Hne H]%Hs. apply (ti_sched _ _ Hi) in H as (_ & w1 & H1 & H2 & _ & [= _ E]). apply Hne. by eapply (live_unique _ _ _ _ w1 w); eauto; congruence. }
  assert (H3 : forall key p', watches t !! key = Some p' -> exists w1, <[p := w']> (heap t) !! p' = Some w1 /\ watch_key w1 = key /\ wremoved w1 = false).
  { intros key p' H. destruct (decide (p' = p)) as [->|Hne]; [|rewrite lookup_insert_ne by done; by eapply ti_watch].
    rewrite lookup_insert_eq. exists w'. destruct (ti_watch _ _ Hi _ _ H) as (w1 & H1 & H2 & _). split; [done|]. split; [congruence|done]. }
  assert (H4 : forall p' w1, <[p := w']> (heap t) !! p' = Some w1 -> wremoved w1 = false -> watches t !! watch_key w1 = Some p').
  { intros p' w1 [[<- <-]|[Hne H]]%lookup_insert_Some R; [rewrite Hk; by eapply ti_live|by eapply ti_live]. }
  assert (H5 : forall p' w1, <[p := w']> (heap t) !! p' = Some w1 -> p' <= made t).
  { intros p' w1 [[<- <-]|[Hne H]]%lookup_insert_Some; by eapply ti_made. }
  split; constructor; cbn [watches heap schedule made with_schedule with_heap]; try done.
  - intros k p'. rewrite Hs. split.
    + intros [Hne H]. split; [destruct (wbusy w'); congruence|]. by apply Hoth.
    + intros (N1 & w1 & H & R1 & B1 & E). destruct (decide (p' = p)) as [->|Hne]; [|split; [done|]; apply Hoth; [done|by exists w1]].
      exfalso. rewrite lookup_insert_eq in H. injection H as <-. by rewrite B1 in N1.
  - apply erase_sorted, Hi.
  - intros k p'. destruct (wbusy w') eqn:Hb.
    + rewrite Hs. split; [intros [Hne H]; split; [done|]; by apply Hoth|]. intros (_ & w1 & H & R1 & B1 & E).
      destruct (decide (p' = p)) as [->|Hne]; [rewrite lookup_insert_eq in H; congruence|]. split; [done|]. apply Hoth; [done|by exists w1].
    + rewrite elem_emplace by done. rewrite Hs. split.
      * intros [[= -> ->]|[Hne H]]; split; [done| |done|by apply Hoth]. exists w'. by rewrite lookup_insert_eq.
      * intros (_ & w1 & H & R1 & B1 & E). destruct (decide (p' = p)) as [->|Hne].
        -- rewrite lookup_insert_eq in H. injection H as <-. left. by rewrite E.
        -- right. split; [done|]. apply Hoth; [done|by exists w1].
  - destruct (wbusy w'); [apply erase_sorted, Hi|apply emplace_sorted, erase_sorted, Hi].
Qed.

Definition busy_at (t : Tables) (p : N) : bool := match heap t !! p with Some w => wbusy w | None => false end.

Lemma due_inv q p w at_ms t : tables_inv q t -> q = None \/ q = Some p -> heap t !! p = Some w -> wremoved w = false -> tables_inv None (due p at_ms t).
Proof.
  intros Hi Hq Hp Hr. unfold due. rewrite Hp, Hr, orb_false_r. cbn zeta.
  exact (proj2 (touch_inv q t p w (set_next w at_ms) Hi Hq Hp Hr eq_refl Hr _ eq_refl)).
Qed.

Lemma due_busy p at_ms t p' : busy_at (due p at_ms t) p' = busy_at t p'.
Proof.
  unfold due, busy_at. destruct (heap t !! p) as [w|] eqn:Hp; [|done]. cbn. destruct (decide (p' = p)) as [->|Hne]; [by rewrite lookup_insert_eq, Hp|by rewrite lookup_insert_ne].
Qed.

Lemma due_watches p at_ms t : watches (due p at_ms t) = watches t /\ members (due p at_ms t) = members t.
Proof. unfold due. by destruct (heap t !! p). Qed.

Lemma remove_inv p w t : tables_inv None t -> heap t !! p = Some w -> wremoved w = false ->
  tables_inv None (remove_watch p (watch_key w) (wnext w, watch_key w) t).
Proof.
  intros Hi Hp Hr. assert (Hw : watches t !! watch_key w = Some p) by (by eapply ti_live).
  assert (Ha : alter set_removed p (heap t) !! p = Some (set_removed w)) by (by rewrite lookup_alter_eq, Hp).
  constructor; cbn [watches heap schedule made remove_watch].
  - intros key p' [Hne H]%lookup_delete_Some. destruct (ti_watch _ _ Hi _ _ H) as (w1 & H1 & H2 & H3). exists w1. split; [|done].
    rewrite lookup_alter_ne; [done|]. intros ->. rewrite Hp in H1. injection H1 as <-. done.
  - intros p' w1 H R. destruct (decide (p' = p)) as [->|Hne]; [rewrite Ha in H; by injection H as <-|]. rewrite lookup_alter_ne in H by done.
    rewrite lookup_delete_ne; [by eapply ti_live|]. intros E. apply Hne. symmetry. by eapply (live_unique _ _ _ _ w w1).
  - intros s p'. rewrite elem_erase, (ti_sched _ _ Hi). cbn [fst]. split.
    + intros [(_ & w1 & H1 & H2 & H3 & ->) Hne]. split; [done|]. exists w1. split; [|done]. rewrite lookup_alter_ne; [done|].
      intros ->. rewrite Hp in H1. injection H1 as <-. done.
    + intros (_ & w1 & H1 & H2 & H3 & ->). destruct (decide (p' = p)) as [->|Hne]; [rewrite Ha in H1; by injection H1 as <-|]. rewrite lookup_alter_ne in H1 by done.
      split; [split; [done|by exists w1]|]. intros [= _ E]. apply Hne. by eapply (live_unique _ _ _ _ w1 w).
  - apply erase_sorted, Hi.
  - intros p' w1 H. destruct (decide (p' = p)) as [->|Hne]; [by eapply ti_made|]. rewrite lookup_alter_ne in H by done. by eapply ti_made.
Qed.

Lemma remove_busy p key s t p' : busy_at (remove_watch p key s t) p' = busy_at t p'.
Proof.
  unfold busy_at. cbn. destruct (decide (p' = p)) as [->|Hne]; [rewrite lookup_alter_eq; by destruct (heap t !! p)|by rewrite lookup_alter_ne].
Qed.

Lemma add_inv e now t : tables_inv None t -> watches t !! identity (itype e) (iid e) = None -> tables_inv None (add_watch (identity (itype e) (iid e)) e now t).
Proof.
  intros Hi Hn. unfold add_watch. cbn zeta. set (p := made t + 1). set (w := MkWatch e 0 0 false false).
  assert (Hp : heap t !! p = None) by (destruct (heap t !! p) eqn:E; [|done]; pose proof (ti_made _ _ Hi _ _ E); lia).
  apply (due_inv (Some p) p w); [|by right|cbn; apply lookup_insert_eq|done]. constructor; cbn [watches heap schedule made].
  - intros key p' [[<- <-]|[Hne H]]%lookup_insert_Some; [exists w; by rewrite lookup_insert_eq|]. destruct (ti_watch _ _ Hi _ _ H) as (w1 & H1 & H2 & H3).
    exists w1. rewrite lookup_insert_ne; [done|]. intros <-. congruence.
  - intros p' w1 [[<- <-]|[Hne H]]%lookup_insert_Some R; [apply lookup_insert_eq|]. rewrite lookup_insert_ne; [by eapply ti_live|].
    intros E. rewrite E, (ti_live _ _ Hi _ _ H R) in Hn. done.
  - intros s p'. rewrite (ti_sched _ _ Hi). split.
    + intros (_ & w1 & H1 & H2). split; [intros [= ->]; congruence|]. exists w1. rewrite lookup_insert_ne; [done|congruence].
    + intros (Hne & w1 & H1 & H2). split; [done|]. exists w1. rewrite lookup_insert_ne in H1; [done|congruence].
  - apply Hi.
  - intros p' w1 [[<- <-]|[Hne H]]%lookup_insert_Some; [lia|]. pose proof (ti_made _ _ Hi _ _ H). lia.
Qed.

Lemma add_busy key e now t p' : tables_inv None t -> busy_at (add_watch key e now t) p' = busy_at t p'.
Proof.
  intros Hi. unfold add_watch. cbn zeta. rewrite due_busy. unfold busy_at. cbn. destruct (decide (p' = made t + 1)) as [->|Hne]; [|by rewrite lookup_insert_ne].
  rewrite lookup_insert_eq. destruct (heap t !! (made t + 1)) eqn:E; [|done]. pose proof (ti_made _ _ Hi _ _ E). lia.
Qed.

Lemma renew_inv p w e now t : tables_inv None t -> heap t !! p = Some w -> wremoved w = false -> watch_key w = identity (itype e) (iid e) ->
  tables_inv None (renew_watch p (watch_key w) w e now t).
Proof.
  intros Hi Hp Hr Hk. unfold renew_watch.
  apply (due_inv (if wbusy w then None else Some p) p (set_entry w e)); [|destruct (wbusy w); auto|cbn; apply lookup_insert_eq|done].
  exact (proj1 (touch_inv None t p w (set_entry w e) Hi (or_introl eq_refl) Hp Hr (eq_sym Hk) Hr _ eq_refl)).
Qed.

Lemma renew_busy p w key e now t p' : heap t !! p = Some w -> busy_at (renew_watch p key w e now t) p' = busy_at t p'.
Proof.
  intros Hp. unfold renew_watch. rewrite due_busy. unfold busy_at. cbn. destruct (decide (p' = p)) as [->|Hne]; [by rewrite lookup_insert_eq, Hp|by rewrite lookup_insert_ne].
Qed.

(** What the completion of a load keeps. *)
Definition tables_ok (tracked : N) (t0 t : Tables) : Prop :=
  tables_inv None t /\ N.of_nat (base.size (watches t)) <= tracked /\ (forall p, busy_at t p = busy_at t0 p) /\ length (members t) = length (members t0).

Lemma load_entry_ok tracked schema now t0 t full seen x : 1 <= tracked -> tables_ok tracked t0 t -> x.1 = identity (itype x.2) (iid x.2) ->
  tables_ok tracked t0 (load_entry tracked schema now (t, full, seen) x).1.1.
Proof.
  intros Ht (Hi & Hsz & Hb & Hm) Hx. destruct x as [key e]. cbn in Hx. subst key. unfold load_entry. destruct (schema _); [|done]. cbn [negb].
  destruct (watches t !! _) as [p|] eqn:Hw.
  - destruct (ti_watch _ _ Hi _ _ Hw) as (w & Hp & Hk & Hr). rewrite Hp. cbn [fst]. case_bool_decide; [done|]. rewrite <- Hk.
    split_and!; [by apply renew_inv|unfold renew_watch; rewrite (proj1 (due_watches _ _ _)); done| |unfold renew_watch; by rewrite (proj2 (due_watches _ _ _))].
    intros p'. by rewrite renew_busy.
  - destruct (N.leb_spec tracked (N.of_nat (base.size (watches t)))) as [Hfull|Hroom].
    + destruct (last (schedule t)) as [[s v]|] eqn:El; [|done]. destruct (_ <=? _)%Z; [done|]. cbn [fst].
      apply last_Some_elem_of in El. apply (ti_sched _ _ Hi) in El as (_ & w & H1 & H2 & H3 & ->). cbn [snd].
      pose proof (remove_inv v w t Hi H1 H2) as Hr. pose proof (ti_live _ _ Hi _ _ H1 H2) as Hlw.
      split_and!.
      * apply add_inv; [done|]. cbn. rewrite lookup_delete_ne; [done|]. intros E. rewrite E in Hlw. congruence.
      * unfold add_watch. rewrite (proj1 (due_watches _ _ _)). cbn. rewrite map_size_insert_None.
        2:{ rewrite lookup_delete_ne; [done|]. intros E. rewrite E in Hlw. congruence. }
        rewrite map_size_delete, Hlw. assert (base.size (watches t) <> 0%nat); [|lia]. intros E%map_size_empty_inv. by rewrite E, lookup_empty in Hlw.
      * intros p'. by rewrite add_busy, remove_busy by done.
      * unfold add_watch. by rewrite (proj2 (due_watches _ _ _)).
    + cbn [fst]. split_and!.
      * by apply add_inv.
      * unfold add_watch. rewrite (proj1 (due_watches _ _ _)). cbn. rewrite map_size_insert_None by done. lia.
      * intros p'. by rewrite add_busy by done.
      * unfold add_watch. by rewrite (proj2 (due_watches _ _ _)).
Qed.

(** ** Jobs against any storage *)

(** What a program may return, whatever the storage answers. *)
Inductive returns {A} : prog A -> result A -> Prop :=
  | returns_value r : returns (Return r) r
  | returns_get key k o r : returns (k o) r -> returns (Get key k) r
  | returns_get_throw key k e : returns (Get key k) (Throw e)
  | returns_cas key v x k b r : returns (k b) r -> returns (Cas key v x k) r
  | returns_cas_throw key v x k e : returns (Cas key v x k) (Throw e)
  | returns_erase key v k b r : returns (k b) r -> returns (Erase key v k) r
  | returns_erase_throw key v k e : returns (Erase key v k) (Throw e).

Lemma returns_bind {A B} (p : prog A) (f : A -> prog B) b : returns (pbind p f) (Ok b) -> exists a, returns p (Ok a) /\ returns (f a) (Ok b).
Proof.
  induction p as [[a|e]|key k IH|key v x k IH|key v k IH]; cbn [pbind]; intros H.
  - exists a. split; [constructor|done].
  - inversion H.
  - inversion H; subst. edestruct IH as (a & Ha & Hb); [eassumption|]. exists a. split; [by econstructor|done].
  - inversion H; subst. edestruct IH as (a & Ha & Hb); [eassumption|]. exists a. split; [by econstructor|done].
  - inversion H; subst. edestruct IH as (a & Ha & Hb); [eassumption|]. exists a. split; [by econstructor|done].
Qed.

Lemma returns_return {A} (r : result A) x : returns (Return r) x -> x = r.
Proof. by inversion 1. Qed.

(** The key of an index entry names the entity. *)
Definition keyed (x : bytes * Entry) : Prop := x.1 = identity (itype x.2) (iid x.2).

Lemma decode_bucket_keyed v m : decode_bucket v = Ok m -> Forall keyed m.
Proof.
  unfold decode_bucket. destruct (_ <? _); [done|]. destruct (negb _); [done|]. intros ([n i] & _ & H)%bind_ok. destruct (_ <? _); [done|].
  apply bind_ok in H as ([m' i'] & Hi & H). destruct (negb _); [done|]. injection H as <-.
  apply (iter_result_inv _ (fun st => Forall keyed st.1)) in Hi; [done|constructor|]. clear. intros [m input] st' H0 H. cbn [fst] in H0. unfold get_index_entry in H.
  apply bind_ok in H as ([ty i1] & _ & H). apply bind_ok in H as ([id i2] & _ & H). apply bind_ok in H as ([tok i3] & _ & H).
  apply bind_ok in H as ([base i4] & _ & H). apply bind_ok in H as ([fence i5] & _ & H). apply bind_ok in H as ([due i6] & _ & H).
  apply bind_ok in H as ([pl i7] & _ & H). destruct (_ <? _); [done|]. destruct i7 as [|f i8]; [done|]. destruct (_ <? _); [done|].
  apply bind_ok in H as (_ & _ & H). unfold map_emplace in H. destruct (map_contains _ m); [done|]. injection H as <-. cbn [fst].
  by apply Forall_map_insert.
Qed.

Lemma filter_placed_keyed node verify l m : Forall keyed l -> returns (filter_placed node verify l) (Ok m) -> Forall keyed m.
Proof.
  intros Hl. revert m. induction Hl as [|[key e] l Hk Hl IH]; intros m; cbn [filter_placed]; [intros [= ->]%returns_return; constructor|].
  intros (p & _ & H)%returns_bind. apply returns_bind in H as (rest & Hr & [= ->]%returns_return). destruct (_ && _); [by apply IH|]. constructor; [done|by apply IH].
Qed.

Lemma load_job_keyed index node verify m : returns (load_job index node verify) (Ok m) -> Forall keyed m.
Proof.
  unfold load_job. intros (b & Hb & H)%returns_bind. eapply filter_placed_keyed; [|exact H]. clear H. unfold read in Hb.
  apply returns_bind in Hb as (k & _ & Hb). apply returns_bind in Hb as (o & _ & Hb). destruct o as [r|]; [|apply returns_return in Hb as [= ->]; constructor].
  apply returns_bind in Hb as (x & Hx%returns_return & [= ->]%returns_return). cbn. by eapply decode_bucket_keyed.
Qed.

(** ** Requests outstanding *)

Definition watch_of (o : timer_output) : option N :=
  match o with job_load _ _ => None | job_scan p _ _ _ _ | host_read p _ _ _ _ | host_fire p _ _ _ _ _ _ => Some p end.
Definition uses (p : N) (l : list timer_output) : nat := length (List.filter (fun o => bool_decide (watch_of o = Some p)) l).

Lemma uses_app p a b : uses p (a ++ b) = (uses p a + uses p b)%nat.
Proof. unfold uses. by rewrite List.filter_app, length_app. Qed.

Lemma uses_mid p o l1 l2 : uses p (l1 ++ o :: l2) = (uses p (l1 ++ l2) + if bool_decide (watch_of o = Some p) then 1 else 0)%nat.
Proof. rewrite !uses_app. unfold uses at 2. cbn [List.filter]. destruct (bool_decide _); cbn; unfold uses; lia. Qed.

Definition limits_ok (l : TimerLimits) : Prop := 2 <= lpending l <= 1024 /\ 1 <= ltracked l.

(** A running service with [l] outstanding: [q] is the watch that [poll] took from the schedule. *)
Record live_inv (q : option N) (s : Timers) (l : list timer_output) : Prop := {
  lv_limits : limits_ok (tlimits s);
  lv_tables : tables_inv q (tables s);
  lv_tracked : N.of_nat (base.size (watches (tables s))) <= ltracked (tlimits s);
  lv_pending : npending (counters s) = N.of_nat (length l);
  lv_bound : npending (counters s) <= lpending (tlimits s);
  lv_uses : forall p, uses p l = Nat.b2n (busy_at (tables s) p) }.

Lemma dec_pending s n : npending (counters s) = N.of_nat (S n) -> npending (counters s) <= lpending (tlimits s) -> limits_ok (tlimits s) ->
  dec64 (npending (counters s)) = N.of_nat n.
Proof. intros -> H [Hl _]. unfold dec64, wrap64. rewrite Nat2N.inj_succ in *. replace (N.succ (N.of_nat n) + (2 ^ 64 - 1)) with (N.of_nat n + 1 * 2 ^ 64) by lia. rewrite N.Div0.mod_add, N.mod_small; lia. Qed.

Lemma inc_pending s n : npending (counters s) = N.of_nat n -> npending (counters s) < lpending (tlimits s) -> limits_ok (tlimits s) ->
  inc64 (npending (counters s)) = N.of_nat (S n).
Proof. intros E H [Hl _]. unfold inc64, wrap64. rewrite E in *. rewrite N.mod_small; lia. Qed.

Lemma tables_ok_entries tracked schema l : forall now t0 t full seen, 1 <= tracked -> tables_ok tracked t0 t -> Forall keyed l ->
  tables_ok tracked t0 (load_entries tracked schema now l (t, full, seen)).1.1.
Proof.
  induction l as [|x l IH]; intros now t0 t full seen Ht Hok Hf; cbn [load_entries]; [done|]. apply Forall_cons in Hf as [Hx Hf].
  pose proof (load_entry_ok tracked schema (now 0%nat) t0 t full seen x Ht Hok Hx) as H.
  destruct (load_entry _ _ _ _ x) as [[t' full'] seen']. by apply IH.
Qed.

Lemma tables_ok_drop tracked seen t0 l : forall t, tables_ok tracked t0 t -> tables_ok tracked t0 (fold_left (drop_missing seen) l t).
Proof.
  induction l as [|key l IH]; intros t Hok; cbn [fold_left]; [done|]. apply IH. unfold drop_missing. destruct (map_contains key seen); [done|].
  destruct (watches t !! key) as [p|] eqn:Hw; [|done]. destruct Hok as (Hi & Hsz & Hb & Hm). destruct (ti_watch _ _ Hi _ _ Hw) as (w & Hp & Hk & Hr).
  rewrite Hp. subst key. split_and!; [by apply remove_inv| |intros; by rewrite remove_busy|done].
  cbn. rewrite map_size_delete, Hw. lia.
Qed.

Lemma loaded_live q index verify bucket schema now steady s l1 l2 : q = None -> live_inv q s (l1 ++ job_load index verify :: l2) -> tstopped s = false ->
  (forall m, bucket = Ok m -> Forall keyed m) -> live_inv q (loaded index bucket schema now steady s) (l1 ++ l2).
Proof.
  intros -> [H0 H1 H2 H3 H4 H5] Hs Hk. unfold loaded. rewrite Hs. cbn zeta.
  assert (Hl : length (l1 ++ job_load index verify :: l2) = S (length (l1 ++ l2))) by (rewrite !length_app; cbn; lia). rewrite Hl in H3.
  assert (Hu : forall p, uses p (l1 ++ l2) = Nat.b2n (busy_at (tables s) p)).
  { intros p. rewrite <- H5, uses_mid. cbn [watch_of]. rewrite bool_decide_eq_false_2 by done. lia. }
  pose proof (dec_pending s _ H3 H4 H0) as Hd. assert (Hb : N.of_nat (length (l1 ++ l2)) <= lpending (tlimits s)) by lia.
  destruct bucket as [m|]; [|constructor; cbn; try done; rewrite Hd; done].
  pose proof (tables_ok_entries (ltracked (tlimits s)) schema m now (tables s) (tables s) (ncapacity (counters s)) [] (proj2 H0)
    ltac:(done) (Hk m eq_refl)) as Hok. cbn [tlimits set_pending with_counters tables counters ncapacity npending].
  destruct (load_entries _ _ _ m _) as [[t full] seen]. cbn [fst] in Hok.
  pose proof (tables_ok_drop _ seen _ (keys (default [] (members t !! N.to_nat index))) t Hok) as (K1 & K2 & K3 & K4).
  destruct (is_empty seen); (constructor; cbn; [done|by destruct K1; constructor|done|done|by rewrite Hd|intros p; rewrite Hu, <- K3; done]).
Qed.

(** ** Finishing *)

Lemma unbusy_inv t p w : tables_inv None t -> heap t !! p = Some w -> wbusy w = true ->
  tables_inv (if wremoved w then None else Some p) (with_heap t (<[p := set_busy w false]> (heap t))).
Proof.
  intros Hi Hp Hb. constructor; cbn [watches heap schedule made with_heap].
  - intros key p' H. destruct (ti_watch _ _ Hi _ _ H) as (w1 & H1 & H2 & H3). destruct (decide (p' = p)) as [->|Hne]; [|exists w1; by rewrite lookup_insert_ne].
    rewrite Hp in H1. injection H1 as <-. exists (set_busy w false). by rewrite lookup_insert_eq.
  - intros p' w1 [[<- <-]|[Hne H]]%lookup_insert_Some R; [exact (ti_live _ _ Hi _ _ Hp R)|by eapply ti_live].
  - intros s p'. rewrite (ti_sched _ _ Hi). split.
    + intros (_ & w1 & H1 & H2 & H3 & ->). assert (p' <> p) by congruence. split; [destruct (wremoved w); congruence|]. exists w1. by rewrite lookup_insert_ne.
    + intros (Hne & w1 & H1 & H2 & H3 & ->). split; [done|]. apply lookup_insert_Some in H1 as [[<- <-]|[Hne' H1]]; [|by exists w1].
      cbn in H2. by rewrite H2 in Hne.
  - apply Hi.
  - intros p' w1 [[<- <-]|[Hne H]]%lookup_insert_Some; by eapply ti_made.
Qed.

Lemma finish_live p revision next failure now s o l1 l2 : live_inv None s (l1 ++ o :: l2) -> tstopped s = false -> watch_of o = Some p ->
  live_inv None (finish p revision next failure now s) (l1 ++ l2).
Proof.
  intros [H0 H1 H2 H3 H4 H5] Hs Ho. unfold finish. rewrite Hs. cbn zeta.
  assert (Hl : length (l1 ++ o :: l2) = S (length (l1 ++ l2))) by (rewrite !length_app; cbn; lia). rewrite Hl in H3.
  pose proof (dec_pending s _ H3 H4 H0) as Hd. assert (Hb : N.of_nat (length (l1 ++ l2)) <= lpending (tlimits s)) by lia.
  pose proof (H5 p) as Hp. rewrite uses_mid, bool_decide_eq_true_2 in Hp by done. unfold busy_at in Hp. cbn [tables set_pending with_counters].
  destruct (heap (tables s) !! p) as [w|] eqn:Hw; [|cbn in Hp; lia]. destruct (wbusy w) eqn:Hbusy; [|cbn in Hp; lia]. cbn [Nat.b2n] in Hp.
  pose proof (unbusy_inv _ p w H1 Hw Hbusy) as Hi. set (t := with_heap (tables s) _) in *.
  assert (Hu : forall p', uses p' (l1 ++ l2) = Nat.b2n (busy_at t p')).
  { intros p'. unfold busy_at, t. cbn. destruct (decide (p' = p)) as [->|Hne]; [rewrite lookup_insert_eq; cbn; lia|]. rewrite lookup_insert_ne by done.
    specialize (H5 p'). rewrite uses_mid, bool_decide_eq_false_2 in H5 by congruence. unfold busy_at in H5. lia. }
  assert (Ht : heap t !! p = Some (set_busy w false)) by apply lookup_insert_eq.
  destruct (wremoved w) eqn:Hr; [by constructor; cbn; rewrite ?Hd|].
  destruct failure; (constructor; cbn; rewrite ?Hd; [done|eapply due_inv; [exact Hi|by right|exact Ht|done]|by rewrite (proj1 (due_watches _ _ _))|done|done|intros p'; by rewrite due_busy]).
Qed.

Lemma finish_stopped p revision next failure now s : tstopped (finish p revision next failure now s) = tstopped s /\ tlimits (finish p revision next failure now s) = tlimits s.
Proof. unfold finish. destruct (tstopped s) eqn:Hs; [done|]. cbn zeta. destruct (heap _ !! p); [|done]. destruct (wremoved _); [done|]. by destruct failure. Qed.

Lemma replied_live p revision action r now s o l1 l2 : live_inv None s (l1 ++ o :: l2) -> tstopped s = false -> watch_of o = Some p ->
  live_inv None (replied p revision action r now s) (l1 ++ l2).
Proof.
  intros [H0 H1 H2 H3 H4 H5] Hs Ho. unfold replied. rewrite Hs. cbn zeta. eapply finish_live; [|by destruct (_ && _)|done]. by destruct (_ && _); constructor.
Qed.

Lemma scanned_live p revision found next now s o l1 l2 s' out : live_inv None s (l1 ++ o :: l2) -> tstopped s = false -> watch_of o = Some p ->
  scanned p revision found next now s = (s', out) -> live_inv None s' ((l1 ++ l2) ++ out) /\ tstopped s' = false /\ tlimits s' = tlimits s.
Proof.
  intros Hl Hs Ho. unfold scanned. rewrite Hs.
  assert (Hf : forall r f, live_inv None (finish p revision r f now s) ((l1 ++ l2) ++ []) /\ tstopped (finish p revision r f now s) = false /\ tlimits (finish p revision r f now s) = tlimits s).
  { intros r f. rewrite app_nil_r. split; [by eapply finish_live|]. destruct (finish_stopped p revision r f now s) as [-> ->]. done. }
  assert (Hk : forall o', watch_of o' = Some p -> live_inv None s ((l1 ++ l2) ++ [o'])).
  { intros o' Ho'. destruct Hl as [H0 H1 H2 H3 H4 H5]. constructor; try done; [rewrite H3, !length_app; cbn; lia|]. intros p'. rewrite <- H5, !uses_mid, Ho, Ho', app_nil_r. done. }
  destruct found as [r|]; [|by intros [= <- <-]]. destruct (heap (tables s) !! p) as [w|] eqn:Hw.
  - destruct (wremoved w); [by intros [= <- <-]|].
    destruct (saction r); [by intros [= <- <-]|intros [= <- <-]; split; [by apply Hk|done]|]. destruct (stimer r); [intros [= <- <-]; split; [by apply Hk|done]|by intros [= <- <-]].
  - exfalso. pose proof (lv_uses _ _ _ Hl p) as H5. rewrite uses_mid, bool_decide_eq_true_2 in H5 by done. unfold busy_at in H5. rewrite Hw in H5. cbn in H5. lia.
Qed.

(** ** Polling *)

Lemma sched_pop_inv t k p rest : tables_inv None t -> schedule t = (k, p) :: rest ->
  tables_inv (Some p) (with_schedule t rest) /\ exists w, heap t !! p = Some w /\ wremoved w = false /\ wbusy w = false /\ k = (wnext w, watch_key w).
Proof.
  intros Hi Hs. pose proof (ti_sorted _ _ Hi) as Hsort. rewrite Hs in Hsort. apply StronglySorted_inv in Hsort as [Hsort Hf]. rewrite Forall_forall in Hf.
  assert (Hin : (k, p) ∈ schedule t) by (rewrite Hs; by left). pose proof (proj1 (ti_sched _ _ Hi k p) Hin) as (_ & w & Hw & Hr & Hb & Hk).
  split; [|by exists w]. constructor; cbn [watches heap schedule made with_schedule]; [apply Hi|apply Hi| |done|apply Hi].
  intros s p'. transitivity ((s, p') ∈ schedule t /\ p' <> p).
  - rewrite Hs, elem_of_cons. split.
    + intros H. split; [by right|]. intros ->. assert (Hin2 : (s, p) ∈ schedule t) by (rewrite Hs; by right).
      apply (ti_sched _ _ Hi) in Hin2 as (_ & w2 & Hw2 & _ & _ & ->). rewrite Hw in Hw2. injection Hw2 as <-. specialize (Hf _ H). cbn in Hf. rewrite Hk in Hf. by apply slot_lt_irrefl in Hf.
    + intros [[[= _ ->]|H] Hne]; [done|exact H].
  - rewrite (ti_sched _ _ Hi). split; [intros [[_ H] Hne]; split; [congruence|done]|]. intros [Hne H]. split; [done|congruence].
Qed.

Lemma watch_busy_inv t p w : tables_inv (Some p) t -> heap t !! p = Some w -> tables_inv None (with_heap t (<[p := set_busy w true]> (heap t))).
Proof.
  intros Hi Hp. constructor; cbn [watches heap schedule made with_heap].
  - intros key p' H. destruct (ti_watch _ _ Hi _ _ H) as (w1 & H1 & H2 & H3). destruct (decide (p' = p)) as [->|Hne]; [|exists w1; by rewrite lookup_insert_ne].
    rewrite Hp in H1. injection H1 as <-. exists (set_busy w true). by rewrite lookup_insert_eq.
  - intros p' w1 [[<- <-]|[Hne H]]%lookup_insert_Some R; [exact (ti_live _ _ Hi _ _ Hp R)|by eapply ti_live].
  - intros s p'. rewrite (ti_sched _ _ Hi). split.
    + intros (Hne & w1 & H1 & H2). split; [done|]. exists w1. rewrite lookup_insert_ne; [done|congruence].
    + intros (_ & w1 & H1 & H2 & H3 & H4). apply lookup_insert_Some in H1 as [[<- <-]|[Hne H1]]; [done|]. split; [congruence|by exists w1].
  - apply Hi.
  - intros p' w1 [[<- <-]|[Hne H]]%lookup_insert_Some; by eapply ti_made.
Qed.

Lemma scan_live p w accepted now s l s' out : live_inv (Some p) s l -> tstopped s = false -> heap (tables s) !! p = Some w -> wbusy w = false ->
  npending (counters s) < lpending (tlimits s) -> scan p accepted now s = (s', out) -> live_inv None s' (l ++ out) /\ tstopped s' = false /\ tlimits s' = tlimits s.
Proof.
  intros [H0 H1 H2 H3 H4 H5] Hs Hw Hb Hlt. unfold scan. rewrite Hw. cbn zeta. set (s1 := set_pending _ _). set (o := job_scan p (wrevision w) (wentry w) (now 0%nat) (later (now 1%nat) (lrefresh (tlimits s1)))).
  assert (Hl : live_inv None s1 (l ++ [o])).
  { pose proof (inc_pending s _ H3 Hlt H0) as Hinc. constructor; cbn; rewrite ?Hinc; try done.
    - by apply watch_busy_inv.
    - rewrite length_app. cbn. lia.
    - lia.
    - intros p'. rewrite uses_app, H5. unfold busy_at. cbn. destruct (decide (p' = p)) as [->|Hne].
      + rewrite Hw, Hb, lookup_insert_eq. unfold uses. cbn. by rewrite bool_decide_eq_true_2.
      + rewrite lookup_insert_ne by done. unfold uses. cbn. rewrite bool_decide_eq_false_2 by congruence. cbn. lia. }
  destruct accepted; [by intros [= <- <-]|]. intros H.
  destruct (scanned_live _ _ _ _ _ _ o l [] _ _ Hl Hs eq_refl H) as (E1 & E2 & E3). rewrite app_nil_r in E1. done.
Qed.

Lemma due_loop_live n maximum time schema : forall accepted now s l s' spare out, live_inv None s l -> tstopped s = false -> maximum <= lpending (tlimits s) ->
  due_loop n maximum time schema accepted now s = (s', spare, out) -> live_inv None s' (l ++ out) /\ tstopped s' = false /\ tlimits s' = tlimits s.
Proof.
  induction n as [|n IH]; intros accepted now s l s' spare out Hl Hs Hmax; cbn [due_loop]; [intros [= <- <- <-]; by rewrite app_nil_r|].
  destruct (schedule (tables s)) as [|[k p] rest] eqn:Es; [intros [= <- <- <-]; by rewrite app_nil_r|].
  destruct (_ && _) eqn:Eg; [|intros [= <- <- <-]; by rewrite app_nil_r]. apply andb_true_iff in Eg as [Hlt%N.ltb_lt _]. cbn zeta.
  pose proof Hl as [H0 H1 H2 H3 H4 H5]. destruct (sched_pop_inv _ _ _ _ H1 Es) as (Hi & w & Hw & Hr & Hb & _).
  set (s1 := with_tables s (with_schedule (tables s) rest)). assert (Hl1 : live_inv (Some p) s1 l) by (by constructor).
  assert (Hw1 : heap (tables s1) !! p = Some w) by done. rewrite Hw1.
  assert (Hstep : forall s2 out2, (if schema (itype (wentry w)) then scan p (accepted 0%nat) (now 0%nat) s1
      else (with_tables s1 (due p (later (now 0%nat 0%nat) (lrefresh (tlimits s1))) (tables s1)), [])) = (s2, out2) ->
    live_inv None s2 (l ++ out2) /\ tstopped s2 = false /\ tlimits s2 = tlimits s).
  { intros s2 out2. destruct (schema _); [intros H; eapply (scan_live p w _ _ s1); eauto; cbn; lia|]. intros [= <- <-]. rewrite app_nil_r. split; [|done].
    constructor; cbn; try done; [by eapply due_inv; [exact Hi|right|exact Hw|]|by rewrite (proj1 (due_watches _ _ _))|]. intros p'. by rewrite due_busy. }
  destruct (if schema _ then _ else _) as [s2 out2] eqn:E2. destruct (Hstep _ _ eq_refl) as (L2 & S2 & T2).
  destruct (due_loop n _ _ _ _ _ s2) as [[s3 sp] more] eqn:E3. intros [= <- <- <-].
  destruct (IH _ _ _ _ _ _ _ L2 S2 ltac:(by rewrite T2) E3) as (L3 & S3 & T3). rewrite app_assoc. split; [done|]. split; [done|congruence].
Qed.

Lemma sweep_live q s l w : live_inv q s l -> live_inv q (with_sweep s w) l.
Proof. intros [H0 H1 H2 H3 H4 H5]. by constructor. Qed.

Lemma load_loop_live n schema : forall accepted now steady s l s' spare out, live_inv None s l -> tstopped s = false ->
  load_loop n schema accepted now steady s = (s', spare, out) -> live_inv None s' (l ++ out) /\ tstopped s' = false /\ tlimits s' = tlimits s.
Proof.
  induction n as [|n IH]; intros accepted now steady s l s' spare out Hl Hs; cbn [load_loop]; [intros [= <- <- <-]; by rewrite app_nil_r|].
  destruct (_ && _) eqn:Eg; [|intros [= <- <- <-]; by rewrite app_nil_r]. apply andb_true_iff in Eg as [_ Hlt%N.ltb_lt]. unfold load. cbn zeta.
  set (s1 := set_pending _ _). set (o := job_load (scursor (sweep s) mod shards) (verify_hints (sweep s1))). pose proof Hl as [H0 H1 H2 H3 H4 H5].
  assert (Hl1 : live_inv None s1 (l ++ [o])).
  { pose proof (inc_pending s _ H3 Hlt H0) as Hinc. constructor; cbn; rewrite ?Hinc; try done; [rewrite length_app; cbn; lia|lia|].
    intros p. rewrite uses_app, H5. unfold uses. cbn. rewrite bool_decide_eq_false_2 by done. cbn. unfold busy_at. lia. }
  destruct (accepted 0%nat); cbn [negb].
  - set (s2 := with_sweep s1 _). assert (Hl2 : live_inv None s2 (l ++ [o])) by by apply sweep_live. set (s3 := if sremaining (sweep s2) =? 0 then _ else s2).
    assert (Hl3 : live_inv None s3 (l ++ [o]) /\ tstopped s3 = false /\ tlimits s3 = tlimits s) by (unfold s3; destruct (_ =? 0); [split; [by apply sweep_live|done]|done]).
    destruct Hl3 as (L3 & S3 & T3). destruct (load_loop n _ _ _ _ s3) as [[s4 sp] more] eqn:E4. intros [= <- <- <-].
    destruct (IH _ _ _ _ _ _ _ _ L3 S3 E4) as (L4 & S4 & T4). rewrite <- app_assoc in L4. split; [done|]. split; [done|congruence].
  - intros [= <- <- <-]. rewrite app_nil_r. split; [|unfold loaded; cbn; by rewrite Hs].
    rewrite <- (app_nil_r l). eapply (loaded_live None _ _ (Throw runtime_error) schema _ _ s1 l []); done.
Qed.

Lemma poll_live budget work r s l s' n out : live_inv None s l -> poll budget work r s = (s', n, out) -> tstopped s = false ->
  live_inv None s' (l ++ out) /\ tstopped s' = false.
Proof.
  intros Hl. unfold poll. intros H Hs. rewrite Hs in H. cbn zeta in H. set (s1 := begin_round r s) in H. assert (L1 : live_inv None s1 l) by by apply sweep_live.
  destruct (due_loop _ _ _ _ _ _ s1) as [[s2 sp] o2] eqn:E2. destruct (load_loop _ _ _ _ _ s2) as [[s3 sp3] o3] eqn:E3. injection H as <- <- <-.
  destruct (due_loop_live _ _ _ _ _ _ s1 l _ _ _ L1 Hs (N.le_sub_l _ _) E2) as (L2 & S2 & _). destruct (load_loop_live _ _ _ _ _ s2 _ _ _ _ L2 S2 E3) as (L3 & S3 & _).
  by rewrite app_assoc.
Qed.

(** ** The service in operation *)

Record tsys := MkTimerSys { service : Timers; requests : list timer_output }.

(** The owner polls, a job completes with what it may return, the host replies, the owner
    stops. *)
Inductive timers_step : tsys -> tsys -> Prop :=
  | ts_poll x budget work r s' n out : poll budget work r (service x) = (s', n, out) -> timers_step x (MkTimerSys s' (requests x ++ out))
  | ts_loaded x l1 l2 index verify bucket schema now steady : requests x = l1 ++ job_load index verify :: l2 ->
      returns (load_job index (tnode (service x)) verify) bucket ->
      timers_step x (MkTimerSys (loaded index bucket schema now steady (service x)) (l1 ++ l2))
  | ts_scanned x l1 l2 p revision e time next found now s' out : requests x = l1 ++ job_scan p revision e time next :: l2 ->
      returns (scan_job e time next (towner (service x)) (tnode (service x))) found ->
      scanned p revision found next now (service x) = (s', out) -> timers_step x (MkTimerSys s' ((l1 ++ l2) ++ out))
  | ts_woken x l1 l2 p revision action type id r now : requests x = l1 ++ host_read p revision action type id :: l2 ->
      timers_step x (MkTimerSys (replied p revision action r now (service x)) (l1 ++ l2))
  | ts_fired x l1 l2 p revision type id key generation due_at r now : requests x = l1 ++ host_fire p revision type id key generation due_at :: l2 ->
      timers_step x (MkTimerSys (replied p revision act_fire r now (service x)) (l1 ++ l2))
  | ts_stop x : timers_step x (MkTimerSys (stop (service x)) (requests x)).

Definition timers_inv (x : tsys) : Prop :=
  if tstopped (service x) then watches (tables (service x)) = ∅ /\ schedule (tables (service x)) = [] /\ npending (counters (service x)) = 0
  else live_inv None (service x) (requests x).

Lemma timers_step_inv x y : timers_inv x -> timers_step x y -> timers_inv y.
Proof.
  unfold timers_inv. intros Hi H. destruct (tstopped (service x)) eqn:Hs.
  - destruct H; cbn [service].
    + unfold poll in H. rewrite Hs in H. injection H as <- <- <-. by rewrite Hs.
    + unfold loaded. rewrite Hs. by rewrite Hs.
    + unfold scanned in *. rewrite Hs in *. match goal with H : (_, _) = (_, _) |- _ => injection H as <- <- end. by rewrite Hs.
    + unfold replied. rewrite Hs. by rewrite Hs.
    + unfold replied. rewrite Hs. by rewrite Hs.
    + unfold stop. rewrite Hs. by rewrite Hs.
  - destruct H as [x budget work r s' n out H|x l1 l2 index verify bucket schema now steady E H|x l1 l2 p revision e time next found now s' out E H1 H2|
      x l1 l2 p revision action type id r now E|x l1 l2 p revision type id key generation due_at r now E|x]; cbn [service requests].
    + destruct (poll_live _ _ _ _ _ _ _ _ Hi H Hs) as [L ->]. done.
    + rewrite E in Hi. assert (Hst : tstopped (loaded index bucket schema now steady (service x)) = false).
      { unfold loaded. rewrite Hs. cbn zeta. destruct bucket; [|done]. destruct (load_entries _ _ _ _ _) as [[t full] seen]. by destruct (is_empty seen). }
      rewrite Hst. eapply loaded_live; [done|exact Hi|done|]. intros m ->. by eapply load_job_keyed.
    + rewrite E in Hi. destruct (scanned_live _ _ _ _ _ _ _ _ _ _ _ Hi Hs eq_refl H2) as (L & -> & _). done.
    + rewrite E in Hi. pose proof (replied_live p revision action r now _ _ _ _ Hi Hs eq_refl) as L. unfold replied in *. rewrite Hs in *. cbn zeta in *.
      rewrite (proj1 (finish_stopped _ _ _ _ _ _)). revert L. by destruct (_ && _); cbn [tstopped with_counters]; rewrite Hs.
    + rewrite E in Hi. pose proof (replied_live p revision act_fire r now _ _ _ _ Hi Hs eq_refl) as L. unfold replied in *. rewrite Hs in *. cbn zeta in *.
      rewrite (proj1 (finish_stopped _ _ _ _ _ _)). revert L. by destruct (_ && _); cbn [tstopped with_counters]; rewrite Hs.
    + unfold stop. rewrite Hs. done.
Qed.

Definition timers_start (owner : bytes) (revision : N) (l : TimerLimits) (x : tsys) : Prop :=
  exists s, entity_timers owner revision l = Ok s /\ x = MkTimerSys s [].

Lemma timers_start_inv owner revision l x : timers_start owner revision l x -> timers_inv x.
Proof.
  intros (s & Hs & ->). unfold entity_timers in Hs. destruct (_ || _) eqn:E in Hs; [done|]. injection Hs as <-. bool_prop. unfold timers_inv. cbn.
  constructor; cbn; try done.
  - split; lia.
  - constructor; cbn; try done; [|constructor]. intros k p. split; [by intros ?%elem_of_nil|intros (_ & w & H & _); done].
  - rewrite map_size_empty. lia.
  - lia.
Qed.

(** No timer is forgotten and none is worked on twice.  In every reachable
    state of a running service, each tracked entity has one watch, which is either in
    the schedule, exactly once, at its next time, with nothing outstanding, or has
    exactly one job or host call outstanding and is not in the schedule; the schedule holds nothing
    else and is in order; the entities tracked and the requests outstanding, which the
    statistics count exactly, stay within their limits. *)
Theorem timer_watches_exact owner revision l x y : timers_start owner revision l x -> rtc timers_step x y -> tstopped (service y) = false ->
  let t := tables (service y) in
  (forall key p, watches t !! key = Some p -> exists w, heap t !! p = Some w /\ watch_key w = key /\
     ((wbusy w = false /\ uses p (requests y) = 0%nat /\ forall s, (s, p) ∈ schedule t <-> s = (wnext w, key)) \/
      (wbusy w = true /\ uses p (requests y) = 1%nat /\ forall s, (s, p) ∉ schedule t))) /\
  (forall s p, (s, p) ∈ schedule t -> watches t !! s.2 = Some p) /\ sched_sorted (schedule t) /\
  N.of_nat (base.size (watches t)) <= ltracked (tlimits (service y)) /\
  npending (counters (service y)) = N.of_nat (length (requests y)) /\ npending (counters (service y)) <= lpending (tlimits (service y)).
Proof.
  intros Hx Hr Hs. apply timers_start_inv in Hx. assert (Hi : timers_inv y) by (induction Hr as [|a b c Hab _ IH]; eauto using timers_step_inv).
  unfold timers_inv in Hi. rewrite Hs in Hi. destruct Hi as [H0 H1 H2 H3 H4 H5]. cbn zeta. split_and!; try done; [| |apply H1].
  - intros key p Hk. destruct (ti_watch _ _ H1 _ _ Hk) as (w & Hw & <- & Hrem). exists w. split; [done|]. split; [done|]. specialize (H5 p). unfold busy_at in H5.
    rewrite Hw in H5. destruct (wbusy w) eqn:Hb; [right|left]; (split; [done|]; split; [done|]).
    + intros s (_ & w1 & Hw1 & _ & Hb1 & _)%(ti_sched _ _ H1). congruence.
    + intros s. rewrite (ti_sched _ _ H1). split; [intros (_ & w1 & Hw1 & _ & _ & ->); congruence|]. intros ->. split; [done|]. by exists w.
  - intros s p (_ & w & Hw & Hrem & _ & ->)%(ti_sched _ _ H1). cbn. by eapply ti_live.
Qed.

(** ** Due timers are scanned *)

Definition scans (p : N) (out : list timer_output) : Prop := exists revision e time next, job_scan p revision e time next ∈ out.

Lemma due_loop_scans n maximum time schema : (forall t, schema t = true) -> forall accepted now s l s' spare out, (forall i, accepted i = true) ->
  live_inv None s l -> tstopped s = false -> (length (schedule (tables s)) <= n)%nat ->
  npending (counters s) + N.of_nat (length (schedule (tables s))) <= maximum -> maximum <= lpending (tlimits s) ->
  due_loop n maximum time schema accepted now s = (s', spare, out) ->
  (forall p, busy_at (tables s) p = true -> busy_at (tables s') p = true) /\
  (forall k p, (k, p) ∈ schedule (tables s) -> (k.1 <= time)%Z -> busy_at (tables s') p = true /\ scans p out).
Proof.
  intros Hsch. induction n as [|n IH]; intros accepted now s l s' spare out Hacc Hl Hst Hn Hp Hmax; cbn [due_loop].
  { intros [= <- <- <-]. split; [done|]. destruct (schedule (tables s)); [by intros k p ?%elem_of_nil|cbn in Hn; lia]. }
  destruct (schedule (tables s)) as [|[k0 p0] rest] eqn:Es; [intros [= <- <- <-]; split; [done|]; by intros k p ?%elem_of_nil|].
  pose proof Hl as [H0 H1 H2 H3 H4 H5]. cbn [length] in Hn, Hp. destruct (N.ltb_spec (npending (counters s)) maximum) as [Hlt|]; [|lia]. cbn [andb].
  destruct (Z.leb_spec k0.1 time) as [Hle|Hgt]; cbn [andb].
  2:{ intros [= <- <- <-]. split; [done|]. intros k p [[= -> ->]|Hin]%elem_of_cons Hk; [lia|]. exfalso. pose proof (ti_sorted _ _ H1) as Hs. rewrite Es in Hs.
      apply StronglySorted_inv in Hs as [_ Hf]. rewrite Forall_forall in Hf. pose proof (slot_lt_time _ _ (Hf _ Hin)). cbn in *. lia. }
  destruct (sched_pop_inv _ _ _ _ H1 Es) as (Hi & w & Hw & Hr & Hb & _). set (s1 := with_tables s (with_schedule (tables s) rest)).
  cbn zeta. assert (Hw1 : heap (tables s1) !! p0 = Some w) by done. rewrite Hw1, Hsch. assert (Hl1 : live_inv (Some p0) s1 l) by by constructor.
  destruct (scan p0 (accepted 0%nat) (now 0%nat) s1) as [s2 o2] eqn:E2. destruct (scan_live p0 w _ _ s1 l _ _ Hl1 Hst Hw1 Hb ltac:(cbn; lia) E2) as (L2 & S2 & T2).
  unfold scan in E2. rewrite Hw1, Hacc in E2. cbn zeta in E2. injection E2 as E2 E2o.
  assert (Hpend : npending (counters s2) = npending (counters s) + 1) by (subst s2; cbn; rewrite (inc_pending s _ H3 ltac:(lia) H0), H3; lia).
  destruct (due_loop n _ _ _ _ _ s2) as [[s3 sp] more] eqn:E3. intros [= <- <- <-].
  assert (Hsch2 : schedule (tables s2) = rest) by by subst s2.
  destruct (IH _ _ _ _ _ _ _ (fun i => Hacc (S i)) L2 S2 ltac:(rewrite Hsch2; lia) ltac:(rewrite Hsch2; lia) ltac:(by rewrite T2) E3) as [K1 K2].
  assert (Hbusy : forall p, p = p0 \/ busy_at (tables s) p = true -> busy_at (tables s2) p = true).
  { intros p Hpp. subst s2. unfold busy_at in *. cbn. destruct (decide (p = p0)) as [->|Hne]; [by rewrite lookup_insert_eq|]. rewrite lookup_insert_ne by done. by destruct Hpp. }
  split; [intros p Hpb; apply K1, Hbusy; by right|]. intros k p [[= -> ->]|Hin]%elem_of_cons Hk.
  - split; [apply K1, Hbusy; by left|]. subst o2. unfold scans. do 4 eexists. by left.
  - rewrite Hsch2 in K2. destruct (K2 k p Hin Hk) as (B1 & rv & e & t & nx & B2). split; [done|]. exists rv, e, t, nx. apply elem_of_app. by right.
Qed.

Lemma load_loop_tables n schema : forall accepted now steady s, tables (load_loop n schema accepted now steady s).1.1 = tables s.
Proof.
  induction n as [|n IH]; intros accepted now steady s; cbn [load_loop]; [done|]. destruct (_ && _); [|done]. unfold load. cbn zeta.
  destruct (accepted 0%nat); cbn [negb].
  - match goal with |- context [load_loop n _ ?a ?b ?c ?u] => pose proof (IH a b c u) as Hu; destruct (load_loop n _ a b c u) as [[? ?] ?] end.
    cbn [fst] in *. rewrite Hu. by destruct (_ =? 0).
  - cbn [fst]. unfold loaded. by destruct (tstopped _).
Qed.

(** Due timers are scanned: when the executor takes jobs, a poll with the
    budget and the request slots for what is scheduled submits a scan for every tracked
    entity whose time has come. *)
Theorem poll_scans_due owner revision l x y budget work r s' n out key p w :
  timers_start owner revision l x -> rtc timers_step x y -> tstopped (service y) = false ->
  (forall i, rscan r i = true) -> (forall t, rschema r t = true) ->
  N.of_nat (length (schedule (tables (service y)))) <= budget - work ->
  npending (counters (service y)) + N.of_nat (length (schedule (tables (service y)))) < lpending (tlimits (service y)) ->
  poll budget work r (service y) = (s', n, out) ->
  watches (tables (service y)) !! key = Some p -> heap (tables (service y)) !! p = Some w -> wbusy w = false -> (wnext w <= rtime r)%Z ->
  busy_at (tables s') p = true /\ scans p out.
Proof.
  intros Hx Hr Hs Hacc Hsch Hbud Hpend H Hk Hw Hb Hdue. apply timers_start_inv in Hx.
  assert (Hi : timers_inv y) by (induction Hr as [|a b c Hab _ IH]; eauto using timers_step_inv). unfold timers_inv in Hi. rewrite Hs in Hi.
  unfold poll in H. rewrite Hs in H. cbn zeta in H. set (s1 := begin_round r (service y)) in H. assert (L1 : live_inv None s1 (requests y)) by by apply sweep_live.
  destruct (due_loop _ _ _ _ _ _ s1) as [[s2 sp] o2] eqn:E2. pose proof (load_loop_tables sp (rschema r) (rload r) (rload_now r) (rload_steady r) s2) as Ht.
  destruct (load_loop _ _ _ _ _ s2) as [[s3 sp3] o3]. injection H as <- <- <-. cbn [fst] in Ht. rewrite Ht.
  change (tables s1) with (tables (service y)) in E2. change (tlimits s1) with (tlimits (service y)) in E2.
  assert (Hin : (wnext w, key, p) ∈ schedule (tables (service y))).
  { destruct Hi as [_ H1 _ _ _ _]. apply (ti_sched _ _ H1). split; [done|]. destruct (ti_watch _ _ H1 _ _ Hk) as (w1 & Hw1 & <- & Hrem). rewrite Hw in Hw1. injection Hw1 as <-. by exists w. }
  assert (Hmx : npending (counters s1) + N.of_nat (length (schedule (tables s1))) <= lpending (tlimits (service y)) - (if sremaining (sweep s1) =? 0 then 0 else 1))
    by (change (tables s1) with (tables (service y)); change (counters s1) with (counters (service y)); destruct (_ =? 0); lia).
  destruct (due_loop_scans (N.to_nat (budget - work)) _ (rtime r) (rschema r) Hsch (rscan r) _ s1 _ _ _ _ Hacc L1 Hs ltac:(change (tables s1) with (tables (service y)); lia) Hmx (N.le_sub_l _ _) E2) as [_ K2].
  destruct (K2 _ _ Hin Hdue) as (B1 & rv & e & t & nx & B2). split; [done|]. exists rv, e, t, nx. apply elem_of_app. by left.
Qed.

(** ** Witnesses *)

Definition sample_timer : Entry := MkIndexEntry (lit "Player") (lit "00000000000000a1") (lit "tok") 1 3 5 false (lit "n1").
Definition sample_key : bytes := identity (lit "Player") (lit "00000000000000a1").
Definition sample_limits : TimerLimits := MkTimerLimits 4 10 100 100.
Definition sample_readings : Readings := MkReadings 0 10 7 7 (fun _ => true) (fun _ => true) (fun _ _ => 10%Z) (fun _ => true) (fun _ _ => 10%Z) (fun _ => 7%Z).
Definition sample_service : Timers :=
  match entity_timers (lit "n1/7") 0 sample_limits with Ok s => s | Throw _ => MkService sample_limits [] [] (MkTables ∅ 0 ∅ [] []) (MkTimerStats 0 0 0 0) (MkSweep 0 0 0 0 0 0 true) true end.
Definition sample_polled : Timers * N * list timer_output := poll 1 0 sample_readings sample_service.
Definition sample_loaded : Timers := loaded 0 (Ok [(sample_key, sample_timer)]) (fun _ => true) (fun _ => 10%Z) 7 sample_polled.1.1.

Lemma sample_load_returns : returns (load_job 0 (lit "n1") true) (Ok [(sample_key, sample_timer)]).
Proof.
  assert (H : exists w, encode_bucket (shard (iid sample_timer)) [(sample_key, sample_timer)] = Ok w /\ decode_bucket w = Ok [(sample_key, sample_timer)])
    by (eexists; split; vm_compute; reflexivity). destruct H as (w & _ & Hd).
  assert (Hk : exists key, storage_key 0 = Ok key) by (eexists; vm_compute; reflexivity). destruct Hk as (key & Hk).
  assert (Hi : exists id, entity_id_of_text (iid sample_timer) = Ok id) by (eexists; vm_compute; reflexivity). destruct Hi as (id & Hi).
  unfold load_job, read. rewrite Hk. cbn [pbind db_get]. apply (returns_get _ _ (Some (MkStored w 1))). cbn [svalue]. rewrite Hd. cbn [pbind entries filter_placed].
  cbn [orb pending sample_timer is_empty iplacement]. rewrite orb_true_r, Hi. cbn [pbind db_get]. apply (returns_get _ _ None). cbn [pbind]. apply returns_value.
Qed.

Lemma sample_timers_start : timers_start (lit "n1/7") 0 sample_limits (MkTimerSys sample_service []).
Proof. eexists. split; [vm_compute; reflexivity|vm_compute; reflexivity]. Qed.

Lemma sample_timers_run : rtc timers_step (MkTimerSys sample_service []) (MkTimerSys sample_loaded []).
Proof.
  eapply rtc_l; [apply (ts_poll _ 1 0 sample_readings sample_polled.1.1 sample_polled.1.2 sample_polled.2); unfold sample_polled; by destruct (poll _ _ _ _) as [[? ?] ?]|].
  cbn [requests]. eapply rtc_l; [|apply rtc_refl].
  refine (ts_loaded (MkTimerSys sample_polled.1.1 ([] ++ sample_polled.2)) [] [] 0 true (Ok [(sample_key, sample_timer)]) (fun _ => true) (fun _ => 10%Z) 7 _ _).
  - vm_compute. reflexivity.
  - exact sample_load_returns.
Qed.

Lemma timer_watches_exact_witness : exists p, watches (tables sample_loaded) !! sample_key = Some p /\
  exists w, heap (tables sample_loaded) !! p = Some w /\ watch_key w = sample_key.
Proof.
  assert (Hp : exists p, watches (tables sample_loaded) !! sample_key = Some p) by (eexists; vm_compute; reflexivity). destruct Hp as [p Hp].
  exists p. split; [exact Hp|].
  destruct (proj1 (timer_watches_exact _ _ _ _ _ sample_timers_start sample_timers_run ltac:(vm_compute; reflexivity)) sample_key p Hp) as (w & Hw & Hk & _).
  exists w. split; [exact Hw|exact Hk].
Defined.

Lemma poll_scans_due_witness : exists p, watches (tables sample_loaded) !! sample_key = Some p /\ scans p (poll 5 0 sample_readings sample_loaded).2.
Proof.
  exists 1. split; [vm_compute; reflexivity|].
  refine (proj2 (poll_scans_due (lit "n1/7") 0 sample_limits _ (MkTimerSys sample_loaded []) 5 0 sample_readings
    (poll 5 0 sample_readings sample_loaded).1.1 (poll 5 0 sample_readings sample_loaded).1.2 _ sample_key 1 (MkWatch sample_timer 5 0 false false)
    sample_timers_start sample_timers_run _ (fun _ => eq_refl) (fun _ => eq_refl) _ _ _ _ _ _ _)).
  - vm_compute. reflexivity.
  - vm_compute. discriminate.
  - vm_compute. reflexivity.
  - cbn [service]. by destruct (poll _ _ _ _) as [[? ?] ?].
  - vm_compute. reflexivity.
  - vm_compute. reflexivity.
  - reflexivity.
  - vm_compute. discriminate.
Defined.
