(* ===== verification/TimerScan.v ===== *)
(** * A timer scan is sound

    The storage job of [EntityTimers::Impl::scan] against any other clients: what it may
    change in the discovery index, and what it reports. *)

From stdpp Require Import gmap.
From S2P Require Import Prelude OrderedMap Identity Values AttributeWire AttributeCodec Messages Fields TimerState DeliveryState Records Storage StorageCorrect Programs TimerIndex TimerIndexCorrect Directory Transport TimerService.

(** ** The earliest expired timer *)

Lemma earliest_spec time l : forall best, (forall b, best = Some b -> (due_ms b <= time)%Z) ->
  match fold_left (earliest time) l best with
  | None => best = None /\ Forall (fun x => (time < due_ms x.2)%Z) l
  | Some t => (due_ms t <= time)%Z /\ (best = Some t \/ exists k, (k, t) ∈ l) /\ Forall (fun x => (due_ms t <= due_ms x.2)%Z) l /\
              forall b, best = Some b -> (due_ms t <= due_ms b)%Z
  end.
Proof.
  induction l as [|[k x] l IH]; intros best Hb; cbn [fold_left].
  { destruct best as [b|]; [|done]. split_and!; [by apply Hb|by left|constructor|]. intros b' [= <-]. lia. }
  unfold earliest at 2. cbn [snd]. destruct (Z.leb_spec (due_ms x) time) as [Hx|Hx]; cbn [andb].
  - destruct best as [b|]; cbn beta iota.
    + specialize (Hb b eq_refl). destruct (Z.ltb_spec (due_ms x) (due_ms b)) as [Hlt|Hge].
      * specialize (IH (Some x)). destruct (fold_left _ l _) as [t|]; [|destruct IH as [? _]; [naive_solver|done]].
        destruct IH as (I1 & I2 & I3 & I4); [naive_solver|]. pose proof (I4 x eq_refl). split_and!; [done| |constructor; [done|done]|intros b' [= <-]; lia].
        right. destruct I2 as [[= ->]|[k' Hk]]; [exists k; set_solver|exists k'; set_solver].
      * specialize (IH (Some b)). destruct (fold_left _ l _) as [t|]; [|destruct IH as [? _]; [naive_solver|done]].
        destruct IH as (I1 & I2 & I3 & I4); [naive_solver|]. pose proof (I4 b eq_refl). split_and!; [done| |constructor; [cbn; lia|done]|done].
        destruct I2 as [->|[k' Hk]]; [by left|right; exists k'; set_solver].
    + specialize (IH (Some x)). destruct (fold_left _ l _) as [t|]; [|destruct IH as [? _]; [naive_solver|done]].
      destruct IH as (I1 & I2 & I3 & I4); [naive_solver|]. pose proof (I4 x eq_refl). split_and!; [done| |constructor; [done|done]|done].
      right. destruct I2 as [[= ->]|[k' Hk]]; [exists k; set_solver|exists k'; set_solver].
  - specialize (IH best Hb). destruct (fold_left _ l _) as [t|].
    + destruct IH as (I1 & I2 & I3 & I4). split_and!; [done| |constructor; [cbn; lia|done]|done].
      destruct I2 as [->|[k' Hk]]; [by left|right; exists k'; set_solver].
    + destruct IH as [-> IH]. split; [done|]. constructor; [done|done].
Qed.

Lemma next_bound l : forall d, (d <= INT64_MAX)%Z -> (fold_left (fun due (e : bytes * EntityTimer) => if (due_ms e.2 <? due)%Z then due_ms e.2 else due) l d <= INT64_MAX)%Z.
Proof. induction l as [|x l IH]; intros d Hd; cbn [fold_left]; [done|]. apply IH. destruct (Z.ltb_spec (due_ms x.2) d); lia. Qed.

Lemma view_fence_bound w v : decode_entity_record_view w = Ok v -> view_fence v < 2 ^ 64.
Proof.
  unfold decode_entity_record_view, header. intros (h & H & Hv)%bind_ok. apply bind_ok in Hv as (_ & _ & [= ->]). destruct (negb _); [done|].
  apply bind_ok in H as ([o i1] & _ & H). apply bind_ok in H as ([x i2] & _ & H). apply bind_ok in H as ([f i3] & B%get_be_bound & H).
  destruct (_ || _); [done|]. apply bind_ok in H as ([b i4] & _ & H). apply bind_ok in H as ([p i5] & _ & H). apply bind_ok in H as ([t i6] & _ & H).
  destruct (bad_placement _ _); [done|]. apply bind_ok in H as ([ty i7] & _ & H). apply bind_ok in H as ([c i8] & _ & H). destruct i8 as [|y i8]; [done|].
  destruct (_ <? _); [done|]. apply bind_ok in H as ([init i9] & _ & H). destruct (_ <? _); [done|]. apply bind_ok in H as ([rv i10] & _ & H).
  destruct (negb _); [done|]. injection H as <-. exact B.
Qed.

(** ** What a scan may change and report *)

(** Storage versions are 64-bit. *)
Definition small_versions (st : store) : Prop := forall k r, cell st k = Some r -> sversion r < 2 ^ 64.

Definition bounded_client (st st' : store) : Prop := any_client st st' /\ (small_versions st -> small_versions st').

#[global] Instance bounded_refl : Reflexive bounded_client.
Proof. by split. Qed.
#[global] Instance bounded_trans : Transitive bounded_client.
Proof. intros a b c [H1 H2] [H3 H4]. split; [by transitivity b|auto]. Qed.

(** The entry of [e]'s entity in the bucket as it is at that moment is dropped or confirmed;
    nothing else changes. *)
Definition scan_effect (e : Entry) (st st' : store) : Prop :=
  exists key m f, storage_key (shard (iid e)) = Ok key /\ bucket_at st key = Ok m /\ map_find (identity (itype e) (iid e)) m = Some f /\
    (bucket_at st' key = Ok (map_erase (identity (itype e) (iid e)) m) \/
     exists g, pending g = false /\ itype g = itype e /\ iid g = iid e /\ bucket_at st' key = Ok (map_insert (identity (itype e) (iid e)) g m)) /\
    forall k, k <> key -> cell st' k = cell st k.

(** The record [r] of the entity lets this owner act at [time]. *)
Definition may_act (e : Entry) (time : Z) (owner node : bytes) (r : Stored) (timers : EntityTimerState) : Prop :=
  exists v m, decode_entity_record_view (svalue r) = Ok v /\ view_metadata v = Some m /\ metadata_type m = itype e /\ destroyed m = false /\
    (view_placement v = [] \/ view_placement v = node) /\ ((view_expires_ms v <= time)%Z \/ view_owner v = owner) /\
    decode_snapshot_timers (view_snapshot v) = Ok timers.

(** A firing is that of the earliest expired timer of a record that was current and that
    this owner may act on; a wake-up is for such a record with a pending index entry. *)
Definition scan_report (e : Entry) (time : Z) (owner node : bytes) (x : Scan) (st : store) : Prop :=
  (saction x = act_none -> stimer x = None) /\
  (saction x <> act_none -> exists id r timers, entity_id_of_text (iid e) = Ok id /\ observed st (entity_record_key id) r /\ 0 < sversion r /\
     may_act e time owner node r timers /\
     (saction x = act_fire -> exists k t, stimer x = Some t /\ (k, t) ∈ tentries timers /\ (due_ms t <= time)%Z /\ Forall (fun y => (due_ms t <= due_ms y.2)%Z) (tentries timers))).

Lemma report_stable e time owner node x st st' : any_client st st' -> scan_report e time owner node x st -> scan_report e time owner node x st'.
Proof.
  intros [_ H] [H1 H2]. split; [done|]. intros Hn. destruct (H2 Hn) as (id & r & timers & E1 & E2 & E3 & E4). exists id, r, timers. split; [done|]. split; [by apply H|done].
Qed.

Section ScanJob.
Context (R : store -> store -> Prop) {R_refl : Reflexive R} {R_trans : Transitive R} (R_any : forall st st', R st st' -> bounded_client st st').

(** Writing [m'] over the bucket [m] read in [st0]. *)
Lemma wp_index_write G index key v m m' st0 st (P : store -> Prop) :
  store_wf st0 -> R st0 st -> storage_key index = Ok key -> v = match cell st0 key with Some x => sversion x | None => 0 end ->
  match cell st0 key with None => m = [] | Some r => decode_bucket (svalue r) = Ok m end ->
  map_wf m' -> Forall (fun x => entry_wf x.2) m' ->
  (forall a b, bucket_at a key = Ok m -> bucket_at b key = Ok m' -> (forall k, k <> key -> cell b k = cell a k) -> G a b) ->
  (forall a b, any_client a b -> P a -> P b) -> P st -> wp R G (write index (MkBucket v m')) (fun _ => P) st.
Proof.
  intros Hw H0 Hk Hv Hm Hwf He HG HP Hst. unfold write. cbn [entries bversion]. destruct (encode_bucket index m') as [w|] eqn:Henc; cbn [pbind]; [|done].
  rewrite Hk. cbn [db_compare_exchange pbind wp]. intros st1 H1 x st2 Ha.
  assert (H01 : any_client st0 st1) by (apply R_any; by transitivity st). assert (P2 : P st2).
  { apply (HP st1); [by eapply any_client_allowed|]. apply (HP st); [by apply R_any|done]. }
  split; [|destruct x as [b|]; [|done]; cbn; intros st3 H3; apply (HP st2); [by apply R_any|done]].
  destruct (cas_replaces st1 _ key v w x st2 st0 Hw eq_refl H01 Hv Ha) as [->|[Hc Hwr]]; [by left|right]. apply HG; [| |apply Hwr].
  - unfold bucket_at. rewrite Hc. destruct (cell st0 key); [done|by subst].
  - unfold bucket_at. destruct (wrote_cell _ _ _ _ Hwr) as (n & _ & ->). cbn [svalue].
    apply encode_bucket_Ok in Henc as (E1 & E2 & E3 & ->). by eapply decode_wire_bucket.
Qed.

Context (e : Entry) (time : Z) (owner node : bytes).
Let Q x st := scan_report e time owner node x st.
Let key_of := identity (itype e) (iid e).

Lemma quiet_report next : forall st, Q (MkScan act_none next None) st.
Proof. intros st. by split. Qed.

Lemma wp_drop_entry key v m st0 st : store_wf st0 -> R st0 st -> storage_key (shard (iid e)) = Ok key ->
  v = match cell st0 key with Some x => sversion x | None => 0 end -> match cell st0 key with None => m = [] | Some r => decode_bucket (svalue r) = Ok m end ->
  is_Some (map_find key_of m) -> wp R (scan_effect e) (drop_entry (shard (iid e)) key_of (MkBucket v m) time) Q st.
Proof.
  intros Hw H0 Hk Hv Hm [f Hf]. unfold drop_entry. cbn [entries bversion]. assert (Hwf : map_wf m /\ Forall (fun x => entry_wf x.2) m).
  { destruct (cell st0 key); [by eapply decode_bucket_wf|]. subst. by split; [|constructor]. }
  apply wp_bind; [exact _..|]. apply (wp_mono R _ _ (fun _ _ => True)); [intros b st1 _; cbn; intros; apply quiet_report|].
  eapply (wp_index_write _ _ key v m _ st0); try done; [apply map_wf_erase, Hwf| |].
  - unfold map_erase. apply Forall_forall. intros x Hx%list_elem_of_In. apply filter_In in Hx as [Hx _]. apply list_elem_of_In in Hx. revert x Hx. apply Forall_forall, Hwf.
  - intros a b Ha Hb Hfr. exists key, m, f. split_and!; try done. by left.
Qed.

Lemma wp_scan_record id r v m0 observed key bv m st0 st : store_wf st0 -> R st0 st -> entity_id_of_text (iid e) = Ok id -> sversion r < 2 ^ 64 ->
  cell st (entity_record_key id) = Some r -> store_wf st -> decode_entity_record_view (svalue r) = Ok v -> view_metadata v = Some m0 ->
  metadata_type m0 = itype e -> destroyed m0 = false -> (view_placement v = [] \/ view_placement v = node) -> ((view_expires_ms v <= time)%Z \/ view_owner v = owner) ->
  storage_key (shard (iid e)) = Ok key -> bv = match cell st0 key with Some x => sversion x | None => 0 end ->
  match cell st0 key with None => m = [] | Some r => decode_bucket (svalue r) = Ok m end -> map_find key_of m = Some observed ->
  forall late, wp R (scan_effect e) (scan_record e observed (MkBucket bv m) (sversion r) v time late) Q st.
Proof.
  intros Hw0 H0 Hid Hsmall Hc Hw Hd Hmeta Hty Hdes Hpl Hown Hk Hv Hm Hf late. unfold scan_record.
  destruct (decode_snapshot_timers (view_snapshot v)) as [timers|] eqn:Ht; cbn [pbind]; [|done].
  assert (Hact : forall st', any_client st st' -> StorageCorrect.observed st' (entity_record_key id) r /\ 0 < sversion r /\ may_act e time owner node r timers).
  { intros st' H. pose proof (Hw _ _ Hc). split; [apply H; [lia|by apply observed_now]|]. split; [lia|]. by exists v, m0. }
  destruct (_ && _); [cbn; intros st' H; split; [done|]; intros _; destruct (Hact st' (proj1 (R_any _ _ H))) as (A1 & A2 & A3); by exists id, r, timers|].
  destruct (is_empty (tentries timers)); [eapply (wp_drop_entry key bv m st0 st); try done; by exists observed|]. cbn zeta.
  set (next := next_entity_timer timers). set (g := MkIndexEntry _ _ _ _ _ _ _ _).
  assert (Hg : entry_wf g) by (split_and!; [done|by eapply view_fence_bound|by apply next_bound]).
  assert (Hwf : map_wf m /\ Forall (fun x => entry_wf x.2) m).
  { destruct (cell st0 key); [by eapply decode_bucket_wf|]. subst. by split; [|constructor]. }
  set (P := fun st' : store => any_client st st').
  apply wp_bind; [exact _..|]. apply (wp_mono R _ _ (fun _ => P)).
  - intros _ st1 HP. destruct (time <? next)%Z; [cbn; intros; apply quiet_report|].
    pose proof (earliest_spec time (tentries timers) None ltac:(done)) as Hs. destruct (fold_left _ _ None) as [t|]; [|cbn; intros; apply quiet_report].
    destruct Hs as (S1 & [?|[k S2]] & S3 & _); [done|]. cbn. intros st2 H2. split; [done|]. intros _.
    destruct (Hact st2) as (A1 & A2 & A3); [by transitivity st1; [|apply R_any]|]. exists id, r, timers. split_and!; try done. intros _. by exists k, t.
  - case_bool_decide; [cbn; intros st' Hst; by apply R_any|]. cbn [entries bversion].
    eapply (wp_index_write _ _ key bv m _ st0); try done; [apply map_wf_insert, Hwf|apply Forall_map_insert; [done|apply Hwf]| |].
    + intros a b Ha Hb Hfr. exists key, m, observed. split_and!; try done. right. by exists g.
    + intros a b Hab HPa. unfold P in *. by transitivity a.
Qed.

Lemma wp_scan_bucket next key bv m st : store_wf st -> small_versions st -> storage_key (shard (iid e)) = Ok key ->
  bv = match cell st key with Some x => sversion x | None => 0 end -> match cell st key with None => m = [] | Some r => decode_bucket (svalue r) = Ok m end ->
  wp R (scan_effect e) (scan_bucket e time next owner node (MkBucket bv m)) Q st.
Proof.
  intros Hw Hsm Hk Hv Hm. unfold scan_bucket. cbn zeta. cbn [entries]. destruct (map_find _ m) as [ob|] eqn:Hf; [|cbn; intros; apply quiet_report].
  destruct (entity_id_of_text (iid e)) as [id|] eqn:Hid; cbn [pbind]; [|done]. cbn [db_get pbind wp]. intros st1 H1.
  assert (Hw1 : store_wf st1) by by apply (R_any _ _ H1). assert (Hsm1 : small_versions st1) by by apply (R_any _ _ H1).
  destruct (cell st1 (entity_record_key id)) as [r|] eqn:Hc; cbn [pbind]; [|by eapply (wp_drop_entry key bv m st st1)].
  destruct (decode_entity_record_view (svalue r)) as [v|] eqn:Hd; cbn [pbind]; [|done]. destruct (view_metadata v) as [m0|] eqn:Hmeta; [|done].
  destruct (bytes_eqb_spec (metadata_type m0) (itype e)) as [Hty|]; [|done]. cbn [negb]. destruct (destroyed m0) eqn:Hdes; [by eapply (wp_drop_entry key bv m st st1)|].
  destruct (_ || _) eqn:Eg; [cbn; intros; apply quiet_report|]. apply orb_false_iff in Eg as [G1 G2].
  eapply (wp_scan_record id r v m0 ob key bv m st st1); eauto.
  - apply andb_false_iff in G1 as [G1|G1]; apply negb_false_iff in G1; [left; by apply is_empty_true|right; by apply bytes_eqb_eq].
  - apply andb_false_iff in G2 as [G2|G2]; [left; by apply Z.ltb_ge|right; apply negb_false_iff in G2; by apply bytes_eqb_eq].
Qed.

Lemma wp_scan_job next st : store_wf st -> small_versions st -> wp R (scan_effect e) (scan_job e time next owner node) Q st.
Proof.
  intros Hw Hsm. unfold scan_job, read. destruct (storage_key (shard (iid e))) as [key|] eqn:Hk; cbn [pbind]; [|done].
  cbn [db_get pbind wp]. intros st0 H0. assert (Hw0 : store_wf st0) by by apply (R_any _ _ H0). assert (Hs0 : small_versions st0) by by apply (R_any _ _ H0).
  destruct (cell st0 key) as [r|] eqn:Hc; cbn [pbind]; [|apply (wp_scan_bucket next key); try done; by rewrite Hc].
  destruct (decode_bucket (svalue r)) as [m|] eqn:Hd; cbn [pbind]; [|done]. apply (wp_scan_bucket next key); try done; by rewrite Hc.
Qed.
End ScanJob.

(** C27 (safety).  A timer scan never loses an index update and never fires a wrong timer.
    Whatever other clients do, it changes the discovery index only by dropping or
    confirming the entry of its own entity in the bucket current at that moment; and
    it reports a timer to fire only as the earliest timer, already expired, of a record of
    the entity that was current, live, placed here and not leased to another owner. *)
Theorem timer_scan_sound e time next owner node st :
  store_wf st -> small_versions st -> wp bounded_client (scan_effect e) (scan_job e time next owner node) (scan_report e time owner node) st.
Proof. intros Hw Hs. apply wp_scan_job; [exact _..| |done|done]. done. Qed.

(** ** Witnesses *)

(** An entity of this node with a timer due at 5, named by the index. *)
Definition sample_due : Entry := MkIndexEntry (lit "Player") (lit "00000000000000a1") (lit "tok") 1 3 5 true (lit "n1").
Definition sample_alarm : EntityTimer := MkTimer (lit "tick") (lit "on_tick") [] (lit "g1") 5 0 1 coalesce false.
Definition sample_store : store :=
  match encode_entity_record (MkRecord (lit "n1/7") 5000 3 (MkSnapshot (lit "hp") [] no_delivery (MkTimers 1 (lit "tok") [(lit "tick", sample_alarm)])) true (lit "n1") 12
          (Some (MkMetadata (lit "Player") [] (repeat x05 32) true false (lit "hp=9") 1))),
        encode_bucket (shard (iid sample_due)) [(identity (lit "Player") (lit "00000000000000a1"), sample_due)], storage_key (shard (iid sample_due)) with
  | Ok r, Ok b, Ok k => put_store (put_store empty_store k b 1) (entity_record_key (MkEntityId 161)) r 2
  | _, _, _ => empty_store
  end.

Lemma sample_store_ok : store_wf sample_store /\ small_versions sample_store.
Proof.
  unfold sample_store. assert (Hs : small_versions empty_store) by done.
  destruct (encode_entity_record _) as [r|]; [|by split]. destruct (encode_bucket _ _) as [b|]; [|by split]. destruct (storage_key _) as [k|]; [|by split].
  split; [by apply put_wf; [apply put_wf; [exact empty_wf|]|]|]. intros k' x. cbn. destruct (bytes_eqb k' _); [by intros [= <-]|]. destruct (bytes_eqb k' k); [by intros [= <-]|done].
Qed.

Lemma timer_scan_sound_witness :
  (play (scan_job sample_due 9 100 (lit "n1/7") (lit "n1")) sample_store).1 = Return (Ok (MkScan act_fire 5 (Some sample_alarm))) /\
  wp bounded_client (scan_effect sample_due) (scan_job sample_due 9 100 (lit "n1/7") (lit "n1")) (scan_report sample_due 9 (lit "n1/7") (lit "n1")) sample_store.
Proof. split; [vm_compute; reflexivity|]. apply timer_scan_sound; apply sample_store_ok. Defined.
