(* ===== verification/Publisher.v ===== *)
(** * The replication service of an owner node

    [AttributeReplication] of [src/attribute_replication.cpp]: subscriptions, their leases and
    permissions, the updates published after a commit, automatic visibility and control.

    The node, the host and the observer hook are what they answer during one operation
    ([Hooks]); hooks that call back into the service are outside the model.  A
    [Subscription] object is reached only through [subscriptions], and its reply
    callback, when still pending, is the caller's or the continuation of [show]. *)

From stdpp Require Import gmap.
From S2P Require Import Prelude Storage OrderedMap Identity Values AttributeWire Replica Delta Messages Fields TimerState DeliveryState Schema.

Definition channel : bytes := lit "system.attributes.update".
Definition presence_channel : bytes := lit "system.entities.presence".

(** [token(id)] *)
Definition token (id : N) : bytes := put_be 8 id.

Record ReplicationLimits := MkReplicationLimits {
  lsubscriptions : N; lper_peer : N; limage_bytes : N; lpending_timeout : Z; llease : Z }.

(** A pending reply: the caller's, or the lambda of [visibility] around it. *)
Inductive ReplyTo := plain (reply : N) | shown (peer reply : N).

Record Subscription := MkSubscription {
  sid : N; sidentity : CallIdentity; stype : bytes; sentity : bytes; sexpires : Z; spending : option ReplyTo;
  slast : AttributeUpdate; sbytes : N; spermission : bytes; sgeneration : N; sautomatic : bool; scontrolled : bool; sowned : bool }.

Record Publisher := MkPublisher {
  plimits : ReplicationLimits; subscriptions : gmap N Subscription; by_entity : gmap bytes (gset N); peer_counts : gmap N N;
  pschedule : list N; pserial : N; pbytes : N; pstopped : bool }.

(** [steady_clock] times are nanoseconds. *)
Definition in_ms (n : Z) : Z := n * 1000000.

Definition attribute_replication (l : ReplicationLimits) : result Publisher :=
  throw_if (lsubscriptions l =? 0) || (lper_peer l =? 0) || (limage_bytes l =? 0) || (lpending_timeout l <=? 0)%Z ||
           (llease l <? 3000)%Z || (Z.of_N u32_max <? llease l)%Z as invalid_argument ;;
  Ok (MkPublisher l ∅ ∅ ∅ [] 0 0 false).

(** What the node, the host and the observer hook answer during one operation. *)
Record Hooks := MkHooks {
  hidentity : N -> option CallIdentity;              (* node.identity(peer) *)
  hconnected : N -> bool;                            (* node.connected(peer) *)
  hnotify : N -> bytes -> bytes -> bool;             (* node.notify(peer, channel, data) *)
  hlive : N -> bool;                                 (* the identity of a subscription is live *)
  howner : bytes -> bytes -> bytes;                  (* host->owner_binding(type, id) *)
  hobserver : option (CallIdentity -> bytes -> bytes -> result bool);
  hschema : bytes -> option EntitySchema;            (* host->schema(type) *)
  hhandle : bytes -> bytes -> option N;              (* host->handle(type, id): its generation *)
  hactive : bytes -> bytes -> bool;                  (* host->active(type, id) *)
  hnow : Z }.

Inductive publisher_output :=
  | replied (reply : N) (r : Result)
  | notified (peer : N) (channel data : bytes)
  | peer_closed (peer : N)
  | host_read (id : N) (type entity : bytes) (definition : EntitySchema)
  | host_write (type entity : bytes) (who : CallIdentity) (proposal : bytes) (reply : N) (request : bytes)
  | publisher_raised (e : exn).

(** ** Permissions and views *)

Record Permission := MkPermission { perm_owner : bytes; perm_key : bytes; perm_observer : bool }.

Definition same_identity (a b : CallIdentity) : bool := bytes_eqb (subject a) (subject b) && bool_decide (connection a = connection b).
Definition is_client (who : CallIdentity) : bool := match caller who with client => true | server => false end.
Definition nameless (who : CallIdentity) : bool := negb (connection_valid (connection who)) && is_empty (subject who).

(** [sub.identity.owns(owner)] *)
Definition sub_owns (h : Hooks) (sub : Subscription) (owner : bytes) : bool := hlive h (sid sub) && matches_key (connection (sidentity sub)) owner.

(** [permission(sub, metadata_owner)] of a subscription in the table *)
Definition permission (h : Hooks) (stopped : bool) (sub : Subscription) (metadata_owner : option bytes) : result Permission :=
  let who := sidentity sub in
  match hidentity h (peer who) with
  | None => Throw runtime_error
  | Some a =>
      throw_if negb (is_client a) || negb (same_identity a who) || negb (hlive h (sid sub)) || stopped as runtime_error ;;
      let owner := match metadata_owner with Some o => o | None => howner h (stype sub) (sentity sub) end in
      let* observes := match hobserver h with
                       | None => Ok (sautomatic sub)
                       | Some check => let* b := check who (stype sub) (sentity sub) in Ok (b || sautomatic sub)
                       end in
      throw_if (negb (sub_owns h sub owner) && negb observes) || nameless who as runtime_error ;;
      Ok (MkPermission owner (to_string (size owner) ++ lit ":" ++ owner ++ (if observes then lit "1" else lit "0")) observes)
  end.

(** The projection of a committed image on what a viewer may read. *)
Definition project (schema : EntitySchema) (owned observes : bool) (image : AttributeUpdate) : result AttributeUpdate :=
  let* vs := fold_result (fun vs e =>
    if visible e.2 owned observes then let* v := map_at e.1 (values image) in Ok (fst (map_emplace e.1 v vs)) else Ok vs) (attributes schema) [] in
  Ok (MkUpdate 0 (revision image) true vs []).

(** [filtered(sub, schema, image, &key)] *)
Definition filtered (h : Hooks) (stopped : bool) (sub : Subscription) (schema : EntitySchema) (image : AttributeUpdate) : result (AttributeUpdate * bytes) :=
  let* view := permission h stopped sub None in
  let* u := project schema (sub_owns h sub (perm_owner view)) (perm_observer view) image in
  Ok (u, perm_key view).

(** [EntityPresence::Kind] *)
Inductive PresenceKind := enter | leave | control_kind.
Definition kind_index (k : PresenceKind) : N := match k with enter => 1 | leave => 2 | control_kind => 3 end.

Definition sub_packet (s : Publisher) (sub : Subscription) (status : Status) (update : option AttributeUpdate) (lease : N) : result bytes :=
  encode_replication_packet (MkPacket (sid sub) (stype sub) (sentity sub) status lease update).

(** [presence(sub, kind, status)] *)
Definition presence (s : Publisher) (sub : Subscription) (kind : PresenceKind) (status : Status) : result bytes :=
  let flags := N.lor (if sowned sub then 1 else 0) (if scontrolled sub then 2 else 0) in
  let* p := sub_packet s sub status (match status with ok => Some (slast sub) | _ => None end) (Z.to_N (llease (plimits s))) in
  Ok ([byte_of (kind_index kind)] ++ [byte_of flags] ++ p).

(** ** Removal *)

Definition without_index (key : bytes) (id : N) (m : gmap bytes (gset N)) : gmap bytes (gset N) :=
  match m !! key with
  | None => m
  | Some ids => if decide (ids ∖ {[id]} = ∅) then delete key m else <[key := ids ∖ {[id]}]> m
  end.

Definition without_peer (p : N) (m : gmap N N) : gmap N N :=
  match m !! p with
  | None => m
  | Some n => if n - 1 =? 0 then delete p m else <[p := n - 1]> m
  end.

(** The tables after [remove] erased [sub]. *)
Definition forget (sub : Subscription) (s : Publisher) : Publisher :=
  MkPublisher (plimits s) (delete (sid sub) (subscriptions s))
    (match encode_entity_key (stype sub) (sentity sub) with Ok key => without_index key (sid sub) (by_entity s) | Throw _ => by_entity s end)
    (without_peer (peer (sidentity sub)) (peer_counts s))
    (List.filter (fun n => negb (n =? sid sub)) (pschedule s)) (pserial s) (pbytes s - sbytes sub) (pstopped s).

(** A reply other than [ok] goes through the lambda of [show] unchanged. *)
Definition answer (to : ReplyTo) (r : Result) : publisher_output := match to with plain n | shown _ n => replied n r end.

(** The message for a subscription that ends. *)
Definition farewell (h : Hooks) (s : Publisher) (sub : Subscription) (status : Status) : list publisher_output :=
  let ch := if sautomatic sub then presence_channel else channel in
  match (if sautomatic sub then presence s sub leave status else sub_packet s sub status None 0) with
  | Throw e => [publisher_raised e]
  | Ok data => if hnotify h (peer (sidentity sub)) ch data then [notified (peer (sidentity sub)) ch data] else [peer_closed (peer (sidentity sub))]
  end.

(** [remove(id, status, notify)] *)
Definition remove (h : Hooks) (id : N) (status : Status) (notify : bool) (s : Publisher) : Publisher * list publisher_output :=
  match subscriptions s !! id with
  | None => (s, [])
  | Some sub =>
      (forget sub s,
       match spending sub with
       | Some to => [answer to (MkResult status [])]
       | None => if notify && hconnected h (peer (sidentity sub)) then farewell h s sub status else []
       end)
  end.

(** ** Watching *)

Definition with_subscription (s : Publisher) (sub : Subscription) : Publisher :=
  MkPublisher (plimits s) (<[sid sub := sub]> (subscriptions s)) (by_entity s) (peer_counts s) (pschedule s) (pserial s) (pbytes s) (pstopped s).
Definition with_pbytes (s : Publisher) (n : N) : Publisher :=
  MkPublisher (plimits s) (subscriptions s) (by_entity s) (peer_counts s) (pschedule s) (pserial s) n (pstopped s).

(** The new subscription in every table. *)
Definition enroll (sub : Subscription) (key : bytes) (s : Publisher) : Publisher :=
  MkPublisher (plimits s) (<[sid sub := sub]> (subscriptions s))
    (<[key := {[sid sub]} ∪ default ∅ (by_entity s !! key)]> (by_entity s))
    (<[peer (sidentity sub) := default 0 (peer_counts s !! peer (sidentity sub)) + 1]> (peer_counts s))
    (pschedule s ++ [sid sub]) (sid sub) (pbytes s) (pstopped s).

(** The key a watch names, all of its input. *)
Definition watch_key (input : bytes) : result (bytes * bytes) :=
  let* '(type, id, rest) := decode_entity_key input in
  throw_if negb (is_empty rest) as invalid_argument ;; Ok (type, id).

(** [watch(identity, input, reply, automatic)]; [accepted] is false when the host throws. *)
Definition watch (h : Hooks) (who : CallIdentity) (input : bytes) (to : ReplyTo) (automatic accepted : bool) (s : Publisher) : Publisher * list publisher_output :=
  let refuse status := (s, [answer to (MkResult status [])]) in
  match watch_key input with
  | Throw _ => refuse rejected
  | Ok (type, id) =>
      if pstopped s || nameless who then refuse rejected
      else if (lsubscriptions (plimits s) <=? N.of_nat (base.size (subscriptions s))) ||
              (lper_peer (plimits s) <=? default 0 (peer_counts s !! peer who)) || (pserial s =? u64_max) then refuse overloaded
      else
        match hschema h type with
        | None => refuse not_found
        | Some definition =>
            if negb (valid_entity_id id) then refuse rejected
            else
              match encode_entity_key type id with
              | Throw e => (s, [publisher_raised e])
              | Ok key =>
                  let sub := MkSubscription (pserial s + 1) who type id (hnow h + in_ms (lpending_timeout (plimits s))) (Some to)
                               (MkUpdate 0 0 false [] []) 0 [] 0 automatic false false in
                  let s := enroll sub key s in
                  if accepted then (s, [host_read (sid sub) type id definition]) else remove h (sid sub) internal false s
              end
        end
  end.

(** The guard [watch] gives to the host. *)
Definition watch_guard (h : Hooks) (id : N) (owner : bytes) (s : Publisher) : bool :=
  if pstopped s then false
  else
    match subscriptions s !! id with
    | None => false
    | Some sub => if (sexpires sub <=? hnow h)%Z then false else is_ok (permission h (pstopped s) sub (Some owner))
    end.

(** The lambda of [show] on an accepted subscription [id]. *)
Definition show_done (h : Hooks) (p reply id : N) (s : Publisher) : Publisher * list publisher_output :=
  match subscriptions s !! id with
  | None => (s, [replied reply (MkResult disconnected [])])
  | Some sub =>
      match presence s sub enter ok with
      | Throw e => (s, [publisher_raised e])
      | Ok data =>
          if hnotify h p presence_channel data then (s, [notified p presence_channel data; replied reply (MkResult ok data)])
          else let '(s, out) := remove h id disconnected false s in (s, [peer_closed p] ++ out ++ [replied reply (MkResult disconnected [])])
      end
  end.

(** The initial image of a subscription: the update, the permission, its charge, the
    generation of the entity and the response; [None] when it is over a budget. *)
Definition first_image (h : Hooks) (sub : Subscription) (definition : EntitySchema) (data : bytes) (s : Publisher) : result (option (AttributeUpdate * bytes * N * N * bytes)) :=
  let* image := decode_attributes data in
  let* '(next, key) := filtered h (pstopped s) sub definition image in
  let* n := attribute_wire_size next in
  let count := n + attribute_image_bytes (values next) in
  if (512 * 1024 <? count) || (limage_bytes (plimits s) - pbytes s <? count) then Ok None
  else
    let* response := sub_packet s sub ok (Some next) (Z.to_N (llease (plimits s))) in
    match hhandle h (stype sub) (sentity sub) with
    | None => Throw runtime_error
    | Some generation => Ok (Some (next, key, count, generation, response))
    end.

(** The completion of the host's read. *)
Definition watched (h : Hooks) (id : N) (definition : EntitySchema) (r : Result) (s : Publisher) : Publisher * list publisher_output :=
  if pstopped s then (s, [])
  else
    match subscriptions s !! id with
    | None => (s, [])
    | Some sub =>
        if negb (bool_decide (rstatus r = ok)) then remove h id (rstatus r) false s
        else
          match first_image h sub definition (rdata r) s with
          | Ok None => remove h id overloaded false s
          | Throw _ => remove h id rejected false s
          | Ok (Some (next, key, count, generation, response)) =>
              let sub := MkSubscription id (sidentity sub) (stype sub) (sentity sub) (hnow h + in_ms (llease (plimits s))) (spending sub)
                           next count key generation (sautomatic sub) (scontrolled sub) (sub_owns h sub (howner h (stype sub) (sentity sub))) in
              let done := MkSubscription id (sidentity sub) (stype sub) (sentity sub) (sexpires sub) None
                           next count key generation (sautomatic sub) (scontrolled sub) (sowned sub) in
              let s := with_pbytes (with_subscription s done) (pbytes s + count) in
              match spending sub with
              | Some (plain n) => (s, [replied n (MkResult ok response)])
              | Some (shown p n) => show_done h p n id s
              | None => (s, [])
              end
          end
    end.

(** ** Automatic visibility *)

(** The automatic subscription of this very connection, if any. *)
Definition find_target (p : N) (who : CallIdentity) (key : bytes) (s : Publisher) : option Subscription :=
  List.find (fun sub => sautomatic sub && (peer (sidentity sub) =? p) && same_identity (sidentity sub) who)
    (omap (fun id => subscriptions s !! id) (elements (default ∅ (by_entity s !! key)))).

(** Whether an answered subscription still shows the entity it was made for. *)
Definition still_shown (h : Hooks) (sub : Subscription) (s : Publisher) : bool :=
  negb (sexpires sub <=? hnow h)%Z && bool_decide (hhandle h (stype sub) (sentity sub) = Some (sgeneration sub)) &&
  bool_decide (is_Some (hschema h (stype sub))) &&
  match permission h (pstopped s) sub None with Ok p => bytes_eqb (perm_key p) (spermission sub) | Throw _ => false end.

Definition with_control (sub : Subscription) (value : bool) : Subscription :=
  MkSubscription (sid sub) (sidentity sub) (stype sub) (sentity sub) (sexpires sub) (spending sub) (slast sub) (sbytes sub) (spermission sub)
    (sgeneration sub) (sautomatic sub) value (sowned sub).

(** [set_control(sub, value)]: whether the client was told. *)
Definition set_control (h : Hooks) (p : N) (sub : Subscription) (value : bool) (s : Publisher) : bool * Publisher * list publisher_output :=
  if Bool.eqb (scontrolled sub) value then (true, s, [])
  else
    let sub := with_control sub value in
    let s := with_subscription s sub in
    match presence s sub control_kind ok with
    | Throw e => (false, s, [publisher_raised e])
    | Ok data => if hnotify h p presence_channel data then (true, s, [notified p presence_channel data]) else (false, s, [peer_closed p])
    end.

(** Control leaves every other automatic subscription of the connection. *)
Fixpoint release_control (h : Hooks) (p target : N) (ids : list N) (s : Publisher) : bool * Publisher * list publisher_output :=
  match ids with
  | [] => (true, s, [])
  | id :: ids =>
      match subscriptions s !! id with
      | None => release_control h p target ids s
      | Some sub =>
          if negb (id =? target) && sautomatic sub && (peer (sidentity sub) =? p) && scontrolled sub then
            let '(told, s, out) := set_control h p sub false s in
            if told then let '(told, s, more) := release_control h p target ids s in (told, s, out ++ more) else (false, s, out)
          else release_control h p target ids s
      end
  end.

(** Actions 3 (possess) and 4 (unpossess) on an answered subscription. *)
Definition possess (h : Hooks) (p : N) (who : CallIdentity) (sub : Subscription) (take : bool) (reply : N) (s : Publisher) : Publisher * list publisher_output :=
  if negb (is_ok (permission h (pstopped s) sub None)) then (s, [replied reply (MkResult rejected [])])
  else if take && negb (owns who (howner h (stype sub) (sentity sub))) then (s, [replied reply (MkResult rejected [])])
  else
    let '(told, s, out) := if take then release_control h p (sid sub) (elements (dom (subscriptions s))) s else (true, s, []) in
    if negb told then (s, out ++ [replied reply (MkResult disconnected [])])
    else
      let '(told, s, more) := set_control h p sub take s in
      if negb told then (s, out ++ more ++ [replied reply (MkResult disconnected [])])
      else match presence s (with_control sub take) enter ok with
           | Throw e => (s, out ++ more ++ [publisher_raised e])
           | Ok data => (s, out ++ more ++ [replied reply (MkResult ok data)])
           end.

(** [visibility(peer, type, entity, action, reply)] *)
Definition visibility (h : Hooks) (p : N) (type id : bytes) (action : N) (reply : N) (accepted : bool) (s : Publisher) : Publisher * list publisher_output :=
  let refuse status := (s, [replied reply (MkResult status [])]) in
  if pstopped s then refuse disconnected
  else
    match hidentity h p with
    | None => refuse rejected
    | Some who =>
        if negb (is_client who) || nameless who then refuse rejected
        else
          match encode_entity_key type id with
          | Throw _ => refuse rejected
          | Ok input =>
              let '(s, out, target) :=
                match find_target p who input s with
                | None => (s, [], None)
                | Some sub =>
                    if bool_decide (spending sub = None) && negb (still_shown h sub s)
                    then let '(s, out) := remove h (sid sub) rejected true s in (s, out, None)
                    else (s, [], Some sub)
                end in
              let finish r := (s, out ++ [replied reply r]) in
              if action =? 1 then
                match target with
                | Some sub =>
                    if bool_decide (spending sub = None)
                    then match presence s sub enter ok with Ok data => finish (MkResult ok data) | Throw e => (s, out ++ [publisher_raised e]) end
                    else finish (MkResult overloaded [])
                | None =>
                    if negb (hactive h type id) then finish (MkResult not_found [])
                    else let '(s, more) := watch h who input (shown p reply) true accepted s in (s, out ++ more)
                end
              else if action =? 2 then
                match target with
                | Some sub => let '(s, more) := remove h (sid sub) disconnected true s in (s, out ++ more ++ [replied reply (MkResult ok [])])
                | None => finish (MkResult ok [])
                end
              else if negb (action =? 3) && negb (action =? 4) then finish (MkResult rejected [])
              else
                match target with
                | None => finish (MkResult not_found [])
                | Some sub =>
                    if negb (bool_decide (spending sub = None)) then finish (MkResult not_found [])
                    else let '(s, more) := possess h p who sub (action =? 3) reply s in (s, out ++ more)
                end
          end
    end.

(** ** Requests of a subscribed client *)

Definition same_caller (sub : Subscription) (who : CallIdentity) : bool :=
  (peer (sidentity sub) =? peer who) && same_identity (sidentity sub) who.

Definition with_expiry (sub : Subscription) (t : Z) : Subscription :=
  MkSubscription (sid sub) (sidentity sub) (stype sub) (sentity sub) t (spending sub) (slast sub) (sbytes sub) (spermission sub)
    (sgeneration sub) (sautomatic sub) (scontrolled sub) (sowned sub).

(** [control(identity, input, reply, renew)] *)
Definition control (h : Hooks) (who : CallIdentity) (input : bytes) (reply : N) (renew : bool) (s : Publisher) : Publisher * list publisher_output :=
  let answer status := (s, [replied reply (MkResult status [])]) in
  match get_be invalid_argument 8 input with
  | Throw _ => answer rejected
  | Ok (id, rest) =>
      if negb (is_empty rest) then answer rejected
      else
        match subscriptions s !! id with
        | None => answer not_found
        | Some sub =>
            if negb (same_caller sub who) || negb (live who) then answer rejected
            else if renew then
              if bool_decide (is_Some (spending sub)) || (sexpires sub <=? hnow h)%Z then answer timeout
              else if negb (is_ok (permission h (pstopped s) sub None)) then answer rejected
              else (with_subscription s (with_expiry sub (hnow h + in_ms (llease (plimits s)))), [replied reply (MkResult ok [])])
            else let '(s, out) := remove h id disconnected false s in (s, out ++ [replied reply (MkResult ok [])])
        end
  end.

(** The parts of a write request: subscription, request identity and encoded proposal. *)
Definition write_request (input : bytes) : result (N * bytes * bytes) :=
  let* '(id, input) := get_be invalid_argument 8 input in
  let* '(length, input) := get_be invalid_argument 2 input in
  throw_if (length =? 0) || (128 <? length) || (size input <? length) as invalid_argument ;;
  let request := take (N.to_nat length) input in
  let input := drop (N.to_nat length) input in
  let* update := decode_attributes input in
  throw_if snapshot update || negb (base update =? revision update) as invalid_argument ;;
  Ok (id, request, input).

(** [write(who, input, reply)] *)
Definition write (h : Hooks) (who : CallIdentity) (input : bytes) (reply : N) (s : Publisher) : Publisher * list publisher_output :=
  let answer status := (s, [replied reply (MkResult status [])]) in
  match write_request input with
  | Throw _ => answer rejected
  | Ok (id, request, proposal) =>
      match subscriptions s !! id with
      | None => answer not_found
      | Some sub =>
          if bool_decide (is_Some (spending sub)) then answer overloaded
          else if negb (same_caller sub who) then answer rejected
          else if (sexpires sub <=? hnow h)%Z then answer timeout
          else
            match permission h (pstopped s) sub None with
            | Throw _ => answer rejected
            | Ok view => if negb (owns who (perm_owner view)) then answer rejected
                         else (s, [host_write (stype sub) (sentity sub) who proposal reply request])
            end
      end
  end.

(** ** Publication *)

Record AttributeCommit := MkCommit { ctype : bytes; cid : bytes; cschema : EntitySchema; ccurrent : AttributeUpdate }.

(** What the commit is for one subscription: the update to send with the image and permission
    it leads to, or nothing to send. *)
Inductive publication := pub_skip | pub_overloaded | pub_stale | pub_changed | pub_send (next : AttributeUpdate) (count : N) (data : bytes).

Definition publication_of (h : Hooks) (sub : Subscription) (event : AttributeCommit) (s : Publisher) : result publication :=
  if negb (bool_decide (hhandle h (stype sub) (sentity sub) = Some (sgeneration sub))) then Ok pub_stale
  else
    let* '(next, key) := filtered h (pstopped s) sub (cschema event) (ccurrent event) in
    if negb (bytes_eqb key (spermission sub)) then Ok pub_changed
    else
      let* update := attribute_delta (slast sub) next in
      if negb (snapshot update) && is_empty (values update) && is_empty (patches update) &&
         ((revision next =? revision (slast sub)) || negb (sub_owns h sub (howner h (stype sub) (sentity sub)))) then Ok pub_skip
      else
        let* n := attribute_wire_size next in
        let count := n + attribute_image_bytes (values next) in
        if limage_bytes (plimits s) - pbytes s + sbytes sub <? count then Ok pub_overloaded
        else let* data := sub_packet s sub ok (Some update) 0 in Ok (pub_send next count data).

Definition with_image (sub : Subscription) (next : AttributeUpdate) (count : N) : Subscription :=
  MkSubscription (sid sub) (sidentity sub) (stype sub) (sentity sub) (sexpires sub) (spending sub) next count (spermission sub)
    (sgeneration sub) (sautomatic sub) (scontrolled sub) (sowned sub).

(** One subscription of the loop of [committed]. *)
Definition publish (h : Hooks) (event : AttributeCommit) (id : N) (s : Publisher) : Publisher * list publisher_output :=
  if pstopped s then (s, [])
  else
    match subscriptions s !! id with
    | None => (s, [])
    | Some sub =>
        if bool_decide (is_Some (spending sub)) then (s, [])
        else if (sexpires sub <=? hnow h)%Z then remove h id timeout true s
        else
          match publication_of h sub event s with
          | Throw _ => remove h id rejected true s
          | Ok pub_skip => (s, [])
          | Ok pub_stale => remove h id disconnected true s
          | Ok pub_changed => remove h id rejected true s
          | Ok pub_overloaded => remove h id overloaded true s
          | Ok (pub_send next count data) =>
              if hnotify h (peer (sidentity sub)) channel data
              then (with_pbytes (with_subscription s (with_image sub next count)) (pbytes s - sbytes sub + count), [notified (peer (sidentity sub)) channel data])
              else let '(s, out) := remove h id disconnected false s in (s, [peer_closed (peer (sidentity sub))] ++ out)
          end
    end.

Fixpoint each {A} (f : N -> A -> Publisher -> Publisher * list publisher_output) (ids : list N) (a : N -> A) (s : Publisher) : Publisher * list publisher_output :=
  match ids with
  | [] => (s, [])
  | id :: ids => let '(s, out) := f id (a id) s in let '(s, more) := each f ids a s in (s, out ++ more)
  end.

(** [committed(event)]; each subscription is handled under hooks of its own. *)
Definition committed (h : N -> Hooks) (event : AttributeCommit) (s : Publisher) : Publisher * list publisher_output :=
  match encode_entity_key (ctype event) (cid event) with
  | Throw e => (s, [publisher_raised e])
  | Ok key =>
      match by_entity s !! key with
      | None => (s, [])
      | Some ids => each (fun id h s => publish h event id s) (elements ids) h s
      end
  end.

(** The host's [on_closed] listener. *)
Definition closed (h : N -> Hooks) (type id : bytes) (destroyed : bool) (s : Publisher) : Publisher * list publisher_output :=
  match encode_entity_key type id with
  | Throw e => (s, [publisher_raised e])
  | Ok key =>
      match by_entity s !! key with
      | None => (s, [])
      | Some ids => each (fun id h s => remove h id (if destroyed then not_found else disconnected) true s) (elements ids) h s
      end
  end.

(** ** Polling and stopping *)

Definition with_pschedule (s : Publisher) (l : list N) : Publisher :=
  MkPublisher (plimits s) (subscriptions s) (by_entity s) (peer_counts s) l (pserial s) (pbytes s) (pstopped s).

(** One subscription of [poll]: whether it stays. *)
Definition poll_one (h : Hooks) (sub : Subscription) (s : Publisher) : Publisher * list publisher_output :=
  if negb (hconnected h (peer (sidentity sub))) then remove h (sid sub) disconnected false s
  else if (sexpires sub <=? hnow h)%Z then remove h (sid sub) timeout true s
  else
    let '(s, out) :=
      if bool_decide (is_Some (spending sub)) then (s, [])
      else if bool_decide (is_Some (hschema h (stype sub))) && bool_decide (hhandle h (stype sub) (sentity sub) = Some (sgeneration sub)) &&
              match permission h (pstopped s) sub None with Ok p => bytes_eqb (perm_key p) (spermission sub) | Throw _ => false end
      then (s, []) else remove h (sid sub) rejected true s in
    (if bool_decide (is_Some (subscriptions s !! sid sub)) then with_pschedule s (pschedule s ++ [sid sub]) else s, out).

(** The loop of [poll]: [count] turns of the schedule, at most [budget] of them work. *)
Fixpoint poll_loop (count : nat) (budget : N) (h : nat -> Hooks) (s : Publisher) : Publisher * list publisher_output :=
  match count, pschedule s with
  | S count, id :: rest =>
      if pstopped s || (budget =? 0) then (s, [])
      else
        let s := with_pschedule s rest in
        match subscriptions s !! id with
        | None => poll_loop count budget h s
        | Some sub =>
            let '(s, out) := poll_one (h 0%nat) sub s in
            let '(s, more) := poll_loop count (budget - 1) (fun n => h (S n)) s in
            (s, out ++ more)
        end
  | _, _ => (s, [])
  end.

Definition poll (budget : N) (h : nat -> Hooks) (s : Publisher) : Publisher * list publisher_output := poll_loop (length (pschedule s)) budget h s.

(** [stop()]: every pending reply, then a farewell whose failure is ignored. *)
Definition stop_message (s : Publisher) (sub : Subscription) : list publisher_output :=
  match spending sub with
  | Some to => [answer to (MkResult disconnected [])]
  | None =>
      let ch := if sautomatic sub then presence_channel else channel in
      match (if sautomatic sub then presence s sub leave disconnected else sub_packet s sub disconnected None 0) with
      | Throw _ => []
      | Ok data => [notified (peer (sidentity sub)) ch data]
      end
  end.

Definition stop (s : Publisher) : Publisher * list publisher_output :=
  if pstopped s then (s, [])
  else (MkPublisher (plimits s) ∅ ∅ ∅ [] (pserial s) 0 true, flat_map (stop_message s) (map snd (map_to_list (subscriptions s)))).
