(* ===== verification/Projection.v ===== *)
(** * The client's projections

    [AttributeClient] of [src/attribute_replication.cpp]: the replicas a client keeps of the
    entities it watches, the messages that update them, writes and renewals.

    Callbacks of the application are outputs, except that a [presence] callback may
    throw; callbacks that call back into the client are outside the model. *)

From stdpp Require Import gmap.
From S2P Require Import Prelude Storage OrderedMap Identity Values AttributeWire Replica Delta Messages Fields TimerState DeliveryState Schema Publisher.

Definition image_budget : N := 16 * 1024 * 1024.

Record Projection := MkProjection {
  jtype : bytes; jentity : bytes; jreplica : AttributeReplica; jrenewed : Z; jinterval : Z; jbytes : N;
  jautomatic : bool; jowned : bool; jcontrolled : bool }.

(** A watch that waits for its reply. *)
Record PendingWatch := MkPendingWatch { wtype : bytes; wentity : bytes; wready : N }.

Record Client := MkClient {
  cpeer : N; cprefix : bytes; cstopped : bool; entities_stopped : bool; cserial : N; cbytes : N;
  projections : gmap N Projection; cpending : gmap N PendingWatch; cwrites : gmap N N }.

Inductive client_output :=
  | told_ready (ready : N) (status : Status) (subscription : N)
  | told_written (written : N) (status : Status)
  | told_changed (subscription : N) (status : Status) (replica : option AttributeReplica)
  | told_presence (kind : PresenceKind) (type entity : bytes) (subscription : N) (owned controlled : bool)
  | called_watch (request : N) (input : bytes)
  | called_write (request : N) (input : bytes)
  | called_renew (subscription : N)
  | called_unwatch (subscription : N)
  | server_closed.

Definition attribute_client (server : N) (prefix : bytes) : result Client :=
  throw_if server =? 0 as invalid_argument ;; Ok (MkClient server prefix false false 0 0 ∅ ∅ ∅).

Definition with_projections (c : Client) (m : gmap N Projection) (n : N) : Client :=
  MkClient (cpeer c) (cprefix c) (cstopped c) (entities_stopped c) (cserial c) n m (cpending c) (cwrites c).
Definition with_cpending (c : Client) (serial : N) (m : gmap N PendingWatch) : Client :=
  MkClient (cpeer c) (cprefix c) (cstopped c) (entities_stopped c) serial (cbytes c) (projections c) m (cwrites c).
Definition with_cwrites (c : Client) (serial : N) (m : gmap N N) : Client :=
  MkClient (cpeer c) (cprefix c) (cstopped c) (entities_stopped c) serial (cbytes c) (projections c) (cpending c) m.

(** [presence_event(id, p, kind)]; [throws]: what the callback does. *)
Definition presence_event (throws : bool) (id : N) (p : Projection) (kind : PresenceKind) : list client_output :=
  if jautomatic p then told_presence kind (jtype p) (jentity p) id (jowned p) (jcontrolled p) :: (if throws then [server_closed] else []) else [].

(** [remove(id, status, remote)] *)
Definition remove (throws : bool) (id : N) (status : Status) (remote : bool) (c : Client) : Client * list client_output :=
  match projections c !! id with
  | None => (c, [])
  | Some p =>
      (with_projections c (delete id (projections c)) (cbytes c - jbytes p),
       (if remote then [called_unwatch id] else []) ++ [told_changed id status None] ++ presence_event throws id p leave)
  end.

(** [stop()] *)
Definition stop (throws : bool) (c : Client) : Client * list client_output :=
  if cstopped c then (c, [])
  else
    (MkClient (cpeer c) (cprefix c) true (entities_stopped c) (cserial c) 0 ∅ ∅ ∅,
     flat_map (fun e => called_unwatch e.1 :: told_changed e.1 disconnected None :: presence_event throws e.1 e.2 leave) (map_to_list (projections c)) ++
     map (fun e => told_written e.2 disconnected) (map_to_list (cwrites c)) ++
     map (fun e => told_ready (wready e.2) disconnected 0) (map_to_list (cpending c))).

(** [catch(...) { node.close(peer); stop(); }] *)
Definition or_stop (throws : bool) (c : Client) (r : result (Client * list client_output)) : Client * list client_output :=
  match r with
  | Ok x => x
  | Throw _ => let '(c, out) := stop throws c in (c, server_closed :: out)
  end.

(** ** Presence *)

(** A new automatic projection. *)
Definition enter_entity (throws : bool) (now : Z) (m : ReplicationPacket) (u : AttributeUpdate) (flags : N) (c : Client) : result (Client * list client_output) :=
  throw_if 256 <=? N.of_nat (base.size (projections c)) + N.of_nat (base.size (cpending c)) as length_error ;;
  let* '(fresh, r) := apply_unbounded empty_replica u in
  throw_if negb fresh as invalid_argument ;;
  let* n := attribute_wire_size u in
  let count := n + attribute_image_bytes (values u) in
  throw_if image_budget - cbytes c <? count as length_error ;;
  let p := MkProjection (packet_type m) (packet_id m) r now (in_ms (Z.of_N (lease_ms m / 3))) count true (N.testbit flags 0) (N.testbit flags 1) in
  Ok (with_projections c (<[subscription m := p]> (projections c)) (cbytes c + count),
      told_changed (subscription m) ok (Some r) :: presence_event throws (subscription m) p enter).

Definition with_jcontrol (p : Projection) (b : bool) : Projection :=
  MkProjection (jtype p) (jentity p) (jreplica p) (jrenewed p) (jinterval p) (jbytes p) (jautomatic p) (jowned p) b.

(** The message of a presence notification: kind, flags and packet. *)
Definition presence_message (data : bytes) : result (N * N * ReplicationPacket) :=
  let* '(kind, input) := get_be invalid_argument 1 data in
  let* '(flags, input) := get_be invalid_argument 1 input in
  throw_if (kind <? 1) || (3 <? kind) || (3 <? flags) || (N.testbit flags 1 && negb (N.testbit flags 0)) as invalid_argument ;;
  let* m := decode_replication_packet input in Ok (kind, flags, m).

Definition presence_body (throws : bool) (now : Z) (data : bytes) (c : Client) : result (Client * list client_output) :=
  let* '(kind, flags, m) := presence_message data in
  let id := subscription m in
  if kind =? 2 then
    throw_if bool_decide (packet_status m = ok) as invalid_argument ;;
    match projections c !! id with
    | None => Ok (c, [])
    | Some p =>
        throw_if negb (jautomatic p) || negb (bytes_eqb (jtype p) (packet_type m)) || negb (bytes_eqb (jentity p) (packet_id m)) as invalid_argument ;;
        Ok (remove throws id (packet_status m) false c)
    end
  else
    match packet_status m, packet_update m with
    | ok, Some u =>
        throw_if negb (snapshot u) || (lease_ms m <? 3000) as invalid_argument ;;
        match projections c !! id with
        | None =>
            if entities_stopped c then Ok (c, [called_unwatch id])
            else if negb (kind =? 1) then Ok (c, [])
            else enter_entity throws now m u flags c
        | Some p =>
            throw_if negb (jautomatic p) || negb (bytes_eqb (jtype p) (packet_type m)) || negb (bytes_eqb (jentity p) (packet_id m)) ||
                     negb (Bool.eqb (jowned p) (N.testbit flags 0)) as invalid_argument ;;
            if Bool.eqb (jcontrolled p) (N.testbit flags 1) then Ok (c, [])
            else
              let p := with_jcontrol p (N.testbit flags 1) in
              Ok (with_projections c (<[id := p]> (projections c)) (cbytes c), presence_event throws id p control_kind)
        end
    | _, _ => Throw invalid_argument
    end.

(** [receive_presence(from, data)] *)
Definition receive_presence (throws : bool) (now : Z) (from : N) (data : bytes) (c : Client) : Client * list client_output :=
  if cstopped c || negb (from =? cpeer c) then (c, []) else or_stop throws c (presence_body throws now data c).

(** ** Updates *)

Definition with_replica (p : Projection) (r : AttributeReplica) (n : N) : Projection :=
  MkProjection (jtype p) (jentity p) r (jrenewed p) (jinterval p) n (jautomatic p) (jowned p) (jcontrolled p).

Definition receive_body (throws : bool) (data : bytes) (c : Client) : result (Client * list client_output) :=
  let* m := decode_replication_packet data in
  let id := subscription m in
  match projections c !! id with
  | None => Ok (c, [])
  | Some p =>
      throw_if negb (bytes_eqb (packet_type m) (jtype p)) || negb (bytes_eqb (packet_id m) (jentity p)) as runtime_error ;;
      match packet_status m, packet_update m with
      | ok, None => Throw logic_error
      | ok, Some u =>
          match apply (jreplica p) u (image_budget - cbytes c + jbytes p) with
          | Throw replica_budget => Ok (remove throws id overloaded true c)
          | Throw e => Throw e
          | Ok (false, _) => Ok (remove throws id rejected true c)
          | Ok (true, r) =>
              let count := image_bytes r in
              Ok (with_projections c (<[id := with_replica p r count]> (projections c)) (cbytes c - jbytes p + count), [told_changed id ok (Some r)])
          end
      | status, _ => Ok (remove throws id status false c)
      end
  end.

(** [receive(from, data)] *)
Definition receive (throws : bool) (from : N) (data : bytes) (c : Client) : Client * list client_output :=
  if cstopped c || negb (from =? cpeer c) then (c, []) else or_stop throws c (receive_body throws data c).

(** ** Watching *)

(** [watch(type, id, ready, timeout)] *)
Definition watch (type id : bytes) (ready : N) (c : Client) : Client * list client_output :=
  if cstopped c then (c, [told_ready ready disconnected 0])
  else if (256 <=? N.of_nat (base.size (cpending c)) + N.of_nat (base.size (projections c))) || (cserial c =? u64_max) then (c, [told_ready ready overloaded 0])
  else
    match encode_entity_key type id with
    | Throw _ => (c, [told_ready ready rejected 0])
    | Ok input =>
        let request := cserial c + 1 in
        (with_cpending c request (<[request := MkPendingWatch type id ready]> (cpending c)), [called_watch request input])
    end.

(** The projection a watch's response starts. *)
Definition first_projection (now : Z) (w : PendingWatch) (m : ReplicationPacket) (c : Client) : result (Projection * N) :=
  match packet_status m, packet_update m with
  | ok, Some u =>
      throw_if (lease_ms m <? 3000) || negb (snapshot u) || negb (bytes_eqb (packet_type m) (wtype w)) || negb (bytes_eqb (packet_id m) (wentity w)) ||
               bool_decide (is_Some (projections c !! subscription m)) as runtime_error ;;
      let* '(fresh, r) := apply_unbounded empty_replica u in
      throw_if negb fresh as runtime_error ;;
      let* n := image_wire_size (replica_values r) in
      let count := n + attribute_image_bytes (replica_values r) in
      throw_if image_budget - cbytes c <? count as length_error ;;
      Ok (MkProjection (wtype w) (wentity w) r now (in_ms (Z.of_N (lease_ms m / 3))) count false false false, count)
  | _, _ => Throw runtime_error
  end.

(** The reply to a watch. *)
Definition watch_replied (throws : bool) (now : Z) (request : N) (r : Result) (c : Client) : Client * list client_output :=
  match cpending c !! request with
  | None =>
      (c, if bool_decide (rstatus r = ok) then match decode_replication_packet (rdata r) with Ok m => [called_unwatch (subscription m)] | Throw _ => [] end else [])
  | Some w =>
      let c := with_cpending c (cserial c) (delete request (cpending c)) in
      if negb (bool_decide (rstatus r = ok)) then (c, [told_ready (wready w) (rstatus r) 0])
      else
        match decode_replication_packet (rdata r) with
        | Throw _ => (c, [told_ready (wready w) rejected 0])
        | Ok m =>
            match first_projection now w m c with
            | Throw _ =>
                let '(c, out) := if bool_decide (is_Some (projections c !! subscription m)) then remove throws (subscription m) internal false c
                                 else (c, [told_ready (wready w) rejected 0]) in (c, called_unwatch (subscription m) :: out)
            | Ok (p, count) =>
                (with_projections c (<[subscription m := p]> (projections c)) (cbytes c + count),
                 [told_ready (wready w) ok (subscription m); told_changed (subscription m) ok (Some (jreplica p))])
            end
        end
  end.

(** ** Writing *)

(** The request of a property write; [request_id] and [expected] are the caller's options. *)
Definition write_input (id request : N) (p : Projection) (vs : AttributeStruct) (request_id : bytes) (expected : option N) (c : Client) : result bytes :=
  let r := jreplica p in
  let rid := if is_empty request_id then cprefix c ++ to_string request else request_id in
  throw_if 128 <? size rid as invalid_argument ;;
  let expected := default (replica_revision r) expected in
  let* proposal := if negb (is_empty request_id) then Ok (MkUpdate expected expected false vs [])
                   else attribute_write_delta (replica_values r) (replica_revision r) vs expected in
  let* record := encode_attributes proposal in
  Ok (token id ++ put_be 2 (size rid) ++ rid ++ record).

(** [write(subscription, values, callback, options, timeout)] *)
Definition write (id : N) (vs : AttributeStruct) (written : N) (request_id : bytes) (expected : option N) (c : Client) : Client * list client_output :=
  if cstopped c then (c, [told_written written disconnected])
  else
    match projections c !! id with
    | None => (c, [told_written written not_found])
    | Some p =>
        if (256 <=? N.of_nat (base.size (cwrites c))) || (cserial c =? u64_max) then (c, [told_written written overloaded])
        else
          let request := cserial c + 1 in
          match write_input id request p vs request_id expected c with
          | Throw _ => (with_cwrites c request (cwrites c), [told_written written rejected])
          | Ok input => (with_cwrites c request (<[request := written]> (cwrites c)), [called_write request input])
          end
    end.

(** The reply to a write. *)
Definition write_replied (request : N) (r : Result) (c : Client) : Client * list client_output :=
  match cwrites c !! request with
  | None => (c, [])
  | Some written => (with_cwrites c (cserial c) (delete request (cwrites c)), [told_written written (rstatus r)])
  end.

(** ** Leaving and polling *)

Fixpoint remove_all (throws : bool) (ids : list N) (c : Client) : Client * list client_output :=
  match ids with
  | [] => (c, [])
  | id :: ids => let '(c, out) := remove throws id disconnected true c in let '(c, more) := remove_all throws ids c in (c, out ++ more)
  end.

(** [stop_entities()] *)
Definition stop_entities (throws : bool) (c : Client) : Client * list client_output :=
  let c := MkClient (cpeer c) (cprefix c) (cstopped c) true (cserial c) (cbytes c) (projections c) (cpending c) (cwrites c) in
  remove_all throws (map fst (List.filter (fun e => jautomatic e.2) (map_to_list (projections c)))) c.

(** [unwatch(id)] *)
Definition unwatch (throws : bool) (id : N) (c : Client) : Client * list client_output := remove throws id disconnected true c.

Definition with_renewed (p : Projection) (t : Z) : Projection :=
  MkProjection (jtype p) (jentity p) (jreplica p) t (jinterval p) (jbytes p) (jautomatic p) (jowned p) (jcontrolled p).

Fixpoint renew_all (now : Z) (ids : list N) (c : Client) : Client * list client_output :=
  match ids with
  | [] => (c, [])
  | id :: ids =>
      match projections c !! id with
      | None => renew_all now ids c
      | Some p =>
          let '(c, out) := renew_all now ids (with_projections c (<[id := with_renewed p now]> (projections c)) (cbytes c)) in
          (c, called_renew id :: out)
      end
  end.

(** [poll()] *)
Definition poll (throws connected : bool) (now : Z) (c : Client) : Client * list client_output :=
  if cstopped c then (c, [])
  else if negb connected then (if decide (projections c = ∅) then (c, []) else stop throws c)
  else renew_all now (map fst (List.filter (fun e => (jinterval e.2 <=? now - jrenewed e.2)%Z) (map_to_list (projections c)))) c.

(** The reply to a renewal. *)
Definition renewed (throws : bool) (id : N) (r : Result) (c : Client) : Client * list client_output :=
  if cstopped c || bool_decide (rstatus r = ok) then (c, []) else remove throws id (rstatus r) false c.

(** ** Inspection *)

Record AttributeProjectionInfo := MkInfo { isubscription : N; itype : bytes; iid : bytes; iautomatic : bool; iowned : bool; icontrolled : bool }.

Definition info_of (id : N) (p : Projection) : AttributeProjectionInfo := MkInfo id (jtype p) (jentity p) (jautomatic p) (jowned p) (jcontrolled p).

(** [projection_info(id)] *)
Definition projection_info (id : N) (c : Client) : option AttributeProjectionInfo := info_of id <$> projections c !! id.

(** [projection_infos()] *)
Definition projection_infos (c : Client) : list AttributeProjectionInfo := map (fun e => info_of e.1 e.2) (map_to_list (projections c)).

(** [get(id)] *)
Definition get (id : N) (c : Client) : option AttributeReplica := jreplica <$> projections c !! id.
