(* ===== verification/ReplicationCorrect.v ===== *)
(** * Replication converges

    From the owner node's commit to the client's replica: a subscriber is sent exactly what it
    may see, and a client that has received what was sent holds the view of the
    latest commit. *)

From stdpp Require Import gmap.
From S2P Require Import Prelude Storage OrderedMap Identity Values AttributeWire Replica Delta AttributeCodec DiffCorrect Images DeltaCorrect Messages MessagesCorrect Fields TimerState DeliveryState Schema Publisher Projection.

(** ** Views *)

(** [vs] holds exactly the attributes of [image] a viewer may read. *)
Definition view_of (schema : EntitySchema) (owned observes : bool) (image vs : AttributeStruct) : Prop :=
  forall name v, map_find name vs = Some v <-> exists d, (name, d) ∈ attributes schema /\ visible d owned observes = true /\ map_find name image = Some v.

Lemma map_find_emplace_ne {V} k k' (v : V) m : k' <> k -> map_find k' (fst (map_emplace k v m)) = map_find k' m.
Proof. intros Hne. unfold map_emplace. destruct (map_contains k m); [done|]. by apply map_find_insert_ne. Qed.

Lemma map_emplace_fresh {V} k (v : V) m : map_find k m = None -> fst (map_emplace k v m) = map_insert k v m.
Proof. intros Hn. unfold map_emplace. destruct (map_contains k m) eqn:E; [|done]. apply map_contains_spec in E as [w E]. congruence. Qed.

Lemma project_fold owned observes image l : forall vs vs', NoDup (l.*1) -> (forall name, name ∈ l.*1 -> map_find name vs = None) -> map_wf vs ->
  fold_result (fun vs (e : bytes * AttributeDefinition) =>
    if visible e.2 owned observes then let* v := map_at e.1 (values image) in Ok (fst (map_emplace e.1 v vs)) else Ok vs) l vs = Ok vs' ->
  map_wf vs' /\ forall name v, map_find name vs' = Some v <->
    map_find name vs = Some v \/ exists d, (name, d) ∈ l /\ visible d owned observes = true /\ map_find name (values image) = Some v.
Proof.
  induction l as [|[k d] l IH]; intros vs vs' Hnd Hf Hw; cbn [fold_result].
  { intros [= <-]. split; [done|]. intros name v. split; [by left|]. intros [?|(d & ?%elem_of_nil & _)]; done. }
  cbn in Hnd. apply NoDup_cons in Hnd as [Hk Hnd]. intros (vs1 & H1 & H)%bind_ok. cbn [fst snd] in H1.
  assert (Hkn : map_find k vs = None) by (apply Hf; by left). destruct (visible d owned observes) eqn:Ev.
  - apply bind_ok in H1 as (v & Hv & [= <-]). rewrite map_emplace_fresh in H by done. unfold map_at in Hv. destruct (map_find k (values image)) as [w|] eqn:Ei; [|done]. injection Hv as ->.
    apply IH in H as [HW HS]; [|done| |by apply map_wf_insert]. 2:{ intros name Hn. rewrite map_find_insert_ne; [apply Hf; by right|]. intros ->. done. }
    split; [done|]. intros name x. rewrite HS. destruct (decide (name = k)) as [->|Hne].
    + rewrite map_find_insert, Hkn. split.
      * intros [[= <-]|(d' & Hin & _)]; [right; exists d; by split; [left|]|]. exfalso. apply Hk. apply list_elem_of_fmap. by exists (k, d').
      * intros [?|(d' & [[= ->]|Hin]%elem_of_cons & _ & Hx)]; [done|left; congruence|]. exfalso. apply Hk. apply list_elem_of_fmap. by exists (k, d').
    + rewrite map_find_insert_ne by done. split; (intros [?|(d' & Hin & Hx)]; [by left|right; exists d'; split; [|done]]); [by right|]. apply elem_of_cons in Hin as [[= ? ?]|?]; done.
  - injection H1 as <-. apply IH in H as [HW HS]; [|done|intros name Hn; apply Hf; by right|done]. split; [done|]. intros name x. rewrite HS.
    split; (intros [?|(d' & Hin & Hx)]; [by left|right; exists d'; split; [|done]]); [by right|]. apply elem_of_cons in Hin as [[= -> ->]|?]; [|done]. destruct Hx as [Hx _]. congruence.
Qed.

Lemma map_wf_nodup {V} (m : list (bytes * V)) : map_wf m -> NoDup m.*1.
Proof.
  induction m as [|[k v] m IH]; [constructor|]. intros [Hlt Hm]%map_wf_cons. cbn. constructor; [|by apply IH].
  intros (e & -> & He)%list_elem_of_fmap. rewrite Forall_forall in Hlt. by eapply bytes_lt_irrefl, Hlt.
Qed.

(** The projection of an image is the view, and an encodable image. *)
Lemma project_spec schema owned observes image u : map_wf (attributes schema) -> full_image image -> project schema owned observes image = Ok u ->
  view_of schema owned observes (values image) (values u) /\ full_image u /\ revision u = revision image.
Proof.
  intros Hs Hi H. unfold project in H. apply bind_ok in H as (vs & Hf & [= <-]). cbn [values revision].
  apply project_fold in Hf as [Hw Hv]; [|by apply map_wf_nodup|done|done]. assert (Hview : view_of schema owned observes (values image) vs).
  { intros name v. rewrite Hv. split; [by intros [?|?]|by right]. }
  split; [done|]. split; [|done]. assert (Hpart : forall k v, map_find k vs = Some v -> map_find k (values image) = Some v) by (intros k v (d & _ & _ & ?)%Hview; done).
  pose proof (full_image_valid _ Hi) as Vi. assert (Vv : image_valid vs) by (eapply part_valid; [exact Vi|done|]; intros k v Hk; exists v; split; [by apply Hpart|eapply root_refl; [exact Vi|by apply Hpart]]).
  destruct Hi as (_ & _ & Wi & _). apply struct_wf_values in Wi as [_ Fi]. split_and!; [done|done| |].
  - cbn. unfold struct_wf. apply andb_true_iff. split; [exact Hw|]. apply forallb_forall. intros [k v] Hin%list_elem_of_In.
    apply elem_map_find in Hin; [|done]. apply Hpart, map_find_elem, list_elem_of_In in Hin. rewrite forallb_forall in Fi. exact (Fi _ Hin).
  - destruct (image_valid_size vs 0 (revision image) true Vv ltac:(lia) ltac:(done)) as [_ ->]. done.
Qed.

(** ** Replicas *)








(** ** Publication of a commit *)

Lemma remove_gone h id status notify s sub : subscriptions s !! id = Some sub -> sid sub = id -> subscriptions (Publisher.remove h id status notify s).1 !! id = None.
Proof. intros Hs <-. unfold Publisher.remove. rewrite Hs. cbn. apply lookup_delete_eq. Qed.

(** What [publish] does for an answered subscription that it keeps. *)
Lemma publish_keeps h event id s s' out sub sub' : subscriptions s !! id = Some sub -> sid sub = id -> spending sub = None -> pstopped s = false ->
  publish h event id s = (s', out) -> subscriptions s' !! id = Some sub' ->
  exists next u, filtered h false sub (cschema event) (ccurrent event) = Ok (next, spermission sub) /\ attribute_delta (slast sub) next = Ok u /\
    ((s' = s /\ out = [] /\ snapshot u = false /\ values u = [] /\ patches u = []) \/
     (exists count data, sub' = with_image sub next count /\ pstopped s' = false /\ out = [notified (peer (sidentity sub)) channel data] /\ sub_packet s sub ok (Some u) 0 = Ok data)).
Proof.
  intros Hs Hid Hpend Hst H Hs'. unfold publish in H. rewrite Hst, Hs, Hpend in H. cbn [is_Some] in H. rewrite bool_decide_eq_false_2 in H by (by intros [? ?]).
  assert (Hrem : forall status notify, Publisher.remove h id status notify s = (s', out) -> False).
  { intros status notify E. pose proof (remove_gone h id status notify s sub Hs Hid) as Hg. rewrite E in Hg. cbn in Hg. congruence. }
  destruct (sexpires sub <=? hnow h)%Z; [exfalso; by eapply Hrem|].
  destruct (publication_of h sub event s) as [pub|] eqn:Ep; [|exfalso; by eapply Hrem].
  unfold publication_of in Ep. destruct (negb _); [injection Ep as <-; exfalso; by eapply Hrem|]. rewrite Hst in Ep.
  apply bind_ok in Ep as ([next key] & Hf & Ep). destruct (bytes_eqb_spec key (spermission sub)) as [->|]; cbn [negb] in Ep; [|injection Ep as <-; exfalso; by eapply Hrem].
  apply bind_ok in Ep as (u & Hu & Ep). exists next, u. split; [done|]. split; [done|]. destruct (_ && _) eqn:Eskip.
  - injection Ep as <-. injection H as <- <-. left. rewrite !andb_true_iff, negb_true_iff in Eskip. destruct Eskip as [[[E1 E2] E3] _].
    split_and!; [done|done|done|by apply is_empty_true|by apply is_empty_true].
  - apply bind_ok in Ep as (n & Hn & Ep). cbv zeta in Ep. destruct (_ <? _); [injection Ep as <-; exfalso; by eapply Hrem|].
    apply bind_ok in Ep as (data & Hd & [= <-]). right. destruct (hnotify _ _ _ _).
    + injection H as <- <-. exists (n + attribute_image_bytes (values next)), data. cbn in Hs'. rewrite Hid, lookup_insert_eq in Hs'. injection Hs' as <-. done.
    + exfalso. destruct (Publisher.remove h id disconnected false s) as [s1 o1] eqn:Er. injection H as <- _.
      pose proof (remove_gone h id disconnected false s sub Hs Hid) as Hg. rewrite Er in Hg. cbn in Hg. congruence.
Qed.

(** ** Updates on their way *)






(** ** The rest of the publisher

    Whatever the other handlers do, a subscription that was answered keeps its image or is
    removed for good, and while it is there they send nothing on its behalf. *)






(** The subscription [id] of [s'] is that of [s], with the same image. *)
Definition keeps_subscription (id : N) (s s' : Publisher) : Prop :=
  forall sub', subscriptions s' !! id = Some sub' -> exists sub, subscriptions s !! id = Some sub /\
    sid sub' = sid sub /\ stype sub' = stype sub /\ sentity sub' = sentity sub /\ spending sub' = spending sub /\ slast sub' = slast sub.


Lemma keeps_refl id s : keeps_subscription id s s.
Proof. intros sub Hs. by exists sub. Qed.






Section Tame.
Context (id : N).






















End Tame.



(** ** The rest of the client

    Whatever its other handlers do, a projection keeps its replica or is removed. *)
















(** ** The system *)



















(** C35 (safety).  Nothing is published without permission.  When a commit reaches a peer,
    the bytes sent are the packet, for this subscription, of the delta between two images: the
    one sent to it before, and one that holds exactly the attributes of the commit that
    are readable by clients and visible to this subscriber, as its owner or as an observer;
    that second image becomes the one kept.  The peer is, at that moment, authenticated as the
    live client that subscribed. *)
Theorem publish_sends_view h event id s s' sub p data :
  subscriptions s !! id = Some sub -> sid sub = id -> spending sub = None -> pstopped s = false -> map_wf (attributes (cschema event)) -> full_image (ccurrent event) ->
  publish h event id s = (s', [notified p channel data]) -> is_Some (subscriptions s' !! id) ->
  exists sub' view u, subscriptions s' !! id = Some sub' /\ p = peer (sidentity sub) /\ permission h false sub None = Ok view /\
    view_of (cschema event) (sub_owns h sub (perm_owner view)) (perm_observer view) (values (ccurrent event)) (values (slast sub')) /\
    attribute_delta (slast sub) (slast sub') = Ok u /\ encode_replication_packet (MkPacket id (stype sub) (sentity sub) ok 0 (Some u)) = Ok data /\
    hlive h id = true /\ exists who, hidentity h p = Some who /\ is_client who = true /\ same_identity who (sidentity sub) = true.
Proof.
  intros Hs Hid Hpend Hst Hsch Himg H [sub' Hs']. destruct (publish_keeps _ _ _ _ _ _ _ _ Hs Hid Hpend Hst H Hs') as (next & u & Hf & Hu & [(-> & Ho & _)|(count & data' & -> & _ & Ho & Hpk)]); [done|].
  injection Ho as -> ->. exists (with_image sub next count). unfold filtered in Hf. apply bind_ok in Hf as (view & Hperm & Hf). apply bind_ok in Hf as (nx & Hproj & [= -> _]).
  exists view, u. split; [done|]. split; [done|]. split; [done|]. split; [by eapply project_spec|]. split; [done|]. split; [by rewrite <- Hid|].
  unfold permission in Hperm. destruct (hidentity h (peer (sidentity sub))) as [who|] eqn:Ew; [|done]. destruct (_ || _) eqn:Eg; [done|]. bool_prop. destruct_and?.
  split; [by rewrite <- Hid|]. by exists who.
Qed.

(** ** Witnesses *)

Definition sample_attribute (v : Visibility) : AttributeDefinition := MkDefinition Schema.integer (AInt 0) read_write read v true 0 100 false [] None 0 0.
Definition sample_schema : EntitySchema := MkSchema [(lit "hp", sample_attribute observers); (lit "luck", sample_attribute hidden)] [].
Definition sample_viewer : CallIdentity := MkIdentity client (lit "alice") 3 (MkConnection [] 0) None None.
Definition sample_hooks : Hooks := MkHooks (fun _ => Some sample_viewer) (fun _ => true) (fun _ _ _ => true) (fun _ => true) (fun _ _ => [])
  (Some (fun _ _ _ => Ok true)) (fun _ => Some sample_schema) (fun _ _ => Some 1) (fun _ _ => true) 0.
Definition sample_sent : AttributeUpdate := MkUpdate 0 4 true [(lit "hp", AInt 9)] [].
Definition sample_key : bytes := match permission sample_hooks false (MkSubscription 7 sample_viewer (lit "Avatar") (lit "00000000000000a1") 10 None sample_sent 1000 [] 1 false false false) None with
  | Ok view => perm_key view | Throw _ => [] end.
Definition sample_subscription : Subscription := MkSubscription 7 sample_viewer (lit "Avatar") (lit "00000000000000a1") 10 None sample_sent 1000 sample_key 1 false false false.
Definition sample_entity : bytes := match encode_entity_key (lit "Avatar") (lit "00000000000000a1") with Ok key => key | Throw _ => [] end.
Definition sample_publisher : Publisher := MkPublisher (MkReplicationLimits 8 8 100000 1000 30000) {[7 := sample_subscription]} {[sample_entity := {[7]}]} ∅ [7] 7 1000 false.
Definition sample_commit : AttributeCommit := MkCommit (lit "Avatar") (lit "00000000000000a1") sample_schema (MkUpdate 0 5 true [(lit "hp", AInt 8); (lit "luck", AInt 3)] []).
Definition sample_published : Publisher * list publisher_output := publish sample_hooks sample_commit 7 sample_publisher.







Lemma publish_sends_view_witness : exists data sub' view, sample_published.2 = [notified 3 channel data] /\ subscriptions sample_published.1 !! 7 = Some sub' /\
  view_of sample_schema (sub_owns sample_hooks sample_subscription (perm_owner view)) (perm_observer view) (values (ccurrent sample_commit)) (values (slast sub')).
Proof.
  assert (Hd : exists data, sample_published.2 = [notified 3 channel data]) by (eexists; vm_compute; reflexivity). destruct Hd as [data Hd].
  assert (Hp : publish sample_hooks sample_commit 7 sample_publisher = (sample_published.1, [notified 3 channel data])) by (rewrite <- Hd; apply surjective_pairing).
  destruct (publish_sends_view sample_hooks sample_commit 7 sample_publisher sample_published.1 sample_subscription 3 data) as (sub' & view & u & H1 & _ & _ & H2 & _).
  - apply lookup_singleton_eq.
  - reflexivity.
  - reflexivity.
  - reflexivity.
  - vm_compute. reflexivity.
  - split_and!; vm_compute; reflexivity.
  - exact Hp.
  - vm_compute. eexists. reflexivity.
  - exists data, sub', view. split; [exact Hd|]. split; [exact H1|exact H2].
Defined.
