(* ===== verification/ProjectionCorrect.v ===== *)
(** * The client's projections are bounded and its callbacks run once

    The accounting of [AttributeClient] is exact and within its budgets in every reachable
    state, and every watch and every write that the client accepted is answered
    exactly once, at the latest when it stops. *)

From stdpp Require Import gmap.
From S2P Require Import Prelude MapSum Storage OrderedMap Identity Values AttributeWire Replica Delta Messages MessagesCorrect Fields TimerState DeliveryState Schema Publisher Projection.

(** ** What the operations answer *)

Definition readies (out : list client_output) : list N := omap (fun o => match o with told_ready n _ _ => Some n | _ => None end) out.
Definition writtens (out : list client_output) : list N := omap (fun o => match o with told_written n _ => Some n | _ => None end) out.

Lemma readies_app a b : readies (a ++ b) = readies a ++ readies b.
Proof. apply omap_app. Qed.
Lemma writtens_app a b : writtens (a ++ b) = writtens a ++ writtens b.
Proof. apply omap_app. Qed.

(** Outputs that answer nothing. *)
Definition silent (out : list client_output) : Prop := readies out = [] /\ writtens out = [].

Lemma silent_app a b : silent a -> silent b -> silent (a ++ b).
Proof. intros [H1 H2] [H3 H4]. unfold silent. by rewrite readies_app, writtens_app, H1, H2, H3, H4. Qed.

Lemma silent_presence throws id p kind : silent (presence_event throws id p kind).
Proof. unfold presence_event. destruct (jautomatic p); [|done]. by destruct throws. Qed.

Record client_inv (c : Client) : Prop := {
  ci_bytes : cbytes c = msum jbytes (projections c);
  ci_budget : cbytes c <= image_budget;
  ci_count : (base.size (projections c) + base.size (cpending c) <= 256)%nat;
  ci_writes : (base.size (cwrites c) <= 256)%nat;
  ci_serial : forall n, is_Some (cpending c !! n) \/ is_Some (cwrites c !! n) -> n <= cserial c;
  ci_stopped : cstopped c = true -> projections c = ∅ /\ cpending c = ∅ /\ cwrites c = ∅ }.

(** An operation on projections only. *)
Definition quiet (c c' : Client) (out : list client_output) : Prop :=
  cpending c' = cpending c /\ cwrites c' = cwrites c /\ cserial c' = cserial c /\ silent out.

Lemma quiet_trans a b c o1 o2 : quiet a b o1 -> quiet b c o2 -> quiet a c (o1 ++ o2).
Proof. intros (A1 & A2 & A3 & A4) (B1 & B2 & B3 & B4). split_and!; try congruence. by apply silent_app. Qed.

Lemma remove_ok throws id status remote c c' out : client_inv c -> remove throws id status remote c = (c', out) -> client_inv c' /\ quiet c c' out /\ cstopped c' = cstopped c.
Proof.
  intros [H1 H2 H3 H4 H5 H6]. unfold remove. destruct (projections c !! id) as [p|] eqn:Hp; [|intros [= <- <-]; split; [done|split; [by split_and!|done]]].
  intros [= <- <-]. pose proof (msum_delete (f := jbytes) _ _ _ Hp) as Hd. split; [constructor; cbn; try done|split; [|done]].
  - lia.
  - lia.
  - rewrite map_size_delete, Hp. lia.
  - intros Hs. destruct (H6 Hs) as (-> & -> & ->). by rewrite delete_empty.
  - split_and!; try done. apply silent_app; [by destruct remote|]. apply (silent_app [_]); [done|]. apply silent_presence.
Qed.

(** A new projection, in a slot and a budget checked before. *)
Lemma add_projection_inv c id p : client_inv c -> cstopped c = false -> projections c !! id = None -> jbytes p <= image_budget - cbytes c ->
  (base.size (projections c) + base.size (cpending c) < 256)%nat -> client_inv (with_projections c (<[id := p]> (projections c)) (cbytes c + jbytes p)).
Proof.
  intros [H1 H2 H3 H4 H5 H6] Hs Hn Hb Hc. constructor; cbn; try done.
  - rewrite (msum_insert (f := jbytes)) by done. lia.
  - lia.
  - rewrite map_size_insert_None by done. lia.
  - congruence.
Qed.

(** A projection replaced by another, within the budget. *)
Lemma set_projection_inv c id p q : client_inv c -> projections c !! id = Some p -> jbytes q <= image_budget - cbytes c + jbytes p ->
  client_inv (with_projections c (<[id := q]> (projections c)) (cbytes c - jbytes p + jbytes q)).
Proof.
  intros [H1 H2 H3 H4 H5 H6] Hp Hb. pose proof (msum_replace (f := jbytes) _ _ _ q Hp) as Hr. pose proof (msum_lookup (f := jbytes) _ _ _ Hp) as Hl. constructor; cbn; try done.
  - lia.
  - lia.
  - by rewrite map_size_insert, Hp.
  - intros Hs. destruct (H6 Hs) as (E & _). by rewrite E, lookup_empty in Hp.
Qed.

(** ** Stopping *)

Lemma stop_silences (m : gmap N Projection) throws :
  silent (flat_map (fun e => called_unwatch e.1 :: told_changed e.1 disconnected None :: presence_event throws e.1 e.2 leave) (map_to_list m)).
Proof. induction (map_to_list m) as [|e l IH]; [done|]. cbn [flat_map]. apply silent_app; [|done]. apply (silent_app [_; _]); [done|]. apply silent_presence. Qed.

Lemma map_told_ready (l : list (N * PendingWatch)) : readies (map (fun e => told_ready (wready e.2) disconnected 0) l) = map (fun e => wready e.2) l /\
  writtens (map (fun e => told_ready (wready e.2) disconnected 0) l) = [].
Proof. induction l as [|e l [IH1 IH2]]; [done|]. split; [|done]. cbn. by f_equal. Qed.

Lemma map_told_written (l : list (N * N)) : writtens (map (fun e => told_written e.2 disconnected) l) = map snd l /\ readies (map (fun e => told_written e.2 disconnected) l) = [].
Proof. induction l as [|e l [IH1 IH2]]; [done|]. split; [|done]. cbn. by f_equal. Qed.

Lemma stop_spec throws c c' out : client_inv c -> stop throws c = (c', out) ->
  client_inv c' /\ readies out ++ mnames wready (cpending c') ≡ₚ mnames wready (cpending c) /\ writtens out ++ mnames id (cwrites c') ≡ₚ mnames id (cwrites c) /\ cserial c' = cserial c.
Proof.
  intros Hi. unfold stop. destruct (cstopped c) eqn:Hs; [by intros [= <- <-]|]. intros [= <- <-]. split.
  - constructor; cbn [cbytes projections cpending cwrites cserial cstopped]; try done; first [by rewrite msum_empty|rewrite !map_size_empty; lia|by intros n [[x Hx]|[x Hx]]; rewrite lookup_empty in Hx].
  - cbn [cpending cwrites cserial]. destruct (stop_silences (projections c) throws) as [S1 S2]. rewrite !readies_app, !writtens_app, S1, S2, !mnames_empty, !app_nil_r.
    destruct (map_told_ready (map_to_list (cpending c))) as [-> ->]. destruct (map_told_written (map_to_list (cwrites c))) as [-> ->]. cbn [app]. by rewrite app_nil_r.
Qed.

(** ** Messages *)

Lemma apply_bound r u n r' : apply r u n = Ok (true, r') -> image_bytes r' <= n.
Proof.
  assert (Hv : forall v, apply_values r v n = Ok (true, r') -> image_bytes r' <= n).
  { intros v. unfold apply_values. intros (c & _ & H)%bind_ok. destruct (N.ltb_spec n c); [done|]. by injection H as <-. }
  unfold apply. intros ([[]|] & _ & H)%bind_ok; [|done]. destruct (is_empty _); [by eapply Hv|].
  apply bind_ok in H as (vs & _ & H). apply bind_ok in H as ([[]|] & _ & H); [by eapply Hv|done].
Qed.

Lemma receive_body_ok throws data c c' out : client_inv c -> receive_body throws data c = Ok (c', out) -> client_inv c' /\ quiet c c' out.
Proof.
  intros Hi. unfold receive_body. intros (m & _ & H)%bind_ok. destruct (projections c !! _) as [p|] eqn:Hp; [|injection H as <- <-; by split; [|split_and!]].
  destruct (_ || _); [done|].
  assert (Hrem : forall st b, Ok (remove throws (subscription m) st b c) = Ok (c', out) -> client_inv c' /\ quiet c c' out).
  { intros st b E. injection E as E. destruct (remove_ok _ _ _ _ _ _ _ Hi E) as (? & ? & _). done. }
  destruct (packet_status m); [|by eapply Hrem..]. destruct (packet_update m) as [u|]; [|done].
  destruct (apply _ _ _) as [[[] r]|e] eqn:Ea; [|by eapply Hrem|destruct e; try done; by eapply Hrem]. injection H as <- <-. split; [|by split_and!].
  apply (set_projection_inv c _ p (with_replica p r (image_bytes r))); [done|done|]. cbn. by apply apply_bound in Ea.
Qed.

Lemma enter_ok throws now m u flags c c' out : client_inv c -> cstopped c = false -> projections c !! subscription m = None -> enter_entity throws now m u flags c = Ok (c', out) ->
  client_inv c' /\ quiet c c' out.
Proof.
  intros Hi Hs Hn. unfold enter_entity. destruct (N.leb_spec 256 (N.of_nat (base.size (projections c)) + N.of_nat (base.size (cpending c)))) as [|Hc]; [done|].
  intros ([fresh r] & _ & H)%bind_ok. destruct (negb fresh); [done|]. apply bind_ok in H as (n & _ & H). cbv zeta in H. destruct (N.ltb_spec (image_budget - cbytes c) (n + attribute_image_bytes (values u))) as [|Hb]; [done|].
  injection H as <- <-. split; [eapply (add_projection_inv c _ (MkProjection _ _ _ _ _ _ _ _ _)); try done; lia|]. split_and!; try done. apply (silent_app [_]); [done|apply silent_presence].
Qed.

Lemma presence_body_ok throws now data c c' out : client_inv c -> cstopped c = false -> presence_body throws now data c = Ok (c', out) -> client_inv c' /\ quiet c c' out.
Proof.
  intros Hi Hs. unfold presence_body. intros ([[kind flags] m] & _ & H)%bind_ok. cbv zeta in H.
  assert (Hsame : Ok (c, @nil client_output) = Ok (c', out) -> client_inv c' /\ quiet c c' out) by (intros [= <- <-]; by split; [|split_and!]).
  destruct (kind =? 2).
  - destruct (bool_decide _); [done|]. destruct (projections c !! _) as [p|] eqn:Hp; [|by apply Hsame]. destruct (_ || _); [done|]. injection H as H.
    destruct (remove_ok _ _ _ _ _ _ _ Hi H) as (? & ? & _). done.
  - destruct (packet_status m); try done. destruct (packet_update m) as [u|]; [|done]. destruct (_ || _); [done|]. destruct (projections c !! _) as [p|] eqn:Hp.
    + destruct (_ || _); [done|]. destruct (Bool.eqb _ _); [by apply Hsame|]. injection H as <- <-. split; [|split_and!; try done; apply silent_presence].
      assert (Hb : cbytes c = cbytes c - jbytes p + jbytes (with_jcontrol p (N.testbit flags 1))).
      { cbn. pose proof (msum_lookup (f := jbytes) _ _ _ Hp). pose proof (ci_bytes _ Hi). lia. }
      rewrite Hb. apply set_projection_inv; [done|done|cbn; lia].
    + destruct (entities_stopped c); [injection H as <- <-; by split; [|split_and!]|]. destruct (negb _); [by apply Hsame|]. by eapply enter_ok.
Qed.

(** ** Answers *)

(** An operation that takes the callbacks [rs] and [ws] on, and answers or keeps each. *)
Definition answers (rs ws : list N) (c c' : Client) (out : list client_output) : Prop :=
  client_inv c' /\ readies out ++ mnames wready (cpending c') ≡ₚ rs ++ mnames wready (cpending c) /\
  writtens out ++ mnames id (cwrites c') ≡ₚ ws ++ mnames id (cwrites c).

Lemma quiet_answers c c' out : client_inv c' -> quiet c c' out -> answers [] [] c c' out.
Proof. intros Hi (E1 & E2 & _ & S1 & S2). split; [done|]. by rewrite S1, S2, E1, E2. Qed.

Lemma or_stop_answers throws c r c' out : client_inv c -> (forall x o, r = Ok (x, o) -> client_inv x /\ quiet c x o) -> or_stop throws c r = (c', out) -> answers [] [] c c' out.
Proof.
  intros Hi Hr. unfold or_stop. destruct r as [[x o]|]; [intros [= <- <-]; destruct (Hr x o eq_refl); by apply quiet_answers|].
  destruct (stop throws c) as [c1 o1] eqn:E. intros [= <- <-]. destruct (stop_spec _ _ _ _ Hi E) as (H1 & H2 & H3 & _). by split_and!.
Qed.

Lemma receive_answers throws from data c c' out : client_inv c -> receive throws from data c = (c', out) -> answers [] [] c c' out.
Proof.
  intros Hi. unfold receive. destruct (_ || _); [intros [= <- <-]; by split_and!|]. apply or_stop_answers; [done|]. intros x o. by apply receive_body_ok.
Qed.

Lemma receive_presence_answers throws now from data c c' out : client_inv c -> receive_presence throws now from data c = (c', out) -> answers [] [] c c' out.
Proof.
  intros Hi. unfold receive_presence. destruct (_ || _) eqn:E; [intros [= <- <-]; by split_and!|]. apply orb_false_iff in E as [Hs _].
  apply or_stop_answers; [done|]. intros x o. by apply presence_body_ok.
Qed.

Lemma remove_answers throws id status remote c c' out : client_inv c -> remove throws id status remote c = (c', out) -> answers [] [] c c' out.
Proof. intros Hi H. destruct (remove_ok _ _ _ _ _ _ _ Hi H) as (? & ? & _). by apply quiet_answers. Qed.

Lemma watch_answers type id ready c c' out : client_inv c -> watch type id ready c = (c', out) -> answers [ready] [] c c' out.
Proof.
  intros Hi. unfold watch. destruct (cstopped c) eqn:Hs; [intros [= <- <-]; by split_and!|].
  destruct (_ || _) eqn:E; [intros [= <- <-]; by split_and!|]. apply orb_false_iff in E as [Hc%N.leb_gt Hser%N.eqb_neq].
  destruct (encode_entity_key type id) as [input|]; [|intros [= <- <-]; by split_and!]. intros [= <- <-].
  assert (Hn : cpending c !! (cserial c + 1) = None).
  { destruct (cpending c !! (cserial c + 1)) eqn:Ep; [|done]. assert (cserial c + 1 <= cserial c); [|lia]. apply (ci_serial _ Hi). left. by eexists. }
  destruct Hi as [H1 H2 H3 H4 H5 H6]. split_and!; [constructor; cbn; try done| |done].
  - rewrite map_size_insert_None by done. lia.
  - intros n [[w Hw]|Hw]; [|specialize (H5 n (or_intror Hw)); lia]. apply lookup_insert_Some in Hw as [[<- _]|[_ Hw]]; [lia|]. assert (n <= cserial c); [|lia]. apply H5. left. by eexists.
  - congruence.
  - cbn. by rewrite (mnames_insert (g := wready)) by done.
Qed.

Lemma drop_pending_inv c request w : client_inv c -> cpending c !! request = Some w ->
  client_inv (with_cpending c (cserial c) (delete request (cpending c))) /\ cstopped c = false.
Proof.
  intros [H1 H2 H3 H4 H5 H6] Hw. assert (Hs : cstopped c = false) by (destruct (cstopped c); [destruct (H6 eq_refl) as (_ & E & _); by rewrite E, lookup_empty in Hw|done]).
  split; [|done]. constructor; cbn; try done; [rewrite map_size_delete, Hw; lia| |congruence].
  intros n [[x Hx]|Hx]; [|apply H5; by right]. apply lookup_delete_Some in Hx as [_ Hx]. apply H5. left. by eexists.
Qed.

(** The reply of a server that does not name a subscription the client already has. *)
Definition honest_reply (r : Result) (c : Client) : Prop := forall m, rstatus r = ok -> decode_replication_packet (rdata r) = Ok m -> projections c !! subscription m = None.

Lemma watch_replied_answers throws now request r c c' out : client_inv c -> honest_reply r c -> watch_replied throws now request r c = (c', out) -> answers [] [] c c' out.
Proof.
  intros Hi Hh. unfold watch_replied. destruct (cpending c !! request) as [w|] eqn:Hw.
  2:{ intros [= <- <-]. apply quiet_answers; [done|]. split_and!; try done. destruct (bool_decide _); [|done]. by destruct (decode_replication_packet _). }
  destruct (drop_pending_inv _ _ _ Hi Hw) as [Hi1 Hs]. set (c1 := with_cpending _ _ _) in *. pose proof (mnames_delete (g := wready) _ _ _ Hw) as Hd.
  assert (Hone : forall st n c2 o, c2 = c1 -> o = [told_ready (wready w) st n] -> answers [] [] c c2 o).
  { intros st n c2 o -> ->. split_and!; [done| |done]. cbn. by rewrite Hd. }
  case_bool_decide as Hok; cbn [negb]; [|intros [= <- <-]; by eapply Hone].
  destruct (decode_replication_packet (rdata r)) as [m|] eqn:Em; [|intros [= <- <-]; by eapply Hone]. specialize (Hh m Hok Em).
  assert (Hf1 : projections c1 !! subscription m = None) by done.
  destruct (first_projection now w m c1) as [[p count]|] eqn:Ef.
  - intros [= <- <-]. unfold first_projection in Ef. destruct (packet_status m); try done. destruct (packet_update m) as [u|]; [|done]. destruct (_ || _) in Ef; [done|].
    apply bind_ok in Ef as ([fresh rr] & _ & Ef). destruct (negb fresh); [done|]. apply bind_ok in Ef as (n & _ & Ef). cbv zeta in Ef.
    destruct (N.ltb_spec (image_budget - cbytes c1) (n + attribute_image_bytes (replica_values rr))) as [|Hb]; [done|]. injection Ef as <- <-.
    split_and!; [|cbn; by rewrite Hd|done].
    eapply (add_projection_inv c1 _ (MkProjection _ _ _ _ _ _ _ _ _)); [done|done|done|done|].
    pose proof (ci_count _ Hi) as Hc. cbn. rewrite map_size_delete, Hw. assert (base.size (cpending c) <> 0%nat); [|lia]. intros E%map_size_empty_inv. by rewrite E, lookup_empty in Hw.
  - rewrite bool_decide_eq_false_2 by (intros [? ?]; congruence). intros [= <- <-]. split_and!; [done|cbn; by rewrite Hd|done].
Qed.

Lemma write_answers id vs written request_id expected c c' out : client_inv c -> write id vs written request_id expected c = (c', out) -> answers [] [written] c c' out.
Proof.
  intros Hi. unfold write. destruct (cstopped c) eqn:Hs; [intros [= <- <-]; by split_and!|]. destruct (projections c !! id) as [p|]; [|intros [= <- <-]; by split_and!].
  destruct (_ || _) eqn:E; [intros [= <- <-]; by split_and!|]. apply orb_false_iff in E as [Hc%N.leb_gt Hser%N.eqb_neq]. cbv zeta.
  assert (Hn : cwrites c !! (cserial c + 1) = None).
  { destruct (cwrites c !! (cserial c + 1)) eqn:Ep; [|done]. assert (cserial c + 1 <= cserial c); [|lia]. apply (ci_serial _ Hi). right. by eexists. }
  destruct Hi as [H1 H2 H3 H4 H5 H6]. destruct (write_input _ _ _ _ _ _ _) as [input|]; intros [= <- <-].
  - split_and!; [constructor; cbn; try done| done|cbn; by rewrite (mnames_insert (g := Datatypes.id)) by done].
    + rewrite map_size_insert_None by done. lia.
    + intros n [Hw|[w Hw]]; [specialize (H5 n (or_introl Hw)); lia|]. apply lookup_insert_Some in Hw as [[<- _]|[_ Hw]]; [lia|]. assert (n <= cserial c); [|lia]. apply H5. right. by eexists.
    + congruence.
  - split_and!; [constructor; cbn; try done|done|done]. intros n Hw. specialize (H5 n Hw). lia.
Qed.

Lemma write_replied_answers request r c c' out : client_inv c -> write_replied request r c = (c', out) -> answers [] [] c c' out.
Proof.
  intros [H1 H2 H3 H4 H5 H6]. unfold write_replied. destruct (cwrites c !! request) as [w|] eqn:Hw; intros [= <- <-]; [|by split_and!].
  pose proof (mnames_delete (g := Datatypes.id) _ _ _ Hw) as Hd. split_and!; [constructor; cbn; try done|done|cbn; by rewrite Hd].
  - rewrite map_size_delete, Hw. lia.
  - intros n [Hx|[x Hx]]; [apply H5; by left|]. apply lookup_delete_Some in Hx as [_ Hx]. apply H5. right. by eexists.
  - intros Hs. destruct (H6 Hs) as (_ & _ & E). by rewrite E, lookup_empty in Hw.
Qed.

Lemma remove_all_quiet throws ids : forall c c' out, client_inv c -> remove_all throws ids c = (c', out) -> client_inv c' /\ quiet c c' out.
Proof.
  induction ids as [|id ids IH]; intros c c' out Hi; cbn [remove_all]; [intros [= <- <-]; by split; [|split_and!]|].
  destruct (remove throws id disconnected true c) as [c1 o1] eqn:E1. destruct (remove_all throws ids c1) as [c2 o2] eqn:E2. intros [= <- <-].
  destruct (remove_ok _ _ _ _ _ _ _ Hi E1) as (I1 & Q1 & _). destruct (IH _ _ _ I1 E2) as (I2 & Q2). split; [done|]. by eapply quiet_trans.
Qed.

Lemma renew_all_quiet now ids : forall c c' out, client_inv c -> renew_all now ids c = (c', out) -> client_inv c' /\ quiet c c' out.
Proof.
  induction ids as [|id ids IH]; intros c c' out Hi; cbn [renew_all]; [intros [= <- <-]; by split; [|split_and!]|].
  destruct (projections c !! id) as [p|] eqn:Hp; [|by apply IH]. set (c1 := with_projections _ _ _).
  assert (I1 : client_inv c1).
  { assert (Hb : cbytes c = cbytes c - jbytes p + jbytes (with_renewed p now)) by (cbn; pose proof (msum_lookup (f := jbytes) _ _ _ Hp); pose proof (ci_bytes _ Hi); lia).
    unfold c1. rewrite Hb. apply set_projection_inv; [done|done|cbn; lia]. }
  destruct (renew_all now ids c1) as [c2 o2] eqn:E2. intros [= <- <-]. destruct (IH _ _ _ I1 E2) as (I2 & Q2). split; [done|].
  apply (quiet_trans c c1 c2 [called_renew id] o2); [by split_and!|done].
Qed.

Lemma stop_entities_answers throws c c' out : client_inv c -> stop_entities throws c = (c', out) -> answers [] [] c c' out.
Proof.
  intros Hi. unfold stop_entities. set (c1 := MkClient _ _ _ true _ _ _ _ _). assert (I1 : client_inv c1) by by destruct Hi. intros H.
  destruct (remove_all_quiet _ _ _ _ _ I1 H) as (I2 & Q). by apply quiet_answers.
Qed.

Lemma poll_answers throws connected now c c' out : client_inv c -> poll throws connected now c = (c', out) -> answers [] [] c c' out.
Proof.
  intros Hi. unfold poll. destruct (cstopped c); [intros [= <- <-]; by split_and!|]. destruct connected; cbn [negb].
  - intros H. destruct (renew_all_quiet _ _ _ _ _ Hi H) as (I2 & Q). by apply quiet_answers.
  - destruct (decide _); [intros [= <- <-]; by split_and!|]. intros H. destruct (stop_spec _ _ _ _ Hi H) as (H1 & H2 & H3 & _). by split_and!.
Qed.

(** ** The client in operation *)

(** A client with the callbacks given to [watch] and [write] and those called. *)
Record vsys := MkViewer { viewer_of : Client; asked : list N; told : list N; wasked : list N; wtold : list N }.

Definition next_viewer (x : vsys) (rs ws : list N) (c : Client) (out : list client_output) : vsys :=
  MkViewer c (rs ++ asked x) (told x ++ readies out) (ws ++ wasked x) (wtold x ++ writtens out).

Inductive viewer_step : vsys -> vsys -> Prop :=
  | vs_watch x type id ready c out : watch type id ready (viewer_of x) = (c, out) -> viewer_step x (next_viewer x [ready] [] c out)
  | vs_watched x throws now request r c out : honest_reply r (viewer_of x) -> watch_replied throws now request r (viewer_of x) = (c, out) -> viewer_step x (next_viewer x [] [] c out)
  | vs_write x id vs written rid expected c out : write id vs written rid expected (viewer_of x) = (c, out) -> viewer_step x (next_viewer x [] [written] c out)
  | vs_written x request r c out : write_replied request r (viewer_of x) = (c, out) -> viewer_step x (next_viewer x [] [] c out)
  | vs_receive x throws from data c out : receive throws from data (viewer_of x) = (c, out) -> viewer_step x (next_viewer x [] [] c out)
  | vs_presence x throws now from data c out : receive_presence throws now from data (viewer_of x) = (c, out) -> viewer_step x (next_viewer x [] [] c out)
  | vs_unwatch x throws id c out : unwatch throws id (viewer_of x) = (c, out) -> viewer_step x (next_viewer x [] [] c out)
  | vs_entities x throws c out : stop_entities throws (viewer_of x) = (c, out) -> viewer_step x (next_viewer x [] [] c out)
  | vs_poll x throws connected now c out : poll throws connected now (viewer_of x) = (c, out) -> viewer_step x (next_viewer x [] [] c out)
  | vs_renewed x throws id r c out : renewed throws id r (viewer_of x) = (c, out) -> viewer_step x (next_viewer x [] [] c out)
  | vs_stop x throws c out : stop throws (viewer_of x) = (c, out) -> viewer_step x (next_viewer x [] [] c out).

Definition viewer_inv (x : vsys) : Prop :=
  client_inv (viewer_of x) /\ asked x ≡ₚ told x ++ mnames wready (cpending (viewer_of x)) /\ wasked x ≡ₚ wtold x ++ mnames id (cwrites (viewer_of x)).

Lemma next_viewer_inv x rs ws c out : viewer_inv x -> answers rs ws (viewer_of x) c out -> viewer_inv (next_viewer x rs ws c out).
Proof.
  intros (_ & I2 & I3) (A1 & A2 & A3). split; [done|]. cbn. split.
  - rewrite <- app_assoc, A2, I2, !app_assoc. apply Permutation_app_tail, Permutation_app_comm.
  - rewrite <- app_assoc, A3, I3, !app_assoc. apply Permutation_app_tail, Permutation_app_comm.
Qed.

Lemma viewer_step_inv x y : viewer_inv x -> viewer_step x y -> viewer_inv y.
Proof.
  intros Hi H. pose proof (proj1 Hi) as Hc. destruct H as [x ????? H|x ?????? Hh H|x ??????? H|x ???? H|x ????? H|x ?????? H|x ???? H|x ??? H|x ????? H|x ?? r ?? H|x ??? H];
    apply next_viewer_inv; [done|by eapply watch_answers|done|by eapply watch_replied_answers|done|by eapply write_answers|done|by eapply write_replied_answers
    |done|by eapply receive_answers|done|by eapply receive_presence_answers|done|by eapply remove_answers|done|by eapply stop_entities_answers|done|by eapply poll_answers|done| |done|].
  - unfold renewed in H. destruct (_ || _); [injection H as <- <-; by split_and!|by eapply remove_answers].
  - destruct (stop_spec _ _ _ _ Hc H) as (H1 & H2 & H3 & _). by split_and!.
Qed.

Definition viewer_start (server : N) (prefix : bytes) (x : vsys) : Prop :=
  exists c, attribute_client server prefix = Ok c /\ x = MkViewer c [] [] [] [].

Lemma viewer_start_inv server prefix x : viewer_start server prefix x -> viewer_inv x.
Proof.
  intros (c & Hc & ->). unfold attribute_client in Hc. destruct (server =? 0); [done|]. injection Hc as <-. split; [|cbn; by rewrite !mnames_empty].
  constructor; cbn [viewer_of cbytes projections cpending cwrites cserial cstopped]; try done; first [by rewrite msum_empty|lia|rewrite !map_size_empty; lia|by intros n [[x Hx]|[x Hx]]; rewrite lookup_empty in Hx].
Qed.

(** A client stays within its budgets: in every reachable state the bytes
    it accounts are exactly those of its projections and at most 16 MiB, projections and
    pending watches are at most 256 together, pending writes at most 256, and a stopped
    client keeps nothing. *)
Theorem client_within_budgets server prefix x y : viewer_start server prefix x -> rtc viewer_step x y ->
  let c := viewer_of y in
  cbytes c = msum jbytes (projections c) /\ cbytes c <= image_budget /\ (base.size (projections c) + base.size (cpending c) <= 256)%nat /\
  (base.size (cwrites c) <= 256)%nat /\ (cstopped c = true -> projections c = ∅ /\ cpending c = ∅ /\ cwrites c = ∅).
Proof.
  intros Hx Hr. apply viewer_start_inv in Hx. assert (Hi : viewer_inv y) by (induction Hr as [|a b c Hab _ IH]; eauto using viewer_step_inv).
  destruct Hi as ([H1 H2 H3 H4 H5 H6] & _). by split_and!.
Qed.

(** Every callback runs exactly once: with a server that answers a watch with
    a subscription of its own, the callbacks given to [watch] and [write] are exactly
    those called and those still waiting, and none waits once the client stopped. *)
Theorem client_answers_once server prefix x y : viewer_start server prefix x -> rtc viewer_step x y ->
  asked y ≡ₚ told y ++ mnames wready (cpending (viewer_of y)) /\ wasked y ≡ₚ wtold y ++ mnames id (cwrites (viewer_of y)) /\
  (cstopped (viewer_of y) = true -> asked y ≡ₚ told y /\ wasked y ≡ₚ wtold y).
Proof.
  intros Hx Hr. apply viewer_start_inv in Hx. assert (Hi : viewer_inv y) by (induction Hr as [|a b c Hab _ IH]; eauto using viewer_step_inv).
  destruct Hi as (Hc & H1 & H2). split; [done|]. split; [done|]. intros Hs. destruct (ci_stopped _ Hc Hs) as (_ & E1 & E2). rewrite E1, mnames_empty, app_nil_r in H1.
  rewrite E2, mnames_empty, app_nil_r in H2. done.
Qed.

(** A reply that names a subscription the client already has: the watch is dropped and its
    callback is never called. *)
Lemma duplicate_watch_unanswered throws now request r c w m p : cpending c !! request = Some w -> rstatus r = ok -> decode_replication_packet (rdata r) = Ok m ->
  projections c !! subscription m = Some p -> readies (watch_replied throws now request r c).2 = [] /\ cpending (watch_replied throws now request r c).1 !! request = None.
Proof.
  intros Hw Hr Hm Hp. unfold watch_replied. rewrite Hw, Hr, Hm, bool_decide_eq_true_2 by done. cbn [negb]. set (c1 := with_cpending _ _ _).
  assert (Hp1 : projections c1 !! subscription m = Some p) by done.
  assert (exists e, first_projection now w m c1 = Throw e) as [e ->].
  { unfold first_projection. destruct (packet_status m), (packet_update m); eauto. rewrite Hp1, bool_decide_eq_true_2 by by eexists. rewrite orb_true_r. eauto. }
  rewrite bool_decide_eq_true_2 by by eexists. unfold remove. rewrite Hp1. cbn [readies fst snd app]. destruct (silent_presence throws (subscription m) p leave) as [E _]. split; [cbn; exact E|apply lookup_delete_eq].
Qed.

(** ** Witnesses *)

Definition sample_start : Client := MkClient 9 (lit "p-") false false 0 0 ∅ ∅ ∅.
Definition sample_watching : Client := (watch (lit "Avatar") (lit "00000000000000a1") 5 sample_start).1.
Definition sample_reply : Result :=
  match encode_replication_packet (MkPacket 7 (lit "Avatar") (lit "00000000000000a1") ok 30000 (Some (MkUpdate 0 4 true [(lit "hp", AInt 9)] []))) with
  | Ok data => MkResult ok data | Throw _ => MkResult internal [] end.
Definition sample_watched : Client * list client_output := watch_replied false 0 1 sample_reply sample_watching.
Definition sample_view : vsys := MkViewer sample_watched.1 [5] [5] [] [].

Lemma sample_viewer_start : viewer_start 9 (lit "p-") (MkViewer sample_start [] [] [] []).
Proof. by exists sample_start. Qed.

Lemma sample_viewer_run : rtc viewer_step (MkViewer sample_start [] [] [] []) sample_view.
Proof.
  eapply rtc_l; [apply (vs_watch _ (lit "Avatar") (lit "00000000000000a1") 5 sample_watching (watch (lit "Avatar") (lit "00000000000000a1") 5 sample_start).2), surjective_pairing|].
  eapply rtc_l; [|apply rtc_refl]. assert (E : sample_view = next_viewer (next_viewer (MkViewer sample_start [] [] [] []) [5] [] sample_watching
    (watch (lit "Avatar") (lit "00000000000000a1") 5 sample_start).2) [] [] sample_watched.1 sample_watched.2) by (vm_compute; reflexivity).
  rewrite E. apply (vs_watched _ false 0 1 sample_reply); [|apply surjective_pairing]. intros m _ _. apply lookup_empty.
Qed.

Lemma client_within_budgets_witness : base.size (projections sample_watched.1) = 1%nat /\ cbytes sample_watched.1 = msum jbytes (projections sample_watched.1).
Proof. split; [vm_compute; reflexivity|]. exact (proj1 (client_within_budgets 9 (lit "p-") _ sample_view sample_viewer_start sample_viewer_run)). Defined.

Lemma client_answers_once_witness : told sample_view = [5] /\ asked sample_view ≡ₚ told sample_view ++ mnames wready (cpending sample_watched.1).
Proof. split; [reflexivity|]. exact (proj1 (client_answers_once 9 (lit "p-") _ sample_view sample_viewer_start sample_viewer_run)). Defined.
