(* ===== verification/Node.v ===== *)
(** * The node transport

    [Node] of [src/node.cpp]: sessions with the challenge authentication, the outgoing
    queues and the incoming frames, the table of pending calls, routes, requests and
    notifications, and stopping.

    The event loop (Asio) delivers completions in any order: each completion handler
    is an operation here, an asynchronous operation that was started is an output.  A
    session object lives as long as a handler refers to it, so the objects are a heap
    ([objects]) and the table of sessions the set [sessions] of its keys.  The cryptography
    (HMAC, random bytes, certificate checks) is a parameter. *)

From stdpp Require Import gmap.
From S2P Require Import Prelude Storage MapSum Identity Values AttributeWire Messages Fields DeliveryState Schema Transport.

Record Limits := MkLimits {
  frame_bytes : N; queued_bytes : N; connections : N; pending_calls : N; inflight_requests : N; idle_timeout : Z;
  receive_limit : N; poll_events : N; poll_time : Z }.

Definition limits_default : Limits := MkLimits (1024 * 1024) (4 * 1024 * 1024) 1024 4096 128 (ms 30000) (16 * 1024 * 1024) 256 2000000.

(** ** Frames *)

(** [frame(kind, status, id, route, data)]: a length prefix and the body. *)
Definition frame_body (kind : N) (status : Status) (id : N) (route data : bytes) : bytes :=
  put_be 1 2 ++ put_be 1 kind ++ put_be 1 (status_index status) ++ put_be 1 0 ++ put_be 8 id ++ put_be 2 (size route) ++ route ++ data.
Definition frame (kind : N) (status : Status) (id : N) (route data : bytes) : bytes :=
  put_be 4 (14 + size route + size data) ++ frame_body kind status id route data.

Record Frame := MkFrame { fkind : N; fstatus : Status; fcall : N; froute : bytes; fdata : bytes }.

(** The header of a body of at least 14 bytes; [None] closes the session. *)
Definition parse_frame (body : bytes) : option Frame :=
  match get_be invalid_argument 1 body with
  | Ok (version, b1) => match get_be invalid_argument 1 b1 with
  | Ok (kind, b2) => match get_be invalid_argument 1 b2 with
  | Ok (code, b3) => match get_be invalid_argument 1 b3 with
  | Ok (zero, b4) => match get_be invalid_argument 8 b4 with
  | Ok (call, b5) => match get_be invalid_argument 2 b5 with
  | Ok (route_size, rest) =>
      if negb (version =? 2) || negb (zero =? 0) || (256 <? route_size) || (size body - 14 <? route_size) then None
      else match status_of code with
           | None => None
           | Some status => Some (MkFrame kind status call (take (N.to_nat route_size) rest) (drop (N.to_nat route_size) rest))
           end
  | Throw _ => None end | Throw _ => None end | Throw _ => None end | Throw _ => None end | Throw _ => None end | Throw _ => None end.

(** ** Sessions *)

Definition authentication_queue_reserve : N := 2 * (18 + 65).

Inductive Authentication := challenge | client_proof | server_proof | complete.

Record Auth := MkAuth { authenticated : bool; phase : Authentication; server_nonce : bytes; client_nonce : bytes }.

(** The two outgoing queues; [writing] carries what the handler of the write in flight
    captures: which queue, and the message. *)
Record Outgoing := MkOutgoing { queued : N; output : list bytes; authentication_output : list bytes; writing : option (bool * bytes) }.

(** The asynchronous operation in flight besides a write.  It stays recorded when the
    session is closed, whose handlers do nothing. *)
Inductive Reading := no_read | connecting_socket | handshaking | reading_header | reading_body.

Record Session := MkSession {
  identity : bytes; sconnection : ConnectionRef; closed : bool; active : bool; auth : Auth; out : Outgoing;
  inflight : N; reading : Reading; receive_reserved : N }.

Definition nonce0 : bytes := repeat x00 32.
Definition new_session (c : ConnectionRef) (r : Reading) : Session :=
  MkSession [] c false false (MkAuth false challenge nonce0 nonce0) (MkOutgoing 0 [] [] None) 0 r 0.

Definition with_closed (o : Session) : Session :=
  MkSession (identity o) (sconnection o) true (active o) (auth o) (MkOutgoing 0 [] [] (writing (out o))) (inflight o) (reading o) (receive_reserved o).
Definition with_active (o : Session) (name : bytes) : Session :=
  MkSession name (sconnection o) (closed o) true (auth o) (out o) (inflight o) (reading o) (receive_reserved o).
Definition with_auth (o : Session) (a : Auth) : Session :=
  MkSession (identity o) (sconnection o) (closed o) (active o) a (out o) (inflight o) (reading o) (receive_reserved o).
Definition with_out (o : Session) (q : Outgoing) : Session :=
  MkSession (identity o) (sconnection o) (closed o) (active o) (auth o) q (inflight o) (reading o) (receive_reserved o).
Definition with_inflight (o : Session) (n : N) : Session :=
  MkSession (identity o) (sconnection o) (closed o) (active o) (auth o) (out o) n (reading o) (receive_reserved o).
Definition with_reading (o : Session) (r : Reading) (n : N) : Session :=
  MkSession (identity o) (sconnection o) (closed o) (active o) (auth o) (out o) (inflight o) r n.
Definition with_phase (o : Session) (p : Authentication) : Session :=
  with_auth o (MkAuth (authenticated (auth o)) p (server_nonce (auth o)) (client_nonce (auth o))).

(** ** The node *)

Record Pending := MkPending { cpeer : N; creply : N }.

(** The handler of a route: the built-in health check or one of the application. *)
Inductive RouteHandler := health | application (handler : N).
Record Route := MkRoute { policy : RpcPolicy; handler : RouteHandler }.

(** [requests]: the reply functions handed to handlers that were not called yet, each with
    the session and the call it answers. *)
Record Node := MkNode {
  token : bytes; limits : Limits; tls : bool; has_authorizer : bool; has_resolver : bool;
  stopped : bool; ready_flag : bool; listening : bool; accepting : option N;
  receive_bytes : N; callback_failures : N; peer_serial : N; call_serial : N;
  objects : gmap N Session; sessions : gset N; calls : gmap N Pending; handlers : gmap bytes Route; notifications : gmap bytes N;
  requests : gmap N (N * N); request_serial : N }.

(** What an operation starts: a write, a read, a completion callback, a handler. *)
Inductive node_output :=
  | sent (session : N) (message : bytes)
  | completed (reply : N) (r : Result)
  | dispatched (request : N) (session : N) (handler : N) (who : CallIdentity) (data : bytes)
  | announced (handler : N) (session : N) (certificate : bytes) (data : bytes)
  | socket_closed (session : N).

Definition with_objects (s : Node) (m : gmap N Session) : Node :=
  MkNode (token s) (limits s) (tls s) (has_authorizer s) (has_resolver s) (stopped s) (ready_flag s) (listening s) (accepting s)
    (receive_bytes s) (callback_failures s) (peer_serial s) (call_serial s) m (sessions s) (calls s) (handlers s) (notifications s) (requests s) (request_serial s).
Definition with_sessions (s : Node) (t : gset N) : Node :=
  MkNode (token s) (limits s) (tls s) (has_authorizer s) (has_resolver s) (stopped s) (ready_flag s) (listening s) (accepting s)
    (receive_bytes s) (callback_failures s) (peer_serial s) (call_serial s) (objects s) t (calls s) (handlers s) (notifications s) (requests s) (request_serial s).
Definition with_calls (s : Node) (serial : N) (m : gmap N Pending) : Node :=
  MkNode (token s) (limits s) (tls s) (has_authorizer s) (has_resolver s) (stopped s) (ready_flag s) (listening s) (accepting s)
    (receive_bytes s) (callback_failures s) (peer_serial s) serial (objects s) (sessions s) m (handlers s) (notifications s) (requests s) (request_serial s).
Definition with_requests (s : Node) (serial : N) (m : gmap N (N * N)) : Node :=
  MkNode (token s) (limits s) (tls s) (has_authorizer s) (has_resolver s) (stopped s) (ready_flag s) (listening s) (accepting s)
    (receive_bytes s) (callback_failures s) (peer_serial s) (call_serial s) (objects s) (sessions s) (calls s) (handlers s) (notifications s) m serial.
Definition with_received (s : Node) (n : N) : Node :=
  MkNode (token s) (limits s) (tls s) (has_authorizer s) (has_resolver s) (stopped s) (ready_flag s) (listening s) (accepting s)
    n (callback_failures s) (peer_serial s) (call_serial s) (objects s) (sessions s) (calls s) (handlers s) (notifications s) (requests s) (request_serial s).
Definition with_failures (s : Node) (n : N) : Node :=
  MkNode (token s) (limits s) (tls s) (has_authorizer s) (has_resolver s) (stopped s) (ready_flag s) (listening s) (accepting s)
    (receive_bytes s) n (peer_serial s) (call_serial s) (objects s) (sessions s) (calls s) (handlers s) (notifications s) (requests s) (request_serial s).
Definition with_serial (s : Node) (n : N) (a : option N) : Node :=
  MkNode (token s) (limits s) (tls s) (has_authorizer s) (has_resolver s) (stopped s) (ready_flag s) (listening s) a
    (receive_bytes s) (callback_failures s) n (call_serial s) (objects s) (sessions s) (calls s) (handlers s) (notifications s) (requests s) (request_serial s).
Definition with_listening (s : Node) : Node :=
  MkNode (token s) (limits s) (tls s) (has_authorizer s) (has_resolver s) (stopped s) (ready_flag s) true (accepting s)
    (receive_bytes s) (callback_failures s) (peer_serial s) (call_serial s) (objects s) (sessions s) (calls s) (handlers s) (notifications s) (requests s) (request_serial s).
Definition with_stopped (s : Node) : Node :=
  MkNode (token s) (limits s) (tls s) (has_authorizer s) (has_resolver s) true (ready_flag s) false (accepting s)
    (receive_bytes s) (callback_failures s) (peer_serial s) (call_serial s) (objects s) (sessions s) (calls s) (handlers s) (notifications s) (requests s) (request_serial s).
Definition with_hooks (s : Node) (authorizer resolver ready : bool) : Node :=
  MkNode (token s) (limits s) (tls s) authorizer resolver (stopped s) ready (listening s) (accepting s)
    (receive_bytes s) (callback_failures s) (peer_serial s) (call_serial s) (objects s) (sessions s) (calls s) (handlers s) (notifications s) (requests s) (request_serial s).
Definition with_routes (s : Node) (h : gmap bytes Route) (n : gmap bytes N) : Node :=
  MkNode (token s) (limits s) (tls s) (has_authorizer s) (has_resolver s) (stopped s) (ready_flag s) (listening s) (accepting s)
    (receive_bytes s) (callback_failures s) (peer_serial s) (call_serial s) (objects s) (sessions s) (calls s) h n (requests s) (request_serial s).

(** ** Actions: a value, the new state and what was started *)

Definition act (A : Type) : Type := Node -> A * Node * list node_output.
#[export] Instance act_ret : MRet act := fun A a s => (a, s, []).
#[export] Instance act_bind : MBind act := fun A B k m s =>
  let '(a, s1, o1) := m s in let '(b, s2, o2) := k a s1 in (b, s2, o1 ++ o2).

Definition state : act Node := fun s => (s, s, []).
Definition modify (f : Node -> Node) : act unit := fun s => (tt, f s, []).
Definition emit (o : node_output) : act unit := fun s => (tt, s, [o]).
Definition done : act unit := mret tt.

Definition set_session (id : N) (o : Session) : act unit := modify (fun s => with_objects s (<[id := o]> (objects s))).

Fixpoint for_each {A} (f : A -> act unit) (l : list A) : act unit :=
  match l with [] => done | a :: l => f a;; for_each f l end.

(** What the libraries and the application do during one operation. *)
Record Env := MkEnv {
  e_random : option bytes;                             (* RAND_bytes *)
  e_certificate : option bytes;                        (* the digest of a verified peer certificate *)
  e_option : bool;                                     (* setting the socket option succeeds *)
  e_authorize : N -> bytes -> bytes -> result bool;
  e_resolve : N -> bytes -> result (option CallIdentity);
  e_handler : bool;                                    (* a handler throws without having replied *)
  e_callback : N -> bool }.                            (* a completion callback throws *)

Section Node.
Context (HMAC : bytes -> bytes -> option bytes).

(** [authentication_proof(token, server, server_nonce, client_nonce)] *)
Definition transcript (server : bool) (sn cn : bytes) : bytes :=
  (if server then lit "fsnet/node/v2/auth/server" else lit "fsnet/node/v2/auth/client") ++ sn ++ cn.
Definition authentication_proof (token : bytes) (server : bool) (sn cn : bytes) : option bytes :=
  match HMAC token (transcript server sn cn) with
  | Some proof => if size proof =? 32 then Some proof else None
  | None => None
  end.

Variable env : Env.

(** ** Completions *)

(** [deliver(reply, result)] *)
Definition deliver (reply : N) (r : Result) : act unit :=
  emit (completed reply r);; if e_callback env reply then modify (fun s => with_failures s (callback_failures s + 1)) else done.

(** [finish(id, result)] *)
Definition finish (id : N) (r : Result) : act unit :=
  s ← state;
  match calls s !! id with
  | None => done
  | Some p => modify (fun s => with_calls s (call_serial s) (delete id (calls s)));; deliver (creply p) r
  end.

(** [lost(peer)] *)
Definition lost (peer : N) : act unit :=
  modify (fun s => with_sessions s (sessions s ∖ {[peer]}));;
  s ← state;
  for_each (fun id => finish id (MkResult disconnected [])) (map fst (List.filter (fun e => cpeer e.2 =? peer) (map_to_list (calls s)))).

(** ** Session operations *)

(** [close()] *)
Definition close_session (id : N) : act unit :=
  s ← state;
  match objects s !! id with
  | None => done
  | Some o => if closed o then done else set_session id (with_closed o);; emit (socket_closed id);; lost id
  end.

(** [write()] *)
Definition write (id : N) : act unit :=
  s ← state;
  match objects s !! id with
  | None => done
  | Some o =>
      let q := out o in
      if closed o || bool_decide (is_Some (writing q)) then done
      else
        match authentication_output q, output q with
        | message :: _, _ =>
            set_session id (with_out o (MkOutgoing (queued q) (output q) (authentication_output q) (Some (true, message))));; emit (sent id message)
        | [], message :: _ =>
            if negb (authenticated (auth o)) then done
            else set_session id (with_out o (MkOutgoing (queued q) (output q) (authentication_output q) (Some (false, message))));; emit (sent id message)
        | [], [] => done
        end
  end.

(** The handler of the write in flight. *)
Definition write_done (id : N) (error : bool) : act unit :=
  s ← state;
  match objects s !! id with
  | None => done
  | Some o =>
      match writing (out o) with
      | None => done
      | Some (handshake, message) =>
          if closed o then done
          else if error then close_session id
          else
            let q := out o in
            set_session id (with_out o
              (if (handshake : bool) then MkOutgoing (queued q - size message) (output q) (tail (authentication_output q)) None
               else MkOutgoing (queued q - size message) (tail (output q)) (authentication_output q) None));;
            write id
      end
  end.

(** [enqueue(message, handshake)] *)
Definition fits (l : Limits) (o : Session) (message : bytes) (handshake : bool) : bool :=
  let reserved := if negb handshake && negb (authenticated (auth o)) then authentication_queue_reserve else 0 in
  negb (closed o || (queued_bytes l <? reserved) || (queued_bytes l - reserved <? queued (out o)) ||
        (queued_bytes l - reserved - queued (out o) <? size message)).
Definition push (q : Outgoing) (message : bytes) (handshake : bool) : Outgoing :=
  if handshake then MkOutgoing (queued q + size message) (output q) (authentication_output q ++ [message]) (writing q)
  else MkOutgoing (queued q + size message) (output q ++ [message]) (authentication_output q) (writing q).
Definition enqueue (id : N) (message : bytes) (handshake : bool) : act bool :=
  s ← state;
  match objects s !! id with
  | None => mret false
  | Some o =>
      if fits (limits s) o message handshake then
        set_session id (with_out o (push (out o) message handshake));; (if active o then write id else done);; mret true
      else mret false
  end.

(** [if (!enqueue(...)) close()] *)
Definition enqueue_or_close (id : N) (message : bytes) (handshake : bool) : act unit :=
  b ← enqueue id message handshake; if (b : bool) then done else close_session id.

(** ** The handshake *)

Definition read_header (id : N) : act unit :=
  s ← state;
  match objects s !! id with None => done | Some o => set_session id (with_reading o reading_header (receive_reserved o)) end.

(** [ready()]: the transport is connected, TLS included. *)
Definition hex_text (digest : bytes) : bytes :=
  concat (map (fun b => [hex_char (N.shiftr (byte_val b) 4); hex_char (N.land (byte_val b) 15)]) digest).
Definition ready (id : N) : act unit :=
  s ← state;
  match objects s !! id with
  | None => done
  | Some o =>
      if closed o then done
      else
        match (if tls s then match e_certificate env with Some d => Some (lit "sha256:" ++ hex_text d) | None => None end else Some (identity o)) with
        | None => close_session id
        | Some name =>
            let o := with_active o name in
            set_session id o;;
            match phase (auth o), e_random env with
            | client_proof, None => close_session id
            | client_proof, Some nonce =>
                let a := auth o in
                set_session id (with_auth o (MkAuth (authenticated a) (phase a) nonce (client_nonce a)));;
                b ← enqueue id (frame 0 ok 0 [] (x01 :: nonce)) true;
                if (b : bool) then write id;; read_header id else close_session id
            | _, _ => write id;; read_header id
            end
        end
  end.

(** [start(server)], up to the TLS handshake; without TLS the session is ready at once. *)
Definition start (id : N) (server : bool) : act unit :=
  s ← state;
  match objects s !! id with
  | None => done
  | Some o =>
      let o := with_phase o (if server then client_proof else challenge) in
      set_session id o;;
      if negb (e_option env) then close_session id
      else if tls s then set_session id (with_reading o handshaking (receive_reserved o)) else ready id
  end.

(** The TLS handshake completed. *)
Definition handshaken (id : N) (error : bool) : act unit :=
  s ← state;
  match objects s !! id with
  | None => done
  | Some o =>
      set_session id (with_reading o no_read (receive_reserved o));;
      if error then close_session id else ready id
  end.

(** A frame of the authentication exchange. *)
Definition receive_handshake (id : N) (o : Session) (f : Frame) : act unit :=
  s ← state;
  let a := auth o in
  let data := fdata f in
  if negb (fkind f =? 0) || negb (fcall f =? 0) || negb (is_empty (froute f)) || negb (bool_decide (fstatus f = ok)) then close_session id
  else
    match phase a with
    | challenge =>
        if negb (size data =? 33) || negb (bytes_eqb (take 1 data) [x01]) then close_session id
        else
          let sn := drop 1 data in
          match e_random env with
          | None => close_session id
          | Some cn =>
              match authentication_proof (token s) false sn cn with
              | None => close_session id
              | Some proof =>
                  set_session id (with_auth o (MkAuth (authenticated a) server_proof sn cn));;
                  enqueue_or_close id (frame 0 ok 0 [] (x02 :: cn ++ proof)) true
              end
          end
    | client_proof =>
        if negb (size data =? 65) || negb (bytes_eqb (take 1 data) [x02]) then close_session id
        else
          let cn := take 32 (drop 1 data) in
          let a := MkAuth (authenticated a) (phase a) (server_nonce a) cn in
          set_session id (with_auth o a);;
          match authentication_proof (token s) false (server_nonce a) cn, authentication_proof (token s) true (server_nonce a) cn with
          | Some expected, Some proof =>
              if negb (bytes_eqb expected (drop 33 data)) then close_session id
              else
                b ← enqueue id (frame 0 ok 0 [] (x03 :: proof)) true;
                if negb b then close_session id
                else
                  s ← state;
                  match objects s !! id with
                  | None => done
                  | Some o => set_session id (with_auth o (MkAuth true complete (server_nonce a) cn));; write id
                  end
          | _, _ => close_session id
          end
    | server_proof =>
        if negb (size data =? 33) || negb (bytes_eqb (take 1 data) [x03]) then close_session id
        else
          match authentication_proof (token s) true (server_nonce a) (client_nonce a) with
          | None => close_session id
          | Some expected =>
              if negb (bytes_eqb expected (drop 1 data)) then close_session id
              else set_session id (with_auth o (MkAuth true complete (server_nonce a) (client_nonce a)));; write id
          end
    | complete => close_session id
    end.

(** ** Identities *)

(** [resolve_principal()]: the resolver may throw. *)
Definition resolve_principal (id : N) (s : Node) : result (option CallIdentity) :=
  match objects s !! id with
  | None => Ok None
  | Some o =>
      if stopped s || closed o || negb (authenticated (auth o)) then Ok None
      else
        let* who := if has_resolver s then e_resolve env id (identity o) else Ok (Some (MkIdentity client (identity o) id (MkConnection [] 0) None None)) in
        match who with
        | None => Ok None
        | Some who =>
            if 256 <? size (subject who) then Ok None
            else Ok (Some (MkIdentity (caller who) (subject who) id
                             (if connection_valid (connection who) then connection who else sconnection o) (current who) (execution who)))
        end
  end.

Definition same_principal (a b : CallIdentity) : bool :=
  match caller a, caller b with client, client | server, server => true | _, _ => false end &&
  bytes_eqb (subject a) (subject b) && bool_decide (connection a = connection b).

(** What the liveness test of an identity made by [principal()] answers. *)
Definition principal_current (id : N) (s : Node) (who : CallIdentity) : result bool :=
  let* previous := match current who with Some r => r | None => Ok true end in
  if negb previous then Ok false
  else let* now := resolve_principal id s in Ok (match now with Some now => same_principal now who | None => false end).

(** [principal()] *)
Definition principal (id : N) (s : Node) : result (option CallIdentity) :=
  let* who := resolve_principal id s in
  Ok (match who with
      | None => None
      | Some who => Some (MkIdentity (caller who) (subject who) (peer who) (connection who) (Some (principal_current id s who)) (execution who))
      end).

(** ** Requests *)

(** [route.find('\0') != npos] *)
Definition has_nul (route : bytes) : bool := existsb (fun b => Byte.eqb b x00) route.

(** The reply function of a request, called for the first time. *)
Definition reply_request (request : N) (r : Result) : act unit :=
  s ← state;
  match requests s !! request with
  | None => done
  | Some (id, call) =>
      modify (fun s => with_requests s (request_serial s) (delete request (requests s)));;
      match objects s !! id with
      | None => done
      | Some o =>
          if closed o then done
          else
            set_session id (with_inflight o (inflight o - 1));;
            let r := if frame_bytes (limits s) - 14 <? size (rdata r) then MkResult overloaded [] else r in
            enqueue_or_close id (frame 2 (rstatus r) call [] (rdata r)) false
      end
  end.

Definition refuse (id call : N) (status : Status) : act unit := enqueue_or_close id (frame 2 status call [] []) false.

(** The caller role is one the route admits. *)
Definition route_allows (p : RpcPolicy) (who : CallIdentity) : bool := match caller who with server => rpc_server p | client => rpc_client p end.

(** Running the handler of a route. *)
Definition dispatch (id : N) (o : Session) (f : Frame) (route : Route) (who : CallIdentity) : act unit :=
  s ← state;
  let request := request_serial s + 1 in
  set_session id (with_inflight o (inflight o + 1));;
  modify (fun s => with_requests s request (<[request := (id, fcall f)]> (requests s)));;
  match handler route with
  | health => reply_request request (if ready_flag s then MkResult ok (lit "ready") else MkResult overloaded (lit "draining"))
  | application h =>
      emit (dispatched request id h who (fdata f));;
      if e_handler env then reply_request request (MkResult internal []) else done
  end.

(** A request frame, after the check of its fields. *)
Definition receive_request (id : N) (o : Session) (f : Frame) : act unit :=
  s ← state;
  if inflight_requests (limits s) <=? inflight o then refuse id (fcall f) overloaded
  else if has_authorizer s && negb (bool_decide (e_authorize env id (identity o) (froute f) = Ok true)) then refuse id (fcall f) rejected
  else
    match handlers s !! froute f with
    | None => refuse id (fcall f) not_found
    | Some route =>
        match principal id s with
        | Ok (Some who) =>
            if (256 <? size (subject who)) || negb (route_allows (policy route) who) then refuse id (fcall f) rejected
            else dispatch id o f route (MkIdentity (caller who) (subject who) id (connection who) (current who) (execution who))
        | _ => refuse id (fcall f) rejected
        end
    end.

(** A notification frame; a throwing handler closes the session. *)
Definition receive_notification (id : N) (o : Session) (f : Frame) : act unit :=
  s ← state;
  if negb (fcall f =? 0) || negb (bool_decide (fstatus f = ok)) || is_empty (froute f) || has_nul (froute f) then close_session id
  else if has_authorizer s && negb (bool_decide (e_authorize env id (identity o) (froute f) = Ok true)) then close_session id
  else
    match notifications s !! froute f with
    | None => done
    | Some h => emit (announced h id (identity o) (fdata f));; if e_handler env then close_session id else done
    end.

(** [receive()] *)
Definition receive (id : N) (body : bytes) : act unit :=
  s ← state;
  match objects s !! id with
  | None => done
  | Some o =>
      match parse_frame body with
      | None => close_session id
      | Some f =>
          if negb (authenticated (auth o)) then receive_handshake id o f
          else if (fkind f =? 2) && is_empty (froute f) && negb (fcall f =? 0) then
            match calls s !! fcall f with
            | Some p => if cpeer p =? id then finish (fcall f) (MkResult (fstatus f) (fdata f)) else done
            | None => done
            end
          else if fkind f =? 3 then receive_notification id o f
          else if negb (fkind f =? 1) || (fcall f =? 0) || is_empty (froute f) || has_nul (froute f) || negb (bool_decide (fstatus f = ok)) then close_session id
          else receive_request id o f
      end
  end.

(** ** Reading *)

(** [release_body()] *)
Definition release_body (id : N) : act unit :=
  s ← state;
  match objects s !! id with
  | None => done
  | Some o =>
      set_session id (with_reading o (reading o) 0);; modify (fun s => with_received s (receive_bytes s - receive_reserved o))
  end.

(** The handler of the read of a header. *)
Definition handshake_size (a : Auth) : N := 14 + match phase a with client_proof => 65 | _ => 33 end.
Definition header_read (id : N) (header : bytes) (error : bool) : act unit :=
  s ← state;
  match objects s !! id with
  | None => done
  | Some o =>
      if closed o then done
      else
        let n := fold_left shift_in header 0 in
        if error || (n <? 14) || (frame_bytes (limits s) <? n) || (negb (authenticated (auth o)) && negb (n =? handshake_size (auth o))) ||
           (receive_limit (limits s) - receive_bytes s <? n) then close_session id
        else
          modify (fun s => with_received s (receive_bytes s + n));;
          set_session id (with_reading o reading_body n)
  end.

(** The handler of the read of a body. *)
Definition body_read (id : N) (body : bytes) (error : bool) : act unit :=
  s ← state;
  match objects s !! id with
  | None => done
  | Some o =>
      if closed o || error then release_body id;; close_session id
      else
        receive id body;;
        release_body id;;
        s ← state;
        match objects s !! id with None => done | Some o => if closed o then done else read_header id end
  end.

(** ** Connections *)

(** [accept()] *)
Definition accept : act unit :=
  s ← state; if stopped s then done else modify (fun s => with_serial s (peer_serial s + 1) (Some (peer_serial s + 1))).

(** The handler of an accept. *)
Definition accepted (error : bool) (c : ConnectionRef) : act unit :=
  s ← state;
  match accepting s with
  | None => done
  | Some id =>
      modify (fun s => with_serial s (peer_serial s) None);;
      if stopped s then done
      else
        (if negb error && (N.of_nat (base.size (sessions s)) <? connections (limits s)) then
           modify (fun s => with_sessions s ({[id]} ∪ sessions s));; set_session id (new_session c no_read);; start id true
         else done);;
        accept
  end.

(** [listen(address, port)]: [address] parses it and says whether it is loopback, [opened]
    and [bound] are the results of opening the acceptor, and of binding it. *)
Definition listen (address : result bool) (opened : bool) (bound : result N) : act (result N) :=
  s ← state;
  if stopped s || listening s then mret (Throw logic_error)
  else
    match address with
    | Throw e => mret (Throw e)
    | Ok loopback =>
        if negb (tls s) && negb loopback then mret (Throw invalid_argument)
        else if negb opened then mret (Throw system_error)
        else modify with_listening;; match bound with Throw e => mret (Throw e) | Ok port => accept;; mret (Ok port) end
    end.

(** [connect(address, port, peer_name)]: [name_ok] is what setting the TLS names does. *)
Definition connect (text : bytes) (address : result bool) (peer_name configured : bytes) (name_ok : result unit) (c : ConnectionRef) : act (result N) :=
  s ← state;
  if stopped s || (connections (limits s) <=? N.of_nat (base.size (sessions s))) then mret (Throw runtime_error)
  else
    match address with
    | Throw e => mret (Throw e)
    | Ok loopback =>
        if negb (tls s) && negb loopback then mret (Throw invalid_argument)
        else
          let id := peer_serial s + 1 in
          modify (fun s => with_serial s id (accepting s));;
          let expected := if negb (is_empty peer_name) then peer_name else if negb (is_empty configured) then configured else text in
          match (if tls s then if has_nul expected then Throw invalid_argument else name_ok
                 else if negb (is_empty peer_name) then Throw invalid_argument else Ok tt) with
          | Throw e => mret (Throw e)
          | Ok _ => modify (fun s => with_sessions s ({[id]} ∪ sessions s));; set_session id (new_session c connecting_socket);; mret (Ok id)
          end
    end.

(** The handler of a connect. *)
Definition connect_done (id : N) (error : bool) : act unit :=
  s ← state;
  match objects s !! id with
  | None => done
  | Some o =>
      set_session id (with_reading o no_read (receive_reserved o));;
      if closed o then done else if error then close_session id else start id false
  end.

(** The idle timer of a session. *)
Definition idle_expired (id : N) : act unit := close_session id.

(** [close(peer)] *)
Definition close (peer : N) : act unit := s ← state; if bool_decide (peer ∈ sessions s) then close_session peer else done.

(** ** Calls and notifications *)

Definition bad_route (route : bytes) : bool := is_empty route || (256 <? size route) || has_nul route.

(** [call(peer, route, data, timeout, reply)] *)
Definition call (peer : N) (route data : bytes) (timeout_ms : Z) (reply : N) : act unit :=
  s ← state;
  if bad_route route || (frame_bytes (limits s) - 14 <? size route + size data) || bad_timeout timeout_ms then deliver reply (MkResult rejected [])
  else if stopped s || negb (bool_decide (peer ∈ sessions s)) then deliver reply (MkResult disconnected [])
  else if pending_calls (limits s) <=? N.of_nat (base.size (calls s)) then deliver reply (MkResult overloaded [])
  else if call_serial s =? u64_max then deliver reply (MkResult overloaded [])
  else
    let id := call_serial s + 1 in
    modify (fun s => with_calls s id (<[id := MkPending peer reply]> (calls s)));;
    b ← enqueue peer (frame 1 ok id route data) false;
    if (b : bool) then done else finish id (MkResult overloaded []).

(** The timer of a call. *)
Definition call_expired (id : N) : act unit := finish id (MkResult timeout []).

(** [notify(peer, channel, data)] *)
Definition notify (peer : N) (channel data : bytes) : act bool :=
  s ← state;
  if bad_route channel || (frame_bytes (limits s) - 14 <? size channel + size data) then mret false
  else if stopped s || negb (bool_decide (peer ∈ sessions s)) then mret false
  else enqueue peer (frame 3 ok 0 channel data) false.

(** ** Stopping *)

(** [stop()] *)
Definition stop : act unit :=
  s ← state;
  if stopped s then done
  else modify with_stopped;; for_each close_session (elements (sessions s)).
End Node.

(** ** Routes and inspection *)

(** [bind_rpc(route, policy, handler)] and [bind(route, handler)] *)
Definition bind_route (route : bytes) (p : RpcPolicy) (h : RouteHandler) (s : Node) : result Node :=
  if bool_decide (is_Some (handlers s !! route)) then Throw logic_error
  else Ok (with_routes s (<[route := MkRoute p h]> (handlers s)) (notifications s)).
Definition bind_rpc (route : bytes) (p : RpcPolicy) (h : N) (s : Node) : result Node :=
  throw_if bad_route route || (negb (rpc_client p) && negb (rpc_server p)) as invalid_argument ;;
  throw_if owner_only p as invalid_argument ;;
  bind_route route p (application h) s.
Definition bind_handler (route : bytes) (h : RouteHandler) (s : Node) : result Node :=
  throw_if bad_route route as invalid_argument ;; bind_route route (MkPolicy true true false) h s.

(** [rpc_policy(route, policy)] *)
Definition rpc_policy (route : bytes) (p : RpcPolicy) (s : Node) : result Node :=
  throw_if (negb (rpc_client p) && negb (rpc_server p)) || owner_only p as invalid_argument ;;
  match handlers s !! route with
  | None => Throw out_of_range
  | Some r => Ok (with_routes s (<[route := MkRoute p (handler r)]> (handlers s)) (notifications s))
  end.

(** [has_route(route)] and [unbind(route)] *)
Definition has_route (route : bytes) (s : Node) : bool := bool_decide (is_Some (handlers s !! route)).
Definition unbind (route : bytes) (s : Node) : bool * Node :=
  if bytes_eqb route (lit "system.health") then (false, s)
  else (has_route route s, with_routes s (delete route (handlers s)) (notifications s)).

(** [on_notification(channel, handler)] and [off_notification(channel)] *)
Definition on_notification (channel : bytes) (h : N) (s : Node) : result Node :=
  throw_if bad_route channel as invalid_argument ;;
  throw_if bool_decide (is_Some (notifications s !! channel)) as logic_error ;;
  Ok (with_routes s (handlers s) (<[channel := h]> (notifications s))).
Definition off_notification (channel : bytes) (s : Node) : Node := with_routes s (handlers s) (delete channel (notifications s)).

(** [authorize], [identify] and [set_ready] *)
Definition authorize (b : bool) (s : Node) : Node := with_hooks s b (has_resolver s) (ready_flag s).
Definition identify (b : bool) (s : Node) : Node := with_hooks s (has_authorizer s) b (ready_flag s).
Definition set_ready (b : bool) (s : Node) : Node := with_hooks s (has_authorizer s) (has_resolver s) b.

(** The session of a connected peer. *)
Definition session_of (peer : N) (s : Node) : option Session := if bool_decide (peer ∈ sessions s) then objects s !! peer else None.

(** [peer_identity], [connected], [connecting] *)
Definition peer_identity (peer : N) (s : Node) : bytes :=
  match session_of peer s with Some o => if authenticated (auth o) then identity o else [] | None => [] end.
Definition connected (peer : N) (s : Node) : bool :=
  match session_of peer s with Some o => negb (stopped s) && authenticated (auth o) && negb (closed o) | None => false end.
Definition connecting (peer : N) (s : Node) : bool :=
  match session_of peer s with Some o => negb (stopped s) && negb (closed o) && negb (authenticated (auth o)) | None => false end.

(** [identity(peer)] *)
Definition node_identity (env : Env) (peer : N) (s : Node) : option CallIdentity :=
  if connected peer s then match principal env peer s with Ok who => who | Throw _ => None end else None.

(** [pending()] and [stats()] *)
Definition pending (s : Node) : N := N.of_nat (base.size (calls s)).
Record TransportStats := MkStats { st_connections : N; st_pending : N; st_inflight : N; st_queued : N; st_received : N; st_failures : N }.
Definition stats (s : Node) : TransportStats :=
  let open := omap (fun id => objects s !! id) (elements (sessions s)) in
  MkStats (N.of_nat (base.size (sessions s))) (pending s) (foldr (fun o n => inflight o + n) 0 open) (foldr (fun o n => queued (out o) + n) 0 open)
    (receive_bytes s) (callback_failures s).

(** [Node(token, limits, tls)]: the TLS configuration is complete or absent, and [setup] is
    what loading it does. *)
Record TlsConfig := MkTlsConfig { ca_file : bytes; certificate_file : bytes; private_key_file : bytes; peer_name : bytes }.
Definition bad_limits (l : Limits) : bool :=
  (frame_bytes l <? 14 + 65) || (16 * 1024 * 1024 <? frame_bytes l) || (queued_bytes l <? frame_bytes l + 4) || (queued_bytes l <? authentication_queue_reserve) ||
  (connections l =? 0) || (pending_calls l =? 0) || (inflight_requests l =? 0) || (idle_timeout l <=? 0)%Z ||
  (receive_limit l <? frame_bytes l) || (poll_events l =? 0) || (poll_time l <=? 0)%Z || (ms 1000 <? poll_time l)%Z.
Definition node (auth : bytes) (l : Limits) (config : TlsConfig) (setup : result unit) : result Node :=
  throw_if (4096 <? size auth) || bad_limits l as invalid_argument ;;
  let named := negb (is_empty (ca_file config)) || negb (is_empty (certificate_file config)) || negb (is_empty (private_key_file config)) in
  let complete := negb (is_empty (ca_file config)) && negb (is_empty (certificate_file config)) && negb (is_empty (private_key_file config)) in
  let* _ := if named then (throw_if negb complete as invalid_argument ;; setup)
            else (throw_if negb (is_empty (peer_name config)) as invalid_argument ;; Ok tt) in
  bind_handler (lit "system.health") health
    (MkNode auth l named false false false true false None 0 0 0 0 ∅ ∅ ∅ ∅ ∅ ∅ 0).
