(* ===== verification/NodeCorrect.v ===== *)
(** * The node transport: calls, limits and authentication

    The theorems about [Node]: every call is answered once, the queues, reservations and
    tables stay within the configured limits, and a session carries application traffic
    only after the peer proved that it knows the shared token. *)

From stdpp Require Import gmap.
From S2P Require Import Prelude Storage MapSum Identity Values AttributeWire Messages Fields DeliveryState Schema Transport Node.

(** ** Frames *)

Lemma frame_body_size kind st id route data : size (frame_body kind st id route data) = 14 + size route + size data.
Proof. unfold frame_body. rewrite !size_app, !size_put_be. lia. Qed.

Lemma status_index_of st : status_of (status_index st) = Some st.
Proof. by destruct st. Qed.

Lemma parse_frame_body kind st id route data : kind < 256 -> id < 2 ^ 64 -> size route <= 256 ->
  parse_frame (frame_body kind st id route data) = Some (MkFrame kind st id route data).
Proof.
  intros Hk Hi Hr. unfold parse_frame. rewrite (frame_body_size kind st id route data). unfold frame_body.
  rewrite (get_put_be _ 1 2), (get_put_be _ 1 kind), (get_put_be _ 1 (status_index st)), (get_put_be _ 1 0), (get_put_be _ 8 id), (get_put_be _ 2 (size route));
    try (cbn; lia); try (by destruct st).
  replace (256 <? size route) with false by (symmetry; by apply N.ltb_ge). rewrite (proj2 (N.ltb_ge _ _)) by lia. cbn [negb orb N.eqb Pos.eqb]. rewrite status_index_of.
  unfold size. rewrite Nat2N.id, take_app_length, drop_app_length. done.
Qed.

Lemma shift_in_put_be n : n < 2 ^ 32 -> fold_left shift_in (put_be 4 n) 0 = n.
Proof.
  intros Hn. pose proof (get_put_be invalid_argument 4 n [] ltac:(lia) Hn) as E. unfold get_be in E. rewrite app_nil_r, size_put_be in E. cbn in E. by injection E as E.
Qed.

(** A frame is read back as the parts it was made from: its length prefix
    is the size of the body, and the body parses to the kind, status, call, route and
    data, for every kind, call and route the node sends. *)
Theorem frame_roundtrip kind st id route data : kind < 256 -> id < 2 ^ 64 -> size route <= 256 -> 14 + size route + size data < 2 ^ 32 ->
  exists header body, frame kind st id route data = header ++ body /\ length header = 4%nat /\ fold_left shift_in header 0 = size body /\
    parse_frame body = Some (MkFrame kind st id route data).
Proof.
  intros Hk Hi Hr Hs. exists (put_be 4 (14 + size route + size data)), (frame_body kind st id route data). split; [done|]. split; [apply length_put_be|].
  split; [by rewrite frame_body_size, shift_in_put_be|by apply parse_frame_body].
Qed.

(** ** The invariant *)

Definition sizes (l : list bytes) : N := foldr (fun m n => size m + n) 0 l.

Lemma sizes_cons x l : sizes (x :: l) = size x + sizes l.
Proof. done. Qed.

Lemma sizes_app a b : sizes (a ++ b) = sizes a + sizes b.
Proof. induction a as [|x a IH]; [done|]. cbn. fold (sizes (a ++ b)) (sizes a). lia. Qed.

Definition of_session (id : N) (r : N * N) : N := if r.1 =? id then 1 else 0.

Definition is_handshake (m : bytes) : Prop := exists data, m = frame 0 ok 0 [] data.

(** What a node heard from its peers, and the random values it drew. *)
Record History := MkHistory { heard : list (N * bytes); draws : list bytes }.

Section Invariant.
Context (HMAC : bytes -> bytes -> option bytes) (h : History).

(** The peer's proof that let session [id] be authenticated. *)
Definition proof_heard (tok : bytes) (id : N) (a : Auth) : Prop :=
  exists body f, (id, body) ∈ heard h /\ parse_frame body = Some f /\ fkind f = 0 /\
    ((exists p, fdata f = x02 :: client_nonce a ++ p /\ authentication_proof HMAC tok false (server_nonce a) (client_nonce a) = Some p /\ server_nonce a ∈ draws h) \/
     (exists p, fdata f = x03 :: p /\ authentication_proof HMAC tok true (server_nonce a) (client_nonce a) = Some p /\ client_nonce a ∈ draws h)).

Definition auth_ok (tok : bytes) (id : N) (o : Session) : Prop :=
  if authenticated (auth o) then phase (auth o) = complete /\ reading o <> connecting_socket /\ reading o <> handshaking /\ proof_heard tok id (auth o)
  else match phase (auth o) with
       | challenge => True
       | client_proof => reading o = reading_header \/ reading o = reading_body -> server_nonce (auth o) ∈ draws h
       | server_proof => client_nonce (auth o) ∈ draws h
       | complete => False
       end.

Definition queue_ok (l : Limits) (shut : bool) (q : Outgoing) : Prop :=
  queued q = sizes (output q) + sizes (authentication_output q) /\ queued q <= queued_bytes l /\ Forall is_handshake (authentication_output q) /\
  (shut = false -> forall (b : bool) m, writing q = Some (b, m) -> head (if b then authentication_output q else output q) = Some m).

Record session_ok (s : Node) (id : N) (o : Session) : Prop := {
  so_serial : id <= peer_serial s;
  so_queue : queue_ok (limits s) (closed o) (out o);
  so_inflight : closed o = false -> inflight o = msum (of_session id) (requests s) /\ inflight o <= inflight_requests (limits s);
  so_reserved : reading o <> reading_body -> receive_reserved o = 0;
  so_auth : auth_ok (token s) id o }.

(** [lost]: calls that are about to be answered, whose session is gone. *)
Record node_inv_but (lost : list N) (s : Node) : Prop := {
  ni_table : forall id, id ∈ sessions s <-> exists o, objects s !! id = Some o /\ closed o = false;
  ni_objects : forall id o, objects s !! id = Some o -> session_ok s id o;
  ni_accepting : forall id, accepting s = Some id -> id <= peer_serial s /\ objects s !! id = None;
  ni_received : receive_bytes s = msum receive_reserved (objects s);
  ni_receive_limit : receive_bytes s <= receive_limit (limits s);
  ni_calls : forall id p, calls s !! id = Some p -> (cpeer p ∈ sessions s \/ id ∈ lost) /\ id <= call_serial s;
  ni_pending : N.of_nat (base.size (calls s)) <= pending_calls (limits s);
  ni_connections : N.of_nat (base.size (sessions s)) <= connections (limits s);
  ni_requests : forall r x, requests s !! r = Some x -> r <= request_serial s /\ x.1 <= peer_serial s /\ accepting s <> Some x.1 }.
Definition node_inv : Node -> Prop := node_inv_but [].

(** ** What an operation may do *)

Definition delivered (outs : list node_output) : list N := omap (fun o => match o with completed n _ => Some n | _ => None end) outs.

Lemma delivered_app a b : delivered (a ++ b) = delivered a ++ delivered b.
Proof. apply omap_app. Qed.

Definition is_authenticated (s : Node) (id : N) : Prop := exists o, objects s !! id = Some o /\ authenticated (auth o) = true.

(** Application traffic only on authenticated sessions. *)
Definition output_ok (s : Node) (o : node_output) : Prop :=
  match o with
  | sent id m => is_handshake m \/ is_authenticated s id
  | dispatched _ id _ _ _ | announced _ id _ _ => is_authenticated s id
  | _ => True
  end.

(** The calls, and the new replies [rs], are answered or kept; the configuration, and what was authenticated, stays; a
    stopped node opens no session. *)
Definition is_reading (o : Session) : Prop := reading o = reading_header \/ reading o = reading_body.
Definition keeps_reading (s s' : Node) : Prop := forall id o, objects s !! id = Some o -> is_reading o -> exists o', objects s' !! id = Some o' /\ is_reading o'.

Lemma keeps_same s s' : objects s' = objects s -> keeps_reading s s'.
Proof. intros E id o Ho Hr. exists o. by rewrite E. Qed.

Record trans_with (rs : list N) (s s' : Node) (outs : list node_output) : Prop := {
  tr_reading : keeps_reading s s';
  tr_calls : rs ++ mnames creply (calls s) ≡ₚ delivered outs ++ mnames creply (calls s');
  tr_limits : limits s' = limits s;
  tr_token : token s' = token s;
  tr_stopped : stopped s' = stopped s;
  tr_sessions : stopped s = true -> sessions s' ⊆ sessions s;
  tr_auth : forall id, is_authenticated s id -> is_authenticated s' id;
  tr_outputs : Forall (output_ok s') outs }.
Definition trans : Node -> Node -> list node_output -> Prop := trans_with [].

Lemma trans_refl s : trans s s [].
Proof. constructor; try done. by apply keeps_same. Qed.

Lemma output_mono s s' o : (forall id, is_authenticated s id -> is_authenticated s' id) -> output_ok s o -> output_ok s' o.
Proof. clear HMAC h. intros H. destruct o; cbn; naive_solver. Qed.

Lemma trans_after rs a b c o1 o2 : trans_with rs a b o1 -> trans b c o2 -> trans_with rs a c (o1 ++ o2).
Proof.
  intros [A0 A1 A2 A3 A4 A5 A6 A7] [B0 B1 B2 B3 B4 B5 B6 B7]. constructor; try congruence.
  - intros id o Ho Hr. destruct (A0 id o Ho Hr) as (o' & Ho' & Hr'). by eapply B0.
  - by rewrite delivered_app, A1, <- app_assoc, <- B1.
  - intros H. transitivity (sessions b); [apply B5; congruence|by apply A5].
  - auto.
  - apply Forall_app. split; [|done]. eapply Forall_impl; [exact A7|]. intros o. by apply output_mono.
Qed.

Lemma trans_trans a b c o1 o2 : trans a b o1 -> trans b c o2 -> trans a c (o1 ++ o2).
Proof. apply trans_after. Qed.

(** An action that keeps the invariant from the state [s]. *)
Definition safe {A} (s : Node) (m : act A) (post : A -> Node -> Prop) : Prop :=
  node_inv s -> let '(a, s', outs) := m s in node_inv s' /\ trans s s' outs /\ post a s'.

Lemma safe_ret {A} s (a : A) (post : A -> Node -> Prop) : post a s -> safe s (mret a) post.
Proof. intros Hp Hi. split; [done|]. split; [apply trans_refl|done]. Qed.

Lemma safe_bind {A B} s (m : act A) (k : A -> act B) mid post : safe s m mid ->
  (forall a s', token s' = token s -> limits s' = limits s -> keeps_reading s s' -> mid a s' -> safe s' (k a) post) -> safe s (m ≫= k) post.
Proof.
  intros Hm Hk Hi. specialize (Hm Hi). unfold mbind, act_bind. destruct (m s) as [[a s1] o1]. destruct Hm as (I1 & T1 & P1).
  specialize (Hk a s1 (tr_token _ _ _ _ T1) (tr_limits _ _ _ _ T1) (tr_reading _ _ _ _ T1) P1 I1). destruct (k a s1) as [[b s2] o2]. destruct Hk as (I2 & T2 & P2).
  split; [done|]. split; [by eapply trans_trans|done].
Qed.

Lemma safe_post {A} s (m : act A) (post post' : A -> Node -> Prop) : (forall a s', post a s' -> post' a s') -> safe s m post -> safe s m post'.
Proof. intros Hp Hm Hi. specialize (Hm Hi). destruct (m s) as [[a s1] o1]. destruct Hm as (? & ? & ?). auto. Qed.

Lemma safe_inv {A} s (m : act A) post : (node_inv s -> safe s m post) -> safe s m post.
Proof. intros H Hi. by apply H. Qed.

Lemma safe_state {B} s (k : Node -> act B) post : safe s (k s) post -> safe s (state ≫= k) post.
Proof. intros H Hi. specialize (H Hi). unfold mbind, act_bind, state. by destruct (k s s) as [[b s2] o2]. Qed.

Lemma safe_modify {B} s f (k : unit -> act B) post : (node_inv s -> node_inv (f s) /\ trans s (f s) []) -> safe (f s) (k tt) post -> safe s (modify f ≫= k) post.
Proof.
  intros Hf Hk Hi. destruct (Hf Hi) as [I1 T1]. specialize (Hk I1). unfold mbind, act_bind, modify. destruct (k tt (f s)) as [[b s2] o2]. destruct Hk as (I2 & T2 & P2).
  split; [done|]. split; [by apply (trans_trans s (f s) s2 [])|done].
Qed.

Lemma safe_emit {B} s o (k : unit -> act B) post : output_ok s o -> delivered [o] = [] -> safe s (k tt) post -> safe s (emit o ≫= k) post.
Proof.
  intros Ho Hd Hk Hi. specialize (Hk Hi). unfold mbind, act_bind, emit. destruct (k tt s) as [[b s2] o2]. destruct Hk as (I2 & T2 & P2).
  split; [done|]. split; [|done]. apply (trans_trans s s s2 [o]); [|done]. constructor; try done; [by apply keeps_same|by rewrite Hd|by constructor].
Qed.

Lemma safe_modify_end s f (post : unit -> Node -> Prop) : (node_inv s -> node_inv (f s) /\ trans s (f s) [] /\ post tt (f s)) -> safe s (modify f) post.
Proof. intros Hf Hi. by apply Hf. Qed.

Lemma safe_emit_end s o (post : unit -> Node -> Prop) : output_ok s o -> delivered [o] = [] -> post tt s -> safe s (emit o) post.
Proof. intros Ho Hd Hp Hi. split; [done|]. split; [|done]. constructor; try done; [by apply keeps_same|by rewrite Hd|by constructor]. Qed.

Lemma safe_modify_seq {B} s f g (k : act B) post : safe s (modify (fun s => g (f s)) ≫= fun _ => k) post -> safe s (modify f ≫= fun _ => modify g ≫= fun _ => k) post.
Proof. intros H Hi. specialize (H Hi). revert H. unfold mbind, act_bind, modify. by destruct (k (g (f s))) as [[b s2] o2]. Qed.
End Invariant.

(** A step of a proof that an action is safe. *)
Ltac safe_step :=
  lazymatch goal with
  | |- safe _ _ _ (state ≫= _) _ => apply safe_state; cbv beta
  | |- safe _ _ _ done _ => apply safe_ret
  | |- safe _ _ _ (mret _) _ => apply safe_ret
  | |- safe _ _ _ (match ?x with _ => _ end) _ => destruct x eqn:?
  end.

Section Operations.
Context (HMAC : bytes -> bytes -> option bytes) (h : History) (env : Env).

Abbreviation inv := (node_inv HMAC h).
Abbreviation inv_but := (node_inv_but HMAC h).
Abbreviation ok_session := (session_ok HMAC h).
Abbreviation runs := (safe HMAC h).

(** ** Completions *)

Lemma deliver_run reply r s : exists s', deliver env reply r s = (tt, s', [completed reply r]) /\ (s' = s \/ s' = with_failures s (callback_failures s + 1)).
Proof. unfold deliver, mbind, act_bind, emit, modify, done, mret, act_ret. destruct (e_callback env reply); eexists; split; try done; auto. Qed.

Lemma failures_inv ids s n : inv_but ids s -> inv_but ids (with_failures s n).
Proof. intros [H1 H2 H3 H4 H5 H6 H7 H8 H9]. constructor; try done. intros id o Ho. by destruct (H2 id o Ho). Qed.

(** Answering a call of the table, also one whose session is gone. *)
Lemma finish_run id r ids s : inv_but (id :: ids) s ->
  let '(_, s', outs) := finish env id r s in inv_but ids s' /\ trans s s' outs /\ objects s' = objects s /\ sessions s' = sessions s.
Proof.
  intros Hi. unfold finish, mbind, act_bind, state. destruct (calls s !! id) as [p|] eqn:Hp.
  - unfold modify. destruct (deliver_run (creply p) r (with_calls s (call_serial s) (delete id (calls s)))) as (s' & -> & Hs'). cbn [app].
    pose proof (mnames_delete (g := creply) _ _ _ Hp) as Hd.
    assert (Hi' : inv_but ids (with_calls s (call_serial s) (delete id (calls s)))).
    { destruct Hi as [H1 H2 H3 H4 H5 H6 H7 H8 H9]. constructor; try done.
      - intros n o Ho. by destruct (H2 n o Ho).
      - cbn. intros n q [Hne Hq]%lookup_delete_Some. destruct (H6 n q Hq) as [[?|Hin] Hl]; [by auto|]. apply elem_of_cons in Hin as [->|Hin]; [done|by auto].
      - cbn. rewrite map_size_delete, Hp. lia. }
    assert (Ht : trans s (with_calls s (call_serial s) (delete id (calls s))) [completed (creply p) r]).
    { constructor; try done; [by apply keeps_same|by repeat constructor]. }
    destruct Hs' as [->| ->]; [by split_and!|]. split_and!; [by apply failures_inv| |done|done].
    rewrite <- (app_nil_r [completed _ _]). eapply trans_trans; [exact Ht|]. constructor; try done. by apply keeps_same.
  - cbn. split_and!; [|apply trans_refl|done|done]. destruct Hi as [H1 H2 H3 H4 H5 H6 H7 H8 H9]. constructor; try done.
    intros n q Hq. destruct (H6 n q Hq) as [[?|Hin] Hl]; [by auto|]. apply elem_of_cons in Hin as [->|Hin]; [congruence|by auto].
Qed.

Lemma inv_weaken ids s : inv s -> inv_but ids s.
Proof. intros [H1 H2 H3 H4 H5 H6 H7 H8 H9]. constructor; try done. intros n q Hq. destruct (H6 n q Hq) as [[?|Hin%elem_of_nil] ?]; [by auto|done]. Qed.

Lemma finish_safe id r s : runs s (finish env id r) (fun _ s' => objects s' = objects s /\ sessions s' = sessions s).
Proof. intros Hi. pose proof (finish_run id r [] s (inv_weaken _ _ Hi)) as H. destruct (finish env id r s) as [[[] s'] outs]. naive_solver. Qed.

Lemma finish_all r ids : forall s, inv_but ids s ->
  let '(_, s', outs) := for_each (fun id => finish env id r) ids s in inv s' /\ trans s s' outs /\ objects s' = objects s /\ sessions s' = sessions s.
Proof.
  induction ids as [|id ids IH]; intros s Hi; cbn [for_each]; [by split_and!; [|apply trans_refl| |]|].
  unfold mbind, act_bind. pose proof (finish_run id r ids s Hi) as H1. destruct (finish env id r s) as [[[] s1] o1]. destruct H1 as (I1 & T1 & E1 & E2).
  specialize (IH s1 I1). destruct (for_each _ ids s1) as [[[] s2] o2]. destruct IH as (I2 & T2 & E3 & E4). split_and!; [done|by eapply trans_trans|congruence|congruence].
Qed.

(** ** Session objects *)

Lemma session_frame s s' id o : peer_serial s <= peer_serial s' -> limits s' = limits s -> token s' = token s ->
  (closed o = false -> msum (of_session id) (requests s') = msum (of_session id) (requests s)) -> ok_session s id o -> ok_session s' id o.
Proof.
  intros E1 E2 E3 E4 [H1 H2 H3 H4 H5]. constructor; rewrite ?E2, ?E3; try done; [lia|]. intros Hc. rewrite (E4 Hc). by apply H3.
Qed.

(** The object changes, its life and its reservation do not. *)
Lemma set_inv id o o' s : objects s !! id = Some o -> ok_session s id o' -> closed o' = closed o -> receive_reserved o' = receive_reserved o ->
  (authenticated (auth o) = true -> authenticated (auth o') = true) -> (is_reading o -> is_reading o') -> inv s ->
  inv (with_objects s (<[id := o']> (objects s))) /\ trans s (with_objects s (<[id := o']> (objects s))) [].
Proof.
  intros Ho Hok Hc Hr Ha Hrd [H1 H2 H3 H4 H5 H6 H7 H8 H9]. split.
  - constructor; try done; cbn.
    + intros n. rewrite H1. destruct (decide (n = id)) as [->|Hne]; [rewrite lookup_insert_eq, Ho|by rewrite lookup_insert_ne].
      split; intros (x & [= <-] & Hx); eexists; split; try done; congruence.
    + intros n x [[<- <-]|[_ Hx]]%lookup_insert_Some; (eapply session_frame; [..|first [exact Hok|by apply H2]]); done.
    + intros n Hn. destruct (H3 n Hn) as [? Hx]. split; [done|]. rewrite lookup_insert_ne; [done|]. by intros ->; congruence.
    + rewrite H4. pose proof (msum_replace (f := receive_reserved) _ _ _ o' Ho). lia.
  - constructor; try done; intros n; [intros x Hx Hax|intros (x & Hx & Hax)].
    all: destruct (decide (n = id)) as [->|Hne]; [exists o'; cbn; rewrite lookup_insert_eq; naive_solver|exists x; cbn; by rewrite lookup_insert_ne].
Qed.

Lemma safe_set {B} id o o' s (k : unit -> act B) post : objects s !! id = Some o -> (ok_session s id o -> ok_session s id o') -> closed o' = closed o ->
  receive_reserved o' = receive_reserved o -> (authenticated (auth o) = true -> authenticated (auth o') = true) -> (is_reading o -> is_reading o') ->
  runs (with_objects s (<[id := o']> (objects s))) (k tt) post -> runs s (set_session id o' ≫= k) post.
Proof.
  intros Ho Hok Hc Hr Ha Hrd Hk. apply safe_modify; [|done]. intros Hi. apply (set_inv id o); try done. apply Hok, (ni_objects _ _ _ _ Hi), Ho.
Qed.

Lemma safe_set_end id o o' s (post : unit -> Node -> Prop) : objects s !! id = Some o -> (ok_session s id o -> ok_session s id o') -> closed o' = closed o ->
  receive_reserved o' = receive_reserved o -> (authenticated (auth o) = true -> authenticated (auth o') = true) -> (is_reading o -> is_reading o') ->
  post tt (with_objects s (<[id := o']> (objects s))) -> runs s (set_session id o') post.
Proof.
  intros Ho Hok Hc Hr Ha Hrd Hk. apply safe_modify_end. intros Hi. destruct (set_inv id o o' s Ho) as [I1 T1]; try done. apply Hok, (ni_objects _ _ _ _ Hi), Ho.
Qed.

(** ** Closing *)

Lemma closed_ok s id o : ok_session s id o -> ok_session s id (with_closed o).
Proof.
  intros [H1 H2 H3 H4 H5]. constructor; try done. split_and!; [done|cbn; lia| |done]. by constructor.
Qed.

Lemma close_session_safe id s : runs s (close_session env id) (fun _ s' => forall o, objects s' !! id = Some o -> closed o = true).
Proof.
  apply safe_state. destruct (objects s !! id) as [o|] eqn:Ho; [|apply safe_ret; intros; congruence]. destruct (closed o) eqn:Hc; [apply safe_ret; intros; congruence|].
  intros Hi. unfold lost, set_session, modify, emit, state, mbind, act_bind. cbn [app].
  set (s1 := with_sessions _ _).
  set (ids := map fst (List.filter _ _)).
  assert (I1 : inv_but ids s1).
  { destruct Hi as [H1 H2 H3 H4 H5 H6 H7 H8 H9]. constructor; try done; cbn.
    - intros n. rewrite elem_of_difference, elem_of_singleton, H1. destruct (decide (n = id)) as [->|Hne]; [rewrite lookup_insert_eq|rewrite lookup_insert_ne by done].
      + split; [by intros []|by intros (x & [= <-] & Hx)].
      + naive_solver.
    - intros n x [[<- <-]|[_ Hx]]%lookup_insert_Some; (eapply session_frame; [..|first [apply closed_ok, H2, Ho|by apply H2]]); done.
    - intros n Hn. destruct (H3 n Hn) as [? Hx]. split; [done|]. rewrite lookup_insert_ne; [done|]. by intros ->; congruence.
    - rewrite H4. pose proof (msum_replace (f := receive_reserved) _ _ _ (with_closed o) Ho) as E. cbn in E. lia.
    - intros n p Hp. destruct (H6 n p Hp) as [[Hin|Hin%elem_of_nil] Hl]; [|done]. split; [|done]. destruct (decide (cpeer p = id)) as [E|Hne]; [right|left; set_solver].
      apply list_elem_of_In, in_map_iff. exists (n, p). split; [done|]. apply filter_In. split; [by apply list_elem_of_In, elem_of_map_to_list|]. by apply N.eqb_eq.
    - assert (base.size (sessions s ∖ {[id]}) <= base.size (sessions s))%nat; [|lia]. apply subseteq_size. set_solver. }
  assert (T1 : trans s s1 [socket_closed id]).
  { constructor; try done; [|set_solver| |by repeat constructor]; intros n; [intros x Hx Hax|intros (x & Hx & Hax)].
    all: destruct (decide (n = id)) as [->|Hne]; [exists (with_closed o); cbn; rewrite lookup_insert_eq; naive_solver|exists x; cbn; by rewrite lookup_insert_ne]. }
  pose proof (finish_all (MkResult disconnected []) ids s1 I1) as Hf.
  destruct (for_each _ ids s1) as [[[] s2] o2]. destruct Hf as (I2 & T2 & E1 & E2). split; [done|]. split; [exact (trans_trans s s1 s2 [_] o2 T1 T2)|].
  rewrite E1. cbn. intros x. rewrite lookup_insert_eq. by intros [= <-].
Qed.

(** ** The queues *)

Lemma with_out_ok s id o q : queue_ok (limits s) (closed o) q -> ok_session s id o -> ok_session s id (with_out o q).
Proof. intros Hq [H1 H2 H3 H4 H5]. by constructor. Qed.

(** Only the queue of session [id] changed. *)
Definition out_only (id : N) (s s' : Node) : Prop := forall o, objects s !! id = Some o -> exists q, objects s' !! id = Some (with_out o q).

Lemma out_only_refl id s : out_only id s s.
Proof. intros o Ho. exists (out o). rewrite Ho. by destruct o. Qed.

Lemma out_only_set id s o q : objects s !! id = Some o -> out_only id s (with_objects s (<[id := with_out o q]> (objects s))).
Proof. intros Ho x Hx. exists q. cbn. rewrite lookup_insert_eq. congruence. Qed.

Lemma out_only_trans id a b c : out_only id a b -> out_only id b c -> out_only id a c.
Proof. intros H1 H2 o Ho. destruct (H1 o Ho) as [q Hq]. destruct (H2 _ Hq) as [q' Hq']. by exists q'. Qed.

Lemma write_safe id s : runs s (write id) (fun _ s' => out_only id s s').
Proof.
  apply safe_state. destruct (objects s !! id) as [o|] eqn:Ho; [|apply safe_ret, out_only_refl]. cbv zeta.
  destruct (_ || _) eqn:Hw; [apply safe_ret, out_only_refl|]. apply orb_false_iff in Hw as [Hc Hw%bool_decide_eq_false].
  apply safe_inv. intros Hi. pose proof (so_queue _ _ _ _ _ (ni_objects _ _ _ _ Hi _ _ Ho)) as Hq.
  assert (Hset : forall (b : bool) m, (b = false -> authenticated (auth o) = true) -> head (if b then authentication_output (out o) else output (out o)) = Some m ->
    runs s (set_session id (with_out o (MkOutgoing (queued (out o)) (output (out o)) (authentication_output (out o)) (Some (b, m))));; emit (sent id m)) (fun _ s' => out_only id s s')).
  { intros b m Hb Hm. destruct Hq as (Q1 & Q2 & Q3 & Q4). apply (safe_set _ o); try done.
    - apply with_out_ok. split_and!; try done. cbn. intros _ b' m' [= <- <-]. done.
    - apply safe_emit_end; [|done|by apply out_only_set]. destruct b; [left|right].
      + cbn in Hm. destruct (authentication_output (out o)) as [|x l]; [done|]. injection Hm as <-. by apply Forall_cons in Q3 as [? _].
      + eexists. cbn. rewrite lookup_insert_eq. split; [done|]. by apply Hb. }
  destruct (authentication_output (out o)) as [|m l] eqn:Ea; [|by apply (Hset true m)].
  destruct (output (out o)) as [|m l'] eqn:Eo; [apply safe_ret, out_only_refl|]. destruct (authenticated (auth o)) eqn:Hau; cbn [negb]; [|apply safe_ret, out_only_refl].
  by apply (Hset false m).
Qed.

Lemma pop_queue l q (b : bool) m : queue_ok l false q -> writing q = Some (b, m) ->
  queue_ok l false (if b then MkOutgoing (queued q - size m) (output q) (tail (authentication_output q)) None
                    else MkOutgoing (queued q - size m) (tail (output q)) (authentication_output q) None).
Proof.
  intros (Q1 & Q2 & Q3 & Q4) Hw. specialize (Q4 eq_refl b m Hw). destruct b.
  - destruct (authentication_output q) as [|x r]; [done|]. injection Q4 as <-. rewrite sizes_cons in Q1. apply Forall_cons in Q3 as [_ Q3].
    split_and!; cbn [queued output authentication_output writing tail]; [lia|lia|done|done].
  - destruct (output q) as [|x r]; [done|]. injection Q4 as <-. rewrite sizes_cons in Q1. split_and!; cbn [queued output authentication_output writing tail]; [lia|lia|done|done].
Qed.

Lemma write_done_safe id error s : runs s (write_done env id error) (fun _ _ => True).
Proof.
  apply safe_state. destruct (objects s !! id) as [o|] eqn:Ho; [|by apply safe_ret]. destruct (writing (out o)) as [[b m]|] eqn:Hw; [|by apply safe_ret].
  destruct (closed o) eqn:Hc; [by apply safe_ret|]. destruct error; [by eapply safe_post, close_session_safe|]. cbv zeta. apply (safe_set _ o); try done.
  - intros Hok. apply with_out_ok; [|done]. rewrite Hc. apply pop_queue; [|done]. pose proof (so_queue _ _ _ _ _ Hok) as Hq. by rewrite Hc in Hq.
  - by eapply safe_post, write_safe.
Qed.

Lemma push_queue l o m (b : bool) : queue_ok l (closed o) (out o) -> fits l o m b = true -> (b = true -> is_handshake m) -> queue_ok l (closed o) (push (out o) m b).
Proof.
  intros (Q1 & Q2 & Q3 & Q4) Hf Hb. unfold fits in Hf. apply negb_true_iff in Hf. apply orb_false_iff in Hf as [Hf Hs%N.ltb_ge]. apply orb_false_iff in Hf as [Hf Hr%N.ltb_ge].
  apply orb_false_iff in Hf as [Hc Hl%N.ltb_ge]. unfold push. destruct b; split_and!; cbn [queued output authentication_output writing]; rewrite ?sizes_app, ?sizes_cons; change (sizes []) with 0; try lia; try done.
  - apply Forall_app. split; [done|]. constructor; [by apply Hb|done].
  - intros Hcl b m' Hw. specialize (Q4 Hcl b m' Hw). destruct b; [|done]. by destruct (authentication_output (out o)).
  - intros Hcl b m' Hw. specialize (Q4 Hcl b m' Hw). destruct b; [done|]. by destruct (output (out o)).
Qed.

Lemma enqueue_safe id m (b : bool) s : (b = true -> is_handshake m) -> runs s (enqueue id m b) (fun _ s' => out_only id s s').
Proof.
  intros Hb. apply safe_state. destruct (objects s !! id) as [o|] eqn:Ho; [|apply safe_ret, out_only_refl]. destruct (fits _ _ _ _) eqn:Hf; [|apply safe_ret, out_only_refl].
  apply (safe_set _ o); try done.
  - intros Hok. apply with_out_ok; [|done]. apply push_queue; [by apply so_queue in Hok|done|done].
  - eapply safe_bind with (mid := fun _ s' => out_only id s s').
    + destruct (active o); [|apply safe_ret; by apply out_only_set]. eapply safe_post, write_safe. intros ? s' H. eapply out_only_trans, H. by apply out_only_set.
    + intros _ s' _ _ _ H. by apply safe_ret.
Qed.

Lemma enqueue_or_close_safe id m (b : bool) s : (b = true -> is_handshake m) -> runs s (enqueue_or_close env id m b) (fun _ _ => True).
Proof.
  intros Hb. eapply safe_bind; [by apply enqueue_safe|]. intros [] s' _ _ _ _; [by apply safe_ret|by eapply safe_post, close_session_safe].
Qed.

(** ** The handshake *)

Lemma with_auth_ok s id o a : auth_ok HMAC h (token s) id (with_auth o a) -> ok_session s id o -> ok_session s id (with_auth o a).
Proof. intros Ha [H1 H2 H3 H4 H5]. by constructor. Qed.

Lemma with_active_ok s id o name : ok_session s id o -> ok_session s id (with_active o name).
Proof. intros [H1 H2 H3 H4 H5]. by constructor. Qed.

(** The session may read a frame. *)
Definition may_read (o : Session) : Prop :=
  receive_reserved o = 0 /\ (authenticated (auth o) = false -> phase (auth o) = client_proof -> server_nonce (auth o) ∈ draws h).

Lemma read_header_safe id s : (forall o, objects s !! id = Some o -> may_read o) -> runs s (read_header id) (fun _ _ => True).
Proof.
  intros Hm. apply safe_state. destruct (objects s !! id) as [o|] eqn:Ho; [|by apply safe_ret]. destruct (Hm o eq_refl) as [Hr Hn]. apply (safe_set_end _ o); try done; [|by left].
  intros [H1 H2 H3 H4 H5]. constructor; try done. unfold auth_ok in *. cbn. destruct (authenticated (auth o)); [naive_solver|].
  destruct (phase (auth o)); try done. intros _. by apply Hn.
Qed.

Lemma out_only_lookup id s s' o o' : out_only id s s' -> objects s !! id = Some o -> objects s' !! id = Some o' -> exists q, o' = with_out o q.
Proof. intros H Ho Ho'. destruct (H o Ho) as [q Hq]. exists q. congruence. Qed.

(** Flush the queue, then read. *)
Lemma write_read_safe id s o : objects s !! id = Some o -> may_read o -> runs s (write id;; read_header id) (fun _ _ => True).
Proof.
  intros Ho Hm. eapply safe_bind; [apply write_safe|]. intros [] s' _ _ _ Hs'. apply read_header_safe. intros o' Ho'.
  by destruct (out_only_lookup _ _ _ _ _ Hs' Ho Ho') as [q ->].
Qed.

Section Handshake.
Hypothesis random_drawn : forall n, e_random env = Some n -> n ∈ draws h.

Lemma ready_safe id s : (forall o, objects s !! id = Some o -> reading o = no_read /\ authenticated (auth o) = false) -> runs s (ready env id) (fun _ _ => True).
Proof.
  intros Hr. apply safe_state. destruct (objects s !! id) as [o|] eqn:Ho; [|by apply safe_ret]. destruct (Hr o eq_refl) as [Hno Hau].
  apply safe_inv. intros Hi. pose proof (so_reserved _ _ _ _ _ (ni_objects _ _ _ _ Hi _ _ Ho)) as Hres. rewrite Hno in Hres. specialize (Hres ltac:(done)).
  destruct (closed o) eqn:Hc; [by apply safe_ret|]. destruct (if tls s then _ else _) as [name|]; [|by eapply safe_post, close_session_safe]. cbv zeta.
  apply (safe_set _ o); try done; [apply with_active_ok|]. set (s1 := with_objects _ _).
  assert (Ho1 : objects s1 !! id = Some (with_active o name)) by (cbn; by rewrite lookup_insert_eq).
  assert (Hplain : phase (auth o) <> client_proof -> runs s1 (write id;; read_header id) (fun _ _ => True)).
  { intros Hp. apply (write_read_safe _ _ _ Ho1). split; [done|]. cbn. by intros _ E. }
  change (phase (auth (with_active o name))) with (phase (auth o)). destruct (phase (auth o)) eqn:Hp; [by apply Hplain| |by apply Hplain|by apply Hplain].
  destruct (e_random env) as [nonce|] eqn:Hn; [|by eapply safe_post, close_session_safe]. pose proof (random_drawn nonce eq_refl) as Hd.
  apply (safe_set _ (with_active o name)); try done.
  - apply with_auth_ok. unfold auth_ok. cbn. by rewrite Hau.
  - set (o2 := with_auth _ _). set (s2 := with_objects s1 _). assert (Ho2 : objects s2 !! id = Some o2) by (cbn; by rewrite lookup_insert_eq).
    eapply safe_bind; [apply enqueue_safe; by eexists|]. intros [] s3 _ _ _ H3; [|by eapply safe_post, close_session_safe].
    destruct (H3 _ Ho2) as [q Hq]. apply (write_read_safe _ _ _ Hq). split; cbn; done.
Qed.

Lemma start_safe id server s : (forall o, objects s !! id = Some o -> reading o = no_read /\ authenticated (auth o) = false) -> runs s (start env id server) (fun _ _ => True).
Proof.
  intros Hr. apply safe_state. destruct (objects s !! id) as [o|] eqn:Ho; [|by apply safe_ret]. destruct (Hr o eq_refl) as [Hno Hau]. cbv zeta.
  apply (safe_set _ o); try done.
  - apply with_auth_ok. unfold auth_ok. cbn. rewrite Hau. destruct server; [|done]. rewrite Hno. by intros [?|?].
  - set (o1 := with_phase _ _). set (s1 := with_objects _ _). assert (Ho1 : objects s1 !! id = Some o1) by (cbn; by rewrite lookup_insert_eq).
    destruct (negb (e_option env)); [by eapply safe_post, close_session_safe|]. change (tls s1) with (tls s). destruct (tls s).
    + apply (safe_set_end _ o1); try done; [|intros [E|E]; cbn in E; congruence]. intros [H1 H2 H3 H4 H5]. constructor; try done.
      * cbn. intros _. apply H4. cbn. by rewrite Hno.
      * unfold auth_ok in *. cbn in *. rewrite Hau in *. destruct server; [|done]. by intros [?|?].
    + apply ready_safe. intros x Hx. rewrite Ho1 in Hx. by injection Hx as <-.
Qed.

(** The end of an operation in flight. *)
Lemma idle_ok s id o : reading o <> reading_body -> ok_session s id o -> ok_session s id (with_reading o no_read (receive_reserved o)).
Proof.
  intros Hr [H1 H2 H3 H4 H5]. constructor; try done; [intros _; by apply H4|]. unfold auth_ok in *. cbn. destruct (authenticated (auth o)); [naive_solver|]. destruct (phase (auth o)); try done. by intros [?|?].
Qed.

Lemma handshaken_safe id error s : (forall o, objects s !! id = Some o -> reading o = handshaking /\ authenticated (auth o) = false) -> runs s (handshaken env id error) (fun _ _ => True).
Proof.
  intros Hr. apply safe_state. destruct (objects s !! id) as [o|] eqn:Ho; [|by apply safe_ret]. destruct (Hr o eq_refl) as [Hno Hau].
  apply (safe_set _ o); try done; [apply idle_ok; by rewrite Hno|intros [E|E]; congruence|]. destruct error; [by eapply safe_post, close_session_safe|].
  apply ready_safe. intros x. cbn. rewrite lookup_insert_eq. by intros [= <-].
Qed.

Lemma connect_done_safe id error s : (forall o, objects s !! id = Some o -> reading o = connecting_socket /\ authenticated (auth o) = false) -> runs s (connect_done env id error) (fun _ _ => True).
Proof.
  intros Hr. apply safe_state. destruct (objects s !! id) as [o|] eqn:Ho; [|by apply safe_ret]. destruct (Hr o eq_refl) as [Hno Hau].
  apply (safe_set _ o); try done; [apply idle_ok; by rewrite Hno|intros [E|E]; congruence|]. destruct (closed o); [by apply safe_ret|]. destruct error; [by eapply safe_post, close_session_safe|].
  apply start_safe. intros x. cbn. rewrite lookup_insert_eq. by intros [= <-].
Qed.

Lemma tagged (data : bytes) t n : size data = n -> 0 < n -> take 1 data = [t] -> data = t :: drop 1 data.
Proof. destruct data as [|x r]; [intros <- H; by cbn in H|]. intros _ _ E. injection E as <-. by destruct r. Qed.

Lemma receive_handshake_safe id body o f s : objects s !! id = Some o -> authenticated (auth o) = false -> reading o = reading_body -> (id, body) ∈ heard h -> parse_frame body = Some f ->
  runs s (receive_handshake HMAC env id o f) (fun _ _ => True).
Proof.
  intros Ho Hau Hr Hh Hf. unfold receive_handshake. apply safe_state. cbv zeta.
  assert (Hclose : forall s', runs s' (close_session env id) (fun _ _ => True)) by (intros; by eapply safe_post, close_session_safe).
  destruct (_ || _) eqn:Hk; [apply Hclose|]. do 3 apply orb_false_iff in Hk as [Hk _]. apply negb_false_iff, N.eqb_eq in Hk.
  apply safe_inv. intros Hi. pose proof (so_auth _ _ _ _ _ (ni_objects _ _ _ _ Hi _ _ Ho)) as Ha. unfold auth_ok in Ha. rewrite Hau in Ha.
  destruct (phase (auth o)) eqn:Hp.
  - destruct (_ || _); [apply Hclose|]. destruct (e_random env) as [cn|]; [|apply Hclose]. destruct (authentication_proof _ _ _ _ _); [|apply Hclose].
    apply (safe_set _ o); try done.
    + apply with_auth_ok. unfold auth_ok. cbn. rewrite Hau. by apply random_drawn.
    + apply enqueue_or_close_safe. by eexists.
  - destruct (_ || _) eqn:Hd; [apply Hclose|]. apply orb_false_iff in Hd as [Hs%negb_false_iff%N.eqb_eq Ht%negb_false_iff%bytes_eqb_eq].
    specialize (Ha (or_intror Hr)). set (cn := take 32 _). set (a := MkAuth _ _ _ cn). apply (safe_set _ o); try done.
    { apply with_auth_ok. unfold auth_ok. cbn. by rewrite Hau. }
    set (o1 := with_auth o a). set (s1 := with_objects _ _). assert (Ho1 : objects s1 !! id = Some o1) by (cbn; by rewrite lookup_insert_eq).
    destruct (authentication_proof HMAC (token s) false _ _) as [expected|] eqn:E1; [|apply Hclose].
    destruct (authentication_proof HMAC (token s) true _ _) as [pr|] eqn:E2; [|apply Hclose].
    destruct (bytes_eqb expected (drop 33 (fdata f))) eqn:Heq; cbn [negb]; [|apply Hclose]. apply bytes_eqb_eq in Heq.
    eapply safe_bind; [apply enqueue_safe; by eexists|]. intros [] s2 Htok _ _ H2; cbn [negb]; [|apply Hclose].
    apply safe_state. destruct (H2 _ Ho1) as [q Hq]. rewrite Hq. apply (safe_set _ (with_out o1 q)); try done; [|by eapply safe_post, write_safe].
    apply with_auth_ok. unfold auth_ok. cbn. rewrite Hr. split_and!; try done. exists body, f. split_and!; try done. left. exists expected. cbn. split_and!; [|by rewrite Htok|done].
    rewrite (tagged _ _ _ Hs eq_refl Ht). f_equal. rewrite Heq. unfold cn. rewrite <- (take_drop 32 (drop 1 (fdata f))) at 1. by rewrite drop_drop.
  - destruct (_ || _) eqn:Hd; [apply Hclose|]. apply orb_false_iff in Hd as [Hs%negb_false_iff%N.eqb_eq Ht%negb_false_iff%bytes_eqb_eq].
    destruct (authentication_proof _ _ _ _ _) as [expected|] eqn:E1; [|apply Hclose]. destruct (bytes_eqb expected _) eqn:Heq; cbn [negb]; [|apply Hclose]. apply bytes_eqb_eq in Heq.
    apply (safe_set _ o); try done; [|by eapply safe_post, write_safe].
    apply with_auth_ok. unfold auth_ok. cbn. rewrite Hr. split_and!; try done. exists body, f. split_and!; try done. right. exists expected. cbn. split_and!; [|done|done].
    rewrite Heq. by apply (tagged _ _ _ Hs).
  - done.
Qed.
End Handshake.

(** ** Requests *)

Lemma requests_inv s serial m : (forall x o, objects s !! x = Some o -> closed o = false -> msum (of_session x) m = msum (of_session x) (requests s)) ->
  (forall r x, m !! r = Some x -> r <= serial /\ x.1 <= peer_serial s /\ accepting s <> Some x.1) -> inv s -> inv (with_requests s serial m) /\ trans s (with_requests s serial m) [].
Proof.
  intros Hm Hr [H1 H2 H3 H4 H5 H6 H7 H8 H9]. split; [|constructor; try done; by apply keeps_same]. constructor; try done.
  intros id o Ho. eapply session_frame; [..|by apply H2]; try done. intros Hc. by eapply Hm.
Qed.

(** The requests of one session change, and its count with them. *)
Lemma count_inv s serial m id o n : objects s !! id = Some o -> (forall x, x <> id -> msum (of_session x) m = msum (of_session x) (requests s)) ->
  (closed o = false -> n = msum (of_session id) m /\ n <= inflight_requests (limits s)) -> (forall r x, m !! r = Some x -> r <= serial /\ x.1 <= peer_serial s /\ accepting s <> Some x.1) -> inv s ->
  let s' := with_requests (with_objects s (<[id := with_inflight o n]> (objects s))) serial m in inv s' /\ trans s s' [].
Proof.
  intros Ho Hm Hn Hr Hi. pose proof Hi as [H1 H2 H3 H4 H5 H6 H7 H8 H9]. split.
  - constructor; try done; cbn.
    + intros x. rewrite H1. destruct (decide (x = id)) as [->|Hne]; [rewrite lookup_insert_eq, Ho|by rewrite lookup_insert_ne].
      split; intros (y & [= <-] & Hy); by eexists.
    + intros x y [[<- <-]|[Hne Hx]]%lookup_insert_Some.
      * destruct (H2 _ _ Ho) as [A1 A2 A3 A4 A5]. by constructor.
      * eapply session_frame; [..|by apply H2]; try done. intros _. cbn. by apply Hm.
    + intros x Hx. destruct (H3 x Hx) as [? Hy]. split; [done|]. rewrite lookup_insert_ne; [done|]. by intros ->; congruence.
    + rewrite H4. pose proof (msum_replace (f := receive_reserved) _ _ _ (with_inflight o n) Ho) as E. cbn in E. lia.
  - constructor; try done; intros x; [intros y Hy Hay|intros (y & Hy & Hay)].
    all: destruct (decide (x = id)) as [->|Hne]; [eexists; cbn; rewrite lookup_insert_eq; naive_solver|exists y; cbn; by rewrite lookup_insert_ne].
Qed.

Lemma reply_request_safe request r s : runs s (reply_request env request r) (fun _ _ => True).
Proof.
  apply safe_state. destruct (requests s !! request) as [[id cl]|] eqn:Hq; [|by apply safe_ret]. apply safe_inv. intros Hi.
  pose proof (fun x => msum_delete (f := of_session x) _ _ _ Hq) as Hd.
  assert (Hother : forall x, x <> id -> msum (of_session x) (delete request (requests s)) = msum (of_session x) (requests s)).
  { intros x Hx. rewrite (Hd x). unfold of_session at 2. cbn. rewrite (proj2 (N.eqb_neq id x)) by congruence. lia. }
  assert (Hser : forall n x, delete request (requests s) !! n = Some x -> n <= request_serial s /\ x.1 <= peer_serial s /\ accepting s <> Some x.1).
  { intros n x [_ Hx]%lookup_delete_Some. by eapply (ni_requests _ _ _ _ Hi). }
  assert (Hdrop : (forall o, objects s !! id = Some o -> closed o = true) -> runs s (modify (fun s => with_requests s (request_serial s) (delete request (requests s)));; done) (fun _ _ => True)).
  { intros Hc. apply safe_modify; [|by apply safe_ret]. apply requests_inv; [|done]. intros x o Ho Hx. apply Hother. intros ->. by rewrite (Hc o Ho) in Hx. }
  destruct (objects s !! id) as [o|] eqn:Ho; [|by apply Hdrop]. destruct (closed o) eqn:Hc; [apply Hdrop; by intros ? [= <-]|].
  cbv zeta. apply safe_modify_seq, safe_modify; [|by apply enqueue_or_close_safe]. intros _.
  apply (count_inv s (request_serial s) (delete request (requests s)) id o (inflight o - 1)); try done. intros _.
  destruct (so_inflight _ _ _ _ _ (ni_objects _ _ _ _ Hi _ _ Ho) Hc) as [E L]. specialize (Hd id). unfold of_session at 2 in Hd. cbn in Hd. rewrite N.eqb_refl in Hd. lia.
Qed.

Lemma dispatch_safe id o f route who s : objects s !! id = Some o -> closed o = false -> authenticated (auth o) = true -> inflight o < inflight_requests (limits s) ->
  runs s (dispatch env id o f route who) (fun _ _ => True).
Proof.
  intros Ho Hc Hau Hl. apply safe_state. cbv zeta. apply safe_inv. intros Hi. apply safe_modify_seq, safe_modify.
  - intros _. assert (Hn : requests s !! (request_serial s + 1) = None).
    { destruct (requests s !! (request_serial s + 1)) eqn:E; [|done]. apply (ni_requests _ _ _ _ Hi) in E. lia. }
    pose proof (fun x => msum_insert (f := of_session x) _ _ (id, fcall f) Hn) as Hm.
    apply (count_inv s (request_serial s + 1) (<[request_serial s + 1 := (id, fcall f)]> (requests s)) id o (inflight o + 1)); try done.
    + intros x Hx. rewrite (Hm x). unfold of_session at 1. cbn. rewrite (proj2 (N.eqb_neq id x)) by congruence. lia.
    + intros _. destruct (so_inflight _ _ _ _ _ (ni_objects _ _ _ _ Hi _ _ Ho) Hc) as [E L]. rewrite (Hm id). unfold of_session at 1. cbn. rewrite N.eqb_refl. lia.
    + intros r x [[<- <-]|[_ Hx]]%lookup_insert_Some; [|apply (ni_requests _ _ _ _ Hi) in Hx; split; [lia|apply Hx]].
      split; [lia|]. split; [apply (so_serial _ _ _ _ _ (ni_objects _ _ _ _ Hi _ _ Ho))|]. intros Ha. apply (ni_accepting _ _ _ _ Hi) in Ha as [_ Ha]. cbn in Ha. congruence.
  - destruct (handler route); [apply reply_request_safe|]. apply safe_emit; [|done|].
    + eexists. cbn. rewrite lookup_insert_eq. done.
    + destruct (e_handler env); [apply reply_request_safe|by apply safe_ret].
Qed.

Lemma refuse_safe id cl st s : runs s (refuse env id cl st) (fun _ _ => True).
Proof. by apply enqueue_or_close_safe. Qed.

Lemma receive_request_safe id o f s : objects s !! id = Some o -> closed o = false -> authenticated (auth o) = true -> runs s (receive_request env id o f) (fun _ _ => True).
Proof.
  intros Ho Hc Hau. apply safe_state. destruct (N.leb_spec (inflight_requests (limits s)) (inflight o)) as [|Hl]; [apply refuse_safe|]. destruct (_ && _); [apply refuse_safe|].
  destruct (handlers s !! froute f); [|apply refuse_safe]. destruct (principal env id s) as [[who|]|]; try apply refuse_safe. destruct (_ || _); [apply refuse_safe|by apply dispatch_safe].
Qed.

Lemma receive_notification_safe id o f s : objects s !! id = Some o -> authenticated (auth o) = true -> runs s (receive_notification env id o f) (fun _ _ => True).
Proof.
  intros Ho Hau. assert (Hclose : forall s', runs s' (close_session env id) (fun _ _ => True)) by (intros; by eapply safe_post, close_session_safe).
  apply safe_state. destruct (_ || _); [apply Hclose|]. destruct (_ && _); [apply Hclose|]. destruct (notifications s !! _); [|by apply safe_ret].
  apply safe_emit; [by eexists|done|]. destruct (e_handler env); [apply Hclose|by apply safe_ret].
Qed.

(** ** Reading *)

Section Reading.
Hypothesis random_drawn : forall n, e_random env = Some n -> n ∈ draws h.

Lemma receive_safe id body o s : objects s !! id = Some o -> closed o = false -> reading o = reading_body -> (id, body) ∈ heard h ->
  runs s (receive HMAC env id body) (fun _ _ => True).
Proof.
  intros Ho Hc Hr Hh. assert (Hclose : forall s', runs s' (close_session env id) (fun _ _ => True)) by (intros; by eapply safe_post, close_session_safe).
  apply safe_state. rewrite Ho. destruct (parse_frame body) as [f|] eqn:Hf; [|apply Hclose]. destruct (authenticated (auth o)) eqn:Hau; cbn [negb].
  - destruct (_ && _).
    + destruct (calls s !! _) as [p|]; [|by apply safe_ret]. destruct (_ =? _); [by eapply safe_post, finish_safe|by apply safe_ret].
    + destruct (fkind f =? 3); [by apply receive_notification_safe|]. destruct (_ || _); [apply Hclose|by apply receive_request_safe].
  - by eapply receive_handshake_safe.
Qed.

(** The reservation of a session changes with the total. *)
Lemma reserve_inv id o n s : objects s !! id = Some o -> receive_bytes s - receive_reserved o + n <= receive_limit (limits s) -> is_reading o -> forall r, (r <> reading_body -> n = 0) ->
  (r = reading_header \/ r = reading_body) -> inv s ->
  let s' := with_received (with_objects s (<[id := with_reading o r n]> (objects s))) (receive_bytes s - receive_reserved o + n) in inv s' /\ trans s s' [].
Proof.
  intros Ho Hl Hrd r Hr Hr' [H1 H2 H3 H4 H5 H6 H7 H8 H9]. split.
  - constructor; try done; cbn.
    + intros x. rewrite H1. destruct (decide (x = id)) as [->|Hne]; [rewrite lookup_insert_eq, Ho|by rewrite lookup_insert_ne].
      split; intros (y & [= <-] & Hy); by eexists.
    + intros x y [[<- <-]|[Hne Hx]]%lookup_insert_Some.
      * destruct (H2 _ _ Ho) as [A1 A2 A3 A4 A5]. constructor; try done. unfold auth_ok in *. cbn. destruct (authenticated (auth o)); [naive_solver|].
        destruct (phase (auth o)); try done. intros _. by apply A5.
      * by eapply session_frame; [..|by apply H2].
    + intros x Hx. destruct (H3 x Hx) as [? Hy]. split; [done|]. rewrite lookup_insert_ne; [done|]. by intros ->; congruence.
    + pose proof (msum_replace (f := receive_reserved) _ _ _ (with_reading o r n) Ho) as E. cbn in E. pose proof (msum_lookup (f := receive_reserved) _ _ _ Ho). lia.
  - constructor; try done; intros x; [intros y Hy Hay|intros (y & Hy & Hay)].
    all: destruct (decide (x = id)) as [->|Hne]; [eexists; cbn; rewrite lookup_insert_eq; naive_solver|exists y; cbn; by rewrite lookup_insert_ne].
Qed.

Lemma release_body_safe id s : (forall o, objects s !! id = Some o -> is_reading o) ->
  runs s (release_body id) (fun _ s' => forall o, objects s' !! id = Some o -> receive_reserved o = 0 /\ exists o', objects s !! id = Some o' /\ auth o = auth o' /\ reading o = reading o').
Proof.
  intros Hrd. apply safe_state. destruct (objects s !! id) as [o|] eqn:Ho; [|apply safe_ret; intros; congruence]. specialize (Hrd o eq_refl).
  intros Hi. assert (L : receive_bytes s - receive_reserved o + 0 <= receive_limit (limits s)) by (pose proof (ni_receive_limit _ _ _ _ Hi); lia).
  destruct (reserve_inv id o 0 s Ho L Hrd (reading o) ltac:(done) Hrd Hi) as [I1 T1]. rewrite N.add_0_r in I1, T1. split; [exact I1|]. split; [exact T1|].
  cbn. intros x. rewrite lookup_insert_eq. intros [= <-]. split; [done|]. by exists o.
Qed.

Lemma header_read_safe id header error s : (forall o, objects s !! id = Some o -> reading o = reading_header) -> runs s (header_read env id header error) (fun _ _ => True).
Proof.
  intros Hr. apply safe_state. destruct (objects s !! id) as [o|] eqn:Ho; [|by apply safe_ret]. specialize (Hr o eq_refl). destruct (closed o) eqn:Hc; [by apply safe_ret|]. cbv zeta.
  set (n := fold_left _ _ _). destruct (_ || _) eqn:Hb; [by eapply safe_post, close_session_safe|]. apply orb_false_iff in Hb as [_ Hb%N.ltb_ge].
  intros Hi. pose proof (so_reserved _ _ _ _ _ (ni_objects _ _ _ _ Hi _ _ Ho)) as Hres. rewrite Hr in Hres. specialize (Hres ltac:(done)).
  assert (L : receive_bytes s - receive_reserved o + n <= receive_limit (limits s)) by (pose proof (ni_receive_limit _ _ _ _ Hi); lia).
  destruct (reserve_inv id o n s Ho L (or_introl Hr) reading_body ltac:(done) ltac:(by right) Hi) as [I1 T1]. rewrite Hres, N.sub_0_r in I1, T1. by split.
Qed.

Lemma body_read_safe id body error s : (forall o, objects s !! id = Some o -> reading o = reading_body) -> (id, body) ∈ heard h ->
  runs s (body_read HMAC env id body error) (fun _ _ => True).
Proof.
  intros Hr Hh. apply safe_state. destruct (objects s !! id) as [o|] eqn:Ho; [|by apply safe_ret]. specialize (Hr o eq_refl). destruct (_ || _) eqn:Hb.
  - eapply safe_bind; [apply release_body_safe; intros ? ?; right; congruence|]. intros [] s1 _ _ _ _. by eapply safe_post, close_session_safe.
  - apply orb_false_iff in Hb as [Hc _]. eapply safe_bind; [by eapply receive_safe|]. intros [] s1 _ _ K1 _. destruct (K1 id o Ho (or_intror Hr)) as (o1 & Ho1 & Hr1).
    eapply safe_bind; [apply release_body_safe; intros ? ?; congruence|]. intros [] s2 _ _ K2 H2. apply safe_state.
    destruct (objects s2 !! id) as [o2|] eqn:Ho2; [|by apply safe_ret]. destruct (closed o2); [by apply safe_ret|]. destruct (H2 o2 eq_refl) as (Hz & x & _ & _ & Hx).
    apply safe_inv. intros Hi. apply read_header_safe. intros y Hy. replace y with o2 by congruence. split; [done|]. intros Hau Hp.
    destruct (K2 id o1 Ho1 Hr1) as (o2' & Ho2' & Hr2). replace o2' with o2 in Hr2 by congruence.
    pose proof (so_auth _ _ _ _ _ (ni_objects _ _ _ _ Hi _ _ Ho2)) as Ha. unfold auth_ok in Ha. rewrite Hau, Hp in Ha. by apply Ha.
Qed.

(** ** Connections *)

Lemma serial_inv s n a : peer_serial s <= n -> (forall id, a = Some id -> id <= n /\ objects s !! id = None /\ forall r x, requests s !! r = Some x -> x.1 <> id) -> inv s -> inv (with_serial s n a) /\ trans s (with_serial s n a) [].
Proof.
  intros Hn Ha [H1 H2 H3 H4 H5 H6 H7 H8 H9]. split; [|constructor; try done; by apply keeps_same]. constructor; try done.
  - intros id o Ho. by eapply session_frame; [..|by apply H2].
  - intros id Hid. destruct (Ha id Hid) as (? & ? & _). done.
  - intros r x Hx. destruct (H9 r x Hx) as (? & ? & _). cbn. split_and!; [done|lia|]. intros E. destruct (Ha _ E) as (_ & _ & Hne). by apply (Hne r x).
Qed.

Lemma no_requests (m : gmap N (N * N)) id : (forall r x, m !! r = Some x -> x.1 <> id) -> msum (of_session id) m = 0.
Proof.
  induction m as [|r x m Hr IH] using map_ind; intros Hm; [apply msum_empty|]. rewrite (msum_insert (f := of_session id)) by done.
  rewrite IH; [|intros r' x' Hx'; apply (Hm r'); rewrite lookup_insert_ne by (intros ->; congruence); done].
  unfold of_session. rewrite (proj2 (N.eqb_neq _ _)); [done|]. apply (Hm r). apply lookup_insert_eq.
Qed.

Lemma new_session_ok s id c r : id <= peer_serial s -> msum (of_session id) (requests s) = 0 -> ok_session s id (new_session c r).
Proof.
  intros Hid Hz. constructor; try done; cbn.
  - split_and!; cbn; [done|lia|by constructor|done].
  - intros _. rewrite Hz. split; [done|lia].
Qed.

(** A session that opens, in a free slot. *)
Lemma open_inv s id c r : id <= peer_serial s -> objects s !! id = None -> accepting s <> Some id -> (forall n x, requests s !! n = Some x -> x.1 <> id) ->
  N.of_nat (base.size (sessions s)) < connections (limits s) -> stopped s = false -> inv s ->
  let s' := with_objects (with_sessions s ({[id]} ∪ sessions s)) (<[id := new_session c r]> (objects s)) in inv s' /\ trans s s' [].
Proof.
  intros Hid Ho Ha Hn Hs Hst [H1 H2 H3 H4 H5 H6 H7 H8 H9]. split.
  - constructor; try done; cbn.
    + intros x. rewrite elem_of_union, elem_of_singleton, H1. destruct (decide (x = id)) as [->|Hne]; [rewrite lookup_insert_eq|rewrite lookup_insert_ne by done]; [|naive_solver].
      split; [intros _; by eexists|by left].
    + intros x y [[<- <-]|[Hne Hx]]%lookup_insert_Some; [apply new_session_ok; [done|by apply no_requests]|]. by eapply session_frame; [..|by apply H2].
    + intros x Hx. destruct (H3 x Hx) as [? Hy]. split; [done|]. rewrite lookup_insert_ne; [done|]. intros ->. congruence.
    + by rewrite (msum_insert (f := receive_reserved)) by done.
    + intros n p Hp. destruct (H6 n p Hp) as [[?|?] ?]; [split; [left; set_solver|done]|by auto].
    + rewrite size_union_alt, size_singleton. assert (base.size (sessions s ∖ {[id]}) <= base.size (sessions s))%nat; [|lia]. apply subseteq_size. set_solver.
  - constructor; try done; [|congruence|]; intros x; [intros y Hy Hr|intros (y & Hy & Hay)]; exists y; cbn; rewrite lookup_insert_ne; try done; congruence.
Qed.

Lemma accept_safe s : runs s accept (fun _ _ => True).
Proof.
  apply safe_state. destruct (stopped s); [by apply safe_ret|]. apply safe_modify_end. intros Hi. split_and!; [..|done]; apply serial_inv; try done; try lia.
  all: intros id [= <-]; split_and!; [lia| |intros r x Hx; apply (ni_requests _ _ _ _ Hi) in Hx; lia].
  all: destruct (objects s !! (peer_serial s + 1)) eqn:E; [|done]; apply (ni_objects _ _ _ _ Hi), so_serial in E; lia.
Qed.

Lemma accepted_safe error c s : runs s (accepted env error c) (fun _ _ => True).
Proof.
  apply safe_state. destruct (accepting s) as [id|] eqn:Ha; [|by apply safe_ret]. apply safe_inv. intros Hi. apply safe_modify; [intros _; by apply serial_inv|].
  destruct (stopped s) eqn:Hst; [by apply safe_ret|]. eapply safe_bind with (mid := fun _ _ => True); [|intros [] s1 _ _ _ _; apply accept_safe].
  destruct (_ && _) eqn:Hb; [|by apply safe_ret]. apply andb_true_iff in Hb as [_ Hb%N.ltb_lt]. destruct (ni_accepting _ _ _ _ Hi _ Ha) as [Hid Ho].
  apply safe_modify_seq, safe_modify.
  - intros Hi'. apply (open_inv (with_serial s (peer_serial s) None) id c no_read); try done. intros n x Hx E. apply (ni_requests _ _ _ _ Hi) in Hx as (_ & _ & Hx). congruence.
  - apply start_safe; [done|]. intros o. cbn. rewrite lookup_insert_eq. by intros [= <-].
Qed.

Lemma listen_safe address opened bound s : runs s (listen address opened bound) (fun _ _ => True).
Proof.
  apply safe_state. destruct (_ || _); [by apply safe_ret|]. destruct address; [|by apply safe_ret]. destruct (_ && _); [by apply safe_ret|]. destruct (negb opened); [by apply safe_ret|].
  apply safe_modify.
  - intros [H1 H2 H3 H4 H5 H6 H7 H8 H9]. split; [|constructor; try done; by apply keeps_same]. constructor; try done. intros id o Ho. by eapply session_frame; [..|by apply H2].
  - destruct bound; [|by apply safe_ret]. eapply safe_bind; [apply accept_safe|]. intros [] s' _ _ _ _. by apply safe_ret.
Qed.

Lemma connect_safe text address name configured name_ok c s : runs s (connect text address name configured name_ok c) (fun _ _ => True).
Proof.
  apply safe_state. destruct (_ || _) eqn:Hb; [by apply safe_ret|]. apply orb_false_iff in Hb as [Hst Hn%N.leb_gt]. destruct address; [|by apply safe_ret].
  destruct (_ && _); [by apply safe_ret|]. cbv zeta. apply safe_inv. intros Hi. assert (Hnone : objects s !! (peer_serial s + 1) = None).
  { destruct (objects s !! (peer_serial s + 1)) eqn:E; [|done]. apply (ni_objects _ _ _ _ Hi), so_serial in E. lia. }
  apply safe_modify.
  - intros _. apply serial_inv; [lia| |done]. intros id Ha. destruct (ni_accepting _ _ _ _ Hi _ Ha) as [Hid Ho]. split_and!; [lia|done|].
    intros r x Hx E. apply (ni_requests _ _ _ _ Hi) in Hx as (_ & _ & Hx). congruence.
  - destruct (if tls s then _ else _); [|by apply safe_ret]. apply safe_modify_seq, safe_modify; [|by apply safe_ret]. intros Hi'.
    apply (open_inv (with_serial s (peer_serial s + 1) (accepting s)) (peer_serial s + 1) c connecting_socket); try done.
    + cbn. intros Ha. apply (ni_accepting _ _ _ _ Hi) in Ha as [? _]. lia.
    + cbn. intros r x Hx. apply (ni_requests _ _ _ _ Hi) in Hx. lia.
Qed.
End Reading.

Lemma close_safe peer s : runs s (close env peer) (fun _ _ => True).
Proof. apply safe_state. destruct (bool_decide _); [by eapply safe_post, close_session_safe|by apply safe_ret]. Qed.

Lemma notify_safe peer channel data s : runs s (notify peer channel data) (fun _ _ => True).
Proof. apply safe_state. destruct (_ || _); [by apply safe_ret|]. destruct (_ || _); [by apply safe_ret|]. by eapply safe_post, enqueue_safe. Qed.

(** ** Calls *)

Lemma call_run peer route data timeout_ms reply s : inv s ->
  let '(_, s', outs) := call env peer route data timeout_ms reply s in inv s' /\ trans_with [reply] s s' outs.
Proof.
  intros Hi.
  assert (Hd : forall st, let '(_, s', outs) := deliver env reply (MkResult st []) s in inv s' /\ trans_with [reply] s s' outs).
  { intros st. destruct (deliver_run reply (MkResult st []) s) as (s' & -> & Hs'). assert (T : trans_with [reply] s s [completed reply (MkResult st [])]).
    { constructor; try done; [by apply keeps_same|by repeat constructor]. }
    destruct Hs' as [->| ->]; [done|]. split; [by apply failures_inv|]. destruct T. by constructor. }
  unfold call, state, mbind, act_bind. destruct (_ || _); [by specialize (Hd rejected); destruct (deliver _ _ _ s) as [[[] ?] ?]|].
  destruct (_ || _) eqn:Hp; [by specialize (Hd disconnected); destruct (deliver _ _ _ s) as [[[] ?] ?]|]. apply orb_false_iff in Hp as [_ Hp%negb_false_iff%bool_decide_eq_true].
  destruct (N.leb_spec (pending_calls (limits s)) (N.of_nat (base.size (calls s)))) as [|Hl]; [by specialize (Hd overloaded); destruct (deliver _ _ _ s) as [[[] ?] ?]|].
  destruct (call_serial s =? u64_max); [by specialize (Hd overloaded); destruct (deliver _ _ _ s) as [[[] ?] ?]|]. clear Hd.
  set (id := call_serial s + 1). unfold modify. set (s1 := with_calls s id _).
  assert (Hn : calls s !! id = None) by (destruct (calls s !! id) eqn:E; [|done]; apply (ni_calls _ _ _ _ Hi) in E; lia).
  assert (I1 : inv s1).
  { destruct Hi as [H1 H2 H3 H4 H5 H6 H7 H8 H9]. constructor; try done; cbn.
    - intros n o Ho. by eapply session_frame; [..|by apply H2].
    - intros n p [[<- <-]|[_ Hx]]%lookup_insert_Some; [split; [by left|lia]|]. destruct (H6 n p Hx). split; [done|lia].
    - rewrite map_size_insert_None by done. lia. }
  assert (T1 : trans_with [reply] s s1 []).
  { constructor; try done; [by apply keeps_same|]. cbn. by rewrite (mnames_insert (g := creply)) by done. }
  assert (S2 : runs s1 (enqueue peer (frame 1 ok id route data) false ≫= fun b => if (b : bool) then done else finish env id (MkResult overloaded [])) (fun _ _ => True)).
  { eapply safe_bind; [by apply enqueue_safe|]. intros [] s2 _ _ _ _; [by apply safe_ret|by eapply safe_post, finish_safe]. }
  specialize (S2 I1). unfold mbind, act_bind in S2. destruct (enqueue peer _ _ s1) as [[b s2] o2]. destruct ((if b then done else _) s2) as [[[] s3] o3].
  destruct S2 as (I3 & T3 & _). split; [done|]. exact (trans_after [reply] s s1 s3 [] (o2 ++ o3) T1 T3).
Qed.

(** ** Stopping *)

Lemma stopped_inv s : inv s -> inv (with_stopped s).
Proof. intros [H1 H2 H3 H4 H5 H6 H7 H8 H9]. constructor; try done. intros id o Ho. by eapply session_frame; [..|by apply H2]. Qed.

Lemma close_all ids : forall s, inv s -> let '(_, s', outs) := for_each (close_session env) ids s in
  inv s' /\ trans s s' outs /\ (stopped s = true -> forall id, id ∈ ids -> id ∉ sessions s').
Proof.
  induction ids as [|id ids IH]; intros s Hi; cbn [for_each]; [split_and!; [done|apply trans_refl|]; by intros _ id ?%elem_of_nil|].
  unfold mbind, act_bind. pose proof (close_session_safe id s Hi) as H1. destruct (close_session env id s) as [[[] s1] o1]. destruct H1 as (I1 & T1 & C1).
  specialize (IH s1 I1). destruct (for_each _ ids s1) as [[[] s2] o2]. destruct IH as (I2 & T2 & C2). split_and!; [done|by eapply trans_trans|].
  intros Hs x [->|Hx]%elem_of_cons.
  - intros Hin. apply (tr_sessions _ _ _ _ T2) in Hin; [|by rewrite (tr_stopped _ _ _ _ T1)]. apply (ni_table _ _ _ _ I1) in Hin as (o & Ho & Hc). specialize (C1 o Ho). congruence.
  - apply C2; [|done]. by rewrite (tr_stopped _ _ _ _ T1).
Qed.

Lemma stop_run s : inv s -> let '(_, s', outs) := stop env s in
  inv s' /\ stopped s' = true /\ (stopped s = false -> sessions s' = ∅) /\ limits s' = limits s /\ token s' = token s /\
  mnames creply (calls s) ≡ₚ delivered outs ++ mnames creply (calls s') /\ Forall (output_ok s') outs /\ (forall id, is_authenticated s id -> is_authenticated s' id) /\
  (stopped s = true -> sessions s' = sessions s).
Proof.
  intros Hi. unfold stop, mbind, act_bind, state. destruct (stopped s) eqn:Hs; [cbn; by rewrite Hs|]. unfold modify. pose proof (close_all (elements (sessions s)) _ (stopped_inv s Hi)) as H.
  destruct (for_each _ _ _) as [[[] s2] o2]. destruct H as (I2 & T2 & C2). cbn [app]. pose proof T2 as [T0 T1 T3 T4 T5 T6 T7 T8]. split_and!; try done. intros _. specialize (C2 eq_refl). apply set_eq. intros x. split; [|by intros ?%elem_of_empty].
  intros Hx. exfalso. apply (C2 x); [|done]. apply elem_of_elements. by apply (T6 eq_refl).
Qed.

Lemma routes_inv s a b : inv s -> inv (with_routes s a b).
Proof. intros [H1 H2 H3 H4 H5 H6 H7 H8 H9]. constructor; try done. intros id o Ho. by eapply session_frame; [..|by apply H2]. Qed.
Lemma hooks_inv s a b c : inv s -> inv (with_hooks s a b c).
Proof. intros [H1 H2 H3 H4 H5 H6 H7 H8 H9]. constructor; try done. intros id o Ho. by eapply session_frame; [..|by apply H2]. Qed.
End Operations.

(** ** Witness *)

Lemma frame_roundtrip_witness : exists header body, frame 1 ok 7 (lit "entity.call") (lit "data") = header ++ body /\ length header = 4%nat /\ fold_left shift_in header 0 = size body /\
  parse_frame body = Some (MkFrame 1 ok 7 (lit "entity.call") (lit "data")).
Proof. apply (frame_roundtrip 1 ok 7 (lit "entity.call") (lit "data")); vm_compute; done. Defined.
