(* ===== verification/NodeSystem.v ===== *)
(** * The node transport in operation

    Any sequence of events of a [Node]: calls of its interface and completions of the
    operations it started, in any order, with any data from its peers. *)

From stdpp Require Import gmap.
From S2P Require Import Prelude Storage MapSum Identity Values AttributeWire Messages Fields DeliveryState Schema Transport Node NodeCorrect.

Inductive event :=
  | ev_listen (address : result bool) (opened : bool) (bound : result N)
  | ev_accepted (error : bool) (c : ConnectionRef)
  | ev_connect (text : bytes) (address : result bool) (name configured : bytes) (name_ok : result unit) (c : ConnectionRef)
  | ev_connected (id : N) (error : bool)
  | ev_handshaken (id : N) (error : bool)
  | ev_header (id : N) (header : bytes) (error : bool)
  | ev_body (id : N) (body : bytes) (error : bool)
  | ev_written (id : N) (error : bool)
  | ev_idle (id : N)
  | ev_call (peer : N) (route data : bytes) (timeout_ms : Z) (reply : N)
  | ev_expired (id : N)
  | ev_reply (request : N) (r : Result)
  | ev_notify (peer : N) (channel data : bytes)
  | ev_close (peer : N)
  | ev_bind_rpc (route : bytes) (p : RpcPolicy) (handler : N)
  | ev_bind (route : bytes) (handler : N)
  | ev_policy (route : bytes) (p : RpcPolicy)
  | ev_unbind (route : bytes)
  | ev_on (channel : bytes) (handler : N)
  | ev_off (channel : bytes)
  | ev_hooks (authorizer resolver ready : bool)
  | ev_stop.

Definition or_same (f : Node -> result Node) (s : Node) : Node := match f s with Ok s' => s' | Throw _ => s end.
Definition ignore {A} (m : act A) : act unit := _ ← m; done.

Section System.
Context (HMAC : bytes -> bytes -> option bytes).

Definition perform (env : Env) (e : event) : act unit :=
  match e with
  | ev_listen address opened bound => ignore (listen address opened bound)
  | ev_accepted error c => accepted env error c
  | ev_connect text address name configured name_ok c => ignore (connect text address name configured name_ok c)
  | ev_connected id error => connect_done env id error
  | ev_handshaken id error => handshaken env id error
  | ev_header id header error => header_read env id header error
  | ev_body id body error => body_read HMAC env id body error
  | ev_written id error => write_done env id error
  | ev_idle id => idle_expired env id
  | ev_call peer route data timeout_ms reply => call env peer route data timeout_ms reply
  | ev_expired id => call_expired env id
  | ev_reply request r => reply_request env request r
  | ev_notify peer channel data => ignore (notify peer channel data)
  | ev_close peer => close env peer
  | ev_bind_rpc route p h => modify (or_same (bind_rpc route p h))
  | ev_bind route h => modify (or_same (bind_handler route (application h)))
  | ev_policy route p => modify (or_same (rpc_policy route p))
  | ev_unbind route => modify (fun s => (unbind route s).2)
  | ev_on channel h => modify (or_same (on_notification channel h))
  | ev_off channel => modify (off_notification channel)
  | ev_hooks a r b => modify (fun s => set_ready b (identify r (authorize a s)))
  | ev_stop => stop env
  end.

(** A completion needs its operation in flight; a read fills its buffer. *)
Definition possible (e : event) (s : Node) : Prop :=
  match e with
  | ev_connected id _ => forall o, objects s !! id = Some o -> reading o = connecting_socket
  | ev_handshaken id _ => forall o, objects s !! id = Some o -> reading o = handshaking
  | ev_header id header _ => length header = 4%nat /\ forall o, objects s !! id = Some o -> reading o = reading_header
  | ev_body id body _ => forall o, objects s !! id = Some o -> reading o = reading_body /\ size body = receive_reserved o
  | _ => True
  end.

(** The node, the replies given to [call] and those called, what was heard and drawn, and all
    that was started. *)
Record nsys := MkSys { node_of : Node; nasked : list N; ntold : list N; hist : History; log : list node_output }.

Definition asks (e : event) : list N := match e with ev_call _ _ _ _ reply => [reply] | _ => [] end.
Definition hears (e : event) : list (N * bytes) := match e with ev_body id body _ => [(id, body)] | _ => [] end.
Definition random_of (env : Env) : list bytes := match e_random env with Some n => [n] | None => [] end.
Definition witness_event (env : Env) (e : event) (h : History) : History := MkHistory (hears e ++ heard h) (random_of env ++ draws h).

Inductive node_step : nsys -> nsys -> Prop :=
  | node_event x env e s outs : possible e (node_of x) -> perform env e (node_of x) = (tt, s, outs) ->
      node_step x (MkSys s (asks e ++ nasked x) (ntold x ++ delivered outs) (witness_event env e (hist x)) (log x ++ outs)).

Definition node_start (token : bytes) (l : Limits) (config : TlsConfig) (setup : result unit) (x : nsys) : Prop :=
  exists s, node token l config setup = Ok s /\ x = MkSys s [] [] (MkHistory [] []) [].

(** ** The invariant *)

Definition sys_inv (x : nsys) : Prop :=
  node_inv HMAC (hist x) (node_of x) /\ nasked x ≡ₚ ntold x ++ mnames creply (calls (node_of x)) /\ (stopped (node_of x) = true -> sessions (node_of x) = ∅) /\
  Forall (output_ok (node_of x)) (log x).

Lemma history_mono h h' s : heard h ⊆ heard h' -> draws h ⊆ draws h' -> node_inv HMAC h s -> node_inv HMAC h' s.
Proof.
  intros Hh Hd [H1 H2 H3 H4 H5 H6 H7 H8 H9]. constructor; try done. intros id o Ho. destruct (H2 id o Ho) as [A1 A2 A3 A4 A5]. constructor; try done.
  unfold auth_ok, proof_heard in *. destruct (authenticated (auth o)); [|destruct (phase (auth o)); auto]. destruct A5 as (B1 & B2 & B3 & body & f & B4 & B5 & B6 & B7).
  split_and!; try done. exists body, f. split_and!; auto. destruct B7 as [(p & C1 & C2 & C3)|(p & C1 & C2 & C3)]; [left|right]; exists p; auto.
Qed.

Lemma unauthenticated h s id o r : node_inv HMAC h s -> objects s !! id = Some o -> reading o = r -> r = connecting_socket \/ r = handshaking -> authenticated (auth o) = false.
Proof.
  intros Hi Ho Hr Hc. pose proof (so_auth _ _ _ _ _ (ni_objects _ _ _ _ Hi _ _ Ho)) as Ha. unfold auth_ok in Ha. destruct (authenticated (auth o)); [|done].
  destruct Ha as (_ & A1 & A2 & _). destruct Hc as [->| ->]; congruence.
Qed.

(** What an event does, stated as the operations' lemmas do. *)
Definition event_ok (h : History) (e : event) (s s' : Node) (outs : list node_output) : Prop :=
  node_inv HMAC h s' /\ asks e ++ mnames creply (calls s) ≡ₚ delivered outs ++ mnames creply (calls s') /\
  ((stopped s = true -> sessions s = ∅) -> stopped s' = true -> sessions s' = ∅) /\ Forall (output_ok s') outs /\ (forall id, is_authenticated s id -> is_authenticated s' id).

Lemma trans_event h e s s' outs : node_inv HMAC h s' -> trans_with (asks e) s s' outs -> event_ok h e s s' outs.
Proof.
  intros Hi [T0 T1 T2 T3 T4 T5 T6 T7]. split_and!; try done. intros Hs Hst. rewrite T4 in Hst. specialize (Hs Hst). specialize (T5 Hst). set_solver.
Qed.

Lemma safe_event h e (m : act unit) s s' outs : safe HMAC h s m (fun _ _ => True) -> asks e = [] -> node_inv HMAC h s -> m s = (tt, s', outs) -> event_ok h e s s' outs.
Proof.
  intros Hm He Hi E. specialize (Hm Hi). rewrite E in Hm. destruct Hm as (I1 & T1 & _). apply trans_event; [done|]. by rewrite He.
Qed.

Lemma config_event h e f s s' outs : (f s = s \/ exists a b, f s = with_routes s a b) \/ (exists a b c, f s = with_hooks s a b c) -> asks e = [] -> node_inv HMAC h s ->
  modify f s = (tt, s', outs) -> event_ok h e s s' outs.
Proof.
  intros Hf He Hi [= <- <-]. apply trans_event.
  - destruct Hf as [[->|(a & b & ->)]|(a & b & c & ->)]; [done|by apply routes_inv|by apply hooks_inv].
  - rewrite He. destruct Hf as [[->|(a & b & ->)]|(a & b & c & ->)]; [apply trans_refl|..]; constructor; try done; by apply keeps_same.
Qed.

Lemma routes_or_same f s : (forall s', f s = Ok s' -> exists a b, s' = with_routes s a b) -> or_same f s = s \/ exists a b, or_same f s = with_routes s a b.
Proof. intros H. unfold or_same. destruct (f s) as [s'|]; [right; by apply H|by left]. Qed.

Lemma bind_route_routes r p hd s s' : bind_route r p hd s = Ok s' -> exists a b, s' = with_routes s a b.
Proof. unfold bind_route. destruct (bool_decide _); [done|]. intros [= <-]. by do 2 eexists. Qed.

Lemma ignore_safe {A} h s (m : act A) : safe HMAC h s m (fun _ _ => True) -> safe HMAC h s (ignore m) (fun _ _ => True).
Proof. intros Hm. eapply safe_bind; [done|]. intros a s' _ _ _ _. by apply safe_ret. Qed.

Lemma perform_ok h env e s s' outs : (forall n, e_random env = Some n -> n ∈ draws h) -> (forall id body error, e = ev_body id body error -> (id, body) ∈ heard h) ->
  possible e s -> node_inv HMAC h s -> perform env e s = (tt, s', outs) -> event_ok h e s s' outs.
Proof.
  intros Hr Hh Hp Hi E. destruct e; cbn [perform possible] in *;
    try (by eapply config_event; [|done|done|exact E]; left; apply routes_or_same; intros ?; eauto using bind_route_routes).
  - eapply safe_event; [|done|done|exact E]. apply ignore_safe, listen_safe.
  - eapply safe_event; [|done|done|exact E]. by apply accepted_safe.
  - eapply safe_event; [|done|done|exact E]. by apply ignore_safe, (connect_safe HMAC h env).
  - eapply safe_event; [|done|done|exact E]. apply connect_done_safe; [done|]. intros o Ho. split; [by apply Hp|]. eapply unauthenticated; [done|done|by apply Hp|by left].
  - eapply safe_event; [|done|done|exact E]. apply handshaken_safe; [done|]. intros o Ho. split; [by apply Hp|]. eapply unauthenticated; [done|done|by apply Hp|by right].
  - eapply safe_event; [|done|done|exact E]. apply header_read_safe; by destruct Hp.
  - eapply safe_event; [|done|done|exact E]. apply body_read_safe; [done| |by eapply Hh]. intros o Ho. by destruct (Hp o Ho).
  - eapply safe_event; [|done|done|exact E]. apply write_done_safe.
  - eapply safe_event; [|done|done|exact E]. by eapply safe_post, close_session_safe.
  - pose proof (call_run HMAC h env peer route data timeout_ms reply s Hi) as H. rewrite E in H. destruct H as [I1 T1]. by apply trans_event.
  - eapply safe_event; [|done|done|exact E]. by eapply safe_post, finish_safe.
  - eapply safe_event; [|done|done|exact E]. apply reply_request_safe.
  - eapply safe_event; [|done|done|exact E]. apply ignore_safe, notify_safe.
  - eapply safe_event; [|done|done|exact E]. apply close_safe.
  - eapply config_event; [|done|done|exact E]. left. apply routes_or_same. intros x. unfold bind_rpc. destruct (_ || _); [done|]. destruct (owner_only p); [done|]. apply bind_route_routes.
  - eapply config_event; [|done|done|exact E]. left. apply routes_or_same. intros x. unfold bind_handler. destruct (bad_route _); [done|]. apply bind_route_routes.
  - eapply config_event; [|done|done|exact E]. left. apply routes_or_same. intros x. unfold rpc_policy. destruct (_ || _); [done|]. destruct (handlers s !! _); [|done]. intros [= <-]. by do 2 eexists.
  - eapply config_event; [|done|done|exact E]. left. unfold unbind. destruct (bytes_eqb _ _); [by left|right]. by do 2 eexists.
  - eapply config_event; [|done|done|exact E]. left. apply routes_or_same. intros x. unfold on_notification. destruct (bad_route _); [done|]. destruct (bool_decide _); [done|]. intros [= <-]. by do 2 eexists.
  - eapply config_event; [|done|done|exact E]. left. right. by do 2 eexists.
  - eapply config_event; [|done|done|exact E]. right. by do 3 eexists.
  - pose proof (stop_run HMAC h env s Hi) as H. rewrite E in H. destruct H as (I1 & S1 & C1 & _ & _ & P1 & O1 & A1 & C2). split_and!; try done.
    intros Hs _. destruct (stopped s); [rewrite C2; auto|auto].
Qed.

Lemma node_step_inv x y : sys_inv x -> node_step x y -> sys_inv y.
Proof.
  intros Hx Hst. destruct Hst as [x' env e s outs Hp E]. destruct Hx as (Hi & Hc & Hs & Hl). set (h' := witness_event env e (hist x')).
  assert (Hi' : node_inv HMAC h' (node_of x')) by (eapply history_mono, Hi; intros z Hz; apply elem_of_app; by right).
  assert (He : event_ok h' e (node_of x') s outs).
  { eapply perform_ok; [| |done|done|exact E].
    - intros n Hn. cbn. unfold random_of. rewrite Hn. set_solver.
    - intros id body error ->. cbn. set_solver. }
  destruct He as (I1 & P1 & S1 & O1 & A1). split_and!; cbn; [done| |auto|].
  - rewrite <- app_assoc, <- P1, Hc, !app_assoc. apply Permutation_app_tail, Permutation_app_comm.
  - apply Forall_app. split; [|done]. eapply Forall_impl; [exact Hl|]. intros o. by apply output_mono.
Qed.

Lemma node_start_inv tok l config setup x : node_start tok l config setup x -> sys_inv x.
Proof.
  intros (s & Hn & ->). unfold node in Hn. destruct (_ || _); [done|]. apply bind_ok in Hn as (u & _ & Hn). unfold bind_handler in Hn. destruct (bad_route _); [done|].
  unfold bind_route in Hn. destruct (bool_decide _); [done|]. injection Hn as <-. split_and!; try done.
  constructor; cbn [node_of with_routes accepting objects sessions calls requests receive_bytes limits peer_serial]; try done.
  all: try (by rewrite msum_empty); try (rewrite ?map_size_empty, ?size_empty; lia).
  - intros id. split; [by intros ?%elem_of_empty|]. intros (o & Ho & _). by rewrite lookup_empty in Ho.
Qed.

Lemma node_reachable_inv tok l config setup x y : node_start tok l config setup x -> rtc node_step x y -> sys_inv y.
Proof. intros Hx Hr. apply node_start_inv in Hx. induction Hr; eauto using node_step_inv. Qed.

(** C25 (safety).  Every call is answered exactly once: in any sequence of events, whatever
    the peers send, the replies given to [call] are exactly those called and those of
    the pending calls; a pending call waits on an open session, and a stopped node
    has answered them all. *)
Theorem node_answers_once tok l config setup x y : node_start tok l config setup x -> rtc node_step x y ->
  nasked y ≡ₚ ntold y ++ mnames creply (calls (node_of y)) /\
  (forall id p, calls (node_of y) !! id = Some p -> exists o, objects (node_of y) !! cpeer p = Some o /\ closed o = false) /\
  (stopped (node_of y) = true -> nasked y ≡ₚ ntold y).
Proof.
  intros Hx Hr. destruct (node_reachable_inv _ _ _ _ _ _ Hx Hr) as (Hi & Hc & Hs & _).
  assert (Hp : forall id p, calls (node_of y) !! id = Some p -> cpeer p ∈ sessions (node_of y)).
  { intros id p Hp. by destruct (ni_calls _ _ _ _ Hi _ _ Hp) as [[?|?%elem_of_nil] _]. }
  split; [done|]. split; [intros id p H; by eapply (ni_table _ _ _ _ Hi), Hp|]. intros Hst. rewrite Hc.
  assert (calls (node_of y) = ∅) as ->; [|by rewrite mnames_empty, app_nil_r].
  apply map_empty. intros id. destruct (calls (node_of y) !! id) as [p|] eqn:E; [|done]. specialize (Hp id p E). rewrite (Hs Hst) in Hp. by apply elem_of_empty in Hp.
Qed.

(** A node stays within its limits, whatever its peers send: connections,
    pending calls, the bytes reserved for incoming frames (which are exactly the sum of
    the sessions' reservations), and for every session the bytes queued, which are
    those of its messages, and the requests under way, which are those not answered yet. *)
Theorem node_within_limits tok l config setup x y : node_start tok l config setup x -> rtc node_step x y ->
  let s := node_of y in
  N.of_nat (base.size (sessions s)) <= connections (limits s) /\ N.of_nat (base.size (calls s)) <= pending_calls (limits s) /\
  receive_bytes s = msum receive_reserved (objects s) /\ receive_bytes s <= receive_limit (limits s) /\
  forall id o, objects s !! id = Some o ->
    queued (out o) = sizes (output (out o)) + sizes (authentication_output (out o)) /\ queued (out o) <= queued_bytes (limits s) /\
    (closed o = false -> inflight o = msum (of_session id) (requests s) /\ inflight o <= inflight_requests (limits s)).
Proof.
  intros Hx Hr. destruct (node_reachable_inv _ _ _ _ _ _ Hx Hr) as ([H1 H2 H3 H4 H5 H6 H7 H8 H9] & _). split_and!; try done.
  intros id o Ho. destruct (H2 id o Ho) as [A1 (Q1 & Q2 & _) A3 A4 A5]. by split_and!.
Qed.

(** The peer of session [id] proved that it knows the token, over a nonce this node drew. *)
Definition peer_proved (y : nsys) (id : N) : Prop :=
  exists o, objects (node_of y) !! id = Some o /\ authenticated (auth o) = true /\ proof_heard HMAC (hist y) (token (node_of y)) id (auth o).

(** C24 (safety).  No traffic before the proof: a request or a notification reaches a handler,
    and anything but a frame of the handshake is written, only on a session whose peer
    sent the proof of the shared token for a nonce that this node drew. *)
Theorem traffic_authenticated tok l config setup x y : node_start tok l config setup x -> rtc node_step x y ->
  forall o, o ∈ log y ->
    match o with
    | dispatched _ id _ _ _ | announced _ id _ _ => peer_proved y id
    | sent id m => is_handshake m \/ peer_proved y id
    | _ => True
    end.
Proof.
  intros Hx Hr o Hin. destruct (node_reachable_inv _ _ _ _ _ _ Hx Hr) as (Hi & _ & _ & Hl). rewrite Forall_forall in Hl. specialize (Hl o Hin).
  assert (Hp : forall id, is_authenticated (node_of y) id -> peer_proved y id).
  { intros id (s & Hs & Ha). exists s. split_and!; try done. pose proof (so_auth _ _ _ _ _ (ni_objects _ _ _ _ Hi _ _ Hs)) as Hau. unfold auth_ok in Hau. rewrite Ha in Hau. apply Hau. }
  destruct o; cbn in *; naive_solver.
Qed.
End System.

(** ** A run *)

Definition reading_is (r : Reading) (id : N) (s : Node) : bool :=
  match objects s !! id with
  | None => true
  | Some o => match reading o, r with
              | no_read, no_read | connecting_socket, connecting_socket | handshaking, handshaking | reading_header, reading_header | reading_body, reading_body => true
              | _, _ => false end
  end.
Definition possible_b (e : event) (s : Node) : bool :=
  match e with
  | ev_connected id _ => reading_is connecting_socket id s
  | ev_handshaken id _ => reading_is handshaking id s
  | ev_header id header _ => (length header =? 4)%nat && reading_is reading_header id s
  | ev_body id body _ => reading_is reading_body id s && match objects s !! id with Some o => size body =? receive_reserved o | None => true end
  | _ => true
  end.

Lemma reading_is_spec r id s o : reading_is r id s = true -> objects s !! id = Some o -> reading o = r.
Proof. unfold reading_is. intros H Ho. rewrite Ho in H. by destruct (reading o), r. Qed.

Lemma possible_b_spec e s : possible_b e s = true -> possible e s.
Proof.
  destruct e; cbn; try done.
  - intros H o Ho. by eapply reading_is_spec.
  - intros H o Ho. by eapply reading_is_spec.
  - intros [H1%Nat.eqb_eq H2]%andb_true_iff. split; [done|]. intros o Ho. by eapply reading_is_spec.
  - intros [H1 H2]%andb_true_iff o Ho. rewrite Ho in H2. apply N.eqb_eq in H2. split; [by eapply reading_is_spec|done].
Qed.

Section Run.
Context (HMAC : bytes -> bytes -> option bytes) (env : Env).

Definition after_event (e : event) (x : nsys) : nsys :=
  let '(_, s, outs) := perform HMAC env e (node_of x) in
  MkSys s (asks e ++ nasked x) (ntold x ++ delivered outs) (witness_event env e (hist x)) (log x ++ outs).

Fixpoint run (es : list event) (x : nsys) : nsys := match es with [] => x | e :: es => run es (after_event e x) end.
Fixpoint runs_b (es : list event) (x : nsys) : bool := match es with [] => true | e :: es => possible_b e (node_of x) && runs_b es (after_event e x) end.

Lemma run_steps es : forall x, runs_b es x = true -> rtc (node_step HMAC) x (run es x).
Proof.
  induction es as [|e es IH]; intros x; cbn; [done|]. intros [H1 H2]%andb_true_iff. eapply rtc_l; [|by apply IH]. unfold after_event.
  destruct (perform HMAC env e (node_of x)) as [[[] s] outs] eqn:E. eapply node_event; [by apply possible_b_spec|exact E].
Qed.
End Run.

Definition sample_hmac (key m : bytes) : option bytes := Some (take 32 (key ++ m)).
Definition sample_nonce : bytes := repeat x07 32.
Definition sample_env : Env := MkEnv (Some sample_nonce) None true (fun _ _ _ => Ok true) (fun _ _ => Ok None) false (fun _ => false).
Definition sample_connection : ConnectionRef := MkConnection (repeat x61 32) 1.
Definition sample_token : bytes := lit "secret".
Definition sample_client_nonce : bytes := repeat x09 32.
Definition sample_proof : bytes := default [] (authentication_proof sample_hmac sample_token false sample_nonce sample_client_nonce).

(** A peer connects, proves the token and sends a request; the node calls it back. *)
Definition sample_events : list event :=
  [ev_bind (lit "app.echo") 3; ev_listen (Ok true) true (Ok 9000); ev_accepted false sample_connection; ev_written 1 false;
   ev_header 1 (put_be 4 79) false; ev_body 1 (frame_body 0 ok 0 [] (x02 :: sample_client_nonce ++ sample_proof)) false; ev_written 1 false;
   ev_header 1 (put_be 4 24) false; ev_body 1 (frame_body 1 ok 5 (lit "app.echo") (lit "hi")) false; ev_call 1 (lit "peer.ping") [] 1000 42].
Definition sample_node : Node := match node sample_token limits_default (MkTlsConfig [] [] [] []) (Ok tt) with Ok s => s | Throw _ => with_stopped (MkNode [] limits_default false false false true true false None 0 0 0 0 ∅ ∅ ∅ ∅ ∅ ∅ 0) end.
Definition sample_initial : nsys := MkSys sample_node [] [] (MkHistory [] []) [].
Definition sample_final : nsys := run sample_hmac sample_env sample_events sample_initial.

Lemma sample_node_start : node_start sample_token limits_default (MkTlsConfig [] [] [] []) (Ok tt) sample_initial.
Proof. by exists sample_node. Qed.

Lemma sample_node_run : rtc (node_step sample_hmac) sample_initial sample_final.
Proof. apply run_steps. vm_compute. reflexivity. Qed.

Lemma node_answers_once_witness : nasked sample_final = [42] /\ base.size (calls (node_of sample_final)) = 1%nat /\
  nasked sample_final ≡ₚ ntold sample_final ++ mnames creply (calls (node_of sample_final)).
Proof. split; [vm_compute; reflexivity|]. split; [vm_compute; reflexivity|]. exact (proj1 (node_answers_once _ _ _ _ _ _ _ sample_node_start sample_node_run)). Defined.

Lemma node_within_limits_witness : (inflight <$> objects (node_of sample_final) !! 1) = Some 1 /\ N.of_nat (base.size (sessions (node_of sample_final))) <= 1024.
Proof. split; [vm_compute; reflexivity|]. exact (proj1 (node_within_limits _ _ _ _ _ _ _ sample_node_start sample_node_run)). Defined.

Definition sample_dispatch : node_output := List.nth 2 (log sample_final) (socket_closed 0).

Lemma traffic_authenticated_witness : (match sample_dispatch with dispatched _ 1 3 _ _ => true | _ => false end) = true /\ peer_proved sample_hmac sample_final 1.
Proof.
  split; [vm_compute; reflexivity|].
  assert (E : exists r who d, sample_dispatch = dispatched r 1 3 who d) by (do 3 eexists; vm_compute; reflexivity).
  assert (Hin : sample_dispatch ∈ log sample_final) by (apply list_elem_of_In, nth_In; apply Nat.ltb_lt; vm_compute; reflexivity).
  destruct E as (r & who & d & E). rewrite E in Hin. exact (traffic_authenticated sample_hmac _ _ _ _ _ _ sample_node_start sample_node_run _ Hin).
Defined.

(** * The handshake of two nodes

    The challenge authentication of [src/node.cpp], run between a connecting and a listening
    node that share a token. *)

Section Handshake.
Context (HMAC : bytes -> bytes -> option bytes).

(** The bytes of a frame arrive: its header is read, then its body. *)
Definition arrive (env : Env) (id : N) (message : bytes) : act unit :=
  header_read env id (take 4 message) false;; body_read HMAC env id (drop 4 message) false.

(** The longest body of the handshake. *)
Definition proof_body : N := 14 + 65.

(** Session [id] of a node is open, with the handshake at [a] and the queue [q]; it reads [r], for
    which [k] bytes are reserved, and there is room for a body of the handshake. *)
Record at_phase (tok : bytes) (l : Limits) (r : Reading) (k : N) (s : Node) (id : N) (a : Auth) (q : Outgoing) : Prop := {
  ap_token : token s = tok;
  ap_limits : limits s = l;
  ap_room : k <= receive_bytes s /\ receive_bytes s + proof_body <= receive_limit l + k;
  ap_session : exists o, objects s !! id = Some o /\ closed o = false /\ active o = true /\ auth o = a /\ out o = q /\ reading o = r /\ receive_reserved o = k }.

Lemma at_phase_set tok l r k s id a q o : token s = tok -> limits s = l -> k <= receive_bytes s /\ receive_bytes s + proof_body <= receive_limit l + k ->
  closed o = false -> active o = true -> auth o = a -> out o = q -> reading o = r -> receive_reserved o = k ->
  at_phase tok l r k (with_objects s (<[id := o]> (objects s))) id a q.
Proof. intros. constructor; try done. exists o. cbn. by rewrite lookup_insert_eq. Qed.

Lemma enqueue_handshake tok l r k s id a n apps m : at_phase tok l r k s id a (MkOutgoing n apps [] None) -> n + size m <= queued_bytes l ->
  exists s', enqueue id m true s = (true, s', [sent id m]) /\ at_phase tok l r k s' id a (MkOutgoing (n + size m) apps [m] (Some (true, m))).
Proof.
  intros [Ht Hl Hrm (o & Ho & Hc & Hac & Ha & Hq & Hrd & Hrs)] Hn. unfold enqueue, mbind, act_bind, state. rewrite Ho. unfold fits. rewrite Hc, Hq, Hl. cbn [negb andb orb queued].
  rewrite !(proj2 (N.ltb_ge _ _)) by lia. cbn [orb negb]. unfold set_session, modify. rewrite Hac. unfold write, mbind, act_bind, state. cbn [objects with_objects]. rewrite lookup_insert_eq.
  cbn [with_out push out closed writing authentication_output output queued app]. rewrite Hc. cbn [orb]. rewrite bool_decide_eq_false_2 by (by intros [? ?]). unfold set_session, modify, emit. cbn.
  eexists. split; [reflexivity|]. by apply at_phase_set.
Qed.

Lemma write_done_handshake env tok l r k s id sn cn p n apps m : at_phase tok l r k s id (MkAuth false p sn cn) (MkOutgoing n apps [m] (Some (true, m))) ->
  exists s', write_done env id false s = (tt, s', []) /\ at_phase tok l r k s' id (MkAuth false p sn cn) (MkOutgoing (n - size m) apps [] None).
Proof.
  intros [Ht Hl Hrm (o & Ho & Hc & Hac & Ha & Hq & Hrd & Hrs)]. unfold write_done, mbind, act_bind, state. rewrite Ho, Hq. cbn [writing]. rewrite Hc. unfold set_session, modify. cbn [queued output authentication_output tail].
  unfold write, mbind, act_bind, state. cbn [objects with_objects]. rewrite lookup_insert_eq. cbn [with_out out closed auth writing authentication_output output]. rewrite Hc, Ha. cbn [orb authenticated negb].
  rewrite bool_decide_eq_false_2 by (by intros [? ?]). destruct apps; cbn; (eexists; split; [reflexivity|]; by apply at_phase_set).
Qed.

(** A header of the size the handshake expects is accepted. *)
Lemma header_read_at env tok l s id a q n : at_phase tok l reading_header 0 s id a q -> authenticated a = false -> n = handshake_size a -> proof_body <= frame_bytes l ->
  exists s', header_read env id (put_be 4 n) false s = (tt, s', []) /\ at_phase tok l reading_body n s' id a q.
Proof.
  intros [Ht Hl Hrm (o & Ho & Hc & Hac & Ha & Hq & Hrd & Hrs)] Hau Hn Hf. assert (Hb : 14 <= n <= proof_body) by (rewrite Hn; unfold handshake_size, proof_body; destruct (phase a); lia).
  unfold header_read, mbind, act_bind, state. rewrite Ho, Hc, Ha, Hau, Hl. rewrite (get_put_fold 4 n) by (unfold proof_body in Hb; change (256 ^ N.of_nat 4) with 4294967296; lia). rewrite N.mul_0_l, N.add_0_l.
  rewrite (proj2 (N.ltb_ge n 14)), (proj2 (N.ltb_ge (frame_bytes l) n)), (proj2 (N.ltb_ge _ n)), (proj2 (N.eqb_eq _ _) Hn) by lia. cbn [orb andb negb].
  unfold modify, set_session, modify. cbn. eexists. split; [reflexivity|]. constructor; try done; cbn; [lia|]. eexists. rewrite lookup_insert_eq. split; [reflexivity|]. by split_and!.
Qed.

(** A body that leaves the session open is released, and the next header awaited. *)
Lemma body_read_at env tok l r k s id body a q a' q' s1 outs : at_phase tok l r k s id a q -> receive HMAC env id body s = (tt, s1, outs) -> at_phase tok l r k s1 id a' q' ->
  exists s2, body_read HMAC env id body false s = (tt, s2, outs) /\ at_phase tok l reading_header 0 s2 id a' q'.
Proof.
  intros [_ _ _ (o & Ho & Hc & _)] Hr [Ht Hl Hrm (o1 & Ho1 & Hc1 & Hac1 & Ha1 & Hq1 & Hrd1 & Hrs1)]. unfold body_read, mbind, act_bind, state. rewrite Ho, Hc. cbn [orb]. rewrite Hr.
  unfold release_body, mbind, act_bind, state. rewrite Ho1. unfold set_session, modify. cbn [with_received with_objects objects]. rewrite lookup_insert_eq. cbn [with_reading closed]. rewrite Hc1.
  unfold read_header, mbind, act_bind, state. cbn [with_received with_objects objects]. rewrite lookup_insert_eq. unfold set_session, modify. cbn. rewrite !app_nil_r. eexists. split; [reflexivity|].
  constructor; try done; cbn; [rewrite Hrs1; lia|]. eexists. cbn. rewrite lookup_insert_eq. split; [reflexivity|]. by split_and!.
Qed.

(** A frame of the handshake arrives. *)
Lemma arrive_at env tok l s id a q data a' q' outs : at_phase tok l reading_header 0 s id a q -> authenticated a = false -> 14 + size data = handshake_size a -> proof_body <= frame_bytes l ->
  (forall k s1, at_phase tok l reading_body k s1 id a q -> exists s2, body_read HMAC env id (frame_body 0 ok 0 [] data) false s1 = (tt, s2, outs) /\ at_phase tok l reading_header 0 s2 id a' q') ->
  exists s', arrive env id (frame 0 ok 0 [] data) s = (tt, s', outs) /\ at_phase tok l reading_header 0 s' id a' q'.
Proof.
  intros Hs Hau Hn Hf Hb. destruct (header_read_at env _ _ _ _ _ _ _ Hs Hau Hn Hf) as (s1 & E1 & Hs1). destruct (Hb _ _ Hs1) as (s2 & E2 & Hs2). exists s2. split; [|done].
  unfold arrive, frame. change (size []) with 0. rewrite N.add_0_r. rewrite take_app_length', drop_app_length' by (by rewrite length_put_be). unfold mbind, act_bind. by rewrite E1, E2.
Qed.

Lemma receive_unauthenticated env tok l r k s id p sn cn q data : at_phase tok l r k s id (MkAuth false p sn cn) q ->
  exists o, objects s !! id = Some o /\ auth o = MkAuth false p sn cn /\ closed o = false /\ active o = true /\ out o = q /\ reading o = r /\ receive_reserved o = k /\
    receive HMAC env id (frame_body 0 ok 0 [] data) s = receive_handshake HMAC env id o (MkFrame 0 ok 0 [] data) s.
Proof.
  intros [Ht Hl Hrm (o & Ho & Hc & Hac & Ha & Hq & Hrd & Hrs)]. exists o. split_and!; try done. unfold receive, mbind, act_bind, state. rewrite Ho, parse_frame_body by done. rewrite Ha. cbn [authenticated negb].
  by destruct (receive_handshake _ _ _ _ _ _) as [[[] ?] ?].
Qed.

(** The client answers a challenge. *)
Lemma answer_challenge env tok l k s id sn0 cn0 n apps sn cn p : at_phase tok l reading_body k s id (MkAuth false challenge sn0 cn0) (MkOutgoing n apps [] None) -> size sn = 32 ->
  e_random env = Some cn -> authentication_proof HMAC tok false sn cn = Some p -> let m := frame 0 ok 0 [] (x02 :: cn ++ p) in n + size m <= queued_bytes l ->
  exists s', body_read HMAC env id (frame_body 0 ok 0 [] (x01 :: sn)) false s = (tt, s', [sent id m]) /\
    at_phase tok l reading_header 0 s' id (MkAuth false server_proof sn cn) (MkOutgoing (n + size m) apps [m] (Some (true, m))).
Proof.
  intros Hs Hsn Hr Hp m Hn. destruct (receive_unauthenticated env tok l _ _ s id _ _ _ _ (x01 :: sn) Hs) as (o & Ho & Ha & Hc & Hac & Hq & Hrd & Hrs & E). pose proof Hs as [Ht Hl Hrm _].
  set (s1 := with_objects s (<[id := with_auth o (MkAuth false server_proof sn cn)]> (objects s))).
  assert (Hs1 : at_phase tok l reading_body k s1 id (MkAuth false server_proof sn cn) (MkOutgoing n apps [] None)) by by apply at_phase_set.
  destruct (enqueue_handshake _ _ _ _ _ _ _ _ _ m Hs1 Hn) as (s2 & E2 & Hs2).
  eapply body_read_at; [done| |exact Hs2]. rewrite E. unfold receive_handshake, mbind, act_bind, state. cbn [fkind fcall froute fstatus fdata]. rewrite Ha. cbn [phase authenticated].
  rewrite bool_decide_eq_true_2 by done. cbn [N.eqb negb orb is_empty]. assert ((size (x01 :: sn) =? 33) = true) as -> by (apply N.eqb_eq; unfold size in *; cbn [length]; lia).
  change (take 1 (x01 :: sn)) with [x01]. change (drop 1 (x01 :: sn)) with sn. rewrite bytes_eqb_refl, Hr, Ht, Hp. cbn [negb orb]. unfold set_session, modify. fold s1.
  unfold enqueue_or_close, mbind, act_bind. fold m. rewrite E2. done.
Qed.

(** The server checks the client's proof, and sends its own. *)
Lemma check_client env tok l k s id sn cn0 n apps cn p p' : at_phase tok l reading_body k s id (MkAuth false client_proof sn cn0) (MkOutgoing n apps [] None) -> size cn = 32 -> size p = 32 ->
  authentication_proof HMAC tok false sn cn = Some p -> authentication_proof HMAC tok true sn cn = Some p' -> let m := frame 0 ok 0 [] (x03 :: p') in n + size m <= queued_bytes l ->
  exists s', body_read HMAC env id (frame_body 0 ok 0 [] (x02 :: cn ++ p)) false s = (tt, s', [sent id m]) /\
    at_phase tok l reading_header 0 s' id (MkAuth true complete sn cn) (MkOutgoing (n + size m) apps [m] (Some (true, m))).
Proof.
  intros Hs Hcn Hsp Hp Hp' m Hn. destruct (receive_unauthenticated env tok l _ _ s id _ _ _ _ (x02 :: cn ++ p) Hs) as (o & Ho & Ha & Hc & Hac & Hq & Hrd & Hrs & E). pose proof Hs as [Ht Hl Hrm _].
  set (a1 := MkAuth false client_proof sn cn). set (s1 := with_objects s (<[id := with_auth o a1]> (objects s))).
  assert (Hs1 : at_phase tok l reading_body k s1 id a1 (MkOutgoing n apps [] None)) by by apply at_phase_set.
  destruct (enqueue_handshake _ _ _ _ _ _ _ _ _ m Hs1 Hn) as (s2 & E2 & [Ht2 Hl2 Hrm2 (o2 & Ho2 & Hc2 & Hac2 & Ha2 & Hq2 & Hrd2 & Hrs2)]).
  eapply body_read_at with (s1 := with_objects s2 (<[id := with_auth o2 (MkAuth true complete sn cn)]> (objects s2))); [done| |by apply at_phase_set].
  rewrite E. unfold receive_handshake, mbind, act_bind, state. cbn [fkind fcall froute fstatus fdata]. rewrite Ha. cbn [phase authenticated server_nonce].
  rewrite bool_decide_eq_true_2 by done. cbn [N.eqb negb orb is_empty]. assert ((size (x02 :: cn ++ p) =? 65) = true) as -> by (apply N.eqb_eq; unfold size in *; cbn [length]; rewrite length_app; lia).
  change (take 1 (x02 :: cn ++ p)) with [x02]. change (drop 1 (x02 :: cn ++ p)) with (cn ++ p). change (drop 33 (x02 :: cn ++ p)) with (drop 32 (cn ++ p)).
  assert (Hlen : length cn = 32%nat) by (unfold size in Hcn; lia). rewrite <- Hlen, take_app_length, drop_app_length. rewrite bytes_eqb_refl, Ht, Hp, Hp', bytes_eqb_refl. cbn [negb orb].
  unfold set_session, modify. fold a1. fold s1. fold m. rewrite E2. cbn [negb]. rewrite Ho2. unfold write, mbind, act_bind, state. cbn [with_objects objects]. rewrite lookup_insert_eq.
  cbn [with_auth closed out]. rewrite Hc2, Hq2. cbn [writing orb]. rewrite bool_decide_eq_true_2 by (by eexists). done.
Qed.

(** The queue when the first of the waiting messages is being written. *)
Definition first_write (n : N) (apps : list bytes) : Outgoing := MkOutgoing n apps [] (match apps with [] => None | m :: _ => Some (false, m) end).

(** The client checks the server's proof; the first application message is written. *)
Lemma check_server env tok l k s id sn cn n apps p' : at_phase tok l reading_body k s id (MkAuth false server_proof sn cn) (MkOutgoing n apps [] None) -> size p' = 32 ->
  authentication_proof HMAC tok true sn cn = Some p' ->
  exists s', body_read HMAC env id (frame_body 0 ok 0 [] (x03 :: p')) false s = (tt, s', map (sent id) (take 1 apps)) /\
    at_phase tok l reading_header 0 s' id (MkAuth true complete sn cn) (first_write n apps).
Proof.
  intros Hs Hsp Hp'. destruct (receive_unauthenticated env tok l _ _ s id _ _ _ _ (x03 :: p') Hs) as (o & Ho & Ha & Hc & Hac & Hq & Hrd & Hrs & E). pose proof Hs as [Ht Hl Hrm _].
  set (o1 := with_auth o (MkAuth true complete sn cn)). set (s1 := with_objects s (<[id := o1]> (objects s))).
  assert (Hw : exists s2, write id s1 = (tt, s2, map (sent id) (take 1 apps)) /\ at_phase tok l reading_body k s2 id (MkAuth true complete sn cn) (first_write n apps)).
  { unfold write, mbind, act_bind, state. cbn [s1 with_objects objects]. rewrite lookup_insert_eq. cbn [o1 with_auth closed out auth]. rewrite Hc, Hq. cbn [orb writing authentication_output output].
    rewrite bool_decide_eq_false_2 by (by intros [? ?]). destruct apps as [|m r]; cbn; (eexists; split; [reflexivity|]); [by apply at_phase_set|]. by apply at_phase_set. }
  destruct Hw as (s2 & E2 & Hs2). eapply body_read_at; [exact Hs| |exact Hs2].
  rewrite E. unfold receive_handshake, mbind, act_bind, state. cbn [fkind fcall froute fstatus fdata]. rewrite Ha. cbn [phase authenticated server_nonce client_nonce].
  rewrite bool_decide_eq_true_2 by done. cbn [N.eqb negb orb is_empty]. assert ((size (x03 :: p') =? 33) = true) as -> by (apply N.eqb_eq; unfold size in *; cbn [length]; lia).
  change (take 1 (x03 :: p')) with [x03]. change (drop 1 (x03 :: p')) with p'. rewrite bytes_eqb_refl, Ht, Hp', bytes_eqb_refl. cbn [negb orb]. unfold set_session, modify. fold o1. fold s1.
  rewrite E2. done.
Qed.

(** ** The sessions when the transport is ready *)

(** Session [id] was connected or accepted and waits for the handshake in phase [ph], with messages queued
    within what the handshake leaves; a verified certificate when TLS is used. *)
Record awaits (env : Env) (s : Node) (id : N) (o : Session) (ph : Authentication) (n : N) (apps : list bytes) : Prop := {
  aw_session : objects s !! id = Some o;
  aw_closed : closed o = false;
  aw_auth : authenticated (auth o) = false /\ phase (auth o) = ph;
  aw_out : out o = MkOutgoing n apps [] None;
  aw_queue : n + authentication_queue_reserve <= queued_bytes (limits s);
  aw_tls : tls s = true -> is_Some (e_certificate env);
  aw_reserved : receive_reserved o = 0;
  aw_room : receive_bytes s + proof_body <= receive_limit (limits s);
  aw_frame : proof_body <= frame_bytes (limits s) }.

(** The session is activated under the name of the certificate, or its own. *)
Lemma ready_name env s (o : Session) : (tls s = true -> is_Some (e_certificate env)) ->
  exists name, (if tls s then match e_certificate env with Some d => Some (lit "sha256:" ++ hex_text d) | None => None end else Some (identity o)) = Some name.
Proof. intros H. destruct (tls s); [|by eexists]. destruct (H eq_refl) as [d ->]. by eexists. Qed.

(** A listening session sends its challenge. *)
Lemma send_challenge env s id o n apps sn : awaits env s id o client_proof n apps -> e_random env = Some sn -> size sn = 32 -> let m := frame 0 ok 0 [] (x01 :: sn) in
  exists s', ready env id s = (tt, s', [sent id m]) /\
    at_phase (token s) (limits s) reading_header 0 s' id (MkAuth false client_proof sn (client_nonce (auth o))) (MkOutgoing (n + size m) apps [m] (Some (true, m))).
Proof.
  intros [Ho Hc [Hau Hp] Hq Hn Ht Hrs Hrm Hf] Hr Hsn m. destruct (ready_name env s o Ht) as [name En]. set (o1 := with_active o name). set (s1 := with_objects s (<[id := o1]> (objects s))).
  set (o2 := with_auth o1 (MkAuth false client_proof sn (client_nonce (auth o)))). set (s2 := with_objects s1 (<[id := o2]> (objects s1))).
  assert (Hm : n + size m <= queued_bytes (limits s)).
  { unfold m, frame. rewrite size_app, size_put_be, frame_body_size. unfold size in *. cbn [length]. unfold authentication_queue_reserve in Hn. lia. }
  assert (Hs2 : at_phase (token s) (limits s) (reading o) 0 s2 id (auth o2) (MkOutgoing n apps [] None)) by (apply at_phase_set; try done; cbn; lia).
  destruct (enqueue_handshake _ _ _ _ _ _ _ _ _ m Hs2 Hm) as (s3 & E3 & [Ht3 Hl3 Hrm3 (o3 & Ho3 & Hc3 & Hac3 & Ha3 & Hq3 & Hrd3 & Hrs3)]).
  unfold ready, mbind, act_bind, state. rewrite Ho, Hc, En. unfold set_session, modify. fold o1. fold s1. change (phase (auth o1)) with (phase (auth o)). rewrite Hp, Hr.
  change (authenticated (auth o1)) with (authenticated (auth o)). change (client_nonce (auth o1)) with (client_nonce (auth o)). rewrite Hau. fold o2. fold s2. fold m. rewrite E3.
  unfold write, mbind, act_bind, state. rewrite Ho3, Hq3. cbn [writing]. rewrite orb_comm, bool_decide_eq_true_2 by (by eexists). cbn [orb].
  unfold read_header, mbind, act_bind, state. cbn. rewrite Ho3. unfold set_session, modify. cbn. eexists. split; [reflexivity|]. by apply at_phase_set.
Qed.

(** A connecting session waits for the challenge; what is queued stays queued. *)
Lemma await_challenge env s id o n apps : awaits env s id o challenge n apps ->
  exists s', ready env id s = (tt, s', []) /\ at_phase (token s) (limits s) reading_header 0 s' id (MkAuth false challenge (server_nonce (auth o)) (client_nonce (auth o))) (MkOutgoing n apps [] None).
Proof.
  intros [Ho Hc [Hau Hp] Hq Hn Ht Hrs Hrm Hf]. destruct (ready_name env s o Ht) as [name En].
  assert (Ha : auth o = MkAuth false challenge (server_nonce (auth o)) (client_nonce (auth o))) by (destruct (auth o); cbn in *; by subst).
  unfold ready, mbind, act_bind, state. rewrite Ho, Hc, En. unfold set_session, modify. cbn [with_active auth]. rewrite Hp. unfold write, mbind, act_bind, state. cbn [with_objects objects]. rewrite lookup_insert_eq.
  cbn [closed out auth with_active]. rewrite Hc, Hq, Hau. cbn [orb writing authentication_output output negb]. rewrite bool_decide_eq_false_2 by (by intros [? ?]).
  destruct apps; unfold read_header, mbind, act_bind, state; cbn; rewrite lookup_insert_eq; unfold set_session, modify; cbn; (eexists; split; [reflexivity|]); apply at_phase_set; try done; cbn; lia.
Qed.

(** ** Messages behind the handshake *)

(** The message in flight was written, and the next follows. *)
Lemma write_done_next env tok l r k s id sn cn n h m auths apps : at_phase tok l r k s id (MkAuth true complete sn cn) (MkOutgoing n (if h : bool then apps else m :: apps) auths (Some (h, m))) ->
  (if h then auths = [m] else auths = []) ->
  exists s', write_done env id false s = (tt, s', map (sent id) (take 1 apps)) /\ at_phase tok l r k s' id (MkAuth true complete sn cn) (first_write (n - size m) apps).
Proof.
  intros [Ht Hl Hrm (o & Ho & Hc & Hac & Ha & Hq & Hrd & Hrs)] Hh. unfold write_done, mbind, act_bind, state. rewrite Ho, Hq. cbn [writing]. rewrite Hc. unfold set_session, modify. cbn [queued output authentication_output].
  unfold write, mbind, act_bind, state. cbn [objects with_objects]. rewrite lookup_insert_eq. destruct h; subst auths; cbn [tail with_out out closed auth writing authentication_output output]; rewrite Hc, Ha; cbn [orb authenticated negb].
  all: rewrite bool_decide_eq_false_2 by (by intros [? ?]); destruct apps; cbn; (eexists; split; [reflexivity|]); [by apply at_phase_set|]; unfold set_session, modify; cbn; by apply at_phase_set.
Qed.

(** Every completion of a write starts the next one, until the queue is empty. *)
Lemma writes_drain env tok l r k id sn cn apps : forall s n, at_phase tok l r k s id (MkAuth true complete sn cn) (first_write n apps) ->
  exists s', for_each (fun _ => write_done env id false) apps s = (tt, s', map (sent id) (drop 1 apps)) /\
    at_phase tok l r k s' id (MkAuth true complete sn cn) (MkOutgoing (n - size (concat apps)) [] [] None).
Proof.
  induction apps as [|m apps IH]; intros s n Hs; [exists s; cbn; rewrite N.sub_0_r; done|].
  destruct (write_done_next env tok l r k s id sn cn n false m [] apps Hs eq_refl) as (s1 & E1 & Hs1). destruct (IH s1 _ Hs1) as (s2 & E2 & Hs2). exists s2. split.
  - cbn [for_each]. unfold mbind, act_bind. rewrite E1, E2, <- map_app. by rewrite take_drop.
  - cbn [concat]. rewrite size_app, N.sub_add_distr. done.
Qed.

Lemma frame_size kind st id route data : size (frame kind st id route data) = 18 + size route + size data.
Proof. unfold frame. rewrite size_app, size_put_be, frame_body_size. lia. Qed.

(** C36 (liveness).  The handshake completes: when a connecting and a listening session become ready, at nodes
    that share the token, with TLS or without, and each frame arrives as its header and its body,
    then the challenge, the two proofs and the completions of the writes, in order, leave both
    sessions authenticated under the same nonces, whatever application messages were queued before within the
    bytes the handshake leaves; none of these is written before, and all of them, on both sides,
    in their order afterwards. *)
Theorem handshake_completes env_a env_b sa sb a b oa ob n apps m apps' sn cn p p' :
  awaits env_a sa a oa challenge n apps -> awaits env_b sb b ob client_proof m apps' -> token sb = token sa ->
  e_random env_b = Some sn -> e_random env_a = Some cn -> size sn = 32 -> size cn = 32 ->
  authentication_proof HMAC (token sa) false sn cn = Some p -> authentication_proof HMAC (token sa) true sn cn = Some p' ->
  let challenge_frame := frame 0 ok 0 [] (x01 :: sn) in let client_frame := frame 0 ok 0 [] (x02 :: cn ++ p) in let server_frame := frame 0 ok 0 [] (x03 :: p') in
  exists sa1 sa2 sa3 sa4 sa5 sb1 sb2 sb3 sb4,
    ready env_a a sa = (tt, sa1, []) /\ ready env_b b sb = (tt, sb1, [sent b challenge_frame]) /\
    arrive env_a a challenge_frame sa1 = (tt, sa2, [sent a client_frame]) /\
    write_done env_b b false sb1 = (tt, sb2, []) /\ write_done env_a a false sa2 = (tt, sa3, []) /\
    arrive env_b b client_frame sb2 = (tt, sb3, [sent b server_frame]) /\
    arrive env_a a server_frame sa3 = (tt, sa4, map (sent a) (take 1 apps)) /\
    for_each (fun _ => write_done env_a a false) apps sa4 = (tt, sa5, map (sent a) (drop 1 apps)) /\
    for_each (fun _ => write_done env_b b false) (server_frame :: apps') sb3 = (tt, sb4, map (sent b) apps') /\
    at_phase (token sa) (limits sa) reading_header 0 sa5 a (MkAuth true complete sn cn) (MkOutgoing (n - size (concat apps)) [] [] None) /\
    at_phase (token sa) (limits sb) reading_header 0 sb4 b (MkAuth true complete sn cn) (MkOutgoing (m - size (concat apps')) [] [] None).
Proof.
  intros Ha Hb Htok Hrb Hra Hsn Hcn Hp Hp' f1 f2 f3. pose proof (aw_queue _ _ _ _ _ _ _ Ha) as Hna. pose proof (aw_queue _ _ _ _ _ _ _ Hb) as Hnb.
  pose proof (aw_frame _ _ _ _ _ _ _ Ha) as Hfa. pose proof (aw_frame _ _ _ _ _ _ _ Hb) as Hfb. unfold authentication_queue_reserve in *.
  assert (size p = 32 /\ size p' = 32) as [Hsp Hsp'].
  { unfold authentication_proof in Hp, Hp'. destruct (HMAC (token sa) (transcript false sn cn)) as [x|]; [|done]. destruct (HMAC (token sa) (transcript true sn cn)) as [y|]; [|done].
    destruct (N.eqb_spec (size x) 32); [|done]. destruct (N.eqb_spec (size y) 32); [|done]. by simplify_eq. }
  assert (Hc : forall x (y : bytes), size (x :: y) = 1 + size y) by (intros; unfold size; cbn [length]; lia). assert (He : size [] = 0) by done.
  destruct (send_challenge _ _ _ _ _ _ _ Hb Hrb Hsn) as (sb1 & E1 & B1). destruct (await_challenge _ _ _ _ _ _ Ha) as (sa1 & E0 & A1).
  destruct (arrive_at env_a _ _ _ _ _ _ (x01 :: sn) (MkAuth false server_proof sn cn) (MkOutgoing (n + size f2) apps [f2] (Some (true, f2))) [sent a f2] A1 eq_refl) as (sa2 & E2 & A2); [rewrite Hc, Hsn; reflexivity|done| |].
  { intros k s1 Hs1. eapply (answer_challenge env_a); try done. rewrite frame_size, Hc, size_app, Hcn, Hsp, He. lia. }
  destruct (write_done_handshake env_b _ _ _ _ _ _ _ _ _ _ _ _ B1) as (sb2 & E3 & B2). destruct (write_done_handshake env_a _ _ _ _ _ _ _ _ _ _ _ _ A2) as (sa3 & E4 & A3).
  rewrite N.add_sub in A3, B2. rewrite Htok in B2.
  destruct (arrive_at env_b _ _ _ _ _ _ (x02 :: cn ++ p) (MkAuth true complete sn cn) (MkOutgoing (m + size f3) apps' [f3] (Some (true, f3))) [sent b f3] B2 eq_refl) as (sb3 & E5 & B3); [rewrite Hc, size_app, Hcn, Hsp; reflexivity|done| |].
  { intros k s1 Hs1. eapply (check_client env_b); try done. rewrite frame_size, Hc, Hsp', He. lia. }
  destruct (arrive_at env_a _ _ _ _ _ _ (x03 :: p') (MkAuth true complete sn cn) (first_write n apps) (map (sent a) (take 1 apps)) A3 eq_refl) as (sa4 & E6 & A4); [rewrite Hc, Hsp'; reflexivity|done| |].
  { intros k s1 Hs1. by eapply (check_server env_a). }
  destruct (writes_drain env_a _ _ _ _ _ _ _ _ _ _ A4) as (sa5 & E7 & A5).
  destruct (write_done_next env_b _ _ _ _ _ _ _ _ _ true _ _ _ B3 eq_refl) as (sb4 & E8 & B4). rewrite N.add_sub in B4. destruct (writes_drain env_b _ _ _ _ _ _ _ _ _ _ B4) as (sb5 & E9 & B5).
  exists sa1, sa2, sa3, sa4, sa5, sb1, sb2, sb3, sb5. split_and!; try done. cbn [for_each]. unfold mbind, act_bind. rewrite E8, E9, <- map_app. by rewrite take_drop.
Qed.
End Handshake.

(** ** Witness *)

Definition sample_client_env : Env := MkEnv (Some sample_client_nonce) None true (fun _ _ _ => Ok true) (fun _ _ => Ok None) false (fun _ => false).
(** A node that connects, with a call queued. *)
Definition sample_connecting : Node :=
  node_of (run sample_hmac sample_client_env
    [ev_connect (lit "127.0.0.1") (Ok true) [] [] (Ok tt) sample_connection; ev_call 1 (lit "app.echo") (lit "hi") 1000 9] sample_initial).
Definition sample_connecting_session : Session := default (new_session sample_connection no_read) (objects sample_connecting !! 1).
(** A node that accepted a connection. *)
Definition sample_accepted : Node := with_objects (with_sessions sample_node {[1]}) {[1 := with_phase (new_session sample_connection no_read) client_proof]}.
Definition sample_call_frame : bytes := frame 1 ok 1 (lit "app.echo") (lit "hi").

Lemma handshake_completes_witness : exists sa sb,
  at_phase sample_token limits_default reading_header 0 sa 1 (MkAuth true complete sample_nonce sample_client_nonce) (MkOutgoing 0 [] [] None) /\
  at_phase sample_token limits_default reading_header 0 sb 1 (MkAuth true complete sample_nonce sample_client_nonce) (MkOutgoing 0 [] [] None).
Proof.
  destruct (handshake_completes sample_hmac sample_client_env sample_env sample_connecting sample_accepted 1 1 sample_connecting_session
    (with_phase (new_session sample_connection no_read) client_proof) (size sample_call_frame) [sample_call_frame] 0 [] sample_nonce sample_client_nonce
    sample_proof (take 32 (sample_token ++ transcript true sample_nonce sample_client_nonce)))
    as (sa1 & sa2 & sa3 & sa4 & sa5 & sb1 & sb2 & sb3 & sb4 & _ & _ & _ & _ & _ & _ & _ & _ & _ & Ha & Hb); try (vm_compute; done).
  exists sa5, sb4. split; [exact Ha|exact Hb].
Defined.
