(* ===== verification/HostJobs.v ===== *)
(** * The entity host's storage transactions

    [EntityScriptHost] of [src/entity_host.cpp] runs every operation of an entity between two
    storage jobs: the acquisition reads the entity's record and takes or reuses its
    lease under a new fence, the commit replaces that very record.  This file models
    these jobs, the release of a lease and the registration of a delivery source, as
    programs over the storage interface, and the pure steps that build the record to
    commit.  A [Job] object is threaded through the attempts of the acquisition as
    the code does. *)

From stdpp Require Import gmap.
From S2P Require Import Prelude OrderedMap Identity Values AttributeWire Messages Fields TimerState DeliveryState Records Storage StorageCorrect Programs TimerIndex Directory Delivery.

Record EntityRuntimeLimits := MkRuntimeLimits {
  lentities : N; lrequests : N; lqueued_bytes : N; lresident_bytes : N; lreceipts : N; lreceipt_bytes : N;
  ldelivery_messages : N; ldelivery_channels : N; ldelivery_sources : N; ldelivery_bytes : N; lstate_bytes : N; ltimers : N; ltimer_bytes : N;
  llease_ms : Z; lrequest_timeout_ms : Z; ltick_ms : Z; lidle_ms : Z }.

Record DeliveryAck := MkAck { ack_epoch : N; ack_ticket : bytes; ack_result : Result }.
Record TimerFire := MkFire { fire_key : bytes; fire_generation : bytes; fire_due : Z }.

(** The part of a [Request] the storage jobs read. *)
Record HostRequest := MkRequest {
  qtype : bytes; qroute : bytes; qrequest_id : bytes; qpayload : bytes; handoff_target : bytes; accept_transfer : N;
  incoming : option DeliveryEnvelope; ack : option DeliveryAck; delivery_error : option Result;
  new_owner : option ConnectionRef; timer : option TimerFire; expected_owner : option bytes }.

(** ** The job object *)

Record Outcome := MkOutcome { jstatus : Status; owner_lost : bool; wrong_node : bool; preserve_activation : bool }.
Record Facts := MkFacts { jmetadata : option EntityMetadata; jplacement : bytes; jtransfer : N; created : bool; previously_owned : bool; previous_fence : N }.
Record Plan := MkPlan { replay : bool; metadata_only : bool; joutput : bytes; timer_event : option EntityTimerEvent; jpayload : bytes }.
Record Grant := MkGrant { jversion : N; jfence : N; jexpires : Z }.
(** [image] holds the state, receipts, delivery and timers of the job. *)
Record Job := MkJob { outcome : Outcome; facts : Facts; image : EntitySnapshot; plan : Plan; grant : Grant }.

Definition new_job (q : HostRequest) : Job :=
  MkJob (MkOutcome ok false false (is_some (incoming q) || is_some (ack q) || is_some (new_owner q))) (MkFacts None [] 0 false false 0)
    (MkSnapshot [] [] no_delivery no_timers) (MkPlan false false [] None (qpayload q)) (MkGrant 0 0 0).

Definition fail (s : Status) (j : Job) : Job :=
  MkJob (MkOutcome s (owner_lost (outcome j)) (wrong_node (outcome j)) (preserve_activation (outcome j))) (facts j) (image j) (plan j) (grant j).
Definition fail_lost (s : Status) (j : Job) : Job :=
  MkJob (MkOutcome s true true (preserve_activation (outcome j))) (facts j) (image j) (plan j) (grant j).
Definition fail_preserved (s : Status) (j : Job) : Job :=
  MkJob (MkOutcome s (owner_lost (outcome j)) (wrong_node (outcome j)) true) (facts j) (image j) (plan j) (grant j).
Definition with_facts (j : Job) (f : Facts) : Job := MkJob (outcome j) f (image j) (plan j) (grant j).
Definition with_jimage (j : Job) (i : EntitySnapshot) : Job := MkJob (outcome j) (facts j) i (plan j) (grant j).
Definition with_plan (j : Job) (p : Plan) : Job := MkJob (outcome j) (facts j) (image j) p (grant j).
Definition with_grant (j : Job) (g : Grant) : Job := MkJob (outcome j) (facts j) (image j) (plan j) g.
Definition replays (p : Plan) (out : bytes) : Plan := MkPlan true true out (timer_event p) (jpayload p).

(** A check either returns from the job or goes on. *)
Inductive verdict := halt (j : Job) | go (j : Job) (r : EntityRecord).

Definition route_of (q : HostRequest) (suffix : bytes) : bytes := qtype q ++ suffix.
Definition is_snapshot_route (q : HostRequest) : bool := bytes_eqb (qroute q) (route_of q (lit ".$snapshot")).
Definition is_destroy_route (q : HostRequest) : bool := bytes_eqb (qroute q) (route_of q (lit ".$destroy")).
(** [is_control(route, type)] *)
Definition is_control (q : HostRequest) : bool := bytes_eqb (qroute q) (route_of q (lit ".$deactivate")) || is_destroy_route q.

(** The status of a request that reached the wrong node. *)
Definition elsewhere (q : HostRequest) : Status := if (accept_transfer q =? 0) && is_snapshot_route q then overloaded else rejected.

(** ** The acquisition *)

Section Host.
Context (SHA256 : bytes -> bytes) (settings : EntityRuntimeLimits) (owner_id : bytes) (cached_fence : N) (q : HostRequest).

(** The checks on the record's identity, ownership and placement. *)
Definition check_record (r : EntityRecord) (j : Job) : verdict :=
  let has (f : EntityMetadata -> bool) := match metadata r with Some m => f m | None => false end in
  if has destroyed then halt (fail not_found j)
  else if has (fun m => negb (bytes_eqb (metadata_type m) (qtype q))) then halt (fail rejected j)
  else
    let f := facts j in
    let j := with_facts j (MkFacts (metadata r) (jplacement f) (jtransfer f) (created f) (previously_owned f) (previous_fence f)) in
    if match expected_owner q with Some o => negb (has (fun m => bytes_eqb (owner_connection m) o)) | None => false end then halt (fail rejected j)
    else if is_some (new_owner q) && (negb (is_some (metadata r)) || negb (initialized r)) then halt (fail overloaded j)
    else if is_some (timer q) && (negb (is_some (metadata r)) || has rebuildable || negb (initialized r)) then halt (fail rejected j)
    else if has rebuildable && (is_some (incoming q) || is_some (ack q) || negb (is_empty (handoff_target q)) || negb (accept_transfer q =? 0)) then halt (fail rejected j)
    else if negb (is_empty (placement r)) && negb (entity_node_matches owner_id (placement r)) then halt (fail_lost (elsewhere q) j)
    else if negb (accept_transfer q =? 0) && (negb (transfer_id r =? accept_transfer q) || is_empty (placement r)) then halt (fail_preserved rejected j)
    else go (with_facts j (MkFacts (metadata r) (placement r) (transfer_id r) (negb (initialized r)) (previously_owned f) (previous_fence f))) r.

(** The lease of another owner, and the image the job starts from. *)
Definition with_snapshot (r : EntityRecord) (s : EntitySnapshot) : EntityRecord :=
  MkRecord (owner r) (expires_ms r) (fence r) s (initialized r) (placement r) (transfer_id r) (metadata r).
Definition rebuilt (r : EntityRecord) : EntityRecord :=
  match metadata r with
  | Some m => if rebuildable m && (negb (bytes_eqb (owner r) owner_id) || negb (cached_fence =? fence r))
              then with_snapshot r (MkSnapshot (initial_state m) [] (delivery (snapshot r)) (timers (snapshot r))) else r
  | None => r
  end.
Definition check_lease (time : Z) (r : EntityRecord) (j : Job) : result verdict :=
  throw_if (time <? 0)%Z || (INT64_MAX - llease_ms settings <? time)%Z as runtime_error ;;
  if negb (bytes_eqb (owner r) owner_id) && (time <? expires_ms r)%Z then Ok (halt (fail_lost (elsewhere q) j))
  else
    let r := rebuilt r in
    let j := with_jimage j (MkSnapshot (state (image j)) (receipts (image j)) (delivery (snapshot r)) (timers (snapshot r))) in
    let t := timers (snapshot r) in
    if ltimers settings <? N.of_nat (length (tentries t)) then Ok (halt (fail overloaded j))
    else
      let* n := if is_empty (ttoken t) then Ok 0 else entity_timers_wire_size t in
      if negb (is_empty (ttoken t)) && (ltimer_bytes settings <? n) then Ok (halt (fail overloaded j))
      else
        let p := plan j in
        Ok (go (with_plan j (MkPlan (replay p) (is_some (ack q) || is_some (delivery_error q) || is_some (new_owner q)) (joutput p) (timer_event p) (jpayload p))) r).

(** A timer that fires must still be the one that was armed. *)
Definition check_timer_fire (time : Z) (j : Job) : result Job :=
  match timer q with
  | None => Ok j
  | Some fire =>
      let p := plan j in
      match map_find (fire_key fire) (tentries (timers (image j))) with
      | Some t =>
          if negb (bytes_eqb (tgeneration t) (fire_generation fire)) || negb (due_ms t =? fire_due fire)%Z || (time <? fire_due fire)%Z
          then Ok (with_plan j (replays p (joutput p)))
          else let* payload := encode_timer_event (MkEvent t time) in
               Ok (with_plan j (MkPlan (replay p) (metadata_only p) (joutput p) (Some (MkEvent t time)) payload))
      | None => Ok (with_plan j (replays p (joutput p)))
      end
  end.

(** The message is a pending message of its source. *)
Fixpoint matches_pending (e : DeliveryEnvelope) (l : list DeliveryMessage) : result bool :=
  match l with
  | [] => Ok false
  | m :: l =>
      if mdone m || negb (bytes_eqb (ticket m) (ticket (emessage e))) then matches_pending e l
      else let* w := encode_delivery (MkEnvelope (source_type e) (source_id e) (source_epoch e) m) in
           let* wire := encode_delivery e in
           if bytes_eqb w wire then Ok true else matches_pending e l
  end.
Definition valid_source (e : DeliveryEnvelope) (s : EntityRecord) : result bool :=
  let state := delivery (snapshot s) in
  if initialized s && (depoch state =? source_epoch e) then matches_pending e (outbox state) else Ok false.

(** An incoming delivery: a repeated message is answered from the inbox, the next one must
    be pending at its source. *)
Definition check_incoming (r : EntityRecord) (j : Job) : prog verdict :=
  match incoming q with
  | None => Return (Ok (go j r))
  | Some e =>
      let m := emessage e in
      let d := delivery (image j) in
      if negb (initialized r) || negb (depoch d =? target_epoch m) then Return (Ok (halt (fail_preserved not_found j)))
      else
        do channel <- Return (delivery_channel (source_type e) (source_id e) (source_epoch e));
        let found := map_find channel (inbox d) in
        let next_message :=
          let expected := match found with Some c => wrap64 (csequence c + 1) | None => 1 end in
          if negb (msequence m =? expected) || (negb (is_some found) && (ldelivery_channels settings <=? N.of_nat (length (inbox d)))) then Return (Ok (halt (fail overloaded j)))
          else
            do id <- Return (entity_id_of_text (source_id e));
            do source <- db_get (entity_record_key id);
            match source with
            | None => Return (Ok (halt (fail rejected j)))
            | Some s =>
                do source <- Return (decode_entity_record (svalue s));
                do valid <- Return (valid_source e source);
                if valid then Return (Ok (go j r)) else Return (Ok (halt (fail rejected j)))
            end in
        match found with
        | Some c =>
            if msequence m <=? csequence c then
              do same <- Return (if msequence m =? csequence c then let* d := delivery_digest SHA256 e in Ok (bytes_eqb (cdigest c) d) else Ok true);
              if negb same then Return (Ok (halt (fail_preserved rejected j)))
              else
                do out <- Return (encode_delivery_ack (ticket m) (if msequence m =? csequence c then cresult c else MkResult ok []));
                Return (Ok (go (with_plan j (replays (plan j) out)) r))
            else next_message
        | None => next_message
        end
  end.

(** An acknowledgement completes the first message with its ticket. *)
Definition result_eqb (a b : Result) : bool := bool_decide (rstatus a = rstatus b) && bytes_eqb (rdata a) (rdata b).
Definition with_done (m : DeliveryMessage) (r : Result) : DeliveryMessage :=
  MkDelivery (ticket m) (mtype m) (mid m) (mmethod m) (mpayload m) (target_epoch m) (msequence m) true r.
Fixpoint complete_message (a : DeliveryAck) (l : list DeliveryMessage) : option (list DeliveryMessage) :=
  match l with
  | [] => Some []
  | m :: l =>
      if bytes_eqb (ticket m) (ack_ticket a) then
        if mdone m && negb (result_eqb (mresult m) (ack_result a)) then None else Some (with_done m (ack_result a) :: l)
      else cons m <$> complete_message a l
  end.
Definition with_outbox (d : EntityDeliveryState) (l : list DeliveryMessage) : EntityDeliveryState := MkState (depoch d) (sent d) (inbox d) l.
Definition check_ack (r : EntityRecord) (j : Job) : verdict :=
  match ack q with
  | None => go j r
  | Some a =>
      let d := delivery (image j) in
      if negb (depoch d =? ack_epoch a) then halt (fail not_found j)
      else match complete_message a (outbox d) with
           | None => halt (fail rejected j)
           | Some l => go (with_jimage j (MkSnapshot (state (image j)) (receipts (image j)) (with_outbox d l) (timers (image j)))) r
           end
  end.

(** A repeated request is answered from its receipt. *)
Fixpoint find_receipt (l : list EntityReceipt) : option EntityReceipt :=
  match l with
  | [] => None
  | x :: l => if bytes_eqb (eid x) (qrequest_id q) then Some x else find_receipt l
  end.
Definition check_receipts (r : EntityRecord) (j : Job) : verdict :=
  if is_destroy_route q && existsb (fun m => negb (mdone m)) (outbox (delivery (image j))) then halt (fail_preserved overloaded j)
  else
    let f := facts j in
    let s := snapshot r in
    let j := with_facts (with_jimage j (MkSnapshot (state s) (receipts s) (delivery (image j)) (timers (image j))))
               (MkFacts (jmetadata f) (jplacement f) (jtransfer f) (created f) (bytes_eqb (owner r) owner_id) (fence r)) in
    let too_large j := if lstate_bytes settings <? size (state s) then halt (fail overloaded j) else go j r in
    if is_empty (qrequest_id q) then too_large j
    else match find_receipt (receipts s) with
         | None => too_large j
         | Some x => if negb (bytes_eqb (route x) (qroute q)) || negb (bytes_eqb (request x) (jpayload (plan j))) then halt (fail rejected j)
                     else too_large (with_plan j (replays (plan j) (response x)))
         end.

(** The record under a new lease. *)
Definition leased (time : Z) (r : EntityRecord) : EntityRecord :=
  MkRecord owner_id (time + llease_ms settings) (fence r + 1) (snapshot r) (initialized r) (placement r) (transfer_id r) (metadata r).
Definition reusable (time : Z) (r : EntityRecord) : bool := bytes_eqb (owner r) owner_id && (lrequest_timeout_ms settings <? expires_ms r - time)%Z.

(** A check after which the job goes on. *)
Definition when_go (v : verdict) (k : Job -> EntityRecord -> prog (Job + Job)) : prog (Job + Job) :=
  match v with halt j => Return (Ok (inl j)) | go j r => k j r end.

(** One attempt: [inr] when the compare-and-swap lost. *)
Definition acquire_once (key : bytes) (time : Z) (j : Job) : prog (Job + Job) :=
  do record <- db_get key;
  match record with
  | None => Return (Ok (inl (fail not_found j)))
  | Some stored =>
      do current <- Return (decode_entity_record (svalue stored));
      when_go (check_record current j) (fun j r =>
      do v <- Return (check_lease time r j);
      when_go v (fun j r =>
      do j <- Return (check_timer_fire time j);
      do v <- check_incoming r j;
      when_go v (fun j r =>
      when_go (check_ack r j) (fun j r =>
      when_go (check_receipts r j) (fun j r =>
      if reusable time r then Return (Ok (inl (with_grant j (MkGrant (sversion stored) (fence r) (expires_ms r)))))
      else if i64_max - 1 <=? fence r then throw overflow_error
      else
        let next := leased time r in
        do value <- Return (encode_entity_record next);
        do won <- db_compare_exchange key (sversion stored) value;
        if negb won then Return (Ok (inr j))
        else
          do granted <- db_get key;
          match granted with
          | Some g => if bytes_eqb (svalue g) value then Return (Ok (inl (with_grant j (MkGrant (sversion g) (fence next) (expires_ms next)))))
                      else Return (Ok (inl (fail rejected j)))
          | None => Return (Ok (inl (fail rejected j)))
          end)))))
  end.

Fixpoint acquire_loop (attempts : nat) (key : bytes) (clock : nat -> Z) (j : Job) : prog Job :=
  match attempts with
  | O => Return (Ok (fail rejected j))
  | S n => do v <- acquire_once key (clock n) j; match v with inl j => Return (Ok j) | inr j => acquire_loop n key clock j end
  end.
Definition acquire_job (id : bytes) (clock : nat -> Z) : prog Job :=
  do e <- Return (entity_id_of_text id); acquire_loop 4 (entity_record_key e) clock (new_job q).

(** ** The commit *)

(** The receipt of the request, and the oldest receipts dropped to fit. *)
Fixpoint trim_receipts (l : list EntityReceipt) (bytes : N) : list EntityReceipt :=
  match l with
  | [] => []
  | x :: rest => if (lreceipts settings <? N.of_nat (length l)) || (lreceipt_bytes settings <? bytes) then trim_receipts rest (bytes - receipt_bytes x) else l
  end.
Definition total_receipts (l : list EntityReceipt) : N := foldr (fun x n => receipt_bytes x + n) 0 l.
Definition add_receipt (payload out : bytes) (l : list EntityReceipt) : option (list EntityReceipt) :=
  if is_empty (qrequest_id q) then Some (trim_receipts l (total_receipts l))
  else
    let x := MkReceipt (qrequest_id q) (qroute q) payload out in
    if lreceipt_bytes settings <? receipt_bytes x then None
    else let l := l ++ [x] in Some (trim_receipts l (total_receipts l)).

(** The cursor of the channel a delivery came from, and the acknowledgement to send. *)
Definition record_delivery (e : DeliveryEnvelope) (value : Result) (d : EntityDeliveryState) : result (option (EntityDeliveryState * bytes)) :=
  if delivery_payload_limit <? size (rdata value) then Ok None
  else
    let* channel := delivery_channel (source_type e) (source_id e) (source_epoch e) in
    let* digest := delivery_digest SHA256 e in
    let* out := encode_delivery_ack (ticket (emessage e)) value in
    Ok (Some (MkState (depoch d) (sent d) (map_insert channel (MkCursor (msequence (emessage e)) digest value) (inbox d)) (outbox d), out)).

(** The record a finished job commits. *)
Definition with_owner_connection (m : EntityMetadata) (c : bytes) : EntityMetadata :=
  MkMetadata (metadata_type m) c (creation_digest m) (rebuildable m) (destroyed m) (initial_state m) (owner_revision m + 1).
Definition with_destroyed (m : EntityMetadata) : EntityMetadata :=
  MkMetadata (metadata_type m) (owner_connection m) (creation_digest m) (rebuildable m) true (initial_state m) (owner_revision m).
Definition committed_record (j : Job) : result (option EntityRecord) :=
  let release := is_control q in
  let f := facts j in
  let base := MkRecord (if release then [] else owner_id) (if release then 0%Z else jexpires (grant j)) (jfence (grant j)) (image j)
                (if release then negb (created f) else true) (if is_empty (handoff_target q) then jplacement f else handoff_target q)
                (if is_empty (handoff_target q) then jtransfer f else jversion (grant j)) in
  let* m := match new_owner q with
            | None => Ok (Some (jmetadata f))
            | Some c =>
                match jmetadata f with
                | None => Ok None
                | Some m => if owner_revision m =? u64_max then Ok None
                            else let* k := if connection_valid c then connection_key c else Ok [] in Ok (Some (Some (with_owner_connection m k)))
                end
            end in
  Ok (match m with
      | None => None
      | Some None => Some (base None)
      | Some (Some m) =>
          let r := base (Some m) in
          let r := if rebuildable m then with_snapshot r (MkSnapshot (initial_state m) (receipts (image j)) (delivery (image j)) (timers (image j))) else r in
          Some (if is_destroy_route q
                then MkRecord (owner r) (expires_ms r) (fence r) (MkSnapshot [] [] no_delivery no_timers) (initialized r) (placement r) (transfer_id r) (Some (with_destroyed m))
                else r)
      end).

(** What the operation of a job left: the state and payload of its message, the job's delivery
    and timers, whether the timers were published, and the outcome of a refused
    delivery. *)
Record Effects := MkEffects { xstate : bytes; xpayload : bytes; xdelivery : EntityDeliveryState; xtimers : EntityTimerState; xdirty : bool; xrefused : option Result }.

Definition has_pending (d : EntityDeliveryState) : bool := existsb (fun m => negb (mdone m)) (outbox d).
Definition delivery_overflow (d : EntityDeliveryState) : bool :=
  negb (depoch d =? 0) &&
  ((ldelivery_messages settings <? N.of_nat (length (outbox d))) || (ldelivery_channels settings <? N.of_nat (length (inbox d))) ||
   (ldelivery_channels settings <? N.of_nat (length (sent d))) ||
   match delivery_charge d with Ok n => ldelivery_bytes settings <? n | Throw _ => true end).

(** The first delivery of an entity opens its epoch. *)
Definition open_delivery (enabled : bool) (j : Job) : Job :=
  let i := image j in
  let d := delivery i in
  if enabled && (depoch d =? 0)
  then with_jimage j (MkSnapshot (state i) (receipts i) (MkState (jversion (grant j)) (sent d) (inbox d) (outbox d)) (timers i)) else j.

(** The result recorded for a delivery. *)
Definition delivery_value (output : bytes) (x : Effects) : Result :=
  match delivery_error q with
  | Some r => r
  | None => match xrefused x with Some r => r | None => MkResult ok output end
  end.

(** The index entry to arm before the commit. *)
Definition timer_entry (id : bytes) (j : Job) (x : Effects) : option Entry :=
  let moves := negb (is_empty (handoff_target q)) || negb (accept_transfer q =? 0) || is_destroy_route q in
  if xdirty x || (negb (is_empty (ttoken (xtimers x))) && moves)
  then Some (MkIndexEntry (qtype q) id (ttoken (xtimers x)) (jversion (grant j)) (jfence (grant j)) (next_entity_timer (xtimers x)) true
               (if is_empty (handoff_target q) then jplacement (facts j) else handoff_target q))
  else None.

(** The receipts, the delivery state and the reply's data; [None] when the job is over its
    limits. *)
Definition settle_image (j : Job) (x : Effects) : result (option (list EntityReceipt * EntityDeliveryState * bytes)) :=
  let output := if is_some (timer_event (plan j)) then lit "1" else xpayload x in
  match add_receipt (jpayload (plan j)) output (receipts (image j)) with
  | None => Ok None
  | Some rs =>
      let* recorded := match incoming q with None => Ok (Some (xdelivery x, output)) | Some e => record_delivery e (delivery_value output x) (xdelivery x) end in
      Ok (match recorded with
          | None => None
          | Some (d, out) => if (is_destroy_route q && has_pending d) || delivery_overflow d then None else Some (rs, d, out)
          end)
  end.

(** The record to commit and the reply's data, or the status the job is refused with. *)
Definition settle (j : Job) (x : Effects) : result (Status + EntityRecord * bytes) :=
  let* i := settle_image j x in
  match i with
  | None => Ok (inl overloaded)
  | Some (rs, d, out) =>
      let* r := committed_record (with_jimage j (MkSnapshot (xstate x) rs d (xtimers x))) in
      Ok (match r with
          | None => inl rejected
          | Some r => inr (r, if is_empty (handoff_target q) then out else integer (jversion (grant j)))
          end)
  end.

(** The commit job: the outcome, and whether the lease was lost. *)
Definition commit_job (id : bytes) (clock : nat -> Z) (g : Grant) (entry : option Entry) (persisted : bytes) : prog bool :=
  if (jexpires g <=? clock 0%nat)%Z then Return (Ok false)
  else
    do _ <- match entry with Some e => arm e | None => Return (Ok tt) end;
    if (jexpires g <=? clock 1%nat)%Z then Return (Ok false)
    else do e <- Return (entity_id_of_text id); db_compare_exchange (entity_record_key e) (jversion g) persisted.

(** ** Releasing a lease *)

Definition released (r : EntityRecord) : EntityRecord :=
  MkRecord [] 0 (fence r) (snapshot r) (initialized r) (placement r) (transfer_id r) (metadata r).
(** The job of [deactivate]. *)
Definition release_job (id : bytes) : prog bool :=
  do e <- Return (entity_id_of_text id);
  do record <- db_get (entity_record_key e);
  match record with
  | None => Return (Ok false)
  | Some s =>
      do value <- Return (decode_entity_record (svalue s));
      if negb (bytes_eqb (owner value) owner_id) then Return (Ok false)
      else do w <- Return (encode_entity_record (released value)); db_compare_exchange (entity_record_key e) (sversion s) w
  end.

(** ** Registering a source *)

Fixpoint register_source (attempts : nat) (source : bytes * bytes) : prog Status :=
  match attempts with
  | O => Return (Ok overloaded)
  | S n =>
      do record <- db_get delivery_registry_key;
      do sources <- Return (match record with Some r => decode_delivery_sources (svalue r) | None => Ok [] end);
      if existsb (pair_eqb source) sources then Return (Ok ok)
      else if ldelivery_sources settings <=? N.of_nat (length sources) then Return (Ok overloaded)
      else
        do value <- Return (encode_delivery_sources (sources ++ [source]));
        do won <- db_compare_exchange delivery_registry_key (match record with Some r => sversion r | None => 0 end) value;
        if won then Return (Ok ok) else register_source n source
  end.

(** The job of [send_entity]: the target's type and epoch. *)
Definition send_job (source : bytes * bytes) (target_type target_id : bytes) : prog (Status * bytes * N) :=
  do e <- Return (entity_id_of_text target_id);
  do target <- db_get (entity_record_key e);
  match target with
  | None => Return (Ok (not_found, target_type, 0))
  | Some s =>
      do value <- Return (decode_entity_record (svalue s));
      let has (f : EntityMetadata -> bool) := match metadata value with Some m => f m | None => false end in
      if has (fun m => destroyed m || rebuildable m || (negb (is_empty target_type) && negb (bytes_eqb (metadata_type m) target_type))) then Return (Ok (rejected, target_type, 0))
      else
        let type := match metadata value with Some m => metadata_type m | None => target_type end in
        let epoch := depoch (delivery (snapshot value)) in
        if negb (initialized value) || (epoch =? 0) then Return (Ok (overloaded, type, 0))
        else do st <- register_source 8 source; Return (Ok (st, type, epoch))
  end.

(** The completion of [send_entity] stages the message in the job's delivery state; [free] is
    what the resident budget has left.  The state, the growth charged and the ticket;
    [None] when there is no room. *)
Definition stage_message (source : bytes * bytes) (type id method payload : bytes) (epoch : N) (free : N) (d : EntityDeliveryState)
  : result (option (EntityDeliveryState * N * bytes)) :=
  let* channel := delivery_channel type id epoch in
  let found := map_find channel (sent d) in
  if negb (is_some found) && (ldelivery_channels settings <=? N.of_nat (length (sent d))) then Ok None
  else
    let sequence := match found with Some n => n | None => 0 end in
    if sequence =? u64_max then Ok None
    else
      let m t := MkDelivery t type id method payload epoch (sequence + 1) false (MkResult ok []) in
      let* t := delivery_ticket SHA256 (MkEnvelope source.1 source.2 (depoch d) (m [])) in
      let next := MkState (depoch d) (map_insert channel (sequence + 1) (sent d)) (inbox d) (outbox d ++ [m t]) in
      let* charge := delivery_charge next in
      if (ldelivery_bytes settings <? charge) || (ldelivery_messages settings <? N.of_nat (length (outbox next))) then Ok None
      else
        let* previous := encode_delivery_state d in
        let* bytes := encode_delivery_state next in
        let growth := if size previous <? size bytes then 2 * (size bytes - size previous) else 0 in
        if free <? growth then Ok None else Ok (Some (next, growth, t)).
End Host.

(** [forget_delivery]: the first done message with the ticket is dropped. *)
Fixpoint drop_done (t : bytes) (l : list DeliveryMessage) : option (list DeliveryMessage) :=
  match l with
  | [] => None
  | m :: l => if bytes_eqb (ticket m) t && mdone m then Some l else cons m <$> drop_done t l
  end.
Definition forget_delivery (t : bytes) (d : EntityDeliveryState) : option EntityDeliveryState := with_outbox d <$> drop_done t (outbox d).
(** [delivery_status] *)
Definition delivery_status (t : bytes) (d : EntityDeliveryState) : option DeliveryMessage := List.find (fun m => bytes_eqb (ticket m) t) (outbox d).
