(* ===== verification/HostRecords.v ===== *)
(** * The records a host writes

    What a decoded record satisfies, and the facts on the records built by the entity host's
    storage jobs: the rebuilt image, the lease, the commit and the release. *)

From stdpp Require Import gmap.
From S2P Require Import Prelude OrderedMap Identity Values AttributeWire AttributeCodec Messages MessagesCorrect Fields TimerState TimerCorrect DeliveryState DeliveryCorrect Records RecordsCorrect Storage StorageCorrect Programs TimerIndex TimerIndexCorrect Directory Delivery HostJobs.

(** ** Decoded values fit their types *)

Lemma emplace_fresh {V} (P : bytes * V -> Prop) key v m m' : map_emplace key v m = (m', true) ->
  map_wf m -> Forall P m -> P (key, v) -> map_wf m' /\ Forall P m'.
Proof.
  intros Em Hw Hf Hp. split; [by eapply map_wf_emplace|]. unfold map_emplace in Em. destruct (map_contains _ m); [done|]. injection Em as <-.
  by apply Forall_map_insert.
Qed.

Lemma get_counter_wf st st' : map_wf st.1 /\ Forall (fun e => e.2 < 2 ^ 64) st.1 -> get_counter st = Ok st' ->
  map_wf st'.1 /\ Forall (fun e => e.2 < 2 ^ 64) st'.1.
Proof.
  destruct st as [m input]. cbn [fst]. intros [H1 H2] H. unfold get_counter in H. apply bind_ok in H as ([k i1] & _ & H). apply bind_ok in H as (_ & _ & H).
  apply bind_ok in H as ([n i2] & B%get_be_bound & H). destruct (_ || _); [done|]. destruct (map_emplace _ _ m) as [m' fresh] eqn:Em.
  destruct fresh; [|done]. injection H as <-. by eapply emplace_fresh.
Qed.

Lemma get_cursor_wf st st' : map_wf st.1 /\ Forall (fun e => csequence e.2 < 2 ^ 64) st.1 -> get_cursor st = Ok st' ->
  map_wf st'.1 /\ Forall (fun e => csequence e.2 < 2 ^ 64) st'.1.
Proof.
  destruct st as [m input]. cbn [fst]. intros [H1 H2] H. unfold get_cursor in H. apply bind_ok in H as ([k i1] & _ & H). apply bind_ok in H as (_ & _ & H).
  apply bind_ok in H as ([n i2] & B%get_be_bound & H). apply bind_ok in H as ([dg i3] & _ & H). apply bind_ok in H as ([r i4] & _ & H).
  destruct (_ || _); [done|]. destruct (map_emplace _ _ m) as [m' fresh] eqn:Em. destruct fresh; [|done]. injection H as <-. by eapply emplace_fresh.
Qed.

Lemma get_message_wf input m rest : get_message input = Ok (m, rest) -> message_wf m.
Proof.
  unfold get_message. intros ([t i1] & _ & H)%bind_ok. apply bind_ok in H as ([[ty id] i2] & _ & H). apply bind_ok in H as ([me i3] & _ & H).
  apply bind_ok in H as ([p i4] & _ & H). apply bind_ok in H as ([e i5] & B1%get_be_bound & H). apply bind_ok in H as ([n i6] & B2%get_be_bound & H).
  destruct i6 as [|b i6]; [done|]. destruct (_ <? _); [done|]. apply bind_ok in H as ([r i7] & _ & H). apply bind_ok in H as (_ & _ & [= <- _]). by split.
Qed.

Lemma get_outgoing_wf st st' : Forall message_wf st.1.1 -> get_outgoing st = Ok st' -> Forall message_wf st'.1.1.
Proof.
  destruct st as [[out tickets] input]. cbn [fst]. intros H1 H. unfold get_outgoing in H. apply bind_ok in H as ([m i1] & Hm%get_message_wf & H).
  destruct (existsb _ _); [done|]. injection H as <-. cbn. apply Forall_app. split; [done|by constructor].
Qed.

Lemma decode_delivery_wf w d : decode_delivery_state w = Ok d -> delivery_wf d.
Proof.
  unfold decode_delivery_state. destruct (_ || _); [done|]. intros ([e i0] & B%get_be_bound & H)%bind_ok.
  apply bind_ok in H as ([n1 i1] & _ & H). destruct (_ <? _); [done|]. apply bind_ok in H as ([sn i2] & Hs & H).
  apply bind_ok in H as ([n2 i3] & _ & H). destruct (_ <? _); [done|]. apply bind_ok in H as ([ib i4] & Hi & H).
  apply bind_ok in H as ([n3 i5] & _ & H). destruct (_ <? _); [done|]. apply bind_ok in H as ([[ob tk] i6] & Ho & H).
  apply bind_ok in H as (_ & _ & H). destruct (_ =? _); [done|]. injection H as <-.
  apply (fun P => iter_result_inv _ _ _ _ _ P get_counter_wf) in Hs as [S1 S2]; [|by split; [|constructor]].
  apply (fun P => iter_result_inv _ _ _ _ _ P get_cursor_wf) in Hi as [I1 I2]; [|by split; [|constructor]].
  apply (fun P => iter_result_inv _ _ _ _ _ P get_outgoing_wf) in Ho; [|by constructor]. by split_and!.
Qed.

Lemma get_timer_wf input t rest : get_timer input = Ok (t, rest) -> timer_wf t.
Proof.
  unfold get_timer. intros ([k i1] & _ & H)%bind_ok. apply bind_ok in H as ([me i2] & _ & H). apply bind_ok in H as ([p i3] & _ & H).
  apply bind_ok in H as ([g i4] & _ & H). apply bind_ok in H as ([d i5] & _ & H). apply bind_ok in H as ([iv i6] & _ & H).
  destruct (_ || _) eqn:E; [done|]. bool_prop. apply bind_ok in H as ([rm i7] & _ & H). destruct i7 as [|b i7]; [done|]. destruct (_ <? _); [done|].
  apply bind_ok in H as (_ & _ & [= <- _]). unfold timer_wf, i64_max, INT64_MAX in *. cbn. lia.
Qed.

Lemma read_timer_entry_wf st st' : map_wf st.1 /\ Forall (fun e => timer_wf e.2) st.1 -> read_timer_entry st = Ok st' ->
  map_wf st'.1 /\ Forall (fun e => timer_wf e.2) st'.1.
Proof.
  destruct st as [m input]. cbn [fst]. intros [H1 H2] H. unfold read_timer_entry in H. apply bind_ok in H as ([t i1] & B%get_timer_wf & H).
  destruct (map_emplace _ _ m) as [m' fresh] eqn:Em. destruct fresh; [|done]. injection H as <-. by eapply emplace_fresh.
Qed.

Lemma decode_timers_wf w t : decode_entity_timers w = Ok t -> timers_wf t.
Proof.
  unfold decode_entity_timers. destruct (_ || _); [done|]. intros ([n i0] & B%get_be_bound & H)%bind_ok. apply bind_ok in H as ([tk i1] & _ & H).
  apply bind_ok in H as ([c i2] & _ & H). destruct (_ || _); [done|]. apply bind_ok in H as ([m i3] & Hm & H). destruct (negb _); [done|]. injection H as <-.
  apply (fun P => iter_result_inv _ _ _ _ _ P read_timer_entry_wf) in Hm as [M1 M2]; [|by split; [|constructor]]. by split_and!.
Qed.

Lemma no_delivery_wf : delivery_wf no_delivery.
Proof. split_and!; try done; constructor. Qed.
Lemma no_timers_wf : timers_wf no_timers.
Proof. split_and!; try done; constructor. Qed.

Lemma decode_snapshot_wf w s : decode_snapshot w = Ok s -> snapshot_wf s.
Proof.
  unfold decode_snapshot. destruct (_ && _); [done|]. intros ([st i1] & _ & H)%bind_ok. apply bind_ok in H as ([n i2] & _ & H). destruct (_ <? _); [done|].
  apply bind_ok in H as ([rs i3] & _ & H). apply bind_ok in H as ([wd i4] & _ & H). apply bind_ok in H as ([d i5] & Hd & H).
  apply bind_ok in H as ([t i6] & Ht & H). destruct (negb _); [done|]. injection H as <-. split; cbn.
  - destruct wd; [|injection Hd as <- _; exact no_delivery_wf]. apply bind_ok in Hd as ([b i] & _ & Hd). apply bind_ok in Hd as (d' & Hd%decode_delivery_wf & [= <- _]). done.
  - destruct (starts_with _ _); [|injection Ht as <- _; exact no_timers_wf]. apply bind_ok in Ht as ([b i] & _ & Ht). apply bind_ok in Ht as (t' & Ht%decode_timers_wf & [= <- _]). done.
Qed.

Lemma decode_record_wf w r : decode_entity_record w = Ok r -> record_wf r /\ fence r < i64_max.
Proof.
  unfold decode_entity_record. intros (v & (H1 & H2 & H3 & H4)%header_numbers & H)%bind_ok. apply bind_ok in H as (s & Hs%decode_snapshot_wf & [= <-]). by split.
Qed.

(** C38 (type).  Whatever bytes a stored record has, what decodes from them fits the types of the
    program: 64-bit numbers, expiry and fence within their signed range, ordered maps without
    duplicates, and timers whose times are representable. *)
Theorem decoded_record_typed w r :
  decode_entity_record w = Ok r ->
  delivery_wf (delivery (snapshot r)) /\ timers_wf (timers (snapshot r)) /\ record_numbers r /\ fence r < i64_max.
Proof. intros [[[H1 H2] H3] H4]%decode_record_wf. done. Qed.

Definition sample_wire : bytes := match encode_entity_record sample_record with Ok w => w | Throw _ => [] end.

Lemma decoded_record_typed_witness : decode_entity_record sample_wire = Ok sample_record /\ timers_wf (timers (snapshot sample_record)).
Proof.
  assert (H : decode_entity_record sample_wire = Ok sample_record) by (vm_compute; reflexivity). split; [exact H|]. by destruct (decoded_record_typed _ _ H) as (_ & ? & _).
Defined.

(** ** The rebuilt image and the lease *)

Section Host.
Context (SHA256 : bytes -> bytes) (settings : EntityRuntimeLimits) (me : bytes) (cached : N) (q : HostRequest).

Lemma rebuilt_facts r : let b := rebuilt me cached r in
  owner b = owner r /\ expires_ms b = expires_ms r /\ fence b = fence r /\ initialized b = initialized r /\ placement b = placement r /\
  transfer_id b = transfer_id r /\ metadata b = metadata r /\ delivery (snapshot b) = delivery (snapshot r) /\ timers (snapshot b) = timers (snapshot r).
Proof. cbv zeta. unfold rebuilt. destruct (metadata r) as [m|] eqn:E; [|by rewrite E]. destruct (_ && _); cbn; by rewrite ?E. Qed.

Lemma rebuilt_wf r : record_wf r -> record_wf (rebuilt me cached r).
Proof.
  intros [[S1 S2] N]. destruct (rebuilt_facts r) as (E1 & E2 & E3 & E4 & E5 & E6 & E7 & E8 & E9). unfold record_wf, snapshot_wf, record_numbers in *.
  by rewrite E2, E6, E7, E8, E9.
Qed.

Lemma leased_wf time r : record_wf r -> (time + llease_ms settings <= INT64_MAX)%Z -> record_wf (leased settings me time r).
Proof. intros [S (N1 & N2 & N3)] Ht. by split; [|split]. Qed.

(** ** What the acquisition establishes *)

(** The delivery state after the acknowledgement of the request, if it has one. *)
Definition acknowledged (d d' : EntityDeliveryState) : Prop :=
  match ack q with
  | None => d' = d
  | Some a => depoch d = ack_epoch a /\ exists l, complete_message a (outbox d) = Some l /\ d' = with_outbox d l
  end.

(** The job [j] works on the record [b]: it holds its lease, its facts and image are the
    record's, and what makes the request stale or repeated was excluded. *)
Record checked (b : EntityRecord) (j : Job) : Prop := {
  ck_facts : jmetadata (facts j) = metadata b /\ jplacement (facts j) = placement b /\ jtransfer (facts j) = transfer_id b /\ created (facts j) = negb (initialized b);
  ck_live : forall m, metadata b = Some m -> destroyed m = false /\ metadata_type m = qtype q;
  ck_placed : placement b = [] \/ entity_node_matches me (placement b) = true;
  ck_expected : forall o, expected_owner q = Some o -> exists m, metadata b = Some m /\ owner_connection m = o;
  ck_image : state (image j) = state (snapshot b) /\ receipts (image j) = receipts (snapshot b) /\ timers (image j) = timers (snapshot b);
  ck_delivery : acknowledged (delivery (snapshot b)) (delivery (image j));
  ck_receipt : replay (plan j) = false -> qrequest_id q <> [] -> find_receipt q (receipts (snapshot b)) = None;
  ck_next : replay (plan j) = false -> forall e, incoming q = Some e -> initialized b = true /\ depoch (delivery (snapshot b)) = target_epoch (emessage e) /\
    exists channel, delivery_channel (source_type e) (source_id e) (source_epoch e) = Ok channel /\
      msequence (emessage e) = match map_find channel (inbox (delivery (snapshot b))) with Some c => csequence c + 1 | None => 1 end;
  ck_timer : replay (plan j) = false -> forall f, timer q = Some f -> exists t, map_find (fire_key f) (tentries (timers (snapshot b))) = Some t /\
    tgeneration t = fire_generation f /\ due_ms t = fire_due f }.

Record prepared (b : EntityRecord) (j : Job) : Prop := {
  pr_checked : checked b j;
  pr_owner : owner b = me;
  pr_grant : jfence (grant j) = fence b /\ jexpires (grant j) = expires_ms b }.

(** The lease and the grant change nothing that was checked. *)
Lemma checked_grant b j g : checked b j -> checked b (with_grant j g).
Proof. intros []. by constructor. Qed.
Lemma checked_leased time b j : checked b j -> checked (leased settings me time b) j.
Proof. intros []. by constructor. Qed.

(** A check that halts has a failure status. *)
Definition verdict_ok (v : verdict) (P : Job -> EntityRecord -> Prop) : Prop :=
  match v with halt j => jstatus (outcome j) <> ok | go j r => P j r end.

Lemma elsewhere_failed : elsewhere q <> ok.
Proof. unfold elsewhere. by destruct (_ && _). Qed.

(** One condition of a check: the failing branch has a failure status. *)
Ltac check_if := match goal with |- verdict_ok (if ?c then _ else _) _ => let E := fresh "C" in destruct c eqn:E; [by first [done|apply elsewhere_failed]|] end.

Lemma check_record_spec r j : verdict_ok (check_record me q r j) (fun j' r' => r' = r /\ plan j' = plan j /\
  (jmetadata (facts j') = metadata r /\ jplacement (facts j') = placement r /\ jtransfer (facts j') = transfer_id r /\ created (facts j') = negb (initialized r)) /\
  (forall m, metadata r = Some m -> destroyed m = false /\ metadata_type m = qtype q) /\
  (placement r = [] \/ entity_node_matches me (placement r) = true) /\
  (forall o, expected_owner q = Some o -> exists m, metadata r = Some m /\ owner_connection m = o)).
Proof.
  unfold check_record. cbv zeta. repeat check_if. split; [done|]. split; [done|]. split; [done|]. split_and!.
  - intros m Em. rewrite Em in C, C0. split; [done|]. by apply negb_false_iff, bytes_eqb_eq in C0.
  - apply andb_false_iff in C5 as [E|E]; apply negb_false_iff in E; [left; by apply is_empty_true|by right].
  - intros o Eo. rewrite Eo in C1. apply negb_false_iff in C1. destruct (metadata r) as [m|]; [|done]. exists m. split; [done|by apply bytes_eqb_eq].
Qed.

Lemma check_lease_spec time r j v : check_lease settings me cached q time r j = Ok v -> (0 <= time /\ time + llease_ms settings <= INT64_MAX)%Z /\
  verdict_ok v (fun j' r' => r' = rebuilt me cached r /\ (owner r = me \/ (expires_ms r <= time)%Z) /\ facts j' = facts j /\ replay (plan j') = replay (plan j) /\
    delivery (image j') = delivery (snapshot r') /\ timers (image j') = timers (snapshot r')).
Proof.
  unfold check_lease. destruct (_ || _) eqn:E; [done|]. apply orb_false_iff in E as [E1%Z.ltb_ge E2%Z.ltb_ge]. intros H. split; [lia|]. revert H.
  destruct (_ && _) eqn:E; [intros [= <-]; apply elsewhere_failed|]. cbv zeta. destruct (_ <? _); [by intros [= <-]|]. intros (n & _ & H)%bind_ok.
  destruct (negb _ && _) in H; injection H as <-; cbn; [done|]. split_and!; try done.
  apply andb_false_iff in E as [E|E]; [left; by apply negb_false_iff, bytes_eqb_eq in E|right; by apply Z.ltb_ge].
Qed.

Lemma check_timer_spec time j j' : check_timer_fire q time j = Ok j' -> facts j' = facts j /\ image j' = image j /\
  (replay (plan j') = false -> replay (plan j) = false /\ forall f, timer q = Some f -> exists t, map_find (fire_key f) (tentries (timers (image j))) = Some t /\
    tgeneration t = fire_generation f /\ due_ms t = fire_due f).
Proof.
  unfold check_timer_fire. destruct (timer q) as [f|]; [|by intros [= <-]]. destruct (map_find _ _) as [t|] eqn:Ef; [|by intros [= <-]].
  destruct (_ || _) eqn:E; [by intros [= <-]|]. intros (w & _ & [= <-])%bind_ok. split; [done|]. split; [done|]. intros H. split; [done|].
  intros f' [= <-]. exists t. apply orb_false_iff in E as [[E1 E2]%orb_false_iff _]. split; [done|].
  split; [by apply negb_false_iff, bytes_eqb_eq in E1|by apply negb_false_iff, Z.eqb_eq in E2].
Qed.

Lemma check_ack_spec r j : verdict_ok (check_ack q r j) (fun j' r' => r' = r /\ facts j' = facts j /\ plan j' = plan j /\
  acknowledged (delivery (image j)) (delivery (image j')) /\ timers (image j') = timers (image j)).
Proof.
  unfold check_ack, acknowledged. destruct (ack q) as [a|]; [|done]. cbv zeta. destruct (N.eqb_spec (depoch (delivery (image j))) (ack_epoch a)) as [E|]; [|done]. cbn [negb].
  destruct (complete_message _ _) as [l|] eqn:El; [|done]. cbn. split_and!; try done. by exists l.
Qed.

Lemma check_receipts_spec r j : verdict_ok (check_receipts settings me q r j) (fun j' r' => r' = r /\
  (jmetadata (facts j') = jmetadata (facts j) /\ jplacement (facts j') = jplacement (facts j) /\ jtransfer (facts j') = jtransfer (facts j) /\ created (facts j') = created (facts j)) /\
  (state (image j') = state (snapshot r) /\ receipts (image j') = receipts (snapshot r) /\ timers (image j') = timers (image j)) /\ delivery (image j') = delivery (image j) /\
  (replay (plan j') = false -> replay (plan j) = false /\ (qrequest_id q <> [] -> find_receipt q (receipts (snapshot r)) = None))).
Proof.
  unfold check_receipts. destruct (_ && _); [done|]. cbv zeta. destruct (is_empty (qrequest_id q)) eqn:Ei.
  - destruct (_ <? _); [done|]. apply is_empty_true in Ei. cbn. by split_and!.
  - destruct (find_receipt q _) as [x|] eqn:Ef.
    + destruct (_ || _); [done|]. destruct (_ <? _); [done|]. cbn. split_and!; done.
    + destruct (_ <? _); [done|]. cbn. split_and!; try done.
Qed.

(** ** The committed record *)

Lemma trim_suffix l : forall n, exists d, l = d ++ trim_receipts settings l n.
Proof.
  induction l as [|x l IH]; intros n; cbn [trim_receipts]; [by exists []|]. destruct (_ || _); [|by exists []].
  destruct (IH (n - receipt_bytes x)) as [d Hd]. exists (x :: d). cbn. by f_equal.
Qed.

(** The newest receipt is kept. *)
Lemma trim_keeps l x : 0 < lreceipts settings -> receipt_bytes x <= lreceipt_bytes settings ->
  exists d, trim_receipts settings (l ++ [x]) (total_receipts (l ++ [x])) = d ++ [x].
Proof.
  intros Hl Hx. induction l as [|y l IH]; cbn [app trim_receipts].
  - exists []. cbn. rewrite (proj2 (N.ltb_ge _ 1)), (proj2 (N.ltb_ge _ _)) by lia. done.
  - destruct (_ || _); [|by exists (y :: l)]. replace (total_receipts (y :: l ++ [x]) - receipt_bytes y) with (total_receipts (l ++ [x])) by (change (total_receipts (y :: l ++ [x])) with (receipt_bytes y + total_receipts (l ++ [x])); lia). done.
Qed.

Lemma find_receipt_app l x : find_receipt q l = None -> eid x = qrequest_id q -> find_receipt q (l ++ [x]) = Some x.
Proof.
  intros H E. induction l as [|y l IH]; cbn in *; [by rewrite E, bytes_eqb_refl|]. destruct (bytes_eqb _ _); [done|by apply IH].
Qed.

Lemma find_receipt_suffix d l : find_receipt q (d ++ l) = None -> find_receipt q l = None.
Proof. induction d as [|y d IH]; cbn; [done|]. by destruct (bytes_eqb _ _). Qed.

Lemma add_receipt_spec payload out l rs : add_receipt settings q payload out l = Some rs -> qrequest_id q <> [] -> 0 < lreceipts settings ->
  find_receipt q l = None -> exists x, find_receipt q rs = Some x /\ x = MkReceipt (qrequest_id q) (qroute q) payload out.
Proof.
  unfold add_receipt. intros H Hi Hl Hn. rewrite (proj2 (is_empty_false (qrequest_id q)) Hi) in H. cbv zeta in H. set (x := MkReceipt _ _ _ _) in *.
  destruct (N.ltb_spec (lreceipt_bytes settings) (receipt_bytes x)) as [|Hx]; [done|]. injection H as <-. exists x. split; [|done].
  destruct (trim_keeps l x Hl Hx) as [d Hd]. rewrite Hd. destruct (trim_suffix (l ++ [x]) (total_receipts (l ++ [x]))) as [d' Hd']. rewrite Hd, app_assoc in Hd'.
  apply app_inj_tail in Hd' as [-> _]. apply find_receipt_app; [by eapply find_receipt_suffix|done].
Qed.

(** What every commit keeps of the job's grant. *)
Lemma committed_facts j r : committed_record me q j = Ok (Some r) ->
  fence r = jfence (grant j) /\ (owner r = me \/ owner r = []) /\ (expires_ms r = jexpires (grant j) \/ expires_ms r = 0%Z) /\
  (is_destroy_route q = false -> receipts (snapshot r) = receipts (image j) /\ delivery (snapshot r) = delivery (image j) /\ timers (snapshot r) = timers (image j)) /\
  (is_destroy_route q = true -> forall m, metadata r = Some m -> destroyed m = true).
Proof.
  unfold committed_record. cbv zeta. intros (m & _ & [= H])%bind_ok. destruct m as [[m|]|]; [| |done]; injection H as <-.
  - destruct (rebuildable m), (is_destroy_route q) eqn:Ed, (is_control q) eqn:Ec; cbn; split_and!; try done; try (by left); try (by right); by intros _ ? [= <-].
  - destruct (is_control q); cbn; split_and!; try done; try (by left); by right.
Qed.

Lemma committed_wf j r : committed_record me q j = Ok (Some r) -> snapshot_wf (image j) -> (jexpires (grant j) <= INT64_MAX)%Z -> jtransfer (facts j) < 2 ^ 64 ->
  jversion (grant j) < 2 ^ 64 -> (forall m, jmetadata (facts j) = Some m -> owner_revision m < 2 ^ 64) -> record_wf r.
Proof.
  unfold committed_record. cbv zeta. intros (m & Hm & [= H])%bind_ok [S1 S2] He Ht Hv Hr. unfold INT64_MAX in *.
  assert (Hrev : forall m0, m = Some (Some m0) -> owner_revision m0 < 2 ^ 64).
  { intros m0 ->. destruct (new_owner q) as [c|]; [|by injection Hm as Hm; apply Hr]. destruct (jmetadata (facts j)) as [m1|]; [|done].
    specialize (Hr m1 eq_refl). destruct (N.eqb_spec (owner_revision m1) u64_max) as [|E]; [done|]. apply bind_ok in Hm as (k & _ & [= <-]). unfold u64_max in E. cbn. lia. }
  destruct m as [[m|]|]; [| |done]; injection H as <-.
  - specialize (Hrev m eq_refl).
    destruct (rebuildable m), (is_destroy_route q), (is_control q), (is_empty (handoff_target q)); (split; [by first [done|split; [exact no_delivery_wf|exact no_timers_wf]]|]); (split; [unfold INT64_MAX; cbn; lia|]); (split; [done|]); by intros ? [= <-].
  - destruct (is_control q), (is_empty (handoff_target q)); (split; [done|]); (split; [unfold INT64_MAX; cbn; lia|]); by split.
Qed.

(** The pieces of a settled job. *)
Definition job_output (j : Job) (x : Effects) : bytes := if is_some (timer_event (plan j)) then lit "1" else xpayload x.

Lemma settle_Some j x r out : settle SHA256 settings me q j x = Ok (inr (r, out)) -> exists rs d o,
  add_receipt settings q (jpayload (plan j)) (job_output j x) (receipts (image j)) = Some rs /\
  (match incoming q with
   | None => Ok (Some (xdelivery x, job_output j x))
   | Some e => record_delivery SHA256 e (delivery_value q (job_output j x) x) (xdelivery x)
   end) = Ok (Some (d, o)) /\
  committed_record me q (with_jimage j (MkSnapshot (xstate x) rs d (xtimers x))) = Ok (Some r) /\
  out = if is_empty (handoff_target q) then o else integer (jversion (grant j)).
Proof.
  unfold settle. intros (i & Hi & H)%bind_ok. unfold settle_image in Hi. cbv zeta in Hi. fold (job_output j x) in Hi.
  destruct (add_receipt _ _ _ _ _) as [rs|]; [|injection Hi as <-; done].
  apply bind_ok in Hi as (rec & Hrec & Hi). injection Hi as <-. destruct rec as [[d o]|]; [|done]. destruct (_ || _); [done|]. apply bind_ok in H as (r0 & Hc & H). injection H as H.
  destruct r0 as [r0|]; [|done]. injection H as <- <-. by exists rs, d, o.
Qed.

Lemma record_delivery_spec e v d d' o : record_delivery SHA256 e v d = Ok (Some (d', o)) -> exists channel digest,
  delivery_channel (source_type e) (source_id e) (source_epoch e) = Ok channel /\ delivery_digest SHA256 e = Ok digest /\
  d' = MkState (depoch d) (sent d) (map_insert channel (MkCursor (msequence (emessage e)) digest v) (inbox d)) (outbox d).
Proof.
  unfold record_delivery. destruct (_ <? _); [done|]. intros (ch & Hc & H)%bind_ok. apply bind_ok in H as (dg & Hd & H). apply bind_ok in H as (w & _ & [= <- _]). by exists ch, dg.
Qed.

Lemma settle_wf j x r out : settle SHA256 settings me q j x = Ok (inr (r, out)) -> delivery_wf (xdelivery x) -> timers_wf (xtimers x) ->
  (forall e, incoming q = Some e -> message_wf (emessage e)) -> (jexpires (grant j) <= INT64_MAX)%Z -> jtransfer (facts j) < 2 ^ 64 ->
  jversion (grant j) < 2 ^ 64 -> (forall m, jmetadata (facts j) = Some m -> owner_revision m < 2 ^ 64) -> record_wf r.
Proof.
  intros (rs & d & o & _ & Hd & Hc & _)%settle_Some Hdw Htw Hq H1 H2 H3 H4. apply (committed_wf _ _ Hc); try done. split; cbn; [|done].
  destruct (incoming q) as [e|]; [|by injection Hd as <- _]. apply record_delivery_spec in Hd as (ch & dg & _ & _ & ->).
  destruct Hdw as (W1 & W2 & W3 & W4 & W5 & W6). split_and!; try done; cbn.
  - by apply map_wf_insert.
  - apply Forall_map_insert; [|done]. by apply Hq.
Qed.
End Host.
