(* ===== verification/HostCorrect.v ===== *)
(** * The entity host's transactions are atomic

    Acquisition, operation and commit, composed as [EntityScriptHost] composes them, against any
    other clients of the storage: what each write replaces, who may lead an entity
    under a fence, and that a keyed request or a delivery takes effect once. *)

From stdpp Require Import gmap.
From S2P Require Import TimerService TimerScan Prelude OrderedMap Identity Values AttributeWire AttributeCodec Messages MessagesCorrect Fields TimerState TimerCorrect DeliveryState DeliveryCorrect Records RecordsCorrect Storage StorageCorrect Programs TimerIndex TimerIndexCorrect Directory Delivery Transport HostJobs HostRecords.

(** The record a store holds under a key. *)
Definition stores (st : store) (key : bytes) (r : EntityRecord) : Prop := exists s, cell st key = Some s /\ decode_entity_record (svalue s) = Ok r.

Definition same_elsewhere (key : bytes) (st st' : store) : Prop := forall k, k <> key -> cell st' k = cell st k.

(** ** The operation's messages *)

Inductive delivery_change SHA256 settings : EntityDeliveryState -> EntityDeliveryState -> Prop :=
  | change_send source type id method payload epoch free d d' growth t :
      stage_message SHA256 settings source type id method payload epoch free d = Ok (Some (d', growth, t)) -> delivery_change SHA256 settings d d'
  | change_forget t d d' : forget_delivery t d = Some d' -> delivery_change SHA256 settings d d'.

(** ** The transaction of one request *)

Inductive reply := refused | replayed (out : bytes) | committed (r : EntityRecord) (out : bytes).

Section Transaction.
Context (SHA256 : bytes -> bytes) (settings : EntityRuntimeLimits) (me : bytes) (cached : N) (q : HostRequest).
(** The operation of the request, with every check of the owner thread that can refuse it. *)
Context (enabled : bool) (body : Job -> option Effects) (id : bytes).

Definition transaction (clock clock' : nat -> Z) : prog reply :=
  do j <- acquire_job SHA256 settings me cached q id clock;
  if negb (bool_decide (jstatus (outcome j) = ok)) then Return (Ok refused)
  else if replay (plan j) then Return (Ok (replayed (joutput (plan j))))
  else
    let j := open_delivery enabled j in
    match body j with
    | None => Return (Ok refused)
    | Some x =>
        do s <- Return (settle SHA256 settings me q j x);
        match s with
        | inl _ => Return (Ok refused)
        | inr (r, out) =>
            do w <- Return (encode_entity_record r);
            do won <- commit_job id clock' (grant j) (timer_entry q id j x) w;
            Return (Ok (if won then committed r out else refused))
        end
    end.

(** The record [r] gives way to a lease of this host. *)
Definition lease_of (r r' : EntityRecord) : Prop :=
  exists time, (owner r = me \/ (expires_ms r <= time)%Z) /\ (placement r = [] \/ entity_node_matches me (placement r) = true) /\
    (forall m, metadata r = Some m -> destroyed m = false /\ metadata_type m = qtype q) /\ r' = leased settings me time (rebuilt me cached r).

(** The record [r], or its rebuilt image, is the one the operation worked on. *)
Definition commit_of (r r' : EntityRecord) (out : bytes) : Prop :=
  exists b j x, (b = r \/ b = rebuilt me cached r) /\ prepared me q b j /\ replay (plan j) = false /\
    body (open_delivery enabled j) = Some x /\ settle SHA256 settings me q (open_delivery enabled j) x = Ok (inr (r', out)).

Inductive host_write (key : bytes) (st st' : store) : Prop :=
  | hw_lease r r' : stores st key r -> lease_of r r' -> stores st' key r' -> same_elsewhere key st st' -> host_write key st st'
  | hw_arm e : arm_effect e st st' -> iid e = id -> host_write key st st'
  | hw_commit r r' out : stores st key r -> commit_of r r' out -> stores st' key r' -> same_elsewhere key st st' -> host_write key st st'
  | hw_release r : stores st key r -> owner r = me -> stores st' key (released r) -> same_elsewhere key st st' -> host_write key st st'.

(** The values an operation gets and leaves fit their types (versions are 64-bit), and it changes the
    delivery state only by sending and forgetting messages. *)
Definition typed : Prop := forall j x, body j = Some x ->
  jversion (grant j) < 2 ^ 64 /\ delivery_wf (xdelivery x) /\ timers_wf (xtimers x) /\ rtc (delivery_change SHA256 settings) (delivery (image j)) (xdelivery x).
Definition typed_request : Prop := forall e, incoming q = Some e -> message_wf (emessage e).

(** A record decoded from [s], which was current, and the job that works on it. *)
Definition acquired (key : bytes) (j : Job) (st : store) : Prop :=
  exists s r b, observed st key s /\ 0 < sversion s /\ jversion (grant j) = sversion s /\ decode_entity_record (svalue s) = Ok r /\
    (b = r \/ b = rebuilt me cached r) /\ prepared me q b j.

Lemma acquired_stable key j st st' : any_client st st' -> acquired key j st -> acquired key j st'.
Proof. intros [_ H] (s & r & b & H1 & H2 & H3). exists s, r, b. split; [by apply H|done]. Qed.

Section Rely.
Context (R : store -> store -> Prop) {R_refl : Reflexive R} {R_trans : Transitive R} (R_any : forall st st', R st st' -> any_client st st').
Context (key : bytes).

(** A check of the acquisition passes its facts on. *)
Lemma wp_when_go G v k (P : Job -> EntityRecord -> Prop) (Q : Job + Job -> store -> Prop) st : verdict_ok v P ->
  (forall j st, jstatus (outcome j) <> ok -> Q (inl j) st) -> (forall j r, P j r -> wp R G (k j r) Q st) -> wp R G (when_go v k) Q st.
Proof. intros Hv HQ Hk. destruct v as [j|j r]; cbn in *; [intros; by apply HQ|by apply Hk]. Qed.

Lemma wp_check_incoming G r j st (Q : verdict -> store -> Prop) :
  (forall v st', R st st' -> verdict_ok v (fun j' r' => r' = r /\ facts j' = facts j /\ image j' = image j /\
     (replay (plan j') = false -> replay (plan j) = false /\ forall e, incoming q = Some e -> initialized r = true /\ depoch (delivery (image j)) = target_epoch (emessage e) /\
        exists channel, delivery_channel (source_type e) (source_id e) (source_epoch e) = Ok channel /\
        msequence (emessage e) = match map_find channel (inbox (delivery (image j))) with Some c => csequence c + 1 | None => 1 end)) -> Q v st') ->
  wp R G (check_incoming SHA256 settings q r j) Q st.
Proof.
  intros HQ. unfold check_incoming. destruct (incoming q) as [e|]; [|cbn; intros st1 H1; by apply HQ]. cbv zeta.
  destruct (initialized r) eqn:Hi; cbn [negb orb]; [|cbn; intros st1 H1; by apply HQ].
  destruct (N.eqb_spec (depoch (delivery (image j))) (target_epoch (emessage e))) as [He|]; cbn [negb]; [|cbn; intros st1 H1; by apply HQ].
  destruct (delivery_channel _ _ _) as [ch|] eqn:Ech; cbn [pbind]; [|done].
  set (d := delivery (image j)) in *. set (m := emessage e) in *. set (found := map_find ch (inbox d)).
  match goal with |- wp _ _ (match _ with Some c => if _ then _ else ?p | None => _ end) _ _ => set (next := p) end.
  assert (Hnext : (forall c, found = Some c -> csequence c < msequence m) -> wp R G next Q st).
  { intros Hlt. unfold next. destruct (N.eqb_spec (msequence m) (match found with Some c => wrap64 (csequence c + 1) | None => 1 end)) as [Hm|]; cbn [negb orb].
    2:{ cbn. intros st1 H1. by apply HQ. }
    destruct (_ && _); [cbn; intros st1 H1; by apply HQ|]. destruct (entity_id_of_text (source_id e)) as [sid|]; cbn [pbind]; [|done].
    cbn [db_get pbind wp]. intros st1 H1. destruct (cell st1 _) as [s|]; cbn [pbind]; [|cbn; intros st2 H2; apply HQ; [by transitivity st1|done]].
    destruct (decode_entity_record _) as [sr|]; cbn [pbind]; [|done]. destruct (valid_source e sr) as [[]|]; cbn [pbind]; [| |done].
    2:{ cbn. intros st2 H2. apply HQ; [by transitivity st1|done]. }
    cbn. intros st2 H2. apply HQ; [by transitivity st1|]. cbn. split_and!; try done. intros Hr. split; [done|]. intros e' [= <-]. split_and!; try done.
    exists ch. split; [done|]. fold d m found. rewrite Hm. destruct found as [c|] eqn:Ef; [|done]. specialize (Hlt c eq_refl).
    pose proof (N.Div0.mod_le (csequence c + 1) (2 ^ 64)) as Hle. unfold wrap64 in *. lia. }
  destruct found as [c|] eqn:Ef; [|by apply Hnext]. destruct (N.leb_spec (msequence m) (csequence c)) as [Hle|Hlt]; [|apply Hnext; by intros c' [= <-]].
  destruct (if msequence m =? csequence c then _ else _) as [[]|]; cbn [pbind negb]; [| |done]; [|cbn; intros st1 H1; by apply HQ].
  destruct (encode_delivery_ack _ _) as [out|]; cbn [pbind]; [|done]. cbn. intros st1 H1. by apply HQ.
Qed.

Definition attempt_post (v : Job + Job) (st : store) : Prop :=
  match v with inl j => jstatus (outcome j) = ok -> acquired key j st | inr _ => store_wf st end.

(** The record a store holds after a write of an encoded record. *)
Lemma wrote_stores st st' r w : wrote st key (Some w) st' -> encode_entity_record r = Ok w -> record_wf r -> stores st' key r.
Proof.
  intros Hw He Hr. destruct (wrote_cell _ _ _ _ Hw) as (n & _ & Hc). exists (MkStored w n). split; [done|]. by apply (record_decodes r).
Qed.

Lemma wp_acquire_once time j st : store_wf st -> wp R (host_write key) (acquire_once SHA256 settings me cached q key time j) attempt_post st.
Proof.
  intros Hw. unfold acquire_once. cbn [db_get pbind wp]. intros st1 H1. assert (Hw1 : store_wf st1) by by apply (R_any _ _ H1).
  destruct (cell st1 key) as [s|] eqn:Hc; cbn [pbind]; [|cbn; intros st2 _ H; done].
  destruct (decode_entity_record (svalue s)) as [r|] eqn:Hd; cbn [pbind]; [|done].
  assert (Hobs : forall st2, R st1 st2 -> observed st2 key s /\ 0 < sversion s).
  { intros st2 H2. pose proof (Hw1 _ _ Hc). split; [|lia]. apply (R_any _ _ H2); [lia|by apply observed_now]. }
  eapply wp_when_go; [apply check_record_spec|by intros ? ? H1' H2'|]. intros j1 r1 (-> & P1 & F1 & L1 & Pl1 & Ex1).
  destruct (check_lease settings me cached q time r j1) as [v|] eqn:Hl; cbn [pbind]; [|done]. apply check_lease_spec in Hl as [Ht Hl].
  eapply wp_when_go; [exact Hl|by intros ? ? H1' H2'|]. intros j2 b (-> & Own & F2 & P2 & D2 & T2). set (b := rebuilt me cached r) in *.
  destruct (check_timer_fire q time j2) as [j3|] eqn:Hf; cbn [pbind]; [|done]. apply check_timer_spec in Hf as (F3 & I3 & P3).
  apply wp_bind; [exact _..|]. apply wp_check_incoming. intros v2 st2 H2 Hv.
  eapply wp_when_go; [exact Hv|by intros ? ? H1' H2'|]. intros j4 r4 (-> & F4 & I4 & P4).
  eapply wp_when_go; [apply check_ack_spec|by intros ? ? H1' H2'|]. intros j5 r5 (-> & F5 & P5 & A5 & T5).
  eapply wp_when_go; [apply check_receipts_spec|by intros ? ? H1' H2'|]. intros j6 r6 (-> & F6 & I6 & D6 & P6).
  destruct (rebuilt_facts me cached r) as (E1 & E2 & E3 & E4 & E5 & E6 & E7 & E8 & E9). fold b in E1, E2, E3, E4, E5, E6, E7, E8, E9.
  assert (Hck : checked me q b j6).
  { destruct F1 as (M1 & M2 & M3 & M4), F6 as (N1 & N2 & N3 & N4), I6 as (I61 & I62 & I63). rewrite F5, F4, F3, F2 in N1, N2, N3, N4. constructor.
    - rewrite E4, E5, E6, E7. split_and!; congruence.
    - by rewrite E7.
    - by rewrite E5.
    - by rewrite E7.
    - split_and!; [done|done|congruence].
    - rewrite D6. by rewrite <- D2, <- I3, <- I4.
    - intros Hr. by apply P6.
    - intros Hr. rewrite E4. apply P6 in Hr as [Hr _]. rewrite P5 in Hr. apply P4 in Hr as [_ Hr]. rewrite I3, D2, E4 in Hr. done.
    - intros Hr. apply P6 in Hr as [Hr _]. rewrite P5 in Hr. apply P4 in Hr as [Hr _]. apply P3 in Hr as [_ Hr]. by rewrite T2 in Hr. }
  destruct (reusable settings me time b) eqn:Hre.
  { cbn. intros st3 H3 _. destruct (Hobs st3) as [O1 O2]; [by transitivity st2|]. exists s, r, b. split_and!; try done; [by right|].
    apply andb_true_iff in Hre as [Hre%bytes_eqb_eq _]. split; [by apply checked_grant|done|done]. }
  destruct (_ <=? _); [done|]. cbv zeta. destruct (encode_entity_record (leased settings me time b)) as [w|] eqn:Henc; cbn [pbind]; [|done].
  destruct (decode_record_wf _ _ Hd) as [Hwf Hfence].
  assert (Hlwf : record_wf (leased settings me time b)) by (apply leased_wf; [by apply rebuilt_wf|lia]).
  cbn [db_compare_exchange pbind wp]. intros st3 H3 x st4 Ha. destruct (Hobs st3) as [O1 O2]; [by transitivity st2|].
  assert (B3 : any_client st st3) by (apply R_any; transitivity st1; [done|]; by transitivity st2).
  assert (Hw4 : store_wf st4) by (eapply allowed_wf; [|exact Ha]; by apply B3).
  split.
  { destruct (cas_observed _ _ _ _ _ _ O1 Ha) as [->|[Hc3 Hwr]]; [by left|right]. eapply (hw_lease _ _ _ r); [by exists s| |by eapply wrote_stores|exact (wrote_frame _ _ _ _ Hwr)].
    exists time. split_and!; try done. }
  destruct x as [[]|]; cbn [negb]; [| |done].
  2:{ cbn. intros st5 H5. destruct Ha as [_ ->]. by apply (R_any _ _ H5), B3. }
  cbn [pbind wp]. intros st5 H5. destruct (cell st5 key) as [g|] eqn:Hg; [|cbn; by intros ? _ ?].
  destruct (bytes_eqb_spec (svalue g) w) as [Eg|]; [|cbn; by intros ? _ ?]. cbn. intros st6 H6 _.
  assert (Hw5 : store_wf st5) by by apply (R_any _ _ H5). pose proof (Hw5 _ _ Hg) as Hpos.
  exists g, (leased settings me time b), (leased settings me time b). split_and!; try done.
  - apply (R_any _ _ H6); [lia|by apply observed_now].
  - lia.
  - rewrite Eg. by apply record_decodes.
  - by left.
  - split; [|done|done]. by apply checked_leased, checked_grant.
Qed.

Lemma wp_acquire_loop n clock : forall j st, store_wf st ->
  wp R (host_write key) (acquire_loop SHA256 settings me cached q n key clock j) (fun j st => jstatus (outcome j) = ok -> acquired key j st) st.
Proof.
  induction n as [|n IH]; intros j st Hw; cbn [acquire_loop]; [cbn; by intros ? _ ?|]. apply wp_bind; [exact _..|].
  eapply (wp_mono R); [|by apply wp_acquire_once]. intros [j'|j'] st' H; [|by apply IH]. cbn. intros st2 H2 Hok. eapply acquired_stable; [by apply R_any|by apply H].
Qed.

Context (e : EntityId) (Hid : entity_id_of_text id = Ok e) (Hkey : key = entity_record_key e) (Hbody : typed) (Hreq : typed_request).
Context (Q : reply -> store -> Prop) (Q_refused : forall st, Q refused st) (Q_replayed : forall out st, Q (replayed out) st).
Context (Q_committed : forall r out st st', stores st key r -> R st st' -> Q (committed r out) st').

Lemma open_same j : facts (open_delivery enabled j) = facts j /\ plan (open_delivery enabled j) = plan j /\ grant (open_delivery enabled j) = grant j.
Proof. unfold open_delivery. cbv zeta. by destruct (_ && _). Qed.

(** What the commit knows of its job. *)
Lemma settled_record j st x r' out : acquired key j st -> body (open_delivery enabled j) = Some x ->
  settle SHA256 settings me q (open_delivery enabled j) x = Ok (inr (r', out)) ->
  record_wf r' /\ (forall en, timer_entry q id (open_delivery enabled j) x = Some en -> entry_wf en /\ iid en = id).
Proof.
  intros (s & r & b & _ & _ & Hv & Hd & Hb & [[(K1 & K2 & K3 & K4) _ _ _ _ _ _ _ _] Ho [G1 G2]]) Hx Hs. destruct (open_same j) as (O1 & O2 & O3).
  destruct (Hbody _ _ Hx) as (V & Dw & Tw & _). destruct (decode_record_wf _ _ Hd) as [[_ (N1 & N2 & N3)] Hf].
  assert (Eb : expires_ms b = expires_ms r /\ fence b = fence r /\ transfer_id b = transfer_id r /\ metadata b = metadata r).
  { destruct Hb as [->| ->]; [done|]. destruct (rebuilt_facts me cached r) as (E1 & E2 & E3 & E4 & E5 & E6 & E7 & E8 & E9). done. }
  destruct Eb as (B1 & B2 & B3 & B4). split.
  - apply (settle_wf _ _ _ _ _ _ _ _ Hs); try done; rewrite ?O1, ?O3.
    + by rewrite G2, B1.
    + by rewrite K3, B3.
    + intros m Hm. apply N3. by rewrite <- B4, <- K1.
  - intros en. unfold timer_entry. cbv zeta. destruct (_ || _); [|done]. intros [= <-]. split; [|done]. split; [done|]. split; cbn [ifence idue_ms].
    + rewrite O3, G1, B2. unfold i64_max in Hf. lia.
    + by apply next_bound.
Qed.

Lemma wp_commit j st x r' out w clock : store_wf st -> acquired key j st -> replay (plan j) = false -> body (open_delivery enabled j) = Some x ->
  settle SHA256 settings me q (open_delivery enabled j) x = Ok (inr (r', out)) -> encode_entity_record r' = Ok w ->
  wp R (host_write key) (commit_job id clock (grant (open_delivery enabled j)) (timer_entry q id (open_delivery enabled j) x) w)
    (fun won st => wp R (host_write key) (Return (Ok (if won then committed r' out else refused))) Q st) st.
Proof.
  intros Hw Hacq Hrep Hx Hs Henc. destruct (settled_record _ _ _ _ _ Hacq Hx Hs) as [Hwf Hen]. unfold commit_job.
  assert (Hfalse : forall st, wp R (host_write key) (Return (Ok false)) (fun won st => wp R (host_write key) (Return (Ok (if won then committed r' out else refused))) Q st) st).
  { intros st0. cbn. intros. apply Q_refused. }
  destruct (_ <=? _)%Z; [apply Hfalse|]. apply wp_bind; [exact _..|]. eapply (wp_mono R _ _ (fun _ st' => store_wf st' /\ acquired key j st')).
  - intros _ st1 [Hw1 Hacq1]. destruct (_ <=? _)%Z; [apply Hfalse|]. rewrite Hid. cbn [pbind db_compare_exchange wp]. rewrite <- Hkey. intros st2 H2 res st3 Ha.
    destruct (acquired_stable key j st1 st2 (R_any _ _ H2) Hacq1) as (s & r & b & O1 & O2 & Hv & Hd & Hb & Hp).
    rewrite (proj2 (proj2 (open_same j))), Hv in Ha. assert (Hcas := cas_observed _ _ _ _ _ _ O1 Ha).
    split.
    { destruct Hcas as [->|[Hc2 Hwr]]; [by left|right]. eapply (hw_commit _ _ _ r r' out); [by exists s| |by eapply wrote_stores|exact (wrote_frame _ _ _ _ Hwr)].
      by exists b, j, x. }
    destruct res as [[]|]; [| |done]; cbn; intros st4 H4 st5 H5; [|apply Q_refused]. apply (Q_committed _ _ st3); [|by transitivity st4].
    destruct Ha as (_ & _ & Hwr). by eapply wrote_stores.
  - destruct (timer_entry _ _ _ _) as [en|]; [|cbn; intros st1 H1; split; [by apply (R_any _ _ H1)|by eapply acquired_stable; [apply R_any|]]].
    destruct (Hen en eq_refl) as [Hewf Heid].
    eapply (wp_mono R); [|apply (wp_history R _ (arm en) (fun _ _ => True) st st); [exact _|exact _|done|done|]].
    { intros _ st1 [_ Hany]. split; [by apply Hany|by eapply acquired_stable]. }
    eapply (wp_weaken R (arm_effect en)); [intros a c Hac; by apply (hw_arm _ _ _ en)|]. by apply wp_arm.
Qed.

Lemma wp_transaction clock clock' st : store_wf st -> wp R (host_write key) (transaction clock clock') Q st.
Proof.
  intros Hw. unfold transaction, acquire_job. apply wp_bind; [exact _..|]. rewrite Hid. cbn [pbind]. rewrite <- Hkey.
  eapply (wp_mono R); [|apply (wp_history R _ _ (fun j st => jstatus (outcome j) = ok -> acquired key j st) st st); [exact _|exact _|done|done|by apply wp_acquire_loop]]. intros j st1 [Hacq Hany].
  assert (Hw1 : store_wf st1) by by apply Hany.
  case_bool_decide as Hok; cbn [negb]; [|cbn; intros; apply Q_refused]. specialize (Hacq Hok).
  destruct (replay (plan j)) eqn:Hrep; [cbn; intros; apply Q_replayed|]. cbv zeta.
  destruct (body _) as [x|] eqn:Hx; [|cbn; intros; apply Q_refused].
  destruct (settle _ _ _ _ _ _) as [[st0|[r' out]]|] eqn:Hs; cbn [pbind]; [cbn; intros; apply Q_refused| |done].
  destruct (encode_entity_record r') as [w|] eqn:Henc; cbn [pbind]; [|done]. apply wp_bind; [exact _..|]. by apply wp_commit.
Qed.

Lemma wp_release st (Q' : bool -> store -> Prop) : (forall b st, Q' b st) -> store_wf st -> wp R (host_write key) (release_job me id) Q' st.
Proof.
  intros HQ Hw. unfold release_job. rewrite Hid. cbn [pbind db_get wp]. rewrite <- Hkey. intros st1 H1. assert (Hw1 : store_wf st1) by by apply (R_any _ _ H1).
  destruct (cell st1 key) as [s|] eqn:Hc; cbn [pbind]; [|cbn; auto]. destruct (decode_entity_record (svalue s)) as [r|] eqn:Hd; cbn [pbind]; [|done].
  destruct (bytes_eqb_spec (owner r) me) as [Ho|]; cbn [negb]; [|cbn; auto]. destruct (encode_entity_record (released r)) as [w|] eqn:Henc; cbn [pbind]; [|done].
  cbn [db_compare_exchange pbind wp]. intros st2 H2 x st3 Ha. pose proof (Hw1 _ _ Hc) as Hpos.
  assert (Hobs : observed st2 key s) by (apply (R_any _ _ H2); [lia|by apply observed_now]).
  split; [|destruct x; [cbn; auto|done]]. destruct (cas_observed _ _ _ _ _ _ Hobs Ha) as [->|[Hc2 Hwr]]; [by left|right].
  eapply (hw_release _ _ _ r); [by exists s|done|eapply wrote_stores; [exact Hwr|done|]|exact (wrote_frame _ _ _ _ Hwr)].
  destruct (decode_record_wf _ _ Hd) as [[Hs (N1 & N2 & N3)] _]. split; [done|]. split; [done|]. by split.
Qed.
End Rely.

(** C4 (safety).  A host's transaction is atomic.  Whatever other clients do between its calls, every
    write of a request of this host is a lease of the entity's record current at that moment,
    which was this host's own or had expired, the arming of the entity's timer index
    entry, or the commit, which replaces exactly the record whose state the operation worked
    on, still under its fence; the release of a lease replaces the record this host
    owns.  Run alone, a committed request leaves its record in the store. *)
Theorem host_transaction_atomic e clock clock' st :
  entity_id_of_text id = Ok e -> typed -> typed_request -> store_wf st ->
  let key := entity_record_key e in
  wp any_client (host_write key) (transaction clock clock') (fun _ _ => True) st /\
  wp eq (host_write key) (transaction clock clock') (fun x st' => forall r out, x = committed r out -> stores st' key r) st /\
  wp any_client (host_write key) (release_job me id) (fun _ _ => True) st.
Proof.
  intros Hid Hb Hq Hw key. split; [|split].
  - by apply (wp_transaction any_client ltac:(done) key e).
  - apply (wp_transaction eq ltac:(by intros ? ? ->) key e); try done. intros r out st1 st2 H1 <- r' out' [= <- <-]. done.
  - by apply (wp_release any_client ltac:(done) key e).
Qed.
End Transaction.

(** * Histories of an entity's record

    Any number of hosts work on one entity, their writes interleaved with other clients'.  Along
    every history the fence only grows and names one owner, a tombstone is permanent, and
    the delivery cursors and counters of the entity only grow: a delivery takes effect
    once and in order. *)

Definition cursor_of (channel : bytes) (d : EntityDeliveryState) : N := match map_find channel (inbox d) with Some c => csequence c | None => 0 end.
Definition counter_of (channel : bytes) (d : EntityDeliveryState) : N := match map_find channel (sent d) with Some n => n | None => 0 end.

Definition is_tombstone (r : EntityRecord) : Prop := exists m, metadata r = Some m /\ destroyed m = true.

(** [r'] may follow [r] in a history. *)
Record later (r r' : EntityRecord) : Prop := {
  later_fence : fence r <= fence r';
  later_owner : fence r' = fence r -> owner r' = owner r \/ owner r' = [];
  later_dead : is_tombstone r -> is_tombstone r';
  later_delivery : is_tombstone r' \/ forall channel, cursor_of channel (delivery (snapshot r)) <= cursor_of channel (delivery (snapshot r')) /\
    counter_of channel (delivery (snapshot r)) <= counter_of channel (delivery (snapshot r')) }.

#[global] Instance later_refl : Reflexive later.
Proof. intros r. constructor; [done|by left|done|right; done]. Qed.
#[global] Instance later_trans : Transitive later.
Proof.
  intros a b c [A1 A2 A3 A4] [B1 B2 B3 B4]. constructor; [lia| |auto|].
  - intros E. destruct (B2 ltac:(lia)) as [->| ->]; [apply A2; lia|by right].
  - destruct A4 as [A4|A4]; [left; auto|]. destruct B4 as [B4|B4]; [by left|right]. intros ch. specialize (A4 ch). specialize (B4 ch). lia.
Qed.

(** ** One write *)

Lemma stage_inbox SHA256 settings source type id method payload epoch free d d' growth t :
  stage_message SHA256 settings source type id method payload epoch free d = Ok (Some (d', growth, t)) ->
  depoch d' = depoch d /\ inbox d' = inbox d /\ (forall channel, counter_of channel d <= counter_of channel d') /\
  exists channel m, delivery_channel type id epoch = Ok channel /\ outbox d' = outbox d ++ [m] /\ msequence m = counter_of channel d + 1 /\ counter_of channel d' = msequence m /\ mdone m = false.
Proof.
  unfold stage_message. intros (ch & Hch & H)%bind_ok. cbv zeta in H. destruct (_ && _); [done|]. fold (counter_of ch d) in H. destruct (_ =? _); [done|].
  apply bind_ok in H as (tk & _ & H). apply bind_ok in H as (c & _ & H). destruct (_ || _); [done|]. apply bind_ok in H as (p & _ & H). apply bind_ok in H as (w & _ & H).
  destruct (free <? _); [done|]. injection H as <- _ _. cbn. split_and!; [done|done| |].
  - intros k. unfold counter_of at 2. cbn. destruct (decide (k = ch)) as [->|Hne]; [rewrite map_find_insert; lia|]. rewrite map_find_insert_ne by done. done.
  - exists ch. eexists. split_and!; [done|done|done| |done]. unfold counter_of. cbn. by rewrite map_find_insert.
Qed.

Lemma change_keeps SHA256 settings d d' : rtc (delivery_change SHA256 settings) d d' -> inbox d' = inbox d /\ forall channel, counter_of channel d <= counter_of channel d'.
Proof.
  induction 1 as [|d d1 d' H _ [I1 I2]]; [done|]. destruct H as [source type id method payload epoch free d d1 growth t H|t d d1 H].
  - apply stage_inbox in H as (_ & E & Hc & _). split; [congruence|]. intros ch. specialize (Hc ch). specialize (I2 ch). lia.
  - unfold forget_delivery in H. destruct (drop_done t (outbox d)) as [l|]; [|done]. injection H as <-. done.
Qed.

Lemma acknowledged_keeps q d d' : acknowledged q d d' -> inbox d' = inbox d /\ sent d' = sent d.
Proof. unfold acknowledged. destruct (ack q) as [a|]; [|by intros ->]. by intros (_ & l & _ & ->). Qed.

Lemma open_keeps enabled j : inbox (delivery (image (open_delivery enabled j))) = inbox (delivery (image j)) /\ sent (delivery (image (open_delivery enabled j))) = sent (delivery (image j)) /\
  receipts (image (open_delivery enabled j)) = receipts (image j).
Proof. unfold open_delivery. cbv zeta. by destruct (_ && _). Qed.

Lemma rebuilt_cases me cached r b : b = r \/ b = rebuilt me cached r -> owner b = owner r /\ fence b = fence r /\ metadata b = metadata r /\ delivery (snapshot b) = delivery (snapshot r).
Proof. intros [->| ->]; [done|]. destruct (rebuilt_facts me cached r) as (E1 & _ & E3 & _ & _ & _ & E7 & E8 & _). done. Qed.

(** What a commit does to the delivery state, when it does not destroy the entity. *)
Lemma commit_delivery SHA256 settings me cached q enabled body r r' out : typed SHA256 settings body -> commit_of SHA256 settings me cached q enabled body r r' out -> is_destroy_route q = false ->
  (forall channel, counter_of channel (delivery (snapshot r)) <= counter_of channel (delivery (snapshot r'))) /\
  match incoming q with
  | None => inbox (delivery (snapshot r')) = inbox (delivery (snapshot r))
  | Some e => exists channel digest v, delivery_channel (source_type e) (source_id e) (source_epoch e) = Ok channel /\ msequence (emessage e) = cursor_of channel (delivery (snapshot r)) + 1 /\
      delivery_digest SHA256 e = Ok digest /\ inbox (delivery (snapshot r')) = map_insert channel (MkCursor (msequence (emessage e)) digest v) (inbox (delivery (snapshot r)))
  end.
Proof.
  intros Ht (b & j & x & Hb & [Hck _ _] & Hrep & Hx & Hs) Hnd. destruct (rebuilt_cases _ _ _ _ Hb) as (_ & _ & _ & B4).
  destruct (Ht _ _ Hx) as (_ & _ & _ & [I1 I2]%change_keeps). destruct (open_keeps enabled j) as (O1 & O2 & _). destruct (acknowledged_keeps _ _ _ (ck_delivery _ _ _ _ Hck)) as [A1 A2].
  apply settle_Some in Hs as (rs & d & o & _ & Hd & Hc & _). apply committed_facts in Hc as (_ & _ & _ & Hk & _). destruct (Hk Hnd) as (_ & Hdel & _). cbn in Hdel. rewrite Hdel.
  assert (Hcnt : forall ch, counter_of ch (delivery (snapshot r)) <= counter_of ch (xdelivery x)).
  { intros ch. specialize (I2 ch). unfold counter_of in *. rewrite O2, A2, B4 in I2. done. }
  destruct (incoming q) as [e|] eqn:Eq.
  - apply record_delivery_spec in Hd as (ch & dg & E1 & E2 & ->). split; [exact Hcnt|]. destruct (ck_next _ _ _ _ Hck Hrep e Eq) as (_ & _ & ch' & E1' & E3).
    assert (ch' = ch) as -> by congruence. exists ch, dg. eexists. split_and!; try done.
    + rewrite E3, B4. unfold cursor_of. by destruct (map_find ch (inbox (delivery (snapshot r)))) as [c|].
    + cbn. rewrite I1, O1, A1, B4. done.
  - injection Hd as <- _. split; [done|]. congruence.
Qed.

Lemma commit_base SHA256 settings me cached q enabled body r r' out : commit_of SHA256 settings me cached q enabled body r r' out ->
  owner r = me /\ fence r' = fence r /\ (owner r' = me \/ owner r' = []) /\ ~ is_tombstone r /\ (is_destroy_route q = true -> forall m, metadata r' = Some m -> destroyed m = true).
Proof.
  intros (b & j & x & Hb & [Hck Ho [G1 _]] & _ & _ & Hs). destruct (rebuilt_cases _ _ _ _ Hb) as (B1 & B2 & B3 & _). destruct (open_same enabled j) as (_ & _ & O3).
  apply settle_Some in Hs as (rs & d & o & _ & _ & Hc & _). apply committed_facts in Hc as (C1 & C2 & _ & _ & C5). cbn in C1. rewrite O3, G1, B2 in C1.
  split_and!; [congruence|done|done| |done]. intros (m & Hm & Hd). destruct (ck_live _ _ _ _ Hck m); congruence.
Qed.

Lemma commit_next SHA256 settings me cached q enabled body r r' out e : commit_of SHA256 settings me cached q enabled body r r' out -> incoming q = Some e ->
  exists channel, delivery_channel (source_type e) (source_id e) (source_epoch e) = Ok channel /\ msequence (emessage e) = cursor_of channel (delivery (snapshot r)) + 1.
Proof.
  intros (b & j & x & Hb & [Hck _ _] & Hrep & _ & _) He. destruct (rebuilt_cases _ _ _ _ Hb) as (_ & _ & _ & B4).
  destruct (ck_next _ _ _ _ Hck Hrep e He) as (_ & _ & ch & E1 & E2). exists ch. split; [done|]. rewrite E2, B4. unfold cursor_of.
  by destruct (map_find ch (inbox (delivery (snapshot r)))) as [c|].
Qed.

Lemma lease_later settings me cached q r r' : lease_of settings me cached q r r' -> later r r'.
Proof.
  intros (time & _ & _ & Hl & ->). destruct (rebuilt_facts me cached r) as (E1 & E2 & E3 & E4 & E5 & E6 & E7 & E8 & E9). constructor; cbn; rewrite ?E3.
  - lia.
  - lia.
  - intros (m & Hm & Hd). destruct (Hl m Hm). congruence.
  - right. rewrite E8. done.
Qed.

Lemma commit_later SHA256 settings me cached q enabled body r r' out : typed SHA256 settings body -> commit_of SHA256 settings me cached q enabled body r r' out ->
  is_Some (metadata r') -> later r r'.
Proof.
  intros Ht Hc [m Hm]. destruct (commit_base _ _ _ _ _ _ _ _ _ _ Hc) as (C1 & C2 & C3 & C4 & C5). constructor; [lia| |done|].
  - intros _. rewrite C1. tauto.
  - destruct (is_destroy_route q) eqn:Hd; [left; exists m; auto|right]. destruct (commit_delivery _ _ _ _ _ _ _ _ _ _ Ht Hc Hd) as [Hcnt Hin].
    intros ch. split; [|apply Hcnt]. unfold cursor_of. destruct (incoming q) as [e|]; [|by rewrite Hin]. destruct Hin as (ch' & dg & v & _ & Hs & _ & ->).
    destruct (decide (ch = ch')) as [->|Hne]; [|by rewrite map_find_insert_ne]. rewrite map_find_insert. cbn. fold (cursor_of ch' (delivery (snapshot r))). lia.
Qed.

Lemma release_later r : later r (released r).
Proof. constructor; cbn; [lia|by right|done|right; done]. Qed.

(** ** Histories *)

Lemma decoded_metadata w r : decode_entity_record w = Ok r -> is_Some (metadata r).
Proof.
  unfold decode_entity_record. intros (v & Hh & H)%bind_ok. apply bind_ok in H as (s & _ & [= <-]). cbn. revert Hh. unfold header. destruct (negb _); [done|].
  intros ([o i1] & _ & H)%bind_ok. apply bind_ok in H as ([x i2] & _ & H). apply bind_ok in H as ([f i3] & _ & H).
  destruct (_ || _); [done|]. apply bind_ok in H as ([b i4] & _ & H). apply bind_ok in H as ([p i5] & _ & H). apply bind_ok in H as ([t i6] & _ & H).
  destruct (bad_placement _ _); [done|]. apply bind_ok in H as ([ty i7] & _ & H). apply bind_ok in H as ([c i8] & _ & H). destruct i8 as [|y i8]; [done|].
  destruct (_ <? _); [done|]. apply bind_ok in H as ([init i9] & _ & H). destruct (_ <? _); [done|]. apply bind_ok in H as ([rv i10] & _ & H).
  destruct (negb _); [done|]. injection H as <-. by eexists.
Qed.

Lemma stores_same st key r r' : stores st key r -> stores st key r' -> r = r'.
Proof. intros (s & H1 & H2) (s' & H3 & H4). congruence. Qed.

Lemma index_key_ne i key e : storage_key i = Ok key -> key <> entity_record_key e.
Proof. unfold storage_key. destruct (_ <=? _); [done|]. intros [= <-]. unfold entity_record_key. intros H. discriminate H. Qed.

Section History.
Context (SHA256 : bytes -> bytes) (e : EntityId).
Let key := entity_record_key e.

(** A write of some host for some request, or a write of any client elsewhere. *)
Inductive host_step (st st' : store) : Prop :=
  | step_host settings me cached q enabled body id : typed SHA256 settings body -> host_write SHA256 settings me cached q enabled body id key st st' -> host_step st st'
  | step_other : cell st' key = cell st key -> host_step st st'.

Lemma step_later st st' r : host_step st st' -> stores st key r -> exists r', stores st' key r' /\ later r r'.
Proof.
  intros [settings me cached q enabled body id Ht [r0 r' H0 Hl H1 _|en (k & m & Hk & _ & _ & _ & Hf) _|r0 r' out H0 Hc H1 _|r0 H0 Ho H1 _]|He] Hr.
  - rewrite (stores_same _ _ _ _ Hr H0). exists r'. split; [done|by eapply lease_later].
  - exists r. split; [|done]. unfold stores. rewrite Hf; [done|]. intros E. by eapply index_key_ne.
  - rewrite (stores_same _ _ _ _ Hr H0). exists r'. split; [done|]. eapply commit_later; [done|done|]. destruct H1 as (s & _ & H1). by eapply decoded_metadata.
  - rewrite (stores_same _ _ _ _ Hr H0). exists (released r0). split; [done|apply release_later].
  - exists r. split; [|done]. unfold stores. by rewrite He.
Qed.

Lemma history_later st st' r r' : rtc host_step st st' -> stores st key r -> stores st' key r' -> later r r'.
Proof.
  intros H. revert r. induction H as [st|st st1 st' Hs _ IH]; intros r Hr Hr'; [by rewrite (stores_same _ _ _ _ Hr Hr')|].
  destruct (step_later _ _ _ Hs Hr) as (r1 & H1 & H2). etransitivity; [exact H2|by apply IH].
Qed.

(** C5 (safety).  A fence has one owner: along any history of hosts' writes to an entity's record,
    interleaved with any other client's, the fence never decreases, and two records of
    the same fence that name an owner name the same one. *)
Theorem fence_single_owner st st' r r' :
  rtc host_step st st' -> stores st key r -> stores st' key r' ->
  fence r <= fence r' /\ (fence r' = fence r -> owner r <> [] -> owner r' <> [] -> owner r' = owner r).
Proof. intros H Hr Hr'. destruct (history_later _ _ _ _ H Hr Hr') as [L1 L2 _ _]. split; [done|]. intros E _ Hne. by destruct (L2 E). Qed.

(** C6 (safety).  A delivery takes effect once and in order: after a commit of a delivered message, along
    any history, the next commits on the same channel are of later messages only, each
    the successor of the cursor the record holds at that moment. *)
Theorem delivery_applied_once settings me cached q enabled body r r1 out x settings' me' cached' q' enabled' body' r2 r3 out' x' st1 st2 channel :
  typed SHA256 settings body -> commit_of SHA256 settings me cached q enabled body r r1 out -> incoming q = Some x -> is_destroy_route q = false ->
  stores st1 key r1 -> rtc host_step st1 st2 -> stores st2 key r2 ->
  commit_of SHA256 settings' me' cached' q' enabled' body' r2 r3 out' -> incoming q' = Some x' ->
  delivery_channel (source_type x) (source_id x) (source_epoch x) = Ok channel -> delivery_channel (source_type x') (source_id x') (source_epoch x') = Ok channel ->
  msequence (emessage x) < msequence (emessage x') /\ msequence (emessage x') = cursor_of channel (delivery (snapshot r2)) + 1.
Proof.
  intros Ht Hc Hx Hnd H1 Hh H2 Hc' Hx' Ech Ech'. destruct (commit_delivery _ _ _ _ _ _ _ _ _ _ Ht Hc Hnd) as [_ Hin]. rewrite Hx in Hin.
  destruct Hin as (ch & dg & v & E1 & E2 & _ & E3). assert (ch = channel) as -> by congruence.
  destruct (commit_next _ _ _ _ _ _ _ _ _ _ _ Hc' Hx') as (ch & E4 & E5). assert (ch = channel) as -> by congruence.
  destruct (commit_base _ _ _ _ _ _ _ _ _ _ Hc') as (_ & _ & _ & Hlive & _).
  destruct (later_delivery _ _ (history_later _ _ _ _ Hh H1 H2)) as [Hd|Hd]; [done|]. specialize (Hd channel) as [Hd _].
  unfold cursor_of at 1 in Hd. rewrite E3, map_find_insert in Hd. cbn in Hd. lia.
Qed.
End History.

(** C7 (safety).  On an entity that is not rebuildable, whose host keeps receipts, a keyed request commits
    once while its receipt is kept: its commit finds no receipt for its id in the record it
    works on; unless it destroys the entity it leaves its receipt, with its route, in the record it
    commits, and with the reply's data unless it is a delivery or a handoff; and no request commits on a
    record that holds a receipt for its id.  A rebuildable entity is left out: its rebuild clears the receipts. *)
Theorem request_commits_once SHA256 settings me cached q enabled body r r' out :
  commit_of SHA256 settings me cached q enabled body r r' out -> qrequest_id q <> [] -> 0 < lreceipts settings ->
  ((forall m, metadata r = Some m -> rebuildable m = false) -> find_receipt q (receipts (snapshot r)) = None) /\
  (is_destroy_route q = false -> exists x, find_receipt q (receipts (snapshot r')) = Some x /\ route x = qroute q /\
     (incoming q = None -> handoff_target q = [] -> response x = out)) /\
  forall settings' me' cached' q' enabled' body' r2 r3 out' x, qrequest_id q' = qrequest_id q -> (forall m, metadata r2 = Some m -> rebuildable m = false) ->
    find_receipt q (receipts (snapshot r2)) = Some x -> ~ commit_of SHA256 settings' me' cached' q' enabled' body' r2 r3 out'.
Proof.
  assert (Hnone : forall settings me cached q enabled body r r' out, commit_of SHA256 settings me cached q enabled body r r' out -> qrequest_id q <> [] ->
    (forall m, metadata r = Some m -> rebuildable m = false) -> find_receipt q (receipts (snapshot r)) = None).
  { clear. intros settings me cached q enabled body r r' out (b & j & x & Hb & [Hck _ _] & Hrep & _) Hq Hm. pose proof (ck_receipt _ _ _ _ Hck Hrep Hq) as Hf.
    destruct Hb as [->| ->]; [done|]. unfold rebuilt in Hf. destruct (metadata r) as [m|]; [|done]. by rewrite (Hm m eq_refl) in Hf. }
  intros Hc Hq Hl. split; [by eapply Hnone|]. split.
  - intros Hnd. destruct Hc as (b & j & x & Hb & [Hck _ _] & Hrep & Hx & Hs). destruct (open_keeps enabled j) as (_ & _ & O3).
    pose proof (ck_receipt _ _ _ _ Hck Hrep Hq) as Hf. destruct (ck_image _ _ _ _ Hck) as (_ & I2 & _).
    apply settle_Some in Hs as (rs & d & o & Ha & Hd & Hcm & Ho). rewrite O3, I2 in Ha. destruct (add_receipt_spec _ _ _ _ _ _ Ha Hq Hl Hf) as (y & Hy & ->).
    apply committed_facts in Hcm as (_ & _ & _ & Hk & _). destruct (Hk Hnd) as (-> & _ & _). exists (MkReceipt (qrequest_id q) (qroute q) (jpayload (plan (open_delivery enabled j))) (job_output (open_delivery enabled j) x)).
    split; [done|]. split; [done|]. intros Hi Hh. rewrite Hi in Hd. rewrite Hh in Ho. cbn in *. injection Hd as _ ->. done.
  - intros settings' me' cached' q' enabled' body' r2 r3 out' x Eq Hm Hf Hc'. apply Hnone in Hc'; [|by rewrite Eq|done].
    assert (E : forall l, find_receipt q' l = find_receipt q l). { intros l. induction l as [|y l IH]; cbn; [done|]. by rewrite Eq, IH. } rewrite E in Hc'. congruence.
Qed.

(** ** Witnesses *)

Definition host_limits : EntityRuntimeLimits := MkRuntimeLimits 8 8 10000 10000 4 1000 4 4 4 4096 1000 4 4096 5000 1000 100 10000.
Definition host_delivery : EntityDeliveryState := MkState 5 [] [] [].
Definition host_metadata : EntityMetadata := MkMetadata (lit "Player") [] (repeat x05 32) false false [] 1.
Definition host_record : EntityRecord := MkRecord (lit "n1/7") 5000 3 (MkSnapshot (lit "hp") [] host_delivery no_timers) true (lit "n1") 12 (Some host_metadata).
Definition host_message (n : N) : DeliveryEnvelope :=
  MkEnvelope (lit "Guild") (lit "00000000000000b2") 9 (MkDelivery (repeat x61 64) (lit "Player") (lit "00000000000000a1") (lit "hit") (lit "1") 5 n false (MkResult ok [])).
Definition host_request (id : bytes) (e : option DeliveryEnvelope) : HostRequest :=
  MkRequest (lit "Player") (lit "Player.hit") id (lit "1") [] 0 e None None None None None.

#[global] Instance result_eq_decision : EqDecision Result.
Proof. solve_decision. Defined.
#[global] Instance cursor_eq_decision : EqDecision DeliveryCursor.
Proof. solve_decision. Defined.
#[global] Instance message_eq_decision : EqDecision DeliveryMessage.
Proof. solve_decision. Defined.
#[global] Instance delivery_eq_decision : EqDecision EntityDeliveryState.
Proof. solve_decision. Defined.

(** An operation that sends nothing, on the delivery state it expects. *)
Definition host_body (d : EntityDeliveryState) (j : Job) : option Effects :=
  if bool_decide (delivery (image j) = d) && (jversion (grant j) <? 2 ^ 64) then Some (MkEffects (lit "hp2") (lit "hit") d no_timers false None) else None.

Lemma host_body_typed d : delivery_wf d -> typed sample_digest host_limits (host_body d).
Proof.
  intros Hd j x. unfold host_body. case_bool_decide as E; [|done]. cbn [andb]. destruct (N.ltb_spec (jversion (grant j)) (2 ^ 64)); [|done]. intros [= <-].
  cbn [xdelivery xtimers]. rewrite E. split_and!; try apply Hd; try done; constructor.
Qed.

(** The job that acquires [r]'s lease again, at version 1. *)
Definition host_job (q : HostRequest) (r : EntityRecord) : Job :=
  MkJob (MkOutcome ok false false false) (MkFacts (metadata r) (placement r) (transfer_id r) false true (fence r)) (snapshot r) (MkPlan false false [] None (qpayload q)) (MkGrant 1 (fence r) (expires_ms r)).
Definition host_commit (q : HostRequest) (r : EntityRecord) : option (EntityRecord * bytes) :=
  match host_body (delivery (snapshot r)) (host_job q r) with
  | Some x => match settle sample_digest host_limits (lit "n1/7") q (host_job q r) x with Ok (inr o) => Some o | _ => None end
  | None => None
  end.

Lemma host_commits id x r r' out : let q := host_request id x in
  owner r = lit "n1/7" -> placement r = lit "n1" -> initialized r = true -> metadata r = Some host_metadata -> find_receipt q (receipts (snapshot r)) = None ->
  (forall e, x = Some e -> depoch (delivery (snapshot r)) = target_epoch (emessage e) /\ exists channel, delivery_channel (source_type e) (source_id e) (source_epoch e) = Ok channel /\
     msequence (emessage e) = match map_find channel (inbox (delivery (snapshot r))) with Some c => csequence c + 1 | None => 1 end) ->
  host_commit q r = Some (r', out) -> commit_of sample_digest host_limits (lit "n1/7") 3 q false (host_body (delivery (snapshot r))) r r' out.
Proof.
  intros q Ho Hp Hi Hm Hf Hx Hc. unfold host_commit in Hc. destruct (host_body _ _) as [y|] eqn:Hb; [|done]. destruct (settle _ _ _ _ _ _) as [[?|o]|] eqn:Hs; [done| |done]. injection Hc as ->.
  exists r, (host_job q r), y. split; [by left|]. split; [|done]. split; [|done|done]. constructor; try done.
  - cbn. by rewrite Hi.
  - rewrite Hm. intros m [= <-]. done.
  - right. by rewrite Hp.
  - intros _ e He. destruct (Hx e He). done.
Qed.

Definition host_key : bytes := entity_record_key (MkEntityId 161).
Definition store_with (st : store) (r : EntityRecord) (n : N) : store := match encode_entity_record r with Ok w => put_store st host_key w n | Throw _ => st end.

Lemma store_with_wf st r n : store_wf st -> high st host_key < n -> store_wf (store_with st r n).
Proof. intros Hw Hn. unfold store_with. destruct (encode_entity_record r); [by apply put_wf|done]. Qed.
Lemma store_with_stores st r n : is_ok (encode_entity_record r) = true -> record_wf r -> stores (store_with st r n) host_key r.
Proof.
  unfold store_with. destruct (encode_entity_record r) as [w|] eqn:E; [|done]. intros _ Hr. exists (MkStored w n). split; [cbn [cell put_store]; by rewrite bytes_eqb_refl|]. by apply record_decodes.
Qed.
Lemma store_with_frame st r n : same_elsewhere host_key st (store_with st r n).
Proof. intros k Hk. unfold store_with. destruct (encode_entity_record r); [cbn [cell put_store]; by rewrite (proj2 (bytes_eqb_neq k host_key))|done]. Qed.

(** The record after the first delivery. *)
Definition host_next : EntityRecord := match host_commit (host_request (lit "r9") (Some (host_message 1))) host_record with Some (r, _) => r | None => host_record end.

Lemma host_delivery_wf : delivery_wf host_delivery.
Proof. split_and!; try done; constructor. Qed.
Lemma host_record_wf : record_wf host_record.
Proof. split; [split; [exact host_delivery_wf|exact no_timers_wf]|]. split; [done|]. split; [done|]. by intros m [= <-]. Qed.
Lemma host_next_wf : record_wf host_next.
Proof.
  assert (H : match encode_entity_record host_next with Ok w => decode_entity_record w | Throw e => Throw e end = Ok host_next) by (vm_compute; reflexivity).
  destruct (encode_entity_record host_next) as [w|]; [|done]. by destruct (decode_record_wf _ _ H).
Qed.

Lemma host_first : exists out, commit_of sample_digest host_limits (lit "n1/7") 3 (host_request (lit "r9") (Some (host_message 1))) false (host_body host_delivery) host_record host_next out.
Proof.
  eexists. apply (host_commits (lit "r9") (Some (host_message 1)) host_record); [reflexivity..| |vm_compute; reflexivity]. intros e [= <-]. split; [done|]. eexists. split; [vm_compute; reflexivity|]. vm_compute. reflexivity.
Qed.
Lemma host_second : exists r out, commit_of sample_digest host_limits (lit "n1/7") 3 (host_request (lit "r10") (Some (host_message 2))) false (host_body (delivery (snapshot host_next))) host_next r out.
Proof.
  eexists _, _. apply (host_commits (lit "r10") (Some (host_message 2)) host_next); [vm_compute; reflexivity..| |vm_compute; reflexivity]. intros e [= <-]. split; [vm_compute; reflexivity|]. eexists. split; [vm_compute; reflexivity|]. vm_compute. reflexivity.
Qed.

Definition host_before : store := store_with empty_store host_record 1.
Definition host_after : store := store_with host_before host_next 2.

Lemma before_stores : stores host_before host_key host_record.
Proof. apply store_with_stores; [vm_compute; reflexivity|exact host_record_wf]. Qed.
Lemma after_stores : stores host_after host_key host_next.
Proof. apply store_with_stores; [vm_compute; reflexivity|exact host_next_wf]. Qed.

Lemma host_history : rtc (host_step sample_digest (MkEntityId 161)) host_before host_after.
Proof.
  apply rtc_once. destruct host_first as [out Hc]. eapply (step_host _ _ _ _ _ _ _ _ _ _ (lit "00000000000000a1")); [apply host_body_typed, host_delivery_wf|].
  eapply hw_commit; [exact before_stores|exact Hc|exact after_stores|apply store_with_frame].
Qed.

Lemma fence_single_owner_witness : owner host_next = lit "n1/7" /\ (fence host_record <= fence host_next /\
  (fence host_next = fence host_record -> owner host_record <> [] -> owner host_next <> [] -> owner host_next = owner host_record)).
Proof.
  split; [vm_compute; reflexivity|]. apply (fence_single_owner sample_digest (MkEntityId 161) host_before host_after); [exact host_history|exact before_stores|exact after_stores].
Defined.

Lemma delivery_applied_once_witness : exists channel, msequence (emessage (host_message 1)) < msequence (emessage (host_message 2)) /\
  msequence (emessage (host_message 2)) = cursor_of channel (delivery (snapshot host_next)) + 1.
Proof.
  destruct host_first as [out Hc]. destruct host_second as (r3 & out' & Hc'). eexists.
  eapply (delivery_applied_once sample_digest (MkEntityId 161) _ _ _ _ _ _ _ _ _ _ _ _ _ _ _ _ _ _ _ _ host_after host_after); [apply host_body_typed, host_delivery_wf|exact Hc|reflexivity|vm_compute; reflexivity|exact after_stores|apply rtc_refl|exact after_stores|exact Hc'|reflexivity|vm_compute; reflexivity|vm_compute; reflexivity].
Defined.

Lemma request_commits_once_witness : find_receipt (host_request (lit "r9") (Some (host_message 1))) (receipts (snapshot host_record)) = None.
Proof.
  destruct host_first as [out Hc]. apply (request_commits_once _ _ _ _ _ _ _ _ _ _ Hc); [done|vm_compute; reflexivity|]. by intros m [= <-].
Defined.

Lemma host_transaction_atomic_witness :
  (exists out, (play (transaction sample_digest host_limits (lit "n1/7") 3 (host_request (lit "r9") None) false (host_body host_delivery) (lit "00000000000000a1") (fun _ => 100%Z) (fun _ => 200%Z)) host_before).1 = Return (Ok out) /\ out <> refused) /\
  wp any_client (host_write sample_digest host_limits (lit "n1/7") 3 (host_request (lit "r9") None) false (host_body host_delivery) (lit "00000000000000a1") host_key)
    (transaction sample_digest host_limits (lit "n1/7") 3 (host_request (lit "r9") None) false (host_body host_delivery) (lit "00000000000000a1") (fun _ => 100%Z) (fun _ => 200%Z)) (fun _ _ => True) host_before.
Proof.
  split; [eexists; split; [vm_compute; reflexivity|done]|].
  apply (host_transaction_atomic _ _ _ _ _ _ _ _ (MkEntityId 161)); [vm_compute; reflexivity|apply host_body_typed, host_delivery_wf|done|].
  apply store_with_wf; [exact empty_wf|]. vm_compute. reflexivity.
Defined.
