(* ===== verification/HostAttributes.v ===== *)
(** * The attribute image of an operation

    The steps of [acquire] in [src/entity_host.cpp] that build the full attribute image an
    operation starts from, out of the persisted state and the transient values cached since
    the last commit, and that split the image it leaves into what is persisted and what is
    cached. *)

From stdpp Require Import gmap.
From S2P Require Import Prelude Storage StorageCorrect Programs OrderedMap Identity Messages Fields TimerState DeliveryState Records TimerIndex Directory Delivery HostJobs Values AttributeWire Replica Schema.

(** The cache a slot keeps between operations. *)
Record Cache := MkCache { transient : bytes; resident_fence : N; transient_revision : N }.
Definition no_cache : Cache := MkCache [] 0 0.

Definition is_rebuildable (j : Job) : bool := match jmetadata (facts j) with Some m => rebuildable m | None => false end.
Definition full_update (rev : N) (vs : AttributeStruct) : AttributeUpdate := MkUpdate 0 rev true vs [].

(** The values of attributes that are not persisted. *)
Definition pick_transient (s : EntitySchema) (vs : AttributeStruct) : result AttributeStruct :=
  fold_result (fun out e => let* d := map_at e.1 (attributes s) in Ok (if persist d then out else fst (map_emplace e.1 e.2 out))) vs [].

(** The model an operation starts from. *)
Definition open_image (s : EntitySchema) (q : HostRequest) (c : Cache) (j : Job) : result EntityAttributes :=
  let* u := decode_attributes (Records.state (HostJobs.image j)) in
  throw_if negb (AttributeWire.snapshot u) as runtime_error ;;
  let* m := entity_attributes s [] in
  let* m := if is_some (jmetadata (facts j)) && (created (facts j) || is_rebuildable j) then restore_full m (values u) (revision u) else restore m (values u) (revision u) in
  let* m := if negb (is_empty (transient c)) && previously_owned (facts j) && (resident_fence c =? previous_fence (facts j)) &&
               ((transient_revision c =? revision u) || is_rebuildable j)
            then let* t := decode_attributes (transient c) in restore_full m (values t) (if is_rebuildable j then revision t else revision u)
            else Ok m in
  if created (facts j) && bytes_eqb (qroute q) (qtype q ++ lit ".$spawn")
  then let* r := decode_attributes (jpayload (plan j)) in let* vs := pick_transient s (values r) in restore_full m vs (revision u)
  else Ok m.

(** [$write]: the proposal must stage on the current image. *)
Definition check_write (s : EntitySchema) (owner : bytes) (previous : AttributeUpdate) (payload : bytes) (who : CallIdentity) : result unit :=
  let* proposal := decode_attributes payload in
  let* m := entity_attributes s owner in
  let* m := restore_full m (values previous) (revision previous) in
  let* _ := stage_attribute_proposal m proposal who in Ok tt.

(** The commit's image: the full update, the transient part to cache and the state to persist. *)
Record Closed := MkClosed { full : AttributeUpdate; cached_bytes : bytes; persisted_state : bytes }.
Definition close_image (s : EntitySchema) (j : Job) (previous : AttributeUpdate) (state : bytes) : result Closed :=
  let* u := decode_attributes state in
  throw_if negb (AttributeWire.snapshot u) || (revision u <? revision previous) ||
           ((revision u =? revision previous) && negb (struct_eqb (values u) (values previous))) as runtime_error ;;
  let* m := entity_attributes s [] in
  let* m := restore_full m (values u) (revision u) in
  let* t := select m (fun e => Ok (negb (persist e.2) || is_rebuildable j)) in
  let* cached := if is_empty t then Ok [] else encode_attributes (full_update (revision u) t) in
  let* kept := persistent m in
  let* w := encode_attributes (full_update (revision u) kept) in
  Ok (MkClosed (full_update (revision u) (all_values m)) cached w).
