(* ===== verification/HostImages.v ===== *)
(** * An operation starts from what the last one committed

    The persisted part and the cached part of a committed image rebuild it exactly, as long as
    the entity stays resident. *)

From stdpp Require Import gmap.
From S2P Require Import Prelude Storage StorageCorrect Programs OrderedMap Identity Messages MessagesCorrect Fields TimerState DeliveryState Records TimerIndex Directory Delivery HostJobs Values AttributeWire AttributeCodec Replica Delta Edits DiffCorrect Images DeltaCorrect Schema SchemaCorrect HostAttributes.

Section Restore.
Context (m : EntityAttributes) (W : attrs_wf m) (ok : AttributeDefinition -> bool).
Let assigns := fun next (e : bytes * AttributeValue) =>
  let* d := map_at e.1 (attributes (schema m)) in
  throw_if negb (ok d) || negb (valid_root d e.2) as invalid_argument ;; assign_at next e.1 e.2.

(** Assigning valid values of known attributes. *)
Lemma assign_all vs : forall next, map_wf next -> keys next = keys (attributes (schema m)) ->
  Forall (fun e => exists d, map_find e.1 (attributes (schema m)) = Some d /\ ok d = true /\ valid_root d e.2 = true) vs ->
  fold_result assigns vs next = Ok (insert_all vs next).
Proof.
  induction vs as [|[k v] vs IH]; intros next Hn Hk Hf; [done|]. apply Forall_cons in Hf as [(d & Hd & Ho & Hv) Hf]. cbn [fst snd] in *.
  cbn [fold_result]. unfold assigns at 1. cbn [fst snd]. unfold map_at at 1. rewrite Hd. cbn [bind]. rewrite Ho, Hv. cbn [negb orb].
  assert (Hin : k ∈ keys next) by (rewrite Hk; apply map_find_keys; by eexists). unfold assign_at, map_at. apply map_find_keys in Hin as Hs. destruct Hs as [x Hx].
  cbn [fst snd] in Hx. rewrite Hx. cbn [bind]. rewrite IH; [done|by apply map_wf_insert|by rewrite keys_insert|done].
Qed.
End Restore.

Lemma restore_known m vs rv : attrs_wf m ->
  Forall (fun e => exists d, map_find e.1 (attributes (schema m)) = Some d /\ persist d = true /\ valid_root d e.2 = true) vs ->
  restore m vs rv = Ok (restored m (insert_all vs (all_values m)) rv).
Proof. intros W Hf. unfold restore. rewrite (assign_all m persist); [done|apply W|apply W|done]. Qed.

Lemma restore_full_known m vs rv : attrs_wf m ->
  Forall (fun e => exists d, map_find e.1 (attributes (schema m)) = Some d /\ true = true /\ valid_root d e.2 = true) vs ->
  restore_full m vs rv = Ok (restored m (insert_all vs (all_values m)) rv).
Proof. intros W Hf. unfold restore_full. pose proof (assign_all m (fun _ => true) vs (all_values m)) as H. cbn [negb orb] in H. rewrite H; [done|apply W|apply W|done]. Qed.

Lemma selected_known m keep : attrs_wf m ->
  Forall (fun e => exists d, map_find e.1 (attributes (schema m)) = Some d /\ keep d e.1 = true /\ valid_root d e.2 = true) (selected m keep (attributes (schema m))).
Proof.
  intros W. apply Forall_forall. intros [k v] Hin. apply elem_map_find in Hin; [|by apply selected_wf, W]. rewrite selected_find in Hin by apply W.
  destruct (map_find k (attributes (schema m))) as [d|] eqn:Hd; [|done]. destruct (keep d k) eqn:Hk; [|done]. exists d. split_and!; [done|done|]. by apply (aw_valid _ W k).
Qed.

Lemma selected_struct_wf m keep : attrs_wf m -> struct_wf (all_values m) = true -> struct_wf (selected m keep (attributes (schema m))) = true.
Proof.
  intros W [_ Hv]%struct_wf_values. unfold struct_wf. apply andb_true_iff. split; [by apply (selected_wf m keep), W|].
  apply forallb_Forall, Forall_forall. intros [k v] Hin. apply elem_map_find in Hin; [|by apply selected_wf, W]. rewrite selected_find in Hin by apply W.
  destruct (map_find k (attributes (schema m))); [|done]. destruct (keep _ _); [|done]. apply forallb_Forall in Hv. rewrite Forall_forall in Hv. by apply (Hv (k, v)), map_find_elem.
Qed.

(** The two parts of an image rebuild it. *)
Lemma parts_rebuild m0 m : attrs_wf m0 -> attrs_wf m -> schema m0 = schema m ->
  insert_all (selected m (fun d _ => negb (persist d) || false) (attributes (schema m))) (insert_all (selected m (fun d _ => persist d) (attributes (schema m))) (all_values m0)) = all_values m.
Proof.
  intros W0 W Hs. apply map_ext; [by do 2 apply insert_all_wf; apply W0|apply W|]. intros k.
  rewrite insert_all_find by (apply selected_wf, W). unfold over. rewrite insert_all_find by (apply selected_wf, W). unfold over.
  rewrite !selected_find by apply W. destruct (map_find k (attributes (schema m))) as [d|] eqn:Hd.
  - destruct (wf_value m k d W Hd) as (v & _ & Hv & _). rewrite Hv. by destruct (persist d).
  - assert (Hn : forall m1, attrs_wf m1 -> schema m1 = schema m -> map_find k (all_values m1) = None).
    { intros m1 W1 E. destruct (map_find k (all_values m1)) as [v|] eqn:Hv; [|done]. assert (Hk : k ∈ keys (all_values m1)) by (apply map_find_keys; by eexists).
      apply wf_definition in Hk as [d Hd']; [|done]. by rewrite E, Hd in Hd'. }
    by rewrite (Hn m0), (Hn m).
Qed.

(** C11 (functional).  An operation starts from what the last one committed: while an entity that is not
    rebuildable stays resident, the persisted state and the cached transient values of a
    commit decode to exactly the full image, and the revision, the commit published. *)
Theorem commit_reopens s q j previous st cl j' f :
  map_wf (attributes s) -> close_image s j previous st = Ok cl -> struct_wf (values (full cl)) = true -> revision (full cl) < 2 ^ 64 ->
  is_rebuildable j = false -> is_rebuildable j' = false -> created (facts j') = false -> previously_owned (facts j') = true -> previous_fence (facts j') = f ->
  Records.state (HostJobs.image j') = persisted_state cl ->
  exists m, open_image s q (MkCache (cached_bytes cl) f (revision (full cl))) j' = Ok m /\ all_values m = values (full cl) /\ attr_revision m = revision (full cl).
Proof.
  intros Ws Hc Hwf Hrev Hj Hj' Hcr Hown Hf Hst. unfold close_image in Hc. rewrite Hj in Hc. apply bind_ok in Hc as (u & _ & Hc). destruct (_ || _); [done|].
  apply bind_ok in Hc as (m0 & Hm0 & Hc). apply bind_ok in Hc as (m & Hm & Hc). pose proof (construct_wf _ _ _ Ws Hm0) as W0.
  assert (Hs0 : schema m0 = s) by (unfold entity_attributes in Hm0; apply bind_ok in Hm0 as (_ & _ & [= <-]); done).
  apply bind_ok in Hc as (t & Ht & Hc). apply bind_ok in Hc as (cached & Hcached & Hc). apply bind_ok in Hc as (kept & Hkept & Hc). apply bind_ok in Hc as (w & Hw & [= <-]).
  cbn [full cached_bytes persisted_state full_update values revision] in *.
  assert (W : attrs_wf m) by (apply (restore_full_wf m0 (values u) (revision u)); [exact W0|unfold u64_max; lia|exact Hm]).
  assert (Hs : schema m = s) by (unfold restore_full in Hm; apply bind_ok in Hm as (n & _ & [= <-]); done).
  rewrite (select_ok m _ (fun d _ => negb (persist d) || false) W) in Ht by (by intros e _). injection Ht as <-.
  unfold persistent in Hkept. rewrite (select_ok m _ (fun d _ => persist d) W) in Hkept by (by intros e _). injection Hkept as <-.
  set (T := selected m (fun d _ => negb (persist d) || false) (attributes (schema m))) in *. set (K := selected m (fun d _ => persist d) (attributes (schema m))) in *.
  assert (Hdw : decode_attributes w = Ok (full_update (revision u) K)).
  { apply decode_encoded_record; [|done]. split_and!; [done|done|by apply selected_struct_wf|done]. }
  pose proof (parts_rebuild m0 m W0 W ltac:(congruence)) as Hparts. fold T K in Hparts.
  assert (Hrestore : restore m0 K (revision u) = Ok (restored m0 (insert_all K (all_values m0)) (revision u))).
  { apply restore_known; [done|]. rewrite Hs0, <- Hs. exact (selected_known m (fun d _ => persist d) W). }
  assert (W1 : attrs_wf (restored m0 (insert_all K (all_values m0)) (revision u))) by (apply (restore_wf m0 K (revision u)); [exact W0|unfold u64_max; lia|exact Hrestore]).
  unfold open_image. rewrite Hst, Hdw. cbn [bind full_update values revision AttributeWire.snapshot negb]. rewrite Hm0. cbn [bind]. rewrite Hcr, Hj', Hown, Hf, !N.eqb_refl, Hrestore.
  rewrite andb_false_r. cbn [bind orb andb transient resident_fence transient_revision]. rewrite ?andb_true_r.
  destruct (is_empty T) eqn:ET.
  - injection Hcached as <-. cbn [is_empty negb]. eexists. split; [reflexivity|]. cbn. split; [|done]. apply is_empty_true in ET. rewrite ET in Hparts. done.
  - assert (Hdc : decode_attributes cached = Ok (full_update (revision u) T)).
    { apply decode_encoded_record; [|done]. split_and!; [done|done|by apply selected_struct_wf|done]. }
    destruct (is_empty cached) eqn:Ec; [apply is_empty_true in Ec; subst cached; vm_compute in Hdc; done|]. cbn [negb]. rewrite Hdc. cbn [bind full_update values revision].
    rewrite (restore_full_known _ T (revision u) W1); [|cbn [schema restored]; rewrite Hs0, <- Hs; eapply Forall_impl; [exact (selected_known m (fun d _ => negb (persist d) || false) W)|]; intros e (d & E1 & _ & E2); by exists d].
    cbn [bind]. eexists. split; [reflexivity|]. cbn. split; [exact Hparts|done].
Qed.

(** ** Witness *)

(** [buff] is transient, [hp] persisted. *)
Definition image_schema : EntitySchema := MkSchema
  [(lit "buff", MkDefinition Schema.integer (AInt 0) read_write read observers false (- 2 ^ 63) (2 ^ 63 - 1) false [] None 0 0); (lit "hp", scalar Schema.integer (AInt 10) read observers)] [].
Definition image_state : bytes := match encode_attributes (full_update 2 [(lit "buff", AInt 3); (lit "hp", AInt 8)]) with Ok w => w | Throw _ => [] end.
Definition image_job (owned : bool) (st : bytes) : Job :=
  MkJob (MkOutcome ok false false false) (MkFacts None [] 0 false owned 3) (MkSnapshot st [] no_delivery no_timers) (MkPlan false false [] None []) (MkGrant 1 3 100).
Definition image_request : HostRequest := MkRequest (lit "Player") (lit "Player.hit") [] [] [] 0 None None None None None None.
Definition image_closed : Closed :=
  match close_image image_schema (image_job false []) (full_update 1 []) image_state with Ok c => c | Throw _ => MkClosed (full_update 0 []) [] [] end.

Lemma commit_reopens_witness : close_image image_schema (image_job false []) (full_update 1 []) image_state = Ok image_closed /\ negb (is_empty (cached_bytes image_closed)) = true /\
  exists m, open_image image_schema image_request (MkCache (cached_bytes image_closed) 3 (revision (full image_closed))) (image_job true (persisted_state image_closed)) = Ok m /\
    all_values m = values (full image_closed) /\ attr_revision m = revision (full image_closed).
Proof.
  split; [vm_compute; reflexivity|]. split; [vm_compute; reflexivity|].
  apply (commit_reopens image_schema image_request (image_job false []) (full_update 1 []) image_state); [vm_compute; reflexivity..|done|done|done|done|done|done].
Defined.
