(* ===== verification/Host.v ===== *)
(** * The entity host's mailboxes

    The owner thread of [EntityScriptHost] in [src/entity_host.cpp]: admissions, the mailbox of
    each resident entity, the jobs under way with their resident budget, lifecycle and tick
    scheduling, deactivation, hand-over, draining and stopping.

    Each completion of a storage job or of script logic is an operation here; a job that was
    submitted, a handler that was called and a reply that was given are outputs.  The
    storage jobs are those of HostJobs.  Callbacks of the application are outputs, so they
    do not re-enter the host within the operation that calls them, and do not throw; one
    operation reads the clock once. *)

From stdpp Require Import gmap.
From S2P Require Import Prelude Storage StorageCorrect Programs MapSum OrderedMap Identity Messages Fields TimerState DeliveryState Records TimerIndex Directory Transport Delivery HostJobs Values AttributeWire Replica Schema HostAttributes.

(** ** Replies *)

(** The continuations the host wraps around the caller's reply [n]: none, the identity of a
    created entity, no data, one of the deactivations of a drain. *)
Inductive Reply := user (n : N) | nobody | named (id : bytes) (n : N) | emptied (n : N) | drained (d : N).
(** The reply of an admission: plain, or the authorized read that goes on with a request. *)
Inductive AdmissionReply := plain (r : Reply) | guarded (type id : bytes) (deadline : Z) (n : N).

(** ** State *)

Record Method := MkMethod { method_type : bytes; method_initial : bytes; method_policy : option RpcPolicy; method_schema : option EntitySchema }.

(** [Impl::Request]: what the storage jobs read is [rq]; [rmethod] names the shared method. *)
Record Request := MkQueued {
  rq : HostRequest; rmethod : N; rreply : Reply; rdeadline : Z; rbytes : N; rtick : bool; rwho : CallIdentity; rguard : bool }.

Record Slot := MkSlot {
  handle_type : bytes; handle_id : bytes; handle_generation : N; queue : list Request; busy : bool; releasing : bool; activated : bool;
  activation_fence : N; next_tick : Z; touched : Z; cache : Cache; owner_key : bytes }.

(** The steps of an execution are the lifecycle methods to run before the request's own; [None]
    is the no-op of a control request to an entity that is not activated. *)
Inductive phase := acquiring | executing (steps : list (option bytes)) (step : nat) (state : bytes) | committing.

(** [AttributeCommit] *)
Record Commit := MkCommit { cowner : bytes; cschema : EntitySchema; previous : AttributeUpdate; current_image : AttributeUpdate }.

(** [Impl::Job] on the owner thread. *)
Record Budget := MkBudget { resident : N; timer_charge : N; cache_growth : N }.
Record Running := MkRunning {
  run_id : N; run_request : Request; run_phase : phase; run_job : Job; run_budget : Budget; run_commit : option Commit; run_transient : bytes;
  run_dirty : bool; run_refused : option Result; run_rollback : option EntitySnapshot; run_activating : bool; logic_started : bool }.

Inductive purpose := resolve_call (who : CallIdentity) (data : bytes) | resolve_owner (id : bytes) (c : ConnectionRef) | reading_owner | creating (type : bytes).
Record Admission := MkAdmission { abytes : N; areply : AdmissionReply; adeadline : Z; apurpose : purpose }.

Record Counters := MkCounters {
  pending : N; queued : N; state_bytes : N; transient_bytes : N; publication_failures : N; committed : N; replayed : N; rejected_count : N; failed : N; tick_failures : N }.
Record Serials := MkSerials { admission_serial : N; generations : N; timer_revision : N; job_serial : N; drain_serial : N; method_serial : N }.
Record Flags := MkFlags { stopped : bool; draining : bool; delivery_enabled : bool }.
Record Registry := MkRegistry { methods : gmap bytes N; method_objects : gmap N Method; schemas : gmap bytes EntitySchema; resolved_types : gmap bytes bytes }.

Record Host := MkHost {
  limits : EntityRuntimeLimits; host_owner : bytes; slots : gmap bytes Slot; schedule : list bytes; active : gmap bytes Running;
  admissions : gmap N Admission; releases : gmap bytes Reply; drains : gmap N (N * Status * N); registry : Registry; counters : Counters; serials : Serials; flags : Flags }.

Inductive host_output :=
  | replied (n : N) (r : Result) | threw (n : N) (e : exn)
  | acquire_submitted (entity : bytes) (job : N) | commit_submitted (entity : bytes) (job : N) (g : Grant) (e : option Entry) (w : bytes)
  | send_submitted (n : N) (entity : bytes) (job : N) | release_submitted (entity : bytes) | lookup_submitted (admission : N) (id : bytes)
  | create_submitted (admission : N) (type : bytes) (state : bytes) | create_elsewhere (admission : N) (type id target : bytes)
  | logic_called (entity : bytes) (job : N) (step : nat) (route : bytes) (who : CallIdentity) (input : bytes)
  | closed_notified (entity : bytes) (destroyed : bool) | attributes_notified (entity : bytes) (c : Commit).

(** *** Updates *)

Definition with_slots (s : Host) (m : gmap bytes Slot) : Host :=
  MkHost (limits s) (host_owner s) m (schedule s) (active s) (admissions s) (releases s) (drains s) (registry s) (counters s) (serials s) (flags s).
Definition with_schedule (s : Host) (l : list bytes) : Host :=
  MkHost (limits s) (host_owner s) (slots s) l (active s) (admissions s) (releases s) (drains s) (registry s) (counters s) (serials s) (flags s).
Definition with_running (s : Host) (m : gmap bytes Running) : Host :=
  MkHost (limits s) (host_owner s) (slots s) (schedule s) m (admissions s) (releases s) (drains s) (registry s) (counters s) (serials s) (flags s).
Definition with_admissions (s : Host) (m : gmap N Admission) : Host :=
  MkHost (limits s) (host_owner s) (slots s) (schedule s) (active s) m (releases s) (drains s) (registry s) (counters s) (serials s) (flags s).
Definition with_releases (s : Host) (m : gmap bytes Reply) : Host :=
  MkHost (limits s) (host_owner s) (slots s) (schedule s) (active s) (admissions s) m (drains s) (registry s) (counters s) (serials s) (flags s).
Definition with_drains (s : Host) (m : gmap N (N * Status * N)) : Host :=
  MkHost (limits s) (host_owner s) (slots s) (schedule s) (active s) (admissions s) (releases s) m (registry s) (counters s) (serials s) (flags s).
Definition with_registry (s : Host) (r : Registry) : Host :=
  MkHost (limits s) (host_owner s) (slots s) (schedule s) (active s) (admissions s) (releases s) (drains s) r (counters s) (serials s) (flags s).
Definition with_counters (s : Host) (c : Counters) : Host :=
  MkHost (limits s) (host_owner s) (slots s) (schedule s) (active s) (admissions s) (releases s) (drains s) (registry s) c (serials s) (flags s).
Definition with_serials (s : Host) (n : Serials) : Host :=
  MkHost (limits s) (host_owner s) (slots s) (schedule s) (active s) (admissions s) (releases s) (drains s) (registry s) (counters s) n (flags s).
Definition with_flags (s : Host) (f : Flags) : Host :=
  MkHost (limits s) (host_owner s) (slots s) (schedule s) (active s) (admissions s) (releases s) (drains s) (registry s) (counters s) (serials s) f.

Definition with_pending (c : Counters) (p q : N) : Counters :=
  MkCounters p q (state_bytes c) (transient_bytes c) (publication_failures c) (committed c) (replayed c) (rejected_count c) (failed c) (tick_failures c).
Definition with_state_bytes (c : Counters) (n : N) : Counters :=
  MkCounters (pending c) (queued c) n (transient_bytes c) (publication_failures c) (committed c) (replayed c) (rejected_count c) (failed c) (tick_failures c).
Definition with_transient_bytes (c : Counters) (n : N) : Counters :=
  MkCounters (pending c) (queued c) (state_bytes c) n (publication_failures c) (committed c) (replayed c) (rejected_count c) (failed c) (tick_failures c).
(** The outcome of one request. *)
Definition count_outcome (c : Counters) (s : Status) (tick : bool) : Counters :=
  let ok_ := bool_decide (s = ok) in
  MkCounters (pending c) (queued c) (state_bytes c) (transient_bytes c) (publication_failures c) (if ok_ then committed c + 1 else committed c) (replayed c)
    (if bool_decide (s = rejected) then rejected_count c + 1 else rejected_count c) (if ok_ || bool_decide (s = rejected) then failed c else failed c + 1)
    (if tick && negb ok_ then tick_failures c + 1 else tick_failures c).
Definition count_failed (c : Counters) : Counters :=
  MkCounters (pending c) (queued c) (state_bytes c) (transient_bytes c) (publication_failures c) (committed c) (replayed c) (rejected_count c) (failed c + 1) (tick_failures c).
Definition count_replayed (c : Counters) : Counters :=
  MkCounters (pending c) (queued c) (state_bytes c) (transient_bytes c) (publication_failures c) (committed c) (replayed c + 1) (rejected_count c) (failed c) (tick_failures c).

Definition with_queue (x : Slot) (l : list Request) (b r : bool) : Slot :=
  MkSlot (handle_type x) (handle_id x) (handle_generation x) l b r (activated x) (activation_fence x) (next_tick x) (touched x) (cache x) (owner_key x).
Definition with_cache (x : Slot) (c : Cache) : Slot :=
  MkSlot (handle_type x) (handle_id x) (handle_generation x) (queue x) (busy x) (releasing x) (activated x) (activation_fence x) (next_tick x) (touched x) c (owner_key x).
Definition with_activation (x : Slot) (a : bool) (f : N) : Slot :=
  MkSlot (handle_type x) (handle_id x) (handle_generation x) (queue x) (busy x) (releasing x) a f (next_tick x) (touched x) (cache x) (owner_key x).
Definition with_next_tick (x : Slot) (t : Z) : Slot :=
  MkSlot (handle_type x) (handle_id x) (handle_generation x) (queue x) (busy x) (releasing x) (activated x) (activation_fence x) t (touched x) (cache x) (owner_key x).
Definition with_touched (x : Slot) (t : Z) : Slot :=
  MkSlot (handle_type x) (handle_id x) (handle_generation x) (queue x) (busy x) (releasing x) (activated x) (activation_fence x) (next_tick x) t (cache x) (owner_key x).
Definition with_owner_key (x : Slot) (k : bytes) : Slot :=
  MkSlot (handle_type x) (handle_id x) (handle_generation x) (queue x) (busy x) (releasing x) (activated x) (activation_fence x) (next_tick x) (touched x) (cache x) k.
Definition with_generation (x : Slot) (g : N) : Slot :=
  MkSlot (handle_type x) (handle_id x) g (queue x) (busy x) (releasing x) (activated x) (activation_fence x) (next_tick x) (touched x) (cache x) (owner_key x).

Definition with_phase (r : Running) (p : phase) : Running :=
  MkRunning (run_id r) (run_request r) p (run_job r) (run_budget r) (run_commit r) (run_transient r) (run_dirty r) (run_refused r) (run_rollback r) (run_activating r) (logic_started r).
Definition with_job (r : Running) (j : Job) : Running :=
  MkRunning (run_id r) (run_request r) (run_phase r) j (run_budget r) (run_commit r) (run_transient r) (run_dirty r) (run_refused r) (run_rollback r) (run_activating r) (logic_started r).
Definition with_budget (r : Running) (b : Budget) : Running :=
  MkRunning (run_id r) (run_request r) (run_phase r) (run_job r) b (run_commit r) (run_transient r) (run_dirty r) (run_refused r) (run_rollback r) (run_activating r) (logic_started r).
Definition with_commit (r : Running) (c : option Commit) (t : bytes) : Running :=
  MkRunning (run_id r) (run_request r) (run_phase r) (run_job r) (run_budget r) c t (run_dirty r) (run_refused r) (run_rollback r) (run_activating r) (logic_started r).
Definition with_dirty (r : Running) (b : bool) : Running :=
  MkRunning (run_id r) (run_request r) (run_phase r) (run_job r) (run_budget r) (run_commit r) (run_transient r) b (run_refused r) (run_rollback r) (run_activating r) (logic_started r).
Definition with_refused (r : Running) (x : option Result) : Running :=
  MkRunning (run_id r) (run_request r) (run_phase r) (run_job r) (run_budget r) (run_commit r) (run_transient r) (run_dirty r) x (run_rollback r) (run_activating r) (logic_started r).
Definition with_rollback (r : Running) (x : option EntitySnapshot) : Running :=
  MkRunning (run_id r) (run_request r) (run_phase r) (run_job r) (run_budget r) (run_commit r) (run_transient r) (run_dirty r) (run_refused r) x (run_activating r) (logic_started r).
Definition with_started (r : Running) (a b : bool) : Running :=
  MkRunning (run_id r) (run_request r) (run_phase r) (run_job r) (run_budget r) (run_commit r) (run_transient r) (run_dirty r) (run_refused r) (run_rollback r) a b.
Definition with_request (r : Running) (x : Request) : Running :=
  MkRunning (run_id r) x (run_phase r) (run_job r) (run_budget r) (run_commit r) (run_transient r) (run_dirty r) (run_refused r) (run_rollback r) (run_activating r) (logic_started r).

(** ** Actions: a value, the new state and what was started *)

Definition act (A : Type) : Type := Host -> A * Host * list host_output.
#[export] Instance act_ret : MRet act := fun A a s => (a, s, []).
#[export] Instance act_bind : MBind act := fun A B k m s =>
  let '(a, s1, o1) := m s in let '(b, s2, o2) := k a s1 in (b, s2, o1 ++ o2).

Definition state : act Host := fun s => (s, s, []).
Definition modify (f : Host -> Host) : act unit := fun s => (tt, f s, []).
Definition emit (o : host_output) : act unit := fun s => (tt, s, [o]).
Definition done : act unit := mret tt.

Fixpoint for_each {A} (f : A -> act unit) (l : list A) : act unit :=
  match l with [] => done | a :: l => f a;; for_each f l end.

(** What the clocks, the storage executor and the application do during one operation. *)
Record Env := MkEnv {
  e_now : Z;                              (* the steady clock *)
  e_wall : Z;                             (* the wall clock, milliseconds *)
  e_accepts : bytes -> bool;              (* the storage executor takes a job of this entity *)
  e_capacity : bytes -> N;                (* the capacity of a string *)
  e_guard : bytes -> result bool;         (* the guard of an authorized read *)
  e_who : CallIdentity -> CallIdentity }. (* an identity with its hooks as they answer now *)

Definition entity_key (type id : bytes) : bytes := type ++ [x00] ++ id.

(** The reply called with a result. *)
Definition say (r : Reply) (x : Result) : act unit :=
  match r with
  | user n => emit (replied n x)
  | nobody => done
  | named id n => emit (replied n (if bool_decide (rstatus x = ok) then MkResult ok id else x))
  | emptied n => emit (replied n (MkResult (rstatus x) []))
  | drained d =>
      s ← state;
      match drains s !! d with
      | None => done
      | Some (count, st, n) =>
          let st := if bool_decide (rstatus x = ok) then st else rstatus x in
          if count - 1 =? 0 then modify (fun s => with_drains s (delete d (drains s)));; emit (replied n (MkResult st []))
          else modify (fun s => with_drains s (<[d := (count - 1, st, n)]> (drains s)))
      end
  end.
Definition status (s : Status) : Result := MkResult s [].

Section Host.
Context (SHA256 : bytes -> bytes) (env : Env).

Definition has_method (route : bytes) (s : Host) : bool := bool_decide (is_Some (methods (registry s) !! route)).

(** ** enqueue *)

(** The arguments of [enqueue]; the optional ones default as in its declaration. *)
Record Call := MkCall {
  croute : bytes; cdata : bytes; creply : Reply; ctick : bool; cwho : CallIdentity; chandoff : bytes; caccept : N; cincoming : option DeliveryEnvelope;
  cack : option DeliveryAck; cdeadline : option Z; cnew_owner : option ConnectionRef; ctimer : option TimerFire; cdecoded : option EntityMessage; cguard : bool; cexpected : option bytes }.
Definition framework (name : bytes) : CallIdentity := MkIdentity server name 0 (MkConnection [] 0) None None.
Definition simple_call (route data : bytes) (reply : Reply) (who : CallIdentity) : Call :=
  MkCall route data reply false who [] 0 None None None None None None false None.

(** The request identity of a contextual call names its caller. *)
Definition scoped_request (owner : bytes) (who : CallIdentity) (request_id : bytes) : bytes :=
  let subj := match connection_key (connection who) with Ok k => k | Throw _ => subject who end in
  let subj := if is_empty subj then lit "anonymous:" ++ owner ++ lit ":" ++ to_string (peer who) else subj in
  let scope := (if is_server who then lit "server:" else lit "client:") ++ to_string (size subj) ++ lit ":" ++ subj ++ request_id in
  lit "context:" ++ hash SHA256 (if is_empty (subject who) then lit "anonymous:" ++ scope else scope).

(** [internal(route, type)] *)
Definition internal_route (route type : bytes) : bool :=
  (size type + 1 <? size route) && starts_with type route && bytes_eqb (take 2 (drop (length type) route)) (lit ".$").

Definition charge_of (c : Call) : N :=
  match cdecoded c with Some m => e_capacity env (msg_payload m) + size (msg_id m) + size (msg_request m) + 16 | None => size (cdata c) end +
  match cincoming c with Some e => match encode_delivery e with Ok w => size w | Throw _ => 0 end | None => 0 end +
  match cack c with Some a => size (rdata (ack_result a)) + 128 | None => 0 end + (if is_some (ctimer c) then timer_payload_limit + 1024 else 0).

(** The request put in the mailbox. *)
Definition new_request (c : Call) (charged : N) (m : EntityMessage) (selected : N) (method : Method) (s : Host) : Request :=
  let route := croute c in
  let timeout := (e_now env + ms (lrequest_timeout_ms (limits s)))%Z in
  let deadline := match cdeadline c with Some d => Z.min timeout d | None => timeout end in
  let found := match cincoming c with
               | None => None
               | Some e => let r := method_type method ++ lit "." ++ mmethod (emessage e) in
                           match methods (registry s) !! r with Some k => if internal_route r (method_type method) then None else Some (r, k) | None => None end
               end in
  let '(route, selected, error) := match cincoming c, found with
                                   | None, _ => (route, selected, None)
                                   | Some _, Some (r, k) => (r, k, None)
                                   | Some _, None => (route, selected, Some (status not_found))
                                   end in
  MkQueued (MkRequest (method_type method) route (msg_request m) (msg_payload m) (chandoff c) (caccept c) (cincoming c) (cack c) error (cnew_owner c) (ctimer c) (cexpected c))
    selected (creply c) deadline charged (ctick c) (cwho c) (cguard c).

(** The mailbox of an entity, created when it is not resident; [None] when there are too many. *)
Definition open_slot (entity type id : bytes) : act (option Slot) :=
  s ← state;
  match slots s !! entity with
  | Some x => mret (Some x)
  | None =>
      if lentities (limits s) <=? N.of_nat (base.size (slots s)) then mret None
      else
        let n := serials s in
        let x := MkSlot type id (generations n + 1) [] false false false 0 (e_now env + ms (ltick_ms (limits s)))%Z (e_now env) no_cache [] in
        modify (fun s => with_serials s (MkSerials (admission_serial n) (generations n + 1) (timer_revision n) (job_serial n) (drain_serial n) (method_serial n)));;
        modify (fun s => with_slots s (<[entity := x]> (slots s)));;
        modify (fun s => with_schedule s (schedule s ++ [entity]));; mret (Some x)
  end.

Definition enqueue (c : Call) : act unit :=
  s ← state;
  if stopped (flags s) then say (creply c) (status disconnected)
  else match methods (registry s) !! croute c with
  | None => say (creply c) (status not_found)
  | Some selected =>
  match method_objects (registry s) !! selected with
  | None => say (creply c) (status not_found)
  | Some method =>
      let l := limits s in
      let k := counters s in
      let charged := charge_of c in
      if draining (flags s) && negb (bytes_eqb (croute c) (method_type method ++ lit ".$deactivate") || bytes_eqb (croute c) (method_type method ++ lit ".$destroy"))
      then say (creply c) (status overloaded)
      else if (lrequests l <=? pending k) || (lqueued_bytes l - queued k <? charged) then say (creply c) (status overloaded)
      else match (match cdecoded c with Some m => Some m | None => parse_entity_message (cdata c) end) with
      | None => say (creply c) (status rejected)
      | Some m =>
          if negb (valid_entity_id (msg_id m)) then say (creply c) (status rejected)
          else if negb (is_empty (msg_request m)) && (lreceipt_bytes l <? size (msg_payload m) + size (croute c) + size (msg_request m) + 16)
          then say (creply c) (status overloaded)
          else
            let checked := match method_policy method with
                           | None => Some m
                           | Some p => if negb (allows (MkPolicy (rpc_client p) (rpc_server p) false) (cwho c) []) then None
                                       else if is_empty (msg_request m) then Some m
                                       else Some (MkMessage (msg_id m) (msg_payload m) (scoped_request (host_owner s) (cwho c) (msg_request m)))
                           end in
            match checked with
            | None => say (creply c) (status rejected)
            | Some m =>
                let entity := entity_key (method_type method) (msg_id m) in
                x ← open_slot entity (method_type method) (msg_id m);
                match x with
                | None => say (creply c) (status overloaded)
                | Some x =>
                    if releasing x then say (creply c) (status rejected)
                    else
                      let r := new_request c charged m selected method s in
                      modify (fun s => with_slots s (<[entity := with_queue x (queue x ++ [r]) (busy x) (is_control (rq r))]> (slots s)));;
                      modify (fun s => with_counters s (with_pending (counters s) (pending (counters s) + 1) (queued (counters s) + charged)))
                end
            end
      end
  end end.

(** ** complete *)

Definition erase_slot (entity : bytes) : act unit :=
  s ← state;
  match slots s !! entity with
  | None => done
  | Some x =>
      modify (fun s => with_counters s (with_transient_bytes (counters s) (transient_bytes (counters s) - size (transient (cache x)))));;
      modify (fun s => with_slots s (delete entity (slots s)))
  end;;
  modify (fun s => with_schedule s (List.filter (fun e => negb (bytes_eqb e entity)) (schedule s))).

Definition job_fence (r : Running) : N := jfence (grant (run_job r)).
Definition job_q (r : Running) : HostRequest := rq (run_request r).

(** The slot of a finished job. *)
Definition complete_slot (r : Running) (ok_ : bool) (x : Slot) : Slot :=
  let j := run_job r in
  let x := match run_commit r with
           | Some c => if ok_ then with_cache x (MkCache (run_transient r) (job_fence r) (revision (current_image c))) else x
           | None => x
           end in
  let x := if ok_ && metadata_only (plan j) && previously_owned (facts j) then
             let x := if resident_fence (cache x) =? previous_fence (facts j) then with_cache x (MkCache (transient (cache x)) (job_fence r) (transient_revision (cache x))) else x in
             if activated x && (activation_fence x =? previous_fence (facts j)) then with_activation x (activated x) (job_fence r) else x
           else x in
  let x := with_touched (with_queue x (queue x) false false) (e_now env) in
  let x := match jmetadata (facts j) with Some m => if ok_ then with_owner_key x (owner_connection m) else x | None => x end in
  let x := if ok_ then with_cache x (MkCache (transient (cache x)) (job_fence r) (transient_revision (cache x))) else x in
  let x := if ok_ && negb (metadata_only (plan j)) then with_activation x true (job_fence r)
           else if ((job_fence r =? 0) && negb (preserve_activation (outcome j))) || owner_lost (outcome j) then with_activation x false (activation_fence x) else x in
  if owner_lost (outcome j) then with_cache x (MkCache (transient (cache x)) 0 (transient_revision (cache x))) else x.

(** The transient bytes after the cache is replaced, or the growth given back. *)
Definition transient_after (r : Running) (ok_ : bool) (x : option Slot) (n : N) : N :=
  match run_commit r, ok_, x with
  | Some _, true, Some x => if size (run_transient r) <? size (transient (cache x)) then n - (size (transient (cache x)) - size (run_transient r)) else n
  | _, _, _ => n - cache_growth (run_budget r)
  end.

Definition invalidate (entity : bytes) : act unit :=
  s ← state;
  match slots s !! entity with
  | None => done
  | Some x =>
      let n := serials s in
      modify (fun s => with_counters s (with_transient_bytes (counters s) (transient_bytes (counters s) - size (transient (cache x)))));;
      modify (fun s => with_serials s (MkSerials (admission_serial n) (generations n + 1) (timer_revision n) (job_serial n) (drain_serial n) (method_serial n)));;
      modify (fun s => with_slots s (<[entity := with_generation (with_activation (with_cache x no_cache) false (activation_fence x)) (generations n + 1)]> (slots s)))
  end;;
  emit (closed_notified entity false).

Definition image_changed (c : Commit) : bool :=
  negb (struct_eqb (values (previous c)) (values (current_image c))) || negb (revision (previous c) =? revision (current_image c)).

Definition complete (entity : bytes) (r : Running) (x : Result) (uncertain : bool) : act unit :=
  s ← state;
  let ok_ := bool_decide (rstatus x = ok) in
  let n := serials s in
  modify (fun s => if run_dirty r && (ok_ || uncertain)
                   then with_serials s (MkSerials (admission_serial n) (generations n) (timer_revision n + 1) (job_serial n) (drain_serial n) (method_serial n)) else s);;
  modify (fun s => with_running s (delete entity (active s)));;
  let k := counters s in
  let k := with_transient_bytes k (transient_after r ok_ (slots s !! entity) (transient_bytes k)) in
  let k := with_state_bytes (with_pending k (pending k - 1) (queued k - rbytes (run_request r))) (state_bytes k - resident (run_budget r)) in
  modify (fun s => with_counters s (count_outcome k (rstatus x) (rtick (run_request r))));;
  modify (fun s => with_slots s (match slots s !! entity with Some y => <[entity := complete_slot r ok_ y]> (slots s) | None => slots s end));;
  (if uncertain then invalidate entity else done);;
  match run_commit r with Some c => if ok_ && image_changed c then emit (attributes_notified entity c) else done | None => done end;;
  (if ok_ && is_control (job_q r) then erase_slot entity;; emit (closed_notified entity (is_destroy_route (job_q r))) else done);;
  s ← state;
  (if wrong_node (outcome (run_job r)) then
     match slots s !! entity with
     | Some y => if is_empty (queue y) then erase_slot entity;; emit (closed_notified entity false) else done
     | None => done
     end
   else done);;
  say (rreply (run_request r)) x.

(** The job [r] goes on, as changed. *)
Definition keep (entity : bytes) (r : Running) : act unit := modify (fun s => with_running s (<[entity := r]> (active s))).
Definition charge (n : N) : act unit := modify (fun s => with_counters s (with_state_bytes (counters s) (state_bytes (counters s) + n))).
Definition fail_with (entity : bytes) (r : Running) (s : Status) : act unit := complete entity r (status s) false.

(** ** Committing *)

Definition free_state (s : Host) : N := lresident_bytes (limits s) - state_bytes (counters s).
Definition with_image (r : Running) (i : EntitySnapshot) : Running := with_job r (with_jimage (run_job r) i).
Definition with_timers (r : Running) (t : EntityTimerState) : Running :=
  let i := HostJobs.image (run_job r) in with_image r (MkSnapshot (Records.state i) (receipts i) (delivery i) t).
Definition with_joutput (j : Job) (o : bytes) : Job :=
  let p := plan j in with_plan j (MkPlan (replay p) (metadata_only p) o (timer_event p) (jpayload p)).
Definition only_metadata (j : Job) : Job :=
  let p := plan j in with_plan j (MkPlan (replay p) true (joutput p) (timer_event p) (jpayload p)).

(** [publish_timers]: the timers with their new token, and what the budget grows by. *)
Definition publish_timers (l : EntityRuntimeLimits) (free : N) (r : Running) (t : EntityTimerState) : result (Running * N) :=
  throw_if tsequence t =? u64_max as overflow_error ;;
  let n := tsequence t + 1 in
  let t := MkTimers n (to_string (jversion (grant (run_job r))) ++ lit "." ++ to_string n) (tentries t) in
  let* bytes := entity_timers_wire_size t in
  throw_if (ltimers l <? N.of_nat (length (tentries t))) || (ltimer_bytes l <? bytes) as length_error ;;
  let b := run_budget r in
  let growth := 4 * bytes - timer_charge b in
  throw_if free <? growth as length_error ;;
  Ok (with_dirty (with_timers (with_budget r (MkBudget (resident b + growth) (timer_charge b + growth) (cache_growth b))) t) true, growth).

(** The timer that fired is advanced, unless the operation replaced it. *)
Definition fired_timers (l : EntityRuntimeLimits) (free : N) (r : Running) : result (Running * N) :=
  match timer_event (plan (run_job r)) with
  | None => Ok (r, 0)
  | Some e =>
      if metadata_only (plan (run_job r)) then Ok (r, 0)
      else
        let fired := etimer e in
        let t := timers (HostJobs.image (run_job r)) in
        match map_find (tkey fired) (tentries t) with
        | Some p =>
            if bytes_eqb (tgeneration p) (tgeneration fired) && (due_ms p =? due_ms fired)%Z then
              let* '(again, p) := advance_entity_timer p (Z.max (e_wall env) (due_ms fired)) in
              publish_timers l free r (MkTimers (tsequence t) (ttoken t) (if again then map_insert (tkey fired) p (tentries t) else map_erase (tkey fired) (tentries t)))
            else Ok (r, 0)
        | None => Ok (r, 0)
        end
  end.

(** What a job about to commit retains. *)
Definition retained_commit (r : Running) (st output : bytes) (rs : list EntityReceipt) (d : EntityDeliveryState) : result N :=
  let t := timers (HostJobs.image (run_job r)) in
  let* dn := if depoch d =? 0 then Ok 0 else let* w := encode_delivery_state d in Ok (2 * size w) in
  let* tn := if is_empty (ttoken t) then Ok 0 else let* n := entity_timers_wire_size t in Ok (4 * n) in
  Ok (match run_commit r with Some c => 4 * attribute_image_bytes (values (current_image c)) + 4 * attribute_image_bytes (values (previous c)) + 5 * size st | None => size st end +
      4 * size (run_transient r) + size output + total_receipts rs + 12 + dn + tn).

(** The last part of [done]: the record is built and its commit submitted. *)
Definition submit_commit (entity : bytes) (r : Running) (x : Effects) (rs : list EntityReceipt) (d : EntityDeliveryState) (out : bytes) : act unit :=
  s ← state;
  let q := job_q r in
  let id := drop (S (length (qtype q))) entity in
  match retained_commit r (xstate x) out rs d with
  | Throw _ => fail_with entity r internal
  | Ok n =>
      if free_state s + resident (run_budget r) <? n then fail_with entity r overloaded
      else
        modify (fun s => with_counters s (with_state_bytes (counters s) (state_bytes (counters s) - resident (run_budget r) + n)));;
        let r := with_budget r (MkBudget n (timer_charge (run_budget r)) (cache_growth (run_budget r))) in
        let entry := timer_entry q id (run_job r) x in
        let r := with_dirty r (is_some entry) in
        match committed_record (host_owner s) q (with_jimage (run_job r) (MkSnapshot (xstate x) rs d (xtimers x))) with
        | Throw _ => fail_with entity r internal
        | Ok None => fail_with entity r rejected
        | Ok (Some w) =>
            let j := run_job r in
            let f := facts j in
            let j := if is_some (new_owner q) then with_facts j (MkFacts (metadata w) (jplacement f) (jtransfer f) (created f) (previously_owned f) (previous_fence f)) else j in
            match encode_entity_record w with
            | Throw _ => fail_with entity (with_job r j) internal
            | Ok persisted =>
                let out := if is_empty (handoff_target q) then out else Fields.integer (jversion (grant j)) in
                let r := with_job r (with_joutput j out) in
                if e_accepts env entity then keep entity r;; emit (commit_submitted entity (run_id r) (grant j) entry persisted)
                else fail_with entity r overloaded
            end
        end
  end.

(** The receipts, the cache growth and the delivery of the operation. *)
Definition settle_run (entity : bytes) (r : Running) (st payload : bytes) : act unit :=
  s ← state;
  let q := job_q r in
  let i := HostJobs.image (run_job r) in
  let x := MkEffects st payload (delivery i) (timers i) (run_dirty r) (run_refused r) in
  let output := if is_some (timer_event (plan (run_job r))) then lit "1" else payload in
  match add_receipt (limits s) q (jpayload (plan (run_job r))) output (receipts i) with
  | None => fail_with entity r overloaded
  | Some _ =>
      let growing := match run_commit r with
                     | None => Ok 0
                     | Some _ => match slots s !! entity with
                                 | None => Throw runtime_error
                                 | Some y => Ok (size (run_transient r) - size (transient (cache y)))
                                 end
                     end in
      match growing with
      | Throw _ => fail_with entity r disconnected
      | Ok growth =>
          if lresident_bytes (limits s) - transient_bytes (counters s) <? growth then fail_with entity r overloaded
          else
            modify (fun s => with_counters s (with_transient_bytes (counters s) (transient_bytes (counters s) + growth)));;
            let r := with_budget r (MkBudget (resident (run_budget r)) (timer_charge (run_budget r)) growth) in
            match settle_image SHA256 (limits s) q (run_job r) x with
            | Throw _ => fail_with entity r internal
            | Ok None => fail_with entity r overloaded
            | Ok (Some (rs, d, out)) => submit_commit entity r x rs d out
            end
      end
  end.

(** The image the operation left, when the entity has attributes. *)
Definition close_run (r : Running) (st : bytes) : result (Running * bytes) :=
  match run_commit r with
  | None => Ok (r, st)
  | Some c =>
      let* z := close_image (cschema c) (run_job r) (previous c) st in
      Ok (with_commit r (Some (MkCommit (cowner c) (cschema c) (previous c) (full z))) (cached_bytes z), persisted_state z)
  end.

Definition policy_of (r : Request) (s : Host) : option RpcPolicy :=
  match method_objects (registry s) !! rmethod r with Some m => method_policy m | None => None end.
Definition schema_of (r : Request) (s : Host) : option EntitySchema :=
  match method_objects (registry s) !! rmethod r with Some m => method_schema m | None => None end.
Definition slot_owner (entity : bytes) (s : Host) : bytes := match slots s !! entity with Some x => owner_key x | None => [] end.
Definition permitted (p : RpcPolicy) (r : Request) (entity : bytes) (s : Host) : bool :=
  allows p (e_who env (rwho r)) (if owner_only p then slot_owner entity s else []).
Definition guard_ok (r : Running) : bool :=
  negb (rguard (run_request r)) ||
  match jmetadata (facts (run_job r)) with Some m => match e_guard env (owner_connection m) with Ok b => b | Throw _ => false end | None => false end.

(** A delivery that the logic refused is recorded with the rolled back image. *)
Definition refuse_delivery (r : Running) (x : Result) : option (result (Running * Result)) :=
  if is_some (incoming (job_q r)) && logic_started r && (bool_decide (rstatus x = rejected) || bool_decide (rstatus x = not_found)) then
    match run_rollback r with
    | Some b =>
        let i := HostJobs.image (run_job r) in
        let r := with_refused (with_dirty (with_job r (only_metadata (with_jimage (run_job r) (MkSnapshot (Records.state i) (receipts i) (delivery b) (timers b))))) false) (Some x) in
        Some (let* w := state_message (Records.state b) [] in Ok (r, MkResult ok w))
    | None => None
    end
  else None.

(** [done]: the result of the operation. *)
Definition finish_logic (entity : bytes) (r : Running) (x : Result) : act unit :=
  s ← state;
  let r := with_phase r committing in
  let settled := if bool_decide (rstatus x = ok) then Some (Ok (r, x)) else refuse_delivery r x in
  match settled with
  | None => complete entity r x false
  | Some (Throw _) => fail_with entity r internal
  | Some (Ok (r, x)) =>
      let l := limits s in
      if (rdeadline (run_request r) <=? e_now env)%Z then fail_with entity r timeout
      else if negb (guard_ok r) then fail_with entity r rejected
      else if negb (metadata_only (plan (run_job r))) && match policy_of (run_request r) s with Some p => negb (permitted p (run_request r) entity s) | None => false end
      then fail_with entity r rejected
      else match parse_state_message (rdata x) with
      | None => fail_with entity r internal
      | Some (st, payload) =>
      match fired_timers l (free_state s) (with_rollback r None) with
      | Throw _ => fail_with entity r internal
      | Ok (r, growth) =>
          charge growth;;
          if (lstate_bytes l <? size st) || (lqueued_bytes l <? size payload) then fail_with entity r overloaded
          else match close_run r st with
          | Throw _ => fail_with entity r internal
          | Ok (r, st) => settle_run entity r st payload
          end
      end end
  end.

(** ** Executing *)

Definition lifecycle : CallIdentity := framework (lit "framework:lifecycle").

(** [*advance]: the next step of the chain. *)
Definition advance (entity : bytes) (r : Running) (steps : list (option bytes)) (step : nat) (st : bytes) : act unit :=
  s ← state;
  if (rdeadline (run_request r) <=? e_now env)%Z then finish_logic entity r (status timeout)
  else match steps !! step with
  | None => done
  | Some m =>
      let last := Nat.eqb (S step) (length steps) in
      match slots s !! entity with
      | None => finish_logic entity r (status disconnected)
      | Some y =>
          let input := let* w := state_message st (if last then jpayload (plan (run_job r)) else []) in entity_message (handle_id y) w [] in
          match input with
          | Throw _ => fail_with entity r internal
          | Ok input =>
              let r := with_started (with_phase r (executing steps (S step) st)) (run_activating r) (logic_started r || last) in
              match m with
              | Some route => keep entity r;; emit (logic_called entity (run_id r) (S step) route (if last then rwho (run_request r) else lifecycle) input)
              | None => match state_message st [] with Ok w => finish_logic entity r (MkResult ok w) | Throw _ => finish_logic entity r (status internal) end
              end
          end
      end
  end.

(** [execute] *)
Definition execute (entity : bytes) (r : Running) : act unit :=
  s ← state;
  let q := job_q r in
  let j := run_job r in
  if metadata_only (plan j) then
    match state_message (Records.state (HostJobs.image j)) [] with Ok w => finish_logic entity r (MkResult ok w) | Throw _ => finish_logic entity r (status internal) end
  else
    let hook (b : bool) name := if b && has_method (qtype q ++ name) s then [Some (qtype q ++ name)] else [] in
    let control := is_control q in
    let resting := control && match slots s !! entity with Some y => negb (activated y) | None => false end in
    let steps := hook (negb control && created (facts j)) (lit ".$create") ++ hook (negb control && run_activating r) (lit ".$activate") ++ [if resting then None else Some (qroute q)] in
    advance entity r steps 0 (Records.state (HostJobs.image j)).

(** The completion of step [step]; a second one does nothing. *)
Definition logic_done (entity : bytes) (job : N) (step : nat) (x : Result) : act unit :=
  s ← state;
  match active s !! entity with
  | None => done
  | Some r =>
      match run_phase r with
      | executing steps n st =>
          if stopped (flags s) || negb (run_id r =? job) || negb (Nat.eqb n step) then done
          else if Nat.eqb n (length steps) || negb (bool_decide (rstatus x = ok)) then finish_logic entity r x
          else match parse_state_message (rdata x) with
          | None => finish_logic entity r (status overloaded)
          | Some (next, _) =>
              let growth := if size st <? size next then 5 * (size next - size st) else 0 in
              if (lstate_bytes (limits s) <? size next) || (free_state s <? growth) then finish_logic entity r (status overloaded)
              else charge growth;; let b := run_budget r in advance entity (with_budget r (MkBudget (resident b + growth) (timer_charge b) (cache_growth b))) steps n next
          end
      | _ => done
      end
  end.

(** ** Acquiring *)

(** What an acquired job retains. *)
Definition retained_acquired (j : Job) (charge : N) : result N :=
  let i := HostJobs.image j in
  let* dn := if depoch (delivery i) =? 0 then Ok 0 else let* w := encode_delivery_state (delivery i) in Ok (2 * size w) in
  Ok (size (Records.state i) + dn + charge + total_receipts (receipts i)).

(** The rollback of a delivery, then the operation. *)
Definition start_logic (entity : bytes) (r : Running) : act unit :=
  s ← state;
  match slots s !! entity with
  | None => done
  | Some y =>
      let j := run_job r in
      let f := facts j in
      let r := with_started r (negb (activated y) || negb (previously_owned f) || negb (activation_fence y =? previous_fence f)) (logic_started r) in
      if is_some (incoming (job_q r)) && negb (metadata_only (plan j)) then
        let i := HostJobs.image j in
        match encode_delivery_state (delivery i) with
        | Throw _ => fail_with entity r internal
        | Ok w =>
            let n := size (Records.state i) + 2 * size w + timer_charge (run_budget r) in
            if free_state s <? n then fail_with entity r overloaded
            else
              charge n;;
              execute entity (with_rollback (with_budget r (MkBudget (resident (run_budget r) + n) (timer_charge (run_budget r)) (cache_growth (run_budget r)))) (Some i))
        end
      else execute entity r
  end.

(** The attribute image of the operation. *)
Definition open_run (entity : bytes) (r : Running) : act unit :=
  s ← state;
  let q := job_q r in
  let j := run_job r in
  match slots s !! entity with
  | None => fail_with entity r disconnected
  | Some y =>
      match (if metadata_only (plan j) then None else schema_of (run_request r) s) with
      | None => start_logic entity r
      | Some sc =>
          let opened := let* m := open_image sc q (cache y) j in
                        let u := full_update (attr_revision m) (all_values m) in
                        let* w := encode_attributes u in Ok (u, w) in
          match opened with
          | Throw _ => fail_with entity r internal
          | Ok (u, w) =>
              let n := resident (run_budget r) + 4 * size w + 65536 + 4 * attribute_image_bytes (values u) in
              if free_state s + resident (run_budget r) <? n then fail_with entity r overloaded
              else
                modify (fun s => with_counters s (with_state_bytes (counters s) (state_bytes (counters s) - resident (run_budget r) + n)));;
                let i := HostJobs.image j in
                let r := with_budget (with_image r (MkSnapshot w (receipts i) (delivery i) (timers i))) (MkBudget n (timer_charge (run_budget r)) (cache_growth (run_budget r))) in
                let r := with_commit r (Some (MkCommit (owner_key y) sc u (full_update 0 []))) (run_transient r) in
                if bytes_eqb (qroute q) (qtype q ++ lit ".$write") && negb (is_ok (check_write sc (owner_key y) u (jpayload (plan j)) (e_who env (rwho (run_request r)))))
                then fail_with entity r rejected
                else start_logic entity r
          end
      end
  end.

(** The resident budget of an acquired job. *)
Definition admit_run (entity : bytes) (r : Running) : act unit :=
  s ← state;
  let j := run_job r in
  let t := timers (HostJobs.image j) in
  let retained := let* tc := if is_empty (ttoken t) then Ok 0 else let* n := entity_timers_wire_size t in Ok (4 * n) in
                  let* n := retained_acquired j tc in Ok (tc, n) in
  match retained with
  | Throw _ => fail_with entity r internal
  | Ok (tc, n) =>
      if free_state s <? n then fail_with entity r overloaded
      else charge n;; open_run entity (with_budget r (MkBudget n tc (cache_growth (run_budget r))))
  end.

Definition with_delivery_error (r : Running) (x : Result) : Running :=
  let q := job_q r in
  let o := run_request r in
  with_request r (MkQueued (MkRequest (qtype q) (qroute q) (qrequest_id q) (qpayload q) (handoff_target q) (accept_transfer q) (incoming q) (ack q) (Some x) (new_owner q) (timer q) (expected_owner q))
    (rmethod o) (rreply o) (rdeadline o) (rbytes o) (rtick o) (rwho o) (rguard o)).

(** The completion of the acquisition. *)
Definition acquired (entity : bytes) (job : N) (x : result Job) : act unit :=
  s ← state;
  match active s !! entity with
  | None => done
  | Some r =>
      if stopped (flags s) || negb (run_id r =? job) then done
      else match run_phase r, x with
      | acquiring, Throw _ => fail_with entity r internal
      | acquiring, Ok j =>
          let r := with_job r j in
          if negb (bool_decide (jstatus (outcome j) = ok)) then
            match incoming (job_q r), jstatus (outcome j) with
            | Some e, not_found =>
                match encode_delivery_ack (ticket (emessage e)) (status not_found) with
                | Ok w => complete entity (with_job r (only_metadata j)) (MkResult ok w) false
                | Throw _ => fail_with entity (with_job r (only_metadata j)) internal
                end
            | _, st => complete entity r (status st) false
            end
          else
            match jmetadata (facts j) with
            | Some m => modify (fun s => with_slots s (match slots s !! entity with Some y => <[entity := with_owner_key y (owner_connection m)]> (slots s) | None => slots s end))
            | None => done
            end;;
            s ← state;
            if negb (guard_ok r) then fail_with entity r rejected
            else
              let r := with_job r (open_delivery (delivery_enabled (flags s)) j) in
              let p := policy_of (run_request r) s in
              let allowed := match p with Some p => permitted p (run_request r) entity s | None => true end in
              if (rdeadline (run_request r) <=? e_now env)%Z then fail_with entity r timeout
              else
                let inc := is_some (incoming (job_q r)) in
                let r := if inc && negb (replay (plan j)) && negb allowed then with_job (with_delivery_error r (status rejected)) (only_metadata (run_job r)) else r in
                if negb inc && is_some p && negb (bool_decide (is_Some (slots s !! entity))) then fail_with entity r disconnected
                else if negb inc && negb allowed then fail_with entity r rejected
                else if replay (plan j) then
                  modify (fun s => with_counters s (count_replayed (counters s)));; complete entity r (MkResult ok (joutput (plan j))) false
                else admit_run entity r
      | _, _ => done
      end
  end.

(** [acquire]: the front request of a mailbox becomes a job, if the executor takes it. *)
Definition acquire (entity : bytes) : act unit :=
  s ← state;
  match slots s !! entity with
  | None => done
  | Some y =>
      match queue y with
      | [] => done
      | r :: rest =>
          if negb (e_accepts env entity) then done
          else
            let n := serials s in
            let id := job_serial n + 1 in
            modify (fun s => with_serials s (MkSerials (admission_serial n) (generations n) (timer_revision n) id (drain_serial n) (method_serial n)));;
            keep entity (MkRunning id r acquiring (new_job (rq r)) (MkBudget 0 0 0) None [] false None None false false);;
            modify (fun s => with_slots s (<[entity := with_queue y rest true (releasing y)]> (slots s)));;
            emit (acquire_submitted entity id)
      end
  end.

(** The completion of the commit. *)
Definition commit_done (entity : bytes) (job : N) (x : result bool) : act unit :=
  s ← state;
  match active s !! entity with
  | None => done
  | Some r =>
      if stopped (flags s) || negb (run_id r =? job) then done
      else match run_phase r, x with
      | committing, Throw _ => complete entity r (status internal) true
      | committing, Ok true => complete entity r (MkResult ok (joutput (plan (run_job r)))) false
      | committing, Ok false =>
          let o := outcome (run_job r) in
          let j := MkJob (MkOutcome rejected true (wrong_node o) (preserve_activation o)) (facts (run_job r)) (HostJobs.image (run_job r)) (plan (run_job r)) (grant (run_job r)) in
          fail_with entity (with_job r j) rejected
      | _, _ => done
      end
  end.

(** ** What an operation may do to its job *)

(** [timer_job]: the transaction under way of a durable entity. *)
Definition timer_job (entity : bytes) (s : Host) : result Running :=
  match active s !! entity with
  | Some r =>
      match run_phase r, jmetadata (facts (run_job r)) with
      | executing _ _ _, Some m => if stopped (flags s) || rebuildable m then Throw logic_error else Ok r
      | _, _ => Throw logic_error
      end
  | None => Throw logic_error
  end.

Record EntityTimerSpec := MkSpec { spec_key : bytes; spec_method : bytes; spec_payload : bytes; spec_at : Z; spec_delay : Z; spec_interval : Z; spec_count : N; spec_missed : TimerMissed; spec_fixed : bool }.

(** The next timer key and generation of a job. *)
Definition next_generation (r : Running) : bytes :=
  to_string (jversion (grant (run_job r))) ++ lit "." ++ to_string (tsequence (timers (HostJobs.image (run_job r))) + 1).

Definition apply_timers (entity : bytes) (r : Running) (t : EntityTimerState) : act (result unit) :=
  s ← state;
  match publish_timers (limits s) (free_state s) r t with
  | Throw e => mret (Throw e)
  | Ok (r, growth) => charge growth;; keep entity r;; mret (Ok tt)
  end.

Definition schedule_timer (type id : bytes) (spec : EntityTimerSpec) : act (result bytes) :=
  s ← state;
  let entity := entity_key type id in
  match timer_job entity s with
  | Throw e => mret (Throw e)
  | Ok r =>
      let time := e_wall env in
      if (time <? 0)%Z || (spec_delay spec <? 0)%Z || (spec_at spec <? -1)%Z || (spec_interval spec <? 0)%Z || ((0 <=? spec_at spec)%Z && negb (spec_delay spec =? 0)%Z) ||
         ((spec_at spec <? 0)%Z && (INT64_MAX - time <? spec_delay spec)%Z) then mret (Throw invalid_argument)
      else if negb (has_method (type ++ lit ".$timer") s) then mret (Throw logic_error)
      else
        let t := timers (HostJobs.image (run_job r)) in
        if tsequence t =? u64_max then mret (Throw overflow_error)
        else
          let generation := next_generation r in
          let key := if is_empty (spec_key spec) then lit "timer:" ++ generation else spec_key spec in
          let timer := MkTimer key (spec_method spec) (spec_payload spec) generation (if (0 <=? spec_at spec)%Z then spec_at spec else (time + spec_delay spec)%Z)
                         (spec_interval spec) (spec_count spec) (spec_missed spec) (spec_fixed spec) in
          x ← apply_timers entity r (MkTimers (tsequence t) (ttoken t) (map_insert key timer (tentries t)));
          mret (match x with Ok _ => Ok key | Throw e => Throw e end)
  end.

Definition cancel_timer (type id key : bytes) : act (result bool) :=
  s ← state;
  let entity := entity_key type id in
  match timer_job entity s with
  | Throw e => mret (Throw e)
  | Ok r =>
      let t := timers (HostJobs.image (run_job r)) in
      if negb (map_contains key (tentries t)) then mret (Ok false)
      else
        x ← apply_timers entity r (MkTimers (tsequence t) (ttoken t) (map_erase key (tentries t)));
        mret (match x with Ok _ => Ok true | Throw e => Throw e end)
  end.

(** [send_entity]: the checks; the reply goes with the storage job. *)
Definition send_entity (source_type source_id type id method payload : bytes) (n : N) : act unit :=
  s ← state;
  let entity := entity_key source_type source_id in
  match active s !! entity with
  | Some r =>
      match run_phase r with
      | committing => emit (replied n (status rejected))
      | _ =>
          if stopped (flags s) || negb (delivery_enabled (flags s)) || match jmetadata (facts (run_job r)) with Some m => rebuildable m | None => false end then emit (replied n (status rejected))
          else match (let* _ := entity_route (if is_empty type && valid_entity_id id then lit "_" else type) method in entity_message id [] []) with
          | Throw _ => emit (replied n (status rejected))
          | Ok _ =>
              if front_is x24 method || (delivery_payload_limit <? size payload) || (ldelivery_messages (limits s) <=? N.of_nat (length (outbox (delivery (HostJobs.image (run_job r))))))
              then emit (replied n (status overloaded))
              else if e_accepts env entity then emit (send_submitted n entity (run_id r)) else emit (replied n (status overloaded))
          end
      end
  | None => emit (replied n (status rejected))
  end.

(** The completion of [send_entity]'s storage job [send_job] for the job [job]: its own reply
    [n] is called at once. *)
Definition send_done (entity : bytes) (job : N) (source : bytes * bytes) (id method payload : bytes) (x : result (Status * bytes * N)) (n : N) : act unit :=
  s ← state;
  match active s !! entity with
  | Some r =>
      match run_phase r with
      | executing _ _ _ =>
          if stopped (flags s) || negb (run_id r =? job) then emit (replied n (status disconnected))
          else match x with
          | Throw _ => emit (replied n (status internal))
          | Ok (st, type, epoch) =>
              if negb (bool_decide (st = ok)) then emit (replied n (status st))
              else
                let i := HostJobs.image (run_job r) in
                match stage_message SHA256 (limits s) source type id method payload epoch (free_state s) (delivery i) with
                | Ok (Some (d, growth, t)) =>
                    charge growth;;
                    let b := run_budget r in
                    keep entity (with_image (with_budget r (MkBudget (resident b + growth) (timer_charge b) (cache_growth b))) (MkSnapshot (Records.state i) (receipts i) d (timers i)));;
                    emit (replied n (MkResult ok t))
                | _ => emit (replied n (status overloaded))
                end
          end
      | _ => emit (replied n (status disconnected))
      end
  | None => emit (replied n (status disconnected))
  end.

Definition forget (entity t : bytes) : act bool :=
  s ← state;
  match active s !! entity with
  | Some r =>
      match run_phase r with
      | executing _ _ _ =>
          let i := HostJobs.image (run_job r) in
          match forget_delivery t (delivery i) with
          | Some d => keep entity (with_image r (MkSnapshot (Records.state i) (receipts i) d (timers i)));; mret true
          | None => mret false
          end
      | _ => mret false
      end
  | None => mret false
  end.

(** ** Admissions *)

(** The reply of an admission called with a result. *)
Definition answer (r : AdmissionReply) (x : Result) : act unit :=
  match r with
  | plain r => say r x
  | guarded type id deadline n =>
      s ← state;
      if stopped (flags s) then emit (replied n (status disconnected))
      else if negb (bool_decide (rstatus x = ok)) then emit (replied n x)
      else if (deadline <=? e_now env)%Z then emit (replied n (status timeout))
      else match e_guard env (rdata x) with
      | Ok true =>
          match entity_message id [] [] with
          | Throw _ => emit (replied n (status internal))
          | Ok w => enqueue (MkCall (type ++ lit ".$snapshot") w (user n) false (framework (lit "framework:authorized-snapshot")) [] 0 None None (Some deadline) None None None true (Some (rdata x)))
          end
      | _ => emit (replied n (status rejected))
      end
  end.

(** [admit()] *)
Definition new_admission (bytes : N) (r : AdmissionReply) (deadline : option Z) (p : purpose) : act (option N) :=
  s ← state;
  if stopped (flags s) then answer r (status disconnected);; mret None
  else
    let n := serials s in
    let k := counters s in
    if draining (flags s) || (admission_serial n =? u64_max) || (lrequests (limits s) <=? pending k) || (lqueued_bytes (limits s) - queued k <? bytes) then answer r (status overloaded);; mret None
    else
      let id := admission_serial n + 1 in
      let timeout := (e_now env + ms (lrequest_timeout_ms (limits s)))%Z in
      modify (fun s => with_serials s (MkSerials id (generations n) (timer_revision n) (job_serial n) (drain_serial n) (method_serial n)));;
      modify (fun s => with_admissions s (<[id := MkAdmission bytes r (match deadline with Some d => Z.min timeout d | None => timeout end) p]> (admissions s)));;
      modify (fun s => with_counters s (with_pending k (pending k + 1) (queued k + bytes)));; mret (Some id).

(** [take]: the admission leaves the table. *)
Definition take_admission (id : N) (a : Admission) : act unit :=
  modify (fun s => with_admissions s (delete id (admissions s)));;
  modify (fun s => with_counters s (with_pending (counters s) (pending (counters s) - 1) (queued (counters s) - abytes a))).

(** [finish] *)
Definition finish (id : N) (x : Result) : act unit :=
  s ← state;
  match admissions s !! id with None => done | Some a => take_admission id a;; answer (areply a) x end.

(** [dispatch_resolved] *)
Definition dispatch_resolved (who : CallIdentity) (data type : bytes) (reply : Reply) (deadline : option Z) : act unit :=
  match parse_entity_call_view data with
  | None => say reply (status rejected)
  | Some v =>
      if negb (is_empty (call_type v)) && negb (bytes_eqb (call_type v) type) then say reply (status rejected)
      else match entity_route type (call_method v) with
      | Throw _ => say reply (status internal)
      | Ok route => enqueue (MkCall route [] reply false who [] 0 None None deadline None None (Some (MkMessage (str (call_id v)) (call_payload v) (call_request v))) false None)
      end
  end.

(** [dispatch] *)
Definition dispatch (who : CallIdentity) (data : bytes) (n : N) (deadline : option Z) : act unit :=
  match parse_entity_call_view data with
  | None => emit (replied n (status rejected))
  | Some v =>
      s ← state;
      let id := str (call_id v) in
      match resolved_types (registry s) !! id with
      | Some type => dispatch_resolved who data type (user n) deadline
      | None =>
          a ← new_admission (size data) (plain (user n)) deadline (resolve_call who data);
          match a with
          | None => done
          | Some a => if e_accepts env id then emit (lookup_submitted a id) else finish a (status overloaded)
          end
      end
  end.

Definition remember (id type : bytes) : act unit :=
  modify (fun s => let g := registry s in
    let known := if lentities (limits s) <=? N.of_nat (base.size (resolved_types g)) then ∅ else resolved_types g in
    with_registry s (MkRegistry (methods g) (method_objects g) (schemas g) (<[id := type]> known))).

(** [bind_owner]; [reply] is the caller's, or that of the admission that resolved the type. *)
Definition bind_owner_typed (type id : bytes) (c : ConnectionRef) (reply : Reply) : act unit :=
  match entity_message id [] [] with
  | Throw _ => say reply (status rejected)
  | Ok w => enqueue (MkCall (type ++ lit ".$snapshot") w reply false (framework (lit "framework:bind-owner")) [] 0 None None None (Some c) None None false None)
  end.
Definition bind_owner (type id : bytes) (c : ConnectionRef) (n : N) : act unit :=
  if negb (valid_entity_id id) || ((negb (is_empty (cid c)) || negb (Identity.generation c =? 0)) && negb (connection_valid c)) then emit (replied n (status rejected))
  else if negb (is_empty type) then bind_owner_typed type id c (user n)
  else
    a ← new_admission (size id + 64) (plain (user n)) None (resolve_owner id c);
    match a with
    | None => done
    | Some a => if e_accepts env id then emit (lookup_submitted a id) else finish a (status overloaded)
    end.

(** [read_owner_binding], alone or as the first part of an authorized read. *)
Definition read_owner_binding (type id : bytes) (reply : AdmissionReply) : act unit :=
  if negb (valid_entity_id id) || is_empty type || (127 <? size type) || has_any [x00] type then answer reply (status rejected)
  else
    a ← new_admission (size type + size id + 64) reply None reading_owner;
    match a with
    | None => done
    | Some a => if e_accepts env id then emit (lookup_submitted a id) else finish a (status overloaded)
    end.

(** The node part of an owner: what precedes the slash. *)
Fixpoint node_part (owner : bytes) : bytes :=
  match owner with [] => [] | b :: l => if Byte.eqb b x2f then [] else b :: node_part l end.

(** The handler of [system.entity.owner]. *)
Definition owner_request (data : bytes) (n : N) : act unit :=
  let parsed :=
    let* '(type, i1) := read_blob data in
    let* '(id, i2) := read_blob i1 in
    let* '(owner, i3) := read_blob i2 in
    throw_if negb (is_empty i3) || (127 <? size type) || negb (valid_entity_id id) as invalid_argument ;;
    let* c := if is_empty owner then Ok (MkConnection [] 0) else from_key owner in
    Ok (type, id, c) in
  match parsed with
  | Throw _ => emit (replied n (status rejected))
  | Ok (type, id, c) => bind_owner type id c n
  end.

(** [create_entity]: the checks, then the creation in the catalogue. *)
Definition create_entity (type : bytes) (vs : AttributeStruct) (owner : ConnectionRef) (scope key target : bytes) (n : N) : act unit :=
  s ← state;
  match schemas (registry s) !! type with
  | None => emit (replied n (status not_found))
  | Some sc =>
      let built :=
        let* o := if connection_valid owner then connection_key owner else Ok [] in
        let* m := entity_attributes sc o in
        let* mu := stage m vs (framework []) in
        let* '(_, m) := publish m mu in
        let* w := encode_attributes (full_update (attr_revision m) (all_values m)) in
        throw_if (lstate_bytes (limits s) <? size w) || is_empty scope || (256 <? size scope) || is_empty key || (128 <? size key) ||
                 (negb (is_empty (cid owner)) && negb (connection_valid owner)) || (negb (is_empty target) && negb (valid_entity_node target)) as invalid_argument ;;
        Ok w in
      match built with
      | Throw _ => emit (replied n (status rejected))
      | Ok w =>
          let target := if is_empty target then node_part (host_owner s) else target in
          a ← new_admission (size w + size type + size scope + size key + 64 + size target) (plain (user n)) None (creating type);
          match a with
          | None => done
          | Some a => if e_accepts env type then emit (create_submitted a type w) else finish a (status overloaded)
          end
      end
  end.

(** The completions of the lookups: what the record says of the entity. *)
Definition lookup_done (id : N) (x : result (Status * bytes)) : act unit :=
  s ← state;
  match admissions s !! id with
  | None => done
  | Some a =>
      match apurpose a with
      | resolve_call who data =>
          if stopped (flags s) then finish id (status disconnected)
          else if (adeadline a <=? e_now env)%Z then finish id (status timeout)
          else match x with
          | Throw _ => finish id (status internal)
          | Ok (st, type) =>
              if negb (bool_decide (st = ok)) then finish id (status st)
              else
                take_admission id a;;
                match parse_entity_call_view data, areply a with
                | Some v, plain r => remember (str (call_id v)) type;; dispatch_resolved who data type r (Some (adeadline a))
                | _, r => answer r (status rejected)
                end
          end
      | resolve_owner eid c =>
          match x with
          | Throw _ => finish id (status internal)
          | Ok (_, type) =>
              if is_empty type then finish id (status not_found)
              else take_admission id a;; match areply a with plain r => bind_owner_typed type eid c r | r => answer r (status rejected) end
          end
      | reading_owner =>
          if stopped (flags s) then finish id (status disconnected)
          else if (adeadline a <=? e_now env)%Z then finish id (status timeout)
          else finish id (match x with Throw _ => status internal | Ok (st, k) => MkResult st (if bool_decide (st = ok) then k else []) end)
      | creating _ => done
      end
  end.

(** The completion of a creation: status, identity, type, whether it was initialized, and its node. *)
Record Created := MkCreated { new_status : Status; new_id : bytes; new_initialized : bool; new_target : bytes }.
Definition create_done (id : N) (x : result Created) : act unit :=
  s ← state;
  match admissions s !! id with
  | None => done
  | Some a =>
      match apurpose a, x with
      | creating _, Throw _ => finish id (status internal)
      | creating type, Ok c =>
          if negb (bool_decide (new_status c = ok)) then finish id (status (new_status c))
          else if stopped (flags s) then finish id (status disconnected)
          else if (adeadline a <=? e_now env)%Z then finish id (status timeout)
          else if new_initialized c then finish id (MkResult ok (new_id c))
          else if negb (entity_node_matches (host_owner s) (new_target c)) then emit (create_elsewhere id type (new_id c) (new_target c))
          else
            take_admission id a;;
            match areply a, entity_message (new_id c) [] [] with
            | plain (user n), Ok w => enqueue (MkCall (type ++ lit ".$snapshot") w (named (new_id c) n) false (framework (lit "framework:create")) [] 0 None None (Some (adeadline a)) None None None false None)
            | r, _ => answer r (status internal)
            end
      | _, _ => done
      end
  end.
(** The other node's answer; [not_found] when there is no [create_on_node]. *)
Definition created_elsewhere (id : N) (eid : bytes) (x : Result) : act unit := finish id (if bool_decide (rstatus x = ok) then MkResult ok eid else x).

(** ** Requests of the framework *)

Definition server_call (route id payload : bytes) (reply : Reply) (who : CallIdentity) : act unit :=
  match entity_message id payload [] with Throw _ => say reply (status rejected) | Ok w => enqueue (simple_call route w reply who) end.

(** [read_attributes] and [write_attributes] *)
Definition read_attributes (type id : bytes) (n : N) : act unit := server_call (type ++ lit ".$snapshot") id [] (user n) (framework (lit "framework:snapshot")).
Definition read_authorized (type id : bytes) (n : N) : act unit :=
  s ← state; read_owner_binding type id (guarded type id (e_now env + ms (lrequest_timeout_ms (limits s)))%Z n).
Definition write_attributes (type id : bytes) (who : CallIdentity) (proposal : bytes) (n : N) (request_id : bytes) : act unit :=
  match entity_message id proposal request_id with
  | Throw _ => emit (replied n (status rejected))
  | Ok w => enqueue (simple_call (type ++ lit ".$write") w (user n) who)
  end.

(** [call_entity] through the global route. *)
Definition call_entity (data : bytes) (timeout_ms : Z) (n : N) : act unit :=
  s ← state;
  if (timeout_ms <=? 0)%Z || (300000 <? timeout_ms)%Z then emit (replied n (status rejected))
  else dispatch (framework (lit "script:" ++ host_owner s)) data n (Some (e_now env + ms timeout_ms)%Z).

Definition fire_timer (type id key generation : bytes) (due : Z) (n : N) : act unit :=
  if negb (valid_entity_id id) || is_empty key || (128 <? size key) || is_empty generation || (64 <? size generation) || (due <? 0)%Z then emit (replied n (status rejected))
  else match entity_message id [] [] with
  | Throw _ => emit (replied n (status rejected))
  | Ok w => enqueue (MkCall (type ++ lit ".$timer") w (user n) false (framework (lit "framework:timer")) [] 0 None None None None (Some (MkFire key generation due)) None false None)
  end.

Definition receive_delivery (who : CallIdentity) (e : DeliveryEnvelope) (n : N) : act unit :=
  s ← state;
  if negb (is_server who) || negb (delivery_enabled (flags s)) || stopped (flags s) then emit (replied n (status rejected))
  else match (let* w := encode_delivery e in let* _ := decode_delivery SHA256 w in entity_message (mid (emessage e)) (mpayload (emessage e)) []) with
  | Throw _ => emit (replied n (status rejected))
  | Ok w => enqueue (MkCall (mtype (emessage e) ++ lit ".$snapshot") w (user n) false who [] 0 (Some e) None None None None None false None)
  end.

Definition acknowledge_delivery (type id : bytes) (epoch : N) (t : bytes) (x : Result) (n : N) : act unit :=
  s ← state;
  if negb (delivery_enabled (flags s)) || stopped (flags s) || (epoch =? 0) || negb (size t =? 64) || (delivery_payload_limit <? size (rdata x)) then emit (replied n (status rejected))
  else match entity_message id [] [] with
  | Throw e => emit (threw n e)
  | Ok w => enqueue (MkCall (type ++ lit ".$snapshot") w (user n) false (framework (lit "framework:delivery-ack")) [] 0 None (Some (MkAck epoch t x)) None None None None false None)
  end.

Definition accept_handoff (type id : bytes) (t : N) (n : N) : act unit :=
  if t =? 0 then emit (replied n (status rejected))
  else match entity_message id [] [] with
  | Throw _ => emit (replied n (status rejected))
  | Ok w => enqueue (MkCall (type ++ lit ".$snapshot") w (emptied n) false (framework (lit "framework:handoff")) [] t None None None None None None false None)
  end.

(** ** Leaving *)

Record EntityHandle := MkHandle { htype : bytes; hentity : bytes; howner : bytes; hgeneration : N }.

(** [deactivate] *)
Definition deactivate (h : EntityHandle) (reply : Reply) : act unit :=
  s ← state;
  let entity := entity_key (htype h) (hentity h) in
  if stopped (flags s) then say reply (status disconnected)
  else match slots s !! entity with
  | None => say reply (status rejected)
  | Some x =>
      if negb (bytes_eqb (howner h) (host_owner s)) || negb (handle_generation x =? hgeneration h) || busy x || negb (is_empty (queue x)) then say reply (status rejected)
      else if has_method (htype h ++ lit ".$deactivate") s then server_call (htype h ++ lit ".$deactivate") (hentity h) (lit "explicit") reply (framework [])
      else if e_accepts env entity then
        modify (fun s => with_slots s (<[entity := with_queue x (queue x) true true]> (slots s)));;
        modify (fun s => with_releases s (<[entity := reply]> (releases s)));;
        emit (release_submitted entity)
      else
        modify (fun s => with_slots s (<[entity := with_queue x (queue x) false false]> (slots s)));;
        say reply (status internal)
  end.

(** The completion of the release. *)
Definition release_done (entity : bytes) (x : result bool) : act unit :=
  s ← state;
  match releases s !! entity with
  | None => done
  | Some reply =>
      if stopped (flags s) then done
      else
        modify (fun s => with_releases s (delete entity (releases s)));;
        match x with
        | Ok true => erase_slot entity;; emit (closed_notified entity false);; say reply (status ok)
        | _ =>
            modify (fun s => with_slots s (match slots s !! entity with Some y => <[entity := with_queue y (queue y) false false]> (slots s) | None => slots s end));;
            say reply (status (match x with Throw _ => internal | Ok _ => rejected end))
        end
  end.

(** [handoff] *)
Definition handoff (h : EntityHandle) (target : bytes) (n : N) : act unit :=
  s ← state;
  if stopped (flags s) then emit (replied n (status disconnected))
  else match slots s !! entity_key (htype h) (hentity h) with
  | None => emit (replied n (status rejected))
  | Some x =>
      if negb (valid_entity_node target) || entity_node_matches (host_owner s) target || negb (bytes_eqb (howner h) (host_owner s)) || negb (handle_generation x =? hgeneration h) ||
         busy x || releasing x || negb (is_empty (queue x)) || negb (has_method (htype h ++ lit ".$deactivate") s) then emit (replied n (status rejected))
      else match entity_message (hentity h) (lit "transfer") [] with
      | Throw _ => emit (replied n (status rejected))
      | Ok w => enqueue (MkCall (htype h ++ lit ".$deactivate") w (user n) false (framework (lit "framework:handoff")) target 0 None None None None None None false None)
      end
  end.

(** [control_entity] *)
Definition control_entity (type id : bytes) (destroy : bool) (n : N) : act unit :=
  s ← state;
  match slots s !! entity_key type id with
  | None => emit (replied n (status not_found))
  | Some x =>
      if negb destroy then deactivate (MkHandle (handle_type x) (handle_id x) (host_owner s) (handle_generation x)) (user n)
      else if stopped (flags s) then emit (replied n (status disconnected))
      else if busy x || negb (is_empty (queue x)) || releasing x || negb (has_method (type ++ lit ".$destroy") s) then emit (replied n (status rejected))
      else server_call (type ++ lit ".$destroy") id (lit "destroy") (user n) (framework [])
  end.

(** [drain] *)
Definition idle (x : Slot) : bool := negb (busy x) && is_empty (queue x).
Definition drain (n : N) : act unit :=
  modify (fun s => with_flags s (MkFlags (stopped (flags s)) true (delivery_enabled (flags s))));;
  s ← state;
  let all := map_to_list (slots s) in
  if negb (forallb (fun e => idle e.2) all) then emit (replied n (status overloaded))
  else if is_empty all then emit (replied n (status ok))
  else
    let k := serials s in
    let d := drain_serial k + 1 in
    modify (fun s => with_serials s (MkSerials (admission_serial k) (generations k) (timer_revision k) (job_serial k) d (method_serial k)));;
    modify (fun s => with_drains s (<[d := (N.of_nat (length all), ok, n)]> (drains s)));;
    for_each (fun e => deactivate (MkHandle (handle_type e.2) (handle_id e.2) (host_owner s) (handle_generation e.2)) (drained d)) all.

(** ** poll *)

(** A request taken out of its mailbox before it ran. *)
Definition drop_request (r : Request) : act unit :=
  modify (fun s => with_counters s (count_failed (with_pending (counters s) (pending (counters s) - 1) (queued (counters s) - rbytes r)))).

Definition overdue (r : Request) : bool := (rdeadline r <=? e_now env)%Z.

(** Only the execution of the logic can be abandoned. *)
Definition late_run (r : Running) : bool := match run_phase r with executing _ _ _ => overdue (run_request r) | _ => false end.

(** The requests of a mailbox whose deadline passed leave it. *)
Definition expire_slot (e : bytes * Slot) : act (list Request) :=
  let x := e.2 in
  let late := List.filter overdue (queue x) in
  modify (fun s => with_slots s (<[e.1 := with_queue x (List.filter (fun r => negb (overdue r)) (queue x)) (busy x) (releasing x && negb (existsb (fun r => is_control (rq r)) late))]> (slots s)));;
  for_each drop_request late;; mret late.

Fixpoint expire_slots (l : list (bytes * Slot)) : act (list Request) :=
  match l with
  | [] => mret []
  | e :: l => late ← expire_slot e; more ← expire_slots l; mret (late ++ more)
  end.

(** The admissions, then the executions, then the queued requests whose deadline passed. *)
Definition expire : act unit :=
  s ← state;
  for_each (fun e => if (adeadline e.2 <=? e_now env)%Z then finish e.1 (status timeout) else done) (map_to_list (admissions s));;
  s ← state;
  for_each (fun e => if late_run e.2 then complete e.1 e.2 (status timeout) false else done) (map_to_list (active s));;
  s ← state;
  late ← expire_slots (map_to_list (slots s));
  for_each (fun r => say (rreply r) (status timeout)) late.

(** The front request of an idle mailbox runs, or is answered when it is late; whether there was one. *)
Definition poll_front (entity : bytes) : act bool :=
  s ← state;
  match slots s !! entity with
  | None => mret false
  | Some x =>
      match queue x with
      | [] => mret false
      | r :: rest =>
          (if overdue r then
             modify (fun s => with_slots s (<[entity := with_queue x rest (busy x) (if is_control (rq r) then false else releasing x)]> (slots s)));;
             drop_request r;; say (rreply r) (status timeout)
           else acquire entity);;
          mret true
      end
  end.

(** An idle entity whose tick is due. *)
Definition poll_tick (entity : bytes) (x : Slot) : act unit :=
  if is_empty (queue x) && (next_tick x <=? e_now env)%Z then
    s ← state;
    (if negb (draining (flags s)) && activated x && has_method (handle_type x ++ lit ".$tick") s then
       match entity_message (handle_id x) (to_string (Z.to_N (ltick_ms (limits s)))) [] with
       | Throw _ => done
       | Ok w => enqueue (MkCall (handle_type x ++ lit ".$tick") w nobody true (framework []) [] 0 None None None None None None false None)
       end
     else done);;
    modify (fun s => with_slots s (match slots s !! entity with Some y => <[entity := with_next_tick y (e_now env + ms (ltick_ms (limits s)))%Z]> (slots s) | None => slots s end))
  else done.

(** One entity of the schedule: deactivated or forgotten when idle for long, then its tick and
    its next request.  Whether a request was taken. *)
Definition poll_entity (entity : bytes) : act bool :=
  s ← state;
  match slots s !! entity with
  | None => mret false
  | Some x =>
      let long := idle x && (ms (lidle_ms (limits s)) <=? e_now env - touched x)%Z in
      if long && negb (has_method (handle_type x ++ lit ".$deactivate") s) then
        modify (fun s => with_counters s (with_transient_bytes (counters s) (transient_bytes (counters s) - size (transient (cache x)))));;
        modify (fun s => with_slots s (delete entity (slots s)));; mret false
      else
        (if long then server_call (handle_type x ++ lit ".$deactivate") (handle_id x) (lit "idle") nobody (framework []) else done);;
        modify (fun s => with_schedule s (schedule s ++ [entity]));;
        s ← state;
        match slots s !! entity with
        | None => mret false
        | Some x => if busy x then mret false else poll_tick entity x;; poll_front entity
        end
  end.

Fixpoint poll_schedule (remaining : nat) (budget work : N) : act N :=
  match remaining with
  | O => mret work
  | S remaining =>
      s ← state;
      match schedule s with
      | [] => mret work
      | entity :: rest =>
          if (budget <=? work) || stopped (flags s) then mret work
          else
            modify (fun s => with_schedule s rest);;
            b ← poll_entity entity;
            poll_schedule remaining budget (if b : bool then work + 1 else work)
      end
  end.

(** [poll], after the completions of the storage executor, which were [work]. *)
Definition poll (budget work : N) : act N :=
  s ← state;
  if stopped (flags s) then mret work
  else expire;; s ← state; poll_schedule (length (schedule s)) budget work.

(** ** stop *)

Definition stop : act unit :=
  s ← state;
  if stopped (flags s) then done
  else
    modify (fun s => with_flags s (MkFlags true (draining (flags s)) (delivery_enabled (flags s))));;
    modify (fun s => with_admissions s ∅);;
    for_each (fun e : N * Admission => modify (fun s => with_counters s (with_pending (counters s) (pending (counters s) - 1) (queued (counters s) - abytes e.2)));;
                       answer (areply e.2) (status disconnected)) (map_to_list (admissions s));;
    modify (fun s => let g := registry s in with_registry s (MkRegistry ∅ (method_objects g) (schemas g) (resolved_types g)));;
    for_each (fun e => complete e.1 e.2 (status disconnected) false) (map_to_list (active s));;
    s ← state;
    modify (fun s => with_slots s ∅);; modify (fun s => with_schedule s []);; modify (fun s => with_counters s (with_transient_bytes (counters s) 0));;
    for_each (fun e => for_each (fun r => modify (fun s => with_counters s (with_pending (counters s) (pending (counters s) - 1) (queued (counters s) - rbytes r)));;
                                          say (rreply r) (status disconnected)) (queue (snd e))) (map_to_list (slots s));;
    modify (fun s => with_releases s ∅);;
    for_each (fun e => say (snd e) (status disconnected)) (map_to_list (releases s)).
End Host.

(** ** Registration *)

Definition with_method_serial (s : Host) (k : N) : Host :=
  let n := serials s in with_serials s (MkSerials (admission_serial n) (generations n) (timer_revision n) (job_serial n) (drain_serial n) k).

(** [methods.emplace(route, method)] for each route of a new shared method. *)
Definition emplace_route (k : N) (m : gmap bytes N) (route : bytes) : gmap bytes N := match m !! route with Some _ => m | None => <[route := k]> m end.
Definition add_method (routes : list bytes) (m : Method) (s : Host) : Host :=
  let g := registry s in
  let k := method_serial (serials s) + 1 in
  with_registry (with_method_serial s k) (MkRegistry (fold_left (emplace_route k) routes (methods g)) (<[k := m]> (method_objects g)) (schemas g) (resolved_types g)).

Definition bad_type (type : bytes) : bool := is_empty type || (127 <? size type) || has_any dot_nul type.
(** The methods registered, with their routes. *)
Definition registered (s : Host) : list (bytes * Method) :=
  omap (fun e => (fun m => (e.1, m)) <$> method_objects (registry s) !! e.2) (map_to_list (methods (registry s))).
Definition snapshot_policy : RpcPolicy := MkPolicy false true false.

(** [register_stateful]; [taken]: the parent has the route. *)
Definition register_stateful (taken : bool) (route type initial : bytes) (policy : option RpcPolicy) (s : Host) : result Host :=
  throw_if stopped (flags s) || bad_type type || bool_decide (is_Some (methods (registry s) !! route)) || (lstate_bytes (limits s) <? size initial) ||
           (size route <=? size type + 1) || negb (starts_with (type ++ lit ".") route) || taken as invalid_argument ;;
  throw_if existsb (fun e => bytes_eqb (method_type e.2) type && negb (bytes_eqb (method_initial e.2) initial)) (registered s) as invalid_argument ;;
  let schema := schemas (registry s) !! type in
  let s := add_method [route] (MkMethod type initial policy schema) s in
  let metadata := type ++ lit ".$snapshot" in
  Ok (match methods (registry s) !! metadata with Some _ => s | None => add_method [metadata] (MkMethod type initial (Some snapshot_policy) schema) s end).

(** [bind_stateful_context] *)
Definition bind_stateful_context (taken : bool) (route type initial : bytes) (policy : RpcPolicy) (s : Host) : result Host :=
  throw_if negb (rpc_client policy) && negb (rpc_server policy) as invalid_argument ;;
  register_stateful taken route type initial (Some policy) s.

(** [rpc_policy] of a route of this host: every queued request shares the method. *)
Definition rpc_policy (route : bytes) (policy : RpcPolicy) (s : Host) : result Host :=
  let g := registry s in
  match methods g !! route with
  | None => Ok s
  | Some k =>
      match method_objects g !! k with
      | None => Ok s
      | Some m =>
          throw_if negb (is_some (method_policy m)) as invalid_argument ;;
          Ok (with_registry s (MkRegistry (methods g) (<[k := MkMethod (method_type m) (method_initial m) (Some policy) (method_schema m)]> (method_objects g)) (schemas g) (resolved_types g)))
      end
  end.

Definition define_schema (type : bytes) (sc : EntitySchema) (s : Host) : result Host :=
  let* _ := validate sc in
  let g := registry s in
  throw_if stopped (flags s) || bad_type type || (256 <=? N.of_nat (base.size (schemas g))) as invalid_argument ;;
  throw_if existsb (fun e => bytes_eqb (method_type e.2) type) (registered s) as logic_error ;;
  let* m := entity_attributes sc [] in
  let* vs := persistent m in
  let* initial := encode_attributes (full_update 0 vs) in
  throw_if bool_decide (is_Some (schemas g !! type)) as logic_error ;;
  let s := with_registry s (MkRegistry (methods g) (method_objects g) (<[type := sc]> (schemas g)) (resolved_types g)) in
  Ok (add_method [type ++ lit ".$snapshot"; type ++ lit ".$spawn"] (MkMethod type initial (Some snapshot_policy) (Some sc)) s).

Definition forget_schema (type : bytes) (s : Host) : Host :=
  let g := registry s in
  with_registry s (MkRegistry (delete (type ++ lit ".$spawn") (delete (type ++ lit ".$snapshot") (methods g))) (method_objects g) (delete type (schemas g)) (resolved_types g)).

Definition unbind (route : bytes) (s : Host) : Host :=
  let g := registry s in
  match methods g !! route with
  | None => s
  | Some k =>
      let type := match method_objects g !! k with Some m => method_type m | None => [] end in
      let s := with_registry s (MkRegistry (delete route (methods g)) (method_objects g) (schemas g) (resolved_types g)) in
      let metadata := type ++ lit ".$snapshot" in
      if bool_decide (is_Some (schemas g !! type)) || existsb (fun e => bytes_eqb (method_type e.2) type && negb (bytes_eqb e.1 metadata)) (registered s) then s
      else with_registry s (MkRegistry (delete metadata (methods (registry s))) (method_objects g) (schemas g) (resolved_types g))
  end.

Definition enable_delivery (enabled : bool) (s : Host) : Host := with_flags s (MkFlags (stopped (flags s)) (draining (flags s)) enabled).

(** ** Queries *)

(** [active], [handle], [accepts_handoff] *)
Definition is_active (type id : bytes) (s : Host) : bool :=
  negb (stopped (flags s)) && match slots s !! entity_key type id with Some x => activated x && negb (releasing x) | None => false end.
Definition handle_of (type id : bytes) (s : Host) : option EntityHandle :=
  (fun x => MkHandle (handle_type x) (handle_id x) (host_owner s) (handle_generation x)) <$> slots s !! entity_key type id.
Definition accepts_handoff (type id : bytes) (s : Host) : bool :=
  negb (stopped (flags s)) && negb (draining (flags s)) && bool_decide (is_Some (schemas (registry s) !! type)) &&
  (bool_decide (is_Some (slots s !! entity_key type id)) || (N.of_nat (base.size (slots s)) <? lentities (limits s))).
(** [timer_key], [entity_timer] *)
Definition timer_key (type id : bytes) (s : Host) : result bytes :=
  let* r := timer_job (entity_key type id) s in
  throw_if tsequence (timers (HostJobs.image (run_job r))) =? u64_max as overflow_error ;; Ok (lit "timer:" ++ next_generation r).
Definition entity_timer (type id key : bytes) (s : Host) : result (option EntityTimer) :=
  let* r := timer_job (entity_key type id) s in Ok (map_find key (tentries (timers (HostJobs.image (run_job r))))).

(** ** The constructor *)

Definition settings_ok (owner : bytes) (l : EntityRuntimeLimits) : bool :=
  let mib := 1024 * 1024 in
  negb (is_empty owner) && (size owner <=? 256) && (0 <? lentities l) && (0 <? lrequests l) && (0 <? lqueued_bytes l) && (0 <? lstate_bytes l) && (lstate_bytes l <=? 8 * mib) &&
  (0 <? lresident_bytes l) && (0 <? lreceipts l) && (lreceipts l <=? 1024) && (0 <? lreceipt_bytes l) && (lreceipt_bytes l <=? 8 * mib) &&
  (lstate_bytes l + lreceipt_bytes l + ldelivery_bytes l + ltimer_bytes l <=? 16 * mib - 512) &&
  (0 <? ltimers l) && (ltimers l <=? 1024) && (0 <? ltimer_bytes l) && (ltimer_bytes l <=? 2 * mib) &&
  (0 <? ldelivery_messages l) && (ldelivery_messages l <=? 1024) && (0 <? ldelivery_channels l) && (ldelivery_channels l <=? 4096) &&
  (0 <? ldelivery_sources l) && (ldelivery_sources l <=? 65536) && (0 <? ldelivery_bytes l) && (ldelivery_bytes l <=? 8 * mib) &&
  (0 <? lrequest_timeout_ms l)%Z && (lrequest_timeout_ms l <? llease_ms l)%Z && (llease_ms l <=? 86400000)%Z && (0 <? ltick_ms l)%Z && (0 <? lidle_ms l)%Z.

Definition host (owner : bytes) (l : EntityRuntimeLimits) : result Host :=
  throw_if negb (settings_ok owner l) as invalid_argument ;;
  Ok (MkHost l owner ∅ [] ∅ ∅ ∅ ∅ (MkRegistry ∅ ∅ ∅ ∅) (MkCounters 0 0 0 0 0 0 0 0 0 0) (MkSerials 0 0 0 0 0 0) (MkFlags false false false)).
