(* ===== verification/HostMailbox.v ===== *)
(** * The invariant of the entity host's mailboxes

    What the owner thread of [EntityScriptHost] keeps between two operations: its counters are
    the sums over the requests and jobs it holds, these stay within the configured limits,
    a mailbox that is being emptied holds nothing else, and every reply it was given waits
    in one place.  A proof about an action names what the operation has in hand: replies
    that are about to be called, the job it works on, the entity it took off the
    schedule. *)

From stdpp Require Import gmap.
From S2P Require Import Prelude Storage MapSum OrderedMap Identity Messages MessagesCorrect Fields DeliveryState Records Transport HostJobs Values AttributeWire Replica Schema HostAttributes Host.

(** ** Sums over what a host holds *)

Definition lsum {A} (f : A -> N) (l : list A) : N := foldr (fun a n => f a + n) 0 l.

Lemma lsum_cons {A} (f : A -> N) a l : lsum f (a :: l) = f a + lsum f l.
Proof. done. Qed.

Lemma lsum_app {A} (f : A -> N) a b : lsum f (a ++ b) = lsum f a + lsum f b.
Proof. induction a as [|x a IH]; [done|]. cbn [app]. rewrite !lsum_cons, IH. lia. Qed.

Lemma lsum_split {A} (f : A -> N) (p : A -> bool) l : lsum f (List.filter (fun a => negb (p a)) l) + lsum f (List.filter p l) = lsum f l.
Proof. induction l as [|x l IH]; [done|]. cbn [List.filter]. destruct (p x); cbn [negb]; rewrite !lsum_cons; lia. Qed.

Lemma lsum_map_to_list {K A} `{Countable K} (f : A -> N) (m : gmap K A) : msum f m = lsum (fun e => f e.2) (map_to_list m).
Proof.
  induction m as [|k a m Hk IH] using map_ind; [by rewrite msum_empty, map_to_list_empty|]. rewrite msum_insert by done.
  assert (P : forall l l' : list (K * A), l ≡ₚ l' -> lsum (fun e => f e.2) l = lsum (fun e => f e.2) l') by (induction 1; rewrite ?lsum_cons; lia).
  rewrite (P _ _ (map_to_list_insert m k a Hk)), lsum_cons, IH. done.
Qed.

(** A weight of the requests that wait, the jobs, the admissions, the releases and the slots. *)
Record weight := MkWeight { of_queued : Request -> N; of_job : Running -> N; of_admission : Admission -> N; of_release : Reply -> N; of_slot : Slot -> N }.

Definition slot_weight (w : weight) (x : Slot) : N := of_slot w x + lsum (of_queued w) (queue x).
Definition total (w : weight) (s : Host) : N := msum (slot_weight w) (slots s) + msum (of_job w) (active s) + msum (of_admission w) (admissions s) + msum (of_release w) (releases s).

Lemma total_slot w s e x y : slots s !! e = Some x -> total w (with_slots s (<[e := y]> (slots s))) + slot_weight w x = slot_weight w y + total w s.
Proof. intros Hx. unfold total. cbn [slots active admissions releases with_slots]. pose proof (msum_replace (f := slot_weight w) _ _ _ y Hx). lia. Qed.

Lemma total_new_slot w s e y : slots s !! e = None -> total w (with_slots s (<[e := y]> (slots s))) = slot_weight w y + total w s.
Proof. intros Hx. unfold total. cbn [slots active admissions releases with_slots]. rewrite (msum_insert (f := slot_weight w)) by done. lia. Qed.

Lemma total_drop_slot w s e x : slots s !! e = Some x -> total w (with_slots s (delete e (slots s))) + slot_weight w x = total w s.
Proof. intros Hx. unfold total. cbn [slots active admissions releases with_slots]. pose proof (msum_delete (f := slot_weight w) _ _ _ Hx). lia. Qed.

Lemma total_job w s e r r' : active s !! e = Some r -> total w (with_running s (<[e := r']> (active s))) + of_job w r = of_job w r' + total w s.
Proof. intros Hx. unfold total. cbn [slots active admissions releases with_running]. pose proof (msum_replace (f := of_job w) _ _ _ r' Hx). lia. Qed.

Lemma total_new_job w s e r : active s !! e = None -> total w (with_running s (<[e := r]> (active s))) = of_job w r + total w s.
Proof. intros Hx. unfold total. cbn [slots active admissions releases with_running]. rewrite (msum_insert (f := of_job w)) by done. lia. Qed.

Lemma total_drop_job w s e r : active s !! e = Some r -> total w (with_running s (delete e (active s))) + of_job w r = total w s.
Proof. intros Hx. unfold total. cbn [slots active admissions releases with_running]. pose proof (msum_delete (f := of_job w) _ _ _ Hx). lia. Qed.

Lemma total_admit w s i a : admissions s !! i = None -> total w (with_admissions s (<[i := a]> (admissions s))) = of_admission w a + total w s.
Proof. intros Hx. unfold total. cbn [slots active admissions releases with_admissions]. rewrite (msum_insert (f := of_admission w)) by done. lia. Qed.

Lemma total_take w s i a : admissions s !! i = Some a -> total w (with_admissions s (delete i (admissions s))) + of_admission w a = total w s.
Proof. intros Hx. unfold total. cbn [slots active admissions releases with_admissions]. pose proof (msum_delete (f := of_admission w) _ _ _ Hx). lia. Qed.

Lemma total_release w s e r : releases s !! e = None -> total w (with_releases s (<[e := r]> (releases s))) = of_release w r + total w s.
Proof. intros Hx. unfold total. cbn [slots active admissions releases with_releases]. rewrite (msum_insert (f := of_release w)) by done. lia. Qed.

Lemma total_released w s e r : releases s !! e = Some r -> total w (with_releases s (delete e (releases s))) + of_release w r = total w s.
Proof. intros Hx. unfold total. cbn [slots active admissions releases with_releases]. pose proof (msum_delete (f := of_release w) _ _ _ Hx). lia. Qed.

(** ** The weights *)

Definition requests_held : weight := MkWeight (fun _ => 1) (fun _ => 1) (fun _ => 1) (fun _ => 0) (fun _ => 0).
Definition bytes_held : weight := MkWeight rbytes (fun r => rbytes (run_request r)) abytes (fun _ => 0) (fun _ => 0).
Definition state_held : weight := MkWeight (fun _ => 0) (fun r => resident (run_budget r)) (fun _ => 0) (fun _ => 0) (fun _ => 0).
Definition transient_held : weight := MkWeight (fun _ => 0) (fun r => cache_growth (run_budget r)) (fun _ => 0) (fun _ => 0) (fun x => size (transient (cache x))).

Definition as_reply (r : AdmissionReply) : Reply := match r with plain r => r | guarded _ _ _ n => user n end.
(** The replies, each weighed by [f]. *)
Definition replies_held (f : Reply -> N) : weight := MkWeight (fun r => f (rreply r)) (fun r => f (rreply (run_request r))) (fun a => f (as_reply (areply a))) f (fun _ => 0).

Definition one_if (b : bool) : N := if b then 1 else 0.
(** Whether reply [r] calls the caller's reply [n], or is one of the deactivations of drain [d]. *)
Definition owes (n : N) (r : Reply) : N := match r with user m | named _ m | emptied m => one_if (m =? n) | nobody | drained _ => 0 end.
Definition drains_of (d : N) (r : Reply) : N := match r with drained d' => one_if (d' =? d) | _ => 0 end.
Definition drain_owes (n : N) (x : N * Status * N) : N := one_if (x.2 =? n).

(** How often the reply [n] is still to be called. *)
Definition debt (n : N) (h : list Reply) (s : Host) : N := lsum (owes n) h + total (replies_held (owes n)) s + msum (drain_owes n) (drains s).

(** How often it was, or the operation given it threw, or it left with the storage job of a message. *)
Definition told_by (n : N) (o : host_output) : N := match o with replied m _ | threw m _ | send_submitted m _ _ => one_if (m =? n) | _ => 0 end.
Definition told (n : N) : list host_output -> N := lsum (told_by n).

Lemma told_app n a b : told n (a ++ b) = told n a + told n b.
Proof. apply lsum_app. Qed.

(** ** The invariant *)

Definition no_control (l : list Request) : Prop := Forall (fun r => is_control (rq r) = false) l.

(** A mailbox: released, with the job [j], or at rest.  One that is being emptied holds nothing but
    the request that empties it. *)
Definition mode_ok (x : Slot) (j : option Running) (released : option Reply) : Prop :=
  match released, j with
  | Some _, Some _ => False
  | Some _, None => busy x = true /\ releasing x = true /\ queue x = []
  | None, Some r => busy x = true /\ if is_control (job_q r) then releasing x = true /\ queue x = [] else releasing x = false /\ no_control (queue x)
  | None, None => busy x = false /\ ((releasing x = false /\ no_control (queue x)) \/ (releasing x = true /\ exists c, queue x = [c] /\ is_control (rq c) = true))
  end.

(** What a job holds in its phase. *)
Definition job_ok (x : Slot) (r : Running) : Prop :=
  match run_phase r with
  | acquiring => run_budget r = MkBudget 0 0 0 /\ run_commit r = None
  | executing steps n _ => cache_growth (run_budget r) = 0 /\ (n <= length steps)%nat
  | committing => cache_growth (run_budget r) = match run_commit r with Some _ => size (run_transient r) - size (transient (cache x)) | None => 0 end
  end.

Definition type_ok (t : bytes) : Prop := has_any dot_nul t = false.

Definition named_ok (e : bytes) (x : Slot) : Prop :=
  e = entity_key (handle_type x) (handle_id x) /\ type_ok (handle_type x) /\ valid_entity_id (handle_id x) = true.

Definition methods_ok (s : Host) : Prop :=
  (forall route k, methods (registry s) !! route = Some k -> exists m rest, method_objects (registry s) !! k = Some m /\ route = method_type m ++ lit "." ++ rest) /\
  (forall k m, method_objects (registry s) !! k = Some m -> k <= method_serial (serials s) /\ type_ok (method_type m)).

Definition keys {A} (m : gmap bytes A) : list bytes := (map_to_list m).*1.

(** The tables; [open] is an entity whose job the operation has in hand, [aside] those it took off the schedule. *)
Record shape (open : option bytes) (aside : list bytes) (s : Host) : Prop := {
  sh_slots : forall e x, slots s !! e = Some x -> named_ok e x /\ mode_ok x (active s !! e) (releases s !! e);
  sh_jobs : forall e r, active s !! e = Some r -> exists x, slots s !! e = Some x /\ (open <> Some e -> job_ok x r);
  sh_releases : forall e r, releases s !! e = Some r -> is_Some (slots s !! e);
  sh_schedule : schedule s ++ aside ≡ₚ keys (slots s);
  sh_methods : methods_ok s;
  sh_admissions : forall i a, admissions s !! i = Some a -> i <= admission_serial (serials s) }.

(** The counters are the sums. *)
Record balanced (s : Host) : Prop := {
  ba_pending : pending (counters s) = total requests_held s;
  ba_queued : queued (counters s) = total bytes_held s;
  ba_state : state_bytes (counters s) = total state_held s;
  ba_transient : transient_bytes (counters s) = total transient_held s }.

Record within (s : Host) : Prop := {
  wi_entities : N.of_nat (base.size (slots s)) <= lentities (limits s);
  wi_pending : pending (counters s) <= lrequests (limits s);
  wi_queued : queued (counters s) <= lqueued_bytes (limits s);
  wi_state : state_bytes (counters s) <= lresident_bytes (limits s);
  wi_transient : transient_bytes (counters s) <= lresident_bytes (limits s);
  wi_resolved : N.of_nat (base.size (resolved_types (registry s))) <= lentities (limits s);
  wi_positive : 0 < lentities (limits s) }.

(** The count of a drain is that of the deactivations that have not ended. *)
Definition drained_ok (h : list Reply) (s : Host) : Prop := forall d,
  lsum (drains_of d) h + total (replies_held (drains_of d)) s = match drains s !! d with Some x => x.1.1 | None => 0 end /\
  forall x, drains s !! d = Some x -> x.1.1 <> 0 /\ d <= drain_serial (serials s).

(** What an operation has in hand. *)
Record Ctx := MkCtx { hand : list Reply; in_hand : option (bytes * Running); aside : list bytes }.
Definition rest : Ctx := MkCtx [] None [].
(** The job in hand takes the place of the one in the table. *)
Definition view (c : Ctx) (s : Host) : Host := match in_hand c with Some (e, r) => with_running s (<[e := r]> (active s)) | None => s end.

Record inv (c : Ctx) (s : Host) : Prop := {
  in_shape : shape (fst <$> in_hand c) (aside c) (view c s);
  in_balanced : balanced (view c s);
  in_within : within s;
  in_drained : drained_ok (hand c) (view c s) }.

(** ** Actions *)

(** The replies are called, kept in hand or in the tables; the configuration stays, and a stopped host takes nothing in. *)
Record trans (c c' : Ctx) (s s' : Host) (outs : list host_output) : Prop := {
  tr_debt : forall n, debt n (hand c) (view c s) = told n outs + debt n (hand c') (view c' s');
  tr_limits : limits s' = limits s;
  tr_owner : host_owner s' = host_owner s;
  tr_stopped : stopped (flags s') = stopped (flags s);
  tr_closed : stopped (flags s) = true -> slots s = ∅ /\ admissions s = ∅ -> slots s' = ∅ /\ admissions s' = ∅ }.

Lemma moved_refl c s : trans c c s s [].
Proof. by constructor. Qed.

Lemma moved_trans a b c s1 s2 s3 o1 o2 : trans a b s1 s2 o1 -> trans b c s2 s3 o2 -> trans a c s1 s3 (o1 ++ o2).
Proof. intros [A1 A2 A3 A4 A5] [B1 B2 B3 B4 B5]. constructor; try congruence; [|intros Hs H; apply B5; [congruence|auto]]. intros n. rewrite A1, B1, told_app. lia. Qed.

(** From the state [s] with [c] in hand, the action ends with [c'] in hand. *)
Definition safe {A} (c c' : Ctx) (s : Host) (m : act A) (post : A -> Host -> Prop) : Prop :=
  inv c s -> let '(a, s', outs) := m s in inv c' s' /\ trans c c' s s' outs /\ post a s'.
Abbreviation any := (fun _ _ => True).

Lemma safely_ret {A} c s (a : A) (post : A -> Host -> Prop) : post a s -> safe c c s (mret a) post.
Proof. intros Hp Hi. split; [done|]. split; [apply moved_refl|done]. Qed.

Lemma safely_done c s (post : unit -> Host -> Prop) : post tt s -> safe c c s done post.
Proof. apply safely_ret. Qed.

Lemma safely_bind {A B} c c1 c' s (m : act A) (k : A -> act B) mid post : safe c c1 s m mid ->
  (forall a s', limits s' = limits s -> host_owner s' = host_owner s -> stopped (flags s') = stopped (flags s) -> mid a s' -> safe c1 c' s' (k a) post) -> safe c c' s (m ≫= k) post.
Proof.
  intros Hm Hk Hi. specialize (Hm Hi). unfold mbind, act_bind. destruct (m s) as [[a s1] o1]. destruct Hm as (I1 & T1 & P1).
  specialize (Hk a s1 (tr_limits _ _ _ _ _ T1) (tr_owner _ _ _ _ _ T1) (tr_stopped _ _ _ _ _ T1) P1 I1). destruct (k a s1) as [[b s2] o2]. destruct Hk as (I2 & T2 & P2).
  split; [done|]. split; [by eapply moved_trans|done].
Qed.

Lemma safely_post {A} c c' s (m : act A) (post post' : A -> Host -> Prop) : (forall a s', post a s' -> post' a s') -> safe c c' s m post -> safe c c' s m post'.
Proof. intros Hp Hm Hi. specialize (Hm Hi). destruct (m s) as [[a s1] o1]. destruct Hm as (? & ? & ?). auto. Qed.

Lemma safely_any {A} c c' s (m : act A) post : safe c c' s m post -> safe c c' s m any.
Proof. by apply safely_post. Qed.

Lemma safely_inv {A} c c' s (m : act A) post : (inv c s -> safe c c' s m post) -> safe c c' s m post.
Proof. intros H Hi. by apply H. Qed.

Lemma safely_state {B} c c' s (k : Host -> act B) post : safe c c' s (k s) post -> safe c c' s (state ≫= k) post.
Proof. intros H Hi. specialize (H Hi). unfold mbind, act_bind, state. by destruct (k s s) as [[b s2] o2]. Qed.

(** One change of the state. *)
Definition moves (c c' : Ctx) (s s' : Host) : Prop := inv c s -> inv c' s' /\ trans c c' s s' [].

Lemma safely_modify {B} c c1 c' s f (k : unit -> act B) post : moves c c1 s (f s) -> safe c1 c' (f s) (k tt) post -> safe c c' s (modify f ≫= k) post.
Proof.
  intros Hf Hk Hi. destruct (Hf Hi) as [I1 T1]. specialize (Hk I1). unfold mbind, act_bind, modify. destruct (k tt (f s)) as [[b s2] o2]. destruct Hk as (I2 & T2 & P2).
  split; [done|]. split; [by apply (moved_trans _ _ _ _ _ _ [] o2 T1 T2)|done].
Qed.

Lemma safely_inv_moves c c' s s' : (inv c s -> moves c c' s s') -> moves c c' s s'.
Proof. intros H Hi. by apply H. Qed.

Lemma safely_modify_end c c' s f (post : unit -> Host -> Prop) : moves c c' s (f s) -> post tt (f s) -> safe c c' s (modify f) post.
Proof. intros Hf Hp Hi. destruct (Hf Hi). by split_and!. Qed.

(** Several changes in a row are one. *)
Lemma safely_modify_seq {B} c c' s f g (k : act B) post : safe c c' s (modify (fun s => g (f s)) ≫= fun _ => k) post -> safe c c' s (modify f ≫= fun _ => modify g ≫= fun _ => k) post.
Proof. intros H Hi. specialize (H Hi). revert H. unfold mbind, act_bind, modify. by destruct (k (g (f s))) as [[b s2] o2]. Qed.

Lemma safely_modify_seq_end c c' s f g post : safe c c' s (modify (fun s => g (f s))) post -> safe c c' s (modify f ≫= fun _ => modify g) post.
Proof. intros H Hi. apply (H Hi). Qed.

Lemma safely_emit {B} c c' s o (k : unit -> act B) post : (forall n, told_by n o = 0) -> safe c c' s (k tt) post -> safe c c' s (emit o ≫= k) post.
Proof.
  intros Ho Hk Hi. specialize (Hk Hi). unfold mbind, act_bind, emit. destruct (k tt s) as [[b s2] o2]. destruct Hk as (I2 & [T1 T2 T3 T4 T5] & P2).
  split; [done|]. split; [|done]. constructor; try done. intros n. rewrite T1. unfold told. cbn [app]. rewrite lsum_cons, Ho. lia.
Qed.

Lemma safely_emit_end c s o (post : unit -> Host -> Prop) : (forall n, told_by n o = 0) -> post tt s -> safe c c s (emit o) post.
Proof. intros Ho Hp Hi. split; [done|]. split; [|done]. constructor; try done. intros n. unfold told. rewrite lsum_cons, Ho. done. Qed.

Lemma safely_bind_any {B} c c1 c' s (m : act unit) (k : unit -> act B) post : safe c c1 s m any -> (forall s', safe c1 c' s' (k tt) post) -> safe c c' s (m ≫= k) post.
Proof. intros Hm Hk. eapply safely_bind; [exact Hm|]. intros [] s' _ _ _ _. apply Hk. Qed.

(** ** Replies *)

(** Only the drains changed. *)
Definition same_but_drains (s s' : Host) : Prop := exists m, s' = with_drains s m.

Lemma same_drains s : same_but_drains s s.
Proof. exists (drains s). by destruct s. Qed.

Lemma view_drains c s m : view c (with_drains s m) = with_drains (view c s) m.
Proof. unfold view. by destruct (in_hand c) as [[e r]|]. Qed.

Lemma total_drains w s m : total w (with_drains s m) = total w s.
Proof. done. Qed.

Lemma drains_view c s : drains (view c s) = drains s.
Proof. unfold view. by destruct (in_hand c) as [[e r]|]. Qed.

Lemma serials_view c s : serials (view c s) = serials s.
Proof. unfold view. by destruct (in_hand c) as [[e r]|]. Qed.

Lemma shape_drains o a s m : shape o a s -> shape o a (with_drains s m).
Proof. intros [H1 H2 H3 H4 H5 H6]. by constructor. Qed.

Lemma one_if_neq a b : a <> b -> one_if (a =? b) = 0.
Proof. intros H. unfold one_if. by rewrite (proj2 (N.eqb_neq _ _)). Qed.

Lemma one_if_refl a : one_if (a =? a) = 1.
Proof. unfold one_if. by rewrite N.eqb_refl. Qed.

Lemma drained_hand r h s : (forall d, drains_of d r = 0) -> drained_ok (r :: h) s -> drained_ok h s.
Proof. intros Hr H d. destruct (H d) as [H1 H2]. rewrite lsum_cons, Hr in H1. by split. Qed.

(** The reply in hand that is not a drain's is called. *)
Lemma spend_run r h j a s n x : (forall d, drains_of d r = 0) -> (forall k, owes k r = one_if (n =? k)) -> inv (MkCtx (r :: h) j a) s ->
  inv (MkCtx h j a) s /\ trans (MkCtx (r :: h) j a) (MkCtx h j a) s s [replied n x].
Proof.
  intros Hd Ho [H1 H2 H3 H4]. split.
  - constructor; try done. by apply (drained_hand r).
  - constructor; try done. intros k. unfold debt, told. cbn [hand]. change (view (MkCtx (r :: h) j a) s) with (view (MkCtx h j a) s). rewrite !lsum_cons, Ho. cbn. lia.
Qed.

Lemma say_safe r h j a s x : safe (MkCtx (r :: h) j a) (MkCtx h j a) s (say r x) (fun _ s' => same_but_drains s s').
Proof.
  intros Hi.
  assert (Hs : forall n y, (forall d, drains_of d r = 0) -> (forall k, owes k r = one_if (n =? k)) ->
    inv (MkCtx h j a) s /\ trans (MkCtx (r :: h) j a) (MkCtx h j a) s s [replied n y] /\ same_but_drains s s).
  { intros n y Hd Ho. destruct (spend_run r h j a s n y Hd Ho Hi). split_and!; [done|done|apply same_drains]. }
  destruct r as [n| |id n|n|d]; cbn [say emit done mret act_ret]; try (by apply Hs).
  - destruct Hi as [H1 H2 H3 H4]. split_and!; [|by constructor|apply same_drains]. by constructor.
  - unfold mbind, act_bind, state. destruct Hi as [H1 H2 H3 H4]. cbn [hand in_hand aside] in *. destruct (H4 d) as [E Hx]. rewrite drains_view in E. cbn [hand] in E. rewrite lsum_cons in E. cbn in E. rewrite one_if_refl in E.
    destruct (drains s !! d) as [[[count st] n]|] eqn:Ed; [|lia]. cbn in E. rewrite drains_view in Hx. destruct (Hx _ Ed) as [Hc Hser]. cbn in Hc. cbv zeta.
    assert (Hother : forall m, (forall d', d' <> d -> m !! d' = drains s !! d') -> lsum (drains_of d) h + total (replies_held (drains_of d)) (view (MkCtx h j a) s) = match m !! d with Some x => x.1.1 | None => 0 end ->
      (forall x, m !! d = Some x -> x.1.1 <> 0) -> inv (MkCtx h j a) (with_drains s m)).
    { intros m Hm He Hne. constructor; rewrite ?view_drains; cbn [hand in_hand aside].
      - by apply shape_drains.
      - destruct H2 as [B1 B2 B3 B4]. by constructor.
      - destruct H3 as [A1 A2 A3 A4 A5 A6 A7]. by constructor.
      - intros d'. rewrite total_drains. cbn [drains with_drains]. destruct (decide (d' = d)) as [->|Hdd].
        + split; [done|]. intros y Hy. split; [by eapply Hne|]. done.
        + rewrite Hm by done. destruct (H4 d') as [F1 F2]. cbn [hand] in F1. rewrite lsum_cons in F1. unfold drains_of at 1 in F1. rewrite one_if_neq in F1 by congruence. rewrite drains_view in F1, F2. done. }
    destruct (N.eqb_spec (count - 1) 0) as [Hz|Hz]; unfold modify, emit; cbn [app].
    + split_and!; [apply Hother| |by eexists].
      * intros d' Hd'. by rewrite lookup_delete_ne.
      * rewrite lookup_delete_eq. change (view (MkCtx h j a) s) with (view (MkCtx (drained d :: h) j a) s). lia.
      * intros y. by rewrite lookup_delete_eq.
      * constructor; try done. intros k. unfold debt, told. cbn [hand]. rewrite !lsum_cons, view_drains, total_drains, drains_view. cbn [drains with_drains owes told_by].
        rewrite (msum_delete (f := drain_owes k) _ _ _ Ed). unfold drain_owes at 1. cbn. change (view (MkCtx (drained d :: h) j a) s) with (view (MkCtx h j a) s). lia.
    + split_and!; [apply Hother| |by eexists].
      * intros d' Hd'. by rewrite lookup_insert_ne.
      * rewrite lookup_insert_eq. change (view (MkCtx h j a) s) with (view (MkCtx (drained d :: h) j a) s). cbn. lia.
      * intros y. rewrite lookup_insert_eq. intros [= <-]. cbn. lia.
      * constructor; try done. intros k. unfold debt, told. cbn [hand]. rewrite !lsum_cons, view_drains, total_drains, drains_view. cbn [drains with_drains owes told_by].
        match goal with |- context [<[d := ?y]> _] => pose proof (msum_replace (f := drain_owes k) _ _ _ y Ed) as E2; unfold drain_owes in E2 at 2 3; cbn in E2 end.
        change (view (MkCtx (drained d :: h) j a) s) with (view (MkCtx h j a) s). cbn. lia.
Qed.

(** ** Changes *)

(** A change that takes [minus] out of every total and puts [plus] in, the replies moving to or from the hand. *)
Lemma moves_by c c' s s' (minus plus : weight -> N) :
  (inv c s -> forall w, total w (view c' s') + minus w = plus w + total w (view c s)) ->
  (forall p p', p' + minus requests_held = plus requests_held + p -> pending (counters s) = p -> pending (counters s') = p') ->
  (forall p p', p' + minus bytes_held = plus bytes_held + p -> queued (counters s) = p -> queued (counters s') = p') ->
  (forall p p', p' + minus state_held = plus state_held + p -> state_bytes (counters s) = p -> state_bytes (counters s') = p') ->
  (forall p p', p' + minus transient_held = plus transient_held + p -> transient_bytes (counters s) = p -> transient_bytes (counters s') = p') ->
  (forall f, lsum f (hand c') + plus (replies_held f) = lsum f (hand c) + minus (replies_held f)) ->
  drains s' = drains s -> drain_serial (serials s') = drain_serial (serials s) -> limits s' = limits s -> host_owner s' = host_owner s -> stopped (flags s') = stopped (flags s) ->
  (inv c s -> shape (fst <$> in_hand c') (aside c') (view c' s')) -> (inv c s -> within s') -> (stopped (flags s) = true -> slots s = ∅ /\ admissions s = ∅ -> slots s' = ∅ /\ admissions s' = ∅) -> moves c c' s s'.
Proof.
  intros Ht H1 H2 H3 H4 Hr Hd Hds Hl Ho Hst Hs Hw Hcl Hi. specialize (Ht Hi). pose proof Hi as [I1 [B1 B2 B3 B4] I3 I4].
  assert (Ec : forall c s, counters (view c s) = counters s) by (intros [? [[]|] ?] ?; done). rewrite Ec in *. split; [constructor|constructor]; auto.
  - constructor; rewrite Ec; [apply (H1 _ _ (Ht requests_held) B1)|apply (H2 _ _ (Ht bytes_held) B2)|apply (H3 _ _ (Ht state_held) B3)|apply (H4 _ _ (Ht transient_held) B4)].
  - intros d. destruct (I4 d) as [E1 E2]. rewrite drains_view, serials_view in *. rewrite Hd, Hds. split; [|done]. rewrite <- E1. specialize (Ht (replies_held (drains_of d))). specialize (Hr (drains_of d)). lia.
  - intros n. unfold debt. rewrite !drains_view, Hd. specialize (Ht (replies_held (owes n))). specialize (Hr (owes n)). change (told n []) with 0. lia.
Qed.

(** A change that leaves the requests, jobs and replies as they are. *)
Lemma moves_frame h j a a' s s' : (forall w, total w (view (MkCtx h j a') s') = total w (view (MkCtx h j a) s)) ->
  (pending (counters s'), queued (counters s'), state_bytes (counters s'), transient_bytes (counters s')) = (pending (counters s), queued (counters s), state_bytes (counters s), transient_bytes (counters s)) ->
  drains s' = drains s -> drain_serial (serials s') = drain_serial (serials s) -> limits s' = limits s -> host_owner s' = host_owner s -> stopped (flags s') = stopped (flags s) ->
  (inv (MkCtx h j a) s -> shape (fst <$> j) a' (view (MkCtx h j a') s')) -> (inv (MkCtx h j a) s -> within s') -> (stopped (flags s) = true -> slots s = ∅ /\ admissions s = ∅ -> slots s' = ∅ /\ admissions s' = ∅) -> moves (MkCtx h j a) (MkCtx h j a') s s'.
Proof.
  intros Ht [= C1 C2 C3 C4] Hd Hds Hl Ho Hst Hs Hw Hcl. apply (moves_by _ _ s s' (fun _ => 0) (fun _ => 0)); try done.
  - intros _ w. rewrite Ht. lia.
  - rewrite C1. intros; lia.
  - rewrite C2. intros; lia.
  - rewrite C3. intros; lia.
  - rewrite C4. intros; lia.
Qed.

(** A host that holds something is not closed. *)
Lemma closed_slot {P : Prop} s e x : slots s !! e = Some x -> stopped (flags s) = true -> slots s = ∅ /\ admissions s = ∅ -> P.
Proof. intros Hx _ [E _]. by rewrite E in Hx. Qed.
Lemma closed_admission {P : Prop} s i d : admissions s !! i = Some d -> stopped (flags s) = true -> slots s = ∅ /\ admissions s = ∅ -> P.
Proof. intros Hx _ [_ E]. by rewrite E in Hx. Qed.

(** The limits hold when no table grew and no counter did. *)
Lemma within_less s s' : within s -> limits s' = limits s -> (base.size (slots s') <= base.size (slots s))%nat -> pending (counters s') <= pending (counters s) ->
  queued (counters s') <= queued (counters s) -> state_bytes (counters s') <= state_bytes (counters s) -> transient_bytes (counters s') <= transient_bytes (counters s) ->
  resolved_types (registry s') = resolved_types (registry s) -> within s'.
Proof. intros [W1 W2 W3 W4 W5 W6 W7] E E1 E2 E3 E4 E5 E6. constructor; rewrite ?E, ?E6; try lia. Qed.

(** The weights, computed. *)
Ltac weigh := unfold slot_weight; cbn [of_slot of_queued of_job of_admission of_release requests_held bytes_held state_held transient_held replies_held
  counters with_counters with_slots with_running with_admissions with_releases with_schedule with_serials pending queued state_bytes transient_bytes with_pending with_state_bytes with_transient_bytes].

(** The slot [x] holds nothing. *)
Ltac weightless x := match goal with |- context [slot_weight ?w x] => change (slot_weight w x) with 0 end; cbn; intros; lia.

(** The slots [x] and [y] hold the same. *)
Ltac same_weight x y := match goal with |- context [slot_weight ?w y] => change (slot_weight w y) with (slot_weight w x) end; weigh; intros; lia.

(** *** Slots *)

(** What the tables have in common besides the mailboxes. *)
Definition same_rest (s s' : Host) : Prop :=
  registry s' = registry s /\ method_serial (serials s') = method_serial (serials s) /\ admissions s' = admissions s /\
  admission_serial (serials s') = admission_serial (serials s).

(** The mailbox of [e] changes: its slot, its job, its release. *)
Lemma shape_turn o o' a s s' e x y : shape o a s -> slots s !! e = Some x -> slots s' = <[e := y]> (slots s) -> handle_type y = handle_type x -> handle_id y = handle_id x ->
  (forall n, n <> e -> active s' !! n = active s !! n /\ releases s' !! n = releases s !! n /\ (o' <> Some n -> o <> Some n)) ->
  mode_ok y (active s' !! e) (releases s' !! e) -> (forall r, active s' !! e = Some r -> o' <> Some e -> job_ok y r) -> schedule s' = schedule s -> same_rest s s' -> shape o' a s'.
Proof.
  intros [H1 H2 H3 H4 [H5 H5'] H6] Hx Hs Ht Hd Ho Hm Hj Hsc (E1 & E2 & E3 & E4). constructor; rewrite ?Hs.
  - intros n z [[<- <-]|[Hne Hz]]%lookup_insert_Some.
    + split; [|done]. destruct (H1 _ _ Hx) as [(? & ? & ?) _]. unfold named_ok. by rewrite Ht, Hd.
    + destruct (Ho n) as (-> & -> & _); [done|]. by apply H1.
  - intros n r Hr. destruct (decide (n = e)) as [->|Hne].
    + exists y. rewrite lookup_insert_eq. split; [done|]. by apply Hj.
    + destruct (Ho n Hne) as (E & _ & Ho'). rewrite E in Hr. destruct (H2 n r Hr) as (z & Hz & Hzj). exists z. rewrite lookup_insert_ne by done. auto.
  - intros n r Hr. destruct (decide (n = e)) as [->|Hne]; [by rewrite lookup_insert_eq|]. destruct (Ho n Hne) as (_ & E & _). rewrite E in Hr. rewrite lookup_insert_ne by done. by eapply H3.
  - rewrite Hsc, H4. unfold keys. rewrite <- (insert_delete_id _ _ _ Hx) at 1. rewrite <- (insert_delete_eq (slots s) e y). rewrite !map_to_list_insert by apply lookup_delete_eq. done.
  - unfold methods_ok. by rewrite E1, E2.
  - by rewrite E3, E4.
Qed.

(** The slot of [e] replaced by one with the same name, the tables of jobs and releases unchanged. *)
Lemma shape_slot o a s e x y : shape o a s -> slots s !! e = Some x -> handle_type y = handle_type x -> handle_id y = handle_id x ->
  mode_ok y (active s !! e) (releases s !! e) -> (forall r, active s !! e = Some r -> o <> Some e -> job_ok x r -> job_ok y r) -> shape o a (with_slots s (<[e := y]> (slots s))).
Proof.
  intros Hs Hx Ht Hd Hm Hj. apply (shape_turn o o a s _ e x y); try done. intros r Hr Ho. destruct (sh_jobs _ _ _ Hs _ _ Hr) as (z & Hz & Hzj). assert (z = x) as -> by congruence. by apply Hj, Hzj.
Qed.

Lemma size_replace {A} (m : gmap bytes A) e x y : m !! e = Some x -> base.size (<[e := y]> m) = base.size m.
Proof. intros Hx. apply map_size_insert_Some. by eexists. Qed.

(** A slot at rest is forgotten. *)
Lemma shape_forget o a a' s e l : shape o a s -> active s !! e = None -> releases s !! e = None -> l ++ a' ≡ₚ keys (delete e (slots s)) -> shape o a' (with_schedule (with_slots s (delete e (slots s))) l).
Proof.
  intros [H1 H2 H3 H4 H5 H6] Ha Hr Hl. constructor; cbn [slots active releases schedule registry serials admissions flags with_slots with_schedule]; try done.
  - intros n z [Hne Hz]%lookup_delete_Some. by apply H1.
  - intros n r Hn. destruct (H2 n r Hn) as (z & Hz & Hzj). exists z. rewrite lookup_delete_ne; [done|]. by intros ->; congruence.
  - intros n r Hn. rewrite lookup_delete_ne; [by eapply H3|]. by intros ->; congruence.
Qed.

Lemma filter_schedule (l : list bytes) e m : l ≡ₚ e :: m -> NoDup (e :: m) -> List.filter (fun z => negb (bytes_eqb z e)) l ≡ₚ m.
Proof.
  intros Hl Hd. assert (P : forall a b : list bytes, a ≡ₚ b -> List.filter (fun z => negb (bytes_eqb z e)) a ≡ₚ List.filter (fun z => negb (bytes_eqb z e)) b).
  { induction 1; cbn; repeat case_match; by econstructor. }
  rewrite (P _ _ Hl). cbn. rewrite (proj2 (bytes_eqb_eq e e) eq_refl). cbn. apply NoDup_cons in Hd as [Hn _]. clear Hl P.
  induction m as [|z m IH]; [done|]. cbn. rewrite not_elem_of_cons in Hn. destruct Hn as [Hz Hn]. destruct (bytes_eqb z e) eqn:E; [apply bytes_eqb_eq in E; congruence|]. cbn. by rewrite IH.
Qed.

Lemma keys_delete {A} (m : gmap bytes A) e x : m !! e = Some x -> keys m ≡ₚ e :: keys (delete e m).
Proof. intros Hx. unfold keys. rewrite <- (insert_delete_id _ _ _ Hx) at 1. by rewrite map_to_list_insert by apply lookup_delete_eq. Qed.

Lemma keys_nodup {A} (m : gmap bytes A) : NoDup (keys m).
Proof. apply NoDup_fst_map_to_list. Qed.
