(* ===== verification/HostActions.v ===== *)
(** * The entity host: requests in and out

    The operations every other one is made of keep the invariant: a request enters a mailbox or
    is answered, a job ends, a mailbox is forgotten, an admission is opened and closed. *)

From stdpp Require Import gmap.
From S2P Require Import Prelude Storage MapSum OrderedMap Identity Messages MessagesCorrect Fields DeliveryState Records Transport Delivery HostJobs Values AttributeWire Replica Schema HostAttributes Host HostMailbox.

Section Actions.
Context (SHA256 : bytes -> bytes) (env : Env).

(** ** Forgetting a mailbox *)

(** Nothing is under way for [e], and its mailbox, if any, holds [q]. *)
Definition quiet (e : bytes) (q : list Request) (s : Host) : Prop :=
  active s !! e = None /\ releases s !! e = None /\ forall x, slots s !! e = Some x -> queue x = q.

Lemma with_same_slots s : with_slots s (slots s) = s.
Proof. by destruct s. Qed.
Lemma with_same_schedule s : with_schedule s (schedule s) = s.
Proof. by destruct s. Qed.

Lemma forget_moves h a s e x l : slots s !! e = Some x -> quiet e [] s -> l ≡ₚ keys (delete e (slots s)) ->
  moves (MkCtx h None a) (MkCtx h None []) s
    (with_schedule (with_slots (with_counters s (with_transient_bytes (counters s) (transient_bytes (counters s) - size (transient (cache x))))) (delete e (slots s))) l).
Proof.
  intros Hx (Ha & Hr & Hq) Hl. specialize (Hq x Hx).
  apply (moves_by _ _ _ _ (fun w => slot_weight w x) (fun _ => 0)); try done; cbn [view in_hand hand aside].
  - intros _ w. pose proof (total_drop_slot w s e x Hx) as E. revert E. unfold total. cbn. lia.
  - unfold slot_weight. rewrite Hq. cbn. intros; lia.
  - unfold slot_weight. rewrite Hq. cbn. intros; lia.
  - unfold slot_weight. rewrite Hq. cbn. intros; lia.
  - unfold slot_weight. rewrite Hq. cbn. intros; lia.
  - intros f. unfold slot_weight. rewrite Hq. cbn. lia.
  - intros [I1 I2 I3 I4]. apply (shape_forget _ a _ (with_counters s _) e l); try done; [|by rewrite app_nil_r]. by destruct I1.
  - intros [I1 I2 I3 I4]. eapply within_less; [exact I3|..]; cbn; try done; try lia. rewrite map_size_delete, Hx. lia.
  - by apply (closed_slot _ _ _ Hx).
Qed.

Lemma filter_absent (l : list bytes) e : e ∉ l -> List.filter (fun z => negb (bytes_eqb z e)) l = l.
Proof.
  induction l as [|z l IH]; [done|]. rewrite not_elem_of_cons. intros [Hz Hl]. cbn. destruct (bytes_eqb z e) eqn:E; [apply bytes_eqb_eq in E; congruence|]. cbn. by rewrite IH.
Qed.

Lemma erase_slot_safe h s e : quiet e [] s -> safe (MkCtx h None []) (MkCtx h None []) s (erase_slot e) (fun _ s' => forall q, quiet e q s').
Proof.
  intros Hq. apply safely_state. apply safely_inv. intros [[H1 H2 H3 H4 H5 H6] I2 I3 I4]. cbn [view in_hand aside] in *. rewrite app_nil_r in H4. destruct (slots s !! e) as [x|] eqn:Hx.
  - intros Hi. pose proof (forget_moves h [] s e x (List.filter (fun z => negb (bytes_eqb z e)) (schedule s)) Hx Hq) as M. apply M in Hi; [destruct Hi as [Hi Ht]; split_and!; [done|done|]; intros q; destruct Hq as (Ha & Hr & _); split_and!; [done|done|]; intros y; cbn; by rewrite lookup_delete_eq|].
    apply filter_schedule; [rewrite H4; by apply (keys_delete _ _ x)|]. eapply NoDup_Permutation_proper; [symmetry; by apply (keys_delete _ _ x)|apply keys_nodup].
  - intros Hi. unfold mbind, act_bind, modify, done, mret, act_ret. cbn [app]. rewrite filter_absent, with_same_schedule; [split; [done|]; split; [apply moved_refl|]; intros q; destruct Hq as (Ha & Hr & _); split_and!; [done|done|congruence]|].
    rewrite H4. unfold keys. rewrite list_elem_of_fmap. intros ([k x] & -> & Hin%elem_of_map_to_list). cbn in Hx. congruence.
Qed.

(** A slot with the same mailbox, whose cache shrinks by what the counter does. *)
Lemma cache_moves h s e x y n : slots s !! e = Some x -> active s !! e = None -> handle_type y = handle_type x -> handle_id y = handle_id x ->
  queue y = queue x -> busy y = busy x -> releasing y = releasing x -> transient_bytes n + size (transient (cache x)) = size (transient (cache y)) + transient_bytes (counters s) ->
  size (transient (cache y)) <= size (transient (cache x)) ->
  (pending n, queued n, state_bytes n) = (pending (counters s), queued (counters s), state_bytes (counters s)) -> forall k, drain_serial k = drain_serial (serials s) ->
  admission_serial k = admission_serial (serials s) -> method_serial k = method_serial (serials s) ->
  moves (MkCtx h None []) (MkCtx h None []) s (with_slots (with_serials (with_counters s n) k) (<[e := y]> (slots s))).
Proof.
  intros Hx Ha Et Ed Eq Eb Er Hn Hle [= N1 N2 N3] k K1 K2 K3.
  apply (moves_by _ _ _ _ (fun w => slot_weight w x) (fun w => slot_weight w y)); try done; cbn [view in_hand hand aside with_slots with_serials with_counters counters serials].
  - intros _ w. pose proof (total_slot w s e x y Hx) as E. revert E. unfold total. cbn. lia.
  - unfold slot_weight. rewrite Eq, N1. cbn. intros; lia.
  - unfold slot_weight. rewrite Eq, N2. cbn. intros; lia.
  - unfold slot_weight. rewrite Eq, N3. cbn. intros; lia.
  - unfold slot_weight. rewrite Eq. cbn. intros; lia.
  - intros f. unfold slot_weight. rewrite Eq. cbn. lia.
  - intros [I1 I2 I3 I4]. cbn [view in_hand aside] in I1. apply (shape_slot _ _ (with_serials (with_counters s n) k) e x y); try done.
    + destruct I1 as [H1 H2 H3 H4 [H5 H5'] H6]. constructor; try done; [split; [done|]; cbn; by rewrite K3|cbn; by rewrite K2].
    + cbn. destruct (sh_slots _ _ _ I1 _ _ Hx) as [_ Hm]. revert Hm. unfold mode_ok. by rewrite Eq, Eb, Er.
    + cbn. congruence.
  - intros [I1 I2 I3 I4]. eapply within_less; [exact I3|..]; cbn; rewrite ?N1, ?N2, ?N3; try done; try lia. by rewrite (size_replace _ _ x).
  - by apply (closed_slot _ _ _ Hx).
Qed.

Lemma invalidate_safe h s e q : quiet e q s -> safe (MkCtx h None []) (MkCtx h None []) s (invalidate e) (fun _ s' => quiet e q s').
Proof.
  intros (Ha & Hr & Hq). apply safely_state. destruct (slots s !! e) as [x|] eqn:Hx.
  - cbv zeta. eapply safely_bind with (mid := fun _ s' => quiet e q s'); [|intros [] s' _ _ _ Hs'; by apply safely_emit_end]. apply safely_modify_seq, safely_modify_seq_end, safely_modify_end.
    + apply safely_inv_moves. intros [I1 [B1 B2 B3 B4] I3 I4]. cbn [view in_hand] in *. pose proof (msum_lookup (f := slot_weight transient_held) _ _ _ Hx) as Hle. unfold slot_weight at 1 in Hle. cbn in Hle.
      assert (size (transient (cache x)) <= transient_bytes (counters s)) by (rewrite B4; unfold total; lia).
      apply (cache_moves h s e x (with_generation (with_activation (with_cache x no_cache) false (activation_fence x)) (generations (serials s) + 1))
        (with_transient_bytes (counters s) (transient_bytes (counters s) - size (transient (cache x))))); try done; cbn; change (size []) with 0; lia.
    + split_and!; [done|done|]. cbn. intros y. rewrite lookup_insert_eq. intros [= <-]. exact (Hq x eq_refl).
  - apply safely_emit_end; [done|]. split_and!; [done|done|]. intros y Hy. congruence.
Qed.

(** ** The end of a job *)

Lemma complete_slot_fields r ok_ y : let x := complete_slot env r ok_ y in
  handle_type x = handle_type y /\ handle_id x = handle_id y /\ queue x = queue y /\ busy x = false /\ releasing x = false /\
  transient (cache x) = match run_commit r with Some _ => if ok_ then run_transient r else transient (cache y) | None => transient (cache y) end.
Proof.
  unfold complete_slot. destruct (run_commit r), ok_; cbn [andb]; repeat match goal with |- context [if ?b then _ else _] => destruct b end;
    repeat match goal with |- context [match ?b with Some _ => _ | None => _ end] => destruct b end; done.
Qed.


Lemma view_idle h h' a s : view (MkCtx h None a) s = view (MkCtx h' None a) s.
Proof. done. Qed.

(** The job in hand leaves the table, its reply is in hand, its slot is free. *)
Lemma finished_moves h s e r y (ok_ : bool) k n : slots s !! e = Some y ->
  (ok_ = true -> cache_growth (run_budget r) = match run_commit r with Some _ => size (run_transient r) - size (transient (cache y)) | None => 0 end) ->
  pending k = pending (counters s) - 1 -> queued k = queued (counters s) - rbytes (run_request r) -> state_bytes k = state_bytes (counters s) - resident (run_budget r) -> transient_bytes k = transient_after r ok_ (Some y) (transient_bytes (counters s)) ->
  (admission_serial n, drain_serial n, method_serial n) = (admission_serial (serials s), drain_serial (serials s), method_serial (serials s)) ->
  moves (MkCtx h (Some (e, r)) []) (MkCtx (rreply (run_request r) :: h) None []) s
    (with_slots (with_counters (with_running (with_serials s n) (delete e (active s))) k) (<[e := complete_slot env r ok_ y]> (slots s))).
Proof.
  intros Hy Hg K1 K2 K3 K4 [= N1 N2 N3]. pose proof (complete_slot_fields r ok_ y) as (F1 & F2 & F3 & F4 & F5 & F6). cbv zeta in *. set (x := complete_slot env r ok_ y) in *.
  assert (Hw : forall w, total w (with_slots (with_counters (with_running (with_serials s n) (delete e (active s))) k) (<[e := x]> (slots s))) + (of_job w r + slot_weight w y) =
    slot_weight w x + total w (with_running s (<[e := r]> (active s)))).
  { intros w. set (v := with_running s (<[e := r]> (active s))). pose proof (total_drop_job w v e r (lookup_insert_eq _ _ _)) as E1. pose proof (total_slot w (with_running v (delete e (active v))) e y x Hy) as E2.
    revert E1 E2. unfold total, v. cbn. rewrite delete_insert_eq. lia. }
  assert (Ht : forall f : Request -> N, lsum f (queue x) = lsum f (queue y)) by (intros f; by rewrite F3).
  apply (moves_by _ _ _ _ (fun w => of_job w r + slot_weight w y) (fun w => slot_weight w x)); try done; cbn [view in_hand hand aside].
  - unfold slot_weight. cbn. rewrite Ht, K1. intros p p' E Hp. lia.
  - unfold slot_weight. cbn. rewrite Ht, K2. intros p p' E Hp. lia.
  - unfold slot_weight. cbn. rewrite Ht, K3. intros p p' E Hp. lia.
  - unfold slot_weight. cbn. rewrite Ht. rewrite K4. intros p p' E Hp. unfold transient_after. rewrite Hp. rewrite F6 in E. destruct ok_.
    + specialize (Hg eq_refl). destruct (run_commit r); [destruct (N.ltb_spec (size (run_transient r)) (size (transient (cache y)))); lia|lia].
    + destruct (run_commit r); lia.
  - intros f. rewrite lsum_cons. unfold slot_weight. cbn [of_slot of_queued of_job replies_held]. rewrite Ht. lia.
  - intros [I1 I2 I3 I4]. cbn [view in_hand aside fmap option_fmap option_map fst] in *. pose proof (sh_slots _ _ _ I1 _ _ Hy) as [_ Hm]. cbn in Hm. rewrite lookup_insert_eq in Hm.
    apply (shape_turn _ _ _ _ _ _ _ x I1 Hy); try done.
    + intros z Hz. cbn. rewrite lookup_insert_ne, lookup_delete_ne by done. split_and!; [done|done|]. congruence.
    + cbn. rewrite lookup_delete_eq. unfold mode_ok in *. destruct (releases s !! e); [done|]. rewrite F3, F4, F5. split; [done|]. left. split; [done|].
      destruct (is_control (job_q r)); [destruct Hm as (_ & _ & ->); by constructor|by destruct Hm as (_ & _ & ?)].
    + cbn. rewrite lookup_delete_eq. done.
  - intros [I1 [B1 B2 B3 B4] I3 I4]. cbn [view in_hand] in *.
    eapply within_less; [exact I3|..]; cbn; try done.
    + by rewrite (size_replace _ _ y).
    + rewrite K1. lia.
    + rewrite K2. lia.
    + rewrite K3. lia.
    + rewrite K4. unfold transient_after. repeat case_match; lia.
  - by apply (closed_slot _ _ _ Hy).
Qed.

(** How a job that ends with [ok] accounts for its cache. *)
Definition growth_ok (r : Running) (x : Slot) : Prop :=
  cache_growth (run_budget r) = match run_commit r with Some _ => size (run_transient r) - size (transient (cache x)) | None => 0 end.

Lemma slot_of_job c s e r : inv c s -> in_hand c = Some (e, r) -> exists y, slots s !! e = Some y /\ releases s !! e = None /\ (is_control (job_q r) = true -> queue y = []).
Proof.
  intros [I1 _ _ _] Hc. unfold view in I1. rewrite Hc in I1. cbn in I1. destruct (sh_jobs _ _ _ I1 e r) as (y & Hy & _); [apply lookup_insert_eq|]. cbn in Hy. exists y. split; [done|].
  destruct (sh_slots _ _ _ I1 e y Hy) as [_ Hm]. cbn in Hm. rewrite lookup_insert_eq in Hm. unfold mode_ok in Hm. destruct (releases s !! e); [done|]. split; [done|]. intros Hr. rewrite Hr in Hm. by destruct Hm as (_ & _ & ?).
Qed.

Lemma complete_safe h s e r x (uncertain : bool) : (rstatus x = ok -> forall y, slots s !! e = Some y -> growth_ok r y) ->
  safe (MkCtx h (Some (e, r)) []) (MkCtx h None []) s (complete env e r x uncertain) any.
Proof.
  intros Hg. apply safely_inv. intros Hi. destruct (slot_of_job _ _ _ _ Hi eq_refl) as (y & Hy & Hrel & Hctl). apply safely_state. cbv zeta.
  set (ok_ := bool_decide (rstatus x = ok)) in *. set (h1 := MkCtx (rreply (run_request r) :: h) None []).
  do 3 apply safely_modify_seq. apply (safely_modify _ h1).
  { assert (E : forall (b : bool) f, (if b then with_serials s f else s) = with_serials s (if b then f else serials s)) by (intros [] f; by destruct s).
    rewrite E. cbn [slots active with_counters with_running with_serials]. rewrite Hy. apply finished_moves; try done; [|by destruct (_ && _)]. intros Ho%bool_decide_eq_true. by apply Hg. }
  set (s1 := with_slots _ _).
  assert (Hq1 : quiet e (queue y) s1).
  { unfold s1, quiet. cbn. destruct (_ && _); cbn; rewrite lookup_delete_eq, Hy; (split_and!; [done|done|]); intros z; rewrite lookup_insert_eq; intros [= <-];
      by destruct (complete_slot_fields r ok_ y) as (_ & _ & -> & _). }
  clearbody s1. eapply safely_bind with (mid := fun _ s' => quiet e (queue y) s'); [destruct uncertain; [by apply invalidate_safe|by apply safely_done]|]. intros [] s2 _ _ _ Hq2.
  eapply safely_bind with (mid := fun _ s' => quiet e (queue y) s'); [destruct (run_commit r); [destruct (_ && _)|]; first [by apply safely_emit_end|by apply safely_done]|]. intros [] s3 _ _ _ Hq3.
  eapply safely_bind with (c1 := h1) (mid := fun _ s' => quiet e (queue y) s').
  { destruct (ok_ && _) eqn:Hc; [|by apply safely_done]. apply andb_true_iff in Hc as [_ Hc]. rewrite (Hctl Hc) in *. eapply safely_bind; [by apply erase_slot_safe|]. intros [] s' _ _ _ Hq'. apply safely_emit_end; [done|apply Hq']. }
  intros [] s4 _ _ _ Hq4. apply safely_state. apply (safely_bind_any _ h1); [|intros s'; by eapply safely_any, say_safe].
  destruct (wrong_node _); [|by apply safely_done]. destruct (slots s4 !! e) as [z|] eqn:Hz; [|by apply safely_done]. destruct (queue z) eqn:Hqz; cbn [is_empty]; [|by apply safely_done].
  apply (safely_bind_any _ h1); [|intros s'; by apply safely_emit_end]. eapply safely_any, erase_slot_safe. destruct Hq4 as (A1 & A2 & A3). split_and!; [done|done|]. intros z' Hz'. congruence.
Qed.

(** ** A request enters *)

Lemma push_moves h a s e x r n : slots s !! e = Some x -> releasing x = false -> (is_control (rq r) = true -> busy x = false /\ queue x = []) ->
  pending (counters s) < lrequests (limits s) -> n = rbytes r -> n <= lqueued_bytes (limits s) - queued (counters s) ->
  moves (MkCtx (rreply r :: h) None a) (MkCtx h None a) s
    (with_counters (with_slots s (<[e := with_queue x (queue x ++ [r]) (busy x) (is_control (rq r))]> (slots s))) (with_pending (counters s) (pending (counters s) + 1) (queued (counters s) + n))).
Proof.
  intros Hx Hrel Hctl Hp -> Hq. set (y := with_queue _ _ _ _).
  assert (Ht : forall f : Request -> N, lsum f (queue y) = lsum f (queue x) + f r) by (intros f; unfold y; cbn [queue with_queue]; rewrite lsum_app; cbn; lia).
  apply (moves_by _ _ _ _ (fun w => slot_weight w x) (fun w => slot_weight w y)); try done; cbn [view in_hand hand aside].
  - intros _ w. pose proof (total_slot w s e x y Hx) as E. revert E. unfold total. cbn. lia.
  - weigh. rewrite Ht. intros; lia.
  - weigh. rewrite Ht. intros; lia.
  - weigh. rewrite Ht. intros; lia.
  - weigh. rewrite Ht. change (cache y) with (cache x). intros; lia.
  - intros f. rewrite lsum_cons. weigh. rewrite Ht. lia.
  - intros [I1 I2 I3 I4]. cbn [view in_hand aside] in I1. cut (shape None a (with_slots s (<[e := y]> (slots s)))); [intros []; by constructor|]. apply (shape_slot _ _ _ _ x); try done.
    destruct (sh_slots _ _ _ I1 _ _ Hx) as [_ Hm]. unfold mode_ok, y in *. cbn [queue busy releasing with_queue]. rewrite Hrel in Hm.
    destruct (releases s !! e); [destruct (active s !! e); [done|]; by destruct Hm as (_ & ? & _)|]. destruct (active s !! e) as [j|].
    + destruct Hm as [Hb Hm]. split; [done|]. destruct (is_control (job_q j)); [by destruct Hm|]. destruct Hm as [_ Hn]. destruct (is_control (rq r)) eqn:Er; [destruct (Hctl eq_refl); congruence|].
      split; [done|]. apply Forall_app. split; [done|]. by repeat constructor.
    + destruct Hm as [Hb Hm]. split; [done|]. destruct Hm as [[_ Hn]|[? _]]; [|done]. destruct (is_control (rq r)) eqn:Er.
      * right. split; [done|]. exists r. destruct (Hctl eq_refl) as [_ ->]. done.
      * left. split; [done|]. apply Forall_app. split; [done|]. by repeat constructor.
  - intros [I1 I2 [W1 W2 W3 W4 W5 W6 W7] I4]. constructor; cbn; try done; try lia. by rewrite (size_replace _ _ x).
  - by apply (closed_slot _ _ _ Hx).
Qed.

Definition opened (e : bytes) (s : Host) (o : option Slot) (s' : Host) : Prop :=
  match o with
  | Some x => slots s' !! e = Some x /\ (slots s !! e = Some x \/ (busy x = false /\ queue x = [])) /\ counters s' = counters s
  | None => True
  end.

Lemma open_slot_safe h a s type id : type_ok type -> valid_entity_id id = true -> stopped (flags s) = false ->
  safe (MkCtx h None a) (MkCtx h None a) s (open_slot env (entity_key type id) type id) (opened (entity_key type id) s).
Proof.
  intros Ht Hid Hst. set (e := entity_key type id). apply safely_state. destruct (slots s !! e) as [x|] eqn:Hx; [apply safely_ret; cbn; auto|].
  destruct (N.leb_spec (lentities (limits s)) (N.of_nat (base.size (slots s)))) as [|Hl]; [by apply safely_ret|]. cbv zeta. do 2 apply safely_modify_seq. eapply safely_modify.
  - set (x := MkSlot _ _ _ _ _ _ _ _ _ _ _ _). set (n := MkSerials _ _ _ _ _ _). apply (moves_by _ _ _ _ (fun _ => 0) (fun w => slot_weight w x)); try done; cbn [view in_hand hand aside].
    + intros _ w. pose proof (total_new_slot w s e x Hx) as E. revert E. unfold total. cbn. lia.
    + weightless x.
    + weightless x.
    + weightless x.
    + weightless x.
    + intros [[H1 H2 H3 H4 [H5 H5'] H6] I2 I3 I4]. cbn [view in_hand aside] in *.
      assert (Ha : active s !! e = None) by (destruct (active s !! e) eqn:E; [destruct (H2 _ _ E) as (z & Hz & _); cbn in Hz; congruence|done]).
      assert (Hr : releases s !! e = None) by (destruct (releases s !! e) eqn:E; [destruct (H3 _ _ E) as (z & Hz); cbn in Hz; congruence|done]).
      constructor; cbn; try done.
      * intros z y [[<- <-]|[Hne Hy]]%lookup_insert_Some; [|by apply H1]. split; [done|]. rewrite Ha, Hr. cbn. split; [done|]. left. by split; [|constructor].
      * intros z y Hy. destruct (H2 z y Hy) as (u & Hu & Hj). exists u. rewrite lookup_insert_ne; [done|]. by intros <-; cbn in Hu; congruence.
      * intros z y Hy. rewrite lookup_insert_ne; [by eapply H3|]. intros <-. congruence.
      * unfold keys. rewrite map_to_list_insert by done. cbn. rewrite <- app_assoc, (Permutation_app_comm [e] a). rewrite app_assoc, H4. apply Permutation_app_comm.
    + intros [I1 I2 [W1 W2 W3 W4 W5 W6 W7] I4]. constructor; cbn; try done. rewrite map_size_insert_None by done. lia.
    + congruence.
  - apply safely_ret. cbn. rewrite lookup_insert_eq. auto.
Qed.

(** *** Routes *)

Definition control_route (type route : bytes) : bool := bytes_eqb route (type ++ lit ".$deactivate") || bytes_eqb route (type ++ lit ".$destroy").

Lemma control_internal type route : control_route type route = true -> internal_route route type = true.
Proof.
  unfold control_route, internal_route. intros [H|H]%orb_true_iff; apply bytes_eqb_eq in H as ->;
    rewrite starts_with_app, drop_app_length, size_app, (proj2 (bytes_eqb_eq _ _)), !andb_true_r by done; apply N.ltb_lt; unfold size; cbn; lia.
Qed.

Lemma new_request_fields c charged m k method s : let r := new_request env c charged m k method s in
  rreply r = creply c /\ rbytes r = charged /\ (is_control (rq r) = true -> control_route (method_type method) (croute c) = true).
Proof.
  unfold new_request. cbv zeta. destruct (cincoming c) as [d|]; [|done]. set (r := method_type method ++ _). destruct (methods (registry s) !! r); [|done].
  destruct (internal_route r (method_type method)) eqn:Hi; [done|]. split_and!; [done|done|]. intros H. change (control_route (method_type method) r = true) in H. apply control_internal in H. congruence.
Qed.

(** The message of a call. *)
Definition message_of (c : Call) : option EntityMessage := match cdecoded c with Some m => Some m | None => parse_entity_message (cdata c) end.
(** A call that empties a mailbox finds it at rest. *)
Definition control_idle (s : Host) (c : Call) : Prop := forall k m msg x, methods (registry s) !! croute c = Some k -> method_objects (registry s) !! k = Some m ->
  control_route (method_type m) (croute c) = true -> message_of c = Some msg -> slots s !! entity_key (method_type m) (msg_id msg) = Some x -> busy x = false /\ queue x = [].

Lemma host_enqueue_safe h a s c : control_idle s c -> safe (MkCtx (creply c :: h) None a) (MkCtx h None a) s (enqueue SHA256 env c) any.
Proof.
  intros Hc. assert (Hsay : forall s' x, safe (MkCtx (creply c :: h) None a) (MkCtx h None a) s' (say (creply c) x) any) by (intros; eapply safely_any, say_safe).
  apply safely_state. destruct (stopped (flags s)) eqn:Hst; [apply Hsay|]. destruct (methods (registry s) !! croute c) as [k|] eqn:Hk; [|apply Hsay].
  destruct (method_objects (registry s) !! k) as [m|] eqn:Hm; [|apply Hsay]. cbv zeta. destruct (draining (flags s) && _); [apply Hsay|].
  destruct ((lrequests (limits s) <=? pending (counters s)) || _) eqn:Hl; [apply Hsay|]. apply orb_false_iff in Hl as [Hl1%N.leb_gt Hl2%N.ltb_ge].
  fold (message_of c). destruct (message_of c) as [msg|] eqn:Hmsg; [|apply Hsay]. destruct (valid_entity_id (msg_id msg)) eqn:Hid; cbn [negb]; [|apply Hsay].
  destruct (negb (is_empty (msg_request msg)) && _); [apply Hsay|]. set (checked := match method_policy m with Some _ => _ | None => _ end).
  assert (Hch : forall m', checked = Some m' -> msg_id m' = msg_id msg).
  { subst checked. intros m'. destruct (method_policy m); [|by intros [= <-]]. destruct (negb _); [done|]. destruct (is_empty _); by intros [= <-]. }
  destruct checked as [msg'|]; [|apply Hsay]. rewrite (Hch msg' eq_refl). apply safely_inv. intros [I1 _ _ _].
  pose proof (proj2 (sh_methods _ _ _ I1) _ _ Hm) as [_ Hty]. cbn in Hty.
  eapply safely_bind; [by apply open_slot_safe|]. intros [x|] s' El Eo Es Hop; [|apply Hsay]. destruct Hop as (Hx & Hor & Ek). destruct (releasing x) eqn:Hrel; [apply Hsay|].
  pose proof (new_request_fields c (charge_of env c) msg' k m s) as (F1 & F2 & F3). cbv zeta in *. set (r := new_request _ _ _ _ _ _ _) in *.
  apply safely_modify_seq_end, safely_modify_end; [|done]. rewrite <- F1, <- F2. cbn [counters with_slots]. apply (push_moves _ _ s'); try done.
  - intros Hr. specialize (F3 Hr). destruct Hor as [Hs|Hs]; [|done]. by eapply Hc.
  - by rewrite Ek, El.
  - by rewrite Ek, El, F2.
Qed.
End Actions.

(** * The entity host: requests, admissions, leaving

    The operations that take a reply keep the invariant: calls, lookups, creation, attributes,
    deliveries, timers, deactivation, hand-over, draining and destruction. *)

(** ** Routes that empty a mailbox *)

Lemma app_suffix {A} (a b c d : list A) : a ++ b = c ++ d -> (exists l, b = l ++ d) \/ (exists l, d = l ++ b).
Proof. intros H. apply app_eq_inv in H as [(k & -> & ->)|(k & -> & ->)]; [right; by exists k|left; by exists k]. Qed.

(** Whether one of two suffixes ends with the other. *)
Definition same_end (b d : bytes) : bool := starts_with (rev b) (rev d) || starts_with (rev d) (rev b).

Lemma same_end_app a b c d : a ++ b = c ++ d -> same_end b d = true.
Proof.
  intros H. unfold same_end. apply orb_true_iff. destruct (app_suffix _ _ _ _ H) as [[l ->]|[l ->]]; [right|left]; rewrite rev_app_distr; apply starts_with_app.
Qed.

Lemma not_control type suffix : same_end suffix (lit ".$deactivate") = false -> same_end suffix (lit ".$destroy") = false -> forall t, control_route t (type ++ suffix) = false.
Proof. intros H1 H2 t. apply orb_false_iff. split; (destruct (bytes_eqb _ _) eqn:E; [|done]); apply bytes_eqb_eq, same_end_app in E; congruence. Qed.

Definition plain_name (s : bytes) : Prop := x2e ∉ s.

(** What precedes the first dot of a route, and what follows the last. *)
Lemma first_dot (a b c d : bytes) : plain_name a -> plain_name c -> a ++ x2e :: b = c ++ x2e :: d -> a = c /\ b = d.
Proof.
  revert c. induction a as [|x a IH]; intros [|y c] Ha Hc H; cbn in *.
  - by injection H.
  - injection H as <- _. exfalso. apply Hc. by left.
  - injection H as -> _. exfalso. apply Ha. by left.
  - injection H as <- H. destruct (IH c) as [-> ->]; try done; intros Hin; [apply Ha|apply Hc]; by right.
Qed.

Lemma last_dot (a b c d : bytes) : plain_name b -> plain_name d -> a ++ x2e :: b = c ++ x2e :: d -> a = c /\ b = d.
Proof.
  intros Hb Hd H. apply (f_equal (@rev byte)) in H. rewrite !rev_app_distr in H. cbn in H. rewrite <- !app_assoc in H. cbn in H.
  apply first_dot in H as [H1 H2]; [|unfold plain_name; by rewrite list_elem_of_In, <- in_rev, <- list_elem_of_In..].
  apply (f_equal (@rev byte)) in H1, H2. by rewrite !rev_involutive in H1, H2.
Qed.

Lemma type_ok_plain t : type_ok t -> plain_name t /\ x00 ∉ t.
Proof.
  unfold type_ok, has_any. intros H. assert (P : forall b, b ∈ dot_nul -> b ∉ t); [|split; apply P; unfold dot_nul; set_solver].
  intros b Hb Hin. apply not_true_iff_false in H. apply H. apply existsb_exists. exists b. split; [by apply list_elem_of_In|]. apply existsb_exists. exists b. split; [by apply list_elem_of_In|].
  by apply Byte.byte_dec_lb.
Qed.

(** A method of an entity never empties its mailbox. *)
Lemma method_not_control type m : valid_entity_method m = true -> forall t, control_route t (type ++ [x2e] ++ m) = false.
Proof.
  unfold valid_entity_method. rewrite !andb_true_iff, !negb_true_iff. intros [[[_ _] Hf] Hn]. change (type_ok m) in Hn. apply type_ok_plain in Hn as [Hn _].
  intros t. apply orb_false_iff. split; (destruct (bytes_eqb _ _) eqn:E; [|done]); apply bytes_eqb_eq in E; (apply last_dot in E as [_ ->]; [done|done|]); unfold plain_name; rewrite list_elem_of_In; cbn; intuition congruence.
Qed.

(** ** Names of mailboxes *)

Lemma one_separator (c : byte) (a b a' b' : bytes) : c ∉ a' -> c ∉ b' -> a ++ c :: b = a' ++ c :: b' -> a = a' /\ b = b'.
Proof.
  revert a'. induction a as [|x a IH]; intros [|y a'] Ha Hb H; cbn in *.
  - by injection H.
  - injection H as <- _. exfalso. apply Ha. by left.
  - injection H as -> <-. exfalso. apply Hb. set_solver.
  - injection H as <- H. destruct (IH a') as [-> ->]; try done. intros Hin. apply Ha. by right.
Qed.

Lemma valid_id_plain id : valid_entity_id id = true -> x00 ∉ id.
Proof.
  unfold valid_entity_id. destruct (_ || _); [done|]. intros H Hin. rewrite forallb_forall in H. apply list_elem_of_In, H in Hin. done.
Qed.

Lemma entity_key_inj t id x : named_ok (entity_key t id) x -> handle_type x = t /\ handle_id x = id.
Proof. intros (E & Ht & Hid). apply type_ok_plain in Ht as [_ Ht]. apply valid_id_plain in Hid. unfold entity_key in E. cbn in E. by destruct (one_separator _ _ _ _ _ Ht Hid E). Qed.

(** The method of a route of a plain type has that type. *)
Lemma method_of_type s t suffix k m : methods_ok s -> type_ok t -> methods (registry s) !! (t ++ x2e :: suffix) = Some k -> method_objects (registry s) !! k = Some m -> method_type m = t.
Proof.
  intros [M1 M2] Ht Hk Hm. destruct (M1 _ _ Hk) as (m' & rest & Hm' & E). assert (m' = m) as -> by congruence. destruct (M2 _ _ Hm) as [_ Hty].
  apply type_ok_plain in Ht as [Ht _]. apply type_ok_plain in Hty as [Hty _]. cbn in E. by apply first_dot in E as [-> _].
Qed.

Lemma idle_tables o a s e x : shape o a s -> slots s !! e = Some x -> busy x = false -> active s !! e = None /\ releases s !! e = None.
Proof. intros H Hx Hb. destruct (sh_slots _ _ _ H _ _ Hx) as [_ Hm]. unfold mode_ok in Hm. rewrite Hb in Hm. destruct (releases s !! e), (active s !! e); naive_solver. Qed.

(** The request in hand enters. *)
Ltac enters := match goal with |- safe (MkCtx _ _ ?a) (MkCtx ?h _ _) ?s (enqueue ?sha ?env ?c) _ => apply (host_enqueue_safe sha env h a s c) end.

Section Requests.
Context (SHA256 : bytes -> bytes) (env : Env).
Abbreviation enter := (enqueue SHA256 env).

Lemma other_idle s c : (forall t, control_route t (croute c) = false) -> control_idle s c.
Proof. intros H k m msg x _ _ E. by rewrite H in E. Qed.

(** A request that empties the mailbox [x], which is at rest. *)
Lemma emptying_idle h j a s c t id x suffix p : inv (MkCtx h j a) s -> slots s !! entity_key t id = Some x -> idle x = true -> croute c = t ++ x2e :: suffix ->
  message_of c = Some (MkMessage id p []) -> control_idle s c.
Proof.
  intros [I1 _ _ _] Hx Hidle Hr Hmsg k m msg y Hk Hm _ Emsg Hy. rewrite Hmsg in Emsg. injection Emsg as <-. cbn in Hy.
  assert (Es : slots (view (MkCtx h j a) s) = slots s /\ registry (view (MkCtx h j a) s) = registry s) by (unfold view; by destruct (in_hand _) as [[]|]). destruct Es as [Es Eg].
  assert (Hn : named_ok (entity_key t id) x) by (apply (sh_slots _ _ _ I1); by rewrite Es).
  destruct (entity_key_inj _ _ _ Hn) as [Ht Hid]. destruct Hn as (_ & Hty & _). rewrite Ht in Hty. rewrite Hr in Hk.
  assert (method_type m = t) as Em.
  { destruct (sh_methods _ _ _ I1) as [M1 M2]. rewrite Eg in M1, M2. eapply (method_of_type s); try done. split; [done|]. intros k' m' Hm'. destruct (M2 _ _ Hm') as [Hs ?]. by rewrite serials_view in Hs. }
  rewrite Em in Hy. assert (y = x) as -> by congruence. unfold idle in Hidle. apply andb_true_iff in Hidle as [Hb%negb_true_iff Hq]. by destruct (queue x).
Qed.

(** ** Replies in hand *)

Lemma reply_safe n h j a s x : safe (MkCtx (user n :: h) j a) (MkCtx h j a) s (emit (replied n x)) any.
Proof. exact (safely_any _ _ _ _ _ (say_safe (user n) h j a s x)). Qed.

(** A reply may be wrapped. *)
Lemma safely_wrap {A} r r' h j a c' s (m : act A) post : (forall k, owes k r = owes k r') -> (forall d, drains_of d r = drains_of d r') ->
  safe (MkCtx (r' :: h) j a) c' s m post -> safe (MkCtx (r :: h) j a) c' s m post.
Proof.
  intros Ho Hd Hs [I1 I2 I3 I4]. assert (Hi : inv (MkCtx (r' :: h) j a) s).
  { constructor; try done. intros d. specialize (I4 d). cbn [hand] in *. rewrite lsum_cons in *. by rewrite <- Hd. }
  specialize (Hs Hi). destruct (m s) as [[y s'] outs]. destruct Hs as (J1 & [T1 T2 T3 T4 T5] & J3). split_and!; try done. constructor; try done.
  intros k. rewrite <- T1. unfold debt. cbn [hand]. by rewrite !lsum_cons, Ho.
Qed.

Lemma server_call_safe reply h a s route id p who : (forall w, entity_message id p [] = Ok w -> control_idle s (simple_call route w reply who)) ->
  safe (MkCtx (reply :: h) None a) (MkCtx h None a) s (server_call SHA256 env route id p reply who) any.
Proof.
  intros Hc. unfold server_call. destruct (entity_message id p []) as [w|] eqn:E; [|eapply safely_any, say_safe]. apply (host_enqueue_safe SHA256 env h a s (simple_call route w reply who)). by apply Hc.
Qed.

(** ** Admissions *)

Lemma take_moves h a s i d : admissions s !! i = Some d -> moves (MkCtx h None a) (MkCtx (as_reply (areply d) :: h) None a) s
  (with_counters (with_admissions s (delete i (admissions s))) (with_pending (counters s) (pending (counters s) - 1) (queued (counters s) - abytes d))).
Proof.
  intros Hd. apply (moves_by _ _ _ _ (fun w => of_admission w d) (fun _ => 0)); try done; cbn [view in_hand hand aside].
  - intros _ w. pose proof (total_take w s i d Hd) as E. revert E. unfold total. cbn. lia.
  - weigh. intros; lia.
  - weigh. intros; lia.
  - weigh. intros; lia.
  - weigh. intros; lia.
  - intros f. rewrite lsum_cons. weigh. lia.
  - intros [[H1 H2 H3 H4 H5 H6] _ _ _]. constructor; try done; cbn.
    intros n x [_ Hx]%lookup_delete_Some. by eapply H6.
  - intros [_ _ I3 _]. eapply within_less; [exact I3|..]; cbn; try done; lia.
  - by apply (closed_admission _ _ _ Hd).
Qed.

Lemma take_safe h a s i d : admissions s !! i = Some d -> safe (MkCtx h None a) (MkCtx (as_reply (areply d) :: h) None a) s (take_admission i d) any.
Proof. intros Hd. apply safely_modify_seq_end, safely_modify_end; [|done]. exact (take_moves h a s i d Hd). Qed.

Lemma snapshot_not_control type t : control_route t (type ++ lit ".$snapshot") = false.
Proof. by apply not_control. Qed.

Lemma answer_safe h a s r x : safe (MkCtx (as_reply r :: h) None a) (MkCtx h None a) s (answer SHA256 env r x) any.
Proof.
  destruct r as [r|type id deadline n]; cbn [as_reply answer]; [eapply safely_any, say_safe|]. apply safely_state. destruct (stopped _); [apply reply_safe|]. destruct (negb _); [apply reply_safe|].
  destruct (_ <=? _)%Z; [apply reply_safe|]. destruct (e_guard env (rdata x)) as [[]|]; try apply reply_safe. destruct (entity_message id [] []) as [w|]; [|apply reply_safe].
  enters. apply other_idle, snapshot_not_control.
Qed.

Lemma host_finish_safe h a s i x : safe (MkCtx h None a) (MkCtx h None a) s (finish SHA256 env i x) any.
Proof.
  apply safely_state. destruct (admissions s !! i) as [d|] eqn:Hd; [|by apply safely_done]. eapply safely_bind_any; [by apply take_safe|]. intros s'. apply answer_safe.
Qed.

Lemma admit_safe h a s n r deadline p : safe (MkCtx (as_reply r :: h) None a) (MkCtx h None a) s (new_admission SHA256 env n r deadline p) any.
Proof.
  apply safely_state. destruct (stopped (flags s)) eqn:Hst; [eapply safely_bind_any; [apply answer_safe|]; intros s'; by apply safely_ret|]. cbv zeta.
  destruct (_ || _) eqn:Hl; [eapply safely_bind_any; [apply answer_safe|]; intros s'; by apply safely_ret|]. apply orb_false_iff in Hl as [Hl L4%N.ltb_ge]. apply orb_false_iff in Hl as [Hl L3%N.leb_gt].
  do 2 apply safely_modify_seq. eapply safely_modify; [|by apply safely_ret]. set (i := admission_serial (serials s) + 1). set (d := MkAdmission _ _ _ _). apply safely_inv_moves. intros [I1 _ _ _]. cbn [view in_hand] in I1.
  assert (Hi : admissions s !! i = None) by (destruct (admissions s !! i) eqn:E; [apply (sh_admissions _ _ _ I1) in E; lia|done]).
  apply (moves_by _ _ _ _ (fun _ => 0) (fun w => of_admission w d)); try done; cbn [view in_hand hand aside].
  - intros _ w. pose proof (total_admit w s i d Hi) as E. revert E. unfold total. cbn. lia.
  - weigh. intros; lia.
  - weigh. cbn. intros; lia.
  - weigh. intros; lia.
  - weigh. intros; lia.
  - intros f. rewrite lsum_cons. weigh. cbn. lia.
  - intros _. destruct I1 as [H1 H2 H3 H4 H5 H6]. constructor; try done; cbn. intros n' x [[<- <-]|[_ Hx]]%lookup_insert_Some; [lia|]. apply H6 in Hx. lia.
  - intros [_ _ [W1 W2 W3 W4 W5 W6 W7] _]. constructor; cbn; try done; lia.
  - congruence.
Qed.

(** Admitted, then looked up. *)
Lemma admitted_safe h a s n r deadline p (o : N -> host_output) (b : bool) : (forall i k, told_by k (o i) = 0) ->
  safe (MkCtx (as_reply r :: h) None a) (MkCtx h None a) s
    (i ← new_admission SHA256 env n r deadline p; match i with None => done | Some i => if b then emit (o i) else finish SHA256 env i (status overloaded) end) any.
Proof.
  intros Ho. eapply safely_bind; [apply admit_safe|]. intros [i|] s' _ _ _ _; [|by apply safely_done]. destruct b; [by apply safely_emit_end|apply host_finish_safe].
Qed.

(** ** Calls *)

Lemma dispatch_resolved_safe who data type reply deadline h a s : safe (MkCtx (reply :: h) None a) (MkCtx h None a) s (dispatch_resolved SHA256 env who data type reply deadline) any.
Proof.
  unfold dispatch_resolved. destruct (parse_entity_call_view data) as [v|] eqn:Hv; [|eapply safely_any, say_safe]. destruct (_ && _); [eapply safely_any, say_safe|].
  unfold entity_route. destruct (_ || _); [eapply safely_any, say_safe|]. cbn [bind].
  enters. apply other_idle. intros t. cbn [croute]. apply method_not_control.
  apply parse_call_sound in Hv as [_ Hv]. apply entity_call_message_spec in Hv as ((Hm & _) & _). exact Hm.
Qed.

Lemma host_dispatch_safe who data n deadline h a s : safe (MkCtx (user n :: h) None a) (MkCtx h None a) s (dispatch SHA256 env who data n deadline) any.
Proof.
  unfold dispatch. destruct (parse_entity_call_view data) as [v|]; [|apply reply_safe]. apply safely_state. cbv zeta. destruct (resolved_types _ !! _); [apply dispatch_resolved_safe|].
  by apply (admitted_safe h a s _ (plain (user n)) _ _ (fun i => lookup_submitted i _)).
Qed.

Lemma remember_safe h a s id type : safe (MkCtx h None a) (MkCtx h None a) s (remember id type) any.
Proof.
  apply safely_modify_end; [|done]. apply moves_frame; try done.
  - intros [[H1 H2 H3 H4 H5 H6] _ _ _]. by constructor.
  - intros [_ _ [W1 W2 W3 W4 W5 W6 W7] _]. constructor; cbn; try done. destruct (N.leb_spec (lentities (limits s)) (N.of_nat (base.size (resolved_types (registry s))))) as [|Hl].
    + rewrite map_size_insert_None by apply lookup_empty. rewrite map_size_empty. lia.
    + rewrite map_size_insert. case_match; cbn; lia.
Qed.

Lemma bind_owner_typed_safe type id c reply h a s : safe (MkCtx (reply :: h) None a) (MkCtx h None a) s (bind_owner_typed SHA256 env type id c reply) any.
Proof.
  unfold bind_owner_typed. destruct (entity_message id [] []) as [w|]; [|eapply safely_any, say_safe].
  enters. apply other_idle, snapshot_not_control.
Qed.

Lemma bind_owner_safe type id c n h a s : safe (MkCtx (user n :: h) None a) (MkCtx h None a) s (bind_owner SHA256 env type id c n) any.
Proof.
  unfold bind_owner. destruct (_ || _); [apply reply_safe|]. destruct (negb _); [apply bind_owner_typed_safe|]. by apply (admitted_safe h a s _ (plain (user n)) _ _ (fun i => lookup_submitted i id)).
Qed.

Lemma read_owner_binding_safe type id r h a s : safe (MkCtx (as_reply r :: h) None a) (MkCtx h None a) s (read_owner_binding SHA256 env type id r) any.
Proof. unfold read_owner_binding. destruct (_ || _); [apply answer_safe|]. by apply (admitted_safe h a s _ r _ _ (fun i => lookup_submitted i id)). Qed.

Lemma owner_request_safe data n h a s : safe (MkCtx (user n :: h) None a) (MkCtx h None a) s (owner_request SHA256 env data n) any.
Proof. unfold owner_request. cbv zeta. destruct (bind _ _) as [[[type id] c]|]; [apply bind_owner_safe|apply reply_safe]. Qed.

Lemma create_entity_safe type vs owner scope key target n h a s : safe (MkCtx (user n :: h) None a) (MkCtx h None a) s (create_entity SHA256 env type vs owner scope key target n) any.
Proof.
  apply safely_state. destruct (schemas _ !! type) as [sc|]; [|apply reply_safe]. cbv zeta. destruct (bind _ _) as [w|]; [|apply reply_safe].
  by apply (admitted_safe h a s _ (plain (user n)) _ _ (fun i => create_submitted i type w)).
Qed.

(** ** Lookups and creations that ended *)

Lemma lookup_done_safe i x h a s : safe (MkCtx h None a) (MkCtx h None a) s (lookup_done SHA256 env i x) any.
Proof.
  apply safely_state. destruct (admissions s !! i) as [d|] eqn:Hd; [|by apply safely_done]. destruct (apurpose d) as [who data|id c| |type]; [..|by apply safely_done].
  - destruct (stopped _); [apply host_finish_safe|]. destruct (_ <=? _)%Z; [apply host_finish_safe|]. destruct x as [[st type]|]; [|apply host_finish_safe]. destruct (negb _); [apply host_finish_safe|].
    eapply safely_bind_any; [by apply take_safe|]. intros s'. destruct (parse_entity_call_view data); [|apply answer_safe]. destruct (areply d) as [r|]; [|apply answer_safe].
    eapply safely_bind_any; [apply remember_safe|]. intros s''. apply dispatch_resolved_safe.
  - destruct x as [[st type]|]; [|apply host_finish_safe]. destruct (is_empty type); [apply host_finish_safe|]. eapply safely_bind_any; [by apply take_safe|]. intros s'.
    destruct (areply d) as [r|]; [apply bind_owner_typed_safe|apply answer_safe].
  - destruct (stopped _); [apply host_finish_safe|]. destruct (_ <=? _)%Z; apply host_finish_safe.
Qed.

Lemma create_done_safe i x h a s : safe (MkCtx h None a) (MkCtx h None a) s (create_done SHA256 env i x) any.
Proof.
  apply safely_state. destruct (admissions s !! i) as [d|] eqn:Hd; [|by apply safely_done]. destruct (apurpose d); try (by apply safely_done). destruct x as [c|]; [|apply host_finish_safe].
  destruct (negb _); [apply host_finish_safe|]. destruct (stopped _); [apply host_finish_safe|]. destruct (_ <=? _)%Z; [apply host_finish_safe|]. destruct (new_initialized c); [apply host_finish_safe|].
  destruct (negb _); [by apply safely_emit_end|]. eapply safely_bind_any; [by apply take_safe|]. intros s'.
  destruct (areply d) as [[n| | | |]|]; try apply answer_safe. destruct (entity_message (new_id c) [] []) as [w|]; [|apply answer_safe]. apply (safely_wrap _ (named (new_id c) n)); try done.
  enters. apply other_idle, snapshot_not_control.
Qed.

(** ** Requests of the framework *)

Lemma read_attributes_safe type id n h a s : safe (MkCtx (user n :: h) None a) (MkCtx h None a) s (read_attributes SHA256 env type id n) any.
Proof. apply server_call_safe. intros w _. apply other_idle, snapshot_not_control. Qed.

Lemma read_authorized_safe type id n h a s : safe (MkCtx (user n :: h) None a) (MkCtx h None a) s (read_authorized SHA256 env type id n) any.
Proof. apply safely_state. exact (read_owner_binding_safe _ _ (guarded _ _ _ n) h a s). Qed.

Lemma write_attributes_safe type id who p n rid h a s : safe (MkCtx (user n :: h) None a) (MkCtx h None a) s (write_attributes SHA256 env type id who p n rid) any.
Proof. unfold write_attributes. destruct (entity_message id p rid); [|apply reply_safe]. enters. apply other_idle. by apply not_control. Qed.

Lemma call_entity_safe data ms n h a s : safe (MkCtx (user n :: h) None a) (MkCtx h None a) s (call_entity SHA256 env data ms n) any.
Proof. apply safely_state. destruct (_ || _); [apply reply_safe|apply host_dispatch_safe]. Qed.

Lemma fire_timer_safe type id key g due n h a s : safe (MkCtx (user n :: h) None a) (MkCtx h None a) s (fire_timer SHA256 env type id key g due n) any.
Proof. unfold fire_timer. destruct (_ || _); [apply reply_safe|]. destruct (entity_message id [] []); [|apply reply_safe]. enters. apply other_idle. by apply not_control. Qed.

Lemma receive_delivery_safe who d n h a s : safe (MkCtx (user n :: h) None a) (MkCtx h None a) s (receive_delivery SHA256 env who d n) any.
Proof. apply safely_state. destruct (_ || _); [apply reply_safe|]. destruct (bind _ _); [|apply reply_safe]. enters. apply other_idle, snapshot_not_control. Qed.

Lemma threw_safe n h j a s e : safe (MkCtx (user n :: h) j a) (MkCtx h j a) s (emit (threw n e)) any.
Proof.
  intros Hi. destruct (spend_run (user n) h j a s n (status ok) (fun _ => eq_refl) (fun _ => eq_refl) Hi) as [J1 [T1 T2 T3 T4 T5]]. split_and!; [done| |done]. by constructor.
Qed.

Lemma acknowledge_delivery_safe type id epoch t x n h a s : safe (MkCtx (user n :: h) None a) (MkCtx h None a) s (acknowledge_delivery SHA256 env type id epoch t x n) any.
Proof. apply safely_state. destruct (_ || _); [apply reply_safe|]. destruct (entity_message id [] []); [|apply threw_safe]. enters. apply other_idle, snapshot_not_control. Qed.

Lemma accept_handoff_safe type id t n h a s : safe (MkCtx (user n :: h) None a) (MkCtx h None a) s (accept_handoff SHA256 env type id t n) any.
Proof.
  unfold accept_handoff. destruct (_ =? _); [apply reply_safe|]. destruct (entity_message id [] []); [|apply reply_safe]. apply (safely_wrap _ (emptied n)); try done. enters. apply other_idle, snapshot_not_control.
Qed.

(** ** Leaving *)

Lemma message_of_simple route id p reply who w : entity_message id p [] = Ok w -> message_of (simple_call route w reply who) = Some (MkMessage id p []).
Proof. intros H. unfold message_of. cbn. by apply parse_message_complete. Qed.

Lemma idle_spec x : busy x = false -> queue x = [] -> idle x = true.
Proof. unfold idle. by intros -> ->. Qed.

Lemma is_empty_spec {A} (l : list A) : is_empty l = true <-> l = [].
Proof. by destruct l. Qed.

(** The slot of an entity at rest is marked for its release. *)
Lemma release_moves reply h s e x : slots s !! e = Some x -> busy x = false -> queue x = [] ->
  moves (MkCtx (reply :: h) None []) (MkCtx h None []) s
    (with_releases (with_slots s (<[e := with_queue x (queue x) true true]> (slots s))) (<[e := reply]> (releases s))).
Proof.
  intros Hx Hb Hq. apply safely_inv_moves. intros [I1 _ _ _]. cbn [view in_hand aside] in I1. destruct (idle_tables _ _ _ _ _ I1 Hx Hb) as [Ha Hr]. set (y := with_queue _ _ _ _).
  apply (moves_by _ _ _ _ (fun w => slot_weight w x) (fun w => slot_weight w y + of_release w reply)); try done; cbn [view in_hand hand aside].
  - intros _ w. pose proof (total_slot w s e x y Hx) as E1. pose proof (total_release w s e reply Hr) as E2. revert E1 E2. unfold total. cbn. lia.
  - same_weight x y.
  - same_weight x y.
  - same_weight x y.
  - same_weight x y.
  - intros f. rewrite lsum_cons. change (slot_weight (replies_held f) y) with (slot_weight (replies_held f) x). weigh. lia.
  - intros _. apply (shape_turn None None [] s _ e x y); try done; cbn; [|by rewrite Ha, lookup_insert_eq|rewrite Ha; done]. intros n Hn. by rewrite lookup_insert_ne.
  - intros [_ _ I3 _]. eapply within_less; [exact I3|..]; cbn; try done. by rewrite (size_replace _ _ x).
  - by apply (closed_slot _ _ _ Hx).
Qed.

Lemma deactivate_safe hd reply h s : safe (MkCtx (reply :: h) None []) (MkCtx h None []) s (deactivate SHA256 env hd reply) any.
Proof.
  apply safely_state. cbv zeta. assert (Hsay : forall s' x, safe (MkCtx (reply :: h) None []) (MkCtx h None []) s' (say reply x) any) by (intros; eapply safely_any, say_safe).
  destruct (stopped _); [apply Hsay|]. destruct (slots s !! _) as [x|] eqn:Hx; [|apply Hsay]. destruct (_ || _) eqn:Hg; [apply Hsay|]. apply orb_false_iff in Hg as [Hg Hq%negb_false_iff%is_empty_spec].
  apply orb_false_iff in Hg as [_ Hb]. destruct (has_method _ _).
  - apply safely_inv. intros Hi. apply server_call_safe. intros w Hw. eapply (emptying_idle _ _ _ s); [exact Hi|exact Hx|by apply idle_spec|done|]. by apply message_of_simple.
  - destruct (e_accepts env _).
    + do 1 apply safely_modify_seq. eapply safely_modify; [exact (release_moves reply h s _ x Hx Hb Hq)|]. by apply safely_emit_end.
    + eapply safely_modify; [|apply Hsay]. apply safely_inv_moves. intros [I1 _ _ _]. cbn [view in_hand aside] in I1. destruct (idle_tables _ _ _ _ _ I1 Hx Hb) as [Ha Hr]. set (y := with_queue _ _ _ _).
      apply (moves_by _ _ _ _ (fun w => slot_weight w x) (fun w => slot_weight w y)); try done; cbn [view in_hand hand aside].
      * intros _ w. apply (total_slot w s _ x y Hx).
      * same_weight x y.
      * same_weight x y.
      * same_weight x y.
      * same_weight x y.
      * intros _. apply (shape_slot _ _ s _ x y); try done. rewrite Ha, Hr. cbn. split; [done|]. left. split; [done|]. rewrite Hq. by constructor.
      * intros [_ _ I3 _]. eapply within_less; [exact I3|..]; cbn; try done. by rewrite (size_replace _ _ x).
      * by apply (closed_slot _ _ _ Hx).
Qed.

Lemma released_moves h s e reply l y : releases s !! e = Some reply -> slots s !! e = Some l -> y = with_queue l (queue l) false false ->
  moves (MkCtx h None []) (MkCtx (reply :: h) None []) s (with_slots (with_releases s (delete e (releases s))) (<[e := y]> (slots s))).
Proof.
  intros Hr Hl ->. set (y := with_queue _ _ _ _). apply (moves_by _ _ _ _ (fun w => slot_weight w l + of_release w reply) (fun w => slot_weight w y)); try done; cbn [view in_hand hand aside].
  - intros _ w. pose proof (total_slot w s e l y Hl) as E1. pose proof (total_released w s e reply Hr) as E2. revert E1 E2. unfold total. cbn. lia.
  - same_weight l y.
  - same_weight l y.
  - same_weight l y.
  - same_weight l y.
  - intros f. rewrite lsum_cons. change (slot_weight (replies_held f) y) with (slot_weight (replies_held f) l). weigh. lia.
  - intros [I1 _ _ _]. cbn [view in_hand aside] in I1. destruct (sh_slots _ _ _ I1 _ _ Hl) as [_ Hm]. unfold mode_ok in Hm. rewrite Hr in Hm. destruct (active s !! e) eqn:Ha; [done|]. destruct Hm as (_ & _ & Hq).
    apply (shape_turn None None [] s _ e l y); try done; cbn.
    + intros n Hn. by rewrite lookup_delete_ne.
    + rewrite Ha, lookup_delete_eq. cbn. split; [done|]. left. split; [done|]. rewrite Hq. by constructor.
    + rewrite Ha. done.
  - intros [_ _ I3 _]. eapply within_less; [exact I3|..]; cbn; try done. by rewrite (size_replace _ _ l).
  - by apply (closed_slot _ _ _ Hl).
Qed.

(** What is forgotten does not depend on the flags of the slot. *)
Lemma erase_same e s l y : slots s !! e = Some l -> cache y = cache l -> erase_slot e (with_slots s (<[e := y]> (slots s))) = erase_slot e s.
Proof.
  intros Hl Hc. unfold erase_slot, mbind, act_bind, state, modify. cbn [slots with_slots]. rewrite Hl, lookup_insert_eq. cbn [app slots with_slots counters with_counters schedule with_schedule]. by rewrite Hc, delete_insert_eq.
Qed.

Lemma release_done_safe e x h s : safe (MkCtx h None []) (MkCtx h None []) s (release_done e x) any.
Proof.
  apply safely_state. destruct (releases s !! e) as [reply|] eqn:Hr; [|by apply safely_done]. destruct (stopped (flags s)); [by apply safely_done|]. apply safely_inv. intros Hi0.
  destruct (sh_releases _ _ _ (in_shape _ _ Hi0) _ _ Hr) as [l Hl]. cbn [view in_hand] in Hl. pose proof (released_moves h s e reply l _ Hr Hl eq_refl) as M. set (s1 := with_releases s (delete e (releases s))) in *.
  set (y := with_queue l (queue l) false false) in *. assert (Hy : slots s1 !! e = Some l) by done.
  assert (Hq : quiet e [] (with_slots s1 (<[e := y]> (slots s1)))).
  { destruct (sh_slots _ _ _ (in_shape _ _ Hi0) _ _ Hl) as [_ Hm]. cbn [view in_hand] in Hm. unfold mode_ok in Hm. rewrite Hr in Hm. destruct (active s !! e) eqn:Ha; [done|].
    split_and!; cbn; [done|by rewrite lookup_delete_eq|]. intros z. rewrite lookup_insert_eq. intros [= <-]. by destruct Hm as (_ & _ & ?). }
  assert (Hout : forall st, safe (MkCtx h None []) (MkCtx h None []) s (modify (fun s => with_releases s (delete e (releases s)));;
    modify (fun s => with_slots s (match slots s !! e with Some y => <[e := with_queue y (queue y) false false]> (slots s) | None => slots s end));; say reply (status st)) any).
  { intros st. apply safely_modify_seq. eapply safely_modify; [|eapply safely_any, say_safe]. cbn [slots with_releases]. rewrite Hl. exact M. }
  destruct x as [[]|]; [|by apply Hout..].
  intros Hi. destruct (M Hi) as [J1 T1].
  assert (Hs : safe (MkCtx (reply :: h) None []) (MkCtx h None []) (with_slots s1 (<[e := y]> (slots s1))) (erase_slot e;; emit (closed_notified e false);; say reply (status ok)) any).
  { eapply safely_bind_any; [eapply safely_any, erase_slot_safe, Hq|]. intros s2. apply safely_emit; [done|]. eapply safely_any, say_safe. }
  specialize (Hs J1). revert Hs. unfold mbind, act_bind. rewrite (erase_same e s1 l y Hy eq_refl). unfold modify at 1. fold s1. destruct (erase_slot e s1) as [[u1 s2] o1]. cbn [emit app]. destruct (say reply (status ok) s2) as [[u2 s3] o2].
  intros (K1 & K2 & _). split_and!; [done| |done]. exact (moved_trans _ _ _ _ _ _ [] _ T1 K2).
Qed.

Lemma handoff_safe hd target n h s : safe (MkCtx (user n :: h) None []) (MkCtx h None []) s (handoff SHA256 env hd target n) any.
Proof.
  apply safely_state. destruct (stopped _); [apply reply_safe|]. destruct (slots s !! _) as [x|] eqn:Hx; [|apply reply_safe]. destruct (_ || _) eqn:Hg; [apply reply_safe|].
  apply orb_false_iff in Hg as [Hg _]. apply orb_false_iff in Hg as [Hg Hq%negb_false_iff%is_empty_spec]. apply orb_false_iff in Hg as [Hg _]. apply orb_false_iff in Hg as [_ Hb].
  destruct (entity_message _ _ _) as [w|] eqn:Hw; [|apply reply_safe]. apply safely_inv. intros Hi. enters. eapply (emptying_idle _ _ _ s); [exact Hi|exact Hx|by apply idle_spec|done|].
  unfold message_of. cbn. by apply parse_message_complete.
Qed.

Lemma control_entity_safe type id destroy n h s : safe (MkCtx (user n :: h) None []) (MkCtx h None []) s (control_entity SHA256 env type id destroy n) any.
Proof.
  apply safely_state. destruct (slots s !! _) as [x|] eqn:Hx; [|apply reply_safe]. destruct destroy; cbn [negb]; [|apply deactivate_safe]. destruct (stopped _); [apply reply_safe|].
  destruct (_ || _) eqn:Hg; [apply reply_safe|]. apply orb_false_iff in Hg as [Hg _]. apply orb_false_iff in Hg as [Hg _]. apply orb_false_iff in Hg as [Hb Hq%negb_false_iff%is_empty_spec].
  apply safely_inv. intros Hi. apply server_call_safe. intros w Hw. eapply (emptying_idle _ _ _ s); [exact Hi|exact Hx|by apply idle_spec|done|by apply message_of_simple].
Qed.

(** ** Draining *)

Lemma drain_moves n h s k : drains s !! (drain_serial (serials s) + 1) = None -> (0 < k)%nat ->
  let d := drain_serial (serials s) + 1 in
  let n1 := serials s in
  moves (MkCtx (user n :: h) None []) (MkCtx (repeat (drained d) k ++ h) None []) s
    (with_drains (with_serials s (MkSerials (admission_serial n1) (generations n1) (timer_revision n1) (job_serial n1) d (method_serial n1))) (<[d := (N.of_nat k, ok, n)]> (drains s))).
Proof.
  intros Hd Hk d n1. change (drains s !! d = None) in Hd. intros [I1 [B1 B2 B3 B4] [W1 W2 W3 W4 W5 W6 W7] I4]. cbn [view in_hand hand aside] in *.
  assert (Hsum : forall f, lsum f (repeat (drained d) k ++ h) = N.of_nat k * f (drained d) + lsum f h).
  { intros f. clear Hk. induction k as [|k IH]; cbn [repeat app]; [lia|]. rewrite lsum_cons, IH. lia. }
  split; constructor; try done; cbn [view in_hand hand aside].
  - destruct I1 as [H1 H2 H3 H4 H5 H6]. by constructor.
  - intros d'. cbn [drains with_drains serials with_serials drain_serial]. rewrite Hsum. destruct (I4 d') as [E1 E2]. cbn [drains_of]. rewrite lsum_cons in E1. cbn [drains_of] in E1.
    change (total (replies_held (drains_of d')) (with_drains _ _)) with (total (replies_held (drains_of d')) s). destruct (decide (d' = d)) as [->|Hne].
    + rewrite lookup_insert_eq, one_if_refl. rewrite Hd in E1. cbn. split; [lia|]. intros x [= <-]. cbn. lia.
    + rewrite lookup_insert_ne, one_if_neq by congruence. split; [lia|]. intros x Hx. destruct (E2 _ Hx). split; [done|]. lia.
  - intros j. unfold debt. cbn [drains with_drains view in_hand hand]. rewrite Hsum, lsum_cons, (msum_insert (f := drain_owes j)) by done. unfold drain_owes at 2. cbn [owes snd]. change (told j []) with 0.
    change (total (replies_held (owes j)) (with_drains _ _)) with (total (replies_held (owes j)) s). lia.
Qed.

Lemma deactivate_all_safe (l : list (bytes * Slot)) owner d h : forall s, safe (MkCtx (repeat (drained d) (length l) ++ h) None []) (MkCtx h None []) s
  (for_each (fun e => deactivate SHA256 env (MkHandle (handle_type e.2) (handle_id e.2) owner (handle_generation e.2)) (drained d)) l) any.
Proof. induction l as [|e l IH]; intros s; cbn [for_each length repeat app]; [by apply safely_done|]. eapply safely_bind_any; [apply deactivate_safe|done]. Qed.

Lemma draining_moves c s : moves c c s (with_flags s (MkFlags (stopped (flags s)) true (delivery_enabled (flags s)))).
Proof.
  destruct c as [h [[e r]|] a]; apply moves_frame; try done; cbn; (intros [[H1 H2 H3 H4 H5 H6] _ [W1 W2 W3 W4 W5 W6 W7] _]; by constructor).
Qed.

Lemma drain_safe n h s : safe (MkCtx (user n :: h) None []) (MkCtx h None []) s (drain SHA256 env n) any.
Proof.
  eapply safely_modify; [apply draining_moves|]. set (s1 := with_flags _ _). apply safely_state. cbv zeta. destruct (negb _); [apply reply_safe|]. destruct (map_to_list (slots s1)) as [|e l] eqn:El; cbn [is_empty]; [apply reply_safe|].
  apply safely_modify_seq. eapply safely_modify; [|apply (deactivate_all_safe (e :: l))]. apply safely_inv_moves. intros [_ _ _ I4]. refine (drain_moves n h s1 (length (e :: l)) _ _); [|cbn; lia].
  destruct (drains s1 !! (drain_serial (serials s1) + 1)) as [x|] eqn:E; [|done]. destruct (I4 (drain_serial (serials s1) + 1)) as [_ I]. cbn [view in_hand] in I. apply I in E. lia.
Qed.
End Requests.
