(* ===== verification/HostRuns.v ===== *)
(** * The entity host: jobs

    The operations on the job of an entity keep the invariant: acquisition, the logic and its
    steps, timers and messages of a transaction, the commit. *)

From stdpp Require Import gmap.
From S2P Require Import TimerState TimerIndex Delivery Prelude Storage MapSum OrderedMap Identity Messages MessagesCorrect Fields DeliveryState Records Transport HostJobs Values AttributeWire Replica Schema HostAttributes Host HostMailbox HostActions.

(** ** The job in hand *)

(** The job changed, but not what it weighs. *)
Definition same_job (r r' : Running) : Prop :=
  rreply (run_request r') = rreply (run_request r) /\ rbytes (run_request r') = rbytes (run_request r) /\ is_control (job_q r') = is_control (job_q r).
Definition same_weights (r r' : Running) : Prop :=
  same_job r r' /\ resident (run_budget r') = resident (run_budget r) /\ cache_growth (run_budget r') = cache_growth (run_budget r).

Lemma same_job_refl r : same_job r r.
Proof. done. Qed.

Lemma same_job_trans a b c : same_job a b -> same_job b c -> same_job a c.
Proof. intros (? & ? & ?) (? & ? & ?). split_and!; congruence. Qed.

Lemma view_job e r h a s : view (MkCtx h (Some (e, r)) a) s = with_running s (<[e := r]> (active s)).
Proof. done. Qed.

(** The operation takes the job of [e] in hand. *)
Lemma safely_hold {A} e r h c' s (m : act A) post : active s !! e = Some r ->
  ((exists x, slots s !! e = Some x /\ job_ok x r) -> safe (MkCtx h (Some (e, r)) []) c' s m post) -> safe (MkCtx h None []) c' s m post.
Proof.
  intros Hr Hm Hi. pose proof Hi as [I1 I2 I3 I4]. assert (Ev : with_running s (<[e := r]> (active s)) = s) by (rewrite insert_id by done; by destruct s).
  assert (Hi' : inv (MkCtx h (Some (e, r)) []) s).
  { constructor; rewrite ?view_job, ?Ev; cbn [hand in_hand aside]; try done. destruct I1 as [H1 H2 H3 H4 H5 H6]. constructor; try done. intros n j Hj. destruct (H2 n j Hj) as (x & Hx & Hok). exists x. auto. }
  destruct (sh_jobs _ _ _ I1 _ _ Hr) as (x & Hx & Hok). cbn in Hx. specialize (Hm ltac:(exists x; auto) Hi'). destruct (m s) as [[y s'] outs]. destruct Hm as (J1 & [T1 T2 T3 T4 T5] & J3). split_and!; try done. constructor; try done.
  intros n. specialize (T1 n). rewrite view_job, Ev in T1. done.
Qed.

(** The job is put back. *)
Lemma keep_moves e r h s : (forall x, slots s !! e = Some x -> job_ok x r) -> moves (MkCtx h (Some (e, r)) []) (MkCtx h None []) s (with_running s (<[e := r]> (active s))).
Proof.
  intros Hok [I1 I2 I3 I4]. rewrite view_job in *. cbn [hand in_hand aside] in *. split; [constructor|constructor]; try done.
  - cbn [hand in_hand aside view]. destruct I1 as [H1 H2 H3 H4 H5 H6]. constructor; try done. intros n j Hj. destruct (H2 n j Hj) as (x & Hx & Hxj). exists x. split; [done|]. intros _. destruct (decide (n = e)) as [->|Hne].
    + cbn in Hj, Hx. rewrite lookup_insert_eq in Hj. injection Hj as <-. by apply Hok.
    + apply Hxj. cbn. congruence.
  - by destruct I3.
Qed.

Lemma keep_safe e r h s : (forall x, slots s !! e = Some x -> job_ok x r) -> safe (MkCtx h (Some (e, r)) []) (MkCtx h None []) s (keep e r) any.
Proof. intros Hok. apply safely_modify_end; [|done]. by apply keep_moves. Qed.

(** The job changes its budget with the counters. *)
Lemma rebudget_moves e r r' h s k : same_job r r' -> (pending k, queued k) = (pending (counters s), queued (counters s)) ->
  state_bytes k + resident (run_budget r) = resident (run_budget r') + state_bytes (counters s) -> transient_bytes k + cache_growth (run_budget r) = cache_growth (run_budget r') + transient_bytes (counters s) ->
  state_bytes k <= lresident_bytes (limits s) -> transient_bytes k <= lresident_bytes (limits s) ->
  moves (MkCtx h (Some (e, r)) []) (MkCtx h (Some (e, r')) []) s (with_counters s k).
Proof.
  intros (J1 & J2 & J3) [= K1 K2] Hs Ht Ls Lt. apply (moves_by _ _ _ _ (fun w => of_job w r) (fun w => of_job w r')); try done; rewrite ?view_job; cbn [hand in_hand aside].
  - intros _ w. pose proof (total_job w (with_running s (<[e := r]> (active s))) e r r' (lookup_insert_eq _ _ _)) as E. revert E. unfold total. cbn. rewrite insert_insert_eq. lia.
  - weigh. rewrite K1. intros; lia.
  - weigh. rewrite K2, J2. intros; lia.
  - weigh. intros; lia.
  - weigh. intros; lia.
  - intros f. weigh. rewrite J1. lia.
  - intros [I1 _ _ _]. rewrite view_job in I1. cbn [in_hand aside fmap option_fmap option_map fst] in *. destruct (sh_jobs _ _ _ I1 e r) as (x & Hx & _); [apply lookup_insert_eq|]. cbn in Hx.
    apply (shape_turn _ _ _ _ _ e x x I1); try done; cbn.
    + by rewrite insert_id.
    + intros n Hn. by rewrite !lookup_insert_ne.
    + destruct (sh_slots _ _ _ I1 e x Hx) as [_ Hm]. cbn in Hm. rewrite lookup_insert_eq in *. unfold mode_ok in *. by rewrite J3.
  - intros [_ _ [W1 W2 W3 W4 W5 W6 W7] _]. constructor; cbn; rewrite ?K1, ?K2; done.
Qed.

(** Only the job in hand changed. *)
Lemma safely_rehold {A} e r r' h c' s (m : act A) post : same_weights r r' -> safe (MkCtx h (Some (e, r')) []) c' s m post -> safe (MkCtx h (Some (e, r)) []) c' s m post.
Proof.
  intros (Hj & Hs & Ht) Hm Hi. destruct (rebudget_moves e r r' h s (counters s)) as [J1 [T1 T2 T3 T4 T5]]; try done; try lia; [apply Hi..|].
  assert (Ec : with_counters s (counters s) = s) by (by destruct s). rewrite Ec in *. specialize (Hm J1). destruct (m s) as [[y s'] outs]. destruct Hm as (K1 & [U1 U2 U3 U4 U5] & K3). split_and!; try done. constructor; try done.
  intros n. rewrite T1, U1. cbn. done.
Qed.

Lemma safely_charge {B} e r r' n h c' s (k : unit -> act B) post : same_job r r' -> resident (run_budget r') = resident (run_budget r) + n -> cache_growth (run_budget r') = cache_growth (run_budget r) ->
  n <= free_state s -> (forall s', slots s' = slots s -> limits s' = limits s -> safe (MkCtx h (Some (e, r')) []) c' s' (k tt) post) -> safe (MkCtx h (Some (e, r)) []) c' s (charge n ≫= k) post.
Proof.
  intros Hj Hr Hc Hn Hk. apply safely_inv. intros [_ _ [W1 W2 W3 W4 W5 W6 W7] _]. unfold free_state in Hn. eapply safely_modify; [|by apply Hk]. apply rebudget_moves; try done; cbn; lia.
Qed.

(** The resident budget replaced. *)
Lemma safely_recharge {B} e r r' n h c' s (k : unit -> act B) post : same_job r r' -> resident (run_budget r') = n -> cache_growth (run_budget r') = cache_growth (run_budget r) ->
  n <= free_state s + resident (run_budget r) -> (forall s', slots s' = slots s -> limits s' = limits s -> host_owner s' = host_owner s -> safe (MkCtx h (Some (e, r')) []) c' s' (k tt) post) ->
  safe (MkCtx h (Some (e, r)) []) c' s (modify (fun s => with_counters s (with_state_bytes (counters s) (state_bytes (counters s) - resident (run_budget r) + n))) ≫= k) post.
Proof.
  intros Hj Hr Hc Hn Hk. apply safely_inv. intros [_ [B1 B2 B3 B4] [W1 W2 W3 W4 W5 W6 W7] _]. rewrite view_job in B3. cbn in B3. unfold free_state in Hn.
  assert (resident (run_budget r) <= state_bytes (counters s)).
  { rewrite B3. pose proof (total_drop_job state_held (with_running s (<[e := r]> (active s))) e r (lookup_insert_eq _ _ _)) as E. cbn in E. lia. }
  eapply safely_modify; [|by apply Hk]. apply rebudget_moves; try done; cbn; lia.
Qed.

Section Runs.
Context (SHA256 : bytes -> bytes) (env : Env).

(** A job that fails. *)
Lemma fail_safe e r st h s : st <> ok -> safe (MkCtx h (Some (e, r)) []) (MkCtx h None []) s (fail_with env e r st) any.
Proof. intros Hst. by apply complete_safe. Qed.

(** A job that fails after changes that weigh nothing. *)
Lemma fail_same e r r' st h s : same_weights r r' -> st <> ok -> safe (MkCtx h (Some (e, r)) []) (MkCtx h None []) s (fail_with env e r' st) any.
Proof. intros Hw Hst. eapply safely_rehold; [exact Hw|]. by apply fail_safe. Qed.

(** ** The commit *)

Definition finishing (s : Host) (e : bytes) (r : Running) : Prop := run_phase r = committing /\ forall x, slots s !! e = Some x -> growth_ok r x.

Lemma submit_commit_safe e r x rs d out h s : finishing s e r -> safe (MkCtx h (Some (e, r)) []) (MkCtx h None []) s (submit_commit env e r x rs d out) any.
Proof.
  intros [Hp Hg]. apply safely_state. cbv zeta. destruct (retained_commit r _ _ _ _) as [n|]; [|by apply fail_safe]. destruct (N.ltb_spec (free_state s + resident (run_budget r)) n) as [|Hn]; [by apply fail_safe|].
  set (r1 := with_budget r _). eapply (safely_recharge e r r1); try done. intros s' Es El Eo. set (r2 := with_dirty _ _).
  apply (safely_rehold e r1 r2); [done|]. destruct (committed_record _ _ _) as [[w|]|]; [|by apply fail_safe..]. set (j := if is_some _ then _ else _). destruct (encode_entity_record w) as [v|]; [|by eapply fail_same].
  set (r3 := with_job r2 _). apply (safely_rehold e r2 r3); [done|]. destruct (e_accepts env e); [|by apply fail_safe].
  eapply safely_bind_any; [apply keep_safe|intros s''; by apply safely_emit_end]. rewrite Es. intros y Hy. specialize (Hg y Hy). unfold job_ok. cbn [run_phase r3 r2 r1 with_job with_dirty with_budget]. rewrite Hp. exact Hg.
Qed.

Lemma settle_run_safe e r st payload h s : run_phase r = committing -> cache_growth (run_budget r) = 0 -> safe (MkCtx h (Some (e, r)) []) (MkCtx h None []) s (settle_run SHA256 env e r st payload) any.
Proof.
  intros Hp Hc. apply safely_inv. intros Hi. destruct (slot_of_job _ _ _ _ Hi eq_refl) as (y & Hy & _ & _). apply safely_state. cbv zeta. destruct (add_receipt _ _ _ _ _); [|by apply fail_safe].
  set (g := match run_commit r with Some _ => _ | None => _ end). assert (Hg : g = Ok (match run_commit r with Some _ => size (run_transient r) - size (transient (cache y)) | None => 0 end)).
  { unfold g. destruct (run_commit r); [|done]. by rewrite Hy. }
  rewrite Hg. clear Hg g. set (g := match run_commit r with Some _ => _ | None => _ end). destruct (N.ltb_spec (lresident_bytes (limits s) - transient_bytes (counters s)) g) as [|Hl]; [by apply fail_safe|].
  set (r1 := with_budget r _). destruct Hi as [_ _ [W1 W2 W3 W4 W5 W6 W7] _]. eapply safely_modify with (c1 := MkCtx h (Some (e, r1)) []).
  - apply rebudget_moves; try done; cbn; rewrite ?Hc; lia.
  - destruct (settle_image _ _ _ _ _) as [[[[rs d] out]|]|]; [|by apply fail_safe..]. apply submit_commit_safe. split; [done|]. cbn. rewrite Hy. intros x [= <-]. done.
Qed.

(** ** Timers *)

(** The job with its timers published. *)
Definition grown (r r' : Running) (n free : N) : Prop :=
  same_job r r' /\ resident (run_budget r') = resident (run_budget r) + n /\ cache_growth (run_budget r') = cache_growth (run_budget r) /\ run_phase r' = run_phase r /\ n <= free.

Lemma publish_timers_grown l free r t r' n : publish_timers l free r t = Ok (r', n) -> grown r r' n free.
Proof.
  unfold publish_timers. destruct (_ =? _); [done|]. cbn [bind]. destruct (entity_timers_wire_size _) as [w|]; [|done]. cbn [bind]. destruct (_ || _); [done|]. cbn [bind].
  destruct (N.ltb_spec free (4 * w - timer_charge (run_budget r))) as [|Hl]; [done|]. cbn [bind]. intros [= <- <-]. by split_and!.
Qed.

Lemma fired_timers_grown l free r r' n : fired_timers env l free r = Ok (r', n) -> grown r r' n free.
Proof.
  unfold fired_timers. assert (H0 : Ok (r, 0) = Ok (r', n) -> grown r r' n free) by (intros [= <- <-]; split_and!; try done; lia).
  destruct (timer_event _) as [ev|]; [|done]. destruct (metadata_only _); [done|]. destruct (map_find _ _); [|done]. destruct (_ && _); [|done]. destruct (advance_entity_timer _ _) as [[again p]|]; [|done]. cbn [bind]. apply publish_timers_grown.
Qed.

Lemma close_run_same r st r' st' : close_run r st = Ok (r', st') -> same_weights r r' /\ run_phase r' = run_phase r.
Proof.
  unfold close_run. destruct (run_commit r) as [c|]; [|by intros [= <- <-]]. destruct (close_image _ _ _ _) as [z|]; [|done]. cbn [bind]. by intros [= <- <-].
Qed.

Lemma refuse_delivery_same r x r' x' : refuse_delivery r x = Some (Ok (r', x')) -> same_weights r r' /\ run_phase r' = run_phase r.
Proof.
  unfold refuse_delivery. destruct (_ && _); [|done]. destruct (run_rollback r); [|done]. cbv zeta. destruct (state_message _ _); [|done]. cbn [bind]. by intros [= <- <-].
Qed.

Lemma finish_logic_safe e r x h s : cache_growth (run_budget r) = 0 -> safe (MkCtx h (Some (e, r)) []) (MkCtx h None []) s (finish_logic SHA256 env e r x) any.
Proof.
  intros Hc. apply safely_state. cbv zeta. set (r0 := with_phase r committing). apply (safely_rehold e r r0); [done|].
  set (settled := if bool_decide (rstatus x = ok) then Some (Ok (r0, x)) else refuse_delivery r0 x).
  assert (Hset : forall r1 x1, settled = Some (Ok (r1, x1)) -> same_weights r0 r1 /\ run_phase r1 = committing).
  { unfold settled. intros r1 x1. destruct (bool_decide _); [by intros [= <- <-]|]. intros H. by apply refuse_delivery_same in H. }
  assert (Hno : settled = None -> rstatus x <> ok) by (unfold settled; destruct (bool_decide _) eqn:E; [done|]; intros _; by apply bool_decide_eq_false in E).
  clearbody settled. destruct settled as [[[r1 x1]|]|]; [destruct (Hset _ _ eq_refl) as [Hw Hp]|by apply fail_safe|apply complete_safe; intros E; by destruct (Hno eq_refl)].
  apply (safely_rehold e r0 r1); [done|]. destruct Hw as (Hj & _ & Hg). assert (Hc1 : cache_growth (run_budget r1) = 0) by (rewrite Hg; done). clear Hset Hno Hj Hg.
  destruct (_ <=? _)%Z; [by apply fail_safe|]. destruct (negb _); [by apply fail_safe|]. destruct (_ && _); [by apply fail_safe|]. destruct (parse_state_message _) as [[st payload]|]; [|by apply fail_safe].
  set (r2 := with_rollback r1 None). apply (safely_rehold e r1 r2); [done|]. destruct (fired_timers env _ _ r2) as [[r3 n]|] eqn:Ef; [|by apply fail_same].
  apply fired_timers_grown in Ef as (Hj3 & Hr3 & Hg3 & Hp3 & Hn). eapply (safely_charge e r2 r3); try done. intros s1 _ _. destruct (_ || _); [by apply fail_safe|].
  destruct (close_run r3 st) as [[r4 st4]|] eqn:Ecl; [|by apply fail_safe]. apply close_run_same in Ecl as [Hw4 Hp4]. apply (safely_rehold e r3 r4); [done|]. apply settle_run_safe.
  - by rewrite Hp4, Hp3.
  - destruct Hw4 as (_ & _ & ->). by rewrite Hg3.
Qed.

(** ** The logic *)

Lemma advance_safe e r steps n st h s : cache_growth (run_budget r) = 0 -> (n < length steps)%nat -> safe (MkCtx h (Some (e, r)) []) (MkCtx h None []) s (advance SHA256 env e r steps n st) any.
Proof.
  intros Hc Hn. apply safely_state. destruct (_ <=? _)%Z; [by apply finish_logic_safe|]. destruct (lookup_lt_is_Some_2 steps n Hn) as [m Hm]. rewrite Hm. cbv zeta. destruct (slots s !! e) as [y|]; [|by apply finish_logic_safe].
  destruct (bind _ _) as [input|]; [|by apply fail_safe]. set (r1 := with_started _ _ _). apply (safely_rehold e r r1); [done|]. destruct m as [route|].
  - eapply safely_bind_any; [apply keep_safe|intros s'; by apply safely_emit_end]. intros x _. unfold job_ok. cbn. split; [done|lia].
  - destruct (state_message st []); by apply finish_logic_safe.
Qed.

Lemma execute_safe e r h s : cache_growth (run_budget r) = 0 -> safe (MkCtx h (Some (e, r)) []) (MkCtx h None []) s (execute SHA256 env e r) any.
Proof.
  intros Hc. apply safely_state. cbv zeta. destruct (metadata_only _); [destruct (state_message _ _); by apply finish_logic_safe|]. apply advance_safe; [done|]. rewrite !length_app. cbn. lia.
Qed.

Lemma logic_done_safe e job step x h s : safe (MkCtx h None []) (MkCtx h None []) s (logic_done SHA256 env e job step x) any.
Proof.
  apply safely_state. destruct (active s !! e) as [r|] eqn:Hr; [|by apply safely_done]. destruct (run_phase r) as [|steps n st|] eqn:Hp; try (by apply safely_done). destruct (_ || _); [by apply safely_done|].
  apply (safely_hold e r); [done|]. intros (y & Hy & Hok). unfold job_ok in Hok. rewrite Hp in Hok. destruct Hok as [Hc Hn].
  destruct (_ || _) eqn:Hl; [by apply finish_logic_safe|]. apply orb_false_iff in Hl as [Hl%Nat.eqb_neq _]. destruct (parse_state_message _) as [[next p]|]; [|by apply finish_logic_safe].
  cbv zeta. destruct (_ || _) eqn:Hf; [by apply finish_logic_safe|]. apply orb_false_iff in Hf as [_ Hf%N.ltb_ge]. eapply (safely_charge e r); [..|intros s' _ _; apply advance_safe]; try done. lia.
Qed.

(** ** The acquisition *)

Lemma start_logic_safe e r h s : cache_growth (run_budget r) = 0 -> safe (MkCtx h (Some (e, r)) []) (MkCtx h None []) s (start_logic SHA256 env e r) any.
Proof.
  intros Hc. apply safely_inv. intros Hi. destruct (slot_of_job _ _ _ _ Hi eq_refl) as (y & Hy & _ & _). apply safely_state. rewrite Hy. cbv zeta. set (r1 := with_started r _ _). apply (safely_rehold e r r1); [done|].
  destruct (_ && _); [|by apply execute_safe]. destruct (encode_delivery_state _) as [w|]; [|by apply fail_safe]. destruct (N.ltb_spec (free_state s) (size (Records.state (HostJobs.image (run_job r))) + 2 * size w + timer_charge (run_budget r1))) as [|Hn]; [by apply fail_safe|].
  eapply (safely_charge e r1); [..|intros s' _ _; apply execute_safe]; done.
Qed.

Lemma open_run_safe e r h s : cache_growth (run_budget r) = 0 -> safe (MkCtx h (Some (e, r)) []) (MkCtx h None []) s (open_run SHA256 env e r) any.
Proof.
  intros Hc. apply safely_state. cbv zeta. destruct (slots s !! e) as [y|]; [|by apply fail_safe]. destruct (if metadata_only _ then _ else _) as [sc|]; [|by apply start_logic_safe].
  destruct (bind _ _) as [[u w]|]; [|by apply fail_safe]. set (n := resident (run_budget r) + _ + _ + _). destruct (N.ltb_spec (free_state s + resident (run_budget r)) n) as [|Hn]; [by apply fail_safe|].
  set (r1 := with_commit _ _ _). eapply (safely_recharge e r r1); try done. intros s' _ _ _. destruct (_ && _); [by apply fail_safe|by apply start_logic_safe].
Qed.

Lemma admit_run_safe e r h s : run_budget r = MkBudget 0 0 0 -> safe (MkCtx h (Some (e, r)) []) (MkCtx h None []) s (admit_run SHA256 env e r) any.
Proof.
  intros Hb. apply safely_state. cbv zeta. destruct (bind _ _) as [[tc n]|]; [|by apply fail_safe]. destruct (N.ltb_spec (free_state s) n) as [|Hn]; [by apply fail_safe|].
  eapply (safely_charge e r); [..|intros s' _ _; apply open_run_safe]; by rewrite ?Hb.
Qed.

(** A slot changes, but not its name, mailbox, flags or cache. *)
Lemma touch_moves e (f : Slot -> Slot) c s : (forall y, handle_type (f y) = handle_type y /\ handle_id (f y) = handle_id y /\ queue (f y) = queue y /\ busy (f y) = busy y /\ releasing (f y) = releasing y /\ cache (f y) = cache y) ->
  moves c c s (with_slots s (match slots s !! e with Some y => <[e := f y]> (slots s) | None => slots s end)).
Proof.
  intros Hf. destruct (slots s !! e) as [y|] eqn:Hy; [|rewrite with_same_slots; intros Hi; split; [done|apply moved_refl]]. destruct (Hf y) as (F1 & F2 & F3 & F4 & F5 & F6). set (z := f y) in *.
  assert (Ev : view c (with_slots s (<[e := z]> (slots s))) = with_slots (view c s) (<[e := z]> (slots (view c s)))) by (unfold view; by destruct (in_hand c) as [[]|]).
  assert (Hy' : slots (view c s) !! e = Some y) by (unfold view; by destruct (in_hand c) as [[]|]).
  apply (moves_by _ _ _ _ (fun w => slot_weight w y) (fun w => slot_weight w z)); try done; rewrite ?Ev.
  - intros _ w. by apply total_slot.
  - weigh. rewrite F3. intros; lia.
  - weigh. rewrite F3. intros; lia.
  - weigh. rewrite F3. intros; lia.
  - weigh. rewrite F3, F6. intros; lia.
  - intros g. weigh. rewrite F3. lia.
  - intros [I1 _ _ _]. apply (shape_slot _ _ _ _ y); try done.
    + destruct (sh_slots _ _ _ I1 _ _ Hy') as [_ Hm]. unfold mode_ok in *. by rewrite F3, F4, F5.
    + intros r _ _. unfold job_ok. by rewrite F6.
  - intros [_ _ I3 _]. eapply within_less; [exact I3|..]; cbn; try done. by rewrite (size_replace _ _ y).
  - by apply (closed_slot _ _ _ Hy).
Qed.

Lemma replayed_moves c s : moves c c s (with_counters s (count_replayed (counters s))).
Proof. destruct c as [h [[e r]|] a]; apply moves_frame; try done; cbn; (intros [[H1 H2 H3 H4 H5 H6] _ [W1 W2 W3 W4 W5 W6 W7] _]; by constructor). Qed.

Lemma acquired_safe e job x h s : safe (MkCtx h None []) (MkCtx h None []) s (acquired SHA256 env e job x) any.
Proof.
  apply safely_state. destruct (active s !! e) as [r|] eqn:Hr; [|by apply safely_done]. destruct (_ || _); [by apply safely_done|]. destruct (run_phase r) eqn:Hp; try (by apply safely_done). apply (safely_hold e r); [done|].
  intros (y & Hy & Hok). unfold job_ok in Hok. rewrite Hp in Hok. destruct Hok as [Hb Hn]. destruct x as [j|]; [|by apply fail_safe]. set (r1 := with_job r j).
  assert (Hend : forall r' x s', run_budget r' = MkBudget 0 0 0 -> run_commit r' = None -> safe (MkCtx h (Some (e, r')) []) (MkCtx h None []) s' (complete env e r' x false) any).
  { intros r' x s' Hb' Hn'. apply complete_safe. intros _ z _. unfold growth_ok. by rewrite Hb', Hn'. }
  apply (safely_rehold e r r1); [done|]. cbv zeta. destruct (negb (bool_decide (jstatus (outcome j) = ok))) eqn:Hj.
  - apply negb_true_iff, bool_decide_eq_false in Hj. destruct (incoming (job_q r1)) as [d|]; [|by apply Hend]. set (r2 := with_job r1 (only_metadata j)).
    destruct (jstatus (outcome j)) eqn:Est; try (by apply Hend). apply (safely_rehold e r1 r2); [done|]. destruct (encode_delivery_ack _ _); [by apply Hend|by apply fail_safe].
  - eapply safely_bind_any; [destruct (jmetadata _); [apply safely_modify_end; [by apply (touch_moves e (fun y => with_owner_key y _))|done]|by apply safely_done]|]. intros s1. apply safely_state. destruct (negb (guard_ok env r1)); [by apply fail_safe|].
    set (r2 := with_job r1 _). apply (safely_rehold e r1 r2); [done|]. destruct (_ <=? _)%Z; [by apply fail_safe|]. set (allowed := match policy_of _ _ with Some _ => _ | None => _ end).
    set (r3 := if _ && _ && _ then _ else r2). assert (Hw : same_weights r2 r3 /\ run_budget r3 = MkBudget 0 0 0 /\ run_commit r3 = None) by (unfold r3; by destruct (_ && _ && _)).
    destruct Hw as (Hw & Hb3 & Hn3). apply (safely_rehold e r2 r3); [done|]. clearbody r3. destruct (_ && _ && _); [by apply fail_safe|]. destruct (_ && _); [by apply fail_safe|]. destruct (replay (plan j)).
    + eapply safely_modify; [apply replayed_moves|]. by apply Hend.
    + by apply admit_run_safe.
Qed.

Lemma commit_done_safe e job x h s : safe (MkCtx h None []) (MkCtx h None []) s (commit_done env e job x) any.
Proof.
  apply safely_state. destruct (active s !! e) as [r|] eqn:Hr; [|by apply safely_done]. destruct (_ || _); [by apply safely_done|]. destruct (run_phase r) eqn:Hp; try (by apply safely_done). apply (safely_hold e r); [done|].
  intros (y & Hy & Hok). unfold job_ok in Hok. rewrite Hp in Hok. destruct x as [[]|].
  - apply complete_safe. intros _ z Hz. assert (z = y) as -> by congruence. exact Hok.
  - cbv zeta. by eapply fail_same.
  - by apply complete_safe.
Qed.

(** The front request of a mailbox becomes a job. *)
Lemma acquire_moves h a s e y r q n id : slots s !! e = Some y -> queue y = r :: q -> busy y = false -> (admission_serial n, drain_serial n, method_serial n) = (admission_serial (serials s), drain_serial (serials s), method_serial (serials s)) ->
  moves (MkCtx h None a) (MkCtx h None a) s
    (with_slots (with_running (with_serials s n) (<[e := MkRunning id r acquiring (new_job (rq r)) (MkBudget 0 0 0) None [] false None None false false]> (active s))) (<[e := with_queue y q true (releasing y)]> (slots s))).
Proof.
  intros Hy Hq Hb [= N1 N2 N3]. set (j := MkRunning _ _ _ _ _ _ _ _ _ _ _ _). set (z := with_queue _ _ _ _). apply safely_inv_moves. intros [I1 _ _ _]. cbn [view in_hand aside] in I1.
  destruct (idle_tables _ _ _ _ _ I1 Hy Hb) as [Ha Hr]. assert (Ht : forall f : Request -> N, lsum f (queue y) = f r + lsum f (queue z)) by (intros f; by rewrite Hq).
  apply (moves_by _ _ _ _ (fun w => slot_weight w y) (fun w => slot_weight w z + of_job w j)); try done; cbn [view in_hand hand aside].
  - intros _ w. pose proof (total_slot w s e y z Hy) as E1. pose proof (total_new_job w s e j Ha) as E2. revert E1 E2. unfold total. cbn. lia.
  - weigh. rewrite Ht. intros; lia.
  - weigh. rewrite Ht. cbn [run_request j]. intros; lia.
  - weigh. rewrite Ht. cbn [run_budget resident j]. intros; lia.
  - weigh. rewrite Ht. change (cache z) with (cache y). cbn [run_budget cache_growth j]. intros; lia.
  - intros f. weigh. rewrite Ht. cbn [run_request j]. lia.
  - intros _. apply (shape_turn _ _ _ _ _ e y z I1); try done; cbn.
    + intros m Hm. by rewrite lookup_insert_ne.
    + rewrite lookup_insert_eq, Hr. destruct (sh_slots _ _ _ I1 _ _ Hy) as [_ Hm]. unfold mode_ok in *. rewrite Ha, Hr, Hq in Hm. destruct Hm as [_ Hm]. cbn. split; [done|]. change (job_q j) with (rq r). destruct Hm as [[Hrel Hno]|(Hrel & c & E & Hc)].
      * apply Forall_cons in Hno as [-> Hno]. done.
      * injection E as -> ->. by rewrite Hc.
    + rewrite lookup_insert_eq. intros x [= <-] _. done.
  - intros [_ _ I3 _]. eapply within_less; [exact I3|..]; cbn; try done. by rewrite (size_replace _ _ y).
  - by apply (closed_slot _ _ _ Hy).
Qed.

Lemma acquire_safe e h a s : (forall y, slots s !! e = Some y -> busy y = false) -> safe (MkCtx h None a) (MkCtx h None a) s (acquire env e) any.
Proof.
  intros Hb. apply safely_state. destruct (slots s !! e) as [y|] eqn:Hy; [|by apply safely_done]. destruct (queue y) as [|r q] eqn:Hq; [by apply safely_done|]. destruct (negb _); [by apply safely_done|]. cbv zeta. unfold keep.
  do 2 apply safely_modify_seq. eapply safely_modify; [|by apply safely_emit_end]. refine (acquire_moves h a s e y r q _ _ Hy Hq (Hb y eq_refl) _). done.
Qed.

(** ** Inside a transaction *)

Lemma timer_job_running e s r : timer_job e s = Ok r -> active s !! e = Some r /\ exists steps n st, run_phase r = executing steps n st.
Proof.
  unfold timer_job. destruct (active s !! e) as [r'|]; [|done]. destruct (run_phase r') as [|steps n st|] eqn:Hp; try done. destruct (jmetadata _); [|done]. destruct (_ || _); [done|]. intros [= <-]. eauto.
Qed.

Lemma apply_timers_safe e r t h s : active s !! e = Some r -> (exists steps n st, run_phase r = executing steps n st) -> safe (MkCtx h None []) (MkCtx h None []) s (apply_timers e r t) any.
Proof.
  intros Hr (steps & n & st & Hp). apply safely_state. destruct (publish_timers _ _ _ _) as [[r' g]|] eqn:Ep; [|by apply safely_ret]. apply publish_timers_grown in Ep as (Hj & Hre & Hg & Hp' & Hn).
  apply (safely_hold e r); [done|]. intros (y & Hy & Hok). unfold job_ok in Hok. rewrite Hp in Hok. eapply (safely_charge e r r'); try done. intros s' Es _. eapply safely_bind_any; [|intros s''; by apply safely_ret].
  apply keep_safe. intros x _. unfold job_ok. rewrite Hp', Hp, Hg. done.
Qed.

Lemma schedule_timer_safe type id spec h s : safe (MkCtx h None []) (MkCtx h None []) s (schedule_timer env type id spec) any.
Proof.
  apply safely_state. cbv zeta. destruct (timer_job _ s) as [r|] eqn:Ht; [|by apply safely_ret]. apply timer_job_running in Ht as [Hr Hp]. destruct (_ || _); [by apply safely_ret|]. destruct (negb _); [by apply safely_ret|].
  destruct (_ =? _); [by apply safely_ret|]. eapply safely_bind; [by apply apply_timers_safe|]. intros x s' _ _ _ _. by apply safely_ret.
Qed.

Lemma cancel_timer_safe type id key h s : safe (MkCtx h None []) (MkCtx h None []) s (cancel_timer type id key) any.
Proof.
  apply safely_state. cbv zeta. destruct (timer_job _ s) as [r|] eqn:Ht; [|by apply safely_ret]. apply timer_job_running in Ht as [Hr Hp]. destruct (negb _); [by apply safely_ret|].
  eapply safely_bind; [by apply apply_timers_safe|]. intros x s' _ _ _ _. by apply safely_ret.
Qed.

Lemma submitted_safe n e job h j a s : safe (MkCtx (user n :: h) j a) (MkCtx h j a) s (emit (send_submitted n e job)) any.
Proof.
  intros Hi. destruct (spend_run (user n) h j a s n (status ok) (fun _ => eq_refl) (fun _ => eq_refl) Hi) as [J1 [T1 T2 T3 T4 T5]]. split_and!; [done| |done]. by constructor.
Qed.

Lemma send_entity_safe st si type id method payload n h s : safe (MkCtx (user n :: h) None []) (MkCtx h None []) s (send_entity env st si type id method payload n) any.
Proof.
  apply safely_state. cbv zeta. destruct (active s !! _) as [r|]; [|apply reply_safe]. destruct (run_phase r); [..|apply reply_safe].
  all: destruct (_ || _); [apply reply_safe|]; destruct (bind _ _); [|apply reply_safe]; destruct (_ || _); [apply reply_safe|]; destruct (e_accepts env _); [apply submitted_safe|apply reply_safe].
Qed.

Lemma stage_message_fits l source type id method payload epoch free d d' g t : stage_message SHA256 l source type id method payload epoch free d = Ok (Some (d', g, t)) -> g <= free.
Proof.
  unfold stage_message. destruct (delivery_channel _ _ _); [|done]. cbn [bind]. destruct (_ && _); [done|]. destruct (_ =? _); [done|]. destruct (delivery_ticket _ _); [|done]. cbn [bind].
  destruct (delivery_charge _); [|done]. cbn [bind]. destruct (_ || _); [done|]. do 2 (destruct (encode_delivery_state _); [|done]; cbn [bind]). destruct (free <? _) eqn:Hf; [done|]. apply N.ltb_ge in Hf. by intros [= _ <- _].
Qed.

Lemma send_done_safe e job source id method payload x n h s : safe (MkCtx (user n :: h) None []) (MkCtx h None []) s (send_done SHA256 e job source id method payload x n) any.
Proof.
  apply safely_state. destruct (active s !! e) as [r|] eqn:Hr; [|apply reply_safe]. destruct (run_phase r) as [|steps k st|] eqn:Hp; try apply reply_safe. destruct (_ || _); [apply reply_safe|].
  destruct x as [[[stt type] epoch]|]; [|apply reply_safe]. destruct (negb _); [apply reply_safe|]. cbv zeta. destruct (stage_message _ _ _ _ _ _ _ _ _ _) as [[[[d g] t]|]|] eqn:Es; try apply reply_safe.
  apply stage_message_fits in Es. apply (safely_hold e r); [done|]. intros (y & Hy & Hok). unfold job_ok in Hok. rewrite Hp in Hok. set (r' := with_image _ _). eapply (safely_charge e r r'); try done. intros s' Hs' _.
  eapply safely_bind_any; [|intros s''; apply reply_safe]. apply keep_safe. intros z _. unfold job_ok. cbn [run_phase r' with_image with_job with_budget]. rewrite Hp. exact Hok.
Qed.

Lemma forget_safe e t h s : safe (MkCtx h None []) (MkCtx h None []) s (forget e t) any.
Proof.
  apply safely_state. destruct (active s !! e) as [r|] eqn:Hr; [|by apply safely_ret]. destruct (run_phase r) as [|steps k st|] eqn:Hp; try (by apply safely_ret). cbv zeta. destruct (forget_delivery _ _); [|by apply safely_ret].
  apply (safely_hold e r); [done|]. intros (y & Hy & Hok). unfold job_ok in Hok. rewrite Hp in Hok. set (r' := with_image _ _). apply (safely_rehold e r r'); [done|]. eapply safely_bind_any; [|intros s'; by apply safely_ret].
  apply keep_safe. intros z _. unfold job_ok. cbn [run_phase r' with_image with_job]. rewrite Hp. exact Hok.
Qed.
End Runs.

(** * The entity host: polling and stopping

    [poll] and [stop] keep the invariant: late admissions, executions and requests are answered,
    the schedule is walked; a host that stops answers everything it holds and keeps nothing. *)

(** ** What an action leaves alone *)

Definition keeps {A X} (f : Host -> X) (m : act A) : Prop := forall s, f (m s).1.2 = f s.

Lemma keeps_bind {A B X} (f : Host -> X) (m : act A) (k : A -> act B) : keeps f m -> (forall a, keeps f (k a)) -> keeps f (m ≫= k).
Proof. intros Hm Hk s. specialize (Hm s). unfold mbind, act_bind. destruct (m s) as [[a s1] o1]. specialize (Hk a s1). destruct (k a s1) as [[b s2] o2]. cbn in *. congruence. Qed.

Lemma keeps_state {B X} (f : Host -> X) (k : Host -> act B) : (forall s, keeps f (k s)) -> keeps f (state ≫= k).
Proof. intros Hk. by apply keeps_bind. Qed.

Lemma keeps_modify {X} (f : Host -> X) g : (forall s, f (g s) = f s) -> keeps f (modify g).
Proof. intros H s. apply H. Qed.

(** The state an action leaves. *)
Lemma after_state {B} (k : Host -> act B) s : ((state ≫= k) s).1.2 = (k s s).1.2.
Proof. unfold mbind, act_bind, state. by destruct (k s s) as [[b s2] o2]. Qed.

Lemma after_modify {B} g (k : unit -> act B) s : ((modify g ≫= k) s).1.2 = (k tt (g s)).1.2.
Proof. unfold mbind, act_bind, modify. by destruct (k tt (g s)) as [[b s2] o2]. Qed.

Ltac keep_step :=
  lazymatch goal with
  | |- keeps _ (state ≫= _) => apply keeps_state; intros ?
  | |- keeps _ (_ ≫= _) => apply keeps_bind; [|intros ?]
  | |- keeps _ (modify _) => apply keeps_modify; intros ?; try done
  | |- keeps _ (emit _) => done
  | |- keeps _ done => done
  | |- keeps _ (mret _) => done
  | |- keeps _ (match ?x with _ => _ end) => destruct x
  end.

Lemma lsum_perm {A} (f : A -> N) l l' : l ≡ₚ l' -> lsum f l = lsum f l'.
Proof. induction 1; rewrite ?lsum_cons; lia. Qed.

(** The order of the replies in hand does not matter. *)
Lemma hand_perm h h' j a s : h ≡ₚ h' -> inv (MkCtx h j a) s -> inv (MkCtx h' j a) s /\ forall n, debt n h (view (MkCtx h j a) s) = debt n h' (view (MkCtx h' j a) s).
Proof.
  intros Hp [I1 I2 I3 I4]. pose proof (fun f : Reply -> N => lsum_perm f _ _ Hp) as P.
  split; [constructor; try done|intros n; unfold debt; by rewrite P]. intros d. destruct (I4 d) as [E1 E2]. cbn [hand] in *. rewrite P in E1. done.
Qed.

Section Poll.
Context (SHA256 : bytes -> bytes) (env : Env).

(** The jobs and releases under way. *)
Definition under_way (s : Host) := (active s, releases s).

Lemma say_keeps {X} (f : Host -> X) r x : (forall s m, f (with_drains s m) = f s) -> keeps f (say r x).
Proof. intros Hf. destruct r; cbn [say]; repeat keep_step; try done. Qed.

Lemma erase_keeps e : keeps under_way (erase_slot e).
Proof. unfold erase_slot. repeat keep_step. Qed.

Lemma open_slot_keeps e type id : keeps under_way (open_slot env e type id).
Proof. unfold open_slot. cbv zeta. repeat keep_step. Qed.

Lemma enqueue_keeps c : keeps under_way (enqueue SHA256 env c).
Proof.
  assert (Hs : forall x, keeps under_way (say (creply c) x)) by (intros; by apply say_keeps). unfold enqueue. cbv zeta. repeat first [keep_step|apply Hs|apply open_slot_keeps].
Qed.

Lemma server_call_keeps route id p reply who : keeps under_way (server_call SHA256 env route id p reply who).
Proof. unfold server_call. destruct (entity_message id p []); [apply enqueue_keeps|by apply say_keeps]. Qed.

(** A job that ends leaves the table, the others stay. *)
Lemma complete_active e r x u s : active (complete env e r x u s).1.2 = delete e (active s).
Proof.
  unfold complete. rewrite after_state. cbv zeta. rewrite !after_modify.
  match goal with |- active (?m ?s0).1.2 = _ => assert (Hk : keeps under_way m) end.
  { unfold invalidate. repeat first [keep_step|apply erase_keeps|by apply say_keeps]. }
  match goal with |- active (?m ?s0).1.2 = _ => specialize (Hk s0) end. apply (f_equal fst) in Hk. etransitivity; [exact Hk|]. cbn. by destruct (run_dirty r && _).
Qed.

(** ** Expiry *)

Lemma finish_late_safe (l : list (N * Admission)) h : forall s,
  safe (MkCtx h None []) (MkCtx h None []) s (for_each (fun e => if (adeadline e.2 <=? e_now env)%Z then finish SHA256 env e.1 (status timeout) else done) l) any.
Proof. induction l as [|e l IH]; intros s; cbn [for_each]; [by apply safely_done|]. eapply safely_bind_any; [|done]. destruct (_ <=? _)%Z; [apply host_finish_safe|by apply safely_done]. Qed.

(** Jobs of the table are ended one after the other. *)
Lemma complete_all_safe (p : bytes * Running -> bool) x (l : list (bytes * Running)) h : rstatus x <> ok -> forall s, NoDup l.*1 -> Forall (fun e => active s !! e.1 = Some e.2) l ->
  safe (MkCtx h None []) (MkCtx h None []) s (for_each (fun e => if p e then complete env e.1 e.2 x false else done) l)
    (fun _ s' => forall e r, active s' !! e = Some r -> active s !! e = Some r /\ ((e, r) ∈ l -> p (e, r) = false)).
Proof.
  intros Hx. induction l as [|[e r] l IH]; intros s Hd Hl; cbn [for_each].
  { apply safely_done. intros e r He. split; [done|]. by intros ?%elem_of_nil. }
  apply Forall_cons in Hl as [He Hl]. cbn in Hd, He. apply NoDup_cons in Hd as [Hn Hd]. cbn [fst snd].
  eapply safely_bind with (mid := fun _ s' => active s' = if p (e, r) then delete e (active s) else active s).
  - destruct (p (e, r)); [|by apply safely_done]. apply (safely_hold e r); [done|]. intros _ Hi. pose proof (complete_safe env h s e r x false (fun E => match Hx E with end) Hi) as Hc. pose proof (complete_active e r x false s) as Ha.
    destruct (complete env e r x false s) as [[u s'] outs]. by destruct Hc as (? & ? & _).
  - intros [] s1 _ _ _ E1. eapply safely_post; [|apply IH]; [|done|].
    + intros u s2 H2 e' r' He'. destruct (H2 e' r' He') as [H3 H4]. rewrite E1 in H3. destruct (p (e, r)) eqn:Hp.
      * apply lookup_delete_Some in H3 as [Hne H3]. split; [done|]. intros [E|Hin]%elem_of_cons; [congruence|auto].
      * split; [done|]. intros [E|Hin]%elem_of_cons; [by rewrite E|auto].
    + rewrite Forall_forall in Hl |- *. intros [e' r'] Hin. specialize (Hl _ Hin). cbn in *. rewrite E1. destruct (p (e, r)); [|done]. rewrite lookup_delete_ne; [done|]. intros <-. apply Hn. rewrite list_elem_of_fmap. by exists (e, r').
Qed.

Lemma jobs_of_table (m : gmap bytes Running) : NoDup (map_to_list m).*1 /\ Forall (fun e => m !! e.1 = Some e.2) (map_to_list m).
Proof. split; [apply NoDup_fst_map_to_list|]. rewrite Forall_forall. intros [e r]. apply elem_of_map_to_list. Qed.

(** Requests that leave their mailbox unanswered. *)
Lemma drop_requests (l : list Request) s : exists k, for_each drop_request l s = (tt, with_counters s k, []) /\ pending k = pending (counters s) - N.of_nat (length l) /\
  queued k = queued (counters s) - lsum rbytes l /\ (state_bytes k, transient_bytes k) = (state_bytes (counters s), transient_bytes (counters s)).
Proof.
  revert s. induction l as [|r l IH]; intros s; cbn [for_each].
  - exists (counters s). split_and!; [by destruct s|cbn; lia|cbn; lia|done].
  - unfold mbind, act_bind, drop_request at 1, modify. destruct (IH (with_counters s (count_failed (with_pending (counters s) (pending (counters s) - 1) (queued (counters s) - rbytes r))))) as (k & E & K1 & K2 & K3).
    rewrite E. exists k. split_and!; [done|rewrite K1; cbn; lia|rewrite K2, lsum_cons; cbn; lia|exact K3].
Qed.

Lemma lsum_map {A B} (f : B -> N) (g : A -> B) l : lsum f (map g l) = lsum (fun a => f (g a)) l.
Proof. induction l as [|x l IH]; [done|]. cbn [map]. by rewrite !lsum_cons, IH. Qed.

Lemma lsum_zero {A} (l : list A) : lsum (fun _ => 0) l = 0.
Proof. induction l as [|x l IH]; [done|]. by rewrite lsum_cons, IH. Qed.

Lemma lsum_one {A} (l : list A) : lsum (fun _ => 1) l = N.of_nat (length l).
Proof. induction l as [|x l IH]; [done|]. rewrite lsum_cons, IH. cbn. lia. Qed.

(** Some requests of a mailbox, [late], leave it for the hand; [kept] stay. *)
Lemma leave_moves h a s e x late kept rel k : slots s !! e = Some x -> (forall f : Request -> N, lsum f (queue x) = lsum f late + lsum f kept) ->
  mode_ok (with_queue x kept (busy x) rel) (active s !! e) (releases s !! e) ->
  pending k = pending (counters s) - N.of_nat (length late) -> queued k = queued (counters s) - lsum rbytes late -> (state_bytes k, transient_bytes k) = (state_bytes (counters s), transient_bytes (counters s)) ->
  moves (MkCtx h None a) (MkCtx (map rreply late ++ h) None a) s (with_counters (with_slots s (<[e := with_queue x kept (busy x) rel]> (slots s))) k).
Proof.
  intros Hx Hl Hm K1 K2 [= K3 K4]. set (y := with_queue _ _ _ _) in *. assert (Hk : forall f : Request -> N, lsum f (queue x) = lsum f late + lsum f (queue y)) by exact Hl.
  apply (moves_by _ _ _ _ (fun w => slot_weight w x) (fun w => slot_weight w y)); try done; cbn [view in_hand hand aside].
  - intros _ w. apply (total_slot w s e x y Hx).
  - weigh. rewrite Hk, K1, lsum_one. intros; lia.
  - weigh. rewrite Hk, K2. intros; lia.
  - weigh. rewrite Hk, K3, !lsum_zero. intros; lia.
  - weigh. rewrite Hk, K4, !lsum_zero. change (cache y) with (cache x). intros; lia.
  - intros f. weigh. rewrite Hk, lsum_app, lsum_map. lia.
  - intros [I1 _ _ _]. cut (shape None a (with_slots s (<[e := y]> (slots s)))); [intros []; by constructor|]. by apply (shape_slot _ _ s _ x).
  - intros [_ _ I3 _]. eapply within_less; [exact I3|..]; cbn; rewrite ?K1, ?K2, ?K3, ?K4; try done; try lia. by rewrite (size_replace _ _ x).
  - by apply (closed_slot _ _ _ Hx).
Qed.

Definition late_of (l : list (bytes * Slot)) : list Request := flat_map (fun e => List.filter (overdue env) (queue e.2)) l.

Lemma no_control_filter (p : Request -> bool) l : no_control l -> no_control (List.filter p l) /\ existsb (fun r => is_control (rq r)) l = false.
Proof.
  intros H. induction H as [|r l Hr _ [IH1 IH2]]; [by split; [constructor|]|]. cbn. rewrite Hr. split; [|done]. destruct (p r); [by constructor|done].
Qed.

(** A mailbox without its late requests. *)
Lemma expired_mode x j released : mode_ok x j released ->
  mode_ok (with_queue x (List.filter (fun r => negb (overdue env r)) (queue x)) (busy x) (releasing x && negb (existsb (fun r => is_control (rq r)) (List.filter (overdue env) (queue x))))) j released.
Proof.
  unfold mode_ok. cbn [busy releasing queue with_queue]. destruct released, j as [j|]; try done.
  - intros (H1 & H2 & H3). by rewrite H2, H3.
  - intros [H1 H2]. split; [done|]. destruct (is_control (job_q j)).
    + destruct H2 as [H2 H3]. by rewrite H2, H3.
    + destruct H2 as [H2 H3]. rewrite H2. split; [done|]. by apply no_control_filter.
  - intros [H1 H2]. split; [done|]. destruct H2 as [[H2 H3]|(H2 & c & H3 & Hc)]; rewrite H2.
    + left. split; [done|]. by apply no_control_filter.
    + rewrite H3. cbn. destruct (overdue env c); cbn; rewrite ?Hc; cbn; [left; by split; [|constructor]|right; eauto].
Qed.

Lemma expire_slot_run h a s e x : slots s !! e = Some x -> inv (MkCtx h None a) s -> exists s', expire_slot env (e, x) s = (List.filter (overdue env) (queue x), s', []) /\
  inv (MkCtx (map rreply (List.filter (overdue env) (queue x)) ++ h) None a) s' /\ trans (MkCtx h None a) (MkCtx (map rreply (List.filter (overdue env) (queue x)) ++ h) None a) s s' [] /\
  slots s' = <[e := with_queue x (List.filter (fun r => negb (overdue env r)) (queue x)) (busy x) (releasing x && negb (existsb (fun r => is_control (rq r)) (List.filter (overdue env) (queue x))))]> (slots s).
Proof.
  intros Hx Hi. set (late := List.filter (overdue env) (queue x)). unfold expire_slot, mbind, act_bind, modify. cbn [fst snd]. fold late. set (y := with_queue _ _ _ _).
  destruct (drop_requests late (with_slots s (<[e := y]> (slots s)))) as (k & E & K1 & K2 & K3). rewrite E. exists (with_counters (with_slots s (<[e := y]> (slots s))) k). split; [done|].
  assert (M : moves (MkCtx h None a) (MkCtx (map rreply late ++ h) None a) s (with_counters (with_slots s (<[e := y]> (slots s))) k)).
  { apply leave_moves; try done.
    - intros f. pose proof (lsum_split f (overdue env) (queue x)). unfold late. lia.
    - apply expired_mode. destruct Hi as [I1 _ _ _]. by destruct (sh_slots _ _ _ I1 _ _ Hx). }
  destruct (M Hi). done.
Qed.

Lemma expire_slots_run a (l : list (bytes * Slot)) : forall h s, NoDup l.*1 -> Forall (fun e => slots s !! e.1 = Some e.2) l -> inv (MkCtx h None a) s ->
  exists s', expire_slots env l s = (late_of l, s', []) /\ inv (MkCtx (map rreply (late_of l) ++ h) None a) s' /\ trans (MkCtx h None a) (MkCtx (map rreply (late_of l) ++ h) None a) s s' [].
Proof.
  induction l as [|[e x] l IH]; intros h s Hd Hl Hi; cbn [expire_slots]; [by exists s; split_and!; [|done|apply moved_refl]|].
  apply Forall_cons in Hl as [He Hl]. cbn in Hd, He. apply NoDup_cons in Hd as [Hn Hd]. destruct (expire_slot_run h a s e x He Hi) as (s1 & E1 & I1 & T1 & S1).
  destruct (IH (map rreply (List.filter (overdue env) (queue x)) ++ h) s1 Hd) as (s2 & E2 & I2 & T2); [|done|].
  { rewrite Forall_forall in Hl |- *. intros [e' x'] Hin. specialize (Hl _ Hin). cbn in *. rewrite S1, lookup_insert_ne; [done|]. intros <-. apply Hn. rewrite list_elem_of_fmap. by exists (e, x'). }
  exists s2. unfold mbind, act_bind. rewrite E1, E2. cbn [mret act_ret app]. split; [done|]. unfold late_of in *. cbn [flat_map snd]. rewrite map_app.
  set (m1 := map rreply (List.filter (overdue env) (queue x))) in *. set (m2 := map rreply (flat_map _ l)) in *. assert (Hp : m2 ++ m1 ++ h ≡ₚ (m1 ++ m2) ++ h) by (by rewrite app_assoc, (Permutation_app_comm m2)).
  destruct (hand_perm _ _ None a s2 Hp I2) as [I3 D3].
  split; [done|]. pose proof (moved_trans _ _ _ _ _ _ [] [] T1 T2) as [T3 T4 T5 T6 T7]. constructor; try done. intros n. rewrite T3, D3. done.
Qed.

(** The replies in hand are called. *)
Lemma say_all_safe {A} (f : A -> Reply) x (l : list A) h a : forall s, safe (MkCtx (map f l ++ h) None a) (MkCtx h None a) s (for_each (fun r => say (f r) x) l) (fun _ s' => same_but_drains s s').
Proof.
  induction l as [|r l IH]; intros s; cbn [for_each map app]; [apply safely_done, same_drains|]. eapply safely_bind; [apply say_safe|]. intros [] s1 _ _ _ [m1 ->]. eapply safely_post, IH. intros u s2 [m2 ->]. by exists m2.
Qed.

Lemma slots_of_table (m : gmap bytes Slot) : NoDup (map_to_list m).*1 /\ Forall (fun e => m !! e.1 = Some e.2) (map_to_list m).
Proof. split; [apply NoDup_fst_map_to_list|]. rewrite Forall_forall. intros [e r]. apply elem_of_map_to_list. Qed.

Lemma expire_safe s : safe rest rest s (expire SHA256 env) any.
Proof.
  apply safely_state. eapply safely_bind_any; [apply finish_late_safe|]. intros s1. apply safely_state. destruct (jobs_of_table (active s1)) as [J1 J2].
  eapply safely_bind_any; [eapply safely_any; by apply (complete_all_safe (fun e => late_run env e.2) (status timeout) _ [] ltac:(done) s1 J1 J2)|]. intros s2. apply safely_state.
  destruct (slots_of_table (slots s2)) as [K1 K2]. intros Hi. destruct (expire_slots_run [] _ [] s2 K1 K2 Hi) as (s3 & E & I3 & T3).
  pose proof (say_all_safe rreply (status timeout) (late_of (map_to_list (slots s2))) [] [] s3 I3) as Hs. unfold mbind, act_bind. rewrite E. destruct (for_each _ _ s3) as [[u s4] o4]. destruct Hs as (I4 & T4 & _).
  split_and!; [done| |done]. exact (moved_trans _ _ _ _ _ _ [] _ T3 T4).
Qed.

(** ** The schedule *)

(** Nobody waits. *)
Lemma safely_nobody {A} h j a c' s (m : act A) post : safe (MkCtx (nobody :: h) j a) c' s m post -> safe (MkCtx h j a) c' s m post.
Proof.
  intros Hs [I1 I2 I3 I4]. assert (Hi : inv (MkCtx (nobody :: h) j a) s) by (constructor; done).
  specialize (Hs Hi). destruct (m s) as [[y s'] outs]. destruct Hs as (J1 & [T1 T2 T3 T4 T5] & J3). by split_and!.
Qed.

(** An entity with nothing under way is not busy. *)
Definition resting (e : bytes) (s : Host) : Prop := active s !! e = None /\ releases s !! e = None.

Lemma resting_busy h a s e : inv (MkCtx h None a) s -> resting e s -> forall y, slots s !! e = Some y -> busy y = false.
Proof.
  intros [I1 _ _ _] [Ha Hr] y Hy. destruct (sh_slots _ _ _ I1 _ _ Hy) as [_ Hm]. cbn in Hm. rewrite Ha, Hr in Hm. by destruct Hm.
Qed.

Lemma poll_front_safe e s : resting e s -> safe rest rest s (poll_front env e) any.
Proof.
  intros Hr. apply safely_inv. intros Hi. pose proof (resting_busy _ _ _ _ Hi Hr) as Hb. apply safely_state. destruct (slots s !! e) as [x|] eqn:Hx; [|by apply safely_ret].
  destruct (queue x) as [|r q] eqn:Hq; [by apply safely_ret|]. eapply safely_bind_any; [|intros s'; by apply safely_ret]. destruct (overdue env r); [|apply acquire_safe; rewrite Hx; done].
  unfold drop_request. apply safely_modify_seq. eapply safely_modify with (c1 := MkCtx [rreply r] None []); [|eapply safely_any, say_safe].
  eapply (leave_moves [] [] s e x [r] q); try done; [intros f; rewrite Hq, !lsum_cons; change (lsum f []) with 0; lia| |cbn [lsum foldr]; by rewrite N.add_0_r].
  destruct Hi as [I1 _ _ _]. destruct (sh_slots _ _ _ I1 _ _ Hx) as [_ Hm]. cbn in Hm. destruct Hr as [Ha Hrel]. rewrite Ha, Hrel in *. unfold mode_ok in *. rewrite Hq in Hm. destruct Hm as [Hm1 Hm2]. split; [done|]. cbn.
  destruct Hm2 as [[Hm2 Hm3]|(Hm2 & c & [= -> ->] & Hc)].
  - left. apply Forall_cons in Hm3 as [-> Hm3]. done.
  - left. rewrite Hc. by split; [|constructor].
Qed.

Lemma poll_tick_safe e x s : resting e s -> safe rest rest s (poll_tick SHA256 env e x) (fun _ s' => resting e s').
Proof.
  intros Hr. unfold poll_tick. destruct (_ && _); [|by apply safely_done]. apply safely_state. eapply safely_bind with (mid := fun _ s' => resting e s').
  - destruct (_ && _); [|by apply safely_done]. destruct (entity_message _ _ _) as [w|]; [|by apply safely_done]. set (c := MkCall _ _ _ _ _ _ _ _ _ _ _ _ _ _ _).
    intros Hi. assert (Hs : safe rest rest s (enqueue SHA256 env c) any) by (apply safely_nobody, (host_enqueue_safe SHA256 env [] [] s c), other_idle; by apply not_control).
    specialize (Hs Hi). pose proof (enqueue_keeps c s) as Hk. destruct (enqueue SHA256 env c s) as [[u s'] outs]. cbn in Hk. destruct Hs as (? & ? & _). split_and!; [done|done|]. injection Hk as E1 E2. unfold resting. by rewrite E1, E2.
  - intros [] s1 _ _ _ Hr1. apply safely_modify_end; [|done]. by apply (touch_moves e (fun y => with_next_tick y _)).
Qed.

Lemma schedule_moves h a a' s l : l ++ a' ≡ₚ schedule s ++ a -> moves (MkCtx h None a) (MkCtx h None a') s (with_schedule s l).
Proof.
  intros Hl. apply moves_frame; try done; (intros [[H1 H2 H3 H4 H5 H6] _ [W1 W2 W3 W4 W5 W6 W7] _]; constructor; try done). cbn [view in_hand aside] in *. cbn. by rewrite Hl.
Qed.

(** The tick and the next request of an entity. *)
Lemma rest_of_poll e s : safe rest rest s (s ← state; match slots s !! e with None => mret false | Some x => if busy x then mret false else poll_tick SHA256 env e x;; poll_front env e end) any.
Proof.
  apply safely_inv. intros Hi. apply safely_state. destruct (slots s !! e) as [x|] eqn:Hx; [|by apply safely_ret]. destruct (busy x) eqn:Hb; [by apply safely_ret|].
  destruct (idle_tables _ _ _ _ _ (in_shape _ _ Hi) Hx Hb) as [Ha Hr]. eapply safely_bind; [by apply poll_tick_safe|]. intros [] s1 _ _ _ Hr1. by apply poll_front_safe.
Qed.

Lemma poll_entity_safe e s : safe (MkCtx [] None [e]) rest s (poll_entity SHA256 env e) any.
Proof.
  apply safely_inv. intros Hi. assert (He : is_Some (slots s !! e)).
  { destruct Hi as [I1 _ _ _]. pose proof (sh_schedule _ _ _ I1) as Hs. cbn [view in_hand aside] in Hs. assert (Hin : e ∈ keys (slots s)) by (rewrite <- Hs; set_solver).
    unfold keys in Hin. rewrite list_elem_of_fmap in Hin. destruct Hin as ([k x] & -> & Hin%elem_of_map_to_list). by exists x. }
  destruct He as [x Hx]. apply safely_state. rewrite Hx. cbv zeta. destruct (idle x && _) eqn:Hlong; cbn [andb].
  - apply andb_true_iff in Hlong as [Hidle _]. destruct (has_method _ s) eqn:Hm; cbn [negb].
    + eapply safely_bind with (c1 := MkCtx [] None [e]) (mid := any).
      { apply safely_nobody, server_call_safe. intros w Hw. destruct (sh_slots _ _ _ (in_shape _ _ Hi) _ _ Hx) as [(Ek & _ & _) _]. eapply (emptying_idle _ _ _ s); [exact Hi| |exact Hidle|done|by apply message_of_simple]. by rewrite <- Ek. }
      intros [] s1 _ _ _ _. eapply safely_modify; [by apply schedule_moves; rewrite app_nil_r|]. apply rest_of_poll.
    + apply safely_modify_seq. eapply safely_modify; [|by apply safely_ret]. unfold idle in Hidle. apply andb_true_iff in Hidle as [Hb%negb_true_iff Hq%is_empty_spec]. destruct (idle_tables _ _ _ _ _ (in_shape _ _ Hi) Hx Hb) as [Ha Hr].
      pose proof (forget_moves [] [e] s e x (schedule s) Hx) as M. cbn [view in_hand] in Ha, Hr. rewrite <- (with_same_schedule (with_slots _ _)). apply M; [split_and!; [done|done|congruence]|].
      pose proof (sh_schedule _ _ _ (in_shape _ _ Hi)) as Hs. cbn [view in_hand aside] in Hs. rewrite (keys_delete _ _ x Hx) in Hs. rewrite Permutation_app_comm in Hs. by apply Permutation_cons_inv in Hs.
  - apply safely_bind_any with (c1 := MkCtx [] None [e]); [by apply safely_done|]. intros s1. eapply safely_modify; [by apply schedule_moves; rewrite app_nil_r|]. apply rest_of_poll.
Qed.

Lemma poll_schedule_safe n budget : forall work s, safe rest rest s (poll_schedule SHA256 env n budget work) any.
Proof.
  induction n as [|n IH]; intros work s; cbn [poll_schedule]; [by apply safely_ret|]. apply safely_state. destruct (schedule s) as [|e l] eqn:Hs; [by apply safely_ret|]. destruct (_ || _); [by apply safely_ret|].
  eapply safely_modify with (c1 := MkCtx [] None [e]); [apply schedule_moves; rewrite Hs, app_nil_r; symmetry; apply Permutation_cons_append|]. eapply safely_bind; [apply poll_entity_safe|]. intros b s' _ _ _ _. apply IH.
Qed.

Lemma poll_safe budget work s : safe rest rest s (poll SHA256 env budget work) any.
Proof. apply safely_state. destruct (stopped _); [by apply safely_ret|]. eapply safely_bind_any; [apply expire_safe|]. intros s'. apply safely_state. apply poll_schedule_safe. Qed.

(** ** Stopping *)

Lemma complete_keeps e r x u : keeps admissions (complete env e r x u).
Proof.
  unfold complete, invalidate, erase_slot. cbv zeta. repeat first [keep_step|by apply say_keeps]. by destruct (_ && _).
Qed.

Lemma complete_each_keeps x (l : list (bytes * Running)) : keeps admissions (for_each (fun e => complete env e.1 e.2 x false) l).
Proof. induction l as [|e l IH]; cbn [for_each]; [done|]. apply keeps_bind; [apply complete_keeps|done]. Qed.

(** A change that does not look at the drains. *)
Definition blind (f : Host -> Host) : Prop := forall s m, f (with_drains s m) = with_drains (f s) m /\ drains (f s) = drains s.

Lemma say_commute r x f s : blind f -> say r x (f s) = let '(u, s1, o) := say r x s in (u, f s1, o).
Proof.
  intros Hf. destruct r; try done. cbn [say]. unfold mbind, act_bind, state, modify, emit. rewrite (proj2 (Hf s ∅)). destruct (drains s !! d) as [[[count st] n]|]; [|done]. cbv zeta.
  destruct (_ =? _); cbn [app]; by rewrite (proj2 (Hf s ∅)), (proj1 (Hf s _)).
Qed.

Lemma blind_fold {A} (F : A -> Host -> Host) l : (forall a, blind (F a)) -> blind (fun s => fold_left (fun s a => F a s) l s).
Proof.
  intros HF. induction l as [|a l IH]; intros s m; [done|]. cbn [fold_left]. destruct (HF a s m) as [E1 E2]. rewrite E1. destruct (IH (F a s) m) as [E3 E4]. by rewrite E3, E4, E2.
Qed.

(** Changes and replies by turns are the changes, then the replies. *)
Lemma loop_split {A} (F : A -> Host -> Host) (g : A -> Reply) x l : (forall a, blind (F a)) -> forall s,
  for_each (fun a => modify (F a);; say (g a) x) l s = for_each (fun a => say (g a) x) l (fold_left (fun s a => F a s) l s).
Proof.
  intros HF. induction l as [|a l IH]; intros s; [done|]. cbn [for_each fold_left]. unfold mbind, act_bind, modify. rewrite (say_commute (g a) x (fun s => fold_left (fun s a => F a s) l s) (F a s)) by (by apply blind_fold).
  destruct (say (g a) x (F a s)) as [[u s1] o1]. rewrite IH. by destruct (for_each _ l _) as [[u2 s2] o2].
Qed.

(** [n] requests of these sizes are no longer pending. *)
Definition shed (n : N) (s : Host) : Host := with_counters s (with_pending (counters s) (pending (counters s) - 1) (queued (counters s) - n)).

Lemma shed_blind n : blind (shed n).
Proof. done. Qed.

Lemma shed_all {A} (f : A -> N) l s : exists k, fold_left (fun s a => shed (f a) s) l s = with_counters s k /\ pending k = pending (counters s) - N.of_nat (length l) /\ queued k = queued (counters s) - lsum f l /\
  (state_bytes k, transient_bytes k) = (state_bytes (counters s), transient_bytes (counters s)).
Proof.
  revert s. induction l as [|a l IH]; intros s; cbn [fold_left].
  - exists (counters s). split_and!; [by destruct s|cbn; lia|cbn; lia|done].
  - destruct (IH (shed (f a) s)) as (k & E & K1 & K2 & K3). exists k. rewrite E. split_and!; [done|rewrite K1; cbn; lia|rewrite K2, lsum_cons; cbn; lia|exact K3].
Qed.

Lemma says_commute {A} (g : A -> Reply) x l f s : blind f -> for_each (fun a => say (g a) x) l (f s) = let '(u, s1, o) := for_each (fun a => say (g a) x) l s in (u, f s1, o).
Proof.
  intros Hf. revert s. induction l as [|a l IH]; intros s; [done|]. cbn [for_each]. unfold mbind, act_bind. rewrite say_commute by done. destruct (say (g a) x s) as [[u s1] o1]. rewrite IH. by destruct (for_each _ l s1) as [[u2 s2] o2].
Qed.

(** A stopped host answers an admission at once. *)
Lemma answer_stopped r s : stopped (flags s) = true -> answer SHA256 env r (status disconnected) s = say (as_reply r) (status disconnected) s.
Proof. intros Hs. destruct r; [done|]. cbn [answer as_reply say]. unfold mbind, act_bind, state. rewrite Hs. done. Qed.

Lemma answers_stopped (l : list (N * Admission)) : forall s, stopped (flags s) = true ->
  for_each (fun e => modify (shed (abytes e.2));; answer SHA256 env (areply e.2) (status disconnected)) l s =
  for_each (fun e => modify (shed (abytes e.2));; say (as_reply (areply e.2)) (status disconnected)) l s.
Proof.
  induction l as [|e l IH]; intros s Hs; [done|]. cbn [for_each]. unfold mbind, act_bind, modify. rewrite answer_stopped by done.
  pose proof (say_keeps flags (as_reply (areply e.2)) (status disconnected) (fun _ _ => eq_refl) (shed (abytes e.2) s)) as Hk. destruct (say _ _ _) as [[u s1] o1]. cbn in Hk. rewrite IH by (by rewrite Hk). done.
Qed.

(** The admissions leave for the hand. *)
Lemma close_admissions h s k : let l := map_to_list (admissions s) in
  pending k = pending (counters s) - N.of_nat (length l) -> queued k = queued (counters s) - lsum (fun e => abytes e.2) l -> (state_bytes k, transient_bytes k) = (state_bytes (counters s), transient_bytes (counters s)) ->
  moves (MkCtx h None []) (MkCtx (map (fun e => as_reply (areply e.2)) l ++ h) None []) s (with_counters (with_admissions s ∅) k).
Proof.
  intros l K1 K2 [= K3 K4]. assert (Hl : forall f : Admission -> N, msum f (admissions s) = lsum (fun e => f e.2) l) by (intros; apply lsum_map_to_list).
  apply (moves_by _ _ _ _ (fun w => msum (of_admission w) (admissions s)) (fun _ => 0)); try done; cbn [view in_hand hand aside].
  - intros _ w. unfold total. cbn [slots active admissions releases with_counters with_admissions]. rewrite msum_empty. lia.
  - weigh. rewrite Hl, lsum_one, K1. intros; lia.
  - weigh. rewrite Hl, K2. intros; lia.
  - weigh. rewrite Hl, lsum_zero, K3. intros; lia.
  - weigh. rewrite Hl, lsum_zero, K4. intros; lia.
  - intros f. weigh. rewrite Hl, lsum_app, lsum_map. lia.
  - intros [[H1 H2 H3 H4 H5 H6] _ _ _]. by constructor.
  - intros [_ _ I3 _]. eapply within_less; [exact I3|..]; cbn; rewrite ?K1, ?K2, ?K3, ?K4; try done; lia.
  - by intros _ [? _].
Qed.

Definition queued_in (m : gmap bytes Slot) : list Request := flat_map (fun e => queue e.2) (map_to_list m).

Lemma msum_slots (w : weight) (m : gmap bytes Slot) : msum (slot_weight w) m = msum (of_slot w) m + lsum (of_queued w) (queued_in m).
Proof.
  rewrite !lsum_map_to_list. unfold queued_in. induction (map_to_list m) as [|e l IH]; [done|]. cbn [flat_map]. rewrite !lsum_cons, lsum_app, IH. unfold slot_weight at 1. lia.
Qed.

(** The mailboxes and the releases leave for the hand. *)
Lemma close_slots h s k : active s = ∅ -> admissions s = ∅ ->
  pending k = pending (counters s) - N.of_nat (length (queued_in (slots s))) -> queued k = queued (counters s) - lsum rbytes (queued_in (slots s)) -> state_bytes k = state_bytes (counters s) -> transient_bytes k = 0 ->
  moves (MkCtx h None []) (MkCtx (map rreply (queued_in (slots s)) ++ map snd (map_to_list (releases s)) ++ h) None []) s
    (with_releases (with_counters (with_schedule (with_slots s ∅) []) k) ∅).
Proof.
  intros Ha Had K1 K2 K3 K4. apply safely_inv_moves. intros [_ [_ _ _ B4] _ _]. cbn [view in_hand] in B4.
  apply (moves_by _ _ _ _ (fun w => msum (slot_weight w) (slots s) + msum (of_release w) (releases s)) (fun _ => 0)); try done; cbn [view in_hand hand aside].
  - intros _ w. unfold total. cbn [slots active admissions releases with_counters with_slots with_schedule with_releases]. rewrite !msum_empty. lia.
  - rewrite msum_slots. weigh. rewrite !lsum_map_to_list, !lsum_zero, lsum_one, K1. intros; lia.
  - rewrite msum_slots. weigh. rewrite !lsum_map_to_list, !lsum_zero, K2. intros; lia.
  - rewrite msum_slots. weigh. rewrite !lsum_map_to_list, !lsum_zero, K3. intros; lia.
  - intros p p' E Hp. weigh. rewrite K4. revert B4 E. unfold total. rewrite Ha, Had, !msum_empty. lia.
  - intros f. rewrite msum_slots. weigh. rewrite !lsum_app, !lsum_map, !lsum_map_to_list, lsum_zero. cbn. lia.
  - intros [[H1 H2 H3 H4 H5 H6] _ _ _]. cbn in *. constructor; cbn; try done. intros e r He. by rewrite Ha in He.
  - intros [_ _ I3 _]. eapply within_less; [exact I3|..]; cbn [slots counters limits registry with_releases with_counters with_schedule with_slots]; rewrite ?K1, ?K2, ?K3, ?K4, ?map_size_empty; try done; lia.
Qed.

Lemma safely_assoc {A B C} c c' s (m : act A) (k : A -> act B) (k' : B -> act C) post : safe c c' s ((m ≫= k) ≫= k') post -> safe c c' s (m ≫= fun a => k a ≫= k') post.
Proof.
  intros H Hi. specialize (H Hi). revert H. unfold mbind, act_bind. destruct (m s) as [[a s1] o1]. destruct (k a s1) as [[b s2] o2]. destruct (k' b s2) as [[d s3] o3]. by rewrite app_assoc.
Qed.

(** What the tables hold besides the drains and the counters. *)
Definition tables (s : Host) := (slots s, active s, releases s, admissions s).

Lemma close_admissions_safe h s : stopped (flags s) = true ->
  safe (MkCtx h None []) (MkCtx h None []) s
    (modify (fun s => with_admissions s ∅);; for_each (fun e : N * Admission => modify (shed (abytes e.2));; answer SHA256 env (areply e.2) (status disconnected)) (map_to_list (admissions s)))
    (fun _ s' => tables s' = (slots s, active s, releases s, ∅)).
Proof.
  intros Hs Hi. unfold mbind at 1, act_bind at 1, modify at 1. cbv beta. rewrite answers_stopped by done. rewrite (loop_split (fun e : N * Admission => shed (abytes e.2))) by (intros; apply shed_blind).
  destruct (shed_all (fun e : N * Admission => abytes e.2) (map_to_list (admissions s)) (with_admissions s ∅)) as (k & -> & K1 & K2 & K3).
  destruct (close_admissions h s k K1 K2 K3 Hi) as [I1 T1]. pose proof (say_all_safe (fun e : N * Admission => as_reply (areply e.2)) (status disconnected) (map_to_list (admissions s)) h [] _ I1) as Hsay.
  destruct (for_each _ _ _) as [[u s'] outs]. destruct Hsay as (I2 & T2 & [m ->]). split_and!; [done| |done]. exact (moved_trans _ _ _ _ _ _ [] _ T1 T2).
Qed.

(** All the requests of the mailboxes, one list. *)
Lemma for_each_flat {A B} (f : B -> list A) (g : A -> act unit) l : forall s, for_each (fun e => for_each g (f e)) l s = for_each g (flat_map f l) s.
Proof.
  assert (Happ : forall a b s, for_each g (a ++ b) s = (for_each g a;; for_each g b) s).
  { induction a as [|x a IH]; intros b s; cbn [for_each app].
    - unfold mbind, act_bind, done, mret, act_ret. by destruct (for_each g b s) as [[[] s1] o1].
    - unfold mbind, act_bind. destruct (g x s) as [[u s1] o1]. rewrite IH. unfold mbind, act_bind. destruct (for_each g a s1) as [[u2 s2] o2]. destruct (for_each g b s2) as [[u3 s3] o3]. by rewrite app_assoc. }
  induction l as [|e l IH]; intros s; [done|]. cbn [for_each flat_map]. rewrite Happ. unfold mbind, act_bind. destruct (for_each g (f e) s) as [[u s1] o1]. by rewrite IH.
Qed.

Lemma close_slots_safe s : active s = ∅ -> admissions s = ∅ ->
  safe rest rest s
    (modify (fun s => with_slots s ∅);; modify (fun s => with_schedule s []);; modify (fun s => with_counters s (with_transient_bytes (counters s) 0));;
     for_each (fun e : bytes * Slot => for_each (fun r => modify (shed (rbytes r));; say (rreply r) (status disconnected)) (queue e.2)) (map_to_list (slots s));;
     modify (fun s => with_releases s ∅);; for_each (fun e : bytes * Reply => say e.2 (status disconnected)) (map_to_list (releases s)))
    (fun _ s' => tables s' = (∅, ∅, ∅, ∅)).
Proof.
  intros Ha Had Hi. unfold mbind at 1 2 3, act_bind at 1 2 3, modify at 1 2 3. cbv beta zeta iota. set (s1 := with_counters (with_schedule (with_slots s ∅) []) _).
  unfold mbind at 1, act_bind at 1. rewrite for_each_flat, (loop_split (fun r => shed (rbytes r)) rreply) by (intros; apply shed_blind). fold (queued_in (slots s)).
  destruct (shed_all rbytes (queued_in (slots s)) s1) as (k & -> & K1 & K2 & [= K3 K4]).
  destruct (close_slots [] s k Ha Had K1 K2 K3 K4 Hi) as [I1 T1]. change (with_counters s1 k) with (with_counters (with_schedule (with_slots s ∅) []) k). set (s2 := with_counters (with_schedule (with_slots s ∅) []) k) in *.
  pose proof (says_commute rreply (status disconnected) (queued_in (slots s)) (fun s => with_releases s ∅) s2 ltac:(done)) as E.
  pose proof (say_all_safe rreply (status disconnected) (queued_in (slots s)) (map snd (map_to_list (releases s)) ++ []) [] _ I1) as Hsay. rewrite E in Hsay. destruct (for_each _ (queued_in (slots s)) s2) as [[u3 s3] o3]. destruct Hsay as (I3 & T3 & [m3 E3]).
  unfold mbind, act_bind, modify. pose proof (say_all_safe snd (status disconnected) (map_to_list (releases s)) [] [] _ I3) as Hsay. destruct (for_each _ (map_to_list (releases s)) _) as [[u4 s4] o4]. destruct Hsay as (I4 & T4 & [m4 E4]).
  cbn [app]. split_and!; [done|exact (moved_trans _ _ _ _ _ _ [] _ T1 (moved_trans _ _ _ _ _ _ _ _ T3 T4))|]. unfold tables. rewrite E4, E3. cbn. by rewrite Ha, Had.
Qed.

(** [stop]: every reply the host holds is called, and nothing is left. *)
Lemma host_stop_run s : inv rest s -> stopped (flags s) = false ->
  let '(_, s', outs) := stop SHA256 env s in inv rest s' /\ stopped (flags s') = true /\ limits s' = limits s /\ host_owner s' = host_owner s /\ tables s' = (∅, ∅, ∅, ∅) /\ forall n, debt n [] s = told n outs + debt n [] s'.
Proof.
  intros Hi Hst. set (s1 := with_flags s (MkFlags true (draining (flags s)) (delivery_enabled (flags s)))).
  assert (Hi1 : inv rest s1) by (destruct Hi as [[H1 H2 H3 H4 H5 H6] [B1 B2 B3 B4] [W1 W2 W3 W4 W5 W6 W7] I4]; constructor; [by constructor..|done]).
  unfold stop. unfold mbind at 1, act_bind at 1, state at 1. rewrite Hst. unfold mbind at 1, act_bind at 1, modify at 1. fold s1.
  match goal with |- context [?m s1] => set (body := m) end. assert (Hs : safe rest rest s1 body (fun _ s' => tables s' = (∅, ∅, ∅, ∅))).
  { unfold body. apply safely_assoc. eapply safely_bind; [exact (close_admissions_safe [] s1 eq_refl)|]. intros [] s2 _ _ _ E2. injection E2 as S2 A2 R2 D2.
    eapply safely_modify with (c1 := rest).
    { apply moves_frame; try done; cbn; (intros [[H1 H2 H3 H4 [H5 H5'] H6] _ [W1 W2 W3 W4 W5 W6 W7] _]; by constructor). }
    set (s3 := with_registry _ _). destruct (jobs_of_table (active s3)) as [J1 J2]. change (active s3) with (active s2) in J1, J2. rewrite A2 in J1, J2.
    eapply safely_bind with (c1 := rest) (mid := fun _ s' => active s' = ∅ /\ admissions s' = ∅).
    { intros Hi3. pose proof (complete_each_keeps (status disconnected) (map_to_list (active s)) s3) as Hk.
      assert (HF : Forall (fun e => active s3 !! e.1 = Some e.2) (map_to_list (active s))) by (rewrite Forall_forall in J2 |- *; intros e He; cbn; rewrite A2; by apply J2).
      pose proof (complete_all_safe (fun _ => true) (status disconnected) (map_to_list (active s)) [] ltac:(done) s3 J1 HF Hi3) as Hc. cbv beta iota in Hc.
      destruct (for_each _ (map_to_list (active s)) s3) as [[u s4] o4]. destruct Hc as (I4 & T4 & P4).
      split_and!; [done|done| |by rewrite (Hk : admissions s4 = _)]. apply map_empty. intros e. destruct (active s4 !! e) as [r|] eqn:E; [|done]. destruct (P4 e r E) as [P5 P6]. cbn in P5. rewrite A2 in P5.
      by apply elem_of_map_to_list, P6 in P5. }
    intros [] s4 _ _ _ [A4 D4]. apply safely_state. exact (close_slots_safe s4 A4 D4). }
  specialize (Hs Hi1). destruct (body s1) as [[u s'] outs]. destruct Hs as (I' & [T1 T2 T3 T4 T5] & P'). cbn [app]. split_and!; try done.
Qed.
End Poll.
