(* ===== verification/HostSystem.v ===== *)
(** * The entity host as a system

    The events an [EntityScriptHost] meets, in any order: the calls of the application and of
    other nodes, the completions of storage jobs and of script logic, timers, polls,
    registrations and the stop.  In every run no reply is lost or called twice, the limits hold
    and a mailbox that is being emptied holds nothing else. *)

From stdpp Require Import gmap.
From S2P Require Import TimerIndex Delivery Prelude Storage MapSum OrderedMap Identity Messages MessagesCorrect Fields TimerState DeliveryState DeliveryCorrect Records Transport HostJobs Values AttributeWire Replica Schema HostAttributes Host HostMailbox HostActions HostRuns.

(** ** Registration *)

Lemma registry_moves c s g k : (forall s', serials s' = k -> registry s' = g -> methods_ok s -> methods_ok s') -> resolved_types g = resolved_types (registry s) ->
  (admission_serial k, drain_serial k) = (admission_serial (serials s), drain_serial (serials s)) -> moves c c s (with_registry (with_serials s k) g).
Proof.
  intros Hm Hr [= K1 K2]. destruct c as [h [[e r]|] a]; apply moves_frame; try done; cbn.
  all: try (intros [_ _ [W1 W2 W3 W4 W5 W6 W7] _]; constructor; cbn; rewrite ?Hr; done).
  all: intros [[H1 H2 H3 H4 H5 H6] _ _ _]; constructor; try done; [by apply Hm|cbn; by rewrite K1].
Qed.

Lemma emplace_fold (routes : list bytes) (k : N) (m : gmap bytes N) (route : bytes) (x : N) : fold_left (emplace_route k) routes m !! route = Some x -> m !! route = Some x \/ (x = k /\ route ∈ routes).
Proof.
  revert m. induction routes as [|r l IH]; intros m; cbn; [auto|]. intros [H|[-> H]]%IH; [|right; split; [done|by right]]. unfold emplace_route in H. destruct (m !! r); [auto|].
  apply lookup_insert_Some in H as [[<- <-]|[_ H]]; [|auto]. right. split; [done|by left].
Qed.

Lemma add_method_moves c s routes m : type_ok (method_type m) -> Forall (fun r => exists rest, r = method_type m ++ lit "." ++ rest) routes -> moves c c s (add_method routes m s).
Proof.
  intros Ht Hr. refine (registry_moves c s _ _ _ _ _); try done. intros s' Ek Eg [M1 M2]. unfold methods_ok. rewrite Ek, Eg. cbn [methods method_objects method_serial]. split.
  - intros route k [H|[-> H]]%emplace_fold.
    + destruct (M1 _ _ H) as (m' & rest & Hm' & ->). exists m', rest. split; [|done]. rewrite lookup_insert_ne; [done|]. apply M2 in Hm' as [Hk _]. lia.
    + rewrite Forall_forall in Hr. destruct (Hr _ H) as [rest ->]. exists m, rest. by rewrite lookup_insert_eq.
  - intros k m' [[<- <-]|[_ H]]%lookup_insert_Some; [split; [lia|done]|]. destruct (M2 _ _ H). split; [lia|done].
Qed.

Lemma moves_refl c s : moves c c s s.
Proof. intros Hi. split; [done|apply moved_refl]. Qed.

Lemma moves_trans c s1 s2 s3 : moves c c s1 s2 -> moves c c s2 s3 -> moves c c s1 s3.
Proof. intros H1 H2 Hi. destruct (H1 Hi) as [I1 T1]. destruct (H2 I1) as [I2 T2]. split; [done|]. exact (moved_trans _ _ _ _ _ _ [] [] T1 T2). Qed.

Lemma bad_type_ok t : bad_type t = false -> type_ok t.
Proof. unfold bad_type. by intros [_ ?]%orb_false_iff. Qed.

Lemma register_moves c taken route type initial policy s s' : register_stateful taken route type initial policy s = Ok s' -> moves c c s s'.
Proof.
  unfold register_stateful. destruct (_ || _) eqn:E; [done|]. cbn [bind]. destruct (existsb _ _); [done|]. cbn [bind]. apply orb_false_iff in E as [E _]. apply orb_false_iff in E as [E Hs%negb_false_iff].
  do 3 apply orb_false_iff in E as [E _]. apply orb_false_iff in E as [_ Ht%bad_type_ok]. apply starts_with_true in Hs as [rest ->]. intros [= <-].
  eapply moves_trans; [apply (add_method_moves c s [(type ++ lit ".") ++ rest] (MkMethod type initial policy (schemas (registry s) !! type))); [exact Ht|]; constructor; [exists rest; by rewrite <- app_assoc|constructor]|].
  case_match; [apply moves_refl|]. apply add_method_moves; [done|]. constructor; [by exists (lit "$snapshot")|constructor].
Qed.

Lemma define_schema_moves c type sc s s' : define_schema type sc s = Ok s' -> moves c c s s'.
Proof.
  unfold define_schema. destruct (validate sc); [|done]. cbn [bind]. destruct (_ || _) eqn:E; [done|]. cbn [bind]. apply orb_false_iff in E as [E _]. apply orb_false_iff in E as [_ Ht%bad_type_ok].
  destruct (existsb _ _); [done|]. cbn [bind]. destruct (entity_attributes sc []); [|done]. cbn [bind]. destruct (persistent _); [|done]. cbn [bind]. destruct (encode_attributes _); [|done]. cbn [bind].
  destruct (bool_decide _); [done|]. cbn [bind]. intros [= <-]. set (s1 := with_registry s _). apply (moves_trans _ _ s1).
  - replace s1 with (with_registry (with_serials s (serials s)) (registry s1)) by (by destruct s). apply registry_moves; try done. intros s2 Ek Eg [M1 M2]. unfold methods_ok. by rewrite Ek, Eg.
  - apply add_method_moves; [done|]. constructor; [by exists (lit "$snapshot")|]. constructor; [by exists (lit "$spawn")|constructor].
Qed.

(** Routes are taken away, or a policy changes. *)
Lemma fewer_routes_moves c s m o sc : (forall r k, m !! r = Some k -> methods (registry s) !! r = Some k) ->
  (forall k x, o !! k = Some x -> exists y, method_objects (registry s) !! k = Some y /\ method_type x = method_type y) -> (forall k y, method_objects (registry s) !! k = Some y -> exists x, o !! k = Some x) ->
  moves c c s (with_registry s (MkRegistry m o sc (resolved_types (registry s)))).
Proof.
  intros Hm Ho Ho'. replace (with_registry s _) with (with_registry (with_serials s (serials s)) (MkRegistry m o sc (resolved_types (registry s)))) by (by destruct s). apply registry_moves; try done.
  intros s2 Ek Eg [M1 M2]. unfold methods_ok. rewrite Ek, Eg. cbn [methods method_objects]. split.
  - intros r k H%Hm. destruct (M1 _ _ H) as (y & rest & Hy & ->). destruct (Ho' _ _ Hy) as [x Hx]. exists x, rest. split; [done|]. destruct (Ho _ _ Hx) as (y' & Hy' & ->). by assert (y' = y) as -> by congruence.
  - intros k x Hx. destruct (Ho _ _ Hx) as (y & Hy & ->). by apply M2.
Qed.

Lemma rpc_policy_moves c route p s s' : rpc_policy route p s = Ok s' -> moves c c s s'.
Proof.
  unfold rpc_policy. destruct (methods _ !! route) as [k|]; [|intros [= <-]; apply moves_refl]. destruct (method_objects _ !! k) as [m|] eqn:Hm; [|intros [= <-]; apply moves_refl].
  destruct (negb _); [done|]. cbn [bind]. intros [= <-]. apply fewer_routes_moves; try done.
  - intros j x [[<- <-]|[_ H]]%lookup_insert_Some; eauto.
  - intros j y Hy. destruct (decide (j = k)) as [->|Hne]; [rewrite lookup_insert_eq|rewrite lookup_insert_ne by done]; eauto.
Qed.

Lemma forget_schema_moves c type s : moves c c s (forget_schema type s).
Proof. apply fewer_routes_moves; eauto. intros r k [_ [_ H]%lookup_delete_Some]%lookup_delete_Some. done. Qed.

Lemma unbind_moves c route s : moves c c s (unbind route s).
Proof.
  unfold unbind. destruct (methods _ !! route) as [k|]; [|apply moves_refl]. cbv zeta. set (s1 := with_registry s _).
  assert (M : moves c c s s1) by (apply fewer_routes_moves; eauto; intros r j [_ H]%lookup_delete_Some; done).
  destruct (_ || _); [done|]. eapply moves_trans; [exact M|]. apply (fewer_routes_moves c s1); eauto. intros r j [_ H]%lookup_delete_Some. done.
Qed.

Lemma delivery_moves c b s : moves c c s (enable_delivery b s).
Proof. destruct c as [h [[e r]|] a]; apply moves_frame; try done; cbn; (intros [[H1 H2 H3 H4 H5 H6] _ [W1 W2 W3 W4 W5 W6 W7] _]; by constructor). Qed.

(** ** Events *)

Inductive event :=
  | ev_dispatch (who : CallIdentity) (data : bytes) (n : N) (deadline : option Z) | ev_call (data : bytes) (timeout_ms : Z) (n : N)
  | ev_owner_request (data : bytes) (n : N) | ev_bind_owner (type id : bytes) (c : ConnectionRef) (n : N) | ev_read_owner (type id : bytes) (n : N)
  | ev_create (type : bytes) (vs : AttributeStruct) (owner : ConnectionRef) (scope key target : bytes) (n : N)
  | ev_read (type id : bytes) (n : N) | ev_read_authorized (type id : bytes) (n : N) | ev_write (type id : bytes) (who : CallIdentity) (proposal : bytes) (n : N) (request_id : bytes)
  | ev_fire (type id key generation : bytes) (due : Z) (n : N) | ev_receive (who : CallIdentity) (e : DeliveryEnvelope) (n : N)
  | ev_acknowledge (type id : bytes) (epoch : N) (t : bytes) (x : Result) (n : N) | ev_accept (type id : bytes) (t n : N)
  | ev_deactivate (h : EntityHandle) (n : N) | ev_handoff (h : EntityHandle) (target : bytes) (n : N) | ev_control (type id : bytes) (destroy : bool) (n : N) | ev_drain (n : N)
  | ev_send (source_type source_id type id method payload : bytes) (n : N) | ev_sent (entity : bytes) (job : N) (source : bytes * bytes) (id method payload : bytes) (x : result (Status * bytes * N)) (n : N)
  | ev_acquired (entity : bytes) (job : N) (x : result Job) | ev_logic (entity : bytes) (job : N) (step : nat) (x : Result) | ev_committed (entity : bytes) (job : N) (x : result bool)
  | ev_released (entity : bytes) (x : result bool) | ev_looked_up (i : N) (x : result (Status * bytes)) | ev_created (i : N) (x : result Created) | ev_created_elsewhere (i : N) (id : bytes) (x : Result)
  | ev_schedule (type id : bytes) (spec : EntityTimerSpec) | ev_cancel (type id key : bytes) | ev_forget (entity t : bytes) | ev_poll (budget work : N) | ev_stop
  | ev_register (taken : bool) (route type initial : bytes) | ev_register_context (taken : bool) (route type initial : bytes) (p : RpcPolicy) | ev_policy (route : bytes) (p : RpcPolicy)
  | ev_define (type : bytes) (sc : EntitySchema) | ev_forget_schema (type : bytes) | ev_unbind (route : bytes) | ev_delivery (b : bool).

(** The replies an event gives the host. *)
Definition asks (e : event) : list N :=
  match e with
  | ev_dispatch _ _ n _ | ev_call _ _ n | ev_owner_request _ n | ev_bind_owner _ _ _ n | ev_read_owner _ _ n | ev_create _ _ _ _ _ _ n | ev_read _ _ n | ev_read_authorized _ _ n
  | ev_write _ _ _ _ n _ | ev_fire _ _ _ _ _ n | ev_receive _ _ n | ev_acknowledge _ _ _ _ _ n | ev_accept _ _ _ n | ev_deactivate _ n | ev_handoff _ _ n | ev_control _ _ _ n | ev_drain n
  | ev_send _ _ _ _ _ _ n | ev_sent _ _ _ _ _ _ _ n => [n]
  | _ => []
  end.

Definition ignore {A} (m : act A) : act unit := _ ← m; done.
(** A registration that throws changes nothing. *)
Definition or_same (f : Host -> result Host) (s : Host) : Host := match f s with Ok s' => s' | Throw _ => s end.

Lemma settings_entities owner l : settings_ok owner l = true -> 0 < lentities l /\ (0 < lrequest_timeout_ms l)%Z.
Proof. unfold settings_ok. cbv zeta. rewrite !andb_true_iff. intros H. split; [apply N.ltb_lt|apply Z.ltb_lt]; tauto. Qed.

Section System.
Context (SHA256 : bytes -> bytes).

Definition perform (env : Env) (e : event) : act unit :=
  match e with
  | ev_dispatch who data n deadline => dispatch SHA256 env who data n deadline
  | ev_call data t n => call_entity SHA256 env data t n
  | ev_owner_request data n => owner_request SHA256 env data n
  | ev_bind_owner type id c n => bind_owner SHA256 env type id c n
  | ev_read_owner type id n => read_owner_binding SHA256 env type id (plain (user n))
  | ev_create type vs owner scope key target n => create_entity SHA256 env type vs owner scope key target n
  | ev_read type id n => read_attributes SHA256 env type id n
  | ev_read_authorized type id n => read_authorized SHA256 env type id n
  | ev_write type id who p n r => write_attributes SHA256 env type id who p n r
  | ev_fire type id key g due n => fire_timer SHA256 env type id key g due n
  | ev_receive who d n => receive_delivery SHA256 env who d n
  | ev_acknowledge type id epoch t x n => acknowledge_delivery SHA256 env type id epoch t x n
  | ev_accept type id t n => accept_handoff SHA256 env type id t n
  | ev_deactivate h n => deactivate SHA256 env h (user n)
  | ev_handoff h target n => handoff SHA256 env h target n
  | ev_control type id b n => control_entity SHA256 env type id b n
  | ev_drain n => drain SHA256 env n
  | ev_send st si type id m p n => send_entity env st si type id m p n
  | ev_sent e job source id m p x n => send_done SHA256 e job source id m p x n
  | ev_acquired e job x => acquired SHA256 env e job x
  | ev_logic e job step x => logic_done SHA256 env e job step x
  | ev_committed e job x => commit_done env e job x
  | ev_released e x => release_done e x
  | ev_looked_up i x => lookup_done SHA256 env i x
  | ev_created i x => create_done SHA256 env i x
  | ev_created_elsewhere i id x => created_elsewhere SHA256 env i id x
  | ev_schedule type id spec => ignore (schedule_timer env type id spec)
  | ev_cancel type id key => ignore (cancel_timer type id key)
  | ev_forget e t => ignore (forget e t)
  | ev_poll budget work => ignore (poll SHA256 env budget work)
  | ev_stop => stop SHA256 env
  | ev_register taken route type initial => modify (or_same (register_stateful taken route type initial None))
  | ev_register_context taken route type initial p => modify (or_same (bind_stateful_context taken route type initial p))
  | ev_policy route p => modify (or_same (rpc_policy route p))
  | ev_define type sc => modify (or_same (define_schema type sc))
  | ev_forget_schema type => modify (forget_schema type)
  | ev_unbind route => modify (unbind route)
  | ev_delivery b => modify (enable_delivery b)
  end.

Lemma host_ignore_safe {A} s (m : act A) : safe rest rest s m any -> safe rest rest s (ignore m) any.
Proof. intros Hm. eapply safely_bind; [exact Hm|]. intros a s' _ _ _ _. by apply safely_done. Qed.

Lemma or_same_moves f s : (forall s', f s = Ok s' -> moves rest rest s s') -> moves rest rest s (or_same f s).
Proof. unfold or_same. destruct (f s) as [s'|]; intros H; [by apply H|apply moves_refl]. Qed.

(** Every event but the stop keeps the invariant, its reply in hand. *)
Lemma perform_safe env e s : e <> ev_stop -> safe (MkCtx (map user (asks e)) None []) rest s (perform env e) any.
Proof.
  intros He. destruct e; cbn [asks map perform].
  - apply host_dispatch_safe.
  - apply call_entity_safe.
  - apply owner_request_safe.
  - apply bind_owner_safe.
  - apply (read_owner_binding_safe SHA256 env type id (plain (user n)) [] [] s).
  - apply create_entity_safe.
  - apply read_attributes_safe.
  - apply read_authorized_safe.
  - apply write_attributes_safe.
  - apply fire_timer_safe.
  - apply receive_delivery_safe.
  - apply acknowledge_delivery_safe.
  - apply accept_handoff_safe.
  - apply deactivate_safe.
  - apply handoff_safe.
  - apply control_entity_safe.
  - apply drain_safe.
  - apply send_entity_safe.
  - apply send_done_safe.
  - apply acquired_safe.
  - apply logic_done_safe.
  - apply commit_done_safe.
  - apply release_done_safe.
  - apply lookup_done_safe.
  - apply create_done_safe.
  - apply host_finish_safe.
  - apply host_ignore_safe, schedule_timer_safe.
  - apply host_ignore_safe, cancel_timer_safe.
  - apply host_ignore_safe, forget_safe.
  - apply host_ignore_safe, poll_safe.
  - done.
  - apply safely_modify_end; [|done]. apply or_same_moves. intros s'. apply register_moves.
  - apply safely_modify_end; [|done]. apply or_same_moves. intros s'. unfold bind_stateful_context. destruct (_ && _); [done|]. apply register_moves.
  - apply safely_modify_end; [|done]. apply or_same_moves. intros s'. apply rpc_policy_moves.
  - apply safely_modify_end; [|done]. apply or_same_moves. intros s'. apply define_schema_moves.
  - apply safely_modify_end; [apply forget_schema_moves|done].
  - apply safely_modify_end; [apply unbind_moves|done].
  - apply safely_modify_end; [apply delivery_moves|done].
Qed.

(** ** Runs *)

Definition told_names (outs : list host_output) : list N := omap (fun o => match o with replied n _ | threw n _ | send_submitted n _ _ => Some n | _ => None end) outs.

(** A host, the replies brought to it and those that left it: called, thrown away or gone with a
    storage job, whose end brings them back. *)
Record hsys := MkHostSys { host_of : Host; hasked : list N; htold : list N }.

Inductive owner_step : hsys -> hsys -> Prop :=
  | host_event x env e s outs : perform env e (host_of x) = (tt, s, outs) -> owner_step x (MkHostSys s (asks e ++ hasked x) (htold x ++ told_names outs)).

Definition host_start (owner : bytes) (l : EntityRuntimeLimits) (x : hsys) : Prop := exists s, host owner l = Ok s /\ x = MkHostSys s [] [].

Definition count (n : N) (l : list N) : N := lsum (fun m => one_if (m =? n)) l.

Lemma told_count n outs : told n outs = count n (told_names outs).
Proof. unfold told, count, told_names. induction outs as [|o l IH]; [done|]. rewrite lsum_cons, IH. destruct o; cbn [told_by omap list_omap]; rewrite ?lsum_cons; lia. Qed.

Lemma count_app n a b : count n (a ++ b) = count n a + count n b.
Proof. apply lsum_app. Qed.

(** The invariant of a run. *)
Record sys_inv (x : hsys) : Prop := {
  si_inv : inv rest (host_of x);
  si_replies : forall n, count n (hasked x) = count n (htold x) + debt n [] (host_of x);
  si_closed : stopped (flags (host_of x)) = true -> slots (host_of x) = ∅ /\ admissions (host_of x) = ∅ }.

(** The replies an event brings are in hand when it begins. *)
Lemma inv_asked (l : list N) s : inv rest s -> inv (MkCtx (map user l) None []) s /\ forall n, debt n (map user l) s = count n l + debt n [] s.
Proof.
  intros [I1 I2 I3 I4]. assert (E : forall f : Reply -> N, lsum f (map user l) = lsum (fun n => f (user n)) l) by (intros; apply lsum_map). split.
  - constructor; try done. intros d. destruct (I4 d) as [E1 E2]. split; [|done]. cbn [hand]. rewrite E. cbn [drains_of]. rewrite lsum_zero. exact E1.
  - intros n. unfold debt. rewrite E. unfold count. cbn [owes]. cbn. lia.
Qed.

Lemma owner_step_inv x y : sys_inv x -> owner_step x y -> sys_inv y.
Proof.
  intros Hx Hst. destruct Hst as [x env e s outs E]. destruct Hx as [Hi Hr Hc]. assert (Hd : e = ev_stop \/ e <> ev_stop) by (destruct e; first [by left|by right]). destruct Hd as [->|Hd].
  - cbn [asks app perform] in *. destruct (stopped (flags (host_of x))) eqn:Hs.
    + unfold stop in E. unfold mbind at 1, act_bind at 1, state at 1 in E. rewrite Hs in E. injection E as <- <-. constructor; cbn [host_of hasked htold]; try done; [|auto]. intros n. rewrite app_nil_r. apply Hr.
    + pose proof (host_stop_run SHA256 env (host_of x) Hi Hs) as H. rewrite E in H. destruct H as (I' & S' & _ & _ & T' & D'). unfold tables in T'. injection T' as T1 _ _ T2. constructor; cbn [host_of hasked htold]; [done| |done].
      intros n. rewrite count_app, Hr, D', told_count. lia.
  - destruct (inv_asked (asks e) (host_of x) Hi) as [Hi' Hd']. pose proof (perform_safe env e (host_of x) Hd Hi') as H. rewrite E in H. destruct H as (I' & [T1 T2 T3 T4 T5] & _). constructor; cbn [host_of hasked htold]; [done| |].
    + intros n. specialize (T1 n). unfold view in T1. cbn [hand in_hand rest] in T1. rewrite Hd', told_count in T1. rewrite !count_app, Hr. lia.
    + rewrite T4. intros Hs. by apply T5; [|apply Hc].
Qed.

Lemma host_start_inv owner l x : host_start owner l x -> sys_inv x.
Proof.
  intros (s & Hs & ->). unfold host in Hs. destruct (settings_ok owner l) eqn:E; [|done]. cbn [negb bind] in Hs. injection Hs as <-. apply settings_entities in E as [E _]. constructor; try done. constructor.
  - by constructor.
  - constructor; cbn; unfold total; cbn; by rewrite !msum_empty.
  - constructor; cbn; rewrite ?map_size_empty; lia.
  - intros d. split; [|done]. cbn. unfold total. cbn. by rewrite !msum_empty.
Qed.

Lemma host_reachable_inv owner l x y : host_start owner l x -> rtc owner_step x y -> sys_inv y.
Proof. intros Hx Hr. apply host_start_inv in Hx. induction Hr; eauto using owner_step_inv. Qed.

(** ** The replies a host holds *)

Definition users (r : Reply) : list N := match r with user n | named _ n | emptied n => [n] | nobody | drained _ => [] end.
Definition held_replies (s : Host) : list Reply :=
  map rreply (queued_in (slots s)) ++ map (fun e => rreply (run_request e.2)) (map_to_list (active s)) ++
  map (fun e => as_reply (areply e.2)) (map_to_list (admissions s)) ++ map snd (map_to_list (releases s)).
(** The caller's replies among them, and those of the drains under way. *)
Definition waiting (s : Host) : list N := flat_map users (held_replies s) ++ map (fun e => e.2.2) (map_to_list (drains s)).

Lemma count_users n l : count n (flat_map users l) = lsum (owes n) l.
Proof. induction l as [|r l IH]; [done|]. cbn [flat_map]. rewrite count_app, lsum_cons, IH. f_equal. by destruct r; cbn [users owes]; unfold count; rewrite ?lsum_cons; cbn; rewrite ?N.add_0_r. Qed.

Lemma debt_waiting n s : debt n [] s = count n (waiting s).
Proof.
  unfold debt, waiting, held_replies, total. rewrite count_app, count_users, !lsum_app, !lsum_map, msum_slots, !lsum_map_to_list. cbn [of_slot of_queued of_job of_admission of_release replies_held]. rewrite lsum_zero.
  unfold count. rewrite lsum_map. unfold drain_owes. cbn [lsum foldr]. lia.
Qed.

Lemma count_perm (l l' : list N) : (forall n, count n l = count n l') -> l ≡ₚ l'.
Proof.
  intros H. apply (Permutation_count_occ N.eq_dec). intros n. specialize (H n). assert (E : forall l, count n l = N.of_nat (count_occ N.eq_dec l n)); [|rewrite !E in H; lia].
  clear. induction l as [|m l IH]; [done|]. unfold count in *. rewrite lsum_cons, IH. cbn. unfold one_if. destruct (N.eq_dec m n) as [->|Hn]; [rewrite N.eqb_refl|rewrite (proj2 (N.eqb_neq m n)) by done]; lia.
Qed.

(** A stopped host waits for nothing. *)
Lemma closed_waiting s : inv rest s -> slots s = ∅ -> admissions s = ∅ -> forall n, debt n [] s = 0.
Proof.
  intros [[H1 H2 H3 H4 H5 H6] _ _ I4] Hs Ha n. cbn [view in_hand rest] in *.
  assert (Hj : active s = ∅) by (apply map_empty; intros e; destruct (active s !! e) as [r|] eqn:E; [destruct (H2 _ _ E) as (x & Hx & _); by rewrite Hs in Hx|done]).
  assert (Hr : releases s = ∅) by (apply map_empty; intros e; destruct (releases s !! e) as [r|] eqn:E; [destruct (H3 _ _ E) as (x & Hx); by rewrite Hs in Hx|done]).
  assert (Ht : forall w, total w s = 0) by (intros w; unfold total; by rewrite Hs, Ha, Hj, Hr, !msum_empty).
  assert (Hd : drains s = ∅).
  { apply map_empty. intros d. destruct (drains s !! d) as [x|] eqn:E; [|done]. destruct (I4 d) as [E1 E2]. rewrite Ht, E in E1. destruct (E2 _ E) as [Hx _]. cbn in E1. by rewrite <- E1 in Hx. }
  unfold debt. rewrite Ht, Hd, msum_empty. done.
Qed.

(** ** The properties of a run *)

(** ** The ledger of replies

    What became of each reply the host was given: called, lost to an operation that threw to its
    caller instead, or gone with the storage job of a message, which gives it back when it ends. *)
Definition called_names (outs : list host_output) : list N := omap (fun o => match o with replied n _ => Some n | _ => None end) outs.
Definition thrown_names (outs : list host_output) : list N := omap (fun o => match o with threw n _ => Some n | _ => None end) outs.
Definition submitted_names (outs : list host_output) : list N := omap (fun o => match o with send_submitted n _ _ => Some n | _ => None end) outs.

Record ledger := MkLedger { lhost : Host; given : list N; called : list N; thrown : list N; in_flight : list N }.

(** The end of the storage job of a message brings back the reply that left with it; every other
    event brings the reply its caller passes. *)
Definition gives (e : event) : list N := match e with ev_sent _ _ _ _ _ _ _ _ => [] | _ => asks e end.
Definition ends (e : event) : list N := match e with ev_sent _ _ _ _ _ _ _ n => [n] | _ => [] end.

Inductive ledger_step : ledger -> ledger -> Prop :=
  | ledger_event x env e s outs flying : perform env e (lhost x) = (tt, s, outs) -> in_flight x ≡ₚ ends e ++ flying ->
      ledger_step x (MkLedger s (gives e ++ given x) (called x ++ called_names outs) (thrown x ++ thrown_names outs) (flying ++ submitted_names outs)).

Lemma told_split n outs : count n (told_names outs) = count n (called_names outs) + count n (thrown_names outs) + count n (submitted_names outs).
Proof.
  unfold count, told_names, called_names, thrown_names, submitted_names. induction outs as [|o l IH]; [done|]. destruct o; cbn [omap list_omap]; rewrite ?lsum_cons, IH; lia.
Qed.

Lemma asks_split n e : count n (asks e) = count n (gives e) + count n (ends e).
Proof. destruct e; cbn [asks gives ends]; rewrite ?N.add_0_r; done. Qed.

Lemma perm_count n (l l' : list N) : l ≡ₚ l' -> count n l = count n l'.
Proof. intros H. unfold count. induction H; rewrite ?lsum_cons in *; lia. Qed.

(** The ledger follows the run: [ended] are the replies that came back with a storage job. *)
Definition follows (x : ledger) (y : hsys) : Prop := lhost x = host_of y /\
  exists ended : N -> N, forall n, count n (hasked y) = count n (given x) + ended n /\ count n (htold y) = count n (called x) + count n (thrown x) + count n (in_flight x) + ended n.

Lemma ledger_follows x x' y : follows x y -> ledger_step x x' -> exists y', owner_step y y' /\ follows x' y'.
Proof.
  intros [Hh [w Hw]] Hst. destruct Hst as [x env e s outs flying E Hf]. rewrite Hh in E. eexists. split; [by eapply host_event|]. split; [done|]. exists (fun n => w n + count n (ends e)). intros n. destruct (Hw n) as [H1 H2].
  pose proof (perm_count n _ _ Hf) as H3. cbn [host_of hasked htold given called thrown in_flight]. rewrite !count_app in *. rewrite asks_split, told_split. lia.
Qed.

Lemma ledger_inv owner l s x : host owner l = Ok s -> rtc ledger_step (MkLedger s [] [] [] []) x -> exists y, follows x y /\ sys_inv y.
Proof.
  intros Hs. cut (forall x0, (exists y, follows x0 y /\ sys_inv y) -> rtc ledger_step x0 x -> exists y, follows x y /\ sys_inv y).
  - intros H. apply H. exists (MkHostSys s [] []). split; [|eapply host_start_inv; by exists s]. split; [done|]. by exists (fun _ => 0).
  - intros x0 H Hr. induction Hr as [|x0 x1 x2 Hst _ IH]; [done|]. apply IH. destruct H as (y & Hy & Hi). destruct (ledger_follows _ _ _ Hy Hst) as (y' & Hst' & Hy'). eauto using owner_step_inv.
Qed.

(** C8 (safety).  No reply is lost or called twice: in any sequence of events, the replies given
    to the host are, each exactly once, those it called, those whose operation threw to its caller
    instead, those that left with the storage job of a message still to end, and those that wait in
    a mailbox, with a job, an admission, a release or a drain.  A stopped host keeps
    none waiting: it called all but those whose operation threw and those with such a storage job. *)
Theorem host_answers_once owner l s x : host owner l = Ok s -> rtc ledger_step (MkLedger s [] [] [] []) x ->
  given x ≡ₚ called x ++ thrown x ++ in_flight x ++ waiting (lhost x) /\
  (stopped (flags (lhost x)) = true -> waiting (lhost x) = [] /\ given x ≡ₚ called x ++ thrown x ++ in_flight x).
Proof.
  intros Hs Hr. destruct (ledger_inv _ _ _ _ Hs Hr) as (y & [Hh [w Hw]] & [Hi Hc Hst]). rewrite Hh.
  assert (P : given x ≡ₚ called x ++ thrown x ++ in_flight x ++ waiting (host_of y)).
  { apply count_perm. intros n. destruct (Hw n) as [H1 H2]. specialize (Hc n). rewrite !count_app, <- debt_waiting. lia. }
  split; [done|]. intros St. destruct (Hst St) as [E1 E2]. assert (W : waiting (host_of y) = []).
  { apply Permutation_nil_r, count_perm. intros n. rewrite <- debt_waiting. apply (closed_waiting _ Hi E1 E2). }
  split; [done|]. by rewrite W, app_nil_r in P.
Qed.

(** C9 (invariant).  A host stays within its limits, whatever it is asked: the requests
    pending, the bytes they hold, the state and the transient caches it charges are exactly the
    sums over what it holds, none above its limit, the resident entities neither; and
    every resident entity is on the schedule once. *)
Theorem host_within_limits owner l x y : host_start owner l x -> rtc owner_step x y ->
  let s := host_of y in let k := counters s in
  pending k = N.of_nat (length (queued_in (slots s)) + base.size (active s) + base.size (admissions s)) /\ pending k <= lrequests (limits s) /\
  queued k = lsum rbytes (queued_in (slots s)) + msum (fun r => rbytes (run_request r)) (active s) + msum abytes (admissions s) /\ queued k <= lqueued_bytes (limits s) /\
  state_bytes k = msum (fun r => resident (run_budget r)) (active s) /\ state_bytes k <= lresident_bytes (limits s) /\
  transient_bytes k = msum (fun x => size (transient (cache x))) (slots s) + msum (fun r => cache_growth (run_budget r)) (active s) /\ transient_bytes k <= lresident_bytes (limits s) /\
  N.of_nat (base.size (slots s)) <= lentities (limits s) /\ schedule s ≡ₚ (map_to_list (slots s)).*1.
Proof.
  intros Hx Hr s k. destruct (host_reachable_inv _ _ _ _ Hx Hr) as [[I1 [B1 B2 B3 B4] [W1 W2 W3 W4 W5 W6 W7] _] _ _]. cbn [view in_hand rest] in *. fold s in I1, B1, B2, B3, B4, W1, W2, W3, W4, W5.
  unfold total in *. rewrite msum_slots in B1, B2, B3, B4. cbn [of_slot of_queued of_job of_admission of_release requests_held bytes_held state_held transient_held] in *.
  assert (Z : forall {K A : Type} `{Countable K} (m : gmap K A), msum (fun _ => 0) m = 0) by (intros; rewrite lsum_map_to_list; apply lsum_zero).
  assert (O : forall {K A : Type} `{Countable K} (m : gmap K A), msum (fun _ => 1) m = N.of_nat (base.size m)) by (intros; rewrite lsum_map_to_list, (lsum_one (map_to_list m)); by rewrite <- length_map_to_list).
  rewrite !Z, ?O, ?lsum_one, ?lsum_zero in *. split_and!; try done; try (unfold k; lia). pose proof (sh_schedule _ _ _ I1) as Hs. by rewrite app_nil_r in Hs.
Qed.

(** An entity leaves with an empty mailbox: while its deactivation or
    destruction runs or its lease is being released, nothing else waits for it and nothing is taken
    in; and such a request waits only in a mailbox where it is alone, with nothing under way. *)
Theorem emptied_alone owner l x y : host_start owner l x -> rtc owner_step x y ->
  forall e z, slots (host_of y) !! e = Some z ->
    (forall r, active (host_of y) !! e = Some r -> is_control (job_q r) = true -> queue z = [] /\ releasing z = true) /\
    (forall r, releases (host_of y) !! e = Some r -> queue z = [] /\ releasing z = true /\ active (host_of y) !! e = None) /\
    (forall r, r ∈ queue z -> is_control (rq r) = true -> queue z = [r] /\ releasing z = true /\ active (host_of y) !! e = None /\ releases (host_of y) !! e = None).
Proof.
  intros Hx Hr e z Hz. destruct (host_reachable_inv _ _ _ _ Hx Hr) as [[I1 _ _ _] _ _]. cbn [view in_hand rest] in *. destruct (sh_slots _ _ _ I1 _ _ Hz) as [_ Hm]. unfold mode_ok in Hm.
  assert (Hno : forall l r, no_control l -> r ∈ l -> is_control (rq r) = true -> False) by (intros l0 r H Hin E; unfold no_control in H; rewrite Forall_forall in H; rewrite (H r Hin) in E; done).
  destruct (releases _ !! e) as [rel|], (active _ !! e) as [j|]; [done|..].
  - destruct Hm as (_ & H1 & H2). rewrite H2. split_and!; try done. by intros r Hin%elem_of_nil.
  - destruct Hm as [_ Hm]. split_and!; try done.
    + intros r [= <-] Hc. rewrite Hc in Hm. naive_solver.
    + intros r Hin Hc. destruct (is_control (job_q j)); [destruct Hm as [_ E]; rewrite E in Hin; by apply elem_of_nil in Hin|]. destruct Hm as [_ Hm]. destruct (Hno _ _ Hm Hin Hc).
  - destruct Hm as [_ Hm]. split_and!; try done. intros r Hin Hc. destruct Hm as [[_ Hm]|(Hm & c & E & _)]; [destruct (Hno _ _ Hm Hin Hc)|]. rewrite E in Hin |- *. apply list_elem_of_singleton in Hin as ->. done.
Qed.
End System.

(** ** A run *)

Section Run.
Context (SHA256 : bytes -> bytes) (env : Env).

Definition after_event (e : event) (x : hsys) : hsys :=
  let '(_, s, outs) := perform SHA256 env e (host_of x) in MkHostSys s (asks e ++ hasked x) (htold x ++ told_names outs).
Definition run_events (es : list event) (x : hsys) : hsys := fold_left (fun x e => after_event e x) es x.

Lemma run_events_steps es : forall x, rtc (owner_step SHA256) x (run_events es x).
Proof.
  induction es as [|e es IH]; intros x; [done|]. cbn [run_events fold_left]. eapply rtc_l; [|apply IH]. unfold after_event. destruct (perform SHA256 env e (host_of x)) as [[[] s] outs] eqn:E. by eapply host_event.
Qed.
End Run.

Definition owner_limits : EntityRuntimeLimits := MkRuntimeLimits 8 8 10000 10000 4 1000 4 4 4 4096 1000 4 4096 5000 1000 100 10000.
Definition owner_env : Env := MkEnv 0 0 (fun _ => true) size (fun _ => Ok true) (fun who => who).
Definition room_id (n : N) : bytes := lit "00000000000000a" ++ to_string n.

(** Two entities are read and one of them destroyed: a job runs, a destruction is under way, a read waits;
    an unknown type is answered at once. *)
Definition owner_events : list event :=
  [ev_register false (lit "room.$destroy") (lit "room") (lit "empty"); ev_read (lit "room") (room_id 1) 10; ev_read (lit "room") (room_id 2) 11; ev_read (lit "hall") (room_id 1) 12; ev_poll 1 0;
   ev_acquired (entity_key (lit "room") (room_id 1)) 1 (Throw runtime_error); ev_control (lit "room") (room_id 1) true 13; ev_poll 8 0; ev_read (lit "room") (room_id 2) 14].
Definition owner_host : Host := match host (lit "n1/7") owner_limits with Ok s => s | Throw _ => MkHost owner_limits [] ∅ [] ∅ ∅ ∅ ∅ (MkRegistry ∅ ∅ ∅ ∅) (MkCounters 0 0 0 0 0 0 0 0 0 0) (MkSerials 0 0 0 0 0 0) (MkFlags true true false) end.
Definition owner_initial : hsys := MkHostSys owner_host [] [].
Definition owner_final : hsys := run_events sample_digest owner_env owner_events owner_initial.

Lemma owner_host_start : host_start (lit "n1/7") owner_limits owner_initial.
Proof. by exists owner_host. Qed.

Lemma owner_host_run : rtc (owner_step sample_digest) owner_initial owner_final.
Proof. apply run_events_steps. Qed.

(** The same requests, a message sent while its entity is acquired, and the stop: the reply of the message is left
    with its storage job. *)
Definition enter (e : event) (x : ledger) : ledger :=
  let '(_, s, outs) := perform sample_digest owner_env e (lhost x) in
  MkLedger s (gives e ++ given x) (called x ++ called_names outs) (thrown x ++ thrown_names outs) (in_flight x ++ submitted_names outs).
Definition ledger_events : list event :=
  [ev_register false (lit "room.$destroy") (lit "room") (lit "empty"); ev_delivery true; ev_read (lit "room") (room_id 1) 10; ev_read (lit "room") (room_id 2) 11; ev_read (lit "hall") (room_id 1) 12; ev_poll 1 0;
   ev_send (lit "room") (room_id 1) (lit "room") (room_id 2) (lit "greet") [] 13; ev_stop].
Definition ledger_final (es : list event) : ledger := fold_left (fun x e => enter e x) es (MkLedger owner_host [] [] [] []).

Lemma enter_steps es : forallb (fun e => match ends e with [] => true | _ => false end) es = true -> forall x, rtc (ledger_step sample_digest) x (fold_left (fun x e => enter e x) es x).
Proof.
  induction es as [|e es IH]; intros H x; [done|]. cbn in H. apply andb_true_iff in H as [He H]. cbn [fold_left]. eapply rtc_l; [|by apply IH]. unfold enter. destruct (perform _ _ e (lhost x)) as [[[] s] outs] eqn:E.
  eapply ledger_event; [done|]. by destruct (ends e).
Qed.

Lemma host_answers_once_witness : let x := ledger_final ledger_events in
  given x = [13; 12; 11; 10] /\ called x = [12; 10; 11] /\ in_flight x = [13] /\ given x ≡ₚ called x ++ thrown x ++ in_flight x.
Proof.
  assert (Hr : rtc (ledger_step sample_digest) (MkLedger owner_host [] [] [] []) (ledger_final ledger_events)) by (apply enter_steps; vm_compute; reflexivity).
  assert (Hs : host (lit "n1/7") owner_limits = Ok owner_host) by reflexivity.
  intros x. split; [vm_compute; reflexivity|]. split; [vm_compute; reflexivity|]. split; [vm_compute; reflexivity|].
  apply (proj2 (host_answers_once sample_digest _ _ _ _ Hs Hr)). vm_compute. reflexivity.
Defined.

Lemma host_within_limits_witness : pending (counters (host_of owner_final)) = 3 /\
  pending (counters (host_of owner_final)) = N.of_nat (length (queued_in (slots (host_of owner_final))) + base.size (active (host_of owner_final)) + base.size (admissions (host_of owner_final))).
Proof. split; [vm_compute; reflexivity|]. exact (proj1 (host_within_limits sample_digest _ _ _ _ owner_host_start owner_host_run)). Defined.

Definition emptied_entity : bytes := entity_key (lit "room") (room_id 1).

Lemma emptied_alone_witness : exists z r, slots (host_of owner_final) !! emptied_entity = Some z /\ active (host_of owner_final) !! emptied_entity = Some r /\ is_control (job_q r) = true /\ queue z = [] /\ releasing z = true.
Proof.
  destruct (slots (host_of owner_final) !! emptied_entity) as [z|] eqn:Hz; [|by vm_compute in Hz]. destruct (active (host_of owner_final) !! emptied_entity) as [r|] eqn:Hr; [|by vm_compute in Hr].
  assert (Hc : is_control (job_q r) = true).
  { assert (E : (is_control ∘ job_q) <$> active (host_of owner_final) !! emptied_entity = Some true) by (vm_compute; reflexivity). rewrite Hr in E. by injection E. }
  exists z, r. split; [done|]. split; [done|]. split; [done|]. exact (proj1 (emptied_alone sample_digest _ _ _ _ owner_host_start owner_host_run _ _ Hz) r Hr Hc).
Defined.

(** * The entity host: deadlines

    A poll leaves nothing late: every admission, every execution and every queued request whose
    deadline passed was answered, whatever the budget of the poll. *)

Section Deadlines.
Context (SHA256 : bytes -> bytes) (env : Env).

Definition in_time (l : list Request) : Prop := Forall (fun r => overdue env r = false) l.

(** Nothing is late, and a new request will not be. *)
Record punctual (s : Host) : Prop := {
  pu_admissions : forall i a, admissions s !! i = Some a -> (e_now env < adeadline a)%Z;
  pu_jobs : forall e r, active s !! e = Some r -> late_run env r = false;
  pu_queues : forall e x, slots s !! e = Some x -> in_time (queue x);
  pu_timeout : (0 < lrequest_timeout_ms (limits s))%Z }.

(** The part of the state it is about. *)
Definition timed (s : Host) := (admissions s, active s, slots s, limits s).

Lemma punctual_same s s' : timed s' = timed s -> punctual s -> punctual s'.
Proof. unfold timed. intros [= E1 E2 E3 E4] [P1 P2 P3 P4]. constructor; rewrite ?E1, ?E2, ?E3, ?E4; done. Qed.

(** An action that makes nothing late. *)
Definition stays {A} (m : act A) : Prop := forall s, punctual s -> punctual (m s).1.2.

Lemma stays_keeps {A} (m : act A) : keeps timed m -> stays m.
Proof. intros H s. apply punctual_same, H. Qed.

Lemma stays_bind {A B} (m : act A) (k : A -> act B) : stays m -> (forall a, stays (k a)) -> stays (m ≫= k).
Proof. intros Hm Hk s Hs. specialize (Hm s Hs). unfold mbind, act_bind. destruct (m s) as [[a s1] o1]. specialize (Hk a s1 Hm). by destruct (k a s1) as [[b s2] o2]. Qed.

Lemma stays_state {B} (k : Host -> act B) : (forall s, punctual s -> punctual (k s s).1.2) -> stays (state ≫= k).
Proof. intros Hk s Hs. rewrite after_state. by apply Hk. Qed.

Lemma stays_done : stays done.
Proof. by intros s. Qed.

Lemma stays_ret {A} (a : A) : stays (mret a).
Proof. by intros s. Qed.

Lemma say_stays r x : stays (say r x).
Proof. apply stays_keeps. by apply say_keeps. Qed.

Lemma slot_punctual s e x : in_time (queue x) -> punctual s -> punctual (with_slots s (<[e := x]> (slots s))).
Proof. intros Hx [P1 P2 P3 P4]. constructor; try done. cbn. intros n y [[<- <-]|[_ H]]%lookup_insert_Some; [done|by eapply P3]. Qed.

Lemma open_slot_punctual e type id s : punctual s -> let '(o, s', _) := open_slot env e type id s in punctual s' /\ forall x, o = Some x -> in_time (queue x).
Proof.
  intros Hs. unfold open_slot. unfold mbind at 1, act_bind at 1, state at 1. destruct (slots s !! e) as [x|] eqn:Hx; [cbn; split; [done|]; intros y [= <-]; by eapply pu_queues|].
  destruct (_ <=? _); [done|]. cbv zeta. unfold mbind, act_bind, modify. cbn [mret act_ret]. split; [|intros x [= <-]; constructor]. eapply (punctual_same (with_slots s _)); [|apply (slot_punctual s e)]; [done|constructor|done].
Qed.

(** A request without a deadline of its own enters. *)
Lemma enqueue_stays c : cdeadline c = None -> stays (enqueue SHA256 env c).
Proof.
  intros Hd. assert (Hsay : forall x s, punctual s -> punctual (say (creply c) x s).1.2) by (intros; by apply say_stays). apply stays_state. intros s Hs. destruct (stopped _); [by apply Hsay|].
  destruct (methods _ !! _) as [k|]; [|by apply Hsay]. destruct (method_objects _ !! k) as [m|]; [|by apply Hsay]. cbv zeta. destruct (_ && _); [by apply Hsay|]. destruct (_ || _); [by apply Hsay|].
  destruct (match cdecoded c with Some _ => _ | None => _ end) as [msg|]; [|by apply Hsay]. destruct (negb _); [by apply Hsay|]. destruct (_ && _); [by apply Hsay|].
  destruct (match method_policy m with Some _ => _ | None => _ end) as [msg'|]; [|by apply Hsay].
  match goal with |- context [open_slot env ?e ?t ?i] => pose proof (open_slot_punctual e t i s Hs) as Ho; unfold mbind at 1, act_bind at 1; destruct (open_slot env e t i s) as [[o s1] o1] end.
  destruct Ho as [Hs1 Hx]. destruct o as [x|].
  - destruct (releasing x).
    + specialize (Hsay (status rejected) s1 Hs1). by destruct (say _ _ s1) as [[u s2] o2].
    + set (r := new_request env c (charge_of env c) msg' k m s). unfold mbind, act_bind, modify. cbn [fst snd]. eapply punctual_same; [|apply (slot_punctual s1)]; [done| |done]. cbn [queue with_queue]. apply Forall_app. split; [by apply Hx|]. constructor; [|constructor].
      unfold r, overdue, new_request. rewrite Hd. destruct (cincoming c); [repeat case_match|]; cbn; apply Z.leb_gt; pose proof (pu_timeout _ Hs); unfold ms in *; lia.
  - specialize (Hsay (status overloaded) s1 Hs1). by destruct (say _ _ s1) as [[u s2] o2].
Qed.

Lemma server_call_stays route id p reply who : stays (server_call SHA256 env route id p reply who).
Proof. unfold server_call. destruct (entity_message id p []); [by apply enqueue_stays|apply say_stays]. Qed.

(** ** The schedule *)

Lemma acquire_stays e : stays (acquire env e).
Proof.
  apply stays_state. intros s Hs. destruct (slots s !! e) as [y|] eqn:Hy; [|done]. destruct (queue y) as [|r q] eqn:Hq; [done|]. destruct (negb _); [done|]. cbv zeta. unfold keep. rewrite !after_modify. cbn [emit fst snd].
  pose proof (pu_queues _ Hs _ _ Hy) as Hin. rewrite Hq in Hin. apply Forall_cons in Hin as [_ Hin]. destruct Hs as [P1 P2 P3 P4]. constructor; cbn; try done.
  - intros n j [[<- <-]|[_ H]]%lookup_insert_Some; [done|by eapply P2].
  - intros n x [[<- <-]|[_ H]]%lookup_insert_Some; [done|by eapply P3].
Qed.

Lemma poll_front_stays e : stays (poll_front env e).
Proof.
  apply stays_state. intros s Hs. destruct (slots s !! e) as [x|] eqn:Hx; [|done]. destruct (queue x) as [|r q] eqn:Hq; [done|].
  match goal with |- punctual (?m s).1.2 => assert (Hm : stays m); [|by apply Hm] end. apply stays_bind; [|intros u; apply stays_ret]. destruct (overdue env r) eqn:Ho; [|apply acquire_stays].
  intros s1 Hs1. exfalso. pose proof (pu_queues _ Hs _ _ Hx) as Hin. rewrite Hq in Hin. apply Forall_cons in Hin as [Hin _]. congruence.
Qed.

(** A slot changes, but not its mailbox. *)
Lemma touch_stays e (f : Host -> Slot -> Slot) : (forall s y, queue (f s y) = queue y) -> stays (modify (fun s => with_slots s (match slots s !! e with Some y => <[e := f s y]> (slots s) | None => slots s end))).
Proof.
  intros Hf s Hs. cbn. destruct (slots s !! e) as [y|] eqn:Hy; [|by apply (punctual_same s)]. apply slot_punctual; [|done]. rewrite Hf. by eapply pu_queues.
Qed.

Lemma poll_tick_stays e x : stays (poll_tick SHA256 env e x).
Proof.
  unfold poll_tick. destruct (_ && _); [|apply stays_done]. apply stays_state. intros s Hs. match goal with |- punctual (?m s).1.2 => assert (Hm : stays m); [|by apply Hm] end. apply stays_bind.
  - destruct (_ && _); [|apply stays_done]. destruct (entity_message _ _ _); [by apply enqueue_stays|apply stays_done].
  - intros u. by apply (touch_stays e (fun s y => with_next_tick y (e_now env + ms (ltick_ms (limits s)))%Z)).
Qed.

Lemma poll_entity_stays e : stays (poll_entity SHA256 env e).
Proof.
  apply stays_state. intros s Hs. destruct (slots s !! e) as [x|] eqn:Hx; [|done]. cbv zeta. destruct (_ && negb _) eqn:Hl.
  - rewrite !after_modify. destruct Hs as [P1 P2 P3 P4]. constructor; cbn; try done. intros n y [_ H]%lookup_delete_Some. by eapply P3.
  - match goal with |- punctual (?m s).1.2 => assert (Hm : stays m); [|by apply Hm] end. apply stays_bind; [destruct (idle x && _); [apply server_call_stays|apply stays_done]|]. intros u. apply stays_bind; [by apply stays_keeps, keeps_modify|].
    intros u'. apply stays_state. intros s1 Hs1. destruct (slots s1 !! e) as [y|]; [|done]. destruct (busy y); [done|].
    match goal with |- punctual (?m s1).1.2 => assert (Hm : stays m); [|by apply Hm] end. apply stays_bind; [apply poll_tick_stays|intros u2; apply poll_front_stays].
Qed.

Lemma poll_schedule_stays n budget : forall work, stays (poll_schedule SHA256 env n budget work).
Proof.
  induction n as [|n IH]; intros work; cbn [poll_schedule]; [apply stays_ret|]. apply stays_state. intros s Hs. destruct (schedule s) as [|e l]; [done|]. destruct (_ || _); [done|].
  match goal with |- punctual (?m s).1.2 => assert (Hm : stays m); [|by apply Hm] end. apply stays_bind; [by apply stays_keeps, keeps_modify|]. intros u. apply stays_bind; [apply poll_entity_stays|]. intros b. apply IH.
Qed.

(** ** Expiry *)

Lemma after_bind {A B} (m : act A) (k : A -> act B) s : ((m ≫= k) s).1.2 = (k (m s).1.1 (m s).1.2).1.2.
Proof. unfold mbind, act_bind. destruct (m s) as [[a s1] o1]. cbn. by destruct (k a s1) as [[b s2] o2]. Qed.

Lemma finish_timeout i s : let s' := (finish SHA256 env i (status timeout) s).1.2 in admissions s' = delete i (admissions s) /\ limits s' = limits s.
Proof.
  unfold finish. rewrite after_state. cbv zeta. destruct (admissions s !! i) as [d|] eqn:Hd; [|cbn; by rewrite delete_id].
  assert (Hk : keeps (fun s => (admissions s, limits s)) (answer SHA256 env (areply d) (status timeout))).
  { destruct (areply d); cbn [answer]; [by apply say_keeps|]. apply keeps_state. intros s1. destruct (stopped _); [done|]. done. }
  rewrite after_bind. specialize (Hk (take_admission i d s).1.2). split; [exact (f_equal fst Hk)|exact (f_equal snd Hk)].
Qed.

Lemma finish_late_run (l : list (N * Admission)) : forall s, let s' := (for_each (fun e => if (adeadline e.2 <=? e_now env)%Z then finish SHA256 env e.1 (status timeout) else done) l s).1.2 in
  limits s' = limits s /\ forall i a, admissions s' !! i = Some a -> admissions s !! i = Some a /\ ((i, a) ∈ l -> (e_now env < adeadline a)%Z).
Proof.
  induction l as [|[i d] l IH]; intros s; cbn [for_each].
  { cbn. split; [done|]. intros i a Ha. split; [done|]. by intros ?%elem_of_nil. }
  rewrite after_bind. cbn [fst snd]. set (s1 := (_ s).1.2). destruct (IH s1) as [L1 A1]. destruct (Z.leb_spec (adeadline d) (e_now env)) as [Hl|Hl].
  - destruct (finish_timeout i s) as [A2 L2]. fold s1 in A2, L2. split; [cbn in *; congruence|]. intros j a Ha. destruct (A1 j a Ha) as [A3 A4]. rewrite A2 in A3. apply lookup_delete_Some in A3 as [Hne A3]. split; [done|].
    intros [E|Hin]%elem_of_cons; [congruence|auto].
  - split; [exact L1|]. intros j a Ha. destruct (A1 j a Ha) as [A3 A4]. split; [done|]. intros [E|Hin]%elem_of_cons; [by injection E as -> ->|auto].
Qed.

Lemma complete_limits e r x u : keeps (fun s => (admissions s, limits s)) (complete env e r x u).
Proof. unfold complete, invalidate, erase_slot. cbv zeta. repeat first [keep_step|by apply say_keeps]. by destruct (_ && _). Qed.

Lemma complete_late_run (l : list (bytes * Running)) : forall s, NoDup l.*1 -> Forall (fun e => active s !! e.1 = Some e.2) l ->
  let s' := (for_each (fun e => if late_run env e.2 then complete env e.1 e.2 (status timeout) false else done) l s).1.2 in
  (admissions s', limits s') = (admissions s, limits s) /\ forall e r, active s' !! e = Some r -> active s !! e = Some r /\ ((e, r) ∈ l -> late_run env r = false).
Proof.
  induction l as [|[e r] l IH]; intros s Hd Hl; cbn [for_each].
  { cbn. split; [done|]. intros e r He. split; [done|]. by intros ?%elem_of_nil. }
  apply Forall_cons in Hl as [He Hl]. cbn in Hd, He. apply NoDup_cons in Hd as [Hn Hd]. rewrite after_bind. cbn [fst snd]. set (s1 := (_ s).1.2).
  assert (Hs1 : (admissions s1, limits s1) = (admissions s, limits s) /\ active s1 = if late_run env r then delete e (active s) else active s).
  { unfold s1. destruct (late_run env r); [|done]. split; [apply (complete_limits e r (status timeout) false s)|apply complete_active]. }
  destruct Hs1 as [E1 E2]. destruct (IH s1 Hd) as [L1 A1].
  { rewrite Forall_forall in Hl |- *. intros [e' r'] Hin. specialize (Hl _ Hin). cbn in *. rewrite E2. destruct (late_run env r); [|done]. rewrite lookup_delete_ne; [done|]. intros <-. apply Hn. rewrite list_elem_of_fmap. by exists (e, r'). }
  split; [cbn in *; congruence|]. intros e' r' He'. destruct (A1 _ _ He') as [A3 A4]. rewrite E2 in A3. destruct (late_run env r) eqn:Hlate.
  - apply lookup_delete_Some in A3 as [Hne A3]. split; [done|]. intros [E|Hin]%elem_of_cons; [congruence|auto].
  - split; [done|]. intros [E|Hin]%elem_of_cons; [by injection E as -> ->|auto].
Qed.

Lemma expire_slots_slots (l : list (bytes * Slot)) : forall s, NoDup l.*1 -> let s' := (expire_slots env l s).1.2 in
  (admissions s', active s', limits s') = (admissions s, active s, limits s) /\
  forall e x, slots s' !! e = Some x -> (slots s !! e = Some x /\ e ∉ l.*1) \/ in_time (queue x).
Proof.
  induction l as [|[e x] l IH]; intros s Hd; cbn [expire_slots].
  { cbn. split; [done|]. intros e x Hx. left. split; [done|]. by intros ?%elem_of_nil. }
  cbn in Hd. apply NoDup_cons in Hd as [Hn Hd]. rewrite after_bind. cbn [fst snd]. set (s1 := (expire_slot env (e, x) s).1.2). rewrite after_bind. cbn [mret act_ret fst snd].
  assert (Hs1 : (admissions s1, active s1, limits s1) = (admissions s, active s, limits s) /\ forall n y, slots s1 !! n = Some y -> (n <> e /\ slots s !! n = Some y) \/ in_time (queue y)).
  { unfold s1, expire_slot. rewrite after_modify, after_bind. cbn [fst snd mret act_ret]. set (y := with_queue _ _ _ _). destruct (drop_requests (List.filter (overdue env) (queue x)) (with_slots s (<[e := y]> (slots s)))) as (k & E & _).
    cbn [fst snd] in E. rewrite E. cbn [fst snd]. split; [done|]. cbn. intros n z [[<- <-]|[Hne H]]%lookup_insert_Some; [right|left; done]. unfold y, in_time. cbn. rewrite Forall_forall. intros r [_ Hr]%list_elem_of_In%filter_In. by apply negb_true_iff in Hr. }
  destruct Hs1 as [E1 E2]. destruct (IH s1 Hd) as [L1 A1]. split; [cbn in *; congruence|]. intros n y Hy. destruct (A1 _ _ Hy) as [[A2 A3]|A2]; [|by right]. destruct (E2 _ _ A2) as [[Hne A4]|A4]; [|by right].
  left. split; [done|]. by rewrite fmap_cons, not_elem_of_cons.
Qed.

Lemma expire_punctual s : (0 < lrequest_timeout_ms (limits s))%Z -> punctual (expire SHA256 env s).1.2.
Proof.
  intros Hl. unfold expire. rewrite after_state, after_bind. set (s1 := (for_each _ _ s).1.2). destruct (finish_late_run (map_to_list (admissions s)) s) as [L1 A1]. fold s1 in L1, A1.
  rewrite after_state, after_bind. destruct (jobs_of_table (active s1)) as [J1 J2]. set (s2 := (for_each _ _ s1).1.2). destruct (complete_late_run _ s1 J1 J2) as [E2 A2]. fold s2 in E2, A2. injection E2 as D2 L2.
  rewrite after_state, after_bind. set (s3 := (expire_slots env (map_to_list (slots s2)) s2).1.2). destruct (expire_slots_slots (map_to_list (slots s2)) s2 (NoDup_fst_map_to_list _)) as [E3 A3]. fold s3 in E3, A3. injection E3 as D3 R3 L3.
  assert (Hk : forall l, stays (for_each (fun r => say (rreply r) (status timeout)) l)) by (induction l as [|r l IH]; cbn [for_each]; [apply stays_done|apply stays_bind; [apply say_stays|intros; apply IH]]).
  apply Hk. constructor.
  - intros i a Ha. rewrite D3, D2 in Ha. destruct (A1 _ _ Ha) as [A4 A5]. by apply A5, elem_of_map_to_list.
  - intros e r Hr. rewrite R3 in Hr. destruct (A2 _ _ Hr) as [A4 A5]. by apply A5, elem_of_map_to_list.
  - intros e x Hx. destruct (A3 _ _ Hx) as [[A4 A5]|A4]; [|done]. exfalso. apply A5. rewrite list_elem_of_fmap. exists (e, x). split; [done|]. by apply elem_of_map_to_list.
  - by rewrite L3, L2, L1.
Qed.
End Deadlines.

(** The limits of a host never change. *)
Lemma owner_step_limits SHA256 x y : sys_inv x -> owner_step SHA256 x y -> limits (host_of y) = limits (host_of x).
Proof.
  intros [Hi _ _] Hst. destruct Hst as [x env e s outs E]. cbn [host_of]. assert (Hd : e = ev_stop \/ e <> ev_stop) by (destruct e; first [by left|by right]). destruct Hd as [->|Hd].
  - cbn [perform] in E. destruct (stopped (flags (host_of x))) eqn:Hs.
    + unfold stop in E. unfold mbind at 1, act_bind at 1, state at 1 in E. rewrite Hs in E. by injection E as <- <-.
    + pose proof (host_stop_run SHA256 env (host_of x) Hi Hs) as H. rewrite E in H. by destruct H as (_ & _ & ? & _).
  - destruct (inv_asked (asks e) (host_of x) Hi) as [Hi' _]. pose proof (perform_safe SHA256 env e (host_of x) Hd Hi') as H. rewrite E in H. by destruct H as (_ & [_ ? _ _ _] & _).
Qed.

Lemma host_run_limits SHA256 owner l x y : host_start owner l x -> rtc (owner_step SHA256) x y -> limits (host_of y) = l /\ settings_ok owner l = true.
Proof.
  intros Hx Hr. assert (Hi : sys_inv x) by (by eapply host_start_inv). assert (H0 : limits (host_of x) = l /\ settings_ok owner l = true).
  { destruct Hx as (s & Hs & ->). unfold host in Hs. destruct (settings_ok owner l); [|done]. cbn in Hs. by injection Hs as <-. }
  clear Hx. induction Hr as [|x z y Hxz Hr IH]; [done|]. apply IH; [by eapply owner_step_inv|]. split; [|by apply H0]. rewrite (owner_step_limits _ _ _ Hi Hxz). apply H0.
Qed.

(** C10 (liveness).  A poll leaves nothing late: whatever its budget, after it no admission,
    no execution of script logic and no queued request has a deadline that passed.  Only a
    job inside the storage executor may outlive its deadline. *)
Theorem poll_answers_late SHA256 owner l x y env budget work s outs : host_start owner l x -> rtc (owner_step SHA256) x y -> stopped (flags (host_of y)) = false ->
  perform SHA256 env (ev_poll budget work) (host_of y) = (tt, s, outs) ->
  (forall i a, admissions s !! i = Some a -> (e_now env < adeadline a)%Z) /\
  (forall e r steps n st, active s !! e = Some r -> run_phase r = executing steps n st -> (e_now env < rdeadline (run_request r))%Z) /\
  (forall e z r, slots s !! e = Some z -> r ∈ queue z -> (e_now env < rdeadline r)%Z).
Proof.
  intros Hx Hr Hs E. destruct (host_run_limits _ _ _ _ _ Hx Hr) as [Hl Hok]. destruct (settings_entities _ _ Hok) as [_ Ht].
  assert (Hp : punctual env s).
  { replace s with (perform SHA256 env (ev_poll budget work) (host_of y)).1.2 by (by rewrite E). cbn [perform]. unfold ignore. rewrite after_bind. cbn [done mret act_ret fst snd]. unfold poll. rewrite after_state, Hs, after_bind, after_state.
    apply poll_schedule_stays, expire_punctual. by rewrite Hl. }
  destruct Hp as [P1 P2 P3 _]. split; [done|]. split.
  - intros e r steps n st Hr' Hph. specialize (P2 _ _ Hr'). unfold late_run in P2. rewrite Hph in P2. by apply Z.leb_gt.
  - intros e z r Hz Hin. specialize (P3 _ _ Hz). unfold in_time in P3. rewrite Forall_forall in P3. specialize (P3 _ Hin). by apply Z.leb_gt.
Qed.

(** The host of the run, two seconds later. *)
Definition late_env : Env := MkEnv (ms 2000) 0 (fun _ => true) size (fun _ => Ok true) (fun who => who).
Definition polled : unit * Host * list host_output := perform sample_digest late_env (ev_poll 0 0) (host_of owner_final).

Lemma poll_answers_late_witness : told_names polled.2 = [14] /\ (forall e z r, slots polled.1.2 !! e = Some z -> r ∈ queue z -> (ms 2000 < rdeadline r)%Z).
Proof.
  split; [vm_compute; reflexivity|]. refine (proj2 (proj2 (poll_answers_late sample_digest _ _ _ _ late_env 0 0 polled.1.2 polled.2 owner_host_start owner_host_run _ _))); [vm_compute; reflexivity|]. unfold polled. by destruct (perform _ _ _ _) as [[[] s] o].
Defined.
