(* ===== verification/Client.v ===== *)
(** * The application client

    [Client] of [src/client.cpp] and [ClientScriptHost] of [include/fsnet/client_script_host.hpp]:
    the connection state machine of an application, the events it is told, its replies and
    the handles of the entities it sees, on top of the projections of [AttributeClient].

    An application callback may throw, disconnect and reconnect from inside the call; the
    other calls it makes are the next operations.  What it does may depend on everything
    it was told, so the state keeps that history.  The node's own callbacks are the
    events a poll is given, or operations of their own when the node refuses a call at once.
    The table of replies the node and the attribute client hold stands for their closures. *)

From stdpp Require Import gmap.
From S2P Require Import Prelude Actions Storage OrderedMap Identity Values AttributeWire Replica Delta Messages Fields TimerState DeliveryState Schema Transport Publisher Projection.

(** ** Data *)

Inductive ClientState := offline | connecting_state | online.
#[export] Instance client_state_eq_dec : EqDecision ClientState.
Proof. solve_decision. Defined.

Record ClientEndpoint := MkClientEndpoint { address : bytes; port : N; server_name : bytes }.
Record EntityKey := MkKey { key_type : bytes; key_id : bytes }.
Record ClientEntityHandle := MkHandle { hgeneration : N; hsubscription : N }.
#[export] Instance handle_eq_dec : EqDecision ClientEntityHandle.
Proof. solve_decision. Defined.

Inductive event_kind := k_connecting | k_connected | k_disconnected | k_enter | k_changed | k_control | k_leave.
Record ClientEvent := MkEvent {
  ekind : event_kind; egeneration : N; estatus : Status; ekey : EntityKey; ehandle : ClientEntityHandle; eautomatic : bool; eowned : option bool; econtrolled : bool }.

Record ClientEntity := MkEntity {
  entity_key : EntityKey; entity_handle : ClientEntityHandle; confirmed : AttributeUpdate; entity_automatic : bool; entity_owned : option bool; entity_controlled : bool }.

(** [EntityPresence] *)
Record Presence := MkPresence { pkind : PresenceKind; ptype : bytes; pentity : bytes; psubscription : N; powned : bool; pcontrolled : bool }.

Record Binding := MkBinding { bkey : EntityKey; bautomatic : bool; bowned : option bool; bcontrolled : bool; brevision : N }.

(** [ClientScriptHost] *)
Record ScriptHost := MkScriptHost {
  attributes : Projection.Client; events : list Presence; event_overflow : bool; queue_events : bool; extra_peers : list N; bound_routes : gset bytes }.

(** What the application is told and what the node is asked, oldest first. *)
Inductive notice :=
  | event_told (e : ClientEvent) | answered (n : N) (r : Result) | watch_answered (n : N) (s : Status) (h : ClientEntityHandle)
  | requested (call peer : N) (route payload : bytes) (timeout_ms : Z) | attributes_called (o : client_output)
  | peer_closed (peer : N) | route_unbound (route : bytes) | node_stopped.

(** A reply wrapped for the connection it was given on. *)
Record Guard := MkGuard { gepoch : N; greply : N }.

Record Link := MkLink { lstate : ClientState; lgeneration : N; lpeer : N; ldeadline : Z }.
Record Flags := MkFlags { polling : bool; applying : bool; shutdown : bool; disconnect_pending : bool }.
(** Replies held by the node, those held by the attribute client, and the history. *)
Record Ledger := MkLedger { calls : gmap N Guard; asks : gmap N Guard; serial : N; log : list notice }.

Record Client := MkSdk {
  host : option ScriptHost; bindings : gmap N Binding; link : Link; connect_timeout : Z; request_timeout : Z; flags : Flags;
  disconnect_status : Status; next_connect : option ClientEndpoint; error : option exn; ledger : Ledger }.

(** *** Updates *)

Definition with_host (s : Client) (h : option ScriptHost) : Client :=
  MkSdk h (bindings s) (link s) (connect_timeout s) (request_timeout s) (flags s) (disconnect_status s) (next_connect s) (error s) (ledger s).
Definition with_bindings (s : Client) (m : gmap N Binding) : Client :=
  MkSdk (host s) m (link s) (connect_timeout s) (request_timeout s) (flags s) (disconnect_status s) (next_connect s) (error s) (ledger s).
Definition with_link (s : Client) (l : Link) : Client :=
  MkSdk (host s) (bindings s) l (connect_timeout s) (request_timeout s) (flags s) (disconnect_status s) (next_connect s) (error s) (ledger s).
Definition with_flags (s : Client) (f : Flags) : Client :=
  MkSdk (host s) (bindings s) (link s) (connect_timeout s) (request_timeout s) f (disconnect_status s) (next_connect s) (error s) (ledger s).
Definition with_status (s : Client) (x : Status) : Client :=
  MkSdk (host s) (bindings s) (link s) (connect_timeout s) (request_timeout s) (flags s) x (next_connect s) (error s) (ledger s).
Definition with_next (s : Client) (n : option ClientEndpoint) : Client :=
  MkSdk (host s) (bindings s) (link s) (connect_timeout s) (request_timeout s) (flags s) (disconnect_status s) n (error s) (ledger s).
Definition with_error (s : Client) (e : option exn) : Client :=
  MkSdk (host s) (bindings s) (link s) (connect_timeout s) (request_timeout s) (flags s) (disconnect_status s) (next_connect s) e (ledger s).
Definition with_ledger (s : Client) (l : Ledger) : Client :=
  MkSdk (host s) (bindings s) (link s) (connect_timeout s) (request_timeout s) (flags s) (disconnect_status s) (next_connect s) (error s) l.

Definition with_state (s : Client) (x : ClientState) : Client := with_link s (MkLink x (lgeneration (link s)) (lpeer (link s)) (ldeadline (link s))).
Definition with_polling (s : Client) (b : bool) : Client := with_flags s (MkFlags b (applying (flags s)) (shutdown (flags s)) (disconnect_pending (flags s))).
Definition with_applying (s : Client) (b : bool) : Client := with_flags s (MkFlags (polling (flags s)) b (shutdown (flags s)) (disconnect_pending (flags s))).
Definition with_shutdown (s : Client) : Client := with_flags s (MkFlags (polling (flags s)) (applying (flags s)) true (disconnect_pending (flags s))).
Definition with_pending (s : Client) (b : bool) : Client := with_flags s (MkFlags (polling (flags s)) (applying (flags s)) (shutdown (flags s)) b).
Definition with_calls (s : Client) (m : gmap N Guard) : Client := with_ledger s (MkLedger m (asks (ledger s)) (serial (ledger s)) (log (ledger s))).
Definition with_asks (s : Client) (m : gmap N Guard) : Client := with_ledger s (MkLedger (calls (ledger s)) m (serial (ledger s)) (log (ledger s))).
Definition with_serial (s : Client) (n : N) : Client := with_ledger s (MkLedger (calls (ledger s)) (asks (ledger s)) n (log (ledger s))).
Definition with_log (s : Client) (l : list notice) : Client := with_ledger s (MkLedger (calls (ledger s)) (asks (ledger s)) (serial (ledger s)) l).

Definition with_attributes (h : ScriptHost) (c : Projection.Client) : ScriptHost :=
  MkScriptHost c (events h) (event_overflow h) (queue_events h) (extra_peers h) (bound_routes h).
Definition with_events (h : ScriptHost) (l : list Presence) (b : bool) : ScriptHost :=
  MkScriptHost (attributes h) l b (queue_events h) (extra_peers h) (bound_routes h).

(** ** Actions: the state survives an exception *)

Abbreviation act := (Actions.act Client).

Definition note (n : notice) : act unit := modify (fun s => with_log s (log (ledger s) ++ [n])).

(** What an application callback does to the client that calls it. *)
Inductive reaction := throws (e : exn) | disconnects | connects (e : ClientEndpoint).

(** What the clock, the node and the application answer during one operation: whether the
    current peer is connected or connecting, what [Node::connect] returns, whether the
    notification channels can be taken, the random prefix of request identities. *)
Record Env := MkEnv {
  e_now : Z; e_connected : bool; e_connecting : bool; e_connect : ClientEndpoint -> result N; e_attach : result unit; e_prefix : bytes;
  e_app : list notice -> list reaction }.

(** [active()] *)
Definition active (s : Client) : bool :=
  negb (shutdown (flags s)) && negb (disconnect_pending (flags s)) && negb (bool_decide (lstate (link s) = offline)) && bool_decide (is_Some (host s)) && negb (lpeer (link s) =? 0).

(** [request_disconnect(status)] *)
Definition request_disconnect (x : Status) : act unit := modify (fun s => with_status (with_pending s true) x).

Definition info_binding (i : AttributeProjectionInfo) (revision : N) : Binding :=
  MkBinding (MkKey (itype i) (iid i)) (iautomatic i) (if iautomatic i then Some (iowned i) else None) (icontrolled i) revision.

(** ** Callbacks *)

Section Callbacks.
Context (env : Env) (apply_actions : act unit).

(** [disconnect()] *)
Definition disconnect : act unit := request_disconnect ok;; apply_actions.

(** [connect(endpoint)] *)
Definition connect (e : ClientEndpoint) : act unit :=
  if is_empty (address e) || (port e =? 0) then raise invalid_argument
  else
    s ← state;
    if shutdown (flags s) || (negb (bool_decide (lstate (link s) = offline)) && negb (disconnect_pending (flags s))) then raise logic_error
    else if is_some (next_connect s) then raise logic_error
    else modify (fun s => with_next s (Some e));; apply_actions.

Definition react (r : reaction) : act unit :=
  match r with throws e => raise e | disconnects => disconnect | connects e => connect e end.

(** [invoke(fn)], where [fn] tells the application [n]. *)
Definition invoke (n : notice) : act unit :=
  s ← state;
  if shutdown (flags s) then done
  else attempt (note n;; s ← state; for_each react (e_app env (log (ledger s))))
               (fun e => modify (fun s => with_error s (Some e));; request_disconnect internal).

(** [emit(event)] *)
Definition emit (e : ClientEvent) : act unit := invoke (event_told e).
Definition emit_connection (k : event_kind) (x : Status) : act unit :=
  s ← state; emit (MkEvent k (lgeneration (link s)) x (MkKey [] []) (MkHandle 0 0) false None false).
Definition emit_binding (k : event_kind) (id : N) (b : Binding) (x : Status) : act unit :=
  s ← state; emit (MkEvent k (lgeneration (link s)) x (bkey b) (MkHandle (lgeneration (link s)) id) (bautomatic b) (bowned b) (bcontrolled b)).

(** [ready()] *)
Definition ready : act unit :=
  s ← state;
  if active s && bool_decide (lstate (link s) = connecting_state) && e_connected env
  then modify (fun s => with_state s online);; emit_connection k_connected ok else done.

(** [changed(id, status, replica)] *)
Definition changed (id : N) (x : Status) (r : option AttributeReplica) : act unit :=
  ready;;
  s ← state;
  if negb (active s) then done
  else
    match bool_decide (x = ok), r, bindings s !! id with
    | true, Some r, None =>
        match host s ≫= fun h => projection_info id (attributes h) with
        | None => done
        | Some i => let b := info_binding i (replica_revision r) in modify (fun s => with_bindings s (<[id := b]> (bindings s)));; emit_binding k_enter id b ok
        end
    | true, Some r, Some b =>
        if brevision b =? replica_revision r then done
        else
          let b := MkBinding (bkey b) (bautomatic b) (bowned b) (bcontrolled b) (replica_revision r) in
          modify (fun s => with_bindings s (<[id := b]> (bindings s)));; emit_binding k_changed id b ok
    | _, _, Some b => modify (fun s => with_bindings s (delete id (bindings s)));; emit_binding k_leave id b x
    | _, _, None => done
    end.

(** [presence(event)] *)
Definition presence (p : Presence) : act unit :=
  ready;;
  s ← state;
  if negb (active s) then done
  else
    match bindings s !! psubscription p with
    | None => done
    | Some b =>
        match pkind p with
        | leave => modify (fun s => with_bindings s (delete (psubscription p) (bindings s)));; emit_binding k_leave (psubscription p) b disconnected
        | _ =>
            if Bool.eqb (bcontrolled b) (pcontrolled p) then done
            else
              let b := MkBinding (bkey b) (bautomatic b) (bowned b) (pcontrolled p) (brevision b) in
              modify (fun s => with_bindings s (<[psubscription p := b]> (bindings s)));; emit_binding k_control (psubscription p) b ok
        end
    end.

(** The function [guarded] returns. *)
Definition guarded (g : Guard) (r : Result) : act unit :=
  s ← state;
  if shutdown (flags s) then done
  else
    ready;;
    s ← state;
    invoke (answered (greply g) (if negb (lgeneration (link s) =? gepoch g) || negb (active s) then MkResult disconnected [] else r)).

(** *** ClientScriptHost *)

(** [event(value)] *)
Definition queue_event (p : Presence) (h : ScriptHost) : ScriptHost * list notice :=
  if event_overflow h || negb (queue_events h) then (h, [])
  else if 512 <=? N.of_nat (length (events h)) then (with_events h [] true, [peer_closed (Projection.cpeer (attributes h))])
  else (with_events h (events h ++ [p]) false, []).

(** [attribute_snapshot(subscription)] *)
Definition attribute_snapshot (id : N) (h : ScriptHost) : option AttributeUpdate := get id (attributes h) ≫= replica_snapshot.

(** The callbacks of [watch]: that of the script host, then that of the client. *)
Definition watch_ready (g : Guard) (x : Status) (id : N) : act unit :=
  s ← state;
  let x := if bool_decide (x = ok) && bool_decide ((host s ≫= fun h => get id (attributes h)) = None) then disconnected else x in
  if shutdown (flags s) then done
  else
    ready;;
    s ← state;
    let x := if negb (lgeneration (link s) =? gepoch g) || negb (active s) then disconnected else x in
    x ← (if bool_decide (x = ok) && bool_decide (bindings s !! id = None) then
           match host s ≫= fun h => projection_info id (attributes h), host s ≫= fun h => attribute_snapshot id h with
           | Some i, Some u =>
               let b := info_binding i (revision u) in
               modify (fun s => with_bindings s (<[id := b]> (bindings s)));; emit_binding k_enter id b ok;; mret ok
           | _, _ => mret disconnected
           end
         else mret x);
    s ← state;
    let x := if bool_decide (x = ok) && (negb (active s) || bool_decide (bindings s !! id = None)) then disconnected else x in
    invoke (watch_answered (greply g) x (if bool_decide (x = ok) then MkHandle (gepoch g) id else MkHandle 0 0)).

(** The observers of a host are those of the connection [epoch] that created it. *)
Definition observed (epoch : N) (s : Client) : bool := (lgeneration (link s) =? epoch) && bool_decide (is_Some (host s)).

(** One callback, or one call to the node, of the attribute client of connection [epoch]. *)
Definition handle (epoch : N) (o : client_output) : act unit :=
  s ← state;
  match o with
  | told_changed id x r => when (observed epoch s && negb (shutdown (flags s))) (changed id x r)
  | told_presence k type id sub owned controlled =>
      let p := MkPresence k type id sub owned controlled in
      match (if observed epoch s then host s else None) with
      | None => done
      | Some h => let '(h, out) := queue_event p h in modify (fun s => with_host s (Some h));; for_each note out;; s ← state; when (negb (shutdown (flags s))) (presence p)
      end
  | told_ready k x id =>
      match asks (ledger s) !! k with
      | None => done
      | Some g => modify (fun s => with_asks s (delete k (asks (ledger s))));; watch_ready g x id
      end
  | told_written k x =>
      match asks (ledger s) !! k with
      | None => done
      | Some g => modify (fun s => with_asks s (delete k (asks (ledger s))));; guarded g (MkResult x [])
      end
  | o => note (attributes_called o)
  end.

(** An operation of the current attribute client. *)
Definition host_operation (f : Projection.Client -> Projection.Client * list client_output) : act unit :=
  s ← state;
  match host s with
  | None => done
  | Some h => let '(c, out) := f (attributes h) in modify (fun s => with_host s (Some (with_attributes h c)));; for_each (handle (lgeneration (link s))) out
  end.

(** The reply to a request of the client. *)
Definition call_replied (k : N) (r : Result) : act unit :=
  s ← state;
  match calls (ledger s) !! k with
  | None => done
  | Some g => modify (fun s => with_calls s (delete k (calls (ledger s))));; guarded g r
  end.

End Callbacks.

(** ** Connecting and disconnecting

    [apply_actions] runs these with [applying] set, when a nested [apply_actions] returns at
    once. *)

Section Actions.
Context (env : Env).

(** [Node::close(peer)] calls the replies of the calls to the peer; [Node::stop()] all. *)
Definition fail_calls : act unit :=
  s ← state; for_each (fun k => call_replied env done k (MkResult disconnected [])) (map fst (map_to_list (calls (ledger s)))).
Definition close_peer (p : N) : act unit := note (peer_closed p);; fail_calls.
Definition stop_node : act unit := note node_stopped;; fail_calls.

(** [ClientScriptHost::stop()], its observers removed and [host] no longer set. *)
Definition stop_host (h : ScriptHost) : act unit :=
  s ← state;
  for_each (handle env done (lgeneration (link s))) (Projection.stop false (attributes h)).2;;
  for_each (fun r => note (route_unbound r)) (elements (bound_routes h));;
  for_each (fun p => note (peer_closed p)) (extra_peers h).

(** [cleanup()] *)
Definition cleanup : act unit :=
  modify (fun s => with_pending s false);;
  old ← state;
  let l := link old in
  modify (fun s => with_bindings (with_link (with_host s None) (MkLink offline (lgeneration l) 0 (ldeadline l))) ∅);;
  match host old with Some h => stop_host h | None => done end;;
  when (negb (lpeer l =? 0)) (close_peer (lpeer l));;
  for_each (fun e => emit_binding env done k_leave e.1 e.2 disconnected) (map_to_list (bindings old));;
  s ← state;
  when (negb (bool_decide (lstate l = offline))) (emit_connection env done k_disconnected (disconnect_status s)).

(** [ClientScriptHost(node, peer, false)] *)
Definition script_host_of (p : N) : result ScriptHost :=
  let* c := attribute_client p (e_prefix env) in let* _ := e_attach env in Ok (MkScriptHost c [] false false [] ∅).

(** [start(endpoint)] *)
Definition start (e : ClientEndpoint) : act unit :=
  s ← state;
  let g := lgeneration (link s) in
  if g =? u64_max then raise overflow_error
  else
    match e_connect env e with
    | Throw x => raise x
    | Ok p =>
        match script_host_of p with
        | Throw x => close_peer p;; raise x
        | Ok h =>
            modify (fun s => with_error (with_host (with_link s (MkLink connecting_state (g + 1) p (e_now env + ms (connect_timeout s)))) (Some h)) None);;
            emit_connection env done k_connecting ok
        end
    end.

(** [apply_actions()] *)
Definition apply_actions : act unit :=
  s ← state;
  if polling (flags s) || applying (flags s) then done
  else
    modify (fun s => with_applying s true);;
    attempt
      (when (disconnect_pending (flags s)) cleanup;;
       s ← state;
       (if shutdown (flags s) then modify (fun s => with_next s None);; stop_node
        else match next_connect s with
             | Some e => when (bool_decide (lstate (link s) = offline)) (modify (fun s => with_next s None);; start e)
             | None => done
             end);;
       s ← state;
       when (shutdown (flags s) && bool_decide (is_Some (host s))) (cleanup;; stop_node);;
       modify (fun s => with_applying s false))
      (fun e => modify (fun s => with_applying s false);; raise e).

End Actions.

(** [timeout(value)] *)
Definition timeout_of (s : Client) (value : Z) : Z := if (value =? 0)%Z then request_timeout s else value.

Definition fresh_guard (n : N) : act (N * Guard) :=
  s ← state; let k := serial (ledger s) + 1 in modify (fun s => with_serial s k);; mret (k, MkGuard (lgeneration (link s)) n).

(** [select_binding(id, type)] *)
Definition better (selected : option (N * bool)) (id : N) (b : Binding) : bool :=
  match selected with None => true | Some (best, automatic) => (bautomatic b && negb automatic) || (Bool.eqb (bautomatic b) automatic && (id <? best)) end.
Definition select_binding (id : bytes) (type : option bytes) (s : Client) : option ClientEntityHandle :=
  let pick selected e :=
    let '(k, b) := e in
    if negb (bytes_eqb (key_id (bkey b)) id) || match type with Some t => negb (bytes_eqb (key_type (bkey b)) t) | None => false end then selected
    else if better selected k b then Some (k, bautomatic b) else selected in
  (fun e => MkHandle (lgeneration (link s)) e.1) <$> fold_left pick (map_to_list (bindings s)) None.

(** ** Operations *)

Section Operations.
Context (env : Env).
Let apply := apply_actions env.

(** [Client::connect] and [Client::disconnect] *)
Definition client_connect (e : ClientEndpoint) : act unit := connect apply e.
Definition client_disconnect : act unit := disconnect apply.

(** [request(route, payload, reply, timeout)] *)
Definition request (route payload : bytes) (n : N) (timeout_ms : Z) : act unit :=
  '(k, g) ← fresh_guard n;
  s ← state;
  if negb (active s) then guarded env apply g (MkResult disconnected [])
  else modify (fun s => with_calls s (<[k := g]> (calls (ledger s))));; note (requested k (lpeer (link s)) route payload (timeout_of s timeout_ms)).

(** [call(key, method, payload, reply, options)] *)
Definition call (k : EntityKey) (method payload : bytes) (n : N) (request_id : bytes) (timeout_ms : Z) : act unit :=
  match (let* id := entity_id_of_text (key_id k) in entity_call_message id method payload request_id (key_type k)) with
  | Throw _ => '(_, g) ← fresh_guard n; guarded env apply g (MkResult rejected [])
  | Ok message => request (lit "@") message n timeout_ms
  end.
(** [call(id, method, payload, reply, options)] *)
Definition call_id (id : EntityId) (method payload : bytes) (n : N) (request_id : bytes) (timeout_ms : Z) : act unit :=
  match entity_call_message id method payload request_id [] with
  | Throw _ => '(_, g) ← fresh_guard n; guarded env apply g (MkResult rejected [])
  | Ok message => request (lit "@") message n timeout_ms
  end.

(** [watch(key, reply, timeout)] *)
Definition watch (k : EntityKey) (n : N) : act unit :=
  s ← state;
  if negb (valid_entity_id (key_id k)) then invoke env apply (watch_answered n rejected (MkHandle 0 0))
  else if negb (active s) then invoke env apply (watch_answered n disconnected (MkHandle 0 0))
  else
    '(r, g) ← fresh_guard n;
    modify (fun s => with_asks s (<[r := g]> (asks (ledger s))));;
    host_operation env apply (Projection.watch (key_type k) (key_id k) r).

(** [write(handle, values, reply, options, timeout)] *)
Definition write (h : ClientEntityHandle) (vs : AttributeStruct) (n : N) (request_id : bytes) (expected : option N) : act unit :=
  '(r, g) ← fresh_guard n;
  s ← state;
  if negb (active s) then guarded env apply g (MkResult disconnected [])
  else if negb (hgeneration h =? lgeneration (link s)) || bool_decide (bindings s !! hsubscription h = None) then guarded env apply g (MkResult rejected [])
  else
    modify (fun s => with_asks s (<[r := g]> (asks (ledger s))));;
    host_operation env apply (Projection.write (hsubscription h) vs r request_id expected).

(** [unwatch(handle)] *)
Definition unwatch (h : ClientEntityHandle) : act unit :=
  s ← state; when (hgeneration h =? lgeneration (link s)) (host_operation env apply (Projection.unwatch false (hsubscription h))).

(** A callback of the node. *)
Inductive node_event :=
  | n_replied (k : N) (r : Result) | n_watched (k : N) (r : Result) | n_written (k : N) (r : Result) | n_renewed (id : N) (r : Result)
  | n_update (from : N) (data : bytes) | n_presence (from : N) (data : bytes).

Definition node_callback (e : node_event) : act unit :=
  match e with
  | n_replied k r => call_replied env apply k r
  | n_watched k r => host_operation env apply (Projection.watch_replied false (e_now env) k r)
  | n_written k r => host_operation env apply (Projection.write_replied k r)
  | n_renewed id r => host_operation env apply (Projection.renewed false id r)
  | n_update from data => host_operation env apply (Projection.receive false from data)
  | n_presence from data => host_operation env apply (Projection.receive_presence false (e_now env) from data)
  end.

(** The end of [poll]: the host's own poll and the connection's health. *)
Definition poll_connection : act unit :=
  s ← state;
  when (active s) (host_operation env apply (Projection.poll false (e_connected env) (e_now env)));;
  ready env apply;;
  s ← state;
  when (active s && negb (e_connected env))
    (if negb (e_connecting env) then request_disconnect disconnected
     else when (ldeadline (link s) <=? e_now env)%Z (request_disconnect timeout)).

End Operations.

(** [poll()]; [es]: the callbacks of the node's poll, each with what it finds; [failure]:
    what the node's poll throws after them. *)
Definition poll (env : Env) (es : list (Env * node_event)) (failure : option exn) : act unit :=
  s ← state;
  if polling (flags s) then raise logic_error
  else
    apply_actions env;;
    s ← state;
    if shutdown (flags s) then done
    else
      modify (fun s => with_polling s true);;
      attempt
        (for_each (fun e => node_callback e.1 e.2) es;;
         match failure with Some x => raise x | None => done end;;
         poll_connection env;;
         modify (fun s => with_polling s false))
        (fun e => modify (fun s => with_polling s false);; request_disconnect internal;; apply_actions env;; raise e);;
      apply_actions env.

(** The destructor. *)
Definition destroy (env : Env) : act unit := modify with_shutdown;; request_disconnect ok;; apply_actions env.

(** [Impl(options)] *)
Definition bad_client_timeout (t : Z) : bool := (t <=? 0)%Z || (30000 <? t)%Z.
Definition client (connect_ms request_ms : Z) : result Client :=
  throw_if bad_client_timeout connect_ms || bad_client_timeout request_ms as invalid_argument ;;
  Ok (MkSdk None ∅ (MkLink offline 0 0 0) connect_ms request_ms (MkFlags false false false false) ok None None (MkLedger ∅ ∅ 0 [])).

(** ** Queries *)

(** [entity(handle)] *)
Definition entity (h : ClientEntityHandle) (s : Client) : option ClientEntity :=
  if negb (hgeneration h =? lgeneration (link s)) || negb (active s) then None
  else
    b ← bindings s !! hsubscription h;
    u ← (host s ≫= attribute_snapshot (hsubscription h));
    Some (MkEntity (bkey b) h u (bautomatic b) (bowned b) (bcontrolled b)).
(** [entity(key)] and [entity(id)] *)
Definition entity_by_key (k : EntityKey) (s : Client) : option ClientEntity := select_binding (key_id k) (Some (key_type k)) s ≫= fun h => entity h s.
Definition entity_by_id (id : EntityId) (s : Client) : option ClientEntity := select_binding (str id) None s ≫= fun h => entity h s.
(** [controlled()] *)
Definition controlled (s : Client) : option ClientEntity :=
  match List.find (fun e => bcontrolled e.2) (map_to_list (bindings s)) with Some e => entity (MkHandle (lgeneration (link s)) e.1) s | None => None end.
(** [entities()] *)
Definition entities (s : Client) : list ClientEntity := omap (fun e => entity (MkHandle (lgeneration (link s)) e.1) s) (map_to_list (bindings s)).

(** The identity the node gives a peer, for the connection started as [epoch] with [server]. *)
Definition server_identity (epoch server incoming : N) (certificate : bytes) (s : Client) : option CallIdentity :=
  if negb (active s) || negb (lgeneration (link s) =? epoch) || negb (incoming =? server) then None
  else Some (MkIdentity Schema.server (if is_empty certificate then lit "configured-server" else certificate) incoming (MkConnection [] 0) None None).

(** ** The script's side of the host *)

Definition change_host (f : ScriptHost -> ScriptHost * list notice) : act unit :=
  s ← state; match host s with Some h => let '(h, out) := f h in modify (fun s => with_host s (Some h));; for_each note out | None => done end.

(** [enable_entity_events()] *)
Definition enable_entity_events (h : ScriptHost) : ScriptHost * list notice :=
  if queue_events h then (h, [])
  else
    let h := MkScriptHost (attributes h) (events h) (event_overflow h) true (extra_peers h) (bound_routes h) in
    fold_left (fun acc i => if iautomatic i then let '(h, out) := queue_event (MkPresence enter (itype i) (iid i) (isubscription i) (iowned i) (icontrolled i)) acc.1 in (h, acc.2 ++ out) else acc)
      (projection_infos (attributes h)) (h, []).

(** [script_host()] *)
Definition script_host : act unit :=
  s ← state; if polling (flags s) || negb (active s) then raise logic_error else change_host enable_entity_events.

(** [pop_entity_event()] *)
Definition pop_entity_event (h : ScriptHost) : result (option Presence * ScriptHost) :=
  throw_if event_overflow h as runtime_error ;;
  Ok (match events h with [] => (None, h) | p :: l => (Some p, with_events h l false) end).

(** [stop_entity_events()] *)
Definition stop_entity_events (env : Env) : act unit :=
  host_operation env (apply_actions env) (Projection.stop_entities false);; change_host (fun h => (with_events h [] (event_overflow h), [])).

(** [bind], [unbind] and [connect] of the host; [taken]: what the node throws. *)
Definition tracked_bind (route : bytes) (taken : result unit) (h : ScriptHost) : result ScriptHost :=
  throw_if bool_decide (route ∈ bound_routes h) as logic_error ;;
  let* _ := taken in Ok (MkScriptHost (attributes h) (events h) (event_overflow h) (queue_events h) (extra_peers h) ({[route]} ∪ bound_routes h)).
Definition host_unbind (route : bytes) (h : ScriptHost) : ScriptHost * list notice :=
  if bool_decide (route ∈ bound_routes h) then (MkScriptHost (attributes h) (events h) (event_overflow h) (queue_events h) (extra_peers h) (bound_routes h ∖ {[route]}), [route_unbound route])
  else (h, []).
Definition host_connect (peer : result N) (h : ScriptHost) : result (N * ScriptHost) :=
  let* p := peer in Ok (p, MkScriptHost (attributes h) (events h) (event_overflow h) (queue_events h) (extra_peers h ++ [p]) (bound_routes h)).
