(* ===== verification/ClientMirror.v ===== *)
(** * What the attribute client tells about its projections

    The callbacks of [AttributeClient], read in order, change a table of bindings exactly as
    the operation that makes them changes its projections. *)

From stdpp Require Import gmap.
From S2P Require Import Prelude MapSum Storage OrderedMap Identity Values AttributeWire Replica Delta Messages Fields TimerState DeliveryState Schema Transport Publisher Client Projection ProjectionCorrect.

Definition binding_of (p : Projection) : Binding :=
  MkBinding (MkKey (jtype p) (jentity p)) (jautomatic p) (if jautomatic p then Some (jowned p) else None) (jcontrolled p) (replica_revision (jreplica p)).
Definition bindings_of (c : Projection.Client) : gmap N Binding := binding_of <$> projections c.

Definition with_revision (b : Binding) (r : N) : Binding := MkBinding (bkey b) (bautomatic b) (bowned b) (bcontrolled b) r.
Definition with_control (b : Binding) (x : bool) : Binding := MkBinding (bkey b) (bautomatic b) (bowned b) x (brevision b).

(** The bindings after one callback; [c] is the client it comes from. *)
Definition absorb (c : Projection.Client) (m : gmap N Binding) (o : client_output) : gmap N Binding :=
  match o with
  | told_changed id ok (Some r) =>
      match m !! id with
      | Some b => <[id := with_revision b (replica_revision r)]> m
      | None => match projections c !! id with Some p => <[id := with_revision (binding_of p) (replica_revision r)]> m | None => m end
      end
  | told_changed id _ _ => delete id m
  | told_presence k _ _ id _ x =>
      match m !! id with
      | Some b => match k with leave => delete id m | _ => <[id := with_control b x]> m end
      | None => m
      end
  | _ => m
  end.

Definition follows (c c' : Projection.Client) (out : list client_output) : Prop := fold_left (absorb c') out (bindings_of c) = bindings_of c'.

(** Outputs that only remove. *)
Definition removes (o : client_output) : Prop := match o with told_changed _ ok (Some _) => False | told_presence k _ _ _ _ _ => k = leave | _ => True end.

Lemma absorb_removes c c' out : Forall removes out -> forall m, fold_left (absorb c) out m = fold_left (absorb c') out m.
Proof. induction 1 as [|o out Ho _ IH]; intros m; [done|]. cbn. rewrite IH. f_equal. by destruct o as [| |? [] [?|]| | | | | |]. Qed.

Lemma follows_trans c1 c2 c3 o1 o2 : Forall removes o1 -> follows c1 c2 o1 -> follows c2 c3 o2 -> follows c1 c3 (o1 ++ o2).
Proof. unfold follows. intros Hr H1 H2. by rewrite fold_left_app, (absorb_removes c3 c2 o1 Hr), H1. Qed.

Lemma follows_same c c' : projections c' = projections c -> follows c c' [].
Proof. unfold follows, bindings_of. by intros ->. Qed.

Lemma follows_silent c c' out : projections c' = projections c -> Forall (fun o => match o with told_changed _ _ _ | told_presence _ _ _ _ _ _ => False | _ => True end) out -> follows c c' out.
Proof. intros E. unfold follows, bindings_of. rewrite E. clear E. generalize (binding_of <$> projections c). induction out as [|o out IH]; intros m; [done|]. intros [Ho Hf]%Forall_cons. cbn. rewrite <- (IH m Hf) at 2. by destruct o. Qed.

Lemma leave_removes throws id p : Forall removes (presence_event throws id p leave).
Proof. unfold presence_event. destruct (jautomatic p); [|constructor]. constructor; [done|]. destruct throws; by repeat constructor. Qed.

Lemma absorb_leave c throws id p m : m !! id = None -> fold_left (absorb c) (presence_event throws id p leave) m = m.
Proof. intros Hm. unfold presence_event. destruct (jautomatic p); [|done]. cbn. rewrite Hm. by destruct throws. Qed.

Lemma remove_follows throws id x remote c c' out : remove throws id x remote c = (c', out) -> follows c c' out /\ Forall removes out.
Proof.
  unfold remove. destruct (projections c !! id) as [p|] eqn:Hp; [|intros [= <- <-]; split; [by apply follows_same|constructor]]. intros [= <- <-]. split.
  - unfold follows. rewrite fold_left_app. assert (E : fold_left (absorb (with_projections c (delete id (projections c)) (cbytes c - jbytes p))) (if remote then [called_unwatch id] else []) (bindings_of c) = bindings_of c) by (by destruct remote).
    rewrite E. clear E. cbn [app fold_left]. assert (E : absorb (with_projections c (delete id (projections c)) (cbytes c - jbytes p)) (bindings_of c) (told_changed id x None) = delete id (bindings_of c)) by (by destruct x).
    rewrite E. rewrite absorb_leave by apply lookup_delete_eq. unfold bindings_of. cbn. by rewrite fmap_delete.
  - apply Forall_app. split; [destruct remote; by repeat constructor|]. constructor; [by destruct x|apply leave_removes].
Qed.

Lemma stop_follows throws c c' out : (cstopped c = true -> projections c = ∅) -> stop throws c = (c', out) -> follows c c' out /\ Forall removes out.
Proof.
  intros Hst. unfold stop. destruct (cstopped c) eqn:Hs; [intros [= <- <-]; split; [by apply follows_same|constructor]|]. intros [= <- <-].
  assert (Hrest : Forall removes (map (fun e => told_written e.2 disconnected) (map_to_list (cwrites c)) ++ map (fun e => told_ready (wready e.2) disconnected 0) (map_to_list (cpending c)))).
  { apply Forall_app. split; apply Forall_map, Forall_true; done. }
  assert (Hleave : forall l : list (N * Projection), Forall removes (flat_map (fun e => called_unwatch e.1 :: told_changed e.1 disconnected None :: presence_event throws e.1 e.2 leave) l)).
  { intros l. apply Forall_flat_map, Forall_true. intros e. constructor; [done|]. constructor; [done|]. apply leave_removes. }
  split; [|by apply Forall_app].
  unfold follows. set (c' := MkClient _ _ _ _ _ _ _ _ _). rewrite fold_left_app.
  assert (E : forall l m, (forall k b, m !! k = Some b -> k ∈ l.*1) ->
    fold_left (absorb c') (flat_map (fun e => called_unwatch e.1 :: told_changed e.1 disconnected None :: presence_event throws e.1 e.2 leave) l) m = ∅).
  { induction l as [|[k p] l IH]; intros m Hm; cbn [flat_map].
    - cbn. apply map_empty. intros i. destruct (m !! i) eqn:Hi; [|done]. apply Hm in Hi. by apply elem_of_nil in Hi.
    - rewrite fold_left_app. cbn [fold_left absorb fst snd]. rewrite absorb_leave by apply lookup_delete_eq. apply IH. intros j b [Hne Hj]%lookup_delete_Some. apply Hm in Hj. apply elem_of_cons in Hj as [->|]; done. }
  rewrite E; [|intros k b Hk; unfold bindings_of in Hk; rewrite lookup_fmap in Hk; destruct (projections c !! k) as [p|] eqn:Hp; [|done]; apply list_elem_of_fmap; exists (k, p); split; [done|by apply elem_of_map_to_list]].
  transitivity (∅ : gmap N Binding); [|symmetry; exact (fmap_empty binding_of)].
  clear. generalize (map_to_list (cwrites c)) (map_to_list (cpending c)). intros l1 l2. rewrite fold_left_app.
  assert (E1 : fold_left (absorb c') (map (fun e => told_written e.2 disconnected) l1) ∅ = ∅) by (induction l1; done). rewrite E1. by induction l2.
Qed.

(** ** The operations *)

Lemma enter_follows throws now m u flags c c' out : projections c !! subscription m = None -> enter_entity throws now m u flags c = Ok (c', out) -> follows c c' out.
Proof.
  intros Hn. unfold enter_entity. destruct (_ <=? _); [done|]. cbn [bind]. destruct (apply_unbounded empty_replica u) as [[fresh r]|]; [|done]. cbn [bind]. destruct (negb fresh); [done|].
  destruct (attribute_wire_size u) as [n|]; [|done]. cbn [bind]. destruct (_ <? _); [done|]. intros [= <- <-]. unfold follows. cbn [fold_left]. set (p := MkProjection _ _ _ _ _ _ _ _ _).
  assert (Hb : bindings_of c !! subscription m = None) by (unfold bindings_of; by rewrite lookup_fmap, Hn). cbn [absorb]. rewrite Hb. cbn [projections with_projections]. rewrite lookup_insert_eq.
  change (with_revision (binding_of p) (replica_revision r)) with (binding_of p).
  transitivity (<[subscription m := binding_of p]> (bindings_of c)); [|unfold bindings_of; cbn; by rewrite fmap_insert].
  unfold presence_event. subst p. cbn [jautomatic]. cbn [fold_left absorb jtype jentity jowned jcontrolled]. rewrite lookup_insert_eq. rewrite insert_insert_eq. by destruct throws.
Qed.

Lemma presence_body_follows throws now data c c' out : presence_body throws now data c = Ok (c', out) -> follows c c' out.
Proof.
  unfold presence_body. destruct (presence_message data) as [[[kind flags] m]|]; [|done]. cbn [bind].
  assert (Hsame : forall o, Forall (fun o => match o with told_changed _ _ _ | told_presence _ _ _ _ _ _ => False | _ => True end) o -> Ok (c, o) = Ok (c', out) -> follows c c' out).
  { intros o Ho [= <- <-]. by apply follows_silent. }
  destruct (kind =? 2).
  { destruct (bool_decide _); [done|]. destruct (projections c !! subscription m) as [p|]; [|by apply Hsame]. destruct (_ || _); [done|]. intros [= E]. by apply remove_follows in E as [? _]. }
  destruct (packet_status m); try done. destruct (packet_update m) as [u|]; [|done]. destruct (_ || _); [done|]. destruct (projections c !! subscription m) as [p|] eqn:Hp.
  - destruct (_ || _) eqn:E; [done|]. apply orb_false_iff in E as [E _]. do 2 apply orb_false_iff in E as [E _]. apply negb_false_iff in E. destruct (Bool.eqb _ _); [by apply Hsame|].
    intros [= <- <-]. unfold follows, presence_event. cbn [jautomatic with_jcontrol]. rewrite E. cbn [fold_left absorb jtype jentity jowned jcontrolled with_jcontrol].
    assert (Hb : bindings_of c !! subscription m = Some (binding_of p)) by (unfold bindings_of; by rewrite lookup_fmap, Hp). rewrite Hb.
    transitivity (<[subscription m := binding_of (with_jcontrol p (N.testbit flags 1))]> (bindings_of c)); [by destruct throws|]. unfold bindings_of. cbn. by rewrite fmap_insert.
  - destruct (entities_stopped c); [apply Hsame; by repeat constructor|]. destruct (negb _); [by apply Hsame|]. by apply enter_follows.
Qed.

Lemma receive_body_follows throws data c c' out : receive_body throws data c = Ok (c', out) -> follows c c' out.
Proof.
  unfold receive_body. destruct (decode_replication_packet data) as [m|]; [|done]. cbn [bind]. destruct (projections c !! subscription m) as [p|] eqn:Hp; [|intros [= <- <-]; by apply follows_same].
  destruct (_ || _); [done|]. assert (Hrem : forall x b, Ok (remove throws (subscription m) x b c) = Ok (c', out) -> follows c c' out) by (intros x b [= E]; by apply remove_follows in E as [? _]).
  destruct (packet_status m); try by apply Hrem. destruct (packet_update m) as [u|]; [|done].
  destruct (apply _ _ _) as [[[] r]|[]]; try done; try by apply Hrem. intros [= <- <-]. unfold follows. cbn [fold_left absorb].
  assert (Hb : bindings_of c !! subscription m = Some (binding_of p)) by (unfold bindings_of; by rewrite lookup_fmap, Hp). rewrite Hb. unfold bindings_of. cbn. by rewrite fmap_insert.
Qed.

Lemma or_stop_follows throws c r c' out : (cstopped c = true -> projections c = ∅) -> (forall x o, r = Ok (x, o) -> follows c x o) -> or_stop throws c r = (c', out) -> follows c c' out.
Proof.
  intros Hs Hr. unfold or_stop. destruct r as [[x o]|]; [intros [= <- <-]; by apply Hr|]. destruct (stop throws c) as [c1 o1] eqn:E. intros [= <- <-]. by apply stop_follows in E as [? _].
Qed.

Lemma remove_all_follows throws ids : forall c c' out, remove_all throws ids c = (c', out) -> follows c c' out /\ Forall removes out.
Proof.
  induction ids as [|id ids IH]; intros c c' out; cbn; [intros [= <- <-]; split; [by apply follows_same|constructor]|].
  destruct (remove _ _ _ _ _) as [c1 o1] eqn:E1. destruct (remove_all _ _ _) as [c2 o2] eqn:E2. intros [= <- <-]. apply remove_follows in E1 as [F1 R1]. apply IH in E2 as [F2 R2].
  split; [by eapply follows_trans|by apply Forall_app].
Qed.

Lemma renew_all_follows now ids : forall c c' out, renew_all now ids c = (c', out) -> follows c c' out.
Proof.
  induction ids as [|id ids IH]; intros c c' out; cbn; [intros [= <- <-]; by apply follows_same|]. destruct (projections c !! id) as [p|] eqn:Hp; [|by apply IH].
  destruct (renew_all _ _ _) as [c1 o1] eqn:E1. intros [= <- <-]. apply IH in E1. unfold follows in *. cbn [fold_left absorb]. rewrite <- E1. f_equal. unfold bindings_of. cbn. rewrite fmap_insert. symmetry. apply insert_id. by rewrite lookup_fmap, Hp.
Qed.

(** ** Replies and callbacks together *)

(** The replies an operation calls, and those it keeps. *)
Definition called (out : list client_output) : list N := readies out ++ writtens out.
Definition held (c : Projection.Client) : list N := mnames wready (cpending c) ++ mnames id (cwrites c).

Lemma called_app a b : called (a ++ b) ≡ₚ called a ++ called b.
Proof. unfold called. rewrite readies_app, writtens_app. rewrite <- !app_assoc. apply Permutation_app_head. rewrite !app_assoc. apply Permutation_app_tail, Permutation_app_comm. Qed.

Lemma answers_held rs ws c c' out : answers rs ws c c' out -> called out ++ held c' ≡ₚ rs ++ ws ++ held c.
Proof.
  intros (_ & A1 & A2). unfold called, held. transitivity ((readies out ++ mnames wready (cpending c')) ++ (writtens out ++ mnames id (cwrites c'))).
  { rewrite <- !app_assoc. apply Permutation_app_head. rewrite !app_assoc. apply Permutation_app_tail, Permutation_app_comm. }
  rewrite A1, A2, <- !app_assoc. apply Permutation_app_head. rewrite !app_assoc. apply Permutation_app_tail, Permutation_app_comm.
Qed.

(** No watch succeeds in these outputs. *)
Definition refusing (out : list client_output) : Prop := Forall (fun o => match o with told_ready _ ok _ => False | _ => True end) out.

Lemma removes_refusing out : readies out = [] -> refusing out.
Proof. induction out as [|o out IH]; [constructor|]. intros H. constructor; [by destruct o|]. apply IH. by destruct o. Qed.

(** What the client needs of an operation that takes the replies [rs]. *)
Record mirrored (rs : list N) (c c' : Projection.Client) (out : list client_output) : Prop := {
  m_inv : client_inv c'; m_held : called out ++ held c' ≡ₚ rs ++ held c; m_follows : follows c c' out; m_refusing : refusing out }.

Lemma inv_stopped c : client_inv c -> cstopped c = true -> projections c = ∅.
Proof. intros Hi Hs. by apply (ci_stopped _ Hi). Qed.

Lemma answers_mirrored rs ws l c c' out : answers rs ws c c' out -> rs ++ ws ≡ₚ l -> follows c c' out -> refusing out -> mirrored l c c' out.
Proof. intros Ha Hl Hf Hr. constructor; [apply Ha| |done|done]. rewrite (answers_held _ _ _ _ _ Ha), app_assoc. by rewrite Hl. Qed.

Lemma quiet_refusing c c' out : answers [] [] c c' out -> cpending c' = cpending c -> refusing out.
Proof. intros (_ & A & _) E. rewrite E in A. apply removes_refusing. apply Permutation_length in A. rewrite length_app in A. cbn in A. destruct (readies out); [done|]. cbn in A. lia. Qed.

Lemma stop_refusing throws c : refusing (stop throws c).2.
Proof.
  unfold stop. destruct (cstopped c); [constructor|]. cbn [snd]. apply Forall_app. split; [|apply Forall_app; split; apply Forall_map, Forall_true; done].
  apply Forall_flat_map, Forall_true. intros e. constructor; [done|]. constructor; [done|]. unfold presence_event. destruct (jautomatic _); [|constructor]. constructor; [done|]. destruct throws; by repeat constructor.
Qed.

Lemma or_stop_mirrored throws c r c' out : client_inv c -> (forall x o, r = Ok (x, o) -> client_inv x /\ quiet c x o /\ follows c x o) -> or_stop throws c r = (c', out) -> mirrored [] c c' out.
Proof.
  intros Hi Hr H. eapply (answers_mirrored [] []); [eapply or_stop_answers; [done| |exact H]; intros x o E; apply Hr in E; tauto|done| |].
  - eapply or_stop_follows; [by apply inv_stopped| |exact H]. intros x o E. apply Hr in E. tauto.
  - unfold or_stop in H. destruct r as [[x o]|]; [injection H as <- <-; destruct (Hr _ _ eq_refl) as (_ & (_ & _ & _ & Hq & _) & _); by apply removes_refusing|].
    pose proof (stop_refusing throws c) as Hs. destruct (stop throws c) as [c1 o1]. injection H as <- <-. constructor; [done|exact Hs].
Qed.

Lemma receive_mirrored throws from data c c' out : client_inv c -> receive throws from data c = (c', out) -> mirrored [] c c' out.
Proof.
  intros Hi. unfold receive. destruct (_ || _); [intros [= <- <-]; constructor; [done|done|by apply follows_same|constructor]|]. apply or_stop_mirrored; [done|]. intros x o E.
  destruct (receive_body_ok _ _ _ _ _ Hi E). split_and!; try done. by eapply receive_body_follows.
Qed.

Lemma presence_mirrored throws now from data c c' out : client_inv c -> receive_presence throws now from data c = (c', out) -> mirrored [] c c' out.
Proof.
  intros Hi. unfold receive_presence. destruct (_ || _) eqn:E; [intros [= <- <-]; constructor; [done|done|by apply follows_same|constructor]|]. apply orb_false_iff in E as [Hs _].
  apply or_stop_mirrored; [done|]. intros x o Eb. destruct (presence_body_ok _ _ _ _ _ _ Hi Hs Eb). split_and!; try done. by eapply presence_body_follows.
Qed.

Lemma same_mirrored c rs out : client_inv c -> called out ≡ₚ rs -> Forall (fun o => match o with told_changed _ _ _ | told_presence _ _ _ _ _ _ => False | _ => True end) out -> refusing out -> mirrored rs c c out.
Proof. intros Hi Hc Hs Hr. constructor; [done|by rewrite Hc|by apply follows_silent|done]. Qed.

Lemma watch_mirrored type id ready c c' out : client_inv c -> watch type id ready c = (c', out) -> mirrored [ready] c c' out.
Proof.
  intros Hi H. eapply (answers_mirrored [ready] []); [by eapply watch_answers|done| |].
  - unfold watch in H. destruct (cstopped c); [injection H as <- <-; apply follows_silent; by repeat constructor|]. destruct (_ || _); [injection H as <- <-; apply follows_silent; by repeat constructor|].
    destruct (encode_entity_key _ _); injection H as <- <-; apply follows_silent; by repeat constructor.
  - unfold watch in H. destruct (cstopped c); [injection H as <- <-; by repeat constructor|]. destruct (_ || _); [injection H as <- <-; by repeat constructor|].
    destruct (encode_entity_key _ _); injection H as <- <-; by repeat constructor.
Qed.

Lemma write_mirrored id vs written rid expected c c' out : client_inv c -> write id vs written rid expected c = (c', out) -> mirrored [written] c c' out.
Proof.
  intros Hi H. eapply (answers_mirrored [] [written]); [by eapply write_answers|done| |]; unfold write in H.
  all: destruct (cstopped c); [injection H as <- <-; first [apply follows_silent; [done|]|idtac]; by repeat constructor|].
  all: destruct (projections c !! id); [|injection H as <- <-; first [apply follows_silent; [done|]|idtac]; by repeat constructor].
  all: destruct (_ || _); [injection H as <- <-; first [apply follows_silent; [done|]|idtac]; by repeat constructor|].
  all: destruct (write_input _ _ _ _ _ _ _); injection H as <- <-; first [apply follows_silent; [done|]|idtac]; by repeat constructor.
Qed.

Lemma write_replied_mirrored k r c c' out : client_inv c -> write_replied k r c = (c', out) -> mirrored [] c c' out.
Proof.
  intros Hi H. eapply (answers_mirrored [] []); [by eapply write_replied_answers|done| |]; unfold write_replied in H.
  all: destruct (cwrites c !! k); injection H as <- <-; first [apply follows_silent; [done|]|idtac]; by repeat constructor.
Qed.

Lemma remove_mirrored throws id x remote c c' out : client_inv c -> remove throws id x remote c = (c', out) -> mirrored [] c c' out.
Proof.
  intros Hi H. destruct (remove_ok _ _ _ _ _ _ _ Hi H) as (_ & (_ & _ & _ & Hq & _) & _). eapply (answers_mirrored [] []); [by eapply remove_answers|done| |by apply removes_refusing]. by apply remove_follows in H as [? _].
Qed.

Lemma renewed_mirrored throws id r c c' out : client_inv c -> renewed throws id r c = (c', out) -> mirrored [] c c' out.
Proof.
  intros Hi. unfold renewed. destruct (_ || _); [intros [= <- <-]; apply same_mirrored; [done|done|constructor|constructor]|]. by apply remove_mirrored.
Qed.

Lemma stop_mirrored throws c c' out : client_inv c -> stop throws c = (c', out) -> mirrored [] c c' out.
Proof.
  intros Hi H. pose proof (stop_refusing throws c) as Hr. destruct (stop_spec _ _ _ _ Hi H) as (S1 & S2 & S3 & _). rewrite H in Hr.
  eapply (answers_mirrored [] []); [split_and!; [exact S1|exact S2|exact S3]|done| |exact Hr]. apply stop_follows in H as [? _]; [done|by apply inv_stopped].
Qed.

Lemma poll_mirrored throws connected now c c' out : client_inv c -> poll throws connected now c = (c', out) -> mirrored [] c c' out.
Proof.
  intros Hi H. pose proof (poll_answers _ _ _ _ _ _ Hi H) as Ha. unfold poll in H. destruct (cstopped c) eqn:Hs; [injection H as <- <-; apply same_mirrored; [done|done|constructor|constructor]|].
  destruct (negb connected); [destruct (decide _); [injection H as <- <-; apply same_mirrored; [done|done|constructor|constructor]|by eapply stop_mirrored]|].
  destruct (renew_all_quiet _ _ _ _ _ Hi H) as (_ & _ & _ & _ & Hq & _). eapply (answers_mirrored [] []); [exact Ha|done|by eapply renew_all_follows|by apply removes_refusing].
Qed.

Lemma entities_mirrored throws c c' out : client_inv c -> stop_entities throws c = (c', out) -> mirrored [] c c' out.
Proof.
  intros Hi H. pose proof (stop_entities_answers _ _ _ _ Hi H) as Ha. unfold stop_entities in H. set (c0 := MkClient _ _ _ _ _ _ _ _ _) in H.
  assert (Hi0 : client_inv c0) by (destruct Hi; by constructor). destruct (remove_all_quiet _ _ _ _ _ Hi0 H) as (_ & _ & _ & _ & Hq & _).
  apply remove_all_follows in H as [Hf _]. eapply (answers_mirrored [] []); [exact Ha|done|exact Hf|by apply removes_refusing].
Qed.

(** A watch that succeeds is the only output that is not refusing. *)
Lemma watch_replied_cases throws now k r c c' out : client_inv c -> honest_reply r c -> watch_replied throws now k r c = (c', out) ->
  mirrored [] c c' out \/ exists w id p, client_inv c' /\ called out ++ held c' ≡ₚ held c /\ out = [told_ready (wready w) ok id; told_changed id ok (Some (jreplica p))] /\
    projections c !! id = None /\ projections c' = <[id := p]> (projections c).
Proof.
  intros Hi Hh H. pose proof (watch_replied_answers _ _ _ _ _ _ _ Hi Hh H) as Ha. pose proof (answers_held _ _ _ _ _ Ha) as Hheld.
  assert (Hm : projections c' = projections c -> Forall (fun o => match o with told_changed _ _ _ | told_presence _ _ _ _ _ _ => False | _ => True end) out -> refusing out -> mirrored [] c c' out).
  { intros E Hs Hr. eapply (answers_mirrored [] []); [exact Ha|done|by apply follows_silent|done]. }
  unfold watch_replied in H. destruct (cpending c !! k) as [w|]; [|injection H as <- <-; left; apply Hm; [done|..]; destruct (bool_decide _); try destruct (decode_replication_packet _); by repeat constructor].
  destruct (negb _) eqn:Ek; [injection H as <- <-; left; apply Hm; [done|by repeat constructor|]; constructor; [by destruct (rstatus r)|constructor]|]. apply negb_false_iff, bool_decide_eq_true in Ek.
  destruct (decode_replication_packet (rdata r)) as [m|] eqn:Ed; [|injection H as <- <-; left; apply Hm; by repeat constructor].
  destruct (first_projection _ _ _ _) as [[p n]|].
  - injection H as <- <-. right. exists w, (subscription m), p. split; [apply Ha|]. split; [done|]. split; [done|]. split; [by apply (Hh m)|done].
  - cbn [projections with_cpending] in H. rewrite (Hh m Ek Ed) in H. injection H as <- <-. left. apply Hm; by repeat constructor.
Qed.
