(* ===== verification/ClientCorrect.v ===== *)
(** * The application client, proved

    The events an application is told rebuild exactly the connection and the entities the
    client holds, whatever the server sends and whatever the application does from inside its
    callbacks; every reply is called once, and a disconnected client owes none. *)

From stdpp Require Import gmap.
From S2P Require Import Prelude Actions MapSum Storage OrderedMap Identity Values AttributeWire Replica Delta Messages Fields TimerState DeliveryState Schema Transport Publisher Projection ProjectionCorrect Client ClientMirror.

(** ** The view an application rebuilds from the events *)

Record Shown := MkShown { skey : EntityKey; sautomatic : bool; sowned : option bool; scontrolled : bool }.
#[export] Instance entity_key_eq_dec : EqDecision EntityKey.
Proof. solve_decision. Defined.
#[export] Instance shown_eq_dec : EqDecision Shown.
Proof. solve_decision. Defined.
Record View := MkView { vstate : ClientState; vgeneration : N; ventities : gmap N Shown }.

Definition shown (b : Binding) : Shown := MkShown (bkey b) (bautomatic b) (bowned b) (bcontrolled b).
Definition event_shown (e : ClientEvent) : Shown := MkShown (ekey e) (eautomatic e) (eowned e) (econtrolled e).
(** The same entity, whoever controls it. *)
Definition uncontrolled (x : Shown) : Shown := MkShown (skey x) (sautomatic x) (sowned x) false.

(** One event; [None]: an event that does not fit what was told before. *)
Definition observe (v : View) (e : ClientEvent) : option View :=
  let id := hsubscription (ehandle e) in
  let here := bool_decide (egeneration e = vgeneration v) && bool_decide (hgeneration (ehandle e) = vgeneration v) && negb (bool_decide (vstate v = offline)) in
  match ekind e with
  | k_connecting =>
      if bool_decide (vstate v = offline) && bool_decide (egeneration e = vgeneration v + 1) && bool_decide (ventities v = ∅) then Some (MkView connecting_state (vgeneration v + 1) ∅) else None
  | k_connected => if bool_decide (vstate v = connecting_state) && bool_decide (egeneration e = vgeneration v) then Some (MkView online (vgeneration v) (ventities v)) else None
  | k_disconnected =>
      if negb (bool_decide (vstate v = offline)) && bool_decide (egeneration e = vgeneration v) && bool_decide (ventities v = ∅) then Some (MkView offline (vgeneration v) ∅) else None
  | k_enter => if here && bool_decide (ventities v !! id = None) then Some (MkView (vstate v) (vgeneration v) (<[id := event_shown e]> (ventities v))) else None
  | k_changed => if here && bool_decide (ventities v !! id = Some (event_shown e)) then Some v else None
  | k_control =>
      if here && bool_decide (uncontrolled <$> ventities v !! id = Some (uncontrolled (event_shown e))) && negb (bool_decide (ventities v !! id = Some (event_shown e)))
      then Some (MkView (vstate v) (vgeneration v) (<[id := event_shown e]> (ventities v))) else None
  | k_leave => if here && bool_decide (ventities v !! id = Some (event_shown e)) then Some (MkView (vstate v) (vgeneration v) (delete id (ventities v))) else None
  end.

Definition events_of (l : list notice) : list ClientEvent := omap (fun n => match n with event_told e => Some e | _ => None end) l.
Definition seen (l : list notice) : option View := fold_left (fun v e => v ≫= fun v => observe v e) (events_of l) (Some (MkView offline 0 ∅)).
Definition view_of (s : Client) : View := MkView (lstate (link s)) (lgeneration (link s)) (shown <$> bindings s).

(** The replies called. *)
Definition replies_of (l : list notice) : list N := omap (fun n => match n with answered n _ | watch_answered n _ _ => Some n | _ => None end) l.

Lemma seen_event l e : seen (l ++ [event_told e]) = seen l ≫= fun v => observe v e.
Proof. unfold seen, events_of. by rewrite omap_app, fold_left_app. Qed.

Definition plain (n : notice) : Prop := match n with event_told _ => False | _ => True end.
Lemma seen_plain l n : plain n -> seen (l ++ [n]) = seen l.
Proof. unfold seen, events_of. rewrite omap_app, fold_left_app. by destruct n. Qed.

Lemma replies_of_app a b : replies_of (a ++ b) = replies_of a ++ replies_of b.
Proof. apply omap_app. Qed.

(** ** Invariants *)

Definition held_by (s : Client) : list N := match host s with Some h => held (attributes h) | None => [] end.
Definition ask_keys (s : Client) : list N := map fst (map_to_list (asks (ledger s))).
(** The replies given to the client: called, with the node, with the attribute client. *)
Definition given (s : Client) : list N := replies_of (log (ledger s)) ++ mnames greply (calls (ledger s)) ++ mnames greply (asks (ledger s)).

(** [v]: what the application has seen; [w]: the replies given so far, of which [hand] are in
    hand; [todo]: the replies in the callbacks still to run. *)
Record base_inv (v : Client -> option View) (w hand todo : list N) (s : Client) : Prop := {
  i_view : is_Some (seen (log (ledger s))) /\ (shutdown (flags s) = false -> seen (log (ledger s)) = v s);
  i_down : lstate (link s) = offline -> host s = None /\ bindings s = ∅;
  i_up : lstate (link s) <> offline -> is_Some (host s) /\ lpeer (link s) <> 0;
  i_host : forall h, host s = Some h -> client_inv (attributes h);
  i_asks : ask_keys s ≡ₚ todo ++ held_by s;
  i_keys : forall k, is_Some (calls (ledger s) !! k) \/ is_Some (asks (ledger s) !! k) -> k <= serial (ledger s);
  i_given : shutdown (flags s) = false -> given s ++ hand ≡ₚ w }.

Definition current (s : Client) : option View := Some (view_of s).
Definition inv (w hand todo : list N) (s : Client) : Prop := base_inv current w hand todo s /\ (lstate (link s) = offline -> calls (ledger s) = ∅).

(** While the connection is up, the bindings are the projections. *)
Definition coherent (s : Client) : Prop := active s = true -> exists h, host s = Some h /\ bindings s = bindings_of (attributes h).
(** A connection just started. *)
Definition blank (s : Client) : Prop := exists h, host s = Some h /\ bindings s = ∅ /\ projections (attributes h) = ∅.
(** The callbacks [outs] of connection [e] still to run: they lead to its projections [c]. *)
Definition catching_up (e : N) (c : Projection.Client) (outs : list client_output) (s : Client) : Prop :=
  e <= lgeneration (link s) /\
  (active s = true -> (lgeneration (link s) = e -> exists h, host s = Some h /\ attributes h = c /\ fold_left (absorb c) outs (bindings s) = bindings_of c) /\ (lgeneration (link s) <> e -> blank s)).

Definition busy (w hand todo : list N) (e : N) (c : Projection.Client) (outs : list client_output) (s : Client) : Prop := inv w hand todo s /\ catching_up e c outs s.

(** Fields the invariants read. *)
Definition same_core (s s' : Client) : Prop :=
  host s' = host s /\ bindings s' = bindings s /\ link s' = link s /\ ledger s' = ledger s /\ shutdown (flags s') = shutdown (flags s) /\ (active s' = true -> active s = true).

Lemma same_core_busy w hand todo e c outs s s' : same_core s s' -> busy w hand todo e c outs s -> busy w hand todo e c outs s'.
Proof.
  intros (E1 & E2 & E3 & E4 & E5 & E6) [[[H1 H2 H2' H3 H4 H5 H6] H7] [H8 H9]]. split; [split|split].
  - constructor; unfold given, ask_keys, held_by, current, view_of in *; rewrite ?E1, ?E2, ?E3, ?E4, ?E5; done.
  - by rewrite E3, E4.
  - by rewrite E3.
  - intros Ha. specialize (H9 (E6 Ha)). unfold blank in *. rewrite E1, E2, E3. exact H9.
Qed.

Lemma busy_modify w hand todo e c outs f X : (forall s, same_core s (f s)) -> runs (busy w hand todo e c outs) (modify f) (fun _ => busy w hand todo e c outs) X.
Proof. intros Hf. apply runs_modify. intros s. by apply same_core_busy. Qed.

Lemma active_pending s x b : active (with_status (with_pending s true) x) = true -> active s = b.
Proof. unfold active. cbn. by rewrite andb_false_r. Qed.

Lemma request_disconnect_busy w hand todo e c outs x X : runs (busy w hand todo e c outs) (request_disconnect x) (fun _ => busy w hand todo e c outs) X.
Proof. apply busy_modify. intros s. split_and!; try done. apply active_pending. Qed.

(** ** Callbacks *)

Section Callbacks.
Context (env : Env) (apply : act unit).
Hypothesis Hap : forall w hand todo e c outs, runs (busy w hand todo e c outs) apply (fun _ => busy w hand todo e c outs) (busy w hand todo e c outs).

Section Epoch.
Context (w : list N) (e : N) (c : Projection.Client).

Lemma react_busy hand todo outs r : runs (busy w hand todo e c outs) (react apply r) (fun _ => busy w hand todo e c outs) (busy w hand todo e c outs).
Proof.
  destruct r as [x| |x]; cbn [react]; [by apply runs_raise| |].
  - unfold disconnect. eapply runs_bind; [apply request_disconnect_busy|]. intros []. apply Hap.
  - unfold connect. destruct (_ || _); [by apply runs_raise|]. apply runs_state. intros s0 _. destruct (_ || _); [apply runs_raise; tauto|]. destruct (is_some _); [apply runs_raise; tauto|].
    eapply (runs_bind _ _ _ (fun _ => busy w hand todo e c outs)); [|intros []; apply Hap]. eapply runs_weaken; [apply (busy_modify w hand todo e c outs _ (busy w hand todo e c outs)); intros s; by split_and!|by intros s []|done|done].
Qed.

Definition noted (n : notice) (s : Client) : Client := with_log s (log (ledger s) ++ [n]).

Lemma invoke_busy hand todo outs n X :
  runs (fun s => if shutdown (flags s) then busy w hand todo e c outs s else busy w hand todo e c outs (noted n s)) (invoke env apply n) (fun _ => busy w hand todo e c outs) X.
Proof.
  unfold invoke. apply runs_state. intros s0 _. destruct (shutdown (flags s0)) eqn:Hs.
  - apply runs_done. intros s [-> H]. by rewrite Hs in H.
  - eapply (runs_attempt _ _ _ _ _ (busy w hand todo e c outs)).
    + eapply runs_bind; [apply (runs_modify _ _ (fun _ => busy w hand todo e c outs)); intros s [-> H]; by rewrite Hs in H|]. intros []. apply runs_state. intros s1 _.
      eapply runs_weaken; [apply (runs_each (busy w hand todo e c outs) (react apply)); intros r _; apply react_busy|tauto|done|done].
    + intros x. eapply runs_bind; [apply busy_modify; intros s; by split_and!|]. intros []. apply request_disconnect_busy.
Qed.

(** A notice that is not an event, and calls the replies [rs]. *)
Lemma noted_plain hand todo outs n s : plain n -> busy w (replies_of [n] ++ hand) todo e c outs s -> busy w hand todo e c outs (noted n s).
Proof.
  intros Hn [[[H1 H2 H2' H3 H4 H5 H6] H7] H8]. split; [split|exact H8]; [|exact H7]. constructor; try done.
  - cbn [noted with_log with_ledger ledger log flags]. rewrite seen_plain by done. exact H1.
  - intros Hs. rewrite <- (H6 Hs). unfold given. cbn [noted with_log with_ledger ledger log calls asks]. rewrite replies_of_app, <- !app_assoc. apply Permutation_app_head.
    rewrite (app_assoc (mnames greply (calls _)) _ hand), (app_assoc (mnames greply (calls _)) _ (_ ++ hand)). apply Permutation_app_swap_app.
Qed.

Lemma drop_hand hand hand' todo outs s : shutdown (flags s) = true -> busy w hand todo e c outs s -> busy w hand' todo e c outs s.
Proof. intros Hs [[[H1 H2 H2' H3 H4 H5 H6] H7] H8]. split; [split|done]; [|done]. constructor; try done. by rewrite Hs. Qed.

Lemma invoke_plain hand todo outs n X : plain n -> runs (busy w (replies_of [n] ++ hand) todo e c outs) (invoke env apply n) (fun _ => busy w hand todo e c outs) X.
Proof.
  intros Hn. eapply runs_weaken; [apply (invoke_busy hand todo outs)| |done|done]. intros s Hb. cbv beta. destruct (shutdown (flags s)) eqn:Hs; [by eapply drop_hand|by apply noted_plain].
Qed.

(** The state after a change that the event [x] tells. *)
Definition telling (v0 : View) (x : ClientEvent) (hand todo : list N) (outs : list client_output) (s : Client) : Prop :=
  base_inv (fun _ => Some v0) w hand todo s /\ (lstate (link s) = offline -> calls (ledger s) = ∅) /\ catching_up e c outs s /\ observe v0 x = Some (view_of s).

Lemma emit_busy v0 x hand todo outs X : runs (telling v0 x hand todo outs) (emit env apply x) (fun _ => busy w hand todo e c outs) X.
Proof.
  unfold emit. eapply runs_weaken; [apply (invoke_busy hand todo outs)| |done|done]. intros s ([H1 H2 H2' H3 H4 H5 H6] & H7 & H8 & H9). cbv beta. destruct (shutdown (flags s)) eqn:Hs.
  - split; [split|done]; [|done]. constructor; try done; [split; [apply H1|by rewrite Hs]|by rewrite Hs].
  - split; [split|exact H8]; [|exact H7]. destruct H1 as [_ H1]. assert (E : seen (log (ledger (noted (event_told x) s))) = Some (view_of s)) by (cbn [noted with_log with_ledger ledger log]; rewrite seen_event, (H1 eq_refl); exact H9).
    constructor; try done. intros _. rewrite <- (H6 eq_refl). unfold given. cbn [noted with_log with_ledger ledger log calls asks]. by rewrite replies_of_app, app_nil_r.
Qed.

(** *** The connection is up *)

Lemma ready_busy hand todo outs X : runs (busy w hand todo e c outs) (ready env apply) (fun _ => busy w hand todo e c outs) X.
Proof.
  unfold ready. apply runs_state. intros s0 Hb. destruct (_ && _) eqn:E; [|apply runs_done; by intros s []]. apply andb_true_iff in E as [[Ha Hc%bool_decide_eq_true]%andb_true_iff _].
  eapply (runs_bind _ _ _ (fun _ s => s = with_state s0 online)); [apply runs_modify; by intros s [-> _]|]. intros []. unfold emit_connection. apply runs_state. intros s1 ->.
  eapply runs_weaken; [apply (emit_busy (view_of s0) _ hand todo outs X)| |done|done]. intros s [-> _]. destruct Hb as [[[H1 H2 H2' H3 H4 H5 H6] H7] [H8 H9]]. split; [|split; [done|split; [split; [done|]|]]].
  - constructor; try done. intros _. apply H2'. by rewrite Hc.
  - intros _. exact (H9 Ha).
  - unfold observe. cbn [ekind vstate view_of egeneration vgeneration]. rewrite Hc, !bool_decide_eq_true_2 by done. done.
Qed.

Lemma active_spec s : active s = true -> shutdown (flags s) = false /\ lstate (link s) <> offline /\ is_Some (host s).
Proof.
  unfold active. rewrite !andb_true_iff, !negb_true_iff. intros ((((H1 & _) & H2%bool_decide_eq_false) & H3%bool_decide_eq_true) & _). done.
Qed.

(** Callbacks of a connection that is over change nothing. *)
Lemma busy_over hand todo outs outs' s : (active s = true -> lgeneration (link s) <> e) -> busy w hand todo e c outs s -> busy w hand todo e c outs' s.
Proof. intros Hn [H1 [H2 H3]]. split; [done|]. split; [done|]. intros Ha. split; [intros Hg; by destruct (Hn Ha)|]. by apply H3. Qed.

Definition binding_event (k : event_kind) (id : N) (b : Binding) (x : Status) (s : Client) : ClientEvent :=
  MkEvent k (lgeneration (link s)) x (bkey b) (MkHandle (lgeneration (link s)) id) (bautomatic b) (bowned b) (bcontrolled b).

(** The bindings change, and the application is told. *)
Lemma rebind_busy hand todo outs outs' s0 f k id b x X : busy w hand todo e c outs s0 -> active s0 = true -> lgeneration (link s0) = e ->
  fold_left (absorb c) outs' (f (bindings s0)) = bindings_of c -> observe (view_of s0) (binding_event k id b x s0) = Some (view_of (with_bindings s0 (f (bindings s0)))) ->
  runs (fun s => s = s0) (modify (fun s => with_bindings s (f (bindings s)));; emit_binding env apply k id b x) (fun _ => busy w hand todo e c outs') X.
Proof.
  intros [[[H1 H2 H2' H3 H4 H5 H6] H7] [H8 H9]] Ha Hg Hf Ho. destruct (active_spec _ Ha) as (Hs & Hon & _). destruct (H9 Ha) as [(h & Hh & Hc & _) _]; [done|].
  eapply (runs_bind _ _ _ (fun _ s => s = with_bindings s0 (f (bindings s0)))); [apply runs_modify; by intros s ->|]. intros []. unfold emit_binding. apply runs_state. intros s1 ->.
  eapply runs_weaken; [apply (emit_busy (view_of s0) _ hand todo outs' X)| |done|done]. intros s [-> _]. split; [|split; [done|split; [split; [done|]|exact Ho]]]; [by constructor|].
  intros _. split; [intros _; by exists h|done].
Qed.

Lemma here_true s k id b x : active s = true ->
  bool_decide (egeneration (binding_event k id b x s) = vgeneration (view_of s)) && bool_decide (hgeneration (ehandle (binding_event k id b x s)) = vgeneration (view_of s)) &&
  negb (bool_decide (vstate (view_of s) = offline)) = true.
Proof. intros (_ & H & _)%active_spec. cbn. rewrite !bool_decide_eq_true_2 by done. by rewrite bool_decide_eq_false_2 by done. Qed.

Lemma observe_enter s id b x : active s = true -> bindings s !! id = None -> observe (view_of s) (binding_event k_enter id b x s) = Some (view_of (with_bindings s (<[id := b]> (bindings s)))).
Proof.
  intros Ha Hn. unfold observe. cbv zeta. rewrite (here_true s k_enter id b x Ha). cbn [ekind binding_event andb ehandle hsubscription].
  rewrite bool_decide_eq_true_2 by (cbn; by rewrite lookup_fmap, Hn). unfold view_of. cbn. by rewrite fmap_insert.
Qed.

Lemma observe_changed s id b x r : active s = true -> bindings s !! id = Some b -> observe (view_of s) (binding_event k_changed id (with_revision b r) x s) = Some (view_of (with_bindings s (<[id := with_revision b r]> (bindings s)))).
Proof.
  intros Ha Hn. unfold observe. cbv zeta. rewrite (here_true s k_changed id (with_revision b r) x Ha). cbn [ekind binding_event andb ehandle hsubscription].
  rewrite bool_decide_eq_true_2 by (cbn; by rewrite lookup_fmap, Hn). unfold view_of. cbn. rewrite fmap_insert, insert_id; [done|]. by rewrite lookup_fmap, Hn.
Qed.

Lemma observe_leave s id b x : active s = true -> bindings s !! id = Some b -> observe (view_of s) (binding_event k_leave id b x s) = Some (view_of (with_bindings s (delete id (bindings s)))).
Proof.
  intros Ha Hn. unfold observe. cbv zeta. rewrite (here_true s k_leave id b x Ha). cbn [ekind binding_event andb ehandle hsubscription].
  rewrite bool_decide_eq_true_2 by (cbn; by rewrite lookup_fmap, Hn). unfold view_of. cbn. by rewrite fmap_delete.
Qed.

Lemma observe_control s id b x y : active s = true -> bindings s !! id = Some b -> bcontrolled b <> y ->
  observe (view_of s) (binding_event k_control id (with_control b y) x s) = Some (view_of (with_bindings s (<[id := with_control b y]> (bindings s)))).
Proof.
  intros Ha Hn Hy. unfold observe. cbv zeta. rewrite (here_true s k_control id (with_control b y) x Ha). cbn [ekind binding_event andb ehandle hsubscription].
  rewrite bool_decide_eq_true_2 by (cbn; by rewrite lookup_fmap, Hn). rewrite bool_decide_eq_false_2; [|cbn; rewrite lookup_fmap, Hn; cbn; unfold shown, event_shown; cbn; congruence]. unfold view_of. cbn. by rewrite fmap_insert.
Qed.

Lemma changed_busy hand todo outs id x r X : runs (busy w hand todo e c (told_changed id x r :: outs)) (changed env apply id x r) (fun _ => busy w hand todo e c outs) X.
Proof.
  unfold changed. eapply runs_bind; [apply ready_busy|]. intros []. apply runs_state. intros s0 Hb. destruct (active s0) eqn:Ha; cbn [negb]; [|apply runs_done; intros s [-> _]; eapply busy_over; [|exact Hb]; congruence].
  assert (Hstay : lgeneration (link s0) <> e \/ fold_left (absorb c) outs (bindings s0) = bindings_of c -> runs (fun s => s = s0 /\ busy w hand todo e c (told_changed id x r :: outs) s) done (fun _ => busy w hand todo e c outs) X).
  { intros H. apply runs_done. intros s [-> _]. destruct H as [H|H]; [by eapply busy_over; [|exact Hb]|]. destruct Hb as [I [H1 H2]]. split; [done|]. split; [done|]. intros _. destruct (H2 Ha) as [H3 H4]. split; [|done].
    intros Hg. destruct (H3 Hg) as (h & Hh & Hc & _). by exists h. }
  destruct Hb as [I [C1 C2]]. destruct (C2 Ha) as [C3 C4]. destruct (decide (lgeneration (link s0) = e)) as [Hg|Hg].
  - destruct (C3 Hg) as (h & Hh & Hc & Hf). cbn [fold_left] in Hf. rewrite Hh.
    assert (Hre : forall f k b y, absorb c (bindings s0) (told_changed id x r) = f (bindings s0) -> observe (view_of s0) (binding_event k id b y s0) = Some (view_of (with_bindings s0 (f (bindings s0)))) ->
      runs (fun s => s = s0 /\ busy w hand todo e c (told_changed id x r :: outs) s) (modify (fun s => with_bindings s (f (bindings s)));; emit_binding env apply k id b y) (fun _ => busy w hand todo e c outs) X).
    { intros f k b y Hab Ho. eapply runs_weaken; [eapply (rebind_busy hand todo (told_changed id x r :: outs) outs s0); [by split|done|done|by rewrite <- Hab|exact Ho]|by intros s []|done|done]. }
    assert (Hleave : (x <> ok \/ r = None) -> runs (fun s => s = s0 /\ busy w hand todo e c (told_changed id x r :: outs) s)
      match bindings s0 !! id with Some b => modify (fun s => with_bindings s (delete id (bindings s)));; emit_binding env apply k_leave id b x | None => done end (fun _ => busy w hand todo e c outs) X).
    { intros Hx. assert (Hab : absorb c (bindings s0) (told_changed id x r) = delete id (bindings s0)) by (destruct x, r; cbn; destruct Hx; done). destruct (bindings s0 !! id) as [b|] eqn:Hb; [by apply Hre; [|apply observe_leave]|].
      apply Hstay. right. rewrite <- Hf, Hab. by rewrite delete_id. }
    destruct (bool_decide (x = ok)) eqn:Ex; [|apply bool_decide_eq_false in Ex; destruct r, (bindings s0 !! id); apply Hleave; by left]. apply bool_decide_eq_true in Ex. subst x.
    destruct r as [r|]; [|destruct (bindings s0 !! id); apply Hleave; by right]. cbn [absorb] in Hf, Hre. destruct (bindings s0 !! id) as [b|] eqn:Hb.
    + destruct (N.eqb_spec (brevision b) (replica_revision r)) as [Er|Er].
      * apply Hstay. right. rewrite <- Hf. f_equal. symmetry. apply insert_id. rewrite Hb. f_equal. rewrite <- Er. by destruct b.
      * apply (Hre (fun m => <[id := with_revision b (replica_revision r)]> m) k_changed (with_revision b (replica_revision r)) ok); [done|by apply observe_changed].
    + cbn [mbind option_bind]. unfold projection_info. rewrite Hc. destruct (projections c !! id) as [p|]; cbn [fmap option_fmap option_map]; [|apply Hstay; by right].
      apply (Hre (fun m => <[id := info_binding (info_of id p) (replica_revision r)]> m)); [done|by apply observe_enter].
  - destruct (C4 Hg) as (h & Hh & Hb & Hp). rewrite Hb, lookup_empty, Hh. cbn [mbind option_bind]. unfold projection_info. rewrite Hp, lookup_empty. cbn. destruct (bool_decide _), r; apply Hstay; by left.
Qed.

Lemma busy_absorbed hand todo o outs s : (forall m, absorb c m o = m) -> busy w hand todo e c (o :: outs) s -> busy w hand todo e c outs s.
Proof. intros Ho [I [C1 C2]]. split; [done|]. split; [done|]. intros Ha. destruct (C2 Ha) as [C3 C4]. split; [|done]. intros Hg. destruct (C3 Hg) as (h & Hh & Hc & Hf). exists h. cbn in Hf. rewrite Ho in Hf. done. Qed.

Lemma presence_busy hand todo outs k type id sub owned x X : runs (busy w hand todo e c (told_presence k type id sub owned x :: outs)) (presence env apply (MkPresence k type id sub owned x)) (fun _ => busy w hand todo e c outs) X.
Proof.
  unfold presence. eapply runs_bind; [apply ready_busy|]. intros []. apply runs_state. intros s0 Hb. destruct (active s0) eqn:Ha; cbn [negb]; [|apply runs_done; intros s [-> _]; eapply busy_over; [|exact Hb]; congruence].
  cbn [psubscription pkind pcontrolled]. set (o := told_presence k type id sub owned x) in *.
  assert (Hstay : lgeneration (link s0) <> e \/ absorb c (bindings s0) o = bindings s0 -> runs (fun s => s = s0 /\ busy w hand todo e c (o :: outs) s) done (fun _ => busy w hand todo e c outs) X).
  { intros H. apply runs_done. intros s [-> _]. destruct H as [H|H]; [by eapply busy_over; [|exact Hb]|]. destruct Hb as [I [H1 H2]]. split; [done|]. split; [done|]. intros _. destruct (H2 Ha) as [H3 H4]. split; [|done].
    intros Hg. destruct (H3 Hg) as (h & Hh & Hc & Hf). cbn [fold_left] in Hf. rewrite H in Hf. by exists h. }
  destruct (decide (lgeneration (link s0) = e)) as [Hg|Hg].
  - assert (Hre : forall f k' b y, absorb c (bindings s0) o = f (bindings s0) -> observe (view_of s0) (binding_event k' sub b y s0) = Some (view_of (with_bindings s0 (f (bindings s0)))) ->
      runs (fun s => s = s0 /\ busy w hand todo e c (o :: outs) s) (modify (fun s => with_bindings s (f (bindings s)));; emit_binding env apply k' sub b y) (fun _ => busy w hand todo e c outs) X).
    { intros f k' b y Hab Ho. destruct Hb as [I [C1 C2]]. destruct (C2 Ha) as [C3 C4]. destruct (C3 Hg) as (h & Hh & Hc & Hf). cbn [fold_left] in Hf.
      eapply runs_weaken; [eapply (rebind_busy hand todo (o :: outs) outs s0); [by split|done|done|by rewrite <- Hab|exact Ho]|by intros s []|done|done]. }
    subst o. cbn [absorb] in Hre, Hstay. destruct (bindings s0 !! sub) as [b|] eqn:Hs; [|apply Hstay; by right].
    assert (Hctl : forall f, (f = fun m : gmap N Binding => <[sub := with_control b x]> m) -> absorb c (bindings s0) (told_presence k type id sub owned x) = f (bindings s0) ->
      runs (fun s => s = s0 /\ busy w hand todo e c (told_presence k type id sub owned x :: outs) s)
        (if Bool.eqb (bcontrolled b) x then done else modify (fun s => with_bindings s (<[sub := with_control b x]> (bindings s)));; emit_binding env apply k_control sub (with_control b x) ok) (fun _ => busy w hand todo e c outs) X).
    { intros f -> Hab. cbn [absorb] in Hab. rewrite Hs in Hab. destruct (Bool.eqb _ _) eqn:Ex; [apply eqb_prop in Ex; subst x; apply Hstay; right; rewrite Hab; apply insert_id; rewrite Hs; by destruct b|].
      apply (Hre (fun m => <[sub := with_control b x]> m)); [done|]. apply observe_control; [done|done|]. intros E. rewrite E in Ex. by rewrite eqb_reflx in Ex. }
    destruct k; [eapply Hctl; [done|]; cbn; by rewrite Hs|by apply (Hre (delete sub)); [|apply observe_leave]|eapply Hctl; [done|]; cbn; by rewrite Hs].
  - destruct Hb as [I [C1 C2]]. destruct (C2 Ha) as [_ C4]. destruct (C4 Hg) as (h & _ & Hbs & _). rewrite Hbs, lookup_empty. apply Hstay. by left.
Qed.

Lemma guarded_busy hand todo outs g r X : runs (busy w (greply g :: hand) todo e c outs) (guarded env apply g r) (fun _ => busy w hand todo e c outs) X.
Proof.
  unfold guarded. apply runs_state. intros s0 _. destruct (shutdown (flags s0)) eqn:Hs; [apply runs_done; intros s [-> Hb]; by eapply drop_hand|].
  eapply (runs_bind _ _ _ (fun _ => busy w (greply g :: hand) todo e c outs)); [eapply runs_weaken; [apply ready_busy|by intros s []|done|done]|]. intros []. apply runs_state. intros s1 _.
  eapply runs_weaken; [apply (invoke_plain hand todo outs)|by intros s []|done|done]. done.
Qed.

(** Entering [id] ahead of [outs] does not change what they lead to. *)
Definition enters (id : N) (outs : list client_output) : Prop := forall (i : AttributeProjectionInfo) (rv : N) (m : gmap N Binding), projection_info id c = Some i -> m !! id = None ->
  fold_left (absorb c) outs (<[id := info_binding i rv]> m) = fold_left (absorb c) outs m.

Lemma watch_ready_busy hand todo outs g x id X : (x = ok -> enters id outs) -> runs (busy w (greply g :: hand) todo e c outs) (watch_ready env apply g x id) (fun _ => busy w hand todo e c outs) X.
Proof.
  intros Hen. unfold watch_ready. apply runs_state. intros s0 _. set (x1 := if (_ : bool) then disconnected else x). destruct (shutdown (flags s0)) eqn:Hs; [apply runs_done; intros s [-> Hb]; by eapply drop_hand|].
  assert (Hx1 : x1 = ok -> x = ok) by (unfold x1; destruct (_ && _); done). clearbody x1.
  eapply (runs_bind _ _ _ (fun _ => busy w (greply g :: hand) todo e c outs)); [eapply runs_weaken; [apply ready_busy|by intros s []|done|done]|]. intros []. apply runs_state. intros s1 Hb.
  set (x2 := if (_ : bool) then disconnected else x1). assert (Hx2 : x2 = ok -> x1 = ok /\ active s1 = true).
  { unfold x2. destruct (active s1); [|rewrite orb_true_r; done]. destruct (_ || _); done. } clearbody x2.
  eapply (runs_bind _ _ _ (fun _ => busy w (greply g :: hand) todo e c outs)).
  - destruct (_ && _) eqn:E; [|apply runs_ret; by intros s []]. apply andb_true_iff in E as [E1%bool_decide_eq_true E2%bool_decide_eq_true]. destruct (Hx2 E1) as [Hx Ha]. specialize (Hen (Hx1 Hx)).
    destruct (host s1) as [h|] eqn:Hh; cbn [mbind option_bind]; [|apply runs_ret; by intros s []].
    destruct (projection_info id (attributes h)) as [i|] eqn:Hi; [|apply runs_ret; by intros s []]. destruct (attribute_snapshot id h) as [u|]; [|apply runs_ret; by intros s []].
    assert (Hg : lgeneration (link s1) = e).
    { destruct (decide (lgeneration (link s1) = e)) as [|Hg]; [done|]. destruct Hb as [_ [_ C2]]. destruct (C2 Ha) as [_ C4]. destruct (C4 Hg) as (h' & Hh' & _ & Hp). rewrite Hh in Hh'. injection Hh' as <-. unfold projection_info in Hi. by rewrite Hp, lookup_empty in Hi. }
    assert (Hf : attributes h = c /\ fold_left (absorb c) outs (bindings s1) = bindings_of c).
    { destruct Hb as [_ [_ C2]]. destruct (C2 Ha) as [C3 _]. destruct (C3 Hg) as (h' & Hh' & Hc & Hf). rewrite Hh in Hh'. by injection Hh' as <-. }
    destruct Hf as [Hc Hf]. rewrite Hc in Hi.
    apply runs_assoc. eapply (runs_bind _ _ _ (fun _ => busy w (greply g :: hand) todo e c outs)); [|intros []; by apply runs_ret].
    eapply runs_weaken; [apply (rebind_busy (greply g :: hand) todo outs outs s1 (<[id := info_binding i (revision u)]>)); [done|done|done|rewrite (Hen _ _ _ Hi E2); exact Hf|by apply observe_enter]|by intros s []|done|done].
  - intros x3. apply runs_state. intros s2 _. eapply runs_weaken; [apply (invoke_plain hand todo outs)|by intros s []|done|done]. done.
Qed.

(** *** Callbacks of the attribute client *)

Lemma ask_keys_delete s k g : asks (ledger s) !! k = Some g -> ask_keys s ≡ₚ k :: ask_keys (with_asks s (delete k (asks (ledger s)))).
Proof. intros Hk. unfold ask_keys. cbn. by rewrite <- (map_to_list_delete _ _ _ Hk). Qed.

Lemma base_take_ask v hand todo k s : (forall s s', v s = v (with_asks s s')) -> base_inv v w hand (k :: todo) s ->
  exists g, asks (ledger s) !! k = Some g /\ base_inv v w (greply g :: hand) todo (with_asks s (delete k (asks (ledger s)))).
Proof.
  intros Hv [H1 H2 H2' H3 H4 H5 H6]. assert (Hin : k ∈ ask_keys s) by (rewrite H4; by left). unfold ask_keys in Hin. apply list_elem_of_fmap in Hin as ([k' g] & -> & Hin%elem_of_map_to_list). cbn [fst] in *.
  exists g. split; [done|]. constructor; try done.
  - cbn [with_asks with_ledger ledger log flags]. by rewrite <- Hv.
  - apply (Permutation_cons_inv (a := k')). rewrite <- (ask_keys_delete s k' g Hin). exact H4.
  - intros j [Hj|[y Hj]]; [apply H5; by left|]. cbn in Hj. apply lookup_delete_Some in Hj as [_ Hj]. apply H5. right. by eexists.
  - intros Hs. rewrite <- (H6 Hs). unfold given. cbn [with_asks with_ledger ledger log calls asks]. rewrite (mnames_delete (g := greply) (asks (ledger s)) k' g Hin). rewrite <- !app_assoc. do 2 apply Permutation_app_head. cbn. by rewrite Permutation_middle.
Qed.

Lemma take_ask hand todo outs k s : busy w hand (k :: todo) e c outs s -> exists g, asks (ledger s) !! k = Some g /\ busy w (greply g :: hand) todo e c outs (with_asks s (delete k (asks (ledger s)))).
Proof. intros [[I1 I2] C]. destruct (base_take_ask current hand todo k s ltac:(done) I1) as (g & Hg & I). exists g. split; [done|]. split; [by split|exact C]. Qed.

Lemma busy_host hand todo outs h h' s : host s = Some h -> attributes h' = attributes h -> busy w hand todo e c outs s -> busy w hand todo e c outs (with_host s (Some h')).
Proof.
  intros Hh Ha [[[H1 H2 H2' H3 H4 H5 H6] H7] [H8 H9]]. split; [split|split]; [constructor; try done|done|done|].
  - intros Ho. destruct (H2 Ho). congruence.
  - intros Ho. destruct (H2' Ho). split; [by eexists|done].
  - cbn. intros ? [= <-]. rewrite Ha. by apply H3.
  - unfold held_by in *. cbn. by rewrite Ha, Hh in *.
  - intros Hac. assert (Hac' : active s = true) by (unfold active in *; cbn in Hac; by rewrite Hh). destruct (H9 Hac') as [C3 C4]. split.
    + intros Hg. destruct (C3 Hg) as (h1 & Hh1 & Hc & Hf). exists h'. split; [done|]. split; [congruence|done].
    + intros Hg. destruct (C4 Hg) as (h1 & Hh1 & Hb & Hp). exists h'. split; [done|]. split; [done|]. rewrite Ha. congruence.
Qed.

Lemma note_busy hand todo outs n X : plain n -> replies_of [n] = [] -> runs (busy w hand todo e c outs) (note n) (fun _ => busy w hand todo e c outs) X.
Proof. intros Hn Hr. apply runs_modify. intros s Hb. apply (noted_plain hand todo outs n s Hn). by rewrite Hr. Qed.

Lemma queue_event_spec p h h' out : queue_event p h = (h', out) -> attributes h' = attributes h /\ Forall (fun n => plain n /\ replies_of [n] = []) out.
Proof. unfold queue_event. destruct (_ || _); [intros [= <- <-]; by repeat constructor|]. destruct (_ <=? _); intros [= <- <-]; by repeat constructor. Qed.

Lemma handle_busy hand todo outs o X : match o with told_ready _ x id => x = ok -> enters id outs | _ => True end ->
  runs (busy w hand (called [o] ++ todo) e c (o :: outs)) (handle env apply e o) (fun _ => busy w hand todo e c outs) X.
Proof.
  intros Ho. unfold handle. apply runs_state. intros s0 Hb. destruct o as [k x id|k x|id x r|k type id sub owned ctl| | | | |]; cbn [called readies writtens omap list_omap app] in *.
  3: { apply runs_when; [intros _; eapply runs_weaken; [apply changed_busy|by intros s []|done|done]|]. intros E s [-> _]. eapply busy_over; [|exact Hb]. intros Ha Hg. destruct (active_spec _ Ha) as (Hs & _ & Hh).
    unfold observed in E. rewrite Hs, Hg, N.eqb_refl, bool_decide_eq_true_2 in E; done. }
  3: { assert (Hgone : observed e s0 = false \/ host s0 = None -> runs (fun s => s = s0 /\ busy w hand todo e c (told_presence k type id sub owned ctl :: outs) s) done (fun _ => busy w hand todo e c outs) X).
    { intros E. apply runs_done. intros s [-> _]. eapply busy_over; [|exact Hb]. intros Ha Hg. destruct (active_spec _ Ha) as (_ & _ & [h Hh]). destruct E as [E|E]; [|congruence]. unfold observed in E. rewrite Hg, N.eqb_refl, Hh, bool_decide_eq_true_2 in E; done. }
    destruct (observed e s0) eqn:E; [|apply Hgone; by left]. destruct (host s0) as [h|] eqn:Hh; [|apply Hgone; by right]. clear Hgone. destruct (queue_event _ h) as [h' out] eqn:Eq. destruct (queue_event_spec _ _ _ _ Eq) as [Ha Hf].
    eapply (runs_bind _ _ _ (fun _ => busy w hand todo e c (told_presence k type id sub owned ctl :: outs))); [apply runs_modify; intros s [-> _]; by apply (busy_host _ _ _ h)|]. intros [].
    eapply runs_bind; [apply runs_each; intros n Hn; rewrite Forall_forall in Hf; destruct (Hf n Hn); by apply note_busy|]. intros [].
    apply runs_state. intros s1 Hb1. apply runs_when; [intros _; eapply runs_weaken; [apply presence_busy|by intros s []|done|done]|]. intros Es%negb_false_iff s [-> _]. eapply busy_over; [|exact Hb1]. intros (Hs & _)%active_spec. congruence. }
  1: { destruct (take_ask hand todo (told_ready k x id :: outs) k s0 Hb) as (g & Hg & Hb'). rewrite Hg.
    eapply (runs_bind _ _ _ (fun _ => busy w (greply g :: hand) todo e c outs)); [apply runs_modify; intros s [-> _]; by eapply busy_absorbed; [|exact Hb']|]. intros []. by apply watch_ready_busy. }
  1: { destruct (take_ask hand todo (told_written k x :: outs) k s0 Hb) as (g & Hg & Hb'). rewrite Hg.
    eapply (runs_bind _ _ _ (fun _ => busy w (greply g :: hand) todo e c outs)); [apply runs_modify; intros s [-> _]; by eapply busy_absorbed; [|exact Hb']|]. intros []. apply guarded_busy. }
  all: eapply runs_weaken; [by apply note_busy|intros s [-> _]; by eapply busy_absorbed; [|exact Hb]|done|done].
Qed.

Lemma busy_perm hand todo todo' outs s : todo ≡ₚ todo' -> busy w hand todo e c outs s -> busy w hand todo' e c outs s.
Proof. intros Hp [[[H1 H2 H2' H3 H4 H5 H6] H7] H8]. split; [split|done]; [constructor; try done|done]. by rewrite <- Hp. Qed.

(** The callbacks that follow a watch that succeeded tell of its projection. *)
Fixpoint sound (outs : list client_output) : Prop :=
  match outs with
  | [] => True
  | told_ready _ x id :: outs => (x = ok -> enters id outs) /\ sound outs
  | _ :: outs => sound outs
  end.

Lemma handle_all hand outs X : sound outs -> runs (busy w hand (called outs) e c outs) (for_each (handle env apply e) outs) (fun _ => busy w hand [] e c []) X.
Proof.
  induction outs as [|o outs IH]; intros Hs; cbn [for_each]; [by apply runs_done|]. eapply (runs_bind _ _ _ (fun _ => busy w hand (called outs) e c outs)); [|intros []; apply IH; by destruct o; try apply Hs].
  eapply runs_weaken; [apply (handle_busy hand (called outs)); destruct o; try done; apply Hs| |done|done]. intros s Hb. eapply busy_perm; [|exact Hb]. apply (called_app [o] outs).
Qed.

End Epoch.

(** Between callbacks. *)
Definition settled (w : list N) (todo : list N) (s : Client) : Prop := inv w [] todo s /\ coherent s.

Lemma settled_busy w todo s : settled w todo s -> exists c, busy w [] todo (lgeneration (link s)) c [] s.
Proof.
  intros [I C]. destruct (active s) eqn:Ha.
  - destruct (C Ha) as (h & Hh & Hb). exists (attributes h). split; [done|]. split; [lia|]. intros _. split; [intros _; by exists h|done].
  - exists (MkClient 0 [] false false 0 0 ∅ ∅ ∅). split; [done|]. split; [lia|]. by rewrite Ha.
Qed.

Lemma busy_settled w todo e c s : busy w [] todo e c [] s -> settled w todo s.
Proof.
  intros [I [C1 C2]]. split; [done|]. intros Ha. destruct (C2 Ha) as [C3 C4]. destruct (decide (lgeneration (link s) = e)) as [Hg|Hg].
  - destruct (C3 Hg) as (h & Hh & Hc & Hf). exists h. split; [done|]. rewrite Hc. exact Hf.
  - destruct (C4 Hg) as (h & Hh & Hb & Hp). exists h. split; [done|]. rewrite Hb. unfold bindings_of. rewrite Hp. symmetry. apply (fmap_empty binding_of).
Qed.

(** An operation of the attribute client that takes the replies [rs]. *)
Record tracked (rs : list N) (c c' : Projection.Client) (out : list client_output) : Prop := {
  t_inv : client_inv c'; t_held : called out ++ held c' ≡ₚ rs ++ held c; t_follows : follows c c' out; t_sound : sound c' out }.

Lemma refusing_sound c out : refusing out -> sound c out.
Proof. induction 1 as [|o out Ho _ IH]; [done|]. destruct o as [k [] id| | | | | | | |]; try done; cbn; split; done. Qed.

Lemma mirrored_tracked rs c c' out : mirrored rs c c' out -> tracked rs c c' out.
Proof. intros [H1 H2 H3 H4]. constructor; try done. by apply refusing_sound. Qed.

Lemma host_operation_settled w rs f X :
  runs (fun s => settled w rs s /\ (rs = [] \/ is_Some (host s)) /\ forall h c' out, host s = Some h -> client_inv (attributes h) -> f (attributes h) = (c', out) -> tracked rs (attributes h) c' out)
    (host_operation env apply f) (fun _ => settled w []) X.
Proof.
  unfold host_operation. apply runs_state. intros s0 ([I C] & Hrs & Hf). destruct (host s0) as [h|] eqn:Hh; [|apply runs_done; intros s [-> _]; destruct Hrs as [->|[? ?]]; done].
  destruct (f (attributes h)) as [c' out] eqn:Ef. destruct I as [[H1 H2 H2' H3 H4 H5 H6] H7]. destruct (Hf _ _ _ eq_refl (H3 _ Hh) Ef) as [T1 T2 T3 T4].
  eapply (runs_bind _ _ _ (fun _ => busy w [] (called out) (lgeneration (link s0)) c' out)); [|intros []; eapply runs_weaken; [by apply (handle_all w _ c' [] out)|done| |done]; intros [] s; apply busy_settled].
  apply runs_modify. intros s [-> _]. split; [split|split]; [constructor; try done|done|done|].
  - intros Ho. destruct (H2 Ho). congruence.
  - intros Ho. destruct (H2' Ho). split; [by eexists|done].
  - cbn. by intros ? [= <-].
  - unfold held_by in *. cbn. rewrite Hh in H4. rewrite T2. exact H4.
  - intros Hac. split; [|done]. intros _. exists (with_attributes h c'). split; [done|]. split; [done|]. assert (Hac' : active s0 = true) by (unfold active in *; cbn in Hac; by rewrite Hh).
    destruct (C Hac') as (h1 & Hh1 & Hb). rewrite Hh in Hh1. injection Hh1 as <-. cbn. rewrite Hb. exact T3.
Qed.

Lemma call_replied_busy w hand todo e c outs k r X : runs (busy w hand todo e c outs) (call_replied env apply k r) (fun _ => busy w hand todo e c outs) X.
Proof.
  unfold call_replied. apply runs_state. intros s0 Hb. destruct (calls (ledger s0) !! k) as [g|] eqn:Hk; [|apply runs_done; by intros s []].
  eapply (runs_bind _ _ _ (fun _ => busy w (greply g :: hand) todo e c outs)); [|intros []; apply guarded_busy]. apply runs_modify. intros s [-> _]. destruct Hb as [[[H1 H2 H2' H3 H4 H5 H6] H7] H8].
  split; [split|exact H8]; [constructor; try done|].
  - intros j [[y Hj]|Hj]; [|apply H5; by right]. cbn in Hj. apply lookup_delete_Some in Hj as [_ Hj]. apply H5. left. by eexists.
  - intros Hs. rewrite <- (H6 Hs). unfold given. cbn [with_calls with_ledger ledger log calls asks]. rewrite (mnames_delete (g := greply) (calls (ledger s0)) k g Hk). rewrite <- !app_assoc. apply Permutation_app_head. cbn.
    rewrite (app_assoc (mnames greply _) _ (_ :: hand)), (app_assoc (mnames greply _) _ hand). by rewrite Permutation_middle.
  - intros Ho. cbn in *. by rewrite (H7 Ho), lookup_empty in Hk.
Qed.
End Callbacks.

(** ** Disconnecting *)

Section Down.
Context (env : Env).

(** The connection is down while the application still has to be told: its view is [v], and
    [cs] the calls the node still holds. *)
Record down (v : View) (w hand todo : list N) (cs : gmap N Guard) (g : N) (s : Client) : Prop := {
  d_inv : base_inv (fun _ => Some v) w hand todo s; d_state : lstate (link s) = offline; d_calls : calls (ledger s) = cs; d_generation : lgeneration (link s) = g }.

Section State.
Context (w : list N) (g : N).

Lemma down_inactive v hand todo cs s : down v w hand todo cs g s -> active s = false /\ host s = None /\ bindings s = ∅.
Proof.
  intros [[_ H2 _ _ _ _ _] H _ _]. split; [|by apply H2]. destruct (active s) eqn:E; [|done]. by apply active_spec in E as (_ & ? & _).
Qed.

Lemma down_same v hand todo cs s s' : host s' = host s -> bindings s' = bindings s -> link s' = link s -> ledger s' = ledger s -> shutdown (flags s') = shutdown (flags s) ->
  down v w hand todo cs g s -> down v w hand todo cs g s'.
Proof.
  intros E1 E2 E3 E4 E5 [[H1 H2 H2' H3 H4 H5 H6] D1 D2 D3]. constructor; [|by rewrite E3|by rewrite E4|by rewrite E3].
  constructor; unfold given, ask_keys, held_by in *; rewrite ?E1, ?E2, ?E3, ?E4, ?E5; done.
Qed.

Lemma react_down v hand todo cs r : runs (down v w hand todo cs g) (react done r) (fun _ => down v w hand todo cs g) (down v w hand todo cs g).
Proof.
  destruct r as [x| |x]; cbn [react]; [by apply runs_raise| |].
  - eapply (runs_bind _ _ _ (fun _ => down v w hand todo cs g)); [apply runs_modify; intros s; by apply down_same|]. intros []. by apply runs_done.
  - unfold connect. destruct (_ || _); [by apply runs_raise|]. apply runs_state. intros s0 _. destruct (_ || _); [apply runs_raise; tauto|]. destruct (is_some _); [apply runs_raise; tauto|].
    eapply (runs_bind _ _ _ (fun _ => down v w hand todo cs g)); [apply runs_modify; intros s [_ H]; by apply (down_same _ _ _ _ s)|]. intros []. by apply runs_done.
Qed.

Lemma invoke_down v v' hand hand' todo cs n X :
  (forall s, shutdown (flags s) = false -> down v w hand todo cs g s -> down v' w hand' todo cs g (noted n s)) -> (forall s, shutdown (flags s) = true -> down v w hand todo cs g s -> down v' w hand' todo cs g s) ->
  runs (down v w hand todo cs g) (invoke env done n) (fun _ => down v' w hand' todo cs g) X.
Proof.
  intros Hn Hd. unfold invoke. apply runs_state. intros s0 Hb. destruct (shutdown (flags s0)) eqn:Hs.
  - apply runs_done. intros s [-> H]. by apply Hd.
  - eapply (runs_attempt _ _ _ _ _ (down v' w hand' todo cs g)).
    + eapply runs_bind; [apply (runs_modify _ _ (fun _ => down v' w hand' todo cs g)); intros s [-> H]; by apply Hn|]. intros []. apply runs_state. intros s1 _.
      eapply runs_weaken; [apply (runs_each (down v' w hand' todo cs g) (react done)); intros r _; apply react_down|tauto|done|done].
    + intros x. eapply (runs_bind _ _ _ (fun _ => down v' w hand' todo cs g)); [apply runs_modify; intros s; by apply down_same|]. intros []. apply runs_modify. intros s. by apply down_same.
Qed.

Lemma down_shutdown v v' hand hand' todo cs s : shutdown (flags s) = true -> down v w hand todo cs g s -> down v' w hand' todo cs g s.
Proof. intros Hs [[H1 H2 H2' H3 H4 H5 H6] D1 D2 D3]. constructor; try done. constructor; try done; [split; [apply H1|]|]; by rewrite Hs. Qed.

Lemma noted_down v hand todo cs n s : plain n -> down v w (replies_of [n] ++ hand) todo cs g s -> down v w hand todo cs g (noted n s).
Proof.
  intros Hn [[H1 H2 H2' H3 H4 H5 H6] D1 D2 D3]. constructor; try done. constructor; try done.
  - cbn [noted with_log with_ledger ledger log flags]. rewrite seen_plain by done. exact H1.
  - intros Hs. rewrite <- (H6 Hs). unfold given. cbn [noted with_log with_ledger ledger log calls asks]. rewrite replies_of_app, <- !app_assoc. apply Permutation_app_head.
    rewrite (app_assoc (mnames greply (calls _)) _ hand), (app_assoc (mnames greply (calls _)) _ (_ ++ hand)). apply Permutation_app_swap_app.
Qed.

Lemma invoke_plain_down v hand todo cs n X : plain n -> runs (down v w (replies_of [n] ++ hand) todo cs g) (invoke env done n) (fun _ => down v w hand todo cs g) X.
Proof. intros Hn. apply invoke_down; [|intros s Hs; by apply down_shutdown]. intros s _. by apply noted_down. Qed.

Lemma ready_down v hand todo cs X : runs (down v w hand todo cs g) (ready env done) (fun _ => down v w hand todo cs g) X.
Proof. unfold ready. apply runs_state. intros s0 Hb. destruct (down_inactive _ _ _ _ _ Hb) as [-> _]. apply runs_done. by intros s []. Qed.

Lemma guarded_down v hand todo cs x r X : runs (down v w (greply x :: hand) todo cs g) (guarded env done x r) (fun _ => down v w hand todo cs g) X.
Proof.
  unfold guarded. apply runs_state. intros s0 _. destruct (shutdown (flags s0)) eqn:Hs; [apply runs_done; intros s [-> Hb]; by eapply down_shutdown|].
  eapply (runs_bind _ _ _ (fun _ => down v w (greply x :: hand) todo cs g)); [eapply runs_weaken; [apply ready_down|by intros s []|done|done]|]. intros []. apply runs_state. intros s1 _.
  eapply runs_weaken; [apply (invoke_plain_down v hand todo cs)|by intros s []|done|done]. done.
Qed.

Lemma watch_ready_down v hand todo cs x y id X : runs (down v w (greply x :: hand) todo cs g) (watch_ready env done x y id) (fun _ => down v w hand todo cs g) X.
Proof.
  unfold watch_ready. apply runs_state. intros s0 _. destruct (shutdown (flags s0)) eqn:Hs; [apply runs_done; intros s [-> Hb]; by eapply down_shutdown|].
  eapply (runs_bind _ _ _ (fun _ => down v w (greply x :: hand) todo cs g)); [eapply runs_weaken; [apply ready_down|by intros s []|done|done]|]. intros []. apply runs_state. intros s1 Hb.
  destruct (down_inactive _ _ _ _ _ Hb) as (-> & _ & _). rewrite orb_true_r. cbn [negb andb]. rewrite (bool_decide_eq_false_2 (disconnected = ok)) by done. cbn [andb].
  eapply (runs_bind _ _ _ (fun _ => down v w (greply x :: hand) todo cs g)); [apply runs_ret; by intros s []|]. intros z. apply runs_state. intros s2 _.
  eapply runs_weaken; [apply (invoke_plain_down v hand todo cs)|by intros s []|done|done]. done.
Qed.

Lemma note_down v hand todo cs n X : plain n -> replies_of [n] = [] -> runs (down v w hand todo cs g) (note n) (fun _ => down v w hand todo cs g) X.
Proof. intros Hn Hr. apply runs_modify. intros s Hb. apply (noted_down v hand todo cs n s Hn). by rewrite Hr. Qed.

Lemma handle_down v hand todo cs o e X : runs (down v w hand (called [o] ++ todo) cs g) (handle env done e o) (fun _ => down v w hand todo cs g) X.
Proof.
  unfold handle. apply runs_state. intros s0 Hb. destruct (down_inactive _ _ _ _ _ Hb) as (_ & Hh & _). assert (Ho : observed e s0 = false) by (unfold observed; by rewrite Hh, andb_false_r).
  destruct o as [k x id|k x|id x r|k type id sub owned ctl| | | | |]; cbn [called readies writtens omap list_omap app] in *.
  1,2: destruct Hb as [I D1 D2 D3]; destruct (base_take_ask w (fun _ => Some v) hand todo k s0 ltac:(done) I) as (x' & -> & I');
       eapply (runs_bind _ _ _ (fun _ => down v w (greply x' :: hand) todo cs g)); [by apply runs_modify; intros s [-> _]; constructor|]; intros []; first [apply watch_ready_down|apply guarded_down].
  - rewrite Ho. apply runs_done. by intros s [].
  - rewrite Ho. apply runs_done. by intros s [].
  - eapply runs_weaken; [by apply note_down|by intros s []|done|done].
  - eapply runs_weaken; [by apply note_down|by intros s []|done|done].
  - eapply runs_weaken; [by apply note_down|by intros s []|done|done].
  - eapply runs_weaken; [by apply note_down|by intros s []|done|done].
  - eapply runs_weaken; [by apply note_down|by intros s []|done|done].
Qed.

Lemma down_perm v hand todo todo' cs s : todo ≡ₚ todo' -> down v w hand todo cs g s -> down v w hand todo' cs g s.
Proof. intros Hp [[H1 H2 H2' H3 H4 H5 H6] D1 D2 D3]. constructor; try done. constructor; try done. by rewrite <- Hp. Qed.

Lemma handle_all_down v hand outs todo cs e X : runs (down v w hand (called outs ++ todo) cs g) (for_each (handle env done e) outs) (fun _ => down v w hand todo cs g) X.
Proof.
  induction outs as [|o outs IH]; cbn [for_each]; [by apply runs_done|]. eapply (runs_bind _ _ _ (fun _ => down v w hand (called outs ++ todo) cs g)); [|intros []; apply IH].
  eapply runs_weaken; [apply (handle_down v hand (called outs ++ todo) cs o)| |done|done]. intros s Hb. eapply down_perm; [|exact Hb]. rewrite app_assoc. by rewrite (called_app [o] outs).
Qed.

(** The node calls the replies it holds. *)
Lemma fail_calls_down v hand todo cs X : runs (down v w hand todo cs g) (fail_calls env) (fun _ => down v w hand todo ∅ g) X.
Proof.
  unfold fail_calls. apply runs_state. intros s0 [_ _ <- _]. apply (runs_weaken (fun s => exists cs', down v w hand todo cs' g s /\ forall k, is_Some (cs' !! k) -> k ∈ map fst (map_to_list (calls (ledger s0)))) _ _ (fun _ => down v w hand todo ∅ g) _ X); [| |done|done].
  2: { intros s [-> Hb]. eexists. split; [exact Hb|]. intros k [y Hk]. apply list_elem_of_fmap. exists (k, y). split; [done|by apply elem_of_map_to_list]. }
  generalize (map fst (map_to_list (calls (ledger s0)))). intros l. induction l as [|k l IH]; cbn [for_each].
  - apply runs_done. intros s (cs' & Hb & Hk). assert (cs' = ∅) as <-; [|done]. apply map_empty. intros k. destruct (cs' !! k) eqn:E; [|done]. assert (Hin : k ∈ @nil N) by (apply Hk; by eexists). by apply elem_of_nil in Hin.
  - eapply (runs_bind _ _ _ (fun _ s => exists cs', down v w hand todo cs' g s /\ forall k, is_Some (cs' !! k) -> k ∈ l)); [|intros []; apply IH]. unfold call_replied. apply runs_state. intros s1 (cs' & Hb & Hin). destruct Hb as [[H1 H2 H2' H3 H4 H5 H6] D1 D2 D3]. rewrite D2. destruct (cs' !! k) as [x|] eqn:Hk.
    + eapply (runs_bind _ _ _ (fun _ => down v w (greply x :: hand) todo (delete k cs') g)).
      * apply runs_modify. intros s [-> _]. constructor; try done; [|by cbn; rewrite D2]. constructor; try done.
        -- intros j [[y Hj]|Hj]; [|apply H5; by right]. cbn in Hj. apply lookup_delete_Some in Hj as [_ Hj]. apply H5. left. by eexists.
        -- intros Hs. rewrite <- (H6 Hs). unfold given. cbn [with_calls with_ledger ledger log calls asks]. rewrite D2. rewrite (mnames_delete (g := greply) cs' k x Hk). rewrite <- !app_assoc. apply Permutation_app_head. cbn.
           rewrite (app_assoc (mnames greply _) _ (_ :: hand)), (app_assoc (mnames greply _) _ hand). by rewrite Permutation_middle.
      * intros []. eapply runs_weaken; [apply (guarded_down v hand todo (delete k cs'))|done| |done]. intros [] s Hb. eexists. split; [exact Hb|]. intros j [y [Hne Hj]%lookup_delete_Some]. assert (Hj' : j ∈ k :: l) by (apply Hin; by eexists). apply elem_of_cons in Hj' as [->|]; done.
    + apply runs_done. intros s [-> _]. exists cs'. split; [by constructor|]. intros j Hj. assert (Hj' : j ∈ k :: l) by (by apply Hin). apply elem_of_cons in Hj' as [->|]; [|done]. destruct Hj. congruence.
Qed.

(** Telling the application that an entity left. *)
Lemma leaves_down st (l : list (N * Binding)) hand todo cs X : (l <> [] -> st <> offline) -> NoDup l.*1 ->
  runs (down (MkView st g (shown <$> (list_to_map l : gmap N Binding))) w hand todo cs g) (for_each (fun e => emit_binding env done k_leave e.1 e.2 disconnected) l) (fun _ => down (MkView st g ∅) w hand todo cs g) X.
Proof.
  induction l as [|[id b] l IH]; intros Hst Hnd; cbn [for_each]; [by apply runs_done|]. cbn in Hnd. apply NoDup_cons in Hnd as [Hni Hnd]. specialize (Hst ltac:(done)).
  eapply (runs_bind _ _ _ (fun _ => down (MkView st g (shown <$> (list_to_map l : gmap N Binding))) w hand todo cs g)); [|intros []; by apply IH]. unfold emit_binding. apply runs_state. intros s0 [_ _ _ Hg]. unfold emit.
  eapply runs_weaken; [apply (invoke_down (MkView st g (shown <$> (list_to_map ((id, b) :: l) : gmap N Binding))) (MkView st g (shown <$> (list_to_map l : gmap N Binding))) hand hand todo cs)|by intros s []|done|done].
  - intros s Hs [[H1 H2 H2' H3 H4 H5 H6] D1 D2 D3]. constructor; try done. destruct H1 as [_ H1]. cbn [fst snd] in *.
    match goal with |- base_inv _ _ _ _ (noted (event_told ?ev) s) => assert (E : seen (log (ledger (noted (event_told ev) s))) = Some (MkView st g (shown <$> (list_to_map l : gmap N Binding)))) end.
    { cbn [noted with_log with_ledger ledger log]. rewrite seen_event, (H1 Hs). cbn [mbind option_bind]. unfold observe. cbn [ekind vstate vgeneration ventities egeneration ehandle hgeneration hsubscription]. rewrite Hg.
      rewrite (bool_decide_eq_false_2 (st = offline)) by done. rewrite !bool_decide_eq_true_2 by (cbn; rewrite ?fmap_insert, ?lookup_insert_eq; done). cbn [andb negb]. f_equal. f_equal. cbn.
      rewrite fmap_insert, delete_insert_id; [done|]. rewrite lookup_fmap, not_elem_of_list_to_map_1; done. }
    constructor; try done. intros _. rewrite <- (H6 Hs). unfold given. cbn [noted with_log with_ledger ledger log calls asks]. by rewrite replies_of_app, app_nil_r.
  - intros s Hs. by apply down_shutdown.
Qed.

(** Telling it that the connection ended. *)
Lemma disconnected_down v hand todo x X : vgeneration v = g -> ventities v = ∅ -> vstate v <> offline ->
  runs (down v w hand todo ∅ g) (emit_connection env done k_disconnected x) (fun _ => down (MkView offline g ∅) w hand todo ∅ g) X.
Proof.
  intros Hg Hv Hst. unfold emit_connection. apply runs_state. intros s0 [_ _ _ Hg0]. unfold emit.
  eapply runs_weaken; [apply (invoke_down v (MkView offline g ∅) hand hand todo ∅)|by intros s []|done|done].
  - intros s Hs [[H1 H2 H2' H3 H4 H5 H6] D1 D2 D3]. constructor; try done. destruct H1 as [_ H1].
    match goal with |- base_inv _ _ _ _ (noted (event_told ?ev) s) => assert (E : seen (log (ledger (noted (event_told ev) s))) = Some (MkView offline g ∅)) end.
    { cbn [noted with_log with_ledger ledger log]. rewrite seen_event, (H1 Hs). cbn [mbind option_bind]. unfold observe. cbn [ekind egeneration]. rewrite Hg, Hg0, Hv.
      rewrite (bool_decide_eq_false_2 (vstate v = offline)) by done. by rewrite !bool_decide_eq_true_2 by done. }
    constructor; try done. intros _. rewrite <- (H6 Hs). unfold given. cbn [noted with_log with_ledger ledger log calls asks]. by rewrite replies_of_app, app_nil_r.
  - intros s Hs. by apply down_shutdown.
Qed.

Lemma stop_host_down v hand todo cs h X : client_inv (attributes h) -> runs (down v w hand (held (attributes h) ++ todo) cs g) (stop_host env h) (fun _ => down v w hand todo cs g) X.
Proof.
  intros Hi. unfold stop_host. destruct (Projection.stop false (attributes h)) as [c' out] eqn:E. apply runs_state. intros s0 _. cbn [snd].
  assert (Hh : called out ≡ₚ held (attributes h)).
  { destruct (stop_mirrored _ _ _ _ Hi E) as [_ Hm _ _]. destruct (stop_spec _ _ _ _ Hi E) as (S1 & _ & _ & S4). assert (Hs : cstopped c' = true) by (unfold Projection.stop in E; destruct (cstopped (attributes h)) eqn:Es; by injection E as <- <-).
    destruct (ci_stopped _ S1 Hs) as (_ & E1 & E2). unfold held in Hm at 1. by rewrite E1, E2, !mnames_empty, !app_nil_r in Hm. }
  eapply (runs_bind _ _ _ (fun _ => down v w hand todo cs g)); [eapply runs_weaken; [apply (handle_all_down v hand out todo cs)| |done|done]; intros s [_ Hb]; eapply down_perm; [|exact Hb]; by rewrite Hh|]. intros [].
  eapply (runs_bind _ _ _ (fun _ => down v w hand todo cs g)); [apply runs_each; intros r _; by apply note_down|]. intros []. apply runs_each. intros p _. by apply note_down.
Qed.

End State.

Lemma cleanup_busy w hand todo e c outs X : runs (busy w hand todo e c outs) (cleanup env) (fun _ s => busy w hand todo e c outs s /\ lstate (link s) = offline) X.
Proof.
  intros s0 Hb. revert s0 Hb. apply (runs_bind _ _ _ (fun _ s1 => exists s0, busy w hand todo e c outs s0 /\ s1 = with_pending s0 false)); [intros s Hb; by exists s|]. intros [].
  apply runs_state. intros s1 (s0 & [[[H1 H2 H2' H3 H4 H5 H6] H7] [C1 _]] & ->). cbn [with_pending with_flags link host bindings]. set (l := link s0) in *. set (g := lgeneration l) in *.
  set (v := MkView (lstate l) g (shown <$> (list_to_map (map_to_list (bindings s0)) : gmap N Binding))).
  assert (Hv : view_of s0 = v) by (unfold v; by rewrite list_to_map_to_list).
  eapply (runs_bind _ _ _ (fun _ => down v w hand (held_by s0 ++ todo) (calls (ledger s0)) g)).
  { apply runs_modify. intros s [-> _]. constructor; try done. constructor; try done.
    - unfold current in H1. rewrite Hv in H1. exact H1.
    - unfold ask_keys in *. cbn. rewrite app_nil_r, H4. apply Permutation_app_comm. }
  intros []. eapply (runs_bind _ _ _ (fun _ => down v w hand todo (calls (ledger s0)) g)).
  { unfold held_by. destruct (host s0) as [h|]; [by apply stop_host_down, H3|by apply runs_done]. }
  intros []. eapply (runs_bind _ _ _ (fun _ => down v w hand todo ∅ g)).
  { apply runs_when; [intros _; eapply (runs_bind _ _ _ (fun _ => down v w hand todo (calls (ledger s0)) g)); [by apply note_down|intros []; apply fail_calls_down]|]. intros Hp%negb_false_iff%N.eqb_eq s Hd.
    assert (Ho : lstate l = offline) by (destruct (decide (lstate l = offline)) as [|Hn]; [done|]; by destruct (H2' Hn)). by rewrite (H7 Ho) in Hd. }
  intros []. eapply (runs_bind _ _ _ (fun _ => down (MkView (lstate l) g ∅) w hand todo ∅ g)).
  { apply leaves_down; [|apply NoDup_fst_map_to_list]. intros Hne Ho. destruct (H2 Ho) as [_ Hb]. by rewrite Hb, map_to_list_empty in Hne. }
  intros []. apply runs_state. intros s2 _. assert (Hend : forall s, down (MkView offline g ∅) w hand todo ∅ g s -> busy w hand todo e c outs s /\ lstate (link s) = offline).
  { intros s Hd. destruct (down_inactive _ _ _ _ _ _ _ Hd) as (Ha & Hh & Hbs). destruct Hd as [[K1 K2 K2' K3 K4 K5 K6] D1 D2 D3]. split; [|done]. split; [split; [constructor; try done|done]|split; [by rewrite D3|by rewrite Ha]].
    unfold current, view_of. rewrite D1, D3, Hbs, fmap_empty. exact K1. }
  apply runs_when.
  - intros Hn%negb_true_iff%bool_decide_eq_false. eapply runs_weaken; [by apply (disconnected_down w g (MkView (lstate l) g ∅) hand todo)|by intros s []|intros [] s; apply Hend|done].
  - intros Ho%negb_false_iff%bool_decide_eq_true s [_ Hd]. rewrite Ho in Hd. by apply Hend.
Qed.

End Down.

(** ** Connecting *)

Lemma done_busy w hand todo e c outs : runs (busy w hand todo e c outs) done (fun _ => busy w hand todo e c outs) (busy w hand todo e c outs).
Proof. by apply runs_done. Qed.

Lemma fail_calls_busy env w hand todo e c outs X : runs (busy w hand todo e c outs) (fail_calls env) (fun _ => busy w hand todo e c outs) X.
Proof.
  unfold fail_calls. apply runs_state. intros s0 _. eapply runs_weaken; [apply (runs_each (busy w hand todo e c outs)); intros k _; apply call_replied_busy, done_busy|by intros s []|done|done].
Qed.

Lemma start_busy env w hand todo e c outs x : runs (fun s => busy w hand todo e c outs s /\ lstate (link s) = offline) (start env x) (fun _ => busy w hand todo e c outs) (busy w hand todo e c outs).
Proof.
  unfold start. apply runs_state. intros s0 [Hb Ho]. destruct (_ =? _); [apply runs_raise; by intros s [_ []]|]. destruct (e_connect env x) as [p|]; [|apply runs_raise; by intros s [_ []]].
  destruct (script_host_of env p) as [h|] eqn:Eh.
  2: { eapply (runs_bind _ _ _ (fun _ => busy w hand todo e c outs)); [|intros []; by apply runs_raise]. unfold close_peer. eapply (runs_bind _ _ _ (fun _ => busy w hand todo e c outs)); [eapply runs_weaken; [by apply note_busy|by intros s [_ []]|done|done]|]. intros []. apply fail_calls_busy. }
  assert (Hh : client_inv (attributes h) /\ projections (attributes h) = ∅ /\ held (attributes h) = [] /\ p <> 0).
  { unfold script_host_of, attribute_client in Eh. destruct (N.eqb_spec p 0) as [|Hp]; [done|]. cbn [bind] in Eh. destruct (e_attach env); [|done]. injection Eh as <-. split; [|split_and!; done].
    assert (Hv : viewer_inv (MkViewer (MkClient p (e_prefix env) false false 0 0 ∅ ∅ ∅) [] [] [] [])); [|apply Hv]. apply (viewer_start_inv p (e_prefix env)). eexists. split; [|done]. unfold attribute_client. by rewrite (proj2 (N.eqb_neq p 0)) by done. }
  destruct Hh as (Hi & Hp & Hheld & Hp0). eapply (runs_bind _ _ _ (fun _ => telling w e c (view_of s0) (MkEvent k_connecting (lgeneration (link s0) + 1) ok (MkKey [] []) (MkHandle 0 0) false None false) hand todo outs)).
  - apply runs_modify. intros s [-> _]. destruct Hb as [[[H1 H2 H2' H3 H4 H5 H6] H7] [C1 _]]. destruct (H2 Ho) as [Hn Hbs]. split; [|split; [done|split; [split; [cbn; lia|]|]]].
    + constructor; try done; [cbn; by intros ? [= <-]|]. unfold ask_keys, held_by in *. cbn. rewrite Hheld. by rewrite Hn in H4.
    + cbn. intros _. split; [lia|]. intros _. by exists h.
    + unfold observe, view_of. cbn. rewrite Ho, Hbs, fmap_empty. rewrite !bool_decide_eq_true_2 by done. done.
  - intros []. unfold emit_connection. apply runs_state. intros s1 Ht. assert (Hg : lgeneration (link s1) = lgeneration (link s0) + 1).
    { destruct Ht as (_ & _ & _ & Ho'). unfold observe in Ho'. cbn [ekind] in Ho'. destruct (_ && _); [|done]. injection Ho' as E1 E2 E3. done. }
    rewrite Hg. eapply runs_weaken; [apply emit_busy, done_busy|by intros s []|done|done].
Qed.

Lemma apply_actions_busy env w hand todo e c outs : runs (busy w hand todo e c outs) (apply_actions env) (fun _ => busy w hand todo e c outs) (busy w hand todo e c outs).
Proof.
  unfold apply_actions. apply runs_state. intros s0 _. destruct (_ || _); [apply runs_done; by intros s []|].
  assert (Hstop : forall X, runs (busy w hand todo e c outs) (stop_node env) (fun _ => busy w hand todo e c outs) X).
  { intros X. eapply (runs_bind _ _ _ (fun _ => busy w hand todo e c outs)); [by apply note_busy|]. intros []. apply fail_calls_busy. }
  eapply (runs_bind _ _ _ (fun _ => busy w hand todo e c outs)); [eapply runs_weaken; [apply (busy_modify w hand todo e c outs _ (busy w hand todo e c outs)); intros s; by split_and!|by intros s []|done|done]|]. intros [].
  eapply runs_attempt; [|intros x; eapply (runs_bind _ _ _ (fun _ => busy w hand todo e c outs)); [apply busy_modify; intros s; by split_and!|intros []; by apply runs_raise]].
  eapply (runs_bind _ _ _ (fun _ => busy w hand todo e c outs)); [apply runs_when; [intros _; eapply runs_weaken; [apply cleanup_busy|done|by intros [] s []|done]|done]|]. intros [].
  apply runs_state. intros s1 Hb1. eapply (runs_bind _ _ _ (fun _ => busy w hand todo e c outs)).
  - destruct (shutdown (flags s1)).
    + eapply (runs_bind _ _ _ (fun _ => busy w hand todo e c outs)); [|intros []; apply Hstop]. eapply runs_weaken; [apply (busy_modify w hand todo e c outs _ (busy w hand todo e c outs)); intros s; by split_and!|by intros s []|done|done].
    + destruct (next_connect s1) as [x|]; [|apply runs_done; by intros s []]. apply runs_when; [|by intros _ s []]. intros Ho%bool_decide_eq_true.
      eapply (runs_bind _ _ _ (fun _ s => busy w hand todo e c outs s /\ lstate (link s) = offline)); [|intros []; apply start_busy]. apply runs_modify. intros s [-> H]. split; [|done]. by eapply same_core_busy; [|exact H]; split_and!.
  - intros []. apply runs_state. intros s2 _. eapply (runs_bind _ _ _ (fun _ => busy w hand todo e c outs)).
    + apply runs_when; [intros _|by intros _ s []]. eapply (runs_bind _ _ _ (fun _ => busy w hand todo e c outs)); [eapply runs_weaken; [apply cleanup_busy|by intros s []|by intros [] s []|done]|]. intros []. apply Hstop.
    + intros []. apply busy_modify. intros s. by split_and!.
Qed.
