(* ===== verification/ClientSystem.v ===== *)
(** * The application client as a system

    Any sequence of an application's calls, of the node's callbacks and of polls: the events
    told are the state held, and replies are called once. *)

From stdpp Require Import gmap.
From S2P Require Import Prelude Actions MapSum Storage OrderedMap Identity Values AttributeWire Replica Delta Messages MessagesCorrect Fields TimerState DeliveryState Schema Transport Publisher Projection ProjectionCorrect Client ClientMirror ClientCorrect.

Lemma settled_runs {A} w todo todo' (m : act A) : (forall e c, runs (busy w [] todo e c []) m (fun _ => busy w [] todo' e c []) (busy w [] todo' e c [])) ->
  runs (settled w todo) m (fun _ => settled w todo') (settled w todo').
Proof. intros H s Hs. destruct (settled_busy _ _ _ Hs) as [c Hb]. specialize (H _ _ _ Hb). destruct (m s) as [[a|] s']; by eapply busy_settled. Qed.

Section Operations.
Context (env : Env) (w : list N).
Let Hap := apply_actions_busy env.

Lemma operation_settled rs f X : (forall c c' out, client_inv c -> f c = (c', out) -> mirrored rs c c' out) ->
  runs (fun s => settled w rs s /\ (rs = [] \/ is_Some (host s))) (host_operation env (apply_actions env) f) (fun _ => settled w []) X.
Proof. intros Hf. eapply runs_weaken; [apply (host_operation_settled env _ Hap w rs f X)|intros s [Hs Hr]; split; [done|]; split; [done|]; intros; by apply mirrored_tracked, Hf|done|done]. Qed.

Lemma plain_operation f X : (forall c c' out, client_inv c -> f c = (c', out) -> mirrored [] c c' out) ->
  runs (settled w []) (host_operation env (apply_actions env) f) (fun _ => settled w []) X.
Proof. intros Hf. eapply runs_weaken; [by apply (operation_settled [] f X)|intros s Hs; split; [done|by left]|done|done]. Qed.

(** The reply of a server that does not name a subscription the client already has. *)
Definition honest_event (n : node_event) (s : Client) : Prop :=
  match n with n_watched _ r => forall h, host s = Some h -> honest_reply r (attributes h) | _ => True end.

Lemma watched_tracked now k r c c' out : client_inv c -> honest_reply r c -> Projection.watch_replied false now k r c = (c', out) -> tracked [] c c' out.
Proof.
  intros Hi Hh H. destruct (watch_replied_cases _ _ _ _ _ _ _ Hi Hh H) as [Hm|(x & id & p & I & Hheld & -> & Hn & Hp)]; [by apply mirrored_tracked|].
  assert (Hc' : projections c' !! id = Some p) by (by rewrite Hp, lookup_insert_eq). assert (Hb : bindings_of c !! id = None) by (unfold bindings_of; by rewrite lookup_fmap, Hn).
  constructor; [done|done| |].
  - unfold follows. cbn [fold_left absorb]. rewrite Hb, Hc'. unfold bindings_of. rewrite Hp, fmap_insert. done.
  - cbn. split; [|done]. intros _ i rv m Hi' Hm. unfold projection_info in Hi'. rewrite Hc' in Hi'. injection Hi' as <-. cbn [fold_left absorb]. rewrite lookup_insert_eq, Hm, Hc', insert_insert_eq. done.
Qed.

Lemma node_callback_settled n X : runs (fun s => settled w [] s /\ honest_event n s) (node_callback env n) (fun _ => settled w []) X.
Proof.
  destruct n as [k r|k r|k r|id r|from data|from data]; cbn [node_callback].
  - intros s [Hs _]. destruct (settled_busy _ _ _ Hs) as [c Hb]. pose proof (call_replied_busy env _ Hap w [] [] _ c [] k r X s Hb) as H. cbv beta in H. destruct (call_replied _ _ _ _ _) as [[a|] s']; [by eapply busy_settled|done].
  - eapply runs_weaken; [apply (host_operation_settled env _ Hap w [])| |done|done]. intros s [Hs Hh]. split; [done|]. split; [by left|]. intros h c' out Eh Hi E. eapply watched_tracked; [done|by apply Hh|exact E].
  - eapply runs_weaken; [apply plain_operation; intros; by eapply write_replied_mirrored|by intros s []|done|done].
  - eapply runs_weaken; [apply plain_operation; intros; by eapply renewed_mirrored|by intros s []|done|done].
  - eapply runs_weaken; [apply plain_operation; intros; by eapply receive_mirrored|by intros s []|done|done].
  - eapply runs_weaken; [apply plain_operation; intros; by eapply presence_mirrored|by intros s []|done|done].
Qed.

(** *** Replies *)

Lemma ask_reply hand todo e c outs n s : busy w hand todo e c outs s -> busy (n :: w) (n :: hand) todo e c outs s.
Proof. intros [[[H1 H2 H2' H3 H4 H5 H6] H7] H8]. split; [split|done]; [|done]. constructor; try done. intros Hs. rewrite <- (H6 Hs). by rewrite Permutation_middle. Qed.

Lemma fresh_guard_busy hand todo e c outs n X : runs (busy w hand todo e c outs) (fresh_guard n)
  (fun x s => busy (n :: w) (n :: hand) todo e c outs s /\ greply x.2 = n /\ calls (ledger s) !! x.1 = None /\ asks (ledger s) !! x.1 = None /\ x.1 <= serial (ledger s)) X.
Proof.
  unfold fresh_guard. apply runs_state. intros s0 Hb. eapply (runs_bind _ _ _ (fun _ s => s = with_serial s0 (serial (ledger s0) + 1))); [apply runs_modify; by intros s [-> _]|]. intros []. apply runs_ret. intros s ->. cbn [fst snd greply].
  assert (K : forall k, is_Some (calls (ledger s0) !! k) \/ is_Some (asks (ledger s0) !! k) -> k <= serial (ledger s0)) by apply Hb. split_and!; try done.
  - apply ask_reply. destruct Hb as [[[H1 H2 H2' H3 H4 H5 H6] H7] H8]. split; [split|exact H8]; [constructor; try done|done]. intros k Hk. specialize (K k Hk). cbn. lia.
  - change (calls (ledger s0) !! (serial (ledger s0) + 1) = None). destruct (calls (ledger s0) !! (serial (ledger s0) + 1)) eqn:E; [|done]. assert (serial (ledger s0) + 1 <= serial (ledger s0)); [|lia]. apply K. left. by eexists.
  - change (asks (ledger s0) !! (serial (ledger s0) + 1) = None). destruct (asks (ledger s0) !! (serial (ledger s0) + 1)) eqn:E; [|done]. assert (serial (ledger s0) + 1 <= serial (ledger s0)); [|lia]. apply K. right. by eexists.
Qed.

(** A reply handed to the node. *)
Lemma give_call hand todo e c outs k g s : busy w (greply g :: hand) todo e c outs s -> active s = true -> calls (ledger s) !! k = None -> k <= serial (ledger s) ->
  busy w hand todo e c outs (with_calls s (<[k := g]> (calls (ledger s)))).
Proof.
  intros [[[H1 H2 H2' H3 H4 H5 H6] H7] H8] Ha Hk Hle. destruct (active_spec _ Ha) as (_ & Hon & _). split; [split|exact H8]; [constructor; try done|done].
  - intros j [[y Hj]|Hj]; [|apply H5; by right]. cbn in Hj. apply lookup_insert_Some in Hj as [[<- _]|[_ Hj]]; [done|]. apply H5. left. by eexists.
  - intros Hs. rewrite <- (H6 Hs). unfold given. cbn [with_calls with_ledger ledger log calls asks]. rewrite (mnames_insert (g := greply)) by done. rewrite <- !app_assoc. apply Permutation_app_head. cbn.
    rewrite (app_assoc (mnames greply _) _ (_ :: hand)), (app_assoc (mnames greply _) _ hand). by rewrite Permutation_middle.
Qed.

(** A reply handed to the attribute client. *)
Lemma give_ask hand todo e c outs k g s : busy w (greply g :: hand) todo e c outs s -> asks (ledger s) !! k = None -> k <= serial (ledger s) ->
  busy w hand (k :: todo) e c outs (with_asks s (<[k := g]> (asks (ledger s)))).
Proof.
  intros [[[H1 H2 H2' H3 H4 H5 H6] H7] H8] Hk Hle. split; [split|exact H8]; [constructor; try done|done].
  - unfold ask_keys in *. cbn. rewrite map_to_list_insert by done. cbn. by rewrite H4.
  - intros j [Hj|[y Hj]]; [apply H5; by left|]. cbn in Hj. apply lookup_insert_Some in Hj as [[<- _]|[_ Hj]]; [done|]. apply H5. right. by eexists.
  - intros Hs. rewrite <- (H6 Hs). unfold given. cbn [with_asks with_ledger ledger log calls asks]. rewrite (mnames_insert (g := greply)) by done. rewrite <- !app_assoc. do 2 apply Permutation_app_head. cbn. by rewrite Permutation_middle.
Qed.

End Operations.

Section Calls.
Context (env : Env).
Let Hap := apply_actions_busy env.

Lemma guarded_settled w x r X : runs (fun s => exists e c, busy w [greply x] [] e c [] s) (guarded env (apply_actions env) x r) (fun _ => settled w []) X.
Proof. intros s (e & c & Hb). pose proof (guarded_busy env _ Hap w e c [] [] [] x r X s Hb) as H. cbv beta in H. destruct (guarded _ _ _ _ _) as [[a|] s']; [by eapply busy_settled|done]. Qed.

Lemma request_settled w route payload n t X : runs (settled w []) (request env route payload n t) (fun _ => settled (n :: w) []) X.
Proof.
  intros s Hs. destruct (settled_busy _ _ _ Hs) as [c Hb]. revert s Hs Hb. intros s0 _ Hb. set (e := lgeneration (link s0)) in Hb. clearbody e. revert s0 Hb.
  eapply runs_bind; [apply fresh_guard_busy|]. intros [k g]. apply runs_state. intros s1 (Hb & Hg & Hk & _ & Hle). cbn [fst snd] in *. subst n. destruct (active s1) eqn:Ha; cbn [negb].
  - eapply (runs_bind _ _ _ (fun _ => busy (greply g :: w) [] [] e c [])); [apply runs_modify; intros s [-> _]; by apply give_call|]. intros []. eapply runs_weaken; [by apply note_busy|done|intros [] s; apply busy_settled|done].
  - eapply runs_weaken; [apply (guarded_settled (greply g :: w) g _ X)| |done|done]. intros s [-> _]. by exists e, c.
Qed.

Lemma refused_settled w n r X : runs (settled w []) ('(_, g) ← fresh_guard n; guarded env (apply_actions env) g r) (fun _ => settled (n :: w) []) X.
Proof.
  intros s Hs. destruct (settled_busy _ _ _ Hs) as [c Hb]. set (e := lgeneration (link s)) in Hb. clearbody e. clear Hs. revert s Hb.
  eapply runs_bind; [apply fresh_guard_busy|]. intros [k g]. eapply runs_weaken; [apply (guarded_settled (n :: w) g _ X)| |done|done]. intros s (Hb & Hg & _). cbn in Hg. rewrite Hg. by exists e, c.
Qed.

Lemma call_settled w k method payload n rid t X : runs (settled w []) (Client.call env k method payload n rid t) (fun _ => settled (n :: w) []) X.
Proof. unfold Client.call. destruct (bind _ _); [apply request_settled|apply refused_settled]. Qed.

Lemma call_id_settled w id method payload n rid t X : runs (settled w []) (Client.call_id env id method payload n rid t) (fun _ => settled (n :: w) []) X.
Proof. unfold Client.call_id. destruct (entity_call_message _ _ _ _ _); [apply request_settled|apply refused_settled]. Qed.

(** The attribute client takes a reply. *)
Lemma handed_settled w e c k g f X : (forall c c' out, client_inv c -> f c = (c', out) -> mirrored [k] c c' out) ->
  runs (fun s => busy w [greply g] [] e c [] s /\ asks (ledger s) !! k = None /\ k <= serial (ledger s) /\ active s = true)
    (modify (fun s => with_asks s (<[k := g]> (asks (ledger s))));; host_operation env (apply_actions env) f) (fun _ => settled w []) X.
Proof.
  intros Hf. eapply (runs_bind _ _ _ (fun _ s => settled w [k] s /\ is_Some (host s))).
  - apply runs_modify. intros s (Hb & Hk & Hle & Ha). split; [eapply busy_settled; by apply give_ask|]. apply active_spec in Ha as (_ & _ & Hh). exact Hh.
  - intros []. eapply runs_weaken; [by apply operation_settled|intros s [Hs Hh]; split; [done|by right]|done|done].
Qed.

Lemma watch_settled w k n X : runs (settled w []) (watch env k n) (fun _ => settled (n :: w) []) X.
Proof.
  unfold watch. apply runs_state. intros s0 Hs. destruct (settled_busy _ _ _ Hs) as [c Hb]. set (e := lgeneration (link s0)) in Hb. clearbody e.
  assert (Hrefuse : forall x, runs (fun s => s = s0 /\ settled w [] s) (invoke env (apply_actions env) (watch_answered n x (MkHandle 0 0))) (fun _ => settled (n :: w) []) X).
  { intros x. eapply runs_weaken; [apply (invoke_plain env _ Hap (n :: w) e c [] [] [] (watch_answered n x (MkHandle 0 0)) X)| |intros [] s; apply busy_settled|done]; [done|]. intros s [-> _]. by apply ask_reply. }
  destruct (negb (valid_entity_id _)); [apply Hrefuse|]. destruct (active s0) eqn:Ha; cbn [negb]; [|apply Hrefuse].
  eapply (runs_bind _ _ _ (fun x s => (busy (n :: w) [n] [] e c [] s /\ greply x.2 = n /\ calls (ledger s) !! x.1 = None /\ asks (ledger s) !! x.1 = None /\ x.1 <= serial (ledger s)) /\ active s = true)).
  - intros s [-> _]. pose proof (fresh_guard_busy w [] [] e c [] n X s0 Hb) as H. unfold fresh_guard, state, modify, mret, act_ret, mbind, act_bind in *. split; [exact H|done].
  - intros [r g]. cbn [fst snd]. eapply runs_weaken; [apply (handed_settled (n :: w) e c r g)| |done|done]; [intros; by eapply watch_mirrored|]. intros s ((Hb' & Hg & _ & Hk & Hle) & Ha'). by rewrite Hg.
Qed.

Lemma write_settled w h vs n rid expected X : runs (settled w []) (write env h vs n rid expected) (fun _ => settled (n :: w) []) X.
Proof.
  intros s Hs. destruct (settled_busy _ _ _ Hs) as [c Hb]. set (e := lgeneration (link s)) in Hb. clearbody e. clear Hs. revert s Hb.
  eapply runs_bind; [apply fresh_guard_busy|]. intros [k g]. apply runs_state. intros s1 (Hb & Hg & _ & Hk & Hle). cbn [fst snd] in *.
  assert (Hrefuse : forall r, runs (fun s => s = s1 /\ (busy (n :: w) [n] [] e c [] s /\ greply g = n /\ calls (ledger s) !! k = None /\ asks (ledger s) !! k = None /\ k <= serial (ledger s))) (guarded env (apply_actions env) g r) (fun _ => settled (n :: w) []) X).
  { intros r. eapply runs_weaken; [apply (guarded_settled (n :: w) g r X)| |done|done]. intros s [-> _]. rewrite Hg. by exists e, c. }
  destruct (active s1) eqn:Ha; cbn [negb]; [|apply Hrefuse]. destruct (_ || _); [apply Hrefuse|].
  eapply runs_weaken; [apply (handed_settled (n :: w) e c k g)| |done|done]; [intros; by eapply write_mirrored|]. intros s [-> _]. by rewrite Hg.
Qed.

End Calls.

(** ** Polling *)

Section Poll.
Context (w : list N).

Lemma apply_settled env todo : runs (settled w todo) (apply_actions env) (fun _ => settled w todo) (settled w todo).
Proof. apply settled_runs. intros e c. apply apply_actions_busy. Qed.

Lemma modify_settled todo f X : (forall s, same_core s (f s)) -> runs (settled w todo) (modify f) (fun _ => settled w todo) X.
Proof. intros Hf. apply runs_modify. intros s Hs. destruct (settled_busy _ _ _ Hs) as [c Hb]. eapply busy_settled. by eapply same_core_busy; [apply Hf|]. Qed.

Lemma request_disconnect_settled todo x X : runs (settled w todo) (request_disconnect x) (fun _ => settled w todo) X.
Proof. apply modify_settled. intros s. split_and!; try done. apply active_pending. Qed.

Lemma poll_connection_settled env X : runs (settled w []) (poll_connection env) (fun _ => settled w []) X.
Proof.
  unfold poll_connection. apply runs_state. intros s0 _. eapply (runs_bind _ _ _ (fun _ => settled w [])).
  { apply runs_when; [intros _|by intros _ s []]. eapply runs_weaken; [apply plain_operation; intros; by eapply poll_mirrored|by intros s []|done|done]. }
  intros []. eapply (runs_bind _ _ _ (fun _ => settled w [])).
  { intros s Hs. destruct (settled_busy _ _ _ Hs) as [c Hb]. pose proof (ready_busy env _ (apply_actions_busy env) w _ c [] [] [] X s Hb) as H. cbv beta in H. destruct (ready _ _ _) as [[a|] s']; [by eapply busy_settled|done]. }
  intros []. apply runs_state. intros s1 _. apply runs_when; [intros _|by intros _ s []].
  destruct (negb _); [eapply runs_weaken; [apply request_disconnect_settled|by intros s []|done|done]|]. apply runs_when; [intros _|by intros _ s []]. eapply runs_weaken; [apply request_disconnect_settled|by intros s []|done|done].
Qed.

(** Every watch reply among the callbacks is honest when it comes. *)
Fixpoint honest_events (es : list (Env * node_event)) (s : Client) : Prop :=
  match es with [] => True | e :: es => honest_event e.2 s /\ honest_events es (node_callback e.1 e.2 s).2 end.

Lemma callbacks_settled es X : runs (fun s => settled w [] s /\ honest_events es s) (for_each (fun e => node_callback e.1 e.2) es) (fun _ => settled w []) X.
Proof.
  induction es as [|e es IH]; cbn [for_each]; [apply runs_done; by intros s []|]. intros s (Hs & Hh & Hrest). unfold mbind, act_bind.
  pose proof (node_callback_settled e.1 w e.2 X s (conj Hs Hh)) as H. cbv beta in H. destruct (node_callback e.1 e.2 s) as [[a|] s'] eqn:E; [|done]. apply IH. by split.
Qed.

Definition polled_state (env : Env) (s : Client) : Client := with_polling (apply_actions env s).2 true.

Lemma poll_settled env es failure : runs (fun s => settled w [] s /\ honest_events es (polled_state env s)) (poll env es failure) (fun _ => settled w []) (settled w []).
Proof.
  intros s [Hs Hh]. unfold poll. unfold mbind at 1, act_bind at 1, state at 1. destruct (polling (flags s)); [done|]. unfold mbind at 1, act_bind at 1.
  pose proof (apply_settled env [] s Hs) as H1. unfold polled_state in Hh. destruct (apply_actions env s) as [[[]|] s1]; [|exact H1]. cbn [snd] in Hh. unfold mbind at 1, act_bind at 1, state at 1. destruct (shutdown (flags s1)); [exact H1|].
  cut (runs (fun x => x = s1) (modify (fun s => with_polling s true);; attempt (for_each (fun e => node_callback e.1 e.2) es;; match failure with Some x => raise x | None => done end;; poll_connection env;; modify (fun s => with_polling s false))
        (fun e => modify (fun s => with_polling s false);; request_disconnect internal;; apply_actions env;; raise e);; apply_actions env) (fun _ => settled w []) (settled w [])); [intros H; exact (H s1 eq_refl)|].
  assert (Hoff : forall X, runs (settled w []) (modify (fun s => with_polling s false)) (fun _ => settled w []) X) by (intros X; apply modify_settled; intros x; by split_and!).
  eapply (runs_bind _ _ _ (fun _ x => settled w [] x /\ honest_events es x)).
  { apply runs_modify. intros x ->. split; [|done]. destruct (settled_busy _ _ _ H1) as [c Hb]. eapply busy_settled. eapply same_core_busy; [|exact Hb]. by split_and!. }
  intros []. eapply (runs_bind _ _ _ (fun _ => settled w [])); [|intros []; apply apply_settled].
  eapply (runs_attempt _ _ _ _ _ (settled w [])).
  - eapply runs_bind; [apply callbacks_settled|]. intros []. eapply (runs_bind _ _ _ (fun _ => settled w [])); [destruct failure; [by apply runs_raise|by apply runs_done]|]. intros [].
    eapply runs_bind; [apply poll_connection_settled|]. intros []. apply Hoff.
  - intros x. eapply runs_bind; [apply Hoff|]. intros []. eapply runs_bind; [apply request_disconnect_settled|]. intros []. eapply runs_bind; [apply apply_settled|]. intros []. by apply runs_raise.
Qed.

(** Changes of the script's side of the host. *)
Lemma change_host_settled f X : (forall h h' out, f h = (h', out) -> attributes h' = attributes h /\ Forall (fun n => plain n /\ replies_of [n] = []) out) ->
  runs (settled w []) (change_host f) (fun _ => settled w []) X.
Proof.
  intros Hf s Hs. destruct (settled_busy _ _ _ Hs) as [c Hb]. set (e := lgeneration (link s)) in Hb. clearbody e. clear Hs.
  cut (runs (busy w [] [] e c []) (change_host f) (fun _ => busy w [] [] e c []) X); [intros H; specialize (H s Hb); cbv beta in H; destruct (change_host f s) as [[a|] s']; [by eapply busy_settled|done]|]. clear s Hb.
  unfold change_host. apply runs_state. intros s0 Hb. destruct (host s0) as [h|] eqn:Hh; [|apply runs_done; by intros s []]. destruct (f h) as [h' out] eqn:E. destruct (Hf _ _ _ E) as [Ha Hn].
  eapply (runs_bind _ _ _ (fun _ => busy w [] [] e c [])); [apply runs_modify; intros s [-> _]; by apply (busy_host w e c [] [] [] h)|]. intros []. apply runs_each. intros n Hin. rewrite Forall_forall in Hn. destruct (Hn n Hin). by apply note_busy.
Qed.

Lemma enable_events_spec h h' out : enable_entity_events h = (h', out) -> attributes h' = attributes h /\ Forall (fun n => plain n /\ replies_of [n] = []) out.
Proof.
  unfold enable_entity_events. destruct (queue_events h); [intros [= <- <-]; by repeat constructor|]. set (h0 := MkScriptHost _ _ _ _ _ _).
  enough (H : forall l a, attributes a.1 = attributes h -> Forall (fun n => plain n /\ replies_of [n] = []) a.2 -> forall h' out, fold_left (fun acc i => if iautomatic i then let '(h, out) := queue_event (MkPresence enter (itype i) (iid i) (isubscription i) (iowned i) (icontrolled i)) acc.1 in (h, acc.2 ++ out) else acc) l a = (h', out) ->
    attributes h' = attributes h /\ Forall (fun n => plain n /\ replies_of [n] = []) out) by (apply (H _ (h0, [])); [done|constructor]).
  clear h' out. induction l as [|i l IH]; intros [a b] Ha Hb h' out; cbn [fold_left]; [by intros [= <- <-]|]. destruct (iautomatic i); [|by apply IH]. cbn [fst snd] in *. destruct (queue_event _ a) as [a' o] eqn:E. destruct (queue_event_spec _ _ _ _ E) as [E1 E2].
  apply IH; cbn [fst snd]; [congruence|by apply Forall_app].
Qed.

End Poll.

(** ** Operations of the application and of the node *)

Inductive operation :=
  | o_connect (e : ClientEndpoint) | o_disconnect | o_poll (es : list (Env * node_event)) (failure : option exn)
  | o_request (route payload : bytes) (n : N) (timeout_ms : Z) | o_call (k : EntityKey) (method payload : bytes) (n : N) (rid : bytes) (timeout_ms : Z)
  | o_call_id (id : EntityId) (method payload : bytes) (n : N) (rid : bytes) (timeout_ms : Z) | o_watch (k : EntityKey) (n : N)
  | o_write (h : ClientEntityHandle) (vs : AttributeStruct) (n : N) (rid : bytes) (expected : option N) | o_unwatch (h : ClientEntityHandle)
  | o_callback (n : node_event) | o_script_host | o_stop_events | o_pop | o_bind (route : bytes) (taken : result unit) | o_unbind (route : bytes) | o_host_connect (peer : result N) | o_destroy.

Definition replies_given (o : operation) : list N :=
  match o with o_request _ _ n _ | o_call _ _ _ n _ _ | o_call_id _ _ _ n _ _ | o_watch _ n | o_write _ _ n _ _ => [n] | _ => [] end.

Definition perform (env : Env) (o : operation) : act unit :=
  match o with
  | o_connect e => client_connect env e
  | o_disconnect => client_disconnect env
  | o_poll es failure => poll env es failure
  | o_request route payload n t => request env route payload n t
  | o_call k m p n rid t => Client.call env k m p n rid t
  | o_call_id id m p n rid t => Client.call_id env id m p n rid t
  | o_watch k n => watch env k n
  | o_write h vs n rid expected => write env h vs n rid expected
  | o_unwatch h => unwatch env h
  | o_callback n => node_callback env n
  | o_script_host => script_host
  | o_stop_events => stop_entity_events env
  | o_pop => change_host (fun h => match pop_entity_event h with Ok (_, h') => (h', []) | Throw _ => (h, []) end)
  | o_bind route taken => change_host (fun h => match tracked_bind route taken h with Ok h' => (h', []) | Throw _ => (h, []) end)
  | o_unbind route => change_host (host_unbind route)
  | o_host_connect peer => change_host (fun h => match host_connect peer h with Ok (_, h') => (h', []) | Throw _ => (h, []) end)
  | o_destroy => destroy env
  end.

Definition honest (env : Env) (o : operation) (s : Client) : Prop :=
  match o with o_callback n => honest_event n s | o_poll es _ => honest_events es (polled_state env s) | _ => True end.

Lemma destroy_settled env w : runs (settled w []) (destroy env) (fun _ => settled w []) (settled w []).
Proof.
  unfold destroy. eapply (runs_bind _ _ _ (fun _ => settled w [])); [|intros []; eapply runs_bind; [apply request_disconnect_settled|intros []; apply apply_settled]].
  apply runs_modify. intros s [[[H1 H2 H2' H3 H4 H5 H6] H7] H8]. split; [split|]; [constructor; try done; split; [apply H1|done]|done|]. intros Ha. by apply active_spec in Ha as (? & _).
Qed.

Lemma perform_settled env o w : runs (fun s => settled w [] s /\ honest env o s) (perform env o) (fun _ => settled (replies_given o ++ w) []) (settled (replies_given o ++ w) []).
Proof.
  assert (Hx : forall (m : act unit), runs (settled w []) m (fun _ => settled w []) (settled w []) -> runs (fun s => settled w [] s /\ honest env o s) m (fun _ => settled w []) (settled w [])) by (intros m H; eapply runs_weaken; [exact H|by intros s []|done|done]).
  destruct o as [x| |es failure|route payload n t|k m p n rid t|id m p n rid t|k n|h vs n rid ex|h|n| | | |route taken|route|peer|]; cbn [perform replies_given app].
  - apply Hx, settled_runs. intros e c. apply (react_busy _ (apply_actions_busy env) w e c [] [] [] (connects x)).
  - apply Hx, settled_runs. intros e c. apply (react_busy _ (apply_actions_busy env) w e c [] [] [] disconnects).
  - apply poll_settled.
  - eapply runs_weaken; [apply request_settled|by intros s []|done|done].
  - eapply runs_weaken; [apply call_settled|by intros s []|done|done].
  - eapply runs_weaken; [apply call_id_settled|by intros s []|done|done].
  - eapply runs_weaken; [apply watch_settled|by intros s []|done|done].
  - eapply runs_weaken; [apply write_settled|by intros s []|done|done].
  - apply Hx. unfold unwatch. apply runs_state. intros s0 _. apply runs_when; [intros _|by intros _ s []]. eapply runs_weaken; [apply plain_operation; intros; by eapply remove_mirrored|by intros s []|done|done].
  - apply node_callback_settled.
  - apply Hx. unfold script_host. apply runs_state. intros s0 _. destruct (_ || _); [apply runs_raise; by intros s []|]. eapply runs_weaken; [apply change_host_settled, enable_events_spec|by intros s []|done|done].
  - apply Hx. unfold stop_entity_events. eapply (runs_bind _ _ _ (fun _ => settled w [])); [apply plain_operation; intros; by eapply entities_mirrored|]. intros []. apply change_host_settled. intros h h' out [= <- <-]. by repeat constructor.
  - apply Hx, change_host_settled. intros h h' out. unfold pop_entity_event. destruct (event_overflow h); [intros [= <- <-]; by repeat constructor|]. cbn [bind]. destruct (events h); intros [= <- <-]; by repeat constructor.
  - apply Hx, change_host_settled. intros h h' out. unfold tracked_bind. destruct (bool_decide _); [intros [= <- <-]; by repeat constructor|]. destruct taken; intros [= <- <-]; by repeat constructor.
  - apply Hx, change_host_settled. intros h h' out. unfold host_unbind. destruct (bool_decide _); intros [= <- <-]; by repeat constructor.
  - apply Hx, change_host_settled. intros h h' out. unfold host_connect. destruct peer; intros [= <- <-]; by repeat constructor.
  - apply Hx, destroy_settled.
Qed.

(** ** Runs *)

Record csys := MkApplication { sdk : Client; given_replies : list N }.

Inductive sdk_step : csys -> csys -> Prop :=
  | sdk_operation env o x : shutdown (flags (sdk x)) = false -> honest env o (sdk x) -> sdk_step x (MkApplication (perform env o (sdk x)).2 (replies_given o ++ given_replies x)).

Definition sdk_start (connect_ms request_ms : Z) (x : csys) : Prop := exists s, client connect_ms request_ms = Ok s /\ x = MkApplication s [].

Lemma sdk_step_inv x y : settled (given_replies x) [] (sdk x) -> sdk_step x y -> settled (given_replies y) [] (sdk y).
Proof. intros Hs Hst. destruct Hst as [env o x' _ Hh]. cbn [sdk given_replies]. pose proof (perform_settled env o (given_replies x') (sdk x') (conj Hs Hh)) as H. destruct (perform env o (sdk x')) as [[a|] s']; exact H. Qed.

Lemma sdk_start_inv c r x : sdk_start c r x -> settled (given_replies x) [] (sdk x).
Proof.
  intros (s & Hs & ->). unfold client in Hs. destruct (_ || _); [done|]. injection Hs as <-. cbn [sdk given_replies]. split; [split; [constructor; try done|done]|].
  - intros k [[? Hk]|[? Hk]]; cbn in Hk; by rewrite lookup_empty in Hk.
  - by intros ?.
Qed.

Lemma sdk_reachable_inv c r x y : sdk_start c r x -> rtc sdk_step x y -> settled (given_replies y) [] (sdk y).
Proof. intros Hx Hr. apply sdk_start_inv in Hx. induction Hr as [|x1 x2 x3 Hst _ IH]; [done|]. apply IH. by eapply sdk_step_inv. Qed.

(** ** Properties *)

(** C12 (refinement).  The events are the state: in any run of an application's calls, of the
    node's callbacks and of polls, with an application that may throw, disconnect and
    reconnect inside any callback, the events told so far are a valid account (entities enter
    before they change or leave, all have left when a connection ends, generations count
    up by one) and rebuild exactly the connection state and the entities the client
    holds; while the connection is active these are exactly the projections of the
    attribute client, with their keys, ownership, control and revision. *)
Theorem client_view_exact c r x y : sdk_start c r x -> rtc sdk_step x y ->
  is_Some (seen (log (ledger (sdk y)))) /\ (shutdown (flags (sdk y)) = false -> seen (log (ledger (sdk y))) = Some (view_of (sdk y))) /\
  (active (sdk y) = true -> exists h, host (sdk y) = Some h /\ bindings (sdk y) = binding_of <$> projections (attributes h)).
Proof. intros Hx Hr. destruct (sdk_reachable_inv _ _ _ _ Hx Hr) as [[[H1 _ _ _ _ _ _] _] H2]. split; [apply H1|]. split; [apply H1|exact H2]. Qed.

(** C13 (safety).  No reply is lost or called twice, as long as no reply to a watch names a subscription
    the client already has ([honest_reply]; the code drops the callback of such a watch): in any such
    run the replies given to [request], [call], [watch] and [write] are those called so far and
    those the node or the attribute client still holds, each once; a disconnected client has
    called them all.  A client that was shut down is left out. *)
Theorem client_replies_once c r x y : sdk_start c r x -> rtc sdk_step x y -> shutdown (flags (sdk y)) = false ->
  given_replies y ≡ₚ replies_of (log (ledger (sdk y))) ++ mnames greply (calls (ledger (sdk y))) ++ mnames greply (asks (ledger (sdk y))) /\
  (lstate (link (sdk y)) = offline -> given_replies y ≡ₚ replies_of (log (ledger (sdk y)))).
Proof.
  intros Hx Hr Hs. destruct (sdk_reachable_inv _ _ _ _ Hx Hr) as [[[_ H2 _ _ H4 _ H6] H7] _]. specialize (H6 Hs). rewrite app_nil_r in H6. split; [by rewrite <- H6|]. intros Ho. rewrite <- H6. unfold given. rewrite (H7 Ho).
  destruct (H2 Ho) as [Hh _]. unfold held_by, ask_keys in H4. rewrite Hh in H4. cbn in H4. apply Permutation_nil_r, map_eq_nil, map_to_list_empty_iff in H4. by rewrite H4, !mnames_empty, !app_nil_r.
Qed.

(** ** Witnesses *)

Definition plain_event (n : node_event) : bool := match n with n_watched _ _ => false | _ => true end.
Definition plain_operation_b (o : operation) : bool :=
  match o with o_callback n => plain_event n | o_poll es _ => forallb (fun e => plain_event e.2) es | _ => true end.

Lemma plain_events_honest es : forallb (fun e : Env * node_event => plain_event e.2) es = true -> forall s, honest_events es s.
Proof. induction es as [|[env n] es IH]; intros H s; [done|]. cbn in H. apply andb_true_iff in H as [H1 H2]. split; [by destruct n|by apply IH]. Qed.

Fixpoint run_operations (os : list (Env * operation)) (x : csys) : csys :=
  match os with [] => x | e :: os => run_operations os (MkApplication (perform e.1 e.2 (sdk x)).2 (replies_given e.2 ++ given_replies x)) end.
Fixpoint run_fine (os : list (Env * operation)) (x : csys) : bool :=
  match os with [] => true | e :: os => negb (shutdown (flags (sdk x))) && plain_operation_b e.2 && run_fine os (MkApplication (perform e.1 e.2 (sdk x)).2 (replies_given e.2 ++ given_replies x)) end.

Lemma run_fine_steps os : forall x, run_fine os x = true -> rtc sdk_step x (run_operations os x).
Proof.
  induction os as [|[env o] os IH]; intros x H; [done|]. cbn [run_fine fst snd] in H. apply andb_true_iff in H as [[H1%negb_true_iff H2]%andb_true_iff H3]. cbn [run_operations fst snd]. eapply rtc_l; [|by apply IH].
  apply sdk_operation; [done|]. destruct o as [| |es| | | | | | |n| | | | | | |]; try done; [by apply plain_events_honest|by destruct n].
Qed.

(** An application that disconnects as soon as an entity has left. *)
Definition leaving_app (l : list notice) : list reaction :=
  match last l with Some (event_told e) => match ekind e with k_leave => [disconnects] | _ => [] end | _ => [] end.
Definition sample_env : Env := MkEnv 0 true false (fun _ => Ok 9) (Ok tt) (lit "p-") leaving_app.
Definition sample_client : Client := match client 5000 3000 with Ok s => s | Throw _ => MkSdk None ∅ (MkLink offline 0 0 0) 0 0 (MkFlags false false false false) ok None None (MkLedger ∅ ∅ 0 []) end.
Definition sample_presence (id revision : N) (flags : N) : bytes :=
  [byte_of 1; byte_of flags] ++ match encode_replication_packet (MkPacket id (lit "Avatar") (lit "00000000000000a" ++ to_string id) ok 30000 (Some (MkUpdate 0 revision true [(lit "hp", AInt 9)] []))) with Ok d => d | Throw _ => [] end.
(** The client connects, two entities enter, a request is sent and a watch is asked for. *)
Definition sample_entering : list (Env * operation) :=
  [(sample_env, o_connect (MkClientEndpoint (lit "127.0.0.1") 4000 []));
   (sample_env, o_poll [(sample_env, n_presence 9 (sample_presence 1 4 3)); (sample_env, n_presence 9 (sample_presence 2 6 0))] None);
   (sample_env, o_request (lit "echo") (lit "hi") 5 0); (sample_env, o_watch (MkKey (lit "Avatar") (lit "00000000000000a3")) 6)].
(** An entity is unwatched: it leaves, and the application disconnects inside that callback. *)
Definition sample_leaving : list (Env * operation) := sample_entering ++ [(sample_env, o_unwatch (MkHandle 1 2))].
Definition client_start : csys := MkApplication sample_client [].

Lemma sample_client_start : sdk_start 5000 3000 client_start.
Proof. by exists sample_client. Qed.
Lemma sample_entering_run : rtc sdk_step client_start (run_operations sample_entering client_start).
Proof. apply run_fine_steps. vm_compute. reflexivity. Qed.
Lemma sample_leaving_run : rtc sdk_step client_start (run_operations sample_leaving client_start).
Proof. apply run_fine_steps. vm_compute. reflexivity. Qed.

Lemma client_view_exact_witness : active (sdk (run_operations sample_entering client_start)) = true /\
  seen (log (ledger (sdk (run_operations sample_entering client_start)))) = Some (view_of (sdk (run_operations sample_entering client_start))) /\
  base.size (ventities (view_of (sdk (run_operations sample_entering client_start)))) = 2%nat.
Proof.
  split; [vm_compute; reflexivity|]. split; [|vm_compute; reflexivity].
  apply (proj1 (proj2 (client_view_exact 5000 3000 client_start (run_operations sample_entering client_start) sample_client_start sample_entering_run))). vm_compute. reflexivity.
Defined.

Lemma client_replies_once_witness : replies_of (log (ledger (sdk (run_operations sample_leaving client_start)))) = [6; 5] /\
  given_replies (run_operations sample_leaving client_start) ≡ₚ replies_of (log (ledger (sdk (run_operations sample_leaving client_start)))).
Proof.
  split; [vm_compute; reflexivity|].
  apply (proj2 (client_replies_once 5000 3000 client_start (run_operations sample_leaving client_start) sample_client_start sample_leaving_run ltac:(vm_compute; reflexivity))). vm_compute. reflexivity.
Defined.
