(* ===== verification/Gateway.v ===== *)
(** * The client gateway

    [ClientGateway] of [src/client_gateway.cpp]: the front of the system.  It authenticates
    each client connection, forwards its calls over a link of its own to the owner of the
    entity, delegated with the client's principal, and keeps its subscriptions alive when an
    entity moves to another owner.

    A continuation the code gives to the back node, to a lookup or to a link is a value here:
    [continuation] and [task].  A link is known by the number of its back peer; [objects] is
    the store of all links, [links] the table the code calls so.  A request is in [requests]
    exactly while its [done] flag is down.  A back call the node refuses, or whose peer is
    closed, is answered on the spot, as [Node] does. *)

From stdpp Require Import gmap.
From S2P Require Import Prelude Storage OrderedMap Identity Values AttributeWire Messages Fields TimerState DeliveryState Schema Records Programs Directory Transport Actions.

(** ** Data *)

Record GatewayLimits := MkGatewayLimits {
  max_clients : N; max_links : N; max_subscriptions : N; per_client : N; max_requests : N; max_bytes : N;
  request_timeout : Z; refresh_every : Z; migration_timeout : Z }.

(** Who waits for a lookup or a link, and for what. *)
Inductive task :=
  | t_routed (r : N) | t_present (r : N) (type id : bytes) | t_watch (r sub : N) (type entity : bytes) | t_refresh (sub : N).
Definition task_owner (t : task) : N := match t with t_routed r | t_present r _ _ | t_watch r _ _ _ => r | t_refresh sub => sub end.

(** The reply callbacks of the calls to the back node. *)
Inductive continuation :=
  | c_finish (r : N) | c_watch (r sub : N) (type entity : bytes) | c_restore (sub : N) (control : bool) (epoch : N)
  | c_unpossess (sub epoch : N) | c_delegate.
Record Pending := MkPending { call_peer : N; call_then : continuation }.

(** Where a waiter is to be erased. *)
Inductive detach := d_lookup (key : bytes) | d_link (peer : N).

Record Link := MkLink { lclient : N; lindex : nat; lready : bool; lopening : bool; lwaiters : list (N * task) }.
Record Session := MkSession { session_subject : bytes; session_links : gmap nat N; session_controlled : N; session_connection : ConnectionRef }.
Record Subscription := MkSub {
  sclient : N; sremote : N; srevision : N; sepoch : N; stype : bytes; sentity : bytes; slink : option N; sautomatic : bool; sowned : bool; scontrol : bool;
  smigrating : bool; sbusy : bool; sfailed : gset nat; snext : Z; sdeadline : Z; sdetach : list detach }.
Record Request := MkRequest {
  rclient : N; rsubject : bytes; rdata : bytes; rreply : N; rdeadline : Z; rbytes : N; rcancel : option N; rdetach : list detach;
  rretry_at : Z; rretry : option (bytes * bytes); rresolved : bytes; rconnection : ConnectionRef }.
Record Await := MkAwait { atask : task; atype : bytes; aentity : bytes; aclient : N; afailed : gset nat }.
Record Lookup := MkLookup { kbusy : bool; kexpires : Z; klocation : option EntityLocation; kwaiters : list (N * Await) }.
Record Counters := MkCounters { queued_bytes : N; forwarded : N; failures : N; migrations : N }.

(** What the gateway does to its clients, to the owners and to its storage, oldest first. *)
Inductive output :=
  | o_answered (reply : N) (r : Result) | o_notified (client : N) (channel body : bytes) | o_front_closed (client : N)
  | o_connected (peer : N) (e : EntityEndpoint) | o_called (peer : N) (route data : bytes) (timeout_ms : Z) | o_back_closed (peer : N)
  | o_submitted (key : bytes) | o_unbound (route : bytes) | o_storage_stopped | o_too_deep.

(** The two nodes, as the gateway sees them. *)
Record Net := MkNet { calls : gmap N Pending; call_serial : N; last_peer : N; front_closed : gset N; back_closed : gset N }.

Record Gateway := MkGateway {
  limits : GatewayLimits; endpoints : list EntityEndpoint; sessions : gmap N Session; objects : gmap N Link; links : gset N;
  subscriptions : gmap N Subscription; reverse : gmap (N * N) N; requests : gmap N Request; lookups : gmap bytes Lookup;
  exposed : gmap bytes (gset bytes); schedule : list N; retry : list Z; counters : Counters; serial : N; stopped : bool; draining : bool;
  net : Net; log : list output }.

(** *** Updates *)

Definition with_sessions (s : Gateway) (x : gmap N Session) : Gateway :=
  MkGateway (limits s) (endpoints s) x (objects s) (links s) (subscriptions s) (reverse s) (requests s) (lookups s) (exposed s) (schedule s) (retry s) (counters s) (serial s) (stopped s) (draining s) (net s) (log s).
Definition with_objects (s : Gateway) (x : gmap N Link) : Gateway :=
  MkGateway (limits s) (endpoints s) (sessions s) x (links s) (subscriptions s) (reverse s) (requests s) (lookups s) (exposed s) (schedule s) (retry s) (counters s) (serial s) (stopped s) (draining s) (net s) (log s).
Definition with_links (s : Gateway) (x : gset N) : Gateway :=
  MkGateway (limits s) (endpoints s) (sessions s) (objects s) x (subscriptions s) (reverse s) (requests s) (lookups s) (exposed s) (schedule s) (retry s) (counters s) (serial s) (stopped s) (draining s) (net s) (log s).
Definition with_subscriptions (s : Gateway) (x : gmap N Subscription) : Gateway :=
  MkGateway (limits s) (endpoints s) (sessions s) (objects s) (links s) x (reverse s) (requests s) (lookups s) (exposed s) (schedule s) (retry s) (counters s) (serial s) (stopped s) (draining s) (net s) (log s).
Definition with_reverse (s : Gateway) (x : gmap (N * N) N) : Gateway :=
  MkGateway (limits s) (endpoints s) (sessions s) (objects s) (links s) (subscriptions s) x (requests s) (lookups s) (exposed s) (schedule s) (retry s) (counters s) (serial s) (stopped s) (draining s) (net s) (log s).
Definition with_requests (s : Gateway) (x : gmap N Request) : Gateway :=
  MkGateway (limits s) (endpoints s) (sessions s) (objects s) (links s) (subscriptions s) (reverse s) x (lookups s) (exposed s) (schedule s) (retry s) (counters s) (serial s) (stopped s) (draining s) (net s) (log s).
Definition with_lookups (s : Gateway) (x : gmap bytes Lookup) : Gateway :=
  MkGateway (limits s) (endpoints s) (sessions s) (objects s) (links s) (subscriptions s) (reverse s) (requests s) x (exposed s) (schedule s) (retry s) (counters s) (serial s) (stopped s) (draining s) (net s) (log s).
Definition with_exposed (s : Gateway) (x : gmap bytes (gset bytes)) : Gateway :=
  MkGateway (limits s) (endpoints s) (sessions s) (objects s) (links s) (subscriptions s) (reverse s) (requests s) (lookups s) x (schedule s) (retry s) (counters s) (serial s) (stopped s) (draining s) (net s) (log s).
Definition with_schedule (s : Gateway) (x : list N) : Gateway :=
  MkGateway (limits s) (endpoints s) (sessions s) (objects s) (links s) (subscriptions s) (reverse s) (requests s) (lookups s) (exposed s) x (retry s) (counters s) (serial s) (stopped s) (draining s) (net s) (log s).
Definition with_retry (s : Gateway) (x : list Z) : Gateway :=
  MkGateway (limits s) (endpoints s) (sessions s) (objects s) (links s) (subscriptions s) (reverse s) (requests s) (lookups s) (exposed s) (schedule s) x (counters s) (serial s) (stopped s) (draining s) (net s) (log s).
Definition with_counters (s : Gateway) (x : Counters) : Gateway :=
  MkGateway (limits s) (endpoints s) (sessions s) (objects s) (links s) (subscriptions s) (reverse s) (requests s) (lookups s) (exposed s) (schedule s) (retry s) x (serial s) (stopped s) (draining s) (net s) (log s).
Definition with_serial (s : Gateway) (x : N) : Gateway :=
  MkGateway (limits s) (endpoints s) (sessions s) (objects s) (links s) (subscriptions s) (reverse s) (requests s) (lookups s) (exposed s) (schedule s) (retry s) (counters s) x (stopped s) (draining s) (net s) (log s).
Definition with_stopped (s : Gateway) (x : bool) : Gateway :=
  MkGateway (limits s) (endpoints s) (sessions s) (objects s) (links s) (subscriptions s) (reverse s) (requests s) (lookups s) (exposed s) (schedule s) (retry s) (counters s) (serial s) x (draining s) (net s) (log s).
Definition with_draining (s : Gateway) (x : bool) : Gateway :=
  MkGateway (limits s) (endpoints s) (sessions s) (objects s) (links s) (subscriptions s) (reverse s) (requests s) (lookups s) (exposed s) (schedule s) (retry s) (counters s) (serial s) (stopped s) x (net s) (log s).
Definition with_net (s : Gateway) (x : Net) : Gateway :=
  MkGateway (limits s) (endpoints s) (sessions s) (objects s) (links s) (subscriptions s) (reverse s) (requests s) (lookups s) (exposed s) (schedule s) (retry s) (counters s) (serial s) (stopped s) (draining s) x (log s).
Definition with_log (s : Gateway) (x : list output) : Gateway :=
  MkGateway (limits s) (endpoints s) (sessions s) (objects s) (links s) (subscriptions s) (reverse s) (requests s) (lookups s) (exposed s) (schedule s) (retry s) (counters s) (serial s) (stopped s) (draining s) (net s) x.
Definition with_calls (s : Gateway) (x : gmap N Pending) : Gateway := with_net s (MkNet x (call_serial (net s)) (last_peer (net s)) (front_closed (net s)) (back_closed (net s))).
Definition with_call_serial (s : Gateway) (x : N) : Gateway := with_net s (MkNet (calls (net s)) x (last_peer (net s)) (front_closed (net s)) (back_closed (net s))).
Definition with_last_peer (s : Gateway) (x : N) : Gateway := with_net s (MkNet (calls (net s)) (call_serial (net s)) x (front_closed (net s)) (back_closed (net s))).
Definition with_front_closed (s : Gateway) (x : gset N) : Gateway := with_net s (MkNet (calls (net s)) (call_serial (net s)) (last_peer (net s)) x (back_closed (net s))).
Definition with_back_closed (s : Gateway) (x : gset N) : Gateway := with_net s (MkNet (calls (net s)) (call_serial (net s)) (last_peer (net s)) (front_closed (net s)) x).
Definition sub_remote (x : N) (b : Subscription) : Subscription :=
  MkSub (sclient b) x (srevision b) (sepoch b) (stype b) (sentity b) (slink b) (sautomatic b) (sowned b) (scontrol b) (smigrating b) (sbusy b) (sfailed b) (snext b) (sdeadline b) (sdetach b).
Definition sub_revision (x : N) (b : Subscription) : Subscription :=
  MkSub (sclient b) (sremote b) x (sepoch b) (stype b) (sentity b) (slink b) (sautomatic b) (sowned b) (scontrol b) (smigrating b) (sbusy b) (sfailed b) (snext b) (sdeadline b) (sdetach b).
Definition sub_epoch (x : N) (b : Subscription) : Subscription :=
  MkSub (sclient b) (sremote b) (srevision b) x (stype b) (sentity b) (slink b) (sautomatic b) (sowned b) (scontrol b) (smigrating b) (sbusy b) (sfailed b) (snext b) (sdeadline b) (sdetach b).
Definition sub_link (x : option N) (b : Subscription) : Subscription :=
  MkSub (sclient b) (sremote b) (srevision b) (sepoch b) (stype b) (sentity b) x (sautomatic b) (sowned b) (scontrol b) (smigrating b) (sbusy b) (sfailed b) (snext b) (sdeadline b) (sdetach b).
Definition sub_control (x : bool) (b : Subscription) : Subscription :=
  MkSub (sclient b) (sremote b) (srevision b) (sepoch b) (stype b) (sentity b) (slink b) (sautomatic b) (sowned b) x (smigrating b) (sbusy b) (sfailed b) (snext b) (sdeadline b) (sdetach b).
Definition sub_migrating (x : bool) (b : Subscription) : Subscription :=
  MkSub (sclient b) (sremote b) (srevision b) (sepoch b) (stype b) (sentity b) (slink b) (sautomatic b) (sowned b) (scontrol b) x (sbusy b) (sfailed b) (snext b) (sdeadline b) (sdetach b).
Definition sub_busy (x : bool) (b : Subscription) : Subscription :=
  MkSub (sclient b) (sremote b) (srevision b) (sepoch b) (stype b) (sentity b) (slink b) (sautomatic b) (sowned b) (scontrol b) (smigrating b) x (sfailed b) (snext b) (sdeadline b) (sdetach b).
Definition sub_failed (x : gset nat) (b : Subscription) : Subscription :=
  MkSub (sclient b) (sremote b) (srevision b) (sepoch b) (stype b) (sentity b) (slink b) (sautomatic b) (sowned b) (scontrol b) (smigrating b) (sbusy b) x (snext b) (sdeadline b) (sdetach b).
Definition sub_next (x : Z) (b : Subscription) : Subscription :=
  MkSub (sclient b) (sremote b) (srevision b) (sepoch b) (stype b) (sentity b) (slink b) (sautomatic b) (sowned b) (scontrol b) (smigrating b) (sbusy b) (sfailed b) x (sdeadline b) (sdetach b).
Definition sub_deadline (x : Z) (b : Subscription) : Subscription :=
  MkSub (sclient b) (sremote b) (srevision b) (sepoch b) (stype b) (sentity b) (slink b) (sautomatic b) (sowned b) (scontrol b) (smigrating b) (sbusy b) (sfailed b) (snext b) x (sdetach b).
Definition sub_detach (x : list detach) (b : Subscription) : Subscription :=
  MkSub (sclient b) (sremote b) (srevision b) (sepoch b) (stype b) (sentity b) (slink b) (sautomatic b) (sowned b) (scontrol b) (smigrating b) (sbusy b) (sfailed b) (snext b) (sdeadline b) x.
Definition req_cancel (x : option N) (q : Request) : Request :=
  MkRequest (rclient q) (rsubject q) (rdata q) (rreply q) (rdeadline q) (rbytes q) x (rdetach q) (rretry_at q) (rretry q) (rresolved q) (rconnection q).
Definition req_detach (x : list detach) (q : Request) : Request :=
  MkRequest (rclient q) (rsubject q) (rdata q) (rreply q) (rdeadline q) (rbytes q) (rcancel q) x (rretry_at q) (rretry q) (rresolved q) (rconnection q).
Definition req_resolved (x : bytes) (q : Request) : Request :=
  MkRequest (rclient q) (rsubject q) (rdata q) (rreply q) (rdeadline q) (rbytes q) (rcancel q) (rdetach q) (rretry_at q) (rretry q) x (rconnection q).
Definition req_retry (t : Z) (x : option (bytes * bytes)) (q : Request) : Request :=
  MkRequest (rclient q) (rsubject q) (rdata q) (rreply q) (rdeadline q) (rbytes q) (rcancel q) (rdetach q) t x (rresolved q) (rconnection q).
Definition link_state (ready opening : bool) (w : list (N * task)) (l : Link) : Link := MkLink (lclient l) (lindex l) ready opening w.
Definition session_with (m : gmap nat N) (c : N) (x : Session) : Session := MkSession (session_subject x) m c (session_connection x).
Definition count_forwarded (c : Counters) : Counters := MkCounters (queued_bytes c) (forwarded c + 1) (failures c) (migrations c).
Definition count_failure (c : Counters) : Counters := MkCounters (queued_bytes c) (forwarded c) (failures c + 1) (migrations c).
Definition count_migration (c : Counters) : Counters := MkCounters (queued_bytes c) (forwarded c) (failures c) (migrations c + 1).
Definition count_bytes (n : N) (c : Counters) : Counters := MkCounters n (forwarded c) (failures c) (migrations c).

Abbreviation act := (Actions.act Gateway).
Definition note (o : output) : act unit := modify (fun s => with_log s (log s ++ [o])).
Definition on_sub (id : N) (f : Subscription -> Subscription) : act unit := modify (fun s => with_subscriptions s (alter f id (subscriptions s))).
Definition on_request (id : N) (f : Request -> Request) : act unit := modify (fun s => with_requests s (alter f id (requests s))).
Definition on_link (p : N) (f : Link -> Link) : act unit := modify (fun s => with_objects s (alter f p (objects s))).
Definition on_session (c : N) (f : Session -> Session) : act unit := modify (fun s => with_sessions s (alter f c (sessions s))).
Definition on_lookup (k : bytes) (f : Lookup -> Lookup) : act unit := modify (fun s => with_lookups s (alter f k (lookups s))).
Definition count (f : Counters -> Counters) : act unit := modify (fun s => with_counters s (f (counters s))).

(** [std::map] of waiters: increasing identities, [emplace] keeps an entry that is there. *)
Fixpoint waiter_emplace {A} (id : N) (a : A) (l : list (N * A)) : list (N * A) :=
  match l with
  | [] => [(id, a)]
  | (i, b) :: m => if id <? i then (id, a) :: l else if id =? i then l else (i, b) :: waiter_emplace id a m
  end.
Definition waiter_erase {A} (id : N) (l : list (N * A)) : list (N * A) := List.filter (fun e => negb (e.1 =? id)) l.

(** ** Environment

    What the clocks, the nodes and the storage executor answer during one operation; their
    answers may depend on everything the gateway has done so far.  [e_connect] says how many
    peers the back node numbered for others meanwhile: it never gives a number twice. *)
Inductive refusal := refuse_rejected | refuse_disconnected | refuse_overloaded.
Definition refusal_status (x : refusal) : Status := match x with refuse_rejected => rejected | refuse_disconnected => disconnected | refuse_overloaded => overloaded end.

Record Env := MkEnv {
  e_now : Z; e_wall : Z; e_identity : list output -> N -> option CallIdentity; e_connected : list output -> N -> bool;
  e_connect : list output -> EntityEndpoint -> result N; e_refuse : list output -> option refusal; e_notify : list output -> bool; e_accept : list output -> bool }.

Definition attributes_channel : bytes := lit "system.attributes.update".
Definition presence_channel : bytes := lit "system.entities.presence".
Definition entity_call_route : bytes := lit "@".
Definition route_watch : bytes := lit "system.attributes.watch".
Definition route_unwatch : bytes := lit "system.attributes.unwatch".
Definition route_renew : bytes := lit "system.attributes.renew".
Definition route_write : bytes := lit "system.attributes.write".
Definition route_delegate : bytes := lit "system.gateway.delegate".
Definition route_restore : bytes := lit "system.gateway.restore".
Definition route_unpossess : bytes := lit "system.gateway.unpossess".
Definition route_visibility : bytes := lit "system.gateway.visibility".
Definition route_present : bytes := lit "system.gateway.present".

(** [token(id)] *)
Definition token (id : N) : bytes := put_be 8 id.
(** [remote_key(peer, id)]: the sixteen bytes are the two 64-bit numbers. *)
Definition remote_key (peer id : N) : N * N := (peer, id).
Definition lookup_key (entity : bytes) : bytes := lit "global:" ++ entity.
Definition is_ok_status (x : Status) : bool := bool_decide (x = ok).
Definition failed_with (x : Status) : Result := MkResult x [].

Section Gateway.
Context (env : Env).
Let now : Z := e_now env.

(** [front.identity(peer)]: the resolver's answer under the peer's number; a closed peer has none. *)
Definition identity (p : N) (s : Gateway) : option CallIdentity :=
  if bool_decide (p ∈ front_closed (net s)) then None
  else (fun who => MkIdentity (caller who) (Schema.subject who) p (Schema.connection who) (Schema.current who) (execution who)) <$> e_identity env (log s) p.
(** [back.connected(peer)] *)
Definition connected (p : N) (s : Gateway) : bool := negb (bool_decide (p ∈ back_closed (net s))) && e_connected env (log s) p.

(** [current(peer, subject, connection)] *)
Definition current (p : N) (subject : bytes) (connection : ConnectionRef) (s : Gateway) : bool :=
  match identity p s with
  | None => false
  | Some who =>
      negb (stopped s) && live who && match caller who with client => true | server => false end && (connection_valid (Schema.connection who) || negb (is_empty subject)) &&
      bytes_eqb (Schema.subject who) subject && bool_decide (Schema.connection who = connection)
  end.

(** The two [authenticated]. *)
Definition authenticated (c : N) (subject : bytes) (s : Gateway) : bool :=
  match sessions s !! c with Some x => bytes_eqb (session_subject x) subject && current c subject (session_connection x) s | None => false end.
Definition session_authenticated (c : N) (s : Gateway) : bool :=
  match sessions s !! c with Some x => authenticated c (session_subject x) s | None => false end.
Definition request_authenticated (q : Request) (s : Gateway) : bool :=
  match sessions s !! rclient q with
  | Some x => bytes_eqb (session_subject x) (rsubject q) && bool_decide (session_connection x = rconnection q) && current (rclient q) (rsubject q) (rconnection q) s
  | None => false
  end.

(** [remaining(r)] *)
Definition remaining (q : Request) (s : Gateway) : Z := Z.min (Z.max 1 (trunc_ms (rdeadline q - now))) (request_timeout (limits s)).

(** [front.notify], [front.close] and a call of the back node whose reply is ignored. *)
Definition notify (c : N) (channel body : bytes) : act bool := s ← state; note (o_notified c channel body);; mret (e_notify env (log s)).
Definition front_close (c : N) : act unit := modify (fun s => with_front_closed s ({[c]} ∪ front_closed (net s)));; note (o_front_closed c).
Definition tell (c : N) (channel body : bytes) : act unit := told ← notify c channel body; when (negb told) (front_close c).
Definition call_ignored (p : N) (route data : bytes) (timeout_ms : Z) : act unit := note (o_called p route data timeout_ms).

(** ** Waiters and subscriptions *)

Definition detach_one (id : N) (d : detach) : act unit :=
  match d with
  | d_lookup key => on_lookup key (fun k => MkLookup (kbusy k) (kexpires k) (klocation k) (waiter_erase id (kwaiters k)))
  | d_link p => on_link p (fun l => link_state (lready l) (lopening l) (waiter_erase id (lwaiters l)) l)
  end.
(** [detach_waiters(sub)] *)
Definition detach_waiters (id : N) : act unit :=
  s ← state; match subscriptions s !! id with Some b => on_sub id (sub_detach []);; for_each (detach_one id) (sdetach b) | None => done end.

(** [client_subscriptions(client)] *)
Definition client_subscriptions (c : N) (s : Gateway) : N := N.of_nat (base.size (filter (fun e => sclient e.2 = c) (subscriptions s))).

(** [remove(s, status, notify)] *)
Definition remove (id : N) (status : Status) (tells : bool) : act unit :=
  s ← state;
  match subscriptions s !! id with
  | None => done
  | Some b =>
      modify (fun s => with_subscriptions s (delete id (subscriptions s)));;
      for_each (detach_one id) (sdetach b);;
      modify (fun s => with_schedule s (List.filter (fun i => negb (i =? id)) (schedule s)));;
      on_session (sclient b) (fun x => if session_controlled x =? id then session_with (session_links x) 0 x else x);;
      match slink b with
      | None => done
      | Some p =>
          modify (fun s => with_reverse s (delete (remote_key p (sremote b)) (reverse s)));;
          s ← state;
          when (negb (sremote b =? 0) && connected p s) (call_ignored p route_unwatch (token (sremote b)) 1000)
      end;;
      s ← state;
      when (tells && session_authenticated (sclient b) s)
        (body ← lift (encode_replication_packet (MkPacket id (stype b) (sentity b) status 0 None));
         if sautomatic b then tell (sclient b) presence_channel ([byte_of 2; byte_of ((if sowned b then 1 else 0) + (if scontrol b then 2 else 0))] ++ body)
         else tell (sclient b) attributes_channel body)
  end.

(** [migrating(s, unavailable)] *)
Definition migrating (id : N) (unavailable : bool) : act unit :=
  s ← state;
  match subscriptions s !! id with
  | None => done
  | Some b =>
      if smigrating b then done
      else
        on_sub id (fun b => sub_next 0 (sub_deadline (now + ms (migration_timeout (limits s))) (sub_migrating true b)));;
        match slink b ≫= fun p => objects s !! p with
        | Some l => when unavailable (modify (fun s => with_retry s (<[lindex l := (now + ms 250)%Z]> (retry s)));; on_sub id (fun b => sub_failed ({[lindex l]} ∪ sfailed b) b))
        | None => done
        end
  end.

(** [retry_migration(sub)] and [expire_route(sub)] *)
Definition retry_migration (id : N) : act unit := s ← state; on_sub id (sub_next (now + ms (Z.min (refresh_every (limits s)) 100))).
Definition expire_route (entity : bytes) : act unit := on_lookup (lookup_key entity) (fun k => MkLookup (kbusy k) 0 (klocation k) (kwaiters k)).

(** ** Requests, sessions and failed calls

    Finishing a request may revoke a session, revoking closes links, and closing a peer fails
    its calls, which finish requests: [deep] is the nested use of [revoke] and [back.close]. *)

Inductive nested := d_revoke (c : N) | d_close (p : N).

(** [Node::deliver]: what a reply callback throws is dropped. *)
Definition deliver (m : act unit) : act unit := attempt m (fun _ => done).

Section Failing.
Context (deep : nested -> act unit).

(** [finish(r, result)] *)
Definition finish (r : N) (x : Result) : act unit :=
  s ← state;
  match requests s !! r with
  | None => done
  | Some q =>
      let valid := request_authenticated q s in
      modify (fun s => with_counters (with_requests s (delete r (requests s))) (count_bytes (queued_bytes (counters s) - rbytes q) (counters s)));;
      for_each (detach_one r) (rdetach q);;
      let x := if valid then x else failed_with disconnected in
      when (negb (is_ok_status (rstatus x))) (match rcancel q with Some sub => remove sub disconnected false | None => done end);;
      when (negb valid) (deep (d_revoke (rclient q)));;
      when (negb (is_ok_status (rstatus x))) (count count_failure);;
      note (o_answered (rreply q) x)
  end.

(** The continuations of [acquire] when there is no link. *)
Definition task_failed (t : task) (index : nat) (status : Status) : act unit :=
  match t with
  | t_routed r | t_present r _ _ => finish r (failed_with status)
  | t_watch r sub _ _ => s ← state; when (bool_decide (is_Some (requests s !! r))) (remove sub status false;; finish r (failed_with status))
  | t_refresh sub =>
      s ← state;
      when (bool_decide (is_Some (subscriptions s !! sub)))
        (detach_waiters sub;; on_sub sub (fun b => sub_busy false (sub_failed ({[index]} ∪ sfailed b) b));; retry_migration sub)
  end.

(** The reply to a delegation: the status its waiters are given. *)
Definition delegate_check (p : N) (status : Status) : act Status :=
  s ← state;
  match objects s !! p with
  | None => mret disconnected
  | Some l => if session_authenticated (lclient l) s then mret status else deep (d_revoke (lclient l));; mret disconnected
  end.
Definition delegate_failed (p : N) (status : Status) : act unit :=
  s ← state;
  match objects s !! p with
  | None => done
  | Some l =>
      on_link p (link_state false false []);;
      deep (d_close p);;
      modify (fun s => with_retry (with_links s (links s ∖ {[p]})) (<[lindex l := (now + ms 250)%Z]> (retry s)));;
      for_each (fun w => task_failed w.2 (lindex l) status) (lwaiters l)
  end.

(** The end of the callback of [refresh]'s call, when it failed. *)
Definition restore_failed (p sub : N) (status : Status) : act unit :=
  s ← state;
  match objects s !! p with
  | None => done
  | Some l =>
      when (bool_decide (status = overloaded) || bool_decide (status = disconnected) || bool_decide (status = timeout))
        (modify (fun s => with_retry s (<[lindex l := (now + ms 250)%Z]> (retry s)));; on_sub sub (fun b => sub_failed ({[lindex l]} ∪ sfailed b) b));;
      if bool_decide (status = rejected) || bool_decide (status = not_found) then remove sub status true else retry_migration sub
  end.
(** Its beginning: whether the reply is still wanted. *)
Definition restore_wanted (sub epoch : N) : act bool :=
  s ← state;
  match subscriptions s !! sub with
  | None => mret false
  | Some b =>
      on_sub sub (fun b => sub_next (now + ms (refresh_every (limits s))) (sub_busy false b));;
      if sautomatic b && negb (sepoch b =? epoch) then on_sub sub (sub_next 0);; expire_route (sentity b);; mret false else mret true
  end.

(** A reply other than [ok]. *)
Definition call_failed (p : N) (k : continuation) (x : Result) : act unit :=
  match k with
  | c_finish r => finish r x
  | c_watch r sub _ _ => s ← state; when (bool_decide (is_Some (requests s !! r))) (remove sub (rstatus x) false;; finish r x)
  | c_restore sub _ epoch => wanted ← restore_wanted sub epoch; when wanted (restore_failed p sub (rstatus x))
  | c_unpossess sub epoch =>
      if bool_decide (rstatus x = not_found) then done
      else
        s ← state;
        match subscriptions s !! sub with
        | Some b => when (sepoch b =? epoch) (migrating sub false;; expire_route (sentity b);; retry_migration sub)
        | None => done
        end
  | c_delegate => status ← delegate_check p (rstatus x); delegate_failed p status
  end.

(** [revoke(client)] *)
Definition revoke_body (c : N) : act unit :=
  s ← state;
  match sessions s !! c with
  | None => done
  | Some x =>
      modify (fun s => with_sessions s (delete c (sessions s)));; front_close c;;
      s ← state;
      for_each (fun e => when (rclient e.2 =? c) (finish e.1 (failed_with disconnected))) (map_to_list (requests s));;
      s ← state;
      for_each (fun e => when (sclient e.2 =? c) (remove e.1 disconnected false)) (map_to_list (subscriptions s));;
      for_each (fun e => modify (fun s => with_links s (links s ∖ {[e.2]}));; deep (d_close e.2)) (map_to_list (session_links x))
  end.

(** [back.close(peer)]: [Node::lost] answers the calls to the peer. *)
Definition close_body (p : N) : act unit :=
  s ← state;
  if bool_decide (p ∈ back_closed (net s)) then done
  else
    modify (fun s => with_back_closed s ({[p]} ∪ back_closed (net s)));; note (o_back_closed p);;
    s ← state;
    for_each (fun e =>
        when (call_peer e.2 =? p)
          (s ← state;
           match calls (net s) !! e.1 with
           | None => done
           | Some k => modify (fun s => with_calls s (delete e.1 (calls (net s))));; deliver (call_failed p (call_then k) (failed_with disconnected))
           end))
      (map_to_list (calls (net s))).

End Failing.

(** A revocation erases a session before it nests, a close erases a call: [fuel] of them is
    enough, and [o_too_deep] is never noted. *)
Definition fuel (s : Gateway) : nat := S (base.size (sessions s) + base.size (calls (net s))).
Fixpoint nest (n : nat) (d : nested) : act unit :=
  match n with
  | O => note o_too_deep
  | S n => match d with d_revoke c => revoke_body (nest n) c | d_close p => close_body (nest n) p end
  end.
Definition deep (d : nested) : act unit := s ← state; nest (fuel s) d.
Definition revoke (c : N) : act unit := deep (d_revoke c).
Definition back_close (p : N) : act unit := deep (d_close p).

(** ** Calls and links *)

(** [back.call(peer, route, data, timeout, reply)] *)
Definition call (p : N) (route data : bytes) (timeout_ms : Z) (k : continuation) : act unit :=
  s ← state;
  match (if bool_decide (p ∈ back_closed (net s)) then Some refuse_disconnected else e_refuse env (log s)) with
  | Some x => deliver (call_failed deep p k (failed_with (refusal_status x)))
  | None =>
      let id := call_serial (net s) + 1 in
      modify (fun s => with_calls (with_call_serial s id) (<[id := MkPending p k]> (calls (net s))));; note (o_called p route data timeout_ms)
  end.

(** The continuations of [acquire] when the link is ready. *)
Definition task_linked (p : N) (t : task) : act unit :=
  s ← state;
  match t with
  | t_routed r =>
      match requests s !! r with Some q => count count_forwarded;; call p entity_call_route (rdata q) (remaining q s) (c_finish r) | None => done end
  | t_present r _ _ => match requests s !! r with Some q => call p route_visibility (rdata q) (remaining q s) (c_finish r) | None => done end
  | t_watch r sub type entity =>
      match requests s !! r with Some q => call p route_watch (rdata q) (remaining q s) (c_watch r sub type entity) | None => done end
  | t_refresh sub =>
      match subscriptions s !! sub with
      | None => done
      | Some b =>
          detach_waiters sub;;
          input ← lift (encode_entity_key (stype b) (sentity b));
          if sautomatic b then call p route_restore (input ++ put_be 1 (if scontrol b then 1 else 0)) (request_timeout (limits s)) (c_restore sub (scontrol b) (sepoch b))
          else call p route_watch input (request_timeout (limits s)) (c_restore sub (scontrol b) (sepoch b))
      end
  end.

(** The callback of the delegation. *)
Definition delegate_replied (p : N) (x : Result) : act unit :=
  status ← delegate_check deep p (rstatus x);
  if is_ok_status status then
    s ← state;
    match objects s !! p with
    | None => done
    | Some l => on_link p (link_state true false []);; for_each (fun w => task_linked p w.2) (lwaiters l)
    end
  else delegate_failed deep p status.

(** The [wait] lambda of [acquire]. *)
Definition push_detach (t : task) (d : detach) : act unit :=
  match t with
  | t_refresh sub => on_sub sub (fun b => sub_detach (sdetach b ++ [d]) b)
  | t => on_request (task_owner t) (fun q => req_detach (rdetach q ++ [d]) q)
  end.
Definition wait_link (p : N) (t : task) : act unit :=
  on_link p (fun l => link_state (lready l) (lopening l) (waiter_emplace (task_owner t) t (lwaiters l)) l);; push_detach t (d_link p).

(** The payload of [system.gateway.delegate]. *)
Definition delegation (subject : bytes) (connection : ConnectionRef) : result bytes :=
  let* a := blob subject in let* k := connection_key connection in let* b := blob k in Ok (lit "FSCN1" ++ a ++ b).

(** The new link of [acquire]. *)
Definition open_link (c : N) (x : Session) (index : nat) (e : EntityEndpoint) (t : task) : act unit :=
  s ← state;
  match e_connect env (log s) e with
  | Throw _ => task_failed deep t index disconnected
  | Ok others =>
      let p := last_peer (net s) + 1 + others in
      modify (fun s => with_objects (with_last_peer s p) (<[p := MkLink c index false true [(task_owner t, t)]]> (objects s)));;
      push_detach t (d_link p);; note (o_connected p e);;
      on_session c (fun x => session_with (<[index := p]> (session_links x)) (session_controlled x) x);;
      modify (fun s => with_links s ({[p]} ∪ links s));;
      s ← state;
      match delegation (session_subject x) (session_connection x) with
      | Ok payload => call p route_delegate payload (request_timeout (limits s)) c_delegate
      | Throw _ =>
          match objects s !! p with
          | Some l => on_link p (link_state false false []);; for_each (fun w => task_failed deep w.2 index disconnected) (lwaiters l)
          | None => done
          end
      end
  end.

(** [acquire(client, index, ready, request, subscription)] *)
Definition acquire (c : N) (index : nat) (t : task) : act unit :=
  s ← state;
  match sessions s !! c with
  | Some x =>
      if authenticated c (session_subject x) s then
        let fresh :=
          if max_links (limits s) <=? N.of_nat (base.size (links s)) then task_failed deep t index overloaded
          else match endpoints s !! index with Some e => open_link c x index e t | None => raise out_of_range end in
        match session_links x !! index with
        | Some p =>
            match objects s !! p with
            | Some l => if lready l && connected p s then task_linked p t else if lopening l then wait_link p t else fresh
            | None => fresh
            end
        | None => fresh
        end
      else revoke c;; task_failed deep t index disconnected
  | None => task_failed deep t index disconnected
  end.

(** ** Routing *)

(** The callbacks given to [select]. *)
Definition task_selected (t : task) (status : Status) (index : option nat) (exist : bool) : act unit :=
  s ← state;
  match t with
  | t_routed r =>
      match requests s !! r with
      | None => done
      | Some q =>
          match is_ok_status status, index with
          | true, Some i =>
              match parse_entity_call_view (rdata q), exposed s !! rresolved q with
              | Some v, Some allowed =>
                  if (negb (is_empty (call_type v)) && negb (bytes_eqb (call_type v) (rresolved q))) || negb (bool_decide (call_method v ∈ allowed)) then finish deep r (failed_with rejected)
                  else acquire (rclient q) i t
              | _, _ => finish deep r (failed_with rejected)
              end
          | _, _ => finish deep r (failed_with status)
          end
      end
  | t_present r type id =>
      match requests s !! r with
      | None => done
      | Some q =>
          if bool_decide (status = disconnected) || bool_decide (status = overloaded) then on_request r (req_retry (now + ms 25) (Some (type, id)))
          else match is_ok_status status, index with true, Some i => acquire (rclient q) i t | _, _ => finish deep r (failed_with status) end
      end
  | t_watch r sub _ _ =>
      match requests s !! r with
      | None => done
      | Some q => match is_ok_status status, index with true, Some i => acquire (rclient q) i t | _, _ => remove sub status false;; finish deep r (failed_with status) end
      end
  | t_refresh sub =>
      match subscriptions s !! sub with
      | None => done
      | Some b =>
          detach_waiters sub;;
          if negb exist && negb (bool_decide (status = internal)) && negb (bool_decide (status = overloaded)) then on_sub sub (sub_busy false);; remove sub not_found true
          else
            match is_ok_status status, index with
            | true, Some i =>
                s ← state;
                if match slink b ≫= fun p => objects s !! p with Some l => (lindex l =? i)%nat | None => false end &&
                   match slink b with Some p => connected p s | None => false end && negb (smigrating b)
                then on_sub sub (sub_busy false)
                else
                  migrating sub false;;
                  on_sub sub (fun b => if bool_decide (i ∈ sfailed b) then sub_failed ∅ b else b);;
                  acquire (sclient b) i t
            | _, _ => on_sub sub (sub_busy false);; migrating sub false;; retry_migration sub
            end
      end
  end.

(** The endpoint [select] chooses for a location. *)
Definition choose (a : Await) (l : EntityLocation) (s : Gateway) : option nat :=
  let type := location_type l in
  let fixed := (e_wall env <? location_expires_ms l)%Z || negb (is_empty (location_placement l)) in
  let healthy i := (default 0 (retry s !! i) <=? now)%Z in
  let linked i :=
    match sessions s !! aclient a ≫= fun x => session_links x !! i with
    | Some p => match objects s !! p with Some k => lready k | None => false end && connected p s
    | None => false
    end in
  let eligible i := (linked i || healthy i) && (fixed || negb (bool_decide (i ∈ afailed a))) in
  match select_entity_endpoint (endpoints s) type (aentity a) (Some l) (e_wall env) eligible with
  | Some i => Some i
  | None =>
      let untried := existsb (fun e => negb (bool_decide (e.1 ∈ afailed a)) && existsb (bytes_eqb type) (types e.2)) (imap pair (endpoints s)) in
      if negb fixed && negb (bool_decide (afailed a = ∅)) && negb untried
      then select_entity_endpoint (endpoints s) type (aentity a) (Some l) (e_wall env) healthy else None
  end.

(** The [ready] lambda of [select]. *)
Definition located (a : Await) (status : Status) (location : option EntityLocation) : act unit :=
  s ← state;
  if stopped s then task_selected (atask a) disconnected None false
  else if negb (is_ok_status status) then task_selected (atask a) status None (is_some location)
  else
    match location with
    | None => task_selected (atask a) not_found None false
    | Some l =>
        if negb (is_empty (atype a)) && negb (bytes_eqb (location_type l) (atype a)) then task_selected (atask a) rejected None true
        else
          match atask a with t_refresh _ => done | t => on_request (task_owner t) (req_resolved (location_type l)) end;;
          s ← state;
          let index := choose a l s in
          task_selected (atask a) (if is_some index then ok else disconnected) index true
    end.

(** The [complete] lambda of [select]: the lookup of [key] has run, or was refused. *)
Definition complete (key : bytes) (x : result (option EntityLocation)) : act unit :=
  s ← state;
  match lookups s !! key with
  | None => done
  | Some k =>
      if negb (kbusy k) then done
      else if stopped s then on_lookup key (fun k => MkLookup false (kexpires k) (klocation k) []);; for_each (fun w => located w.2 disconnected None) (kwaiters k)
      else
        match x with
        | Throw _ => on_lookup key (fun _ => MkLookup false now None []);; for_each (fun w => located w.2 internal None) (kwaiters k)
        | Ok l => on_lookup key (fun _ => MkLookup false (now + ms (refresh_every (limits s))) l []);; for_each (fun w => located w.2 ok l) (kwaiters k)
        end
  end.

Definition lookups_full (s : Gateway) : bool := max_subscriptions (limits s) + max_requests (limits s) <=? N.of_nat (base.size (lookups s)).
Definition wait_lookup (key : bytes) (a : Await) : act unit :=
  on_lookup key (fun k => MkLookup (kbusy k) (kexpires k) (klocation k) (waiter_emplace (task_owner (atask a)) a (kwaiters k)));; push_detach (atask a) (d_lookup key).

(** [select(type, entity, done, failed, request, subscription)] *)
Definition select (type entity : bytes) (c : N) (failed : gset nat) (t : task) : act unit :=
  if negb (valid_entity_id entity) then task_selected t rejected None false
  else
    s ← state;
    let a := MkAwait t type entity c failed in
    let key := lookup_key entity in
    let submit :=
      when (lookups_full s) (modify (fun s => with_lookups s (filter (fun e => negb (negb (kbusy e.2) && (kexpires e.2 <=? now)%Z) = true) (lookups s))));;
      s ← state;
      if bool_decide (lookups s !! key = None) && lookups_full s then located a overloaded None
      else
        modify (fun s => with_lookups s (<[key := MkLookup true 0 None [(task_owner t, a)]]> (lookups s)));; push_detach t (d_lookup key);;
        s ← state;
        if e_accept env (log s) then note (o_submitted key) else complete key (Throw runtime_error) in
    match lookups s !! key with
    | None => submit
    | Some k =>
        if negb (kbusy k) && is_some (klocation k) && (now <? kexpires k)%Z then located a ok (klocation k)
        else if kbusy k then wait_lookup key a
        else submit
    end.

(** ** Requests of the clients *)

Definition answer (n : N) (x : Status) : act unit := note (o_answered n (failed_with x)).
(** [++serial] *)
Definition next_id : act N := s ← state; let id := wrap64 (serial s + 1) in modify (fun s => with_serial s id);; mret id.

(** [request(who, data, reply)]: the new request, if it is accepted. *)
Definition request (who : CallIdentity) (data : bytes) (n : N) : act (option N) :=
  s ← state;
  let c := Schema.peer who in
  if stopped s then answer n disconnected;; mret None
  else if draining s then answer n overloaded;; mret None
  else if negb (live who) || negb (current c (Schema.subject who) (Schema.connection who) s) then revoke c;; answer n rejected;; mret None
  else if (max_requests (limits s) <=? N.of_nat (base.size (requests s))) || (max_bytes (limits s) - queued_bytes (counters s) <? size data) || (u64_max - 1 <=? serial s)
  then answer n overloaded;; mret None
  else
    let accept :=
      id ← next_id;
      let q := MkRequest c (Schema.subject who) data n (now + ms (request_timeout (limits s))) (size data) None [] 0 None [] (Schema.connection who) in
      modify (fun s => with_counters (with_requests s (<[id := q]> (requests s))) (count_bytes (queued_bytes (counters s) + size data) (counters s)));; mret (Some id) in
    match sessions s !! c with
    | None =>
        if max_clients (limits s) <=? N.of_nat (base.size (sessions s)) then answer n overloaded;; mret None
        else modify (fun s => with_sessions s (<[c := MkSession (Schema.subject who) ∅ 0 (Schema.connection who)]> (sessions s)));; accept
    | Some x =>
        if negb (bytes_eqb (session_subject x) (Schema.subject who)) || negb (bool_decide (session_connection x = Schema.connection who)) then revoke c;; answer n rejected;; mret None
        else accept
    end.

(** [routed(who, input, reply)] *)
Definition routed (who : CallIdentity) (input : bytes) (n : N) : act unit :=
  match parse_entity_call_view input with
  | None => answer n rejected
  | Some v =>
      r ← request who input n;
      match r with None => done | Some r => select [] (str (call_id v)) (Schema.peer who) ∅ (t_routed r) end
  end.

(** [get(in, 1)] on the rest of a key. *)
Definition decode_action (input : bytes) : result (bytes * bytes * N) :=
  let* '(type, id, rest) := decode_entity_key input in
  let* '(action, rest) := get_be invalid_argument 1 rest in
  throw_if negb (is_empty rest) || (action <? 1) || (4 <? action) as invalid_argument ;; Ok (type, id, action).

(** [present_attempt(type, id, request)] and [present(source, input, reply)] *)
Definition present_attempt (type id : bytes) (r : N) : act unit :=
  s ← state; match requests s !! r with Some q => select type id (rclient q) ∅ (t_present r type id) | None => done end.
Definition present (source : N) (input : bytes) (n : N) : act unit :=
  s ← state;
  match objects s !! source with
  | Some l =>
      if negb (bool_decide (source ∈ links s)) || negb (lready l) then answer n rejected
      else
        match identity (lclient l) s with
        | None => answer n disconnected
        | Some who =>
            if negb (authenticated (lclient l) (Schema.subject who) s) then answer n disconnected
            else
              match decode_action input with
              | Ok (type, id, _) =>
                  if negb (valid_entity_id id) then answer n rejected
                  else r ← request who input n; match r with None => done | Some r => present_attempt type id r end
              | Throw _ => answer n rejected
              end
        end
  | None => answer n rejected
  end.

(** [watch(who, input, reply)] *)
Definition watch (who : CallIdentity) (input : bytes) (n : N) : act unit :=
  match decode_entity_key input with
  | Throw _ => answer n rejected
  | Ok (type, entity, rest) =>
      if negb (is_empty rest) || negb (valid_entity_id entity) then answer n rejected
      else
        s ← state;
        if (max_subscriptions (limits s) <=? N.of_nat (base.size (subscriptions s))) || (per_client (limits s) <=? client_subscriptions (Schema.peer who) s) then answer n overloaded
        else
          r ← request who input n;
          match r with
          | None => done
          | Some r =>
              sub ← next_id;
              modify (fun s => with_schedule (with_subscriptions s (<[sub := MkSub (Schema.peer who) 0 0 0 type entity None false false false false true ∅ 0 0 []]> (subscriptions s))) (schedule s ++ [sub]));;
              on_request r (req_cancel (Some sub));;
              select type entity (Schema.peer who) ∅ (t_watch r sub type entity)
          end
  end.

(** [control(who, route, input, reply)] *)
Definition control (who : CallIdentity) (route input : bytes) (n : N) : act unit :=
  let c := Schema.peer who in
  match get_be invalid_argument 8 input with
  | Throw _ => answer n rejected
  | Ok (id, rest) =>
      if negb (bytes_eqb route route_write) && negb (is_empty rest) then answer n rejected
      else
        s ← state;
        match subscriptions s !! id with
        | None => answer n not_found
        | Some b =>
            if negb (sclient b =? c) ||
               match sessions s !! c with
               | Some x => negb (bytes_eqb (session_subject x) (Schema.subject who)) || negb (bool_decide (session_connection x = Schema.connection who))
               | None => true
               end || negb (live who) || negb (authenticated c (Schema.subject who) s)
            then revoke c;; answer n rejected
            else if bytes_eqb route route_unwatch then remove id disconnected false;; answer n ok
            else
              match slink b with
              | Some p =>
                  if smigrating b || negb (connected p s) then migrating id false;; answer n (if bytes_eqb route route_renew then ok else overloaded)
                  else
                    r ← request who input n;
                    s ← state;
                    match r with
                    | None => done
                    | Some r =>
                        match requests s !! r with
                        | Some q => count count_forwarded;; call p route (token (sremote b) ++ drop 8 (rdata q)) (remaining q s) (c_finish r)
                        | None => done
                        end
                    end
              | None => migrating id false;; answer n (if bytes_eqb route route_renew then ok else overloaded)
              end
        end
  end.

(** ** Notifications of the owners *)

(** The header of a presence notification. *)
Definition presence_header (data : bytes) : result (N * N * bytes) :=
  let* '(kind, body) := get_be invalid_argument 1 data in
  let* '(flags, body) := get_be invalid_argument 1 body in
  Ok (kind, flags, body).
Definition owned_flag (flags : N) : bool := N.testbit flags 0.
Definition control_flag (flags : N) : bool := N.testbit flags 1.

(** The automatic subscription of the client that waits to be restored. *)
Definition restorable (c : N) (m : ReplicationPacketView) (s : Gateway) : option N :=
  fst <$> List.find (fun e => sautomatic e.2 && smigrating e.2 && (sclient e.2 =? c) && bytes_eqb (stype e.2) (view_type m) && bytes_eqb (sentity e.2) (view_id m)) (map_to_list (subscriptions s)).

(** The subscription a notification of [p] is about. *)
Definition noticed (p : N) (m : ReplicationPacketView) (s : Gateway) : option (N * Subscription) :=
  id ← reverse s !! remote_key p (view_subscription m); b ← subscriptions s !! id; Some (id, b).

(** A subscription for an entity the owner shows. *)
Definition shown_sub (c : N) (flags : N) (m : ReplicationPacketView) : act N :=
  s ← state;
  if (max_subscriptions (limits s) <=? N.of_nat (base.size (subscriptions s))) || (per_client (limits s) <=? client_subscriptions c s) then raise length_error
  else
    id ← next_id;
    modify (fun s => with_schedule (with_subscriptions s
      (<[id := MkSub c 0 0 0 (view_type m) (view_id m) None true (owned_flag flags) (control_flag flags) false false ∅ 0 0 []]> (subscriptions s))) (schedule s ++ [id]));;
    mret id.

(** [reverse.erase] of what the subscription was linked to. *)
Definition unlink (id : N) : act unit :=
  s ← state;
  match subscriptions s !! id with
  | Some b => match slink b with Some p => modify (fun s => with_reverse s (delete (remote_key p (sremote b)) (reverse s))) | None => done end
  | None => done
  end.
Definition link_to (id p : N) (m : ReplicationPacketView) (revision : N) : act unit :=
  on_sub id (fun b => sub_link (Some p) (sub_remote (view_subscription m) (sub_revision revision b)));;
  modify (fun s => with_reverse s (<[remote_key p (view_subscription m) := id]> (reverse s))).

(** An entity shown by its owner: the subscription it is about, unless nothing is left to do,
    and the notification with the gateway's own identity. *)
Definition enter (p c flags : N) (m : ReplicationPacketView) (data : bytes) (confirmed : bool) (found : option N) : act (option (N * bytes)) :=
  s ← state;
  let restoring := match found ≫= fun id => subscriptions s !! id with Some b => smigrating b | None => false end in
  if restoring && negb confirmed then mret None
  else
    id ← match found with Some id => mret id | None => shown_sub c flags m end;
    s ← state;
    match subscriptions s !! id, view_update m with
    | Some b, Some (_, revision, true) =>
        if (revision <? srevision b) || negb (Bool.eqb (sowned b) (owned_flag flags)) then remove id rejected true;; mret None
        else
          unlink id;; link_to id p m revision;;
          on_sub id (fun b => sub_control (control_flag flags) (sub_migrating false (sub_busy false (sub_failed ∅ (sub_next (now + ms (refresh_every (limits s))) b)))));;
          expire_route (sentity b);;
          if restoring then
            count count_migration;;
            data ← lift (remap_replication_subscription data id 2);
            told ← notify (sclient b) attributes_channel (drop 2 data);
            if negb told then front_close (sclient b);; mret None else mret (Some (id, data))
          else mret (Some (id, data))
    | _, _ => remove id rejected true;; mret None
    end.

(** A new possession takes control from the previous one; [false] ends the notification. *)
Definition dispossess (old id : N) : act bool :=
  s ← state;
  if (old =? 0) || (old =? id) then mret true
  else
    match subscriptions s !! old with
    | None => mret true
    | Some b =>
        let epoch := wrap64 (sepoch b + 1) in
        on_sub old (fun b => sub_control false (sub_epoch epoch b));;
        body ← lift (encode_replication_packet (MkPacket old (stype b) (sentity b) ok 30000 (Some (MkUpdate 0 (srevision b) true [] []))));
        told ← notify (sclient b) presence_channel ([byte_of 3; byte_of (if sowned b then 1 else 0)] ++ body);
        if negb told then front_close (sclient b);; mret false
        else
          s ← state;
          match slink b with
          | Some p => if connected p s then key ← lift (encode_entity_key (stype b) (sentity b)); call p route_unpossess key (request_timeout (limits s)) (c_unpossess old epoch);; mret true else mret true
          | None => mret true
          end
    end.

(** Who controls the entity after a presence notification. *)
Definition possess (c id flags : N) : act bool :=
  s ← state;
  let old := match sessions s !! c with Some x => session_controlled x | None => 0 end in
  go ← (if control_flag flags then
          go ← dispossess old id;
          when go (on_session c (fun x => session_with (session_links x) id x));; mret go
        else on_session c (fun x => if session_controlled x =? id then session_with (session_links x) 0 x else x);; mret true);
  when go (on_sub id (fun b => sub_control (control_flag flags) (if Bool.eqb (scontrol b) (control_flag flags) then b else sub_epoch (wrap64 (sepoch b + 1)) b)));;
  mret go.

(** The end of [notice]: the client is told. *)
Definition relay (c : N) (presence : bool) (flags : N) (m : ReplicationPacketView) (id : N) (data : bytes) : act unit :=
  s ← state;
  match subscriptions s !! id with
  | None => done
  | Some b =>
      if negb (bytes_eqb (view_type m) (stype b)) || negb (bytes_eqb (view_id m) (sentity b)) then raise invalid_argument
      else if negb (is_ok_status (view_status m)) then (if bool_decide (view_status m = disconnected) then migrating id false else remove id (view_status m) true)
      else if smigrating b then done
      else
        go ← (if presence then possess c id flags
              else
                match view_update m with
                | None => raise invalid_argument
                | Some (base, revision, snapshot) =>
                    if (if snapshot then revision <? srevision b else negb (base =? srevision b)) then raise invalid_argument
                    else on_sub id (sub_revision revision);; mret true
                end);
        when go
          (data ← lift (remap_replication_subscription data id (if presence then 2 else 0));
           tell (sclient b) (if presence then presence_channel else attributes_channel) data)
  end.

Definition notice_header (presence : bool) (data : bytes) : result (N * N * bytes) :=
  if presence then
    let* '(kind, flags, body) := presence_header data in
    throw_if (kind <? 1) || (3 <? kind) || (3 <? flags) as invalid_argument ;; Ok (kind, flags, body)
  else Ok (0, 0, data).

(** [notice(peer, channel, data, confirmed)] *)
Definition notice (p : N) (presence : bool) (data : bytes) (confirmed : bool) : act unit :=
  s ← state;
  match objects s !! p with
  | None => done
  | Some l =>
      let c := lclient l in
      if negb (bool_decide (p ∈ links s)) || negb (lready l) then done
      else if negb (session_authenticated c s) then revoke c
      else
        attempt
          ('(kind, flags, body) ← lift (notice_header presence data);
           m ← lift (decode_replication_packet_view body);
           s ← state;
           let found := noticed p m s in
           if presence && (kind =? 1) && is_ok_status (view_status m) && match found with Some (_, b) => smigrating b | None => true end then
             entered ← enter p c flags m data confirmed (match found with Some (id, _) => Some id | None => restorable c m s end);
             match entered with Some (id, data) => relay c presence flags m id data | None => done end
           else match found with Some (id, _) => relay c presence flags m id data | None => done end)
          (fun _ => front_close c)
  end.

(** ** Replies of the owners *)

(** The reply to [watch]'s call, accepted. *)
Definition watched (p r sub : N) (type entity data : bytes) : act unit :=
  s ← state;
  match requests s !! r with
  | None => match decode_replication_packet_view data with Ok late => call_ignored p route_unwatch (token (view_subscription late)) 1000 | Throw _ => done end
  | Some _ =>
      attempt
        (m ← lift (decode_replication_packet_view data);
         match view_update m with
         | Some (_, revision, true) =>
             if negb (is_ok_status (view_status m)) || negb (bytes_eqb (view_type m) type) || negb (bytes_eqb (view_id m) entity) then raise runtime_error
             else
               link_to sub p m revision;;
               on_sub sub (fun b => sub_busy false (sub_next (now + ms (refresh_every (limits s))) b));;
               data ← lift (remap_replication_subscription data sub 0);
               finish deep r (MkResult ok data)
         | _ => raise runtime_error
         end)
        (fun _ => remove sub rejected false;; finish deep r (failed_with rejected))
  end.

(** An automatic subscription confirmed by its new owner. *)
Definition confirmation (type entity : bytes) (control : bool) (data : bytes) : result unit :=
  let* '(kind, flags, body) := presence_header data in
  let* m := decode_replication_packet_view body in
  throw_if negb (kind =? 1) || (3 <? flags) || negb (Bool.eqb (control_flag flags) control) || negb (bytes_eqb (view_type m) type) || negb (bytes_eqb (view_id m) entity) ||
           negb (is_ok_status (view_status m)) || match view_update m with Some (_, _, true) => false | _ => true end as invalid_argument ;;
  Ok tt.

(** A watched entity found again on its new owner. *)
Definition rewatched (p sub : N) (b : Subscription) (data : bytes) : act unit :=
  m ← lift (decode_replication_packet_view data);
  match view_update m with
  | Some (_, revision, true) =>
      if negb (bytes_eqb (view_type m) (stype b)) || negb (bytes_eqb (view_id m) (sentity b)) || (revision <? srevision b) then raise invalid_argument
      else
        unlink sub;;
        s ← state;
        match slink b with Some old => when (connected old s) (call_ignored old route_unwatch (token (sremote b)) 1000) | None => done end;;
        link_to sub p m revision;;
        on_sub sub (fun b => sub_migrating false (sub_failed ∅ b));;
        count count_migration;; expire_route (sentity b);;
        data ← lift (remap_replication_subscription data sub 0);
        s ← state;
        if session_authenticated (sclient b) s then tell (sclient b) attributes_channel data else revoke (sclient b)
  | _ => raise invalid_argument
  end.

(** The reply to [refresh]'s call, accepted. *)
Definition restored (p sub : N) (wanted_control : bool) (epoch : N) (data : bytes) : act unit :=
  wanted ← restore_wanted sub epoch;
  s ← state;
  match subscriptions s !! sub with
  | Some b =>
      when wanted
        (attempt (if sautomatic b then lift (confirmation (stype b) (sentity b) wanted_control data);; notice p true data true else rewatched p sub b data)
                 (fun _ => remove sub rejected true))
  | None => done
  end.

(** The reply [x] to call [k]. *)
Definition replied (k : N) (x : Result) : act unit :=
  s ← state;
  match calls (net s) !! k with
  | None => done
  | Some (MkPending p then_) =>
      modify (fun s => with_calls s (delete k (calls (net s))));;
      deliver
        (if is_ok_status (rstatus x) then
           match then_ with
           | c_finish r => finish deep r x
           | c_watch r sub type entity => watched p r sub type entity (DeliveryState.rdata x)
           | c_restore sub wanted_control epoch => restored p sub wanted_control epoch (DeliveryState.rdata x)
           | c_unpossess _ _ => done
           | c_delegate => delegate_replied p x
           end
         else call_failed deep p then_ x)
  end.

(** ** Polling *)

(** [refresh(sub)] *)
Definition refresh (id : N) : act unit :=
  s ← state;
  match subscriptions s !! id with
  | None => done
  | Some b =>
      if sbusy b then done
      else
        detach_waiters id;;
        on_sub id (fun b => sub_busy true (sub_next (now + ms (refresh_every (limits s))) b));;
        select (stype b) (sentity b) (sclient b) (sfailed b) (t_refresh id)
  end.

Definition poll_sessions : act unit :=
  s ← state; for_each revoke (List.filter (fun c => negb (session_authenticated c s)) (map fst (map_to_list (sessions s)))).

(** The links whose peer is gone. *)
Definition drop_link (p : N) : act unit :=
  s ← state;
  match objects s !! p with
  | Some l => on_session (lclient l) (fun x => if bool_decide (session_links x !! lindex l = Some p) then session_with (delete (lindex l) (session_links x)) (session_controlled x) x else x)
  | None => done
  end;;
  modify (fun s => with_links s (links s ∖ {[p]})).
Definition poll_links : act unit :=
  s ← state;
  for_each drop_link (List.filter (fun p => match objects s !! p with Some l => negb (lopening l) | None => false end && negb (connected p s)) (elements (links s))).

Definition poll_request (r : N) : act unit :=
  s ← state;
  match requests s !! r with
  | None => done
  | Some q =>
      if (rdeadline q <=? now)%Z then finish deep r (failed_with timeout)
      else if negb (request_authenticated q s) then finish deep r (failed_with disconnected)
      else
        match rretry q with
        | Some (type, id) => when (rretry_at q <=? now)%Z (on_request r (req_retry (rretry_at q) None);; present_attempt type id r)
        | None => done
        end
  end.

Definition poll_sub (id : N) (b : Subscription) : act unit :=
  s ← state;
  match slink b with
  | Some p => when (match objects s !! p with Some l => lready l | None => false end && negb (connected p s)) (migrating id true)
  | None => done
  end;;
  s ← state;
  match subscriptions s !! id with
  | Some b =>
      if smigrating b && (sdeadline b <=? now)%Z then remove id timeout true
      else when (negb (sbusy b) && (snext b <=? now)%Z) (refresh id)
  | None => done
  end.
Fixpoint poll_schedule (n : nat) : act unit :=
  match n with
  | O => done
  | S n =>
      s ← state;
      match schedule s with
      | [] => done
      | id :: rest =>
          match subscriptions s !! id with
          | None => modify (fun s => with_schedule s rest)
          | Some b => modify (fun s => with_schedule s (rest ++ [id]));; poll_sub id b
          end;;
          poll_schedule n
      end
  end.

(** [poll(budget)]; [done_lookups]: the lookups the storage executor reports. *)
Definition poll (budget : nat) (done_lookups : list (bytes * result (option EntityLocation))) : act unit :=
  s ← state;
  if stopped s then done
  else
    for_each (fun e => complete e.1 e.2) done_lookups;;
    s ← state;
    if stopped s then done
    else
      poll_sessions;; poll_links;;
      s ← state;
      for_each poll_request (map fst (map_to_list (requests s)));;
      s ← state;
      poll_schedule (Nat.min (length (schedule s)) budget).

(** ** Stopping *)

Definition front_routes : list bytes := [entity_call_route; route_watch; route_unwatch; route_renew; route_write].
Definition back_routes : list bytes := [attributes_channel; presence_channel; route_present].
(** [stop()] *)
Definition stop : act unit :=
  s ← state;
  if stopped s then done
  else
    modify (fun s => with_stopped s true);;
    for_each (fun r => note (o_unbound r)) (front_routes ++ back_routes);;
    s ← state;
    for_each (fun e => finish deep e.1 (failed_with disconnected)) (map_to_list (requests s));;
    s ← state;
    for_each (fun e => remove e.1 disconnected true) (map_to_list (subscriptions s));;
    s ← state;
    for_each back_close (elements (links s));;
    modify (fun s => with_sessions (with_links s ∅) ∅);; note o_storage_stopped.

End Gateway.

(** [drain()] *)
Definition drain : act unit := modify (fun s => with_draining s true).

(** [bind_entity(type, methods)] *)
Definition bind_entity (type : bytes) (methods : list bytes) (s : Gateway) : result Gateway :=
  let* _ := entity_route type (lit "validate") in
  throw_if existsb (fun m => negb (valid_entity_method m)) methods as invalid_argument ;;
  Ok (with_exposed s (fold_left (fun e m => <[type := {[m]} ∪ default ∅ (e !! type)]> e) methods (exposed s))).

(** [stats()] *)
Record GatewayStats := MkStats {
  g_clients : N; g_links : N; g_subscriptions : N; g_pending : N; g_queued_bytes : N; g_migrating : N; g_forwarded : N; g_failures : N; g_migrations : N;
  g_lookup_waiters : N; g_link_waiters : N }.
Definition stats (s : Gateway) : GatewayStats :=
  MkStats (N.of_nat (base.size (sessions s))) (N.of_nat (base.size (links s))) (N.of_nat (base.size (subscriptions s))) (N.of_nat (base.size (requests s)))
    (queued_bytes (counters s)) (N.of_nat (base.size (filter (fun e => smigrating e.2 = true) (subscriptions s)))) (forwarded (counters s)) (failures (counters s)) (migrations (counters s))
    (map_fold (fun _ k n => N.of_nat (length (kwaiters k)) + n) 0 (lookups s))
    (map_fold (fun _ l n => N.of_nat (length (lwaiters l)) + n) 0 (filter (fun e => e.1 ∈ links s) (objects s))).

(** The constructor; [same]: one node for both sides, [taken]: a route of [front] or [back] is. *)
Definition bad_limits (l : GatewayLimits) : bool :=
  (max_clients l =? 0) || (max_links l =? 0) || (max_subscriptions l =? 0) || (per_client l =? 0) || (max_requests l =? 0) || (max_bytes l =? 0) ||
  (request_timeout l <=? 0)%Z || (30000 <? request_timeout l)%Z || (refresh_every l <=? 0)%Z || (migration_timeout l <? request_timeout l)%Z.
Definition gateway (same : bool) (taken : bytes -> bool) (es : list EntityEndpoint) (l : GatewayLimits) : result Gateway :=
  let* _ := validate_entity_endpoints es in
  throw_if same || bad_limits l as invalid_argument ;;
  throw_if existsb taken [route_watch; route_unwatch; route_renew; route_write] || taken route_present as logic_error ;;
  throw_if existsb taken [entity_call_route; attributes_channel; presence_channel] as logic_error ;;
  Ok (MkGateway l es ∅ ∅ ∅ ∅ ∅ ∅ ∅ ∅ [] (replicate (length es) 0%Z) (MkCounters 0 0 0 0) 0 false false (MkNet ∅ 0 0 ∅ ∅) []).
