(* ===== verification/GatewayInv.v ===== *)
(** * The invariant of the client gateway

    Every request is answered once, the limits hold, and each client's calls, subscriptions
    and notifications stay on links delegated for that client.  [shrinks] covers the updates
    that only forget; what the proofs carry across other operations is stable under [later]. *)

From stdpp Require Import gmap.
From S2P Require Import Prelude MapSum Storage OrderedMap Identity Values AttributeWire Messages Fields TimerState DeliveryState Schema Records Programs Directory Transport Actions Gateway.

(** ** Tables that only lose entries *)

Section Covers.
Context {K : Type} `{Countable K} {A : Type} (R : A -> A -> Prop).
Definition covers (m m' : gmap K A) : Prop := forall k a', m' !! k = Some a' -> exists a, m !! k = Some a /\ R a a'.

Lemma covers_refl `{!Reflexive R} m : covers m m.
Proof. intros k a Ha. by exists a. Qed.
Lemma covers_delete `{!Reflexive R} m k : covers m (delete k m).
Proof. intros i a [_ Ha]%lookup_delete_Some. by exists a. Qed.
Lemma covers_filter `{!Reflexive R} (P : K * A -> Prop) `{!forall x, Decision (P x)} m : covers m (filter P m).
Proof. intros i a [Ha _]%map_lookup_filter_Some. by exists a. Qed.
Lemma covers_alter `{!Reflexive R} m k f : (forall a, m !! k = Some a -> R a (f a)) -> covers m (alter f k m).
Proof.
  intros Hf i a Ha. destruct (decide (i = k)) as [->|Hn].
  - rewrite lookup_alter_eq in Ha. destruct (m !! k) as [b|] eqn:Hb; [|done]. injection Ha as <-. exists b. auto.
  - rewrite lookup_alter_ne in Ha by done. by exists a.
Qed.
Lemma covers_empty m : covers m ∅.
Proof. intros i a Ha. by rewrite lookup_empty in Ha. Qed.
Lemma covers_trans `{!Transitive R} a b c : covers a b -> covers b c -> covers a c.
Proof. intros H1 H2 k v (v1 & Hv1 & Hr1)%H2. destruct (H1 _ _ Hv1) as (v2 & Hv2 & Hr2). exists v2. split; [done|]. by etrans. Qed.

Lemma covers_size m m' : covers m m' -> (base.size m' <= base.size m)%nat.
Proof.
  intros Hc. rewrite <- !size_dom. apply subseteq_size. intros k [a Ha]%elem_of_dom. destruct (Hc k a Ha) as (b & Hb & _). apply elem_of_dom. by exists b.
Qed.
Lemma covers_filter_size (P : K * A -> Prop) `{!forall x, Decision (P x)} m m' :
  covers m m' -> (forall k a a', m !! k = Some a -> R a a' -> P (k, a') -> P (k, a)) -> (base.size (filter P m') <= base.size (filter P m))%nat.
Proof.
  intros Hc Hp. rewrite <- !size_dom. apply subseteq_size. intros k [a [Ha Hk]%map_lookup_filter_Some]%elem_of_dom.
  destruct (Hc k a Ha) as (b & Hb & Hr). apply elem_of_dom. exists b. apply map_lookup_filter_Some. split; [done|]. by eapply Hp.
Qed.
End Covers.

(** ** What stays true *)

Definition answered (l : list output) : list N := omap (fun o => match o with o_answered n _ => Some n | _ => None end) l.
Definition notified (l : list output) : list N := omap (fun o => match o with o_notified c _ _ => Some c | _ => None end) l.

(** The link [p] was delegated, with exactly this principal. *)
Definition delegated_to (p : N) (subject : bytes) (connection : ConnectionRef) (l : list output) : Prop :=
  exists payload t, delegation subject connection = Ok payload /\ o_called p route_delegate payload t ∈ l.

(** A connection the gateway has met: never a new session. *)
Definition known (s : Gateway) (c : N) : Prop := is_Some (sessions s !! c) \/ c ∈ front_closed (net s) \/ stopped s = true.

Definition delegated (s : Gateway) (p c : N) : Prop := forall x, sessions s !! c = Some x -> delegated_to p (session_subject x) (session_connection x) (log s).
Definition link_of (s : Gateway) (p c : N) : Prop := known s c /\ exists l, objects s !! p = Some l /\ lclient l = c.
Definition linked (s : Gateway) (p c : N) : Prop := link_of s p c /\ delegated s p c.
Definition sub_of (s : Gateway) (id c : N) : Prop := id <= serial s /\ forall b, subscriptions s !! id = Some b -> sclient b = c.
Definition request_of (s : Gateway) (r c : N) : Prop := r <= serial s /\ forall q, requests s !! r = Some q -> rclient q = c.
Definition fits (s : Gateway) (c : N) (t : task) : Prop :=
  match t with t_routed r | t_present r _ _ => request_of s r c | t_watch r sub _ _ => request_of s r c /\ sub_of s sub c | t_refresh sub => sub_of s sub c end.
Definition cont_fits (s : Gateway) (c : N) (k : continuation) : Prop :=
  match k with c_finish r => request_of s r c | c_watch r sub _ _ => request_of s r c /\ sub_of s sub c | c_restore sub _ _ => sub_of s sub c | _ => True end.
(** A waiter of a lookup: of some client. *)
Definition awaits (s : Gateway) (a : Await) : Prop := fits s (aclient a) (atask a).

Record Links (s : Gateway) : Prop := {
  i_objects : forall p l, objects s !! p = Some l -> p <= last_peer (net s) /\ known s (lclient l) /\ (lready l = true -> delegated s p (lclient l)) /\ forall w, w ∈ lwaiters l -> fits s (lclient l) w.2;
  i_lookups : forall k x w, lookups s !! k = Some x -> w ∈ kwaiters x -> awaits s w.2;
  i_sessions : forall c x, sessions s !! c = Some x -> (forall i p, session_links x !! i = Some p -> link_of s p c) /\ (session_controlled x <> 0 -> sub_of s (session_controlled x) c);
  i_subs : forall id b, subscriptions s !! id = Some b -> known s (sclient b) /\ id <= serial s /\ forall p, slink b = Some p -> linked s p (sclient b);
  i_requests : forall r q, requests s !! r = Some q -> known s (rclient q) /\ r <= serial s /\
    forall x, sessions s !! rclient q = Some x -> session_subject x = rsubject q /\ session_connection x = rconnection q;
  i_reverse : forall p m id, reverse s !! (p, m) = Some id -> exists c, link_of s p c /\ sub_of s id c;
  i_pending : forall k p x, calls (net s) !! k = Some (MkPending p x) -> exists c, linked s p c /\ cont_fits s c x;
  i_calls : forall k, is_Some (calls (net s) !! k) -> k <= call_serial (net s);
  i_links : forall p, p ∈ links s -> is_Some (objects s !! p) }.

Record Bounds (s : Gateway) : Prop := {
  b_clients : N.of_nat (base.size (sessions s)) <= max_clients (limits s);
  b_links : N.of_nat (base.size (links s)) <= max_links (limits s);
  b_subs : N.of_nat (base.size (subscriptions s)) <= max_subscriptions (limits s);
  b_share : forall c, client_subscriptions c s <= per_client (limits s);
  b_requests : N.of_nat (base.size (requests s)) <= max_requests (limits s);
  b_bytes : msum rbytes (requests s) <= max_bytes (limits s) }.

Section Invariant.
(** The replies given to the gateway, the notifications before an operation, and the clients
    the operation may notify. *)
Context (given base_told : list N) (allowed : N -> Prop).

Record Account (hand : list N) (s : Gateway) : Prop := {
  a_answers : answered (log s) ++ mnames rreply (requests s) ++ hand ≡ₚ given;
  a_told : exists rest, notified (log s) = base_told ++ rest /\ Forall allowed rest;
  a_deep : o_too_deep ∉ log s;
  a_bytes : queued_bytes (counters s) = msum rbytes (requests s) }.

Definition Inv (hand : list N) (s : Gateway) : Prop := Links s /\ Bounds s /\ Account hand s.
End Invariant.

(** ** How the state may change *)

Record later (s s' : Gateway) : Prop := {
  l_limits : limits s' = limits s;
  l_stopped : stopped s = true -> stopped s' = true;
  l_serial : serial s <= serial s';
  l_log : exists o, log s' = log s ++ o;
  l_known : forall c, known s c -> known s' c;
  l_sessions : forall c x', known s c -> sessions s' !! c = Some x' ->
    exists x, sessions s !! c = Some x /\ session_subject x' = session_subject x /\ session_connection x' = session_connection x;
  l_subs : forall id b', subscriptions s' !! id = Some b' -> id <= serial s -> exists b, subscriptions s !! id = Some b /\ sclient b' = sclient b;
  l_requests : forall r q', requests s' !! r = Some q' -> r <= serial s -> exists q, requests s !! r = Some q /\ rclient q' = rclient q;
  l_objects : forall p l, objects s !! p = Some l -> exists l', objects s' !! p = Some l' /\ lclient l' = lclient l }.

Definition weight (s : Gateway) : nat := (base.size (sessions s) + base.size (calls (net s)))%nat.
Definition calm (s s' : Gateway) : Prop := later s s' /\ (weight s' <= weight s)%nat /\ serial s' = serial s /\ links s' ⊆ links s.

#[export] Instance gateway_later_refl : Reflexive later.
Proof. intros s. constructor; eauto. exists []. by rewrite app_nil_r. Qed.
#[export] Instance gateway_later_trans : Transitive later.
Proof.
  intros a b c H1 H2. constructor.
  - by rewrite (l_limits _ _ H2), (l_limits _ _ H1).
  - intros Hs. by apply H2, H1.
  - etrans; [apply H1|apply H2].
  - destruct (l_log _ _ H1) as [x Hx], (l_log _ _ H2) as [y Hy]. exists (x ++ y). by rewrite Hy, Hx, app_assoc.
  - intros d Hd. by apply H2, H1.
  - intros d x' Hd Hx'. destruct (l_sessions _ _ H2 d x') as (x & Hx & -> & ->); [by apply H1|done|]. by apply (l_sessions _ _ H1).
  - intros id b' Hb' Hid. destruct (l_subs _ _ H2 id b' Hb') as (x & Hx & ->); [pose proof (l_serial _ _ H1); lia|]. by apply (l_subs _ _ H1).
  - intros r q' Hq' Hr. destruct (l_requests _ _ H2 r q' Hq') as (x & Hx & ->); [pose proof (l_serial _ _ H1); lia|]. by apply (l_requests _ _ H1).
  - intros p l Hl. destruct (l_objects _ _ H1 p l Hl) as (l1 & H & <-). by apply (l_objects _ _ H2).
Qed.
#[export] Instance calm_refl : Reflexive calm.
Proof. intros s. split; [done|]. by split_and!. Qed.
#[export] Instance calm_trans : Transitive calm.
Proof. intros a b c (H1 & H2 & H3 & H4) (H5 & H6 & H7 & H8). split_and!; [by etrans|lia|congruence|by etrans]. Qed.

(** *** Facts that last *)

Lemma delegated_to_later p a c l o : delegated_to p a c l -> delegated_to p a c (l ++ o).
Proof. intros (x & t & H1 & H2). exists x, t. split; [done|]. apply elem_of_app. by left. Qed.

Lemma delegated_later s s' p c : later s s' -> known s c -> delegated s p c -> delegated s' p c.
Proof.
  intros H Hk Hd x' Hx'. destruct (l_sessions _ _ H c x' Hk Hx') as (x & Hx & -> & ->). destruct (l_log _ _ H) as [o ->]. by apply delegated_to_later, Hd.
Qed.
Lemma link_of_later s s' p c : later s s' -> link_of s p c -> link_of s' p c.
Proof. intros H [Hk (l & Hl & <-)]. split; [by apply H|]. destruct (l_objects _ _ H p l Hl) as (l' & ? & ?). by exists l'. Qed.
Lemma linked_later s s' p c : later s s' -> linked s p c -> linked s' p c.
Proof. intros H [H1 H2]. split; [by eapply link_of_later|]. eapply delegated_later; [done|apply H1|done]. Qed.
Lemma sub_of_later s s' id c : later s s' -> sub_of s id c -> sub_of s' id c.
Proof. intros H [H1 H2]. split; [pose proof (l_serial _ _ H); lia|]. intros b' Hb'. destruct (l_subs _ _ H id b' Hb' H1) as (b & Hb & ->). by apply H2. Qed.
Lemma request_of_later s s' r c : later s s' -> request_of s r c -> request_of s' r c.
Proof. intros H [H1 H2]. split; [pose proof (l_serial _ _ H); lia|]. intros b' Hb'. destruct (l_requests _ _ H r b' Hb' H1) as (b & Hb & ->). by apply H2. Qed.
Lemma fits_later s s' c t : later s s' -> fits s c t -> fits s' c t.
Proof. intros H. destruct t; cbn; intuition eauto using sub_of_later, request_of_later. Qed.
Lemma cont_fits_later s s' c k : later s s' -> cont_fits s c k -> cont_fits s' c k.
Proof. intros H. destruct k; cbn; intuition eauto using sub_of_later, request_of_later. Qed.
Lemma awaits_later s s' a : later s s' -> awaits s a -> awaits s' a.
Proof. apply fits_later. Qed.

(** *** Updates that only forget *)

Definition link_rel (l l' : Link) : Prop := lclient l' = lclient l /\ (lready l' = true -> lready l = true) /\ forall w, w ∈ lwaiters l' -> w ∈ lwaiters l.
Definition session_rel (x x' : Session) : Prop :=
  session_subject x' = session_subject x /\ session_connection x' = session_connection x /\
  (forall i p, session_links x' !! i = Some p -> session_links x !! i = Some p) /\ (session_controlled x' <> 0 -> session_controlled x' = session_controlled x).
Definition sub_rel (b b' : Subscription) : Prop := sclient b' = sclient b /\ slink b' = slink b.
Definition request_rel (q q' : Request) : Prop :=
  rclient q' = rclient q /\ rsubject q' = rsubject q /\ rconnection q' = rconnection q /\ rreply q' = rreply q /\ rbytes q' = rbytes q.
Definition lookup_rel (k k' : Lookup) : Prop := forall w, w ∈ kwaiters k' -> w ∈ kwaiters k.
#[export] Instance link_rel_refl : Reflexive link_rel.
Proof. intros x. repeat split; auto. Qed.
#[export] Instance session_rel_refl : Reflexive session_rel.
Proof. intros x. repeat split; auto. Qed.
#[export] Instance sub_rel_refl : Reflexive sub_rel.
Proof. intros x. repeat split; auto. Qed.
#[export] Instance request_rel_refl : Reflexive request_rel.
Proof. intros x. repeat split; auto. Qed.
#[export] Instance lookup_rel_refl : Reflexive lookup_rel.
Proof. intros x w Hw. done. Qed.

Record shrinks (s s' : Gateway) : Prop := {
  h_limits : limits s' = limits s;
  h_stopped : stopped s = true -> stopped s' = true;
  h_sessions : covers session_rel (sessions s) (sessions s');
  h_objects : covers link_rel (objects s) (objects s');
  h_domain : forall p, is_Some (objects s !! p) -> is_Some (objects s' !! p);
  h_links : links s' ⊆ links s;
  h_subs : covers sub_rel (subscriptions s) (subscriptions s');
  h_reverse : covers eq (reverse s) (reverse s');
  h_requests : covers request_rel (requests s) (requests s');
  h_lookups : covers lookup_rel (lookups s) (lookups s');
  h_serial : serial s' = serial s;
  h_calls : covers eq (calls (net s)) (calls (net s'));
  h_net : call_serial (net s) <= call_serial (net s') /\ last_peer (net s) <= last_peer (net s');
  h_log : exists o, log s' = log s ++ o;
  h_known : forall c, known s c -> known s' c }.

Lemma shrinks_calm s s' : shrinks s s' -> calm s s'.
Proof.
  intros H. split; [|split; [|split; apply H]].
  - constructor.
    + apply H.
    + apply H.
    + rewrite (h_serial _ _ H). done.
    + apply H.
    + apply H.
    + intros c x' _ (x & Hx & ? & ? & _)%(h_sessions _ _ H). by exists x.
    + intros id b' (b & Hb & ? & _)%(h_subs _ _ H) _. by exists b.
    + intros r q' (q & Hq & ? & _)%(h_requests _ _ H) _. by exists q.
    + intros p l Hl. destruct (h_domain _ _ H p) as [l' Hl']; [by exists l|]. destruct (h_objects _ _ H p l' Hl') as (l1 & Hl1 & ? & _). exists l'. split; [done|]. congruence.
  - unfold weight. pose proof (covers_size _ _ _ (h_sessions _ _ H)). pose proof (covers_size _ _ _ (h_calls _ _ H)). lia.
Qed.

Lemma links_shrinks s s' : Links s -> shrinks s s' -> Links s'.
Proof.
  intros HL H. pose proof (proj1 (shrinks_calm _ _ H)) as Ht. destruct (h_net _ _ H) as [Hn1 Hn2]. constructor.
  - intros p l' Hl'. destruct (h_objects _ _ H p l' Hl') as (l & Hl & Hc & Hr & Hw). destruct (i_objects _ HL p l Hl) as (H1 & H2 & H3 & H4).
    rewrite Hc. split_and!; [lia|by apply Ht|intros; eapply delegated_later; eauto|intros w Hin; eapply fits_later; eauto].
  - intros k x' w Hx' Hw. destruct (h_lookups _ _ H k x' Hx') as (x & Hx & Hr). eapply awaits_later; [done|]. eapply (i_lookups _ HL); [done|]. by apply Hr.
  - intros c x' Hx'. destruct (h_sessions _ _ H c x' Hx') as (x & Hx & _ & _ & Hl & Hc). destruct (i_sessions _ HL c x Hx) as [H1 H2]. split.
    + intros i p Hp. eapply link_of_later; [done|]. by eapply H1, Hl.
    + intros Hn. rewrite (Hc Hn) in Hn |- *. by eapply sub_of_later, H2.
  - intros id b' Hb'. destruct (h_subs _ _ H id b' Hb') as (b & Hb & -> & ->). destruct (i_subs _ HL id b Hb) as (H1 & H2 & H3).
    split_and!; [by apply Ht|pose proof (l_serial _ _ Ht); lia|]. intros p Hp. by eapply linked_later, H3.
  - intros r q' Hq'. destruct (h_requests _ _ H r q' Hq') as (q & Hq & -> & -> & -> & _). destruct (i_requests _ HL r q Hq) as (H1 & H2 & H3).
    split_and!; [by apply Ht|pose proof (l_serial _ _ Ht); lia|]. intros x' (x & Hx & -> & -> & _)%(h_sessions _ _ H). by apply H3.
  - intros p m id (id' & Hi & <-)%(h_reverse _ _ H). destruct (i_reverse _ HL p m id' Hi) as (c & ? & ?). exists c. eauto using link_of_later, sub_of_later.
  - intros k p x (y & Hy & ->)%(h_calls _ _ H). destruct (i_pending _ HL k p x Hy) as (c & ? & ?). exists c. eauto using linked_later, cont_fits_later.
  - intros k [x (y & Hy & _)%(h_calls _ _ H)]. etrans; [|exact Hn1]. apply (i_calls _ HL). by exists y.
  - intros p Hp. apply H, (i_links _ HL). by apply H.
Qed.

Lemma msum_covers {A} (f : A -> N) (R : A -> A -> Prop) (m m' : gmap N A) : covers R m m' -> (forall a a', R a a' -> f a' <= f a) -> msum f m' <= msum f m.
Proof.
  intros Hc Hf. revert m Hc. induction m' as [|k a' m' Hk IH] using map_ind; intros m Hc; [rewrite msum_empty; lia|].
  destruct (Hc k a') as (a & Ha & Hr); [by rewrite lookup_insert_eq|]. rewrite msum_insert, (msum_delete m k a Ha) by done. apply Hf in Hr.
  enough (msum f m' <= msum f (delete k m)) by lia. apply IH. intros i b' Hb'. assert (i <> k) by congruence.
  destruct (Hc i b') as (b & Hb & ?); [by rewrite lookup_insert_ne by done|]. exists b. by rewrite lookup_delete_ne by done.
Qed.

Lemma bounds_shrinks s s' : Bounds s -> shrinks s s' -> Bounds s'.
Proof.
  intros HB H. pose proof (h_limits _ _ H) as El. constructor; rewrite El.
  - etrans; [|apply HB]. pose proof (covers_size _ _ _ (h_sessions _ _ H)). lia.
  - etrans; [|apply HB]. pose proof (subseteq_size _ _ (h_links _ _ H)). lia.
  - etrans; [|apply HB]. pose proof (covers_size _ _ _ (h_subs _ _ H)). lia.
  - intros c. etrans; [|apply (b_share _ HB c)]. unfold client_subscriptions.
    assert (base.size (filter (fun e => sclient e.2 = c) (subscriptions s')) <= base.size (filter (fun e => sclient e.2 = c) (subscriptions s)))%nat; [|lia].
    eapply (covers_filter_size _ _ _ _ (h_subs _ _ H)). cbn. intros k a a' _ [-> _]. done.
  - etrans; [|apply HB]. pose proof (covers_size _ _ _ (h_requests _ _ H)). lia.
  - etrans; [|apply HB]. eapply msum_covers; [apply H|]. intros a a' (_ & _ & _ & _ & ->). done.
Qed.

(** * The client gateway: what never adds a call

    Removing subscriptions, finishing requests, revoking sessions and failing calls keep the
    invariant, never throw where the code relies on it, and never nest deeper than [fuel]. *)

Section Calm.
Context {given base_told : list N} {allowed : N -> Prop}.
Abbreviation Inv := (Inv given base_told allowed).
Abbreviation Account := (Account given base_told allowed).
Implicit Types (s : Gateway) (hand : list N).

(** ** What an action gives from a state

    [b]: it may throw, with the invariant kept. *)
Definition gives (R : Gateway -> Gateway -> Prop) (b : bool) hand {A} s (m : act A) (Q : A -> Gateway -> Prop) : Prop :=
  match m s with
  | (Ok a, s') => Inv hand s' /\ R s s' /\ Q a s'
  | (Throw _, s') => b = true /\ Inv hand s' /\ R s s'
  end.
Definition anything {A} (_ : A) (_ : Gateway) : Prop := True.
Abbreviation calmly hand s m := (gives calm false hand s m anything).

Section Rules.
Context {R : Gateway -> Gateway -> Prop} `{!Reflexive R, !Transitive R}.

Lemma gives_ret {A} b hand s (a : A) (Q : A -> Gateway -> Prop) : Inv hand s -> Q a s -> gives R b hand s (mret a) Q.
Proof. intros H1 H2. cbn. by split; [|split]. Qed.
Lemma gives_done b hand s : Inv hand s -> gives R b hand s done anything.
Proof. intros H. by apply gives_ret. Qed.
Lemma gives_state {A} b hand s (k : Gateway -> act A) Q : gives R b hand s (k s) Q -> gives R b hand s (state ≫= k) Q.
Proof. done. Qed.
Lemma gives_modify b hand s f (Q : unit -> Gateway -> Prop) : Inv hand (f s) -> R s (f s) -> Q tt (f s) -> gives R b hand s (modify f) Q.
Proof. intros. cbn. done. Qed.
Lemma gives_raise {A} hand s e (Q : A -> Gateway -> Prop) : Inv hand s -> gives R true hand s (raise e) Q.
Proof. intros H. cbn. done. Qed.
Lemma gives_lift {A} hand s (r : result A) (Q : A -> Gateway -> Prop) : Inv hand s -> (forall a, r = Ok a -> Q a s) -> gives R true hand s (lift r) Q.
Proof. intros H H1. unfold gives, lift. destruct r; [|done]. split; [done|]. split; [done|]. by apply H1. Qed.

Lemma gives_seq {A B} b hand hand' s (m : act A) (k : A -> act B) Q' Q :
  gives R false hand' s m Q' -> (forall a s', Inv hand' s' -> R s s' -> Q' a s' -> gives R b hand s' (k a) Q) -> gives R b hand s (m ≫= k) Q.
Proof.
  unfold gives. intros Hm Hk. unfold mbind, act_bind. destruct (m s) as [[a|e] s1]; [|by destruct Hm]. destruct Hm as (H1 & H2 & H3).
  specialize (Hk a s1 H1 H2 H3). destruct (k a s1) as [[x|e] s2]; destruct Hk as (? & ? & ?); split_and!; eauto.
Qed.
Lemma gives_bind {A B} b hand s (m : act A) (k : A -> act B) Q' Q :
  gives R b hand s m Q' -> (forall a s', Inv hand s' -> R s s' -> Q' a s' -> gives R b hand s' (k a) Q) -> gives R b hand s (m ≫= k) Q.
Proof.
  unfold gives. intros Hm Hk. unfold mbind, act_bind. destruct (m s) as [[a|e] s1]; [|done]. destruct Hm as (H1 & H2 & H3).
  specialize (Hk a s1 H1 H2 H3). destruct (k a s1) as [[x|e] s2]; destruct Hk as (? & ? & ?); split_and!; eauto.
Qed.
Lemma gives_weaken {A} b hand s (m : act A) (Q Q' : A -> Gateway -> Prop) : gives R b hand s m Q -> (forall a s', R s s' -> Q a s' -> Q' a s') -> gives R b hand s m Q'.
Proof. unfold gives. intros H Hq. destruct (m s) as [[a|e] s1]; [|done]. destruct H as (? & ? & ?). auto. Qed.
Lemma gives_conclude {A} b hand s (m : act A) (Q Q' : A -> Gateway -> Prop) : gives R b hand s m Q -> (forall a s', Inv hand s' -> R s s' -> Q a s' -> Q' a s') -> gives R b hand s m Q'.
Proof. unfold gives. intros H Hq. destruct (m s) as [[a|e] s1]; [|done]. destruct H as (? & ? & ?). auto. Qed.
Lemma gives_any {A} b hand s (m : act A) Q : gives R b hand s m Q -> gives R b hand s m anything.
Proof. intros H. by eapply gives_weaken. Qed.
Lemma gives_throws {A} b hand s (m : act A) Q : gives R b hand s m Q -> gives R true hand s m Q.
Proof. unfold gives. destruct (m s) as [[a|e] s1]; [done|]. intros (_ & ? & ?). done. Qed.
Lemma gives_when b hand s c (m : act unit) : Inv hand s -> (c = true -> gives R b hand s m anything) -> gives R b hand s (when c m) anything.
Proof. intros H Hm. destruct c; [by apply Hm|]. by apply gives_done. Qed.
Lemma gives_each {A} b hand s (f : A -> act unit) l :
  Inv hand s -> (forall a s', a ∈ l -> Inv hand s' -> R s s' -> gives R b hand s' (f a) anything) -> gives R b hand s (for_each f l) anything.
Proof.
  revert s. induction l as [|a l IH]; intros s Hs H; cbn [for_each]; [by apply gives_done|].
  eapply gives_bind; [apply H; [by left|done|done]|]. intros [] s1 H1 R1 _. apply IH; [done|]. intros x s2 Hx H2 R2. apply H; [by right|done|by etrans].
Qed.
Lemma gives_attempt {A} b hand s (m : act A) h Q :
  gives R true hand s m Q -> (forall e s', Inv hand s' -> R s s' -> gives R b hand s' (h e) Q) -> gives R b hand s (attempt m h) Q.
Proof.
  unfold gives, attempt. intros Hm Hh. destruct (m s) as [[a|e] s1]; [done|]. destruct Hm as (_ & H1 & H2). specialize (Hh e s1 H1 H2).
  destruct (h e s1) as [[x|e'] s2]; destruct Hh as (? & ? & ?); split_and!; eauto.
Qed.
Lemma gives_deliver hand s m : gives R true hand s m anything -> gives R false hand s (deliver m) anything.
Proof. intros H. eapply gives_attempt; [done|]. intros e s' H1 _. by apply gives_done. Qed.
End Rules.

Lemma gives_later {A} b hand s (m : act A) Q : gives calm b hand s m Q -> gives later b hand s m Q.
Proof. unfold gives. destruct (m s) as [[a|e] s1]; intros (? & ? & ?); split_and!; try done; by apply H0 || by apply H1. Qed.

(** ** Updates *)

Lemma account_same hand s s' : Account hand s -> log s' = log s -> requests s' = requests s -> queued_bytes (counters s') = queued_bytes (counters s) -> Account hand s'.
Proof. intros [H1 H2 H3 H4] E1 E2 E3. constructor; by rewrite ?E1, ?E2, ?E3. Qed.

Lemma shrink_inv hand hand' s s' : Inv hand s -> shrinks s s' -> Account hand' s' -> Inv hand' s' /\ calm s s'.
Proof. intros (H1 & H2 & _) H H3. split; [|by apply shrinks_calm]. split; [by eapply links_shrinks|]. split; [by eapply bounds_shrinks|done]. Qed.

Lemma shrink_gives b hand s f : Inv hand s -> shrinks s (f s) -> log (f s) = log s -> requests (f s) = requests s -> queued_bytes (counters (f s)) = queued_bytes (counters s) ->
  gives calm b hand s (modify f) (fun _ s' => s' = f s).
Proof.
  intros H H1 E1 E2 E3. destruct (shrink_inv hand hand s (f s) H H1) as [H2 H3]; [|by apply gives_modify].
  eapply account_same; [apply H|done..].
Qed.

Lemma shrinks_refl_log s o : shrinks s (with_log s (log s ++ o)).
Proof. constructor; cbn; auto using covers_refl with typeclass_instances. eauto. Qed.

Lemma covers_same {K} `{Countable K} {A} (R : A -> A -> Prop) `{!Reflexive R} (m : gmap K A) : covers R m m.
Proof. by apply covers_refl. Qed.
Lemma known_closed s c c' : known s c' -> known (with_front_closed s ({[c]} ∪ front_closed (net s))) c'.
Proof. unfold known. cbn. set_solver. Qed.
Lemma grown_log s : exists o, log s = log s ++ o.
Proof. exists []. by rewrite app_nil_r. Qed.

(** [shrink]: an update of one field that forgets; the interesting field is left. *)
Ltac shrink := constructor; cbn; try first [done | split; lia | apply covers_same; apply _ | apply grown_log | by eexists | by auto].

Lemma note_inv hand hand' s o : Inv hand s -> Account hand' (with_log s (log s ++ [o])) -> Inv hand' (with_log s (log s ++ [o])) /\ calm s (with_log s (log s ++ [o])).
Proof. intros H. apply (shrink_inv hand); [done|]. apply shrinks_refl_log. Qed.

Definition silent (o : output) : bool := match o with o_answered _ _ | o_notified _ _ _ | o_too_deep => false | _ => true end.
Lemma account_silent hand s s' o : Account hand s -> silent o = true -> log s' = log s ++ [o] -> requests s' = requests s -> counters s' = counters s -> Account hand s'.
Proof.
  intros [A1 A2 A3 A4] Ho E1 E2 E3. constructor; rewrite ?E1, ?E2, ?E3; [| | |done].
  - unfold answered. rewrite omap_app. cbn. by destruct o; rewrite ?app_nil_r.
  - unfold notified. rewrite omap_app. cbn. by destruct o; rewrite ?app_nil_r.
  - rewrite elem_of_app, list_elem_of_singleton. intros [?|<-]; done.
Qed.

Lemma note_gives hand s o : silent o = true -> Inv hand s -> calmly hand s (note o).
Proof.
  intros Ho H. destruct (note_inv hand hand s o H) as [H1 H2]; [|by apply gives_modify]. by apply (account_silent hand s _ o); [apply H|..].
Qed.

Lemma answer_gives hand s n x : Inv (n :: hand) s -> calmly hand s (note (o_answered n x)).
Proof.
  intros H. destruct (note_inv (n :: hand) hand s (o_answered n x) H) as [H1 H2]; [|by apply gives_modify]. destruct H as (_ & _ & [A1 A2 A3 A4]). constructor; cbn; [| | |done].
  - unfold answered. rewrite omap_app. cbn. rewrite <- A1, <- app_assoc. cbn. by rewrite <- !Permutation_middle.
  - unfold notified. rewrite omap_app. cbn. by rewrite app_nil_r.
  - rewrite elem_of_app, list_elem_of_singleton. intros [?|?]; done.
Qed.

Lemma notified_gives hand s c channel body : allowed c -> Inv hand s -> calmly hand s (note (o_notified c channel body)).
Proof.
  intros Hc H. destruct (note_inv hand hand s (o_notified c channel body) H) as [H1 H2]; [|by apply gives_modify]. destruct H as (_ & _ & [A1 A2 A3 A4]). constructor; cbn; [| | |done].
  - unfold answered. rewrite omap_app. cbn. by rewrite app_nil_r.
  - destruct A2 as (rest & Hr & Hf). exists (rest ++ [c]). unfold notified in *. rewrite omap_app, Hr, <- app_assoc. cbn. split; [done|]. apply Forall_app. by auto.
  - rewrite elem_of_app, list_elem_of_singleton. intros [?|?]; done.
Qed.

Lemma on_sub_gives hand s id f : (forall b, sub_rel b (f b)) -> Inv hand s -> calmly hand s (on_sub id f).
Proof. intros Hf H. eapply gives_any, shrink_gives; [done| |done..]. shrink. apply covers_alter; [apply _|auto]. Qed.
Lemma on_link_gives hand s p f : (forall l, objects s !! p = Some l -> link_rel l (f l)) -> Inv hand s -> calmly hand s (on_link p f).
Proof.
  intros Hf H. eapply gives_any, shrink_gives; [done| |done..]. shrink; [apply covers_alter; [apply _|auto]|].
  intros q Hq. destruct (decide (q = p)) as [->|]; [rewrite lookup_alter_eq; by apply fmap_is_Some|by rewrite lookup_alter_ne].
Qed.
Lemma known_alter s c f c' : known s c' -> known (with_sessions s (alter f c (sessions s))) c'.
Proof.
  unfold known. cbn. intros [Hx|Hx]; [left|by right]. destruct (decide (c' = c)) as [->|]; [rewrite lookup_alter_eq; by apply fmap_is_Some|by rewrite lookup_alter_ne].
Qed.
Lemma on_session_gives hand s c f : (forall x, session_rel x (f x)) -> Inv hand s -> calmly hand s (on_session c f).
Proof. intros Hf H. eapply gives_any, shrink_gives; [done| |done..]. shrink; [apply covers_alter; [apply _|auto]|]. intros c'. apply known_alter. Qed.
Lemma on_lookup_gives hand s k f : (forall x, lookups s !! k = Some x -> lookup_rel x (f x)) -> Inv hand s -> calmly hand s (on_lookup k f).
Proof. intros Hf H. eapply gives_any, shrink_gives; [done| |done..]. shrink. apply covers_alter; [apply _|auto]. Qed.

Lemma alter_lookup {A} (m : gmap N A) k f a : m !! k = Some a -> alter f k m = <[k := f a]> m.
Proof. intros Ha. rewrite <- (insert_id m k a Ha) at 1. apply alter_insert_eq. Qed.
Lemma mnames_alter {A B} (g : A -> B) (m : gmap N A) k f : (forall a, g (f a) = g a) -> mnames g (alter f k m) ≡ₚ mnames g m.
Proof.
  intros Hf. destruct (m !! k) as [a|] eqn:Ha; [|by rewrite alter_id' by done]. rewrite (alter_lookup m k f a Ha).
  rewrite <- insert_delete_eq, mnames_insert, Hf by apply lookup_delete_eq. by rewrite <- (mnames_delete m k a Ha).
Qed.
Lemma msum_alter {A} (g : A -> N) (m : gmap N A) k f : (forall a, g (f a) = g a) -> msum g (alter f k m) = msum g m.
Proof.
  intros Hf. destruct (m !! k) as [a|] eqn:Ha; [|by rewrite alter_id' by done]. rewrite (alter_lookup m k f a Ha).
  pose proof (msum_replace (f := g) m k a (f a) Ha) as E. rewrite Hf in E. lia.
Qed.
Lemma on_request_gives hand s r f : (forall q, request_rel q (f q)) -> Inv hand s -> calmly hand s (on_request r f).
Proof.
  intros Hf H. destruct (shrink_inv hand hand s (with_requests s (alter f r (requests s))) H) as [H1 H2]; [shrink; apply covers_alter; [apply _|auto]| |by apply gives_modify].
  destruct H as (_ & _ & [A1 A2 A3 A4]). constructor; cbn; try done.
  - rewrite mnames_alter; [done|]. intros q. by destruct (Hf q) as (_ & _ & _ & -> & _).
  - rewrite msum_alter; [done|]. intros q. by destruct (Hf q) as (_ & _ & _ & _ & ->).
Qed.

(** [next]: one action that does not throw, then the rest. *)
Ltac next := eapply gives_seq; [|intros ? ?s ?H ?R ?E].

Section Environment.
Context (env : Env).

(** ** Waiters and subscriptions *)

Lemma front_close_gives hand s c : Inv hand s -> calmly hand s (front_close c).
Proof.
  intros H. unfold front_close. next; [eapply shrink_gives; [done| |done..]; shrink; intros c'; apply known_closed|]. by apply note_gives.
Qed.

Lemma notify_gives hand s c channel body : allowed c -> Inv hand s -> calmly hand s (notify env c channel body).
Proof. intros Hc H. apply gives_state. next; [by apply notified_gives|]. by apply gives_ret. Qed.

Lemma tell_gives hand s c channel body : allowed c -> Inv hand s -> calmly hand s (tell env c channel body).
Proof. intros Hc H. unfold tell. next; [by apply notify_gives|]. apply gives_when; [done|]. intros _. by apply front_close_gives. Qed.

Lemma waiter_erase_in {A} id (l : list (N * A)) w : w ∈ waiter_erase id l -> w ∈ l.
Proof. unfold waiter_erase. rewrite !list_elem_of_In, filter_In. tauto. Qed.

Lemma detach_one_gives hand s id d : Inv hand s -> calmly hand s (detach_one id d).
Proof.
  intros H. destruct d; cbn; [apply on_lookup_gives|apply on_link_gives]; try done; intros x _.
  - intros w. apply waiter_erase_in.
  - split; [done|]. split; [done|]. intros w. apply waiter_erase_in.
Qed.
Lemma detach_all_gives hand s id l : Inv hand s -> calmly hand s (for_each (detach_one id) l).
Proof. intros H. apply gives_each; [done|]. intros d s' _ H' _. by apply detach_one_gives. Qed.
Lemma detach_waiters_gives hand s id : Inv hand s -> calmly hand s (detach_waiters id).
Proof.
  intros H. apply gives_state. destruct (subscriptions s !! id) as [b|]; [|by apply gives_done]. next; [apply on_sub_gives; [by split|done]|]. by apply detach_all_gives.
Qed.

Lemma forget_gives hand s f : Inv hand s -> shrinks s (f s) -> log (f s) = log s -> requests (f s) = requests s -> queued_bytes (counters (f s)) = queued_bytes (counters s) -> calmly hand s (modify f).
Proof. intros. by eapply gives_any, shrink_gives. Qed.

Lemma count_gives hand s f : queued_bytes (f (counters s)) = queued_bytes (counters s) -> Inv hand s -> calmly hand s (count f).
Proof. intros Hf H. apply forget_gives; [done|shrink|done..]. Qed.

Lemma call_ignored_gives hand s p route data t : Inv hand s -> calmly hand s (call_ignored p route data t).
Proof. by apply note_gives. Qed.

Lemma session_controlled_rel id x : session_rel x (if session_controlled x =? id then session_with (session_links x) 0 x else x).
Proof. by destruct (session_controlled x =? id). Qed.

Lemma unlink_one_gives hand s k : Inv hand s -> calmly hand s (modify (fun s => with_reverse s (delete k (reverse s)))).
Proof. intros H. apply forget_gives; [done| |done..]. shrink. apply covers_delete, _. Qed.

Lemma stopped_silent c s : stopped s = true -> session_authenticated env c s = false.
Proof.
  intros Hs. unfold session_authenticated, authenticated, current. destruct (sessions s !! c) as [x|]; [|done]. destruct (identity env c s); rewrite ?Hs, ?andb_false_r; done.
Qed.

(** What is gone stays gone. *)
Definition no_request (r : N) s : Prop := r <= serial s /\ requests s !! r = None.
Definition no_sub (id : N) s : Prop := id <= serial s /\ subscriptions s !! id = None.
Lemma no_request_later r s s' : later s s' -> no_request r s -> no_request r s'.
Proof.
  intros H [H1 H2]. split; [pose proof (l_serial _ _ H); lia|]. destruct (requests s' !! r) as [q|] eqn:E; [|done]. destruct (l_requests _ _ H r q E H1) as (? & ? & _). congruence.
Qed.
Lemma no_sub_later id s s' : later s s' -> no_sub id s -> no_sub id s'.
Proof.
  intros H [H1 H2]. split; [pose proof (l_serial _ _ H); lia|]. destruct (subscriptions s' !! id) as [q|] eqn:E; [|done]. destruct (l_subs _ _ H id q E H1) as (? & ? & _). congruence.
Qed.

Lemma remove_clears hand s id status tells :
  Inv hand s -> id <= serial s -> (tells = true -> forall b, subscriptions s !! id = Some b -> allowed (sclient b) \/ stopped s = true) ->
  gives calm (tells && negb (stopped s)) hand s (remove env id status tells) (fun _ => no_sub id).
Proof.
  intros H Hid Ht. unfold remove. apply gives_state. destruct (subscriptions s !! id) as [b|] eqn:Hb; [|by apply gives_ret].
  next; [apply shrink_gives; [done| |done..]; shrink; apply covers_delete, _|]. assert (Hgone : no_sub id s0) by (rewrite E; split; [done|apply lookup_delete_eq]).
  eapply gives_weaken with (Q := anything); [|intros [] s' R' _; eapply no_sub_later; [apply R'|done]].
  next; [by apply detach_all_gives|]. next; [apply forget_gives; [done|shrink|done..]|].
  next; [apply on_session_gives; [intros x; apply session_controlled_rel|done]|].
  next; [|apply gives_state; apply gives_when; [done|]; intros [-> Hauth]%andb_true_iff].
  - destruct (slink b) as [p|]; [|by apply gives_done]. next; [by apply unlink_one_gives|]. apply gives_state, gives_when; [done|]. intros _. by apply call_ignored_gives.
  - destruct (stopped s) eqn:Hs.
    { rewrite stopped_silent in Hauth; [done|]. repeat match goal with C : calm _ _ |- _ => pose proof (l_stopped _ _ (proj1 C)); clear C end. tauto. }
    eapply gives_bind; [by apply (gives_lift _ _ _ anything)|]. intros body s' H' _ _. destruct (Ht eq_refl b eq_refl) as [Ha|?]; [|done]. destruct (sautomatic b); eapply gives_throws, tell_gives; done.
Qed.
Lemma sub_below hand s id b : Inv hand s -> subscriptions s !! id = Some b -> id <= serial s.
Proof. intros (HL & _) Hb. by apply (i_subs _ HL id b). Qed.
Lemma remove_gives hand s id status tells :
  Inv hand s -> (tells = true -> forall b, subscriptions s !! id = Some b -> allowed (sclient b) \/ stopped s = true) -> gives calm (tells && negb (stopped s)) hand s (remove env id status tells) anything.
Proof.
  intros H Ht. destruct (subscriptions s !! id) as [b|] eqn:Hb; [eapply gives_any, remove_clears; [done|by eapply sub_below|by rewrite Hb]|].
  unfold remove. apply gives_state. rewrite Hb. by apply gives_done.
Qed.
Lemma remove_quietly hand s id status : Inv hand s -> calmly hand s (remove env id status false).
Proof. intros H. by apply remove_gives. Qed.

Lemma retry_gives hand s (i : nat) z : Inv hand s -> calmly hand s (modify (fun s => with_retry s (<[i := z]> (retry s)))).
Proof. intros H. apply forget_gives; [done|shrink|done..]. Qed.
Lemma migrating_gives hand s id b : Inv hand s -> calmly hand s (migrating env id b).
Proof.
  intros H. apply gives_state. destruct (subscriptions s !! id) as [x|]; [|by apply gives_done]. destruct (smigrating x); [by apply gives_done|].
  next; [apply on_sub_gives; [by split|done]|]. destruct (_ ≫= _); [|by apply gives_done]. apply gives_when; [done|]. intros _. next; [by apply retry_gives|]. apply on_sub_gives; [by split|done].
Qed.
Lemma retry_migration_gives hand s id : Inv hand s -> calmly hand s (retry_migration env id).
Proof. intros H. apply gives_state. apply on_sub_gives; [by split|done]. Qed.
Lemma expire_route_gives hand s e : Inv hand s -> calmly hand s (expire_route e).
Proof. intros H. apply on_lookup_gives; [|done]. intros x _ w. done. Qed.

(** ** Nested calls *)

(** [deep] works below a weight. *)
Definition deep_below (n : nat) (deep : nested -> act unit) : Prop := forall hand s d, (weight s < n)%nat -> Inv hand s -> calmly hand s (deep d).

Ltac light := repeat match goal with H : calm _ _ |- _ => pose proof (proj1 (proj2 H)); revert H end; intros; lia.

Section Deep.
Context (n : nat) (deep : nested -> act unit) (Hdeep : deep_below n deep).

Lemma finished_inv hand s r q : Inv hand s -> requests s !! r = Some q ->
  let s' := with_counters (with_requests s (delete r (requests s))) (count_bytes (queued_bytes (counters s) - rbytes q) (counters s)) in
  Inv (rreply q :: hand) s' /\ calm s s'.
Proof.
  intros H Hq s'. apply (shrink_inv hand); [done|shrink; apply covers_delete, _|]. destruct H as (_ & _ & [A1 A2 A3 A4]). constructor; cbn; try done.
  - rewrite <- A1, (mnames_delete _ _ _ Hq). apply Permutation_app_head. symmetry. apply (Permutation_middle (mnames rreply _)).
  - rewrite A4, (msum_delete _ _ _ Hq). lia.
Qed.

Lemma finish_clears hand s r x : Inv hand s -> r <= serial s -> (weight s < n)%nat -> gives calm false hand s (finish env deep r x) (fun _ => no_request r).
Proof.
  intros H Hr Hw. unfold finish. apply gives_state. destruct (requests s !! r) as [q|] eqn:Hq; [|by apply gives_ret]. cbv zeta.
  destruct (finished_inv hand s r q H Hq) as [H1 R1]. next; [eapply (gives_modify _ _ _ _ (fun _ => no_request r)); [exact H1|exact R1|split; [done|apply lookup_delete_eq]]|].
  eapply gives_weaken with (Q := anything); [|intros [] s' R' _; eapply no_request_later; [apply R'|done]].
  next; [by apply detach_all_gives|].
  next; [apply gives_when; [done|]; intros _; destruct (rcancel q); [by apply remove_quietly|by apply gives_done]|].
  next; [apply gives_when; [done|]; intros _; apply Hdeep; [light|done]|].
  next; [apply gives_when; [done|]; intros _; by apply count_gives|]. by apply answer_gives.
Qed.
Lemma finish_gives hand s r x : Inv hand s -> (weight s < n)%nat -> calmly hand s (finish env deep r x).
Proof.
  intros H Hw. destruct (requests s !! r) as [q|] eqn:Hq.
  - eapply gives_any, finish_clears; [done| |done]. destruct H as (HL & _). by apply (i_requests _ HL r q).
  - unfold finish. apply gives_state. rewrite Hq. by apply gives_done.
Qed.

Lemma retry_later_gives hand s sub f : (forall b, sub_rel b (f b)) -> Inv hand s -> calmly hand s (on_sub sub f;; retry_migration env sub).
Proof. intros Hf H. next; [by apply on_sub_gives|]. by apply retry_migration_gives. Qed.

Lemma task_failed_gives hand s t i x : Inv hand s -> (weight s < n)%nat -> calmly hand s (task_failed env deep t i x).
Proof.
  intros H Hw. destruct t as [r|r ? ?|r sub ? ?|sub]; cbn; [by apply finish_gives|by apply finish_gives|apply gives_state, gives_when..]; try done; intros _.
  - next; [by apply remove_quietly|]. apply finish_gives; [done|light].
  - next; [by apply detach_waiters_gives|]. by apply retry_later_gives.
Qed.

Lemma delegate_check_gives hand s p x : Inv hand s -> (weight s < n)%nat -> calmly hand s (delegate_check env deep p x).
Proof.
  intros H Hw. apply gives_state. destruct (objects s !! p) as [l|]; [|by apply gives_ret]. destruct (session_authenticated env (lclient l) s); [by apply gives_ret|].
  next; [by apply Hdeep|]. by apply gives_ret.
Qed.

Lemma closed_link_rel l w : (forall x, x ∈ w -> x ∈ lwaiters l) -> link_rel l (link_state false false w l).
Proof. intros Hw. by repeat split. Qed.

Lemma delegate_failed_gives hand s p x : Inv hand s -> (weight s < n)%nat -> calmly hand s (delegate_failed env deep p x).
Proof.
  intros H Hw. apply gives_state. destruct (objects s !! p) as [l|]; [|by apply gives_done].
  next; [apply on_link_gives; [|done]; intros k _; apply closed_link_rel; by intros y ?%elem_of_nil|]. next; [apply Hdeep; [light|done]|].
  next; [apply forget_gives; [done| |done..]; shrink; set_solver|]. apply gives_each; [done|]. intros w s' _ H' R'. apply task_failed_gives; [done|light].
Qed.

Lemma restore_failed_gives hand s p sub x : Inv hand s -> (x = rejected \/ x = not_found -> forall c, allowed c) -> gives calm true hand s (restore_failed env p sub x) anything.
Proof.
  intros H Ha. apply gives_state. destruct (objects s !! p) as [l|]; [|by apply gives_done].
  next; [apply gives_when; [done|]; intros _; next; [by apply retry_gives|]; apply on_sub_gives; [by split|done]|].
  destruct (bool_decide (x = rejected) || _) eqn:Eb; [|by eapply gives_throws, retry_migration_gives].
  eapply gives_throws, remove_gives; [done|]. intros _ b _. left. apply Ha. apply orb_true_iff in Eb as [Eb%bool_decide_eq_true|Eb%bool_decide_eq_true]; auto.
Qed.

Lemma restore_wanted_gives hand s sub e : Inv hand s -> calmly hand s (restore_wanted env sub e).
Proof.
  intros H. apply gives_state. destruct (subscriptions s !! sub) as [b|]; [|by apply gives_ret]. next; [apply on_sub_gives; [by split|done]|].
  destruct (sautomatic b && _); [|by apply gives_ret]. next; [apply on_sub_gives; [by split|done]|]. next; [by apply expire_route_gives|]. by apply gives_ret.
Qed.

(** A failed call may notify only a client whose subscription is refused for good. *)
Definition failing (k : continuation) (x : Result) : Prop := match k with c_restore _ _ _ => rstatus x = rejected \/ rstatus x = not_found | _ => False end.

Lemma call_failed_gives hand s p k x : Inv hand s -> (weight s < n)%nat -> (failing k x -> forall c, allowed c) -> gives calm true hand s (call_failed env deep p k x) anything.
Proof.
  intros H Hw Ha. destruct k as [r|r sub ? ?|sub ? e|sub e|]; cbn.
  - by eapply gives_throws, finish_gives.
  - apply gives_state, gives_when; [done|]. intros _. next; [by apply remove_quietly|]. eapply gives_throws, finish_gives; [done|light].
  - next; [by apply restore_wanted_gives|]. apply gives_when; [done|]. intros _. by apply restore_failed_gives.
  - case_bool_decide; [by apply gives_done|]. apply gives_state. destruct (subscriptions s !! sub) as [b|]; [|by apply gives_done]. apply gives_when; [done|]. intros _.
    next; [by apply migrating_gives|]. next; [by apply expire_route_gives|]. by eapply gives_throws, retry_migration_gives.
  - next; [by apply delegate_check_gives|]. eapply gives_throws, delegate_failed_gives; [done|light].
Qed.
End Deep.

Lemma gives_assoc {R b A B C} hand s (x : act A) (y : A -> act B) (k : B -> act C) Q : gives R b hand s ((x ≫= y) ≫= k) Q -> gives R b hand s (x ≫= fun a => y a ≫= k) Q.
Proof. unfold gives, mbind, act_bind. by destruct (x s) as [[a|] s1]. Qed.

(** Erasing the session and closing its connection. *)
Lemma forget_session_gives hand s c x : Inv hand s -> sessions s !! c = Some x ->
  gives calm false hand s (modify (fun s => with_sessions s (delete c (sessions s)));; front_close c) (fun _ s' => (weight s' < weight s)%nat).
Proof.
  intros H Hx. set (s' := with_log (with_front_closed (with_sessions s (delete c (sessions s))) ({[c]} ∪ front_closed (net s))) (log s ++ [o_front_closed c])).
  change (Inv hand s' /\ calm s s' /\ (weight s' < weight s)%nat). enough (Hs : (Inv hand s' /\ calm s s') /\ (weight s' < weight s)%nat) by tauto. split.
  - apply (shrink_inv hand); [done| |].
    + shrink; [apply covers_delete, _|]. intros c'. unfold known. cbn. intros [Hs|Hs]; [|set_solver]. destruct (decide (c' = c)) as [->|Hn]; [set_solver|]. left. by rewrite lookup_delete_ne.
    + apply (account_silent hand s _ (o_front_closed c)); [apply H|done..].
  - unfold weight. cbn. rewrite map_size_delete_Some by done. pose proof (map_size_ne_0_lookup_2 (sessions s) c ltac:(by exists x)). lia.
Qed.

Lemma revoke_body_gives n deep hand s c : deep_below n deep -> (weight s < S n)%nat -> Inv hand s -> calmly hand s (revoke_body env deep c).
Proof.
  intros Hdeep Hw H. apply gives_state. destruct (sessions s !! c) as [x|] eqn:Hx; [|by apply gives_done].
  apply gives_assoc. eapply gives_seq; [by eapply forget_session_gives|]. intros [] s1 H1 R1 Hw1. apply gives_state.
  next; [apply gives_each; [done|]; intros e s' _ H' R'; apply gives_when; [done|]; intros _; eapply finish_gives; [done|done|light]|].
  apply gives_state. next; [apply gives_each; [done|]; intros e s' _ H' R'; apply gives_when; [done|]; intros _; by apply remove_quietly|].
  apply gives_each; [done|]. intros e s' _ H' R'. next; [apply forget_gives; [done| |done..]; shrink; set_solver|]. apply Hdeep; [light|done].
Qed.

Lemma lost_call_gives hand s k x : Inv hand s -> calls (net s) !! k = Some x -> gives calm false hand s (modify (fun s => with_calls s (delete k (calls (net s))))) (fun _ s' => (weight s' < weight s)%nat).
Proof.
  intros H Hx. eapply gives_weaken; [apply shrink_gives; [done| |done..]; shrink; apply covers_delete, _|]. intros [] s' _ ->. unfold weight. cbn.
  rewrite map_size_delete_Some by done. pose proof (map_size_ne_0_lookup_2 (calls (net s)) k ltac:(by exists x)). lia.
Qed.

Lemma close_body_gives n deep hand s p : deep_below n deep -> (weight s < S n)%nat -> Inv hand s -> calmly hand s (close_body env deep p).
Proof.
  intros Hdeep Hw H. apply gives_state. case_bool_decide; [by apply gives_done|].
  next; [apply forget_gives; [done|shrink|done..]|]. next; [by apply note_gives|]. apply gives_state. apply gives_each; [done|]. intros e s' _ H' R'.
  apply gives_when; [done|]. intros _. apply gives_state. destruct (calls (net s') !! e.1) as [k|] eqn:Hk; [|by apply gives_done].
  eapply gives_seq; [by eapply lost_call_gives|]. intros [] s2 H2' R2' Hw2. apply gives_deliver. eapply call_failed_gives; [done|done|light|].
  destruct (call_then k); cbn; try done. by intros [?|?].
Qed.

Lemma nest_gives n : deep_below n (nest env n).
Proof.
  induction n as [|n IH]; intros hand s d Hw H; [lia|]. destruct d; cbn [nest]; [by eapply revoke_body_gives|by eapply close_body_gives].
Qed.

Lemma deep_gives hand s d : Inv hand s -> calmly hand s (deep env d).
Proof. intros H. apply gives_state. apply nest_gives; [unfold fuel, weight; lia|done]. Qed.
Lemma deep_any n : deep_below n (deep env).
Proof. intros hand s d _ H. by apply deep_gives. Qed.
Lemma revoke_gives hand s c : Inv hand s -> calmly hand s (revoke env c).
Proof. apply deep_gives. Qed.
Lemma back_close_gives hand s p : Inv hand s -> calmly hand s (back_close env p).
Proof. apply deep_gives. Qed.

Lemma finish_deep hand s r x : Inv hand s -> calmly hand s (finish env (deep env) r x).
Proof. intros H. eapply (finish_gives (S (weight s))); [apply deep_any|done|lia]. Qed.
Lemma finish_clears_deep hand s r x : Inv hand s -> r <= serial s -> gives calm false hand s (finish env (deep env) r x) (fun _ => no_request r).
Proof. intros H Hr. eapply (finish_clears (S (weight s))); [apply deep_any|done|done|lia]. Qed.
Lemma task_failed_deep hand s t i x : Inv hand s -> calmly hand s (task_failed env (deep env) t i x).
Proof. intros H. eapply (task_failed_gives (S (weight s))); [apply deep_any|done|lia]. Qed.
Lemma delegate_check_deep hand s p x : Inv hand s -> calmly hand s (delegate_check env (deep env) p x).
Proof. intros H. eapply (delegate_check_gives (S (weight s))); [apply deep_any|done|lia]. Qed.
Lemma delegate_failed_deep hand s p x : Inv hand s -> calmly hand s (delegate_failed env (deep env) p x).
Proof. intros H. eapply (delegate_failed_gives (S (weight s))); [apply deep_any|done|lia]. Qed.
Lemma call_failed_deep hand s p k x : Inv hand s -> (failing k x -> forall c, allowed c) -> gives calm true hand s (call_failed env (deep env) p k x) anything.
Proof. intros H Hf. eapply (call_failed_gives (S (weight s))); [apply deep_any|done|lia|done]. Qed.

Lemma calm_later s s' : calm s s' -> later s s'.
Proof. by intros [H _]. Qed.

Lemma gives_calmly {A} b hand s (m : act A) Q : gives calm b hand s m Q -> gives later b hand s m (fun a s' => calm s s' /\ Q a s').
Proof. unfold gives. destruct (m s) as [[a|e] s1]; intros (H1 & H2 & H3); split_and!; try done; by apply calm_later. Qed.

End Environment.
End Calm.
Arguments gives given base_told allowed R b hand {A} s m Q.

(** [next]: one action that does not throw, then the rest; [quiet]: one that adds nothing. *)
Ltac next := eapply gives_seq; [|intros ? ?s ?H ?R ?E].
Ltac quiet := eapply gives_seq; [eapply gives_calmly|intros ? ?s ?H ?R [?C ?E]].
