(* ===== verification/GatewayRuns.v ===== *)
(** * The client gateway: routing and links

    What adds calls, links, waiters, requests and subscriptions keeps the invariant. *)

From stdpp Require Import gmap.
From S2P Require Import Prelude MapSum Storage OrderedMap Identity Values AttributeWire Messages Fields TimerState DeliveryState Schema Records Programs Directory Transport Actions Gateway GatewayInv.

(** ** Additions *)

Ltac lasting := eauto using link_of_later, linked_later, sub_of_later, request_of_later, fits_later, cont_fits_later, awaits_later.

(** Everything that was there still fits; [s'] may add what it shows to fit. *)
Lemma links_later s s' :
  Links s -> later s s' ->
  (forall p l', objects s' !! p = Some l' -> (exists l, objects s !! p = Some l /\ link_rel l l' /\ p <= last_peer (net s')) \/
     p <= last_peer (net s') /\ known s' (lclient l') /\ (lready l' = true -> delegated s' p (lclient l')) /\ forall w, w ∈ lwaiters l' -> fits s' (lclient l') w.2) ->
  (forall k x' w, lookups s' !! k = Some x' -> w ∈ kwaiters x' -> (exists x, lookups s !! k = Some x /\ w ∈ kwaiters x) \/ awaits s' w.2) ->
  (forall c x', sessions s' !! c = Some x' -> (exists x, sessions s !! c = Some x /\ session_rel x x') \/
     (forall i p, session_links x' !! i = Some p -> link_of s' p c) /\ (session_controlled x' <> 0 -> sub_of s' (session_controlled x') c)) ->
  (forall id b', subscriptions s' !! id = Some b' -> (exists b, subscriptions s !! id = Some b /\ sub_rel b b') \/
     known s' (sclient b') /\ id <= serial s' /\ forall p, slink b' = Some p -> linked s' p (sclient b')) ->
  (forall r q', requests s' !! r = Some q' -> (exists q, requests s !! r = Some q /\ request_rel q q') \/
     known s' (rclient q') /\ r <= serial s' /\ forall x, sessions s' !! rclient q' = Some x -> session_subject x = rsubject q' /\ session_connection x = rconnection q') ->
  (forall p m id, reverse s' !! (p, m) = Some id -> reverse s !! (p, m) = Some id \/ exists c, link_of s' p c /\ sub_of s' id c) ->
  (forall k p x, calls (net s') !! k = Some (MkPending p x) -> calls (net s) !! k = Some (MkPending p x) \/ exists c, linked s' p c /\ cont_fits s' c x) ->
  (forall k, is_Some (calls (net s') !! k) -> k <= call_serial (net s')) ->
  (forall p, p ∈ links s' -> p ∈ links s \/ is_Some (objects s' !! p)) -> Links s'.
Proof.
  intros HL Ht Ho Hk Hs Hb Hq Hr Hp Hc Hl. constructor.
  - intros p l' Hl'. destruct (Ho p l' Hl') as [(l & Hl0 & (Ec & Er & Ew) & Hp')|?]; [|done]. destruct (i_objects _ HL p l Hl0) as (H1 & H2 & H3 & H4). rewrite Ec.
    split_and!; [done|by apply Ht|intros; eapply delegated_later; eauto|intros w Hw; eapply fits_later; eauto].
  - intros k x' w Hx' Hw. destruct (Hk k x' w Hx' Hw) as [(x & Hx & Hw')|?]; [|done]. eapply awaits_later; [done|]. by eapply (i_lookups _ HL).
  - intros c x' Hx'. destruct (Hs c x' Hx') as [(x & Hx & _ & _ & H1 & H2)|?]; [|done]. destruct (i_sessions _ HL c x Hx) as [H3 H4]. split; [intros; lasting|].
    intros Hn. rewrite (H2 Hn) in Hn |- *. lasting.
  - intros id b' Hb'. destruct (Hb id b' Hb') as [(b & Hb0 & -> & ->)|?]; [|done]. destruct (i_subs _ HL id b Hb0) as (H1 & H2 & H3). pose proof (l_serial _ _ Ht).
    split_and!; [by apply Ht|lia|intros; lasting].
  - intros r q' Hq'. destruct (Hq r q' Hq') as [(q & Hq0 & -> & -> & -> & _)|?]; [|done]. destruct (i_requests _ HL r q Hq0) as (H1 & H2 & H3). pose proof (l_serial _ _ Ht).
    split_and!; [by apply Ht|lia|]. intros x' Hx'. destruct (l_sessions _ _ Ht _ x' H1 Hx') as (x & Hx & -> & ->). by apply H3.
  - intros p m id Hid. destruct (Hr p m id Hid) as [H|?]; [|done]. destruct (i_reverse _ HL p m id H) as (c & ? & ?). exists c. split; lasting.
  - intros k p x Hx. destruct (Hp k p x Hx) as [H|?]; [|done]. destruct (i_pending _ HL k p x H) as (c & ? & ?). exists c. split; lasting.
  - done.
  - intros p Hp'. destruct (Hl p Hp') as [H|?]; [|done]. destruct (i_links _ HL p H) as [l Hl0]. destruct (l_objects _ _ Ht p l Hl0) as (l' & ? & _). by exists l'.
Qed.

(** What is unchanged is covered. *)
Ltac unchanged HL := try first
  [ match goal with Hl : objects _ !! ?p = Some ?l |- (exists _, _) \/ _ => left; exists l; split; [exact Hl|]; split; [reflexivity|]; exact (proj1 (i_objects _ HL _ _ Hl)) end
  | left; eexists; split; [eassumption|reflexivity] | left; eexists; split; [eassumption|eassumption] | by left | by apply (i_calls _ HL) | by eauto ].
Ltac grows HL := eapply (links_later _ _ HL); [|cbn; intros; unchanged HL..].

Section Runs.
Context (given base_told : list N) (allowed : N -> Prop) (env : Env).
Abbreviation Inv := (Inv given base_told allowed).
Abbreviation Account := (Account given base_told allowed).
Abbreviation gives := (GatewayInv.gives given base_told allowed).
Implicit Types (s : Gateway) (hand : list N).
Abbreviation calmly hand s m := (gives calm false hand s m anything).

(** ** Calls *)

Lemma call_accepted hand s p c route data t k :
  Inv hand s -> link_of s p c -> cont_fits s c k -> delegated (with_log s (log s ++ [o_called p route data t])) p c ->
  let s' := with_log (with_calls (with_call_serial s (call_serial (net s) + 1)) (<[call_serial (net s) + 1 := MkPending p k]> (calls (net s)))) (log s ++ [o_called p route data t]) in
  Inv hand s' /\ later s s'.
Proof.
  intros (HL & HB & HA) Hp Hk Hd s'. assert (Ht : later s s') by (constructor; cbn; eauto). split; [|done]. split_and!.
  - grows HL; [done| |].
    + destruct (decide (k0 = call_serial (net s) + 1)) as [->|Hn]; [rewrite lookup_insert_eq in H|rewrite lookup_insert_ne in H by done; by left].
      injection H as <- <-. right. exists c. split; [split; [by eapply link_of_later|exact Hd]|by eapply cont_fits_later].
    + destruct (decide (k0 = call_serial (net s) + 1)) as [->|Hn]; [done|]. rewrite lookup_insert_ne in H by done. pose proof (i_calls _ HL _ H). lia.
  - destruct HB. constructor; done.
  - by apply (account_silent hand s _ (o_called p route data t)).
Qed.

Lemma call_gives hand s p c route data t k :
  Inv hand s -> link_of s p c -> cont_fits s c k -> delegated (with_log s (log s ++ [o_called p route data t])) p c -> (forall x, failing k x -> forall c, allowed c) ->
  gives later false hand s (call env p route data t k) anything.
Proof.
  intros H Hp Hk Hd Ha. apply gives_state. destruct (if bool_decide _ then _ else _) as [x|].
  - apply gives_later. apply gives_deliver. apply call_failed_deep; [done|apply Ha].
  - destruct (call_accepted hand s p c route data t k H Hp Hk Hd) as [H1 R1]. by split; [|split].
Qed.

(** A call over a delegated link. *)
Lemma linked_call_gives hand s p c route data t k :
  Inv hand s -> linked s p c -> cont_fits s c k -> (forall x, failing k x -> forall c, allowed c) -> gives later false hand s (call env p route data t k) anything.
Proof.
  intros H [Hp Hd] Hk Ha. eapply call_gives; try done. intros x Hx. apply delegated_to_later. by apply Hd.
Qed.

(** ** Links *)

Lemma push_detach_gives hand s t d : Inv hand s -> calmly hand s (push_detach t d).
Proof. intros H. destruct t; cbn; first [apply on_request_gives; [by repeat split|done] | apply on_sub_gives; [by split|done]]. Qed.

Lemma waiter_emplace_in {A} id (a : A) l w : w ∈ waiter_emplace id a l -> w = (id, a) \/ w ∈ l.
Proof.
  induction l as [|[i b] l IH]; cbn; [rewrite list_elem_of_singleton; by left|]. destruct (id <? i); [by rewrite elem_of_cons|]. destruct (id =? i); [by right|].
  rewrite !elem_of_cons. intros [->|Hw]; [by right; left|]. destruct (IH Hw); auto.
Qed.

Lemma alter_same {A} (m : gmap N A) k f i x : alter f k m !! i = Some x -> exists y, m !! i = Some y /\ (i = k /\ x = f y \/ i <> k /\ x = y).
Proof.
  destruct (decide (i = k)) as [->|Hn]; [rewrite lookup_alter_eq|rewrite lookup_alter_ne by done]; [|by exists x; auto].
  intros (y & -> & Hy)%fmap_Some. exists y. auto.
Qed.

(** A link changed as its client allows. *)
Lemma relink hand s p f :
  Inv hand s -> (forall l, objects s !! p = Some l -> lclient (f l) = lclient l /\ (lready (f l) = true -> lready l = true \/ delegated s p (lclient l)) /\ forall w, w ∈ lwaiters (f l) -> w ∈ lwaiters l \/ fits s (lclient l) w.2) ->
  gives later false hand s (on_link p f) (fun _ s' => links s' = links s).
Proof.
  intros (HL & HB & HA) Hf. set (s' := with_objects s (alter f p (objects s))).
  assert (Ht : later s s').
  { constructor; cbn; eauto using grown_log. intros q l Hl. destruct (decide (q = p)) as [->|Hn]; [|exists l; by rewrite lookup_alter_ne by done].
    exists (f l). rewrite lookup_alter_eq, Hl. split; [done|]. by apply Hf. }
  split; [|by split]. split_and!.
  - grows HL; [done|]. apply alter_same in H as (l & Hl & [[-> ->]|[_ ->]]); [|left; exists l; split; [done|]; split; [done|]; apply (i_objects _ HL _ _ Hl)].
    right. destruct (i_objects _ HL p l Hl) as (H1 & H2 & H3 & H4), (Hf l Hl) as (E1 & E2 & E3). rewrite E1.
    split_and!; [done|done|intros [Hr|Hr]%E2; eauto|intros w [Hw|Hw]%E3; eauto].
  - destruct HB. by constructor.
  - by apply (account_same hand s).
Qed.

Lemma wait_link_gives hand s p l t : Inv hand s -> objects s !! p = Some l -> fits s (lclient l) t -> gives later false hand s (wait_link p t) anything.
Proof.
  intros H Hl Ht. unfold wait_link. next; [apply relink; [done|]|by apply gives_later, push_detach_gives]. intros l' Hl'. assert (l' = l) as -> by congruence.
  split_and!; [done|by left|]. intros w [->|Hw]%waiter_emplace_in; auto.
Qed.

(** The new link: its own number, its client and its first waiter. *)
Lemma new_link_gives hand s p c index t :
  Inv hand s -> known s c -> last_peer (net s) < p -> fits s c t ->
  gives later false hand s (modify (fun s => with_objects (with_last_peer s p) (<[p := MkLink c index false true [(task_owner t, t)]]> (objects s)))) (fun _ s' => links s' = links s /\ link_of s' p c).
Proof.
  intros (HL & HB & HA) Hk Hp Hf. set (s' := with_objects (with_last_peer s p) (<[p := MkLink c index false true [(task_owner t, t)]]> (objects s))). assert (Hnew : objects s !! p = None).
  { destruct (objects s !! p) as [l|] eqn:E; [|done]. destruct (i_objects _ HL p l E). lia. }
  assert (Ht : later s s').
  { constructor; cbn; eauto using grown_log. intros q l Hl. exists l. rewrite lookup_insert_ne by congruence. done. }
  split; [|split; [done|split; [done|]]]; [split_and!|].
  - grows HL; [done|]. destruct (decide (p0 = p)) as [->|Hn]; [rewrite lookup_insert_eq in H; injection H as <-; right|rewrite lookup_insert_ne in H by done; left].
    + cbn. split_and!; [done|done|done|]. intros w ->%list_elem_of_singleton. by eapply fits_later.
    + exists l'. destruct (i_objects _ HL p0 l' H). split_and!; [done|done|lia].
  - destruct HB. by constructor.
  - by apply (account_same hand s).
  - split; [done|]. eexists. cbn. rewrite lookup_insert_eq. done.
Qed.

(** A session's own link, or what it controls. *)
Lemma new_session_link hand s c f :
  Inv hand s -> (forall x, sessions s !! c = Some x -> session_subject (f x) = session_subject x /\ session_connection (f x) = session_connection x /\
    (forall i p, session_links (f x) !! i = Some p -> session_links x !! i = Some p \/ link_of s p c) /\
    (session_controlled (f x) <> 0 -> session_controlled (f x) = session_controlled x \/ sub_of s (session_controlled (f x)) c)) ->
  gives later false hand s (on_session c f) (fun _ s' => links s' = links s).
Proof.
  intros (HL & HB & HA) Hf. set (s' := with_sessions s (alter f c (sessions s))).
  assert (Ht : later s s').
  { constructor; cbn; eauto using grown_log; [intros c'; apply known_alter|]. intros c' x' _ (x & Hx & [[-> ->]|[_ ->]])%alter_same; exists x; [|done].
    destruct (Hf x Hx) as (? & ? & _). done. }
  split; [|by split]. split_and!.
  - grows HL; [done|]. apply alter_same in H as (x & Hx & [[-> ->]|[_ ->]]); [|left; by exists x]. right. destruct (i_sessions _ HL c x Hx) as [H1 H2], (Hf x Hx) as (_ & _ & E1 & E2). split.
    + intros i p [Hp|Hp]%E1; lasting.
    + intros Hn. destruct (E2 Hn) as [Ec|Hc]; [rewrite Ec in Hn |- *|]; lasting.
  - destruct HB. constructor; try done. cbn. by rewrite <- size_dom, dom_alter_L, size_dom.
  - by apply (account_same hand s).
Qed.

Lemma add_link_gives hand s p c : Inv hand s -> link_of s p c -> N.of_nat (base.size (links s)) < max_links (limits s) ->
  gives later false hand s (modify (fun s => with_links s ({[p]} ∪ links s))) anything.
Proof.
  intros (HL & HB & HA) (_ & l & Hl & _) Hn. set (s' := with_links s ({[p]} ∪ links s)). assert (Ht : later s s') by (constructor; cbn; eauto using grown_log). split; [|done]. split_and!.
  - grows HL; [done|]. apply elem_of_union in H as [->%elem_of_singleton|H]; eauto.
  - destruct HB as [? HB ? ? ? ?]. constructor; try done. cbn. pose proof (size_union_alt {[p]} (links s)). rewrite size_singleton in H.
    pose proof (subseteq_size (links s ∖ {[p]}) (links s) ltac:(set_solver)). lia.
  - by apply (account_same hand s).
Qed.

(** ** Routing *)

(** A lookup changed as its waiters allow. *)
Lemma relookup hand s (g : gmap bytes Lookup -> gmap bytes Lookup) :
  Inv hand s -> (forall k x w, g (lookups s) !! k = Some x -> w ∈ kwaiters x -> (exists y, lookups s !! k = Some y /\ w ∈ kwaiters y) \/ awaits s w.2) ->
  gives later false hand s (modify (fun s => with_lookups s (g (lookups s)))) anything.
Proof.
  intros (HL & HB & HA) Hg. set (s' := with_lookups s (g (lookups s))). assert (Ht : later s s') by (constructor; cbn; eauto using grown_log). split; [|done]. split_and!.
  - by grows HL.
  - destruct HB. by constructor.
  - by apply (account_same hand s).
Qed.

Lemma wait_lookup_gives hand s key a : Inv hand s -> awaits s a -> gives later false hand s (wait_lookup key a) anything.
Proof.
  intros H Ha. unfold wait_lookup. next; [|by apply gives_later, push_detach_gives]. apply (relookup hand s (alter _ key)); [done|]. intros k x w Hx Hw. destruct (decide (k = key)) as [->|Hn].
  - rewrite lookup_alter_eq in Hx. apply fmap_Some in Hx as (y & Hy & ->). cbn in Hw. apply waiter_emplace_in in Hw as [->|Hw]; eauto.
  - rewrite lookup_alter_ne in Hx by done. eauto.
Qed.

Section Any.
Context (Hall : forall c, allowed c).

Lemma any_failing k x : failing k x -> forall c, allowed c.
Proof. intros _. apply Hall. Qed.

Lemma remove_any hand s id x b : Inv hand s -> gives calm true hand s (remove env id x b) anything.
Proof. intros H. destruct b; [eapply gives_throws, remove_gives; auto|]. by eapply gives_throws, remove_quietly. Qed.

Lemma task_linked_gives hand s p c t : Inv hand s -> linked s p c -> fits s c t -> gives later true hand s (task_linked env p t) anything.
Proof.
  intros H Hp Ht. unfold task_linked. apply gives_state. destruct t as [r|r ? ?|r sub ? ?|sub]; cbn in Ht.
  - destruct (requests s !! r) as [q|]; [|by apply gives_done]. quiet; [by apply count_gives|].
    eapply gives_throws, linked_call_gives; [done|by eapply linked_later|by eapply request_of_later|done].
  - destruct (requests s !! r) as [q|]; [|by apply gives_done]. by eapply gives_throws, linked_call_gives.
  - destruct (requests s !! r) as [q|]; [|by apply gives_done]. by eapply gives_throws, linked_call_gives.
  - destruct (subscriptions s !! sub) as [b|]; [|by apply gives_done]. quiet; [by apply detach_waiters_gives|].
    eapply gives_bind; [by apply (gives_lift _ _ _ anything)|]. intros input s' H' R' _.
    assert (Hl : linked s' p c) by (eapply linked_later; [done|]; by eapply linked_later). assert (Hf : sub_of s' sub c) by (eapply sub_of_later; [done|]; by eapply sub_of_later).
    destruct (sautomatic b); (eapply gives_throws, linked_call_gives; [done|done|done|intros x _; apply Hall]).
Qed.

Lemma delegate_replied_gives hand s p c x : Inv hand s -> linked s p c -> gives later true hand s (delegate_replied env p x) anything.
Proof.
  intros H Hp. unfold delegate_replied. quiet; [by apply delegate_check_deep|]. assert (Hp1 : linked s0 p c) by by eapply linked_later.
  destruct (is_ok_status a); [|by eapply gives_throws, gives_later, delegate_failed_deep]. apply gives_state. destruct (objects s0 !! p) as [l|] eqn:Hl; [|by apply gives_done].
  assert (lclient l = c) as Hc by (destruct Hp1 as [(_ & l' & Hl' & <-) _]; congruence).
  next; [apply relink; [done|]; intros l' Hl'; assert (l' = l) as -> by congruence; split_and!; [done|right; rewrite Hc; apply Hp1|by intros w ?%elem_of_nil]|].
  apply gives_each; [done|]. intros w s2 Hw H2 R2. assert (later s0 s2) by by etrans.
  apply task_linked_gives with c; [done|by eapply linked_later|]. rewrite <- Hc. eapply fits_later; [done|]. destruct H0 as (HL & _). by apply (i_objects _ HL p l Hl).
Qed.

Lemma open_link_gives hand s c x index e t :
  Inv hand s -> sessions s !! c = Some x -> fits s c t -> N.of_nat (base.size (links s)) < max_links (limits s) -> gives later true hand s (open_link env c x index e t) anything.
Proof.
  intros H Hx Ht Hn. unfold open_link. apply gives_state. destruct (e_connect env (log s) e) as [others|]; [|by eapply gives_throws, gives_later, task_failed_deep].
  set (p := last_peer (net s) + 1 + others). assert (Hk : known s c) by (left; by exists x).
  next; [apply new_link_gives; [done|done|lia|done]|]. destruct E as [E1 Hp].
  quiet; [by apply push_detach_gives|]. quiet; [by apply note_gives|]. assert (Hp2 : link_of s2 p c) by (eapply link_of_later; [|exact Hp]; by etrans).
  next; [apply new_session_link; [done|]; intros y Hy; split_and!; [done|done| |by left]; cbn; intros i q|].
  { destruct (decide (i = index)) as [->|Hi]; [rewrite lookup_insert_eq; intros [= <-]; by right|rewrite lookup_insert_ne by done; by left]. }
  assert (Hlater : later s s3) by (etrans; [done|]; etrans; [done|]; by etrans).
  pose proof (link_of_later _ _ _ _ R2 Hp2) as Hp3. cbn in E2.
  next; [eapply add_link_gives; [done|exact Hp3|]|].
  { rewrite E2, (l_limits _ _ Hlater). destruct C as (_ & _ & _ & C), C0 as (_ & _ & _ & C0). apply subseteq_size in C, C0. rewrite E1 in C. lia. }
  pose proof (link_of_later _ _ _ _ R3 Hp3) as Hp4. apply gives_state. destruct (delegation (session_subject x) (session_connection x)) as [payload|] eqn:Hd.
  - eapply gives_throws, call_gives; [done|exact Hp4|done| |done]. intros y Hy. assert (Hl : later s s4) by by etrans.
    destruct (l_sessions _ _ Hl c y Hk Hy) as (x' & Hx' & -> & ->). assert (x' = x) as -> by congruence. exists payload. eexists. split; [done|]. cbn. apply elem_of_app. right. by apply list_elem_of_singleton.
  - destruct (objects s4 !! p) as [l|]; [|by apply gives_done]. quiet; [apply on_link_gives; [|done]; intros y _; apply closed_link_rel; by intros w ?%elem_of_nil|].
    eapply gives_throws, gives_each; [done|]. intros w s' _ H' _. by apply gives_later, task_failed_deep.
Qed.

Lemma acquire_gives hand s c index t : Inv hand s -> fits s c t -> gives later true hand s (acquire env c index t) anything.
Proof.
  intros H Ht. unfold acquire. apply gives_state. destruct (sessions s !! c) as [x|] eqn:Hx; [|by eapply gives_throws, gives_later, task_failed_deep].
  destruct (authenticated env c _ s); [|quiet; [by apply revoke_gives|by eapply gives_throws, gives_later, task_failed_deep]]. cbv zeta.
  set (fresh := if _ <=? _ then _ else _). assert (Hfresh : gives later true hand s fresh anything).
  { subst fresh. destruct (N.leb_spec (max_links (limits s)) (N.of_nat (base.size (links s)))); [by eapply gives_throws, gives_later, task_failed_deep|].
    destruct (endpoints s !! index); [by apply open_link_gives|by apply gives_raise]. }
  clearbody fresh. destruct (session_links x !! index) as [p|] eqn:Hp; [|done]. destruct (objects s !! p) as [l|] eqn:Hl; [|done]. destruct H as (HL & HB & HA).
  destruct (proj1 (i_sessions _ HL c x Hx) index p Hp) as (Hk & l' & Hl' & Hc). assert (l' = l) as -> by congruence.
  destruct (lready l && connected env p s) eqn:Hr; [|destruct (lopening l); [|done]].
  - apply andb_true_iff in Hr as [Hr _]. apply task_linked_gives with c; [done| |done]. split; [split; [done|by exists l]|]. rewrite <- Hc. by apply (i_objects _ HL p l Hl).
  - eapply gives_throws, wait_link_gives; [done|exact Hl|by rewrite Hc].
Qed.
Lemma finish_anyway hand s r x : Inv hand s -> gives later true hand s (finish env (deep env) r x) anything.
Proof. intros H. by eapply gives_throws, gives_later, finish_deep. Qed.

Lemma request_fits s c t r q : fits s c t -> task_owner t = r -> (match t with t_refresh _ => False | _ => True end) -> requests s !! r = Some q -> rclient q = c.
Proof. intros Ht <- Hr Hq. destruct t as [r|r ? ?|r sub ? ?|sub]; cbn in *; [apply Ht, Hq|apply Ht, Hq|apply (proj1 Ht), Hq|done]. Qed.

Lemma task_selected_gives hand s c t x index exist : Inv hand s -> fits s c t -> gives later true hand s (task_selected env t x index exist) anything.
Proof.
  intros H Ht. unfold task_selected. apply gives_state. destruct t as [r|r type id|r sub type id|sub].
  - destruct (requests s !! r) as [q|] eqn:Hq; [|by apply gives_done]. assert (rclient q = c) as -> by by eapply request_fits.
    destruct (is_ok_status x); [|by apply finish_anyway]. destruct index as [i|]; [|by apply finish_anyway]. destruct (parse_entity_call_view (rdata q)); [|by apply finish_anyway].
    destruct (exposed s !! rresolved q); [|by apply finish_anyway]. destruct (_ || _); [by apply finish_anyway|by apply acquire_gives].
  - destruct (requests s !! r) as [q|] eqn:Hq; [|by apply gives_done]. assert (rclient q = c) as -> by by eapply request_fits.
    destruct (_ || _); [eapply gives_throws, gives_later, on_request_gives; [by repeat split|done]|]. destruct (is_ok_status x); [|by apply finish_anyway]. destruct index as [i|]; [by apply acquire_gives|by apply finish_anyway].
  - destruct (requests s !! r) as [q|] eqn:Hq; [|by apply gives_done]. assert (rclient q = c) as -> by by eapply request_fits.
    assert (Hend : gives later true hand s (remove env sub x false;; finish env (deep env) r (failed_with x)) anything) by (quiet; [by apply remove_quietly|by apply finish_anyway]).
    destruct (is_ok_status x); [|done]. destruct index as [i|]; [by apply acquire_gives|done].
  - destruct (subscriptions s !! sub) as [b|] eqn:Hb; [|by apply gives_done]. assert (sclient b = c) as -> by by apply Ht. quiet; [by apply detach_waiters_gives|].
    destruct (_ && _ && _); [quiet; [apply on_sub_gives; [by split|done]|]; by apply gives_later, remove_any|].
    assert (Hend : gives later true hand s0 (on_sub sub (sub_busy false);; migrating env sub false;; retry_migration env sub) anything).
    { quiet; [apply on_sub_gives; [by split|done]|]. quiet; [by apply migrating_gives|]. by eapply gives_throws, gives_later, retry_migration_gives. }
    destruct (is_ok_status x); [|done]. destruct index as [i|]; [|done]. apply gives_state. destruct (_ && _ && _); [eapply gives_throws, gives_later, on_sub_gives; [by split|done]|].
    quiet; [by apply migrating_gives|]. quiet; [apply on_sub_gives; [intros y; by destruct (bool_decide _)|done]|]. apply acquire_gives; [done|]. eapply (fits_later s); [|done]. etrans; [done|]. by etrans.
Qed.

Lemma located_gives hand s a x l : Inv hand s -> awaits s a -> gives later true hand s (located env a x l) anything.
Proof.
  intros H Ha. unfold located. apply gives_state. destruct (stopped s); [by eapply task_selected_gives|]. destruct (negb (is_ok_status x)); [by eapply task_selected_gives|].
  destruct l as [l|]; [|by eapply task_selected_gives]. destruct (_ && _); [by eapply task_selected_gives|].
  quiet; [destruct (atask a); first [by apply gives_done|apply on_request_gives; [by repeat split|done]]|]. apply gives_state. cbv zeta. eapply task_selected_gives; [done|]. by eapply fits_later.
Qed.

Lemma complete_gives hand s key x : Inv hand s -> gives later true hand s (complete env key x) anything.
Proof.
  intros H. unfold complete. apply gives_state. destruct (lookups s !! key) as [k|] eqn:Hk; [|by apply gives_done]. destruct (negb (kbusy k)); [by apply gives_done|].
  assert (Hrun : forall f y l, (forall z, kwaiters (f z) = []) -> gives later true hand s (on_lookup key f;; for_each (fun w => located env w.2 y l) (kwaiters k)) anything).
  { intros f y l Hf. quiet; [apply on_lookup_gives; [|done]; intros z _ w; rewrite Hf; by intros ?%elem_of_nil|]. apply gives_each; [done|]. intros w s1 Hw H1 R1.
    apply located_gives; [done|]. eapply (awaits_later s); [by etrans|]. destruct H as (HL & _). by eapply (i_lookups _ HL). }
  destruct (stopped s); [by apply Hrun|]. destruct x; by apply Hrun.
Qed.

Lemma select_gives hand s type entity c failed t : Inv hand s -> fits s c t -> gives later true hand s (select env type entity c failed t) anything.
Proof.
  intros H Ht. unfold select. destruct (negb (valid_entity_id entity)); [by eapply task_selected_gives|]. apply gives_state. cbv zeta.
  set (a := MkAwait t type entity c failed). set (submit := when _ _;; _).
  assert (Hsubmit : gives later true hand s submit anything).
  { subst submit. quiet; [apply gives_when; [done|]; intros _; apply forget_gives; [done| |done..]; constructor; cbn; try first [done | split; lia | apply covers_same; apply _ | apply grown_log]; apply covers_filter, _|].
    apply gives_state. destruct (_ && _); [apply located_gives; [done|]; by eapply awaits_later|].
    next; [apply (relookup hand s0 (insert (lookup_key entity) _)); [done|]|].
    { intros k y w Hy Hw. destruct (decide (k = lookup_key entity)) as [->|Hn]; [|rewrite lookup_insert_ne in Hy by done; eauto].
      rewrite lookup_insert_eq in Hy. injection Hy as <-. apply list_elem_of_singleton in Hw as ->. right. by eapply awaits_later. }
    quiet; [by apply push_detach_gives|]. apply gives_state. destruct (e_accept env _); [by eapply gives_throws, gives_later, note_gives|by apply complete_gives]. }
  clearbody submit. destruct (lookups s !! lookup_key entity) as [k|]; [|done]. destruct (_ && _ && _); [by apply located_gives|]. destruct (kbusy k); [|done].
  by eapply gives_throws, wait_lookup_gives.
Qed.

Lemma refresh_gives hand s id : Inv hand s -> gives later true hand s (refresh env id) anything.
Proof.
  intros H. unfold refresh. apply gives_state. destruct (subscriptions s !! id) as [b|] eqn:Hb; [|by apply gives_done]. destruct (sbusy b); [by apply gives_done|].
  quiet; [by apply detach_waiters_gives|]. quiet; [apply on_sub_gives; [by split|done]|]. apply select_gives; [done|]. eapply (sub_of_later s); [by etrans|].
  destruct H as (HL & _). split; [by apply (i_subs _ HL id b)|]. intros y Hy. congruence.
Qed.

End Any.

End Runs.

(** * The client gateway: serving clients and owners

    Every entry point keeps the invariant; a notification of an owner reaches only the client
    of the link it came over. *)

Section Serve.
Context (given base_told : list N) (allowed : N -> Prop) (env : Env).
Abbreviation Inv := (Inv given base_told allowed).
Abbreviation Account := (Account given base_told allowed).
Abbreviation gives := (GatewayInv.gives given base_told allowed).
Implicit Types (s : Gateway) (hand : list N).
Abbreviation calmly hand s m := (gives calm false hand s m anything).

Definition fresh_id s : N := serial s + 1.
Lemma next_id_value s : serial s < u64_max -> wrap64 (serial s + 1) = fresh_id s.
Proof. intros H. unfold wrap64, fresh_id. apply N.mod_small. unfold u64_max in H. lia. Qed.

(** A new identity and what is entered under it are one step. *)
Lemma gives_fresh {A} b hand s (f : N -> Gateway -> Gateway) (k : N -> act A) Q :
  serial s < u64_max -> later s (f (fresh_id s) (with_serial s (fresh_id s))) -> gives later b hand (f (fresh_id s) (with_serial s (fresh_id s))) (k (fresh_id s)) Q ->
  gives later b hand s (id ← next_id; modify (f id);; k id) Q.
Proof.
  intros Hs Ht H. unfold GatewayInv.gives, next_id, mbind, act_bind, state, modify, mret, act_ret in *. rewrite (next_id_value s Hs). cbv beta zeta iota.
  destruct (k (fresh_id s) _) as [[a|e] s']; destruct H as (? & ? & ?); split_and!; eauto; by etrans.
Qed.

(** ** New sessions, requests and subscriptions *)

Lemma new_session hand s c subject connection :
  Inv hand s -> ~ known s c -> N.of_nat (base.size (sessions s)) < max_clients (limits s) ->
  gives later false hand s (modify (fun s => with_sessions s (<[c := MkSession subject ∅ 0 connection]> (sessions s))))
    (fun _ s' => s' = with_sessions s (<[c := MkSession subject ∅ 0 connection]> (sessions s))).
Proof.
  intros (HL & HB & HA) Hk Hn. set (s' := with_sessions s _). assert (Hnone : sessions s !! c = None) by (destruct (sessions s !! c) eqn:E; [|done]; destruct Hk; left; by eexists).
  assert (Ht : later s s').
  { constructor; cbn; eauto using grown_log.
    - intros d [Hd|Hd]; [left|by right]. cbn. rewrite lookup_insert_ne; [done|]. intros ->. destruct Hk. by left.
    - intros d x' Hd. rewrite lookup_insert_ne by (intros ->; done). intros Hx. by exists x'. }
  split; [|by split]. split_and!.
  - grows HL; [done|]. destruct (decide (c0 = c)) as [->|Hc]; [rewrite lookup_insert_eq in H; injection H as <-; right|rewrite lookup_insert_ne in H by done; left; by exists x'].
    cbn. split; [|done]. intros i p Hp. by rewrite lookup_empty in Hp.
  - destruct HB. constructor; try done. cbn. rewrite map_size_insert_None by done. lia.
  - by apply (account_same hand s).
Qed.

Lemma new_request hand s q :
  Inv (rreply q :: hand) s -> known s (rclient q) -> (forall x, sessions s !! rclient q = Some x -> session_subject x = rsubject q /\ session_connection x = rconnection q) ->
  N.of_nat (base.size (requests s)) < max_requests (limits s) -> queued_bytes (counters s) + rbytes q <= max_bytes (limits s) ->
  let s' := with_counters (with_requests (with_serial s (fresh_id s)) (<[fresh_id s := q]> (requests s))) (count_bytes (queued_bytes (counters s) + rbytes q) (counters s)) in
  Inv hand s' /\ later s s'.
Proof.
  intros (HL & HB & HA) Hk Hx Hn Hbytes s'. assert (Hnone : requests s !! fresh_id s = None).
  { destruct (requests s !! fresh_id s) as [x|] eqn:E; [|done]. destruct (i_requests _ HL _ _ E) as (_ & H & _). unfold fresh_id in H. lia. }
  assert (Ht : later s s').
  { constructor; cbn; eauto using grown_log; [unfold fresh_id; lia|]. intros r q' Hq' Hr. rewrite lookup_insert_ne in Hq' by (unfold fresh_id; lia). by exists q'. }
  split; [|done]. destruct HA as [A1 A2 A3 A4]. split_and!.
  - grows HL; [done|]. destruct (decide (r = fresh_id s)) as [->|Hr]; [rewrite lookup_insert_eq in H; injection H as <-; right|rewrite lookup_insert_ne in H by done; left; by exists q'].
    cbn. done.
  - destruct HB. constructor; try done; cbn; [rewrite map_size_insert_None by done; lia|]. rewrite msum_insert by done. lia.
  - constructor; cbn; try done; [|rewrite msum_insert by done; lia]. rewrite <- A1, mnames_insert by done. apply Permutation_app_head. cbn. apply Permutation_middle.
Qed.

Lemma new_sub hand s b l :
  Inv hand s -> known s (sclient b) -> slink b = None -> N.of_nat (base.size (subscriptions s)) < max_subscriptions (limits s) -> client_subscriptions (sclient b) s < per_client (limits s) ->
  let s' := with_schedule (with_subscriptions (with_serial s (fresh_id s)) (<[fresh_id s := b]> (subscriptions s))) l in
  Inv hand s' /\ later s s' /\ sub_of s' (fresh_id s) (sclient b).
Proof.
  intros (HL & HB & HA) Hk Hl Hn Hc s'. assert (Hnone : subscriptions s !! fresh_id s = None).
  { destruct (subscriptions s !! fresh_id s) as [x|] eqn:E; [|done]. destruct (i_subs _ HL _ _ E) as (_ & H & _). unfold fresh_id in H. lia. }
  assert (Ht : later s s').
  { constructor; cbn; eauto using grown_log; [unfold fresh_id; lia|]. intros r q' Hq' Hr. rewrite lookup_insert_ne in Hq' by (unfold fresh_id; lia). by exists q'. }
  split; [|split; [done|]]; [split_and!|].
  - grows HL; [done|]. destruct (decide (id = fresh_id s)) as [->|Hr]; [rewrite lookup_insert_eq in H; injection H as <-; right|rewrite lookup_insert_ne in H by done; left; by exists b'].
    cbn. split_and!; [done|done|]. congruence.
  - destruct HB. constructor; try done; cbn; [rewrite map_size_insert_None by done; lia|]. intros c. unfold client_subscriptions in *. cbn.
    destruct (decide (sclient b = c)) as [<-|Hne].
    + rewrite map_filter_insert_True by done. rewrite map_size_insert_None; [lia|]. apply map_lookup_filter_None. by left.
    + rewrite map_filter_insert_False by done. rewrite delete_id by done. apply b_share.
  - by apply (account_same hand s).
  - split; [done|]. cbn. intros x. rewrite lookup_insert_eq. by intros [= <-].
Qed.
(** ** Requests of the clients *)

Lemma answer_status_gives hand s n x : Inv (n :: hand) s -> gives later false hand s (answer n x) anything.
Proof. intros H. by apply gives_later, answer_gives. Qed.

(** An accepted request is the client's, whose session is there. *)
Definition accepted s c (o : option N) s' : Prop :=
  match o with None => True | Some r => request_of s' r c /\ known s' c /\ serial s' < u64_max /\ subscriptions s' = subscriptions s end.

Lemma refuse_gives hand s0 s n x c : Inv (n :: hand) s -> gives later false hand s (answer n x;; mret None) (accepted s0 c).
Proof. intros H. next; [by apply answer_status_gives|]. by apply gives_ret. Qed.

Lemma current_unknown s c subject connection : sessions s !! c = None -> current env c subject connection s = true -> ~ known s c.
Proof.
  intros Hn Hc [[x Hx]|[Hf|Hs]]; [congruence| |].
  - unfold current, identity in Hc. rewrite bool_decide_eq_true_2 in Hc by done. done.
  - unfold current in Hc. destruct (identity env c s); [|done]. by rewrite Hs in Hc.
Qed.

Lemma accept_gives hand s0 s who data n t :
  let c := Schema.peer who in
  Inv (n :: hand) s -> subscriptions s = subscriptions s0 -> (exists x, sessions s !! c = Some x /\ session_subject x = Schema.subject who /\ session_connection x = Schema.connection who) ->
  N.of_nat (base.size (requests s)) < max_requests (limits s) -> queued_bytes (counters s) + size data <= max_bytes (limits s) -> serial s < u64_max - 1 ->
  gives later false hand s
    (id ← next_id;
     let q := MkRequest c (Schema.subject who) data n t (size data) None [] 0 None [] (Schema.connection who) in
     modify (fun s => with_counters (with_requests s (<[id := q]> (requests s))) (count_bytes (queued_bytes (counters s) + size data) (counters s)));; mret (Some id)) (accepted s0 c).
Proof.
  intros c H Hsub (x & Hx & E1 & E2) Hn Hb Hs. cbv zeta. set (q := MkRequest _ _ _ _ _ _ _ _ _ _ _ _).
  destruct (new_request hand s q) as [H1 R1]; [done|left; by exists x|cbn; intros y Hy; by replace y with x by congruence|done|done|].
  eapply (gives_fresh _ _ _ (fun id s => with_counters (with_requests s (<[id := q]> (requests s))) (count_bytes (queued_bytes (counters s) + size data) (counters s)))); [lia|done|].
  apply gives_ret; [done|]. split_and!; [|left; by exists x|cbn; unfold fresh_id; lia|done]. split; [done|]. cbn. intros y. rewrite lookup_insert_eq. by intros [= <-].
Qed.

Lemma request_gives hand s who data n : Inv (n :: hand) s -> gives later false hand s (request env who data n) (accepted s (Schema.peer who)).
Proof.
  intros H. unfold request. apply gives_state. cbv zeta. destruct (stopped s); [by apply refuse_gives|]. destruct (draining s); [by apply refuse_gives|].
  destruct (negb (live who) || _) eqn:Hlive; [quiet; [by apply revoke_gives|by apply refuse_gives]|]. destruct (_ || _ || _) eqn:Hlim; [by apply refuse_gives|].
  apply orb_false_iff in Hlive as [_ Hcur%negb_false_iff]. bool_prop. destruct Hlim as [[L1 L2] L3].
  assert (Hb : queued_bytes (counters s) + size data <= max_bytes (limits s)).
  { destruct H as (_ & HB & HA). pose proof (b_bytes _ HB). pose proof (a_bytes _ _ _ _ _ HA). lia. }
  destruct (sessions s !! Schema.peer who) as [x|] eqn:Hx.
  - destruct (_ || _) eqn:E; [quiet; [by apply revoke_gives|by apply refuse_gives]|]. bool_prop. destruct E as [E1%bytes_eqb_eq E2%bool_decide_eq_true].
    apply accept_gives; eauto; lia.
  - destruct (N.leb_spec (max_clients (limits s)) (N.of_nat (base.size (sessions s)))) as [|Hn]; [by apply refuse_gives|].
    next; [apply new_session; [done|by eapply current_unknown|done]|]. cbn in E. subst s0. apply accept_gives; cbn; eauto; try lia. eexists. rewrite lookup_insert_eq. done.
Qed.

Section Any.
Context (Hall : forall c, allowed c).

Lemma served_gives hand s who data n (k : N -> act unit) :
  Inv (n :: hand) s -> (forall r s', Inv hand s' -> later s s' -> accepted s (Schema.peer who) (Some r) s' -> gives later true hand s' (k r) anything) ->
  gives later true hand s (r ← request env who data n; match r with None => done | Some r => k r end) anything.
Proof.
  intros H Hk. next; [by apply request_gives|]. destruct a as [r|]; [by apply Hk|by apply gives_done].
Qed.

Lemma routed_gives hand s who input n : Inv (n :: hand) s -> gives later true hand s (routed env who input n) anything.
Proof.
  intros H. unfold routed. destruct (parse_entity_call_view input); [|by eapply gives_throws, answer_status_gives]. apply served_gives; [done|]. intros r s' H' _ (Hr & _).
  by apply select_gives.
Qed.

Lemma present_attempt_gives hand s type id r c : Inv hand s -> request_of s r c -> gives later true hand s (present_attempt env type id r) anything.
Proof. intros H Hr. apply gives_state. destruct (requests s !! r) as [q|] eqn:Hq; [|by apply gives_done]. apply select_gives; [done|done|]. cbn. by rewrite (proj2 Hr q Hq). Qed.

Lemma present_gives hand s p input n : Inv (n :: hand) s -> gives later true hand s (present env p input n) anything.
Proof.
  intros H. unfold present. apply gives_state. assert (Hno : forall x, gives later true hand s (answer n x) anything) by (intros x; by eapply gives_throws, answer_status_gives).
  destruct (objects s !! p) as [l|]; [|done]. destruct (_ || _); [done|]. destruct (identity env (lclient l) s); [|done]. destruct (negb _); [done|]. destruct (decode_action input) as [[[type id] y]|]; [|done].
  destruct (negb _); [done|]. apply served_gives; [done|]. intros r s' H' _ (Hr & _). by eapply present_attempt_gives.
Qed.

Lemma watch_gives hand s who input n : Inv (n :: hand) s -> gives later true hand s (watch env who input n) anything.
Proof.
  intros H. unfold watch. assert (Hno : forall x, gives later true hand s (answer n x) anything) by (intros x; by eapply gives_throws, answer_status_gives).
  destruct (decode_entity_key input) as [[[type entity] rest]|]; [|done]. destruct (_ || _); [done|]. apply gives_state. destruct (_ || _) eqn:Hlim; [done|]. bool_prop. destruct Hlim as [L1 L2].
  apply served_gives; [done|]. intros r s' H' R' (Hr & Hk & Hs & Hsub). set (b := MkSub (Schema.peer who) 0 0 0 type entity None false false false false true ∅ 0 0 []).
  destruct (new_sub hand s' b (schedule s' ++ [fresh_id s'])) as (H2 & R2 & Hb); [done|done|done|rewrite Hsub, (l_limits _ _ R'); lia|unfold client_subscriptions in *; rewrite Hsub, (l_limits _ _ R'); cbn; lia|].
  eapply (gives_fresh _ _ _ (fun sub s => with_schedule (with_subscriptions s (<[sub := b]> (subscriptions s))) (schedule s ++ [sub])) (fun sub => on_request r (req_cancel (Some sub));; select env type entity (Schema.peer who) ∅ (t_watch r sub type entity))); [done|done|].
  quiet; [apply on_request_gives; [by repeat split|done]|]. apply select_gives; [done|done|]. split; [eapply request_of_later; [|exact Hr]; by etrans|by eapply sub_of_later].
Qed.

Lemma control_gives hand s who route input n : Inv (n :: hand) s -> gives later true hand s (control env who route input n) anything.
Proof.
  intros H. unfold control. cbv zeta. assert (Hno : forall s x, Inv (n :: hand) s -> gives later true hand s (answer n x) anything) by (intros ? x ?; by eapply gives_throws, answer_status_gives).
  destruct (get_be invalid_argument 8 input) as [[id rest]|]; [|by apply Hno]. destruct (_ && _); [by apply Hno|]. apply gives_state. destruct (subscriptions s !! id) as [b|] eqn:Hb; [|by apply Hno].
  destruct (negb (sclient b =? Schema.peer who) || _ || _ || _) eqn:Hauth; [quiet; [by apply revoke_gives|by apply Hno]|]. bool_prop. destruct Hauth as [[[Hc _] _] _].
  destruct (bytes_eqb route route_unwatch); [quiet; [by apply remove_quietly|by apply Hno]|]. destruct (slink b) as [p|] eqn:Hp; [|quiet; [by apply migrating_gives|by apply Hno]].
  destruct (_ || _); [quiet; [by apply migrating_gives|by apply Hno]|].
  next; [by apply request_gives|]. apply gives_state. destruct a as [r|]; [|by apply gives_done]. destruct (requests s0 !! r) as [q|] eqn:Hq; [|by apply gives_done].
  quiet; [by apply count_gives|]. eapply gives_throws, linked_call_gives; [done| | |done].
  - eapply (linked_later s); [by etrans|]. destruct H as (HL & _). by apply (i_subs _ HL id b Hb).
  - rewrite Hc. eapply request_of_later; [done|apply E].
Qed.
End Any.

(** ** Notifications of the owners *)

Lemma relinked_sub hand s id p c f :
  Inv hand s -> linked s p c -> sub_of s id c -> (forall b, sclient (f b) = sclient b /\ slink (f b) = Some p) -> gives later false hand s (on_sub id f) anything.
Proof.
  intros (HL & HB & HA) Hp Hid Hf. set (s' := with_subscriptions s (alter f id (subscriptions s))).
  assert (Ht : later s s').
  { constructor; cbn; eauto using grown_log. intros i b' (b & Hb & [[-> ->]|[_ ->]])%alter_same _; exists b; [|done]. split; [done|]. apply Hf. }
  split; [|done]. split_and!.
  - grows HL; [done|]. apply alter_same in H as (b & Hb & [[-> ->]|[_ ->]]); [right|left; by exists b]. destruct (i_subs _ HL id b Hb) as (H1 & H2 & _), (Hf b) as [E1 E2]. rewrite E1, E2.
    split_and!; [done|done|]. intros q [= <-]. rewrite (proj2 Hid b Hb). by eapply linked_later.
  - destruct HB as [? ? Hn Hc ? ?]. constructor; try done; cbn; [by rewrite <- size_dom, dom_alter_L, size_dom|]. intros d. etrans; [|apply (Hc d)]. unfold client_subscriptions. cbn.
    enough (base.size (filter (fun e => sclient e.2 = d) (alter f id (subscriptions s))) <= base.size (filter (fun e => sclient e.2 = d) (subscriptions s)))%nat by lia.
    apply (covers_filter_size (fun b b' => sclient b' = sclient b)); [|cbn; congruence]. intros i b' (b & Hb & [[-> ->]|[_ ->]])%alter_same; exists b; [|done]. split; [done|]. apply Hf.
  - by apply (account_same hand s).
Qed.

Lemma link_to_gives hand s id p c m v : Inv hand s -> linked s p c -> sub_of s id c -> gives later false hand s (link_to id p m v) anything.
Proof.
  intros H Hp Hid. unfold link_to. next; [by eapply relinked_sub|]. destruct H0 as (HL & HB & HA). set (s' := with_reverse s0 (<[remote_key p (view_subscription m) := id]> (reverse s0))).
  assert (Ht : later s0 s') by (constructor; cbn; eauto using grown_log). split; [|done]. split_and!.
  - grows HL; [done|]. destruct (decide ((p0, m0) = remote_key p (view_subscription m))) as [Ek|Hn]; [rewrite Ek, lookup_insert_eq in H0|rewrite lookup_insert_ne in H0 by done; by left].
    injection H0 as <-. injection Ek as -> ->. right. exists c. destruct Hp as [Hp _]. split; [eapply (link_of_later s); [by etrans|done]|eapply (sub_of_later s); [by etrans|done]].
  - destruct HB. by constructor.
  - by apply (account_same hand s0).
Qed.

Lemma unlink_gives hand s id : Inv hand s -> calmly hand s (unlink id).
Proof. intros H. apply gives_state. destruct (subscriptions s !! id) as [b|]; [|by apply gives_done]. destruct (slink b); [by apply unlink_one_gives|by apply gives_done]. Qed.

Lemma shown_sub_gives hand s c flags m : Inv hand s -> known s c -> serial s < u64_max -> gives later true hand s (shown_sub c flags m) (fun id s' => sub_of s' id c).
Proof.
  intros H Hk Hs. unfold shown_sub. apply gives_state. destruct (_ || _) eqn:Hlim; [by apply gives_raise|]. bool_prop. destruct Hlim as [L1 L2].
  set (b := MkSub c 0 0 0 (view_type m) (view_id m) None true (owned_flag flags) (control_flag flags) false false ∅ 0 0 []).
  destruct (new_sub hand s b (schedule s ++ [fresh_id s])) as (H2 & R2 & Hb); [done|done|done|lia|done|].
  eapply (gives_fresh _ _ _ (fun id s => with_schedule (with_subscriptions s (<[id := b]> (subscriptions s))) (schedule s ++ [id])) (fun id => mret id)); [done|done|]. by apply gives_ret.
Qed.

Lemma remove_own hand s id c x : Inv hand s -> sub_of s id c -> allowed c -> gives later true hand s (remove env id x true) anything.
Proof. intros H Hid Hc. eapply gives_later, gives_throws, remove_gives; [done|]. intros _ b Hb. left. by rewrite (proj2 Hid b Hb). Qed.

Definition entered_of c (o : option (N * bytes)) s' : Prop := match o with Some (id, _) => sub_of s' id c | None => True end.

Lemma enter_gives hand s p c flags m data confirmed found :
  Inv hand s -> linked s p c -> allowed c -> serial s < u64_max -> (forall id, found = Some id -> sub_of s id c) ->
  gives later true hand s (enter env p c flags m data confirmed found) (entered_of c).
Proof.
  intros H Hp Hc Hs Hf. unfold enter. apply gives_state. cbv zeta.
  generalize (match found ≫= (fun id => subscriptions s !! id) with Some b => smigrating b | None => false end). intros restoring. destruct (restoring && _); [by apply gives_ret|].
  eapply gives_bind with (Q' := fun id s' => sub_of s' id c).
  { destruct found as [id|]; [apply gives_ret; [done|by apply Hf]|]. apply shown_sub_gives; [done|apply Hp|done]. }
  intros id s1 H1 R1 Hid. apply gives_state. assert (Hp1 : linked s1 p c) by by eapply linked_later.
  assert (Hend : gives later true hand s1 (remove env id rejected true;; mret None) (entered_of c)) by (eapply gives_bind; [by eapply remove_own|]; intros; by apply gives_ret).
  destruct (subscriptions s1 !! id) as [b|] eqn:Hb; [|done]. destruct (view_update m) as [[[? v] []]|]; [|done|done]. destruct (_ || _); [done|]. assert (sclient b = c) as -> by by apply Hid.
  quiet; [by apply unlink_gives|]. next; [by eapply link_to_gives; [done|eapply linked_later|eapply sub_of_later]|]. quiet; [apply on_sub_gives; [by split|done]|]. quiet; [by apply expire_route_gives|].
  assert (Hid3 : sub_of s4 id c) by (eapply (sub_of_later s1); [|done]; etrans; [done|]; etrans; [done|]; by etrans).
  destruct restoring; [|by apply gives_ret]. quiet; [by apply count_gives|].
  eapply gives_bind; [by apply (gives_lift _ _ _ anything)|]. intros data' s6 H6 R6 _. quiet; [by apply notify_gives|].
  destruct (negb _); [quiet; [by apply front_close_gives|by apply gives_ret]|]. apply gives_ret; [done|]. eapply (sub_of_later s4); [|done]. etrans; [done|]. by etrans.
Qed.

Lemma dispossess_gives hand s c old id : Inv hand s -> allowed c -> (old <> 0 -> sub_of s old c) -> gives later true hand s (dispossess env old id) anything.
Proof.
  intros H Hc Ho. unfold dispossess. apply gives_state. destruct ((old =? 0) || (old =? id)) eqn:E; [by apply gives_ret|]. bool_prop. destruct E as [E _].
  destruct (subscriptions s !! old) as [b|] eqn:Hb; [|by apply gives_ret]. cbv zeta. assert (sclient b = c) as Hbc by (by apply (Ho E)).
  quiet; [apply on_sub_gives; [by split|done]|]. eapply gives_bind; [by apply (gives_lift _ _ _ anything)|]. intros body s2 H2 R2 _. rewrite Hbc. quiet; [by apply notify_gives|].
  destruct (negb _); [quiet; [by apply front_close_gives|by apply gives_ret]|]. apply gives_state. destruct (slink b) as [p|] eqn:Hp; [|by apply gives_ret]. destruct (connected env p s1); [|by apply gives_ret].
  eapply gives_bind; [by apply (gives_lift _ _ _ anything)|]. intros key s4 H4 R4 _.
  next; [|by apply gives_ret]. eapply (linked_call_gives _ _ _ _ _ _ p c); [done| |done|done].
  eapply (linked_later s); [etrans; [done|]; etrans; [done|]; by etrans|]. rewrite <- Hbc. destruct H as (HL & _). by apply (i_subs _ HL old b Hb).
Qed.

Lemma possess_gives hand s c id flags : Inv hand s -> allowed c -> sub_of s id c -> gives later true hand s (possess env c id flags) anything.
Proof.
  intros H Hc Hid. unfold possess. apply gives_state. cbv zeta. set (old := match sessions s !! c with Some x => session_controlled x | None => 0 end).
  assert (Hold : old <> 0 -> sub_of s old c) by (subst old; destruct (sessions s !! c) eqn:E; [|done]; destruct H as (HL & _); by apply (i_sessions _ HL c)).
  eapply gives_bind with (Q' := anything).
  - destruct (control_flag flags).
    + eapply gives_bind; [by eapply dispossess_gives|]. intros go s1 H1 R1 _. next; [|by apply gives_ret]. destruct go; [cbn [when]|by apply gives_done].
      eapply gives_any, new_session_link; [done|]. intros x Hx. split_and!; [done|done|by left|]. intros _. right. by eapply sub_of_later.
    + next; [|by apply gives_ret]. eapply gives_later, on_session_gives; [|done]. intros x. apply session_controlled_rel.
  - intros go s1 H1 R1 _. next; [|by apply gives_ret]. eapply gives_later, gives_when; [done|]. intros _. apply on_sub_gives; [|done]. intros b. by destruct (Bool.eqb _ _).
Qed.

Lemma relay_gives hand s c presence flags m id data : Inv hand s -> allowed c -> sub_of s id c -> gives later true hand s (relay env c presence flags m id data) anything.
Proof.
  intros H Hc Hid. unfold relay. apply gives_state. destruct (subscriptions s !! id) as [b|] eqn:Hb; [|by apply gives_done]. destruct (_ || _); [by apply gives_raise|].
  destruct (negb (is_ok_status _)); [destruct (bool_decide _); [by eapply gives_throws, gives_later, migrating_gives|by eapply remove_own]|]. destruct (smigrating b); [by apply gives_done|].
  assert (sclient b = c) as -> by by apply Hid. eapply gives_bind with (Q' := anything).
  - destruct presence; [by apply possess_gives|]. destruct (view_update m) as [[[? v] snapshot]|]; [|by apply gives_raise]. destruct (if snapshot then _ else _); [by apply gives_raise|].
    quiet; [apply on_sub_gives; [by split|done]|]. by apply gives_ret.
  - intros go s1 H1 R1 _. apply gives_when; [done|]. intros _. eapply gives_bind; [by apply (gives_lift _ _ _ anything)|]. intros data' s2 H2 R2 _. by eapply gives_throws, gives_later, tell_gives.
Qed.

Lemma noticed_of s p m l id b : Links s -> objects s !! p = Some l -> noticed p m s = Some (id, b) -> sub_of s id (lclient l).
Proof.
  intros HL Hl. unfold noticed. destruct (reverse s !! remote_key p (view_subscription m)) as [i|] eqn:Hr; [|done]. cbn. destruct (subscriptions s !! i) as [b'|]; [|done]. intros [= -> ->].
  destruct (i_reverse _ HL _ _ _ Hr) as (c & (_ & l' & Hl' & <-) & Hs). by replace l with l' by congruence.
Qed.
Lemma restorable_of s c m id : Links s -> restorable c m s = Some id -> sub_of s id c.
Proof.
  intros HL. unfold restorable. destruct (List.find _ _) as [[i b]|] eqn:E; [|done]. intros [= <-]. apply find_some in E as [Hin Hb]. apply list_elem_of_In, elem_of_map_to_list in Hin.
  cbn in Hb. rewrite !andb_true_iff, N.eqb_eq in Hb. destruct Hb as [[[_ Hc] _] _]. split; [by apply (i_subs _ HL i b)|]. cbn. intros x Hx. congruence.
Qed.

Lemma notice_gives hand s p presence data confirmed :
  Inv hand s -> serial s < u64_max -> (forall l, objects s !! p = Some l -> allowed (lclient l)) -> gives later true hand s (notice env p presence data confirmed) anything.
Proof.
  intros H Hs Ha. unfold notice. apply gives_state. destruct (objects s !! p) as [l|] eqn:Hl; [|by apply gives_done]. specialize (Ha l eq_refl). cbv zeta.
  destruct (_ || _) eqn:Hr; [by apply gives_done|]. bool_prop. destruct Hr as [_ Hr]. destruct (negb (session_authenticated _ _ _)); [by eapply gives_throws, gives_later, revoke_gives|].
  apply gives_attempt; [|intros e s' H' _; by eapply gives_throws, gives_later, front_close_gives].
  eapply gives_bind with (Q' := fun _ s' => s' = s); [by apply gives_lift|]. intros [[kind flags] body] s1 _ _ ->.
  eapply gives_bind with (Q' := fun _ s' => s' = s); [by apply gives_lift|]. intros m s1 _ _ ->. apply gives_state. cbv zeta.
  pose proof H as (HL & _). assert (Hp : linked s p (lclient l)) by (destruct (i_objects _ HL p l Hl) as (_ & Hk & Hd & _); split; [split; [done|by exists l]|by apply Hd]).
  destruct (_ && _ && _ && _).
  - eapply gives_bind; [apply enter_gives; try done|].
    + intros id Hid. destruct (noticed p m s) as [[i b]|] eqn:E; [injection Hid as ->; by eapply noticed_of|by eapply restorable_of].
    + intros [[id data']|] s2 H2 R2 Hid; [by apply relay_gives|by apply gives_done].
  - destruct (noticed p m s) as [[id b]|] eqn:E; [|by apply gives_done]. apply relay_gives; [done|done|by eapply noticed_of].
Qed.

(** ** Replies, polls and the end *)

Section Replies.
Context (Hall : forall c, allowed c).

Lemma watched_gives hand s p c r sub type entity data : Inv hand s -> linked s p c -> sub_of s sub c -> gives later true hand s (watched env p r sub type entity data) anything.
Proof.
  intros H Hp Hid. unfold watched. apply gives_state. destruct (requests s !! r) as [q|].
  - apply gives_attempt; [|intros e s' H' _; quiet; [by apply remove_quietly|by apply finish_anyway]].
    eapply gives_bind with (Q' := fun _ s' => s' = s); [by apply gives_lift|]. intros m s1 _ _ ->. destruct (view_update m) as [[[? v] []]|]; try by apply gives_raise.
    destruct (_ || _ || _); [by apply gives_raise|]. next; [by eapply link_to_gives|]. quiet; [apply on_sub_gives; [by split|done]|].
    eapply gives_bind; [by apply (gives_lift _ _ _ anything)|]. intros d s3 H3 _ _. by apply finish_anyway.
  - destruct (decode_replication_packet_view data); [by eapply gives_throws, gives_later, call_ignored_gives|by apply gives_done].
Qed.

Lemma rewatched_gives hand s p c sub b data : Inv hand s -> linked s p c -> sub_of s sub c -> gives later true hand s (rewatched env p sub b data) anything.
Proof.
  intros H Hp Hid. unfold rewatched. eapply gives_bind with (Q' := fun _ s' => s' = s); [by apply gives_lift|]. intros m s1 _ _ ->.
  destruct (view_update m) as [[[? v] []]|]; try by apply gives_raise. destruct (_ || _ || _); [by apply gives_raise|]. quiet; [by apply unlink_gives|]. apply gives_state.
  quiet; [destruct (slink b); [apply gives_when; [done|]; intros _; by apply call_ignored_gives|by apply gives_done]|].
  next; [eapply link_to_gives; [done|eapply (linked_later s); [by etrans|done]|eapply (sub_of_later s); [by etrans|done]]|].
  quiet; [apply on_sub_gives; [by split|done]|]. quiet; [by apply count_gives|]. quiet; [by apply expire_route_gives|].
  eapply gives_bind; [by apply (gives_lift _ _ _ anything)|]. intros d s6 H6 _ _. apply gives_state. destruct (session_authenticated env (sclient b) s6); [by eapply gives_throws, gives_later, tell_gives|].
  by eapply gives_throws, gives_later, revoke_gives.
Qed.

Lemma restored_gives hand s p c sub w e data : Inv hand s -> serial s < u64_max -> linked s p c -> sub_of s sub c -> gives later true hand s (restored env p sub w e data) anything.
Proof.
  intros H Hs Hp Hid. unfold restored. quiet; [by apply restore_wanted_gives|]. apply gives_state. destruct (subscriptions s0 !! sub) as [b|]; [|by apply gives_done]. apply gives_when; [done|]. intros _.
  apply gives_attempt; [|intros x s' H' _; by apply gives_later, remove_any].
  destruct (sautomatic b); [|eapply rewatched_gives; [done|by eapply linked_later|by eapply sub_of_later]].
  eapply gives_bind with (Q' := fun _ s' => s' = s0); [by apply gives_lift|]. intros [] s1 _ _ ->. apply notice_gives; [done|destruct C as (_ & _ & -> & _); done|done].
Qed.

Lemma replied_gives hand s k x : Inv hand s -> serial s < u64_max -> gives later false hand s (replied env k x) anything.
Proof.
  intros H Hs. unfold replied. apply gives_state. destruct (calls (net s) !! k) as [[p then_]|] eqn:Hk; [|by apply gives_done].
  pose proof H as (HL & _). destruct (i_pending _ HL k p then_ Hk) as (c & Hp & Hf).
  quiet; [by eapply gives_any, lost_call_gives|]. apply gives_deliver. assert (Hp' : linked s0 p c) by by eapply linked_later. assert (Hf' : cont_fits s0 c then_) by by eapply cont_fits_later.
  destruct (is_ok_status (rstatus x)); [|apply gives_later, call_failed_deep; auto].
  destruct then_ as [r|r sub ? ?|sub w e|sub e|]; [by apply finish_anyway|by eapply watched_gives; [..|apply Hf']| |by apply gives_done|by eapply delegate_replied_gives].
  eapply restored_gives; [done|destruct C as (_ & _ & -> & _); done|exact Hp'|done].
Qed.

Lemma drop_link_gives hand s p : Inv hand s -> calmly hand s (drop_link p).
Proof.
  intros H. apply gives_state. eapply gives_seq; [|intros [] s1 H1 R1 _; apply forget_gives; [done| |done..]; constructor; cbn; try first [done | split; lia | apply covers_same; apply _ | apply grown_log | set_solver | by auto]].
  destruct (objects s !! p) as [l|]; [|by apply gives_done]. apply on_session_gives; [|done]. intros x. case_bool_decide; [|done]. split_and!; [done|done| |done]. cbn. intros i q [_ Hq]%lookup_delete_Some. done.
Qed.

Lemma poll_request_gives hand s r : Inv hand s -> gives later true hand s (poll_request env r) anything.
Proof.
  intros H. unfold poll_request. apply gives_state. destruct (requests s !! r) as [q|] eqn:Hq; [|by apply gives_done]. destruct (_ <=? _)%Z; [by apply finish_anyway|]. destruct (negb _); [by apply finish_anyway|].
  destruct (rretry q) as [[type id]|]; [|by apply gives_done]. apply gives_when; [done|]. intros _. quiet; [apply on_request_gives; [by repeat split|done]|].
  eapply present_attempt_gives with (c := rclient q); [exact Hall|done|]. eapply request_of_later; [done|]. destruct H as (HL & _). split; [by apply (i_requests _ HL r q)|]. congruence.
Qed.

Lemma poll_sub_gives hand s id b : Inv hand s -> gives later true hand s (poll_sub env id b) anything.
Proof.
  intros H. unfold poll_sub. apply gives_state. quiet; [destruct (slink b); [apply gives_when; [done|]; intros _; by apply migrating_gives|by apply gives_done]|].
  apply gives_state. destruct (subscriptions s0 !! id) as [b'|]; [|by apply gives_done]. destruct (_ && _); [by apply gives_later, remove_any|]. apply gives_when; [done|]. intros _. by apply refresh_gives.
Qed.

Lemma schedule_gives hand s l : Inv hand s -> calmly hand s (modify (fun s => with_schedule s l)).
Proof. intros H. apply forget_gives; [done| |done..]. constructor; cbn; try first [done | split; lia | apply covers_same; apply _ | apply grown_log | by auto]. Qed.

Lemma poll_schedule_gives hand n : forall s, Inv hand s -> gives later true hand s (poll_schedule env n) anything.
Proof.
  induction n as [|n IH]; intros s H; cbn [poll_schedule]; [by apply gives_done|]. apply gives_state. destruct (schedule s) as [|id rest]; [by apply gives_done|].
  eapply gives_bind with (Q' := anything); [|intros [] s1 H1 _ _; by apply IH]. destruct (subscriptions s !! id) as [b|]; [|by eapply gives_throws, gives_later, schedule_gives].
  quiet; [by apply schedule_gives|]. by apply poll_sub_gives.
Qed.

Lemma poll_gives hand s budget l : Inv hand s -> gives later true hand s (poll env budget l) anything.
Proof.
  intros H. unfold poll. apply gives_state. destruct (stopped s); [by apply gives_done|]. eapply gives_bind; [apply gives_each; [done|]; intros e s' _ H' _; by apply complete_gives|].
  intros [] s1 H1 _ _. apply gives_state. destruct (stopped s1); [by apply gives_done|].
  quiet; [apply gives_state, gives_each; [done|]; intros c s' _ H' _; by apply revoke_gives|].
  quiet; [apply gives_state, gives_each; [done|]; intros p s' _ H' _; by apply drop_link_gives|]. apply gives_state.
  eapply gives_bind; [apply gives_each; [done|]; intros r s' _ H' _; by apply poll_request_gives|]. intros [] s4 H4 _ _. apply gives_state. by apply poll_schedule_gives.
Qed.
End Replies.

(** ** Stopping *)

(** Each turn of a loop reaches something that lasts. *)
Lemma gives_each_all {A} hand s (f : A -> act unit) l (P : A -> Gateway -> Prop) :
  (forall a s s', later s s' -> P a s -> P a s') -> Inv hand s -> (forall a s', a ∈ l -> Inv hand s' -> calm s s' -> gives calm false hand s' (f a) (fun _ => P a)) ->
  gives calm false hand s (for_each f l) (fun _ s' => forall a, a ∈ l -> P a s').
Proof.
  intros Hp. revert s. induction l as [|a l IH]; intros s Hs H; cbn [for_each]; [apply gives_ret; [done|]; by intros a ?%elem_of_nil|].
  next; [apply H; [by left|done|done]|]. eapply gives_weaken; [apply IH; [done|]|].
  - intros b s' Hb H' R'. apply H; [by right|done|by etrans].
  - intros [] s' [R' _] Hl b [->|Hb]%elem_of_cons; [by eapply Hp|by apply Hl].
Qed.

Definition at_rest s : Prop := stopped s = true /\ requests s = ∅ /\ subscriptions s = ∅ /\ sessions s = ∅ /\ links s = ∅.

Lemma all_finished hand s : Inv hand s ->
  gives calm false hand s (for_each (fun e => finish env (deep env) e.1 (failed_with disconnected)) (map_to_list (requests s))) (fun _ s' => requests s' = ∅).
Proof.
  intros H. pose proof H as (HL & _). assert (Hr : forall r q, requests s !! r = Some q -> r <= serial s) by (intros r q Hq; by apply (i_requests _ HL r q)).
  eapply gives_conclude; [apply (gives_each_all _ _ _ _ (fun e => no_request e.1)); [intros ? ? ?; apply no_request_later|done|]|].
  - intros [r q] s' Hin H' R'. apply elem_of_map_to_list in Hin. apply finish_clears_deep; [done|]. pose proof (l_serial _ _ (proj1 R')). cbn. specialize (Hr r q Hin). lia.
  - intros [] s' (HL' & _) (R' & _ & Hs & _) Hcl. apply map_empty. intros r. destruct (requests s' !! r) as [q'|] eqn:E; [|done].
    destruct (i_requests _ HL' r q' E) as (_ & Hle & _). rewrite Hs in Hle. destruct (l_requests _ _ R' r q' E Hle) as (q & Hq & _).
    destruct (Hcl (r, q)) as [_ Hnone]; [by apply elem_of_map_to_list|]. cbn in Hnone. congruence.
Qed.

Lemma all_removed hand s : Inv hand s -> stopped s = true ->
  gives calm false hand s (for_each (fun e => remove env e.1 disconnected true) (map_to_list (subscriptions s))) (fun _ s' => subscriptions s' = ∅).
Proof.
  intros H Hst. pose proof H as (HL & _). assert (Hr : forall r q, subscriptions s !! r = Some q -> r <= serial s) by (intros r q Hq; by apply (i_subs _ HL r q)).
  eapply gives_conclude; [apply (gives_each_all _ _ _ _ (fun e => no_sub e.1)); [intros ? ? ?; apply no_sub_later|done|]|].
  - intros [r q] s' Hin H' R'. apply elem_of_map_to_list in Hin. pose proof (l_stopped _ _ (proj1 R') Hst) as Hst'. pose proof (l_serial _ _ (proj1 R')).
    eapply (remove_clears _ _ _ r disconnected true) in H' as Hrem; [rewrite Hst' in Hrem; exact Hrem|specialize (Hr r q Hin); lia|auto].
  - intros [] s' (HL' & _) (R' & _ & Hs & _) Hcl. apply map_empty. intros r. destruct (subscriptions s' !! r) as [q'|] eqn:E; [|done].
    destruct (i_subs _ HL' r q' E) as (_ & Hle & _). rewrite Hs in Hle. destruct (l_subs _ _ R' r q' E Hle) as (q & Hq & _).
    destruct (Hcl (r, q)) as [_ Hnone]; [by apply elem_of_map_to_list|]. cbn in Hnone. congruence.
Qed.

Lemma no_requests_calm s s' : calm s s' -> requests s = ∅ -> Links s' -> requests s' = ∅.
Proof.
  intros (R & _ & Hs & _) E1 HL. apply map_empty. intros r. destruct (requests s' !! r) as [q|] eqn:E; [|done]. destruct (i_requests _ HL r q E) as (_ & Hle & _). rewrite Hs in Hle.
  destruct (l_requests _ _ R r q E Hle) as (x & Hx & _). by rewrite E1, lookup_empty in Hx.
Qed.
Lemma no_subs_calm s s' : calm s s' -> subscriptions s = ∅ -> Links s' -> subscriptions s' = ∅.
Proof.
  intros (R & _ & Hs & _) E1 HL. apply map_empty. intros r. destruct (subscriptions s' !! r) as [q|] eqn:E; [|done]. destruct (i_subs _ HL r q E) as (_ & Hle & _). rewrite Hs in Hle.
  destruct (l_subs _ _ R r q E Hle) as (x & Hx & _). by rewrite E1, lookup_empty in Hx.
Qed.

Lemma cleared_gives hand s : Inv hand s -> stopped s = true -> requests s = ∅ -> subscriptions s = ∅ ->
  gives calm false hand s (modify (fun s => with_sessions (with_links s ∅) ∅);; note o_storage_stopped) (fun _ => at_rest).
Proof.
  intros H Hst E1 E2. next.
  - apply shrink_gives; [done| |done..]. constructor; cbn; try first [done | split; lia | apply covers_same; apply _ | apply grown_log | apply covers_empty | set_solver]. intros c _. right. by right.
  - assert (Hr : at_rest s0) by (cbn in E; subst s0; by repeat split). destruct (note_inv hand hand s0 o_storage_stopped H0) as [H1 R1]; [by apply (account_silent hand s0 _ o_storage_stopped); [apply H0|..]|].
    apply gives_modify; [done|done|]. destruct Hr as (? & ? & ? & ? & ?). by repeat split.
Qed.

Lemma stop_gives hand s : Inv hand s -> stopped s = false -> gives calm false hand s (stop env) (fun _ => at_rest).
Proof.
  intros H Hrun. unfold stop. apply gives_state. rewrite Hrun. next; [apply shrink_gives; [done| |done..]; constructor; cbn; try first [done | split; lia | apply covers_same; apply _ | apply grown_log]; intros c _; right; by right|].
  assert (Hst : stopped s0 = true) by by rewrite E. next; [apply gives_each; [done|]; intros r s' _ H' _; by apply note_gives|]. apply gives_state. pose proof (l_stopped _ _ (proj1 R0) Hst) as Hst1.
  next; [by apply all_finished|]. apply gives_state. pose proof (l_stopped _ _ (proj1 R1) Hst1) as Hst2. next; [by apply all_removed|]. apply gives_state. pose proof (l_stopped _ _ (proj1 R2) Hst2) as Hst3.
  next; [apply gives_each; [done|]; intros p s' _ H' _; by apply back_close_gives|]. pose proof (l_stopped _ _ (proj1 R3) Hst3) as Hst4.
  pose proof H3 as (HL3 & _). pose proof H4 as (HL4 & _). apply cleared_gives; [done|done| |by eapply no_subs_calm]. eapply no_requests_calm; [exact R3| |done]. by eapply no_requests_calm.
Qed.

End Serve.
