(* ===== verification/GatewaySystem.v ===== *)
(** * The client gateway, whole runs

    Clients, owners, storage and the application call the gateway in any order, and the nodes
    answer in any way: every request is answered once, the limits hold, each client's traffic
    stays on links delegated for its principal, and a stopped gateway owes nothing. *)

From stdpp Require Import gmap.
From S2P Require Import Prelude MapSum Storage OrderedMap Identity Values AttributeWire Messages Fields TimerState DeliveryState Schema Records Programs Directory Transport Actions Gateway GatewayInv GatewayRuns.

(** ** Runs *)

Inductive operation :=
  | op_routed (who : CallIdentity) (input : bytes) (n : N) | op_watch (who : CallIdentity) (input : bytes) (n : N)
  | op_control (who : CallIdentity) (route input : bytes) (n : N) | op_present (source : N) (input : bytes) (n : N)
  | op_notice (p : N) (presence : bool) (data : bytes) | op_reply (k : N) (x : Result)
  | op_poll (budget : nat) (l : list (bytes * result (option EntityLocation))) | op_bind (type : bytes) (methods : list bytes) | op_drain | op_stop.

Definition perform (env : Env) (o : operation) : act unit :=
  match o with
  | op_routed who input n => routed env who input n
  | op_watch who input n => watch env who input n
  | op_control who route input n => control env who route input n
  | op_present source input n => present env source input n
  | op_notice p presence data => notice env p presence data false
  | op_reply k x => replied env k x
  | op_poll budget l => poll env budget l
  | op_bind type methods => fun s => match bind_entity type methods s with Ok s' => (Ok tt, s') | Throw e => (Throw e, s) end
  | op_drain => drain
  | op_stop => stop env
  end.

(** The reply an operation brings. *)
Definition brings (o : operation) : list N :=
  match o with op_routed _ _ n | op_watch _ _ n | op_control _ _ _ n | op_present _ _ n => [n] | _ => [] end.

(** [w]: the replies given so far; the serial number has not come round. *)
Inductive reachable : list N -> Gateway -> Prop :=
  | reach_start same taken es l s : gateway same taken es l = Ok s -> reachable [] s
  | reach_step w s env o : reachable w s -> serial s < u64_max -> reachable (brings o ++ w) (perform env o s).2.

Definition anyone (_ : N) : Prop := True.
Abbreviation Whole w := (Inv w [] anyone []).

Lemma gives_holds {A} given base_told allowed R b hand s (m : act A) Q : gives given base_told allowed R b hand s m Q -> Inv given base_told allowed hand (m s).2.
Proof. unfold gives. destruct (m s) as [[a|e] s']; cbn; tauto. Qed.

Lemma bring_inv w hand s : Whole w s -> Inv (hand ++ w) [] anyone hand s.
Proof.
  intros (HL & HB & [A1 A2 A3 A4]). split_and!; [done|done|]. constructor; try done. rewrite <- A1, app_nil_r. rewrite (Permutation_app_comm hand). by rewrite app_assoc.
Qed.

Lemma bind_shrinks s type methods s' : bind_entity type methods s = Ok s' -> exists e, s' = with_exposed s e.
Proof. unfold bind_entity. intros H. inv_ok. by eexists. Qed.

Lemma perform_inv w s env o : Whole w s -> serial s < u64_max -> Whole (brings o ++ w) (perform env o s).2.
Proof.
  intros H Hs. apply (bring_inv w (brings o)) in H. destruct o; cbn [brings perform] in *.
  - by eapply gives_holds, routed_gives.
  - by eapply gives_holds, watch_gives.
  - by eapply gives_holds, control_gives.
  - by eapply gives_holds, present_gives.
  - eapply gives_holds, notice_gives; try done.
  - by eapply gives_holds, replied_gives.
  - by eapply gives_holds, poll_gives.
  - destruct (bind_entity type methods s) as [s'|] eqn:E; [|done]. destruct (bind_shrinks _ _ _ _ E) as [e ->]. destruct H as (HL & [] & []). split_and!; [|by constructor..]. destruct HL. by constructor.
  - destruct H as (HL & [] & []). split_and!; [|by constructor..]. destruct HL. by constructor.
  - destruct (stopped s) eqn:Est; [unfold stop, mbind, act_bind, state; by rewrite Est|]. by eapply gives_holds, stop_gives.
Qed.

Lemma gateway_start_inv same taken es l s : gateway same taken es l = Ok s -> Whole [] s.
Proof.
  unfold gateway. intros H. inv_ok. split_and!.
  - constructor; cbn; intros *; rewrite ?lookup_empty; done.
  - constructor; cbn; rewrite ?map_size_empty, ?size_empty, ?msum_empty; try lia. intros c. unfold client_subscriptions. cbn. rewrite map_filter_empty, map_size_empty. lia.
  - constructor; cbn; rewrite ?mnames_empty, ?msum_empty; try done; [by exists []|set_solver].
Qed.

Lemma reachable_inv w s : reachable w s -> Whole w s.
Proof. induction 1 as [|w s env o _ IH Hs]; [by eapply gateway_start_inv|by apply perform_inv]. Qed.

Lemma stop_answers w s env : Whole w s -> stopped s = false -> let '(x, s') := stop env s in x = Ok tt /\ answered (log s') ≡ₚ w /\ at_rest s'.
Proof.
  intros H Hs. pose proof (stop_gives _ _ _ env _ _ H Hs) as Hg. unfold gives in Hg. destruct (stop env s) as [[[]|e] s']; [|by destruct Hg].
  destruct Hg as ((_ & _ & [A1 _ _ _]) & _ & Hr). pose proof Hr as (_ & Er & _). rewrite Er, mnames_empty, !app_nil_r in A1. done.
Qed.

(** ** What a run guarantees *)

(** C16 (safety).  Whatever clients, owners, nodes and storage do, the gateway calls every reply
    it was given at most once: the replies called and those of the pending requests are, as a
    multiset, exactly the replies given to it.  Its revocations never nest deeper than the
    bound of the model.  [stop()] ends without an exception, calls every reply still pending
    and leaves no request, subscription, session or link. *)
Theorem gateway_answers_once w s : reachable w s ->
  answered (log s) ++ mnames rreply (requests s) ≡ₚ w /\ (o_too_deep ∉ log s) /\
  (stopped s = false -> forall env, let '(x, s') := stop env s in x = Ok tt /\ answered (log s') ≡ₚ w /\ at_rest s').
Proof.
  intros H%reachable_inv. pose proof H as (_ & _ & [H1 _ H2 _]). rewrite !app_nil_r in H1. split; [done|]. split; [done|]. intros Hs env. by apply stop_answers.
Qed.

(** Clients, links, subscriptions, the subscriptions of each client, pending
    requests and their bytes never exceed the configured limits, and [queued_bytes] is the sum
    of the pending requests' bytes, so [limits.bytes-queued_bytes] never underflows. *)
Theorem gateway_bounded w s : reachable w s ->
  N.of_nat (base.size (sessions s)) <= max_clients (limits s) /\ N.of_nat (base.size (links s)) <= max_links (limits s) /\
  N.of_nat (base.size (subscriptions s)) <= max_subscriptions (limits s) /\ (forall c, client_subscriptions c s <= per_client (limits s)) /\
  N.of_nat (base.size (requests s)) <= max_requests (limits s) /\ queued_bytes (counters s) = msum rbytes (requests s) /\ queued_bytes (counters s) <= max_bytes (limits s).
Proof. intros (_ & [] & [_ _ _ Hb])%reachable_inv. by rewrite Hb. Qed.

(** The request a call of the gateway carries. *)
Definition carries (k : continuation) : option N := match k with c_finish r | c_watch r _ _ _ => Some r | _ => None end.

(** C14 (safety).  Isolation: a subscription's link and the link of a pending call of a request
    belong to the same client as the subscription or request, and while that client's session
    lasts the link was opened with [system.gateway.delegate] for exactly the subject and
    connection of the session; for a request that is the principal that made it. *)
Theorem gateway_isolated w s : reachable w s ->
  (forall id b p, subscriptions s !! id = Some b -> slink b = Some p ->
     exists l, objects s !! p = Some l /\ lclient l = sclient b /\ forall x, sessions s !! sclient b = Some x -> delegated_to p (session_subject x) (session_connection x) (log s)) /\
  (forall k p c r q, calls (net s) !! k = Some (MkPending p c) -> carries c = Some r -> requests s !! r = Some q ->
     exists l, objects s !! p = Some l /\ lclient l = rclient q /\ (is_Some (sessions s !! rclient q) -> delegated_to p (rsubject q) (rconnection q) (log s))).
Proof.
  intros (HL & _)%reachable_inv. split.
  - intros id b p Hb Hp. destruct (i_subs _ HL id b Hb) as (_ & _ & H). destruct (H p Hp) as [(_ & l & Hl & Hc) Hd]. by exists l.
  - intros k p c r q Hk Hc Hq. destruct (i_pending _ HL k p c Hk) as (d & [(_ & l & Hl & <-) Hd] & Hf).
    assert (Hr : rclient q = lclient l) by (destruct c; cbn in Hc; try done; injection Hc as ->; cbn in Hf; [by apply Hf|by apply (proj1 Hf)]).
    exists l. split; [done|]. split; [done|]. intros [x Hx]. destruct (i_requests _ HL r q Hq) as (_ & _ & Hp). destruct (Hp x Hx) as [<- <-]. apply Hd. by rewrite <- Hr.
Qed.

(** C15 (safety).  Confinement: a notification of an owner over link [p], whatever its bytes,
    makes the gateway notify the client of that link only, and only while its session is
    authenticated. *)
Theorem notice_confined w s env p presence data : reachable w s -> serial s < u64_max ->
  exists told, notified (log (perform env (op_notice p presence data) s).2) = notified (log s) ++ told /\
    forall c, c ∈ told -> exists l, objects s !! p = Some l /\ c = lclient l /\ session_authenticated env c s = true.
Proof.
  intros (HL & HB & [A1 _ A3 A4])%reachable_inv Hs. cbn [perform].
  set (ok c := exists l, objects s !! p = Some l /\ c = lclient l /\ session_authenticated env c s = true).
  assert (H : Inv w (notified (log s)) ok [] s) by (split_and!; [done|done|]; constructor; try done; exists []; by rewrite app_nil_r).
  assert (Hg : Inv w (notified (log s)) ok [] (notice env p presence data false s).2).
  { destruct (objects s !! p) as [l|] eqn:Hl; [|unfold notice, mbind, act_bind, state; by rewrite Hl]. destruct (session_authenticated env (lclient l) s) eqn:Ha.
    - eapply gives_holds, notice_gives; [done|done|]. intros l' Hl'. assert (l' = l) as -> by congruence. by exists l.
    - eapply (gives_holds _ _ _ later true). unfold notice. apply gives_state. rewrite Hl. cbv zeta. destruct (_ || _); [by apply gives_done|]. rewrite Ha. by eapply gives_throws, gives_later, revoke_gives. }
  destruct Hg as (_ & _ & [_ (told & Ht & Hf) _ _]). exists told. split; [done|]. by apply Forall_forall.
Qed.

(** ** A run: a client watches an entity and is told of a change *)

Definition sample_client : CallIdentity := MkIdentity client (lit "ann") 5 (MkConnection (lit "0123456789abcdef0123456789abcdef") 1) None None.
Definition sample_place : EntityEndpoint := MkEndpoint (lit "a") (lit "127.0.0.1") 7000 [lit "Avatar"] [].
Definition sample_rules : GatewayLimits := MkGatewayLimits 4 4 4 4 4 10000 3000 100 90000.
Definition sample_world (now : Z) : Env :=
  MkEnv now 1000 (fun _ p => if p =? 5 then Some sample_client else None) (fun _ _ => true) (fun _ _ => Ok 0) (fun _ => None) (fun _ => true) (fun _ => true).
Definition sample_entity : bytes := lit "00000000000000a1".
Definition sample_watch : bytes := match encode_entity_key (lit "Avatar") sample_entity with Ok k => k | Throw _ => [] end.
Definition sample_found : result (option EntityLocation) := Ok (Some (MkLocation (lit "a") 1 5000 [] 0 (lit "Avatar"))).
Definition sample_image (base revision : N) (snapshot : bool) : bytes :=
  match encode_replication_packet (MkPacket 9 (lit "Avatar") sample_entity ok 30000 (Some (MkUpdate base revision snapshot [(lit "hp", AInt 9)] []))) with Ok d => d | Throw _ => [] end.

Definition sample_run : list (Env * operation) :=
  [(sample_world 1, op_bind (lit "Avatar") [lit "move"]); (sample_world 2, op_watch sample_client sample_watch 1); (sample_world 3, op_poll 64 [(lookup_key sample_entity, sample_found)]);
   (sample_world 4, op_reply 1 (MkResult ok [])); (sample_world 5, op_reply 2 (MkResult ok (sample_image 0 4 true)))].
Definition run_all (l : list (Env * operation)) (s : Gateway) : Gateway := fold_left (fun s e => (perform e.1 e.2 s).2) l s.
Definition sample_gateway : result Gateway := gateway false (fun _ => false) [sample_place] sample_rules.
Definition sample_start : Gateway := match sample_gateway with Ok s => s | Throw _ => MkGateway sample_rules [] ∅ ∅ ∅ ∅ ∅ ∅ ∅ ∅ [] [] (MkCounters 0 0 0 0) 0 false false (MkNet ∅ 0 0 ∅ ∅) [] end.
Fixpoint numbered (l : list (Env * operation)) (s : Gateway) : bool := match l with [] => true | e :: l => (serial s <? u64_max) && numbered l (perform e.1 e.2 s).2 end.
Definition brought (l : list (Env * operation)) (w : list N) : list N := fold_left (fun w e => brings e.2 ++ w) l w.

Lemma run_reachable l : forall w s, reachable w s -> numbered l s = true -> reachable (brought l w) (run_all l s).
Proof.
  induction l as [|[env o] l IH]; intros w s H Hn; [done|]. cbn in Hn. apply andb_true_iff in Hn as [Hs Hn]. apply N.ltb_lt in Hs. cbn. apply IH; [by apply reach_step|done].
Qed.
Lemma sample_started : reachable [] sample_start.
Proof. apply (reach_start false (fun _ => false) [sample_place] sample_rules). by vm_compute. Qed.

(** The watch is pending; then it is answered and the entity linked. *)
Definition sample_waiting : Gateway := run_all (firstn 4 sample_run) sample_start.
Definition sample_linked : Gateway := run_all sample_run sample_start.
Lemma sample_waiting_reachable : reachable [1] sample_waiting.
Proof. apply (run_reachable (firstn 4 sample_run) []); [apply sample_started|by vm_compute]. Qed.
Lemma sample_linked_reachable : reachable [1] sample_linked.
Proof. apply (run_reachable sample_run []); [apply sample_started|by vm_compute]. Qed.

Lemma gateway_answers_once_witness :
  answered (log sample_linked) = [1] /\ mnames rreply (requests sample_waiting) = [1] /\
  let '(x, s') := stop (sample_world 9) sample_waiting in x = Ok tt /\ answered (log s') ≡ₚ [1] /\ at_rest s'.
Proof.
  split; [by vm_compute|]. split; [by vm_compute|]. apply (gateway_answers_once [1] sample_waiting); [exact sample_waiting_reachable|by vm_compute].
Defined.

Lemma gateway_bounded_witness : N.of_nat (base.size (requests sample_waiting)) = 1 /\ queued_bytes (counters sample_waiting) = 25 /\ queued_bytes (counters sample_waiting) <= max_bytes (limits sample_waiting).
Proof. split; [by vm_compute|]. split; [by vm_compute|]. apply (gateway_bounded [1]). exact sample_waiting_reachable. Defined.

Lemma gateway_isolated_witness :
  exists b l, subscriptions sample_linked !! 2 = Some b /\ slink b = Some 1 /\ objects sample_linked !! 1 = Some l /\ lclient l = 5 /\
    delegated_to 1 (lit "ann") (Schema.connection sample_client) (log sample_linked).
Proof.
  assert (Es : (fun b => (slink b, sclient b)) <$> subscriptions sample_linked !! 2 = Some (Some 1, 5)) by by vm_compute.
  assert (Ex : (fun x => (session_subject x, session_connection x)) <$> sessions sample_linked !! 5 = Some (lit "ann", Schema.connection sample_client)) by by vm_compute.
  apply fmap_Some in Es as (b & Hb & Eb). apply fmap_Some in Ex as (x & Hx & Ex). injection Eb as Hp Hc. injection Ex as E1 E2.
  destruct (proj1 (gateway_isolated [1] sample_linked sample_linked_reachable) 2 b 1 Hb (eq_sym Hp)) as (l & Hl & Hlc & Hd). exists b, l. rewrite <- Hc in Hlc, Hd.
  split_and!; [exact Hb|by symmetry|exact Hl|exact Hlc|]. specialize (Hd x Hx). rewrite <- E1, <- E2 in Hd. exact Hd.
Defined.

Lemma notice_confined_witness :
  exists told, notified (log (perform (sample_world 6) (op_notice 1 false (sample_image 4 5 false)) sample_linked).2) = notified (log sample_linked) ++ told /\
    (forall c, c ∈ told -> exists l, objects sample_linked !! 1 = Some l /\ c = lclient l /\ session_authenticated (sample_world 6) c sample_linked = true) /\ told = [5].
Proof.
  destruct (notice_confined [1] sample_linked (sample_world 6) 1 false (sample_image 4 5 false) sample_linked_reachable) as (told & Ht & Hc); [by vm_compute|].
  exists told. split; [exact Ht|]. split; [exact Hc|]. vm_compute in Ht. by symmetry.
Defined.

(** A client that unwatches a subscription whose watch is still in flight (identities are
    consecutive, so it can) is told that the watch succeeded, for a subscription that is gone;
    the owner's subscription is entered in [reverse] and never unwatched. *)
Example unwatched_in_flight :
  let s := run_all [(sample_world 5, op_control sample_client route_unwatch (token 2) 2); (sample_world 6, op_reply 2 (MkResult ok (sample_image 0 4 true)))] sample_waiting in
  answered (log s) = [2; 1] /\ (exists data, last (log s) = Some (o_answered 1 (MkResult ok data))) /\ subscriptions s !! 2 = None /\ reverse s !! (1, 9) = Some 2 /\
  forallb (fun o => match o with o_called _ route _ _ => negb (bytes_eqb route route_unwatch) | _ => true end) (log s) = true.
Proof. vm_compute. split; [done|]. split; [by eexists|]. done. Qed.
