(* ===== verification/Delegation.v ===== *)
(** * The owner's side of the gateway

    [GatewayDelegation] of [src/client_gateway.cpp]: a trusted gateway connection becomes one
    client principal, and that client may then show, hide, possess and release entities.

    The entity host is asked through outputs; what it answers is the next operation.  The
    node's identity of a peer is the resolver installed here, asked for an open peer.  The
    application's resolver, trust and restore callbacks are given by what they do during an
    operation, exceptions included; callbacks that stop the component are outside the model. *)

From stdpp Require Import gmap.
From S2P Require Import Prelude Storage OrderedMap Identity Values AttributeWire Messages Fields TimerState DeliveryState Schema Records Programs Directory Transport Actions Gateway.

(** ** Data *)

Record Principal := MkPrincipal { psubject : bytes; ptransport : bytes; pcertificate : bytes; pconnection : ConnectionRef }.
#[export] Instance principal_eq_dec : EqDecision Principal.
Proof. solve_decision. Defined.

(** The callbacks the host holds, each with the reply it was given. *)
Inductive stage :=
  | g_visible (who : CallIdentity) (type id : bytes) (action : N) (reply : N)
  | g_read (who : CallIdentity) (type id : bytes) (control : bool) (reply : N)
  | g_shown (who : CallIdentity) (type id : bytes) (control : bool) (reply : N).
Definition stage_reply (x : stage) : N := match x with g_visible _ _ _ _ n | g_read _ _ _ _ n | g_shown _ _ _ _ n => n end.

(** Whom the host answers: a callback of this component, or the caller directly. *)
Inductive recipient := to_stage (k : N) | to_caller (n : N).

Inductive delegation_output :=
  | replied_to (n : N) (r : Result) | host_read (k : N) (type id : bytes) | host_visibility (peer : N) (type id : bytes) (action : N) (to : recipient)
  | peer_closed (p : N) | route_unbound (r : bytes) | resolver_restored.

Record Delegation := MkDelegation {
  dsessions : gmap N Principal; dlimit : N; dstopped : bool; stages : gmap N stage; dserial : N; dlog : list delegation_output }.

Definition with_dsessions (s : Delegation) (m : gmap N Principal) : Delegation := MkDelegation m (dlimit s) (dstopped s) (stages s) (dserial s) (dlog s).
Definition with_dstopped (s : Delegation) : Delegation := MkDelegation (dsessions s) (dlimit s) true (stages s) (dserial s) (dlog s).
Definition with_stages (s : Delegation) (m : gmap N stage) (n : N) : Delegation := MkDelegation (dsessions s) (dlimit s) (dstopped s) m n (dlog s).
Definition with_dlog (s : Delegation) (l : list delegation_output) : Delegation := MkDelegation (dsessions s) (dlimit s) (dstopped s) (stages s) (dserial s) l.

(** What the node, the application and the host answer during one operation. *)
Record DEnv := MkDEnv {
  d_base : N -> bytes -> result (option CallIdentity); d_trust : CallIdentity -> bytes -> result bool; d_restore : option (CallIdentity -> bytes -> bytes -> bool -> result bool);
  d_certificate : N -> bytes; d_open : N -> bool; d_connection : N -> ConnectionRef; d_owner : bytes -> bytes -> bytes }.

Abbreviation act := (Actions.act Delegation).
Definition emit (o : delegation_output) : act unit := modify (fun s => with_dlog s (dlog s ++ [o])).
Definition reply (n : N) (r : Result) : act unit := emit (replied_to n r).
Definition refuse (n : N) (x : Status) : act unit := reply n (failed_with x).

Section Delegation.
Context (env : DEnv).

(** [valid(peer, session, certificate)] *)
Definition valid (p : N) (x : Principal) (cert : bytes) (s : Delegation) : result bool :=
  let* who := d_base env p cert in
  match who with
  | None => Ok false
  | Some who =>
      if dstopped s || match caller who with server => false | client => true end || negb (bytes_eqb (Schema.subject who) (ptransport x)) || negb (bytes_eqb cert (pcertificate x)) then Ok false
      else let* allowed := d_trust env who cert in Ok (negb (dstopped s) && allowed)
  end.

(** The identity resolver given to the node. *)
Definition identify (p : N) (cert : bytes) (s : Delegation) : result (option CallIdentity) :=
  if dstopped s then Ok None
  else
    match dsessions s !! p with
    | None => d_base env p cert
    | Some x => let* good := valid p x cert s in Ok (if good then Some (MkIdentity client (psubject x) p (pconnection x) None None) else None)
    end.

(** [node.identity(peer)]: what [Node] makes of the resolver's answer. *)
Definition node_identity (p : N) (s : Delegation) : option CallIdentity :=
  if negb (d_open env p) then None
  else
    match identify p (d_certificate env p) s with
    | Ok (Some who) =>
        if 256 <? size (Schema.subject who) then None
        else Some (MkIdentity (caller who) (Schema.subject who) p (if connection_valid (Schema.connection who) then Schema.connection who else d_connection env p) (Schema.current who) (execution who))
    | _ => None
    end.

(** [authenticated(who)] *)
Definition authenticated (who : CallIdentity) (s : Delegation) : bool :=
  match dsessions s !! Schema.peer who with
  | None => false
  | Some x =>
      negb (dstopped s) && live who &&
      match node_identity (Schema.peer who) s with
      | Some now => match caller now with client => true | server => false end && bytes_eqb (Schema.subject now) (Schema.subject who) && bool_decide (Schema.connection now = Schema.connection who)
      | None => false
      end && bytes_eqb (psubject x) (Schema.subject who) && bool_decide (pconnection x = Schema.connection who)
  end.

(** ** The routes *)

Definition ask (k : stage) : act N := s ← state; let n := dserial s + 1 in modify (fun s => with_stages s (<[n := k]> (stages s)) n);; mret n.
(** [host->read_attributes(type, id, callback)] and [host->entity_visibility(...)] with a callback. *)
Definition read_then (type id : bytes) (k : stage) : act unit := n ← ask k; emit (host_read n type id).
Definition show_then (p : N) (type id : bytes) (action : N) (k : stage) : act unit := n ← ask k; emit (host_visibility p type id action (to_stage n)).

(** [system.gateway.visibility] *)
Definition on_visibility (who : CallIdentity) (data : bytes) (n : N) : act unit :=
  s ← state;
  if dstopped s then refuse n disconnected
  else if negb (authenticated who s) then refuse n rejected
  else match decode_action data with
       | Throw _ => refuse n rejected
       | Ok (type, id, action) => read_then type id (g_visible who type id action n)
       end.

(** The payload of [system.gateway.delegate]. *)
Definition decode_delegation (data : bytes) : result (bytes * ConnectionRef) :=
  throw_if negb (starts_with (lit "FSCN1") data) as invalid_argument ;;
  let* '(name, rest) := read_blob (drop 5 data) in
  let* '(key, rest) := read_blob rest in
  let* connection := from_key key in
  throw_if negb (is_empty rest) as invalid_argument ;; Ok (name, connection).

(** [system.gateway.delegate] *)
Definition on_delegate (who : CallIdentity) (data : bytes) (n : N) : act unit :=
  s ← state;
  let p := Schema.peer who in
  let cert := d_certificate env p in
  if dstopped s then refuse n disconnected
  else
    match decode_delegation data with
    | Throw _ => refuse n rejected
    | Ok (name, connection) =>
        if negb (connection_valid connection) || (256 <? size name) then refuse n rejected
        else
          match d_trust env who cert with
          | Ok true =>
              if bool_decide (is_Some (dsessions s !! p)) then refuse n rejected
              else if dlimit s <=? N.of_nat (base.size (dsessions s)) then refuse n overloaded
              else modify (fun s => with_dsessions s (<[p := MkPrincipal name (Schema.subject who) cert connection]> (dsessions s)));; refuse n ok
          | _ => refuse n rejected
          end
    end.

Definition decode_restore (data : bytes) : result (bytes * bytes * bool) :=
  let* '(type, id, rest) := decode_entity_key data in
  let* '(control, rest) := get_be invalid_argument 1 rest in
  throw_if negb (is_empty rest) || (1 <? control) as invalid_argument ;; Ok (type, id, negb (control =? 0)).

(** [system.gateway.restore] *)
Definition on_restore (who : CallIdentity) (data : bytes) (n : N) : act unit :=
  s ← state;
  if dstopped s then refuse n disconnected
  else if negb (authenticated who s) then refuse n rejected
  else match decode_restore data with
       | Throw _ => refuse n rejected
       | Ok (type, id, control) => read_then type id (g_read who type id control n)
       end.

(** The authorization the host asks for before it reads for [restore]. *)
Definition authorize (who : CallIdentity) (type id : bytes) (control : bool) (owner : bytes) (s : Delegation) : result bool :=
  if dstopped s || negb (authenticated who s) then Ok false
  else match d_restore env with Some f => f who type id control | None => Ok (owns who owner) end.

(** [system.gateway.unpossess] *)
Definition on_unpossess (who : CallIdentity) (data : bytes) (n : N) : act unit :=
  s ← state;
  if dstopped s then refuse n disconnected
  else if negb (authenticated who s) then refuse n rejected
  else match decode_entity_key data with
       | Ok (type, id, []) => emit (host_visibility (Schema.peer who) type id 4 (to_caller n))
       | _ => refuse n rejected
       end.

(** The host calls back [x] with [r]. *)
Definition host_replied (x : stage) (r : Result) : act unit :=
  s ← state;
  let n := stage_reply x in
  if dstopped s then refuse n disconnected
  else if negb (bool_decide (rstatus r = ok)) then reply n r
  else
    match x with
    | g_visible who type id action _ => if negb (authenticated who s) then refuse n rejected else emit (host_visibility (Schema.peer who) type id action (to_caller n))
    | g_read who type id control _ =>
        if negb (authenticated who s) then refuse n rejected
        else
          match (match d_restore env with Some f => f who type id control | None => Ok (owns who (d_owner env type id)) end) with
          | Ok true => show_then (Schema.peer who) type id 1 (g_shown who type id control n)
          | Ok false => refuse n rejected
          | Throw e => raise e
          end
    | g_shown who type id control _ =>
        if negb (authenticated who s) then refuse n rejected else emit (host_visibility (Schema.peer who) type id (if control then 3 else 4) (to_caller n))
    end.
Definition resume (k : N) (r : Result) : act unit :=
  s ← state; match stages s !! k with None => done | Some x => modify (fun s => with_stages s (delete k (stages s)) (dserial s));; host_replied x r end.

(** ** Polling and stopping *)

(** [poll()] *)
Definition dead (s : Delegation) (e : N * Principal) : bool :=
  negb (d_open env e.1) || match valid e.1 e.2 (d_certificate env e.1) s with Ok good => negb good | Throw _ => true end.
Definition dpoll : act unit :=
  s ← state;
  if dstopped s then done
  else for_each (fun e => emit (peer_closed e.1);; modify (fun s => with_dsessions s (delete e.1 (dsessions s)))) (List.filter (dead s) (map_to_list (dsessions s))).

(** [stop()] *)
Definition dstop : act unit :=
  s ← state;
  if dstopped s then done
  else
    modify with_dstopped;;
    for_each (fun r => emit (route_unbound r)) [route_delegate; route_restore; route_unpossess; route_visibility];;
    modify (fun s => with_dsessions s ∅);;
    for_each (fun e => emit (peer_closed e.1)) (map_to_list (dsessions s));; emit resolver_restored.
End Delegation.

(** The constructor; [present]: the resolver, the trust callback and the host are given, [taken]: a route is. *)
Definition delegation_of (present : bool) (taken : bytes -> bool) (limit : N) : result Delegation :=
  throw_if negb present || (limit =? 0) as invalid_argument ;;
  throw_if existsb taken [route_delegate; route_restore; route_unpossess; route_visibility] as logic_error ;;
  Ok (MkDelegation ∅ limit false ∅ 0 []).
