(* ===== verification/DelegationCorrect.v ===== *)
(** * The owner's side of the gateway, proved

    Entities are shown, hidden, possessed and released only for a peer that is at that moment
    a delegated client over a trusted connection; every reply is called or handed to the host
    once; the sessions stay within their limit. *)

From stdpp Require Import gmap.
From S2P Require Import Prelude MapSum Storage OrderedMap Identity Values AttributeWire Messages Fields TimerState DeliveryState Schema Records Programs Directory Transport Actions Gateway Delegation.

(** ** Authority *)

(** The peer [p] is a trusted transport, delegated to [x]. *)
Definition trusted_for (env : DEnv) (s : Delegation) (p : N) (x : Principal) : Prop :=
  dstopped s = false /\ dsessions s !! p = Some x /\ d_open env p = true /\
  exists transport, d_base env p (pcertificate x) = Ok (Some transport) /\ caller transport = server /\ Schema.subject transport = ptransport x /\
    d_certificate env p = pcertificate x /\ d_trust env transport (pcertificate x) = Ok true.

Lemma valid_true env p x cert s : valid env p x cert s = Ok true ->
  dstopped s = false /\ cert = pcertificate x /\ exists transport, d_base env p cert = Ok (Some transport) /\ caller transport = server /\ Schema.subject transport = ptransport x /\ d_trust env transport cert = Ok true.
Proof.
  unfold valid. destruct (d_base env p cert) as [[t|]|]; cbn [bind]; [|done|done]. destruct (dstopped s); [done|]. destruct (caller t) eqn:Ec; [done|]. cbn [orb negb andb].
  destruct (negb (bytes_eqb (Schema.subject t) (ptransport x)) || _) eqn:E; [done|]. apply orb_false_iff in E as [E1%negb_false_iff%bytes_eqb_eq E2%negb_false_iff%bytes_eqb_eq].
  destruct (d_trust env t cert) as [[]|] eqn:Et; cbn; try done. intros _. split; [done|]. split; [done|]. by exists t.
Qed.

Lemma authenticated_trusted env who s : authenticated env who s = true -> exists x, trusted_for env s (Schema.peer who) x /\ psubject x = Schema.subject who /\ pconnection x = Schema.connection who.
Proof.
  unfold authenticated. destruct (dsessions s !! Schema.peer who) as [x|] eqn:Hx; [|done]. rewrite !andb_true_iff. intros [[[[_ _] Hid] Hs%bytes_eqb_eq] Hc%bool_decide_eq_true]. exists x. split; [|done].
  unfold node_identity in Hid. destruct (d_open env (Schema.peer who)) eqn:Ho; [|done]. cbn [negb] in Hid. unfold identify in Hid. rewrite Hx in Hid. destruct (dstopped s) eqn:Hst; [done|].
  destruct (valid env _ x _ s) as [[]|] eqn:Hv; [|done|done]. apply valid_true in Hv as (_ & Hcert & t & H1 & H2 & H3 & H4). rewrite Hcert in *. split_and!; try done. by exists t.
Qed.

(** ** Runs *)

Inductive delegation_op :=
  | do_visibility (who : CallIdentity) (data : bytes) (n : N) | do_delegate (who : CallIdentity) (data : bytes) (n : N) | do_restore (who : CallIdentity) (data : bytes) (n : N)
  | do_unpossess (who : CallIdentity) (data : bytes) (n : N) | do_resume (k : N) (r : Result) | do_poll | do_stop.
Definition dperform (env : DEnv) (o : delegation_op) : act unit :=
  match o with
  | do_visibility who data n => on_visibility env who data n
  | do_delegate who data n => on_delegate env who data n
  | do_restore who data n => on_restore env who data n
  | do_unpossess who data n => on_unpossess env who data n
  | do_resume k r => resume env k r
  | do_poll => dpoll env
  | do_stop => dstop
  end.
Definition dbrings (o : delegation_op) : list N := match o with do_visibility _ _ n | do_delegate _ _ n | do_restore _ _ n | do_unpossess _ _ n => [n] | _ => [] end.

(** The restore callback of the application returns. *)
Definition restores (env : DEnv) : Prop := forall f who type id control, d_restore env = Some f -> is_ok (f who type id control) = true.

Inductive dreachable : list N -> Delegation -> Prop :=
  | dreach_start present taken limit s : delegation_of present taken limit = Ok s -> dreachable [] s
  | dreach_step w s env o : dreachable w s -> restores env -> dreachable (dbrings o ++ w) (dperform env o s).2.

(** The replies called by the component, and those the host was given. *)
Definition called (l : list delegation_output) : list N := omap (fun o => match o with replied_to n _ => Some n | host_visibility _ _ _ _ (to_caller n) => Some n | _ => None end) l.

Record Whole (w hand : list N) (s : Delegation) : Prop := {
  w_replies : called (dlog s) ++ mnames stage_reply (stages s) ++ hand ≡ₚ w;
  w_stages : forall k, is_Some (stages s !! k) -> k <= dserial s;
  w_limit : N.of_nat (base.size (dsessions s)) <= dlimit s;
  w_sessions : forall p x, dsessions s !! p = Some x -> connection_valid (pconnection x) = true /\ size (psubject x) <= 256 }.

Lemma called_outputs_app a b : called (a ++ b) = called a ++ called b.
Proof. apply omap_app. Qed.

(** [holds env s m] from a state where the reply in hand is [hand]: the invariant, nothing in
    hand, and only trusted peers are shown anything. *)
Definition trusted_outputs (env : DEnv) (s : Delegation) (l : list delegation_output) : Prop :=
  forall p type id action to, host_visibility p type id action to ∈ l -> exists x, trusted_for env s p x.
Definition serves (env : DEnv) (s0 : Delegation) (w hand : list N) (s : Delegation) (m : act unit) : Prop :=
  forall r s', m s = (r, s') -> Whole w hand s' /\ exists l, dlog s' = dlog s ++ l /\ trusted_outputs env s0 l.

Lemma serves_done env s0 w s : Whole w [] s -> serves env s0 w [] s done.
Proof. intros H r s' [= <- <-]. split; [done|]. exists []. split; [by rewrite app_nil_r|]. by intros ? ? ? ? ? ?%elem_of_nil. Qed.

Lemma emit_serves env s0 w n s o : Whole w [n] s -> called [o] = [n] -> (forall p type id a to, o = host_visibility p type id a to -> exists x, trusted_for env s0 p x) -> serves env s0 w [] s (emit o).
Proof.
  intros [H1 H2 H3 H4] Hn Ho r s' [= <- <-]. split; [|exists [o]; split; [done|]; intros p type id a to Hin%list_elem_of_singleton; by eapply Ho].
  constructor; cbn; try done. rewrite called_outputs_app, Hn, app_nil_r, <- H1, <- app_assoc. apply Permutation_app_head, Permutation_app_comm.
Qed.
Lemma reply_serves env s0 w n r s : Whole w [n] s -> serves env s0 w [] s (reply n r).
Proof. intros H. by apply (emit_serves env s0 w n). Qed.

Lemma ask_serves env s0 w k s (f : N -> delegation_output) : Whole w [stage_reply k] s ->
  (forall n, called [f n] = []) -> (forall n p type id a to, f n = host_visibility p type id a to -> exists x, trusted_for env s0 p x) -> serves env s0 w [] s (n ← ask k; emit (f n)).
Proof.
  intros [H1 H2 H3 H4] Hn Ho r s' [= <- <-]. assert (Hfresh : stages s !! (dserial s + 1) = None).
  { destruct (stages s !! (dserial s + 1)) eqn:E; [|done]. specialize (H2 (dserial s + 1) ltac:(by eexists)). lia. }
  split; [|exists [f (dserial s + 1)]; split; [done|]; intros p type id a to Hin%list_elem_of_singleton; by eapply Ho]. constructor; cbn; try done.
  - rewrite called_outputs_app, Hn, app_nil_r, app_nil_r, <- H1, mnames_insert by done. apply Permutation_app_head. apply Permutation_cons_append.
  - intros j. destruct (decide (j = dserial s + 1)) as [->|Hj]; [done|]. rewrite lookup_insert_ne by done. intros Hs%H2. lia.
Qed.

Lemma serves_state env s0 w hand s k : serves env s0 w hand s (k s) -> serves env s0 w hand s (state ≫= k).
Proof. intros H r s' E. exact (H r s' E). Qed.

Lemma trusted_now env s who : negb (authenticated env who s) = false -> exists x, trusted_for env s (Schema.peer who) x.
Proof. intros H%negb_false_iff. destruct (authenticated_trusted _ _ _ H) as (x & Hx & _). by exists x. Qed.

Lemma read_serves env s0 w k s type id : Whole w [stage_reply k] s -> serves env s0 w [] s (read_then type id k).
Proof. intros H. by apply ask_serves. Qed.

Lemma visibility_serves env w s who data n : Whole w [n] s -> serves env s w [] s (on_visibility env who data n).
Proof.
  intros H. apply serves_state. destruct (dstopped s); [by apply reply_serves|]. destruct (negb _); [by apply reply_serves|]. destruct (decode_action data) as [[[type id] action]|]; [by apply read_serves|by apply reply_serves].
Qed.
Lemma restore_serves env w s who data n : Whole w [n] s -> serves env s w [] s (on_restore env who data n).
Proof.
  intros H. apply serves_state. destruct (dstopped s); [by apply reply_serves|]. destruct (negb _); [by apply reply_serves|]. destruct (decode_restore data) as [[[type id] control]|]; [by apply read_serves|by apply reply_serves].
Qed.
Lemma unpossess_serves env w s who data n : Whole w [n] s -> serves env s w [] s (on_unpossess env who data n).
Proof.
  intros H. apply serves_state. destruct (dstopped s); [by apply reply_serves|]. destruct (negb _) eqn:Ha; [by apply reply_serves|].
  destruct (decode_entity_key data) as [[[type id] [|b rest]]|]; [|by apply reply_serves..]. apply (emit_serves env s w n); [done|done|]. intros p t i a to [= <- _ _ _ _]. by apply trusted_now.
Qed.

Lemma host_replied_serves env w s s0 x r : restores env -> dsessions s = dsessions s0 -> dstopped s = dstopped s0 -> Whole w [stage_reply x] s -> serves env s0 w [] s (host_replied env x r).
Proof.
  intros Hr E1 E2 H. apply serves_state. cbv zeta. destruct (dstopped s) eqn:Est; [by apply reply_serves|]. destruct (negb (bool_decide _)); [by apply reply_serves|].
  assert (Hnow : forall who, negb (authenticated env who s) = false -> exists y, trusted_for env s0 (Schema.peer who) y).
  { intros who (y & H1 & H2 & H3)%trusted_now. exists y. split_and!; [congruence|by rewrite <- E1|apply H3|apply H3]. }
  destruct x as [who type id action n|who type id control n|who type id control n]; cbn [stage_reply] in *; destruct (negb (authenticated env who s)) eqn:Ha; try by apply reply_serves.
  - apply (emit_serves env s0 w n); [done|done|]. intros p t i a to [= <- _ _ _ _]. by apply Hnow.
  - destruct (match d_restore env with Some f => _ | None => _ end) as [[]|e] eqn:Ef; [|by apply reply_serves|].
    + apply ask_serves; [done|done|]. intros m p t i a to [= <- _ _ _ _]. by apply Hnow.
    + exfalso. destruct (d_restore env) as [f|] eqn:Er; [|done]. specialize (Hr f who type id control Er). by rewrite Ef in Hr.
  - apply (emit_serves env s0 w n); [done|done|]. intros p t i a to [= <- _ _ _ _]. by apply Hnow.
Qed.

Lemma resume_serves env w s k r : restores env -> Whole w [] s -> serves env s w [] s (resume env k r).
Proof.
  intros Hr [H1 H2 H3 H4]. apply serves_state. destruct (stages s !! k) as [x|] eqn:Hx; [|by apply serves_done]. set (s1 := with_stages s (delete k (stages s)) (dserial s)).
  assert (Hs : serves env s w [] s1 (host_replied env x r)); [|intros y s' E; exact (Hs y s' E)]. apply host_replied_serves; [done|done|done|]. constructor; cbn; try done.
  - rewrite <- H1, app_nil_r, (mnames_delete _ _ _ Hx). apply Permutation_app_head. symmetry. apply Permutation_cons_append.
  - intros j [y [_ Hj]%lookup_delete_Some]. apply H2. by eexists.
Qed.

Lemma delegate_serves env w s who data n : Whole w [n] s -> serves env s w [] s (on_delegate env who data n).
Proof.
  intros H. apply serves_state. cbv zeta. destruct (dstopped s); [by apply reply_serves|]. destruct (decode_delegation data) as [[name c]|]; [|by apply reply_serves].
  destruct (_ || _) eqn:Ec; [by apply reply_serves|]. bool_prop. destruct Ec as [Ec En]. destruct (d_trust env who _) as [[]|]; [|by apply reply_serves..]. case_bool_decide as Hp; [by apply reply_serves|].
  destruct (N.leb_spec (dlimit s) (N.of_nat (base.size (dsessions s)))) as [|Hn]; [by apply reply_serves|]. set (s1 := with_dsessions s (<[Schema.peer who := MkPrincipal name (Schema.subject who) (d_certificate env (Schema.peer who)) c]> (dsessions s))).
  assert (Hs : serves env s w [] s1 (refuse n ok)); [|intros y s' E; exact (Hs y s' E)]. apply reply_serves. destruct H as [H1 H2 H3 H4]. constructor; cbn; try done.
  - rewrite map_size_insert_None by (by apply eq_None_not_Some). lia.
  - intros q y. destruct (decide (q = Schema.peer who)) as [->|Hq]; [rewrite lookup_insert_eq; intros [= <-]; cbn; auto|rewrite lookup_insert_ne by done; apply H4].
Qed.

(** Loops that close peers and forget sessions. *)
Lemma forget_whole w s (f : gmap N Principal -> gmap N Principal) : (forall m, f m ⊆ m) -> Whole w [] s -> Whole w [] (with_dsessions s (f (dsessions s))).
Proof.
  intros Hf [H1 H2 H3 H4]. constructor; cbn; try done.
  - pose proof (map_subseteq_size _ _ (Hf (dsessions s))). lia.
  - intros p x Hx. apply (H4 p). by eapply lookup_weaken.
Qed.
Lemma note_serves env s0 w s o : called [o] = [] -> (forall p type id a to, o <> host_visibility p type id a to) -> Whole w [] s -> serves env s0 w [] s (emit o).
Proof.
  intros Ho Hv [H1 H2 H3 H4] r s' [= <- <-]. split; [|exists [o]; split; [done|]; intros p type id a to Hin%list_elem_of_singleton; by destruct (Hv p type id a to)].
  constructor; cbn; try done. by rewrite called_outputs_app, Ho, app_nil_r.
Qed.
Lemma serves_bind env s0 w s m (k : unit -> act unit) : serves env s0 w [] s m -> (forall s', Whole w [] s' -> serves env s0 w [] s' (k tt)) -> serves env s0 w [] s (m ≫= k).
Proof.
  intros Hm Hk r s'. unfold mbind, act_bind. destruct (m s) as [[[]|e] s1] eqn:E.
  - destruct (Hm _ _ E) as (H1 & l & El & Hl). intros E2. destruct (Hk s1 H1 _ _ E2) as (H2 & l2 & El2 & Hl2). split; [done|]. exists (l ++ l2). split; [by rewrite El2, El, app_assoc|].
    intros p type id a to [Hin|Hin]%elem_of_app; [by eapply Hl|by eapply Hl2].
  - intros [= <- <-]. by destruct (Hm _ _ E) as (H1 & l & El & Hl); split; [|exists l].
Qed.
Lemma serves_each {A} env s0 w (f : A -> act unit) l : (forall a s, Whole w [] s -> serves env s0 w [] s (f a)) -> forall s, Whole w [] s -> serves env s0 w [] s (for_each f l).
Proof.
  intros Hf. induction l as [|a l IH]; intros s H; cbn [for_each]; [by apply serves_done|]. apply serves_bind; [by apply Hf|]. intros s' H'. by apply IH.
Qed.
Lemma modify_serves env s0 w s f : Whole w [] (f s) -> dlog (f s) = dlog s -> serves env s0 w [] s (modify f).
Proof. intros H E r s' [= <- <-]. split; [done|]. exists []. rewrite app_nil_r. split; [done|]. by intros ? ? ? ? ? ?%elem_of_nil. Qed.

Lemma dpoll_serves env w s : Whole w [] s -> serves env s w [] s (dpoll env).
Proof.
  intros H. apply serves_state. destruct (dstopped s); [by apply serves_done|]. apply serves_each; [|done]. intros e s1 H1. apply serves_bind; [by apply note_serves|]. intros s2 H2.
  apply modify_serves; [|done]. apply (forget_whole w s2 (delete e.1)); [|done]. intros m. apply delete_subseteq.
Qed.
Lemma dstop_serves env w s : Whole w [] s -> serves env s w [] s dstop.
Proof.
  intros H. apply serves_state. destruct (dstopped s); [by apply serves_done|]. apply serves_bind; [apply modify_serves; [by destruct H|done]|]. intros s1 H1.
  apply serves_bind; [apply serves_each; [|done]; intros r s' H'; by apply note_serves|]. intros s2 H2. apply serves_bind; [apply modify_serves; [|done]; apply (forget_whole w s2 (fun _ => ∅)); [intros m; apply map_empty_subseteq|done]|].
  intros s3 H3. apply serves_bind; [apply serves_each; [|done]; intros e s' H'; by apply note_serves|]. intros s4 H4. by apply note_serves.
Qed.

Lemma dperform_serves env w s o : restores env -> Whole w [] s -> serves env s (dbrings o ++ w) [] s (dperform env o).
Proof.
  intros Hr H. assert (Hb : Whole (dbrings o ++ w) (dbrings o) s).
  { destruct H as [H1 H2 H3 H4]. constructor; try done. rewrite <- H1, app_nil_r, (Permutation_app_comm (dbrings o)). by rewrite app_assoc. }
  destruct o; cbn [dperform dbrings] in *; [by apply visibility_serves|by apply delegate_serves|by apply restore_serves|by apply unpossess_serves|by apply resume_serves|by apply dpoll_serves|by apply dstop_serves].
Qed.

Lemma dreachable_whole w s : dreachable w s -> Whole w [] s.
Proof.
  induction 1 as [present taken limit s H|w s env o _ IH Hr].
  - unfold delegation_of in H. inv_ok. constructor; cbn; rewrite ?mnames_empty, ?map_size_empty; try done; [by intros k [? ?]|lia].
  - destruct (dperform env o s) as [r s'] eqn:E. by apply (dperform_serves env w s o Hr IH r s').
Qed.

(** ** What a run guarantees *)

(** C17 (safety).  Whatever is called in whatever order, an operation asks the entity host to
    show, hide, possess or release an entity for a peer only when that peer is, in that
    operation, an open connection delegated to a client: the transport behind it is resolved to
    a server with the subject and certificate it was delegated with, and is still trusted.
    Delegated sessions stay within their limit, each with a valid connection and a subject of
    at most 256 bytes. *)
Theorem visibility_trusted w s env o : dreachable w s -> restores env ->
  N.of_nat (base.size (dsessions s)) <= dlimit s /\
  (forall p x, dsessions s !! p = Some x -> connection_valid (pconnection x) = true /\ size (psubject x) <= 256) /\
  exists l, dlog (dperform env o s).2 = dlog s ++ l /\ forall p type id action to, host_visibility p type id action to ∈ l -> exists x, trusted_for env s p x.
Proof.
  intros H%dreachable_whole Hr. split; [apply H|]. split; [apply H|]. destruct (dperform env o s) as [r s'] eqn:E. by apply (dperform_serves env w s o Hr H r s').
Qed.

(** Every reply given to the routes of the component is called once or handed to the entity
    host once, or held by a callback the host still owes, when the application's restore
    callback returns. *)
Theorem delegation_answers_once w s : dreachable w s -> called (dlog s) ++ mnames stage_reply (stages s) ≡ₚ w.
Proof. intros [H _ _ _]%dreachable_whole. by rewrite app_nil_r in H. Qed.

(** The owner reads back the principal the gateway delegates. *)
Theorem delegation_agrees subject connection payload : connection_wf connection -> delegation subject connection = Ok payload -> decode_delegation payload = Ok (subject, connection).
Proof.
  intros Hw H. unfold delegation in H. apply bind_ok in H as (a & Ha & H). apply bind_ok in H as (k & Hk & H). apply bind_ok in H as (b & Hb & H). apply Ok_inj in H as <-.
  apply blob_Ok in Ha as [Hs ->]. apply blob_Ok in Hb as [Hn ->]. unfold decode_delegation. rewrite starts_with_app. cbn [negb].
  change (drop 5 (lit "FSCN1" ++ wire_blob subject ++ wire_blob k)) with (wire_blob subject ++ wire_blob k). rewrite read_blob_app by done. cbn [bind].
  rewrite <- (app_nil_r (wire_blob k)), read_blob_app by done. cbn [bind]. by rewrite (from_key_complete _ _ Hw Hk).
Qed.

(** A restore callback that throws once the entity was read leaves the caller unanswered. *)
Example restore_exception_unanswered :
  let who := MkIdentity client (lit "ann") 7 (MkConnection (lit "0123456789abcdef0123456789abcdef") 1) None None in
  let gateway := MkIdentity server (lit "gw") 7 (MkConnection (lit "0123456789abcdef0123456789abcdef") 1) None None in
  let env := MkDEnv (fun _ _ => Ok (Some gateway)) (fun _ _ => Ok true) (Some (fun _ _ _ _ => Throw runtime_error)) (fun _ => lit "cert") (fun _ => true) (fun _ => MkConnection [] 0) (fun _ _ => []) in
  let s := MkDelegation {[7 := MkPrincipal (lit "ann") (lit "gw") (lit "cert") (MkConnection (lit "0123456789abcdef0123456789abcdef") 1)]} 4 false {[1 := g_read who (lit "Avatar") (lit "00000000000000a1") true 3]} 1 [] in
  let s' := (resume env 1 (MkResult ok []) s).2 in
  called (dlog s) ++ mnames stage_reply (stages s) = [3] /\ called (dlog s') ++ mnames stage_reply (stages s') = [].
Proof. by vm_compute. Qed.

(** ** A run: a gateway delegates a client, which shows an entity *)

Definition sample_gate : CallIdentity := MkIdentity server (lit "gw") 7 (MkConnection (lit "fedcba9876543210fedcba9876543210") 1) None None.
Definition sample_ann : CallIdentity := MkIdentity client (lit "ann") 7 (MkConnection (lit "0123456789abcdef0123456789abcdef") 1) None None.
Definition sample_trust : DEnv := MkDEnv (fun _ _ => Ok (Some sample_gate)) (fun who _ => Ok (bytes_eqb (Schema.subject who) (lit "gw"))) None (fun _ => lit "cert") (fun _ => true) (fun _ => MkConnection [] 0) (fun _ _ => []).
Definition sample_payload : bytes := match delegation (lit "ann") (Schema.connection sample_ann) with Ok d => d | Throw _ => [] end.
Definition sample_show : bytes := match encode_entity_key (lit "Avatar") (lit "00000000000000a1") with Ok k => k ++ [byte_of 1] | Throw _ => [] end.
Definition sample_delegated : Delegation := (dperform sample_trust (do_visibility sample_ann sample_show 2) (dperform sample_trust (do_delegate sample_gate sample_payload 1) (MkDelegation ∅ 4 false ∅ 0 [])).2).2.

Lemma sample_delegated_reachable : dreachable [2; 1] sample_delegated.
Proof.
  apply (dreach_step [1] _ sample_trust (do_visibility sample_ann sample_show 2)); [|done]. apply (dreach_step [] _ sample_trust (do_delegate sample_gate sample_payload 1)); [|done].
  by apply (dreach_start true (fun _ => false) 4).
Qed.

Lemma visibility_trusted_witness :
  dlog (dperform sample_trust (do_resume 1 (MkResult ok [])) sample_delegated).2 = dlog sample_delegated ++ [host_visibility 7 (lit "Avatar") (lit "00000000000000a1") 1 (to_caller 2)] /\
  exists x, trusted_for sample_trust sample_delegated 7 x /\ psubject x = lit "ann".
Proof.
  split; [by vm_compute|]. destruct (visibility_trusted [2; 1] sample_delegated sample_trust (do_resume 1 (MkResult ok [])) sample_delegated_reachable) as (_ & _ & l & El & Hl); [done|].
  assert (Hin : host_visibility 7 (lit "Avatar") (lit "00000000000000a1") 1 (to_caller 2) ∈ l).
  { assert (E2 : dlog (dperform sample_trust (do_resume 1 (MkResult ok [])) sample_delegated).2 = dlog sample_delegated ++ [host_visibility 7 (lit "Avatar") (lit "00000000000000a1") 1 (to_caller 2)]) by by vm_compute.
    rewrite E2 in El. apply app_inv_head in El. rewrite <- El. by left. }
  destruct (Hl _ _ _ _ _ Hin) as [x Hx]. exists x. split; [exact Hx|]. destruct Hx as (_ & Hx & _). vm_compute in Hx. by injection Hx as <-.
Defined.
