(* ===== verification/Scripts.v ===== *)
(** * The script engine

    The scheduler of [LuaEngine] ([src/lua_engine.cpp]): loading a script, admission of calls,
    coroutine tasks, their waits, completions and watch leases, polling and stopping.

    The Lua machine, the host, the clock and the liveness of a caller are read through a
    [View]: the moment counter numbers the readings, so that each may differ from the last.  A
    reply given to the engine is a [callback], the value of a C++ closure: its name and what it
    does with a result, which may re-enter the engine (submit further calls, complete awaited
    ones, stop it) and may throw.  The functions of the Lua registry and the threads are
    numbers; [log] keeps what the engine does, oldest first. *)

From stdpp Require Import gmap.
From S2P Require Import Prelude Storage OrderedMap Identity Values AttributeWire Messages Fields TimerState DeliveryState Schema Transport Actions.

(** ** Data *)

Record ScriptLimits := MkScriptLimits {
  memory_bytes : N; source_bytes : N; queued_requests : N; max_queued_bytes : N; active_coroutines : N; registered_routes : N;
  instructions_per_resume : N; task_timeout : Z }.

Inductive await_kind := k_rpc | k_sleep | k_watch | k_write | k_create | k_bind_owner | k_control | k_transfer | k_send | k_visibility.
#[global] Instance await_kind_eq_dec : EqDecision await_kind.
Proof. solve_decision. Defined.

Record Spawn := MkSpawn { sp_scope : bytes; sp_key : bytes; sp_owner : ConnectionRef; sp_node : bytes; sp_rebuildable : bool }.
Record Await := MkAwait {
  apeer : N; aroute : bytes; adata : bytes; atarget : bytes; aentity : bytes; asource_type : bytes; asource_id : bytes; atimeout : Z; akind : await_kind;
  asubscription : N; aexpected : option N; arequest : bytes; avalues : AttributeStruct; aaction : N; acreation : Spawn }.

(** The calls of the host that answer an await. *)
Inductive host_request :=
  | h_watch (type id : bytes) (timeout : Z) | h_write (subscription : N) (values : AttributeStruct) (expected : option N) (request : bytes) (timeout : Z)
  | h_create (type : bytes) (values : AttributeStruct) (creation : Spawn) | h_bind_owner (type id : bytes) (owner : ConnectionRef)
  | h_send (source_type source_id type id method payload : bytes) | h_transfer (type id node : bytes) | h_control (type id : bytes) (on : bool)
  | h_visibility (peer : N) (type id : bytes) (action : N) | h_call (peer : N) (route data : bytes) (timeout : Z) | h_call_entity (route data : bytes) (timeout : Z).

(** A reply closure and what it does to the engine when it is called. *)
Inductive callback := Callback (name : N) (does : Result -> list action * option exn)
with action :=
  | a_submit (route : bytes) (who : CallIdentity) (data : bytes) (reply : callback)
  | a_completed (id generation : N) (r : Result)
  | a_watched (id generation : N) (status : Status) (subscription : N)
  | a_stop.

(** The reply of a task: a caller's, or that of a task started by the script. *)
Inductive reply := r_call (c : callback) | r_start (critical : bool).

(** [twatch] is [pending_watch], the subscription of its lease. *)
Record Task := MkTask {
  tthread : N; treference : option N; tfunction : option N; tdata : bytes; tentity : bytes; ttype : bytes; tmailbox : bytes; treply : reply; tidentity : CallIdentity; tcontextual : bool;
  twaiting : bool; tbackground : bool; tinitialization : bool; tcompletion_queued : bool; twake : option Z; tgeneration : N;
  twatch : option N; tdeadline : Z }.

Record Start := MkStart { start_function : N; start_critical : bool }.

(** The closure bound to a route. *)
Record Handler := MkHandler { hfunction : N; hkind : bytes; hcontextual : bool }.

Inductive output :=
  | o_given (name : N) | o_answered (name : N) (r : Result) | o_started (critical : bool) (r : Result)
  | o_accepted (mailbox : bytes) (name : N) | o_dequeued (mailbox : bytes) (name : N)
  | o_resumed (id : N) (arguments : N) | o_host (id generation : N) (r : host_request)
  | o_delivered (status : Status) (subscription : N) | o_unwatched (subscription : N) | o_adopted (subscription : N)
  | o_reset (thread : N) | o_unref (reference : N) | o_bound (route : bytes) | o_unbound (route : bytes) | o_defined (type : bytes) | o_forgotten (type : bytes)
  | o_closed | o_misplaced_stop.

(** What the script registers while it is loaded. *)
Record Registry := MkRegistry {
  routes : gmap bytes N; entity_routes : gmap bytes bytes; stateful_routes : gmap bytes bytes; policies : gmap bytes RpcPolicy;
  schemas : gmap bytes EntitySchema; server_schemas : gset bytes; starts : list Start }.

Record Engine := MkEngine {
  limits : ScriptLimits; registry : Registry; queue : list Task; tasks : gmap N Task; threads : gmap N N; resumes : list (N * Result); busy : gset bytes;
  queued_bytes : N; completed_bytes : N; stopped : bool; loaded : bool; loading : bool; polling : bool; stop_requested : bool;
  initialization_failed : bool; initialization_pending : N; serial : N; bound : list bytes; defined_schemas : list bytes;
  handlers : gmap bytes Handler; delivered : gmap (N * N) N; moment : N; next_thread : N; log : list output }.

(** *** Updates *)

Definition with_registry (s : Engine) (x : Registry) : Engine :=
  MkEngine (limits s) x (queue s) (tasks s) (threads s) (resumes s) (busy s) (queued_bytes s) (completed_bytes s) (stopped s) (loaded s) (loading s) (polling s) (stop_requested s) (initialization_failed s) (initialization_pending s) (serial s) (bound s) (defined_schemas s) (handlers s) (delivered s) (moment s) (next_thread s) (log s).
Definition with_queue (s : Engine) (x : list Task) : Engine :=
  MkEngine (limits s) (registry s) x (tasks s) (threads s) (resumes s) (busy s) (queued_bytes s) (completed_bytes s) (stopped s) (loaded s) (loading s) (polling s) (stop_requested s) (initialization_failed s) (initialization_pending s) (serial s) (bound s) (defined_schemas s) (handlers s) (delivered s) (moment s) (next_thread s) (log s).
Definition with_tasks (s : Engine) (x : gmap N Task) : Engine :=
  MkEngine (limits s) (registry s) (queue s) x (threads s) (resumes s) (busy s) (queued_bytes s) (completed_bytes s) (stopped s) (loaded s) (loading s) (polling s) (stop_requested s) (initialization_failed s) (initialization_pending s) (serial s) (bound s) (defined_schemas s) (handlers s) (delivered s) (moment s) (next_thread s) (log s).
Definition with_threads (s : Engine) (x : gmap N N) : Engine :=
  MkEngine (limits s) (registry s) (queue s) (tasks s) x (resumes s) (busy s) (queued_bytes s) (completed_bytes s) (stopped s) (loaded s) (loading s) (polling s) (stop_requested s) (initialization_failed s) (initialization_pending s) (serial s) (bound s) (defined_schemas s) (handlers s) (delivered s) (moment s) (next_thread s) (log s).
Definition with_resumes (s : Engine) (x : list (N * Result)) : Engine :=
  MkEngine (limits s) (registry s) (queue s) (tasks s) (threads s) x (busy s) (queued_bytes s) (completed_bytes s) (stopped s) (loaded s) (loading s) (polling s) (stop_requested s) (initialization_failed s) (initialization_pending s) (serial s) (bound s) (defined_schemas s) (handlers s) (delivered s) (moment s) (next_thread s) (log s).
Definition with_busy (s : Engine) (x : gset bytes) : Engine :=
  MkEngine (limits s) (registry s) (queue s) (tasks s) (threads s) (resumes s) x (queued_bytes s) (completed_bytes s) (stopped s) (loaded s) (loading s) (polling s) (stop_requested s) (initialization_failed s) (initialization_pending s) (serial s) (bound s) (defined_schemas s) (handlers s) (delivered s) (moment s) (next_thread s) (log s).
Definition with_queued_bytes (s : Engine) (x : N) : Engine :=
  MkEngine (limits s) (registry s) (queue s) (tasks s) (threads s) (resumes s) (busy s) x (completed_bytes s) (stopped s) (loaded s) (loading s) (polling s) (stop_requested s) (initialization_failed s) (initialization_pending s) (serial s) (bound s) (defined_schemas s) (handlers s) (delivered s) (moment s) (next_thread s) (log s).
Definition with_completed_bytes (s : Engine) (x : N) : Engine :=
  MkEngine (limits s) (registry s) (queue s) (tasks s) (threads s) (resumes s) (busy s) (queued_bytes s) x (stopped s) (loaded s) (loading s) (polling s) (stop_requested s) (initialization_failed s) (initialization_pending s) (serial s) (bound s) (defined_schemas s) (handlers s) (delivered s) (moment s) (next_thread s) (log s).
Definition with_stopped (s : Engine) (x : bool) : Engine :=
  MkEngine (limits s) (registry s) (queue s) (tasks s) (threads s) (resumes s) (busy s) (queued_bytes s) (completed_bytes s) x (loaded s) (loading s) (polling s) (stop_requested s) (initialization_failed s) (initialization_pending s) (serial s) (bound s) (defined_schemas s) (handlers s) (delivered s) (moment s) (next_thread s) (log s).
Definition with_loaded (s : Engine) (x : bool) : Engine :=
  MkEngine (limits s) (registry s) (queue s) (tasks s) (threads s) (resumes s) (busy s) (queued_bytes s) (completed_bytes s) (stopped s) x (loading s) (polling s) (stop_requested s) (initialization_failed s) (initialization_pending s) (serial s) (bound s) (defined_schemas s) (handlers s) (delivered s) (moment s) (next_thread s) (log s).
Definition with_loading (s : Engine) (x : bool) : Engine :=
  MkEngine (limits s) (registry s) (queue s) (tasks s) (threads s) (resumes s) (busy s) (queued_bytes s) (completed_bytes s) (stopped s) (loaded s) x (polling s) (stop_requested s) (initialization_failed s) (initialization_pending s) (serial s) (bound s) (defined_schemas s) (handlers s) (delivered s) (moment s) (next_thread s) (log s).
Definition with_polling (s : Engine) (x : bool) : Engine :=
  MkEngine (limits s) (registry s) (queue s) (tasks s) (threads s) (resumes s) (busy s) (queued_bytes s) (completed_bytes s) (stopped s) (loaded s) (loading s) x (stop_requested s) (initialization_failed s) (initialization_pending s) (serial s) (bound s) (defined_schemas s) (handlers s) (delivered s) (moment s) (next_thread s) (log s).
Definition with_stop_requested (s : Engine) (x : bool) : Engine :=
  MkEngine (limits s) (registry s) (queue s) (tasks s) (threads s) (resumes s) (busy s) (queued_bytes s) (completed_bytes s) (stopped s) (loaded s) (loading s) (polling s) x (initialization_failed s) (initialization_pending s) (serial s) (bound s) (defined_schemas s) (handlers s) (delivered s) (moment s) (next_thread s) (log s).
Definition with_initialization_failed (s : Engine) (x : bool) : Engine :=
  MkEngine (limits s) (registry s) (queue s) (tasks s) (threads s) (resumes s) (busy s) (queued_bytes s) (completed_bytes s) (stopped s) (loaded s) (loading s) (polling s) (stop_requested s) x (initialization_pending s) (serial s) (bound s) (defined_schemas s) (handlers s) (delivered s) (moment s) (next_thread s) (log s).
Definition with_initialization_pending (s : Engine) (x : N) : Engine :=
  MkEngine (limits s) (registry s) (queue s) (tasks s) (threads s) (resumes s) (busy s) (queued_bytes s) (completed_bytes s) (stopped s) (loaded s) (loading s) (polling s) (stop_requested s) (initialization_failed s) x (serial s) (bound s) (defined_schemas s) (handlers s) (delivered s) (moment s) (next_thread s) (log s).
Definition with_serial (s : Engine) (x : N) : Engine :=
  MkEngine (limits s) (registry s) (queue s) (tasks s) (threads s) (resumes s) (busy s) (queued_bytes s) (completed_bytes s) (stopped s) (loaded s) (loading s) (polling s) (stop_requested s) (initialization_failed s) (initialization_pending s) x (bound s) (defined_schemas s) (handlers s) (delivered s) (moment s) (next_thread s) (log s).
Definition with_bound (s : Engine) (x : list bytes) : Engine :=
  MkEngine (limits s) (registry s) (queue s) (tasks s) (threads s) (resumes s) (busy s) (queued_bytes s) (completed_bytes s) (stopped s) (loaded s) (loading s) (polling s) (stop_requested s) (initialization_failed s) (initialization_pending s) (serial s) x (defined_schemas s) (handlers s) (delivered s) (moment s) (next_thread s) (log s).
Definition with_defined_schemas (s : Engine) (x : list bytes) : Engine :=
  MkEngine (limits s) (registry s) (queue s) (tasks s) (threads s) (resumes s) (busy s) (queued_bytes s) (completed_bytes s) (stopped s) (loaded s) (loading s) (polling s) (stop_requested s) (initialization_failed s) (initialization_pending s) (serial s) (bound s) x (handlers s) (delivered s) (moment s) (next_thread s) (log s).
Definition with_handlers (s : Engine) (x : gmap bytes Handler) : Engine :=
  MkEngine (limits s) (registry s) (queue s) (tasks s) (threads s) (resumes s) (busy s) (queued_bytes s) (completed_bytes s) (stopped s) (loaded s) (loading s) (polling s) (stop_requested s) (initialization_failed s) (initialization_pending s) (serial s) (bound s) (defined_schemas s) x (delivered s) (moment s) (next_thread s) (log s).
Definition with_delivered (s : Engine) (x : gmap (N * N) N) : Engine :=
  MkEngine (limits s) (registry s) (queue s) (tasks s) (threads s) (resumes s) (busy s) (queued_bytes s) (completed_bytes s) (stopped s) (loaded s) (loading s) (polling s) (stop_requested s) (initialization_failed s) (initialization_pending s) (serial s) (bound s) (defined_schemas s) (handlers s) x (moment s) (next_thread s) (log s).
Definition with_moment (s : Engine) (x : N) : Engine :=
  MkEngine (limits s) (registry s) (queue s) (tasks s) (threads s) (resumes s) (busy s) (queued_bytes s) (completed_bytes s) (stopped s) (loaded s) (loading s) (polling s) (stop_requested s) (initialization_failed s) (initialization_pending s) (serial s) (bound s) (defined_schemas s) (handlers s) (delivered s) x (next_thread s) (log s).
Definition with_next_thread (s : Engine) (x : N) : Engine :=
  MkEngine (limits s) (registry s) (queue s) (tasks s) (threads s) (resumes s) (busy s) (queued_bytes s) (completed_bytes s) (stopped s) (loaded s) (loading s) (polling s) (stop_requested s) (initialization_failed s) (initialization_pending s) (serial s) (bound s) (defined_schemas s) (handlers s) (delivered s) (moment s) x (log s).
Definition with_log (s : Engine) (x : list output) : Engine :=
  MkEngine (limits s) (registry s) (queue s) (tasks s) (threads s) (resumes s) (busy s) (queued_bytes s) (completed_bytes s) (stopped s) (loaded s) (loading s) (polling s) (stop_requested s) (initialization_failed s) (initialization_pending s) (serial s) (bound s) (defined_schemas s) (handlers s) (delivered s) (moment s) (next_thread s) x.
Definition task_thread (x : N) (t : Task) : Task :=
  MkTask x (treference t) (tfunction t) (tdata t) (tentity t) (ttype t) (tmailbox t) (treply t) (tidentity t) (tcontextual t) (twaiting t) (tbackground t) (tinitialization t) (tcompletion_queued t) (twake t) (tgeneration t) (twatch t) (tdeadline t).
Definition task_reference (x : option N) (t : Task) : Task :=
  MkTask (tthread t) x (tfunction t) (tdata t) (tentity t) (ttype t) (tmailbox t) (treply t) (tidentity t) (tcontextual t) (twaiting t) (tbackground t) (tinitialization t) (tcompletion_queued t) (twake t) (tgeneration t) (twatch t) (tdeadline t).
Definition task_data (x : bytes) (t : Task) : Task :=
  MkTask (tthread t) (treference t) (tfunction t) x (tentity t) (ttype t) (tmailbox t) (treply t) (tidentity t) (tcontextual t) (twaiting t) (tbackground t) (tinitialization t) (tcompletion_queued t) (twake t) (tgeneration t) (twatch t) (tdeadline t).
Definition task_reply (x : reply) (t : Task) : Task :=
  MkTask (tthread t) (treference t) (tfunction t) (tdata t) (tentity t) (ttype t) (tmailbox t) x (tidentity t) (tcontextual t) (twaiting t) (tbackground t) (tinitialization t) (tcompletion_queued t) (twake t) (tgeneration t) (twatch t) (tdeadline t).
Definition task_waiting (x : bool) (t : Task) : Task :=
  MkTask (tthread t) (treference t) (tfunction t) (tdata t) (tentity t) (ttype t) (tmailbox t) (treply t) (tidentity t) (tcontextual t) x (tbackground t) (tinitialization t) (tcompletion_queued t) (twake t) (tgeneration t) (twatch t) (tdeadline t).
Definition task_completion_queued (x : bool) (t : Task) : Task :=
  MkTask (tthread t) (treference t) (tfunction t) (tdata t) (tentity t) (ttype t) (tmailbox t) (treply t) (tidentity t) (tcontextual t) (twaiting t) (tbackground t) (tinitialization t) x (twake t) (tgeneration t) (twatch t) (tdeadline t).
Definition task_wake (x : option Z) (t : Task) : Task :=
  MkTask (tthread t) (treference t) (tfunction t) (tdata t) (tentity t) (ttype t) (tmailbox t) (treply t) (tidentity t) (tcontextual t) (twaiting t) (tbackground t) (tinitialization t) (tcompletion_queued t) x (tgeneration t) (twatch t) (tdeadline t).
Definition task_generation (x : N) (t : Task) : Task :=
  MkTask (tthread t) (treference t) (tfunction t) (tdata t) (tentity t) (ttype t) (tmailbox t) (treply t) (tidentity t) (tcontextual t) (twaiting t) (tbackground t) (tinitialization t) (tcompletion_queued t) (twake t) x (twatch t) (tdeadline t).
Definition task_watch (x : option N) (t : Task) : Task :=
  MkTask (tthread t) (treference t) (tfunction t) (tdata t) (tentity t) (ttype t) (tmailbox t) (treply t) (tidentity t) (tcontextual t) (twaiting t) (tbackground t) (tinitialization t) (tcompletion_queued t) (twake t) (tgeneration t) x (tdeadline t).
Definition task_deadline (x : Z) (t : Task) : Task :=
  MkTask (tthread t) (treference t) (tfunction t) (tdata t) (tentity t) (ttype t) (tmailbox t) (treply t) (tidentity t) (tcontextual t) (twaiting t) (tbackground t) (tinitialization t) (tcompletion_queued t) (twake t) (tgeneration t) (twatch t) x.
Definition reg_routes (g : Registry) (x : gmap bytes N) : Registry :=
  MkRegistry x (entity_routes g) (stateful_routes g) (policies g) (schemas g) (server_schemas g) (starts g).
Definition reg_entity_routes (g : Registry) (x : gmap bytes bytes) : Registry :=
  MkRegistry (routes g) x (stateful_routes g) (policies g) (schemas g) (server_schemas g) (starts g).
Definition reg_stateful_routes (g : Registry) (x : gmap bytes bytes) : Registry :=
  MkRegistry (routes g) (entity_routes g) x (policies g) (schemas g) (server_schemas g) (starts g).
Definition reg_policies (g : Registry) (x : gmap bytes RpcPolicy) : Registry :=
  MkRegistry (routes g) (entity_routes g) (stateful_routes g) x (schemas g) (server_schemas g) (starts g).
Definition reg_schemas (g : Registry) (x : gmap bytes EntitySchema) : Registry :=
  MkRegistry (routes g) (entity_routes g) (stateful_routes g) (policies g) x (server_schemas g) (starts g).
Definition reg_server_schemas (g : Registry) (x : gset bytes) : Registry :=
  MkRegistry (routes g) (entity_routes g) (stateful_routes g) (policies g) (schemas g) x (starts g).
Definition reg_starts (g : Registry) (x : list Start) : Registry :=
  MkRegistry (routes g) (entity_routes g) (stateful_routes g) (policies g) (schemas g) (server_schemas g) x.

Abbreviation act := (Actions.act Engine).

(** ** What the engine is told *)

Inductive lua_status := lua_ok (value : option bytes) | lua_yield | lua_errmem | lua_errrun.

(** What became of the task's watch lease while the coroutine ran: a Lua object took it over,
    the script closed it, or nothing. *)
Inductive lease_use := lease_kept | lease_adopted | lease_closed.

Record Resumed := MkResumed {
  timed_out : bool; memory_exhausted : bool; script_rejected : bool; exhausted : bool; status_of : lua_status; awaits : option Await; lease_of : lease_use }.

(** A registration made by the script; a class registers several and may fail. *)
Inductive load_call :=
  | l_rpc (name : bytes) (function : N) (type initial : option bytes) (policy : option RpcPolicy)
  | l_schema (kind : bytes) (schema : EntitySchema) (published affordable : bool)
  | l_start (function : N) (critical : bool)
  | l_class (calls : list load_call) (failed : bool).

Inductive prepared := p_ready | p_failed (referenced : bool).

Record View := MkView {
  v_now : Z; v_live : CallIdentity -> bool; v_prepared : prepared; v_returned : bool; v_resumed : Resumed; v_host : list action * option exn; v_shared : bool;
  v_compiled : bool; v_script : list load_call; v_has_route : bytes -> bool; v_define : bytes -> option exn; v_bind : bytes -> option exn }.

(** [identity.live()]: an identity without closures is live. *)
Definition alive (v : View) (who : CallIdentity) : bool := match current who, execution who with None, None => true | _, _ => v_live v who end.

Definition is_ok_status (x : Status) : bool := bool_decide (x = ok).
Definition failed_with (x : Status) : Result := MkResult x [].
Definition note (o : output) : act unit := modify (fun s => with_log s (log s ++ [o])).
Definition callback_name (c : callback) : N := match c with Callback n _ => n end.

Section Engine.
Context (world : N -> View).

Definition look : act View := s ← state; modify (fun s => with_moment s (moment s + 1));; mret (world (moment s)).

(** ** Completions *)

Definition update_task (id : N) (f : Task -> Task) (s : Engine) : Engine := with_tasks s (alter f id (tasks s)).

(** The completion closure of an await. *)
Definition completed (id generation : N) (r : Result) : act unit :=
  s ← state;
  if stopped s then done
  else
    match tasks s !! id with
    | None => done
    | Some t =>
        if negb (twaiting t) || negb (tgeneration t =? generation) || tcompletion_queued t then done
        else
          let r := if max_queued_bytes (limits s) - completed_bytes s <? size (rdata r) then failed_with overloaded else r in
          modify (fun s => with_completed_bytes (with_resumes s (resumes s ++ [(id, r)])) (completed_bytes s + size (rdata r)));;
          modify (update_task id (task_completion_queued true))
    end.

Definition unwatch (subscription : N) : act unit := when (negb (subscription =? 0)) (note (o_unwatched subscription)).

(** [pending_watch=std::make_shared<WatchLease>(...)]: the lease it replaces is closed unless a
    Lua object shares it. *)
Definition lease (id subscription : N) : act unit :=
  v ← look;
  s ← state;
  match (tasks s !! id) ≫= twatch with
  | Some old => note (if v_shared v then o_adopted old else o_unwatched old)
  | None => done
  end;;
  modify (update_task id (task_watch (Some subscription))).

(** The closure given to [watch_attributes]. *)
Definition watched (id generation : N) (status : Status) (subscription : N) : act unit :=
  s ← state;
  match delivered s !! (id, generation) with
  | Some first => when (negb (subscription =? first)) (unwatch subscription)
  | None =>
      modify (fun s => with_delivered s (<[(id, generation) := subscription]> (delivered s)));;
      if stopped s || match tasks s !! id with None => true | Some t => negb (tgeneration t =? generation) end
      then unwatch subscription;; note (o_delivered status subscription)
      else
        when (is_ok_status status && negb (subscription =? 0)) (lease id subscription);; note (o_delivered status subscription);;
        completed id generation (MkResult status (if is_ok_status status then put_be 8 subscription else []))
  end.

(** ** Admission *)

(** The checks of the closure bound to a route, or the entity, mailbox and payload of the task. *)
Definition admission (h : Handler) (data : bytes) (s : Engine) : Status + (bytes * bytes * bytes) :=
  if stopped s || negb (loaded s) then inl disconnected
  else if (queued_requests (limits s) <=? N.of_nat (length (queue s))) || (max_queued_bytes (limits s) - queued_bytes s <? size data) then inl overloaded
  else if is_empty (hkind h) then inr ([], [], data)
  else if (size data <? 6) || negb (starts_with (lit "FSE1") data) then inl rejected
  else
    let length := fold_left shift_in (take 2 (drop 4 data)) 0 in
    if (length =? 0) || (256 <? length) || (size data <? 6 + length) then inl rejected
    else
      let entity := take (N.to_nat length) (drop 6 data) in
      inr (entity, hkind h ++ [x00] ++ entity, drop (6 + N.to_nat length) data).

Definition new_task (h : Handler) (who : CallIdentity) (e : bytes * bytes * bytes) (reply : reply) (deadline : Z) : Task :=
  let '(entity, mailbox, data) := e in
  MkTask 0 None (Some (hfunction h)) data entity (hkind h) mailbox reply who (hcontextual h) false false false false None 0 None deadline.

(** ** Replies *)

Section Replies.
Context (halt : act unit).

(** Calling a reply, and what it does to the engine. *)
Fixpoint call (c : callback) (r : Result) {struct c} : act unit :=
  match c with
  | Callback n does =>
      note (o_answered n r);;
      for_each act_on (fst (does r));;
      match snd (does r) with Some e => raise e | None => done end
  end
with act_on (a : action) {struct a} : act unit :=
  match a with
  | a_submit route who data c =>
      s ← state;
      match handlers s !! route with
      | None => done
      | Some h =>
          note (o_given (callback_name c));;
          match admission h data s with
          | inl status => call c (failed_with status)
          | inr e =>
              v ← look;
              let t := new_task h who e (r_call c) (v_now v + ms (task_timeout (limits s))) in
              note (o_accepted (tmailbox t) (callback_name c));;
              modify (fun s => with_queued_bytes (with_queue s (queue s ++ [t])) (queued_bytes s + size (tdata t)))
          end
      end
  | a_completed id generation r => completed id generation r
  | a_watched id generation status subscription => watched id generation status subscription
  | a_stop => halt
  end.
End Replies.

(** [LuaEngine::stop] called by a reply while the engine polls or stops: a stopping engine
    ignores it. *)
Definition halt_inside : act unit :=
  s ← state; if polling s then modify (fun s => with_stop_requested s true) else if stopped s then done else note o_misplaced_stop.

(** The reply of a task the script started. *)
Definition started (critical : bool) (r : Result) : act unit :=
  note (o_started critical r);;
  when critical
    (modify (fun s => with_initialization_pending s (initialization_pending s - 1));;
     when (negb (is_ok_status (rstatus r))) (modify (fun s => with_initialization_failed s true))).

Definition answer (t : Task) (r : Result) : act unit := match treply t with r_call c => call halt_inside c r | r_start critical => started critical r end.

(** ** Tasks *)

Definition release_task_function (t : Task) : act unit := when (tbackground t) (match tfunction t with Some f => note (o_unref f) | None => done end).
Definition unref (x : option N) : act unit := match x with Some f => note (o_unref f) | None => done end.

Definition finish (id : N) (r : Result) : act unit :=
  s ← state;
  match tasks s !! id with
  | None => done
  | Some t =>
      modify (fun s => with_tasks s (delete id (tasks s)));;
      match twatch t with Some subscription => unwatch subscription | None => done end;;
      modify (fun s => with_threads s (delete (tthread t) (threads s)));;
      note (o_reset (tthread t));; unref (treference t);; release_task_function t;;
      when (negb (is_empty (tmailbox t))) (modify (fun s => with_busy s (busy s ∖ {[tmailbox t]})));;
      answer t r
  end.

(** The call of the host for an await other than a sleep. *)
Definition host_call (a : Await) : host_request :=
  match akind a with
  | k_watch => h_watch (aroute a) (adata a) (atimeout a)
  | k_write => h_write (asubscription a) (avalues a) (aexpected a) (arequest a) (atimeout a)
  | k_create => h_create (aroute a) (avalues a) (acreation a)
  | k_bind_owner => h_bind_owner (aroute a) (adata a) (sp_owner (acreation a))
  | k_send => h_send (asource_type a) (asource_id a) (aroute a) (aentity a) (atarget a) (adata a)
  | k_transfer => h_transfer (aroute a) (adata a) (atarget a)
  | k_control => h_control (aroute a) (adata a) (negb (aaction a =? 0))
  | k_visibility => h_visibility (apeer a) (aroute a) (adata a) (aaction a)
  | k_rpc | k_sleep => if negb (apeer a =? 0) then h_call (apeer a) (aroute a) (adata a) (atimeout a) else h_call_entity (aroute a) (adata a) (atimeout a)
  end.

(** What the script did with the lease of its task while it ran. *)
Definition use_lease (id : N) (t : Task) (u : lease_use) : act unit :=
  match u, twatch t with
  | lease_adopted, Some subscription => note (o_adopted subscription);; modify (update_task id (task_watch None))
  | lease_closed, Some subscription => unwatch subscription;; modify (update_task id (task_watch None))
  | _, _ => done
  end.

(** The wait of a coroutine that yielded. *)
Definition suspend (id : N) (a : Await) : act unit :=
  s ← state;
  match tasks s !! id with
  | None => done
  | Some t =>
      modify (update_task id (task_waiting true));;
      when (tbackground t && negb (tinitialization t)) (v ← look; modify (update_task id (task_deadline (v_now v + ms (task_timeout (limits s))))));;
      let generation := wrap64 (tgeneration t + 1) in
      modify (update_task id (task_generation generation));;
      if decide (akind a = k_sleep) then v ← look; modify (update_task id (task_wake (Some (v_now v + ms (atimeout a))%Z)))
      else
        attempt
          (note (o_host id generation (host_call a));;
           v ← look;
           for_each (act_on halt_inside) (fst (v_host v));; match snd (v_host v) with Some e => raise e | None => done end)
          (fun _ => finish id (failed_with internal))
  end.

(** The result of a resumption that did not end the task by its budgets. *)
Definition resumed (id : N) (limit : N) (x : Resumed) : act unit :=
  match status_of x with
  | lua_ok None => finish id (failed_with internal)
  | lua_ok (Some data) => if limit <? size data then finish id (failed_with overloaded) else finish id (MkResult ok data)
  | lua_errmem => finish id (failed_with overloaded)
  | lua_errrun => finish id (failed_with internal)
  | lua_yield => match awaits x with None => finish id (failed_with internal) | Some a => suspend id a end
  end.

Definition advance (id arguments : N) : act unit :=
  s ← state;
  match tasks s !! id with
  | None => done
  | Some t =>
      v ← look;
      if negb (alive v (tidentity t)) then finish id (failed_with rejected)
      else
        note (o_resumed id arguments);;
        let x := v_resumed v in
        use_lease id t (lease_of x);;
        v ← look;
        if timed_out x || (tdeadline t <=? v_now v)%Z then finish id (failed_with timeout)
        else if memory_exhausted x then finish id (failed_with overloaded)
        else if script_rejected x then finish id (failed_with rejected)
        else if exhausted x then finish id (failed_with overloaded)
        else resumed id (max_queued_bytes (limits s)) x
  end.

(** ** Polling *)

(** Tasks whose caller is gone, whose sleep or whose deadline is over. *)
Definition revoked (v : View) (s : Engine) : list N := map fst (filter (fun e => negb (alive v (tidentity e.2))) (map_to_list (tasks s))).
Definition woken (now : Z) (t : Task) : bool := match twake t with Some w => (w <=? now)%Z | None => false end.
Definition late (now : Z) (s : Engine) : list N := map fst (filter (fun e => (tdeadline e.2 <=? now)%Z) (map_to_list (tasks s))).

Definition wake (now : Z) (e : N * Task) : act unit :=
  when (woken now e.2)
    (modify (update_task e.1 (fun t => task_completion_queued true (task_wake None t)));;
     modify (fun s => with_resumes s (resumes s ++ [(e.1, MkResult ok [])]))).

(** A task leaves the queue. *)
Definition dequeued (t : Task) : list output := match treply t with r_call c => [o_dequeued (tmailbox t) (callback_name c)] | r_start _ => [] end.
Definition note_all (l : list output) : act unit := modify (fun s => with_log s (log s ++ l)).
Definition leave (t : Task) (rest : list Task) : act unit :=
  modify (fun s => with_queued_bytes (with_queue s rest) (queued_bytes s - size (tdata t)));; note_all (dequeued t).

Fixpoint expire (n : nat) (now : Z) : act unit :=
  match n with
  | O => done
  | Datatypes.S n =>
      s ← state;
      match queue s with
      | t :: rest => when (tdeadline t <=? now)%Z (leave t rest;; release_task_function t;; answer t (failed_with timeout);; expire n now)
      | [] => done
      end
  end.

(** Completions of tasks that are gone or no longer wait are passed over. *)
Definition stale (ts : gmap N Task) (id : N) : bool := match ts !! id with None => true | Some t => negb (twaiting t) end.
Fixpoint drop_stale (ts : gmap N Task) (rs : list (N * Result)) (bytes : N) : list (N * Result) * N :=
  match rs with
  | (id, r) :: rest => if stale ts id then drop_stale ts rest (bytes - size (rdata r)) else (rs, bytes)
  | [] => ([], bytes)
  end.
Definition pass_stale : act unit := modify (fun s => let '(rs, bytes) := drop_stale (tasks s) (resumes s) (completed_bytes s) in with_completed_bytes (with_resumes s rs) bytes).

(** The first task of the queue whose mailbox is free. *)
Fixpoint eligible (busy : gset bytes) (q : list Task) : option (Task * list Task) :=
  match q with
  | [] => None
  | t :: q => if is_empty (tmailbox t) || bool_decide (tmailbox t ∉ busy) then Some (t, q) else match eligible busy q with Some (x, rest) => Some (x, t :: rest) | None => None end
  end.

(** A queued task becomes a coroutine. *)
Definition begin_task (t : Task) : act unit :=
  modify (fun s => with_serial s (wrap64 (serial s + 1)));;
  s ← state;
  let id := serial s in
  let thread := next_thread s in
  modify (fun s => with_next_thread (with_threads s (<[thread := id]> (threads s))) (thread + 1));;
  when (negb (is_empty (tmailbox t))) (modify (fun s => with_busy s ({[tmailbox t]} ∪ busy s)));;
  modify (fun s => with_tasks s (match tasks s !! id with Some _ => tasks s | None => <[id := task_thread thread (task_reference (Some thread) (task_data [] t))]> (tasks s) end));;
  advance id ((if is_empty (tmailbox t) then 1 else 2) + (if tcontextual t then 1 else 0)).

(** A completion is handed to its coroutine. *)
Definition resume_next (id : N) (r : Result) (rest : list (N * Result)) : act unit :=
  modify (fun s => with_completed_bytes (with_resumes s rest) (completed_bytes s - size (rdata r)));;
  modify (update_task id (fun t => task_waiting false (task_completion_queued false t)));;
  v ← look; if v_returned v then advance id 2 else finish id (failed_with overloaded).

(** A task has left the queue: its coroutine is prepared, or it is refused. *)
Definition start_next (t : Task) : act unit :=
  v ← look;
  match v_prepared v with
  | p_failed referenced => s ← state; when referenced (note (o_unref (next_thread s)));; release_task_function t;; answer t (failed_with overloaded)
  | p_ready => begin_task t
  end.

(** One round of the loop of [poll], or nothing left to do. *)
Definition turn : act bool :=
  pass_stale;;
  s ← state;
  match resumes s with
  | (id, r) :: rest => resume_next id r rest;; mret true
  | [] =>
      if is_empty (queue s) || (active_coroutines (limits s) <=? N.of_nat (base.size (tasks s))) then mret false
      else match eligible (busy s) (queue s) with None => mret false | Some (t, rest) => leave t rest;; start_next t;; mret true end
  end.

Fixpoint turns (n : nat) (work : N) : act N :=
  match n with
  | O => mret work
  | Datatypes.S n => s ← state; if stopped s || stop_requested s then mret work else more ← turn; if more : bool then turns n (work + 1) else mret work
  end.

(** ** Stopping *)

Fixpoint stop_tasks (n : nat) : act unit :=
  match n with
  | O => done
  | Datatypes.S n =>
      s ← state;
      match map_to_list (tasks s) with
      | (id, _) :: _ => attempt (finish id (failed_with disconnected)) (fun _ => done);; stop_tasks n
      | [] => done
      end
  end.

Definition stop_queued (t : Task) : act unit := release_task_function t;; attempt (answer t (failed_with disconnected)) (fun _ => done).

Definition stop : act unit :=
  s ← state;
  if stopped s then done
  else
    modify (fun s => with_stopped s true);;
    for_each (fun r => note (o_unbound r)) (bound s);; modify (fun s => with_bound s []);;
    for_each (fun k => note (o_forgotten k)) (defined_schemas s);; modify (fun s => with_defined_schemas s []);;
    modify (fun s => with_queued_bytes (with_queue s []) 0);; note_all (concat (map dequeued (queue s)));;
    for_each stop_queued (queue s);;
    s ← state;
    stop_tasks (base.size (tasks s));;
    modify (fun s => with_completed_bytes (with_resumes s []) 0);;
    modify (fun s => with_registry s (reg_routes (registry s) ∅));; note o_closed;;
    modify (fun s => with_registry s (reg_server_schemas (reg_schemas (registry s) ∅) ∅)).

(** [LuaEngine::stop] *)
Definition engine_stop : act unit := s ← state; if polling s then modify (fun s => with_stop_requested s true) else stop.

Definition poll_body (work_limit : N) : act N :=
  v ← look;
  let now := v_now v in
  s ← state; for_each (fun id => finish id (failed_with rejected)) (revoked v s);;
  s ← state; for_each (wake now) (map_to_list (tasks s));;
  s ← state; expire (length (queue s)) now;;
  s ← state; for_each (fun id => finish id (failed_with timeout)) (late now s);;
  turns (N.to_nat work_limit) 0.

Definition poll (work_limit : N) : act N :=
  s ← state;
  if stopped s || negb (loaded s) then mret 0
  else if polling s then raise logic_error
  else
    modify (fun s => with_polling s true);;
    work ← attempt (poll_body work_limit) (fun e => modify (fun s => with_polling s false);; raise e);
    modify (fun s => with_polling s false);;
    s ← state; when (stop_requested s) stop;; mret work.

(** ** Loading *)

Definition has_nul (s : bytes) : bool := existsb (fun b => Byte.eqb b x00) s.
(** [find_first_of(".\0", 0, 2)] *)
Definition has_separator (s : bytes) : bool := existsb (fun b => Byte.eqb b x00 || Byte.eqb b x2e) s.
Definition bad_type (s : bytes) : bool := is_empty s || (127 <? size s) || has_separator s.

(** [rpc(L)]: a route of the script. *)
Definition rpc (limits : ScriptLimits) (name : bytes) (function : N) (type initial : option bytes) (policy : option RpcPolicy) (g : Registry) : result Registry :=
  throw_if registered_routes limits <=? N.of_nat (base.size (routes g)) as runtime_error ;;
  throw_if is_empty name || (256 <? size name) || has_nul name as runtime_error ;;
  throw_if bool_decide (is_Some (routes g !! name)) as runtime_error ;;
  throw_if match type with Some t => bad_type t | None => false end as runtime_error ;;
  throw_if match initial with Some i => match type with None => true | Some _ => max_queued_bytes limits <? size i end | None => false end as runtime_error ;;
  throw_if match policy with Some p => negb (rpc_client p) && negb (rpc_server p) | None => false end as runtime_error ;;
  let g := match type with Some t => reg_entity_routes g (<[name := t]> (entity_routes g)) | None => g end in
  let g := match initial with Some i => reg_stateful_routes g (<[name := i]> (stateful_routes g)) | None => g end in
  let g := reg_routes g (<[name := function]> (routes g)) in
  Ok (match policy with Some p => reg_policies g (<[name := p]> (policies g)) | None => g end).

(** [attributes_define(L)] on a schema read off the script's tables; [affordable] tells whether
    its memory charge fits. *)
Definition attributes_define (kind : bytes) (schema : EntitySchema) (published affordable : bool) (g : Registry) : result Registry :=
  throw_if bad_type kind || (256 <=? N.of_nat (base.size (schemas g))) as invalid_argument ;;
  let* _ := validate schema in
  let* model := entity_attributes schema [] in
  let* _ := encode_attributes (MkUpdate 0 0 true (all_values model) []) in
  let* persisted := persistent model in
  let* _ := encode_attributes (MkUpdate 0 0 true persisted []) in
  throw_if negb affordable as length_error ;;
  throw_if bool_decide (is_Some (schemas g !! kind)) as invalid_argument ;;
  let g := reg_schemas g (<[kind := schema]> (schemas g)) in
  Ok (if published then reg_server_schemas g ({[kind]} ∪ server_schemas g) else g).

(** [start_task(L)] *)
Definition start_task (limits : ScriptLimits) (function : N) (critical : bool) (g : Registry) : result Registry :=
  throw_if queued_requests limits <=? N.of_nat (length (starts g)) as runtime_error ;;
  Ok (reg_starts g (starts g ++ [MkStart function critical])).

(** [object_registration(L)] undoes the routes and schemas of a class that failed. *)
Definition unregister (before g : Registry) : Registry :=
  let kept {A} (m : gmap bytes A) : gmap bytes A := filter (fun e => bool_decide (is_Some (routes before !! e.1)) || negb (bool_decide (is_Some (routes g !! e.1)))) m in
  MkRegistry (filter (fun e => is_Some (routes before !! e.1)) (routes g)) (kept (entity_routes g)) (kept (stateful_routes g)) (kept (policies g))
    (filter (fun e => is_Some (schemas before !! e.1)) (schemas g))
    (filter (fun k => is_Some (schemas before !! k) \/ schemas g !! k = None) (server_schemas before)) (starts g).

(** A registration the script attempts; an error leaves the registry as it was. *)
Fixpoint load_step (limits : ScriptLimits) (c : load_call) (g : Registry) {struct c} : Registry :=
  let try (r : result Registry) := match r with Ok g => g | Throw _ => g end in
  match c with
  | l_rpc name function type initial policy => try (rpc limits name function type initial policy g)
  | l_schema kind schema published affordable => try (attributes_define kind schema published affordable g)
  | l_start function critical => try (start_task limits function critical g)
  | l_class calls failed =>
      let g' := fold_left (fun g c => load_step limits c g) calls g in
      if failed then unregister g g' else g'
  end.

(** An entity type has persistent or unmanaged methods, not both. *)
Definition mixed (g : Registry) : bool :=
  existsb (fun a => existsb (fun b => bytes_eqb a.2 b.2 && negb (Bool.eqb (bool_decide (is_Some (stateful_routes g !! a.1))) (bool_decide (is_Some (stateful_routes g !! b.1)))))
                      (map_to_list (entity_routes g))) (map_to_list (entity_routes g)).

Definition define_one (v : View) (kind : bytes) : act unit :=
  modify (fun s => with_defined_schemas s (defined_schemas s ++ [kind]));;
  match v_define v kind with
  | Some e => modify (fun s => with_defined_schemas s (removelast (defined_schemas s)));; raise e
  | None => note (o_defined kind)
  end.

Definition bind_one (v : View) (e : bytes * N) : act unit :=
  modify (fun s => with_bound s (bound s ++ [e.1]));;
  s ← state;
  match policies (registry s) !! e.1 with
  | None => raise logic_error
  | Some _ =>
      match v_bind v e.1 with
      | Some x => raise x
      | None => note (o_bound e.1);; modify (fun s => with_handlers s (<[e.1 := MkHandler e.2 (default [] (entity_routes (registry s) !! e.1)) true]> (handlers s)))
      end
  end.

Definition begin_start (x : Start) : act unit :=
  when (start_critical x) (modify (fun s => with_initialization_pending s (initialization_pending s + 1)));;
  v ← look;
  modify (fun s => with_queue s (queue s ++ [MkTask 0 None (Some (start_function x)) [] [] [] [] (r_start (start_critical x))
    (MkIdentity client [] 0 (MkConnection [] 0) None None) false false true (start_critical x) false None 0 None (v_now v + ms (task_timeout (limits s))%Z)])).

Definition load_body : act unit :=
  v ← look;
  when (negb (v_compiled v)) (raise runtime_error);;
  when (match v_prepared v with p_ready => false | p_failed _ => true end) (raise runtime_error);;
  modify (fun s => with_registry s (fold_left (fun g c => load_step (limits s) c g) (v_script v) (registry s)));;
  let x := v_resumed v in
  w ← look;
  s ← state;
  when (timed_out x || (v_now v + ms (task_timeout (limits s)) <=? v_now w)%Z || memory_exhausted x || exhausted x || match status_of x with lua_ok _ => false | _ => true end)
    (raise runtime_error);;
  modify (fun s => with_loading s false);;
  s ← state;
  when (existsb (fun e => v_has_route w e.1) (map_to_list (routes (registry s)))) (raise runtime_error);;
  when (mixed (registry s)) (raise runtime_error);;
  for_each (define_one w) (filter (fun k => k ∈ server_schemas (registry s)) (map fst (map_to_list (schemas (registry s)))));;
  for_each (bind_one w) (map_to_list (routes (registry s)));;
  modify (fun s => with_loaded s true);;
  for_each begin_start (starts (registry s));;
  modify (fun s => with_registry s (reg_starts (registry s) [])).

Definition load (source : N) : act unit :=
  s ← state;
  if stopped s || loaded s || loading s then raise logic_error
  else if source_bytes (limits s) <? source then raise length_error
  else
    modify (fun s => with_loading s true);;
    attempt load_body (fun e => modify (fun s => with_initialization_failed s true);; stop;; raise e).

(** ** Queries and construction *)

Definition active (s : Engine) : N := N.of_nat (base.size (tasks s)) + N.of_nat (length (queue s)).
Definition startup_complete (s : Engine) : bool := loaded s && negb (stopped s) && negb (initialization_failed s) && (initialization_pending s =? 0).
Definition startup_failed (s : Engine) : bool := initialization_failed s.

Definition bad_limits (l : ScriptLimits) : bool :=
  (memory_bytes l <? 256 * 1024) || (source_bytes l =? 0) || (queued_requests l =? 0) || (max_queued_bytes l =? 0) || (active_coroutines l =? 0) ||
  (registered_routes l =? 0) || (instructions_per_resume l <? 1000) || (task_timeout l <=? 0)%Z || (30000 <? task_timeout l)%Z.

Definition engine (l : ScriptLimits) (initialized : bool) : result Engine :=
  throw_if bad_limits l as invalid_argument ;;
  throw_if negb initialized as runtime_error ;;
  Ok (MkEngine l (MkRegistry ∅ ∅ ∅ ∅ ∅ ∅ []) [] ∅ ∅ [] ∅ 0 0 false false false false false false 0 0 [] [] ∅ ∅ 0 0 []).
End Engine.

(** ** Memory

    One counter bounds the Lua machine's blocks and the native objects charged beside them. *)

(** [allocate]: whether the block is granted, and the bytes in use after the call; [moved] tells
    whether the C allocator had it. *)
Definition allocate (limit used : N) (pointer : bool) (old_size new_size : N) (moved : bool) : bool * N :=
  let old := if pointer then old_size else 0 in
  if new_size =? 0 then (false, used - old)
  else
    let retained := used - old in
    if limit - retained <? new_size then (false, used) else if moved then (true, retained + new_size) else (false, used).

(** [reserve_external]; [collected] is what a garbage collection leaves in use. *)
Definition reserve_external (limit used collected bytes : N) : result N :=
  let used := if limit - used <? bytes then collected else used in
  throw_if limit - used <? bytes as length_error ;; Ok used.

Record Heap := MkHeap { heap_used : N; blocks : gmap N N; charges : gmap N N }.

(** The calls of [allocate] by the machine, which knows its blocks' sizes, and the charges of
    native objects: taken when one is made, changed with its image, returned when it dies. *)
Inductive heap_call :=
  | m_allocate (p size : N) (moved : bool) | m_reallocate (p q size : N) (moved : bool) | m_free (p : N)
  | m_charge (c charge : N) | m_recharge (c charge : N) | m_discharge (c : N).

Definition heap_step (limit : N) (x : heap_call) (h : Heap) : Heap :=
  match x with
  | m_allocate p size moved =>
      let '(granted, used) := allocate limit (heap_used h) false 0 size moved in
      if bool_decide (is_Some (blocks h !! p)) then h else MkHeap used (if granted then <[p := size]> (blocks h) else blocks h) (charges h)
  | m_reallocate p q size moved =>
      match blocks h !! p with
      | None => h
      | Some old =>
          if (size =? 0) || bool_decide (is_Some (delete p (blocks h) !! q)) then h
          else let '(granted, used) := allocate limit (heap_used h) true old size moved in
               MkHeap used (if granted then <[q := size]> (delete p (blocks h)) else blocks h) (charges h)
      end
  | m_free p =>
      match blocks h !! p with
      | None => h
      | Some old => MkHeap (allocate limit (heap_used h) true old 0 true).2 (delete p (blocks h)) (charges h)
      end
  | m_charge c charge =>
      match charges h !! c, reserve_external limit (heap_used h) (heap_used h) charge with
      | None, Ok used => MkHeap (used + charge) (blocks h) (<[c := charge]> (charges h))
      | _, _ => h
      end
  | m_recharge c charge =>
      match charges h !! c with
      | None => h
      | Some old =>
          match (if old <? charge then reserve_external limit (heap_used h) (heap_used h) (charge - old) else Ok (heap_used h)) with
          | Ok used => MkHeap (used - old + charge) (blocks h) (<[c := charge]> (charges h))
          | Throw _ => h
          end
      end
  | m_discharge c => match charges h !! c with None => h | Some old => MkHeap (heap_used h - old) (blocks h) (delete c (charges h)) end
  end.

(** ** Work budget of a resumption *)

Record Budget := MkBudget { budget : N; out_of_time : bool; out_of_work : bool }.

(** [charge_pattern] and [hook]: whether the coroutine may go on. *)
Definition charge_pattern (over : bool) (units : N) (b : Budget) : bool * Budget :=
  if out_of_time b || over then (false, MkBudget (budget b) true (out_of_work b))
  else if out_of_work b || (budget b <? units) then (false, MkBudget 0 (out_of_time b) true)
  else (true, MkBudget (budget b - units) (out_of_time b) (out_of_work b)).
Definition hook (alive over : bool) (b : Budget) : bool * Budget :=
  if negb alive then (false, b)
  else if out_of_time b || over then (false, MkBudget (budget b) true (out_of_work b))
  else if budget b <=? 1000 then (false, MkBudget (budget b) (out_of_time b) true)
  else (true, MkBudget (budget b - 1000) (out_of_time b) (out_of_work b)).
