(* ===== verification/ScriptsCorrect.v ===== *)
(** * The script engine is correct

    The invariant of the scheduler, kept by every operation whatever the Lua machine, the host
    and the reply callbacks do: replies are called once, the tasks of an entity run one at a
    time and in order, the budgets hold, watch leases do not leak and readiness is honest. *)

From Stdlib Require Import Sorted.
From stdpp Require Import gmap.
From S2P Require Import Prelude MapSum Storage OrderedMap Identity Values AttributeWire Messages Fields TimerState DeliveryState Schema Transport Actions Scripts.

(** ** Reading the log *)

Definition given (l : list output) : list N := omap (fun o => match o with o_given n => Some n | _ => None end) l.
Definition answered (l : list output) : list N := omap (fun o => match o with o_answered n _ => Some n | _ => None end) l.
Definition accepted (m : bytes) (l : list output) : list N := omap (fun o => match o with o_accepted m' n => if bool_decide (m = m') then Some n else None | _ => None end) l.
Definition taken (m : bytes) (l : list output) : list N := omap (fun o => match o with o_dequeued m' n => if bool_decide (m = m') then Some n else None | _ => None end) l.
(** The results of the critical tasks the script started. *)
Definition initialized (l : list output) : list Result := omap (fun o => match o with o_started true r => Some r | _ => None end) l.
(** The subscriptions handed to the engine by a watch that succeeded. *)
Definition subscribed (l : list output) : list N := omap (fun o => match o with o_delivered ok n => if n =? 0 then None else Some n | _ => None end) l.
Definition misplaced (l : list output) : list unit := omap (fun o => match o with o_misplaced_stop => Some tt | _ => None end) l.

(** Outputs the invariant does not read. *)
Definition silent (o : output) : bool :=
  match o with o_resumed _ _ | o_host _ _ _ | o_unwatched _ | o_adopted _ | o_reset _ | o_unref _ | o_bound _ | o_unbound _ | o_defined _ | o_forgotten _ | o_closed => true | _ => false end.

Definition names (l : list reply) : list N := omap (fun r => match r with r_call c => Some (callback_name c) | r_start _ => None end) l.
Definition critical (r : reply) : N := match r with r_start true => 1 | _ => 0 end.
Fixpoint criticals (l : list reply) : N := match l with [] => 0 | r :: l => critical r + criticals l end.
Definition replies (s : Engine) : list reply := map treply (queue s) ++ mnames treply (tasks s).
Definition waiting_in (m : bytes) (q : list Task) : list N := names (map treply (filter (fun t => tmailbox t = m) q)).
Fixpoint payload (q : list Task) : N := match q with [] => 0 | t :: q => size (tdata t) + payload q end.
Fixpoint held (rs : list (N * Result)) : N := match rs with [] => 0 | (_, r) :: rs => size (rdata r) + held rs end.

Lemma names_perm l l' : l ≡ₚ l' -> names l ≡ₚ names l'.
Proof. intros H. unfold names. by rewrite H. Qed.
Lemma criticals_perm l l' : l ≡ₚ l' -> criticals l = criticals l'.
Proof. induction 1; cbn; lia. Qed.
Lemma criticals_app l l' : criticals (l ++ l') = criticals l + criticals l'.
Proof. induction l; cbn; lia. Qed.

Section Correct.
Context (world : N -> View).

Definition monotone : Prop := forall m n, m <= n -> (v_now (world m) <= v_now (world n))%Z.

(** What is known of the deadlines of queued and of running tasks. *)
Context (Q T : Z -> Prop) (QT : forall d, Q d -> T d).

Record Inv (owed : list reply) (s : Engine) : Prop := {
  i_answers : given (log s) ≡ₚ answered (log s) ++ names (owed ++ replies s);
  i_order : forall m, accepted m (log s) = taken m (log s) ++ waiting_in m (queue s);
  i_queue : N.of_nat (length (queue s)) <= queued_requests (limits s);
  i_bytes : queued_bytes s = payload (queue s) /\ queued_bytes s <= max_queued_bytes (limits s);
  i_completed : completed_bytes s = held (resumes s) /\ completed_bytes s <= max_queued_bytes (limits s);
  i_active : N.of_nat (base.size (tasks s)) <= active_coroutines (limits s);
  i_busy : forall m, m ∈ busy s <-> m <> [] /\ exists id t, tasks s !! id = Some t /\ tmailbox t = m;
  i_alone : forall i j t u, tasks s !! i = Some t -> tasks s !! j = Some u -> tmailbox t = tmailbox u -> tmailbox t <> [] -> i = j;
  i_threads : forall th id, threads s !! th = Some id <-> exists t, tasks s !! id = Some t /\ tthread t = th;
  i_fresh : forall id t, tasks s !! id = Some t -> id <= serial s /\ tthread t < next_thread s /\ (forall n, twatch t = Some n -> n <> 0);
  i_pending : initialization_pending s = criticals (owed ++ replies s);
  i_ready : initialization_failed s = false -> Forall (fun r => rstatus r = ok) (initialized (log s));
  i_leases : forall n, n ∈ subscribed (log s) -> o_unwatched n ∈ log s \/ o_adopted n ∈ log s \/ exists id t, tasks s !! id = Some t /\ twatch t = Some n;
  i_stops : misplaced (log s) = [];
  i_starts : N.of_nat (length (starts (registry s))) <= queued_requests (limits s);
  i_idle : loaded s = false -> queue s = [] /\ tasks s = ∅;
  i_queue_deadlines : Forall (fun t => Q (tdeadline t)) (queue s);
  i_unwatched : Forall (fun t => twatch t = None) (queue s);
  i_task_deadlines : forall id t, tasks s !! id = Some t -> T (tdeadline t);
  i_clock : forall m, moment s <= m -> Q (v_now (world m) + ms (task_timeout (limits s)))%Z;
  i_sorted : monotone -> StronglySorted (fun t u => (tdeadline t <= tdeadline u)%Z) (queue s) /\
    Forall (fun t => forall m, moment s <= m -> (tdeadline t <= v_now (world m) + ms (task_timeout (limits s)))%Z) (queue s) }.

Definition late_in (now : Z) (q : list Task) : nat := length (filter (fun t => (tdeadline t <= now)%Z) q).
Definition overdue (now : Z) (o : option Task) : Prop := match o with Some t => (tdeadline t <= now)%Z | None => False end.
(** From [s] on the clock shows [now] or later. *)
Definition past (now : Z) (s : Engine) : Prop := monotone /\ (0 < ms (task_timeout (limits s)))%Z /\ (now <= v_now (world (moment s)))%Z.

Lemma late_in_snoc now q t : (now < tdeadline t)%Z -> late_in now (q ++ [t]) = late_in now q.
Proof. intros H. unfold late_in. rewrite filter_app, filter_cons_False by lia. by rewrite app_nil_r. Qed.
Lemma late_in_remove now q1 t q2 : (late_in now (q1 ++ q2) + (if decide (tdeadline t <= now)%Z then 1 else 0) = late_in now (q1 ++ t :: q2))%nat.
Proof. unfold late_in. rewrite !filter_app, filter_cons, !length_app. destruct (decide _); cbn; lia. Qed.

(** Fields no reply, completion or end of a task changes; a stopped engine gets no more work. *)
Record frame (s s' : Engine) : Prop := {
  f_limits : limits s' = limits s; f_stopped : stopped s' = stopped s; f_loaded : loaded s' = loaded s; f_loading : loading s' = loading s; f_polling : polling s' = polling s;
  f_registry : registry s' = registry s; f_handlers : handlers s' = handlers s; f_bound : bound s' = bound s; f_schemas : defined_schemas s' = defined_schemas s;
  f_serial : serial s' = serial s;
  f_moment : moment s <= moment s';
  f_late : forall now, past now s -> (late_in now (queue s') <= late_in now (queue s))%nat;
  f_overdue : forall now id, past now s -> overdue now (tasks s' !! id) -> overdue now (tasks s !! id);
  f_quiet : stopped s = true -> queue s' = queue s /\ dom (tasks s') ⊆ dom (tasks s) }.

Lemma frame_refl s : frame s s.
Proof. by constructor. Qed.
Lemma past_later now s s' : limits s' = limits s -> moment s <= moment s' -> past now s -> past now s'.
Proof. intros E Hm (H1 & H2 & H3). split_and!; [done|by rewrite E|]. etrans; [exact H3|by apply H1]. Qed.
Lemma frame_trans a b c : frame a b -> frame b c -> frame a c.
Proof.
  intros H K. assert (Hp : forall now, past now a -> past now b) by (intros now; apply past_later; apply H). constructor; try (etrans; [apply K|apply H]).
  - etrans; [apply H|apply K].
  - by apply Hp.
  - done.
  - intros now id Hn Ho. apply (f_overdue _ _ H); [done|]. apply (f_overdue _ _ K); auto.
  - intros Hs. destruct (f_quiet _ _ H Hs) as [E1 E2]. destruct (f_quiet _ _ K) as [E3 E4]; [by rewrite (f_stopped _ _ H)|]. split; [congruence|set_solver].
Qed.

(** ** Keeping the invariant *)

Lemma silent_log l : forallb silent l = true -> given l = [] /\ answered l = [] /\ (forall m, accepted m l = [] /\ taken m l = []) /\ initialized l = [] /\ subscribed l = [] /\ misplaced l = [].
Proof. induction l as [|o l IH]; [done|]. cbn. intros [Ho Hl]%andb_true_iff. destruct (IH Hl) as (E1 & E2 & E3 & E4 & E5 & E6). by destruct o. Qed.

Definition secured (s : Engine) (n : N) : Prop := o_unwatched n ∈ log s \/ o_adopted n ∈ log s \/ exists id t, tasks s !! id = Some t /\ twatch t = Some n.

Lemma secured_log s l n : secured s n -> secured (with_log s (log s ++ l)) n.
Proof. intros [H|[H|H]]; [left|right; left|by right; right]; cbn; set_solver. Qed.

Lemma inv_logged o o' s l : Inv o s -> given (log s ++ l) ≡ₚ answered (log s ++ l) ++ names (o' ++ replies s) -> criticals o' = criticals o ->
  (forall m, accepted m l = [] /\ taken m l = []) -> initialized l = [] -> (forall n, n ∈ subscribed l -> secured s n) -> misplaced l = [] -> Inv o' (with_log s (log s ++ l)).
Proof.
  intros [] Ha Hc E3 E4 E5 E6. constructor; cbn; try done.
  - intros m. destruct (E3 m) as [Ea Et]. unfold accepted, taken in *. by rewrite !omap_app, Ea, Et, !app_nil_r.
  - rewrite i_pending0. change (criticals (o ++ replies s) = criticals (o' ++ replies s)). rewrite !criticals_app. lia.
  - unfold initialized in *. by rewrite omap_app, E4, app_nil_r.
  - unfold subscribed in *. intros n. rewrite omap_app, elem_of_app. intros [Hn|Hn]; apply secured_log; [by apply i_leases0|by apply E5].
  - unfold misplaced in *. by rewrite omap_app, E6, app_nil_r.
Qed.

Lemma inv_log o s l : forallb silent l = true -> Inv o s -> Inv o (with_log s (log s ++ l)).
Proof.
  intros (E1 & E2 & E3 & E4 & E5 & E6)%silent_log HI. apply (inv_logged o); try done; [|rewrite E5; set_solver].
  unfold given, answered in *. rewrite !omap_app, E1, E2, !app_nil_r. apply HI.
Qed.

Lemma inv_moment o s : Inv o s -> Inv o (with_moment s (moment s + 1)).
Proof.
  intros []. constructor; cbn -[N.add]; try done.
  - intros m Hm. apply i_clock0. lia.
  - intros Hmono. destruct (i_sorted0 Hmono) as [H1 H2]. split; [done|]. eapply Forall_impl; [exact H2|]. cbn. intros t Ht m Hm. apply Ht. lia.
Qed.

(** What completions and leases do to a task. *)
Definition same_task (t u : Task) : Prop :=
  tmailbox u = tmailbox t /\ treply u = treply t /\ tthread u = tthread t /\ (T (tdeadline t) -> T (tdeadline u)).

Definition lease_kept_by (t u : Task) (l : list output) : Prop :=
  (forall n, twatch u = Some n -> n <> 0) /\ (forall n, twatch t = Some n -> twatch u = Some n \/ o_unwatched n ∈ l \/ o_adopted n ∈ l).

Lemma mnames_same {A B : Type} (g : A -> B) (m : gmap N A) k a b : m !! k = Some a -> g b = g a -> mnames g (<[k := b]> m) ≡ₚ mnames g m.
Proof.
  intros Hk Hg. rewrite <- insert_delete_eq. rewrite (mnames_insert _ k b (lookup_delete_eq _ _)), Hg. symmetry. by apply mnames_delete.
Qed.

Lemma alter_insert (f : Task -> Task) id t (m : gmap N Task) : m !! id = Some t -> alter f id m = <[id := f t]> m.
Proof. intros H. apply map_eq. intros i. destruct (decide (i = id)) as [->|Hn]; [by rewrite lookup_alter_eq, H, lookup_insert_eq|by rewrite lookup_alter_ne, lookup_insert_ne by done]. Qed.

Lemma inv_task o s id t u : Inv o s -> tasks s !! id = Some t -> same_task t u -> lease_kept_by t u (log s) -> Inv o (with_tasks s (<[id := u]> (tasks s))).
Proof.
  intros [] Ht (Em & Er & Eth & Hd) [Hw1 Hw2].
  assert (HL : forall i x, <[id := u]> (tasks s) !! i = Some x -> exists y, tasks s !! i = Some y /\ tmailbox x = tmailbox y /\ tthread x = tthread y).
  { intros i x. destruct (decide (i = id)) as [->|Hn]; [rewrite lookup_insert_eq; intros [= <-]; by exists t|rewrite lookup_insert_ne by done; by exists x]. }
  assert (HR : forall i y, tasks s !! i = Some y -> exists x, <[id := u]> (tasks s) !! i = Some x /\ tmailbox x = tmailbox y /\ tthread x = tthread y).
  { intros i y Hy. destruct (decide (i = id)) as [->|Hn]; [rewrite lookup_insert_eq|rewrite lookup_insert_ne by done]; [exists u; split_and!; congruence|by exists y]. }
  assert (Hp : replies (with_tasks s (<[id := u]> (tasks s))) ≡ₚ replies s) by (unfold replies; cbn; by rewrite (mnames_same treply _ id t u)).
  constructor; cbn; try done.
  - rewrite i_answers0. apply Permutation_app_head, names_perm. by rewrite Hp.
  - rewrite map_size_insert_Some; [done|by rewrite Ht].
  - intros m. rewrite i_busy0. split; intros [Hm (i & x & Hx & Hxm)]; (split; [done|]); [apply HR in Hx|apply HL in Hx]; destruct Hx as (y & Hy & E & _); exists i, y; split; congruence.
  - intros i j x y Hx Hy E Hne. apply HL in Hx as (x' & Hx' & Ex & _), Hy as (y' & Hy' & Ey & _). eapply (i_alone0 i j x' y'); congruence.
  - intros th i. rewrite i_threads0. split; intros (x & Hx & E); [apply HR in Hx|apply HL in Hx]; destruct Hx as (y & Hy & _ & E'); exists y; split; congruence.
  - intros i x. destruct (decide (i = id)) as [->|Hn].
    + rewrite lookup_insert_eq. intros [= <-]. rewrite Eth. destruct (i_fresh0 id t Ht) as (? & ? & _). done.
    + rewrite lookup_insert_ne by done. apply i_fresh0.
  - rewrite i_pending0. apply criticals_perm. by rewrite Hp.
  - intros n Hn. destruct (i_leases0 n Hn) as [H|[H|(i & x & Hx & Hxn)]]; [by left|by right; left|]. destruct (decide (i = id)) as [->|Hne].
    + assert (x = t) as -> by congruence. destruct (Hw2 n Hxn) as [H|[H|H]]; [right; right|by left|by right; left]. exists id, u. by rewrite lookup_insert_eq.
    + right; right. exists i, x. by rewrite lookup_insert_ne by done.
  - intros Hl. destruct (i_idle0 Hl) as [_ E]. by rewrite E, lookup_empty in Ht.
  - intros i x. destruct (decide (i = id)) as [->|Hn]; [rewrite lookup_insert_eq; intros [= <-]; by eapply Hd, i_task_deadlines0|rewrite lookup_insert_ne by done; apply i_task_deadlines0].
Qed.

Lemma frame_task s id t u : tasks s !! id = Some t -> (forall now, past now s -> (tdeadline u <= now)%Z -> (tdeadline t <= now)%Z) -> frame s (with_tasks s (<[id := u]> (tasks s))).
Proof.
  intros Ht Hd. constructor; cbn; try done.
  - intros now i Hp. destruct (decide (i = id)) as [->|Hn]; [rewrite lookup_insert_eq, Ht; by apply Hd|by rewrite lookup_insert_ne by done].
  - intros _. split; [done|]. rewrite dom_insert. assert (id ∈ dom (tasks s)) by (by apply elem_of_dom_2 in Ht). set_solver.
Qed.

Lemma same_task_refl t : same_task t t.
Proof. by split_and!. Qed.

Lemma lease_same t u l o s id : Inv o s -> tasks s !! id = Some t -> twatch u = twatch t -> lease_kept_by t u l.
Proof. intros HI Ht E. split; intros n Hn; [eapply (i_fresh _ _ HI id t Ht); congruence|left; congruence]. Qed.

Lemma held_snoc l id x : held (l ++ [(id, x)]) = held l + size (rdata x).
Proof. induction l as [|[] l IH]; cbn; lia. Qed.

Lemma inv_delivered o s status n : Inv o s -> (status = ok -> n <> 0 -> secured s n) -> Inv o (with_log s (log s ++ [o_delivered status n])).
Proof.
  intros HI Hn. apply (inv_logged o); try done.
  - unfold given, answered. rewrite !omap_app. cbn. rewrite !app_nil_r. apply HI.
  - intros k Hk. cbn in Hk. destruct status; try (by apply elem_of_nil in Hk). destruct (N.eqb_spec n 0) as [->|Hne]; [by apply elem_of_nil in Hk|].
    apply list_elem_of_singleton in Hk as ->. by apply Hn.
Qed.

Lemma inv_given o s c : Inv o s -> Inv (r_call c :: o) (with_log s (log s ++ [o_given (callback_name c)])).
Proof.
  intros HI. apply (inv_logged o); try done; [|set_solver]. unfold given, answered. rewrite !omap_app. cbn. rewrite app_nil_r.
  pose proof (i_answers _ _ HI) as Ha. unfold given, answered in Ha. rewrite Ha. symmetry. etrans; [|apply Permutation_cons_append]. symmetry. apply Permutation_middle.
Qed.

Lemma inv_answered o s c r : Inv (r_call c :: o) s -> Inv o (with_log s (log s ++ [o_answered (callback_name c) r])).
Proof.
  intros HI. apply (inv_logged (r_call c :: o)); try done; [|set_solver]. unfold given, answered. rewrite !omap_app. cbn. rewrite app_nil_r.
  pose proof (i_answers _ _ HI) as Ha. unfold given, answered in Ha. rewrite Ha. cbn. by rewrite <- app_assoc.
Qed.

Lemma payload_app q t : payload (q ++ [t]) = payload q + size (tdata t).
Proof. induction q; cbn; lia. Qed.

Lemma sorted_snoc q t : StronglySorted (fun t u => (tdeadline t <= tdeadline u)%Z) q -> Forall (fun u => (tdeadline u <= tdeadline t)%Z) q ->
  StronglySorted (fun t u => (tdeadline t <= tdeadline u)%Z) (q ++ [t]).
Proof.
  induction 1 as [|u q Hq IH Hu]; intros Hall; cbn; [by repeat constructor|]. inversion Hall; subst. constructor; [by apply IH|]. apply Forall_app. split; [done|]. by constructor.
Qed.

Lemma move_reply (r : reply) o A B : r :: o ++ A ++ B ≡ₚ o ++ (A ++ [r]) ++ B.
Proof. rewrite <- app_assoc. cbn. rewrite !app_assoc. apply Permutation_middle. Qed.

(** A task enters the queue with the reply that was owed. *)
Definition enter (t : Task) (l : list output) (s : Engine) : Engine :=
  with_queued_bytes (with_queue (with_log s (log s ++ l)) (queue s ++ [t])) (queued_bytes s + size (tdata t)).

Lemma inv_enter o s t :
  Inv (treply t :: o) s -> twatch t = None -> N.of_nat (length (queue s)) < queued_requests (limits s) -> size (tdata t) <= max_queued_bytes (limits s) - queued_bytes s -> loaded s = true ->
  Q (tdeadline t) -> (monotone -> Forall (fun u => (tdeadline u <= tdeadline t)%Z) (queue s) /\ forall m, moment s <= m -> (tdeadline t <= v_now (world m) + ms (task_timeout (limits s)))%Z) ->
  Inv o (enter t (match treply t with r_call c => [o_accepted (tmailbox t) (callback_name c)] | r_start _ => [] end) s).
Proof.
  intros [] Hw Hl Hb Hload HQ Hsort. unfold enter.
  assert (Hp : o ++ replies (with_queue s (queue s ++ [t])) ≡ₚ (treply t :: o) ++ replies s) by (unfold replies; cbn; rewrite map_app; cbn; symmetry; apply move_reply).
  assert (Hlog : forall l, l = match treply t with r_call c => [o_accepted (tmailbox t) (callback_name c)] | r_start _ => [] end ->
    given l = [] /\ answered l = [] /\ initialized l = [] /\ subscribed l = [] /\ misplaced l = [] /\ forall m, taken m l = [] /\ accepted m l = waiting_in m [t]).
  { intros l ->. unfold waiting_in. destruct (treply t) as [c|b] eqn:Er; (split_and!; [done..|]); intros m; (split; [done|]); rewrite filter_cons, filter_nil.
    - cbn [accepted omap list_omap]. destruct (decide (tmailbox t = m)) as [<-|Hn]; [rewrite bool_decide_true by done; cbn; by rewrite Er|by rewrite bool_decide_false by congruence].
    - destruct (decide _); cbn; by rewrite ?Er. }
  destruct (Hlog _ eq_refl) as (E1 & E2 & E3 & E4 & E5 & E6). set (l := match treply t with r_call _ => _ | _ => _ end) in *. clearbody l.
  constructor; cbn -[N.add]; try done.
  - unfold given, answered in *. rewrite !omap_app, E1, E2, !app_nil_r, i_answers0. apply Permutation_app_head, names_perm. by rewrite <- Hp.
  - intros m. destruct (E6 m) as [Et Ea]. unfold accepted, taken, waiting_in in *. by rewrite !omap_app, Et, Ea, app_nil_r, i_order0, filter_app, map_app, <- app_assoc; unfold names; rewrite omap_app.
  - rewrite length_app. cbn. lia.
  - rewrite payload_app. lia.
  - rewrite i_pending0. apply criticals_perm. by rewrite <- Hp.
  - unfold initialized in *. by rewrite omap_app, E3, app_nil_r.
  - unfold subscribed in *. intros n. rewrite omap_app, E4, app_nil_r. intros Hn. destruct (i_leases0 n Hn) as [H|[H|H]]; [left|right; left|by right; right]; set_solver.
  - unfold misplaced in *. by rewrite omap_app, E5, app_nil_r.
  - intros Hf. congruence.
  - apply Forall_app. split; [done|]. by constructor.
  - apply Forall_app. split; [done|]. by constructor.
  - intros Hm. destruct (i_sorted0 Hm) as [H1 H2]. destruct (Hsort Hm) as [H3 H4]. split; [by apply sorted_snoc|]. apply Forall_app. split; [done|]. by constructor.
Qed.

(** The induction that follows the nesting of callbacks. *)
Lemma callbacks_ind (P : callback -> Prop) (A : action -> Prop) :
  (forall n does, (forall r, Forall A (fst (does r))) -> P (Callback n does)) ->
  (forall route who data c, P c -> A (a_submit route who data c)) -> (forall id g r, A (a_completed id g r)) -> (forall id g st n, A (a_watched id g st n)) -> A a_stop ->
  (forall c, P c) /\ (forall a, A a).
Proof.
  intros H1 H2 H3 H4 H5.
  assert (HP : forall c, P c).
  { fix IH 1. intros [n does]. apply H1. intros r. induction (fst (does r)) as [|a l IHl]; constructor; [|exact IHl]. destruct a as [route who data c|id g x|id g st k|]; [by apply H2|apply H3|apply H4|apply H5]. }
  split; [done|]. intros []; auto.
Qed.

Lemma admission_fits h data s e m d : admission h data s = inr (e, m, d) ->
  stopped s = false /\ loaded s = true /\ N.of_nat (length (queue s)) < queued_requests (limits s) /\ size d <= max_queued_bytes (limits s) - queued_bytes s.
Proof.
  unfold admission. destruct (stopped s); [done|]. destruct (loaded s); [|done]. cbn [orb negb]. destruct (_ || _) eqn:Hb; [done|]. apply orb_false_iff in Hb as [Hl%N.leb_gt Hs%N.ltb_ge].
  intros H. split_and!; [done..|]. destruct (is_empty (hkind h)); [by injection H as <- <- <-|]. destruct (_ || _); [done|]. destruct (_ || _); [done|].
  injection H as <- <- <-. unfold size in *. rewrite length_drop. lia.
Qed.

(** After [lease] the task holds the subscription. *)
Lemma lease_holds id n s t : tasks s !! id = Some t -> exists u s', lease world id n s = (Ok tt, s') /\ tasks s' !! id = Some u /\ twatch u = Some n.
Proof.
  intros Ht. unfold lease, look, mbind, act_bind, state, modify, mret, act_ret. cbn [tasks with_moment]. rewrite Ht. cbn [option_bind].
  destruct (twatch t); eexists _, _; (split; [reflexivity|]); cbn [tasks update_task with_tasks with_log with_moment]; by rewrite lookup_alter_eq, Ht.
Qed.

(** ** Modes and steps *)

(** Where a reply may be called: while the engine polls or stops ([inside]), or when it is idle
    ([outside]), with what such a call leaves in place. *)
Class Mode (C : Engine -> Prop) (R : Engine -> Engine -> Prop) := {
  mode_refl : forall s, R s s;
  mode_trans : forall a b c, R a b -> R b c -> R a c;
  mode_frame : forall s s', C s -> frame s s' -> C s' /\ R s s' }.

Definition inside (s : Engine) : Prop := polling s = true \/ stopped s = true.
Lemma inside_frame s s' : frame s s' -> inside s -> inside s'.
Proof. intros H. unfold inside. by rewrite (f_polling _ _ H), (f_stopped _ _ H). Qed.
#[local] Instance inside_mode : Mode inside frame.
Proof. constructor; [apply frame_refl|apply frame_trans|]. intros s s' Hs H. split; [by eapply inside_frame|done]. Qed.

Definition outside (s : Engine) : Prop := polling s = false.
Definition same_limits (s s' : Engine) : Prop := limits s' = limits s.
#[local] Instance outside_mode : Mode outside same_limits.
Proof.
  constructor; [done|by unfold same_limits; intros; congruence|]. intros s s' Hs H. unfold outside. rewrite (f_polling _ _ H). split; [done|apply H].
Qed.

Section Steps.
Context (C : Engine -> Prop) (R : Engine -> Engine -> Prop) `{!Mode C R}.

(** [m] run in [s] settles [owed] to [owed'], whether it returns or throws. *)
Definition goes {A} (owed : list reply) (m : act A) (owed' : list reply) (s : Engine) : Prop :=
  Inv owed s -> C s -> Inv owed' (m s).2 /\ C (m s).2 /\ R s (m s).2.

Lemma goes_bind {A B} o (m : act A) o' (k : A -> act B) s :
  goes o m o' s -> (forall a s', m s = (Ok a, s') -> goes o' (k a) o' s') -> goes o (m ≫= k) o' s.
Proof.
  intros Hm Hk HI Hin. destruct (Hm HI Hin) as (HI' & Hc & Hf). unfold mbind, act_bind. destruct (m s) as [[a|e] s'] eqn:E; [|done]. cbn in *.
  destruct (Hk a s' eq_refl HI' Hc) as (HJ & Hc' & Hg). split_and!; [done|done|]. by eapply mode_trans.
Qed.

Lemma goes_state {B} o (k : Engine -> act B) o' s : goes o (k s) o' s -> goes o (state ≫= k) o' s.
Proof. done. Qed.

Lemma goes_then {B} o f o1 (k : unit -> act B) o2 s :
  (Inv o s -> Inv o1 (f s) /\ frame s (f s)) -> goes o1 (k tt) o2 (f s) -> goes o (modify f ≫= k) o2 s.
Proof.
  intros Hf Hk HI Hin. destruct (Hf HI) as [H1 H2]. destruct (mode_frame _ _ Hin H2) as [Hc Hr]. destruct (Hk H1 Hc) as (H3 & H4 & H5).
  split_and!; [done|done|]. by eapply mode_trans.
Qed.

Lemma goes_modify o f o' s : (Inv o s -> Inv o' (f s) /\ frame s (f s)) -> goes o (modify f) o' s.
Proof. intros H HI Hin. destruct (H HI) as [H1 H2]. destruct (mode_frame _ _ Hin H2) as [Hc Hr]. done. Qed.
Lemma goes_ret {A} o (a : A) s : goes o (mret a) o s.
Proof. intros HI Hc. split_and!; [done|done|apply mode_refl]. Qed.
Lemma goes_done o s : goes o done o s.
Proof. apply goes_ret. Qed.
Lemma goes_raise {A} o e s : goes o (raise e : act A) o s.
Proof. intros HI Hc. split_and!; [done|done|apply mode_refl]. Qed.
Lemma goes_when o (b : bool) m s : (b = true -> goes o m o s) -> goes o (when b m) o s.
Proof. destruct b; cbn; [by intros H; apply H|]. intros _. apply goes_done. Qed.
Lemma goes_each {A} o (f : A -> act unit) l s : (forall a s, a ∈ l -> goes o (f a) o s) -> goes o (for_each f l) o s.
Proof.
  revert s. induction l as [|a l IH]; intros s H; cbn; [apply goes_done|]. apply goes_bind; [apply H; by left|]. intros [] s' _. apply IH. intros b s'' Hb. apply H. by right.
Qed.
Lemma goes_attempt {A} o (m : act A) o1 (h : exn -> act A) s : goes o m o1 s -> (forall e s', goes o1 (h e) o1 s') -> goes o (attempt m h) o1 s.
Proof.
  intros Hm Hh HI Hin. destruct (Hm HI Hin) as (H1 & H2 & H3). unfold attempt. destruct (m s) as [[a|e] s'] eqn:E; [done|]. cbn in *.
  destruct (Hh e s' H1 H2) as (H4 & H5 & H6). split_and!; [done|done|]. by eapply mode_trans.
Qed.

(** ** Logging *)

Lemma goes_note o x s : silent x = true -> goes o (note x) o s.
Proof. intros Hx. apply goes_modify. intros HI. split; [|by constructor]. apply inv_log; [cbn; by rewrite Hx|done]. Qed.

Lemma goes_look o s : goes o (look world) o s.
Proof.
  intros HI Hc. change ((look world s).2) with (with_moment s (moment s + 1)).
  assert (Hf : frame s (with_moment s (moment s + 1))) by (constructor; cbn -[N.add]; try done; lia).
  destruct (mode_frame _ _ Hc Hf) as [H1 H2]. split; [by apply inv_moment|done].
Qed.

(** ** Changing a task in place *)

Lemma goes_task o id f s :
  (forall t, tasks s !! id = Some t -> Inv o s -> same_task t (f t) /\ lease_kept_by t (f t) (log s) /\ tdeadline (f t) = tdeadline t) -> goes o (modify (update_task id f)) o s.
Proof.
  intros H. apply goes_modify. intros HI. unfold update_task. destruct (tasks s !! id) as [t|] eqn:Ht.
  - rewrite (alter_insert f id t) by done. destruct (H t eq_refl HI) as (H1 & H2 & H3). split; [by eapply inv_task|]. apply (frame_task _ _ t); [done|]. by rewrite H3.
  - assert (alter f id (tasks s) = tasks s) as ->; [|destruct s; split; [done|apply frame_refl]].
    apply map_eq. intros i. destruct (decide (i = id)) as [->|Hn]; [by rewrite lookup_alter_eq, Ht|by rewrite lookup_alter_ne by done].
Qed.

(** ** Completions and leases *)

Lemma goes_queue_result o id x s : size (rdata x) <= max_queued_bytes (limits s) - completed_bytes s ->
  goes o (modify (fun s => with_completed_bytes (with_resumes s (resumes s ++ [(id, x)])) (completed_bytes s + size (rdata x)))) o s.
Proof.
  intros Hx. apply goes_modify. intros []. split; [|by constructor]. constructor; cbn -[N.add]; try done. destruct i_completed0 as [E1 E2]. rewrite held_snoc. lia.
Qed.

Lemma goes_completed o id generation r s : goes o (completed id generation r) o s.
Proof.
  unfold completed. apply goes_state. destruct (stopped s) eqn:Hs; [apply goes_done|]. destruct (tasks s !! id) as [t|] eqn:Ht; [|apply goes_done].
  destruct (_ || _); [apply goes_done|]. cbv zeta. apply goes_bind.
  - destruct (N.ltb_spec (max_queued_bytes (limits s) - completed_bytes s) (size (rdata r))); apply goes_queue_result; [apply N.le_0_l|done].
  - intros [] s' _. apply goes_task. intros u Hu HI. split_and!; [done|by eapply lease_same|done].
Qed.

Lemma goes_unwatch o n s : goes o (unwatch n) o s.
Proof. apply goes_when. intros _. by apply goes_note. Qed.

Lemma goes_delivered o s status n :
  (status = ok -> n <> 0 -> secured s n) -> goes o (note (o_delivered status n)) o s.
Proof. intros H. apply goes_modify. intros HI. split; [by apply inv_delivered|by constructor]. Qed.

Lemma goes_lease o id n s : n <> 0 -> goes o (lease world id n) o s.
Proof.
  intros Hn. unfold lease. apply goes_bind; [apply goes_look|]. intros v s1 [= Ev Es]. apply goes_state. apply goes_bind.
  - destruct (_ ≫= _); [|apply goes_done]. by destruct (v_shared v); apply goes_note.
  - intros [] s2 E2. apply goes_task. intros t Ht HI. split; [done|]. split; [|done]. split; cbn; [congruence|]. intros k Hk. right.
    assert (Et : tasks s1 !! id = Some t). { destruct ((tasks s1 !! id) ≫= twatch); injection E2 as E2; by subst s2. }
    rewrite Et in E2. cbn in E2. rewrite Hk in E2. injection E2 as E2. subst s2. cbn. destruct (v_shared v); set_solver.
Qed.

Lemma goes_watched o id generation status n s : goes o (watched world id generation status n) o s.
Proof.
  unfold watched. apply goes_state. destruct (delivered s !! (id, generation)); [apply goes_when; intros _; apply goes_unwatch|].
  apply (goes_then o _ o); [intros []; split; by constructor|]. set (s1 := with_delivered _ _). destruct (stopped s || _) eqn:Hst.
  - apply goes_bind; [apply goes_unwatch|]. intros [] s2 E2. apply goes_delivered. intros -> Hn. left. apply N.eqb_neq in Hn. unfold unwatch in E2. rewrite Hn in E2. injection E2 as <-. cbn. set_solver.
  - apply orb_false_iff in Hst as [_ Hst]. destruct (tasks s !! id) as [t|] eqn:Ht; [|done]. apply goes_bind.
    + apply goes_when. intros [_ Hn]%andb_true_iff. apply goes_lease. intros ->. done.
    + intros [] s2 E2. apply goes_bind; [|intros; apply goes_completed]. apply goes_delivered. intros -> Hn. right; right.
      rewrite (proj2 (N.eqb_neq n 0) Hn) in E2. change (is_ok_status ok && negb false) with true in E2. unfold when in E2. destruct (lease_holds id n s1 t Ht) as (u & s' & El & Hu & Hw). exists id, u.
      rewrite El in E2. injection E2 as <-. done.
Qed.

(** ** Replies *)

Lemma goes_enqueue o h who data c e s : admission h data s = inr e ->
  goes (r_call c :: o) (v ← look world; let t := new_task h who e (r_call c) (v_now v + ms (task_timeout (limits s))) in
    note (o_accepted (tmailbox t) (callback_name c));; modify (fun s => with_queued_bytes (with_queue s (queue s ++ [t])) (queued_bytes s + size (tdata t)))) o
    (with_log s (log s ++ [o_given (callback_name c)])).
Proof.
  destruct e as [[e m] d]. intros (Hs & Hl & Hq & Hb)%admission_fits HI Hc. cbv zeta. set (s1 := with_log s _) in *.
  set (t := new_task h who (e, m, d) (r_call c) (v_now (world (moment s)) + ms (task_timeout (limits s)))%Z).
  assert (E : ∀ x, x = enter t [o_accepted (tmailbox t) (callback_name c)] (with_moment s1 (moment s1 + 1)) -> Inv o x /\ C x /\ R s1 x); [|by apply E].
  intros x ->. assert (Hf : frame s1 (enter t [o_accepted (tmailbox t) (callback_name c)] (with_moment s1 (moment s1 + 1)))).
  { constructor; cbn -[N.add late_in]; try done; [lia| |congruence]. intros now (_ & Hp & Hn). cbn in Hp, Hn. rewrite late_in_snoc; [done|]. cbn. lia. }
  split; [|by apply mode_frame]. apply inv_enter; try done; [by apply inv_moment|cbn; by apply (i_clock _ _ HI)|].
  cbn -[N.add]. intros Hm. destruct (i_sorted _ _ HI Hm) as [_ Ha]. split.
  - eapply Forall_impl; [exact Ha|]. cbn. intros u Hu. by apply Hu.
  - intros k Hk. assert (v_now (world (moment s)) <= v_now (world k))%Z by (apply Hm; lia). lia.
Qed.

Lemma goes_replies halt : (forall o s, goes o halt o s) ->
  (forall c r o s, goes (r_call c :: o) (call world halt c r) o s) /\ (forall a o s, goes o (act_on world halt a) o s).
Proof.
  intros Hh. pose (P c := forall r o s, goes (r_call c :: o) (call world halt c r) o s). pose (A a := forall o s, goes o (act_on world halt a) o s).
  apply (callbacks_ind P A); unfold P, A; clear P A.
  - intros n does Hd r o s. cbn [call]. apply (goes_then _ _ o); [intros HI; split; [by apply (inv_answered o s (Callback n does))|by constructor]|].
    apply goes_bind; [|intros [] s' _; destruct (snd (does r)); [apply goes_raise|apply goes_done]]. apply goes_each. intros a s' Ha. specialize (Hd r). rewrite Forall_forall in Hd. by apply Hd.
  - intros route who data c IH o s. cbn [act_on]. apply goes_state. destruct (handlers s !! route) as [h|]; [|apply goes_done].
    apply (goes_then _ _ (r_call c :: o)); [intros HI; split; [by apply inv_given|by constructor]|]. destruct (admission h data s) as [st|e] eqn:Ea; [apply IH|by apply (goes_enqueue o h who data c e s)].
  - intros id g r o s. apply goes_completed.
  - intros id g st n o s. apply goes_watched.
  - intros o s. apply Hh.
Qed.
End Steps.

(** ** The end of a task *)

Abbreviation going := (goes inside frame).

Lemma halt_going o s : going o halt_inside o s.
Proof.
  intros HI [Hp|Hs]; unfold halt_inside, mbind, act_bind, state, modify; cbn.
  - rewrite Hp. cbn. split_and!; [destruct HI; by constructor|by left|by constructor].
  - destruct (polling s) eqn:Hp; cbn; [split_and!; [destruct HI; by constructor|by left|by constructor]|]. rewrite Hs. cbn. split_and!; [done|by right|apply frame_refl].
Qed.

Lemma action_going o a s : going o (act_on world halt_inside a) o s.
Proof. apply goes_replies; [apply inside_mode|apply halt_going]. Qed.

Lemma inv_started o b r s : Inv (r_start b :: o) s -> Inv o (started b r s).2 /\ frame s (started b r s).2.
Proof.
  intros []. destruct b.
  - set (s' := (started true r s).2).
    assert (E : s' = with_initialization_failed (with_initialization_pending (with_log s (log s ++ [o_started true r])) (initialization_pending s - 1)) (initialization_failed s || negb (is_ok_status (rstatus r)))).
    { unfold s', started, when, note, mbind, act_bind, modify, done, mret, act_ret. cbn. destruct (is_ok_status (rstatus r)); cbn; [rewrite orb_false_r|rewrite orb_true_r]; by destruct s. }
    rewrite E. split; [|by constructor]. constructor; cbn -[N.sub]; try done.
    + unfold given, answered in *. rewrite !omap_app. cbn. by rewrite !app_nil_r.
    + intros m. unfold accepted, taken in *. rewrite !omap_app. cbn. by rewrite !app_nil_r.
    + rewrite i_pending0. change (1 + criticals (o ++ replies s) - 1 = criticals (o ++ replies s)). lia.
    + intros [Hf Hr]%orb_false_iff. unfold initialized in *. rewrite omap_app. apply Forall_app. split; [by apply i_ready0|]. cbn. constructor; [|done].
      apply negb_false_iff, bool_decide_eq_true in Hr. done.
    + unfold subscribed in *. intros n. rewrite omap_app. cbn. rewrite app_nil_r. intros Hn. by apply secured_log, i_leases0.
    + unfold misplaced in *. rewrite omap_app. cbn. by rewrite app_nil_r.
  - change ((started false r s).2) with (with_log s (log s ++ [o_started false r])). split; [|by constructor].
    apply (inv_logged (r_start false :: o)); [by constructor| |done|done|done|set_solver|done].
    unfold given, answered in *. rewrite !omap_app. cbn. by rewrite !app_nil_r.
Qed.

Lemma answer_going o t r s : going (treply t :: o) (answer world t r) o s.
Proof.
  unfold answer. destruct (treply t) as [c|b]; [apply goes_replies; [apply inside_mode|apply halt_going]|].
  intros HI Hin. destruct (inv_started o b r s HI) as [H1 H2]. split_and!; [done| |done]. by eapply inside_frame.
Qed.

(** What [finish] does before it calls the reply. *)
Definition released (t : Task) : list output :=
  match twatch t with Some n => if n =? 0 then [] else [o_unwatched n] | None => [] end ++ [o_reset (tthread t)] ++ match treference t with Some f => [o_unref f] | None => [] end ++
  (if tbackground t then match tfunction t with Some f => [o_unref f] | None => [] end else []).
Definition finished (id : N) (t : Task) (s : Engine) : Engine :=
  with_log (with_busy (with_threads (with_tasks s (delete id (tasks s))) (delete (tthread t) (threads s))) (if is_empty (tmailbox t) then busy s else busy s ∖ {[tmailbox t]})) (log s ++ released t).

Lemma with_log_nil s : with_log s (log s ++ []) = s.
Proof. rewrite app_nil_r. by destruct s. Qed.
Lemma close_eq (w : option N) s :
  match w with Some n => unwatch n | None => done end s = (Ok tt, with_log s (log s ++ match w with Some n => if n =? 0 then [] else [o_unwatched n] | None => [] end)).
Proof. destruct w as [n|]; [unfold unwatch, when; destruct (n =? 0)|]; cbn [negb]; [by rewrite with_log_nil|done|by rewrite with_log_nil]. Qed.
Lemma unref_eq x s : unref x s = (Ok tt, with_log s (log s ++ match x with Some f => [o_unref f] | None => [] end)).
Proof. destruct x; [done|]. by rewrite with_log_nil. Qed.
Lemma release_eq t s : release_task_function t s = (Ok tt, with_log s (log s ++ (if tbackground t then match tfunction t with Some f => [o_unref f] | None => [] end else []))).
Proof. unfold release_task_function, when. destruct (tbackground t); [destruct (tfunction t)|]; [done|by rewrite with_log_nil|by rewrite with_log_nil]. Qed.
Lemma free_eq m s : when (negb (is_empty m)) (modify (fun s => with_busy s (busy s ∖ {[m]}))) s = (Ok tt, with_busy s (if is_empty m then busy s else busy s ∖ {[m]})).
Proof. destruct (is_empty m); [by destruct s|done]. Qed.

Lemma finish_eq id t r s : tasks s !! id = Some t -> finish world id r s = answer world t r (finished id t s).
Proof.
  intros Ht. unfold finish. unfold mbind at 1, act_bind at 1, state. rewrite Ht. unfold mbind, act_bind, modify, note, modify. rewrite close_eq, unref_eq, release_eq, free_eq.
  f_equal. unfold finished, released. cbn [with_log with_busy with_threads with_tasks log threads tasks busy]. rewrite <- !app_assoc. by destruct s.
Qed.

Lemma released_silent t : forallb silent (released t) = true.
Proof. unfold released. destruct (twatch t) as [n|]; [destruct (n =? 0)|]; destruct (treference t), (tbackground t), (tfunction t); done. Qed.

Lemma replies_delete s id t : tasks s !! id = Some t -> replies s ≡ₚ treply t :: replies (with_tasks s (delete id (tasks s))).
Proof. intros Ht. unfold replies. cbn. rewrite (mnames_delete _ id t Ht) at 1. symmetry. apply Permutation_middle. Qed.

Lemma inv_finished o id t s : Inv o s -> tasks s !! id = Some t -> Inv (treply t :: o) (finished id t s) /\ frame s (finished id t s).
Proof.
  intros [] Ht. split; [|constructor; cbn -[late_in]; try done; [|intros _; split; [done|]; rewrite dom_delete; set_solver];
    intros now i _; destruct (decide (i = id)) as [->|]; [by rewrite lookup_delete_eq|by rewrite lookup_delete_ne by done]].
  destruct (silent_log _ (released_silent t)) as (E1 & E2 & E3 & E4 & E5 & E6).
  assert (Hp : (treply t :: o) ++ replies (finished id t s) ≡ₚ o ++ replies s).
  { rewrite (replies_delete s id t Ht). cbn. apply Permutation_middle. }
  assert (HL : forall i u, tasks (finished id t s) !! i = Some u -> i <> id /\ tasks s !! i = Some u) by (cbn; intros i u [H1 H2]%lookup_delete_Some; done).
  constructor; try done; cbn [limits log queue tasks busy threads finished with_log with_busy with_threads with_tasks resumes queued_bytes completed_bytes initialization_pending initialization_failed loaded moment serial next_thread].
  - unfold given, answered in *. rewrite !omap_app, E1, E2, !app_nil_r, i_answers0. apply Permutation_app_head, names_perm. by rewrite Hp.
  - intros m. destruct (E3 m) as [Ea Et]. unfold accepted, taken in *. by rewrite !omap_app, Ea, Et, !app_nil_r.
  - rewrite map_size_delete_Some by done. lia.
  - intros m. split.
    + intros Hm. assert (Hb : m ∈ busy s /\ m <> tmailbox t).
      { destruct (is_empty (tmailbox t)) eqn:He; [apply is_empty_true in He|set_solver]. split; [done|]. rewrite He. by apply i_busy0 in Hm as [? _]. }
      destruct Hb as [Hb Hne]. apply i_busy0 in Hb as [H0 (i & u & Hu & Hum)]. split; [done|]. exists i, u. split; [|done]. apply lookup_delete_Some. split; [|done]. intros <-. congruence.
    + intros [Hm (i & u & [Hi Hu]%lookup_delete_Some & Hum)]. assert (m ∈ busy s) by (apply i_busy0; eauto). destruct (is_empty (tmailbox t)); [done|].
      apply elem_of_difference. split; [done|]. intros ->%elem_of_singleton. apply Hi. by apply (i_alone0 id i t u).
  - intros i j u w [_ Hu]%HL [_ Hw]%HL. by apply i_alone0.
  - intros th i. rewrite lookup_delete_Some, i_threads0. split.
    + intros (Hn & u & Hu & Hth). exists u. split; [|done]. apply lookup_delete_Some. split; [|done]. intros <-. congruence.
    + intros (u & [Hi Hu]%lookup_delete_Some & Hth). split; [|eauto]. intros E. apply Hi.
      assert (H1 : threads s !! th = Some id) by (apply i_threads0; exists t; split; congruence). assert (H2 : threads s !! th = Some i) by (apply i_threads0; eauto). congruence.
  - intros i u [_ Hu]%HL. by apply i_fresh0.
  - rewrite i_pending0. by rewrite <- (criticals_perm _ _ Hp).
  - unfold initialized in *. by rewrite omap_app, E4, app_nil_r.
  - unfold subscribed in *. intros n. rewrite omap_app, E5, app_nil_r. intros Hn. destruct (i_leases0 n Hn) as [H|[H|(i & u & Hu & Huw)]]; [left; set_solver|right; left; set_solver|].
    destruct (decide (i = id)) as [->|Hi]; [|right; right; exists i, u; split; [by apply lookup_delete_Some|done]]. assert (u = t) as -> by congruence.
    left. apply elem_of_app. right. unfold released. rewrite Huw. destruct (i_fresh0 id t Ht) as (_ & _ & H0). rewrite (proj2 (N.eqb_neq n 0) (H0 n Huw)). set_solver.
  - unfold misplaced in *. by rewrite omap_app, E6, app_nil_r.
  - intros Hl. destruct (i_idle0 Hl) as [_ E]. by rewrite E, lookup_empty in Ht.
  - intros i u [_ Hu]%HL. by eapply i_task_deadlines0.
Qed.

Lemma finish_going o id r s : going o (finish world id r) o s.
Proof.
  intros HI Hin. destruct (tasks s !! id) as [t|] eqn:Ht.
  - rewrite (finish_eq id t) by done. destruct (inv_finished o id t s HI Ht) as [H1 H2]. pose proof (inside_frame _ _ H2 Hin) as H3.
    destruct (answer_going o t r _ H1 H3) as (H4 & H5 & H6). split_and!; [done|done|]. by eapply frame_trans.
  - unfold finish, mbind, act_bind, state. rewrite Ht. split_and!; [done|done|apply frame_refl].
Qed.

(** A stopped engine loses the task for good. *)
Lemma finish_removes o id r s : Inv o s -> stopped s = true -> dom (tasks (finish world id r s).2) ⊆ dom (tasks s) ∖ {[id]}.
Proof.
  intros HI Hs. destruct (tasks s !! id) as [t|] eqn:Ht.
  - rewrite (finish_eq id t) by done. destruct (inv_finished o id t s HI Ht) as [H1 H2]. destruct (answer_going o t r _ H1) as (_ & _ & H3); [by right|].
    destruct (f_quiet _ _ H3 Hs) as [_ H4]. cbn in H4. rewrite dom_delete_L in H4. done.
  - unfold finish, mbind, act_bind, state. rewrite Ht. cbn. apply not_elem_of_dom in Ht. set_solver.
Qed.

(** ** Resuming a task *)

Lemma use_lease_going o id t u s : tasks s !! id = Some t -> going o (use_lease id t u) o s.
Proof.
  intros Ht. unfold use_lease. destruct u, (twatch t) as [n|] eqn:Hw; try apply goes_done, inside_mode.
  - apply goes_bind; [apply inside_mode|by apply goes_note; [apply inside_mode|]|]. intros [] s' [= <-]. apply goes_task; [apply inside_mode|]. cbn. intros t' Ht' _. assert (t' = t) as -> by congruence.
    split; [done|]. split; [|done]. split; cbn; [done|]. intros k Hk. right; right. assert (k = n) as -> by congruence. set_solver.
  - intros HI. revert HI. assert (Hn0 : Inv o s -> n <> 0) by (intros HI; by apply (i_fresh _ _ HI id t)). intros HI. specialize (Hn0 HI). revert HI.
    apply goes_bind; [apply inside_mode|apply goes_unwatch, inside_mode|]. intros [] s' E. unfold unwatch in E. rewrite (proj2 (N.eqb_neq n 0) Hn0) in E. injection E as <-.
    apply goes_task; [apply inside_mode|]. cbn. intros t' Ht' _. assert (t' = t) as -> by congruence. split; [done|]. split; [|done]. split; cbn; [done|]. intros k Hk. right; left. assert (k = n) as -> by congruence. set_solver.
Qed.

(** A background task gets a new deadline. *)
Lemma renew_going o id s : going o (v ← look world; modify (update_task id (task_deadline (v_now v + ms (task_timeout (limits s))))) ) o s.
Proof.
  intros HI Hin. assert (Hm : Inv o (with_moment s (moment s + 1)) /\ frame s (with_moment s (moment s + 1))) by (split; [by apply inv_moment|constructor; cbn -[N.add]; try done; lia]).
  destruct Hm as [H1 H2]. set (d := (v_now (world (moment s)) + ms (task_timeout (limits s)))%Z).
  assert (E : (v ← look world; modify (update_task id (task_deadline (v_now v + ms (task_timeout (limits s)))))) s = (Ok tt, update_task id (task_deadline d) (with_moment s (moment s + 1)))) by done.
  rewrite E. cbn [snd]. clear E. unfold update_task. cbn [tasks with_moment]. destruct (tasks s !! id) as [t|] eqn:Ht.
  - rewrite (alter_insert _ id t) by done. assert (Hf : frame s (with_tasks (with_moment s (moment s + 1)) (<[id := task_deadline d t]> (tasks s)))).
    { constructor; cbn -[N.add]; try done; [lia| |].
      - intros now i (_ & Hp & Hn). destruct (decide (i = id)) as [->|Hne]; [|by rewrite lookup_insert_ne by done]. rewrite lookup_insert_eq. cbn. lia.
      - intros _. split; [done|]. rewrite dom_insert. assert (id ∈ dom (tasks s)) by (by apply elem_of_dom_2 in Ht). set_solver. }
    split_and!; [|by eapply inside_frame|done]. apply (inv_task o (with_moment s (moment s + 1)) id t); [done|done| |by eapply lease_same]. split_and!; [done..|]. intros _. apply QT. by apply (i_clock _ _ HI).
  - assert (alter (task_deadline d) id (tasks s) = tasks s) as ->; [|destruct s; split_and!; [done|by eapply inside_frame|done]].
    apply map_eq. intros i. destruct (decide (i = id)) as [->|Hn]; [by rewrite lookup_alter_eq, Ht|by rewrite lookup_alter_ne by done].
Qed.

(** Changes of a task that keep its lease and what is known of its deadline. *)
Lemma update_going o id f s : (forall t, tmailbox (f t) = tmailbox t /\ treply (f t) = treply t /\ tthread (f t) = tthread t /\ twatch (f t) = twatch t /\ tdeadline (f t) = tdeadline t) ->
  going o (modify (update_task id f)) o s.
Proof.
  intros H. apply goes_task; [apply inside_mode|]. intros t Ht HI. destruct (H t) as (E1 & E2 & E3 & E4 & E5). split_and!; [|by eapply lease_same|done]. split_and!; [done..|]. by rewrite E5.
Qed.

Lemma suspend_going o id a s : going o (suspend world id a) o s.
Proof.
  unfold suspend. apply goes_state. destruct (tasks s !! id) as [t|]; [|apply goes_done, inside_mode]. apply goes_bind; [apply inside_mode|by apply update_going|].
  intros [] s1 [= <-]. set (s1 := update_task _ _ _). apply goes_bind; [apply inside_mode| |].
  - apply goes_when; [apply inside_mode|]. intros _. exact (renew_going o id s1).
  - intros [] s2 _. cbv zeta. apply goes_bind; [apply inside_mode|by apply update_going|]. intros [] s3 _. destruct (decide (akind a = k_sleep)).
    + apply goes_bind; [apply inside_mode|apply goes_look, inside_mode|]. intros v s4 _. by apply update_going.
    + apply goes_attempt; [apply inside_mode| |intros e s4; apply finish_going]. apply goes_bind; [apply inside_mode|by apply goes_note; [apply inside_mode|]|]. intros [] s4 _.
      apply goes_bind; [apply inside_mode|apply goes_look, inside_mode|]. intros v s5 _. apply goes_bind; [apply inside_mode| |intros [] s6 _; destruct (snd _); [apply goes_raise, inside_mode|apply goes_done, inside_mode]].
      apply goes_each; [apply inside_mode|]. intros x s6 _. apply action_going.
Qed.

Lemma resumed_going o id limit x s : going o (resumed world id limit x) o s.
Proof.
  unfold resumed. destruct (status_of x) as [[d|]| | |]; try apply finish_going; [destruct (_ <? _); apply finish_going|]. destruct (awaits x); [apply suspend_going|apply finish_going].
Qed.

Lemma advance_going o id n s : going o (advance world id n) o s.
Proof.
  unfold advance. apply goes_state. destruct (tasks s !! id) as [t|] eqn:Ht; [|apply goes_done, inside_mode]. apply goes_bind; [apply inside_mode|apply goes_look, inside_mode|].
  intros v s1 [= _ <-]. destruct (negb _); [apply finish_going|]. apply goes_bind; [apply inside_mode|by apply goes_note; [apply inside_mode|]|]. intros [] s2 [= <-]. cbv zeta.
  apply goes_bind; [apply inside_mode|by apply use_lease_going|]. intros [] s3 _. apply goes_bind; [apply inside_mode|apply goes_look, inside_mode|]. intros w s4 _.
  destruct (_ || _); [apply finish_going|]. destruct (memory_exhausted _); [apply finish_going|]. destruct (script_rejected _); [apply finish_going|]. destruct (exhausted _); [apply finish_going|].
  apply resumed_going.
Qed.

(** ** Polling *)

Lemma wake_going o now e s : going o (wake now e) o s.
Proof.
  apply goes_when; [apply inside_mode|]. intros _. apply goes_bind; [apply inside_mode|by apply update_going|]. intros [] s' _. apply goes_modify; [apply inside_mode|].
  intros []. split; [|by constructor]. constructor; cbn; try done. destruct i_completed0 as [-> E]. split; [|done]. rewrite held_snoc. cbn. by rewrite N.add_0_r.
Qed.

Lemma sorted_remove (q1 : list Task) t q2 : StronglySorted (fun t u => (tdeadline t <= tdeadline u)%Z) (q1 ++ t :: q2) -> StronglySorted (fun t u => (tdeadline t <= tdeadline u)%Z) (q1 ++ q2).
Proof.
  induction q1 as [|x q1 IH]; cbn; inversion 1 as [|? ? H1 H2]; subst; [done|]. constructor; [by apply IH|]. apply Forall_app in H2 as [? H2]. inversion H2; subst. by apply Forall_app.
Qed.
Lemma payload_remove q1 t q2 : payload (q1 ++ t :: q2) = size (tdata t) + payload (q1 ++ q2).
Proof. induction q1; cbn; lia. Qed.
Lemma Forall_remove {A} (P : A -> Prop) q1 t q2 : Forall P (q1 ++ t :: q2) -> Forall P (q1 ++ q2).
Proof. rewrite !Forall_app, Forall_cons. tauto. Qed.

Lemma filter_none m (q : list Task) : Forall (fun u => tmailbox u <> m) q -> filter (fun u => tmailbox u = m) q = [].
Proof. induction 1; [done|]. by rewrite filter_cons_False. Qed.

Definition left_queue (t : Task) (rest : list Task) (s : Engine) : Engine := with_log (with_queued_bytes (with_queue s rest) (queued_bytes s - size (tdata t))) (log s ++ dequeued t).

(** The first task of a mailbox leaves the queue; its reply is owed. *)
Lemma inv_left o s q1 t q2 : Inv o s -> queue s = q1 ++ t :: q2 -> Forall (fun u => tmailbox u <> tmailbox t) q1 ->
  Inv (treply t :: o) (left_queue t (q1 ++ q2) s) /\ (stopped s = false -> frame s (left_queue t (q1 ++ q2) s)).
Proof.
  intros [] Hq Hne. split; [|intros Hs; constructor; cbn -[late_in]; try done; [|congruence]; intros now _; rewrite Hq, <- (late_in_remove now q1 t q2); lia]. rewrite Hq in *.
  assert (Hp : (treply t :: o) ++ map treply (q1 ++ q2) ++ mnames treply (tasks s) ≡ₚ o ++ replies s).
  { unfold replies. rewrite Hq, !map_app. cbn. rewrite <- !app_assoc. cbn. rewrite !(app_assoc o (map treply q1)). apply Permutation_middle. }
  assert (Hl : given (dequeued t) = [] /\ answered (dequeued t) = [] /\ initialized (dequeued t) = [] /\ subscribed (dequeued t) = [] /\ misplaced (dequeued t) = [] /\
    forall m, accepted m (dequeued t) = [] /\ taken m (dequeued t) = if decide (tmailbox t = m) then names [treply t] else []).
  { unfold dequeued. destruct (treply t) as [c|b]; (split_and!; [done..|]); intros m; (split; [done|]); [|by destruct (decide _)]. cbn.
    destruct (decide (tmailbox t = m)) as [<-|]; [by rewrite bool_decide_true|by rewrite bool_decide_false by congruence]. }
  destruct Hl as (E1 & E2 & E3 & E4 & E5 & E6).
  constructor; try done; cbn [limits log queue tasks busy threads left_queue with_log with_queue with_queued_bytes resumes queued_bytes completed_bytes initialization_pending initialization_failed loaded moment serial next_thread].
  - unfold given, answered in *. rewrite !omap_app, E1, E2, !app_nil_r, i_answers0. apply Permutation_app_head, names_perm. symmetry. exact Hp.
  - intros m. destruct (E6 m) as [Ea Et]. unfold accepted, taken in *. rewrite !omap_app, Ea, Et, app_nil_r, i_order0, <- app_assoc. f_equal. unfold waiting_in.
    rewrite !filter_app, filter_cons, !map_app. unfold names. rewrite !omap_app. destruct (decide (tmailbox t = m)) as [<-|]; [|done].
    assert (filter (fun u => tmailbox u = tmailbox t) q1 = []) as -> by by apply filter_none. cbn. by destruct (treply t).
  - rewrite length_app in *. cbn in *. lia.
  - rewrite payload_remove in i_bytes0. lia.
  - rewrite i_pending0. symmetry. exact (criticals_perm _ _ Hp).
  - unfold initialized in *. by rewrite omap_app, E3, app_nil_r.
  - unfold subscribed in *. intros n. rewrite omap_app, E4, app_nil_r. intros Hn. destruct (i_leases0 n Hn) as [H|[H|H]]; [left|right; left|by right; right]; set_solver.
  - unfold misplaced in *. by rewrite omap_app, E5, app_nil_r.
  - intros Hload. destruct (i_idle0 Hload) as [E _]. by destruct q1.
  - by eapply Forall_remove.
  - by eapply Forall_remove.
  - intros Hm. destruct (i_sorted0 Hm) as [H1 H2]. split; [by eapply sorted_remove|by eapply Forall_remove].
Qed.

Lemma leave_eq t rest s : leave t rest s = (Ok tt, left_queue t rest s).
Proof. done. Qed.

(** While the engine polls. *)
Definition in_poll (s : Engine) : Prop := polling s = true /\ stopped s = false.
#[local] Instance poll_mode : Mode in_poll frame.
Proof. constructor; [apply frame_refl|apply frame_trans|]. intros s s' [H1 H2] H. split; [|done]. split; [by rewrite (f_polling _ _ H)|by rewrite (f_stopped _ _ H)]. Qed.

Lemma polled {A} o (m : act A) o' s : going o m o' s -> goes in_poll frame o m o' s.
Proof. intros H HI Hp. destruct (H HI (or_introl (proj1 Hp))) as (H1 & _ & H2). split_and!; [done| |done]. by apply (mode_frame (Mode := poll_mode) s). Qed.

Lemma release_going o t s : going o (release_task_function t) o s.
Proof. apply goes_when; [apply inside_mode|]. intros _. destruct (tfunction t); [by apply goes_note; [apply inside_mode|]|apply goes_done, inside_mode]. Qed.

Lemma leave_going o s q1 t q2 : queue s = q1 ++ t :: q2 -> Forall (fun u => tmailbox u <> tmailbox t) q1 -> goes in_poll frame o (leave t (q1 ++ q2)) (treply t :: o) s.
Proof.
  intros Hq Hne HI Hp. rewrite leave_eq. destruct (inv_left o s q1 t q2 HI Hq Hne) as [H1 H2]. specialize (H2 (proj2 Hp)). split_and!; [done| |done]. by apply (mode_frame (Mode := poll_mode) s).
Qed.

(** A dequeued task is refused. *)
Lemma refuse_going o t r s : goes in_poll frame (treply t :: o) (release_task_function t;; answer world t r) o s.
Proof.
  intros HI Hp. destruct (polled _ _ _ s (release_going (treply t :: o) t s) HI Hp) as (H1 & H2 & H3). unfold mbind, act_bind.
  rewrite release_eq in *. set (s' := with_log s _) in *. cbn in *. destruct (polled _ _ _ s' (answer_going o t r s') H1 H2) as (H4 & H5 & H6). split_and!; [done|done|]. by eapply frame_trans.
Qed.

Lemma goes_first {A} o (m : act unit) o1 (k : unit -> act A) o2 s s' :
  m s = (Ok tt, s') -> goes in_poll frame o m o1 s -> goes in_poll frame o1 (k tt) o2 s' -> goes in_poll frame o (m ≫= k) o2 s.
Proof.
  intros E Hm Hk HI Hp. destruct (Hm HI Hp) as (H1 & H2 & H3). unfold mbind, act_bind. rewrite E in *. cbn in *. destruct (Hk H1 H2) as (H4 & H5 & H6).
  split_and!; [done|done|]. by eapply frame_trans.
Qed.

Lemma expire_going o n now s : goes in_poll frame o (expire world n now) o s.
Proof.
  revert s. induction n as [|n IH]; intros s; cbn [expire]; [apply goes_done, poll_mode|]. apply goes_state. destruct (queue s) as [|t rest] eqn:Hq; [apply goes_done, poll_mode|].
  apply goes_when; [apply poll_mode|]. intros _. eapply goes_first; [apply leave_eq|by apply (leave_going o s [] t rest)|].
  intros HI Hp. assert (E : forall (a b c : act unit) x, (a;; b;; c) x = ((a;; b);; c) x) by (intros a b c x; unfold mbind, act_bind; by destruct (a x) as [[[]|] ?]).
  rewrite E. revert HI Hp. apply goes_bind; [apply poll_mode|apply refuse_going|]. intros [] s' _. apply IH.
Qed.

Lemma drop_stale_held ts rs bytes : bytes = held rs -> (drop_stale ts rs bytes).2 = held (drop_stale ts rs bytes).1 /\ (drop_stale ts rs bytes).2 <= bytes.
Proof.
  revert bytes. induction rs as [|[id r] rs IH]; intros bytes Hb; cbn [drop_stale held fst snd] in *; [lia|]. destruct (stale ts id); [|cbn; lia].
  destruct (IH (bytes - size (rdata r))) as [H1 H2]; [lia|]. split; [done|lia].
Qed.

Lemma pass_stale_going o s : going o pass_stale o s.
Proof.
  apply goes_modify; [apply inside_mode|]. intros HI. destruct (drop_stale_held (tasks s) (resumes s) (completed_bytes s) (proj1 (i_completed _ _ HI))) as [H1 H2].
  destruct (drop_stale _ _ _) as [rs bytes]. cbn in *. split; [|by constructor]. destruct HI. constructor; cbn; try done. split; [done|lia].
Qed.

Lemma eligible_split b q t rest : eligible b q = Some (t, rest) ->
  exists q1 q2, q = q1 ++ t :: q2 /\ rest = q1 ++ q2 /\ Forall (fun u => tmailbox u <> tmailbox t) q1 /\ (tmailbox t = [] \/ tmailbox t ∉ b).
Proof.
  revert t rest. induction q as [|u q IH]; intros t rest; cbn; [done|]. destruct (is_empty (tmailbox u) || bool_decide (tmailbox u ∉ b)) eqn:He.
  - intros [= <- <-]. exists [], q. split_and!; [done..|]. apply orb_true_iff in He as [He%is_empty_true|He%bool_decide_eq_true]; auto.
  - destruct (eligible b q) as [[x r]|]; [|done]. intros [= <- <-]. destruct (IH x r eq_refl) as (q1 & q2 & -> & -> & H1 & H2). exists (u :: q1), q2. split_and!; [done..| |done].
    constructor; [|done]. apply orb_false_iff in He as [He1 He2]. apply bool_decide_eq_false in He2. intros E. destruct H2 as [H2|H2]; [by rewrite E, H2 in He1|by rewrite E in He2].
Qed.

(** A dequeued task becomes a coroutine. *)
Definition begun (t : Task) (s : Engine) : Engine :=
  let id := serial s + 1 in
  with_tasks (with_busy (with_next_thread (with_threads (with_serial s id) (<[next_thread s := id]> (threads s))) (next_thread s + 1)) (if is_empty (tmailbox t) then busy s else {[tmailbox t]} ∪ busy s))
    (<[id := task_thread (next_thread s) (task_reference (Some (next_thread s)) (task_data [] t))]> (tasks s)).

Lemma begin_eq t s : serial s + 1 < 2 ^ 64 -> tasks s !! (serial s + 1) = None ->
  begin_task world t s = advance world (serial s + 1) ((if is_empty (tmailbox t) then 1 else 2) + (if tcontextual t then 1 else 0)) (begun t s).
Proof.
  intros Hs Hn. unfold begin_task, when, mbind, act_bind, modify, state, done, mret, act_ret. cbn [serial with_serial]. unfold wrap64. rewrite N.mod_small by done. cbn [next_thread with_serial].
  destruct (is_empty (tmailbox t)) eqn:He; cbn [negb tasks with_serial with_threads with_next_thread with_busy]; rewrite Hn; unfold begun; rewrite He; by destruct s.
Qed.

Lemma inv_begun o t s : Inv (treply t :: o) s -> N.of_nat (base.size (tasks s)) < active_coroutines (limits s) -> (tmailbox t = [] \/ tmailbox t ∉ busy s) ->
  Q (tdeadline t) -> twatch t = None -> loaded s = true -> tasks s !! (serial s + 1) = None -> Inv o (begun t s).
Proof.
  intros [] Ha Hm HQ Hw Hload Hn. set (id := serial s + 1) in *. set (t' := task_thread (next_thread s) (task_reference (Some (next_thread s)) (task_data [] t))).
  assert (Hp : o ++ replies (begun t s) ≡ₚ (treply t :: o) ++ replies s).
  { unfold replies. cbn [queue tasks begun with_tasks with_busy with_next_thread with_threads with_serial]. fold id t'. rewrite (mnames_insert _ id t' Hn). cbn.
    etrans; [apply Permutation_app_head; symmetry; apply Permutation_middle|]. symmetry. apply Permutation_middle. }
  assert (HL : forall i u, tasks (begun t s) !! i = Some u -> (i = id /\ u = t') \/ (i <> id /\ tasks s !! i = Some u)).
  { cbn [tasks begun with_tasks]. fold id t'. intros i u [[<- <-]|[Hi Hu]]%lookup_insert_Some; [by left|by right]. }
  assert (HR : forall i u, tasks s !! i = Some u -> tasks (begun t s) !! i = Some u).
  { cbn [tasks begun with_tasks]. fold id t'. intros i u Hu. rewrite lookup_insert_ne; [done|]. intros <-. congruence. }
  assert (Hself : tasks (begun t s) !! id = Some t') by (cbn [tasks begun with_tasks]; fold id t'; apply lookup_insert_eq).
  assert (Hth : threads s !! next_thread s = None).
  { destruct (threads s !! next_thread s) as [i|] eqn:E; [|done]. apply i_threads0 in E as (u & Hu & E). destruct (i_fresh0 i u Hu) as (_ & H & _). lia. }
  constructor; try done.
  - change (log (begun t s)) with (log s). rewrite i_answers0. apply Permutation_app_head, names_perm. symmetry. exact Hp.
  - cbn [tasks begun with_tasks limits with_busy with_next_thread with_threads with_serial]. fold id. rewrite map_size_insert_None by done. lia.
  - intros m. cbn [busy begun with_tasks with_busy]. split.
    + intros Hb. assert (Hc : m ∈ busy s \/ (m = tmailbox t /\ m <> [])).
      { destruct (is_empty (tmailbox t)) eqn:He; [by left|]. apply is_empty_false in He. apply elem_of_union in Hb as [->%elem_of_singleton|Hb]; [by right|by left]. }
      destruct Hc as [Hc|[-> Hc]]; [|split; [done|]; by exists id, t']. apply i_busy0 in Hc as [H0 (i & u & Hu & Hum)]. split; [done|]. exists i, u. auto.
    + intros [H0 (i & u & [[-> ->]|[_ Hu]]%HL & Hum)].
      * cbn in Hum. subst m. destruct (tmailbox t); [done|]. cbn. set_solver.
      * assert (m ∈ busy s) by (apply i_busy0; eauto). destruct (is_empty _); set_solver.
  - intros i j u w Hu Hw' E H0. assert (Hnb : forall k x, tasks s !! k = Some x -> tmailbox x = tmailbox t -> tmailbox t = []).
    { intros k x Hx Ex. destruct Hm as [?|Hm]; [done|]. destruct (decide (tmailbox t = [])); [done|]. destruct Hm. apply i_busy0. eauto. }
    apply HL in Hu as [[-> ->]|[Hi Hu]], Hw' as [[-> ->]|[Hj Hw']]; [done| | |by eapply (i_alone0 i j u w)]; exfalso; cbn in *.
    + apply H0. by eapply (Hnb j w).
    + apply H0. rewrite E. by eapply (Hnb i u).
  - intros th i. cbn [threads begun with_tasks with_busy with_next_thread with_threads]. fold id. rewrite lookup_insert_Some, i_threads0. split.
    + intros [[<- <-]|[Hne (u & Hu & Eu)]]; [by exists t'|]. exists u. auto.
    + intros (u & [[-> ->]|[Hi Hu]]%HL & Eu); [by left|]. right. split; [|eauto]. intros <-. destruct (i_fresh0 i u Hu) as (_ & H & _). lia.
  - intros i u [[-> ->]|[_ Hu]]%HL; cbn [serial next_thread begun with_tasks with_busy with_next_thread with_threads with_serial].
    + split_and!; [done|cbn; lia|]. cbn. congruence.
    + destruct (i_fresh0 i u Hu) as (H1 & H2 & H3). split_and!; [lia|lia|done].
  - change (initialization_pending (begun t s)) with (initialization_pending s). rewrite i_pending0. symmetry. exact (criticals_perm _ _ Hp).
  - change (log (begun t s)) with (log s). intros n Hk. destruct (i_leases0 n Hk) as [H|[H|(i & u & Hu & Huw)]]; [by left|by right; left|]. right; right. exists i, u. auto.
  - cbn. congruence.
  - intros i u [[-> ->]|[_ Hu]]%HL; [by apply QT|by eapply i_task_deadlines0].
Qed.

(** What a poll leaves alone. *)
Record drives (k : N) (s s' : Engine) : Prop := {
  dr_limits : limits s' = limits s; dr_stopped : stopped s' = stopped s; dr_loaded : loaded s' = loaded s; dr_polling : polling s' = polling s;
  dr_moment : moment s <= moment s'; dr_serial : serial s' <= serial s + k }.
Lemma frame_drives k s s' : frame s s' -> drives k s s'.
Proof. intros []. constructor; try done. lia. Qed.
Lemma drives_trans j k a b c : drives j a b -> drives k b c -> drives (j + k) a c.
Proof. intros [] []. constructor; try congruence; lia. Qed.
Lemma drives_poll k s s' : drives k s s' -> in_poll s -> in_poll s'.
Proof. intros H [H1 H2]. split; [by rewrite (dr_polling _ _ _ H)|by rewrite (dr_stopped _ _ _ H)]. Qed.

Definition lands (o : list reply) (k : N) (s s' : Engine) : Prop := Inv o s' /\ drives k s s'.

Lemma begin_going o t s : Inv (treply t :: o) s -> in_poll s -> serial s + 1 < 2 ^ 64 -> N.of_nat (base.size (tasks s)) < active_coroutines (limits s) ->
  (tmailbox t = [] \/ tmailbox t ∉ busy s) -> Q (tdeadline t) -> twatch t = None -> loaded s = true -> lands o 1 s (begin_task world t s).2.
Proof.
  intros HI Hp Hs Ha Hm HQ Hw Hload. assert (Hn : tasks s !! (serial s + 1) = None).
  { destruct (tasks s !! (serial s + 1)) as [u|] eqn:E; [|done]. destruct (i_fresh _ _ HI _ _ E) as [H _]. lia. }
  rewrite begin_eq by done. pose proof (inv_begun o t s HI Ha Hm HQ Hw Hload Hn) as HB.
  destruct (advance_going o (serial s + 1) ((if is_empty (tmailbox t) then 1 else 2) + (if tcontextual t then 1 else 0)) (begun t s) HB (or_introl (proj1 Hp))) as (H1 & _ & H2).
  split; [done|]. destruct H2. constructor; try done. rewrite f_serial0. cbn. lia.
Qed.

Lemma resume_next_going o id r rest s : resumes s = (id, r) :: rest -> going o (resume_next world id r rest) o s.
Proof.
  intros Hr. apply (goes_then inside frame o _ o).
  - intros []. split; [|by constructor]. rewrite Hr in i_completed0. constructor; cbn -[N.sub]; try done. cbn in i_completed0. lia.
  - apply goes_bind; [apply inside_mode|by apply update_going|]. intros [] s2 _. apply goes_bind; [apply inside_mode|apply goes_look, inside_mode|]. intros v s3 _.
    destruct (v_returned v); [apply advance_going|apply finish_going].
Qed.

Lemma start_next_going o t s : Inv (treply t :: o) s -> in_poll s -> serial s + 1 < 2 ^ 64 -> N.of_nat (base.size (tasks s)) < active_coroutines (limits s) ->
  (tmailbox t = [] \/ tmailbox t ∉ busy s) -> Q (tdeadline t) -> twatch t = None -> loaded s = true -> lands o 1 s (start_next world t s).2.
Proof.
  intros HI Hp Hs Ha Hm HQ Hw Hl. destruct (polled _ _ _ s (goes_look inside frame (treply t :: o) s) HI Hp) as (HI2 & Hp2 & Hf2).
  unfold start_next. unfold mbind at 1, act_bind at 1. change (look world s) with (Ok (world (moment s)), with_moment s (moment s + 1)) in *. cbn iota beta. cbn [snd] in *.
  set (s2 := with_moment s _) in *. destruct (v_prepared _) as [|referenced].
  - destruct (begin_going o t s2 HI2 Hp2) as [H1 H2]; try done. split; [done|]. exact (drives_trans 0 1 _ _ _ (frame_drives 0 _ _ Hf2) H2).
  - assert (Hg : goes in_poll frame (treply t :: o) (s ← state; when referenced (note (o_unref (next_thread s)));; release_task_function t;; answer world t (failed_with overloaded)) o s2).
    { apply goes_state. eapply (goes_first _ _ _ _ _ _ (when referenced (note (o_unref (next_thread s2))) s2).2); [|apply polled, goes_when; [apply inside_mode|]; intros _; by apply goes_note; [apply inside_mode|]|apply refuse_going]. by destruct referenced. }
    destruct (Hg HI2 Hp2) as (H1 & _ & H2). split; [done|]. apply frame_drives. by eapply frame_trans.
Qed.

Lemma worked (m : act unit) s : ((m;; mret true) s).2 = (m s).2.
Proof. unfold mbind, act_bind. by destruct (m s) as [[]]. Qed.

Lemma turn_going o s : Inv o s -> in_poll s -> loaded s = true -> serial s + 1 < 2 ^ 64 -> lands o 1 s (turn world s).2.
Proof.
  intros HI0 Hp0 Hl0 Hs0. unfold turn. destruct (polled _ _ _ s (pass_stale_going o s) HI0 Hp0) as (HI & Hp & Hf). unfold mbind at 1, act_bind at 1.
  change (pass_stale s) with (Ok tt, (pass_stale s).2). cbn iota beta. set (s1 := (pass_stale s).2) in *. apply (frame_drives 0) in Hf as Hd.
  assert (Hl : loaded s1 = true) by (by rewrite (f_loaded _ _ Hf)). assert (Hs : serial s1 + 1 < 2 ^ 64) by (by rewrite (f_serial _ _ Hf)). clearbody s1.
  assert (Hid : lands o 1 s s1) by (split; [done|by apply frame_drives]). unfold mbind at 1, act_bind at 1, state. destruct (resumes s1) as [|[id r] rest] eqn:Hr.
  - destruct (_ || _) eqn:Hb; [done|]. apply orb_false_iff in Hb as [_ Ha%N.leb_gt]. destruct (eligible (busy s1) (queue s1)) as [[t rest]|] eqn:He; [|done].
    destruct (eligible_split _ _ _ _ He) as (q1 & q2 & Hq & -> & Hne & Hm). assert (Ht : t ∈ queue s1) by (rewrite Hq; set_solver).
    pose proof (proj1 (Forall_forall _ _) (i_queue_deadlines _ _ HI) t Ht) as HQ. pose proof (proj1 (Forall_forall _ _) (i_unwatched _ _ HI) t Ht) as Hw. cbn beta in HQ, Hw.
    destruct (leave_going o s1 q1 t q2 Hq Hne HI Hp) as (HI2 & Hp2 & Hf2). unfold mbind at 1, act_bind at 1. rewrite leave_eq in *. cbn iota beta. cbn [snd] in *. rewrite worked.
    destruct (start_next_going o t _ HI2 Hp2) as [H1 H2]; try done. split; [done|]. exact (drives_trans 0 1 _ _ _ Hd (drives_trans 0 1 _ _ _ (frame_drives 0 _ _ Hf2) H2)).
  - rewrite worked. destruct (resume_next_going o id r rest s1 Hr HI (or_introl (proj1 Hp))) as (H1 & _ & H2). split; [done|]. exact (drives_trans 0 1 _ _ _ Hd (frame_drives 1 _ _ H2)).
Qed.

Lemma turns_going o n work s : Inv o s -> in_poll s -> loaded s = true -> serial s + N.of_nat n < 2 ^ 64 -> lands o (N.of_nat n) s (turns world n work s).2.
Proof.
  revert work s. induction n as [|n IH]; intros work s HI Hp Hl Hs; [split; [done|apply frame_drives, frame_refl]|]. cbn [turns]. unfold mbind at 1, act_bind at 1, state.
  destruct (_ || _); [split; [done|apply frame_drives, frame_refl]|]. destruct (turn_going o s HI Hp Hl ltac:(lia)) as [H1 H2]. unfold mbind, act_bind. destruct (turn world s) as [[more|e] s1]; cbn [snd] in *.
  - pose proof (drives_poll _ _ _ H2 Hp) as Hp1. assert (Hl1 : loaded s1 = true) by (by rewrite (dr_loaded _ _ _ H2)). pose proof (dr_serial _ _ _ H2). destruct more.
    + destruct (IH (work + 1) s1 H1 Hp1 Hl1 ltac:(lia)) as [H3 H4]. split; [done|]. replace (N.of_nat (S n)) with (1 + N.of_nat n) by lia. by eapply drives_trans.
    + split; [done|]. destruct H2. constructor; try done. cbn. lia.
  - split; [done|]. destruct H2. constructor; try done. lia.
Qed.

(** ** Stopping *)

Lemma notes_eq {A} (f : A -> output) l s : for_each (fun a => note (f a)) l s = (Ok tt, with_log s (log s ++ map f l)).
Proof.
  revert s. induction l as [|a l IH]; intros s; cbn; [rewrite app_nil_r; by destruct s|]. unfold mbind, act_bind, note, modify. rewrite IH. cbn. by rewrite <- app_assoc.
Qed.

(** The whole queue is taken. *)
Definition emptied (s : Engine) : Engine := with_log (with_queued_bytes (with_queue s []) 0) (log s ++ concat (map dequeued (queue s))).

Lemma inv_emptied o s : Inv o s -> Inv (map treply (queue s) ++ o) (emptied s).
Proof.
  remember (queue s) as q eqn:Hq. revert s o Hq. induction q as [|t q IH]; intros s o Hq HI.
  - unfold emptied. rewrite <- Hq. cbn. rewrite app_nil_r. destruct (i_bytes _ _ HI) as [E _]. rewrite <- Hq in E. cbn in E. destruct s. cbn in *. by subst.
  - destruct (inv_left o s [] t q HI (eq_sym Hq)) as [H _]; [done|]. cbn [app] in H. specialize (IH (left_queue t q s) (treply t :: o) eq_refl H).
    assert (E : emptied (left_queue t q s) = emptied s) by (unfold emptied; rewrite <- Hq; cbn; rewrite <- app_assoc; by destruct s). rewrite E in IH.
    assert (Hp : map treply (t :: q) ++ o ≡ₚ map treply q ++ treply t :: o) by (cbn; apply Permutation_middle).
    destruct IH. constructor; try done.
    + rewrite i_answers0. apply Permutation_app_head, names_perm. by rewrite Hp.
    + rewrite i_pending0. apply criticals_perm. by rewrite Hp.
Qed.

Lemma stop_queued_ok t s : exists s', stop_queued world t s = (Ok tt, s').
Proof.
  unfold stop_queued, mbind, act_bind. rewrite release_eq. unfold attempt. destruct (answer world t _ _) as [[[]|e] s'']; by eexists.
Qed.

Lemma stop_queued_going o t s : going (treply t :: o) (stop_queued world t) o s.
Proof.
  intros HI Hin. destruct (release_going (treply t :: o) t s HI Hin) as (H1 & H2 & H3). unfold stop_queued, mbind, act_bind.
  rewrite release_eq in *. set (s' := with_log s _) in *. cbn [snd] in *.
  assert (Hg : going (treply t :: o) (attempt (answer world t (failed_with disconnected)) (fun _ => done)) o s') by (apply goes_attempt; [apply inside_mode|apply answer_going|intros; apply goes_done, inside_mode]).
  destruct (Hg H1 H2) as (H4 & H5 & H6). split_and!; [done|done|]. by eapply frame_trans.
Qed.

Lemma stop_all_queued q o s : Inv (map treply q ++ o) s -> inside s -> exists s', for_each (stop_queued world) q s = (Ok tt, s') /\ Inv o s' /\ frame s s'.
Proof.
  revert s. induction q as [|t q IH]; intros s HI Hin; [exists s; split_and!; [done|done|apply frame_refl]|]. cbn [for_each map] in *. destruct (stop_queued_ok t s) as [s1 E].
  destruct (stop_queued_going (map treply q ++ o) t s HI Hin) as (H1 & H2 & H3). rewrite E in *. cbn [snd] in *. destruct (IH s1 H1 H2) as (s2 & E2 & H4 & H5).
  exists s2. unfold mbind, act_bind. rewrite E. split_and!; [done|done|]. by eapply frame_trans.
Qed.

Lemma stop_tasks_spec n o s : Inv o s -> stopped s = true -> (base.size (tasks s) <= n)%nat -> exists s', stop_tasks world n s = (Ok tt, s') /\ Inv o s' /\ frame s s' /\ tasks s' = ∅.
Proof.
  revert s. induction n as [|n IH]; intros s HI Hs Hn; [exists s; split_and!; [done|done|apply frame_refl|]; apply map_size_empty_inv; lia|]. cbn [stop_tasks]. unfold mbind at 1, act_bind at 1, state.
  destruct (map_to_list (tasks s)) as [|[id t] l] eqn:El; [exists s; split_and!; [done|done|apply frame_refl|by apply map_to_list_empty_iff]|].
  assert (Ht : tasks s !! id = Some t) by (apply elem_of_map_to_list; rewrite El; by left).
  assert (E : exists s1, attempt (finish world id (failed_with disconnected)) (fun _ => done) s = (Ok tt, s1) /\ s1 = (finish world id (failed_with disconnected) s).2).
  { unfold attempt. destruct (finish world id _ s) as [[[]|e] s1]; eexists; done. }
  destruct E as (s1 & E & Es). destruct (finish_going o id (failed_with disconnected) s HI (or_intror Hs)) as (H1 & H2 & H3). pose proof (finish_removes o id (failed_with disconnected) s HI Hs) as H4. rewrite <- Es in *.
  assert (Hs1 : stopped s1 = true) by (by rewrite (f_stopped _ _ H3)).
  assert (Hn1 : (base.size (tasks s1) <= n)%nat).
  { rewrite <- !size_dom in *. assert (base.size (dom (tasks s1)) <= base.size (dom (tasks s) ∖ {[id]}))%nat by (by apply subseteq_size).
    rewrite size_difference in H by (apply elem_of_dom_2 in Ht; set_solver). rewrite size_singleton in H. lia. }
  destruct (IH s1 H1 Hs1 Hn1) as (s2 & E2 & H5 & H6 & H7). exists s2. unfold mbind, act_bind. rewrite E. split_and!; [done|done| |done]. by eapply frame_trans.
Qed.

(** Fields the invariant does not read. *)
Lemma inv_registry o s g : Inv o s -> N.of_nat (length (starts g)) <= queued_requests (limits s) -> Inv o (with_registry s g).
Proof. intros [] H. by constructor. Qed.
Lemma inv_polling o s b : Inv o s -> Inv o (with_polling s b).
Proof. intros []. by constructor. Qed.
Lemma inv_loading o s b : Inv o s -> Inv o (with_loading s b).
Proof. intros []. by constructor. Qed.
Lemma inv_failed o s : Inv o s -> Inv o (with_initialization_failed s true).
Proof. intros []. by constructor. Qed.

Definition halted (s : Engine) : Prop := stopped s = true /\ queue s = [] /\ tasks s = ∅.

Lemma script_stop_spec o s : Inv o s -> stopped s = false ->
  exists s', stop world s = (Ok tt, s') /\ Inv o s' /\ halted s' /\ limits s' = limits s /\ polling s' = polling s.
Proof.
  intros HI Hs. unfold stop. unfold mbind at 1, act_bind at 1, state at 1. rewrite Hs.
  set (s1 := with_defined_schemas (with_log (with_bound (with_log (with_stopped s true) (log s ++ map o_unbound (bound s))) []) ((log s ++ map o_unbound (bound s)) ++ map o_forgotten (defined_schemas s))) []).
  assert (H1 : Inv o s1).
  { assert (HL : Inv o (with_log s (log s ++ map o_unbound (bound s) ++ map o_forgotten (defined_schemas s)))).
    { apply inv_log; [|done]. rewrite forallb_app. apply andb_true_iff. split; apply forallb_forall; intros x Hx; apply in_map_iff in Hx as (y & <- & _); done. }
    destruct HL. unfold s1. rewrite <- app_assoc. by constructor. }
  assert (E1 : forall k : act unit, (modify (fun s => with_stopped s true);; for_each (fun r => note (o_unbound r)) (bound s);; modify (fun s => with_bound s []);;
    for_each (fun k => note (o_forgotten k)) (defined_schemas s);; modify (fun s => with_defined_schemas s []);; k) s = k s1).
  { intros k. unfold mbind, act_bind, modify. by rewrite !notes_eq. }
  rewrite E1. clear E1. pose proof (inv_emptied o s1 H1) as H2. change (queue s1) with (queue s) in H2. set (s2 := emptied s1) in *.
  assert (E2 : forall k : act unit, (modify (fun s => with_queued_bytes (with_queue s []) 0);; note_all (concat (map dequeued (queue s)));; k) s1 = k s2) by done. rewrite E2. clear E2.
  destruct (stop_all_queued (queue s) o s2 H2) as (s3 & E3 & H3 & F3); [by right|]. unfold mbind at 1, act_bind at 1. rewrite E3. clear E3.
  assert (Hs3 : stopped s3 = true) by (by rewrite (f_stopped _ _ F3)). unfold mbind at 1, act_bind at 1, state at 1.
  destruct (stop_tasks_spec (base.size (tasks s3)) o s3 H3 Hs3) as (s4 & E4 & H4 & F4 & Ht); [done|]. unfold mbind at 1, act_bind at 1. rewrite E4. clear E4.
  eexists. split; [reflexivity|]. pose proof (frame_trans _ _ _ F3 F4) as F. destruct (f_quiet _ _ F) as [Hq _]; [done|]. split; [|split; [|split]].
  - assert (HL : Inv o (with_log s4 (log s4 ++ [o_closed]))) by (by apply inv_log). destruct HL. constructor; cbn; try done. split; [done|lia].
  - split_and!; cbn; [by rewrite (f_stopped _ _ F)|exact Hq|done].
  - cbn. by rewrite (f_limits _ _ F).
  - cbn. by rewrite (f_polling _ _ F).
Qed.

(** ** Polling as a whole *)

Lemma goes_lands {A} o (m : act A) k s : goes in_poll frame o m o s -> Inv o s -> in_poll s -> lands o k s (m s).2 /\ in_poll (m s).2.
Proof. intros Hm HI Hp. destruct (Hm HI Hp) as (H1 & H2 & H3). split; [|done]. split; [done|by apply frame_drives]. Qed.

(** The rounds of [poll_body] before tasks are resumed and begun. *)
Definition revoke_all (v : View) : act unit := s ← state; for_each (fun id => finish world id (failed_with rejected)) (revoked v s).
Definition wake_all (now : Z) : act unit := s ← state; for_each (wake now) (map_to_list (tasks s)).
Definition expire_all (now : Z) : act unit := s ← state; expire world (length (queue s)) now.
Definition finish_late (now : Z) : act unit := s ← state; for_each (fun id => finish world id (failed_with timeout)) (late now s).

Lemma act_assoc {A B D} (a : act A) (b : A -> act B) (k : B -> act D) s : ((a ≫= b) ≫= k) s = (a ≫= fun x => b x ≫= k) s.
Proof. unfold mbind, act_bind. by destruct (a s) as [[x|] s']. Qed.

Lemma poll_body_eq n s : poll_body world n s =
  (revoke_all (world (moment s));; wake_all (v_now (world (moment s)));; expire_all (v_now (world (moment s)));; finish_late (v_now (world (moment s)));; turns world (N.to_nat n) 0) (with_moment s (moment s + 1)).
Proof. reflexivity. Qed.

Lemma revoke_all_going o v s : goes in_poll frame o (revoke_all v) o s.
Proof. apply goes_state, goes_each; [apply poll_mode|]. intros id s' _. apply polled, finish_going. Qed.
Lemma wake_all_going o now s : goes in_poll frame o (wake_all now) o s.
Proof. apply goes_state, goes_each; [apply poll_mode|]. intros e s' _. apply polled, wake_going. Qed.
Lemma expire_all_going o now s : goes in_poll frame o (expire_all now) o s.
Proof. apply goes_state, expire_going. Qed.
Lemma finish_late_going o now s : goes in_poll frame o (finish_late now) o s.
Proof. apply goes_state, goes_each; [apply poll_mode|]. intros id s' _. apply polled, finish_going. Qed.

Lemma poll_body_going o n s : Inv o s -> in_poll s -> loaded s = true -> serial s + n < 2 ^ 64 -> lands o n s (poll_body world n s).2.
Proof.
  intros HI Hp Hl Hs. rewrite poll_body_eq. set (v := world (moment s)). set (s0 := with_moment s (moment s + 1)).
  assert (Hf : frame s s0) by (constructor; cbn -[N.add]; try done; lia). assert (HI0 : Inv o s0) by (by apply inv_moment). assert (Hp0 : in_poll s0) by done. clearbody s0.
  assert (Hg : forall m : act unit, (forall s, goes in_poll frame o m o s) -> forall k : act N, (forall s', Inv o s' -> in_poll s' -> frame s s' -> lands o n s (k s').2) ->
    forall s', Inv o s' -> in_poll s' -> frame s s' -> lands o n s ((m;; k) s').2).
  { intros m Hm k Hk s' H1 H2 H3. destruct (Hm s' H1 H2) as (H4 & H5 & H6). unfold mbind, act_bind. destruct (m s') as [[[]|e] s'']; cbn [snd] in *; pose proof (frame_trans _ _ _ H3 H6) as H7; [by apply Hk|].
    split; [done|by apply frame_drives]. }
  apply Hg; [apply revoke_all_going| |done..]. clear dependent s0. intros s0. apply Hg; [apply wake_all_going|]. clear s0. intros s0. apply Hg; [apply expire_all_going|]. clear s0. intros s0.
  apply Hg; [apply finish_late_going|]. clear s0. intros s0 HI0 Hp0 Hf. destruct (turns_going o (N.to_nat n) 0 s0 HI0 Hp0) as [H1 H2]; [by rewrite (f_loaded _ _ Hf)|rewrite (f_serial _ _ Hf); lia|].
  split; [done|]. rewrite N2Nat.id in H2. exact (drives_trans 0 n _ _ _ (frame_drives 0 _ _ Hf) H2).
Qed.

Lemma poll_spec n s : Inv [] s -> polling s = false -> serial s + n < 2 ^ 64 -> Inv [] (poll world n s).2 /\ polling (poll world n s).2 = false /\ limits (poll world n s).2 = limits s.
Proof.
  intros HI Hp Hs. unfold poll. unfold mbind, act_bind, state, mret, act_ret, modify, attempt, raise, when. destruct (stopped s || negb (loaded s)) eqn:Hb; [done|]. rewrite Hp.
  apply orb_false_iff in Hb as [Hst Hl%negb_false_iff]. set (s0 := with_polling s true).
  destruct (poll_body_going [] n s0) as [H1 H2]; [by apply inv_polling|done|done|done|]. assert (Hl2 : limits (poll_body world n s0).2 = limits s) by (by rewrite (dr_limits _ _ _ H2)).
  assert (Hst2 : stopped (poll_body world n s0).2 = false) by (by rewrite (dr_stopped _ _ _ H2)). destruct (poll_body world n s0) as [[work|e] s1]; cbn [snd] in *.
  - pose proof (inv_polling [] s1 false H1) as H3. set (s2 := with_polling s1 false) in *. change (stop_requested s1) with (stop_requested s2).
    destruct (stop_requested s2); [|done]. destruct (script_stop_spec [] s2 H3 Hst2) as (s3 & -> & H4 & _ & H5 & H6). cbn. split_and!; [done|by rewrite H6|by rewrite H5].
  - cbn. split_and!; [|done|done]. by apply inv_polling.
Qed.

(** ** Calls from outside *)

Lemma stop_outside o s : goes outside same_limits o (engine_stop world) o s.
Proof.
  intros HI Ho. unfold engine_stop. unfold mbind, act_bind, state. unfold outside in *. rewrite Ho. destruct (stopped s) eqn:Hs.
  - unfold stop, mbind, act_bind, state. rewrite Hs. by split_and!.
  - destruct (script_stop_spec o s HI Hs) as (s' & -> & H1 & _ & H2 & H3). cbn. split_and!; [done|congruence|done].
Qed.

Lemma act_outside o a s : goes outside same_limits o (act_on world (engine_stop world) a) o s.
Proof. apply goes_replies; [apply outside_mode|apply stop_outside]. Qed.

(** ** Loading *)

Lemma begin_start_inv x s : Inv [] s -> loaded s = true -> N.of_nat (length (queue s)) < queued_requests (limits s) ->
  exists s', begin_start world x s = (Ok tt, s') /\ Inv [] s' /\ loaded s' = true /\ limits s' = limits s /\ polling s' = polling s /\ stopped s' = stopped s /\
    length (queue s') = Datatypes.S (length (queue s)).
Proof.
  intros HI Hl Hq. unfold begin_start.
  set (s1 := if start_critical x then with_initialization_pending s (initialization_pending s + 1) else s).
  assert (H1 : Inv [r_start (start_critical x)] s1).
  { destruct HI. unfold s1. destruct (start_critical x); constructor; try done; [change (initialization_pending s + 1 = 1 + criticals (replies s)); rewrite i_pending0; cbn [app]; lia]. }
  set (t := MkTask 0 None (Some (start_function x)) [] [] [] [] (r_start (start_critical x)) (MkIdentity client [] 0 (MkConnection [] 0) None None) false false true (start_critical x) false None 0 None
    (v_now (world (moment s1)) + ms (task_timeout (limits s1)))%Z).
  exists (enter t [] (with_moment s1 (moment s1 + 1))). split; [|split].
  - unfold mbind, act_bind, when, modify, look, state, mret, act_ret, done. unfold s1, t, enter. destruct (start_critical x); cbn -[N.add]; rewrite N.add_0_r, app_nil_r; by destruct s.
  - assert (Hq1 : queue s1 = queue s /\ limits s1 = limits s /\ loaded s1 = loaded s /\ moment s1 = moment s) by (unfold s1; by destruct (start_critical x)). destruct Hq1 as (E1 & E2 & E3 & E4).
    apply (inv_enter [] (with_moment s1 (moment s1 + 1)) t); try done.
    + by apply inv_moment.
    + cbn -[N.add]. by rewrite E1, E2.
    + apply N.le_0_l.
    + cbn. by rewrite E3.
    + cbn. by apply (i_clock _ _ H1).
    + cbn -[N.add]. intros Hm. destruct (i_sorted _ _ H1 Hm) as [_ Ha]. split.
      * eapply Forall_impl; [exact Ha|]. cbn. intros u Hu. by apply Hu.
      * intros k Hk. assert (v_now (world (moment s1)) <= v_now (world k))%Z by (apply Hm; lia). lia.
  - unfold s1. destruct (start_critical x); cbn; (split_and!; [done..|]); rewrite length_app; cbn; lia.
Qed.

Lemma begin_starts_inv l s : Inv [] s -> loaded s = true -> N.of_nat (length (queue s)) + N.of_nat (length l) <= queued_requests (limits s) ->
  exists s', for_each (begin_start world) l s = (Ok tt, s') /\ Inv [] s' /\ loaded s' = true /\ limits s' = limits s /\ polling s' = polling s /\ stopped s' = stopped s.
Proof.
  revert s. induction l as [|x l IH]; intros s HI Hl Hq; [by exists s|]. cbn [length for_each] in *. destruct (begin_start_inv x s HI Hl) as (s1 & E1 & H1 & H2 & H3 & H4 & H5 & H6); [lia|].
  destruct (IH s1 H1 H2) as (s2 & E2 & H7 & H8 & H9 & H10 & H11); [rewrite H3, H6; lia|]. exists s2. unfold mbind, act_bind. rewrite E1, E2. split_and!; try done; congruence.
Qed.

(** The script registers at most as many start tasks as the queue holds. *)
Lemma load_step_starts l c g : N.of_nat (length (starts g)) <= queued_requests l -> N.of_nat (length (starts (load_step l c g))) <= queued_requests l.
Proof.
  revert c g. fix IH 1. intros c g. destruct c as [name f ty i p|k sch pub aff|f cr|calls failed]; cbn [load_step]; intros H.
  - destruct (rpc l name f ty i p g) as [g'|] eqn:E; [|done]. unfold rpc in E. inv_ok. by destruct ty, i, p.
  - destruct (attributes_define k sch pub aff g) as [g'|] eqn:E; [|done]. unfold attributes_define in E. inv_ok. by destruct pub.
  - unfold start_task. destruct (N.leb_spec (queued_requests l) (N.of_nat (length (starts g)))); [done|]. cbn. rewrite length_app. cbn. lia.
  - assert (Hc : forall g, N.of_nat (length (starts g)) <= queued_requests l -> N.of_nat (length (starts (fold_left (fun g c => load_step l c g) calls g))) <= queued_requests l).
    { clear g H. induction calls as [|c calls IHc]; intros g H; [done|]. cbn. apply IHc. by apply IH. }
    destruct failed; [|by apply Hc]. cbn. by apply Hc.
Qed.
End Correct.
