(* ===== verification/ScriptsSystem.v ===== *)
(** * The script engine as a system

    Loading, and every history of operations of the script engine of Scripts, with the theorems
    read off the invariant of ScriptsCorrect. *)

From Stdlib Require Import Sorted.
From stdpp Require Import gmap.
From S2P Require Import Prelude MapSum Storage OrderedMap Identity Values AttributeWire Messages Fields TimerState DeliveryState Schema Transport Actions Scripts ScriptsCorrect.

(** ** Operations *)

(** Loading a script of so many bytes, polling, and whatever the host or a caller does: submits a
    call, completes an awaited one, or stops the engine. *)
Inductive operation := op_load (source : N) | op_poll (work_limit : N) | op_act (a : action).

Definition always (d : Z) : Prop := True.
Lemma always_always d : always d -> always d.
Proof. done. Qed.

Section System.
Context (world : N -> View).

Definition perform (o : operation) (s : Engine) : Engine :=
  match o with
  | op_load source => (load world source s).2
  | op_poll work_limit => (poll world work_limit s).2
  | op_act a => (act_on world (engine_stop world) a s).2
  end.

Definition begins (o : operation) : N := match o with op_poll n => n | _ => 0 end.

(** Task numbers are 64 bits wide; a history stays below their wrap-around. *)
Inductive reachable : Engine -> Prop :=
  | reach_start l s : engine l true = Ok s -> reachable s
  | reach_step o s : reachable s -> serial s + begins o < 2 ^ 64 -> reachable (perform o s).

Abbreviation Invariant := (Inv world always always []).

(** ** Loading keeps the invariant *)

Section Load.
Context (L : ScriptLimits).
Definition idle (s : Engine) : Prop := Invariant s /\ polling s = false /\ limits s = L /\ stopped s = false /\ loaded s = false.
Definition ready (s : Engine) : Prop := Invariant s /\ polling s = false /\ limits s = L /\ stopped s = false /\ loaded s = true.

Lemma runs_look {A} (k : View -> act A) P Qk X : (forall s, P s -> P (with_moment s (moment s + 1))) -> (forall v, runs P (k v) Qk X) -> runs P (look world ≫= k) Qk X.
Proof. intros H Hk s Hs. change ((look world ≫= k) s) with (k (world (moment s)) (with_moment s (moment s + 1))). apply Hk. by apply H. Qed.

Lemma idle_moment s : idle s -> idle (with_moment s (moment s + 1)).
Proof. intros (H & ?). split; [by apply inv_moment|done]. Qed.

Lemma raise_if (b : bool) e : runs idle (when b (raise e)) (fun _ => idle) idle.
Proof. apply runs_when; [|by auto]. intros _. by apply runs_raise. Qed.

Lemma note_idle o s : silent o = true -> idle s -> idle (with_log s (log s ++ [o])).
Proof. intros Ho (H & ?). split; [|done]. apply inv_log; [exact always_always| |done]. apply andb_true_iff. by split. Qed.

Lemma define_one_runs v k : runs idle (define_one v k) (fun _ => idle) idle.
Proof.
  eapply runs_bind; [apply (runs_modify _ _ (fun _ => idle)); intros s (H & ?); split; [by destruct H; constructor|done]|]. intros []. destruct (v_define v k).
  - eapply runs_bind; [apply (runs_modify _ _ (fun _ => idle)); intros s (H & ?); split; [by destruct H; constructor|done]|]. intros []. by apply runs_raise.
  - apply runs_modify. intros s. by apply note_idle.
Qed.

Lemma bind_one_runs v e : runs idle (bind_one v e) (fun _ => idle) idle.
Proof.
  eapply runs_bind; [apply (runs_modify _ _ (fun _ => idle)); intros s (H & ?); split; [by destruct H; constructor|done]|]. intros []. apply runs_state. intros s0 _.
  apply (runs_weaken idle _ _ (fun _ => idle) _ idle); [|tauto|done|done]. destruct (policies _ !! e.1); [|by apply runs_raise]. destruct (v_bind v e.1); [by apply runs_raise|].
  eapply runs_bind; [apply (runs_modify _ _ (fun _ => idle)); intros s; by apply note_idle|]. intros []. apply runs_modify. intros s (H & ?). split; [by destruct H; constructor|done].
Qed.

Lemma script_starts g l : N.of_nat (length (starts g)) <= queued_requests L -> N.of_nat (length (starts (fold_left (fun g c => load_step L c g) l g))) <= queued_requests L.
Proof. revert g. induction l as [|c l IH]; intros g H; [done|]. cbn. apply IH. by apply load_step_starts. Qed.

Lemma load_body_runs : runs idle (load_body world) (fun _ => ready) idle.
Proof.
  unfold load_body. apply runs_look; [apply idle_moment|]. intros v. eapply runs_bind; [apply raise_if|]. intros []. eapply runs_bind; [apply raise_if|]. intros [].
  eapply (runs_bind _ _ _ (fun _ => idle)).
  { apply runs_modify. intros s (H & Hp & Hl & ?). split; [|done]. apply inv_registry; [done|]. rewrite Hl. apply script_starts. rewrite <- Hl. apply (i_starts _ _ _ _ _ H). }
  intros []. cbv zeta. apply runs_look; [apply idle_moment|]. intros w. apply runs_state. intros s0 _. apply (runs_weaken idle _ _ (fun _ => ready) _ idle); [|tauto|done|done].
  eapply runs_bind; [apply raise_if|]. intros []. eapply (runs_bind _ _ _ (fun _ => idle)); [apply runs_modify; intros s (H & ?); split; [by apply inv_loading|done]|]. intros [].
  apply runs_state. intros s1 Hs1. apply (runs_weaken idle _ _ (fun _ => ready) _ idle); [|tauto|done|done].
  eapply runs_bind; [apply raise_if|]. intros []. eapply runs_bind; [apply raise_if|]. intros []. eapply runs_bind; [apply runs_each; intros k _; apply define_one_runs|]. intros [].
  eapply runs_bind; [apply runs_each; intros e _; apply bind_one_runs|]. intros [].
  intros s (HI & Hp & Hl & Hst & Hld). unfold mbind at 1, act_bind at 1, modify. destruct (i_idle _ _ _ _ _ HI Hld) as [Hq Ht].
  assert (HI2 : Invariant (with_loaded s true)) by (destruct HI; by constructor). unfold mbind, act_bind.
  destruct (begin_starts_inv world always always always_always (starts (registry s1)) (with_loaded s true) HI2) as (s2 & -> & H1 & H2 & H3 & H4 & H5); [done| |].
  { cbn. rewrite Hq, Hl. cbn. destruct Hs1 as (HI1 & _ & <- & _). apply (i_starts _ _ _ _ _ HI1). }
  cbn in H3, H4, H5. split; [apply inv_registry; [done|cbn; lia]|]. cbn. split_and!; congruence.
Qed.
End Load.

Definition kept (s s' : Engine) : Prop := Invariant s' /\ polling s' = false /\ limits s' = limits s.

Lemma load_spec source s : Invariant s -> polling s = false -> kept s (load world source s).2.
Proof.
  intros HI Hp. unfold load. unfold mbind at 1, act_bind at 1, state. destruct (stopped s || loaded s || loading s) eqn:Hb; [by split_and!|]. destruct (_ <? _); [by split_and!|].
  apply orb_false_iff in Hb as [[Hs Hl]%orb_false_iff _]. unfold mbind at 1, act_bind at 1, modify at 1, attempt. set (s1 := with_loading s true).
  assert (Hi : idle (limits s) s1) by (split_and!; [by apply inv_loading|done..]). pose proof (load_body_runs (limits s) s1 Hi) as H. destruct (load_body world s1) as [[[]|e] s2].
  - destruct H as (H1 & H2 & H3 & _). by split_and!.
  - destruct H as (H1 & H2 & H3 & H4 & _). unfold mbind, act_bind, modify. destruct (script_stop_spec world always always always_always [] (with_initialization_failed s2 true)) as (s3 & -> & H5 & _ & H6 & H7); [by apply inv_failed|done|].
    cbn in *. split_and!; [done|congruence|congruence].
Qed.

(** ** Histories *)

Lemma engine_start l s : engine l true = Ok s -> Invariant s /\ polling s = false /\ limits s = l /\ bad_limits l = false.
Proof.
  unfold engine. destruct (bad_limits l) eqn:Hb; [done|]. cbn. intros [= <-]. split; [|done]. constructor; cbn; try done; try lia; try (by intros; split; [lia|]).
  - rewrite map_size_empty. lia.
  - intros m. split; [set_solver|]. intros [_ (id & t & H & _)]. by rewrite lookup_empty in H.
  - intros th id. split; [by rewrite lookup_empty|]. intros (t & H & _). by rewrite lookup_empty in H.
  - set_solver.
  - intros _. split; constructor.
Qed.

Lemma script_inv s : reachable s -> Invariant s /\ polling s = false /\ bad_limits (limits s) = false.
Proof.
  induction 1 as [l s H|o s _ (HI & Hp & Hl) Hs]; [apply engine_start in H as (H1 & H2 & <- & H3); done|]. destruct o as [n|n|a]; cbn [perform begins] in *.
  - destruct (load_spec n s HI Hp) as (H1 & H2 & H3). by rewrite H3.
  - destruct (poll_spec world always always always_always n s HI Hp Hs) as (H1 & H2 & H3). by rewrite H3.
  - destruct (act_outside world always always always_always [] a s HI Hp) as (H1 & H2 & H3). by rewrite H3.
Qed.

(** ** Deadlines *)

Section Punctual.
Context (Q T : Z -> Prop) (QT : forall d, Q d -> T d).

Lemma inv_change (Q' T' : Z -> Prop) o s : Inv world Q T o s -> Forall (fun t => Q' (tdeadline t)) (queue s) -> (forall id t, tasks s !! id = Some t -> T' (tdeadline t)) ->
  (forall m, moment s <= m -> Q' (v_now (world m) + ms (task_timeout (limits s)))%Z) -> Inv world Q' T' o s.
Proof. intros []. by constructor. Qed.

Lemma sorted_none now t q : StronglySorted (fun t u => (tdeadline t <= tdeadline u)%Z) (t :: q) -> (now < tdeadline t)%Z -> late_in now (t :: q) = 0%nat.
Proof.
  intros H Hn. inversion H as [|? ? _ Ha]; subst. unfold late_in. rewrite filter_cons_False by lia. clear H. induction Ha as [|u q Hu _ IH]; [done|]. by rewrite filter_cons_False by lia.
Qed.

(** After [expire] nothing in the queue is late. *)
Lemma expire_clears n o now s s' : Inv world Q T o s -> in_poll s -> past world now s -> (late_in now (queue s) <= n)%nat -> expire world n now s = (Ok tt, s') -> late_in now (queue s') = 0%nat.
Proof.
  revert s. induction n as [|n IH]; intros s HI Hp Hpast Hn E; cbn [expire] in E; [injection E as <-; lia|]. unfold mbind at 1, act_bind at 1, state in E.
  destruct (queue s) as [|t rest] eqn:Hq; [injection E as <-; by rewrite Hq|]. unfold when in E. destruct (Z.leb_spec (tdeadline t) now) as [Hle|Hgt].
  - destruct (leave_going world Q T QT o s [] t rest Hq) as (H1 & H2 & H3); [done..|]. rewrite leave_eq in H1, H2, H3. unfold mbind at 1, act_bind at 1 in E. rewrite leave_eq in E. cbn [snd app] in *.
    rewrite <- act_assoc in E. destruct (refuse_going world Q T QT o t (failed_with timeout) _ H1 H2) as (H4 & H5 & H6). unfold mbind at 1, act_bind at 1 in E.
    destruct ((release_task_function t;; answer world t (failed_with timeout)) (left_queue t rest s)) as [[[]|e] s1]; [|done]. cbn [snd] in *.
    assert (Hpast1 : past world now (left_queue t rest s)) by (by apply (past_later world now s)). apply (IH s1); [done|done|by eapply past_later; [apply H6|apply H6|]| |done].
    pose proof (f_late _ _ _ H6 now Hpast1) as Hl. cbn [queue left_queue with_log with_queued_bytes with_queue] in Hl. pose proof (late_in_remove now [] t rest) as Hr. cbn [app] in Hr. rewrite decide_True in Hr by done. lia.
  - injection E as <-. rewrite Hq. destruct (i_sorted _ _ _ _ _ HI (proj1 Hpast)) as [Hs _]. rewrite Hq in Hs. by apply sorted_none.
Qed.

(** After [finish_late] nothing that runs is late. *)
Lemma finish_each_clears o now l s s' : Inv world Q T o s -> in_poll s -> past world now s -> for_each (fun id => finish world id (failed_with timeout)) l s = (Ok tt, s') ->
  forall id, overdue now (tasks s' !! id) -> overdue now (tasks s !! id) /\ id ∉ l.
Proof.
  revert s. induction l as [|i l IH]; intros s HI Hp Hpast E id Ho; cbn [for_each] in E; [injection E as <-; split; [done|set_solver]|].
  destruct (polled world Q T QT o _ o s (finish_going world Q T QT o i (failed_with timeout) s) HI Hp) as (H1 & H2 & H3).
  assert (Hgone : forall k, overdue now (tasks (finish world i (failed_with timeout) s).2 !! k) -> overdue now (tasks s !! k) /\ k <> i).
  { intros k Hk. split; [by apply (f_overdue _ _ _ H3)|]. intros ->. destruct (tasks s !! i) as [t|] eqn:Ht.
    - rewrite (finish_eq world i t) in Hk by done. destruct (inv_finished world Q T QT o i t s HI Ht) as [H4 H5]. destruct (answer_going world Q T QT o t (failed_with timeout) _ H4) as (_ & _ & H6); [left; by apply Hp|].
      apply (f_overdue _ _ _ H6) in Hk; [|by eapply past_later; [apply H5|apply H5|]]. cbn in Hk. by rewrite lookup_delete_eq in Hk.
    - pose proof (f_overdue _ _ _ H3 now i Hpast Hk) as H. by rewrite Ht in H. }
  unfold mbind, act_bind in E. destruct (finish world i (failed_with timeout) s) as [[[]|e] s1]; [|done]. cbn [snd] in *.
  destruct (IH s1 H1 H2) with (id := id) as [H4 H5]; [by eapply past_later; [apply H3|apply H3|]|done|done|]. destruct (Hgone id H4) as [H6 H7]. split; [done|]. set_solver.
Qed.
End Punctual.

Lemma then_frame a b c : frame world a b -> frame world b c -> frame world a c.
Proof. apply (frame_trans world always always always_always). Qed.

Lemma script_returns {A} (m : act unit) (k : act A) s a s' : (m;; k) s = (Ok a, s') -> exists s1, m s = (Ok tt, s1) /\ k s1 = (Ok a, s').
Proof. unfold mbind, act_bind. destruct (m s) as [[[]|e] s1]; [|done]. by exists s1. Qed.

Lemma late_none now q : late_in now q = 0%nat -> Forall (fun t => (now < tdeadline t)%Z) q.
Proof.
  unfold late_in. induction q as [|t q IH]; [constructor|]. rewrite filter_cons. destruct (decide (tdeadline t <= now)%Z); cbn; [done|]. intros H. constructor; [lia|by apply IH].
Qed.

Lemma late_in_list now s id t : tasks s !! id = Some t -> (tdeadline t <= now)%Z -> id ∈ late now s.
Proof. intros Ht Hd. unfold late. apply list_elem_of_fmap. exists (id, t). split; [done|]. apply list_elem_of_filter. split; [|by apply elem_of_map_to_list]. cbn. by apply Is_true_true, Z.leb_le. Qed.

Lemma poll_body_punctual n s w s' : Invariant s -> in_poll s -> loaded s = true -> serial s + n < 2 ^ 64 -> monotone world -> (0 < ms (task_timeout (limits s)))%Z -> poll_body world n s = (Ok w, s') ->
  let now := v_now (world (moment s)) in Inv world (Z.lt now) (Z.lt now) [] s'.
Proof.
  intros HI Hp Hl Hs Hm Ht E now. rewrite poll_body_eq in E. fold now in E. set (s0 := with_moment s (moment s + 1)) in *.
  assert (HI0 : Invariant s0) by (by apply inv_moment). assert (Hp0 : in_poll s0) by done. assert (Hpast : past world now s0) by (split_and!; [done|done|]; apply Hm; cbn; lia).
  assert (Hs0 : frame world s s0) by (constructor; cbn -[N.add late_in]; try done; lia).
  apply script_returns in E as (s1 & E1 & E). destruct (revoke_all_going world _ _ always_always [] (world (moment s)) s0 HI0 Hp0) as (HI1 & Hp1 & F1). rewrite E1 in *. cbn [snd] in *.
  apply script_returns in E as (s2 & E2 & E). destruct (wake_all_going world _ _ always_always [] now s1 HI1 Hp1) as (HI2 & Hp2 & F2). rewrite E2 in *. cbn [snd] in *.
  assert (Hpast2 : past world now s2) by (pose proof (then_frame _ _ _ F1 F2) as F; eapply past_later; [apply F|apply F|done]).
  apply script_returns in E as (s3 & E3 & E). destruct (expire_all_going world _ _ always_always [] now s2 HI2 Hp2) as (HI3 & Hp3 & F3). rewrite E3 in *. cbn [snd] in *.
  assert (Hpast3 : past world now s3) by (eapply past_later; [apply F3|apply F3|done]).
  assert (Hq3 : late_in now (queue s3) = 0%nat).
  { eapply (expire_clears always always always_always); [exact HI2|exact Hp2|exact Hpast2| |exact E3]. unfold late_in. apply length_filter. }
  assert (HJ3 : Inv world (Z.lt now) always [] s3).
  { apply (inv_change always always); [done|by apply late_none|done|]. intros m Hmm. destruct Hpast3 as (_ & H1 & H2). assert (v_now (world (moment s3)) <= v_now (world m))%Z by (by apply Hm). lia. }
  assert (QT : forall d, (now < d)%Z -> always d) by done. apply script_returns in E as (s4 & E4 & E). destruct (finish_late_going world _ _ QT [] now s3 HJ3 Hp3) as (HJ4 & Hp4 & F4). rewrite E4 in *. cbn [snd] in *.
  assert (HJ : Inv world (Z.lt now) (Z.lt now) [] s4).
  { apply (inv_change (Z.lt now) always); [done|apply HJ4| |apply HJ4]. intros id t Hid. destruct (Z.ltb_spec now (tdeadline t)) as [|Hle]; [done|]. exfalso.
    assert (Ho : overdue now (tasks s4 !! id)) by (by rewrite Hid). destruct (finish_each_clears _ _ QT [] now (late now s3) s3 s4 HJ3 Hp3 Hpast3 E4 id Ho) as [H1 H2].
    destruct (tasks s3 !! id) as [u|] eqn:Hu; [|done]. apply H2. by eapply late_in_list. }
  pose proof (then_frame _ _ _ Hs0 (then_frame _ _ _ F1 (then_frame _ _ _ F2 (then_frame _ _ _ F3 F4)))) as F.
  destruct (turns_going world (Z.lt now) (Z.lt now) ltac:(done) [] (N.to_nat n) 0 s4 HJ Hp4) as [H1 _]; [by rewrite (f_loaded _ _ _ F)|rewrite (f_serial _ _ _ F); lia|]. by rewrite E in H1.
Qed.

(** ** What a load leaves bound *)










End System.

(** ** The theorems *)

(** C18 (safety).  Whatever the script, the host and the callers do, every reply given with a call
    is called at most once: the replies called and those of the queued and running tasks are, as a
    multiset, exactly the replies given.  A reply that stops the engine is served.  [stop] itself
    returns, calls every reply left, whatever those replies do, and leaves nothing behind. *)
Theorem script_answers_once world s : reachable world s ->
  given (log s) ≡ₚ answered (log s) ++ names (replies s) /\ misplaced (log s) = [] /\
  (stopped s = false -> exists s', stop world s = (Ok tt, s') /\ given (log s') ≡ₚ answered (log s') /\ queue s' = [] /\ tasks s' = ∅).
Proof.
  intros (HI & _)%script_inv. split; [apply HI|]. split; [apply HI|]. intros Hs. destruct (script_stop_spec world always always always_always [] s HI Hs) as (s' & E & HI' & (_ & Hq & Ht) & _).
  exists s'. split; [done|]. split; [|done]. pose proof (i_answers _ _ _ _ _ HI') as Ha. cbn [app] in Ha. unfold replies in Ha. rewrite Hq, Ht, mnames_empty in Ha. cbn in Ha. by rewrite app_nil_r in Ha.
Qed.

(** C19 (safety).  The calls of an entity run one at a time and in the order they were accepted: no
    two coroutines share a mailbox, and the calls accepted for a mailbox are those that left the
    queue, in that order, followed by those still queued.  A coroutine's thread leads back to its
    task and to no other. *)
Theorem mailbox_serial world s : reachable world s ->
  (forall i j t u, tasks s !! i = Some t -> tasks s !! j = Some u -> tmailbox t = tmailbox u -> tmailbox t <> [] -> i = j) /\
  (forall m, accepted m (log s) = taken m (log s) ++ waiting_in m (queue s)) /\
  (forall th id, threads s !! th = Some id <-> exists t, tasks s !! id = Some t /\ tthread t = th).
Proof. intros ([] & _)%script_inv. done. Qed.

(** The queue, its bytes, the completions' bytes and the coroutines stay within
    the limits, and the byte counts are exact, so no subtraction from a limit wraps. *)
Theorem script_bounded world s : reachable world s ->
  N.of_nat (length (queue s)) <= queued_requests (limits s) /\ N.of_nat (base.size (tasks s)) <= active_coroutines (limits s) /\
  queued_bytes s = payload (queue s) /\ queued_bytes s <= max_queued_bytes (limits s) /\ completed_bytes s = held (resumes s) /\ completed_bytes s <= max_queued_bytes (limits s).
Proof. intros ([] & _)%script_inv. tauto. Qed.


(** C21 (liveness).  A poll that returns leaves nothing late: with a clock that does not run
    backwards, every task still queued or running has its deadline after the time the poll began. *)
Theorem script_poll_punctual world n s w s' : reachable world s -> monotone world -> serial s + n < 2 ^ 64 -> loaded s = true -> stopped s = false -> poll world n s = (Ok w, s') ->
  forall t, (t ∈ queue s' \/ exists id, tasks s' !! id = Some t) -> (v_now (world (moment s)) < tdeadline t)%Z.
Proof.
  intros (HI & Hp & Hb)%script_inv Hm Hn Hl Hs E. assert (Ht : (0 < ms (task_timeout (limits s)))%Z).
  { unfold bad_limits in Hb. rewrite !orb_false_iff in Hb. unfold ms. lia. }
  unfold poll, mbind, act_bind, state, modify, attempt, raise, mret, act_ret, when in E. rewrite Hs, Hl, Hp in E. cbn [orb negb] in E. set (s0 := with_polling s true) in *.
  assert (HI0 : Inv world always always [] s0) by (by apply inv_polling).
  pose proof (poll_body_going world always always always_always [] n s0 HI0 ltac:(done) Hl Hn) as [_ HD].
  pose proof (poll_body_punctual world n s0) as HP. destruct (poll_body world n s0) as [[w1|e] s1]; [|done]. specialize (HP w1 s1 HI0 ltac:(done) Hl Hn Hm Ht eq_refl). cbn zeta in HP. cbn [snd] in HD.
  assert (HF : Inv world (Z.lt (v_now (world (moment s)))) (Z.lt (v_now (world (moment s)))) [] s').
  { pose proof (inv_polling _ _ _ [] s1 false HP) as H2. set (s2 := with_polling s1 false) in *. change (stop_requested s1) with (stop_requested s2) in E. destruct (stop_requested s2); [|by injection E as <- <-].
    destruct (script_stop_spec world _ _ (fun d H => H) [] s2 H2) as (s3 & E3 & H3 & _); [cbn; by rewrite (dr_stopped _ _ _ HD)|]. rewrite E3 in E. by injection E as <- <-. }
  intros t [Ht'|[id Hid]]; [exact (proj1 (Forall_forall _ _) (i_queue_deadlines _ _ _ _ _ HF) t Ht')|by eapply i_task_deadlines].
Qed.


(** ** Memory and work *)

Definition accounted (limit : N) (h : Heap) : Prop := heap_used h = msum id (blocks h) + msum id (charges h) /\ heap_used h <= limit.

Lemma heap_step_accounted limit x h : accounted limit h -> accounted limit (heap_step limit x h).
Proof.
  intros [E L]. destruct x as [p n moved|p q n moved|p|c n|c n|c]; cbn [heap_step].
  - destruct (bool_decide_reflect (is_Some (blocks h !! p))) as [|Hp]; [destruct (allocate _ _ _ _ _ _); by split|]. apply eq_None_not_Some in Hp.
    unfold allocate. destruct (n =? 0); [split; cbn; lia|]. destruct (N.ltb_spec (limit - (heap_used h - 0)) n); [by split|]. destruct moved; [|by split]. split; cbn; [|lia]. rewrite msum_insert by done. unfold id at 1. lia.
  - destruct (blocks h !! p) as [old|] eqn:Hp; [|by split]. destruct ((n =? 0) || _) eqn:Hb; [by split|]. apply orb_false_iff in Hb as [Hn Hq]. apply bool_decide_eq_false in Hq. apply eq_None_not_Some in Hq.
    pose proof (msum_delete (f := id) _ p old Hp) as Hd. unfold id at 2 in Hd. unfold allocate. rewrite Hn. destruct (N.ltb_spec (limit - (heap_used h - old)) n); [by split|]. destruct moved; [|by split].
    split; cbn; [|lia]. rewrite msum_insert by done. unfold id at 1. lia.
  - destruct (blocks h !! p) as [old|] eqn:Hp; [|by split]. pose proof (msum_delete (f := id) _ p old Hp) as Hd. unfold id at 2 in Hd. unfold allocate. cbn. split; cbn; lia.
  - destruct (charges h !! c) eqn:Hc; [by split|]. unfold reserve_external. destruct (N.ltb_spec (limit - heap_used h) n) as [Hl|Hl].
    + rewrite (proj2 (N.ltb_lt _ _) Hl). by split.
    + rewrite (proj2 (N.ltb_ge _ _) Hl). cbn. split; cbn; [|lia]. rewrite msum_insert by done. unfold id at 2. lia.
  - destruct (charges h !! c) as [old|] eqn:Hc; [|by split]. pose proof (msum_replace (f := id) _ c old n Hc) as Hr. pose proof (msum_lookup (f := id) _ c old Hc) as Hl. unfold id at 2 3 in Hr. unfold id at 1 in Hl.
    destruct (N.ltb_spec old n) as [Hlt|Hge]; [|split; cbn; lia]. unfold reserve_external. destruct (N.ltb_spec (limit - heap_used h) (n - old)) as [Hb|Hb].
    + rewrite (proj2 (N.ltb_lt _ _) Hb). by split.
    + rewrite (proj2 (N.ltb_ge _ _) Hb). split; cbn; lia.
  - destruct (charges h !! c) as [old|] eqn:Hc; [|by split]. pose proof (msum_delete (f := id) _ c old Hc) as Hd. unfold id at 2 in Hd. split; cbn; lia.
Qed.

(** The engine's memory counter is exactly the bytes of the Lua machine's blocks and
    of the native objects charged beside them, after any calls, and never exceeds the limit: the
    unsigned subtractions of the counter from the limit cannot wrap. *)
Theorem script_memory_exact limit calls : let h := fold_left (fun h x => heap_step limit x h) calls (MkHeap 0 ∅ ∅) in
  heap_used h = msum id (blocks h) + msum id (charges h) /\ heap_used h <= limit.
Proof.
  cbv zeta. assert (H : accounted limit (MkHeap 0 ∅ ∅)) by (split; cbn; [by rewrite !msum_empty|lia]). revert H. generalize (MkHeap 0 ∅ ∅).
  induction calls as [|x calls IH]; intros h H; [done|]. cbn. apply IH. by apply heap_step_accounted.
Qed.

(** What a resumption spends: patterns cost their units, a thousand instructions a thousand. *)
Inductive work := w_pattern (over : bool) (units : N) | w_hook (alive over : bool).
Definition cost (w : work) : N := match w with w_pattern _ n => n | w_hook _ _ => 1000 end.
Definition spend (w : work) (b : Budget) : bool * Budget := match w with w_pattern over n => charge_pattern over n b | w_hook alive over => hook alive over b end.
Fixpoint spend_all (l : list work) (b : Budget) : bool := match l with [] => true | w :: l => let '(more, b) := spend w b in more && spend_all l b end.
Fixpoint total (l : list work) : N := match l with [] => 0 | w :: l => cost w + total l end.

(** A coroutine that was let go on has spent no more than its budget. *)
Theorem script_work_bounded l b : spend_all l b = true -> total l <= budget b.
Proof.
  revert b. induction l as [|w l IH]; intros b H; cbn in *; [lia|]. destruct w as [over n|alive over]; cbn [spend cost] in *; unfold charge_pattern, hook in H.
  - destruct (_ || _); [done|]. destruct (out_of_work b || (budget b <? n)) eqn:Hb; [done|]. apply orb_false_iff in Hb as [_ Hb%N.ltb_ge]. apply IH in H. cbn in H. lia.
  - destruct (negb alive); [done|]. destruct (_ || _); [done|]. destruct (N.leb_spec (budget b) 1000); [done|]. apply IH in H. cbn in H. lia.
Qed.

(** ** A run: two calls of one entity *)

Definition sample_await : Await := MkAwait 0 (lit "Avatar") (lit "00000000000000a1") [] [] [] [] 1000 k_watch 0 None [] [] 0 (MkSpawn [] [] (MkConnection [] 0) [] false).
Definition sample_view : View :=
  MkView 0 (fun _ => true) p_ready true (MkResumed false false false false (lua_ok None) None lease_kept) ([], None) false true
    [l_rpc (lit "Avatar.greet") 7 (Some (lit "Avatar")) None (Some (MkPolicy true true false)); l_start 9 true] (fun _ => false) (fun _ => None) (fun _ => None).
(** The start task ends; the first call then waits for the host, and a watch is delivered. *)
Definition sample_world (m : N) : View :=
  if m <? 9 then MkView 0 (fun _ => true) p_ready true (MkResumed false false false false (lua_ok (Some (lit "done"))) None lease_kept) ([], None) false true (v_script sample_view) (fun _ => false) (fun _ => None) (fun _ => None)
  else MkView 0 (fun _ => true) p_ready true (MkResumed false false false false lua_yield (Some sample_await) lease_kept) ([], None) false true [] (fun _ => false) (fun _ => None) (fun _ => None).
Definition sample_limits : ScriptLimits := MkScriptLimits 1000000 1000 8 1000 4 4 100000 30000.
Definition sample_engine : Engine := match engine sample_limits true with Ok s => s | Throw _ => MkEngine sample_limits (MkRegistry ∅ ∅ ∅ ∅ ∅ ∅ []) [] ∅ ∅ [] ∅ 0 0 false false false false false false 0 0 [] [] ∅ ∅ 0 0 [] end.
Definition sample_caller : CallIdentity := MkIdentity server (lit "gate") 3 (MkConnection [] 0) None None.
Definition sample_greeting : bytes := lit "FSE1" ++ [x00; x02] ++ lit "e1" ++ lit "hello".
Definition sample_call (n : N) (x : option exn) : action := a_submit (lit "Avatar.greet") sample_caller sample_greeting (Callback n (fun _ => ([], x))).

Definition sample_operations : list operation := [op_load 10; op_poll 4; op_act (sample_call 1 None); op_act (sample_call 2 (Some runtime_error))].
Definition sample_loaded : Engine := fold_left (fun s o => perform sample_world o s) sample_operations sample_engine.
Definition sample_running : Engine := perform sample_world (op_poll 4) sample_loaded.

Lemma reachable_run world l s ops : engine l true = Ok s -> (forall k o, ops !! k = Some o -> serial (fold_left (fun s o => perform world o s) (take k ops) s) + begins o < 2 ^ 64) ->
  reachable world (fold_left (fun s o => perform world o s) ops s).
Proof.
  intros Hs. induction ops as [|o ops IH] using rev_ind; intros H; [by eapply reach_start|]. rewrite fold_left_app. cbn. apply reach_step.
  - apply IH. intros k x Hk. specialize (H k x). rewrite lookup_app_l in H by (by apply lookup_lt_Some in Hk). rewrite take_app_le in H by (apply lookup_lt_Some in Hk; lia). by apply H.
  - specialize (H (length ops) o). rewrite list_lookup_middle in H by done. rewrite take_app_length in H. by apply H.
Qed.

Lemma sample_loaded_reachable : reachable sample_world sample_loaded.
Proof.
  apply (reachable_run _ sample_limits); [reflexivity|]. intros k o Hk. assert (Hlt := lookup_lt_Some _ _ _ Hk). cbn in Hlt.
  do 4 (destruct k as [|k]; [injection Hk as <-; vm_compute; reflexivity|]). lia.
Qed.
Lemma sample_running_reachable : reachable sample_world sample_running.
Proof. apply (reach_step _ (op_poll 4)); [apply sample_loaded_reachable|]. vm_compute. reflexivity. Qed.

(** Two calls given, one running and one queued behind it; stopping answers both, though the
    second reply throws. *)
Lemma script_answers_once_witness : names (replies sample_running) = [2; 1] /\
  exists s', stop sample_world sample_running = (Ok tt, s') /\ given (log s') ≡ₚ answered (log s') /\ queue s' = [] /\ tasks s' = ∅.
Proof. split; [vm_compute; reflexivity|]. apply (script_answers_once sample_world sample_running sample_running_reachable). vm_compute. reflexivity. Defined.

Lemma mailbox_serial_witness : let m := lit "Avatar" ++ [x00] ++ lit "e1" in
  accepted m (log sample_running) = [1; 2] /\ taken m (log sample_running) = [1] /\ accepted m (log sample_running) = taken m (log sample_running) ++ waiting_in m (queue sample_running).
Proof. cbv zeta. split; [vm_compute; reflexivity|]. split; [vm_compute; reflexivity|]. apply (mailbox_serial sample_world sample_running sample_running_reachable). Defined.

Lemma script_bounded_witness : length (queue sample_running) = 1%nat /\ base.size (tasks sample_running) = 1%nat /\ queued_bytes sample_running = payload (queue sample_running).
Proof. split; [vm_compute; reflexivity|]. split; [vm_compute; reflexivity|]. apply (script_bounded sample_world sample_running sample_running_reachable). Defined.


Lemma script_poll_punctual_witness : length (queue sample_running) = 1%nat /\ Forall (fun t => (0 < tdeadline t)%Z) (queue sample_running).
Proof.
  split; [vm_compute; reflexivity|]. apply Forall_forall. intros t Ht.
  apply (script_poll_punctual sample_world 4 sample_loaded 1 sample_running sample_loaded_reachable); [|vm_compute; reflexivity..|by left].
  intros m n _. unfold sample_world. destruct (m <? 9), (n <? 9); cbn; lia.
Defined.


