(* ===== verification/Postgres.v ===== *)
(** * The PostgreSQL backend

    [Postgres] of [src/postgres_database.cpp]: the policy on destinations and transport
    security, the connection, statements under an absolute deadline, and the three operations
    of [Storage].

    libpq, [poll], [inet_pton] and the clock are not part of the program: [inet_pton] is a
    parameter, the others answer through a [View].  The moment counter numbers the calls, so
    that each may answer differently from the last.  [clock] is the time of [steady_clock]: every
    call advances it by what it takes ([v_took]), and the two calls that block, [poll] and the
    mutex's [try_lock_until], by what they wait besides, at most as long as they were told to.
    [log] keeps what the backend asks of libpq
    and what libpq reports, oldest first; a handle ([PGconn*]) is the number of its
    [PQconnectStartParams].  The loops take [fuel]; running out of it raises [logic_error],
    which no code of the file throws. *)

From S2P Require Import Prelude OrderedMap Identity Values AttributeWire Messages Fields TimerState Storage Actions.

(** ** libpq and the operating system *)

Inductive polling := polling_ok | polling_failed | polling_reading | polling_writing | polling_active.
Inductive conn_status := connection_ok | connection_bad | connection_other.
Inductive result_status := command_ok | tuples_ok | other_status.
(** [poll]: interrupted, failed, timed out, or the events it reports. *)
Inductive poll_answer := poll_interrupted | poll_error | poll_timeout | poll_events (revents : N).

#[global] Instance conn_status_eq_dec : EqDecision conn_status.
Proof. solve_decision. Defined.

(** A row is the values of its columns. *)
Record PGresult := MkPGresult { rstatus : result_status; rows : list (list bytes) }.

Record View := MkView {
  v_took : Z; v_blocked : Z; v_locked : bool; v_started : bool; v_polling : polling; v_nonblocking_failed : bool; v_status : conn_status;
  v_host : bytes; v_hostaddr : option bytes; v_ssl : bool; v_fd : Z; v_poll : poll_answer;
  v_sent : bool; v_flush : Z; v_consumed : bool; v_busy : bool; v_result : option PGresult }.

Inductive event :=
  | o_started (handle : N) (host hostaddr ssl_mode : bytes)
  | o_finished (handle : N)
  | o_endpoint (handle : N) (host : bytes) (hostaddr : option bytes) (ssl : bool)
  | o_sent (at_moment handle : N) (sql : bytes) (values : list bytes) (binary : bool)
  | o_received (at_moment handle : N) (r : option PGresult)
  | o_polled (events : N) (timeout : Z).

(** [poll]'s bits. *)
Definition POLLIN : N := 1.
Definition POLLOUT : N := 4.
Definition POLLERR : N := 8.
Definition POLLHUP : N := 16.
Definition POLLNVAL : N := 32.
Definition INT_MAX : Z := 2 ^ 31 - 1.
Definition masked (revents mask : N) : bool := negb (N.land revents mask =? 0).

(** The members of the object, and the calls made so far. *)
Record Postgres := MkPostgres {
  options : bytes; ssl_mode : bytes; host : bytes; hostaddr : bytes;
  connection : option N; handles : N; moment : N; clock : Z; log : list event }.

Definition with_connection (s : Postgres) (c : option N) : Postgres := MkPostgres (options s) (ssl_mode s) (host s) (hostaddr s) c (handles s) (moment s) (clock s) (log s).
Definition with_handles (s : Postgres) (n : N) : Postgres := MkPostgres (options s) (ssl_mode s) (host s) (hostaddr s) (connection s) n (moment s) (clock s) (log s).
Definition with_time (s : Postgres) (n : N) (t : Z) : Postgres := MkPostgres (options s) (ssl_mode s) (host s) (hostaddr s) (connection s) (handles s) n t (log s).
Definition with_log (s : Postgres) (l : list event) : Postgres := MkPostgres (options s) (ssl_mode s) (host s) (hostaddr s) (connection s) (handles s) (moment s) (clock s) l.
Definition with_destinations (s : Postgres) (mode host hostaddr : bytes) : Postgres := MkPostgres (options s) mode host hostaddr (connection s) (handles s) (moment s) (clock s) (log s).

Abbreviation act := (Actions.act Postgres).

(** ** Destinations *)

Definition loopback (host : bytes) : bool :=
  bytes_eqb host (lit "localhost") || bytes_eqb host (lit "127.0.0.1") || bytes_eqb host (lit "::1") || starts_with (lit "/") host.

Definition comma : byte := x2c.

(** [value.find(',')]: what is before it, and what is behind it. *)
Fixpoint cut (value : bytes) : bytes * option bytes :=
  match value with
  | [] => ([], None)
  | b :: value => if Byte.eqb b comma then ([], Some value) else let '(first, rest) := cut value in (b :: first, rest)
  end.

(** [room] is how many destinations may still be added before there are more than eight. *)
Fixpoint destinations_from (room : nat) (value : bytes) : result (list bytes) :=
  match room with
  | O => Throw invalid_argument
  | S room =>
      match cut value with
      | (first, None) => Ok [first]
      | (first, Some rest) => let* l := destinations_from room rest in Ok (first :: l)
      end
  end.
Definition destinations : bytes -> result (list bytes) := destinations_from 8.

(** [result += ','] before every element but the first. *)
Fixpoint join (l : list bytes) : bytes :=
  match l with
  | [] => []
  | [a] => a
  | a :: l => a ++ comma :: join l
  end.

Section Destinations.
Context (numeric : bytes -> bool).

Definition numeric_address (host address : bytes) : result bytes :=
  if is_empty address then
    if bytes_eqb host (lit "localhost") then Ok (lit "127.0.0.1")
    else if numeric host then Ok host
    else if negb (is_empty host) && negb (starts_with (lit "/") host) then Throw invalid_argument
    else Ok address
  else if negb (numeric address) then Throw invalid_argument
  else Ok address.

Fixpoint numeric_addresses (hosts addresses : list bytes) : result (list bytes) :=
  match hosts, addresses with
  | host :: hosts, address :: addresses =>
      let* a := numeric_address host address in
      let* l := numeric_addresses hosts addresses in Ok (a :: l)
  | _, _ => Ok []
  end.

Definition numeric_destinations (host hostaddr : bytes) (service : bool) : result bytes :=
  throw_if service && (is_empty host || is_empty hostaddr) as invalid_argument ;;
  let* hosts := destinations host in
  let* addresses := if is_empty hostaddr then Ok (repeat [] (length hosts)) else destinations hostaddr in
  throw_if negb (Nat.eqb (length addresses) (length hosts)) as invalid_argument ;;
  let* l := numeric_addresses hosts addresses in Ok (join l).
End Destinations.

(** The constructor's scan of a list of destinations: one of them is not local. *)
Fixpoint remote_from (room : nat) (value : bytes) : result bool :=
  if is_empty value then Ok false
  else match room with
       | O => Throw invalid_argument
       | S room =>
           match cut value with
           | (first, None) => Ok (negb (loopback first))
           | (first, Some rest) => let* r := remote_from room rest in Ok (negb (loopback first) || r)
           end
       end.
Definition remote_destinations : bytes -> result bool := remote_from 8.

(** What the constructor keeps of the options libpq parsed. *)
Record Settings := MkSettings { set_host : bytes; set_hostaddr : bytes; set_service : bytes; set_mode : bytes }.

Definition verify_full : bytes := lit "verify-full".

Definition setting (is_explicit : bool) (c : Settings) (entry : bytes * option bytes) : Settings :=
  match entry with
  | (_, None) | (_, Some []) => c
  | (name, Some val) =>
      let c := if bytes_eqb name (lit "host") then MkSettings val (set_hostaddr c) (set_service c) (set_mode c) else c in
      let c := if bytes_eqb name (lit "hostaddr") then MkSettings (set_host c) val (set_service c) (set_mode c) else c in
      let c := if bytes_eqb name (lit "service") then MkSettings (set_host c) (set_hostaddr c) val (set_mode c) else c in
      if is_explicit && bytes_eqb name (lit "sslmode") then MkSettings (set_host c) (set_hostaddr c) (set_service c) val else c
  end.

Definition settings (defaults explicit_options : list (bytes * option bytes)) : Settings :=
  foldl (setting true) (foldl (setting false) (MkSettings [] [] [] verify_full) defaults) explicit_options.

(** ** The connection *)

(** Times are nanoseconds. *)
Definition operation_timeout : Z := 5 * 10 ^ 9.

(** [PQconninfoParse] and [PQconndefaults] *)
Record Parser := MkParser { conninfo_parse : bytes -> option (list (bytes * option bytes)); conn_defaults : option (list (bytes * option bytes)) }.

Section Backend.
Context (numeric : bytes -> bool) (parser : Parser) (world : N -> View) (fuel : nat).

Definition look : act View := s ← state; modify (fun s => with_time s (moment s + 1) (clock s + v_took (world (moment s)))%Z);; mret (world (moment s)).
(** [Clock::now()] *)
Definition now : act Z := look;; s ← state; mret (clock s).
(** A call that blocks: it returns no later than [limit], unless that has passed. *)
Definition block_until (limit : Z -> Z) (blocked : Z) : act unit :=
  modify (fun s => with_time s (moment s) (Z.max (clock s) (Z.min (limit (clock s)) (clock s + blocked)))).
Definition note (e : event) : act unit := modify (fun s => with_log s (log s ++ [e])).
Definition fail {A} : act A := raise runtime_error.
(** A statement about the handle of [connection_]. *)
Definition on_handle (f : N -> event) : act unit := s ← state; match connection s with Some h => note (f h) | None => done end.

Definition disconnect : act unit :=
  s ← state;
  match connection s with Some h => look;; note (o_finished h) | None => done end;;
  modify (fun s => with_connection s None).

Definition check_deadline (deadline : Z) : act unit :=
  t ← now; if (deadline <=? t)%Z then raise runtime_error else done.

(** [try_lock_until(deadline)]: the mutex is awaited, up to the deadline; it may also fail earlier. *)
Definition lock (deadline : Z) : act unit :=
  v ← look; block_until (fun _ => deadline) (v_blocked v);; if negb (v_locked v) then raise runtime_error else done.

(** [std::chrono::ceil] to milliseconds, clamped to what [poll] takes. *)
Definition poll_timeout_of (remaining : Z) : Z := Z.max 1 (Z.min INT_MAX (- ((- remaining) / 10 ^ 6))).

(** [poll] on the socket: it waits [timeout] milliseconds at most, and no less when it reports
    that nothing happened. *)
Definition poll (events : N) (timeout : Z) : act poll_answer :=
  note (o_polled events timeout);;
  v ← look;
  block_until (fun t => t + timeout * 10 ^ 6)%Z (match v_poll v with poll_timeout => timeout * 10 ^ 6 | _ => v_blocked v end)%Z;;
  mret (v_poll v).

Fixpoint wait_loop (n : nat) (events : N) (deadline : Z) : act N :=
  match n with
  | O => raise logic_error
  | S n =>
      check_deadline deadline;;
      t ← now;
      socket ← look;
      if (v_fd socket <? 0)%Z then fail else
      answer ← poll events (poll_timeout_of (deadline - t));
      match answer with
      | poll_interrupted => wait_loop n events deadline
      | poll_error => fail
      | poll_timeout => wait_loop n events deadline
      | poll_events revents => if masked revents POLLNVAL then fail else mret revents
      end
  end.
Definition wait : N -> Z -> act N := wait_loop fuel.

Fixpoint connect_loop (n : nat) (deadline : Z) : act unit :=
  match n with
  | O => raise logic_error
  | S n =>
      check_deadline deadline;;
      v ← look;
      match v_polling v with
      | polling_ok => done
      | polling_failed => fail
      | polling_reading => wait POLLIN deadline;; connect_loop n deadline
      | polling_writing => wait POLLOUT deadline;; connect_loop n deadline
      | polling_active => connect_loop n deadline
      end
  end.

Definition connect (deadline : Z) : act unit :=
  check_deadline deadline;;
  v ← look;
  s ← state;
  (if v_started v then
     modify (fun s => with_handles (with_connection s (Some (handles s))) (handles s + 1));;
     on_handle (fun h => o_started h (host s) (hostaddr s) (ssl_mode s))
   else modify (fun s => with_connection s None));;
  attempt
    ((if negb (v_started v) then fail else done);;
     connect_loop fuel deadline;;
     check_deadline deadline;;
     v ← look;
     if v_nonblocking_failed v then fail else done)
    (fun e => disconnect;; raise e).

(** ** Statements *)

Definition consume : act unit := v ← look; if negb (v_consumed v) then fail else done.

Fixpoint flush_loop (n : nat) (deadline : Z) : act unit :=
  match n with
  | O => raise logic_error
  | S n =>
      check_deadline deadline;;
      v ← look;
      if (v_flush v <? 0)%Z then fail
      else if (v_flush v =? 0)%Z then done
      else
        events ← wait (N.lor POLLIN POLLOUT) deadline;
        when (masked events (N.lor POLLIN (N.lor POLLERR POLLHUP))) consume;;
        flush_loop n deadline
  end.

(** [while (PQisBusy(connection_))] *)
Fixpoint busy_loop (n : nat) (deadline : Z) : act unit :=
  match n with
  | O => raise logic_error
  | S n =>
      v ← look;
      if v_busy v then wait POLLIN deadline;; consume;; busy_loop n deadline else done
  end.

(** [PQgetResult] until it has none; the last one is kept. *)
Fixpoint collect (n : nat) (deadline : Z) (last : option PGresult) : act (option PGresult) :=
  match n with
  | O => raise logic_error
  | S n =>
      check_deadline deadline;;
      busy_loop fuel deadline;;
      s ← state;
      v ← look;
      on_handle (fun h => o_received (moment s) h (v_result v));;
      match v_result v with
      | None => mret last
      | Some r => collect n deadline (Some r)
      end
  end.

Definition send (sql : bytes) (values : list bytes) (binary : bool) : act unit :=
  s ← state;
  v ← look;
  on_handle (fun h => o_sent (moment s) h sql values binary);;
  if negb (v_sent v) then fail else done.

Definition succeeded (r : option PGresult) : bool :=
  match r with
  | Some r => match rstatus r with command_ok | tuples_ok => true | other_status => false end
  | None => false
  end.

(** Until the results are read the fate of the statement is unknown and the connection is
    dropped; after that only when libpq says it is bad. *)
Definition query (deadline : Z) (sql : bytes) (values : list bytes) (binary_result : bool) : act PGresult :=
  check_deadline deadline;;
  r ← attempt (send sql values binary_result;; flush_loop fuel deadline;; collect fuel deadline None)
              (fun e => disconnect;; raise e);
  match r with
  | Some x => if succeeded r then mret x else v ← look; when (bool_decide (v_status v = connection_bad)) disconnect;; fail
  | None => v ← look; when (bool_decide (v_status v = connection_bad)) disconnect;; fail
  end.

Definition local_endpoint (host : bytes) (address : option bytes) : bool :=
  loopback host && match address with Some a => is_empty a || loopback a | None => true end.

Definition ready (deadline : Z) : act unit :=
  check_deadline deadline;;
  s ← state;
  healthy ← match connection s with
            | None => mret false
            | Some _ => v ← look; mret (bool_decide (v_status v = connection_ok))
            end;
  when (negb healthy) (disconnect;; connect deadline);;
  v ← look;
  s ← state;
  on_handle (fun h => o_endpoint h (v_host v) (v_hostaddr v) (v_ssl v));;
  if negb (local_endpoint (v_host v) (v_hostaddr v)) && (negb (bytes_eqb (ssl_mode s) verify_full) || negb (v_ssl v))
  then raise runtime_error else done.

(** ** The operations *)

Definition select_sql : bytes := lit "SELECT value,version FROM fsnet_records WHERE key=$1".
Definition insert_sql : bytes :=
  lit "INSERT INTO fsnet_records(key,value,version) VALUES($1,$2,nextval('fsnet_record_revision')) ON CONFLICT DO NOTHING RETURNING version".
Definition update_sql (expected : N) : bytes :=
  lit "UPDATE fsnet_records SET value=$2,version=nextval('fsnet_record_revision') WHERE key=$1 AND version=" ++ to_string expected ++ lit " RETURNING version".
Definition delete_sql (expected : N) : bytes :=
  lit "DELETE FROM fsnet_records WHERE key=$1 AND version=" ++ to_string expected ++ lit " RETURNING version".

(** [version = (version << 8) | byte] is the reading round of every integer, [shift_in]. *)
Definition read (key : bytes) (deadline : Z) : act (option Stored) :=
  r ← query deadline select_sql [key] true;
  match rows r with
  | [] => mret None
  | row :: _ =>
      if negb (size (nth 1 row []) =? 8) then raise runtime_error
      else mret (Some (MkStored (nth 0 row []) (fold_left shift_in (nth 1 row []) 0)))
  end.

Definition new_deadline : act Z := t ← now; mret (t + operation_timeout)%Z.

Definition pg_get (key : bytes) : act (option Stored) :=
  if 4096 <? size key then raise invalid_argument else
  deadline ← new_deadline;
  lock deadline;;
  ready deadline;;
  attempt (read key deadline) (fun e =>
    s ← state;
    bad ← match connection s with
          | None => mret true
          | Some _ => v ← look; mret (bool_decide (v_status v = connection_bad))
          end;
    if negb bad then raise e else
    check_deadline deadline;;
    ready deadline;;
    read key deadline).

Definition pg_compare_exchange (key : bytes) (expected : N) (value : bytes) : act bool :=
  if is_empty key || (4096 <? size key) || (16 * 1024 * 1024 <? size value) || (i64_max <=? expected) then raise invalid_argument else
  deadline ← new_deadline;
  lock deadline;;
  ready deadline;;
  r ← query deadline (if expected =? 0 then insert_sql else update_sql expected) [key; value] false;
  mret (Nat.eqb (length (rows r)) 1).

Definition pg_erase (key : bytes) (expected : N) : act bool :=
  if is_empty key || (4096 <? size key) || (i64_max <=? expected) then raise invalid_argument else
  if expected =? 0 then mret false else
  deadline ← new_deadline;
  lock deadline;;
  ready deadline;;
  r ← query deadline (delete_sql expected) [key] false;
  mret (Nat.eqb (length (rows r)) 1).

Definition schema_sql : list bytes := [
  lit "SELECT pg_advisory_lock(527941985139)";
  lit "CREATE TABLE IF NOT EXISTS fsnet_records (key bytea PRIMARY KEY, value bytea NOT NULL, version bigint NOT NULL CHECK(version>0))";
  lit "CREATE SEQUENCE IF NOT EXISTS fsnet_record_revision MINVALUE 1 MAXVALUE 9223372036854775806";
  lit "SELECT pg_advisory_unlock(527941985139)"].

(** The destinations and the mode the constructor settles on. *)
Definition configure (options : bytes) : result (bytes * bytes * bytes) :=
  throw_if bool_decide (x00 ∈ options) as invalid_argument ;;
  match conninfo_parse parser options with
  | None => Throw invalid_argument
  | Some explicit_options =>
      match conn_defaults parser with
      | None => Throw runtime_error
      | Some defaults =>
          let c := settings defaults explicit_options in
          let service := negb (is_empty (set_service c)) in
          let* r1 := remote_destinations (set_host c) in
          let* r2 := remote_destinations (set_hostaddr c) in
          throw_if (service || r1 || r2) && negb (bytes_eqb (set_mode c) verify_full) as invalid_argument ;;
          let* addresses := numeric_destinations numeric (set_host c) (set_hostaddr c) service in
          Ok (set_mode c, set_host c, addresses)
      end
  end.

(** [Postgres(options)], on an object whose members are empty. *)
Definition pg_open : act unit :=
  deadline ← new_deadline;
  s ← state;
  c ← lift (configure (options s));
  let '(mode, host, addresses) := c in
  modify (fun s => with_destinations s mode host addresses);;
  attempt (ready deadline;; for_each (fun sql => query deadline sql [] false;; done) schema_sql)
          (fun e => disconnect;; raise e).

Definition pg_close : act unit := disconnect.
End Backend.

(** An object before its construction begins, at the time [t]. *)
Definition fresh_backend (options : bytes) (t : Z) : Postgres := MkPostgres options [] [] [] None 0 0 t [].
