(* ===== verification/PostgresCorrect.v ===== *)
(** * The PostgreSQL backend is disciplined

    The calls of libpq follow its protocol on one connection at a time, over an endpoint the
    policy accepts; a write is sent once; an operation that returns did what the contract of
    [Storage] says at one moment of the call; and every operation ends by its deadline. *)

From S2P Require Import Prelude OrderedMap Identity Values AttributeWire Messages Fields TimerState Storage StorageCorrect Actions Postgres.

(** ** The protocol of libpq

    One connection is open at a time, under a number of its own; a statement is sent only when
    the results of the last one have been read to the end, and only over a trusted endpoint. *)

Record Link := MkLink { l_handle : N; l_trusted : bool; l_busy : bool }.
Record Wire := MkWire { w_next : N; w_link : option Link }.

Definition trusted (mode host : bytes) (address : option bytes) (ssl : bool) : bool :=
  local_endpoint host address || (bytes_eqb mode verify_full && ssl).

(** What the constructor settled on. *)
Record Config := MkConfig { c_host : bytes; c_addresses : bytes; c_mode : bytes }.
Definition config (s : Postgres) : Config := MkConfig (host s) (hostaddr s) (ssl_mode s).

Definition protocol (c : Config) (w : Wire) (e : event) : option Wire :=
  match e, w_link w with
  | o_started h host addresses mode, None =>
      if (h =? w_next w) && bytes_eqb host (c_host c) && bytes_eqb addresses (c_addresses c) && bytes_eqb mode (c_mode c)
      then Some (MkWire (h + 1) (Some (MkLink h false false))) else None
  | o_finished h, Some l => if h =? l_handle l then Some (MkWire (w_next w) None) else None
  | o_endpoint h host address ssl, Some l =>
      if (h =? l_handle l) && negb (l_busy l) then Some (MkWire (w_next w) (Some (MkLink h (trusted (c_mode c) host address ssl) false))) else None
  | o_sent _ h _ _ _, Some l =>
      if (h =? l_handle l) && l_trusted l && negb (l_busy l) then Some (MkWire (w_next w) (Some (MkLink h true true))) else None
  | o_received _ h r, Some l =>
      if (h =? l_handle l) && l_busy l then Some (MkWire (w_next w) (Some (MkLink h (l_trusted l) (match r with Some _ => true | None => false end)))) else None
  | o_polled _ t, _ => if (1 <=? t)%Z && (t <=? INT_MAX)%Z then Some w else None
  | _, _ => None
  end.

Definition follow_from (c : Config) : option Wire -> list event -> option Wire := foldl (fun w e => w ≫= fun w => protocol c w e).
Definition follow (c : Config) : list event -> option Wire := follow_from c (Some (MkWire 0 None)).

Lemma follow_app c l1 l2 : follow c (l1 ++ l2) = follow_from c (follow c l1) l2.
Proof. apply foldl_app. Qed.

Lemma follow_snoc c l e w : follow c l = Some w -> follow c (l ++ [e]) = protocol c w e.
Proof. intros H. by rewrite follow_app, H. Qed.

(** ** Calls that only wait *)

Definition is_poll (e : event) : Prop := match e with o_polled _ t => (1 <= t <= INT_MAX)%Z | _ => False end.

(** Nothing but time passing and calls of [poll] happened. *)
Definition still (s s' : Postgres) : Prop :=
  exists l m t, Forall is_poll l /\ moment s <= m /\ s' = with_log (with_time s m t) (log s ++ l).

#[global] Instance still_preorder : PreOrder still.
Proof.
  split.
  - intros s. exists [], (moment s), (clock s). split; [done|]. split; [lia|]. destruct s; cbn. by rewrite app_nil_r.
  - intros s s1 s2 (l1 & m1 & t1 & H1 & H2 & ->) (l2 & m2 & t2 & H3 & H4 & ->). cbn in *. exists (l1 ++ l2), m2, t2.
    split; [by apply Forall_app|]. split; [lia|]. by rewrite app_assoc.
Qed.

Definition calm {A} (m : act A) : Prop := forall s, still s (m s).2.

Lemma calm_bind {A B} (m : act A) (k : A -> act B) : calm m -> (forall a, calm (k a)) -> calm (m ≫= k).
Proof.
  intros Hm Hk s. specialize (Hm s). unfold mbind, act_bind. destruct (m s) as [[a|e] s1]; cbn in *; [|done].
  etransitivity; [done|apply Hk].
Qed.
Lemma calm_ret {A} (a : A) : calm (mret a).
Proof. intros s. reflexivity. Qed.
Lemma calm_raise {A} e : calm (A := A) (raise e).
Proof. intros s. reflexivity. Qed.
Lemma calm_state : calm state.
Proof. intros s. reflexivity. Qed.
Lemma calm_if {A} (b : bool) (m k : act A) : calm m -> calm k -> calm (if b then m else k).
Proof. by destruct b. Qed.
Lemma calm_when b (m : act unit) : calm m -> calm (when b m).
Proof. destruct b; [done|]. intros _. apply calm_ret. Qed.
Lemma calm_note e : is_poll e -> calm (note e).
Proof. intros He s. exists [e], (moment s), (clock s). split; [by repeat constructor|]. split; [lia|]. by destruct s. Qed.

Section Calm.
Context (world : N -> View) (fuel : nat).

Lemma calm_look : calm (look world).
Proof. intros s. eexists [], (moment s + 1), _. split; [done|]. split; [lia|]. cbn. by rewrite app_nil_r. Qed.
Lemma calm_block limit t : calm (block_until limit t).
Proof. intros s. eexists [], (moment s), _. split; [done|]. split; [lia|]. cbn. by rewrite app_nil_r. Qed.

Lemma poll_timeout_bounds t : (1 <= poll_timeout_of t <= INT_MAX)%Z.
Proof. unfold poll_timeout_of, INT_MAX. lia. Qed.

Ltac calm_step :=
  match goal with
  | |- calm (_ ≫= _) => apply calm_bind; [|intros ?]
  | |- calm (if _ then _ else _) => apply calm_if
  | |- calm (when _ _) => apply calm_when
  | |- calm (match ?x with _ => _ end) => destruct x
  | |- calm (look _) => apply calm_look
  | |- calm (block_until _ _) => apply calm_block
  | |- calm done => apply calm_ret
  | |- calm (mret _) => apply calm_ret
  | |- calm (raise _) => apply calm_raise
  | |- calm fail => apply calm_raise
  | |- calm state => apply calm_state
  | |- _ => solve [auto]
  end.
Ltac calms := repeat calm_step.

Lemma calm_now : calm (now world).
Proof. unfold now. calms. Qed.
Hint Resolve calm_now : core.
Lemma calm_deadline d : calm (check_deadline world d).
Proof. unfold check_deadline. calms. Qed.
Lemma calm_poll events t : calm (poll world events (poll_timeout_of t)).
Proof. unfold poll. apply calm_bind; [apply calm_note, poll_timeout_bounds|]. intros []. calms. Qed.
Lemma calm_lock d : calm (lock world d).
Proof. unfold lock. calms. Qed.
Lemma calm_consume : calm (consume world).
Proof. unfold consume. calms. Qed.
Hint Resolve calm_deadline calm_consume calm_poll : core.

Lemma calm_wait_loop n events d : calm (wait_loop world n events d).
Proof. induction n as [|n IH]; cbn [wait_loop]; calms. Qed.
Lemma calm_wait events d : calm (wait world fuel events d).
Proof. apply calm_wait_loop. Qed.
Hint Resolve calm_wait : core.

Lemma calm_connect_loop n d : calm (connect_loop world fuel n d).
Proof. induction n as [|n IH]; cbn [connect_loop]; calms. Qed.
Lemma calm_flush_loop n d : calm (flush_loop world fuel n d).
Proof. induction n as [|n IH]; cbn [flush_loop]; calms. Qed.
Lemma calm_busy_loop n d : calm (busy_loop world fuel n d).
Proof. induction n as [|n IH]; cbn [busy_loop]; calms. Qed.
Lemma calm_new_deadline : calm (new_deadline world).
Proof. unfold new_deadline. calms. Qed.
End Calm.

(** ** What the backend did since a call began *)

Definition sends (l : list event) : list (bytes * list bytes * bool) := omap (fun e => match e with o_sent _ _ sql values bin => Some (sql, values, bin) | _ => None end) l.

Lemma sends_app l1 l2 : sends (l1 ++ l2) = sends l1 ++ sends l2.
Proof. apply omap_app. Qed.

Lemma follow_polls c l : Forall is_poll l -> forall w, follow_from c (Some w) l = Some w.
Proof.
  induction 1 as [|e l He _ IH]; intros w; [done|]. destruct e; try done. cbn in He |- *.
  rewrite (proj2 (Z.leb_le _ _)), (proj2 (Z.leb_le _ INT_MAX)) by lia. apply IH.
Qed.

Lemma sends_polls l : Forall is_poll l -> sends l = [].
Proof. induction 1 as [|e l He _ IH]; [done|]. by destruct e. Qed.

(** The backend is at [link], and sent the statements [S] since the state [s0]. *)
Record at_link (s0 : Postgres) (link : option Link) (S : list (bytes * list bytes * bool)) (s : Postgres) : Prop := {
  at_options : options s = options s0;
  at_config : config s = config s0;
  at_connection : connection s = l_handle <$> link;
  at_follow : follow (config s) (log s) = Some (MkWire (handles s) link);
  at_moment : moment s0 <= moment s;
  at_log : exists l, log s = log s0 ++ l /\ sends l = S }.

Definition rest (s0 : Postgres) (S : list (bytes * list bytes * bool)) (s : Postgres) : Prop :=
  exists link, at_link s0 link S s /\ forall l, link = Some l -> l_busy l = false.

Lemma at_link_still s0 link S s s' : still s s' -> at_link s0 link S s -> at_link s0 link S s'.
Proof.
  intros (l & m & t & Hl & Hm & ->) [H1 H2 H3 H4 H5 (l' & H6 & H7)]. split; cbn; try done.
  - change (config _) with (config s). by rewrite follow_app, H4, follow_polls.
  - lia.
  - exists (l' ++ l). rewrite H6, app_assoc. split; [done|]. by rewrite sends_app, H7, (sends_polls l), app_nil_r.
Qed.

(** One event of the protocol, and its effect on the members. *)
Lemma at_link_event s0 link S s e s' link' :
  at_link s0 link S s -> options s' = options s -> config s' = config s -> log s' = log s ++ [e] -> moment s <= moment s' ->
  connection s' = l_handle <$> link' -> protocol (config s) (MkWire (handles s) link) e = Some (MkWire (handles s') link') ->
  at_link s0 link' (S ++ sends [e]) s'.
Proof.
  intros [H1 H2 H3 H4 H5 (l' & H6 & H7)] Ho Hc Hl Hm Hn Hp. split.
  - congruence.
  - congruence.
  - done.
  - rewrite Hc, Hl. by rewrite (follow_snoc _ _ _ _ H4).
  - lia.
  - exists (l' ++ [e]). rewrite Hl, H6, <- app_assoc. split; [done|]. by rewrite sends_app, H7.
Qed.

Lemma runs_calm {A} (P : Postgres -> Prop) (m : act A) : calm m -> (forall s s', still s s' -> P s -> P s') -> runs P m (fun _ => P) P.
Proof. intros Hm HP s Hs. specialize (Hm s). destruct (m s) as [[a|e] s']; by eapply HP. Qed.

Lemma runs_calmly {A B} (P : Postgres -> Prop) (m : act A) (k : A -> act B) Q X :
  calm m -> (forall s s', still s s' -> P s -> P s') -> (forall s, P s -> X s) -> (forall a, runs P (k a) Q X) -> runs P (m ≫= k) Q X.
Proof.
  intros Hm HP HX Hk. eapply (runs_bind _ _ _ (fun _ => P)); [|exact Hk]. eapply runs_weaken; [by apply (runs_calm P)|done..].
Qed.

Lemma rest_still s0 S s s' : still s s' -> rest s0 S s -> rest s0 S s'.
Proof. intros Hs (link & H & Hl). exists link. split; [by eapply at_link_still|done]. Qed.

Lemma on_handle_eq f s : on_handle f s = (Ok tt, match connection s with Some h => with_log s (log s ++ [f h]) | None => s end).
Proof. unfold on_handle, state, mbind, act_bind. by destruct (connection s). Qed.

(** An event on the open handle that leaves the members alone. *)
Lemma runs_on_handle s0 l S f link' :
  (forall c n, protocol c (MkWire n (Some l)) (f (l_handle l)) = Some (MkWire n (Some link'))) -> l_handle link' = l_handle l ->
  forall X, runs (at_link s0 (Some l) S) (on_handle f) (fun _ => at_link s0 (Some link') (S ++ sends [f (l_handle l)])) X.
Proof.
  intros Hp Hh X s Hs. rewrite on_handle_eq, (at_connection _ _ _ _ Hs). cbn.
  apply (at_link_event s0 (Some l) S s (f (l_handle l))); cbn; try done.
  by rewrite (at_connection _ _ _ _ Hs), Hh.
Qed.

Lemma disconnect_runs world s0 link S X : runs (at_link s0 link S) (disconnect world) (fun _ => at_link s0 None S) X.
Proof.
  unfold disconnect. apply runs_state. intros s1 Hs1. rewrite (at_connection _ _ _ _ Hs1).
  apply (runs_bind _ _ _ (fun _ s => at_link s0 None S (with_connection s None))); [|intros []; by apply runs_modify].
  destruct link as [l|]; cbn [fmap option_fmap option_map].
  - intros s [-> Hs]. unfold mbind, act_bind, look, note, state, modify, mret, act_ret. cbn. rewrite <- (app_nil_r S).
    eapply (at_link_event s0 (Some l) S s1 (o_finished (l_handle l))); cbn; try done; [lia|by rewrite N.eqb_refl].
  - apply runs_done. intros s [-> [H1 H2 H3 H4 H5 H6]]. by split.
Qed.

Lemma quit_runs {A} world s0 link S e (Q : A -> Postgres -> Prop) : runs (at_link s0 link S) (disconnect world;; raise e) Q (at_link s0 None S).
Proof. eapply runs_bind; [apply disconnect_runs|]. intros []. by apply runs_raise. Qed.

Section Backend.
Context (world : N -> View) (fuel : nat).

(** A step that only waits, before the rest of an action. *)
Lemma runs_after_calm {A B} s0 link S (m : act A) (k : A -> act B) Q X :
  calm m -> (forall s, at_link s0 link S s -> X s) -> (forall a, runs (at_link s0 link S) (k a) Q X) -> runs (at_link s0 link S) (m ≫= k) Q X.
Proof. intros Hm. apply runs_calmly; [done|]. intros s s'. apply at_link_still. Qed.

Definition fresh_link (h : N) : Link := MkLink h false false.
Definition good_link (h : N) : Link := MkLink h true false.

Lemma connect_runs s0 S d : runs (at_link s0 None S) (connect world fuel d) (fun _ s => exists h, at_link s0 (Some (fresh_link h)) S s) (at_link s0 None S).
Proof.
  unfold connect. apply runs_after_calm; [apply calm_deadline|done|]. intros _. apply runs_after_calm; [apply calm_look|done|].
  intros v. apply runs_state. intros s1 Hs1. destruct (v_started v) eqn:Ev.
  - eapply (runs_bind _ _ _ (fun _ => at_link s0 (Some (fresh_link (handles s1))) S)).
    + intros s [-> Hs]. unfold mbind, act_bind, modify. rewrite on_handle_eq. cbn. rewrite <- (app_nil_r S).
      apply (at_link_event s0 None S s1 (o_started (handles s1) (host s1) (hostaddr s1) (ssl_mode s1))); cbn; try done.
      by rewrite N.eqb_refl, !bytes_eqb_refl.
    + intros []. eapply runs_attempt; [|intros e; apply quit_runs]. cbn [negb].
      apply runs_after_calm; [apply calm_ret|done|]. intros []. apply runs_after_calm; [apply calm_connect_loop|done|]. intros [].
      apply runs_after_calm; [apply calm_deadline|done|]. intros []. apply runs_after_calm; [apply calm_look|done|]. intros v'.
      destruct (v_nonblocking_failed v'); [by apply runs_raise|]. apply runs_done. eauto.
  - eapply (runs_bind _ _ _ (fun _ => at_link s0 None S)).
    + intros s [-> Hs]. cbn. destruct Hs as [H1 H2 H3 H4 H5 H6]. by split.
    + intros []. eapply runs_attempt; [|intros e; apply quit_runs]. apply runs_bind with (R := fun _ _ => False); [by apply runs_raise|].
      intros [] s [].
Qed.

Lemma rest_of s0 link S s : at_link s0 link S s -> (forall l, link = Some l -> l_busy l = false) -> rest s0 S s.
Proof. intros H1 H2. by exists link. Qed.

Lemma rest_none s0 S s : at_link s0 None S s -> rest s0 S s.
Proof. intros H. by apply (rest_of _ None). Qed.

Lemma rest_idle s0 h t S s : at_link s0 (Some (MkLink h t false)) S s -> rest s0 S s.
Proof. intros H. eapply rest_of; [exact H|]. by intros l [= <-]. Qed.

Lemma endpoint_runs s0 l S : l_busy l = false ->
  runs (at_link s0 (Some l) S) (v ← look world; s ← state; on_handle (fun h => o_endpoint h (v_host v) (v_hostaddr v) (v_ssl v));;
    if negb (local_endpoint (v_host v) (v_hostaddr v)) && (negb (bytes_eqb (ssl_mode s) verify_full) || negb (v_ssl v)) then raise runtime_error else done)
    (fun _ s => exists h, at_link s0 (Some (good_link h)) S s) (rest s0 S).
Proof.
  intros Hl. apply runs_after_calm; [apply calm_look|intros s Hs; eapply rest_of; [exact Hs|by intros ? [= <-]]|]. intros v. apply runs_state. intros s Hs s' [-> _].
  unfold mbind, act_bind. rewrite on_handle_eq, (at_connection _ _ _ _ Hs). cbn [fmap option_fmap option_map].
  set (t := trusted (ssl_mode s) (v_host v) (v_hostaddr v) (v_ssl v)).
  assert (H : at_link s0 (Some (MkLink (l_handle l) t false)) S (with_log s (log s ++ [o_endpoint (l_handle l) (v_host v) (v_hostaddr v) (v_ssl v)]))).
  { rewrite <- (app_nil_r S). apply (at_link_event s0 (Some l) S s (o_endpoint (l_handle l) (v_host v) (v_hostaddr v) (v_ssl v))); cbn; try done.
    - by rewrite (at_connection _ _ _ _ Hs).
    - by rewrite N.eqb_refl, Hl. }
  destruct (negb (local_endpoint _ _) && _) eqn:E; cbn; [by eapply rest_idle|]. exists (l_handle l).
  replace (good_link (l_handle l)) with (MkLink (l_handle l) t false); [done|]. unfold good_link. f_equal. unfold t, trusted.
  destruct (local_endpoint _ _), (bytes_eqb _ _), (v_ssl v); by cbn in *.
Qed.

Lemma ready_runs s0 S d : runs (rest s0 S) (ready world fuel d) (fun _ s => exists h, at_link s0 (Some (good_link h)) S s) (rest s0 S).
Proof.
  intros s (link & Hs & Hl). revert s Hs. change (runs (at_link s0 link S) (ready world fuel d) (fun _ s => exists h, at_link s0 (Some (good_link h)) S s) (rest s0 S)).
  assert (HX : forall s, at_link s0 link S s -> rest s0 S s) by eauto using rest_of.
  unfold ready. apply runs_after_calm; [apply calm_deadline|done|]. intros [].
  apply runs_state. intros s1 Hs1. eapply runs_bind with (R := fun healthy s => at_link s0 link S s /\ (healthy = true -> link <> None)).
  { intros s [-> Hs]. pose proof (at_connection _ _ _ _ Hs) as Hc. destruct link as [l|]; rewrite Hc; [|done].
    split; [|done]. eapply at_link_still; [apply (calm_look world)|done]. }
  intros healthy s [Hs Hh]. revert s Hs. apply (runs_bind _ _ _ (fun _ s => exists l, at_link s0 (Some l) S s /\ l_busy l = false)).
  { apply runs_when.
    - intros _. eapply runs_bind; [apply disconnect_runs|]. intros []. eapply runs_weaken; [apply connect_runs|done| |apply rest_none].
      intros _ s [h Hs]. by eexists.
    - intros ->%negb_false_iff s Hs. destruct link as [l|]; [|by destruct Hh]. exists l. auto. }
  intros [] s (l & Hs & Hb). by eapply endpoint_runs.
Qed.

(** ** Statements *)

Definition quiet (h : N) (e : event) : Prop := is_poll e \/ exists j r, e = o_received j h (Some r).

(** The statement sent at [i] on an idle trusted handle was answered at [j] with [r]. *)
Definition answers (c : Config) (lg : list event) (i h : N) (sql : bytes) (values : list bytes) (bin : bool) (j : N) (r : PGresult) : Prop :=
  exists l1 l2 l3 n, lg = l1 ++ o_sent i h sql values bin :: l2 ++ o_received j h (Some r) :: l3 /\
    follow c l1 = Some (MkWire n (Some (good_link h))) /\ Forall (quiet h) l2.

Definition delivered (s0 : Postgres) (h : N) (sql : bytes) (values : list bytes) (bin : bool) (r : PGresult) (s : Postgres) : Prop :=
  exists i j, moment s0 <= i <= j /\ j < moment s /\ answers (config s) (log s) i h sql values bin j r.

Definition busy_link (h : N) : Link := MkLink h true true.

(** A statement on its way, with the last result read of it. *)
Definition in_flight (s0 : Postgres) (S : list (bytes * list bytes * bool)) (h : N) (sql : bytes) (values : list bytes) (bin : bool) (last : option PGresult) (s : Postgres) : Prop :=
  at_link s0 (Some (busy_link h)) (S ++ [(sql, values, bin)]) s /\
  exists l1 i l2 n, log s = l1 ++ o_sent i h sql values bin :: l2 /\ follow (config s) l1 = Some (MkWire n (Some (good_link h))) /\
    Forall (quiet h) l2 /\ moment s0 <= i < moment s /\
    forall r, last = Some r -> exists j la lb, l2 = la ++ o_received j h (Some r) :: lb /\ i <= j < moment s.

Lemma in_flight_still s0 S h sql values bin last s s' : still s s' -> in_flight s0 S h sql values bin last s -> in_flight s0 S h sql values bin last s'.
Proof.
  intros Hst [Ha (l1 & i & l2 & n & H1 & H2 & H3 & H4 & H5)]. split; [by eapply at_link_still|].
  destruct Hst as (l & m & t & Hl & Hm & ->). exists l1, i, (l2 ++ l), n. cbn. change (config _) with (config s).
  split; [by rewrite H1, <- app_assoc|]. split; [done|]. split.
  - apply Forall_app. split; [done|]. eapply Forall_impl; [exact Hl|]. by left.
  - split; [lia|]. intros r Hr. destruct (H5 r Hr) as (j & la & lb & -> & Hj). exists j, la, (lb ++ l). rewrite <- app_assoc. split; [done|lia].
Qed.

Lemma flight_calm {A} s0 S h sql values bin last (m : act A) : calm m ->
  runs (in_flight s0 S h sql values bin last) m (fun _ => in_flight s0 S h sql values bin last) (at_link s0 (Some (busy_link h)) (S ++ [(sql, values, bin)])).
Proof.
  intros Hm. eapply runs_weaken; [apply runs_calm; [done|]|done|done|]; [intros s s'; apply in_flight_still|]. by intros s [H _].
Qed.

Lemma send_runs s0 S h sql values bin :
  runs (at_link s0 (Some (good_link h)) S) (send world sql values bin) (fun _ => in_flight s0 S h sql values bin None) (at_link s0 (Some (busy_link h)) (S ++ [(sql, values, bin)])).
Proof.
  unfold send. apply runs_state. intros s Hs s' [-> _]. unfold mbind, act_bind. cbn [look state modify].
  unfold look, mbind, act_bind, state, modify, mret, act_ret. rewrite on_handle_eq. cbn [connection with_time]. rewrite (at_connection _ _ _ _ Hs). cbn [fmap option_fmap option_map l_handle good_link].
  assert (Ha : at_link s0 (Some (busy_link h)) (S ++ [(sql, values, bin)]) (with_log (with_time s (moment s + 1) (clock s + v_took (world (moment s)))%Z) (log s ++ [o_sent (moment s) h sql values bin]))).
  { apply (at_link_event s0 (Some (good_link h)) S s (o_sent (moment s) h sql values bin)); cbn; try done; [lia|by rewrite (at_connection _ _ _ _ Hs)|]. by rewrite N.eqb_refl. }
  destruct (v_sent _); [|done]. split; [done|]. exists (log s), (moment s), [], (handles s). cbn.
  split; [done|]. split; [apply (at_follow _ _ _ _ Hs)|]. split; [done|]. split; [|done]. pose proof (at_moment _ _ _ _ Hs). lia.
Qed.

Definition landed (s0 : Postgres) (S : list (bytes * list bytes * bool)) (h : N) (sql : bytes) (values : list bytes) (bin : bool) (x : option PGresult) (s : Postgres) : Prop :=
  at_link s0 (Some (good_link h)) (S ++ [(sql, values, bin)]) s /\ forall r, x = Some r -> delivered s0 h sql values bin r s.

(** Reading one result. *)
Lemma received_runs s0 S h sql values bin last s v : in_flight s0 S h sql values bin last s ->
  let s' := with_log (with_time s (moment s + 1) (clock s + v_took (world (moment s)))%Z) (log s ++ [o_received (moment s) h (v_result v)]) in
  match v_result v with
  | None => landed s0 S h sql values bin last s'
  | Some r => in_flight s0 S h sql values bin (Some r) s'
  end.
Proof.
  intros [Ha (l1 & i & l2 & n & H1 & H2 & H3 & H4 & H5)]. cbn zeta.
  assert (Hs : forall t, (match v_result v with Some _ => true | None => false end) = t ->
    at_link s0 (Some (MkLink h true t)) (S ++ [(sql, values, bin)]) (with_log (with_time s (moment s + 1) (clock s + v_took (world (moment s)))%Z) (log s ++ [o_received (moment s) h (v_result v)]))).
  { intros t <-. rewrite <- (app_nil_r (S ++ _)). apply (at_link_event s0 (Some (busy_link h)) _ s (o_received (moment s) h (v_result v))); cbn; try done; [lia|by rewrite (at_connection _ _ _ _ Ha)|].
    by rewrite N.eqb_refl. }
  destruct (v_result v) as [r|]; (split; [by apply Hs|]).
  - exists l1, i, (l2 ++ [o_received (moment s) h (Some r)]), n. cbn. change (config _) with (config s).
    split; [by rewrite H1, <- app_assoc|]. split; [done|]. split; [apply Forall_app; split; [done|]; constructor; [right; eauto|done]|]. split; [lia|].
    intros r' [= <-]. exists (moment s), l2, []. split; [done|]. lia.
  - intros r Hr. destruct (H5 r Hr) as (j & la & lb & -> & Hj). exists i, j. cbn. split; [lia|]. split; [lia|].
    exists l1, la, (lb ++ [o_received (moment s) h None]), n. rewrite H1. split; [by rewrite <- app_assoc; cbn; rewrite <- app_assoc|].
    split; [done|]. by apply Forall_app in H3 as [? _].
Qed.

Lemma collect_runs s0 S h sql values bin d n : forall last,
  runs (in_flight s0 S h sql values bin last) (collect world fuel n d last) (landed s0 S h sql values bin) (at_link s0 (Some (busy_link h)) (S ++ [(sql, values, bin)])).
Proof.
  induction n as [|n IH]; intros last; cbn [collect]; [apply runs_raise; by intros s [H _]|].
  eapply runs_bind; [apply flight_calm, calm_deadline|]. intros []. eapply runs_bind; [apply flight_calm, calm_busy_loop|]. intros [].
  apply runs_state. intros s Hs s' [-> _]. unfold look, state, modify, mret, act_ret, mbind, act_bind. rewrite on_handle_eq. cbn [connection with_time].
  rewrite (at_connection _ _ _ _ (proj1 Hs)). cbn [fmap option_fmap option_map l_handle busy_link].
  pose proof (received_runs _ _ _ _ _ _ _ _ (world (moment s)) Hs) as H. cbn zeta in H. destruct (v_result (world (moment s))) as [r|]; [|exact H]. by apply IH.
Qed.

Lemma query_runs s0 S h d sql values bin :
  runs (at_link s0 (Some (good_link h)) S) (query world fuel d sql values bin)
    (fun r s => at_link s0 (Some (good_link h)) (S ++ [(sql, values, bin)]) s /\ succeeded (Some r) = true /\ delivered s0 h sql values bin r s)
    (fun s => rest s0 S s \/ rest s0 (S ++ [(sql, values, bin)]) s).
Proof.
  unfold query. apply runs_after_calm; [apply calm_deadline|left; by eapply rest_idle|]. intros [].
  eapply (runs_bind _ _ _ (landed s0 S h sql values bin)).
  - eapply runs_attempt; [|intros e; eapply runs_weaken; [apply quit_runs|done|done|]; right; by apply rest_none].
    eapply runs_bind; [apply send_runs|]. intros []. eapply runs_bind; [apply flight_calm, calm_flush_loop|]. intros []. apply collect_runs.
  - intros x. assert (Hbad : forall Q, runs (landed s0 S h sql values bin x) (v ← look world; when (bool_decide (v_status v = connection_bad)) (disconnect world);; fail (A := PGresult))
      Q (fun s => rest s0 S s \/ rest s0 (S ++ [(sql, values, bin)]) s)).
    { intros Q s [Hs _]. revert s Hs. apply runs_after_calm; [apply calm_look|right; by eapply rest_idle|]. intros v.
      eapply (runs_bind _ _ _ (fun _ s => rest s0 (S ++ [(sql, values, bin)]) s)).
      - apply runs_when; intros _; [|intros s Hs; by eapply rest_idle]. eapply runs_weaken; [apply (disconnect_runs world s0 (Some (good_link h)) (S ++ [(sql, values, bin)]) (fun _ => False))|done| |done]. intros a s. apply rest_none.
      - intros []. apply runs_raise. auto. }
    destruct x as [r|]; [|apply Hbad]. destruct (succeeded (Some r)) eqn:E; [|apply Hbad].
    apply runs_ret. intros s [Hs Hd]. split; [done|]. split; [done|]. by apply Hd.
Qed.

(** ** The operations *)

(** What [read] makes of a result. *)
Definition record_of (r : PGresult) : result (option Stored) :=
  match rows r with
  | [] => Ok None
  | row :: _ => throw_if negb (size (nth 1 row []) =? 8) as runtime_error ;; Ok (Some (MkStored (nth 0 row []) (fold_left shift_in (nth 1 row []) 0)))
  end.

Definition selects (key : bytes) (n : nat) : list (bytes * list bytes * bool) := repeat (select_sql, [key], true) n.

Lemma selects_snoc key n : selects key n ++ [(select_sql, [key], true)] = selects key (S n).
Proof. unfold selects. by rewrite <- repeat_cons. Qed.

Definition fetched (s0 : Postgres) (key : bytes) (n : nat) (o : option Stored) (s : Postgres) : Prop :=
  rest s0 (selects key n) s /\ exists h r, succeeded (Some r) = true /\ delivered s0 h select_sql [key] true r s /\ record_of r = Ok o.

Definition read_most (s0 : Postgres) (key : bytes) (n : nat) (s : Postgres) : Prop := exists m, (m <= n)%nat /\ rest s0 (selects key m) s.

Lemma read_runs s0 key h d n :
  runs (at_link s0 (Some (good_link h)) (selects key n)) (read world fuel key d) (fetched s0 key (S n)) (read_most s0 key (S n)).
Proof.
  unfold read. eapply runs_bind.
  - eapply runs_weaken; [apply query_runs|done|intros r s H; exact H|]. rewrite selects_snoc.
    intros s [H|H]; [exists n|exists (S n)]; (split; [lia|done]).
  - intros r. rewrite selects_snoc. destruct (rows r) as [|row l] eqn:E.
    + apply runs_ret. intros s (H1 & H2 & H3). split; [by eapply rest_idle|]. exists h, r. unfold record_of. by rewrite E.
    + destruct (negb _) eqn:En.
      * apply runs_raise. intros s (H & _). exists (S n). split; [lia|]. by eapply rest_idle.
      * apply runs_ret. intros s (H1 & H2 & H3). split; [by eapply rest_idle|]. exists h, r. unfold record_of. by rewrite E, En.
Qed.

Lemma read_most_still s0 key n s s' : still s s' -> read_most s0 key n s -> read_most s0 key n s'.
Proof. intros Hs (m & Hm & H). exists m. split; [done|]. by eapply rest_still. Qed.

(** Every operation begins with its deadline, the lock and a ready connection. *)
Lemma begin_runs {A} s0 (k : Z -> act A) Q X : (forall s, rest s0 [] s -> X s) -> (forall d h, runs (at_link s0 (Some (good_link h)) []) (k d) Q X) ->
  runs (rest s0 []) (d ← new_deadline world; lock world d;; ready world fuel d;; k d) Q X.
Proof.
  intros HX Hk. apply runs_calmly; [apply calm_new_deadline|apply rest_still|done|]. intros d.
  apply runs_calmly; [apply calm_lock|apply rest_still|done|]. intros [].
  eapply runs_bind; [eapply runs_weaken; [apply ready_runs|done|intros a s H; exact H|done]|]. intros [] s (h & Hs). by apply (Hk d h).
Qed.

Lemma read_most_more s0 key n m s : read_most s0 key n s -> (n <= m)%nat -> read_most s0 key m s.
Proof. intros (k & Hk & H) Hm. exists k. split; [lia|done]. Qed.

(** The second attempt, on a connection that was lost. *)
Lemma reread_runs s0 key d m : (m <= 1)%nat ->
  runs (rest s0 (selects key m)) (ready world fuel d;; read world fuel key d) (fun o s => exists n, (1 <= n <= 2)%nat /\ fetched s0 key n o s) (read_most s0 key 2).
Proof.
  intros Hm. eapply runs_bind; [eapply runs_weaken; [apply ready_runs|done|intros a s H; exact H|]|].
  - intros s H. exists m. split; [lia|done].
  - intros [] s (h & Hs). revert s Hs. eapply runs_weaken; [apply (read_runs s0 key h d m)|done| |].
    + intros o s H. exists (S m). split; [lia|done].
    + intros s H. eapply read_most_more; [exact H|lia].
Qed.

Lemma get_runs s0 key : runs (rest s0 []) (pg_get world fuel key) (fun o s => exists n, (1 <= n <= 2)%nat /\ fetched s0 key n o s) (read_most s0 key 2).
Proof.
  assert (H0 : forall s, rest s0 [] s -> read_most s0 key 2 s) by (intros s H; exists 0%nat; split; [lia|done]).
  assert (H1 : forall s, read_most s0 key 1 s -> read_most s0 key 2 s) by (intros s H; eapply read_most_more; [exact H|lia]).
  unfold pg_get. destruct (4096 <? size key); [by apply runs_raise|]. apply begin_runs; [done|]. intros d h.
  eapply runs_attempt.
  { eapply runs_weaken; [apply (read_runs s0 key h d 0)|done| |intros s H; exact H]. intros o s H. exists 1%nat. split; [lia|done]. }
  intros e. apply runs_state. intros s1 Hs1. apply (runs_weaken (read_most s0 key 1)) with (Q := fun o s => exists n, (1 <= n <= 2)%nat /\ fetched s0 key n o s) (X := read_most s0 key 2);
    [|by intros s [_ ?]|done|done].
  apply runs_calmly; [|apply read_most_still|done|].
  { destruct (connection s1); [|apply calm_ret]. apply calm_bind; [apply calm_look|]. intros. apply calm_ret. }
  intros bad. destruct bad; cbn [negb]; [|by apply runs_raise].
  apply runs_calmly; [apply calm_deadline|apply read_most_still|done|]. intros [] s (m & Hm & Hs). by apply (reread_runs s0 key d m).
Qed.

(** A write sends its statement once or not at all; its answer is that statement's. *)
Definition wrote_once (s0 : Postgres) (sql : bytes) (values : list bytes) (bin : bool) (b : bool) (s : Postgres) : Prop :=
  rest s0 [(sql, values, bin)] s /\ exists h r, succeeded (Some r) = true /\ delivered s0 h sql values bin r s /\ b = Nat.eqb (length (rows r)) 1.

Definition maybe_sent (s0 : Postgres) (sql : bytes) (values : list bytes) (bin : bool) (s : Postgres) : Prop := rest s0 [] s \/ rest s0 [(sql, values, bin)] s.

Lemma write_runs s0 sql values bin : runs (rest s0 []) (d ← new_deadline world; lock world d;; ready world fuel d;; r ← query world fuel d sql values bin; mret (Nat.eqb (length (rows r)) 1))
  (wrote_once s0 sql values bin) (maybe_sent s0 sql values bin).
Proof.
  apply begin_runs; [by left|]. intros d h. eapply runs_bind; [eapply runs_weaken; [apply query_runs|done|intros r s H; exact H|by intros s]|].
  intros r. apply runs_ret. intros s (H1 & H2 & H3). split; [by eapply rest_idle|]. by exists h, r.
Qed.

Definition cas_sql (expected : N) : bytes := if expected =? 0 then insert_sql else update_sql expected.

Lemma compare_exchange_runs s0 key expected value :
  runs (rest s0 []) (pg_compare_exchange world fuel key expected value) (wrote_once s0 (cas_sql expected) [key; value] false) (maybe_sent s0 (cas_sql expected) [key; value] false).
Proof. unfold pg_compare_exchange. destruct (_ || _); [apply runs_raise; by left|]. apply write_runs. Qed.

Lemma erase_runs s0 key expected :
  runs (rest s0 []) (pg_erase world fuel key expected)
    (fun b s => (expected = 0 /\ b = false /\ rest s0 [] s) \/ wrote_once s0 (delete_sql expected) [key] false b s) (maybe_sent s0 (delete_sql expected) [key] false).
Proof.
  unfold pg_erase. destruct (_ || _); [apply runs_raise; by left|]. destruct (N.eqb_spec expected 0) as [->|]; [apply runs_ret; auto|].
  eapply runs_weaken; [apply write_runs|done|by right|done].
Qed.

Lemma schema_runs s0 d h l : forall S,
  runs (at_link s0 (Some (good_link h)) S) (for_each (fun sql => query world fuel d sql [] false;; done) l)
    (fun _ s => exists S', rest s0 S' s) (fun s => exists S', rest s0 S' s).
Proof.
  induction l as [|sql l IH]; intros S; cbn [for_each]; [apply runs_done; intros s H; eexists; by eapply rest_idle|].
  eapply (runs_bind _ _ _ (fun _ => at_link s0 (Some (good_link h)) (S ++ [(sql, [], false)]))); [|intros; apply IH].
  eapply runs_bind; [eapply runs_weaken; [apply query_runs|done|intros r s H; exact (proj1 H)|]|].
  - intros s [H|H]; eauto.
  - intros r. by apply runs_ret.
Qed.
End Backend.

(** ** Every history of a backend *)

Section Histories.
Context (numeric : bytes -> bool) (parser : Parser) (world : N -> View) (fuel : nat) (opts : bytes).

Inductive reachable : Postgres -> Prop :=
  | r_open t s : pg_open numeric parser world fuel (fresh_backend opts t) = (Ok tt, s) -> reachable s
  | r_get key s r s' : reachable s -> pg_get world fuel key s = (r, s') -> reachable s'
  | r_cas key expected value s r s' : reachable s -> pg_compare_exchange world fuel key expected value s = (r, s') -> reachable s'
  | r_erase key expected s r s' : reachable s -> pg_erase world fuel key expected s = (r, s') -> reachable s'.

(** Between operations: the log obeys the protocol and no statement is on its way. *)
Definition resting (s : Postgres) : Prop :=
  exists link, follow (config s) (log s) = Some (MkWire (handles s) link) /\ connection s = l_handle <$> link /\ forall l, link = Some l -> l_busy l = false.

Lemma resting_rest s : resting s -> rest s [] s.
Proof. intros (link & H1 & H2 & H3). exists link. split; [|done]. split; try done. exists []. by rewrite app_nil_r. Qed.

Lemma rest_resting s0 S s : rest s0 S s -> resting s /\ config s = config s0 /\ options s = options s0.
Proof. intros (link & [H1 H2 H3 H4 H5 H6] & H). split; [by exists link|done]. Qed.

Definition settled (s : Postgres) : Prop := resting s /\ configure numeric parser opts = Ok (ssl_mode s, host s, hostaddr s).

Lemma rest_settled s0 S s : settled s0 -> rest s0 S s -> settled s.
Proof.
  intros [_ H0] H. apply rest_resting in H as (H1 & H2 & _). split; [done|]. unfold config in H2. injection H2 as -> -> ->. done.
Qed.

Lemma open_runs t : runs (fun s => s = fresh_backend opts t) (pg_open numeric parser world fuel) (fun _ => settled) (fun s => connection s = None /\ resting s).
Proof.
  unfold pg_open. apply (runs_bind _ _ _ (fun _ s => s = with_time (fresh_backend opts t) 1 (t + v_took (world 0)))); [by intros s ->|]. intros d.
  apply runs_state. intros s0 ->. apply (runs_bind _ _ _ (fun c s => configure numeric parser opts = Ok c /\ s = with_time (fresh_backend opts t) 1 (t + v_took (world 0)))).
  { apply runs_lift; [by intros c s Hc [-> _]|]. intros s [-> _]. split; [done|by exists None]. }
  intros [[mode host] addresses]. set (s1 := with_destinations (with_time (fresh_backend opts t) 1 (t + v_took (world 0))) mode host addresses).
  apply (runs_bind _ _ _ (fun _ s => rest s1 [] s /\ settled s1)).
  { apply runs_modify. intros s [Hc ->]. split; [apply resting_rest; by exists None|]. split; [by exists None|done]. }
  intros [] s [Hs Hs1]. revert s Hs. eapply runs_attempt with (Y := fun s => exists S', rest s1 S' s).
  - eapply runs_bind; [eapply runs_weaken; [apply ready_runs|done|intros a s H; exact H|eauto]|]. intros [] s (h & Hs). revert s Hs.
    eapply runs_weaken; [apply (schema_runs world fuel s1 d h schema_sql [])|done| |by intros s H]. intros a s [S' H]. by eapply rest_settled.
  - intros e s (S' & link & Hs & _). revert s Hs. eapply runs_weaken; [apply quit_runs|done|intros a s H; exact H|].
    intros s H. split; [apply (at_connection _ _ _ _ H)|]. exact (proj1 (rest_resting _ _ _ (rest_none _ _ _ H))).
Qed.

Lemma get_settled key s r s' : settled s -> pg_get world fuel key s = (r, s') -> settled s'.
Proof.
  intros Hs E. pose proof (get_runs world fuel s key s (resting_rest _ (proj1 Hs))) as H. rewrite E in H. destruct r.
  - destruct H as (n & _ & H & _). by eapply rest_settled.
  - destruct H as (n & _ & H). by eapply rest_settled.
Qed.

Lemma maybe_sent_settled s sql values bin s' : settled s -> maybe_sent s sql values bin s' -> settled s'.
Proof. intros Hs [H|H]; by eapply rest_settled. Qed.

Lemma reachable_settled s : reachable s -> settled s.
Proof.
  induction 1 as [t s E|key s r s' _ IH E|key e v s r s' _ IH E|key e s r s' _ IH E].
  - pose proof (open_runs t _ eq_refl) as H. by rewrite E in H.
  - by eapply get_settled.
  - pose proof (compare_exchange_runs world fuel s key e v s (resting_rest _ (proj1 IH))) as H. rewrite E in H. destruct r; [|by eapply maybe_sent_settled].
    destruct H as [H _]. by eapply rest_settled.
  - pose proof (erase_runs world fuel s key e s (resting_rest _ (proj1 IH))) as H. rewrite E in H. destruct r; [|by eapply maybe_sent_settled].
    destruct H as [(_ & _ & H)|[H _]]; by eapply rest_settled.
Qed.

(** C33 (safety).  Whatever libpq, the server and the clock answer, the calls of libpq a backend
    makes obey its protocol: one connection at a time, opened with the destinations and the mode
    the constructor settled on, and closed before the next; a statement is sent only when the
    last one was read to its end, and only over an endpoint that is local or verified by TLS; no
    result is read but of the statement sent on that connection; every [poll] waits between a
    millisecond and [INT_MAX].  Between operations no statement is on its way.  A constructor
    that throws leaves no connection. *)
Theorem postgres_disciplined :
  (forall s, reachable s -> exists link,
    follow (config s) (log s) = Some (MkWire (handles s) link) /\ connection s = l_handle <$> link /\ (forall l, link = Some l -> l_busy l = false) /\
    configure numeric parser opts = Ok (ssl_mode s, host s, hostaddr s)) /\
  (forall t e s, pg_open numeric parser world fuel (fresh_backend opts t) = (Throw e, s) -> follow (config s) (log s) = Some (MkWire (handles s) None)).
Proof.
  split.
  - intros s H. destruct (reachable_settled s H) as [(link & H1 & H2 & H3) H4]. eauto.
  - intros t e s E. pose proof (open_runs t _ eq_refl) as H. rewrite E in H. destruct H as [Hc (link & H1 & H2 & _)]. rewrite Hc in H2. by destruct link.
Qed.

Lemma rest_sends s0 S s : rest s0 S s -> exists l, log s = log s0 ++ l /\ sends l = S.
Proof. intros (link & H & _). apply H. Qed.

(** A write is sent to the server at most once, whatever happens to the connection:
    [compare_exchange] and [erase] send their one statement, or none when they throw early or
    have nothing to erase; only [get] may send its [SELECT] a second time. *)
Theorem postgres_writes_once s : reachable s ->
  (forall key expected value r s', pg_compare_exchange world fuel key expected value s = (r, s') ->
    exists l, log s' = log s ++ l /\ (sends l = [(cas_sql expected, [key; value], false)] \/ is_ok r = false /\ sends l = [])) /\
  (forall key expected r s', pg_erase world fuel key expected s = (r, s') ->
    exists l, log s' = log s ++ l /\ (sends l = [(delete_sql expected, [key], false)] \/ (is_ok r = false \/ expected = 0) /\ sends l = [])) /\
  (forall key r s', pg_get world fuel key s = (r, s') -> exists l n, log s' = log s ++ l /\ sends l = selects key n /\ (n <= 2)%nat /\ (is_ok r = true -> n <> 0%nat)).
Proof.
  intros [Hs%resting_rest _]%reachable_settled. split_and!.
  - intros key e v r s' E. pose proof (compare_exchange_runs world fuel s key e v s Hs) as H. rewrite E in H. destruct r.
    + destruct H as [(l & H1 & H2)%rest_sends _]. eauto.
    + destruct H as [(l & H1 & H2)%rest_sends|(l & H1 & H2)%rest_sends]; eauto 6.
  - intros key e r s' E. pose proof (erase_runs world fuel s key e s Hs) as H. rewrite E in H. destruct r.
    + destruct H as [(-> & _ & (l & H1 & H2)%rest_sends)|[(l & H1 & H2)%rest_sends _]]; eauto 6.
    + destruct H as [(l & H1 & H2)%rest_sends|(l & H1 & H2)%rest_sends]; eauto 6.
  - intros key r s' E. pose proof (get_runs world fuel s key s Hs) as H. rewrite E in H. destruct r.
    + destruct H as (n & Hn & (l & H1 & H2)%rest_sends & _). exists l, n. split_and!; [done..|lia|]. intros _. lia.
    + destruct H as (n & Hn & (l & H1 & H2)%rest_sends). exists l, n. by split_and!.
Qed.
End Histories.

(** ** One moment of the call

    [store_at m] is the table before the [m]-th call, whoever changed it; [executes sql values
    binary st rows st'] says that the server runs the statement on [st], answers [rows], their
    columns in the binary or in the text form, and leaves [st']. *)

Section Linearizable.
Context (store_at : N -> store) (executes : bytes -> list bytes -> bool -> store -> list (list bytes) -> store -> Prop).

(** What the four statements mean; the version column is a [bigint], eight bytes in the binary
    form.  Of a write only the number of rows is used. *)
Record Sql : Prop := {
  sql_select key st r st' : executes select_sql [key] true st r st' -> st' = st /\
    match cell st key with Some x => sversion x < 2 ^ 63 /\ r = [[svalue x; put_be 8 (sversion x)]] | None => r = [] end;
  sql_insert key value bin st r st' : executes insert_sql [key; value] bin st r st' ->
    match cell st key with Some _ => r = [] /\ st' = st | None => length r = 1%nat /\ wrote st key (Some value) st' end;
  sql_update n key value bin st r st' : 0 < n < i64_max -> executes (update_sql n) [key; value] bin st r st' ->
    if version st key =? n then length r = 1%nat /\ wrote st key (Some value) st' else r = [] /\ st' = st;
  sql_delete n key bin st r st' : 0 < n < i64_max -> executes (delete_sql n) [key] bin st r st' ->
    if version st key =? n then length r = 1%nat /\ wrote st key None st' else r = [] /\ st' = st }.

(** libpq answers a statement sent on an idle connection with what the server made of it, at
    a moment between the two calls. *)
Definition served (s : Postgres) : Prop := forall i h sql values bin j r,
  answers (config s) (log s) i h sql values bin j r -> succeeded (Some r) = true ->
  exists k, i <= k <= j /\ executes sql values bin (store_at k) (rows r) (store_at (k + 1)).

Context (sql_laws : Sql) (table_wf : forall m, store_wf (store_at m)).

Lemma record_of_select key st r st' o : executes select_sql [key] true st (rows r) st' -> record_of r = Ok o -> o = cell st key.
Proof.
  intros H. apply sql_select in H as [_ H]; [|done]. unfold record_of. destruct (cell st key) as [[v n]|]; [|rewrite H; by intros [= <-]].
  destruct H as [Hn ->]. cbn [nth svalue sversion] in *. rewrite size_put_be. cbn [negb N.of_nat]. change (negb (_ =? 8)) with false. cbv iota.
  rewrite (get_put_fold 8 n) by (change (256 ^ N.of_nat 8) with (2 ^ 64); lia). rewrite N.mul_0_l. by intros [= <-].
Qed.

Lemma delivered_runs s0 h sql values bin r s : delivered s0 h sql values bin r s -> succeeded (Some r) = true -> served s ->
  exists k, moment s0 <= k < moment s /\ executes sql values bin (store_at k) (rows r) (store_at (k + 1)).
Proof.
  intros (i & j & H1 & H2 & H3) Hr Hs. destruct (Hs _ _ _ _ _ _ _ H3 Hr) as (k & Hk & H). exists k. split; [lia|done].
Qed.

Lemma cas_allowed k e v bin st r st' : e < i64_max -> store_wf st -> executes (cas_sql e) [k; v] bin st r st' -> allowed st k e (Some v) (Ok (Nat.eqb (length r) 1)) st'.
Proof.
  intros He Hw. unfold cas_sql. destruct (N.eqb_spec e 0) as [->|Hne]; intros H.
  - apply sql_insert in H; [|done]. unfold allowed, version. destruct (cell st k) as [x|] eqn:Ex.
    + destruct H as [-> ->]. cbn. split; [|done]. left. apply Hw in Ex. lia.
    + destruct H as [-> H]. by cbn.
  - apply sql_update in H; [|done|lia]. destruct (N.eqb_spec (version st k) e) as [Hv|Hv].
    + destruct H as [-> H]. by cbn.
    + destruct H as [-> ->]. cbn. auto.
Qed.

Lemma delete_allowed k e bin st r st' : 0 < e < i64_max -> executes (delete_sql e) [k] bin st r st' -> allowed st k e None (Ok (Nat.eqb (length r) 1)) st'.
Proof.
  intros He H. apply sql_delete in H; [|done|done]. destruct (N.eqb_spec (version st k) e) as [Hv|Hv].
  - destruct H as [-> H]. cbn. split; [done|]. split; [lia|done].
  - destruct H as [-> ->]. cbn. auto.
Qed.

(** C32 (refinement).  The backend implements the contract of [Storage], linearizably: while the
    server runs statements as SQL says and libpq answers a statement sent on an idle connection
    with its result, every call that returns did, at one moment between its first and its last
    step, exactly what the contract allows of it, whatever other clients did to the table
    before and after; [get] returned the record of that moment. *)
Theorem postgres_linearizable numeric parser world fuel opts s : reachable numeric parser world fuel opts s ->
  (forall key expected value b s', pg_compare_exchange world fuel key expected value s = (Ok b, s') -> served s' ->
    exists m, moment s <= m < moment s' /\ allowed (store_at m) key expected (Some value) (Ok b) (store_at (m + 1))) /\
  (forall key expected b s', expected <> 0 -> pg_erase world fuel key expected s = (Ok b, s') -> served s' ->
    exists m, moment s <= m < moment s' /\ allowed (store_at m) key expected None (Ok b) (store_at (m + 1))) /\
  (forall key o s', pg_get world fuel key s = (Ok o, s') -> served s' -> exists m, moment s <= m < moment s' /\ o = cell (store_at m) key).
Proof.
  intros [Hs%resting_rest _]%reachable_settled. split_and!.
  - intros key e v b s' E Hv. pose proof (compare_exchange_runs world fuel s key e v s Hs) as H. rewrite E in H. destruct H as (_ & h & r & Hr & Hd & ->).
    destruct (delivered_runs _ _ _ _ _ _ _ Hd Hr Hv) as (m & Hm & H). exists m. split; [done|]. apply (cas_allowed _ _ _ false); try done.
    unfold pg_compare_exchange in E. destruct (_ || _) eqn:Eg; [done|]. bool_prop. tauto.
  - intros key e b s' He E Hv. pose proof (erase_runs world fuel s key e s Hs) as H. rewrite E in H. destruct H as [(? & _)|(_ & h & r & Hr & Hd & ->)]; [done|].
    destruct (delivered_runs _ _ _ _ _ _ _ Hd Hr Hv) as (m & Hm & H). exists m. split; [done|]. apply (delete_allowed _ _ false); try done.
    unfold pg_erase in E. destruct (_ || _) eqn:Eg; [done|]. bool_prop. lia.
  - intros key o s' E Hv. pose proof (get_runs world fuel s key s Hs) as H. rewrite E in H. destruct H as (n & _ & _ & h & r & Hr & Hd & Ho).
    destruct (delivered_runs _ _ _ _ _ _ _ Hd Hr Hv) as (m & Hm & H). exists m. split; [done|]. by eapply record_of_select.
Qed.
End Linearizable.

(** ** Destinations *)

Lemma destinations_throws room value e : destinations_from room value = Throw e -> e = invalid_argument.
Proof.
  revert value. induction room as [|room IH]; intros value; cbn; [by intros [= <-]|]. destruct (cut value) as [first [rest|]]; [|done].
  destruct (destinations_from room rest) eqn:E; [done|]. intros [= <-]. by eapply IH.
Qed.

Lemma remote_throws room value e : remote_from room value = Throw e -> e = invalid_argument.
Proof.
  revert value. induction room as [|room IH]; intros value; cbn; (destruct (is_empty value); [done|]); [by intros [= <-]|].
  destruct (cut value) as [first [rest|]]; [|done]. destruct (remote_from room rest) eqn:E; [done|]. intros [= <-]. by eapply IH.
Qed.

Lemma addresses_throws numeric hosts addresses e : numeric_addresses numeric hosts addresses = Throw e -> e = invalid_argument.
Proof.
  revert addresses. induction hosts as [|h hosts IH]; intros [|a addresses]; cbn; try done. unfold numeric_address.
  repeat case_match; cbn; try (by intros [= <-]); destruct (numeric_addresses numeric hosts addresses) eqn:E; cbn; try done; intros [= <-]; by eapply IH.
Qed.

(** The constructor's policy fails with the errors the code throws. *)
Lemma configure_throws numeric parser opts e : configure numeric parser opts = Throw e -> e <> logic_error.
Proof.
  assert (H : forall (A : Type) (m : result A), (forall e, m = Throw e -> e = invalid_argument) -> forall B (k : A -> result B), (forall a e, k a = Throw e -> e <> logic_error) ->
    forall e, bind m k = Throw e -> e <> logic_error).
  { intros A [a|x] Hm B k Hk e'; cbn; [apply Hk|]. rewrite (Hm x eq_refl). by intros [= <-]. }
  revert e. unfold configure. case_bool_decide; [by intros e [= <-]|]. destruct (conninfo_parse _ _); [|by intros e [= <-]]. destruct (conn_defaults _); [|by intros e [= <-]].
  apply H; [intros e; apply remote_throws|]. intros r1. apply H; [intros e; apply remote_throws|]. intros r2.
  destruct (_ && _); [by intros e [= <-]|]. apply H; [|done]. intros e. unfold numeric_destinations. destruct (_ && _); [by intros [= <-]|].
  destruct (destinations _) as [hosts|] eqn:E1; cbn [bind]; [|intros [= <-]; by apply (destinations_throws 8) in E1].
  destruct (if is_empty _ then _ else _) as [as_|] eqn:E2; cbn [bind].
  - destruct (negb _); [by intros [= <-]|]. destruct (numeric_addresses _ _ _) eqn:E3; cbn; [done|]. intros [= <-]. by eapply addresses_throws.
  - intros [= <-]. revert E2. destruct (is_empty _); [done|]. apply (destinations_throws 8).
Qed.

Definition plain (h : bytes) : Prop := comma ∉ h.
Definition local (h : bytes) : Prop := h = [] \/ loopback h = true.

Lemma cut_plain first : plain first -> cut first = (first, None).
Proof.
  induction first as [|b first IH]; intros H; [done|]. apply not_elem_of_cons in H as [Hb H]. cbn. rewrite IH by done.
  destruct (Byte.eqb b comma) eqn:E; [|done]. apply Byte.byte_dec_bl in E. congruence.
Qed.
Lemma cut_comma first rest : plain first -> cut (first ++ comma :: rest) = (first, Some rest).
Proof.
  induction first as [|b first IH]; intros H; [done|]. apply not_elem_of_cons in H as [Hb H]. cbn. rewrite IH by done.
  destruct (Byte.eqb b comma) eqn:E; [|done]. apply Byte.byte_dec_bl in E. congruence.
Qed.
Lemma cut_first value : plain (cut value).1.
Proof.
  induction value as [|b value IH]; cbn; [apply not_elem_of_nil|]. destruct (Byte.eqb b comma) eqn:E; [apply not_elem_of_nil|].
  destruct (cut value) as [first rest]. cbn in *. apply not_elem_of_cons. split; [|done]. intros <-. by rewrite Byte.byte_dec_lb in E.
Qed.

Lemma destinations_spec room value l : destinations_from room value = Ok l -> l <> [] /\ (length l <= room)%nat /\ Forall plain l.
Proof.
  revert value l. induction room as [|room IH]; intros value l; cbn [destinations_from]; [done|]. pose proof (cut_first value) as Hp.
  destruct (cut value) as [first [rest|]]; [|intros [= <-]; split_and!; [done|cbn; lia|by repeat constructor]].
  intros (l' & (H1 & H2 & H3)%IH & [= <-])%bind_ok. split_and!; [done|cbn; lia|by constructor].
Qed.

(** What [numeric_destinations] writes is read as the list it was written from. *)
Lemma destinations_join l : l <> [] -> Forall plain l -> forall room, (length l <= room)%nat -> destinations_from room (join l) = Ok l.
Proof.
  intros Hl Hp. induction Hp as [|a l Ha Hp IH]; [done|]. intros [|room] Hr; [cbn in Hr; lia|]. cbn [destinations_from join].
  destruct l as [|b l]; [by rewrite cut_plain|]. rewrite cut_comma by done. rewrite IH by (done || cbn in *; lia). done.
Qed.

Lemma remote_local room value l : remote_from room value = Ok false -> destinations_from room value = Ok l -> Forall local l.
Proof.
  revert value l. induction room as [|room IH]; intros value l; cbn [remote_from destinations_from]; [done|].
  destruct value as [|b value]; [intros _ [= <-]; constructor; [by left|done]|]. cbn [is_empty]. destruct (cut (b :: value)) as [first [rest|]].
  - intros (r & Hr & H)%bind_ok (l' & Hl & [= <-])%bind_ok. injection H as H. apply orb_false_iff in H as [H1 ->]. constructor; [|by eapply IH].
    right. by apply negb_false_iff.
  - intros H [= <-]. injection H as H. constructor; [right; by apply negb_false_iff|done].
Qed.

Section Policy.
Context (numeric : bytes -> bool) (localhost_numeric : numeric (lit "127.0.0.1") = true).

(** libpq has nothing to resolve: the address is numeric, or the host is a socket of the
    file system or libpq's default one. *)
Definition resolved (host address : bytes) : Prop := numeric address = true \/ (address = [] /\ (host = [] \/ starts_with (lit "/") host = true)).

Lemma numeric_address_spec host address a : numeric_address numeric host address = Ok a ->
  resolved host a /\ (plain host -> plain address -> plain a) /\ (local host -> local address -> local a).
Proof.
  unfold numeric_address. destruct address as [|b address]; cbn [is_empty].
  - destruct (bytes_eqb_spec host (lit "localhost")) as [->|Hne].
    { intros [= <-]. split; [by left|]. split; [|by right]. intros _ _. apply (bool_decide_unpack _). by vm_compute. }
    destruct (numeric host) eqn:En; [intros [= <-]; split; [by left|]; tauto|].
    destruct (negb (is_empty host) && _) eqn:E; [done|]. intros [= <-]. split; [|tauto]. right. split; [done|].
    destruct host; [by left|]. right. by apply negb_false_iff.
  - destruct (numeric (b :: address)) eqn:En; [|done]. intros [= <-]. split; [by left|]. tauto.
Qed.

Lemma numeric_addresses_spec hosts : forall addresses l, length addresses = length hosts -> numeric_addresses numeric hosts addresses = Ok l ->
  Forall2 resolved hosts l /\ (Forall plain hosts -> Forall plain addresses -> Forall plain l) /\ (Forall local hosts -> Forall local addresses -> Forall local l).
Proof.
  induction hosts as [|h hosts IH]; intros [|a addresses] l Hl; cbn [numeric_addresses]; try done; [by intros [= <-]; repeat constructor|].
  intros (x & (H1 & H2 & H3)%numeric_address_spec & (l' & H & [= <-])%bind_ok)%bind_ok. injection Hl as Hl. destruct (IH _ _ Hl H) as (H4 & H5 & H6).
  split; [by constructor|]. split; intros Hh Ha; inversion Hh; inversion Ha; subst; constructor; auto.
Qed.

Lemma empty_addresses n : Forall plain (repeat [] n) /\ Forall local (repeat [] n).
Proof. split; induction n; cbn; constructor; try done; [apply not_elem_of_nil|by left]. Qed.

Lemma given_spec hostaddr n l : (if is_empty hostaddr then Ok (repeat [] n) else destinations hostaddr) = Ok l ->
  Forall plain l /\ (remote_destinations hostaddr = Ok false -> Forall local l).
Proof.
  destruct hostaddr as [|b hostaddr]; cbn [is_empty].
  - intros [= <-]. split; [apply empty_addresses|]. intros _. apply empty_addresses.
  - intros H. split; [by apply destinations_spec in H as (_ & _ & ?)|]. intros Hr. by eapply remote_local.
Qed.

(** The destinations a backend connects to are settled before libpq is entered:
    libpq gets one address per host, each numeric unless the host is a local socket, so that it
    never resolves a name outside the deadline; and unless the mode is [verify-full] every host
    and address is local. *)
Theorem postgres_destinations parser opts mode host addresses : configure numeric parser opts = Ok (mode, host, addresses) ->
  exists hosts targets, destinations host = Ok hosts /\ destinations addresses = Ok targets /\ Forall2 resolved hosts targets /\
    (mode <> verify_full -> Forall local hosts /\ Forall local targets).
Proof.
  unfold configure. case_bool_decide; [done|]. destruct (conninfo_parse _ _) as [given|]; [|done]. destruct (conn_defaults _) as [defaults|]; [|done].
  set (c := settings defaults given). intros (r1 & Hr1 & (r2 & Hr2 & H1)%bind_ok)%bind_ok. revert H1. destruct (_ && _) eqn:Ep; [done|]. intros H1.
  apply bind_ok in H1 as (x & H1 & [= <- <- <-]). revert H1. unfold numeric_destinations. destruct (negb (is_empty (set_service c)) && (is_empty (set_host c) || is_empty (set_hostaddr c))); [done|]. intros H1.
  apply bind_ok in H1 as (hosts & Hh & (given_addresses & Ha & H2)%bind_ok). revert H2. destruct (Nat.eqb_spec (length given_addresses) (length hosts)) as [Hl|]; [|done]. cbn [negb]. intros H2.
  apply bind_ok in H2 as (l & Hn & [= <-]). pose proof (destinations_spec _ _ _ Hh) as (H3 & H4 & H5).
  destruct (numeric_addresses_spec _ _ _ Hl Hn) as (H6 & H7 & H8). pose proof (Forall2_length _ _ _ H6) as H9.
  apply given_spec in Ha as [Hpl Ha].
  exists hosts, l. split; [done|]. split; [apply destinations_join; [by destruct hosts, l|auto|lia]|]. split; [done|].
  intros Hm. apply bytes_eqb_neq in Hm. rewrite Hm, andb_true_r in Ep. apply orb_false_iff in Ep as [Ep ->]. apply orb_false_iff in Ep as [_ ->].
  pose proof (remote_local _ _ _ Hr1 Hh) as H10. auto.
Qed.
End Policy.

(** ** Deadlines

    Every call takes [tick] at least and [step] at most, waiting apart.  Times are counted from
    the deadline: [timed a b m a' b' x] says that from a time between [a] and [b] behind the
    deadline the action [m] ends by itself, no later than [b'] and no earlier than [a'] when it
    returns, no later than [x] when it throws. *)

Section Deadlines.
Context (world : N -> View) (fuel : nat) (deadline tick step : Z).
Context (tick_positive : (0 < tick)%Z) (took : forall n, (tick <= v_took (world n) <= step)%Z).
Local Open Scope Z_scope.

Definition timed {A} (a b : Z) (m : act A) (a' b' x : Z) : Prop := forall s, a <= clock s - deadline <= b ->
  match m s with
  | (Ok _, s') => a' <= clock s' - deadline <= b'
  | (Throw e, s') => e <> logic_error /\ a <= clock s' - deadline <= x
  end.

(** A millisecond: what [poll] may wait beyond the deadline. *)
Abbreviation grain := (10 ^ 6).

Lemma tick_step : tick <= step.
Proof. specialize (took 0%N). lia. Qed.

Lemma timed_bind {A B} a b (m : act A) a1 b1 (k : A -> act B) a' b' x : timed a b m a1 b1 x -> a <= a1 -> (forall v, timed a1 b1 (k v) a' b' x) -> timed a b (m ≫= k) a' b' x.
Proof.
  intros Hm Ha Hk s Hs. specialize (Hm s Hs). unfold mbind, act_bind. destruct (m s) as [[v|e] s1]; [|done].
  specialize (Hk v s1 Hm). destruct (k v s1) as [[y|e] s2]; [done|]. destruct Hk. split; [done|lia].
Qed.
Lemma timed_weaken {A} a b (m : act A) a1 b1 a' b' x : timed a b m a1 b1 x -> a' <= a1 -> b1 <= b' -> timed a b m a' b' x.
Proof. intros Hm Ha Hb s Hs. specialize (Hm s Hs). destruct (m s) as [[v|e] s1]; [lia|done]. Qed.
Lemma timed_from {A} a b b0 (m : act A) a' b' x : timed a b0 m a' b' x -> b <= b0 -> timed a b m a' b' x.
Proof. intros Hm Hb s Hs. apply Hm. lia. Qed.
Lemma timed_ret {A} a b (v : A) a' b' x : a' <= a -> b <= b' -> timed a b (mret v) a' b' x.
Proof. intros Ha Hb s Hs. cbn. lia. Qed.
Lemma timed_raise {A} a b e a' b' x : e <> logic_error -> b <= x -> timed a b (raise (A := A) e) a' b' x.
Proof. intros He Hx s Hs. split; [done|lia]. Qed.
Lemma timed_attempt {A} a b (m : act A) h a' b' y x : timed a b m a' b' y -> (forall e, e <> logic_error -> timed a y (h e) a' b' x) -> timed a b (attempt m h) a' b' x.
Proof. intros Hm Hh s Hs. specialize (Hm s Hs). unfold attempt. destruct (m s) as [[v|e] s1]; [done|]. destruct Hm as [He Hm]. by apply Hh. Qed.
Lemma timed_state {A} a b (k : Postgres -> act A) a' b' x : (forall s0, timed a b (k s0) a' b' x) -> timed a b (state ≫= k) a' b' x.
Proof. intros H s Hs. by apply (H s). Qed.
Lemma timed_modify a b f x : (forall s, clock (f s) = clock s) -> timed a b (modify f) a b x.
Proof. intros H s Hs. change (a <= clock (f s) - deadline <= b). by rewrite H. Qed.
Lemma timed_look a b x : timed a b (look world) (a + tick) (b + step) x.
Proof. intros s Hs. change (a + tick <= clock s + v_took (world (moment s)) - deadline <= b + step). specialize (took (moment s)). lia. Qed.
Lemma timed_on_handle a b f x : timed a b (on_handle f) a b x.
Proof. intros s Hs. rewrite on_handle_eq. by destruct (connection s). Qed.
Lemma timed_when a b c (m : act unit) b' x : timed a b m a b' x -> b <= b' -> timed a b (when c m) a b' x.
Proof. intros Hm Hb. destruct c; [done|]. by apply timed_ret. Qed.
Lemma timed_disconnect a b x : timed a b (disconnect world) a (b + step) x.
Proof.
  pose proof tick_step. unfold disconnect. apply timed_state. intros s. apply (timed_bind _ _ _ a (b + step)); [|lia|intros _; by apply timed_modify].
  destruct (connection s); [|apply timed_ret; lia]. eapply timed_bind; [apply timed_look|lia|]. intros _.
  eapply timed_weaken; [by apply timed_modify|lia..].
Qed.
Lemma timed_quit {A} a b e a' b' x : e <> logic_error -> b + step <= x -> timed a b (disconnect world;; raise (A := A) e) a' b' x.
Proof. intros He Hx. eapply timed_bind; [apply timed_disconnect|lia|]. intros _. by apply timed_raise. Qed.

(** The time [now] returns is the time it returns at. *)
Lemma timed_now {A} a b (k : Z -> act A) a' b' x :
  (forall t, a + tick <= t - deadline <= b + step -> timed (t - deadline) (t - deadline) (k t) a' b' x) -> timed a b (now world ≫= k) a' b' x.
Proof.
  intros H s Hs. pose proof (timed_look a b x s Hs) as Hl. unfold now, mbind, act_bind. destruct (look world s) as [[v|e] s1] eqn:El; [|done]. cbn [state mret act_ret].
  specialize (H (clock s1) Hl s1 ltac:(lia)). cbn. destruct (k (clock s1) s1) as [[y|e] s2]; [done|]. destruct H. split; [done|lia].
Qed.

(** What follows a check begins before the deadline. *)
Lemma timed_check {A} a b (k : unit -> act A) a' b' x : b + step <= x -> (a + tick < 0 -> timed (a + tick) 0 (k tt) a' b' x) -> timed a b (check_deadline world deadline ≫= k) a' b' x.
Proof.
  intros Hx H s Hs. pose proof (timed_look a b x s Hs) as Hl. unfold check_deadline, now, mbind, act_bind. destruct (look world s) as [[v|e] s1] eqn:El; [|done]. cbn [state mret act_ret]. cbn.
  destruct (Z.leb_spec deadline (clock s1)) as [Hd|Hd]; cbn; [split; [done|lia]|].
  specialize (H ltac:(lia) s1 ltac:(lia)). destruct (k tt s1) as [[y|e] s2]; [done|]. destruct H. split; [done|lia].
Qed.

Lemma timed_block a b limit t c : (forall s, a <= clock s - deadline <= b -> limit (clock s) - deadline <= c) -> b <= c -> forall x, timed a b (block_until limit t) a c x.
Proof. intros H Hb x s Hs. specialize (H s Hs). cbn. lia. Qed.

(** [poll] returns within its timeout, which ends a millisecond behind the deadline. *)
Lemma timeout_grain t : poll_timeout_of t * grain <= Z.max 0 t + grain.
Proof. unfold poll_timeout_of, INT_MAX. pose proof (Z.div_mod (- t) grain ltac:(lia)). pose proof (Z.mod_pos_bound (- t) grain ltac:(lia)). lia. Qed.

Lemma timed_poll a b events t x : timed a b (poll world events t) a (b + step + Z.max 0 (t * grain)) x.
Proof.
  pose proof tick_step. unfold poll. eapply timed_bind; [by apply timed_modify|lia|]. intros []. eapply timed_bind; [apply timed_look|lia|]. intros v.
  eapply timed_bind; [apply (timed_block _ _ _ _ (b + step + Z.max 0 (t * grain))); lia|lia|]. intros _. apply timed_ret; lia.
Qed.

Lemma timed_wait_loop n : forall a b events x, 0 < a + Z.of_nat n * tick -> (0 < n)%nat -> b + step <= x -> grain + 4 * step <= x ->
  timed a b (wait_loop world n events deadline) (a + tick) (grain + 3 * step) x.
Proof.
  induction n as [|n IH]; intros a b events x Hf Hn Hx Hg; [lia|]. pose proof tick_step. rewrite Nat2Z.inj_succ, Z.mul_succ_l in Hf. cbn [wait_loop].
  apply timed_check; [done|]. intros Ha. apply timed_now. intros t Ht. eapply timed_bind; [apply timed_look|lia|]. intros socket.
  destruct (v_fd socket <? 0); [apply timed_raise; [done|lia]|]. pose proof (timeout_grain (deadline - t)).
  eapply timed_bind; [apply timed_poll|lia|]. intros answer.
  assert (Hr : timed (t - deadline + tick) (t - deadline + step + step + Z.max 0 (poll_timeout_of (deadline - t) * grain)) (wait_loop world n events deadline) (a + tick) (grain + 3 * step) x).
  { assert (Hm : a + tick <= t - deadline + tick) by lia. assert (0 < n)%nat by (destruct n; lia). assert (Hf' : 0 < t - deadline + tick + Z.of_nat n * tick) by lia.
    eapply timed_from; [eapply timed_weaken; [apply (IH _ (grain + 3 * step) events x); lia|lia..]|lia]. }
  destruct answer as [| | |revents]; try done; [apply timed_raise; [done|lia]|].
  destruct (masked _ _); [apply timed_raise; [done|lia]|]. apply timed_ret; lia.
Qed.

Context (fuelled : (0 < fuel)%nat).
(** Fuel for every round a loop may begin from the time [a] on. *)
Definition lasts (a : Z) (n : nat) : Prop := 0 < a + Z.of_nat n * tick.

Lemma lasts_round a n a' : lasts a (S n) -> a + tick <= a' -> lasts a' n.
Proof. unfold lasts. rewrite Nat2Z.inj_succ, Z.mul_succ_l. lia. Qed.
Lemma lasts_more a n a' : lasts a n -> a <= a' -> lasts a' n.
Proof. unfold lasts. lia. Qed.

(** What follows [wait] began before the deadline. *)
Lemma timed_wait {A} a b events (k : N -> act A) a' b' x : lasts a fuel -> b + step <= x -> grain + 4 * step <= x ->
  (forall v, a + tick < 0 -> timed (a + tick) (grain + 3 * step) (k v) a' b' x) -> timed a b (wait world fuel events deadline ≫= k) a' b' x.
Proof.
  intros Hf Hx Hg Hk. destruct (Z.ltb_spec (a + tick) 0) as [Hlt|Hge]; [eapply timed_bind; [by apply timed_wait_loop|lia|auto]|].
  unfold wait. destruct fuel as [|n]; [lia|]. cbn [wait_loop]. intros s Hs. unfold mbind at 1, act_bind at 1.
  assert (H : timed a b (wait_loop world (S n) events deadline) (a + tick) (-1) x).
  { cbn [wait_loop]. apply timed_check; [done|]. lia. }
  cbn [wait_loop] in H. specialize (H s Hs). destruct ((check_deadline world deadline;; _) s) as [[v|e] s1]; [lia|done].
Qed.

(** The steps of an action, one by one. *)
Ltac timed_step :=
  match goal with
  | |- timed _ _ (state ≫= _) _ _ _ => apply timed_state; intros ?
  | |- timed _ _ (check_deadline _ _ ≫= _) _ _ _ => apply timed_check; [lia|intros ?]
  | |- timed _ _ (wait _ _ _ _ ≫= _) _ _ _ => apply timed_wait; [eauto using lasts_more with lia|lia..|intros ? ?]
  | |- timed _ _ (look _ ≫= _) _ _ _ => eapply timed_bind; [apply timed_look|lia|intros ?]
  | |- timed _ _ (on_handle _ ≫= _) _ _ _ => eapply timed_bind; [apply timed_on_handle|lia|intros ?]
  | |- timed _ _ (raise _) _ _ _ => apply timed_raise; [done|lia]
  | |- timed _ _ fail _ _ _ => apply timed_raise; [done|lia]
  | |- timed _ _ done _ _ _ => apply timed_ret; lia
  | |- timed _ _ (mret _) _ _ _ => apply timed_ret; lia
  | |- timed _ _ (if ?b then _ else _) _ _ _ => destruct b
  | |- timed _ _ (match ?x with _ => _ end) _ _ _ => destruct x
  end.
Ltac timed_all := repeat timed_step.
(** The last call of an action is the loop itself. *)
Ltac timed_again H := eapply timed_from; [eapply timed_weaken; [apply H; eauto using lasts_round, lasts_more with lia|lia..]|lia].

Lemma lasts_some a n : lasts a n -> a < 0 -> (0 < n)%nat.
Proof. unfold lasts. destruct n; lia. Qed.

Lemma timed_connect_loop n : forall a b x, lasts a n -> lasts a fuel -> (0 < n)%nat -> b + step <= x -> grain + 4 * step <= x ->
  timed a b (connect_loop world fuel n deadline) a step x.
Proof.
  induction n as [|n IH]; intros a b x H1 H2 Hn Hx Hg; [lia|]. pose proof tick_step. cbn [connect_loop]. timed_step.
  assert (H3 : lasts (a + tick) n) by (eapply lasts_round; [done|lia]). pose proof (lasts_some _ _ H3 ltac:(lia)) as Hs. timed_all.
  - timed_again (IH (a + tick + tick + tick) (grain + 3 * step) x).
  - timed_again (IH (a + tick + tick + tick) (grain + 3 * step) x).
  - timed_again (IH (a + tick + tick) (grain + 3 * step) x).
Qed.

Lemma timed_consume a b x : b + step <= x -> timed a b (consume world) a (b + step) x.
Proof. intros Hx. pose proof tick_step. unfold consume. timed_all. Qed.

Lemma timed_flush_loop n : forall a b x, lasts a n -> lasts a fuel -> (0 < n)%nat -> b + step <= x -> grain + 5 * step <= x ->
  timed a b (flush_loop world fuel n deadline) a step x.
Proof.
  induction n as [|n IH]; intros a b x H1 H2 Hn Hx Hg; [lia|]. pose proof tick_step. cbn [flush_loop]. timed_step.
  assert (H3 : lasts (a + tick) n) by (eapply lasts_round; [done|lia]). pose proof (lasts_some _ _ H3 ltac:(lia)) as Hs. timed_all.
  eapply timed_bind; [apply (timed_when _ _ _ _ (grain + 4 * step)); [eapply timed_weaken; [apply timed_consume; lia|lia..]|lia]|lia|]. intros _.
  timed_again (IH (a + tick + tick + tick) (grain + 4 * step) x).
Qed.

Lemma timed_busy_loop n : forall a b x, lasts a n -> lasts a fuel -> (0 < n)%nat -> b + 2 * step <= x -> grain + 6 * step <= x ->
  timed a b (busy_loop world fuel n deadline) a (Z.max b (grain + 4 * step) + step) x.
Proof.
  induction n as [|n IH]; intros a b x H1 H2 Hn Hx Hg; [lia|]. pose proof tick_step. cbn [busy_loop]. timed_all.
  assert (H3 : lasts (a + tick) n) by (eapply lasts_round; [done|lia]). pose proof (lasts_some _ _ H3 ltac:(lia)) as Hs.
  eapply timed_bind; [apply timed_consume; lia|lia|]. intros _. timed_again (IH (a + tick + tick) (grain + 4 * step) x).
Qed.

Lemma timed_collect n : forall a b last x, lasts a n -> lasts a fuel -> (0 < n)%nat -> b + step <= x -> grain + 7 * step <= x ->
  timed a b (collect world fuel n deadline last) a (grain + 6 * step) x.
Proof.
  induction n as [|n IH]; intros a b last x H1 H2 Hn Hx Hg; [lia|]. pose proof tick_step. cbn [collect]. timed_step.
  assert (H3 : lasts (a + tick) n) by (eapply lasts_round; [done|lia]). pose proof (lasts_some _ _ H3 ltac:(lia)) as Hs.
  eapply timed_bind; [apply (timed_busy_loop fuel); eauto using lasts_more with lia|lia|]. intros _. timed_all.
  timed_again (IH (a + tick + tick) (grain + 6 * step) (Some p) x).
Qed.

Lemma timed_send a b sql values bin x : b + step <= x -> timed a b (send world sql values bin) a (b + step) x.
Proof. intros Hx. pose proof tick_step. unfold send. timed_all. Qed.

Lemma timed_query a b sql values bin x : lasts a fuel -> b + step <= x -> grain + 8 * step <= x -> timed a b (query world fuel deadline sql values bin) a (grain + 6 * step) x.
Proof.
  intros Hf Hx Hg. pose proof tick_step. unfold query. timed_step. assert (Hf' : lasts (a + tick) fuel) by (eapply lasts_more; [done|lia]).
  apply (timed_bind _ _ _ (a + tick) (grain + 6 * step)); [|lia|].
  - apply (timed_attempt _ _ _ _ _ _ (grain + 7 * step)); [|intros; apply timed_quit; [done|lia]]. eapply timed_bind; [apply timed_send; lia|lia|]. intros _.
    eapply timed_bind; [apply timed_flush_loop; auto; lia|lia|]. intros _. apply timed_collect; auto; lia.
  - intros r. assert (Hbad : timed (a + tick) (grain + 6 * step) (v ← look world; when (bool_decide (v_status v = connection_bad)) (disconnect world);; fail (A := PGresult)) a (grain + 6 * step) x).
    { timed_step. eapply timed_bind; [apply (timed_when _ _ _ _ (grain + 8 * step)); [eapply timed_weaken; [apply timed_disconnect|lia..]|lia]|lia|]. intros _. timed_step. }
    destruct r as [y|]; [|exact Hbad]. destruct (succeeded (Some y)); [|exact Hbad]. timed_all.
Qed.

Lemma timed_connect a b x : lasts a fuel -> b + step <= x -> grain + 5 * step <= x -> timed a b (connect world fuel deadline) a step x.
Proof.
  intros Hf Hx Hg. pose proof tick_step. unfold connect. do 3 timed_step. assert (Hf' : lasts (a + tick + tick) fuel) by (eapply lasts_more; [done|lia]).
  eapply (timed_bind _ _ _ (a + tick + tick) (0 + step)); [|lia|].
  - destruct (v_started _); [|by apply timed_modify]. eapply timed_bind; [by apply timed_modify|lia|]. intros _. apply timed_on_handle.
  - intros _. eapply timed_weaken; [apply (timed_attempt _ _ _ _ (a + tick + tick) step (grain + 4 * step)); [|intros; apply timed_quit; [done|lia]]|lia..].
    apply (timed_bind _ _ _ (a + tick + tick) (0 + step)); [timed_all|lia|]. intros _.
    eapply timed_bind; [apply timed_connect_loop; auto; lia|lia|]. intros _. timed_all.
Qed.

Lemma timed_ready a b x : lasts a fuel -> b + step <= x -> grain + 5 * step <= x -> timed a b (ready world fuel deadline) a (2 * step) x.
Proof.
  intros Hf Hx Hg. pose proof tick_step. unfold ready. timed_step. timed_step. assert (Hf' : lasts (a + tick) fuel) by (eapply lasts_more; [done|lia]).
  apply (timed_bind _ _ _ (a + tick) step); [timed_all|lia|]. intros healthy.
  apply (timed_bind _ _ _ (a + tick) step); [|lia|intros _; timed_all]. apply timed_when; [|lia].
  eapply timed_bind; [apply timed_disconnect|lia|]. intros _. apply timed_connect; auto; lia.
Qed.

Lemma timed_read a b key x : lasts a fuel -> b + step <= x -> grain + 8 * step <= x -> timed a b (read world fuel key deadline) a (grain + 6 * step) x.
Proof. intros Hf Hx Hg. pose proof tick_step. unfold read. eapply timed_bind; [by apply timed_query|lia|]. intros r. timed_all. Qed.

Lemma timed_lock a b x : b <= 0 -> step <= x -> timed a b (lock world deadline) a step x.
Proof.
  intros Hb Hx. pose proof tick_step. unfold lock. timed_step. eapply timed_bind; [apply (timed_block _ _ _ _ step); lia|lia|]. intros _. timed_all.
Qed.

(** Where every operation ends at the latest. *)
Abbreviation latest := (grain + 10 * step).

(** The part of an operation behind its deadline. *)
Lemma timed_ready_then {A} a b (k : act A) b' : lasts a fuel -> b <= 0 -> timed a (2 * step) k a b' latest -> timed a b (lock world deadline;; ready world fuel deadline;; k) a b' latest.
Proof.
  intros Hf Hb Hk. pose proof tick_step. eapply timed_bind; [apply timed_lock; lia|lia|]. intros _. eapply timed_bind; [apply timed_ready; auto; lia|lia|]. by intros _.
Qed.

Lemma timed_write a b sql values : lasts a fuel -> b <= 0 ->
  timed a b (lock world deadline;; ready world fuel deadline;; r ← query world fuel deadline sql values false; mret (Nat.eqb (length (rows r)) 1)) a latest latest.
Proof.
  intros Hf Hb. pose proof tick_step. apply timed_ready_then; [done..|]. eapply timed_bind; [apply timed_query; auto; lia|lia|]. intros r. timed_all.
Qed.

Lemma timed_get a b key : lasts a fuel -> b <= 0 ->
  timed a b (lock world deadline;; ready world fuel deadline;; attempt (read world fuel key deadline) (fun e =>
    s ← state;
    bad ← match connection s with None => mret true | Some _ => v ← look world; mret (bool_decide (v_status v = connection_bad)) end;
    if negb bad then raise e else check_deadline world deadline;; ready world fuel deadline;; read world fuel key deadline)) a latest latest.
Proof.
  intros Hf Hb. pose proof tick_step. apply timed_ready_then; [done..|]. apply (timed_attempt _ _ _ _ _ _ (grain + 8 * step)); [eapply timed_weaken; [apply timed_read; auto; lia|lia..]|].
  intros e He. timed_step. apply (timed_bind _ _ _ a (grain + 9 * step)); [timed_all|lia|]. intros bad. destruct bad; [|apply timed_raise; [done|cbn; lia]]. cbn [negb]. timed_step.
  assert (Hf' : lasts (a + tick) fuel) by (eapply lasts_more; [done|lia]).
  eapply timed_bind; [apply timed_ready; auto; lia|lia|]. intros _. eapply timed_weaken; [apply timed_read; auto; lia|lia..].
Qed.

Lemma timed_schema a l : lasts a fuel -> forall b, b <= grain + 6 * step -> timed a b (for_each (fun sql => query world fuel deadline sql [] false;; done) l) a (grain + 6 * step) (grain + 9 * step).
Proof.
  intros Hf. pose proof tick_step. induction l as [|sql l IH]; intros b Hb; cbn [for_each]; [apply timed_ret; lia|].
  apply (timed_bind _ _ _ a (grain + 6 * step)); [|lia|intros _; by apply IH]. eapply timed_bind; [apply timed_query; auto; lia|lia|]. intros r. timed_all.
Qed.

Lemma timed_open a b numeric parser : lasts a fuel -> b <= 0 ->
  timed a b (s ← state; c ← lift (configure numeric parser (options s)); let '(mode, host, addresses) := c in
    modify (fun s => with_destinations s mode host addresses);;
    attempt (ready world fuel deadline;; for_each (fun sql => query world fuel deadline sql [] false;; done) schema_sql) (fun e => disconnect world;; raise e)) a latest latest.
Proof.
  intros Hf Hb. pose proof tick_step. timed_step. apply (timed_bind _ _ _ a b); [|lia|].
  - intros s1 Hs1. unfold lift. destruct (configure _ _ _) as [|e] eqn:E; [done|]. split; [by eapply configure_throws|lia].
  - intros [[mode host] addresses]. eapply timed_bind; [by apply timed_modify|lia|]. intros _.
    apply (timed_attempt _ _ _ _ _ _ (grain + 9 * step)); [|intros; apply timed_quit; [done|lia]]. eapply timed_bind; [apply timed_ready; auto; lia|lia|]. intros _.
    eapply timed_weaken; [apply timed_schema; [done|lia]|lia..].
Qed.
End Deadlines.

(** An operation that began in the state [s] ended of its own accord, by its deadline but for a
    millisecond and eleven calls. *)
Definition in_time {A} (step : Z) (s : Postgres) (r : result A * Postgres) : Prop :=
  r.1 <> Throw logic_error /\ (clock s <= clock r.2 <= clock s + operation_timeout + 10 ^ 6 + 11 * step)%Z.

(** The action behind the deadline an operation takes when it begins. *)
Lemma timed_operation {A} world fuel tick step (k : Z -> act A) s :
  (0 < tick)%Z -> (forall n, tick <= v_took (world n) <= step)%Z -> (operation_timeout < tick * Z.of_nat fuel)%Z ->
  (forall d a b, lasts tick a fuel -> (b <= 0)%Z -> timed d a b (k d) a (10 ^ 6 + 10 * step) (10 ^ 6 + 10 * step)) ->
  in_time step s ((d ← new_deadline world; k d) s).
Proof.
  intros Ht Hw Hf Hk. set (t := (clock s + v_took (world (moment s)))%Z). set (s1 := with_time s (moment s + 1) t).
  change ((d ← new_deadline world; k d) s) with (k (t + operation_timeout)%Z s1). specialize (Hw (moment s)). assert (Hc : clock s1 = t) by done.
  assert (H : timed (t + operation_timeout) (- operation_timeout) 0 (k (t + operation_timeout)%Z) (- operation_timeout) (10 ^ 6 + 10 * step) (10 ^ 6 + 10 * step)) by (apply Hk; [unfold lasts; lia|lia]).
  specialize (H s1 ltac:(unfold operation_timeout in *; lia)). unfold in_time. destruct (k _ s1) as [[v|e] s2]; cbn [fst snd]; [split; [done|]|split; [destruct H; congruence|]]; unfold t in *; lia.
Qed.

Lemma in_time_refused {A} step e s : (0 <= step)%Z -> e <> logic_error -> in_time (A := A) step s (raise e s).
Proof. intros Hs He. split; cbn; [congruence|unfold operation_timeout; lia]. Qed.

(** C34 (termination).  Every operation ends by its absolute deadline, whatever libpq and the server answer
    and however long the mutex and the socket stay unready: when a call takes between [tick] and [step] besides
    what [poll] and the mutex make it wait, the construction, [get], [compare_exchange] and [erase] return or
    throw an error of their own, without using up a fuel of five seconds' worth of calls, no later than five
    seconds, the millisecond [poll]'s timeout is rounded by and eleven calls behind their start. *)
Theorem postgres_ends numeric parser world fuel tick step s :
  (0 < tick)%Z -> (forall n, tick <= v_took (world n) <= step)%Z -> (operation_timeout < tick * Z.of_nat fuel)%Z ->
  in_time step s (pg_open numeric parser world fuel s) /\
  (forall key, in_time step s (pg_get world fuel key s)) /\
  (forall key expected value, in_time step s (pg_compare_exchange world fuel key expected value s)) /\
  (forall key expected, in_time step s (pg_erase world fuel key expected s)).
Proof.
  intros Ht Hw Hf. assert (Hs : (0 <= step)%Z) by (specialize (Hw 0); lia). assert (Hn : (0 < fuel)%nat) by (destruct fuel; [unfold operation_timeout in *; lia|lia]). split_and!.
  - apply (timed_operation world fuel tick step _ s Ht Hw Hf). intros d a b Ha Hb. by apply (timed_open world fuel d tick step).
  - intros key. unfold pg_get. destruct (4096 <? size key); [by apply in_time_refused|]. apply (timed_operation world fuel tick step _ s Ht Hw Hf). intros d a b Ha Hb. by apply (timed_get world fuel d tick step).
  - intros key e v. unfold pg_compare_exchange. destruct (_ || _); [by apply in_time_refused|]. apply (timed_operation world fuel tick step _ s Ht Hw Hf). intros d a b Ha Hb. by apply (timed_write world fuel d tick step).
  - intros key e. unfold pg_erase. destruct (_ || _); [by apply in_time_refused|]. destruct (e =? 0); [split; [done|cbn; unfold operation_timeout; lia]|].
    apply (timed_operation world fuel tick step _ s Ht Hw Hf). intros d a b Ha Hb. by apply (timed_write world fuel d tick step).
Qed.

(** ** A run

    A server on this machine that answers every statement at once; each call takes ten
    milliseconds.  [sample_server] runs the four statements, reading the expected version out of
    their text. *)

Definition sample_numeric (a : bytes) : bool := bytes_eqb a (lit "127.0.0.1").
Definition sample_parser : Parser := MkParser (fun _ => Some [(lit "host", Some (lit "localhost")); (lit "sslmode", Some (lit "disable"))]) (Some []).

Definition sample_result (n : N) : option PGresult :=
  if bool_decide (n ∈ [15; 25; 35; 45]) then Some (MkPGresult command_ok [])
  else if n =? 60 then Some (MkPGresult tuples_ok [[put_be 8 1]])
  else if n =? 75 then Some (MkPGresult tuples_ok [[lit "v"; put_be 8 1]])
  else if n =? 90 then Some (MkPGresult tuples_ok [[put_be 8 1]])
  else None.

Definition sample_world (n : N) : View :=
  MkView (10 ^ 7) 0 true true polling_ok false connection_ok (lit "localhost") (Some (lit "127.0.0.1")) false 5 (poll_events POLLIN)
    true 0 true false (sample_result n).

Definition sample_fuel : nat := 600.
Abbreviation sample_open := (pg_open sample_numeric sample_parser sample_world sample_fuel).
Definition sample_opened : Postgres := (sample_open (fresh_backend [] 0)).2.
Definition sample_inserted : Postgres := (pg_compare_exchange sample_world sample_fuel (lit "k") 0 (lit "v") sample_opened).2.
Definition sample_fetched : Postgres := (pg_get sample_world sample_fuel (lit "k") sample_inserted).2.
Definition sample_erased : Postgres := (pg_erase sample_world sample_fuel (lit "k") 1 sample_fetched).2.

Lemma act_result {A} (m : act A) s r : (m s).1 = r -> m s = (r, (m s).2).
Proof. intros <-. by destruct (m s). Qed.

Lemma sample_open_eq : sample_open (fresh_backend [] 0) = (Ok tt, sample_opened).
Proof. unfold sample_opened. apply act_result. by vm_compute. Qed.
Lemma sample_insert_eq : pg_compare_exchange sample_world sample_fuel (lit "k") 0 (lit "v") sample_opened = (Ok true, sample_inserted).
Proof. unfold sample_inserted. apply act_result. by vm_compute. Qed.
Lemma sample_fetch_eq : pg_get sample_world sample_fuel (lit "k") sample_inserted = (Ok (Some (MkStored (lit "v") 1)), sample_fetched).
Proof. unfold sample_fetched. apply act_result. by vm_compute. Qed.
Lemma sample_erase_eq : pg_erase sample_world sample_fuel (lit "k") 1 sample_fetched = (Ok true, sample_erased).
Proof. unfold sample_erased. apply act_result. by vm_compute. Qed.

Abbreviation sample_reachable := (reachable sample_numeric sample_parser sample_world sample_fuel []).
Lemma sample_opened_reachable : sample_reachable sample_opened.
Proof. eapply r_open, sample_open_eq. Qed.
Lemma sample_inserted_reachable : sample_reachable sample_inserted.
Proof. eapply r_cas; [apply sample_opened_reachable|apply sample_insert_eq]. Qed.
Lemma sample_fetched_reachable : sample_reachable sample_fetched.
Proof. eapply r_get; [apply sample_inserted_reachable|apply sample_fetch_eq]. Qed.

Lemma postgres_disciplined_witness : sample_reachable sample_fetched /\ connection sample_fetched = Some 0 /\ exists link,
  follow (config sample_fetched) (log sample_fetched) = Some (MkWire (handles sample_fetched) link).
Proof.
  split; [apply sample_fetched_reachable|]. split; [by vm_compute|].
  destruct (proj1 (postgres_disciplined sample_numeric sample_parser sample_world sample_fuel []) _ sample_fetched_reachable) as (link & H & _). by exists link.
Defined.

Lemma postgres_writes_once_witness : exists l, log sample_inserted = log sample_opened ++ l /\
  (sends l = [(insert_sql, [lit "k"; lit "v"], false)] \/ is_ok (Ok true) = false /\ sends l = []).
Proof.
  exact (proj1 (postgres_writes_once sample_numeric sample_parser sample_world sample_fuel [] sample_opened sample_opened_reachable) _ _ _ _ _ sample_insert_eq).
Defined.

(** A server that never answers, and whose socket stays unready for an hour: the call throws five
    seconds after it began. *)
Definition silent_world (n : N) : View :=
  MkView (10 ^ 7) (3600 * 10 ^ 9) true true polling_reading false connection_ok (lit "localhost") (Some (lit "127.0.0.1")) false 5 poll_timeout true 0 true false None.

Lemma postgres_ends_witness : (pg_get silent_world sample_fuel (lit "k") (fresh_backend [] 0)).1 = Throw runtime_error /\
  (5 * 10 ^ 9 <= clock (pg_get silent_world sample_fuel (lit "k") (fresh_backend [] 0)).2)%Z /\
  in_time (10 ^ 7) (fresh_backend [] 0) (pg_get silent_world sample_fuel (lit "k") (fresh_backend [] 0)).
Proof.
  split; [by vm_compute|]. split; [by vm_compute|].
  refine (proj1 (proj2 (postgres_ends sample_numeric sample_parser silent_world sample_fuel (10 ^ 7) (10 ^ 7) (fresh_backend [] 0) _ _ _)) _); [lia|cbn; lia|by vm_compute].
Defined.

Lemma postgres_destinations_witness : exists hosts targets, destinations (lit "localhost") = Ok hosts /\ destinations (lit "127.0.0.1") = Ok targets /\
  Forall2 (resolved sample_numeric) hosts targets /\ (lit "disable" <> verify_full -> Forall local hosts /\ Forall local targets).
Proof. apply (postgres_destinations sample_numeric eq_refl sample_parser []). by vm_compute. Defined.

(** The server: the statements of the backend, over a table of bigint versions. *)
Definition put_cell (st : store) (k : bytes) (value : option bytes) : store :=
  MkStore (fun k' => if bool_decide (k' = k) then (fun v => MkStored v (high st k + 1)) <$> value else cell st k')
          (fun k' => if bool_decide (k' = k) then high st k + 1 else high st k').

Definition update_prefix : bytes := lit "UPDATE fsnet_records SET value=$2,version=nextval('fsnet_record_revision') WHERE key=$1 AND version=".
Definition delete_prefix : bytes := lit "DELETE FROM fsnet_records WHERE key=$1 AND version=".
Definition returning : bytes := lit " RETURNING version".

(** The number in a statement between the prefix and [RETURNING]. *)
Definition number_in (prefix sql : bytes) : option N :=
  if starts_with prefix sql then Some (decimal_value (take (length sql - length prefix - length returning) (drop (length prefix) sql))) else None.

(** The columns of a row in the binary form; the text form is left empty. *)
Definition sample_server (sql : bytes) (values : list bytes) (bin : bool) (st : store) : list (list bytes) * store :=
  match values with
  | [] => ([], st)
  | k :: values =>
      if bytes_eqb sql select_sql then (match cell st k with Some x => [if bin then [svalue x; put_be 8 (sversion x)] else []] | None => [] end, st)
      else if bytes_eqb sql insert_sql then match cell st k with Some _ => ([], st) | None => ([[put_be 8 (high st k + 1)]], put_cell st k (Some (hd [] values))) end
      else match number_in update_prefix sql with
           | Some n => if version st k =? n then ([[put_be 8 (high st k + 1)]], put_cell st k (Some (hd [] values))) else ([], st)
           | None =>
               match number_in delete_prefix sql with
               | Some n => if version st k =? n then ([[put_be 8 n]], put_cell st k None) else ([], st)
               | None => ([], st)
               end
           end
  end.

Definition sample_executes (sql : bytes) (values : list bytes) (bin : bool) (st : store) (r : list (list bytes)) (st' : store) : Prop :=
  sample_server sql values bin st = (r, st') /\ forall k x, cell st k = Some x -> sversion x < 2 ^ 63.

Lemma put_cell_wrote st k value : wrote st k value (put_cell st k value).
Proof.
  split; cbn.
  - rewrite !bool_decide_eq_true_2 by done. destruct value; cbn; [|done]. eexists. split; [|done]. lia.
  - intros k' Hk. by rewrite bool_decide_eq_false_2.
  - intros k'. case_bool_decide; subst; lia.
Qed.

Lemma number_in_text prefix n : n < i64_max -> number_in prefix (prefix ++ to_string n ++ returning) = Some n.
Proof.
  intros Hn. unfold number_in. rewrite starts_with_app, drop_app_length, !length_app.
  replace (length prefix + _ - length prefix - length returning)%nat with (length (to_string n)) by lia. rewrite take_app_length.
  destruct (decimal_text_spec 19 n) as (_ & H & _); [unfold i64_max in Hn; change (10 ^ N.of_nat 20) with 100000000000000000000; lia|]. by f_equal.
Qed.

Lemma sample_sql : Sql sample_executes.
Proof.
  split.
  - intros key st r st' [H Hv]. cbn in H. destruct (cell st key) eqn:E; injection H as <- <-; eauto.
  - intros key value bin st r st' [H _]. cbn in H. destruct (cell st key); injection H as <- <-; [done|]. split; [done|apply put_cell_wrote].
  - intros n key value bin st r st' Hn [H _]. change (update_sql n) with (update_prefix ++ to_string n ++ returning) in H. unfold sample_server in H.
    rewrite number_in_text in H by lia. change (bytes_eqb (update_prefix ++ ?x) select_sql) with false in H. change (bytes_eqb (update_prefix ++ ?x) insert_sql) with false in H.
    cbv iota in H. destruct (version st key =? n); injection H as <- <-; [|done]. split; [done|apply put_cell_wrote].
  - intros n key bin st r st' Hn [H _]. change (delete_sql n) with (delete_prefix ++ to_string n ++ returning) in H. unfold sample_server in H.
    rewrite number_in_text in H by lia. change (bytes_eqb (delete_prefix ++ ?x) select_sql) with false in H. change (bytes_eqb (delete_prefix ++ ?x) insert_sql) with false in H.
    change (number_in update_prefix (delete_prefix ++ ?x)) with (@None N) in H. cbv iota in H.
    destruct (version st key =? n); injection H as <- <-; [|done]. split; [done|apply put_cell_wrote].
Qed.

(** The table along the run: the insertion runs before call 59 and the deletion before 89. *)
Definition sample_empty : store := MkStore (fun _ => None) (fun _ => 0).
Definition sample_one : store := (sample_server insert_sql [lit "k"; lit "v"] false sample_empty).2.
Definition sample_none : store := (sample_server (delete_sql 1) [lit "k"] false sample_one).2.
Definition sample_store (n : N) : store := if n <=? 58 then sample_empty else if n <=? 88 then sample_one else sample_none.

Lemma put_cell_wf st k value : store_wf st -> store_wf (put_cell st k value).
Proof.
  intros H k' x. cbn. case_bool_decide; subst; [|apply H]. destruct value; cbn; [|done]. intros [= <-]. cbn. lia.
Qed.
Lemma sample_empty_wf : store_wf sample_empty.
Proof. by intros k r. Qed.
Lemma sample_store_wf n : store_wf (sample_store n).
Proof.
  unfold sample_store. repeat case_match; [apply sample_empty_wf|apply put_cell_wf, sample_empty_wf|]. apply put_cell_wf, put_cell_wf, sample_empty_wf.
Qed.

(** The results in a log, each with the statement it answers. *)
Definition exchange : Type := N * N * bytes * list bytes * bool * N * PGresult.
Fixpoint exchanges (pending : option (N * N * bytes * list bytes * bool)) (l : list event) : list exchange :=
  match l with
  | [] => []
  | o_sent i h sql values bin :: l => exchanges (Some (i, h, sql, values, bin)) l
  | o_received j _ (Some r) :: l => match pending with Some x => (x, j, r) :: exchanges pending l | None => exchanges pending l end
  | _ :: l => exchanges pending l
  end.

Lemma exchanges_quiet h l2 l : Forall (quiet h) l2 -> forall x y, y ∈ exchanges (Some x) l -> y ∈ exchanges (Some x) (l2 ++ l).
Proof.
  induction 1 as [|e l2 He _ IH]; intros x y Hy; [done|]. destruct He as [He|(j & r & ->)]; cbn; [destruct e; try done; by apply IH|].
  apply elem_of_cons. right. by apply IH.
Qed.

Lemma exchanges_from l1 : forall p i h sql values bin l y, y ∈ exchanges (Some (i, h, sql, values, bin)) l -> y ∈ exchanges p (l1 ++ o_sent i h sql values bin :: l).
Proof.
  induction l1 as [|e l1 IH]; intros p i h sql values bin l y Hy; [done|]. destruct e as [| | | |j h' [r|]|]; cbn; auto.
  destruct p; [apply elem_of_cons; right|]; auto.
Qed.

Lemma answers_exchanges c lg i h sql values bin j r : answers c lg i h sql values bin j r -> (i, h, sql, values, bin, j, r) ∈ exchanges None lg.
Proof.
  intros (l1 & l2 & l3 & n & -> & _ & Hq). apply exchanges_from, (exchanges_quiet h); [done|]. cbn. apply elem_of_cons. by left.
Qed.

(** A log is served when a moment can be named for each of its exchanges. *)
Lemma served_by store_at executes s (at_moment : N -> N) :
  Forall (fun '(i, h, sql, values, bin, j, r) => i <= at_moment j <= j /\ executes sql values bin (store_at (at_moment j)) (rows r) (store_at (at_moment j + 1))) (exchanges None (log s)) ->
  served store_at executes s.
Proof.
  intros H i h sql values bin j r Ha _. apply answers_exchanges in Ha. rewrite Forall_forall in H. specialize (H _ Ha). cbn in H. eauto.
Qed.

Lemma sample_bounded : (forall k x, cell sample_empty k = Some x -> sversion x < 2 ^ 63) /\ forall k x, cell sample_one k = Some x -> sversion x < 2 ^ 63.
Proof. split; [done|]. intros k x. cbn. case_bool_decide; [|done]. intros [= <-]. cbn. lia. Qed.

Lemma sample_served : served sample_store sample_executes sample_erased.
Proof.
  apply (served_by _ _ _ (fun j => j - 2)). destruct sample_bounded as [H0 H1].
  assert (H : exchanges None (log sample_erased) = [
    (10, 0, schema_sql !!! 0%nat, [], false, 15, MkPGresult command_ok []); (20, 0, schema_sql !!! 1%nat, [], false, 25, MkPGresult command_ok []);
    (30, 0, schema_sql !!! 2%nat, [], false, 35, MkPGresult command_ok []); (40, 0, schema_sql !!! 3%nat, [], false, 45, MkPGresult command_ok []);
    (55, 0, insert_sql, [lit "k"; lit "v"], false, 60, MkPGresult tuples_ok [[put_be 8 1]]);
    (70, 0, select_sql, [lit "k"], true, 75, MkPGresult tuples_ok [[lit "v"; put_be 8 1]]);
    (85, 0, delete_sql 1, [lit "k"], false, 90, MkPGresult tuples_ok [[put_be 8 1]])]) by (by vm_compute).
  rewrite H. clear H. repeat (apply Forall_cons; split; [split; [done|split; [reflexivity|assumption]]|]). done.
Qed.

Lemma postgres_linearizable_witness : exists m, moment sample_fetched <= m < moment sample_erased /\
  allowed (sample_store m) (lit "k") 1 None (Ok true) (sample_store (m + 1)).
Proof.
  destruct (postgres_linearizable sample_store sample_executes sample_sql sample_store_wf sample_numeric sample_parser sample_world sample_fuel []
    sample_fetched sample_fetched_reachable) as (_ & He & _).
  apply (He (lit "k") 1 true sample_erased); [done|apply sample_erase_eq|apply sample_served].
Defined.
